(* ===== verification/_CoqProject ===== *)
-Q . S2P
Prelude.v
Uint256.v
AccessList.v
StateTypes.v
IntraBlockState.v
StateView.v
StateRevert.v
StateOps.v
StateUpdates.v
StateSnapshot.v
StateLaws.v
StateFinalize.v
StateExamples.v
Accounts.v
AccountSpec.v
OpCodes.v
Machine.v
MachineSpec.v
Precompiles.v
Contract.v
EvmTypes.v
JumpTable.v
GasTable.v
Instructions.v
Interpreter.v
EvmLogic.v
EvmGas.v
EvmInstr.v
EvmStep.v
EvmTheorems.v
IbsDB.v
EvmExamples.v
Transaction.v
StateTransition.v
TransitionSpec.v
TransitionTheorems.v
Bloom.v
BlockExec.v
BlockSpec.v
HeaderChecks.v
Difficulty.v
PrecompileRun.v
Rlp.v
RlpStream.v
RlpSpec.v
StreamSpec.v
StreamSafe.v
RlpReflect.v
RlpReflectSpec.v
RlpTheorems.v
TxCodec.v
TxCodecSpec.v
TxCodecTheorems.v
BlockCodec.v
BlockCodecSpec.v
BlockCodecTheorems.v
BorValset.v
BorSpec.v
BorUpdateSpec.v
BorSettled.v
BorSnapshot.v
BorSnapshotSpec.v
BorApplySpec.v
BorTheorems.v
TrieKeys.v
HashBuilder.v
GenStructStep.v
DeriveSha.v
PatriciaSpec.v
GenStructSpec.v
HashBuilderSpec.v
DeriveShaSpec.v
TrieTheorems.v
StagedSync.v
StagedSyncTheorems.v
BorVerify.v
Clique.v
CliqueTheorems.v
Receipts.v
