(* ===== verification/Prelude.v ===== *)
(** * A verification of the execution core of Erigon with the Boba changes

    The program is an Ethereum execution client in Go.  Its core executes
    blocks: [core/blockchain.go] runs the transactions of a block one after
    the other, [core/state_transition.go] buys gas for a transaction, has the
    EVM of [core/vm] run it and settles the gas, the EVM reads and writes the
    accounts through [core/state]'s IntraBlockState, which keeps a journal to
    undo failed calls and hands the changes of a transaction to a writer, and
    [consensus] checks the headers.  Around the core, [rlp] and [core/types]
    encode what is hashed, stored and sent, [turbo/trie] computes the roots in
    the headers, the engines Bor and Clique decide who may seal a block, and
    [eth/stagedsync] drives the synchronisation in stages.  This library
    translates these parts into Rocq functions and proves what they promise to
    each other.

    ** How Go is modelled

    A function that only computes is a function on values.  Code with effects
    is state passing into an [outcome] (this file): a result, a run-time
    panic, a mutex that is never released, or fuel that ran out.  Machine
    integers are integers in [Z] with their wrap-around written out ([u64],
    [int64_of_u64], ...), bytes are [Byte.byte], addresses and hashes numbers
    in [N], Go maps are [gmap]s.  A range over a map goes in an order given by
    a parameter of which only that it permutes is known.  Pointers that are
    shared are modelled as such: the journal mutex, the balance increases the
    journal and the state both point to, the jump destination cache that the
    frames of a call share, the array under a slice that a loop shrinks.

    Code outside of the repository is an interface: [Uint256] and
    [Uint256Spec] (github.com/holiman/uint256), [Uint256Bytes], the function
    [keccak256], the state reader and writer, the sender a signature yields,
    [CalcIntrinsicGas] and the chain configuration of erigon-lib, the
    consensus engine, the cryptography of the native contracts and of the seals,
    the caches and the database of the engines, the work of a stage.  The theorems
    assume of it only what it documents, and the witnesses run on concrete
    instances.

    ** The files

    - Prelude: integers, bytes, outcomes and the state monad, lookups, binary
      search.  Uint256: 256-bit words, their laws, and a model of them.
    - core/state.  AccessList: access_list.go and its refinement to sets.
      StateTypes, IntraBlockState: the records and the methods of
      state_object.go, journal.go and intra_block_state.go.  StateView: what
      an account looks like from outside ([view]), well-formedness ([wf]).
      StateRevert, StateOps, StateUpdates: every update is total on
      well-formed states, has its effect on the views and can be undone.
      StateSnapshot: the accessors as functions of the views, reachable states
      and RevertToSnapshot.  StateLaws: what is written is what is read.
      StateFinalize: FinalizeTx, CommitBlock and the writes they make.
      StateExamples: runs.
    - core/types/accounts.  Accounts, AccountSpec: the three encodings.
    - core/vm.  OpCodes (opcodes, and the constants of params), Machine (stack,
      memory, sizes, memory price), MachineSpec, Precompiles (addresses and
      dispatch), PrecompileRun (prices, identity and modular exponentiation),
      Contract (contracts and jump destination analysis), EvmTypes (contexts,
      the database interface), JumpTable (the tables of all forks), GasTable,
      Instructions, Interpreter (the loop, calls and creations).  EvmLogic: the
      laws a database has to satisfy ([DBLaws]) and triples; EvmGas, EvmInstr,
      EvmStep: every gas function, instruction, table and round; EvmTheorems:
      the entry points and the results.  IbsDB: IntraBlockState as the database;
      EvmExamples: a database with copies for snapshots, and runs.
    - core.  Transaction: the transaction types, messages and fees.
      StateTransition: state_transition.go and gaspool.go, with TransitionSpec
      and TransitionTheorems.  Bloom: bloom9.go.  BlockExec: the execution of
      a block (state_processor.go, blockchain.go, skip_analysis.go), with
      BlockSpec.
    - consensus.  HeaderChecks: gas limit, base fee, fork and DAO checks and
      VerifyHeaderBasics.  Difficulty: the two implementations of the
      difficulty rules.
    - rlp.  Rlp: the encoders of encode.go, the buffer behind Encode and the
      splitting functions of raw.go.  RlpStream: the Stream of decode.go.
      RlpReflect: writers and decoders made by reflection.  RlpSpec,
      StreamSpec, StreamSafe, RlpReflectSpec: the reference encoding, and rules
      for writers and for decoders on encoded and on arbitrary input;
      RlpTheorems: the results.
    - core/types, encodings.  TxCodec, TxCodecSpec, TxCodecTheorems:
      transactions.  BlockCodec, BlockCodecSpec, BlockCodecTheorems: headers,
      withdrawals, bodies and blocks.  Receipts: receipts and logs.
    - turbo/trie.  TrieKeys: encoding.go and turbo/rlphacks.  HashBuilder:
      hashbuilder.go.  GenStructStep: gen_struct_step.go.  DeriveSha:
      hashing.go of core/types and the lists of a block.  PatriciaSpec: the
      trie of the Yellow Paper.  GenStructSpec, HashBuilderSpec, DeriveShaSpec:
      GenStructStep over any machine that assembles tries ([TrieMachine]), and
      HashBuilder as one; TrieTheorems: the results.
    - consensus/bor.  BorValset: validator sets (valset).  BorSnapshot:
      snapshot.go and the seals of bor.go.  BorSpec, BorUpdateSpec, BorSettled:
      priorities, updates and the set between operations; BorSnapshotSpec,
      BorApplySpec: signers, signed bytes and applied headers; BorTheorems: the
      results.  BorVerify: verification and preparation of headers.
    - consensus/clique.  Clique: snapshot.go, verifier.go and clique.go;
      CliqueTheorems: the protocol of EIP-225 and that the snapshots follow it.
    - eth/stagedsync.  StagedSync: stages, stage.go and sync.go;
      StagedSyncTheorems: unwinds and runs.

    ** What is shown

    - State: after any sequence of updates, snapshots and reverts,
      RevertToSnapshot returns and restores every observation of the state
      the snapshot was taken in; no operation panics or blocks; updates are
      read back and touch no other account; FinalizeTx and CommitBlock make
      the writer hear exactly the changed accounts in any map order.  Two
      runs show where the code departs from this (a credit and the created
      flag that a revert forgets).
    - EVM: the tables of all forks fit their instructions; a round of the
      interpreter stays within the stack, memory and code; every call and
      creation comes to an end with no more gas than it got; failed calls and
      static calls leave the world as it was.  This holds for any database
      with the laws, and IntraBlockState is one.
    - Machine: the quadratic memory price, memory round trips, jump
      destinations exactly where instructions start, active native contracts
      as dispatched, the price and result of modular exponentiation as the
      EIPs define them.
    - Transactions: what preCheck admits; gas used within the limits and taken
      from the pool; fees neither created nor lost; failed deposits included.
      A run shows that the nonce reserved for deposits lets any sender mint.
    - Blocks: used gas and remaining gas add up to the limit, receipts add up;
      the bloom has no false negatives; headers are accepted exactly when gas
      limit and base fee follow EIP-1559; the 256-bit difficulty is the
      big-integer one.
    - Encodings: each decoder of accounts, transactions, headers, withdrawals,
      bodies, blocks and receipts inverts its encoder, and the sizes computed in
      advance are right; the decoders of transactions, headers, withdrawals,
      bodies and blocks return on every input; transactions other than deposits
      are accepted in their canonical form only, perhaps inside a string.
      Examples show the exceptions: bodies with deposits, seals of one byte,
      lists that end inside an element, slices of [1]byte by reflection.
    - Roots: DeriveSha gives the root of the Yellow Paper's trie, for
      transactions, withdrawals and receipts; the receipts of deposits are not
      covered by it.
    - Bor: updates of a validator set refine updates of a map; priorities never
      overflow; turns are in proportion to power and none waits for ever;
      applied and verified headers obey the rules, prepared ones are accepted.
      A snapshot that was loaded rejects every signer.
    - Clique: the snapshots refine the protocol of EIP-225; somebody can always
      sign; prepared headers are accepted; the two tests for signers that have to
      wait differ in the first blocks.
    - Staged sync: an unwind brings each stage down to its point; a run ends, and
      ends with one pass over the enabled stages.

    ** Fuel

    The interpreter loop has fuel for one round more than the gas of the
    frame ([loopFuel]); every round that goes on costs gas, so it is enough.
    The entry points have fuel for the nesting of calls ([evm_of], 1026
    levels); the depth limit of 1024 makes it enough.  The jump destination
    analysis has the length of the code.  Loops of decoders have fuel for twice
    the input and two rounds more ([loopFuel] of RlpStream): each element uses up
    input.  GenStructStep has fuel for the length of the key, which every turn
    shortens.  The run of the staged sync and the searches for a snapshot take
    their fuel as an argument: (b + 1) * (n + 1) + n rounds are enough for n
    stages that ask for at most b unwinds; the theorems on accepted headers
    hold for any fuel with which the search ended.  Otherwise the theorems are
    about total correctness: they show that the fuel does not run out.

    ** Bounds

    Roots are shown right for items of 5 to 2^23 bytes: over shorter ones a
    branch would be embedded in its parent, which HashBuilder does not do, and no
    transaction is so short; longer ones exceed the headers of rlphacks.  Sets of Bor validators have a total power within
    MaxTotalVotingPower, as UpdateWithChangeSet enforces, and priorities in the
    window that the number of validators leaves in an int64.

    ** Not modelled

    Tracing and logging, which return nothing to the code; JSON; signatures,
    hashes and curves, which are third-party code; the engines Aura, parlia and
    serenity; sealing, spans and state syncs of Bor, and the waiting in Seal of
    Clique; tries in memory, proofs and roots over database cursors; the stages
    themselves, the transaction pool, networking, RPC and the databases, which
    are I/O, goroutines and calls of the erigon-lib submodule; the Bor and BSC
    variants of block execution and the system calls of the engines. *)
From Stdlib Require Export ZArith Lia.
From coqutil Require Export Byte.
From coqutil Require Import LittleEndianList.
From stdpp Require Export base gmap list fin_maps sets strings option.

(** * Machine integers *)

(** Go's fixed-width unsigned integers are represented by the integer they
    denote; every operation that can wrap does so explicitly. *)
Definition MaxUint64 : Z := 2 ^ 64 - 1.

Definition u64 (z : Z) : Z := z mod 2 ^ 64.

Definition u64_add (x y : Z) : Z := u64 (x + y).

Definition u64_sub (x y : Z) : Z := u64 (x - y).

Definition u64_mul (x y : Z) : Z := u64 (x * y).

Definition is_u64 (z : Z) : Prop := (0 <= z < 2 ^ 64)%Z.

#[global] Instance is_u64_dec z : Decision (is_u64 z).
Proof. unfold is_u64. apply _. Defined.

(** Two's complement reinterpretation of a uint64 as an int64 (the Go
    conversion [int64(x)]). *)
Definition int64_of_u64 (z : Z) : Z := if (z <? 2 ^ 63)%Z then z else (z - 2 ^ 64)%Z.

Lemma u64_range z : is_u64 (u64 z).
Proof. unfold is_u64, u64. apply Z.mod_pos_bound. lia. Qed.

Lemma u64_small z : is_u64 z -> u64 z = z.
Proof. unfold is_u64, u64. intros. by apply Z.mod_small. Qed.

Lemma u64_add_sub x y : is_u64 x -> u64_sub (u64_add x y) y = x.
Proof.
  intros. unfold u64_sub, u64_add, u64. rewrite Zminus_mod_idemp_l.
  replace (x + y - y)%Z with x by lia. by apply u64_small.
Qed.

Lemma u64_add_small x y : is_u64 x -> is_u64 y -> (x + y < 2 ^ 64)%Z -> u64_add x y = (x + y)%Z.
Proof. intros [? _] [? _] ?. apply u64_small. unfold is_u64. lia. Qed.

Lemma u64_sub_small x y : is_u64 x -> is_u64 y -> (y <= x)%Z -> u64_sub x y = (x - y)%Z.
Proof. intros [_ ?] [? _] ?. apply u64_small. unfold is_u64. lia. Qed.

Lemma u64_mul_small x y : (0 <= x * y < 2 ^ 64)%Z -> u64_mul x y = (x * y)%Z.
Proof. intros. by apply u64_small. Qed.

(** * Bytes *)

(** A Go [byte] is a [Byte.byte]; [byte.unsigned] is its value.  The
    big-endian number a byte slice denotes, and back. *)
Definition be_combine (bs : list Byte.byte) : Z := le_combine (rev bs).

Definition be_split (n : nat) (z : Z) : list Byte.byte := rev (le_split n z).

Lemma be_combine_split n z : be_combine (be_split n z) = (z mod 2 ^ (Z.of_nat n * 8))%Z.
Proof. unfold be_combine, be_split. rewrite rev_involutive. apply le_combine_split. Qed.

Lemma length_be_split n z : length (be_split n z) = n.
Proof. unfold be_split. by rewrite length_rev, length_le_split. Qed.

Lemma be_split_combine bs : be_split (length bs) (be_combine bs) = bs.
Proof.
  unfold be_combine, be_split. rewrite <- (length_rev bs), split_le_combine.
  apply rev_involutive.
Qed.

Lemma be_combine_bound bs : (0 <= be_combine bs < 2 ^ (8 * Z.of_nat (length bs)))%Z.
Proof. unfold be_combine. rewrite <- (length_rev bs). apply le_combine_bound. Qed.

(** Leading zeros do not count. *)
Lemma be_combine_zeros n bs : be_combine (replicate n Byte.x00 ++ bs) = be_combine bs.
Proof.
  unfold be_combine. induction n as [|n IH]; [done|]. cbn [replicate app rev].
  by rewrite le_combine_snoc_0.
Qed.

Lemma be_combine_inj bs1 bs2 : length bs1 = length bs2 -> be_combine bs1 = be_combine bs2 -> bs1 = bs2.
Proof. intros Hl Hc. rewrite <- (be_split_combine bs1), <- (be_split_combine bs2). by rewrite Hl, Hc. Qed.

(** * Outcomes and the state monad *)

(** What running a piece of Go code can come to: a result, a run-time panic
    (nil dereference, index out of range, explicit [panic]), a goroutine that
    blocks for ever on a mutex it already holds, or, for a loop that the model
    runs with fuel, fuel that was not enough. *)
Inductive outcome (A : Type) : Type :=
| Ok (a : A)
| Panic
| Deadlock
| OutOfFuel.
Arguments Ok {A} a.
Arguments Panic {A}.
Arguments Deadlock {A}.
Arguments OutOfFuel {A}.

#[global] Instance outcome_ret : MRet outcome := @Ok.

#[global] Instance outcome_bind : MBind outcome := fun A B k m =>
  match m with
  | Ok a => k a
  | Panic => Panic
  | Deadlock => Deadlock
  | OutOfFuel => OutOfFuel
  end.

(** An [option] whose [None] is a run-time panic. *)
Definition or_panic {A} (o : option A) : outcome A :=
  match o with Some a => Ok a | None => Panic end.

(** Stateful code: explicit state passing into an outcome. *)
Definition M (S A : Type) : Type := S -> outcome (A * S).

#[global] Instance M_ret {S} : MRet (M S) := fun A a s => Ok (a, s).

#[global] Instance M_bind {S} : MBind (M S) := fun A B k m s =>
  match m s with
  | Ok (a, s') => k a s'
  | Panic => Panic
  | Deadlock => Deadlock
  | OutOfFuel => OutOfFuel
  end.

Definition gets {S A} (f : S -> A) : M S A := fun s => Ok (f s, s).

Definition modify {S} (f : S -> S) : M S unit := fun s => Ok (tt, f s).

Definition panic {S A} : M S A := fun _ => Panic.

(** A lock that is never released. *)
Definition deadlock {S A} : M S A := fun _ => Deadlock.

Definition out_of_fuel {S A} : M S A := fun _ => OutOfFuel.

(** A dereference of a possibly nil pointer or a map/slice access that the
    source does not guard. *)
Definition deref {S A} (o : option A) : M S A :=
  match o with Some a => mret a | None => panic end.

(** The loop [for _, x := range xs { f(x) }]. *)
Fixpoint mfor {S A} (f : A -> M S unit) (xs : list A) : M S unit :=
  match xs with
  | [] => mret tt
  | x :: xs => _ ← f x; mfor f xs
  end.

Section monad_laws.
Context {S A B C : Type}.
Implicit Types (m : M S A) (k : A -> M S B) (s : S).

Lemma M_bind_Ok m k s a s' : m s = Ok (a, s') -> (m ≫= k) s = k a s'.
Proof. unfold mbind, M_bind. by intros ->. Qed.

Lemma M_bind_inv m k s r :
  (m ≫= k) s = Ok r -> exists a s', m s = Ok (a, s') /\ k a s' = Ok r.
Proof.
  unfold mbind, M_bind. destruct (m s) as [[a s']| | |] eqn:E; [|done..]. eauto.
Qed.

Lemma M_bind_ret_l (a : A) k s : (mret a ≫= k) s = k a s.
Proof. done. Qed.

Lemma M_bind_assoc m k (h : B -> M S C) s :
  ((m ≫= k) ≫= h) s = (m ≫= (fun a => k a ≫= h)) s.
Proof. unfold mbind, M_bind. by destruct (m s) as [[a s']| | |]. Qed.
End monad_laws.

Lemma mfor_app {S A} (f : A -> M S unit) xs ys s :
  mfor f (xs ++ ys) s = (_ ← mfor f xs; mfor f ys) s.
Proof.
  revert s. induction xs as [|x xs IH]; intros s; [done|]. simpl.
  unfold mbind, M_bind. destruct (f x s) as [[[] s']| | |]; [|done..].
  rewrite IH. done.
Qed.

(** Decomposes the hypotheses [run m s = Ok r] of a development step by step. *)
Ltac minv :=
  repeat match goal with
  | H : mbind _ _ _ = Ok _ |- _ =>
      apply M_bind_inv in H; destruct H as (? & ? & ? & H)
  | H : mret _ _ = Ok _ |- _ => unfold mret, M_ret in H
  | H : gets _ _ = Ok _ |- _ => unfold gets in H
  | H : modify _ _ = Ok _ |- _ => unfold modify in H
  | H : panic _ = Ok _ |- _ => discriminate H
  | H : Ok _ = Ok _ |- _ => injection H as H
  | H : (_, _) = (_, _) |- _ => injection H as H
  | H : ?x = (_, _) |- _ => is_var x; subst x
  | H : (_, _) = ?x |- _ => is_var x; subst x
  end; subst.

(** Go's slice indexing by an [int]: [None] is the run-time panic. *)
Definition lookupZ {A} (l : list A) (i : Z) : option A :=
  if (i <? 0)%Z then None else l !! Z.to_nat i.

Lemma lookupZ_Some {A} (l : list A) i x :
  lookupZ l i = Some x <-> (0 <= i)%Z /\ l !! Z.to_nat i = Some x.
Proof.
  unfold lookupZ. destruct (Z.ltb_spec i 0); [|naive_solver].
  split; [done|]. intros [? _]. lia.
Qed.

Lemma lookupZ_lt {A} (l : list A) i :
  (0 <= i < Z.of_nat (length l))%Z -> is_Some (lookupZ l i).
Proof.
  intros. unfold lookupZ. destruct (Z.ltb_spec i 0); [lia|].
  apply lookup_lt_is_Some. lia.
Qed.

(** The second result of Go's [v, ok := m[k]]. *)
Definition isSome {A} (o : option A) : bool := match o with Some _ => true | None => false end.

Lemma isSome_false {A} (o : option A) : isSome o = false <-> o = None.
Proof. by destruct o. Qed.

Lemma isSome_true {A} (o : option A) : isSome o = true <-> is_Some o.
Proof. destruct o; split; eauto; [done|]. by intros []. Qed.

Lemma and_left_nested (A B C : Prop) : (A /\ B) /\ C -> A /\ B /\ C.
Proof. tauto. Qed.

(** [sort.Search(n, f)]: the binary search of the Go library. *)
Fixpoint sort_Search_loop (fuel i j : nat) (f : nat -> bool) : nat :=
  match fuel with
  | O => i
  | S fuel =>
      if decide (i < j)%nat then
        let h := ((i + j) / 2)%nat in
        if f h then sort_Search_loop fuel i h f else sort_Search_loop fuel (S h) j f
      else i
  end.

Definition sort_Search (n : nat) (f : nat -> bool) : nat := sort_Search_loop n 0 n f.

(** On a monotone predicate the search returns the least index that
    satisfies it, or [n] when there is none. *)
Lemma sort_Search_loop_spec fuel i j n f :
  (j - i <= fuel)%nat -> (i <= j <= n)%nat ->
  (forall a b, (a <= b < n)%nat -> f a = true -> f b = true) ->
  (forall a, (a < i)%nat -> f a = false) -> (forall a, (j <= a < n)%nat -> f a = true) ->
  (i <= sort_Search_loop fuel i j f <= j)%nat /\
  (forall a, (a < sort_Search_loop fuel i j f)%nat -> f a = false) /\
  (forall a, (sort_Search_loop fuel i j f <= a < n)%nat -> f a = true).
Proof.
  intros Hfuel Hij Hmono. revert i j Hfuel Hij.
  induction fuel as [|fuel IH]; intros i j Hfuel Hij Hlo Hhi; cbn [sort_Search_loop].
  { split; [lia|]. split; [done|]. intros. apply Hhi. lia. }
  case_decide as Hlt; [|split; [lia|]; split; [done|]; intros; apply Hhi; lia].
  assert (i <= (i + j) / 2 < j)%nat as Hh.
  { split; [apply Nat.div_le_lower_bound; lia|apply Nat.div_lt_upper_bound; lia]. }
  destruct (f ((i + j) / 2)%nat) eqn:E.
  - destruct (IH i ((i + j) / 2)%nat) as (? & ? & ?); [lia|lia|done| |].
    { intros a Ha. eapply Hmono; [|done]. lia. }
    split; [lia|done].
  - destruct (IH (S ((i + j) / 2)) j) as (? & ? & ?); [lia|lia| |done|].
    { intros a Ha. destruct (f a) eqn:Ea; [|done].
      rewrite (Hmono a ((i + j) / 2)%nat) in E; [done|lia|done]. }
    split; [lia|done].
Qed.

Lemma sort_Search_spec n f :
  (forall a b, (a <= b < n)%nat -> f a = true -> f b = true) ->
  (sort_Search n f <= n)%nat /\
  (forall a, (a < sort_Search n f)%nat -> f a = false) /\
  (forall a, (sort_Search n f <= a < n)%nat -> f a = true).
Proof.
  intros Hmono. destruct (sort_Search_loop_spec n 0 n n f) as (? & ? & ?);
    [lia|lia|done|lia|lia|]. unfold sort_Search. split; [lia|done].
Qed.

Lemma sort_Search_unique n f k :
  (forall a b, (a <= b < n)%nat -> f a = true -> f b = true) ->
  (k < n)%nat -> f k = true -> (forall a, (a < k)%nat -> f a = false) -> sort_Search n f = k.
Proof.
  intros Hmono Hk Hfk Hlt. destruct (sort_Search_spec n f Hmono) as (? & Hlo & Hhi).
  destruct (Nat.lt_trichotomy (sort_Search n f) k) as [Hc|[Hc|Hc]]; [|done|].
  - specialize (Hlt _ Hc). rewrite Hhi in Hlt; [done|lia].
  - by rewrite Hlo in Hfk.
Qed.

(** * Addresses and hashes *)

(** [libcommon.Address] and [libcommon.Hash] are fixed-size byte arrays; an
    array is represented by the big-endian number it denotes. *)
Abbreviation address := N (only parsing).
Abbreviation hash := N (only parsing).

Definition bytes_to_N (bs : list Byte.byte) : N := Z.to_N (be_combine bs).

#[local] Open Scope Z_scope.

(** Modular exponentiation by repeated squaring. *)
Fixpoint pow_mod_pos (m x : Z) (p : positive) : Z :=
  match p with
  | xH => x mod m
  | xO p => let r := pow_mod_pos m x p in (r * r) mod m
  | xI p => let r := pow_mod_pos m x p in (r * r * x) mod m
  end.

Lemma pow_mod_pos_spec m x p : pow_mod_pos m x p = (x ^ Z.pos p) mod m.
Proof.
  induction p as [p IH|p IH|]; simpl pow_mod_pos.
  - rewrite IH, Pos2Z.inj_xI, Z.add_1_r, Z.pow_succ_r, Z.pow_twice_r by lia.
    rewrite <- (Zmult_mod_idemp_l (_ * _) x), <- Zmult_mod, Zmult_mod_idemp_l.
    f_equal. ring.
  - rewrite IH, Pos2Z.inj_xO, Z.pow_twice_r. by rewrite <- Zmult_mod.
  - by rewrite Z.pow_1_r.
Qed.

(** ** Lengths of numbers *)

(** BitLen of a big.Int, bits.Len64 of an uint64; and the bytes these need. *)
Definition bitLen (z : Z) : Z := if z =? 0 then 0 else Z.log2 z + 1.

Definition byteLen (z : Z) : Z := (bitLen z + 7) / 8.

Lemma bitLen_nonneg z : 0 <= bitLen z.
Proof. unfold bitLen. pose proof (Z.log2_nonneg z). case_match; lia. Qed.

Lemma byteLen_nonneg z : 0 <= byteLen z.
Proof. pose proof (bitLen_nonneg z). apply Z.div_pos; lia. Qed.

Lemma byteLen_pos z : 0 < z -> 1 <= byteLen z.
Proof.
  intros Hz. unfold byteLen, bitLen. rewrite (proj2 (Z.eqb_neq z 0)) by lia. pose proof (Z.log2_nonneg z).
  apply Z.div_le_lower_bound; lia.
Qed.

(** [byteLen z] bytes hold [z], and no fewer do. *)
Lemma byteLen_bound z : 0 <= z -> z < 2 ^ (8 * byteLen z).
Proof.
  intros Hz. pose proof (byteLen_nonneg z) as Hn. unfold byteLen, bitLen in *.
  destruct (Z.eqb_spec z 0) as [->|]; [by apply Z.pow_pos_nonneg; lia|]. pose proof (Z.log2_nonneg z).
  apply Z.lt_le_trans with (2 ^ Z.succ (Z.log2 z)); [by apply Z.log2_spec; lia|].
  apply Z.pow_le_mono_r; [lia|]. pose proof (Z.mod_pos_bound (Z.log2 z + 1 + 7) 8).
  pose proof (Z.div_mod (Z.log2 z + 1 + 7) 8). lia.
Qed.

Lemma byteLen_le z n : 0 <= z < 2 ^ (8 * n) -> 0 <= n -> byteLen z <= n.
Proof.
  intros Hz Hn. unfold byteLen, bitLen.
  destruct (Z.eqb_spec z 0); [change ((0 + 7) / 8) with 0; lia|].
  pose proof (Z.log2_nonneg z). assert (Z.log2 z < 8 * n) by (apply Z.log2_lt_pow2; lia).
  pose proof (Z.div_mod (Z.log2 z + 1 + 7) 8). pose proof (Z.mod_pos_bound (Z.log2 z + 1 + 7) 8). lia.
Qed.

Lemma be_combine_split_small n z : 0 <= z < 2 ^ (8 * Z.of_nat n) -> be_combine (be_split n z) = z.
Proof. intros Hz. rewrite be_combine_split, Z.mul_comm. by apply Z.mod_small. Qed.

Lemma be_combine_byteLen z : 0 <= z -> be_combine (be_split (Z.to_nat (byteLen z)) z) = z.
Proof.
  intros Hz. apply be_combine_split_small. rewrite Z2Nat.id by apply byteLen_nonneg.
  split; [done|by apply byteLen_bound].
Qed.

(** A Go int, 64 bits wide. *)
Definition int64_wrap (z : Z) : Z := int64_of_u64 (u64 z).

Lemma int64_wrap_small z : 0 <= z < 2 ^ 63 -> int64_wrap z = z.
Proof.
  intros Hz. unfold int64_wrap. rewrite u64_small by (unfold is_u64; lia). unfold int64_of_u64.
  by rewrite (proj2 (Z.ltb_lt z (2 ^ 63))) by lia.
Qed.

Lemma be_combine_cons b bs :
  be_combine (b :: bs) = byte.unsigned b * 2 ^ (8 * Z.of_nat (length bs)) + be_combine bs.
Proof.
  unfold be_combine. cbn [rev]. rewrite le_combine_app, length_rev, le_combine_1.
  pose proof (le_combine_bound (rev bs)) as Hb. rewrite length_rev in Hb. set (k := 8 * Z.of_nat (length bs)) in *.
  replace (Z.of_nat (length bs) * 8) with k by lia. pose proof (Z.add_lor_land (le_combine (rev bs)) (byte.unsigned b ≪ k)) as Ha.
  rewrite Z.shiftl_mul_pow2 in * by lia. enough (Z.land (le_combine (rev bs)) (byte.unsigned b * 2 ^ k) = 0) by lia.
  apply Z.bits_inj'. intros i Hi. rewrite Z.land_spec, Z.bits_0, Z.mul_pow2_bits by lia.
  destruct (Z.ltb_spec i k); [by rewrite (Z.testbit_neg_r _ (i - k)), andb_false_r by lia|].
  destruct (decide (le_combine (rev bs) = 0)) as [->|]; [by rewrite Z.bits_0|]. rewrite Z.bits_above_log2; [done|lia|].
  apply Z.log2_lt_pow2; [lia|]. apply Z.lt_le_trans with (2 ^ k); [lia|]. apply Z.pow_le_mono_r; lia.
Qed.

(** ** Ranges *)

(** What is in range by construction; [auto with ints] closes the side
    conditions of the arithmetic lemmas. *)
Create HintDb ints.
#[export] Hint Resolve u64_range bitLen_nonneg byteLen_nonneg byteLen_pos Z.add_nonneg_nonneg : ints.
