(* ===== verification/Uint256.v ===== *)
(** The interface of the 256-bit integers of package
    [github.com/holiman/uint256], which the sources call but do not contain.

    [Uint256] lists the operations core/ uses, on an abstract representation
    type; [Uint256Spec] states what that package documents of them, through
    the number [to_Z] a value denotes.  The components are written against
    [Uint256] and their theorems against [Uint256Spec]; [U256] at the end is
    a model of both, with which the definitions evaluate. *)
From S2P Require Import Prelude.
From Stdlib Require Import Bool Eqdep_dec.
#[local] Open Scope Z_scope.

Definition two256 : Z := 2 ^ 256.

(** The signed reading of a 256-bit value. *)
Definition signed256 (z : Z) : Z := if z <? 2 ^ 255 then z else z - 2 ^ 256.

Class Uint256 := {
  u256 : Type;
  #[global] u256_eq_dec :: EqDecision u256;
  to_Z : u256 -> Z;
  (* the zero value of the struct, also [Clear] *)
  Clear : u256;
  SetOne : u256;
  SetAllOne : u256;
  SetUint64 : Z -> u256;
  SetBytes : list Byte.byte -> u256;
  FromBig : Z -> u256 * bool;
  IsZero : u256 -> bool;
  IsUint64 : u256 -> bool;
  Uint64 : u256 -> Z;
  Uint64WithOverflow : u256 -> Z * bool;
  LtUint64 : u256 -> Z -> bool;
  GtUint64 : u256 -> Z -> bool;
  Sign : u256 -> Z;
  BitLen : u256 -> Z;
  Bytes32 : u256 -> list Byte.byte;
  Bytes20 : u256 -> list Byte.byte;
  Add : u256 -> u256 -> u256;
  AddOverflow : u256 -> u256 -> u256 * bool;
  Sub : u256 -> u256 -> u256;
  Mul : u256 -> u256 -> u256;
  MulOverflow : u256 -> u256 -> u256 * bool;
  Div : u256 -> u256 -> u256;
  SDiv : u256 -> u256 -> u256;
  Mod : u256 -> u256 -> u256;
  SMod : u256 -> u256 -> u256;
  AddMod : u256 -> u256 -> u256 -> u256;
  MulMod : u256 -> u256 -> u256 -> u256;
  Exp : u256 -> u256 -> u256;
  ExtendSign : u256 -> u256 -> u256;
  Lt : u256 -> u256 -> bool;
  Gt : u256 -> u256 -> bool;
  Slt : u256 -> u256 -> bool;
  Sgt : u256 -> u256 -> bool;
  Eq : u256 -> u256 -> bool;
  And : u256 -> u256 -> u256;
  Or : u256 -> u256 -> u256;
  Xor : u256 -> u256 -> u256;
  Not : u256 -> u256;
  ByteAt : u256 -> u256 -> u256;   (* [val.Byte(&th)] as [ByteAt th val] *)
  Lsh : u256 -> Z -> u256;
  Rsh : u256 -> Z -> u256;
  SRsh : u256 -> Z -> u256
}.

(** The documented behaviour of the package. *)
Class Uint256Spec (U : Uint256) := {
  to_Z_range x : 0 <= to_Z x < two256;
  to_Z_inj x y : to_Z x = to_Z y -> x = y;
  to_Z_Clear : to_Z Clear = 0;
  to_Z_SetOne : to_Z SetOne = 1;
  to_Z_SetAllOne : to_Z SetAllOne = two256 - 1;
  to_Z_SetUint64 n : is_u64 n -> to_Z (SetUint64 n) = n;
  to_Z_SetBytes bs : to_Z (SetBytes bs) = be_combine bs mod two256;
  FromBig_overflow z : 0 <= z -> (FromBig z).2 = (two256 <=? z);
  to_Z_FromBig z : 0 <= z -> to_Z (FromBig z).1 = z mod two256;
  IsZero_spec x : IsZero x = (to_Z x =? 0);
  IsUint64_spec x : IsUint64 x = (to_Z x <? 2 ^ 64);
  Uint64_spec x : Uint64 x = u64 (to_Z x);
  Uint64WithOverflow_spec x : Uint64WithOverflow x = (u64 (to_Z x), 2 ^ 64 <=? to_Z x);
  LtUint64_spec x n : is_u64 n -> LtUint64 x n = (to_Z x <? n);
  GtUint64_spec x n : is_u64 n -> GtUint64 x n = (n <? to_Z x);
  Sign_spec x : Sign x = Z.sgn (signed256 (to_Z x));
  BitLen_spec x : BitLen x = if to_Z x =? 0 then 0 else Z.log2 (to_Z x) + 1;
  Bytes32_spec x : Bytes32 x = be_split 32 (to_Z x);
  Bytes20_spec x : Bytes20 x = be_split 20 (to_Z x);
  to_Z_Add x y : to_Z (Add x y) = (to_Z x + to_Z y) mod two256;
  AddOverflow_spec x y : AddOverflow x y = (Add x y, two256 <=? to_Z x + to_Z y);
  to_Z_Sub x y : to_Z (Sub x y) = (to_Z x - to_Z y) mod two256;
  to_Z_Mul x y : to_Z (Mul x y) = (to_Z x * to_Z y) mod two256;
  MulOverflow_spec x y : MulOverflow x y = (Mul x y, two256 <=? to_Z x * to_Z y);
  to_Z_Div x y : to_Z (Div x y) = to_Z x / to_Z y;
  to_Z_SDiv x y :
    to_Z (SDiv x y) = Z.quot (signed256 (to_Z x)) (signed256 (to_Z y)) mod two256;
  to_Z_Mod x y : to_Z (Mod x y) = if to_Z y =? 0 then 0 else to_Z x mod to_Z y;
  to_Z_SMod x y :
    to_Z (SMod x y) =
      if to_Z y =? 0 then 0
      else Z.rem (signed256 (to_Z x)) (signed256 (to_Z y)) mod two256;
  to_Z_AddMod x y m :
    to_Z (AddMod x y m) = if to_Z m =? 0 then 0 else (to_Z x + to_Z y) mod to_Z m;
  to_Z_MulMod x y m :
    to_Z (MulMod x y m) = if to_Z m =? 0 then 0 else (to_Z x * to_Z y) mod to_Z m;
  to_Z_Exp x y : to_Z (Exp x y) = (to_Z x ^ to_Z y) mod two256;
  (* sign extension of the low [byteNum + 1] bytes *)
  to_Z_ExtendSign x b :
    to_Z (ExtendSign x b) =
      if to_Z b <? 31 then
        let n := 8 * (to_Z b + 1) in
        if Z.testbit (to_Z x) (n - 1)
        then (to_Z x mod 2 ^ n - 2 ^ n) mod two256
        else to_Z x mod 2 ^ n
      else to_Z x;
  Lt_spec x y : Lt x y = (to_Z x <? to_Z y);
  Gt_spec x y : Gt x y = (to_Z y <? to_Z x);
  Slt_spec x y : Slt x y = (signed256 (to_Z x) <? signed256 (to_Z y));
  Sgt_spec x y : Sgt x y = (signed256 (to_Z y) <? signed256 (to_Z x));
  Eq_spec x y : Eq x y = (to_Z x =? to_Z y);
  to_Z_And x y : to_Z (And x y) = Z.land (to_Z x) (to_Z y);
  to_Z_Or x y : to_Z (Or x y) = Z.lor (to_Z x) (to_Z y);
  to_Z_Xor x y : to_Z (Xor x y) = Z.lxor (to_Z x) (to_Z y);
  to_Z_Not x : to_Z (Not x) = two256 - 1 - to_Z x;
  to_Z_ByteAt th x :
    to_Z (ByteAt th x) =
      if to_Z th <? 32 then (to_Z x / 2 ^ (8 * (31 - to_Z th))) mod 256 else 0;
  to_Z_Lsh x n : 0 <= n -> to_Z (Lsh x n) = (to_Z x * 2 ^ n) mod two256;
  to_Z_Rsh x n : 0 <= n -> to_Z (Rsh x n) = to_Z x / 2 ^ n;
  to_Z_SRsh x n : 0 <= n -> to_Z (SRsh x n) = (signed256 (to_Z x) / 2 ^ n) mod two256
}.

(** * Consequences every client uses *)
Section derived.
Context {U : Uint256} {US : Uint256Spec U}.
Implicit Types x y : u256.

Lemma Add_Sub x y : Sub (Add x y) y = x.
Proof.
  apply to_Z_inj. rewrite to_Z_Sub, to_Z_Add, Zminus_mod_idemp_l.
  replace (to_Z x + to_Z y - to_Z y) with (to_Z x) by lia.
  apply Z.mod_small, to_Z_range.
Qed.

Lemma Sub_Add x y : Add (Sub x y) y = x.
Proof.
  apply to_Z_inj. rewrite to_Z_Add, to_Z_Sub, Zplus_mod_idemp_l.
  replace (to_Z x - to_Z y + to_Z y) with (to_Z x) by lia.
  apply Z.mod_small, to_Z_range.
Qed.

Lemma Add_assoc x y z : Add x (Add y z) = Add (Add x y) z.
Proof.
  apply to_Z_inj. rewrite !to_Z_Add, Zplus_mod_idemp_l, Zplus_mod_idemp_r.
  f_equal. lia.
Qed.

Lemma Add_comm x y : Add x y = Add y x.
Proof. apply to_Z_inj. rewrite !to_Z_Add. f_equal. lia. Qed.

Lemma Add_Clear_l x : Add Clear x = x.
Proof.
  apply to_Z_inj. rewrite to_Z_Add, to_Z_Clear. apply Z.mod_small, to_Z_range.
Qed.

Lemma Add_Clear_r x : Add x Clear = x.
Proof. rewrite Add_comm. apply Add_Clear_l. Qed.

Lemma Sub_Clear_r x : Sub x Clear = x.
Proof. rewrite <- (Add_Clear_r x) at 1. apply Add_Sub. Qed.

Lemma SetUint64_0 : SetUint64 0 = Clear.
Proof. apply to_Z_inj. rewrite to_Z_Clear. apply to_Z_SetUint64. unfold is_u64. lia. Qed.

Lemma IsZero_true x : IsZero x = true <-> x = Clear.
Proof.
  rewrite IsZero_spec, Z.eqb_eq. split.
  - intros H. apply to_Z_inj. by rewrite to_Z_Clear.
  - intros ->. apply to_Z_Clear.
Qed.

Lemma IsZero_Clear : IsZero Clear = true.
Proof. by apply IsZero_true. Qed.

Lemma Eq_true x y : Eq x y = true <-> x = y.
Proof.
  rewrite Eq_spec, Z.eqb_eq. split; [apply to_Z_inj|by intros ->].
Qed.

Lemma Uint64_IsUint64 x : IsUint64 x = true -> Uint64 x = to_Z x.
Proof.
  rewrite IsUint64_spec, Uint64_spec, Z.ltb_lt. intros.
  apply u64_small. unfold is_u64. pose proof (to_Z_range x). lia.
Qed.

Lemma Uint64_is_u64 x : is_u64 (Uint64 x).
Proof. rewrite Uint64_spec. apply u64_range. Qed.
End derived.

(** * A model of the interface *)

(** 256-bit words as integers with a computed range certificate. *)
Record word256 := mk_word256 {
  word_Z : Z;
  word_ok : (0 <=? word_Z) && (word_Z <? two256) = true
}.

Lemma word256_eq (x y : word256) : word_Z x = word_Z y -> x = y.
Proof.
  destruct x as [x Hx], y as [y Hy]; simpl; intros ->. f_equal.
  apply UIP_dec, bool_dec.
Qed.

#[global] Instance word256_eq_dec : EqDecision word256.
Proof.
  intros x y. destruct (Z.eq_dec (word_Z x) (word_Z y)) as [E|E].
  - left. by apply word256_eq.
  - right. congruence.
Defined.

Definition word_zero : word256 := mk_word256 0 eq_refl.

Definition wrap256 (z : Z) : word256 :=
  match bool_dec ((0 <=? z mod two256) && (z mod two256 <? two256)) true with
  | left e => mk_word256 (z mod two256) e
  | right _ => word_zero
  end.

Lemma word_Z_wrap z : word_Z (wrap256 z) = z mod two256.
Proof.
  unfold wrap256. destruct bool_dec as [e|n]; [done|]. exfalso. apply n.
  pose proof (Z.mod_pos_bound z two256 ltac:(done)).
  rewrite andb_true_iff, Z.leb_le, Z.ltb_lt. lia.
Qed.

Lemma word_Z_range x : 0 <= word_Z x < two256.
Proof. destruct x as [x Hx]; simpl. rewrite andb_true_iff, Z.leb_le, Z.ltb_lt in Hx. lia. Qed.

(** [x ^ n] reduced at every step, so that it evaluates. *)
Definition pow_mod (x n : Z) : Z :=
  match n with Zpos p => pow_mod_pos two256 x p | Z0 => 1 | Zneg _ => 0 end.

#[export] Instance U256 : Uint256 := {|
  u256 := word256;
  to_Z := word_Z;
  Clear := word_zero;
  SetOne := mk_word256 1 eq_refl;
  SetAllOne := wrap256 (two256 - 1);
  SetUint64 := wrap256;
  SetBytes bs := wrap256 (be_combine bs);
  FromBig z := (wrap256 z, two256 <=? Z.abs z);
  IsZero x := word_Z x =? 0;
  IsUint64 x := word_Z x <? 2 ^ 64;
  Uint64 x := u64 (word_Z x);
  Uint64WithOverflow x := (u64 (word_Z x), 2 ^ 64 <=? word_Z x);
  LtUint64 x n := word_Z x <? n;
  GtUint64 x n := n <? word_Z x;
  Sign x := Z.sgn (signed256 (word_Z x));
  BitLen x := if word_Z x =? 0 then 0 else Z.log2 (word_Z x) + 1;
  Bytes32 x := be_split 32 (word_Z x);
  Bytes20 x := be_split 20 (word_Z x);
  Add x y := wrap256 (word_Z x + word_Z y);
  AddOverflow x y := (wrap256 (word_Z x + word_Z y), two256 <=? word_Z x + word_Z y);
  Sub x y := wrap256 (word_Z x - word_Z y);
  Mul x y := wrap256 (word_Z x * word_Z y);
  MulOverflow x y := (wrap256 (word_Z x * word_Z y), two256 <=? word_Z x * word_Z y);
  Div x y := wrap256 (word_Z x / word_Z y);
  SDiv x y := wrap256 (Z.quot (signed256 (word_Z x)) (signed256 (word_Z y)));
  Mod x y := if word_Z y =? 0 then word_zero else wrap256 (word_Z x mod word_Z y);
  SMod x y :=
    if word_Z y =? 0 then word_zero
    else wrap256 (Z.rem (signed256 (word_Z x)) (signed256 (word_Z y)));
  AddMod x y m :=
    if word_Z m =? 0 then word_zero else wrap256 ((word_Z x + word_Z y) mod word_Z m);
  MulMod x y m :=
    if word_Z m =? 0 then word_zero else wrap256 ((word_Z x * word_Z y) mod word_Z m);
  Exp x y := wrap256 (pow_mod (word_Z x) (word_Z y));
  ExtendSign x b :=
    if word_Z b <? 31 then
      let n := 8 * (word_Z b + 1) in
      if Z.testbit (word_Z x) (n - 1)
      then wrap256 (word_Z x mod 2 ^ n - 2 ^ n)
      else wrap256 (word_Z x mod 2 ^ n)
    else x;
  Lt x y := word_Z x <? word_Z y;
  Gt x y := word_Z y <? word_Z x;
  Slt x y := signed256 (word_Z x) <? signed256 (word_Z y);
  Sgt x y := signed256 (word_Z y) <? signed256 (word_Z x);
  Eq x y := word_Z x =? word_Z y;
  And x y := wrap256 (Z.land (word_Z x) (word_Z y));
  Or x y := wrap256 (Z.lor (word_Z x) (word_Z y));
  Xor x y := wrap256 (Z.lxor (word_Z x) (word_Z y));
  Not x := wrap256 (two256 - 1 - word_Z x);
  ByteAt th x :=
    if word_Z th <? 32 then wrap256 ((word_Z x / 2 ^ (8 * (31 - word_Z th))) mod 256)
    else word_zero;
  Lsh x n := wrap256 (word_Z x * 2 ^ n);
  Rsh x n := wrap256 (word_Z x / 2 ^ n);
  SRsh x n := wrap256 (signed256 (word_Z x) / 2 ^ n)
|}.

Lemma land_range256 x y : 0 <= x < two256 -> 0 <= y < two256 -> 0 <= Z.land x y < two256.
Proof.
  intros [Hx Hx'] [Hy Hy']. rewrite Z.land_nonneg. split; [lia|].
  destruct (Z.eq_dec (Z.land x y) 0) as [->|Hne]; [done|].
  apply Z.log2_lt_pow2; [pose proof (proj2 (Z.land_nonneg x y)); lia|].
  apply Z.le_lt_trans with (Z.min (Z.log2 x) (Z.log2 y)); [by apply Z.log2_land|].
  destruct (Z.eq_dec x 0) as [->|]; [by rewrite Z.land_0_l in Hne|].
  apply Z.min_lt_iff. left. apply Z.log2_lt_pow2; [lia|done].
Qed.

Lemma log2_lt256 x : 0 <= x < two256 -> Z.log2 x < 256.
Proof.
  intros [? ?]. destruct (Z.eq_dec x 0) as [->|]; [done|].
  apply Z.log2_lt_pow2; [lia|done].
Qed.

Lemma log2_lt_two256 x : 0 <= x -> Z.log2 x < 256 -> x < two256.
Proof.
  intros. destruct (Z.eq_dec x 0) as [->|]; [done|]. apply Z.log2_lt_pow2; [lia|done].
Qed.

Lemma lor_range256 x y : 0 <= x < two256 -> 0 <= y < two256 -> 0 <= Z.lor x y < two256.
Proof.
  intros Hx Hy. assert (0 <= Z.lor x y) by (apply Z.lor_nonneg; lia).
  split; [done|]. apply log2_lt_two256; [done|]. rewrite Z.log2_lor by lia.
  apply Z.max_lub_lt; by apply log2_lt256.
Qed.

Lemma lxor_range256 x y : 0 <= x < two256 -> 0 <= y < two256 -> 0 <= Z.lxor x y < two256.
Proof.
  intros Hx Hy. assert (0 <= Z.lxor x y) by (apply Z.lxor_nonneg; lia).
  split; [done|]. apply log2_lt_two256; [done|].
  apply Z.le_lt_trans with (1 := Z.log2_lxor x y ltac:(lia) ltac:(lia)).
  apply Z.max_lub_lt; by apply log2_lt256.
Qed.

Lemma div_range256 x y : 0 <= x < two256 -> 0 <= y -> 0 <= x / y < two256.
Proof.
  intros Hx Hy. destruct (Z.eq_dec y 0) as [->|]; [by rewrite Z.div_0_r|].
  split; [apply Z.div_pos; lia|].
  apply Z.le_lt_trans with x; [|lia]. apply Z.div_le_upper_bound; nia.
Qed.

Lemma mod_range256 x y : 0 <= x -> 0 < y < two256 -> 0 <= x mod y < two256.
Proof. intros. pose proof (Z.mod_pos_bound x y). lia. Qed.

#[export] Instance U256_spec : Uint256Spec U256.
Proof.
  split; cbv beta iota zeta delta [u256 to_Z Clear SetOne SetAllOne SetUint64 SetBytes FromBig IsZero
    IsUint64 Uint64 Uint64WithOverflow LtUint64 GtUint64 Sign BitLen Bytes32 Bytes20 Add
    AddOverflow Sub Mul MulOverflow Div SDiv Mod SMod AddMod MulMod Exp ExtendSign Lt
    Gt Slt Sgt Eq And Or Xor Not ByteAt Lsh Rsh SRsh U256]; intros;
    repeat match goal with |- context [word_Z ?x] => is_var x;
      lazymatch goal with
      | H : 0 <= word_Z x < two256 |- _ => fail
      | _ => pose proof (word_Z_range x)
      end end;
    repeat case_match; rewrite ?word_Z_wrap; try first [reflexivity | assumption];
    repeat match goal with
    | H : (_ =? _) = true |- _ => apply Z.eqb_eq in H
    | H : (_ =? _) = false |- _ => apply Z.eqb_neq in H
    | H : (_ <? _) = true |- _ => apply Z.ltb_lt in H
    end.
  - by apply word256_eq.
  - apply Z.mod_small. unfold is_u64, two256 in *. lia.
  - simpl. by rewrite Z.abs_eq.
  - apply word_Z_wrap.
  - apply Z.mod_small, div_range256; lia.
  - apply Z.mod_small, mod_range256; lia.
  - apply Z.mod_small, mod_range256; lia.
  - apply Z.mod_small, mod_range256; [|lia]. apply Z.mul_nonneg_nonneg; lia.
  - destruct (word_Z y); simpl; [done| |lia].
    rewrite pow_mod_pos_spec, Z.mod_mod; done.
  - apply Z.mod_small.
    assert (0 < 2 ^ (8 * (word_Z b + 1))) by (apply Z.pow_pos_nonneg; lia).
    assert (2 ^ (8 * (word_Z b + 1)) <= two256) by (apply Z.pow_le_mono_r; lia).
    pose proof (Z.mod_pos_bound (word_Z x) (2 ^ (8 * (word_Z b + 1)))). lia.
  - by apply Z.mod_small, land_range256.
  - by apply Z.mod_small, lor_range256.
  - by apply Z.mod_small, lxor_range256.
  - apply Z.mod_small. lia.
  - apply Z.mod_small, mod_range256; [|done].
    apply div_range256; [done|]. apply Z.pow_nonneg. lia.
  - apply Z.mod_small, div_range256; [done|]. apply Z.pow_nonneg. lia.
Qed.

(** Numerals of the model, for concrete inputs. *)
Definition w (z : Z) : @u256 U256 := wrap256 z.
