(* ===== verification/AccessList.v ===== *)
(** core/state/access_list.go: the EIP-2929/2930 access list of a transaction.

    [accessList] keeps, per address, an index into a slice of slot sets (-1
    for an address without slots).  The file shows that this representation
    implements a set of addresses with a set of slots each ([al_rep]), and
    that the journal's two deletions undo the two additions exactly. *)
From S2P Require Import Prelude.
#[local] Open Scope Z_scope.

Record accessList := mk_accessList {
  addresses : gmap address Z;
  slots : list (gset hash)
}.

Definition newAccessList : accessList := mk_accessList ∅ [].

Definition ContainsAddress (address : address) (al : accessList) : bool :=
  isSome (addresses al !! address).

Definition Contains (address : address) (slot : hash) : M accessList (bool * bool) :=
  al ← gets id;
  match addresses al !! address with
  | None => mret (false, false)
  | Some idx =>
      if idx =? -1 then mret (true, false)
      else
        slotmap ← deref (lookupZ (slots al) idx);
        mret (true, bool_decide (slot ∈ slotmap))
  end.

Definition AddAddress (address : address) : M accessList bool :=
  al ← gets id;
  match addresses al !! address with
  | Some _ => mret false
  | None =>
      _ ← modify (fun al => mk_accessList (<[address := -1]> (addresses al)) (slots al));
      mret true
  end.

Definition AddSlot (address : address) (slot : hash) : M accessList (bool * bool) :=
  al ← gets id;
  let idx := addresses al !! address in
  if decide (idx = None \/ idx = Some (-1)) then
    _ ← modify (fun al => mk_accessList
          (<[address := Z.of_nat (length (slots al))]> (addresses al))
          (slots al ++ [{[slot]}]));
    mret (negb (isSome idx), true)
  else
    slotmap ← deref (lookupZ (slots al) (default (-1) idx));
    if decide (slot ∈ slotmap) then mret (false, false)
    else
      _ ← modify (fun al => mk_accessList (addresses al)
            (<[Z.to_nat (default (-1) idx) := {[slot]} ∪ slotmap]> (slots al)));
      mret (false, true).

Definition DeleteSlot (address : address) (slot : hash) : M accessList unit :=
  al ← gets id;
  match addresses al !! address with
  | None => panic
  | Some idx =>
      slotmap ← deref (lookupZ (slots al) idx);
      let slotmap' := slotmap ∖ {[slot]} in
      let slots' := <[Z.to_nat idx := slotmap']> (slots al) in
      if decide (slotmap' = ∅) then
        modify (fun al => mk_accessList (<[address := -1]> (addresses al))
                            (take (Z.to_nat idx) slots'))
      else modify (fun al => mk_accessList (addresses al) slots')
  end.

Definition DeleteAddress (address : address) : M accessList unit :=
  modify (fun al => mk_accessList (delete address (addresses al)) (slots al)).

(** ** Representation invariant *)

Record al_wf (al : accessList) : Prop := {
  alw_idx a i : addresses al !! a = Some i -> i = -1 \/ 0 <= i < Z.of_nat (length (slots al));
  alw_inj a b i : addresses al !! a = Some i -> addresses al !! b = Some i -> 0 <= i -> a = b;
  alw_nonempty i sm : slots al !! i = Some sm -> sm <> ∅
}.

(** The access list as the set of slots of each present address. *)
Definition al_rep (al : accessList) (a : address) : option (gset hash) :=
  match addresses al !! a with
  | None => None
  | Some idx => Some (default ∅ (lookupZ (slots al) idx))
  end.

(** The abstract operations on that view. *)
Definition rep_add_address (f : address -> option (gset hash)) (a b : address) : option (gset hash) :=
  if decide (a = b) then Some (default ∅ (f a)) else f b.

Definition rep_add_slot (f : address -> option (gset hash)) (a : address) (s : hash) (b : address)
  : option (gset hash) :=
  if decide (a = b) then Some ({[s]} ∪ default ∅ (f a)) else f b.

Lemma newAccessList_wf : al_wf newAccessList.
Proof. split; simpl; intros *; [by rewrite lookup_empty..|by rewrite lookup_nil]. Qed.

(** The three shapes a well-formed access list can have at an address. *)
Inductive al_case (al : accessList) (a : address) : Prop :=
| al_absent : addresses al !! a = None -> al_case al a
| al_noslots : addresses al !! a = Some (-1) -> al_case al a
| al_slots i sm :
    addresses al !! a = Some (Z.of_nat i) -> slots al !! i = Some sm -> sm <> ∅ -> al_case al a.

Lemma al_wf_case al a : al_wf al -> al_case al a.
Proof.
  intros Hwf. destruct (addresses al !! a) as [i|] eqn:E; [|by apply al_absent].
  destruct (alw_idx _ Hwf _ _ E) as [->|Hi]; [by apply al_noslots|].
  destruct (lookup_lt_is_Some_2 (slots al) (Z.to_nat i)) as [sm Hsm]; [lia|].
  apply al_slots with (Z.to_nat i) sm; [by rewrite Z2Nat.id by lia|done|].
  by apply (alw_nonempty _ Hwf _ _ Hsm).
Qed.

Lemma lookupZ_of_nat {A} (l : list A) (i : nat) : lookupZ l (Z.of_nat i) = l !! i.
Proof. unfold lookupZ. destruct (Z.ltb_spec (Z.of_nat i) 0); [lia|]. by rewrite Nat2Z.id. Qed.

Lemma lookupZ_neg {A} (l : list A) : lookupZ l (-1) = None.
Proof. done. Qed.

(** ** Behaviour of the operations *)

Lemma Contains_spec al a s :
  al_wf al ->
  Contains a s al = Ok ((isSome (al_rep al a),
                         bool_decide (s ∈ default ∅ (al_rep al a))), al).
Proof.
  intros Hwf. unfold Contains, al_rep, mbind, M_bind, gets, mret, M_ret; simpl.
  destruct (al_wf_case al a Hwf) as [E|E|i sm E Hsm Hne]; rewrite E; simpl.
  - done.
  - done.
  - destruct (Z.eqb_spec (Z.of_nat i) (-1)); [lia|].
    by rewrite lookupZ_of_nat, Hsm.
Qed.

Lemma AddAddress_spec al a :
  al_wf al ->
  exists al', AddAddress a al = Ok (negb (isSome (al_rep al a)), al') /\
    al_wf al' /\ (forall b, al_rep al' b = rep_add_address (al_rep al) a b) /\
    (al_rep al a = None -> DeleteAddress a al' = Ok (tt, al)) /\
    (isSome (al_rep al a) = true -> al' = al).
Proof.
  intros Hwf. unfold AddAddress, mbind, M_bind, gets, mret, M_ret, modify; simpl.
  destruct (addresses al !! a) as [i|] eqn:E; simpl.
  - exists al. split_and!; [by unfold al_rep; rewrite E|done| |by unfold al_rep; rewrite E|done].
    intros b. unfold rep_add_address. case_decide as Hd; [subst|done]. unfold al_rep. by rewrite E.
  - eexists. split_and!; [by unfold al_rep; rewrite E| | | |].
    + destruct Hwf as [Hi Hj Hn]. split; simpl.
      * intros b i. rewrite lookup_insert. case_decide; [naive_solver|]. apply Hi.
      * intros b c i. rewrite !lookup_insert. repeat case_decide; intros; simplify_eq; try lia; eauto.
      * done.
    + intros b. unfold rep_add_address, al_rep; simpl. rewrite lookup_insert.
      case_decide; [by rewrite E|done].
    + intros _. unfold DeleteAddress, modify; simpl. rewrite delete_insert_id by done.
      by destruct al.
    + unfold al_rep. by rewrite E.
Qed.

Lemma al_rep_absent al a : al_rep al a = None <-> addresses al !! a = None.
Proof. unfold al_rep. by destruct (addresses al !! a). Qed.

(** A slot set that is added under the next free index. *)
Lemma al_wf_push al a s :
  al_wf al -> addresses al !! a = None \/ addresses al !! a = Some (-1) ->
  al_wf (mk_accessList (<[a := Z.of_nat (length (slots al))]> (addresses al))
                       (slots al ++ [{[s]}])).
Proof.
  intros [Hi Hj Hn] Ha. split; simpl.
  - intros b i. rewrite lookup_insert, length_app; simpl.
    case_decide; intros E; simplify_eq; [lia|]. specialize (Hi _ _ E). lia.
  - intros b c i. rewrite !lookup_insert.
    repeat case_decide; intros Eb Ec; simplify_eq; [done| | |by eapply Hj].
    + destruct (Hi c _ Ec); lia.
    + destruct (Hi b _ Eb); lia.
  - intros i sm. rewrite lookup_app_Some. intros [Hsm|[_ Hsm]]; [by eapply Hn|].
    apply list_lookup_singleton_Some in Hsm as [_ <-]. set_solver.
Qed.

(** A slot that is added to an existing slot set. *)
Lemma al_wf_grow al i (sm : gset hash) :
  al_wf al -> sm <> ∅ -> al_wf (mk_accessList (addresses al) (<[i := sm]> (slots al))).
Proof.
  intros [Hi Hj Hn] Hne. split; simpl; [|done|].
  - intros b j. rewrite length_insert. apply Hi.
  - intros j sm'. rewrite list_lookup_insert_Some. intros [(<- & -> & _)|[_ Hsm]]; [done|by eapply Hn].
Qed.

Lemma al_rep_push al a s b :
  al_wf al -> addresses al !! a = None \/ addresses al !! a = Some (-1) ->
  al_rep (mk_accessList (<[a := Z.of_nat (length (slots al))]> (addresses al))
                        (slots al ++ [{[s]}])) b = rep_add_slot (al_rep al) a s b.
Proof.
  intros Hwf Ha. unfold rep_add_slot, al_rep; simpl. rewrite lookup_insert. case_decide.
  - subst. rewrite lookupZ_of_nat, lookup_app_r, Nat.sub_diag by lia; simpl.
    destruct Ha as [->| ->]; simpl; f_equal; set_solver.
  - destruct (addresses al !! b) as [i|] eqn:E; [|done].
    destruct (alw_idx _ Hwf _ _ E) as [->|Hi]; [done|].
    unfold lookupZ. destruct (Z.ltb_spec i 0); [lia|]. rewrite lookup_app_l by lia. done.
Qed.

Lemma al_rep_grow al a i sm s b :
  al_wf al -> addresses al !! a = Some (Z.of_nat i) -> slots al !! i = Some sm ->
  al_rep (mk_accessList (addresses al) (<[i := {[s]} ∪ sm]> (slots al))) b
    = rep_add_slot (al_rep al) a s b.
Proof.
  intros Hwf Ha Hsm. unfold rep_add_slot, al_rep; simpl.
  pose proof (lookup_lt_Some _ _ _ Hsm). case_decide.
  - subst. rewrite Ha; simpl. by rewrite !lookupZ_of_nat, Hsm, list_lookup_insert_eq.
  - destruct (addresses al !! b) as [j|] eqn:E; [|done].
    destruct (alw_idx _ Hwf _ _ E) as [->|Hj]; [done|].
    unfold lookupZ. destruct (Z.ltb_spec j 0); [lia|].
    rewrite list_lookup_insert_ne; [done|]. intros ->.
    rewrite Z2Nat.id in Ha by lia. destruct H0. by eapply (alw_inj _ Hwf).
Qed.

(** Undoing what a call of AddSlot reports in its two results, in the order
    the journal replays them. *)
Definition undo_AddSlot (a : address) (s : hash) (changed : bool * bool) : M accessList unit :=
  _ ← (if changed.2 then DeleteSlot a s else mret tt);
  if changed.1 then DeleteAddress a else mret tt.

Lemma DeleteSlot_push al a s :
  DeleteSlot a s (mk_accessList (<[a := Z.of_nat (length (slots al))]> (addresses al))
                                (slots al ++ [{[s]}]))
  = Ok (tt, mk_accessList (<[a := -1]> (addresses al)) (slots al)).
Proof.
  unfold DeleteSlot, mbind, M_bind, gets, deref; simpl. rewrite lookup_insert_eq.
  rewrite lookupZ_of_nat, lookup_app_r, Nat.sub_diag by lia; simpl.
  destruct (decide _) as [|Hne]; [|destruct Hne; set_solver].
  unfold modify. simpl. rewrite insert_insert_eq, Nat2Z.id, take_insert_ge by lia.
  by rewrite take_app_length.
Qed.

Lemma DeleteSlot_grow al a i sm s :
  addresses al !! a = Some (Z.of_nat i) -> slots al !! i = Some sm -> sm <> ∅ -> s ∉ sm ->
  DeleteSlot a s (mk_accessList (addresses al) (<[i := {[s]} ∪ sm]> (slots al))) = Ok (tt, al).
Proof.
  intros Ha Hsm Hne Hs. pose proof (lookup_lt_Some _ _ _ Hsm).
  unfold DeleteSlot, mbind, M_bind, gets, deref; simpl.
  rewrite Ha, lookupZ_of_nat, list_lookup_insert_eq by done; simpl.
  replace (({[s]} ∪ sm) ∖ {[s]}) with sm by set_solver.
  rewrite decide_False by done. unfold modify; simpl.
  by rewrite Nat2Z.id, list_insert_insert_eq, list_insert_id by done; destruct al.
Qed.

(** AddSlot: total on well-formed lists, adds the slot to the abstract view,
    reports exactly what changed, and is undone exactly. *)
Lemma AddSlot_spec al a s :
  al_wf al ->
  exists al', AddSlot a s al
      = Ok ((negb (isSome (al_rep al a)), negb (bool_decide (s ∈ default ∅ (al_rep al a)))), al') /\
    al_wf al' /\ (forall b, al_rep al' b = rep_add_slot (al_rep al) a s b) /\
    undo_AddSlot a s (negb (isSome (al_rep al a)), negb (bool_decide (s ∈ default ∅ (al_rep al a)))) al'
      = Ok (tt, al).
Proof.
  intros Hwf. unfold AddSlot, mbind, M_bind, gets; simpl.
  destruct (al_wf_case al a Hwf) as [E|E|i sm E Hsm Hne].
  1, 2: rewrite decide_True by (rewrite E; auto); unfold modify, mret, M_ret; simpl;
    unfold undo_AddSlot; eexists; split_and!;
    [unfold al_rep; rewrite E; done|apply al_wf_push; auto|intros; apply al_rep_push; auto|];
    unfold al_rep; rewrite E; simpl; rewrite (bool_decide_eq_false_2 (s ∈ ∅)) by set_solver;
    unfold mbind, M_bind, DeleteAddress, mret, M_ret, modify; simpl;
    rewrite DeleteSlot_push; simpl.
  - rewrite delete_insert_id by done. by destruct al.
  - rewrite insert_id by done. by destruct al.
  - rewrite decide_False by (rewrite E; intros [?|?]; simplify_eq; lia). rewrite E; simpl.
    assert (al_rep al a = Some sm) as Hrep.
    { unfold al_rep. by rewrite E, lookupZ_of_nat, Hsm. }
    rewrite Hrep, lookupZ_of_nat, Hsm; simpl. case_decide; simpl.
    + rewrite bool_decide_eq_true_2 by done. exists al. unfold mret, M_ret. split_and!; [done|done| |done].
      intros b. unfold rep_add_slot. case_decide as Hd; [subst|done]. rewrite Hrep; simpl. f_equal. set_solver.
    + rewrite bool_decide_eq_false_2 by done. unfold modify, mret, M_ret; simpl. rewrite Nat2Z.id.
      eexists. split_and!; [done|apply al_wf_grow; set_solver|by intros; apply al_rep_grow|].
      unfold undo_AddSlot, mbind, M_bind; simpl. by rewrite DeleteSlot_grow.
Qed.

Lemma ContainsAddress_spec al a : ContainsAddress a al = isSome (al_rep al a).
Proof. unfold ContainsAddress, al_rep. by destruct (addresses al !! a). Qed.

(** ** Properties *)

(** A sequence of additions, as PrepareAccessList and the EVM issue them. *)
Inductive al_op :=
| OpAddAddress (a : address)
| OpAddSlot (a : address) (s : hash).

Definition al_step (o : al_op) : M accessList unit :=
  match o with
  | OpAddAddress a => _ ← AddAddress a; mret tt
  | OpAddSlot a s => _ ← AddSlot a s; mret tt
  end.

Definition al_mentions (ops : list al_op) (a : address) : bool :=
  existsb (fun o => match o with OpAddAddress b | OpAddSlot b _ => bool_decide (a = b) end) ops.

Definition al_mentions_slot (ops : list al_op) (a : address) (s : hash) : bool :=
  existsb (fun o => match o with
                    | OpAddSlot b t => bool_decide (a = b) && bool_decide (s = t)
                    | OpAddAddress _ => false end) ops.

Lemma al_step_spec o al :
  al_wf al -> exists al', al_step o al = Ok (tt, al') /\ al_wf al' /\
    forall b, al_rep al' b = match o with
              | OpAddAddress a => rep_add_address (al_rep al) a b
              | OpAddSlot a s => rep_add_slot (al_rep al) a s b end.
Proof.
  intros Hwf. destruct o as [a|a s]; simpl.
  - destruct (AddAddress_spec al a Hwf) as (al' & E & ? & ? & _).
    exists al'. split; [|done]. unfold mbind, M_bind. by rewrite E.
  - destruct (AddSlot_spec al a s Hwf) as (al' & E & ? & ? & _).
    exists al'. split; [|done]. unfold mbind, M_bind. by rewrite E.
Qed.

(** Whatever was added is exactly what the list contains. *)
Lemma al_run_contains ops al a s :
  al_wf al -> exists al', mfor al_step ops al = Ok (tt, al') /\ al_wf al' /\
    isSome (al_rep al' a) = isSome (al_rep al a) || al_mentions ops a /\
    (s ∈ default ∅ (al_rep al' a) <-> s ∈ default ∅ (al_rep al a) \/ al_mentions_slot ops a s = true).
Proof.
  revert al. induction ops as [|o ops IH]; intros al Hwf; simpl.
  { exists al. unfold mret, M_ret. rewrite orb_false_r. naive_solver. }
  destruct (al_step_spec o al Hwf) as (al1 & E1 & Hwf1 & Hrep).
  destruct (IH al1 Hwf1) as (al2 & E2 & Hwf2 & Ha & Hs).
  exists al2. split_and!; [unfold mbind, M_bind; by rewrite E1|done| |].
  - rewrite Ha, Hrep. destruct o as [b|b t]; unfold rep_add_address, rep_add_slot;
      destruct (decide (b = a)) as [->|]; simpl;
      rewrite ?bool_decide_eq_true_2, ?bool_decide_eq_false_2 by congruence;
      by rewrite ?orb_true_r, ?orb_false_l.
  - rewrite Hs, Hrep. destruct o as [b|b t]; unfold rep_add_address, rep_add_slot;
      destruct (decide (b = a)) as [->|]; simpl.
    + naive_solver.
    + naive_solver.
    + rewrite bool_decide_eq_true_2 by done; simpl.
      rewrite elem_of_union, elem_of_singleton, orb_true_iff, bool_decide_eq_true. tauto.
    + rewrite (bool_decide_eq_false_2 (a = b)) by congruence; simpl. tauto.
Qed.
