(* ===== verification/StateTypes.v ===== *)
(** Data of package core/state: accounts (core/types/accounts/account.go),
    state objects (state_object.go), the change journal (journal.go) and the
    IntraBlockState itself (intra_block_state.go), with the interfaces it
    reads from and writes to (database.go).

    Pointers: the objects of [stateObjects] are owned by that map, so they are
    stored in it by value and an update goes through the map; the
    [*BalanceIncrease] cells are shared between the [balanceInc] map and the
    journal, so they live in an explicit store ([biHeap]) and both sides hold
    references into it. *)
From S2P Require Import Prelude Uint256 AccessList.
#[local] Open Scope Z_scope.

(** Errors are only ever stored and compared with nil. *)
Abbreviation error := string (only parsing).

(** var ripemd, SystemAddress and trie.EmptyRoot. *)
Definition ripemd : address := 3%N.

Definition SystemAddress : address := 0xfffffffffffffffffffffffffffffffffffffffe%N.

Definition EmptyRoot : hash :=
  0x56e81f171bcc55a6ff8345e692c0f86e5b48e01b996cadc001622fb5e363b421%N.

Section types.
Context {U : Uint256}.

Record Account := mk_Account {
  Initialised : bool;
  Nonce : Z;
  Balance : u256;
  Root : hash;
  CodeHash : hash;
  Incarnation : Z
}.

Record stateObject := mk_stateObject {
  so_address : address;
  data : Account;
  original : Account;
  code : option (list Byte.byte);
  originStorage : gmap hash u256;
  blockOriginStorage : gmap hash u256;
  dirtyStorage : gmap hash u256;
  fakeStorage : option (gmap hash u256);
  dirtyCode : bool;
  selfdestructed : bool;
  deleted : bool;
  created : bool
}.

(** core/types/log.go, the fields core/state and core/vm set. *)
Record Log := mk_Log {
  log_Address : address;
  log_Topics : list hash;
  log_Data : list Byte.byte;
  log_BlockNumber : Z;
  log_TxHash : hash;
  log_TxIndex : Z;
  log_BlockHash : hash;
  log_Index : Z
}.

Record BalanceIncrease := mk_BalanceIncrease {
  increase : u256;
  transferred : bool;
  count : Z
}.

(** The fifteen kinds of journal entries. *)
Inductive journalEntry :=
| createObjectChange (account : address)
| resetObjectChange (account : address) (prev : stateObject)
| selfdestructChange (account : address) (prev : bool) (prevbalance : u256)
| balanceChange (account : address) (prev : u256)
| balanceIncrease (account : address) (increase : u256)
| balanceIncreaseTransfer (bi : nat)
| nonceChange (account : address) (prev : Z)
| storageChange (account : address) (key : hash) (prevalue : u256)
| fakeStorageChange (account : address) (key : hash) (prevalue : u256)
| codeChange (account : address) (prevcode : option (list Byte.byte)) (prevhash : hash)
| refundChange (prev : Z)
| addLogChange (txhash : hash)
| touchChange (account : address)
| accessListAddAccountChange (addr : address)
| accessListAddSlotChange (addr : address) (slot : hash).

(** [locked] is the mutex [mu] of the journal. *)
Record journal_t := mk_journal {
  entries : list journalEntry;
  dirties : gmap address Z;
  locked : bool
}.

(** A revision is the pair (id, journalIndex). *)
Record IntraBlockState := mk_IBS {
  stateObjects : gmap address stateObject;
  stateObjectsDirty : gset address;
  nilAccounts : gset address;
  savedErr : option error;
  refund : Z;
  thash : hash;
  bhash : hash;
  txIndex : Z;
  logs : gmap hash (list Log);
  logSize : Z;
  journal : journal_t;
  validRevisions : list (nat * nat);
  nextRevisionID : nat;
  acl : accessList;
  balanceInc : gmap address nat;
  biHeap : gmap nat BalanceIncrease;
  biNext : nat
}.

(** The interfaces of database.go.  A Go pair [(value, err)] is a pair of
    options; a nil pointer or slice is [None]. *)
Record StateReader := mk_StateReader {
  ReadAccountData : address -> option Account * option error;
  ReadAccountStorage : address -> Z -> hash -> option (list Byte.byte) * option error;
  ReadAccountCode : address -> Z -> hash -> option (list Byte.byte) * option error;
  ReadAccountCodeSize : address -> Z -> hash -> Z * option error;
  ReadAccountIncarnation : address -> Z * option error
}.

Record StateWriter (W : Type) := mk_StateWriter {
  UpdateAccountData : address -> Account -> Account -> W -> option error * W;
  UpdateAccountCode : address -> Z -> hash -> list Byte.byte -> W -> option error * W;
  DeleteAccount : address -> Account -> W -> option error * W;
  WriteAccountStorage : address -> Z -> hash -> u256 -> u256 -> W -> option error * W;
  CreateContract : address -> W -> option error * W
}.

(** Field updates. *)
Definition set_Initialised (v : bool) (s : Account) : Account :=
  mk_Account v (Nonce s) (Balance s) (Root s) (CodeHash s) (Incarnation s).

Definition set_Nonce (v : Z) (s : Account) : Account :=
  mk_Account (Initialised s) v (Balance s) (Root s) (CodeHash s) (Incarnation s).

Definition set_Balance (v : u256) (s : Account) : Account :=
  mk_Account (Initialised s) (Nonce s) v (Root s) (CodeHash s) (Incarnation s).

Definition set_Root (v : hash) (s : Account) : Account :=
  mk_Account (Initialised s) (Nonce s) (Balance s) v (CodeHash s) (Incarnation s).

Definition set_CodeHash (v : hash) (s : Account) : Account :=
  mk_Account (Initialised s) (Nonce s) (Balance s) (Root s) v (Incarnation s).

Definition set_Incarnation (v : Z) (s : Account) : Account :=
  mk_Account (Initialised s) (Nonce s) (Balance s) (Root s) (CodeHash s) v.

Definition set_data (v : Account) (s : stateObject) : stateObject :=
  mk_stateObject (so_address s) v (original s) (code s) (originStorage s) (blockOriginStorage s) (dirtyStorage s) (fakeStorage s) (dirtyCode s) (selfdestructed s) (deleted s) (created s).

Definition set_code (v : option (list Byte.byte)) (s : stateObject) : stateObject :=
  mk_stateObject (so_address s) (data s) (original s) v (originStorage s) (blockOriginStorage s) (dirtyStorage s) (fakeStorage s) (dirtyCode s) (selfdestructed s) (deleted s) (created s).

Definition set_originStorage (v : gmap hash u256) (s : stateObject) : stateObject :=
  mk_stateObject (so_address s) (data s) (original s) (code s) v (blockOriginStorage s) (dirtyStorage s) (fakeStorage s) (dirtyCode s) (selfdestructed s) (deleted s) (created s).

Definition set_blockOriginStorage (v : gmap hash u256) (s : stateObject) : stateObject :=
  mk_stateObject (so_address s) (data s) (original s) (code s) (originStorage s) v (dirtyStorage s) (fakeStorage s) (dirtyCode s) (selfdestructed s) (deleted s) (created s).

Definition set_dirtyStorage (v : gmap hash u256) (s : stateObject) : stateObject :=
  mk_stateObject (so_address s) (data s) (original s) (code s) (originStorage s) (blockOriginStorage s) v (fakeStorage s) (dirtyCode s) (selfdestructed s) (deleted s) (created s).

Definition set_fakeStorage (v : option (gmap hash u256)) (s : stateObject) : stateObject :=
  mk_stateObject (so_address s) (data s) (original s) (code s) (originStorage s) (blockOriginStorage s) (dirtyStorage s) v (dirtyCode s) (selfdestructed s) (deleted s) (created s).

Definition set_dirtyCode (v : bool) (s : stateObject) : stateObject :=
  mk_stateObject (so_address s) (data s) (original s) (code s) (originStorage s) (blockOriginStorage s) (dirtyStorage s) (fakeStorage s) v (selfdestructed s) (deleted s) (created s).

Definition set_selfdestructed (v : bool) (s : stateObject) : stateObject :=
  mk_stateObject (so_address s) (data s) (original s) (code s) (originStorage s) (blockOriginStorage s) (dirtyStorage s) (fakeStorage s) (dirtyCode s) v (deleted s) (created s).

Definition set_deleted (v : bool) (s : stateObject) : stateObject :=
  mk_stateObject (so_address s) (data s) (original s) (code s) (originStorage s) (blockOriginStorage s) (dirtyStorage s) (fakeStorage s) (dirtyCode s) (selfdestructed s) v (created s).

Definition set_created (v : bool) (s : stateObject) : stateObject :=
  mk_stateObject (so_address s) (data s) (original s) (code s) (originStorage s) (blockOriginStorage s) (dirtyStorage s) (fakeStorage s) (dirtyCode s) (selfdestructed s) (deleted s) v.

Definition set_stateObjects (v : gmap address stateObject) (s : IntraBlockState) : IntraBlockState :=
  mk_IBS v (stateObjectsDirty s) (nilAccounts s) (savedErr s) (refund s) (thash s) (bhash s) (txIndex s) (logs s) (logSize s) (journal s) (validRevisions s) (nextRevisionID s) (acl s) (balanceInc s) (biHeap s) (biNext s).

Definition set_stateObjectsDirty (v : gset address) (s : IntraBlockState) : IntraBlockState :=
  mk_IBS (stateObjects s) v (nilAccounts s) (savedErr s) (refund s) (thash s) (bhash s) (txIndex s) (logs s) (logSize s) (journal s) (validRevisions s) (nextRevisionID s) (acl s) (balanceInc s) (biHeap s) (biNext s).

Definition set_nilAccounts (v : gset address) (s : IntraBlockState) : IntraBlockState :=
  mk_IBS (stateObjects s) (stateObjectsDirty s) v (savedErr s) (refund s) (thash s) (bhash s) (txIndex s) (logs s) (logSize s) (journal s) (validRevisions s) (nextRevisionID s) (acl s) (balanceInc s) (biHeap s) (biNext s).

Definition set_savedErr (v : option error) (s : IntraBlockState) : IntraBlockState :=
  mk_IBS (stateObjects s) (stateObjectsDirty s) (nilAccounts s) v (refund s) (thash s) (bhash s) (txIndex s) (logs s) (logSize s) (journal s) (validRevisions s) (nextRevisionID s) (acl s) (balanceInc s) (biHeap s) (biNext s).

Definition set_refund (v : Z) (s : IntraBlockState) : IntraBlockState :=
  mk_IBS (stateObjects s) (stateObjectsDirty s) (nilAccounts s) (savedErr s) v (thash s) (bhash s) (txIndex s) (logs s) (logSize s) (journal s) (validRevisions s) (nextRevisionID s) (acl s) (balanceInc s) (biHeap s) (biNext s).

Definition set_thash (v : hash) (s : IntraBlockState) : IntraBlockState :=
  mk_IBS (stateObjects s) (stateObjectsDirty s) (nilAccounts s) (savedErr s) (refund s) v (bhash s) (txIndex s) (logs s) (logSize s) (journal s) (validRevisions s) (nextRevisionID s) (acl s) (balanceInc s) (biHeap s) (biNext s).

Definition set_bhash (v : hash) (s : IntraBlockState) : IntraBlockState :=
  mk_IBS (stateObjects s) (stateObjectsDirty s) (nilAccounts s) (savedErr s) (refund s) (thash s) v (txIndex s) (logs s) (logSize s) (journal s) (validRevisions s) (nextRevisionID s) (acl s) (balanceInc s) (biHeap s) (biNext s).

Definition set_txIndex (v : Z) (s : IntraBlockState) : IntraBlockState :=
  mk_IBS (stateObjects s) (stateObjectsDirty s) (nilAccounts s) (savedErr s) (refund s) (thash s) (bhash s) v (logs s) (logSize s) (journal s) (validRevisions s) (nextRevisionID s) (acl s) (balanceInc s) (biHeap s) (biNext s).

Definition set_logs (v : gmap hash (list Log)) (s : IntraBlockState) : IntraBlockState :=
  mk_IBS (stateObjects s) (stateObjectsDirty s) (nilAccounts s) (savedErr s) (refund s) (thash s) (bhash s) (txIndex s) v (logSize s) (journal s) (validRevisions s) (nextRevisionID s) (acl s) (balanceInc s) (biHeap s) (biNext s).

Definition set_logSize (v : Z) (s : IntraBlockState) : IntraBlockState :=
  mk_IBS (stateObjects s) (stateObjectsDirty s) (nilAccounts s) (savedErr s) (refund s) (thash s) (bhash s) (txIndex s) (logs s) v (journal s) (validRevisions s) (nextRevisionID s) (acl s) (balanceInc s) (biHeap s) (biNext s).

Definition set_journal (v : journal_t) (s : IntraBlockState) : IntraBlockState :=
  mk_IBS (stateObjects s) (stateObjectsDirty s) (nilAccounts s) (savedErr s) (refund s) (thash s) (bhash s) (txIndex s) (logs s) (logSize s) v (validRevisions s) (nextRevisionID s) (acl s) (balanceInc s) (biHeap s) (biNext s).

Definition set_validRevisions (v : list (nat * nat)) (s : IntraBlockState) : IntraBlockState :=
  mk_IBS (stateObjects s) (stateObjectsDirty s) (nilAccounts s) (savedErr s) (refund s) (thash s) (bhash s) (txIndex s) (logs s) (logSize s) (journal s) v (nextRevisionID s) (acl s) (balanceInc s) (biHeap s) (biNext s).

Definition set_nextRevisionID (v : nat) (s : IntraBlockState) : IntraBlockState :=
  mk_IBS (stateObjects s) (stateObjectsDirty s) (nilAccounts s) (savedErr s) (refund s) (thash s) (bhash s) (txIndex s) (logs s) (logSize s) (journal s) (validRevisions s) v (acl s) (balanceInc s) (biHeap s) (biNext s).

Definition set_acl (v : accessList) (s : IntraBlockState) : IntraBlockState :=
  mk_IBS (stateObjects s) (stateObjectsDirty s) (nilAccounts s) (savedErr s) (refund s) (thash s) (bhash s) (txIndex s) (logs s) (logSize s) (journal s) (validRevisions s) (nextRevisionID s) v (balanceInc s) (biHeap s) (biNext s).

Definition set_balanceInc (v : gmap address nat) (s : IntraBlockState) : IntraBlockState :=
  mk_IBS (stateObjects s) (stateObjectsDirty s) (nilAccounts s) (savedErr s) (refund s) (thash s) (bhash s) (txIndex s) (logs s) (logSize s) (journal s) (validRevisions s) (nextRevisionID s) (acl s) v (biHeap s) (biNext s).

Definition set_biHeap (v : gmap nat BalanceIncrease) (s : IntraBlockState) : IntraBlockState :=
  mk_IBS (stateObjects s) (stateObjectsDirty s) (nilAccounts s) (savedErr s) (refund s) (thash s) (bhash s) (txIndex s) (logs s) (logSize s) (journal s) (validRevisions s) (nextRevisionID s) (acl s) (balanceInc s) v (biNext s).

Definition set_biNext (v : nat) (s : IntraBlockState) : IntraBlockState :=
  mk_IBS (stateObjects s) (stateObjectsDirty s) (nilAccounts s) (savedErr s) (refund s) (thash s) (bhash s) (txIndex s) (logs s) (logSize s) (journal s) (validRevisions s) (nextRevisionID s) (acl s) (balanceInc s) (biHeap s) v.

(** The zero value [accounts.Account{}]. *)
Definition zeroAccount : Account := mk_Account false 0 Clear 0%N 0%N 0.

Definition newJournal : journal_t := mk_journal [] ∅ false.

End types.

