(* ===== verification/IntraBlockState.v ===== *)
(** Operations of package core/state: stateObject (state_object.go), the
    journal (journal.go) and IntraBlockState (intra_block_state.go), as
    state-passing functions over the records of StateTypes.

    [keccak256] (package crypto over golang.org/x/crypto/sha3) and the
    [StateReader] the state was created with are parameters. *)
From S2P Require Import Prelude Uint256 AccessList StateTypes.
#[local] Open Scope Z_scope.

Section ibs.
Context {U : Uint256}.
Context (keccak256 : list Byte.byte -> hash) (reader : StateReader).

Abbreviation IBSM := (M IntraBlockState).

Definition emptyCodeHash : hash := keccak256 [].

(** ** state_object.go *)

(** empty: EIP-161 emptiness. *)
Definition so_empty (so : stateObject) : bool :=
  (Nonce (data so) =? 0) && IsZero (Balance (data so)) &&
  bool_decide (CodeHash (data so) = emptyCodeHash).

Definition newObject (addr : address) (dat orig : Account) : stateObject :=
  let d := dat in
  let d := if Initialised d then d
           else set_Initialised true (set_Balance (SetUint64 0) d) in
  let d := if bool_decide (CodeHash d = 0%N) then set_CodeHash emptyCodeHash d else d in
  let d := if bool_decide (Root d = 0%N) then set_Root EmptyRoot d else d in
  mk_stateObject addr d orig None ∅ ∅ ∅ None false false false false.

(** A method call on the live object at [a]. *)
Definition theObject (a : address) : IBSM stateObject :=
  o ← gets (fun s => stateObjects s !! a); deref o.

Definition modifyObject (a : address) (f : stateObject -> stateObject) : IBSM unit :=
  modify (fun s => set_stateObjects (alter f a (stateObjects s)) s).

(** so.setError and sdb.setErrorUnsafe: the first error is remembered. *)
Definition setErrorUnsafe (err : error) : IBSM unit :=
  modify (fun s => match savedErr s with None => set_savedErr (Some err) s | Some _ => s end).

(** *** The journal *)

Definition dirtied (e : journalEntry) : option address :=
  match e with
  | createObjectChange a => Some a
  | resetObjectChange _ _ => None
  | selfdestructChange a _ _ => Some a
  | balanceChange a _ => Some a
  | balanceIncrease a _ => Some a
  | balanceIncreaseTransfer _ => None
  | nonceChange a _ => Some a
  | storageChange a _ _ => Some a
  | fakeStorageChange a _ _ => Some a
  | codeChange a _ _ => Some a
  | refundChange _ => None
  | addLogChange _ => None
  | touchChange a => Some a
  | accessListAddAccountChange _ => None
  | accessListAddSlotChange _ _ => None
  end.

(** [dirties[a]++] *)
Definition incr_dirty (a : address) (d : gmap address Z) : gmap address Z :=
  <[a := default 0 (d !! a) + 1]> d.

(** [if dirties[a]--; dirties[a] == 0 { delete(dirties, a) }] *)
Definition decr_dirty (a : address) (d : gmap address Z) : gmap address Z :=
  let n := default 0 (d !! a) - 1 in
  if n =? 0 then delete a d else <[a := n]> d.

Definition lock_journal : IBSM unit :=
  j ← gets journal;
  if locked j then deadlock
  else modify (set_journal (mk_journal (entries j) (dirties j) true)).

Definition unlock_journal : IBSM unit :=
  modify (fun s => set_journal (mk_journal (entries (journal s)) (dirties (journal s)) false) s).

Definition journal_append (e : journalEntry) : IBSM unit :=
  _ ← lock_journal;
  _ ← modify (fun s =>
        let j := journal s in
        set_journal (mk_journal (entries j ++ [e])
          (match dirtied e with Some a => incr_dirty a (dirties j) | None => dirties j end)
          (locked j)) s);
  unlock_journal.

Definition journal_dirty (a : address) : IBSM unit :=
  _ ← lock_journal;
  _ ← modify (fun s =>
        let j := journal s in
        set_journal (mk_journal (entries j) (incr_dirty a (dirties j)) (locked j)) s);
  unlock_journal.

Definition journal_length (s : IntraBlockState) : nat := length (entries (journal s)).

(** *** Methods of stateObject *)

Definition so_touch (a : address) : IBSM unit :=
  so ← theObject a;
  _ ← journal_append (touchChange (so_address so));
  if bool_decide (so_address so = ripemd) then journal_dirty (so_address so) else mret tt.

(** The value a storage read of the database contributes. *)
Definition so_GetCommittedState (a : address) (key : hash) : IBSM u256 :=
  so ← theObject a;
  match fakeStorage so with
  | Some fake => mret (default Clear (fake !! key))
  | None =>
      match originStorage so !! key with
      | Some value => mret value
      | None =>
          if created so then mret Clear
          else
            match ReadAccountStorage reader (so_address so) (Incarnation (data so)) key with
            | (_, Some err) => _ ← setErrorUnsafe err; mret Clear
            | (enc, None) =>
                let out := match enc with Some bs => SetBytes bs | None => Clear end in
                _ ← modifyObject a (fun so => set_originStorage (<[key := out]> (originStorage so)) so);
                _ ← modifyObject a (fun so => set_blockOriginStorage (<[key := out]> (blockOriginStorage so)) so);
                mret out
            end
      end
  end.

Definition so_GetState (a : address) (key : hash) : IBSM u256 :=
  so ← theObject a;
  match fakeStorage so with
  | Some fake => mret (default Clear (fake !! key))
  | None =>
      match dirtyStorage so !! key with
      | Some value => mret value
      | None => so_GetCommittedState a key
      end
  end.

Definition so_setState (a : address) (key : hash) (value : u256) : IBSM unit :=
  modifyObject a (fun so => set_dirtyStorage (<[key := value]> (dirtyStorage so)) so).

Definition so_SetState (a : address) (key : hash) (value : u256) : IBSM unit :=
  so ← theObject a;
  match fakeStorage so with
  | Some fake =>
      _ ← journal_append (fakeStorageChange (so_address so) key (default Clear (fake !! key)));
      modifyObject a (set_fakeStorage (Some (<[key := value]> fake)))
  | None =>
      prev ← so_GetState a key;
      if decide (prev = value) then mret tt
      else
        _ ← journal_append (storageChange (so_address so) key prev);
        so_setState a key value
  end.

Definition so_SetStorage (a : address) (storage : gmap hash u256) : IBSM unit :=
  modifyObject a (fun so =>
    set_fakeStorage (Some (storage ∪ default ∅ (fakeStorage so))) so).

Definition so_setBalance (a : address) (amount : u256) : IBSM unit :=
  modifyObject a (fun so => set_data (set_Initialised true (set_Balance amount (data so))) so).

Definition so_SetBalance (a : address) (amount : u256) : IBSM unit :=
  so ← theObject a;
  _ ← journal_append (balanceChange (so_address so) (Balance (data so)));
  so_setBalance a amount.

Definition so_AddBalance (a : address) (amount : u256) : IBSM unit :=
  so ← theObject a;
  if IsZero amount then
    if so_empty so then so_touch a else mret tt
  else so_SetBalance a (Add (Balance (data so)) amount).

Definition so_SubBalance (a : address) (amount : u256) : IBSM unit :=
  so ← theObject a;
  if IsZero amount then mret tt
  else so_SetBalance a (Sub (Balance (data so)) amount).

Definition so_setIncarnation (a : address) (incarnation : Z) : IBSM unit :=
  modifyObject a (fun so => set_data (set_Incarnation incarnation (data so)) so).

Definition so_Code (a : address) : IBSM (option (list Byte.byte)) :=
  so ← theObject a;
  match code so with
  | Some c => mret (Some c)
  | None =>
      if bool_decide (CodeHash (data so) = emptyCodeHash) then mret None
      else
        let r := ReadAccountCode reader (so_address so) (Incarnation (data so)) (CodeHash (data so)) in
        _ ← match r.2 with Some err => setErrorUnsafe err | None => mret tt end;
        _ ← modifyObject a (set_code r.1);
        mret r.1
  end.

Definition so_setCode (a : address) (codeHash : hash) (c : option (list Byte.byte)) : IBSM unit :=
  modifyObject a (fun so =>
    set_dirtyCode true (set_data (set_CodeHash codeHash (data so)) (set_code c so))).

Definition so_SetCode (a : address) (codeHash : hash) (c : option (list Byte.byte)) : IBSM unit :=
  prevcode ← so_Code a;
  so ← theObject a;
  _ ← journal_append (codeChange (so_address so) prevcode (CodeHash (data so)));
  so_setCode a codeHash c.

Definition so_setNonce (a : address) (nonce : Z) : IBSM unit :=
  modifyObject a (fun so => set_data (set_Nonce nonce (data so)) so).

Definition so_SetNonce (a : address) (nonce : Z) : IBSM unit :=
  so ← theObject a;
  _ ← journal_append (nonceChange (so_address so) (Nonce (data so)));
  so_setNonce a nonce.

(** ** intra_block_state.go: objects *)

Definition New : IntraBlockState :=
  mk_IBS ∅ ∅ ∅ None 0 0%N 0%N 0 ∅ 0 newJournal [] 0 newAccessList ∅ ∅ 0.

(** [bi, ok := sdb.balanceInc[addr]; ok && !bi.transferred] *)
Definition pendingIncrease (s : IntraBlockState) (a : address) : option (nat * BalanceIncrease) :=
  match balanceInc s !! a with
  | Some r =>
      match biHeap s !! r with
      | Some bi => if transferred bi then None else Some (r, bi)
      | None => None
      end
  | None => None
  end.

Definition setStateObject (a : address) (object : stateObject) : IBSM unit :=
  p ← gets (fun s => pendingIncrease s a);
  match p with
  | Some (r, bi) =>
      let object := set_data (set_Balance (Add (Balance (data object)) (increase bi)) (data object)) object in
      _ ← modify (fun s => set_biHeap
            (<[r := mk_BalanceIncrease (increase bi) true (count bi)]> (biHeap s)) s);
      _ ← journal_append (balanceIncreaseTransfer r);
      modify (fun s => set_stateObjects (<[a := object]> (stateObjects s)) s)
  | None => modify (fun s => set_stateObjects (<[a := object]> (stateObjects s)) s)
  end.

Definition createObject (a : address) (previous : option stateObject) : IBSM stateObject :=
  let account := set_Root EmptyRoot zeroAccount in
  let orig := match previous with None => zeroAccount | Some p => original p end in
  let newobj := newObject a account orig in
  let newobj := set_data (set_Nonce 0 (data newobj)) newobj in
  _ ← match previous with
      | None => journal_append (createObjectChange a)
      | Some p => journal_append (resetObjectChange a p)
      end;
  _ ← setStateObject a newobj;
  theObject a.

Definition getStateObject (a : address) : IBSM (option stateObject) :=
  s ← gets id;
  match stateObjects s !! a with
  | Some obj => mret (Some obj)
  | None =>
      if bool_decide (a ∈ nilAccounts s) then
        if isSome (pendingIncrease s a)
        then obj ← createObject a None; mret (Some obj)
        else mret None
      else
        match ReadAccountData reader a with
        | (_, Some err) => _ ← setErrorUnsafe err; mret None
        | (None, None) =>
            _ ← modify (fun s => set_nilAccounts ({[a]} ∪ nilAccounts s) s);
            if isSome (pendingIncrease s a)
            then obj ← createObject a None; mret (Some obj)
            else mret None
        | (Some account, None) =>
            _ ← setStateObject a (newObject a account account);
            obj ← theObject a; mret (Some obj)
        end
  end.

Definition GetOrNewStateObject (a : address) : IBSM stateObject :=
  o ← getStateObject a;
  match o with
  | Some so => if deleted so then createObject a (Some so) else mret so
  | None => createObject a None
  end.

(** ** intra_block_state.go: queries *)

Definition Exist (a : address) : IBSM bool :=
  s ← getStateObject a;
  mret (match s with Some so => negb (deleted so) | None => false end).

Definition Empty (a : address) : IBSM bool :=
  o ← getStateObject a;
  mret (match o with Some so => deleted so || so_empty so | None => true end).

Definition GetBalance (a : address) : IBSM u256 :=
  o ← getStateObject a;
  mret (match o with
        | Some so => if deleted so then SetUint64 0 else Balance (data so)
        | None => SetUint64 0 end).

Definition GetNonce (a : address) : IBSM Z :=
  o ← getStateObject a;
  mret (match o with Some so => if deleted so then 0 else Nonce (data so) | None => 0 end).

Definition GetCode (a : address) : IBSM (option (list Byte.byte)) :=
  o ← getStateObject a;
  match o with
  | Some so => if deleted so then mret None else so_Code a
  | None => mret None
  end.

Definition GetCodeSize (a : address) : IBSM Z :=
  o ← getStateObject a;
  match o with
  | None => mret 0
  | Some so =>
      if deleted so then mret 0
      else
        match code so with
        | Some c => mret (Z.of_nat (length c))
        | None =>
            let r := ReadAccountCodeSize reader a (Incarnation (data so)) (CodeHash (data so)) in
            _ ← match r.2 with Some err => setErrorUnsafe err | None => mret tt end;
            mret r.1
        end
  end.

Definition GetCodeHash (a : address) : IBSM hash :=
  o ← getStateObject a;
  mret (match o with Some so => if deleted so then 0%N else CodeHash (data so) | None => 0%N end).

Definition GetState (a : address) (key : hash) : IBSM u256 :=
  o ← getStateObject a;
  match o with
  | Some so => if deleted so then mret Clear else so_GetState a key
  | None => mret Clear
  end.

Definition GetCommittedState (a : address) (key : hash) : IBSM u256 :=
  o ← getStateObject a;
  match o with
  | Some so => if deleted so then mret Clear else so_GetCommittedState a key
  | None => mret Clear
  end.

Definition HasSelfdestructed (a : address) : IBSM bool :=
  o ← getStateObject a;
  mret (match o with
        | None => false
        | Some so => if deleted so then false else if created so then false else selfdestructed so
        end).

Definition GetIncarnation (a : address) : IBSM Z :=
  o ← getStateObject a;
  mret (match o with Some so => Incarnation (data so) | None => 0 end).

Definition GetRefund (s : IntraBlockState) : Z := refund s.

Definition GetLogs (h : hash) (s : IntraBlockState) : list Log := default [] (logs s !! h).

(** ** intra_block_state.go: updates *)

Definition AddLog (log2 : Log) : IBSM unit :=
  th ← gets thash;
  _ ← journal_append (addLogChange th);
  s ← gets id;
  let log2 := mk_Log (log_Address log2) (log_Topics log2) (log_Data log2) (log_BlockNumber log2)
                     (thash s) (txIndex s) (bhash s) (logSize s) in
  _ ← modify (fun s => set_logs (<[thash s := GetLogs (thash s) s ++ [log2]]> (logs s)) s);
  modify (fun s => set_logSize (u64_add (logSize s) 1) s).

Definition AddRefund (gas : Z) : IBSM unit :=
  r ← gets refund;
  _ ← journal_append (refundChange r);
  modify (fun s => set_refund (u64_add (refund s) gas) s).

Definition SubRefund (gas : Z) : IBSM unit :=
  r ← gets refund;
  _ ← journal_append (refundChange r);
  r ← gets refund;
  _ ← (if r <? gas then setErrorUnsafe "refund counter below zero" else mret tt);
  modify (fun s => set_refund (u64_sub (refund s) gas) s).

Definition addIncrease (a : address) (amount : u256) (s : IntraBlockState) : IntraBlockState :=
  match balanceInc s !! a with
  | Some r =>
      match biHeap s !! r with
      | Some bi => set_biHeap (<[r := mk_BalanceIncrease (Add (increase bi) amount) (transferred bi)
                                       (count bi + 1)]> (biHeap s)) s
      | None => s
      end
  | None =>
      let r := biNext s in
      set_biNext (S r)
        (set_biHeap (<[r := mk_BalanceIncrease (Add Clear amount) false 1]> (biHeap s))
          (set_balanceInc (<[a := r]> (balanceInc s)) s))
  end.

Definition AddBalance (a : address) (amount : u256) : IBSM unit :=
  live ← gets (fun s => isSome (stateObjects s !! a));
  let needAccount := live || (bool_decide (a = ripemd) && IsZero amount) in
  if negb needAccount then
    _ ← journal_append (balanceIncrease a amount);
    modify (addIncrease a amount)
  else
    _ ← GetOrNewStateObject a;
    so_AddBalance a amount.

Definition SubBalance (a : address) (amount : u256) : IBSM unit :=
  _ ← GetOrNewStateObject a; so_SubBalance a amount.

Definition SetBalance (a : address) (amount : u256) : IBSM unit :=
  _ ← GetOrNewStateObject a; so_SetBalance a amount.

Definition SetNonce (a : address) (nonce : Z) : IBSM unit :=
  _ ← GetOrNewStateObject a; so_SetNonce a nonce.

Definition SetCode (a : address) (c : option (list Byte.byte)) : IBSM unit :=
  _ ← GetOrNewStateObject a; so_SetCode a (keccak256 (default [] c)) c.

Definition SetState (a : address) (key : hash) (value : u256) : IBSM unit :=
  _ ← GetOrNewStateObject a; so_SetState a key value.

Definition SetStorage (a : address) (storage : gmap hash u256) : IBSM unit :=
  _ ← GetOrNewStateObject a; so_SetStorage a storage.

Definition SetIncarnation (a : address) (incarnation : Z) : IBSM unit :=
  _ ← GetOrNewStateObject a; so_setIncarnation a incarnation.

Definition Selfdestruct (a : address) : IBSM bool :=
  o ← getStateObject a;
  match o with
  | None => mret false
  | Some so =>
      if deleted so then mret false
      else
        _ ← journal_append (selfdestructChange a (selfdestructed so) (Balance (data so)));
        _ ← modifyObject a (set_selfdestructed true);
        _ ← modifyObject a (set_created false);
        _ ← modifyObject a (fun so => set_data (set_Balance Clear (data so)) so);
        mret true
  end.

(** The incarnation CreateAccount continues from. *)
Definition previousIncarnation (a : address) (previous : option stateObject) : Z :=
  match previous with
  | Some p => if selfdestructed p then Incarnation (data p)
              else match ReadAccountIncarnation reader a with
                   | (inc, None) => inc | (_, Some _) => 0 end
  | None => match ReadAccountIncarnation reader a with
            | (inc, None) => inc | (_, Some _) => 0 end
  end.

Definition CreateAccount (a : address) (contractCreation : bool) : IBSM unit :=
  previous ← getStateObject a;
  let prevInc := if contractCreation then previousIncarnation a previous else 0 in
  _ ← createObject a previous;
  _ ← match previous with
      | Some p =>
          modifyObject a (fun so =>
            set_data (set_Initialised true (set_Balance (Balance (data p)) (data so))) so)
      | None => mret tt
      end;
  if contractCreation then
    _ ← modifyObject a (set_created true);
    modifyObject a (fun so => set_data (set_Incarnation (u64_add prevInc 1) (data so)) so)
  else modifyObject a (set_selfdestructed false).

(** Running an operation of the access list on the field [accessList]. *)
Definition on_acl {A} (m : M accessList A) : IBSM A := fun s =>
  match m (acl s) with
  | Ok (x, al) => Ok (x, set_acl al s)
  | Panic => Panic
  | Deadlock => Deadlock
  | OutOfFuel => OutOfFuel
  end.

Definition AddAddressToAccessList (a : address) : IBSM unit :=
  changed ← on_acl (AddAddress a);
  if (changed : bool) then journal_append (accessListAddAccountChange a) else mret tt.

Definition AddSlotToAccessList (a : address) (slot : hash) : IBSM unit :=
  mods ← on_acl (AddSlot a slot);
  _ ← (if (mods : bool * bool).1 then journal_append (accessListAddAccountChange a) else mret tt);
  if (mods : bool * bool).2 then journal_append (accessListAddSlotChange a slot) else mret tt.

Definition AddressInAccessList (a : address) (s : IntraBlockState) : bool :=
  ContainsAddress a (acl s).

Definition SlotInAccessList (a : address) (slot : hash) : IBSM (bool * bool) :=
  on_acl (Contains a slot).

(** [list] is a types2.AccessList: tuples of an address and storage keys. *)
Definition PrepareAccessList (sender : address) (dst : option address)
    (precompiles : list address) (list_ : list (address * list hash)) : IBSM unit :=
  _ ← AddAddressToAccessList sender;
  _ ← match dst with Some d => AddAddressToAccessList d | None => mret tt end;
  _ ← mfor AddAddressToAccessList precompiles;
  mfor (fun el : address * list hash =>
          _ ← AddAddressToAccessList el.1;
          mfor (AddSlotToAccessList el.1) el.2) list_.

(** Prepare, Reset and clearJournalAndRefund. *)
Definition Prepare (th bh : hash) (ti : Z) (s : IntraBlockState) : IntraBlockState :=
  set_acl newAccessList (set_txIndex ti (set_bhash bh (set_thash th s))).

Definition Reset (s : IntraBlockState) : IntraBlockState :=
  set_balanceInc ∅ (set_logSize 0 (set_logs ∅ (set_txIndex 0 (set_bhash 0%N (set_thash 0%N
    (set_stateObjectsDirty ∅ (set_stateObjects ∅ (set_nilAccounts ∅ s)))))))).

Definition clearJournalAndRefund (s : IntraBlockState) : IntraBlockState :=
  set_refund 0 (set_validRevisions [] (set_journal newJournal s)).

(** ** Snapshots *)

Definition Snapshot : IBSM nat :=
  i ← gets nextRevisionID;
  _ ← modify (fun s => set_nextRevisionID (S (nextRevisionID s)) s);
  _ ← modify (fun s => set_validRevisions (validRevisions s ++ [(i, journal_length s)]) s);
  mret i.

(** The revert methods of the journal entries.  They run while
    journal.revert holds the journal's lock. *)
Definition revertEntry (ch : journalEntry) : IBSM unit :=
  match ch with
  | createObjectChange a =>
      _ ← modify (fun s => set_stateObjects (delete a (stateObjects s)) s);
      modify (fun s => set_stateObjectsDirty (stateObjectsDirty s ∖ {[a]}) s)
  | resetObjectChange a prev => setStateObject a prev
  | selfdestructChange a prev prevbalance =>
      obj ← getStateObject a;
      match obj with
      | Some _ => _ ← modifyObject a (set_selfdestructed prev); so_setBalance a prevbalance
      | None => mret tt
      end
  | touchChange _ => mret tt
  | balanceChange a prev =>
      obj ← getStateObject a; _ ← deref obj; so_setBalance a prev
  | balanceIncrease a inc =>
      modify (fun s =>
        match balanceInc s !! a with
        | Some r =>
            match biHeap s !! r with
            | Some bi =>
                let bi' := mk_BalanceIncrease (Sub (increase bi) inc) (transferred bi) (count bi - 1) in
                let s := set_biHeap (<[r := bi']> (biHeap s)) s in
                if count bi' =? 0 then set_balanceInc (delete a (balanceInc s)) s else s
            | None => s
            end
        | None => s
        end)
  | balanceIncreaseTransfer r =>
      modify (fun s => set_biHeap
        (alter (fun bi => mk_BalanceIncrease (increase bi) false (count bi)) r (biHeap s)) s)
  | nonceChange a prev =>
      obj ← getStateObject a; _ ← deref obj; so_setNonce a prev
  | codeChange a prevcode prevhash =>
      obj ← getStateObject a; _ ← deref obj; so_setCode a prevhash prevcode
  | storageChange a key prevalue =>
      obj ← getStateObject a; _ ← deref obj; so_setState a key prevalue
  | fakeStorageChange a key prevalue =>
      obj ← getStateObject a;
      so ← deref obj;
      fake ← deref (fakeStorage so);
      modifyObject a (set_fakeStorage (Some (<[key := prevalue]> fake)))
  | refundChange prev => modify (set_refund prev)
  | addLogChange txhash =>
      l ← gets (GetLogs txhash);
      _ ← (if (length l =? 1)%nat
           then modify (fun s => set_logs (delete txhash (logs s)) s)
           else if (length l =? 0)%nat then panic
           else modify (fun s => set_logs (<[txhash := take (length l - 1) l]> (logs s)) s));
      modify (fun s => set_logSize (u64_sub (logSize s) 1) s)
  | accessListAddAccountChange a => on_acl (DeleteAddress a)
  | accessListAddSlotChange a slot => on_acl (DeleteSlot a slot)
  end.

Definition undirty (ch : journalEntry) : IBSM unit :=
  match dirtied ch with
  | Some a => modify (fun s => set_journal
        (mk_journal (entries (journal s)) (decr_dirty a (dirties (journal s))) (locked (journal s))) s)
  | None => mret tt
  end.

Definition journal_revert (snapshot : nat) : IBSM unit :=
  _ ← lock_journal;
  es ← gets (fun s => entries (journal s));
  _ ← mfor (fun ch => _ ← revertEntry ch; undirty ch) (rev (drop snapshot (es : list journalEntry)));
  _ ← (if (snapshot <=? length es)%nat
       then modify (fun s => set_journal (mk_journal (take snapshot (entries (journal s)))
                     (dirties (journal s)) (locked (journal s))) s)
       else panic);
  unlock_journal.

Definition RevertToSnapshot (revid : nat) : IBSM unit :=
  revs ← gets (validRevisions : IntraBlockState -> list (nat * nat));
  let idx := sort_Search (length revs)
               (fun i => match revs !! i with Some r => (revid <=? r.1)%nat | None => false end) in
  match revs !! idx with
  | None => panic
  | Some r =>
      if (r.1 =? revid)%nat then
        _ ← journal_revert r.2;
        modify (fun s => set_validRevisions (take idx (validRevisions s)) s)
      else panic
  end.
End ibs.
