(* ===== verification/StateView.v ===== *)
(** What an IntraBlockState means.

    [view] gives, for an address and a storage key, everything the accessors
    of intra_block_state.go can observe of that account, whether the account
    is live, still in the database, or only known through a pending balance
    increase.  [same_state] is equality of all observations: it ignores which
    accounts and slots happen to be cached.  [wf] is the well-formedness
    invariant of the representation. *)
From S2P Require Import Prelude Uint256 AccessList StateTypes IntraBlockState.
#[local] Open Scope Z_scope.

Section view.
Context {U : Uint256}.
Context (keccak256 : list Byte.byte -> hash) (reader : StateReader).

Abbreviation IBSM := (M IntraBlockState).
Abbreviation newObject := (newObject keccak256).
Abbreviation getStateObject := (getStateObject keccak256 reader).
Abbreviation createObject := (createObject keccak256).
Abbreviation revertEntry := (revertEntry keccak256 reader).

(** ** Observations of one account *)

Definition read_storage (a : address) (inc : Z) (key : hash) : u256 :=
  match ReadAccountStorage reader a inc key with
  | (Some bs, None) => SetBytes bs
  | _ => Clear
  end.

Definition obj_committed (o : stateObject) (key : hash) : u256 :=
  match fakeStorage o with
  | Some fake => default Clear (fake !! key)
  | None =>
      match originStorage o !! key with
      | Some v => v
      | None => if created o then Clear else read_storage (so_address o) (Incarnation (data o)) key
      end
  end.

Definition obj_storage (o : stateObject) (key : hash) : u256 :=
  match fakeStorage o with
  | Some fake => default Clear (fake !! key)
  | None => match dirtyStorage o !! key with Some v => v | None => obj_committed o key end
  end.

Definition obj_code (o : stateObject) : list Byte.byte :=
  match code o with
  | Some c => c
  | None =>
      if bool_decide (CodeHash (data o) = emptyCodeHash keccak256) then []
      else default [] (ReadAccountCode reader (so_address o) (Incarnation (data o)) (CodeHash (data o))).1
  end.

Record acct_view := mk_view {
  v_nonce : Z;
  v_balance : u256;
  v_root : hash;
  v_codehash : hash;
  v_incarnation : Z;
  v_original : Account;
  v_selfdestructed : bool;
  v_deleted : bool;
  v_code : list Byte.byte;
  v_fake : bool;
  v_storage : u256;
  v_committed : u256
}.

Definition obj_view (o : stateObject) (key : hash) : acct_view :=
  mk_view (Nonce (data o)) (Balance (data o)) (Root (data o)) (CodeHash (data o))
    (Incarnation (data o)) (original o) (selfdestructed o) (deleted o) (obj_code o)
    (isSome (fakeStorage o)) (obj_storage o key) (obj_committed o key).

(** An account the database does not have, without a read error. *)
Definition db_absent (a : address) : bool :=
  match ReadAccountData reader a with (None, None) => true | _ => false end.

Definition base_object (a : address) : option stateObject :=
  match ReadAccountData reader a with
  | (Some acc, None) => Some (newObject a acc acc)
  | _ => None
  end.

(** The object createObject makes when there is no previous one. *)
Definition fresh_object (a : address) (orig : Account) : stateObject :=
  let o := newObject a (set_Root EmptyRoot zeroAccount) orig in
  set_data (set_Nonce 0 (data o)) o.

Definition add_to_object (amount : u256) (o : stateObject) : stateObject :=
  set_data (set_Balance (Add (Balance (data o)) amount) (data o)) o.

(** The object that an access to [a] brings to light. *)
Definition logical_object (s : IntraBlockState) (a : address) : option stateObject :=
  match stateObjects s !! a with
  | Some o => Some o
  | None =>
      match base_object a with
      | Some o => Some o
      | None =>
          if db_absent a then
            match pendingIncrease s a with
            | Some (_, bi) => Some (add_to_object (increase bi) (fresh_object a zeroAccount))
            | None => None
            end
          else None
      end
  end.

Definition view (s : IntraBlockState) (a : address) (key : hash) : option acct_view :=
  (fun o => obj_view o key) <$> logical_object s a.

(** ** Equality of observations *)

(** Everything but the accounts, the balance increases and the dirty counters. *)
Definition rest (s : IntraBlockState) :=
  (stateObjectsDirty s, (refund s, logs s, logSize s, acl s), (thash s, bhash s, txIndex s)).

Record same_rest (s t : IntraBlockState) : Prop := {
  ss_bi : balanceInc s = balanceInc t;
  ss_cell a r : balanceInc s !! a = Some r -> biHeap s !! r = biHeap t !! r;
  ss_other : rest s = rest t
}.

Record same_state (s t : IntraBlockState) : Prop := {
  ss_view a k : view s a k = view t a k;
  ss_rest : same_rest s t;
  ss_dirties a : a <> ripemd -> dirties (journal s) !! a = dirties (journal t) !! a
}.

#[global] Instance same_rest_equivalence : Equivalence same_rest.
Proof.
  split.
  - by split.
  - intros s t []. split; intros; try by (symmetry; eauto). rewrite <- ss_bi0 in *. symmetry. eauto.
  - intros s t u H1 H2. split; intros;
      try (etransitivity; [apply H1|apply H2]; done).
    etransitivity; [by eapply (ss_cell _ _ H1)|]. eapply (ss_cell _ _ H2).
    by rewrite <- (ss_bi _ _ H1).
Qed.

#[global] Instance same_state_equivalence : Equivalence same_state.
Proof.
  split.
  - by split.
  - intros s t []. split; intros; by symmetry; auto.
  - intros s t u H1 H2. split; intros; etransitivity; try apply H1; try apply H2; done.
Qed.

(** ** Well-formedness *)

(** A live object sits under its own address; the storage of a newly created
    contract is empty in the database, and it has not self-destructed. *)
Definition obj_ok (a : address) (o : stateObject) : Prop :=
  so_address o = a /\
  (created o = true ->
     selfdestructed o = false /\ forall k, read_storage a (Incarnation (data o)) k = Clear).

Record wf (s : IntraBlockState) : Prop := {
  wf_obj a o : stateObjects s !! a = Some o -> obj_ok a o;
  wf_nil a : a ∈ nilAccounts s -> db_absent a = true;
  wf_bi a r : balanceInc s !! a = Some r ->
    (r < biNext s)%nat /\ exists bi, biHeap s !! r = Some bi /\ 1 <= count bi /\
      if transferred bi then is_Some (stateObjects s !! a)
      else stateObjects s !! a = None /\ db_absent a = true;
  wf_bi_inj a b r : balanceInc s !! a = Some r -> balanceInc s !! b = Some r -> a = b;
  wf_dirtyset a : a ∈ stateObjectsDirty s -> is_Some (stateObjects s !! a);
  wf_dirties a n : a <> ripemd -> dirties (journal s) !! a = Some n -> 1 <= n;
  wf_logs h l : logs s !! h = Some l -> l <> [];
  wf_logSize : is_u64 (logSize s);
  wf_acl : al_wf (acl s)
}.

Lemma New_wf : wf New.
Proof.
  split; simpl.
  all: try by intros *; rewrite lookup_empty.
  all: try set_solver.
  - unfold is_u64. lia.
  - apply newAccessList_wf.
Qed.

(** What the journal, the lock and the revision stack hold. *)
Definition meta (s : IntraBlockState) : list journalEntry * bool * list (nat * nat) * nat :=
  (entries (journal s), locked (journal s), validRevisions s, nextRevisionID s).

(** ** Total correctness of computations *)

Definition total {A} (m : IBSM A) (s : IntraBlockState) (Q : A -> IntraBlockState -> Prop) : Prop :=
  exists x s', m s = Ok (x, s') /\ Q x s'.

Lemma total_ret {A} (x : A) s (Q : A -> IntraBlockState -> Prop) : Q x s -> total (mret x) s Q.
Proof. by exists x, s. Qed.

Lemma total_bind {A B} (m : IBSM A) (k : A -> IBSM B) s Q :
  total m s (fun x s' => total (k x) s' Q) -> total (m ≫= k) s Q.
Proof. intros (x & s' & E & y & s'' & E' & HQ). exists y, s''. by rewrite (M_bind_Ok _ _ _ _ _ E). Qed.

Lemma total_wand {A} (m : IBSM A) s (P Q : A -> IntraBlockState -> Prop) :
  total m s P -> (forall x s', P x s' -> Q x s') -> total m s Q.
Proof. intros (x & s' & ? & ?) HPQ. exists x, s'. eauto. Qed.

Lemma total_gets {A} (f : IntraBlockState -> A) s (Q : A -> IntraBlockState -> Prop) :
  Q (f s) s -> total (gets f) s Q.
Proof. by exists (f s), s. Qed.

Lemma total_modify f s (Q : unit -> IntraBlockState -> Prop) : Q tt (f s) -> total (modify f) s Q.
Proof. by exists tt, (f s). Qed.

Lemma total_Ok {A} (m : IBSM A) s Q x s' : total m s Q -> m s = Ok (x, s') -> Q x s'.
Proof. intros (y & t & E & HQ) E'. rewrite E in E'. by simplify_eq. Qed.
End view.

Ltac tstep :=
  first [ apply total_bind | apply total_ret | apply total_gets | apply total_modify ].
