(* ===== verification/StateRevert.v ===== *)
(** Snapshots: every operation of IntraBlockState appends to the journal
    exactly what its reversal needs.

    [undoable s es s'] says that replaying the journal entries [es] backwards
    from any state that looks like [s'] ends, without panic or deadlock, in a
    state that looks like [s].  [good] is the transition relation every
    operation stays in; it composes, and RevertToSnapshot inverts it. *)
From S2P Require Import Prelude Uint256 AccessList StateTypes IntraBlockState StateView.
#[local] Open Scope Z_scope.

Section revert.
Context {U : Uint256} {US : Uint256Spec U}.
Context (keccak256 : list Byte.byte -> hash) (reader : StateReader).

Abbreviation IBSM := (M IntraBlockState).
Abbreviation view := (view keccak256 reader).
Abbreviation wf := (wf reader).
Abbreviation obj_ok := (obj_ok reader).
Abbreviation obj_view := (obj_view keccak256 reader).
Abbreviation same_state := (same_state keccak256 reader).
Abbreviation logical_object := (logical_object keccak256 reader).
Abbreviation base_object := (base_object keccak256 reader).
Abbreviation db_absent := (db_absent reader).
Abbreviation fresh_object := (fresh_object keccak256).
Abbreviation newObject := (newObject keccak256).
Abbreviation getStateObject := (getStateObject keccak256 reader).
Abbreviation createObject := (createObject keccak256).
Abbreviation revertEntry := (revertEntry keccak256 reader).

Lemma ss_dirtyset s t : same_rest s t -> stateObjectsDirty s = stateObjectsDirty t.
Proof. intros [_ _ E]. by injection E. Qed.

Definition revert_one (ch : journalEntry) : IBSM unit := _ ← revertEntry ch; undirty ch.

Definition undoable (s0 : IntraBlockState) (es : list journalEntry) (s : IntraBlockState) : Prop :=
  forall t, wf t -> same_state s t ->
    total (mfor revert_one (rev es)) t (fun _ t' => wf t' /\ same_state s0 t' /\ meta t' = meta t).

Definition good (s s' : IntraBlockState) : Prop :=
  wf s' /\ exists es,
    entries (journal s') = entries (journal s) ++ es /\
    locked (journal s') = locked (journal s) /\
    validRevisions s' = validRevisions s /\ nextRevisionID s' = nextRevisionID s /\
    undoable s es s'.

(** ** Composition *)

Lemma undoable_app s0 s1 s2 es1 es2 :
  undoable s0 es1 s1 -> undoable s1 es2 s2 -> undoable s0 (es1 ++ es2) s2.
Proof.
  intros H1 H2 t Hwf Hs. rewrite rev_app_distr.
  destruct (H2 t Hwf Hs) as ([] & t1 & E1 & Hwf1 & Hs1 & Hm1).
  destruct (H1 t1 Hwf1 Hs1) as ([] & t2 & E2 & Hwf2 & Hs2 & Hm2).
  exists tt, t2. split; [|split_and!; [done..|congruence]].
  rewrite mfor_app. by rewrite (M_bind_Ok _ _ _ _ _ E1).
Qed.

Lemma undoable_nil s s' : same_state s s' -> undoable s [] s'.
Proof.
  intros Hs t Hwf Ht. exists tt, t. split_and!; [done|done| |done]. by etransitivity.
Qed.

Lemma good_refl s : wf s -> good s s.
Proof.
  intros Hwf. split; [done|]. exists []. rewrite app_nil_r. split_and!; [done..|]. by apply undoable_nil.
Qed.

Lemma good_trans s1 s2 s3 : good s1 s2 -> good s2 s3 -> good s1 s3.
Proof.
  intros (_ & es1 & ? & ? & ? & ? & Hu1) (? & es2 & E & ? & ? & ? & Hu2). split; [done|].
  exists (es1 ++ es2). split_and!; [|congruence..|by eapply undoable_app].
  rewrite E, app_assoc. congruence.
Qed.

Lemma good_same s s' : wf s' -> same_state s s' -> meta s' = meta s -> good s s'.
Proof.
  unfold meta. intros Hwf Hs Hm. simplify_eq. split; [done|]. exists []. rewrite app_nil_r.
  split_and!; [congruence..|by apply undoable_nil].
Qed.

Lemma good_wf s s' : good s s' -> wf s'.
Proof. by intros []. Qed.

Lemma good_locked s s' : good s s' -> locked (journal s') = locked (journal s).
Proof. by intros (_ & es & _ & ? & _). Qed.

Lemma good_undo1 s s' e :
  wf s' -> entries (journal s') = entries (journal s) ++ [e] ->
  locked (journal s') = locked (journal s) -> validRevisions s' = validRevisions s ->
  nextRevisionID s' = nextRevisionID s ->
  (forall t, wf t -> same_state s' t ->
     total (revert_one e) t (fun _ t' => wf t' /\ same_state s t' /\ meta t' = meta t)) ->
  good s s'.
Proof.
  intros ? ? ? ? ? Hu. split; [done|]. exists [e]. split_and!; [done..|].
  intros t Ht Hs. destruct (Hu t Ht Hs) as ([] & t' & E & HQ). exists tt, t'.
  split; [|done]. simpl. by rewrite (M_bind_Ok _ _ _ _ _ E).
Qed.

(** ** The journal and its dirty counters *)

Definition appended (e : journalEntry) (s : IntraBlockState) : IntraBlockState :=
  set_journal (mk_journal (entries (journal s) ++ [e])
    (match dirtied e with Some a => incr_dirty a (dirties (journal s)) | None => dirties (journal s) end)
    false) s.

Lemma journal_append_spec e s :
  locked (journal s) = false -> journal_append e s = Ok (tt, appended e s).
Proof.
  intros Hl. unfold journal_append, lock_journal, unlock_journal, mbind, M_bind, gets, modify.
  rewrite Hl. by destruct s.
Qed.

Lemma incr_dirty_wf (a b : address) (d : gmap address Z) n :
  (forall b n, b <> ripemd -> d !! b = Some n -> 1 <= n) -> b <> ripemd ->
  incr_dirty a d !! b = Some n -> 1 <= n.
Proof.
  intros Hd Hb. unfold incr_dirty. rewrite lookup_insert. case_decide; [subst|by apply Hd].
  intros ?; simplify_eq. destruct (d !! b) eqn:E; simpl; [apply Hd in E; [lia|done]|lia].
Qed.

(** Undoing one increment of a counter, up to the RIPEMD exception. *)
Lemma decr_incr_dirty (a b : address) (d d' : gmap address Z) :
  (forall b n, b <> ripemd -> d !! b = Some n -> 1 <= n) ->
  (forall b, b <> ripemd -> incr_dirty a d !! b = d' !! b) ->
  b <> ripemd -> d !! b = decr_dirty a d' !! b.
Proof.
  intros Hd Hd' Hb. pose proof (Hd' b Hb) as Eb. unfold incr_dirty in Eb.
  rewrite lookup_insert in Eb. unfold decr_dirty. case_decide; [subst|].
  - rewrite <- Eb; simpl. destruct (d !! b) as [n|] eqn:E; simpl.
    + specialize (Hd _ _ Hb E). destruct (Z.eqb_spec (n + 1 - 1) 0); [lia|].
      rewrite lookup_insert_eq. f_equal. lia.
    + by rewrite lookup_delete_eq.
  - case_match; rewrite ?lookup_delete_ne, ?lookup_insert_ne by done; done.
Qed.

(** The journal's dirty counter after reverting [e]. *)
Definition undirtied (e : journalEntry) (s : IntraBlockState) : IntraBlockState :=
  match dirtied e with
  | Some a => set_journal (mk_journal (entries (journal s)) (decr_dirty a (dirties (journal s)))
                             (locked (journal s))) s
  | None => s
  end.

Lemma undirty_spec e s : undirty e s = Ok (tt, undirtied e s).
Proof. unfold undirty, undirtied. by destruct (dirtied e). Qed.

(** A state in which everything but the dirty counters has been undone. *)
Lemma undirtied_same s t e m :
  meta t = m -> wf s -> wf t -> (forall a k, view s a k = view t a k) -> same_rest s t ->
  (forall a, a <> ripemd ->
     dirties (journal (appended e s)) !! a = dirties (journal t) !! a) ->
  wf (undirtied e t) /\ same_state s (undirtied e t) /\ meta (undirtied e t) = m.
Proof.
  intros <- Hs Ht Hv Hrest Hdirt.
  assert (forall a, a <> ripemd ->
     dirties (journal s) !! a = dirties (journal (undirtied e t)) !! a) as Hdirt'.
  { intros a Hna. unfold undirtied, appended in *; simpl in *. destruct (dirtied e) as [b|]; [|by apply Hdirt].
    simpl. eapply decr_incr_dirty; [|done|done]. apply (wf_dirties _ _ Hs). }
  assert (meta (undirtied e t) = meta t) by (unfold undirtied; by destruct (dirtied e)).
  split_and!; [| |done].
  - unfold undirtied in *. destruct (dirtied e) as [b|]; [|done].
    pose proof (wf_dirties _ _ Hs) as Hsd. destruct Ht. split; simpl; try done. intros a n Hna E.
    eapply (Hsd a); [done|]. rewrite Hdirt' by done. done.
  - unfold undirtied in *. destruct (dirtied e) as [b|]; split; try done. by destruct Hrest.
Qed.

Lemma wf_appended e s : wf s -> wf (appended e s).
Proof.
  intros Hwf. pose proof (wf_dirties _ _ Hwf) as Hd. unfold appended.
  destruct Hwf. split; simpl; try done. destruct (dirtied e); [|done]. intros. by eapply incr_dirty_wf.
Qed.

(** ** Objects *)

Definition put_object (a : address) (o : stateObject) (s : IntraBlockState) : IntraBlockState :=
  set_stateObjects (<[a := o]> (stateObjects s)) s.

Lemma modifyObject_spec a f s o :
  stateObjects s !! a = Some o -> modifyObject a f s = Ok (tt, put_object a (f o) s).
Proof.
  intros Ho. unfold modifyObject, modify, put_object. do 3 f_equal.
  apply map_eq. intros b. rewrite lookup_alter, lookup_insert. case_decide; [subst|done].
  by rewrite Ho.
Qed.

Lemma theObject_spec a s o : stateObjects s !! a = Some o -> theObject a s = Ok (o, s).
Proof. intros Ho. unfold theObject, mbind, M_bind, gets. by rewrite Ho. Qed.

Lemma put_object_put a o o' s : put_object a o' (put_object a o s) = put_object a o' s.
Proof. unfold put_object. destruct s; simpl. by rewrite insert_insert_eq. Qed.

Lemma logical_put a o s b :
  logical_object (put_object a o s) b = if decide (a = b) then Some o else logical_object s b.
Proof.
  unfold put_object, StateView.logical_object; simpl. rewrite lookup_insert. by case_decide.
Qed.

Lemma view_put a o s b k :
  view (put_object a o s) b k = if decide (a = b) then Some (obj_view o k) else view s b k.
Proof. unfold StateView.view. rewrite logical_put. by case_decide. Qed.

Lemma pending_cases s a :
  wf s ->
  match pendingIncrease s a with
  | Some (r, bi) => balanceInc s !! a = Some r /\ biHeap s !! r = Some bi /\ transferred bi = false /\
                    stateObjects s !! a = None /\ db_absent a = true
  | None => forall r, balanceInc s !! a = Some r -> is_Some (stateObjects s !! a)
  end.
Proof.
  intros Hwf. unfold pendingIncrease. destruct (balanceInc s !! a) as [r|] eqn:E; [|done].
  destruct (wf_bi _ _ Hwf _ _ E) as (_ & bi & Ebi & _ & Ht). rewrite Ebi.
  destruct (transferred bi) eqn:Et; [|naive_solver]. by intros.
Qed.

Lemma pending_live s a o : wf s -> stateObjects s !! a = Some o -> pendingIncrease s a = None.
Proof.
  intros Hwf Ho. pose proof (pending_cases s a Hwf). destruct (pendingIncrease s a) as [[r bi]|]; [|done].
  destruct H as (_ & _ & _ & E & _). congruence.
Qed.

Lemma wf_put s a o : wf s -> obj_ok a o -> pendingIncrease s a = None -> wf (put_object a o s).
Proof.
  intros Hwf Ho Hp. pose proof Hwf as Hwf'. destruct Hwf. split; simpl; try done.
  - intros b o'. rewrite lookup_insert. case_decide; [|eauto]. intros. by simplify_eq.
  - intros b r Hr. destruct (wf_bi _ _ Hr) as (? & bi & Hbi & ? & Ht). split; [done|].
    exists bi. split_and!; [done..|]. destruct (transferred bi) eqn:Et.
    + rewrite lookup_insert. by case_decide.
    + rewrite lookup_insert_ne; [done|]. intros <-. unfold pendingIncrease in Hp.
      by rewrite Hr, Hbi, Et in Hp.
  - intros b Hb. rewrite lookup_insert. case_decide; [done|eauto].
Qed.

(** Replacing an object by one that looks the same. *)
Lemma same_put s a o :
  (forall k, view s a k = Some (obj_view o k)) -> same_state s (put_object a o s).
Proof.
  intros Ho. split; try done. intros b k. rewrite view_put. case_decide; [|done].
  subst. apply Ho.
Qed.

Lemma view_live s a o k : stateObjects s !! a = Some o -> view s a k = Some (obj_view o k).
Proof. intros Ho. unfold StateView.view, StateView.logical_object. by rewrite Ho. Qed.

Lemma setStateObject_nopending a o s :
  pendingIncrease s a = None -> setStateObject a o s = Ok (tt, put_object a o s).
Proof. intros Hp. unfold setStateObject, mbind, M_bind, gets. by rewrite Hp. Qed.

Lemma newObject_ok a d o : obj_ok a (newObject a d o).
Proof. by split. Qed.

(** Loading an account from the database changes no observation, and needs
    no journal entry. *)
Lemma load_total a t o :
  wf t -> logical_object t a = Some o -> pendingIncrease t a = None ->
  total (getStateObject a) t (fun x t' => exists o',
    x = Some o' /\ stateObjects t' !! a = Some o' /\ (forall k, obj_view o' k = obj_view o k) /\
    wf t' /\ same_state t t' /\ meta t' = meta t).
Proof.
  intros Hwf Hlo Hp. unfold IntraBlockState.getStateObject. tstep. tstep. unfold id.
  unfold StateView.logical_object in Hlo. destruct (stateObjects t !! a) as [o'|] eqn:Ho.
  { simplify_eq. apply total_ret. by exists o. }
  rewrite Hp in Hlo. unfold StateView.base_object in Hlo.
  rewrite bool_decide_eq_false_2.
  2: { intros Hn%(wf_nil _ _ Hwf). rewrite Hn in Hlo. unfold StateView.db_absent in Hn.
       by destruct (ReadAccountData reader a) as [[] []]. }
  destruct (ReadAccountData reader a) as [[acc|] [err|]] eqn:Er;
    simplify_eq; try (by case_match).
  tstep. exists tt, (put_object a (newObject a acc acc) t).
  split; [by apply setStateObject_nopending|]. tstep.
  exists (newObject a acc acc), (put_object a (newObject a acc acc) t). split.
  { apply theObject_spec. apply lookup_insert_eq. }
  tstep. eexists. split_and!; [done|apply lookup_insert_eq|done| | |done].
  - apply wf_put; [done|apply newObject_ok|done].
  - apply same_put. intros k. unfold StateView.view, StateView.logical_object.
    by rewrite Ho; unfold StateView.base_object; rewrite Er.
Qed.

Lemma pending_of_same s t a : same_rest s t -> pendingIncrease s a = pendingIncrease t a.
Proof.
  intros Hs. unfold pendingIncrease. rewrite <- (ss_bi _ _ Hs).
  destruct (balanceInc s !! a) eqn:E; [|done]. by rewrite (ss_cell _ _ Hs a).
Qed.

Lemma logical_of_view s a o :
  (forall k, view s a k = Some (obj_view o k)) ->
  exists lo, logical_object s a = Some lo /\ forall k, obj_view lo k = obj_view o k.
Proof.
  unfold StateView.view. intros Hv. destruct (logical_object s a) as [lo|]; [|specialize (Hv 0%N); done].
  exists lo. split; [done|]. intros k. specialize (Hv k). simpl in Hv. congruence.
Qed.

(** A journalled update of a live object.  [f] is the update, [e] the entry
    that records it and [g] what the entry's revert method does to the object. *)
Lemma good_set s a o f e g (K : option stateObject -> IBSM unit) :
  wf s -> locked (journal s) = false -> stateObjects s !! a = Some o ->
  dirtied e = Some a -> obj_ok a (f o) ->
  (forall t, revertEntry e t = (getStateObject a ≫= K) t) ->
  (forall o' t, obj_ok a o' -> (forall k, obj_view o' k = obj_view (f o) k) ->
     stateObjects t !! a = Some o' ->
     K (Some o') t = Ok (tt, put_object a (g o') t) /\ obj_ok a (g o') /\
     forall k, obj_view (g o') k = obj_view o k) ->
  total (_ ← journal_append e; modifyObject a f) s (fun _ s' =>
    good s s' /\ s' = put_object a (f o) (appended e s)).
Proof.
  intros Hwf Hl Ho He Hok HK Hg. exists tt, (put_object a (f o) (appended e s)).
  split.
  { rewrite (M_bind_Ok _ _ _ _ _ (journal_append_spec e s Hl)). by apply modifyObject_spec. }
  split; [|done].
  assert (pendingIncrease s a = None) as Hp by by eapply pending_live.
  apply good_undo1 with e; try done; [apply wf_put; [by apply wf_appended|done|done]|].
  intros t Ht Hs. pose proof (pending_of_same _ _ a (ss_rest _ _ _ _ Hs)) as Hpt.
  change (pendingIncrease s a = pendingIncrease t a) in Hpt.
  destruct (logical_of_view t a (f o)) as (lo & Hlo & Hvlo).
  { intros k. rewrite <- (ss_view _ _ _ _ Hs), view_put. by rewrite decide_True. }
  unfold revert_one. tstep.
  destruct (load_total a t lo Ht Hlo ltac:(congruence))
    as (x & t1 & E1 & o' & -> & Ho' & Hv' & Hwf1 & Hs1 & Hm1).
  destruct (Hg o' t1) as (EK & Hokg & Hvg); [by apply (wf_obj _ _ Hwf1)|intros; congruence|done|].
  exists tt, (put_object a (g o') t1). split; [by rewrite HK, (M_bind_Ok _ _ _ _ _ E1)|].
  exists tt, (undirtied e (put_object a (g o') t1)). split; [apply undirty_spec|].
  assert (same_state (put_object a (f o) (appended e s)) t1) as Hss by by etransitivity.
  apply undirtied_same; [done|done| | | |apply (ss_dirties _ _ _ _ Hss)].
  - apply wf_put; [done..|]. by eapply pending_live.
  - intros b k. rewrite view_put. pose proof (ss_view _ _ _ _ Hss b k) as Hv.
    rewrite view_put in Hv. case_decide; [|by rewrite <- Hv].
    subst. rewrite Hvg. by apply view_live.
  - by destruct (ss_rest _ _ _ _ Hss).
Qed.

(** ** Creating objects *)

(** The balance increase cell [r] with its flag set. *)
Definition mark_transferred (r : nat) (flag : bool) (s : IntraBlockState) : IntraBlockState :=
  set_biHeap (alter (fun bi => mk_BalanceIncrease (increase bi) flag (count bi)) r (biHeap s)) s.

Lemma mark_transferred_insert r bi s flag :
  biHeap s !! r = Some bi ->
  mark_transferred r flag s
    = set_biHeap (<[r := mk_BalanceIncrease (increase bi) flag (count bi)]> (biHeap s)) s.
Proof.
  intros E. unfold mark_transferred. f_equal. apply map_eq. intros r'.
  rewrite lookup_alter, lookup_insert. case_decide; [subst|done]. by rewrite E.
Qed.

Lemma mark_cell_eq r flag s bi :
  biHeap s !! r = Some bi ->
  biHeap (mark_transferred r flag s) !! r = Some (mk_BalanceIncrease (increase bi) flag (count bi)).
Proof. intros E. simpl. by rewrite lookup_alter, decide_True, E. Qed.

Lemma mark_cell_ne r r' flag s : r <> r' -> biHeap (mark_transferred r flag s) !! r' = biHeap s !! r'.
Proof. intros. simpl. by rewrite lookup_alter, decide_False. Qed.

Lemma view_mark r flag s b k :
  balanceInc s !! b <> Some r -> view (mark_transferred r flag s) b k = view s b k.
Proof.
  intros Hb. unfold StateView.view, StateView.logical_object. simpl.
  replace (pendingIncrease (mark_transferred r flag s) b) with (pendingIncrease s b); [done|].
  unfold pendingIncrease; simpl. destruct (balanceInc s !! b) as [r'|]; [|done].
  rewrite lookup_alter, decide_False; congruence.
Qed.

(** The state after an object was created at [a] with [o] as its value. *)
Definition created_state (a : address) (o : stateObject) (s : IntraBlockState) : IntraBlockState :=
  match pendingIncrease s a with
  | Some (r, _) =>
      put_object a o (appended (balanceIncreaseTransfer r)
        (mark_transferred r true (appended (createObjectChange a) s)))
  | None => put_object a o (appended (createObjectChange a) s)
  end.

Definition created_object (a : address) (s : IntraBlockState) : stateObject :=
  match pendingIncrease s a with
  | Some (_, bi) => add_to_object (increase bi) (fresh_object a zeroAccount)
  | None => fresh_object a zeroAccount
  end.

Lemma created_state_lookup a o s : stateObjects (created_state a o s) !! a = Some o.
Proof. unfold created_state. destruct (pendingIncrease s a) as [[r bi]|]; apply lookup_insert_eq. Qed.

Lemma created_state_put a o o' s : put_object a o' (created_state a o s) = created_state a o' s.
Proof. unfold created_state. destruct (pendingIncrease s a) as [[r bi]|]; apply put_object_put. Qed.

Lemma setStateObject_pending a o s r bi :
  locked (journal s) = false -> pendingIncrease s a = Some (r, bi) -> biHeap s !! r = Some bi ->
  setStateObject a o s
    = Ok (tt, put_object a (add_to_object (increase bi) o)
                (appended (balanceIncreaseTransfer r) (mark_transferred r true s))).
Proof.
  intros Hl Hp Hr. unfold setStateObject. unfold mbind at 1, M_bind at 1, gets at 1. rewrite Hp.
  unfold mbind at 1, M_bind at 1, modify at 1. rewrite <- (mark_transferred_insert r bi s true Hr).
  by rewrite (M_bind_Ok _ _ _ _ _ (journal_append_spec _ (mark_transferred r true s) Hl)).
Qed.

Lemma createObject_None a s :
  wf s -> locked (journal s) = false ->
  createObject a None s = Ok (created_object a s, created_state a (created_object a s) s).
Proof.
  intros Hwf Hl. unfold IntraBlockState.createObject, created_state, created_object.
  pose proof (pending_cases s a Hwf) as Hc.
  rewrite (M_bind_Ok _ _ _ _ _ (journal_append_spec (createObjectChange a) s Hl)).
  destruct (pendingIncrease s a) as [[r bi]|] eqn:Hp.
  - destruct Hc as (Hb & Hr & Ht & _).
    rewrite (M_bind_Ok _ _ _ _ _ (setStateObject_pending a _ (appended _ s) r bi eq_refl Hp Hr)).
    apply theObject_spec, lookup_insert_eq.
  - rewrite (M_bind_Ok _ _ _ _ _ (setStateObject_nopending a _ (appended _ s) Hp)).
    apply theObject_spec, lookup_insert_eq.
Qed.

(** What the balance increase entries look like before a creation: none at
    all, or one pending entry for an account the database does not have. *)
Lemma pending_absent s a :
  wf s -> stateObjects s !! a = None ->
  match pendingIncrease s a with
  | Some (r, bi) => balanceInc s !! a = Some r /\
      biHeap s !! r = Some (mk_BalanceIncrease (increase bi) false (count bi)) /\
      1 <= count bi /\ db_absent a = true
  | None => balanceInc s !! a = None
  end.
Proof.
  intros Hwf Ho. pose proof (pending_cases s a Hwf) as Hc.
  destruct (pendingIncrease s a) as [[r bi]|].
  - destruct Hc as (Hb & Hr & Ht & _ & Hdb). split_and!; [done| | |done].
    + rewrite Hr. by destruct bi; simpl in *; subst.
    + destruct (wf_bi _ _ Hwf _ _ Hb) as (_ & bi' & ? & ? & _). by simplify_eq.
  - destruct (balanceInc s !! a); [|done]. rewrite Ho in Hc. by destruct (Hc n eq_refl).
Qed.

Lemma wf_created s a o :
  wf s -> stateObjects s !! a = None -> obj_ok a o -> wf (created_state a o s).
Proof.
  intros Hwf Ho Hok. pose proof (pending_absent s a Hwf Ho) as Hc. unfold created_state.
  destruct (pendingIncrease s a) as [[r bi]|] eqn:Hp.
  2: { apply wf_put; [by apply wf_appended|done|done]. }
  destruct Hc as (Hb & Hr & Hcount & _).
  pose proof (wf_bi_inj _ _ Hwf) as Hinj.
  pose proof (wf_appended (createObjectChange a) s Hwf) as Hwf1.
  destruct Hwf1. split; simpl; try done.
  - intros b o'. rewrite lookup_insert. case_decide; naive_solver.
  - intros b r' Hb'. destruct (wf_bi _ _ Hb') as (? & bi1 & Hbi1 & ? & Htr). split; [done|].
    rewrite lookup_alter, lookup_insert. simpl in Hb'. destruct (decide (a = b)) as [<-|Hne].
    + rewrite Hb in Hb'. simplify_eq. rewrite decide_True, Hr by done. simpl.
      eexists. split; [done|]. simpl. eauto.
    + rewrite decide_False by (intros <-; by eapply Hne, Hinj). eauto.
  - intros b Hb'. rewrite lookup_insert. case_decide; [done|]. by apply wf_dirtyset.
Qed.

(** The effect on a state of undoing a creation at [a]. *)
Definition dropped (a : address) (s : IntraBlockState) : IntraBlockState :=
  set_stateObjectsDirty (stateObjectsDirty s ∖ {[a]})
    (set_stateObjects (delete a (stateObjects s)) s).

Lemma view_dropped_ne a s b k : a <> b -> view (dropped a s) b k = view s b k.
Proof.
  intros Hne. unfold StateView.view, StateView.logical_object; simpl. by rewrite lookup_delete_ne.
Qed.

Definition unmarked (a : address) (s : IntraBlockState) : IntraBlockState :=
  match balanceInc s !! a with Some r => mark_transferred r false s | None => s end.

Lemma unmarked_frame a s :
  stateObjects (unmarked a s) = stateObjects s /\ balanceInc (unmarked a s) = balanceInc s /\
  stateObjectsDirty (unmarked a s) = stateObjectsDirty s /\ meta (unmarked a s) = meta s /\
  dirties (journal (unmarked a s)) = dirties (journal s).
Proof. unfold unmarked. by destruct (balanceInc s !! a). Qed.

(** The balance increase cells a state shares with [created_state a o s],
    once the transfer at [a] is undone. *)
Lemma unmarked_cells s a o t :
  wf s -> stateObjects s !! a = None -> same_rest (created_state a o s) t ->
  balanceInc t = balanceInc s /\
  forall b r, balanceInc s !! b = Some r -> biHeap (unmarked a t) !! r = biHeap s !! r.
Proof.
  intros Hwf Ho Hs. pose proof (pending_absent s a Hwf Ho) as Hc.
  pose proof (ss_bi _ _ Hs) as Hbi. pose proof (ss_cell _ _ Hs) as Hcell.
  unfold created_state in *. unfold unmarked.
  destruct (pendingIncrease s a) as [[r bi]|]; simpl in Hbi, Hcell; rewrite <- Hbi.
  - destruct Hc as (Hb & Hr & _ & _). rewrite Hb. split; [done|]. intros b r' Hb'.
    specialize (Hcell b r' Hb'). rewrite lookup_alter in Hcell.
    case_decide; [subst|by rewrite mark_cell_ne, Hcell].
    rewrite Hr in *. by erewrite mark_cell_eq by (symmetry; exact Hcell).
  - rewrite Hc. split; [done|]. intros b r Hb. by rewrite (Hcell b r Hb).
Qed.

Lemma view_created_ne s a o b k :
  wf s -> stateObjects s !! a = None -> a <> b -> view (created_state a o s) b k = view s b k.
Proof.
  intros Hwf Ho Hne. pose proof (pending_absent s a Hwf Ho) as Hc. unfold created_state.
  destruct (pendingIncrease s a) as [[r bi]|]; rewrite view_put, decide_False by done; [|done].
  destruct Hc as [Hb _]. rewrite <- (view_mark r true s b k); [done|].
  intros Hb'. apply Hne. by eapply (wf_bi_inj _ _ Hwf).
Qed.

Lemma view_unmarked_ne a s b k : wf s -> a <> b -> view (unmarked a s) b k = view s b k.
Proof.
  intros Hwf Hne. unfold unmarked. destruct (balanceInc s !! a) as [r|] eqn:E; [|done].
  apply view_mark. intros Hb. apply Hne. by eapply (wf_bi_inj _ _ Hwf).
Qed.

Lemma unmarked_cell_ne a b r s :
  wf s -> a <> b -> balanceInc s !! b = Some r -> biHeap (unmarked a s) !! r = biHeap s !! r.
Proof.
  intros Hwf Hne Hb. unfold unmarked. destruct (balanceInc s !! a) as [r'|] eqn:E; [|done].
  apply mark_cell_ne. intros ->. apply Hne. by eapply (wf_bi_inj _ _ Hwf).
Qed.

Lemma rest_created s a o : rest (created_state a o s) = rest s.
Proof. unfold created_state. by destruct (pendingIncrease s a) as [[]|]. Qed.

Lemma undo_created s a o t :
  wf s -> stateObjects s !! a = None -> wf t -> same_state (created_state a o s) t ->
  wf (dropped a (unmarked a t)) /\ (forall b k, view s b k = view (dropped a (unmarked a t)) b k) /\
  same_rest s (dropped a (unmarked a t)).
Proof.
  intros Hwf Ho Ht Hs. pose proof (ss_rest _ _ _ _ Hs) as Hrest.
  destruct (unmarked_cells s a o t Hwf Ho Hrest) as [Hbt Hcells].
  destruct (unmarked_frame a t) as (Fo & Fb & Fd & Fm & Fdi).
  pose proof (ss_other _ _ Hrest) as Ho'. rewrite rest_created in Ho'.
  assert (a ∉ stateObjectsDirty t) as Hnd.
  { injection Ho' as E _ _ _ _. rewrite <- E. intros Hd%(wf_dirtyset _ _ Hwf).
    rewrite Ho in Hd. by destruct Hd. }
  split_and!.
  - pose proof Ht as Ht'. destruct Ht. split; simpl; rewrite ?Fo, ?Fb, ?Fd, ?Fdi; try done;
      try (unfold unmarked; by case_match).
    + intros b o'. rewrite lookup_delete. case_decide; naive_solver.
    + intros b r Hb. split; [unfold unmarked; case_match; by apply (wf_bi b r)|].
      destruct (decide (a = b)) as [<-|Hne].
      * rewrite Hbt in Hb. rewrite (Hcells a r Hb), lookup_delete_eq.
        destruct (StateView.wf_bi _ _ Hwf a r Hb) as (_ & bi & ? & ? & Htr).
        exists bi. rewrite Ho in Htr. split_and!; [done..|]. destruct (transferred bi); [by destruct Htr|done].
      * rewrite lookup_delete_ne, (unmarked_cell_ne a b r t) by done. by apply wf_bi.
    + intros b Hb. rewrite lookup_delete_ne by set_solver. apply wf_dirtyset. set_solver.
  - intros b k. destruct (decide (a = b)) as [<-|Hne].
    + unfold StateView.view, StateView.logical_object; simpl. rewrite lookup_delete_eq, Ho.
      unfold pendingIncrease; simpl. rewrite Fb, Hbt. destruct (balanceInc s !! a) eqn:E; [|done].
      by rewrite (Hcells a).
    + rewrite view_dropped_ne, view_unmarked_ne by done. rewrite <- (ss_view _ _ _ _ Hs).
      by rewrite view_created_ne.
  - split; simpl; [by rewrite Fb, Hbt|intros; symmetry; by apply (Hcells a0)|].
    rewrite Ho'. unfold rest, dropped; simpl. rewrite Fd.
    replace (stateObjectsDirty t ∖ {[a]}) with (stateObjectsDirty t) by set_solver.
    unfold unmarked. by case_match.
Qed.

Lemma good_created s a o :
  wf s -> locked (journal s) = false -> stateObjects s !! a = None -> obj_ok a o ->
  good s (created_state a o s).
Proof.
  intros Hwf Hl Ho Hok. split; [by apply wf_created|].
  pose proof (fun t => undo_created s a o t Hwf Ho) as Hundo.
  pose proof (pending_absent s a Hwf Ho) as Hc. unfold created_state in *.
  destruct (pendingIncrease s a) as [[r bi]|].
  - exists [createObjectChange a; balanceIncreaseTransfer r].
    split_and!; [by simpl; rewrite <- app_assoc|done..|]. intros t Ht Hs.
    destruct (Hundo t Ht Hs) as (Hwf0 & Hv0 & Hr0). simpl. tstep.
    exists tt, (mark_transferred r false t). split; [done|]. tstep.
    exists tt, (undirtied (createObjectChange a) (dropped a (mark_transferred r false t))).
    split; [done|]. apply total_ret.
    assert (unmarked a t = mark_transferred r false t) as Eu.
    { unfold unmarked. rewrite <- (ss_bi _ _ (ss_rest _ _ _ _ Hs)). simpl. by rewrite (proj1 Hc). }
    rewrite Eu in *. apply undirtied_same; try done. apply (ss_dirties _ _ _ _ Hs).
  - exists [createObjectChange a]. split_and!; [done..|]. intros t Ht Hs.
    destruct (Hundo t Ht Hs) as (Hwf0 & Hv0 & Hr0). simpl. tstep.
    exists tt, (undirtied (createObjectChange a) (dropped a t)). split; [done|]. apply total_ret.
    assert (unmarked a t = t) as Eu.
    { unfold unmarked. rewrite <- (ss_bi _ _ (ss_rest _ _ _ _ Hs)). simpl. by rewrite Hc. }
    rewrite Eu in *. apply undirtied_same; try done. apply (ss_dirties _ _ _ _ Hs).
Qed.

(** Replacing a live object by a new one: the journal keeps the old object. *)
Lemma good_reset s a o p :
  wf s -> locked (journal s) = false -> stateObjects s !! a = Some p -> obj_ok a o ->
  good s (put_object a o (appended (resetObjectChange a p) s)).
Proof.
  intros Hwf Hl Ho Hok. pose proof (pending_live s a p Hwf Ho) as Hp.
  apply good_undo1 with (resetObjectChange a p); try done.
  { apply wf_put; [by apply wf_appended|done|done]. }
  intros t Ht Hs. pose proof (pending_of_same _ _ a (ss_rest _ _ _ _ Hs)) as Hpt.
  change (pendingIncrease s a = pendingIncrease t a) in Hpt.
  unfold revert_one. tstep. exists tt, (put_object a p t).
  split; [apply setStateObject_nopending; congruence|].
  exists tt, (undirtied (resetObjectChange a p) (put_object a p t)). split; [apply undirty_spec|].
  apply undirtied_same; [done|done| | | |apply (ss_dirties _ _ _ _ Hs)].
  - apply wf_put; [done|by apply (wf_obj _ _ Hwf)|congruence].
  - intros b k. rewrite view_put. case_decide; [subst; by apply view_live|].
    rewrite <- (ss_view _ _ _ _ Hs), view_put. by rewrite decide_False.
  - by destruct (ss_rest _ _ _ _ Hs).
Qed.
End revert.
