(* ===== verification/StateOps.v ===== *)
(** Every operation of IntraBlockState is total on well-formed states, has
    the expected effect on the account views, and is undoable.  The results
    are total-correctness triples ([total]) whose postcondition says both. *)
From S2P Require Import Prelude Uint256 AccessList StateTypes IntraBlockState StateView StateRevert.
#[local] Open Scope Z_scope.

Section ops.
Context {U : Uint256} {US : Uint256Spec U}.
Context (keccak256 : list Byte.byte -> hash) (reader : StateReader).

Abbreviation IBSM := (M IntraBlockState).
Abbreviation view := (view keccak256 reader).
Abbreviation wf := (wf reader).
Abbreviation obj_ok := (obj_ok reader).
Abbreviation obj_view := (obj_view keccak256 reader).
Abbreviation same_state := (same_state keccak256 reader).
Abbreviation logical_object := (logical_object keccak256 reader).
Abbreviation db_absent := (db_absent reader).
Abbreviation fresh_object := (fresh_object keccak256).
Abbreviation newObject := (newObject keccak256).
Abbreviation getStateObject := (getStateObject keccak256 reader).
Abbreviation createObject := (createObject keccak256).
Abbreviation revertEntry := (revertEntry keccak256 reader).
Abbreviation good := (good keccak256 reader).

(** ** Looking an account up *)

Lemma total_eq {A} (m : IBSM A) s x s' (Q : A -> IntraBlockState -> Prop) :
  m s = Ok (x, s') -> Q x s' -> total m s Q.
Proof. intros. by exists x, s'. Qed.

Lemma fresh_object_ok a orig : obj_ok a (fresh_object a orig).
Proof. by split. Qed.

Lemma created_object_ok a s : obj_ok a (created_object keccak256 a s).
Proof. unfold created_object. destruct (pendingIncrease s a) as [[]|]; apply fresh_object_ok. Qed.

(** Changing only what no observation depends on. *)
Lemma good_frame s s' :
  wf s -> stateObjects s' = stateObjects s -> balanceInc s' = balanceInc s -> biHeap s' = biHeap s ->
  biNext s' = biNext s -> journal s' = journal s -> validRevisions s' = validRevisions s ->
  nextRevisionID s' = nextRevisionID s -> rest s' = rest s ->
  (forall a, a ∈ nilAccounts s' -> db_absent a = true) ->
  good s s' /\ forall b k, view s' b k = view s b k.
Proof.
  intros Hwf Eo Eb Eh En Ej Ev Er Ers Hnil.
  assert (forall b k, view s' b k = view s b k) as Hv.
  { intros b k. unfold StateView.view, StateView.logical_object, pendingIncrease. by rewrite Eo, Eb, Eh. }
  split; [|done]. injection Ers as Ed Eref Elogs Els Eacl Eth Ebh Eti. apply good_same.
  - destruct Hwf. split; rewrite ?Eo, ?Eb, ?Eh, ?En, ?Ej, ?Ed, ?Elogs, ?Els, ?Eacl; done.
  - split; [intros; symmetry; apply Hv| |by rewrite Ej]. split; [done|by rewrite Eh|].
    unfold rest. congruence.
  - unfold meta. by rewrite Ej, Ev, Er.
Qed.

Lemma setErrorUnsafe_spec err s :
  wf s -> total (setErrorUnsafe err) s (fun _ s' =>
    good s s' /\ (forall b k, view s' b k = view s b k) /\
    stateObjects s' = stateObjects s /\ balanceInc s' = balanceInc s /\ biHeap s' = biHeap s).
Proof.
  intros Hwf. apply total_modify. destruct (savedErr s).
  - split; [by apply good_refl|done].
  - split; [|split; [|done]]; eapply good_frame; try done; by apply (wf_nil _ _ Hwf).
Qed.

(** Creating the object of an account that has none changes no observation
    beyond that account; for a pending increase it changes none at all. *)
Lemma createObject_None_spec a s :
  wf s -> locked (journal s) = false -> stateObjects s !! a = None ->
  total (createObject a None) s (fun o s' =>
    good s s' /\ o = created_object keccak256 a s /\ s' = created_state a o s /\
    stateObjects s' !! a = Some o /\ forall b k, a <> b -> view s' b k = view s b k).
Proof.
  intros Hwf Hl Ho. eapply total_eq; [by apply (createObject_None _ reader)|].
  split_and!; [|done|done|apply created_state_lookup|].
  - apply good_created; [done..|apply created_object_ok].
  - intros. by apply view_created_ne.
Qed.

Lemma view_created_pending a s k r bi :
  wf s -> pendingIncrease s a = Some (r, bi) ->
  view s a k = Some (obj_view (created_object keccak256 a s) k).
Proof.
  intros Hwf Hp. pose proof (pending_cases reader s a Hwf) as Hc. rewrite Hp in Hc.
  destruct Hc as (_ & _ & _ & Ho & Hdb). unfold StateView.view, StateView.logical_object, created_object.
  rewrite Ho, Hp, Hdb. unfold StateView.base_object. unfold StateView.db_absent in Hdb.
  by destruct (ReadAccountData reader a) as [[] []].
Qed.

Lemma view_absent s a k :
  stateObjects s !! a = None -> pendingIncrease s a = None ->
  (forall acc, ReadAccountData reader a <> (Some acc, None)) -> view s a k = None.
Proof.
  intros Ho Hp Hr. unfold StateView.view, StateView.logical_object, StateView.base_object.
  rewrite Ho, Hp. destruct (ReadAccountData reader a) as [[acc|] [err|]] eqn:E; try by case_match.
  by destruct (Hr acc).
Qed.

Lemma pending_db_absent s a :
  wf s -> db_absent a = false -> pendingIncrease s a = None.
Proof.
  intros Hwf Hdb. pose proof (pending_cases reader s a Hwf) as Hc.
  destruct (pendingIncrease s a) as [[]|]; [|done]. destruct Hc as (_ & _ & _ & _ & Hdb'). congruence.
Qed.

(** What a lookup of [a] has established when it returns [x]. *)
Definition looked_up (a : address) (s : IntraBlockState) (x : option stateObject) (s' : IntraBlockState) : Prop :=
  good s s' /\ (forall b k, view s' b k = view s b k) /\ stateObjects s' !! a = x /\
  (x = None -> pendingIncrease s' a = None /\ forall k, view s a k = None).

Lemma lookup_error a s err :
  wf s -> stateObjects s !! a = None -> (ReadAccountData reader a).2 = Some err ->
  total (_ ← setErrorUnsafe err; mret None) s (looked_up a s).
Proof.
  intros Hwf Ho Er. tstep. eapply total_wand; [by apply setErrorUnsafe_spec|].
  intros _ s1 (? & ? & Eo & Eb & Eh). tstep.
  assert (db_absent a = false) as Hdb.
  { unfold StateView.db_absent. by destruct (ReadAccountData reader a) as [[] []]. }
  split_and!; [done|done|by rewrite Eo|]. intros _. split.
  - apply pending_db_absent; [by eapply good_wf|done].
  - intros k. apply view_absent; [done|by apply pending_db_absent|]. intros acc E. by rewrite E in Er.
Qed.

(** The end of a lookup that has found nothing in the database. *)
Lemma lookup_absent a s s1 :
  wf s -> locked (journal s) = false -> db_absent a = true ->
  good s s1 -> (forall b k, view s1 b k = view s b k) ->
  stateObjects s1 !! a = None -> pendingIncrease s1 a = pendingIncrease s a ->
  total (if isSome (pendingIncrease s a) then obj ← createObject a None; mret (Some obj) else mret None)
    s1 (looked_up a s).
Proof.
  intros Hwf Hl Hdb Hg Hv Ho1 Hp. pose proof (good_wf _ _ _ _ Hg) as Hwf1.
  destruct (pendingIncrease s a) as [[r bi]|] eqn:Ep; simpl.
  - tstep. eapply total_wand.
    { apply createObject_None_spec; [done|by rewrite (good_locked _ _ _ _ Hg)|done]. }
    intros o s2 (Hg2 & -> & -> & Ho2 & Hv2). tstep. split_and!; [by eapply good_trans| |done|done].
    intros b k. destruct (decide (a = b)) as [<-|Hne]; [|by rewrite Hv2].
    rewrite (view_live _ _ _ _ _ _ Ho2), <- Hv. symmetry. by eapply view_created_pending.
  - tstep. split_and!; [done..|]. intros _. split; [done|]. intros k. rewrite <- Hv.
    apply view_absent; [done..|]. intros acc E. unfold StateView.db_absent in Hdb. by rewrite E in Hdb.
Qed.

Lemma getStateObject_spec a s :
  wf s -> locked (journal s) = false -> total (getStateObject a) s (looked_up a s).
Proof.
  intros Hwf Hl. unfold IntraBlockState.getStateObject. tstep. tstep. unfold id.
  destruct (stateObjects s !! a) as [o|] eqn:Ho.
  { tstep. split_and!; [by apply good_refl|done..]. }
  destruct (bool_decide (a ∈ nilAccounts s)) eqn:En.
  { apply bool_decide_eq_true in En. apply lookup_absent; try done; [by apply (wf_nil _ _ Hwf)|by apply good_refl]. }
  destruct (ReadAccountData reader a) as [[acc|] [err|]] eqn:Er.
  - apply lookup_error; [done..|by rewrite Er].
  - assert (pendingIncrease s a = None) as Hp.
    { apply pending_db_absent; [done|]. unfold StateView.db_absent. by rewrite Er. }
    tstep. eapply total_eq; [by apply setStateObject_nopending|]. tstep.
    eapply total_eq; [apply theObject_spec, lookup_insert_eq|]. tstep.
    assert (same_state s (put_object a (newObject a acc acc) s)) as Hss.
    { apply same_put. intros k. unfold StateView.view, StateView.logical_object, StateView.base_object.
      by rewrite Ho, Er. }
    split_and!; [|intros; symmetry; apply (ss_view _ _ _ _ Hss)|apply lookup_insert_eq|done].
    apply good_same; [apply wf_put; [done|apply newObject_ok|done]|done|done].
  - apply lookup_error; [done..|by rewrite Er].
  - assert (db_absent a = true) by (unfold StateView.db_absent; by rewrite Er).
    tstep. tstep. apply lookup_absent; try done.
    all: eapply good_frame; try done; simpl; intros b; rewrite elem_of_union, elem_of_singleton;
      intros [->|Hb]; [done|by apply (wf_nil _ _ Hwf)].
Qed.

Definition with_nonce (x : Z) (v : acct_view) : acct_view :=
  mk_view x (v_balance v) (v_root v) (v_codehash v) (v_incarnation v) (v_original v) (v_selfdestructed v) (v_deleted v) (v_code v) (v_fake v) (v_storage v) (v_committed v).

Definition with_balance (x : u256) (v : acct_view) : acct_view :=
  mk_view (v_nonce v) x (v_root v) (v_codehash v) (v_incarnation v) (v_original v) (v_selfdestructed v) (v_deleted v) (v_code v) (v_fake v) (v_storage v) (v_committed v).

Definition with_storage (x : u256) (v : acct_view) : acct_view :=
  mk_view (v_nonce v) (v_balance v) (v_root v) (v_codehash v) (v_incarnation v) (v_original v) (v_selfdestructed v) (v_deleted v) (v_code v) (v_fake v) x (v_committed v).

Definition with_selfdestructed (x : bool) (v : acct_view) : acct_view :=
  mk_view (v_nonce v) (v_balance v) (v_root v) (v_codehash v) (v_incarnation v) (v_original v) x (v_deleted v) (v_code v) (v_fake v) (v_storage v) (v_committed v).

Definition with_incarnation (x : Z) (v : acct_view) : acct_view :=
  mk_view (v_nonce v) (v_balance v) (v_root v) (v_codehash v) x (v_original v) (v_selfdestructed v) (v_deleted v) (v_code v) (v_fake v) (v_storage v) (v_committed v).

Definition with_code (h : hash) (c : list Byte.byte) (v : acct_view) : acct_view :=
  mk_view (v_nonce v) (v_balance v) (v_root v) h (v_incarnation v) (v_original v) (v_selfdestructed v) (v_deleted v) c (v_fake v) (v_storage v) (v_committed v).

(** ** Looking an account up, creating it when needed *)

Lemma createObject_Some_spec a s p :
  wf s -> locked (journal s) = false -> stateObjects s !! a = Some p ->
  total (createObject a (Some p)) s (fun o s' =>
    o = fresh_object a (original p) /\ s' = put_object a o (appended (resetObjectChange a p) s) /\
    good s s').
Proof.
  intros Hwf Hl Ho. unfold IntraBlockState.createObject. tstep.
  eapply total_eq; [by apply journal_append_spec|]. tstep.
  eapply total_eq.
  { apply setStateObject_nopending. by apply (pending_live reader s a p). }
  eapply total_eq; [apply theObject_spec, lookup_insert_eq|].
  split_and!; [done|done|]. apply good_reset; try done.
Qed.

(** The account an update of [a] starts from: the existing one, or a fresh
    one when there is none or it was deleted. *)
Definition ensured_view (s : IntraBlockState) (a : address) (k : hash) : acct_view :=
  match view s a k with
  | Some v => if v_deleted v then obj_view (fresh_object a (v_original v)) k else v
  | None => obj_view (fresh_object a zeroAccount) k
  end.

Lemma GetOrNewStateObject_spec a s :
  wf s -> locked (journal s) = false ->
  total (GetOrNewStateObject keccak256 reader a) s (fun o s' =>
    good s s' /\ stateObjects s' !! a = Some o /\ (forall k, obj_view o k = ensured_view s a k) /\
    forall b k, a <> b -> view s' b k = view s b k).
Proof.
  intros Hwf Hl. unfold GetOrNewStateObject. tstep.
  eapply total_wand; [by apply getStateObject_spec|]. intros x s1 (Hg & Hv & Hx & Hnone).
  pose proof (good_wf _ _ _ _ Hg) as Hwf1. pose proof (good_locked _ _ _ _ Hg) as Hl1. rewrite Hl in Hl1.
  destruct x as [so|].
  - assert (forall k, view s a k = Some (obj_view so k)) as Hso.
    { intros k. rewrite <- Hv. by apply view_live. }
    destruct (deleted so) eqn:Hd.
    + eapply total_wand; [by apply createObject_Some_spec|]. intros o s2 (-> & -> & Hg2).
      split_and!; [by eapply good_trans|apply lookup_insert_eq| |].
      * intros k. unfold ensured_view. rewrite Hso. simpl. by rewrite Hd.
      * intros b k Hne. rewrite view_put, decide_False by done. apply Hv.
    + tstep. split_and!; [done|done| |by intros].
      intros k. unfold ensured_view. rewrite Hso. simpl. by rewrite Hd.
  - destruct (Hnone eq_refl) as [Hp Hvn].
    eapply total_wand; [by apply createObject_None_spec|]. intros o s2 (Hg2 & -> & -> & Ho2 & Hv2).
    split_and!; [by eapply good_trans|done| |intros; by rewrite Hv2].
    intros k. unfold ensured_view, created_object. by rewrite Hvn, Hp.
Qed.

(** ** Journalled updates of a live object *)

Lemma wf_addr s a o : wf s -> stateObjects s !! a = Some o -> so_address o = a.
Proof. intros Hwf Ho. by destruct (wf_obj _ _ Hwf _ _ Ho). Qed.

(** How the field updates of the methods show in the view. *)
Lemma view_setBalance x o k :
  obj_view (set_data (set_Initialised true (set_Balance x (data o))) o) k = with_balance x (obj_view o k).
Proof. done. Qed.

Lemma view_setNonce x o k :
  obj_view (set_data (set_Nonce x (data o)) o) k = with_nonce x (obj_view o k).
Proof. done. Qed.

Lemma view_setState key x o k :
  fakeStorage o = None ->
  obj_view (set_dirtyStorage (<[key := x]> (dirtyStorage o)) o) k
    = if decide (key = k) then with_storage x (obj_view o k) else obj_view o k.
Proof.
  intros Hf. unfold StateView.obj_view, StateView.obj_storage, StateView.obj_committed; simpl.
  rewrite Hf, lookup_insert. by case_decide.
Qed.

Lemma view_setFake key x fake o k :
  fakeStorage o = Some fake ->
  obj_view (set_fakeStorage (Some (<[key := x]> fake)) o) k
    = if decide (key = k) then
        let v := obj_view o k in
        mk_view (v_nonce v) (v_balance v) (v_root v) (v_codehash v) (v_incarnation v) (v_original v)
          (v_selfdestructed v) (v_deleted v) (v_code v) (v_fake v) x x
      else obj_view o k.
Proof.
  intros Hf. unfold StateView.obj_view, StateView.obj_storage, StateView.obj_committed; simpl.
  rewrite Hf, lookup_insert. by case_decide.
Qed.

(** The live object of [a] has become [o'] and the other accounts look as
    before. *)
Definition set_live (a : address) (s : IntraBlockState) (o' : stateObject) (s' : IntraBlockState) : Prop :=
  good s s' /\ stateObjects s' !! a = Some o' /\ forall b k, a <> b -> view s' b k = view s b k.

(** The common shape of the journalled setters: [upd] is the field update,
    used by the setter with the new value and by the revert method with the
    old one. *)
Lemma journalled_set {X} (upd : X -> stateObject -> stateObject) (e : journalEntry) a s o (x old : X) :
  wf s -> locked (journal s) = false -> stateObjects s !! a = Some o -> dirtied e = Some a ->
  (forall t, revertEntry e t = (obj ← getStateObject a; _ ← deref obj; modifyObject a (upd old)) t) ->
  (forall y o', obj_ok a o' -> obj_ok a (upd y o')) ->
  (forall o' k, obj_ok a o' -> (forall k, obj_view o' k = obj_view (upd x o) k) ->
     obj_view (upd old o') k = obj_view o k) ->
  total (_ ← journal_append e; modifyObject a (upd x)) s (fun _ s' => set_live a s (upd x o) s').
Proof.
  intros Hwf Hl Ho He Hrev Hok Hview. eapply total_wand.
  { apply (good_set keccak256 reader) with (o := o) (g := upd old)
      (K := fun obj => _ ← deref obj; modifyObject a (upd old)); try done.
    - by apply Hok, (wf_obj _ _ Hwf).
    - intros o' t Hok' Hv Ho'. split_and!; [|by apply Hok|intros; by apply Hview].
      exact (modifyObject_spec a (upd old) t o' Ho'). }
  intros _ s' [Hg ->]. split_and!; [done|apply lookup_insert_eq|].
  intros b k Hne. by rewrite view_put, decide_False.
Qed.

Lemma so_SetBalance_spec a x s o :
  wf s -> locked (journal s) = false -> stateObjects s !! a = Some o ->
  total (so_SetBalance a x) s (fun _ s' =>
    set_live a s (set_data (set_Initialised true (set_Balance x (data o))) o) s').
Proof.
  intros Hwf Hl Ho. unfold so_SetBalance. tstep. eapply total_eq; [by apply theObject_spec|].
  rewrite (wf_addr s a o Hwf Ho).
  apply (journalled_set (fun y so => set_data (set_Initialised true (set_Balance y (data so))) so)
           _ a s o x (Balance (data o))); try done.
  intros o' k _ Hv. by rewrite view_setBalance, Hv.
Qed.

Lemma so_SetNonce_spec a x s o :
  wf s -> locked (journal s) = false -> stateObjects s !! a = Some o ->
  total (so_SetNonce a x) s (fun _ s' => set_live a s (set_data (set_Nonce x (data o)) o) s').
Proof.
  intros Hwf Hl Ho. unfold so_SetNonce. tstep. eapply total_eq; [by apply theObject_spec|].
  rewrite (wf_addr s a o Hwf Ho).
  apply (journalled_set (fun y so => set_data (set_Nonce y (data so)) so)
           _ a s o x (Nonce (data o))); try done.
  intros o' k _ Hv. by rewrite view_setNonce, Hv.
Qed.

(** *** Storage *)

(** Caching a value read from the database. *)
Lemma view_cache key o k :
  fakeStorage o = None -> originStorage o !! key = None -> created o = false ->
  let out := read_storage reader (so_address o) (Incarnation (data o)) key in
  obj_view (set_blockOriginStorage (<[key := out]> (blockOriginStorage o))
              (set_originStorage (<[key := out]> (originStorage o)) o)) k = obj_view o k.
Proof.
  intros Hf Hk Hc out. unfold StateView.obj_view, StateView.obj_storage, StateView.obj_committed; simpl.
  rewrite Hf, lookup_insert. case_decide; [subst; by rewrite Hk, Hc|done].
Qed.

Lemma good_cache a s o o' :
  wf s -> stateObjects s !! a = Some o -> obj_ok a o' -> (forall k, obj_view o' k = obj_view o k) ->
  good s (put_object a o' s).
Proof.
  intros Hwf Ho Hok Hv. apply good_same; [|apply same_put|done].
  - apply wf_put; [done..|]. by apply (pending_live reader s a o).
  - intros k. rewrite Hv. by apply view_live.
Qed.

(** A read of a live object: its value, and at most caching. *)
Definition read_live {A} (a : address) (s : IntraBlockState) (o : stateObject) (x : A) (y : A)
    (s' : IntraBlockState) : Prop :=
  y = x /\ exists o', good s s' /\ stateObjects s' !! a = Some o' /\ code o' = code o /\
    (forall k, obj_view o' k = obj_view o k) /\ forall b k, view s' b k = view s b k.

Lemma read_live_refl {A} a s o (x : A) :
  wf s -> stateObjects s !! a = Some o -> read_live a s o x x s.
Proof. intros. split; [done|]. exists o. split_and!; try done. by apply good_refl. Qed.

Lemma so_GetCommittedState_spec a key s o :
  wf s -> stateObjects s !! a = Some o ->
  total (so_GetCommittedState reader a key) s (read_live a s o (obj_committed reader o key)).
Proof.
  intros Hwf Ho. unfold so_GetCommittedState. tstep. eapply total_eq; [by apply theObject_spec|].
  unfold StateView.obj_committed. destruct (fakeStorage o) as [fake|] eqn:Hf.
  { tstep. by apply read_live_refl. }
  destruct (originStorage o !! key) as [v|] eqn:Hk; [tstep; by apply read_live_refl|].
  destruct (created o) eqn:Hc; [tstep; by apply read_live_refl|].
  pose proof (view_cache key o) as Hview. unfold read_storage in *.
  destruct (ReadAccountStorage reader (so_address o) (Incarnation (data o)) key) as [enc [err|]].
  - tstep. eapply total_wand; [by apply setErrorUnsafe_spec|]. intros _ s1 (Hg & Hv & Eo & _). tstep.
    split; [by case_match|]. exists o. rewrite Eo. done.
  - set (out := match enc with Some bs => SetBytes bs | None => Clear end) in *.
    tstep. eapply total_eq; [by apply (modifyObject_spec _ _ _ o)|].
    tstep. eapply total_eq; [apply modifyObject_spec, lookup_insert_eq|]. tstep.
    split; [done|]. rewrite put_object_put. eexists. split_and!; [|apply lookup_insert_eq|done| |].
    + eapply good_cache; [done|done|by apply (wf_obj _ _ Hwf a o)|]. intros k. by apply Hview.
    + intros k. by apply Hview.
    + intros b k. rewrite view_put. case_decide; [subst|done].
      rewrite (view_live _ _ _ _ _ _ Ho). f_equal. by apply Hview.
Qed.

Lemma so_GetState_spec a key s o :
  wf s -> stateObjects s !! a = Some o ->
  total (so_GetState reader a key) s (read_live a s o (obj_storage reader o key)).
Proof.
  intros Hwf Ho. unfold so_GetState. tstep. eapply total_eq; [by apply theObject_spec|].
  unfold StateView.obj_storage. destruct (fakeStorage o) as [fake|] eqn:Hf.
  { tstep. by apply read_live_refl. }
  destruct (dirtyStorage o !! key) as [v|]; [tstep; by apply read_live_refl|].
  by apply so_GetCommittedState_spec.
Qed.

(** The view of [a] in a state where its live object was replaced. *)
Lemma set_live_view a s o' s' b k :
  set_live a s o' s' -> view s' b k = if decide (a = b) then Some (obj_view o' k) else view s b k.
Proof.
  intros (_ & Ho & Hv). case_decide; [subst; by apply view_live|by apply Hv].
Qed.

Lemma set_live_after_read {A} a s o (x y : A) s1 o' s2 :
  read_live a s o x y s1 -> set_live a s1 o' s2 -> set_live a s o' s2.
Proof.
  intros (_ & o1 & Hg1 & _ & _ & _ & Hv1) (Hg2 & Ho2 & Hv2).
  split_and!; [by eapply good_trans|done|intros; by rewrite Hv2, Hv1].
Qed.

(** What a setter of storage makes visible. *)
Definition storage_view (key : hash) (x : u256) (k : hash) (v : acct_view) : acct_view :=
  if decide (key = k) then
    if v_fake v then
      mk_view (v_nonce v) (v_balance v) (v_root v) (v_codehash v) (v_incarnation v) (v_original v)
        (v_selfdestructed v) (v_deleted v) (v_code v) (v_fake v) x x
    else with_storage x v
  else v.

Lemma with_storage_id o k : with_storage (obj_storage reader o k) (obj_view o k) = obj_view o k.
Proof. done. Qed.

Lemma fake_None_of_view o o' k :
  obj_view o' k = obj_view o k -> fakeStorage o = None -> fakeStorage o' = None.
Proof. intros E Ho. apply (f_equal v_fake) in E. simpl in E. rewrite Ho in E. by destruct (fakeStorage o'). Qed.

Lemma so_SetState_spec a key x s o :
  wf s -> locked (journal s) = false -> stateObjects s !! a = Some o ->
  total (so_SetState reader a key x) s (fun _ s' =>
    exists o', set_live a s o' s' /\ forall k, obj_view o' k = storage_view key x k (obj_view o k)).
Proof.
  intros Hwf Hl Ho. unfold so_SetState. tstep. eapply total_eq; [by apply theObject_spec|].
  pose proof (wf_addr s a o Hwf Ho) as Ha. rewrite Ha.
  assert (obj_ok a o) as Hok by by apply (wf_obj _ _ Hwf).
  destruct (fakeStorage o) as [fake|] eqn:Hf.
  { eapply total_wand.
    { apply (good_set keccak256 reader) with (o := o)
        (g := fun so => set_fakeStorage (Some (<[key := default Clear (fake !! key)]> (default ∅ (fakeStorage so)))) so)
        (K := fun obj => so ← deref obj; fake' ← deref (fakeStorage so);
          modifyObject a (set_fakeStorage (Some (<[key := default Clear (fake !! key)]> fake')))); try done.
      intros o' t Hok' Hv Ho'. pose proof (f_equal v_fake (Hv 0%N)) as Hf'. simpl in Hf'.
      destruct (fakeStorage o') as [fake'|] eqn:Ef'; [|done]. unfold mbind, M_bind; simpl. rewrite Ef'; simpl.
      rewrite (modifyObject_spec _ _ _ o') by done. split_and!; [done|done|].
      intros k. rewrite (view_setFake _ _ fake') by done. specialize (Hv k).
      rewrite (view_setFake _ _ fake) in Hv by done. case_decide; [subst|done].
      rewrite Hv. unfold StateView.obj_view, StateView.obj_storage, StateView.obj_committed; simpl. by rewrite Hf. }
    intros _ s' [Hg ->]. eexists. split.
    { split_and!; [done|apply lookup_insert_eq|]. intros b k Hne. by rewrite view_put, decide_False. }
    intros k. rewrite (view_setFake _ _ fake) by done. unfold storage_view. simpl. by rewrite Hf. }
  tstep. eapply total_wand; [by apply so_GetState_spec|]. intros prev s1 Hread. pose proof Hread as Hread'.
  destruct Hread' as (-> & o1 & Hg1 & Ho1 & _ & Hvo1 & Hv1). case_decide as Heq.
  { tstep. exists o1. split.
    { split_and!; [done|done|intros; apply Hv1]. }
    intros k. rewrite Hvo1. unfold storage_view. simpl. rewrite Hf. simpl.
    case_decide; [|done]. subst key. by rewrite <- Heq, with_storage_id. }
  assert (fakeStorage o1 = None) as Hf1 by by eapply (fake_None_of_view o o1 key).
  eapply total_wand.
  { apply (journalled_set (fun y so => set_dirtyStorage (<[key := y]> (dirtyStorage so)) so)
             (storageChange a key (obj_storage reader o key)) a s1 o1 x (obj_storage reader o key)); try done.
    - by eapply good_wf.
    - by rewrite (good_locked _ _ _ _ Hg1).
    - intros o2 k _ Hv. assert (fakeStorage o2 = None) as Hf2.
      { eapply (fake_None_of_view _ _ key); [apply Hv|done]. }
      rewrite view_setState, Hv, view_setState by done. case_decide; [subst|done].
      rewrite Hvo1. done. }
  intros [] s2 Hset. eexists. split; [by eapply set_live_after_read|].
  intros k. rewrite view_setState by done. rewrite Hvo1. unfold storage_view. simpl. by rewrite Hf.
Qed.

(** *** Code *)

Definition code_view (h : hash) (c : option (list Byte.byte)) (a : address) (inc : Z) : list Byte.byte :=
  match c with
  | Some c => c
  | None => if bool_decide (h = emptyCodeHash keccak256) then []
            else default [] (ReadAccountCode reader a inc h).1
  end.

Lemma view_setCode h c o k :
  obj_view (set_dirtyCode true (set_data (set_CodeHash h (data o)) (set_code c o))) k
    = with_code h (code_view h c (so_address o) (Incarnation (data o))) (obj_view o k).
Proof. done. Qed.

Lemma so_Code_spec a s o :
  wf s -> stateObjects s !! a = Some o ->
  total (so_Code keccak256 reader a) s (fun c s' => exists o',
    good s s' /\ stateObjects s' !! a = Some o' /\ (forall k, obj_view o' k = obj_view o k) /\
    (forall b k, view s' b k = view s b k) /\
    code_view (CodeHash (data o)) c a (Incarnation (data o)) = obj_code keccak256 reader o /\
    default [] c = obj_code keccak256 reader o).
Proof.
  intros Hwf Ho. unfold so_Code. tstep. eapply total_eq; [by apply theObject_spec|].
  pose proof (wf_addr s a o Hwf Ho) as Ha. unfold StateView.obj_code. rewrite Ha.
  destruct (code o) as [c|] eqn:Hc.
  { tstep. exists o. split_and!; try done. by apply good_refl. }
  destruct (bool_decide _) eqn:Hb.
  { tstep. exists o. unfold code_view. rewrite Hb. split_and!; try done. by apply good_refl. }
  set (r := ReadAccountCode _ _ _ _). tstep.
  assert (forall s1, good s s1 -> (forall b k, view s1 b k = view s b k) -> stateObjects s1 = stateObjects s ->
    total (_ ← modifyObject a (set_code r.1); mret r.1) s1 (fun c s' => exists o',
      good s s' /\ stateObjects s' !! a = Some o' /\ (forall k, obj_view o' k = obj_view o k) /\
      (forall b k, view s' b k = view s b k) /\
      code_view (CodeHash (data o)) c a (Incarnation (data o)) = default [] r.1 /\
      default [] c = default [] r.1)) as Hk.
  { intros s1 Hg Hv Eo. rewrite <- Eo in Ho. tstep. eapply total_eq; [by apply (modifyObject_spec _ _ _ o)|]. tstep.
    assert (forall k, obj_view (set_code r.1 o) k = obj_view o k) as Hov.
    { intros k. unfold StateView.obj_view, StateView.obj_code; simpl. rewrite Hc, Hb, Ha. fold r.
      by destruct r.1. }
    eexists. split_and!; [|apply lookup_insert_eq|done| | |].
    - eapply good_trans; [done|]. eapply good_cache; [by eapply good_wf|done| |done].
      by apply (wf_obj _ _ (good_wf _ _ _ _ Hg) a o).
    - intros b k. rewrite view_put. destruct (decide (a = b)) as [<-|]; [|apply Hv].
      rewrite Hov, <- Hv. symmetry. by apply view_live.
    - unfold code_view. rewrite Hb. fold r. by destruct r.1.
    - done. }
  destruct r.2 as [err|].
  - eapply total_wand; [by apply setErrorUnsafe_spec|]. intros _ s1 (? & ? & ? & _). by apply Hk.
  - tstep. apply Hk; [by apply good_refl|done|done].
Qed.

Lemma so_SetCode_spec a h c s o :
  wf s -> locked (journal s) = false -> stateObjects s !! a = Some o ->
  total (so_SetCode keccak256 reader a h c) s (fun _ s' => exists o', set_live a s o' s' /\
    forall k, obj_view o' k = with_code h (code_view h c a (Incarnation (data o))) (obj_view o k)).
Proof.
  intros Hwf Hl Ho. unfold so_SetCode. tstep. eapply total_wand; [by apply so_Code_spec|].
  intros prevcode s1 (o1 & Hg1 & Ho1 & Hvo1 & Hv1 & Hprev & _). tstep.
  pose proof (good_wf _ _ _ _ Hg1) as Hwf1.
  eapply total_eq; [by apply theObject_spec|]. pose proof (wf_addr _ _ _ Hwf1 Ho1) as Ha1. rewrite Ha1.
  assert (Incarnation (data o1) = Incarnation (data o)) as Hinc by apply (f_equal v_incarnation (Hvo1 0%N)).
  assert (CodeHash (data o1) = CodeHash (data o)) as Hch by apply (f_equal v_codehash (Hvo1 0%N)).
  rewrite Hch. eapply total_wand.
  { apply (journalled_set (fun (y : hash * option (list Byte.byte)) so =>
        set_dirtyCode true (set_data (set_CodeHash y.1 (data so)) (set_code y.2 so)))
        (codeChange a prevcode (CodeHash (data o))) a s1 o1 (h, c) (CodeHash (data o), prevcode)); try done.
    - by rewrite (good_locked _ _ _ _ Hg1).
    - intros o' k Hok Hv. rewrite view_setCode, Hv, view_setCode; simpl.
      destruct Hok as [Ha' _]. rewrite Ha'.
      assert (Incarnation (data o') = Incarnation (data o)) as ->.
      { rewrite <- Hinc. apply (f_equal v_incarnation (Hv 0%N)). }
      rewrite Hprev, Hvo1. done. }
  intros [] s2 (Hg2 & Ho2 & Hv2). eexists. split.
  { split_and!; [by eapply good_trans|exact Ho2|]. intros. by rewrite Hv2, Hv1. }
  intros k. rewrite view_setCode; simpl. by rewrite Ha1, Hinc, Hvo1.
Qed.

(** ** Balance increases of accounts that are not loaded *)

Lemma view_ext s s' b k :
  stateObjects s' = stateObjects s -> pendingIncrease s' b = pendingIncrease s b ->
  view s' b k = view s b k.
Proof. intros Eo Ep. unfold StateView.view, StateView.logical_object. by rewrite Eo, Ep. Qed.

Lemma pending_ext s s' b :
  balanceInc s' !! b = balanceInc s !! b ->
  (forall r, balanceInc s !! b = Some r -> biHeap s' !! r = biHeap s !! r) ->
  pendingIncrease s' b = pendingIncrease s b.
Proof.
  intros Eb Eh. unfold pendingIncrease. rewrite Eb. destruct (balanceInc s !! b) as [r|]; [|done].
  by rewrite (Eh r).
Qed.

Lemma view_pending s a k :
  stateObjects s !! a = None -> db_absent a = true ->
  view s a k = match pendingIncrease s a with
               | Some (_, bi) => Some (obj_view (add_to_object (increase bi) (fresh_object a zeroAccount)) k)
               | None => None end.
Proof.
  intros Ho Hdb. unfold StateView.view, StateView.logical_object, StateView.base_object. rewrite Ho, Hdb.
  unfold StateView.db_absent in Hdb. destruct (ReadAccountData reader a) as [[] []]; try done.
  by destruct (pendingIncrease s a) as [[]|].
Qed.

(** The three facts about the cell of [a] after AddBalance's increase. *)
Lemma addIncrease_spec a x s :
  wf s -> stateObjects s !! a = None -> db_absent a = true ->
  let s' := addIncrease a x (appended (balanceIncrease a x) s) in
  wf s' /\ (forall b, a <> b -> balanceInc s' !! b = balanceInc s !! b /\
              forall r, balanceInc s !! b = Some r -> biHeap s' !! r = biHeap s !! r) /\
  exists r bi, balanceInc s' !! a = Some r /\
    biHeap s' !! r = Some (mk_BalanceIncrease (Add (increase bi) x) false (count bi + 1)) /\
    ((pendingIncrease s a = Some (r, bi) /\ balanceInc s' = balanceInc s) \/
     (pendingIncrease s a = None /\ balanceInc s !! a = None /\ bi = mk_BalanceIncrease Clear false 0 /\
      balanceInc s' = <[a := r]> (balanceInc s))).
Proof.
  intros Hwf Ho Hdb. pose proof (pending_absent reader s a Hwf Ho) as Hc. simpl.
  pose proof (wf_appended reader (balanceIncrease a x) s Hwf) as Hwfa.
  unfold addIncrease. simpl. destruct (pendingIncrease s a) as [[r bi]|] eqn:Hp.
  - destruct Hc as (Hb & Hr & Hcount & _). rewrite Hb, Hr; simpl. split_and!.
    + pose proof (wf_bi_inj _ _ Hwf) as Hinj. destruct Hwfa. split; simpl in *; try done.
      intros b r' Hb'. destruct (wf_bi b r' Hb') as (? & bi' & ? & ? & ?). split; [done|].
      rewrite lookup_insert. case_decide; [subst|eauto]. pose proof (Hinj _ _ _ Hb Hb'). subst.
      eexists. split; [done|]. simpl. split; [lia|done].
    + intros b Hne. split; [done|]. intros r' Hb'. rewrite lookup_insert_ne; [done|].
      intros <-. apply Hne. by eapply (wf_bi_inj _ _ Hwf).
    + exists r, bi. split_and!; [done|apply lookup_insert_eq|]. left. split; [|done].
      unfold pendingIncrease in *. rewrite Hb, Hr in *. simpl in *. by simplify_eq.
  - rewrite Hc; simpl.
    assert (forall b r, balanceInc s !! b = Some r -> r <> biNext s) as Hfresh.
    { intros b r Hb. destruct (wf_bi _ _ Hwf b r Hb). lia. }
    split_and!.
    + pose proof (wf_bi_inj _ _ Hwf) as Hinj. destruct Hwfa. split; simpl in *; try done.
      * intros b r. rewrite lookup_insert. case_decide.
        -- intros; simplify_eq. split; [lia|]. rewrite lookup_insert_eq. eexists. split; [done|]. simpl. split; [lia|done].
        -- intros Hb. rewrite lookup_insert_ne by (intros <-; by eapply (Hfresh b)).
           destruct (wf_bi b r Hb) as (? & ?). split; [lia|done].
      * intros b c r. rewrite !lookup_insert. repeat case_decide; intros; simplify_eq; try done.
        -- by destruct (Hfresh c (biNext s)).
        -- by destruct (Hfresh b (biNext s)).
        -- by eapply Hinj.
    + intros b Hne. rewrite lookup_insert_ne by done. split; [done|]. intros r Hb.
      rewrite lookup_insert_ne; [done|intros <-; by eapply (Hfresh b)].
    + exists (biNext s), (mk_BalanceIncrease Clear false 0).
      split_and!; [apply lookup_insert_eq|apply lookup_insert_eq|]. right. split_and!; done.
Qed.
End ops.
