(* ===== verification/StateUpdates.v ===== *)
(** The exported updates of IntraBlockState (intra_block_state.go).

    Each specification is a total-correctness triple: from a well-formed state
    with a free journal lock the operation returns, changes the view of the
    one account it names in the documented way and no other view ([updates]),
    and can be undone by replaying the journal ([good]). *)
From S2P Require Import Prelude Uint256 AccessList StateTypes IntraBlockState StateView StateRevert StateOps.
#[local] Open Scope Z_scope.

Section updates.
Context {U : Uint256} {US : Uint256Spec U}.
Context (keccak256 : list Byte.byte -> hash) (reader : StateReader).

Abbreviation IBSM := (M IntraBlockState).
Abbreviation view := (view keccak256 reader).
Abbreviation wf := (wf reader).
Abbreviation obj_ok := (obj_ok reader).
Abbreviation obj_view := (obj_view keccak256 reader).
Abbreviation same_state := (same_state keccak256 reader).
Abbreviation db_absent := (db_absent reader).
Abbreviation fresh_object := (fresh_object keccak256).
Abbreviation getStateObject := (getStateObject keccak256 reader).
Abbreviation createObject := (createObject keccak256).
Abbreviation revertEntry := (revertEntry keccak256 reader).
Abbreviation revert_one := (revert_one keccak256 reader).
Abbreviation good := (good keccak256 reader).
Abbreviation set_live := (set_live keccak256 reader).
Abbreviation ensured_view := (ensured_view keccak256 reader).

(** Account [a], created when missing, is changed by [F]; nothing else is. *)
Definition updates (a : address) (F : hash -> acct_view -> acct_view) (s s' : IntraBlockState) : Prop :=
  good s s' /\
  forall b k, view s' b k = if decide (a = b) then Some (F k (ensured_view s a k)) else view s b k.

Lemma update_via {A} a F (m : IBSM A) s :
  wf s -> locked (journal s) = false ->
  (forall s1 o, wf s1 -> locked (journal s1) = false -> stateObjects s1 !! a = Some o ->
     total m s1 (fun _ s' => exists o', set_live a s1 o' s' /\ forall k, obj_view o' k = F k (obj_view o k))) ->
  total (_ ← GetOrNewStateObject keccak256 reader a; m) s (fun _ s' => updates a F s s').
Proof.
  intros Hwf Hl Hm. tstep. eapply total_wand; [by apply GetOrNewStateObject_spec|].
  intros o s1 (Hg & Ho & Hov & Hv). eapply total_wand.
  { apply (Hm s1 o); [by eapply good_wf|by rewrite (good_locked _ _ _ _ Hg)|done]. }
  intros x s2 (o' & Hset & Ho'). split; [by eapply good_trans, Hset|].
  intros b k. rewrite (set_live_view _ _ _ _ _ _ _ _ Hset). case_decide; [by rewrite Ho', Hov|by apply Hv].
Qed.

(** ** Balances *)

Definition credit (x : u256) (_ : hash) (v : acct_view) : acct_view := with_balance (Add (v_balance v) x) v.
Definition debit (x : u256) (_ : hash) (v : acct_view) : acct_view := with_balance (Sub (v_balance v) x) v.

Lemma SetBalance_spec a x s :
  wf s -> locked (journal s) = false ->
  total (SetBalance keccak256 reader a x) s (fun _ s' => updates a (fun _ => with_balance x) s s').
Proof.
  intros Hwf Hl. apply update_via; [done..|]. intros s1 o Hwf1 Hl1 Ho.
  eapply total_wand; [by apply (so_SetBalance_spec keccak256 reader)|]. intros [] s' Hset. by eexists.
Qed.

Lemma good_journal_dirty s s' a e :
  wf s -> s' = set_journal (mk_journal (entries (journal s) ++ [e])
                 (incr_dirty ripemd (incr_dirty ripemd (dirties (journal s)))) false) s ->
  e = touchChange a -> a = ripemd -> locked (journal s) = false -> good s s'.
Proof.
  intros Hwf -> -> -> Hl. apply (good_undo1 keccak256 reader) with (touchChange ripemd); try done.
  - destruct Hwf. split; try done; simpl. intros b n Hb Hn.
    eapply (incr_dirty_wf ripemd b); [|done|exact Hn]. intros c m Hc Hm. by eapply (incr_dirty_wf ripemd c).
  - intros t Ht Hs. eapply total_eq; [reflexivity|].
    apply undirtied_same with (e := touchChange ripemd); try done.
    + apply Hs.
    + by destruct (ss_rest _ _ _ _ Hs).
    + intros b Hb. rewrite <- (ss_dirties _ _ _ _ Hs b Hb). simpl. unfold incr_dirty.
      by rewrite !lookup_insert_ne by done.
Qed.

Lemma so_touch_spec a s o :
  wf s -> locked (journal s) = false -> stateObjects s !! a = Some o ->
  total (so_touch a) s (fun _ s' => set_live a s o s').
Proof.
  intros Hwf Hl Ho. unfold so_touch. tstep. eapply total_eq; [by apply theObject_spec|].
  rewrite (wf_addr reader s a o Hwf Ho). tstep. eapply total_eq; [by apply journal_append_spec|].
  case_bool_decide as Hr.
  - subst. eapply total_eq; [reflexivity|]. split_and!; [|done|done].
    by apply (good_journal_dirty _ _ ripemd (touchChange ripemd)).
  - tstep. split_and!; [|done|done]. apply (good_undo1 keccak256 reader) with (touchChange a); try done.
    + by apply wf_appended.
    + intros t Ht Hs. eapply total_eq; [reflexivity|].
      apply undirtied_same with (e := touchChange a); try done.
      * apply Hs.
      * by destruct (ss_rest _ _ _ _ Hs).
      * apply (ss_dirties _ _ _ _ Hs).
Qed.

Lemma so_AddBalance_spec a x s o :
  wf s -> locked (journal s) = false -> stateObjects s !! a = Some o ->
  total (so_AddBalance keccak256 a x) s (fun _ s' => exists o',
    set_live a s o' s' /\ forall k, obj_view o' k = credit x k (obj_view o k)).
Proof.
  intros Hwf Hl Ho. unfold so_AddBalance. tstep. eapply total_eq; [by apply theObject_spec|].
  destruct (IsZero x) eqn:Hz.
  - apply IsZero_true in Hz as ->.
    assert (forall k, obj_view o k = credit Clear k (obj_view o k)) as Hid.
    { intros k. unfold credit. simpl. by rewrite Add_Clear_r. }
    destruct (so_empty keccak256 o).
    + eapply total_wand; [by apply so_touch_spec|]. intros [] s' ?. by exists o.
    + tstep. exists o. split; [|done]. split_and!; [by apply good_refl|done..].
  - eapply total_wand; [by apply (so_SetBalance_spec keccak256 reader)|]. intros [] s' ?. by eexists.
Qed.

Lemma so_SubBalance_spec a x s o :
  wf s -> locked (journal s) = false -> stateObjects s !! a = Some o ->
  total (so_SubBalance a x) s (fun _ s' => exists o',
    set_live a s o' s' /\ forall k, obj_view o' k = debit x k (obj_view o k)).
Proof.
  intros Hwf Hl Ho. unfold so_SubBalance. tstep. eapply total_eq; [by apply theObject_spec|].
  destruct (IsZero x) eqn:Hz.
  - apply IsZero_true in Hz as ->. tstep. exists o. split; [split_and!; [by apply good_refl|done..]|].
    intros k. unfold debit. simpl. by rewrite Sub_Clear_r.
  - eapply total_wand; [by apply (so_SetBalance_spec keccak256 reader)|]. intros [] s' ?. by eexists.
Qed.

Lemma SubBalance_spec a x s :
  wf s -> locked (journal s) = false ->
  total (SubBalance keccak256 reader a x) s (fun _ s' => updates a (debit x) s s').
Proof. intros Hwf Hl. apply update_via; [done..|]. intros. by apply so_SubBalance_spec. Qed.
(** The state in which the increase of [a] by [x] is undone. *)
Definition decreased (a : address) (x : u256) (t : IntraBlockState) : IntraBlockState :=
  match balanceInc t !! a with
  | Some r =>
      match biHeap t !! r with
      | Some bi =>
          let bi' := mk_BalanceIncrease (Sub (increase bi) x) (transferred bi) (count bi - 1) in
          let t := set_biHeap (<[r := bi']> (biHeap t)) t in
          if count bi' =? 0 then set_balanceInc (delete a (balanceInc t)) t else t
      | None => t
      end
  | None => t
  end.

(** Undoing the increase gives back the cells of [s]. *)
Lemma decreased_cells a x s t :
  wf s -> stateObjects s !! a = None -> db_absent a = true ->
  same_rest (addIncrease a x (appended (balanceIncrease a x) s)) t -> wf t ->
  balanceInc (decreased a x t) = balanceInc s /\
  (forall b r, balanceInc s !! b = Some r -> biHeap (decreased a x t) !! r = biHeap s !! r) /\
  stateObjects (decreased a x t) = stateObjects t /\ rest (decreased a x t) = rest t /\
  journal (decreased a x t) = journal t /\ meta (decreased a x t) = meta t /\
  biNext (decreased a x t) = biNext t /\ nilAccounts (decreased a x t) = nilAccounts t.
Proof.
  intros Hwf Ho Hdb Hr Ht.
  destruct (addIncrease_spec reader a x s Hwf Ho Hdb) as (_ & Hne & r & bi & Ea & Ehr & Hcase).
  set (s' := addIncrease a x _) in *. pose proof (ss_bi _ _ Hr) as Hbi.
  pose proof (ss_cell _ _ Hr a r Ea) as Hcell. rewrite Ehr in Hcell.
  pose proof (pending_absent reader s a Hwf Ho) as Hp.
  unfold decreased. rewrite <- Hbi, Ea, <- Hcell. simpl. rewrite Add_Sub, Z.add_simpl_r.
  assert (forall b r', a <> b -> balanceInc s !! b = Some r' -> r' <> r /\ biHeap t !! r' = biHeap s !! r') as Hother.
  { intros b r' Hab Hb. destruct (Hne b Hab) as [Hb' Hh']. rewrite Hb in Hb'. split.
    - intros ->. apply Hab. rewrite Hbi in Ea, Hb'. by apply (wf_bi_inj _ _ Ht _ _ r).
    - rewrite <- (ss_cell _ _ Hr b r' Hb'). by apply Hh'. }
  destruct Hcase as [[Hpe Ebi]|(Hpe & Hb0 & -> & Ebi)]; rewrite Hpe in Hp.
  - destruct Hp as (Hb0 & Hh0 & Hcnt & _). destruct (Z.eqb_spec (count bi) 0); [lia|]. simpl.
    split_and!; [congruence| |done..]. intros b r' Hb. destruct (decide (a = b)) as [<-|Hab].
    + assert (r' = r) as -> by congruence. by rewrite lookup_insert_eq, Hh0.
    + destruct (Hother b r' Hab Hb). by rewrite lookup_insert_ne.
  - simpl. split_and!; [|intros b r' Hb|done..].
    + rewrite <- Hbi, Ebi. by rewrite delete_insert_id.
    + destruct (decide (a = b)) as [<-|Hab]; [congruence|].
      destruct (Hother b r' Hab Hb). by rewrite lookup_insert_ne.
Qed.

Lemma decreased_wf a x s t :
  wf s -> stateObjects s !! a = None -> db_absent a = true -> wf t ->
  same_rest (addIncrease a x (appended (balanceIncrease a x) s)) t ->
  wf (decreased a x t) /\ stateObjects t !! a = None.
Proof.
  intros Hwf Ho Hdb Ht Hr.
  destruct (addIncrease_spec reader a x s Hwf Ho Hdb) as (_ & Hne & r & bi & Ea & Ehr & Hcase).
  destruct (decreased_cells a x s t Hwf Ho Hdb Hr Ht) as (Eb1 & Eh1 & Eo1 & Er1 & Ej1 & Em1 & En1 & Enl1).
  pose proof (pending_cases reader t a Ht) as Hc. rewrite <- (pending_of_same _ _ a Hr) in Hc.
  unfold pendingIncrease in Hc at 1. rewrite Ea, Ehr in Hc. destruct Hc as (Hta & _ & _ & Hot & _).
  split; [|done]. pose proof (wf_bi _ _ Ht) as Htbi. pose proof (wf_bi _ _ Hwf) as Hsbi.
  pose proof (wf_bi_inj _ _ Hwf) as Hsinj. injection Er1 as E1 E2 E3 E4 E5 E6 E7 E8.
  destruct Ht. split; rewrite ?Eo1, ?Eb1, ?Ej1, ?En1, ?Enl1, ?E1, ?E3, ?E4, ?E5; try done.
  intros b r' Hb. rewrite (Eh1 b r' Hb). destruct (decide (a = b)) as [<-|Hab].
  - destruct (Hsbi a r' Hb) as (_ & bi' & Hbi' & Hc' & Htr). rewrite Ho in Htr.
    destruct (transferred bi') eqn:Etr; [by destruct Htr|]. split.
    + assert (r' = r) as ->; [|by destruct (Htbi a r Hta)].
      destruct Hcase as [[Hp _]|(_ & ? & _)]; [|congruence].
      unfold pendingIncrease in Hp. rewrite Hb, Hbi', Etr in Hp. congruence.
    + exists bi'. by rewrite Etr.
  - destruct (Hne b Hab) as [Hb' Hh]. rewrite Hb in Hb'. rewrite <- (Hh r' Hb), (ss_cell _ _ Hr b r' Hb').
    rewrite (ss_bi _ _ Hr) in Hb'. by apply Htbi.
Qed.

Lemma good_increase a x s :
  wf s -> locked (journal s) = false -> stateObjects s !! a = None -> db_absent a = true ->
  good s (addIncrease a x (appended (balanceIncrease a x) s)).
Proof.
  intros Hwf Hl Ho Hdb.
  destruct (addIncrease_spec reader a x s Hwf Ho Hdb) as (Hwf' & Hne & _).
  pose proof (fun t => decreased_cells a x s t Hwf Ho Hdb) as Hcells.
  pose proof (fun t => decreased_wf a x s t Hwf Ho Hdb) as Hdwf.
  set (s' := addIncrease a x _) in *.
  assert (stateObjects s' = stateObjects s /\ journal s' = journal (appended (balanceIncrease a x) s) /\
    validRevisions s' = validRevisions s /\ nextRevisionID s' = nextRevisionID s /\ rest s' = rest s)
    as (Eo & Ej & Ev & En & Er).
  { unfold s', addIncrease. by repeat case_match. }
  apply (good_undo1 keccak256 reader) with (balanceIncrease a x); [done|by rewrite Ej|by rewrite Ej|done|done|].
  intros t Ht Hs. pose proof (ss_rest _ _ _ _ Hs) as Hr.
  destruct (Hcells t Hr Ht) as (Eb1 & Eh1 & Eo1 & Er1 & Ej1 & Em1 & _).
  destruct (Hdwf t Ht Hr) as [Hwfd Hot]. unfold StateRevert.revert_one. tstep.
  apply (total_eq _ _ tt (decreased a x t)); [reflexivity|]. eapply total_eq; [apply undirty_spec|].
  assert (same_rest s (decreased a x t)) as Hrd.
  { split; [done|intros; symmetry; eauto|]. rewrite Er1, <- Er. apply (ss_other _ _ Hr). }
  apply undirtied_same; [done|done|done| |done|].
  - intros b k. destruct (decide (a = b)) as [<-|Hab].
    + rewrite (view_pending keccak256 reader s) by done.
      rewrite (view_pending keccak256 reader (decreased a x t)) by (rewrite ?Eo1; done).
      by rewrite (pending_of_same s (decreased a x t)).
    + assert (pendingIncrease s' b = pendingIncrease s b) as Ep by by apply pending_ext; apply Hne.
      rewrite <- (view_ext _ reader s s'), (ss_view _ _ _ _ Hs) by done.
      symmetry. apply view_ext; [done|]. by rewrite <- (pending_of_same _ _ b Hr), Ep, (pending_of_same _ _ b Hrd).
  - intros b Hb. rewrite Ej1, <- Ej. by apply (ss_dirties _ _ _ _ Hs).
Qed.

Definition can_credit (a : address) (x : u256) (s : IntraBlockState) : bool :=
  isSome (stateObjects s !! a) || (bool_decide (a = ripemd) && IsZero x) || db_absent a.

Lemma AddBalance_spec a x s :
  wf s -> locked (journal s) = false -> can_credit a x s = true ->
  total (AddBalance keccak256 reader a x) s (fun _ s' => updates a (credit x) s s').
Proof.
  intros Hwf Hl Hc. unfold AddBalance. tstep. tstep. unfold can_credit in Hc.
  destruct (isSome (stateObjects s !! a) || _) eqn:Hn; simpl in *.
  { apply update_via; [done..|]. intros. by apply so_AddBalance_spec. }
  apply orb_false_iff in Hn as [Ho%isSome_false _].
  tstep. eapply total_eq; [by apply journal_append_spec|]. tstep. split; [by apply good_increase|].
  destruct (addIncrease_spec reader a x s Hwf Ho Hc) as (Hwf' & Hne & r & bi & Ea & Ehr & Hcase).
  set (s' := addIncrease a x _) in *.
  assert (stateObjects s' = stateObjects s) as Eo by by unfold s', addIncrease; repeat case_match.
  intros b k. destruct (decide (a = b)) as [<-|Hab].
  2: { apply view_ext; [done|]. by apply pending_ext; apply Hne. }
  rewrite (view_pending keccak256 reader) by (rewrite ?Eo; done). unfold pendingIncrease. rewrite Ea, Ehr; simpl.
  f_equal. unfold StateOps.ensured_view. rewrite (view_pending keccak256 reader s) by done.
  destruct Hcase as [[-> _]|(-> & _ & -> & _)]; simpl; unfold credit, StateView.obj_view, with_balance; simpl.
  - by rewrite Add_assoc.
  - by rewrite Add_Clear_l.
Qed.

(** ** Nonce, code, storage *)

Lemma SetNonce_spec a x s :
  wf s -> locked (journal s) = false ->
  total (SetNonce keccak256 reader a x) s (fun _ s' => updates a (fun _ => with_nonce x) s s').
Proof.
  intros Hwf Hl. apply update_via; [done..|]. intros s1 o Hwf1 Hl1 Ho.
  eapply total_wand; [by apply (so_SetNonce_spec keccak256 reader)|]. intros [] s' Hset. by eexists.
Qed.

Lemma SetState_spec a key x s :
  wf s -> locked (journal s) = false ->
  total (SetState keccak256 reader a key x) s (fun _ s' => updates a (storage_view key x) s s').
Proof. intros Hwf Hl. apply update_via; [done..|]. intros. by apply so_SetState_spec. Qed.

Lemma SetCode_spec a c s :
  wf s -> locked (journal s) = false ->
  total (SetCode keccak256 reader a c) s (fun _ s' =>
    updates a (fun _ => with_code (keccak256 (default [] c)) (default [] c)) s s').
Proof.
  intros Hwf Hl. apply update_via; [done..|]. intros s1 o Hwf1 Hl1 Ho.
  eapply total_wand; [by apply (so_SetCode_spec keccak256 reader)|].
  intros [] s' (o' & Hset & Hv). exists o'. split; [done|]. intros k. rewrite Hv. f_equal.
  unfold code_view. destruct c as [c|]; [done|]. by rewrite bool_decide_eq_true_2.
Qed.

(** ** Self-destruction *)

(** A self-destructed contract that was created in this transaction looks the
    same without its created mark: the database has no storage for it. *)
Lemma view_uncreated o a k :
  obj_ok a o -> obj_view (set_created false o) k = obj_view o k.
Proof.
  intros [Ha Hcr]. unfold StateView.obj_view, StateView.obj_storage, StateView.obj_committed; simpl. rewrite Ha.
  destruct (fakeStorage o), (originStorage o !! k), (created o); try done.
  destruct (Hcr eq_refl) as [_ ->]. done.
Qed.

Definition destroyed (v : acct_view) : acct_view := with_selfdestructed true (with_balance Clear v).

Lemma Selfdestruct_spec a s :
  wf s -> locked (journal s) = false ->
  total (Selfdestruct keccak256 reader a) s (fun r s' =>
    good s s' /\
    (forall k, r = match view s a k with Some v => negb (v_deleted v) | None => false end) /\
    forall b k, view s' b k = if bool_decide (a = b) && r then destroyed <$> view s a k else view s b k).
Proof.
  intros Hwf Hl. unfold Selfdestruct. tstep. eapply total_wand; [by apply getStateObject_spec|].
  intros [so|] s1 (Hg & Hv & Ho & Hnone).
  2: { tstep. destruct (Hnone eq_refl) as [_ Hn]. split_and!; [done|intros k; by rewrite Hn|].
       intros b k. by rewrite andb_false_r. }
  pose proof (good_wf _ _ _ _ Hg) as Hwf1. pose proof (good_locked _ _ _ _ Hg) as Hl1. rewrite Hl in Hl1.
  assert (forall k, view s a k = Some (obj_view so k)) as Hso.
  { intros k. rewrite <- Hv. by apply view_live. }
  destruct (deleted so) eqn:Hd.
  { tstep. split_and!; [done|intros k; rewrite Hso; simpl; by rewrite Hd|].
    intros b k. by rewrite andb_false_r. }
  set (e := selfdestructChange a (selfdestructed so) (Balance (data so))).
  set (f := fun so => set_data (set_Balance Clear (data (set_created false (set_selfdestructed true so))))
                        (set_created false (set_selfdestructed true so))).
  assert (obj_ok a so) as Hok by by apply (wf_obj _ _ Hwf1).
  assert (forall k, obj_view (f so) k = destroyed (obj_view so k)) as Hf.
  { intros k. rewrite <- (view_uncreated so a k Hok). done. }
  destruct (good_set keccak256 reader s1 a so f e
    (fun so' => set_data (set_Initialised true (set_Balance (Balance (data so)) (data so')))
                  (set_selfdestructed (selfdestructed so) so'))
    (fun obj => match obj with
                | Some _ => _ ← modifyObject a (set_selfdestructed (selfdestructed so));
                            so_setBalance a (Balance (data so))
                | None => mret tt end)) as (? & s2 & _ & Hg2 & ->); try done.
  { split; [by destruct Hok|done]. }
  { intros o' t Hok' Hv' Ho'. split_and!.
    - unfold so_setBalance. rewrite (M_bind_Ok _ _ _ _ _ (modifyObject_spec _ _ _ _ Ho')).
      rewrite (modifyObject_spec _ _ _ (set_selfdestructed (selfdestructed so) o')) by apply lookup_insert_eq.
      by rewrite put_object_put.
    - destruct Hok' as [Ha' Hcr']. split; [done|]. intros Hc'. destruct (Hcr' Hc') as [Hsd _].
      pose proof (f_equal v_selfdestructed (Hv' 0%N)) as E. simpl in E. congruence.
    - intros k. transitivity (with_selfdestructed (selfdestructed so) (with_balance (Balance (data so)) (obj_view o' k))).
      + done.
      + by rewrite Hv', Hf. }
  tstep. eapply total_eq; [by apply journal_append_spec|].
  tstep. eapply total_eq; [by apply (modifyObject_spec _ _ _ so)|].
  tstep. eapply total_eq; [apply modifyObject_spec, lookup_insert_eq|].
  tstep. eapply total_eq; [apply modifyObject_spec, lookup_insert_eq|]. rewrite !put_object_put. tstep.
  split_and!; [by eapply good_trans|intros k; rewrite Hso; simpl; by rewrite Hd|].
  intros b k. rewrite view_put, andb_true_r, Hso. simpl. rewrite <- Hf.
  case_bool_decide; [by rewrite decide_True|rewrite decide_False by done; apply Hv].
Qed.

(** ** Creating accounts *)

(** The incarnation a contract creation at [a] uses. *)
Definition next_incarnation (s : IntraBlockState) (a : address) : Z :=
  let db := match ReadAccountIncarnation reader a with (inc, None) => inc | (_, Some _) => 0 end in
  u64_add (match view s a 0%N with
           | Some v => if v_selfdestructed v then v_incarnation v else db
           | None => db end) 1.

(** The database holds no storage for a fresh incarnation of [a]. *)
Definition fresh_storage (a : address) (inc : Z) : Prop := forall k, read_storage reader a inc k = Clear.

(** The account CreateAccount puts at [a]: empty, but for the balance and the
    pre-block account of a previous account. *)
Definition new_account (s : IntraBlockState) (a : address) (contractCreation : bool) : stateObject :=
  let o := match view s a 0%N with
           | Some v => set_data (set_Initialised true (set_Balance (v_balance v) (data (fresh_object a (v_original v)))))
                         (fresh_object a (v_original v))
           | None => fresh_object a zeroAccount end in
  if contractCreation
  then set_data (set_Incarnation (next_incarnation s a) (data (set_created true o))) (set_created true o)
  else set_selfdestructed false o.

Lemma new_account_ok s a cc :
  (cc = true -> fresh_storage a (next_incarnation s a)) -> obj_ok a (new_account s a cc).
Proof.
  intros Hfs. unfold new_account. destruct cc.
  - split; [by destruct (view s a 0%N)|]. intros _. specialize (Hfs eq_refl).
    by destruct (view s a 0%N).
  - split; [by destruct (view s a 0%N)|]. by destruct (view s a 0%N).
Qed.

Lemma CreateAccount_spec a cc s :
  wf s -> locked (journal s) = false -> (cc = true -> fresh_storage a (next_incarnation s a)) ->
  total (CreateAccount keccak256 reader a cc) s (fun _ s' => good s s' /\
    forall b k, view s' b k = if decide (a = b) then Some (obj_view (new_account s a cc) k) else view s b k).
Proof.
  intros Hwf Hl Hfs. pose proof (new_account_ok s a cc Hfs) as Hok. unfold CreateAccount. tstep.
  eapply total_wand; [by apply getStateObject_spec|]. intros x s1 (Hg & Hv & Ho & Hnone).
  pose proof (good_wf _ _ _ _ Hg) as Hwf1. pose proof (good_locked _ _ _ _ Hg) as Hl1. rewrite Hl in Hl1.
  assert (Hinc : u64_add (previousIncarnation reader a x) 1 = next_incarnation s a).
  { unfold next_incarnation, previousIncarnation. rewrite <- Hv. destruct x as [p|].
    - by rewrite (view_live _ _ _ _ _ _ Ho).
    - destruct (Hnone eq_refl) as [_ Hn]. by rewrite Hv, Hn. }
  unfold new_account in *. destruct x as [p|].
  - rewrite <- Hv, (view_live _ _ _ _ _ _ Ho) in *. simpl in *.
    tstep. eapply total_wand; [by apply (createObject_Some_spec keccak256 reader)|].
    intros o s2 (-> & -> & _). tstep. eapply total_eq; [apply modifyObject_spec, lookup_insert_eq|].
    destruct cc.
    + tstep. eapply total_eq; [apply modifyObject_spec, lookup_insert_eq|].
      eapply total_eq; [apply modifyObject_spec, lookup_insert_eq|]. rewrite !put_object_put, Hinc.
      split; [eapply good_trans; [done|by apply good_reset]|].
      intros b k. rewrite view_put. case_decide; [done|apply Hv].
    + eapply total_eq; [apply modifyObject_spec, lookup_insert_eq|]. rewrite !put_object_put.
      split; [eapply good_trans; [done|by apply good_reset]|].
      intros b k. rewrite view_put. case_decide; [done|apply Hv].
  - destruct (Hnone eq_refl) as [Hp Hn]. rewrite Hn in *.
    tstep. eapply total_wand; [by apply (createObject_None_spec keccak256 reader)|].
    intros o s2 (_ & -> & -> & _). unfold created_object. rewrite Hp. tstep. tstep.
    destruct cc.
    + tstep. eapply total_eq; [apply modifyObject_spec, created_state_lookup|].
      eapply total_eq; [apply modifyObject_spec, lookup_insert_eq|]. rewrite !put_object_put, created_state_put, Hinc.
      split; [eapply good_trans; [done|by apply good_created]|].
      intros b k. case_decide; [subst; apply view_live, created_state_lookup|]. by rewrite view_created_ne.
    + eapply total_eq; [apply modifyObject_spec, created_state_lookup|]. rewrite created_state_put.
      split; [eapply good_trans; [done|by apply good_created]|].
      intros b k. case_decide; [subst; apply view_live, created_state_lookup|]. by rewrite view_created_ne.
Qed.

(** ** Refund counter, logs and access list *)

(** [t] with the refund counter, the logs and the access list of [s]. *)
Definition with_rest (s t : IntraBlockState) : IntraBlockState :=
  set_refund (refund s) (set_logs (logs s) (set_logSize (logSize s) (set_acl (acl s) t))).

Definition appended_all (es : list journalEntry) (s : IntraBlockState) : IntraBlockState :=
  foldl (fun s e => appended e s) s es.

(** [s'] is [s] after a journalled change of those parts only. *)
Record rest_step (s : IntraBlockState) (es : list journalEntry) (s' : IntraBlockState) : Prop := {
  rs_objects : stateObjects s' = stateObjects s;
  rs_dirtyset : stateObjectsDirty s' = stateObjectsDirty s;
  rs_bi : balanceInc s' = balanceInc s;
  rs_heap : biHeap s' = biHeap s;
  rs_next : biNext s' = biNext s;
  rs_nil : nilAccounts s' = nilAccounts s;
  rs_ctx : (thash s', bhash s', txIndex s') = (thash s, bhash s, txIndex s);
  rs_journal : journal s' = mk_journal (entries (journal s) ++ es) (dirties (journal s)) false;
  rs_revs : validRevisions s' = validRevisions s;
  rs_nextrev : nextRevisionID s' = nextRevisionID s;
  rs_logs h l : logs s' !! h = Some l -> l <> [];
  rs_logSize : is_u64 (logSize s');
  rs_acl : al_wf (acl s')
}.

Lemma good_rest s es s' :
  wf s -> locked (journal s) = false -> rest_step s es s' ->
  (forall t, wf t -> rest t = rest s' -> mfor revert_one (rev es) t = Ok (tt, with_rest s t)) ->
  good s s' /\ forall b k, view s' b k = view s b k.
Proof.
  intros Hwf Hl [Eo Ed Eb Eh En Enl Ec Ej Ev Enr Hlogs Hls Hacl] Hrev.
  assert (forall b k, view s' b k = view s b k) as Hv.
  { intros b k. apply view_ext; [done|]. unfold pendingIncrease. by rewrite Eb, Eh. }
  split; [|done]. split.
  { destruct Hwf. split; rewrite ?Eo, ?Ed, ?Eb, ?Eh, ?En, ?Enl, ?Ej; done. }
  exists es. rewrite Ej, Hl. split_and!; try done. intros t Ht Hs.
  pose proof (ss_rest _ _ _ _ Hs) as [Hbi Hcell Hrest].
  eapply total_eq; [by apply Hrev|]. split_and!; [| |done].
  - destruct Hwf, Ht. split; done.
  - split; [intros b k; rewrite <- Hv; apply (ss_view _ _ _ _ Hs)| |].
    + split; [by rewrite <- Eb| |].
      * intros a r Ha. rewrite <- Eb in Ha. rewrite <- Eh. by apply (Hcell a).
      * injection Hrest as F1 _ _ _ _ F6 F7 F8. injection Ec as G1 G2 G3.
        unfold rest, with_rest. simpl. congruence.
    + intros a Ha. change (journal (with_rest s t)) with (journal t). rewrite <- (ss_dirties _ _ _ _ Hs a Ha). by rewrite Ej.
Qed.

Lemma AddRefund_spec gas s :
  wf s -> locked (journal s) = false ->
  total (AddRefund gas) s (fun _ s' => good s s' /\ (forall b k, view s' b k = view s b k) /\
    refund s' = u64_add (refund s) gas).
Proof.
  intros Hwf Hl. unfold AddRefund. tstep. tstep. tstep. eapply total_eq; [by apply journal_append_spec|]. tstep.
  apply and_left_nested. split; [|done]. apply good_rest with [refundChange (refund s)]; try done.
  - destruct Hwf. by split.
  - intros t Ht [=]. unfold revert_one, with_rest. simpl.
    unfold StateRevert.revert_one, mbind, M_bind; simpl. unfold modify. f_equal. f_equal.
    destruct t; simpl in *. by subst.
Qed.

Lemma SubRefund_error gas s :
  total (if refund s <? gas then setErrorUnsafe "refund counter below zero" else mret tt) s
    (fun _ s' => exists e, s' = set_savedErr e s /\ (refund s < gas -> e <> None)).
Proof.
  destruct (Z.ltb_spec (refund s) gas).
  - apply total_modify. destruct (savedErr s) as [e|] eqn:E; [exists (Some e)|by eexists].
    split; [|done]. rewrite <- E. by destruct s.
  - tstep. exists (savedErr s). split; [by destruct s|lia].
Qed.

Lemma SubRefund_spec gas s :
  wf s -> locked (journal s) = false ->
  total (SubRefund gas) s (fun _ s' => good s s' /\ (forall b k, view s' b k = view s b k) /\
    refund s' = u64_sub (refund s) gas /\ (refund s < gas -> savedErr s' <> None)).
Proof.
  intros Hwf Hl. unfold SubRefund. tstep. tstep. tstep. eapply total_eq; [by apply journal_append_spec|]. tstep.
  tstep. tstep. eapply total_wand; [apply (SubRefund_error gas (appended _ s))|].
  intros [] s1 (e & -> & He). tstep. apply and_left_nested. split; [|done].
  apply good_rest with [refundChange (refund s)]; try done.
  - destruct Hwf. by split.
  - intros t Ht [=]. unfold with_rest. simpl.
    unfold StateRevert.revert_one, mbind, M_bind; simpl. unfold modify. f_equal. f_equal.
    destruct t; simpl in *. by subst.
Qed.

(** The logs after AddLog. *)
Definition logged (log2 : Log) (s : IntraBlockState) : Log :=
  mk_Log (log_Address log2) (log_Topics log2) (log_Data log2) (log_BlockNumber log2)
    (thash s) (txIndex s) (bhash s) (logSize s).

Lemma removelast_log (s : IntraBlockState) h (l : Log) :
  (forall h l, logs s !! h = Some l -> l <> []) ->
  let ls := GetLogs h s ++ [l] in
  (if (length ls =? 1)%nat then delete h (<[h := ls]> (logs s))
   else <[h := take (length ls - 1) ls]> (<[h := ls]> (logs s))) = logs s.
Proof.
  intros Hwf. unfold GetLogs. simpl. rewrite length_app. simpl.
  destruct (logs s !! h) as [l0|] eqn:E; simpl.
  - specialize (Hwf h l0 E). destruct l0 as [|x l0]; [done|]. simpl. rewrite Nat.add_1_r. simpl.
    rewrite take_app_length, insert_insert_eq. by rewrite insert_id.
  - by rewrite delete_insert_id.
Qed.

Lemma revert_addLog h t ls (l : Log) :
  GetLogs h t = ls ++ [l] ->
  revert_one (addLogChange h) t = Ok (tt, set_logSize (u64_sub (logSize t) 1)
    (set_logs (if (length (ls ++ [l]) =? 1)%nat then delete h (logs t)
               else <[h := take (length (ls ++ [l]) - 1) (ls ++ [l])]> (logs t)) t)).
Proof.
  intros El. unfold StateRevert.revert_one. cbn [IntraBlockState.revertEntry]. unfold mbind, M_bind, gets.
  rewrite El. rewrite length_app, Nat.add_1_r. simpl. by destruct (length ls =? 0)%nat.
Qed.

Lemma AddLog_spec l s :
  wf s -> locked (journal s) = false ->
  total (AddLog l) s (fun _ s' => good s s' /\ (forall b k, view s' b k = view s b k) /\
    (forall h, GetLogs h s' = if decide (thash s = h) then GetLogs h s ++ [logged l s] else GetLogs h s) /\
    logSize s' = u64_add (logSize s) 1).
Proof.
  intros Hwf Hl. unfold AddLog. tstep. tstep. tstep. eapply total_eq; [by apply journal_append_spec|].
  tstep. tstep. tstep. tstep. tstep. apply and_left_nested. split.
  - apply good_rest with [addLogChange (thash s)]; try done.
    + destruct Hwf. split; try done; simpl.
      * intros h l0. rewrite lookup_insert. case_decide; [|apply wf_logs].
        intros [= <-]. by destruct (GetLogs _ _).
      * apply u64_range.
    + intros t Ht Hr. injection Hr as Ed Er Elog Esz Eac Et Eb Ei.
      change (GetLogs (thash s) (appended (addLogChange (thash s)) s)) with (GetLogs (thash s) s) in Elog.
      fold (logged l s) in Elog. pose proof (removelast_log s (thash s) (logged l s) (wf_logs _ _ Hwf)) as Hrem.
      assert (GetLogs (thash s) t = GetLogs (thash s) s ++ [logged l s]) as El.
      { unfold GetLogs at 1. by rewrite Elog, lookup_insert_eq. }
      cbn [rev app mfor]. unfold mbind, M_bind. rewrite (revert_addLog _ _ _ _ El).
      cbv zeta in Hrem. rewrite <- Elog in Hrem. rewrite Hrem, Esz, u64_add_sub by (apply (wf_logSize _ _ Hwf)).
      unfold mret, M_ret, with_rest. destruct t; simpl in *; by subst.
  - split; [|done]. intros h. unfold GetLogs at 1; simpl. rewrite lookup_insert. by case_decide; [subst|].
Qed.

(** *** Access list *)

Definition acl_entries (a : address) (slot : hash) (mods : bool * bool) : list journalEntry :=
  (if mods.1 then [accessListAddAccountChange a] else []) ++
  (if mods.2 then [accessListAddSlotChange a slot] else []).

Lemma revert_acl a slot mods t al' :
  undo_AddSlot a slot mods (acl t) = Ok (tt, al') ->
  mfor revert_one (rev (acl_entries a slot mods)) t = Ok (tt, set_acl al' t).
Proof.
  unfold undo_AddSlot, acl_entries. destruct mods as [[] []]; cbn [rev app fst snd mfor];
    unfold StateRevert.revert_one; cbn [IntraBlockState.revertEntry undirty dirtied];
    unfold mbind, M_bind, on_acl, mret, M_ret;
    try destruct (DeleteSlot a slot (acl t)) as [[[] al1]| | |]; unfold DeleteAddress, modify; try done;
    intros [= <-]; try done.
  all: by destruct t.
Qed.

Lemma good_acl s a slot mods al' :
  wf s -> locked (journal s) = false -> al_wf al' ->
  undo_AddSlot a slot mods al' = Ok (tt, acl s) ->
  total (_ ← (if mods.1 then journal_append (accessListAddAccountChange a) else mret tt);
         if mods.2 then journal_append (accessListAddSlotChange a slot) else mret tt) (set_acl al' s)
    (fun _ s' => good s s' /\ (forall b k, view s' b k = view s b k) /\ acl s' = al').
Proof.
  intros Hwf Hl Hal Hundo.
  assert (forall s', rest_step s (acl_entries a slot mods) s' -> rest s' = rest (set_acl al' s) ->
    good s s' /\ (forall b k, view s' b k = view s b k) /\ acl s' = al') as Hfin.
  { intros s' Hst Hr. apply and_left_nested. split; [|by injection Hr].
    eapply good_rest; [done|done|done|]. intros t Ht Hrt. rewrite Hr in Hrt. injection Hrt as Ed Er Elog Esz Eac Et Eb Ei.
    rewrite (revert_acl a slot mods t (acl s)) by by rewrite Eac.
    unfold with_rest. destruct t; simpl in *. by subst. }
  destruct mods as [[] []]; simpl; tstep.
  all: repeat first [eapply total_eq; [by apply journal_append_spec|] | tstep].
  all: apply Hfin; [|done].
  all: destruct Hwf; split; try done; simpl.
  all: rewrite <- ?app_assoc; try done.
  rewrite app_nil_r, <- Hl. by destruct (journal s).
Qed.

Lemma AddAddressToAccessList_spec a s :
  wf s -> locked (journal s) = false ->
  total (AddAddressToAccessList a) s (fun _ s' => good s s' /\ (forall b k, view s' b k = view s b k) /\
    forall b, al_rep (acl s') b = rep_add_address (al_rep (acl s)) a b).
Proof.
  intros Hwf Hl. destruct (AddAddress_spec (acl s) a (wf_acl _ _ Hwf)) as (al' & E & Hal & Hrep & Hdel & Hsame).
  unfold AddAddressToAccessList. tstep. eapply total_eq; [unfold on_acl; by rewrite E|].
  assert (undo_AddSlot a 0%N (negb (isSome (al_rep (acl s) a)), false) al' = Ok (tt, acl s)) as Hu.
  { unfold undo_AddSlot. simpl. destruct (al_rep (acl s) a); simpl in *; [by rewrite Hsame|by apply Hdel]. }
  destruct (good_acl s a 0%N _ al' Hwf Hl Hal Hu) as ([] & s' & E' & Hg & Hv & Hacl).
  apply (total_eq _ _ tt s').
  - unfold mbind, M_bind in E'. simpl in E'.
    destruct (negb _); [|exact E']. by destruct (journal_append _ _) as [[[] ?]| | |].
  - split_and!; [done|done|]. intros b. by rewrite Hacl.
Qed.

Lemma AddSlotToAccessList_spec a slot s :
  wf s -> locked (journal s) = false ->
  total (AddSlotToAccessList a slot) s (fun _ s' => good s s' /\ (forall b k, view s' b k = view s b k) /\
    forall b, al_rep (acl s') b = rep_add_slot (al_rep (acl s)) a slot b).
Proof.
  intros Hwf Hl. destruct (AddSlot_spec (acl s) a slot (wf_acl _ _ Hwf)) as (al' & E & Hal & Hrep & Hundo).
  unfold AddSlotToAccessList. tstep. eapply total_eq; [unfold on_acl; by rewrite E|].
  eapply total_wand; [by apply good_acl|].
  intros [] s' (Hg & Hv & Hacl). split_and!; [done|done|]. intros b. by rewrite Hacl.
Qed.

(** A step that changes no view of an account. *)
Definition unseen (s s' : IntraBlockState) : Prop :=
  good s s' /\ forall b k, view s' b k = view s b k.

Lemma unseen_trans s1 s2 s3 : unseen s1 s2 -> unseen s2 s3 -> unseen s1 s3.
Proof. intros [? E1] [? E2]. split; [by eapply good_trans|]. intros. by rewrite E2, E1. Qed.

Lemma total_mfor {A} (f : A -> IBSM unit) xs s :
  (forall x s, wf s -> locked (journal s) = false -> total (f x) s (fun _ => unseen s)) ->
  wf s -> locked (journal s) = false -> total (mfor f xs) s (fun _ => unseen s).
Proof.
  intros Hf. revert s. induction xs as [|x xs IH]; intros s Hwf Hl; simpl.
  - tstep. split; [by apply good_refl|done].
  - tstep. eapply total_wand; [by apply Hf|]. intros [] s1 H1. eapply total_wand.
    { apply IH; [by eapply good_wf, H1|]. by rewrite (good_locked _ _ _ _ (proj1 H1)). }
    intros [] s2 H2. by eapply unseen_trans.
Qed.

Lemma PrepareAccessList_spec sender dst precompiles list_ s :
  wf s -> locked (journal s) = false ->
  total (PrepareAccessList sender dst precompiles list_) s (fun _ => unseen s).
Proof.
  intros Hwf Hl.
  assert (forall a s, wf s -> locked (journal s) = false ->
    total (AddAddressToAccessList a) s (fun _ => unseen s)) as Haddr.
  { intros. eapply total_wand; [by apply AddAddressToAccessList_spec|]. by intros [] s' (? & ? & _). }
  assert (forall {A} (m : IBSM A) (k : IBSM unit) s, wf s -> locked (journal s) = false ->
    total m s (fun _ => unseen s) ->
    (forall s1, wf s1 -> locked (journal s1) = false -> total k s1 (fun _ => unseen s1)) ->
    total (_ ← m; k) s (fun _ => unseen s)) as Hseq.
  { intros A m k s0 Hwf0 Hl0 Hm Hk. tstep. eapply total_wand; [done|]. intros x s1 H1. eapply total_wand.
    { apply Hk; [by eapply good_wf, H1|]. by rewrite (good_locked _ _ _ _ (proj1 H1)). }
    simpl. intros [] s2 H2. exact (unseen_trans _ _ _ H1 H2). }
  assert (forall s, wf s -> unseen s s) as Hrefl by by intros; split; [apply good_refl|].
  apply Hseq; [done..|by apply Haddr|]. intros s1 Hwf1 Hl1.
  apply Hseq; [done..|destruct dst; [by apply Haddr|tstep; by apply Hrefl]|]. intros s2 Hwf2 Hl2.
  apply Hseq; [done..|apply total_mfor; [apply Haddr|done..]|]. intros s3 Hwf3 Hl3.
  apply total_mfor; [|done..]. intros [a keys] s4 Hwf4 Hl4. apply Hseq; [done..|by apply Haddr|].
  intros s5 Hwf5 Hl5. apply total_mfor; [|done..]. intros key s6 Hwf6 Hl6.
  eapply total_wand; [by apply AddSlotToAccessList_spec|]. by intros [] s' (? & ? & _).
Qed.
End updates.
