(* ===== verification/StateSnapshot.v ===== *)
(** The accessors of IntraBlockState, and Snapshot and RevertToSnapshot
    (intra_block_state.go, journal.go).

    Each accessor returns a function of the account's view and changes no view,
    so two states with the same views cannot be told apart.

    [reachable s ghost] holds of the states that updates, snapshots and
    reverts can produce; [ghost] remembers the state each snapshot was taken
    in.  In a reachable state every valid revision can be reverted to, and
    the result is the remembered state up to caching. *)
From S2P Require Import Prelude Uint256 AccessList StateTypes IntraBlockState StateView StateRevert StateOps StateUpdates.
#[local] Open Scope Z_scope.

Section queries.
Context {U : Uint256} {US : Uint256Spec U}.
Context (keccak256 : list Byte.byte -> hash) (reader : StateReader).

Abbreviation IBSM := (M IntraBlockState).
Abbreviation view := (view keccak256 reader).
Abbreviation wf := (wf reader).
Abbreviation obj_ok := (obj_ok reader).
Abbreviation obj_view := (obj_view keccak256 reader).
Abbreviation same_state := (same_state keccak256 reader).
Abbreviation getStateObject := (getStateObject keccak256 reader).
Abbreviation good := (good keccak256 reader).
Abbreviation unseen := (unseen keccak256 reader).

(** ** Queries and their answers *)

Inductive query :=
| QExist (a : address)
| QEmpty (a : address)
| QBalance (a : address)
| QNonce (a : address)
| QCode (a : address)
| QCodeSize (a : address)
| QCodeHash (a : address)
| QState (a : address) (key : hash)
| QCommittedState (a : address) (key : hash)
| QSelfdestructed (a : address)
| QIncarnation (a : address).

Inductive answer :=
| ABool (b : bool)
| ANum (n : Z)
| AWord (x : u256)
| ABytes (bs : list Byte.byte)
| AHash (h : hash).

Definition ask (q : query) : IBSM answer :=
  match q with
  | QExist a => x ← Exist keccak256 reader a; mret (ABool x)
  | QEmpty a => x ← Empty keccak256 reader a; mret (ABool x)
  | QBalance a => x ← GetBalance keccak256 reader a; mret (AWord x)
  | QNonce a => x ← GetNonce keccak256 reader a; mret (ANum x)
  | QCode a => x ← GetCode keccak256 reader a; mret (ABytes (default [] x))
  | QCodeSize a => x ← GetCodeSize keccak256 reader a; mret (ANum x)
  | QCodeHash a => x ← GetCodeHash keccak256 reader a; mret (AHash x)
  | QState a key => x ← GetState keccak256 reader a key; mret (AWord x)
  | QCommittedState a key => x ← GetCommittedState keccak256 reader a key; mret (AWord x)
  | QSelfdestructed a => x ← HasSelfdestructed keccak256 reader a; mret (ABool x)
  | QIncarnation a => x ← GetIncarnation keccak256 reader a; mret (ANum x)
  end.

(** The account a query is about, and the storage key. *)
Definition subject (q : query) : address * hash :=
  match q with
  | QExist a | QEmpty a | QBalance a | QNonce a | QCode a | QCodeSize a | QCodeHash a
  | QSelfdestructed a | QIncarnation a => (a, 0%N)
  | QState a key | QCommittedState a key => (a, key)
  end.

Definition view_empty (v : acct_view) : bool :=
  (v_nonce v =? 0) && IsZero (v_balance v) && bool_decide (v_codehash v = emptyCodeHash keccak256).

(** The answer, as a function of the view of an account that exists. *)
Definition answer_live (q : query) (v : acct_view) : answer :=
  match q with
  | QExist _ => ABool true
  | QEmpty _ => ABool (view_empty v)
  | QBalance _ => AWord (v_balance v)
  | QNonce _ => ANum (v_nonce v)
  | QCode _ => ABytes (v_code v)
  | QCodeSize _ => ANum (Z.of_nat (length (v_code v)))
  | QCodeHash _ => AHash (v_codehash v)
  | QState _ _ => AWord (v_storage v)
  | QCommittedState _ _ => AWord (v_committed v)
  | QSelfdestructed _ => ABool (v_selfdestructed v)
  | QIncarnation _ => ANum (v_incarnation v)
  end.

Definition answer_absent (q : query) : answer :=
  match q with
  | QExist _ | QSelfdestructed _ => ABool false
  | QEmpty _ => ABool true
  | QBalance _ | QState _ _ | QCommittedState _ _ => AWord Clear
  | QNonce _ | QCodeSize _ | QIncarnation _ => ANum 0
  | QCode _ => ABytes []
  | QCodeHash _ => AHash 0%N
  end.

Definition answer_of (q : query) (v : option acct_view) : answer :=
  match v with
  | None => answer_absent q
  | Some v =>
      if v_deleted v then match q with QIncarnation _ => answer_live q v | _ => answer_absent q end
      else answer_live q v
  end.

(** What the database promises about code sizes: ReadAccountCodeSize gives the
    length of what ReadAccountCode gives, and the empty code hash has no code. *)
Definition code_size_law : Prop :=
  forall a inc h, (ReadAccountCodeSize reader a inc h).1
    = if bool_decide (h = emptyCodeHash keccak256) then 0
      else Z.of_nat (length (default [] (ReadAccountCode reader a inc h).1)).

(** What the answer to a query relies on. *)
Definition relies (q : query) : Prop :=
  match q with QCodeSize _ => code_size_law | _ => True end.

Lemma relies_law q : code_size_law -> relies q.
Proof. by destruct q. Qed.

(** Queries that only look at the object. *)
Lemma ask_object {A} a (f : option stateObject -> A) (mk : A -> answer) (g : option acct_view -> answer) s :
  wf s -> locked (journal s) = false ->
  (forall o, obj_ok a o -> mk (f (Some o)) = g (Some (obj_view o 0%N))) -> mk (f None) = g None ->
  total (x ← (o ← getStateObject a; mret (f o)); mret (mk x)) s
    (fun x s' => x = g (view s a 0%N) /\ unseen s s').
Proof.
  intros Hwf Hl Hsome Hnone. tstep. tstep. eapply total_wand; [by apply getStateObject_spec|].
  intros o s' (Hg & Hv & Ho & Hn). tstep. tstep. split; [|by split].
  destruct o as [o|].
  - rewrite <- Hv, (view_live _ _ _ _ _ _ Ho). apply Hsome. by apply (wf_obj _ _ (good_wf _ _ _ _ Hg)).
  - destruct (Hn eq_refl) as [_ ->]. done.
Qed.

(** Queries that continue on the live object. *)
Lemma ask_live {A} a key (m : IBSM A) (z : A) (mk : A -> answer) (g : option acct_view -> answer) s :
  wf s -> locked (journal s) = false ->
  (forall s1 o, wf s1 -> stateObjects s1 !! a = Some o -> deleted o = false ->
     total m s1 (fun x s' => mk x = g (Some (obj_view o key)) /\ unseen s1 s')) ->
  mk z = g None -> (forall v, v_deleted v = true -> g (Some v) = g None) ->
  total (x ← (o ← getStateObject a; match o with
                                    | Some so => if deleted so then mret z else m
                                    | None => mret z end); mret (mk x)) s
    (fun x s' => x = g (view s a key) /\ unseen s s').
Proof.
  intros Hwf Hl Hm Hz Hdel. tstep. tstep. eapply total_wand; [by apply getStateObject_spec|].
  intros o s1 (Hg & Hv & Ho & Hn). destruct o as [o|].
  - rewrite <- Hv, (view_live _ _ _ _ _ _ Ho). destruct (deleted o) eqn:Hd.
    + tstep. tstep. split; [|by split]. rewrite (Hdel (obj_view o key)) by done. done.
    + eapply total_wand; [eapply Hm; [by eapply good_wf|done|done]|].
      intros x s2 [Hx Hs2]. tstep. split; [done|]. eapply unseen_trans; [|done]. by split.
  - tstep. tstep. destruct (Hn eq_refl) as [_ ->]. split; [done|by split].
Qed.

Lemma code_size_of_law a o :
  code_size_law -> so_address o = a -> code o = None ->
  (ReadAccountCodeSize reader a (Incarnation (data o)) (CodeHash (data o))).1
    = Z.of_nat (length (obj_code keccak256 reader o)).
Proof. intros Hlaw <- Hc. unfold StateView.obj_code. rewrite Hlaw, Hc. by case_bool_decide. Qed.

Lemma ask_code_size a s :
  wf s -> locked (journal s) = false ->
  total (ask (QCodeSize a)) s (fun x s' =>
    (code_size_law -> x = answer_of (QCodeSize a) (view s a 0%N)) /\ unseen s s').
Proof.
  intros Hwf Hl. simpl. tstep. unfold GetCodeSize. tstep. eapply total_wand; [by apply getStateObject_spec|].
  intros o s1 (Hg & Hv & Ho & Hn). pose proof (good_wf _ _ _ _ Hg) as Hwf1. destruct o as [o|].
  2: { tstep. tstep. destruct (Hn eq_refl) as [_ ->]. split; [done|by split]. }
  rewrite <- Hv, (view_live _ _ _ _ _ _ Ho). simpl. destruct (deleted o) eqn:Hd.
  { tstep. tstep. split; [done|by split]. }
  destruct (code o) as [c|] eqn:Hc.
  { tstep. tstep. unfold StateView.obj_code. rewrite Hc. split; [done|by split]. }
  pose proof (fun H => code_size_of_law a o H (wf_addr _ _ _ _ Hwf1 Ho) Hc) as Hsize.
  destruct (ReadAccountCodeSize reader a _ _) as [n [err|]]; simpl in *.
  - tstep. eapply total_wand; [by apply setErrorUnsafe_spec|].
    intros [] s2 (Hg2 & Hv2 & _). tstep. tstep. split; [intros H; by rewrite (Hsize H)|].
    eapply unseen_trans; by split.
  - tstep. tstep. tstep. tstep. split; [intros H; by rewrite (Hsize H)|by split].
Qed.

Lemma ask_spec q s :
  wf s -> locked (journal s) = false ->
  total (ask q) s (fun x s' =>
    (relies q -> x = answer_of q (view s (subject q).1 (subject q).2)) /\ unseen s s').
Proof.
  intros Hwf Hl. pose proof (SetUint64_0 (U := U)) as H0.
  assert (forall a key, (subject q) = (a, key) ->
    total (ask q) s (fun x s' => x = answer_of q (view s a key) /\ unseen s s') ->
    total (ask q) s (fun x s' =>
      (relies q -> x = answer_of q (view s (subject q).1 (subject q).2)) /\ unseen s s')) as Hw.
  { intros a key Hs Ht. eapply total_wand; [exact Ht|]. intros x s' [-> ?]. by rewrite Hs. }
  destruct q as [a|a|a|a|a|a|a|a key|a key|a|a]; try (by apply ask_code_size); (eapply Hw; [reflexivity|]).
  - apply (ask_object a _ ABool (answer_of (QExist a))); try done. intros o _. simpl. by destruct (deleted o).
  - apply (ask_object a _ ABool (answer_of (QEmpty a))); try done. intros o _. simpl. by destruct (deleted o).
  - apply (ask_object a _ AWord (answer_of (QBalance a))); try done; [|by rewrite H0].
    intros o _. simpl. rewrite H0. by destruct (deleted o).
  - apply (ask_object a _ ANum (answer_of (QNonce a))); try done. intros o _. simpl. by destruct (deleted o).
  - apply (ask_live a 0%N _ None (fun x => ABytes (default [] x)) (answer_of (QCode a))); try done.
    + intros s1 o Hwf1 Ho Hd. eapply total_wand; [by apply so_Code_spec|].
      intros c s2 (o' & Hg & _ & _ & Hv & _ & Hc). split; [|by split]. simpl. by rewrite Hd, Hc.
    + intros v Hd. simpl. by rewrite Hd.
  - apply (ask_object a _ AHash (answer_of (QCodeHash a))); try done. intros o _. simpl. by destruct (deleted o).
  - apply (ask_live a key _ Clear AWord (answer_of (QState a key))); try done.
    + intros s1 o Hwf1 Ho Hd. eapply total_wand; [by apply (so_GetState_spec keccak256)|].
      intros x s2 (-> & o' & Hg & _ & _ & _ & Hv). split; [|by split]. simpl. by rewrite Hd.
    + intros v Hd. simpl. by rewrite Hd.
  - apply (ask_live a key _ Clear AWord (answer_of (QCommittedState a key))); try done.
    + intros s1 o Hwf1 Ho Hd. eapply total_wand; [by apply (so_GetCommittedState_spec keccak256)|].
      intros x s2 (-> & o' & Hg & _ & _ & _ & Hv). split; [|by split]. simpl. by rewrite Hd.
    + intros v Hd. simpl. by rewrite Hd.
  - apply (ask_object a _ ABool (answer_of (QSelfdestructed a))); try done.
    intros o [_ Hcr]. simpl. destruct (deleted o); [done|]. destruct (created o); [|done].
    by destruct (Hcr eq_refl) as [-> _].
  - apply (ask_object a _ ANum (answer_of (QIncarnation a))); try done. intros o _. simpl. by destruct (deleted o).
Qed.

(** The accessor behind a query. *)
Lemma ask_inv {A} (m : IBSM A) (mk : A -> answer) s y s' :
  (x ← m; mret (mk x)) s = Ok (y, s') -> exists x, m s = Ok (x, s') /\ mk x = y.
Proof. unfold mbind, M_bind. destruct (m s) as [[x s1]| | |]; [|done..]. intros [= <- <-]. eauto. Qed.

(** Same views, same answers. *)
Lemma same_state_answers s t q :
  code_size_law -> wf s -> wf t -> locked (journal s) = false -> locked (journal t) = false -> same_state s t ->
  exists x s' t', ask q s = Ok (x, s') /\ ask q t = Ok (x, t').
Proof.
  intros Hlaw Hs Ht Hls Hlt Hst.
  destruct (ask_spec q s Hs Hls) as (x & s' & Es & Hx & _). rewrite (Hx (relies_law q Hlaw)) in Es.
  destruct (ask_spec q t Ht Hlt) as (y & t' & Et & Hy & _). rewrite (Hy (relies_law q Hlaw)) in Et.
  rewrite <- (ss_view _ _ _ _ Hst) in Et. eauto.
Qed.
End queries.

Section snapshots.
Context {U : Uint256} {US : Uint256Spec U}.
Context (keccak256 : list Byte.byte -> hash) (reader : StateReader).

Abbreviation IBSM := (M IntraBlockState).
Abbreviation view := (view keccak256 reader).
Abbreviation wf := (wf reader).
Abbreviation same_state := (same_state keccak256 reader).
Abbreviation undoable := (undoable keccak256 reader).
Abbreviation revert_one := (revert_one keccak256 reader).
Abbreviation good := (good keccak256 reader).
Abbreviation unseen := (unseen keccak256 reader).
Abbreviation RevertToSnapshot := (RevertToSnapshot keccak256 reader).

(** ** Operations *)

Inductive op :=
| OQuery (q : query)
| OAddBalance (a : address) (x : u256)
| OSubBalance (a : address) (x : u256)
| OSetBalance (a : address) (x : u256)
| OSetNonce (a : address) (n : Z)
| OSetCode (a : address) (c : option (list Byte.byte))
| OSetState (a : address) (key : hash) (x : u256)
| OSelfdestruct (a : address)
| OCreateAccount (a : address) (contractCreation : bool)
| OAddLog (l : Log)
| OAddRefund (gas : Z)
| OSubRefund (gas : Z)
| OAddAddress (a : address)
| OAddSlot (a : address) (slot : hash)
| OPrepareAccessList (sender : address) (dst : option address) (precompiles : list address)
    (tuples : list (address * list hash)).

Definition run_op (o : op) : IBSM unit :=
  match o with
  | OQuery q => _ ← ask keccak256 reader q; mret tt
  | OAddBalance a x => AddBalance keccak256 reader a x
  | OSubBalance a x => SubBalance keccak256 reader a x
  | OSetBalance a x => SetBalance keccak256 reader a x
  | OSetNonce a n => SetNonce keccak256 reader a n
  | OSetCode a c => SetCode keccak256 reader a c
  | OSetState a key x => SetState keccak256 reader a key x
  | OSelfdestruct a => _ ← Selfdestruct keccak256 reader a; mret tt
  | OCreateAccount a cc => CreateAccount keccak256 reader a cc
  | OAddLog l => AddLog l
  | OAddRefund gas => AddRefund gas
  | OSubRefund gas => SubRefund gas
  | OAddAddress a => AddAddressToAccessList a
  | OAddSlot a slot => AddSlotToAccessList a slot
  | OPrepareAccessList sender dst precompiles tuples => PrepareAccessList sender dst precompiles tuples
  end.

(** What the callers see to: an account of the database is read before it is
    credited, and a contract is created under an incarnation without storage. *)
Definition admissible (o : op) (s : IntraBlockState) : Prop :=
  match o with
  | OAddBalance a x => can_credit reader a x s = true
  | OCreateAccount a true => fresh_storage reader a (next_incarnation keccak256 reader s a)
  | _ => True
  end.

Lemma total_then_ret {A} (m : IBSM A) s (Q : IntraBlockState -> Prop) :
  total m s (fun _ s' => Q s') -> total (_ ← m; mret tt) s (fun _ s' => Q s').
Proof. intros H. tstep. eapply total_wand; [exact H|]. intros x s' ?. by tstep. Qed.

(** Every admissible operation returns, and can be undone. *)
Lemma run_op_good o s :
  wf s -> locked (journal s) = false -> admissible o s -> total (run_op o) s (fun _ s' => good s s').
Proof.
  intros Hwf Hl Ha.
  assert (forall A (m : IBSM A) P, total m s P -> (forall x s', P x s' -> good s s') ->
            total m s (fun _ s' => good s s')) as Hw.
  { intros A m P Hm HP. eapply total_wand; eauto. }
  destruct o; simpl; try apply total_then_ret.
  - eapply Hw; [by apply ask_spec|]. by intros x s' (_ & ? & _).
  - eapply Hw; [by apply AddBalance_spec|]. by intros x' s' [? _].
  - eapply Hw; [by apply SubBalance_spec|]. by intros x' s' [? _].
  - eapply Hw; [by apply SetBalance_spec|]. by intros x' s' [? _].
  - eapply Hw; [by apply SetNonce_spec|]. by intros x' s' [? _].
  - eapply Hw; [by apply SetCode_spec|]. by intros x' s' [? _].
  - eapply Hw; [by apply SetState_spec|]. by intros x' s' [? _].
  - eapply Hw; [by apply Selfdestruct_spec|]. by intros x' s' [? _].
  - eapply Hw; [apply CreateAccount_spec; [done..|by intros ->]|]. by intros x' s' [? _].
  - eapply Hw; [by apply AddLog_spec|]. by intros x' s' [? _].
  - eapply Hw; [by apply AddRefund_spec|]. by intros x' s' [? _].
  - eapply Hw; [by apply SubRefund_spec|]. by intros x' s' [? _].
  - eapply Hw; [by apply AddAddressToAccessList_spec|]. by intros x' s' [? _].
  - eapply Hw; [by apply AddSlotToAccessList_spec|]. by intros x' s' [? _].
  - eapply Hw; [by apply PrepareAccessList_spec|]. by intros x' s' [? _].
Qed.

(** ** Undoing a segment of the journal *)

(** [s'] continues the journal of [s], and the continuation can be undone. *)
Definition ext (s s' : IntraBlockState) : Prop :=
  exists es, entries (journal s') = entries (journal s) ++ es /\ undoable s es s'.

Lemma good_ext s s' : good s s' -> ext s s'.
Proof. intros (_ & es & ? & _ & _ & _ & ?). by exists es. Qed.

Lemma ext_trans s1 s2 s3 : ext s1 s2 -> ext s2 s3 -> ext s1 s3.
Proof.
  intros (es1 & E1 & H1) (es2 & E2 & H2). exists (es1 ++ es2). split; [by rewrite E2, E1, app_assoc|].
  by eapply undoable_app.
Qed.

Lemma ext_same s t t' :
  ext s t -> same_state t t' -> entries (journal t') = entries (journal t) -> ext s t'.
Proof.
  intros (es & E & H) Hs Ee. exists es. split; [by rewrite Ee|]. intros u Hu Hsu. apply H; [done|by etransitivity].
Qed.

Lemma ext_self s t : same_state s t -> entries (journal t) = entries (journal s) -> ext s t.
Proof. intros Hs Ee. exists []. split; [by rewrite app_nil_r|]. by apply undoable_nil. Qed.

(** The journal and the revision stack are not part of what is observed. *)
Lemma same_state_journal s es l rs n :
  same_state s (set_journal (mk_journal es (dirties (journal s)) l) (set_validRevisions rs (set_nextRevisionID n s))).
Proof. by split. Qed.

Lemma wf_journal s es l rs n :
  wf s -> wf (set_journal (mk_journal es (dirties (journal s)) l) (set_validRevisions rs (set_nextRevisionID n s))).
Proof. intros []. by split. Qed.

Definition with_locked (l : bool) (s : IntraBlockState) : IntraBlockState :=
  set_journal (mk_journal (entries (journal s)) (dirties (journal s)) l) s.

Definition truncated (n : nat) (s : IntraBlockState) : IntraBlockState :=
  set_journal (mk_journal (take n (entries (journal s))) (dirties (journal s)) false) s.

Lemma same_with_locked l s : same_state s (with_locked l s).
Proof. by split. Qed.

Lemma wf_with_locked l s : wf s -> wf (with_locked l s).
Proof. intros []. by split. Qed.

Lemma same_truncated n s : same_state s (truncated n s).
Proof. by split. Qed.

Lemma wf_truncated n s : wf s -> wf (truncated n s).
Proof. intros []. by split. Qed.

(** journal.revert back to where [s0] was. *)
Lemma journal_revert_spec s0 s :
  wf s -> locked (journal s) = false -> ext s0 s ->
  total (journal_revert keccak256 reader (journal_length s0)) s (fun _ s' =>
    wf s' /\ same_state s0 s' /\ entries (journal s') = entries (journal s0) /\
    locked (journal s') = false /\ validRevisions s' = validRevisions s /\ nextRevisionID s' = nextRevisionID s).
Proof.
  intros Hwf Hl (es & Ees & Hundo). unfold journal_revert. tstep.
  apply (total_eq _ _ tt (with_locked true s)).
  { unfold lock_journal, mbind, M_bind, gets. by rewrite Hl. }
  tstep. tstep. tstep.
  replace (drop (journal_length s0) (entries (journal (with_locked true s)))) with es.
  2: { simpl. rewrite Ees. unfold journal_length. by rewrite drop_app_length. }
  eapply total_wand; [apply Hundo; [by apply wf_with_locked|apply same_with_locked]|].
  intros [] s1 (Hwf1 & Hs1 & Hm1). injection Hm1 as He1 Hl1 Hr1 Hn1. simpl in *.
  assert (journal_length s0 <=? length (entries (journal s)) = true)%nat as Hle.
  { apply Nat.leb_le. rewrite Ees, length_app. unfold journal_length. lia. }
  rewrite Hle. tstep. apply (total_eq _ _ tt (with_locked true (truncated (journal_length s0) s1))).
  { unfold modify, truncated, with_locked. simpl. by rewrite Hl1. }
  apply (total_eq _ _ tt (truncated (journal_length s0) s1)); [done|]. split_and!; try done.
  - by apply wf_truncated.
  - etransitivity; [done|apply same_truncated].
  - simpl. rewrite He1, Ees. unfold journal_length. by rewrite take_app_length.
Qed.

(** ** Reachable states *)

Inductive reachable : IntraBlockState -> gmap nat IntraBlockState -> Prop :=
| reach_start s :
    wf s -> locked (journal s) = false -> validRevisions s = [] -> reachable s ∅
| reach_op s ghost o s' :
    reachable s ghost -> admissible o s -> run_op o s = Ok (tt, s') -> reachable s' ghost
| reach_snapshot s ghost id s' :
    reachable s ghost -> Snapshot s = Ok (id, s') -> reachable s' (<[id := s]> ghost)
| reach_revert s ghost id s' :
    reachable s ghost -> id ∈ (validRevisions s).*1 -> RevertToSnapshot id s = Ok (tt, s') ->
    reachable s' ghost.

(** The revision [r] at index [i] of the stack was taken in state [t]. *)
Record snapshot_of (s : IntraBlockState) (ghost : gmap nat IntraBlockState) (i : nat) (r : nat * nat)
    (t : IntraBlockState) : Prop := {
  so_ghost : ghost !! r.1 = Some t;
  so_wf : wf t;
  so_unlocked : locked (journal t) = false;
  so_len : r.2 = journal_length t;
  so_revs : validRevisions t = take i (validRevisions s);
  so_ext : ext t s;
  so_below j r' : (j < i)%nat -> validRevisions s !! j = Some r' -> exists t', ghost !! r'.1 = Some t' /\ ext t' t
}.

Record inv (s : IntraBlockState) (ghost : gmap nat IntraBlockState) : Prop := {
  inv_wf : wf s;
  inv_unlocked : locked (journal s) = false;
  inv_sorted i j r r' : (i < j)%nat -> validRevisions s !! i = Some r -> validRevisions s !! j = Some r' ->
    (r.1 < r'.1)%nat;
  inv_next i r : validRevisions s !! i = Some r -> (r.1 < nextRevisionID s)%nat;
  inv_snap i r : validRevisions s !! i = Some r -> exists t, snapshot_of s ghost i r t
}.

(** The binary search of RevertToSnapshot finds the revision. *)
Lemma find_revision s ghost i r :
  inv s ghost -> validRevisions s !! i = Some r ->
  sort_Search (length (validRevisions s))
    (fun j => match validRevisions s !! j with Some r' => (r.1 <=? r'.1)%nat | None => false end) = i.
Proof.
  intros Hinv Hi. pose proof (inv_sorted _ _ Hinv) as Hs. apply sort_Search_unique.
  - intros a b Hab Ha. destruct (lookup_lt_is_Some_2 (validRevisions s) b) as [rb Hb]; [lia|].
    destruct (validRevisions s !! a) as [ra|] eqn:Ea; [|done]. rewrite Hb.
    apply Nat.leb_le in Ha. apply Nat.leb_le. destruct (decide (a = b)); [by simplify_eq|].
    specialize (Hs a b ra rb ltac:(lia) Ea Hb). lia.
  - by eapply lookup_lt_Some.
  - rewrite Hi. by apply Nat.leb_le.
  - intros a Ha. destruct (validRevisions s !! a) as [ra|] eqn:Ea; [|done].
    specialize (Hs a i ra r Ha Ea Hi). apply Nat.leb_gt. lia.
Qed.

Definition reverted (s t s' : IntraBlockState) : Prop :=
  wf s' /\ same_state t s' /\ entries (journal s') = entries (journal t) /\
  validRevisions s' = validRevisions t /\ locked (journal s') = false /\ nextRevisionID s' = nextRevisionID s.

Lemma RevertToSnapshot_spec s ghost i r t :
  inv s ghost -> validRevisions s !! i = Some r -> snapshot_of s ghost i r t ->
  total (RevertToSnapshot r.1) s (fun _ s' => reverted s t s').
Proof.
  intros Hinv Hi Ht. unfold IntraBlockState.RevertToSnapshot. tstep. tstep.
  rewrite (find_revision _ _ _ _ Hinv Hi), Hi, Nat.eqb_refl. tstep. rewrite (so_len _ _ _ _ _ Ht).
  eapply total_wand.
  { apply journal_revert_spec; [apply Hinv|apply Hinv|by apply (so_ext _ _ _ _ _ Ht)]. }
  intros [] s1 (Hwf1 & Hs1 & He1 & Hl1 & Hr1 & Hn1). tstep. split_and!; try done.
  - destruct Hwf1. by split.
  - etransitivity; [done|by split].
  - simpl. rewrite Hr1. by rewrite (so_revs _ _ _ _ _ Ht).
Qed.

(** ** The invariant is preserved *)

Lemma inv_op s ghost s' :
  inv s ghost -> good s s' -> inv s' ghost.
Proof.
  intros Hinv Hg. pose proof (good_ext _ _ Hg) as Hext. destruct Hg as (Hwf & es & Ees & Hl & Hr & Hn & _).
  destruct Hinv as [_ Hul Hs Hnx Hsn]. split; rewrite ?Hr, ?Hn; try done; [congruence|].
  intros i r Hi. destruct (Hsn i r Hi) as (t & Ht). exists t. destruct Ht. split; rewrite ?Hr; try done.
  by eapply ext_trans.
Qed.

Lemma Snapshot_spec s :
  Snapshot s = Ok (nextRevisionID s,
    set_validRevisions (validRevisions s ++ [(nextRevisionID s, journal_length s)])
      (set_nextRevisionID (S (nextRevisionID s)) s)).
Proof. done. Qed.

Lemma inv_snapshot s ghost id s' :
  inv s ghost -> Snapshot s = Ok (id, s') -> inv s' (<[id := s]> ghost).
Proof.
  intros Hinv E. rewrite Snapshot_spec in E. injection E as <- <-.
  destruct Hinv as [Hwf Hul Hs Hnx Hsn].
  assert (ext s (set_validRevisions (validRevisions s ++ [(nextRevisionID s, journal_length s)])
      (set_nextRevisionID (S (nextRevisionID s)) s))) as Hext by by apply ext_self.
  assert (forall i r, validRevisions s !! i = Some r ->
    <[nextRevisionID s := s]> ghost !! r.1 = ghost !! r.1) as Hgh.
  { intros i r Hi. apply lookup_insert_ne. specialize (Hnx i r Hi). lia. }
  split; simpl; try done.
  - destruct Hwf. by split.
  - intros i j r r' Hij Hi Hj. apply lookup_snoc_Some in Hi as [[Hi1 Hi]|[Hi1 Hi]], Hj as [[Hj1 Hj]|[Hj1 Hj]].
    + by apply (Hs i j).
    + subst. by apply (Hnx i).
    + lia.
    + lia.
  - intros i r Hi. apply lookup_snoc_Some in Hi as [[Hi1 Hi]|[Hi1 <-]]; simpl; [|lia].
    specialize (Hnx i r Hi). lia.
  - intros i r Hi. apply lookup_snoc_Some in Hi as [[Hi1 Hi]|[-> <-]].
    + destruct (Hsn i r Hi) as (t & []). exists t. split; simpl; try done.
      * by rewrite (Hgh i).
      * by rewrite take_app_le by lia.
      * by eapply ext_trans.
      * intros j r' Hj Hj'. rewrite lookup_app_l in Hj' by lia. rewrite (Hgh j) by done. by apply (so_below0 j).
    + exists s. split; simpl; try done.
      * apply lookup_insert_eq.
      * by rewrite take_app_length.
      * intros j r' Hj Hj'. rewrite lookup_app_l in Hj' by lia. rewrite (Hgh j) by done.
        destruct (Hsn j r' Hj') as (t & []). eauto.
Qed.

Lemma inv_revert s ghost i r t s' :
  inv s ghost -> validRevisions s !! i = Some r -> snapshot_of s ghost i r t -> reverted s t s' -> inv s' ghost.
Proof.
  intros Hinv Hi [Hgt Hwft Hlt Hlen Hrevs Hext Hbelow] (Hwf' & Hst & He & Hr & Hl & Hn).
  destruct Hinv as [Hwf Hul Hs Hnx Hsn]. rewrite Hrevs in Hr.
  assert (forall j r', validRevisions s' !! j = Some r' -> (j < i)%nat /\ validRevisions s !! j = Some r') as Hlk.
  { intros j r'. rewrite Hr. intros Hj. pose proof (lookup_lt_Some _ _ _ Hj) as Hlt0. rewrite length_take in Hlt0.
    split; [lia|]. by rewrite lookup_take_lt in Hj by lia. }
  split; try done.
  - intros j k rj rk Hjk Hj Hk. destruct (Hlk _ _ Hj), (Hlk _ _ Hk). by apply (Hs j k).
  - intros j rj Hj. destruct (Hlk _ _ Hj). rewrite Hn. by apply (Hnx j).
  - intros j rj Hj. destruct (Hlk _ _ Hj) as [Hji Hj0]. destruct (Hsn j rj Hj0) as (tj & [Hg1 Hwf1 Hlk1 Hl1 Hr1 He1 Hb1]).
    exists tj. split; try done.
    + rewrite Hr1, Hr, take_take. by rewrite Nat.min_l by lia.
    + destruct (Hbelow j rj Hji Hj0) as (t' & Hg' & He'). assert (t' = tj) as -> by congruence.
      by eapply ext_same.
    + intros k rk Hk Hk'. destruct (Hlk _ _ Hk'). by apply (Hb1 k).
Qed.

Lemma reachable_inv s ghost : reachable s ghost -> inv s ghost.
Proof.
  induction 1 as [s Hwf Hl Hr|s ghost o s' _ IH Ha E|s ghost id s' _ IH E|s ghost id s' _ IH Hid E].
  - split; rewrite ?Hr; done.
  - destruct (run_op_good o s) as ([] & s1 & E1 & Hg); [apply IH..|done|].
    assert (s1 = s') as -> by congruence. by eapply inv_op.
  - by apply inv_snapshot.
  - apply list_elem_of_fmap in Hid as (r & -> & (i & Hi)%list_elem_of_lookup).
    destruct (inv_snap _ _ IH i r Hi) as (t & Ht).
    destruct (RevertToSnapshot_spec _ _ _ _ _ IH Hi Ht) as ([] & s1 & E1 & Hrev).
    assert (s1 = s') as -> by congruence. by eapply inv_revert.
Qed.

(** ** Properties *)


(** After a revert every accessor of IntraBlockState gives the answer it
    gave when the snapshot was taken. *)
Theorem RevertToSnapshot_answers s ghost id len t s' q :
  code_size_law keccak256 reader -> reachable s ghost -> (id, len) ∈ validRevisions s ->
  ghost !! id = Some t -> RevertToSnapshot id s = Ok (tt, s') ->
  exists x t1 s1, ask keccak256 reader q t = Ok (x, t1) /\ ask keccak256 reader q s' = Ok (x, s1).
Proof.
  intros Hlaw Hr%reachable_inv (i & Hi)%list_elem_of_lookup Hg E.
  destruct (inv_snap _ _ Hr i _ Hi) as (t' & Ht').
  assert (t' = t) as -> by (pose proof (so_ghost _ _ _ _ _ Ht'); simpl in *; congruence).
  destruct (RevertToSnapshot_spec _ _ _ _ _ Hr Hi Ht') as ([] & s1 & E1 & Hwf & Hs & _ & _ & Hl & _).
  assert (s1 = s') as -> by (simpl in E1; congruence). by apply same_state_answers; [| apply (so_wf _ _ _ _ _ Ht')| |apply (so_unlocked _ _ _ _ _ Ht')| |].
Qed.

(** C36.  No admissible operation panics or deadlocks in a reachable state, and
    the state stays reachable. *)
Theorem operations_never_panic s ghost o :
  reachable s ghost -> admissible o s -> exists s', run_op o s = Ok (tt, s') /\ reachable s' ghost.
Proof.
  intros Hr Ha. pose proof (reachable_inv _ _ Hr) as Hinv.
  destruct (run_op_good o s) as ([] & s' & E & _); [apply Hinv..|done|]. exists s'. split; [done|].
  by eapply reach_op.
Qed.

(** Reverting to a revision that is not valid (never taken, or already
    reverted over) panics. *)
Theorem RevertToSnapshot_invalid s ghost id :
  reachable s ghost -> id ∉ (validRevisions s).*1 -> RevertToSnapshot id s = Panic.
Proof.
  intros Hr Hid. unfold IntraBlockState.RevertToSnapshot, mbind, M_bind, gets; simpl.
  destruct (validRevisions s !! sort_Search _ _) as [r|] eqn:E; [|done].
  destruct (Nat.eqb_spec r.1 id) as [<-|]; [|done]. destruct Hid.
  apply list_elem_of_fmap. exists r. split; [done|]. by eapply list_elem_of_lookup_2.
Qed.
End snapshots.
