(* ===== verification/StateLaws.v ===== *)
(** Read-after-write laws of IntraBlockState, stated on the exported methods:
    what an update writes is what the accessors return afterwards, and the
    other accounts answer as before. *)
From S2P Require Import Prelude Uint256 AccessList StateTypes IntraBlockState StateView StateRevert.
From S2P Require Import StateOps StateUpdates StateSnapshot.
#[local] Open Scope Z_scope.

Section laws.
Context {U : Uint256} {US : Uint256Spec U}.
Context (keccak256 : list Byte.byte -> hash) (reader : StateReader).

Abbreviation IBSM := (M IntraBlockState).
Abbreviation view := (view keccak256 reader).
Abbreviation wf := (wf reader).
Abbreviation good := (good keccak256 reader).
Abbreviation unseen := (unseen keccak256 reader).
Abbreviation updates := (updates keccak256 reader).
Abbreviation ensured_view := (ensured_view keccak256 reader).
Abbreviation answer_of := (answer_of keccak256).
Abbreviation ask := (ask keccak256 reader).

Lemma ensured_live s a k : v_deleted (ensured_view s a k) = false.
Proof.
  unfold StateOps.ensured_view. destruct (view s a k) as [v|]; [|done]. by destruct (v_deleted v) eqn:E.
Qed.

(** What a query returns after an update of [a]. *)
Lemma ask_updated a F s s' q :
  updates a F s s' -> locked (journal s) = false -> relies keccak256 reader q ->
  (forall k v, v_deleted v = false -> v_deleted (F k v) = false) ->
  exists s'', ask q s' = Ok
    (if decide (a = (subject q).1)
     then answer_live keccak256 q (F (subject q).2 (ensured_view s a (subject q).2))
     else answer_of q (view s (subject q).1 (subject q).2), s'').
Proof.
  intros [Hg Hv] Hl Hq HF. destruct (ask_spec keccak256 reader q s') as (x & s'' & E & Hx & _).
  { by eapply good_wf. } { by rewrite (good_locked _ _ _ _ Hg). }
  exists s''. rewrite E, (Hx Hq), Hv. do 2 f_equal. case_decide; [|done]. simpl.
  by rewrite HF by apply ensured_live.
Qed.

(** SetState then GetState of the same slot returns the value written. *)
Theorem GetState_after_SetState a key x s s' :
  wf s -> locked (journal s) = false -> SetState keccak256 reader a key x s = Ok (tt, s') ->
  exists s'', GetState keccak256 reader a key s' = Ok (x, s'').
Proof.
  intros Hwf Hl E. pose proof (total_Ok _ _ _ _ _ (SetState_spec keccak256 reader a key x s Hwf Hl) E) as Hu.
  destruct (ask_updated _ _ _ _ (QState a key) Hu Hl I) as (s'' & Ea).
  { intros k v Hd. unfold storage_view. repeat case_match; simpl; by rewrite ?Hd. }
  cbn [subject fst snd] in Ea. rewrite decide_True in Ea by done. cbn [answer_live] in Ea.
  apply ask_inv in Ea as (y & Ey & [= ->]). exists s''. rewrite Ey. do 2 f_equal.
  unfold storage_view. rewrite decide_True by done. by case_match.
Qed.

(** The balance GetBalance reports is the one an update starts from. *)
Lemma GetBalance_view a s y s1 :
  wf s -> locked (journal s) = false -> GetBalance keccak256 reader a s = Ok (y, s1) ->
  y = v_balance (ensured_view s a 0%N).
Proof.
  intros Hwf Hl E. destruct (ask_spec keccak256 reader (QBalance a) s Hwf Hl) as (x & s' & E' & Hx & _).
  specialize (Hx I). apply ask_inv in E' as (y' & Ey & <-). rewrite E in Ey. injection Ey as <- <-.
  unfold StateOps.ensured_view. cbn [subject fst snd] in Hx.
  destruct (view s a 0%N) as [v|]; simpl in *; [|rewrite SetUint64_0; congruence].
  destruct (v_deleted v); simpl; rewrite ?SetUint64_0; congruence.
Qed.

Lemma GetBalance_updated a (f : u256 -> u256) s s' y s1 :
  updates a (fun _ v => with_balance (f (v_balance v)) v) s s' -> wf s -> locked (journal s) = false ->
  GetBalance keccak256 reader a s = Ok (y, s1) ->
  exists s2, GetBalance keccak256 reader a s' = Ok (f y, s2).
Proof.
  intros Hu Hwf Hl ->%GetBalance_view; [|done..].
  destruct (ask_updated _ _ _ _ (QBalance a) Hu Hl I) as (s2 & Ea); [done|].
  cbn [subject fst snd] in Ea. rewrite decide_True in Ea by done. apply ask_inv in Ea as (z & Ez & [= ->]). eauto.
Qed.

(** The other accounts' balances. *)
Lemma GetBalance_other a F s s' b y s1 :
  updates a F s s' -> wf s -> locked (journal s) = false ->
  (forall k v, v_deleted v = false -> v_deleted (F k v) = false) -> a <> b ->
  GetBalance keccak256 reader b s = Ok (y, s1) ->
  exists s2, GetBalance keccak256 reader b s' = Ok (y, s2).
Proof.
  intros Hu Hwf Hl HF Hab E. destruct (ask_spec keccak256 reader (QBalance b) s Hwf Hl) as (x & s'' & E' & Hx & _).
  specialize (Hx I). apply ask_inv in E' as (y' & Ey & <-). rewrite E in Ey. injection Ey as <- <-.
  destruct (ask_updated _ _ _ _ (QBalance b) Hu Hl I HF) as (s2 & Ea). cbn [subject fst snd] in *.
  rewrite decide_False, <- Hx in Ea by done. apply ask_inv in Ea as (z & Ez & [= ->]). eauto.
Qed.

(** AddBalance adds to the account's balance, modulo 2^256, and to no other
    balance. *)
Lemma GetBalance_after_AddBalance a x s s' b y s1 :
  wf s -> locked (journal s) = false -> can_credit reader a x s = true ->
  AddBalance keccak256 reader a x s = Ok (tt, s') -> GetBalance keccak256 reader b s = Ok (y, s1) ->
  exists s2, GetBalance keccak256 reader b s' = Ok (if decide (a = b) then Add y x else y, s2).
Proof.
  intros Hwf Hl Hc E Eb. pose proof (total_Ok _ _ _ _ _ (AddBalance_spec keccak256 reader a x s Hwf Hl Hc) E) as Hu.
  case_decide; [subst; by apply (GetBalance_updated b (fun y => Add y x) s _ _ s1)|].
  by apply (GetBalance_other _ _ _ _ _ _ _ Hu Hwf Hl) with (3 := Eb).
Qed.

(** SubBalance subtracts from the account's balance, modulo 2^256, and from no
    other balance. *)
Lemma GetBalance_after_SubBalance a x s s' b y s1 :
  wf s -> locked (journal s) = false ->
  SubBalance keccak256 reader a x s = Ok (tt, s') -> GetBalance keccak256 reader b s = Ok (y, s1) ->
  exists s2, GetBalance keccak256 reader b s' = Ok (if decide (a = b) then Sub y x else y, s2).
Proof.
  intros Hwf Hl E Eb. pose proof (total_Ok _ _ _ _ _ (SubBalance_spec keccak256 reader a x s Hwf Hl) E) as Hu.
  case_decide; [subst; by apply (GetBalance_updated b (fun y => Sub y x) s _ _ s1)|].
  by apply (GetBalance_other _ _ _ _ _ _ _ Hu Hwf Hl) with (3 := Eb).
Qed.

(** A transfer, SubBalance of the sender followed by AddBalance of the
    recipient, subtracts the amount from the sender's balance and adds it to
    the recipient's, modulo 2^256, also when they are the same account, and
    changes no other balance. *)
Theorem GetBalance_after_transfer a b x s s1 s2 c y s' :
  wf s -> locked (journal s) = false ->
  SubBalance keccak256 reader a x s = Ok (tt, s1) ->
  can_credit reader b x s1 = true -> AddBalance keccak256 reader b x s1 = Ok (tt, s2) ->
  GetBalance keccak256 reader c s = Ok (y, s') ->
  let y1 := if decide (a = c) then Sub y x else y in
  exists s'', GetBalance keccak256 reader c s2 = Ok (if decide (b = c) then Add y1 x else y1, s'').
Proof.
  intros Hwf Hl E1 Hc E2 Eb y1.
  pose proof (total_Ok _ _ _ _ _ (SubBalance_spec keccak256 reader a x s Hwf Hl) E1) as [Hg _].
  destruct (GetBalance_after_SubBalance _ _ _ _ _ _ _ Hwf Hl E1 Eb) as [s3 E3].
  eapply GetBalance_after_AddBalance with (4 := E2) (5 := E3); [by eapply good_wf| |done].
  by rewrite (good_locked _ _ _ _ Hg).
Qed.

(** SetCode makes GetCode return the code, GetCodeHash its Keccak hash. *)
Theorem GetCode_after_SetCode a c s s' :
  wf s -> locked (journal s) = false -> SetCode keccak256 reader a c s = Ok (tt, s') ->
  exists c' s1 s2, GetCode keccak256 reader a s' = Ok (c', s1) /\ default [] c' = default [] c /\ GetCodeHash keccak256 reader a s' = Ok (keccak256 (default [] c), s2).
Proof.
  intros Hwf Hl E. pose proof (total_Ok _ _ _ _ _ (SetCode_spec keccak256 reader a c s Hwf Hl) E) as Hu.
  destruct (ask_updated _ _ _ _ (QCode a) Hu Hl I) as (s1 & E1); [done|].
  destruct (ask_updated _ _ _ _ (QCodeHash a) Hu Hl I) as (s2 & E2); [done|].
  cbn [subject fst snd] in *. rewrite !decide_True in * by done.
  apply ask_inv in E1 as (c1 & Ec1 & [= Hc1]). apply ask_inv in E2 as (h & Eh & [= ->]).
  exists c1, s1, s2. split_and!; done.
Qed.

(** ** Locality *)

(** The one account an operation may change the view of. *)
Definition target (o : op) : option address :=
  match o with
  | OAddBalance a _ | OSubBalance a _ | OSetBalance a _ | OSetNonce a _ | OSetCode a _
  | OSetState a _ _ | OSelfdestruct a | OCreateAccount a _ => Some a
  | _ => None
  end.

Lemma run_op_view o s :
  wf s -> locked (journal s) = false -> admissible keccak256 reader o s ->
  total (run_op keccak256 reader o) s (fun _ s' => good s s' /\
    forall b k, target o <> Some b -> view s' b k = view s b k).
Proof.
  intros Hwf Hl Ha.
  assert (forall A (m : IBSM A) a F, total m s (fun _ s' => updates a F s s') ->
    total m s (fun _ s' => good s s' /\ forall b k, Some a <> Some b -> view s' b k = view s b k)) as Hup.
  { intros A m a F Hm. eapply total_wand; [exact Hm|]. intros x s' [Hg Hv]. split; [done|].
    intros b k Hab. rewrite Hv. by rewrite decide_False by congruence. }
  assert (forall A (m : IBSM A) P o, total m s (fun x s' => good s s' /\ (forall b k, view s' b k = view s b k) /\ P x s') ->
    total m s (fun _ s' => good s s' /\ forall b k, o <> Some b -> view s' b k = view s b k)) as Hun.
  { intros A m P o' Hm. eapply total_wand; [exact Hm|]. intros x s' (Hg & Hv & _). by split. }
  destruct o; cbn [run_op target]; try apply total_then_ret.
  - eapply total_wand; [by apply ask_spec|]. by intros x s' (_ & Hg & Hv).
  - eapply Hup. by apply AddBalance_spec.
  - eapply Hup. by apply SubBalance_spec.
  - eapply Hup. by apply SetBalance_spec.
  - eapply Hup. by apply SetNonce_spec.
  - eapply Hup. by apply SetCode_spec.
  - eapply Hup. by apply SetState_spec.
  - eapply total_wand; [by apply Selfdestruct_spec|]. intros r s' (Hg & _ & Hv). split; [done|].
    intros b k Hab. rewrite Hv. by rewrite bool_decide_eq_false_2 by congruence.
  - eapply total_wand; [apply CreateAccount_spec; [done..|by intros ->]|]. intros [] s' (Hg & Hv).
    split; [done|]. intros b k Hab. rewrite Hv. by rewrite decide_False by congruence.
  - eapply Hun. by apply AddLog_spec.
  - eapply Hun. by apply AddRefund_spec.
  - eapply Hun. by apply SubRefund_spec.
  - eapply Hun. by apply AddAddressToAccessList_spec.
  - eapply Hun. by apply AddSlotToAccessList_spec.
  - eapply total_wand; [by apply PrepareAccessList_spec|]. by intros [] s' [? ?].
Qed.

(** An operation changes no answer about an account it does not name. *)
Theorem operations_are_local s ghost o s' q :
  code_size_law keccak256 reader -> reachable keccak256 reader s ghost -> admissible keccak256 reader o s ->
  run_op keccak256 reader o s = Ok (tt, s') -> target o <> Some (subject q).1 ->
  exists x s1 s2, ask q s = Ok (x, s1) /\ ask q s' = Ok (x, s2).
Proof.
  intros Hlaw Hr%reachable_inv Ha E Ht. destruct (run_op_view o s) as ([] & s1 & E1 & Hg & Hv); [apply Hr..|done|].
  assert (s1 = s') as -> by congruence. pose proof (good_locked _ _ _ _ Hg) as Hl.
  destruct (ask_spec keccak256 reader q s) as (x & s1 & Es & Hx & _); [apply Hr..|].
  destruct (ask_spec keccak256 reader q s') as (y & s2 & Et & Hy & _); [by eapply good_wf|rewrite Hl; apply Hr|].
  rewrite (Hx (relies_law _ _ _ Hlaw)) in Es. rewrite (Hy (relies_law _ _ _ Hlaw)), Hv in Et by done. eauto.
Qed.

(** ** Self-destruction and creation *)

(** Selfdestruct reports whether the account existed; if so it is marked
    and its balance is gone, otherwise nothing changes. *)
Theorem Selfdestruct_effect a s r s' :
  wf s -> locked (journal s) = false -> Selfdestruct keccak256 reader a s = Ok (r, s') ->
  (exists s1, Exist keccak256 reader a s = Ok (r, s1)) /\
  (r = true -> (exists s2, HasSelfdestructed keccak256 reader a s' = Ok (true, s2)) /\
               (exists s3, GetBalance keccak256 reader a s' = Ok (Clear, s3))) /\
  (r = false -> forall b k, view s' b k = view s b k).
Proof.
  intros Hwf Hl E. destruct (total_Ok _ _ _ _ _ (Selfdestruct_spec keccak256 reader a s Hwf Hl) E) as (Hg & Hr & Hv).
  assert (locked (journal s') = false) as Hl' by by rewrite (good_locked _ _ _ _ Hg).
  pose proof (good_wf _ _ _ _ Hg) as Hwf'. specialize (Hr 0%N).
  assert (r = false -> forall b k, view s' b k = view s b k) as Hsame.
  { intros -> b k. by rewrite Hv, andb_false_r. }
  specialize (Hv a 0%N).
  rewrite bool_decide_eq_true_2 in Hv by done.
  destruct (ask_spec keccak256 reader (QExist a) s Hwf Hl) as (x1 & s1 & E1 & H1 & _). specialize (H1 I).
  destruct (ask_spec keccak256 reader (QSelfdestructed a) s' Hwf' Hl') as (x2 & s2 & E2 & H2 & _). specialize (H2 I).
  destruct (ask_spec keccak256 reader (QBalance a) s' Hwf' Hl') as (x3 & s3 & E3 & H3 & _). specialize (H3 I).
  apply ask_inv in E1 as (y1 & E1 & <-). apply ask_inv in E2 as (y2 & E2 & <-). apply ask_inv in E3 as (y3 & E3 & <-).
  cbn [subject fst snd] in *. rewrite Hv in H2, H3. destruct (view s a 0%N) as [v|].
  - simpl in *. destruct (v_deleted v) eqn:Hd; subst r; simpl in *.
    + split_and!; [exists s1; congruence|done|done].
    + rewrite Hd in *. split_and!; [exists s1; congruence|intros _; split; [exists s2|exists s3]; congruence|done].
  - subst r. simpl in *. split_and!; [exists s1; congruence|done|done].
Qed.

(** What the accessors say of a contract account that was just created with
    balance [y] and incarnation [inc]. *)
Definition fresh_contract_answer (y : u256) (inc : Z) (q : query) : answer :=
  match q with
  | QExist _ => ABool true
  | QEmpty _ => ABool (IsZero y)
  | QBalance _ => AWord y
  | QNonce _ | QCodeSize _ => ANum 0
  | QCode _ => ABytes []
  | QCodeHash _ => AHash (emptyCodeHash keccak256)
  | QState _ _ | QCommittedState _ _ => AWord Clear
  | QSelfdestructed _ => ABool false
  | QIncarnation _ => ANum inc
  end.

Lemma new_account_view s a k :
  StateView.obj_view keccak256 reader (new_account keccak256 reader s a true) k
  = mk_view 0 (match view s a 0%N with Some v => v_balance v | None => SetUint64 0 end) EmptyRoot
      (emptyCodeHash keccak256) (next_incarnation keccak256 reader s a)
      (match view s a 0%N with Some v => v_original v | None => zeroAccount end)
      false false [] false Clear Clear.
Proof.
  unfold new_account, StateView.obj_view, StateView.obj_code, StateView.obj_storage, StateView.obj_committed.
  destruct (view s a 0%N) as [v|]; simpl; by rewrite bool_decide_eq_true_2.
Qed.

(** CreateAccount for a contract gives an account with nonce 0, no code,
    no storage, the next incarnation, and the balance the address had. *)
Theorem CreateAccount_fresh_contract a s s' y s1 q :
  wf s -> locked (journal s) = false -> fresh_storage reader a (next_incarnation keccak256 reader s a) ->
  CreateAccount keccak256 reader a true s = Ok (tt, s') ->
  (forall v, view s a 0%N = Some v -> v_deleted v = false) ->
  GetBalance keccak256 reader a s = Ok (y, s1) ->
  relies keccak256 reader q -> (subject q).1 = a ->
  exists t, ask q s' = Ok (fresh_contract_answer y (next_incarnation keccak256 reader s a) q, t).
Proof.
  intros Hwf Hl Hfs E Hnd Hy%GetBalance_view Hq Hsub; [|done..].
  destruct (total_Ok _ _ _ _ _ (CreateAccount_spec keccak256 reader a true s Hwf Hl (fun _ => Hfs)) E) as [Hg Hv].
  destruct (ask_spec keccak256 reader q s') as (x & t & Et & Hx & _).
  { by eapply good_wf. } { by rewrite (good_locked _ _ _ _ Hg). }
  exists t. rewrite Et, (Hx Hq), Hv, decide_True, new_account_view by done. do 2 f_equal.
  assert (match view s a 0%N with Some v => v_balance v | None => SetUint64 0 end = y) as ->.
  { subst y. unfold StateOps.ensured_view. destruct (view s a 0%N) as [v|]; [|done]. by rewrite (Hnd v eq_refl). }
  destruct q; simpl; try done. unfold view_empty. simpl. by rewrite bool_decide_eq_true_2, andb_true_r.
Qed.

(** ** Logs *)

(** AddLog appends the log, stamped with the current transaction and the
    running log index, to the logs of that transaction only. *)
Theorem AddLog_GetLogs l s s' h :
  wf s -> locked (journal s) = false -> AddLog l s = Ok (tt, s') ->
  GetLogs h s' = (if decide (thash s = h) then GetLogs h s ++ [logged l s] else GetLogs h s) /\
  logSize s' = u64_add (logSize s) 1.
Proof.
  intros Hwf Hl E. destruct (total_Ok _ _ _ _ _ (AddLog_spec keccak256 reader l s Hwf Hl) E) as (_ & _ & Hlogs & Hsz).
  split; [apply Hlogs|done].
Qed.

(** ** Access lists *)

Lemma journal_append_acl e s x s' : journal_append e s = Ok (x, s') -> acl s' = acl s.
Proof.
  unfold journal_append, lock_journal, mbind, M_bind, gets. destruct (locked (journal s)); [done|]. by intros [= <- <-].
Qed.

Lemma AddAddressToAccessList_acl a s x s' :
  AddAddressToAccessList a s = Ok (x, s') -> al_step (OpAddAddress a) (acl s) = Ok (tt, acl s').
Proof.
  unfold AddAddressToAccessList, al_step, mbind, M_bind, on_acl.
  destruct (AddAddress a (acl s)) as [[[] al]| | |]; [|intros [= <- <-]; done|done..].
  intros E%journal_append_acl. simpl. by rewrite E.
Qed.

Lemma AddSlotToAccessList_acl a slot s x s' :
  AddSlotToAccessList a slot s = Ok (x, s') -> al_step (OpAddSlot a slot) (acl s) = Ok (tt, acl s').
Proof.
  unfold AddSlotToAccessList, al_step, on_acl. intros E. minv. unfold mbind, M_bind.
  destruct (AddSlot a slot (acl s)) as [[m al]| | |]; [|done..]. unfold mret, M_ret. simplify_eq/=.
  assert (acl x3 = al) as <-.
  { destruct x0.1; [by apply journal_append_acl in H0|by minv]. }
  destruct x0.2; [by apply journal_append_acl in E as ->|by minv].
Qed.

(** Loops of access list operations, seen on the access list. *)
Lemma mfor_acl {A} (f : A -> IBSM unit) (g : A -> list al_op) xs s x s' :
  (forall a s x s', f a s = Ok (x, s') -> mfor al_step (g a) (acl s) = Ok (tt, acl s')) ->
  mfor f xs s = Ok (x, s') -> mfor al_step (concat (map g xs)) (acl s) = Ok (tt, acl s').
Proof.
  intros Hf. revert s. induction xs as [|a xs IH]; intros s E; simpl in *; minv; [done|].
  rewrite mfor_app. rewrite (M_bind_Ok _ _ _ _ _ (Hf _ _ _ _ H)). by apply IH.
Qed.

Definition prepare_ops (sender : address) (dst : option address) (precompiles : list address)
    (tuples : list (address * list hash)) : list al_op :=
  [OpAddAddress sender] ++ (match dst with Some d => [OpAddAddress d] | None => [] end) ++
  concat (map (fun a => [OpAddAddress a]) precompiles) ++
  concat (map (fun el => OpAddAddress el.1 :: concat (map (fun key => [OpAddSlot el.1 key]) el.2)) tuples).

Lemma al_step1 o al al' : al_step o al = Ok (tt, al') -> mfor al_step [o] al = Ok (tt, al').
Proof. intros E. cbn [mfor]. by rewrite (M_bind_Ok _ _ _ _ _ E). Qed.

Lemma PrepareAccessList_acl sender dst precompiles tuples s x s' :
  PrepareAccessList sender dst precompiles tuples s = Ok (x, s') ->
  mfor al_step (prepare_ops sender dst precompiles tuples) (acl s) = Ok (tt, acl s').
Proof.
  unfold PrepareAccessList. intros E. minv. unfold prepare_ops. rewrite !mfor_app.
  apply AddAddressToAccessList_acl, al_step1 in H. rewrite (M_bind_Ok _ _ _ _ _ H), mfor_app.
  assert (mfor al_step (match dst with Some d => [OpAddAddress d] | None => [] end) (acl x1) = Ok (tt, acl x3)) as H0'.
  { destruct dst; [by apply al_step1, AddAddressToAccessList_acl with x2|by minv]. }
  rewrite (M_bind_Ok _ _ _ _ _ H0'), mfor_app.
  eapply mfor_acl with (g := fun a => [OpAddAddress a]) in H1.
  2: { intros. by eapply al_step1, AddAddressToAccessList_acl. }
  rewrite (M_bind_Ok _ _ _ _ _ H1). eapply mfor_acl; [|exact E].
  intros [a keys] t y t' Et. simpl in *. minv. apply AddAddressToAccessList_acl in H2. simpl in H2.
  cbn [mfor]. rewrite (M_bind_Ok _ _ _ _ _ H2).
  eapply mfor_acl; [|exact Et]. intros. by eapply al_step1, AddSlotToAccessList_acl.
Qed.

Lemma al_mentions_spec ops a :
  al_mentions ops a = true <-> exists o, o ∈ ops /\ match o with OpAddAddress b | OpAddSlot b _ => a = b end.
Proof.
  unfold al_mentions. rewrite existsb_exists. setoid_rewrite <- list_elem_of_In.
  split; intros (o & Ho & H); exists o; split; try done; destruct o; by apply bool_decide_eq_true in H || apply bool_decide_eq_true.
Qed.

Lemma al_mentions_slot_spec ops a k :
  al_mentions_slot ops a k = true <-> OpAddSlot a k ∈ ops.
Proof.
  unfold al_mentions_slot. rewrite existsb_exists. setoid_rewrite <- list_elem_of_In. split.
  - intros ([b|b k'] & Ho & H); [done|]. apply andb_true_iff in H as [->%bool_decide_eq_true ->%bool_decide_eq_true]. done.
  - intros H. exists (OpAddSlot a k). by rewrite !bool_decide_eq_true_2.
Qed.

Lemma elem_of_tuple_ops o (tuples : list (address * list hash)) :
  o ∈ concat (map (fun el => OpAddAddress el.1 :: concat (map (fun key => [OpAddSlot el.1 key]) el.2)) tuples) <->
  exists el, el ∈ tuples /\ (o = OpAddAddress el.1 \/ exists key, key ∈ el.2 /\ o = OpAddSlot el.1 key).
Proof.
  rewrite list_elem_of_In, in_concat. setoid_rewrite in_map_iff. split.
  - intros (l & (el & <- & Hel) & Ho). exists el. rewrite list_elem_of_In. split; [done|].
    destruct Ho as [<-|Ho]; [by left|]. right. apply in_concat in Ho as (l' & (key & <- & Hk)%in_map_iff & Ho).
    destruct Ho as [<-|[]]. exists key. by rewrite list_elem_of_In.
  - intros (el & Hel & Ho). exists (OpAddAddress el.1 :: concat (map (fun key => [OpAddSlot el.1 key]) el.2)).
    rewrite list_elem_of_In in Hel. split; [eauto|]. destruct Ho as [->|(key & Hk & ->)]; [by left|]. right.
    apply in_concat. exists [OpAddSlot el.1 key]. split; [|by left]. apply in_map_iff. exists key.
    by rewrite list_elem_of_In in Hk.
Qed.

Lemma elem_of_precompile_ops o (ps : list address) :
  o ∈ concat (map (fun a => [OpAddAddress a]) ps) <-> exists a, a ∈ ps /\ o = OpAddAddress a.
Proof.
  rewrite list_elem_of_In, in_concat. setoid_rewrite in_map_iff. split.
  - intros (l & (a & <- & Ha) & [<-|[]]). exists a. by rewrite list_elem_of_In.
  - intros (a & Ha & ->). exists [OpAddAddress a]. split; [|by left]. exists a. by rewrite <- list_elem_of_In.
Qed.

Lemma elem_of_prepare_ops o sender dst precompiles tuples :
  o ∈ prepare_ops sender dst precompiles tuples <->
  o = OpAddAddress sender \/ (exists d, dst = Some d /\ o = OpAddAddress d) \/
  (exists a, a ∈ precompiles /\ o = OpAddAddress a) \/
  exists el, el ∈ tuples /\ (o = OpAddAddress el.1 \/ exists key, key ∈ el.2 /\ o = OpAddSlot el.1 key).
Proof.
  unfold prepare_ops. rewrite !elem_of_app, list_elem_of_singleton, elem_of_precompile_ops, elem_of_tuple_ops.
  destruct dst as [d|]; [rewrite list_elem_of_singleton|rewrite elem_of_nil]; naive_solver.
Qed.

(** PrepareAccessList on the empty list of a new transaction makes
    exactly the sender, the destination, the precompiles and the listed
    addresses warm, and exactly the listed storage slots. *)
Theorem PrepareAccessList_contents sender dst precompiles tuples s s' b k :
  acl s = newAccessList ->
  PrepareAccessList sender dst precompiles tuples s = Ok (tt, s') ->
  (AddressInAccessList b s' = true <->
     b = sender \/ dst = Some b \/ b ∈ precompiles \/ exists keys, (b, keys) ∈ tuples) /\
  exists warm, SlotInAccessList b k s' = Ok ((AddressInAccessList b s', warm), s') /\
    (warm = true <-> exists keys, (b, keys) ∈ tuples /\ k ∈ keys).
Proof.
  intros Hacl E%PrepareAccessList_acl. rewrite Hacl in E.
  destruct (al_run_contains (prepare_ops sender dst precompiles tuples) newAccessList b k newAccessList_wf)
    as (al & E' & Hal & Hb & Hk). rewrite E in E'. injection E' as Eal. subst al.
  change (al_rep newAccessList b) with (@None (gset hash)) in *.
  cbn [isSome default] in Hb, Hk. rewrite orb_false_l in Hb.
  unfold AddressInAccessList. rewrite ContainsAddress_spec, Hb, al_mentions_spec. split.
  - setoid_rewrite elem_of_prepare_ops. split.
    + intros (o & [->|[(d & -> & ->)|[(a & Ha & ->)|(el & Hel & Ho)]]] & Hm); subst; eauto.
      right; right; right. exists el.2. destruct Ho as [->|(key & _ & ->)]; subst; by destruct el.
    + intros Hc. exists (OpAddAddress b). split; [|done]. destruct Hc as [->|[->|[Hp|(keys & Ht)]]]; eauto 6.
      right; right; right. exists (b, keys). eauto.
  - exists (bool_decide (k ∈ default ∅ (al_rep (acl s') b))). split.
    + unfold SlotInAccessList, on_acl. rewrite Contains_spec, Hb by done. by destruct s'.
    + rewrite bool_decide_eq_true, Hk, al_mentions_slot_spec, elem_of_prepare_ops.
      split; [|intros (keys & Ht & Hkk); right; right; right; right; exists (b, keys); eauto].
      intros [?%elem_of_empty|[?|[(d & _ & ?)|[(a & _ & ?)|([a keys] & Hel & [?|(key & Hkey & ?)])]]]]; simplify_eq/=; try done; eauto.
Qed.
End laws.
