(* ===== verification/StateFinalize.v ===== *)
(** The end of a transaction and of a block (intra_block_state.go): FinalizeTx,
    SoftFinalise, CommitBlock, MakeWriteSet, updateAccount, BalanceIncreaseSet
    and updateTrie of state_object.go.

    They run over the state and the [StateWriter]'s own state [W].  Go leaves
    the order of a range over a map open: the keys come in an order given by
    the parameter [shuffle], of which only that it permutes is ever used. *)
From S2P Require Import Prelude Uint256 AccessList StateTypes IntraBlockState StateView StateRevert.
From S2P Require Import StateOps StateUpdates.
#[local] Open Scope Z_scope.

Section finalize.
Context {U : Uint256}.
Context (keccak256 : list Byte.byte -> hash) (reader : StateReader).
Context {W : Type} (writer : StateWriter W) (shuffle : list N -> list N).

Abbreviation WM := (M (IntraBlockState * W)).

(** Running a method of the state, and a method of the writer. *)
Definition on_state {A} (m : M IntraBlockState A) : WM A := fun sw =>
  match m sw.1 with
  | Ok (x, s) => Ok (x, (s, sw.2))
  | Panic => Panic
  | Deadlock => Deadlock
  | OutOfFuel => OutOfFuel
  end.

Definition on_writer {A} (f : W -> A * W) : WM A := fun sw =>
  let r := f sw.2 in Ok (r.1, (sw.1, r.2)).

(** A loop that a returned error ends. *)
Fixpoint mfor_err {A} (f : A -> WM (option error)) (xs : list A) : WM (option error) :=
  match xs with
  | [] => mret None
  | x :: xs =>
      r ← f x;
      match r with Some err => mret (Some err) | None => mfor_err f xs end
  end.

(** [if err := m; err != nil { return err }; k] *)
Definition or_return (m : WM (option error)) (k : WM (option error)) : WM (option error) :=
  r ← m; match r with Some err => mret (Some err) | None => k end.

Definition so_updateTrie (a : address) : WM (option error) :=
  so ← on_state (theObject a);
  mfor_err (fun key =>
    let value := default Clear (dirtyStorage so !! key) in
    let original := default Clear (blockOriginStorage so !! key) in
    _ ← on_state (modifyObject a (fun so => set_originStorage (<[key := value]> (originStorage so)) so));
    on_writer (WriteAccountStorage _ writer (so_address so) (Incarnation (data so)) key original value))
    (shuffle (elements (dom (dirtyStorage so)))).

(** The account is removed because it is empty. *)
Definition emptyRemoval (EIP161Enabled isAura : bool) (a : address) (so : stateObject) : bool :=
  EIP161Enabled && so_empty keccak256 so && (negb isAura || negb (bool_decide (a = SystemAddress))).

Definition updateAccount (EIP161Enabled isAura : bool) (a : address) (isDirty : bool) : WM (option error) :=
  so ← on_state (theObject a);
  let emptyRemoval := emptyRemoval EIP161Enabled isAura a so in
  or_return
    (if selfdestructed so || (isDirty && emptyRemoval) then
       or_return (on_writer (DeleteAccount _ writer a (original so)))
         (_ ← on_state (modifyObject a (set_deleted true)); mret None)
     else mret None)
    (if isDirty && (created so || negb (selfdestructed so)) && negb emptyRemoval then
       _ ← on_state (modifyObject a (set_deleted false));
       or_return
         (match code so with
          | Some c =>
              if dirtyCode so
              then on_writer (UpdateAccountCode _ writer a (Incarnation (data so)) (CodeHash (data so)) c)
              else mret None
          | None => mret None
          end)
       (or_return
         (if created so then on_writer (CreateContract _ writer a) else mret None)
       (or_return (so_updateTrie a)
         (on_writer (UpdateAccountData _ writer a (original so) (data so)))))
     else mret None).

(** Loading every account that has a pending increase. *)
Definition settleIncrease (a : address) : WM unit :=
  p ← gets (fun sw => isSome (pendingIncrease sw.1 a));
  if (p : bool) then _ ← on_state (getStateObject keccak256 reader a); mret tt else mret tt.

Definition settleIncreases : WM unit :=
  s ← gets (fun sw => sw.1);
  mfor settleIncrease (shuffle (elements (dom (balanceInc s)))).

Definition markDirty (a : address) : WM unit :=
  on_state (modify (fun s => set_stateObjectsDirty ({[a]} ∪ stateObjectsDirty s) s)).

Definition FinalizeTx (IsSpuriousDragon IsAura : bool) : WM (option error) :=
  _ ← settleIncreases;
  s ← gets (fun sw => sw.1);
  or_return
    (mfor_err (fun a =>
       exist ← gets (fun sw => isSome (stateObjects sw.1 !! a));
       if negb exist then mret None
       else or_return (updateAccount IsSpuriousDragon IsAura a true) (_ ← markDirty a; mret None))
       (shuffle (elements (dom (dirties (journal s))))))
    (_ ← on_state (modify clearJournalAndRefund); mret None).

Definition SoftFinalise : M IntraBlockState unit :=
  s ← gets id;
  _ ← mfor (fun a =>
        exist ← gets (fun s => isSome (stateObjects s !! a));
        if negb exist then mret tt
        else modify (fun s => set_stateObjectsDirty ({[a]} ∪ stateObjectsDirty s) s))
        (shuffle (elements (dom (dirties (journal s)))));
  modify clearJournalAndRefund.

Definition MakeWriteSet (IsSpuriousDragon IsAura : bool) : WM (option error) :=
  s ← gets (fun sw => sw.1);
  _ ← mfor markDirty (shuffle (elements (dom (dirties (journal s)))));
  s ← gets (fun sw => sw.1);
  or_return
    (mfor_err (fun a =>
       isDirty ← gets (fun sw => bool_decide (a ∈ stateObjectsDirty sw.1));
       updateAccount IsSpuriousDragon IsAura a isDirty)
       (shuffle (elements (dom (stateObjects s)))))
    (_ ← on_state (modify clearJournalAndRefund); mret None).

Definition CommitBlock (IsSpuriousDragon IsAura : bool) : WM (option error) :=
  _ ← settleIncreases; MakeWriteSet IsSpuriousDragon IsAura.

(** The pending increases, as a map. *)
Definition BalanceIncreaseSet (s : IntraBlockState) : gmap address u256 :=
  map_imap (fun a _ => match pendingIncrease s a with Some (_, bi) => Some (increase bi) | None => None end)
    (balanceInc s).
End finalize.

(** ** The writes of a finalisation *)

Section recorder.
Context {U : Uint256} {US : Uint256Spec U}.
Context (keccak256 : list Byte.byte -> hash) (reader : StateReader) (shuffle : list N -> list N).
Hypothesis shuffle_perm : forall l, shuffle l ≡ₚ l.

Abbreviation wf := (wf reader).
Abbreviation unseen := (unseen keccak256 reader).
Abbreviation emptyRemoval := (emptyRemoval keccak256).

(** The calls a StateWriter receives. *)
Inductive write_event :=
| EvData (a : address) (original account : Account)
| EvCode (a : address) (incarnation : Z) (codeHash : hash) (code : list Byte.byte)
| EvDelete (a : address) (original : Account)
| EvStorage (a : address) (incarnation : Z) (key : hash) (original value : u256)
| EvCreate (a : address).

Definition event_address (e : write_event) : address :=
  match e with
  | EvData a _ _ | EvCode a _ _ _ | EvDelete a _ | EvStorage a _ _ _ _ | EvCreate a => a
  end.

(** A writer that never fails and records its calls. *)
Definition recorder : StateWriter (list write_event) :=
  let put e w := (None, w ++ [e]) in
  mk_StateWriter _ (fun a o d => put (EvData a o d)) (fun a i h c => put (EvCode a i h c))
    (fun a o => put (EvDelete a o)) (fun a i k o v => put (EvStorage a i k o v)) (fun a => put (EvCreate a)).

Definition dirty_keys (so : stateObject) : list hash := shuffle (elements (dom (dirtyStorage so))).

Definition storage_events (so : stateObject) (keys : list hash) : list write_event :=
  map (fun key => EvStorage (so_address so) (Incarnation (data so)) key
                    (default Clear (blockOriginStorage so !! key)) (default Clear (dirtyStorage so !! key))) keys.

Definition removed (eip161 aura : bool) (a : address) (so : stateObject) (isDirty : bool) : bool :=
  selfdestructed so || (isDirty && emptyRemoval eip161 aura a so).

Definition written (eip161 aura : bool) (a : address) (so : stateObject) (isDirty : bool) : bool :=
  isDirty && (created so || negb (selfdestructed so)) && negb (emptyRemoval eip161 aura a so).

(** What the database is told about one account. *)
Definition account_events (eip161 aura : bool) (a : address) (so : stateObject) (isDirty : bool) : list write_event :=
  (if removed eip161 aura a so isDirty then [EvDelete a (original so)] else []) ++
  (if written eip161 aura a so isDirty then
     (match code so with
      | Some c => if dirtyCode so then [EvCode a (Incarnation (data so)) (CodeHash (data so)) c] else []
      | None => [] end) ++
     (if created so then [EvCreate a] else []) ++
     storage_events so (dirty_keys so) ++
     [EvData a (original so) (data so)]
   else []).

(** The object afterwards: deleted or not, its dirty slots now original. *)
Definition finalized (eip161 aura : bool) (a : address) (isDirty : bool) (so : stateObject) : stateObject :=
  if written eip161 aura a so isDirty
  then set_originStorage (dirtyStorage so ∪ originStorage so) (set_deleted false so)
  else if removed eip161 aura a so isDirty then set_deleted true so else so.

Abbreviation rec_updateTrie := (so_updateTrie recorder shuffle).
Abbreviation rec_updateAccount := (updateAccount keccak256 recorder shuffle).

Lemma on_state_Ok {W A} (m : M IntraBlockState A) s (w : W) x s' :
  m s = Ok (x, s') -> on_state m (s, w) = Ok (x, (s', w)).
Proof. unfold on_state. simpl. by intros ->. Qed.

Lemma or_return_None {W} (m k : M (IntraBlockState * W) (option error)) sw sw' :
  m sw = Ok (None, sw') -> or_return m k sw = k sw'.
Proof. unfold or_return, mbind, M_bind. by intros ->. Qed.

(** The origin storage after the writes of [keys]. *)
Definition store_keys (so : stateObject) (keys : list hash) (m : gmap hash u256) : gmap hash u256 :=
  foldl (fun m key => <[key := default Clear (dirtyStorage so !! key)]> m) m keys.

Lemma updateTrie_loop so a keys s w o :
  stateObjects s !! a = Some o ->
  mfor_err (fun key =>
    let value := default Clear (dirtyStorage so !! key) in
    let original := default Clear (blockOriginStorage so !! key) in
    _ ← on_state (modifyObject a (fun so => set_originStorage (<[key := value]> (originStorage so)) so));
    on_writer (WriteAccountStorage _ recorder (so_address so) (Incarnation (data so)) key original value))
    keys (s, w)
  = Ok (None, (put_object a (set_originStorage (store_keys so keys (originStorage o)) o) s, w ++ storage_events so keys)).
Proof.
  revert s w o. induction keys as [|key keys IH]; intros s w o Ho; cbn [mfor_err].
  - simpl. rewrite app_nil_r. unfold mret, M_ret, put_object. rewrite insert_id; [by destruct s|]. by destruct o.
  - cbv zeta. unfold mbind at 1, M_bind at 1.
    rewrite (M_bind_Ok _ _ _ _ _ (on_state_Ok _ _ w _ _ (modifyObject_spec _ _ _ _ Ho))).
    cbn [on_writer recorder WriteAccountStorage fst snd]. rewrite (IH _ _ _ (lookup_insert_eq _ _ _)).
    rewrite put_object_put. simpl. by rewrite <- app_assoc.
Qed.

Lemma store_keys_lookup so keys m k :
  store_keys so keys m !! k = if decide (k ∈ keys) then Some (default Clear (dirtyStorage so !! k)) else m !! k.
Proof.
  revert m. induction keys as [|key keys IH]; intros m.
  { by rewrite decide_False by apply not_elem_of_nil. }
  change (store_keys so (key :: keys) m)
    with (store_keys so keys (<[key := default Clear (dirtyStorage so !! key)]> m)).
  rewrite IH. destruct (decide (k ∈ keys)) as [Hk|Hk].
  - by rewrite decide_True by (right; done).
  - rewrite lookup_insert. case_decide; [subst; by rewrite decide_True by left|].
    rewrite decide_False; [done|]. intros [->|?]%elem_of_cons; done.
Qed.

Lemma store_dirty_keys so m : store_keys so (dirty_keys so) m = dirtyStorage so ∪ m.
Proof.
  apply map_eq. intros k. rewrite store_keys_lookup, lookup_union. unfold dirty_keys.
  case_decide as Hk; rewrite shuffle_perm, elem_of_elements in Hk.
  - apply elem_of_dom in Hk as [v ->]. by destruct (m !! k).
  - apply not_elem_of_dom in Hk as ->. by destruct (m !! k).
Qed.

Lemma updateTrie_recorder a s w so :
  stateObjects s !! a = Some so ->
  rec_updateTrie a (s, w)
  = Ok (None, (put_object a (set_originStorage (dirtyStorage so ∪ originStorage so) so) s,
               w ++ storage_events so (dirty_keys so))).
Proof.
  intros Ho. unfold so_updateTrie. rewrite (M_bind_Ok _ _ _ _ _ (on_state_Ok _ _ w _ _ (theObject_spec _ _ _ Ho))).
  rewrite (updateTrie_loop so a _ _ _ _ Ho). by rewrite <- store_dirty_keys.
Qed.

Lemma put_object_id a o s : stateObjects s !! a = Some o -> put_object a o s = s.
Proof. intros Ho. unfold put_object. rewrite insert_id by done. by destruct s. Qed.

(** The second half of updateAccount, on an object [o] that differs from [so]
    in its deleted flag only. *)
Lemma write_account a s w so o :
  stateObjects s !! a = Some o -> set_deleted false o = set_deleted false so ->
  (_ ← on_state (modifyObject a (set_deleted false));
   or_return
     (match code so with
      | Some c =>
          if dirtyCode so
          then on_writer (UpdateAccountCode _ recorder a (Incarnation (data so)) (CodeHash (data so)) c)
          else mret None
      | None => mret None
      end)
   (or_return (if created so then on_writer (CreateContract _ recorder a) else mret None)
   (or_return (rec_updateTrie a) (on_writer (UpdateAccountData _ recorder a (original so) (data so)))))) (s, w)
  = Ok (None, (put_object a (set_originStorage (dirtyStorage so ∪ originStorage so) (set_deleted false so)) s,
     w ++ (match code so with
           | Some c => if dirtyCode so then [EvCode a (Incarnation (data so)) (CodeHash (data so)) c] else []
           | None => [] end) ++
          (if created so then [EvCreate a] else []) ++ storage_events so (dirty_keys so) ++
          [EvData a (original so) (data so)])).
Proof.
  intros Ho Hd. rewrite (M_bind_Ok _ _ _ _ _ (on_state_Ok _ _ w _ _ (modifyObject_spec _ _ _ _ Ho))), Hd.
  set (s1 := put_object a (set_deleted false so) s).
  set (cev := match code so with Some _ => _ | None => [] end).
  rewrite (or_return_None _ _ _ (s1, w ++ cev)).
  2: { unfold cev. destruct (code so), (dirtyCode so); unfold mret, M_ret; by rewrite ?app_nil_r. }
  rewrite (or_return_None _ _ _ (s1, w ++ cev ++ if created so then [EvCreate a] else [])).
  2: { rewrite app_assoc. destruct (created so); unfold mret, M_ret; by rewrite ?app_nil_r. }
  rewrite (or_return_None _ _ _ _ (updateTrie_recorder a s1 _ (set_deleted false so) (lookup_insert_eq _ _ _))).
  unfold on_writer. simpl. unfold s1. rewrite put_object_put, <- !app_assoc. done.
Qed.

Lemma updateAccount_recorder eip161 aura a isDirty s w so :
  stateObjects s !! a = Some so ->
  rec_updateAccount eip161 aura a isDirty (s, w)
  = Ok (None, (put_object a (finalized eip161 aura a isDirty so) s,
               w ++ account_events eip161 aura a so isDirty)).
Proof.
  intros Ho. unfold updateAccount, account_events, finalized.
  rewrite (M_bind_Ok _ _ _ _ _ (on_state_Ok _ _ w _ _ (theObject_spec _ _ _ Ho))). cbv zeta.
  fold (removed eip161 aura a so isDirty) (written eip161 aura a so isDirty).
  set (o := if removed eip161 aura a so isDirty then set_deleted true so else so).
  set (dev := if removed eip161 aura a so isDirty then [EvDelete a (original so)] else []).
  rewrite (or_return_None _ _ _ (put_object a o s, w ++ dev)).
  2: { unfold o, dev. destruct (removed _ _ _ _ _).
    - rewrite (or_return_None _ _ _ (s, w ++ [EvDelete a (original so)])) by done.
      by rewrite (M_bind_Ok _ _ _ _ _ (on_state_Ok _ s _ _ _ (modifyObject_spec a (set_deleted true) s so Ho))).
    - unfold mret, M_ret. by rewrite app_nil_r, put_object_id. }
  destruct (written eip161 aura a so isDirty).
  - rewrite (write_account a _ _ so o (lookup_insert_eq _ _ _)), put_object_put, <- !app_assoc; [done|].
    unfold o. by destruct (removed _ _ _ _ _).
  - unfold mret, M_ret. by rewrite app_nil_r.
Qed.

(** ** Loading the accounts with pending increases *)

(** Loading an account keeps the live objects and the increase cells in place. *)
Lemma getStateObject_mono a s x s' :
  wf s -> locked (journal s) = false -> getStateObject keccak256 reader a s = Ok (x, s') ->
  balanceInc s' = balanceInc s /\ forall b, is_Some (stateObjects s !! b) -> is_Some (stateObjects s' !! b).
Proof.
  intros Hwf Hl E. unfold getStateObject, mbind, M_bind, gets, id in E. simpl in E.
  destruct (stateObjects s !! a) as [o|] eqn:Ho; [by injection E as _ <-|].
  assert (forall s1, wf s1 -> locked (journal s1) = false -> balanceInc s1 = balanceInc s ->
    stateObjects s1 = stateObjects s ->
    forall s2, s2 = s1 \/ s2 = created_state a (created_object keccak256 a s1) s1 ->
    balanceInc s2 = balanceInc s /\ forall b, is_Some (stateObjects s !! b) -> is_Some (stateObjects s2 !! b)) as Hc.
  { intros s1 _ _ Eb Eo s2 [-> | ->]; [by rewrite Eo|]. unfold created_state.
    destruct (pendingIncrease s1 a) as [[r bi]|]; simpl; (split; [done|]); intros b Hb; rewrite Eo;
      apply lookup_insert_is_Some; destruct (decide (a = b)); auto. }
  assert (forall s1, wf s1 -> locked (journal s1) = false -> forall (p : bool) y s2,
    (if p then obj ← createObject keccak256 a None; mret (Some obj) else mret None) s1 = Ok (y, s2) ->
    s2 = s1 \/ s2 = created_state a (created_object keccak256 a s1) s1) as Hif.
  { intros s1 Hw1 Hl1 [] y s2; [|intros [= _ <-]; by left].
    unfold mbind, M_bind. rewrite (createObject_None keccak256 reader a s1 Hw1 Hl1). intros [= _ <-]. by right. }
  destruct (bool_decide (a ∈ nilAccounts s)).
  { eapply Hc; [| | |done|by eapply Hif, E]; done. }
  destruct (ReadAccountData reader a) as [[acc|] [err|]] eqn:Er.
  - injection E as _ <-. unfold setErrorUnsafe. by destruct (savedErr s).
  - rewrite setStateObject_nopending in E.
    2: { eapply pending_db_absent; [done|]. unfold StateView.db_absent. by rewrite Er. }
    rewrite theObject_spec with (o := newObject keccak256 a acc acc) in E by apply lookup_insert_eq.
    injection E as _ <-. split; [done|]. intros b Hb. simpl. apply lookup_insert_is_Some. destruct (decide (a = b)); auto.
  - injection E as _ <-. unfold setErrorUnsafe. by destruct (savedErr s).
  - assert (wf (set_nilAccounts ({[a]} ∪ nilAccounts s) s)) as Hw1.
    { destruct Hwf. split; try done. simpl. intros b [->%elem_of_singleton|Hb]%elem_of_union; [|by apply wf_nil].
      unfold StateView.db_absent. by rewrite Er. }
    eapply (Hc _ Hw1); [done..|]. by apply (Hif _ Hw1 Hl (isSome (pendingIncrease s a)) x s').
Qed.

Lemma settle_loop {W} keys s (w : W) :
  wf s -> locked (journal s) = false ->
  exists s1, mfor (settleIncrease keccak256 reader) keys (s, w) = Ok (tt, (s1, w)) /\
  unseen s s1 /\ balanceInc s1 = balanceInc s /\
  (forall b, is_Some (stateObjects s !! b) -> is_Some (stateObjects s1 !! b)) /\
  forall a, a ∈ keys -> pendingIncrease s1 a = None.
Proof.
  revert s. induction keys as [|a keys IH]; intros s Hwf Hl.
  { exists s. split_and!; try done; [split; [by apply good_refl|done]|]. intros a Ha. by apply elem_of_nil in Ha. }
  cbn [mfor].
  assert (exists s2, settleIncrease keccak256 reader a (s, w) = Ok (tt, (s2, w)) /\
     unseen s s2 /\ balanceInc s2 = balanceInc s /\
     (forall b, is_Some (stateObjects s !! b) -> is_Some (stateObjects s2 !! b)) /\ pendingIncrease s2 a = None)
    as (s2 & E2 & Hu & Hb & Hm & Hp).
  { unfold settleIncrease, gets, mbind at 1, M_bind at 1. simpl. destruct (pendingIncrease s a) eqn:Ep; simpl.
    - destruct (getStateObject_spec keccak256 reader a s Hwf Hl) as (x & s2 & E & Hg & Hv & Ho & Hn).
      exists s2. rewrite (M_bind_Ok _ _ _ _ _ (on_state_Ok _ _ w _ _ E)).
      destruct (getStateObject_mono a s x s2 Hwf Hl E) as [Hb Hm].
      split_and!; try done. destruct x as [o|]; [|by apply Hn].
      by apply (pending_live reader s2 a o); [eapply good_wf|].
    - exists s. split_and!; try done. split; [by apply good_refl|done]. }
  rewrite (M_bind_Ok _ _ _ _ _ E2). destruct (IH s2) as (s1 & -> & Hu1 & Hb1 & Hm1 & Hp1).
  { by eapply good_wf, Hu. } { by rewrite (good_locked _ _ _ _ (proj1 Hu)). }
  exists s1. split_and!; [done|by eapply unseen_trans|congruence|eauto|].
  intros b [->|Hb']%elem_of_cons; [|by apply Hp1].
  pose proof (pending_cases reader s2 a (good_wf _ _ _ _ (proj1 Hu))) as Hc. rewrite Hp in Hc.
  pose proof (good_wf _ _ _ _ (proj1 Hu1)) as Hwf1.
  destruct (pendingIncrease s1 a) as [[r bi]|] eqn:Ep; [|done].
  pose proof (pending_cases reader s1 a Hwf1) as Hc1. rewrite Ep in Hc1. destruct Hc1 as (Hr & _ & _ & Hno & _).
  rewrite Hb1 in Hr. destruct (Hm1 a (Hc r Hr)). congruence.
Qed.

Lemma settleIncreases_spec {W} s (w : W) :
  wf s -> locked (journal s) = false ->
  exists s1, settleIncreases keccak256 reader shuffle (s, w) = Ok (tt, (s1, w)) /\ unseen s s1 /\
    forall a, pendingIncrease s1 a = None.
Proof.
  intros Hwf Hl. destruct (settle_loop (shuffle (elements (dom (balanceInc s)))) s w Hwf Hl) as (s1 & E & Hu & Hb & _ & Hp).
  exists s1. split_and!; [exact E|done|]. intros a. destruct (pendingIncrease s1 a) as [[r bi]|] eqn:Ep; [|done].
  rewrite Hp in Ep; [done|]. rewrite shuffle_perm, elem_of_elements, elem_of_dom, <- Hb.
  unfold pendingIncrease in Ep. destruct (balanceInc s1 !! a); [eauto|done].
Qed.

(** ** The loops over the accounts *)

(** A loop body that finalizes the object at its address; with [live] there
    has to be one. *)
Definition finalizes (live : bool) (dirty : address -> bool) (eip161 aura : bool) (I : gset address -> Prop)
    (f : address -> M (IntraBlockState * list write_event) (option error)) : Prop :=
  forall a s w, I (stateObjectsDirty s) -> (live = true -> is_Some (stateObjects s !! a)) -> exists D, I D /\
    f a (s, w) = Ok (None, (set_stateObjectsDirty D
      (set_stateObjects (alter (finalized eip161 aura a (dirty a)) a (stateObjects s)) s),
      w ++ match stateObjects s !! a with Some so => account_events eip161 aura a so (dirty a) | None => [] end)).

Lemma finalize_loop live dirty eip161 aura I f keys s w :
  finalizes live dirty eip161 aura I f -> I (stateObjectsDirty s) -> NoDup keys ->
  (live = true -> forall a, a ∈ keys -> is_Some (stateObjects s !! a)) ->
  exists D objs, mfor_err f keys (s, w)
    = Ok (None, (set_stateObjectsDirty D (set_stateObjects objs s),
        w ++ concat (map (fun a => match stateObjects s !! a with
                                   | Some so => account_events eip161 aura a so (dirty a) | None => [] end) keys))) /\
    forall a, objs !! a = if decide (a ∈ keys) then finalized eip161 aura a (dirty a) <$> stateObjects s !! a
                          else stateObjects s !! a.
Proof.
  intros Hf. revert s w. induction keys as [|a keys IH]; intros s w HI Hnd Hlive.
  - exists (stateObjectsDirty s), (stateObjects s). split; [|by intros; rewrite decide_False by apply not_elem_of_nil].
    simpl. rewrite app_nil_r. by destruct s.
  - inversion_clear Hnd as [|? ? Hna Hnd']. destruct (Hf a s w HI) as (D & HD & E).
    { intros Hlv. apply Hlive; [done|left]. }
    cbn [mfor_err]. rewrite (M_bind_Ok _ _ _ _ _ E).
    set (s1 := set_stateObjectsDirty D _) in *. set (w1 := w ++ _).
    assert (forall b, b ∈ keys -> stateObjects s1 !! b = stateObjects s !! b) as Hsame.
    { intros b Hb. simpl. rewrite lookup_alter_ne; [done|]. by intros <-. }
    destruct (IH s1 w1 HD Hnd') as (D' & objs & -> & Hobjs).
    { intros Hlv b Hb. rewrite Hsame by done. apply Hlive; [done|by right]. }
    exists D', objs. split.
    + unfold w1. rewrite <- app_assoc. do 3 f_equal. cbn [map concat]. f_equal. f_equal. f_equal. apply map_ext_in.
      intros b Hb%list_elem_of_In. by rewrite Hsame.
    + intros b. rewrite Hobjs. destruct (decide (b ∈ keys)) as [Hb|Hb].
      * rewrite decide_True by (by right). by rewrite Hsame.
      * simpl. destruct (decide (a = b)) as [<-|Hab].
        -- rewrite decide_True by left. by rewrite lookup_alter_eq.
        -- rewrite lookup_alter_ne, decide_False by (done || by intros [->|?]%elem_of_cons). done.
Qed.

(** The events about one address. *)
Definition events_of (a : address) (evs : list write_event) : list write_event :=
  filter (fun e => event_address e = a) evs.

Lemma events_of_account eip161 aura a so isDirty b :
  so_address so = a ->
  events_of b (account_events eip161 aura a so isDirty)
  = if decide (a = b) then account_events eip161 aura a so isDirty else [].
Proof.
  intros Ha. assert (Forall (fun e => event_address e = a) (account_events eip161 aura a so isDirty)) as Hall.
  { unfold account_events, storage_events. apply list.Forall_forall. intros e [He|He]%elem_of_app.
    { destruct (removed _ _ _ _ _); [by apply list_elem_of_singleton in He as ->|by apply elem_of_nil in He]. }
    destruct (written _ _ _ _ _); [|by apply elem_of_nil in He].
    rewrite !elem_of_app in He. destruct He as [He|[He|[(k & -> & _)%list_elem_of_fmap| ->%list_elem_of_singleton]]]; [| |done..].
    - destruct (code so), (dirtyCode so); by (apply list_elem_of_singleton in He as ->) || apply elem_of_nil in He.
    - destruct (created so); by (apply list_elem_of_singleton in He as ->) || apply elem_of_nil in He. }
  unfold events_of. induction Hall as [|e evs He _ IH]; [by case_decide|].
  rewrite filter_cons, IH, He. by case_decide.
Qed.

Lemma events_of_concat (f : address -> list write_event) keys b :
  (forall a, events_of b (f a) = if decide (a = b) then f a else []) -> NoDup keys ->
  events_of b (concat (map f keys)) = if decide (b ∈ keys) then f b else [].
Proof.
  intros Hf. induction keys as [|a keys IH]; intros Hnd; [by rewrite decide_False by apply not_elem_of_nil|].
  inversion_clear Hnd as [|? ? Hna Hnd']. cbn [map concat]. unfold events_of in *. rewrite list.filter_app, Hf, IH by done.
  destruct (decide (a = b)) as [<-|Hab].
  - rewrite (decide_False (P := a ∈ keys)), decide_True by (done || left). by rewrite app_nil_r.
  - simpl. destruct (decide (b ∈ keys)) as [Hb|Hb]; [by rewrite decide_True by (by right)|].
    rewrite decide_False; [done|]. by intros [->|?]%elem_of_cons.
Qed.

(** The writes about [b] when the objects of [s] are finalized. *)
Definition writes_about (eip161 aura : bool) (s : IntraBlockState) (dirty : address -> bool) (b : address)
  : list write_event :=
  match stateObjects s !! b with
  | Some so => account_events eip161 aura b so (dirty b)
  | None => []
  end.

Lemma events_of_objects eip161 aura s dirty b a :
  wf s -> events_of b (writes_about eip161 aura s dirty a)
          = if decide (a = b) then writes_about eip161 aura s dirty a else [].
Proof.
  intros Hwf. unfold writes_about. destruct (stateObjects s !! a) as [so|] eqn:Ho.
  - apply events_of_account. by apply (wf_addr reader s).
  - by case_decide.
Qed.

Lemma NoDup_shuffle l : NoDup l -> NoDup (shuffle l).
Proof. by rewrite shuffle_perm. Qed.

Lemma put_alter a f s so :
  stateObjects s !! a = Some so -> put_object a (f so) s = set_stateObjects (alter f a (stateObjects s)) s.
Proof. intros Ho. pose proof (modifyObject_spec a f s so Ho) as E. unfold modifyObject, modify in E. congruence. Qed.

Lemma finalizes_FinalizeTx eip161 aura :
  finalizes false (fun _ => true) eip161 aura (fun _ => True) (fun a =>
    exist ← gets (fun sw => isSome (stateObjects sw.1 !! a));
    if negb exist then mret None
    else or_return (rec_updateAccount eip161 aura a true) (_ ← markDirty a; mret None)).
Proof.
  intros a s w _ _. unfold mbind at 1, M_bind at 1, gets. simpl.
  destruct (stateObjects s !! a) as [so|] eqn:Ho; simpl.
  - exists ({[a]} ∪ stateObjectsDirty s). split; [done|].
    rewrite (or_return_None _ _ _ _ (updateAccount_recorder eip161 aura a true s w so Ho)).
    by rewrite (put_alter a (finalized eip161 aura a true) s so Ho).
  - exists (stateObjectsDirty s). split; [done|]. unfold mret, M_ret. rewrite app_nil_r. do 3 f_equal.
    rewrite alter_id' by done. by destruct s.
Qed.

Lemma finalizes_MakeWriteSet eip161 aura D :
  finalizes true (fun a => bool_decide (a ∈ D)) eip161 aura (fun D' => D' = D) (fun a =>
    isDirty ← gets (fun sw => bool_decide (a ∈ stateObjectsDirty sw.1));
    rec_updateAccount eip161 aura a isDirty).
Proof.
  intros a s w HD [so Ho]; [done|]. exists D. split; [done|]. rewrite Ho.
  rewrite (M_bind_Ok _ _ (s, w) (bool_decide (a ∈ D)) (s, w)) by by rewrite <- HD.
  rewrite (updateAccount_recorder eip161 aura a _ s w so Ho).
  rewrite (put_alter a (finalized eip161 aura a (bool_decide (a ∈ D))) s so Ho). rewrite <- HD. by destruct s.
Qed.

(** The objects after a finalisation that visits [keys]. *)
Definition objects_after (eip161 aura : bool) (s : IntraBlockState) (dirty : address -> bool) (visited : address -> Prop)
    (s' : IntraBlockState) : Prop :=
  forall a, (visited a -> stateObjects s' !! a = finalized eip161 aura a (dirty a) <$> stateObjects s !! a) /\
            (~ visited a -> stateObjects s' !! a = stateObjects s !! a).


Lemma markDirty_loop {W} keys s (w : W) :
  exists D, mfor markDirty keys (s, w) = Ok (tt, (set_stateObjectsDirty D s, w)) /\
    forall a, a ∈ D <-> a ∈ keys \/ a ∈ stateObjectsDirty s.
Proof.
  revert s. induction keys as [|a keys IH]; intros s.
  - exists (stateObjectsDirty s). split; [by destruct s|]. intros a. rewrite elem_of_nil. tauto.
  - destruct (IH (set_stateObjectsDirty ({[a]} ∪ stateObjectsDirty s) s)) as (D & E & HD).
    exists D. split.
    + cbn [mfor]. by rewrite (M_bind_Ok _ _ (s, w) tt (set_stateObjectsDirty ({[a]} ∪ stateObjectsDirty s) s, w)), E.
    + intros b. rewrite HD. simpl. set_solver.
Qed.

(** CommitBlock settles the pending balance increases and then tells the
    writer about every account: the ones dirtied in this or an earlier
    transaction of the block get their full writes, the others at most a
    deletion; the result does not depend on the iteration order. *)
Theorem CommitBlock_writes eip161 aura s w :
  wf s -> locked (journal s) = false ->
  exists s1 s' evs,
    unseen s s1 /\ (forall a, pendingIncrease s1 a = None) /\
    CommitBlock keccak256 reader recorder shuffle eip161 aura (s, w) = Ok (None, (s', w ++ evs)) /\
    (let dirty a := bool_decide (a ∈ dom (dirties (journal s1)) \/ a ∈ stateObjectsDirty s1) in
     (forall a, events_of a evs = writes_about eip161 aura s1 dirty a) /\
     objects_after eip161 aura s1 dirty (fun _ => True) s') /\
    journal s' = newJournal /\ validRevisions s' = [] /\ refund s' = 0.
Proof.
  intros Hwf Hl. destruct (settleIncreases_spec s w Hwf Hl) as (s1 & Es & Hu & Hp).
  pose proof (good_wf _ _ _ _ (proj1 Hu)) as Hwf1.
  destruct (markDirty_loop (shuffle (elements (dom (dirties (journal s1))))) s1 w) as (D & Em & HD).
  set (keys := shuffle (elements (dom (stateObjects s1)))).
  assert (NoDup keys) as Hnd by apply NoDup_shuffle, NoDup_elements.
  assert (forall a, a ∈ keys <-> is_Some (stateObjects s1 !! a)) as Hk.
  { intros a. unfold keys. by rewrite shuffle_perm, elem_of_elements, elem_of_dom. }
  destruct (finalize_loop _ _ _ _ _ _ keys (set_stateObjectsDirty D s1) w (finalizes_MakeWriteSet eip161 aura D)
    eq_refl Hnd) as (D' & objs & E & Hobjs); [intros _ a; apply Hk|].
  assert (forall a, bool_decide (a ∈ D) = bool_decide (a ∈ dom (dirties (journal s1)) \/ a ∈ stateObjectsDirty s1)) as HD'.
  { intros a. apply bool_decide_ext. by rewrite HD, shuffle_perm, elem_of_elements. }
  exists s1, (clearJournalAndRefund (set_stateObjectsDirty D' (set_stateObjects objs (set_stateObjectsDirty D s1)))),
    (concat (map (writes_about eip161 aura s1 (fun a => bool_decide (a ∈ D))) keys)).
  split_and!; [done|done| |split|reflexivity|reflexivity|reflexivity].
  - unfold CommitBlock. rewrite (M_bind_Ok _ _ _ _ _ Es). unfold MakeWriteSet.
    rewrite (M_bind_Ok _ _ (s1, w) s1 (s1, w)), (M_bind_Ok _ _ _ _ _ Em) by done.
    rewrite (M_bind_Ok _ _ (set_stateObjectsDirty D s1, w) (set_stateObjectsDirty D s1) (set_stateObjectsDirty D s1, w)) by done.
    rewrite (or_return_None _ _ _ _ E). reflexivity.
  - intros a. rewrite (events_of_concat (writes_about eip161 aura s1 (fun a => bool_decide (a ∈ D))));
      [|by intros; apply events_of_objects|done].
    unfold writes_about. rewrite HD'. case_decide as Hd; rewrite Hk in Hd; [done|].
    destruct (stateObjects s1 !! a); [by destruct Hd|done].
  - intros a. simpl. rewrite Hobjs. split; [|done]. intros _. simpl. rewrite HD'.
    case_decide as Hd; rewrite Hk in Hd; [done|]. destruct (stateObjects s1 !! a); [by destruct Hd|done].
Qed.
End recorder.
