(* ===== verification/StateExamples.v ===== *)
(** Concrete runs of the state: a small database, the witnesses of the state
    theorems, and two runs in which a revert does not restore the state. *)
From S2P Require Import Prelude Uint256 AccessList StateTypes IntraBlockState StateView StateRevert.
From S2P Require Import StateOps StateUpdates StateSnapshot StateLaws StateFinalize.
#[local] Open Scope Z_scope.

Module demo.

(** A hash that tells code lengths apart, and a database with one account:
    170 has balance 10 and one storage slot. *)
Definition keccak (bs : list Byte.byte) : hash := N.of_nat (S (length bs)).

Definition account : Account := mk_Account true 1 (w 10) EmptyRoot 1%N 1.

Definition reader : StateReader :=
  mk_StateReader
    (fun a => (if bool_decide (a = 170%N) then Some account else None, None))
    (fun a inc k => (if bool_decide (a = 170%N) && (inc =? 1) && bool_decide (k = 5%N)
                     then Some [Byte.x01; Byte.x02] else None, None))
    (fun a inc h => (None, None))
    (fun a inc h => (0, None))
    (fun a => (0, None)).

Definition state_of {A} (r : outcome (A * IntraBlockState)) : IntraBlockState :=
  match r with Ok (_, s) => s | _ => New end.

Definition s1 : IntraBlockState := state_of (Snapshot New).
Definition s2 : IntraBlockState := state_of (run_op keccak reader (OSetState 170%N 5%N (w 9)) s1).
Definition s3 : IntraBlockState := state_of (RevertToSnapshot keccak reader 0 s2).
Definition ghost : gmap nat IntraBlockState := <[0%nat := New]> ∅.

Lemma New_reachable : reachable keccak reader New ∅.
Proof. apply reach_start; [apply New_wf|reflexivity|reflexivity]. Qed.

Lemma runs (r : outcome (unit * IntraBlockState)) :
  match r with Ok _ => true | _ => false end = true -> r = Ok (tt, state_of r).
Proof. by destruct r as [[[] s]| | |]. Qed.

Lemma s2_reachable : reachable keccak reader s2 ghost.
Proof.
  apply (reach_op keccak reader s1 ghost (OSetState 170%N 5%N (w 9)) s2); [|exact I|].
  - apply (reach_snapshot keccak reader New ∅ 0%nat s1); [apply New_reachable|reflexivity].
  - apply runs. vm_compute. reflexivity.
Qed.

Lemma s2_revisions : validRevisions s2 = [(0, 0)%nat].
Proof. vm_compute. reflexivity. Qed.

Lemma law : code_size_law keccak reader.
Proof. intros a inc h. simpl. by case_bool_decide. Qed.


Lemma RevertToSnapshot_answers_witness :
  exists x t1 s1', ask keccak reader (QState 170%N 5%N) New = Ok (x, t1) /\
                   ask keccak reader (QState 170%N 5%N) s3 = Ok (x, s1').
Proof.
  apply (RevertToSnapshot_answers keccak reader s2 ghost 0 0 New s3 (QState 170%N 5%N));
    [apply law|apply s2_reachable|rewrite s2_revisions; left|apply lookup_insert_eq|].
  apply runs. vm_compute. reflexivity.
Defined.

Lemma operations_never_panic_witness :
  exists s', run_op keccak reader (OAddBalance 7%N (w 3)) s2 = Ok (tt, s') /\ reachable keccak reader s' ghost.
Proof.
  apply (operations_never_panic keccak reader s2 ghost (OAddBalance 7%N (w 3))); [apply s2_reachable|].
  vm_compute. reflexivity.
Defined.

Lemma RevertToSnapshot_invalid_witness : RevertToSnapshot keccak reader 3 s2 = Panic.
Proof.
  apply (RevertToSnapshot_invalid keccak reader s2 ghost 3); [apply s2_reachable|].
  rewrite s2_revisions. cbn. intros H. inversion H as [|? ? ? H']; inversion H'.
Defined.

(** ** Read-after-write *)

Definition after {A} (m : M IntraBlockState A) : IntraBlockState := state_of (m New).

Lemma runs_unit (m : M IntraBlockState unit) :
  match m New with Ok _ => true | _ => false end = true -> m New = Ok (tt, after m).
Proof. apply runs. Qed.

Lemma GetState_after_SetState_witness :
  exists s'', GetState keccak reader 170%N 5%N (after (SetState keccak reader 170%N 5%N (w 9))) = Ok (w 9, s'').
Proof.
  apply (GetState_after_SetState keccak reader 170%N 5%N (w 9) New); [apply New_wf|reflexivity|].
  apply runs_unit. vm_compute. reflexivity.
Defined.

Definition debited : IntraBlockState := after (SubBalance keccak reader 170%N (w 3)).

Lemma GetBalance_after_transfer_witness :
  exists s'', GetBalance keccak reader 170%N (state_of (AddBalance keccak reader 7%N (w 3) debited))
    = Ok (if decide (7%N = 170%N) then Add (Sub (w 10) (w 3)) (w 3) else Sub (w 10) (w 3), s'').
Proof.
  apply (GetBalance_after_transfer keccak reader 170%N 7%N (w 3) New debited
    (state_of (AddBalance keccak reader 7%N (w 3) debited)) 170%N (w 10) (after (GetBalance keccak reader 170%N)));
    [apply New_wf|reflexivity| |vm_compute; reflexivity| |reflexivity].
  - apply runs_unit. vm_compute. reflexivity.
  - apply runs. vm_compute. reflexivity.
Defined.

Definition some_code : option (list Byte.byte) := Some [Byte.x60; Byte.x00].

Lemma GetCode_after_SetCode_witness :
  exists c' s1 s2, GetCode keccak reader 170%N (after (SetCode keccak reader 170%N some_code)) = Ok (c', s1) /\
    default [] c' = default [] some_code /\
    GetCodeHash keccak reader 170%N (after (SetCode keccak reader 170%N some_code)) = Ok (3%N, s2).
Proof.
  apply (GetCode_after_SetCode keccak reader 170%N some_code New); [apply New_wf|reflexivity|].
  apply runs_unit. vm_compute. reflexivity.
Defined.

Lemma operations_are_local_witness :
  exists x s1 s2, ask keccak reader (QBalance 170%N) New = Ok (x, s1) /\
    ask keccak reader (QBalance 170%N) (after (run_op keccak reader (OSetNonce 7%N 4))) = Ok (x, s2).
Proof.
  apply (operations_are_local keccak reader New ∅ (OSetNonce 7%N 4)); [apply law|apply New_reachable|exact I| |discriminate].
  apply runs_unit. vm_compute. reflexivity.
Defined.

Lemma Selfdestruct_effect_witness :
  let s' := after (Selfdestruct keccak reader 170%N) in
  (exists s1, Exist keccak reader 170%N New = Ok (true, s1)) /\
  (true = true -> (exists s2, HasSelfdestructed keccak reader 170%N s' = Ok (true, s2)) /\
                  (exists s3, GetBalance keccak reader 170%N s' = Ok (Clear, s3))) /\
  (true = false -> forall b k, view keccak reader s' b k = view keccak reader New b k).
Proof.
  apply (Selfdestruct_effect keccak reader 170%N New true); [apply New_wf|reflexivity|reflexivity].
Defined.

Lemma CreateAccount_fresh_contract_witness :
  exists t, ask keccak reader (QState 7%N 5%N) (after (CreateAccount keccak reader 7%N true))
    = Ok (fresh_contract_answer keccak (SetUint64 0) (next_incarnation keccak reader New 7%N) (QState 7%N 5%N), t).
Proof.
  apply (CreateAccount_fresh_contract keccak reader 7%N New (after (CreateAccount keccak reader 7%N true)) (SetUint64 0)
    (after (GetBalance keccak reader 7%N)) (QState 7%N 5%N)); [apply New_wf|reflexivity| | | |reflexivity|exact I|reflexivity].
  - intros k. reflexivity.
  - apply runs_unit. vm_compute. reflexivity.
  - intros v E. discriminate E.
Defined.

Definition some_log : Log := mk_Log 170%N [] [] 0 0%N 0 0%N 0.

Lemma AddLog_GetLogs_witness :
  GetLogs 0%N (after (AddLog some_log)) = [logged some_log New] /\ logSize (after (AddLog some_log)) = 1.
Proof.
  apply (AddLog_GetLogs keccak reader some_log New (after (AddLog some_log)) 0%N); [apply New_wf|reflexivity|].
  apply runs_unit. vm_compute. reflexivity.
Defined.

Definition tuples : list (address * list hash) := [(9%N, [1%N; 2%N])].

Lemma PrepareAccessList_contents_witness :
  let s' := after (PrepareAccessList 7%N None [1%N] tuples) in
  (AddressInAccessList 9%N s' = true <->
     9%N = 7%N \/ None = Some 9%N \/ 9%N ∈ [1%N] \/ exists keys, (9%N, keys) ∈ tuples) /\
  exists warm, SlotInAccessList 9%N 2%N s' = Ok ((AddressInAccessList 9%N s', warm), s') /\
    (warm = true <-> exists keys, (9%N, keys) ∈ tuples /\ 2%N ∈ keys).
Proof.
  apply (PrepareAccessList_contents 7%N None [1%N] tuples New); [reflexivity|].
  apply runs_unit. vm_compute. reflexivity.
Defined.

(** ** Finalisation *)


Lemma CommitBlock_writes_witness :
  exists s1 s' evs,
    unseen keccak reader s2 s1 /\ (forall a, pendingIncrease s1 a = None) /\
    CommitBlock keccak reader recorder reverse true false (s2, []) = Ok (None, (s', [] ++ evs)) /\
    (let dirty a := bool_decide (a ∈ dom (dirties (journal s1)) \/ a ∈ stateObjectsDirty s1) in
     (forall a, events_of a evs = writes_about keccak reverse true false s1 dirty a) /\
     objects_after keccak true false s1 dirty (fun _ => True) s') /\
    journal s' = newJournal /\ validRevisions s' = [] /\ refund s' = 0.
Proof.
  apply (CommitBlock_writes keccak reader reverse (fun l => reverse_Permutation l) true false s2 []).
  - apply (inv_wf _ _ _ _ (reachable_inv _ _ _ _ s2_reachable)).
  - vm_compute. reflexivity.
Defined.

(** ** Where a revert does not restore the state *)

Definition result_of {S A} (r : outcome (A * S)) : option A :=
  match r with Ok (x, _) => Some x | _ => None end.

(** AddBalance on an account of the database that was not read before, a read,
    and a revert: the credit stays. *)
Definition leak_run : M IntraBlockState (Z * Z * Z) :=
  id ← Snapshot;
  _ ← AddBalance keccak reader 170%N (w 5);
  credited ← GetBalance keccak reader 170%N;
  _ ← RevertToSnapshot keccak reader id;
  reverted ← GetBalance keccak reader 170%N;
  mret (to_Z (SetUint64 10), to_Z credited, to_Z reverted).


(** A contract created in this transaction, with or without a self-destruct
    that is reverted before the transaction ends. *)
Definition create_run (destruct_and_revert : bool) : M IntraBlockState unit :=
  _ ← CreateAccount keccak reader 7%N true;
  _ ← SetCode keccak reader 7%N some_code;
  if destruct_and_revert then
    id ← Snapshot;
    _ ← Selfdestruct keccak reader 7%N;
    RevertToSnapshot keccak reader id
  else mret tt.

Definition creations (r : outcome (option error * (IntraBlockState * list write_event))) : nat :=
  match r with
  | Ok (_, (_, evs)) => length (List.filter (fun e => match e with EvCreate _ => true | _ => false end) evs)
  | _ => 0
  end.

(** Without the reverted self-destruct the writer is told of the contract
    creation, with it the writer is not: the revert leaves [created] false. *)
Theorem reverted_selfdestruct_hides_creation :
  creations (FinalizeTx keccak reader recorder id true false (after (create_run false), [])) = 1%nat /\
  creations (FinalizeTx keccak reader recorder id true false (after (create_run true), [])) = 0%nat.
Proof. split; vm_compute; reflexivity. Qed.
End demo.
