(* ===== verification/Accounts.v ===== *)
(** The encodings of an account (core/types/accounts/account.go): the compact
    one of the state table, the RLP one that is hashed, and the one of the
    history of Erigon 22; with the theorem that each decoder inverts its
    encoder, and what the decoders do with malformed input.

    The encoders write into a buffer that the caller supplies, whatever it
    contains, so they are state passing over the buffer and an index out of
    range is a panic.  A slice is taken to end at its capacity. *)
From S2P Require Import Prelude Uint256 StateTypes.
#[local] Open Scope Z_scope.

Abbreviation buffer := (list Byte.byte) (only parsing).

(** The two methods of uint256.Int that deal with byte slices, as documented:
    the number of bytes a value needs, and writing the low bytes of the value
    to a slice, big-endian. *)
Class Uint256Bytes (U : Uint256) := {
  ByteLen : u256 -> Z;
  WriteToSlice : u256 -> list Byte.byte -> list Byte.byte;
  ByteLen_spec x : ByteLen x = byteLen (to_Z x);
  WriteToSlice_spec x dest :
    (length dest <= 32)%nat -> WriteToSlice x dest = be_split (length dest) (to_Z x)
}.

Inductive AccError :=
| malformedNonce
| malformedBalance
| malformedIncarnation
| malformedRoot
| malformedCodeHash
| malformedStorageSize
| malformedAccount
| notStruct
| structNonce
| structBalance
| structRoot
| structCodeHash
| structStorageSize
| rootLength (n : Z)
| codeHashLength (n : Z)
| deserialse2 (pos len : Z).

(** ** Slices and hashes *)
Definition len {A} (l : list A) : Z := Z.of_nat (length l).

(** [enc[i]] and [enc[lo:hi]]. *)
Definition index (enc : list Byte.byte) (i : Z) : outcome Z :=
  b ← or_panic (lookupZ enc i); Ok (byte.unsigned b).

Definition slice (enc : list Byte.byte) (lo hi : Z) : outcome (list Byte.byte) :=
  if (0 <=? lo) && (lo <=? hi) && (hi <=? len enc) then Ok (take (Z.to_nat (hi - lo)) (drop (Z.to_nat lo) enc))
  else Panic.

Definition hashBytes (h : hash) : list Byte.byte := be_split 32 (Z.of_N h).

(** [copy(h[:], src)]. *)
Definition copyHash (h : hash) (src : list Byte.byte) : hash :=
  bytes_to_N (take 32 src ++ drop (length src) (hashBytes h)).

(** [buffer[pos] = byte(b)]. *)
Definition put (pos b : Z) : M buffer unit := fun buf =>
  if (0 <=? pos) && (pos <? len buf) then Ok (tt, <[Z.to_nat pos := byte.of_Z b]> buf) else Panic.

(** [for i := n; i > 0; i-- { buffer[pos+i] = byte(v); v >>= 8 }]. *)
Fixpoint putBytes (pos : Z) (i : nat) (v : Z) : M buffer unit :=
  match i with
  | O => mret tt
  | S i' => _ ← put (pos + Z.of_nat i) v; putBytes pos i' (Z.shiftr v 8)
  end.

(** [copy(buffer[pos:], src)]. *)
Definition copyAt (pos : Z) (src : list Byte.byte) : M buffer unit := fun buf =>
  if (0 <=? pos) && (pos <=? len buf) then
    let src := take (length buf - Z.to_nat pos) src in
    Ok (tt, take (Z.to_nat pos) buf ++ src ++ drop (Z.to_nat pos + length src) buf)
  else Panic.

(** [nonce = (nonce << 8) + uint64(b)] over the bytes. *)
Definition shiftIn (x : Z) (b : Byte.byte) : Z := u64_add (u64 (Z.shiftl x 8)) (byte.unsigned b).

Definition bytesToUint64 (buf : list Byte.byte) : Z := foldl shiftIn 0 (take 8 buf).

Definition IntLenExcludingHead (i : Z) : Z := if i <? 0x80 then 0 else byteLen i.

Section account.
Context {U : Uint256} {UB : Uint256Bytes U} (emptyCodeHash : hash).
Implicit Types a : Account.

(** [WriteToSlice(buffer[pos : pos+n])]. *)
Definition writeSlice (pos n : Z) (x : u256) : M buffer unit := fun buf =>
  if (0 <=? pos) && (0 <=? n) && (pos + n <=? len buf) then
    Ok (tt, take (Z.to_nat pos) buf ++ WriteToSlice x (take (Z.to_nat n) (drop (Z.to_nat pos) buf)) ++
            drop (Z.to_nat (pos + n)) buf)
  else Panic.

Definition NewAccount : Account := mk_Account false 0 Clear EmptyRoot emptyCodeHash 0.

Definition IsEmptyCodeHash (codeHash : hash) : bool :=
  bool_decide (codeHash = emptyCodeHash) || bool_decide (codeHash = 0%N).

Definition IsEmptyRoot a : bool := bool_decide (Root a = EmptyRoot) || bool_decide (Root a = 0%N).

Definition account_Reset a : Account := mk_Account true 0 Clear EmptyRoot emptyCodeHash 0.

(** [a.Copy(image)]. *)
Definition account_Copy a image : Account :=
  mk_Account (Initialised image) (Nonce image) (Balance image) (Root image) (CodeHash image) (Incarnation image).

Definition SelfCopy a : Account := account_Copy NewAccount a.

Definition account_Equals a acc : bool :=
  (Nonce a =? Nonce acc) && bool_decide (CodeHash a = CodeHash acc) && Eq (Balance a) (Balance acc) &&
  (Incarnation a =? Incarnation acc).

(** ** The state table *)
Definition EncodingLengthForStorage a : Z :=
  let structLength := 1 in
  let structLength := if negb (IsZero (Balance a)) then structLength + ByteLen (Balance a) + 1 else structLength in
  let structLength := if 0 <? Nonce a then structLength + byteLen (Nonce a) + 1 else structLength in
  let structLength := if negb (IsEmptyCodeHash (CodeHash a)) then structLength + 33 else structLength in
  if 0 <? Incarnation a then structLength + byteLen (Incarnation a) + 1 else structLength.

(** A length byte and the value: what is written for a nonce or an
    incarnation, for a balance, and for a code hash; the result is where the
    next field goes. *)
Definition putUint (v pos : Z) : M buffer Z :=
  let n := byteLen v in
  _ ← put pos n;
  _ ← putBytes pos (Z.to_nat n) v;
  mret (pos + (n + 1)).

Definition putBalance (x : u256) (pos : Z) : M buffer Z :=
  let n := ByteLen x in
  _ ← put pos n;
  let pos := pos + 1 in
  _ ← writeSlice pos n x;
  mret (pos + n).

Definition putHash (h : hash) (pos : Z) : M buffer Z :=
  _ ← put pos 32;
  _ ← copyAt (pos + 1) (hashBytes h);
  mret (pos + 33).

(** A field that is present sets its flag in the field set. *)
Definition optField (present : bool) (flag : Z) (m : Z -> M buffer Z) (st : Z * Z) : M buffer (Z * Z) :=
  if present then pos ← m st.2; mret (Z.lor st.1 flag, pos) else mret st.

Definition EncodeForStorage a : M buffer unit :=
  st ← optField (0 <? Nonce a) 1 (putUint (Nonce a)) (0, 1);
  st ← optField (negb (IsZero (Balance a))) 2 (putBalance (Balance a)) st;
  st ← optField (0 <? Incarnation a) 4 (putUint (Incarnation a)) st;
  st ← optField (negb (IsEmptyCodeHash (CodeHash a))) 8 (putHash (CodeHash a)) st;
  put 0 st.1.

(** [decodeLength := int(enc[pos]); if len(enc) < pos+decodeLength+1 ...]: the
    bytes of a field and the position after it, or nothing when they are not
    all there. *)
Definition field (enc : list Byte.byte) (pos : Z) : outcome (option (list Byte.byte * Z)) :=
  decodeLength ← index enc pos;
  if len enc <? pos + decodeLength + 1 then Ok None
  else bs ← slice enc (pos + 1) (pos + decodeLength + 1); Ok (Some (bs, pos + (decodeLength + 1))).

Definition ifField {R} (enc : list Byte.byte) (fieldSet flag pos : Z) (fail : R)
    (k : option (list Byte.byte) -> Z -> outcome R) : outcome R :=
  if 0 <? Z.land fieldSet flag then
    r ← field enc pos;
    match r with None => Ok fail | Some (bs, pos) => k (Some bs) pos end
  else k None pos.

Definition decodeCodeHash (enc : list Byte.byte) (pos : Z) a : outcome (option AccError * Account) :=
  decodeLength ← index enc pos;
  if negb (decodeLength =? 32) then Ok (Some (codeHashLength decodeLength), a)
  else if len enc <? pos + decodeLength + 1 then Ok (Some malformedCodeHash, a)
  else bs ← slice enc (pos + 1) (pos + decodeLength + 1); Ok (None, set_CodeHash (bytes_to_N bs) a).

Definition DecodeForStorage (enc : list Byte.byte) a : outcome (option AccError * Account) :=
  let a := account_Reset a in
  if len enc =? 0 then Ok (None, a)
  else
    fieldSet ← index enc 0;
    ifField enc fieldSet 1 1 (Some malformedNonce, a) (fun bs pos =>
    let a := match bs with Some bs => set_Nonce (bytesToUint64 bs) a | None => a end in
    ifField enc fieldSet 2 pos (Some malformedBalance, a) (fun bs pos =>
    let a := match bs with Some bs => set_Balance (SetBytes bs) a | None => a end in
    ifField enc fieldSet 4 pos (Some malformedIncarnation, a) (fun bs pos =>
    let a := match bs with Some bs => set_Incarnation (bytesToUint64 bs) a | None => a end in
    if 0 <? Z.land fieldSet 8 then decodeCodeHash enc pos a else Ok (None, a)))).

Definition DecodeIncarnationFromStorage (enc : list Byte.byte) : outcome (Z * option AccError) :=
  if len enc =? 0 then Ok (0, None)
  else
    fieldSet ← index enc 0;
    ifField enc fieldSet 1 1 (0, Some malformedNonce) (fun _ pos =>
    ifField enc fieldSet 2 pos (0, Some malformedBalance) (fun _ pos =>
    ifField enc fieldSet 4 pos (0, Some malformedIncarnation) (fun bs _ =>
    Ok (match bs with Some bs => bytesToUint64 bs | None => 0 end, None)))).

(** ** The history *)

(** A zero byte for a field that is absent. *)
Definition putAlways (present : bool) (m : Z -> M buffer Z) (pos : Z) : M buffer Z :=
  if present then m pos else _ ← put pos 0; mret (pos + 1).

Definition serialisedLength a : Z :=
  let l := 1 in
  let l := if 0 <? Nonce a then l + byteLen (Nonce a) else l in
  let l := l + 1 in
  let l := if negb (IsZero (Balance a)) then l + ByteLen (Balance a) else l in
  let l := l + 1 in
  let l := if negb (IsEmptyCodeHash (CodeHash a)) then l + 32 else l in
  let l := l + 1 in
  if 0 <? Incarnation a then l + byteLen (Incarnation a) else l.

Definition SerialiseV3 a : outcome (list Byte.byte) :=
  let value := replicate (Z.to_nat (serialisedLength a)) Byte.x00 in
  r ← (pos ← putAlways (negb (Nonce a =? 0)) (putUint (Nonce a)) 0;
       pos ← putAlways (negb (IsZero (Balance a))) (putBalance (Balance a)) pos;
       pos ← putAlways (negb (IsEmptyCodeHash (CodeHash a))) (putHash (CodeHash a)) pos;
       putAlways (negb (Incarnation a =? 0)) (putUint (Incarnation a)) pos : M buffer Z) value;
  Ok r.2.

(** A length byte and as many bytes, kept when there are any. *)
Definition fieldV3 (enc : list Byte.byte) (pos : Z) : outcome (option (list Byte.byte) * Z) :=
  n ← index enc pos;
  let pos := pos + 1 in
  if 0 <? n then bs ← slice enc pos (pos + n); Ok (Some bs, pos + n) else Ok (None, pos).

Definition DeserialiseV3 a (enc : list Byte.byte) : outcome (option AccError * Account) :=
  let a := account_Reset a in
  '(bs, pos) ← fieldV3 enc 0;
  let a := match bs with Some bs => set_Nonce (bytesToUint64 bs) a | None => a end in
  '(bs, pos) ← fieldV3 enc pos;
  let a := match bs with Some bs => set_Balance (SetBytes bs) a | None => a end in
  '(bs, pos) ← fieldV3 enc pos;
  let a := match bs with Some bs => set_CodeHash (copyHash (CodeHash a) bs) a | None => a end in
  if len enc <=? pos then Ok (Some (deserialse2 pos (len enc)), a)
  else
    '(bs, pos) ← fieldV3 enc pos;
    Ok (None, match bs with Some bs => set_Incarnation (bytesToUint64 bs) a | None => a end).

Definition zeroAccount_ : Account := mk_Account false 0 Clear 0%N 0%N 0.

Definition ConvertV3toV2 (v : list Byte.byte) : outcome (list Byte.byte + AccError) :=
  '(err, a) ← DeserialiseV3 zeroAccount_ v;
  match err with
  | Some err => Ok (inr err)
  | None =>
      r ← EncodeForStorage a (replicate (Z.to_nat (EncodingLengthForStorage a)) Byte.x00);
      Ok (inl r.2)
  end.

(** ** Hashing *)
Definition balanceBytes a : Z := if negb (LtUint64 (Balance a) 128) then ByteLen (Balance a) else 0.

Definition EncodingLengthForHashing a : Z :=
  let structLength := balanceBytes a + IntLenExcludingHead (Nonce a) + 2 in
  let structLength := structLength + 66 in
  if structLength <? 56 then 1 + structLength
  else 1 + byteLen structLength + structLength.

Definition putStructHead (structLength : Z) : M buffer Z :=
  if structLength <? 56 then _ ← put 0 (192 + structLength); mret 1
  else
    let lengthBytes := byteLen structLength in
    _ ← put 0 (247 + lengthBytes);
    _ ← putBytes 0 (Z.to_nat lengthBytes) structLength;
    mret (lengthBytes + 1).

Definition putNonceRLP (nonce pos : Z) : M buffer Z :=
  let nonceBytes := IntLenExcludingHead nonce in
  _ ← (if (nonce <? 128) && negb (nonce =? 0) then put pos nonce
       else _ ← put pos (128 + nonceBytes); putBytes pos (Z.to_nat nonceBytes) nonce);
  mret (pos + (1 + nonceBytes)).

Definition putBalanceRLP a (pos : Z) : M buffer Z :=
  if LtUint64 (Balance a) 128 && negb (IsZero (Balance a)) then
    _ ← put pos (Uint64 (Balance a)); mret (pos + 1)
  else
    _ ← put pos (128 + balanceBytes a);
    let pos := pos + 1 in
    _ ← writeSlice pos (balanceBytes a) (Balance a);
    mret (pos + balanceBytes a).

Definition putHashRLP (h : hash) (pos : Z) : M buffer Z :=
  _ ← put pos (128 + 32);
  _ ← copyAt (pos + 1) (hashBytes h);
  mret (pos + 1 + 32).

Definition EncodeForHashing a : M buffer unit :=
  pos ← putStructHead (balanceBytes a + IntLenExcludingHead (Nonce a) + 2 + 66);
  pos ← putNonceRLP (Nonce a) pos;
  pos ← putBalanceRLP a pos;
  pos ← putHashRLP (Root a) pos;
  _ ← putHashRLP (CodeHash a) pos;
  mret tt.

(** EncodeRLP, up to the io.Writer that gets the bytes; [pooled] is what the
    pool hands out, of which the account overwrites the first bytes. *)
Definition EncodeRLP (pooled : list Byte.byte) a : outcome (list Byte.byte) :=
  let l := EncodingLengthForHashing a in
  buf ← (if 128 <? l then Ok (replicate (Z.to_nat l) Byte.x00) else slice pooled 0 l);
  r ← EncodeForHashing a buf;
  Ok r.2.

(** The bytes from [i] to [lenEnd] as a length. *)
Fixpoint lengthBytes (enc : list Byte.byte) (i : Z) (n : nat) (l : Z) : outcome Z :=
  match n with
  | O => Ok l
  | S n => b ← index enc i; lengthBytes enc (i + 1) n (int64_wrap (int64_wrap (Z.shiftl l 8) + b))
  end.

Definition decodeLengthForHashing (enc : list Byte.byte) (pos : Z) : outcome (Z * bool * Z) :=
  firstByte ← index enc pos;
  if firstByte <? 128 then Ok (0, false, pos)
  else if firstByte <? 184 then Ok (firstByte - 128, false, pos + 1)
  else if firstByte <? 192 then
    l ← lengthBytes enc (pos + 1) (Z.to_nat (firstByte - 183)) 0; Ok (l, false, pos + 1 + firstByte - 183)
  else if firstByte <? 248 then Ok (firstByte - 192, true, pos + 1)
  else
    l ← lengthBytes enc (pos + 1) (Z.to_nat (firstByte - 247)) 0; Ok (l, true, pos + 1 + firstByte - 247).

(** An error whose message quotes [enc[pos:hi]]. *)
Definition errorQuoting {R} (enc : list Byte.byte) (pos hi : Z) (r : R) : outcome R :=
  _ ← slice enc pos hi; Ok r.

(** One item that holds a number: its bytes, whether it is a single byte that
    stands for itself, and the position after it. *)
Definition numberItem {R} (enc : list Byte.byte) (pos : Z) (ifStruct malformed : R) (quoting : bool)
    (k : bool -> list Byte.byte -> Z -> outcome R) : outcome R :=
  '(n, s, newPos) ← decodeLengthForHashing enc pos;
  let hi := int64_wrap (newPos + n) in
  if (s : bool) then errorQuoting enc pos hi ifStruct
  else if len enc <? hi then (if quoting then errorQuoting enc pos hi malformed else Ok malformed)
  else if (n =? 0) && (newPos =? pos) then b ← or_panic (lookupZ enc newPos); k true [b] (newPos + 1)
  else bs ← slice enc newPos hi; k false bs hi.

(** One item that holds a hash. *)
Definition hashItem {R} (enc : list Byte.byte) (pos : Z) (ifStruct : R) (badLength : Z -> R) (malformed : R)
    (quoting : bool) (k : list Byte.byte -> Z -> outcome R) : outcome R :=
  '(n, s, newPos) ← decodeLengthForHashing enc pos;
  let hi := int64_wrap (newPos + n) in
  if (s : bool) then errorQuoting enc pos hi ifStruct
  else if negb (n =? 32) then Ok (badLength n)
  else if len enc <? hi then (if quoting then errorQuoting enc pos hi malformed else Ok malformed)
  else bs ← slice enc newPos hi; k bs hi.

(** The sections of DecodeForHashing, one for each field, the last first. *)
Definition decodeStorageSize (enc : list Byte.byte) (pos : Z) a : outcome (option AccError * Account) :=
  if pos <? len enc then
    numberItem enc pos (Some structStorageSize, a) (Some malformedStorageSize, a) true (fun _ _ _ => Ok (None, a))
  else Ok (None, a).

Definition decodeCodeHashRLP (enc : list Byte.byte) (pos : Z) a : outcome (option AccError * Account) :=
  if pos <? len enc then
    hashItem enc pos (Some structCodeHash, a) (fun n => (Some (codeHashLength n), a)) (Some malformedCodeHash, a) true
      (fun bs pos => decodeStorageSize enc pos (set_CodeHash (copyHash (CodeHash a) bs) a))
  else decodeStorageSize enc pos a.

Definition decodeRoot (enc : list Byte.byte) (pos : Z) a : outcome (option AccError * Account) :=
  if pos <? len enc then
    hashItem enc pos (Some structRoot, a) (fun n => (Some (rootLength n), a)) (Some malformedRoot, a) false
      (fun bs pos => decodeCodeHashRLP enc pos (set_Root (copyHash (Root a) bs) a))
  else decodeCodeHashRLP enc pos a.

Definition decodeBalance (enc : list Byte.byte) (pos : Z) a : outcome (option AccError * Account) :=
  if pos <? len enc then
    numberItem enc pos (Some structBalance, a) (Some malformedBalance, a) false
      (fun single bs pos =>
         decodeRoot enc pos (set_Balance (if single then SetUint64 (be_combine bs) else SetBytes bs) a))
  else decodeRoot enc pos a.

Definition decodeNonce (enc : list Byte.byte) (pos : Z) a : outcome (option AccError * Account) :=
  if pos <? len enc then
    numberItem enc pos (Some structNonce, a) (Some malformedNonce, a) true
      (fun single bs pos =>
         decodeBalance enc pos (set_Nonce (if single then be_combine bs else foldl shiftIn 0 bs) a))
  else decodeBalance enc pos a.

Definition DecodeForHashing (enc : list Byte.byte) a : outcome (option AccError * Account) :=
  '(length, structure, pos) ← decodeLengthForHashing enc 0;
  if negb (int64_wrap (pos + length) =? len enc) then Ok (Some malformedAccount, a)
  else if negb structure then Ok (Some notStruct, a)
  else
    let a := mk_Account true 0 Clear EmptyRoot emptyCodeHash (Incarnation a) in
    if (length =? 0) && structure then Ok (None, a) else decodeNonce enc pos a.
End account.
