(* ===== verification/AccountSpec.v ===== *)
(** The account encodings of [Accounts]: the bytes each encoder writes, and
    the round trips. *)
From S2P Require Import Prelude Uint256 StateTypes Accounts.
#[local] Open Scope Z_scope.

(** * Writing *)
Lemma put_spec pre x post pos b : len pre = pos -> put pos b (pre ++ x :: post) = Ok (tt, pre ++ byte.of_Z b :: post).
Proof.
  intros <-. unfold put, len. rewrite length_app. cbn [length].
  rewrite (proj2 (Z.leb_le _ _)), (proj2 (Z.ltb_lt _ _)) by lia. cbn [andb].
  rewrite Nat2Z.id, insert_app_r_alt, Nat.sub_diag by lia. done.
Qed.

Lemma be_split_S n v : be_split (S n) v = be_split n (Z.shiftr v 8) ++ [byte.of_Z v].
Proof. done. Qed.

Lemma putBytes_spec i v pre mid post pos : len pre = pos + 1 -> length mid = i ->
  putBytes pos i v (pre ++ mid ++ post) = Ok (tt, pre ++ be_split i v ++ post).
Proof.
  revert v mid post. induction i as [|i IH]; intros v mid post Hp Hm.
  - by destruct mid.
  - destruct mid as [|x mid _] using rev_ind; [done|]. rewrite length_app, Nat.add_1_r in Hm. injection Hm as Hm.
    cbn [putBytes]. rewrite <- app_assoc, (app_assoc pre mid). cbn [app].
    erewrite M_bind_Ok by (apply put_spec; unfold len in *; rewrite length_app; lia).
    rewrite <- app_assoc, (IH _ mid) by done. by rewrite be_split_S, <- app_assoc.
Qed.

Lemma copyAt_spec src pre mid post pos : len pre = pos -> length mid = length src ->
  copyAt pos src (pre ++ mid ++ post) = Ok (tt, pre ++ src ++ post).
Proof.
  intros <- Hm. unfold copyAt, len. rewrite !length_app. rewrite !(proj2 (Z.leb_le _ _)) by lia. cbn [andb].
  rewrite Nat2Z.id, take_app_length, (take_ge src) by lia.
  rewrite (app_assoc pre mid), drop_app_length' by (rewrite length_app; lia). done.
Qed.

(** [m] writes [bs] at [pos] and moves on. *)
Definition writes (m : Z -> M buffer Z) (bs : list Byte.byte) : Prop :=
  forall pre mid post, length mid = length bs ->
    m (len pre) (pre ++ mid ++ post) = Ok (len pre + len bs, pre ++ bs ++ post).

Lemma writes_bind {A} (m : Z -> M buffer Z) bs (k : Z -> M buffer A) pre mid post :
  writes m bs -> length mid = length bs ->
  (pos ← m (len pre); k pos) (pre ++ mid ++ post) = k (len (pre ++ bs)) ((pre ++ bs) ++ post).
Proof.
  intros Hm Hl. erewrite M_bind_Ok by (apply Hm; done). unfold len. rewrite length_app, Nat2Z.inj_add.
  by rewrite <- app_assoc.
Qed.

(** The next field of a buffer that is long enough. *)
Lemma take_mid {A} (l : list A) n m : length l = (n + m)%nat -> exists mid post, l = mid ++ post /\ length mid = n /\ length post = m.
Proof. exists (take n l), (drop n l). rewrite take_drop, length_take, length_drop. split; [done|lia]. Qed.

Lemma writes_run {A} (m : Z -> M buffer Z) bs (k : Z -> M buffer A) pre buf rest R :
  writes m bs -> len buf = len bs + rest -> 0 <= rest ->
  (forall buf', len buf' = rest -> k (len (pre ++ bs)) ((pre ++ bs) ++ buf') = R) ->
  (pos ← m (len pre); k pos) (pre ++ buf) = R.
Proof.
  intros Hm Hl Hr Hk. destruct (take_mid buf (length bs) (Z.to_nat rest)) as (mid & post & -> & Hmid & Hpost).
  { unfold len in Hl. lia. }
  rewrite <- (Hk post) by (unfold len; lia). by apply writes_bind.
Qed.

Section account.
Context {U : Uint256} {US : Uint256Spec U} {UB : Uint256Bytes U} (emptyCodeHash : hash).
Implicit Types a : Account.

Lemma length_hashBytes h : length (hashBytes h) = 32%nat.
Proof. apply length_be_split. Qed.

Lemma writeSlice_spec x n pre mid post : len mid = n -> n <= 32 ->
  writeSlice (len pre) n x (pre ++ mid ++ post) = Ok (tt, pre ++ be_split (Z.to_nat n) (to_Z x) ++ post).
Proof.
  intros <- Hn. unfold writeSlice, len in *. rewrite !length_app, !(proj2 (Z.leb_le _ _)) by lia. cbn [andb].
  rewrite <- Nat2Z.inj_add, !Nat2Z.id, take_app_length, drop_app_length, take_app_length, WriteToSlice_spec by lia.
  rewrite (app_assoc pre mid), drop_app_length' by (rewrite length_app; lia). done.
Qed.

(** A length byte and the number. *)
Definition counted (z : Z) : list Byte.byte := byte.of_Z (byteLen z) :: be_split (Z.to_nat (byteLen z)) z.

Definition countedHash (h : hash) : list Byte.byte := byte.of_Z 32 :: hashBytes h.

Lemma len_counted z : len (counted z) = byteLen z + 1.
Proof. pose proof (byteLen_nonneg z). unfold len, counted. cbn [length]. rewrite length_be_split. lia. Qed.

Lemma len_countedHash h : len (countedHash h) = 33.
Proof. unfold len, countedHash. cbn [length]. by rewrite length_hashBytes. Qed.

Lemma len_snoc (pre : list Byte.byte) x : len (pre ++ [x]) = len pre + 1.
Proof. unfold len. rewrite length_app. cbn. lia. Qed.

Lemma putUint_writes v : writes (putUint v) (counted v).
Proof.
  intros pre mid post Hm. unfold putUint. pose proof (byteLen_nonneg v). destruct mid as [|x mid]; [done|]. injection Hm as Hm.
  cbn [app]. erewrite M_bind_Ok by by apply put_spec.
  rewrite (cons_middle _ pre), (app_assoc pre). rewrite length_be_split in Hm.
  erewrite M_bind_Ok by (apply putBytes_spec; [by rewrite len_snoc|done]).
  rewrite len_counted. unfold counted. by rewrite <- app_assoc.
Qed.

Lemma putHash_writes h : writes (putHash h) (countedHash h).
Proof.
  intros pre mid post Hm. unfold putHash. destruct mid as [|x mid]; [done|]. injection Hm as Hm.
  cbn [app]. erewrite M_bind_Ok by by apply put_spec.
  rewrite (cons_middle _ pre), (app_assoc pre), <- len_snoc with (x := byte.of_Z 32).
  erewrite M_bind_Ok by by apply copyAt_spec. rewrite len_countedHash. unfold countedHash. by rewrite <- app_assoc.
Qed.

Lemma byteLen_256 (x : u256) : 0 <= byteLen (to_Z x) <= 32.
Proof.
  split; [apply byteLen_nonneg|]. apply byteLen_le; [|done]. apply to_Z_range.
Qed.

Lemma putBalance_writes x : writes (putBalance x) (counted (to_Z x)).
Proof.
  intros pre mid post Hm. unfold putBalance. pose proof (byteLen_256 x). destruct mid as [|y mid]; [done|].
  injection Hm as Hm. rewrite length_be_split in Hm. rewrite ByteLen_spec. cbn [app].
  erewrite M_bind_Ok by by apply put_spec.
  rewrite (cons_middle _ pre), (app_assoc pre), <- len_snoc with (x := byte.of_Z (byteLen (to_Z x))).
  erewrite M_bind_Ok by (apply writeSlice_spec; unfold len; lia).
  rewrite len_counted, len_snoc. unfold counted. rewrite <- app_assoc. unfold mret, M_ret. do 2 f_equal. lia.
Qed.

(** ** The state table *)
Definition storageFields a : list Byte.byte :=
  (if 0 <? Nonce a then counted (Nonce a) else []) ++
  (if negb (IsZero (Balance a)) then counted (to_Z (Balance a)) else []) ++
  (if 0 <? Incarnation a then counted (Incarnation a) else []) ++
  (if negb (IsEmptyCodeHash emptyCodeHash (CodeHash a)) then countedHash (CodeHash a) else []).

Definition fieldSet a : Z :=
  Z.lor (Z.lor (Z.lor (if 0 <? Nonce a then 1 else 0) (if negb (IsZero (Balance a)) then 2 else 0))
    (if 0 <? Incarnation a then 4 else 0)) (if negb (IsEmptyCodeHash emptyCodeHash (CodeHash a)) then 8 else 0).

Definition storageBytes a : list Byte.byte := byte.of_Z (fieldSet a) :: storageFields a.

Lemma len_app {A} (l1 l2 : list A) : len (l1 ++ l2) = len l1 + len l2.
Proof. unfold len. rewrite length_app. lia. Qed.

Lemma len_nonneg {A} (l : list A) : 0 <= len l.
Proof. unfold len. lia. Qed.

#[local] Hint Resolve len_nonneg : ints.

Lemma EncodingLengthForStorage_spec a : EncodingLengthForStorage emptyCodeHash a = 1 + len (storageFields a).
Proof.
  unfold EncodingLengthForStorage, storageFields. rewrite !len_app, ByteLen_spec.
  destruct (0 <? Nonce a), (IsZero (Balance a)), (0 <? Incarnation a), (IsEmptyCodeHash _ _); cbn [negb];
    rewrite ?len_counted, ?len_countedHash; change (len []) with 0; lia.
Qed.

(** One optional field. *)
Lemma optField_run {A} present flag (m : Z -> M buffer Z) bs fs (k : Z * Z -> M buffer A) pre buf rest R :
  writes m bs -> len buf = len (if (present : bool) then bs else []) + rest -> 0 <= rest ->
  (forall buf', len buf' = rest ->
     k (Z.lor fs (if present then flag else 0), len (pre ++ if present then bs else []))
       ((pre ++ if present then bs else []) ++ buf') = R) ->
  (st ← optField present flag m (fs, len pre); k st) (pre ++ buf) = R.
Proof.
  intros Hm Hl Hr Hk. destruct present; cbn [optField].
  - cbn [fst snd]. rewrite M_bind_assoc.
    by apply (writes_run m bs (fun pos => k (Z.lor fs flag, pos)) pre buf rest).
  - rewrite <- (Hk buf) by (by change (len []) with 0 in Hl). by rewrite Z.lor_0_r, app_nil_r.
Qed.

(** The encoder fills exactly the buffer its length asks for. *)
Lemma EncodeForStorage_spec a buf : len buf = EncodingLengthForStorage emptyCodeHash a ->
  EncodeForStorage emptyCodeHash a buf = Ok (tt, storageBytes a).
Proof.
  rewrite EncodingLengthForStorage_spec.
  destruct buf as [|x buf]; [pose proof (len_nonneg (storageFields a)); change (len []) with 0; lia|].
  intros Hl. unfold EncodeForStorage, storageBytes, fieldSet.
  assert (len buf = len (storageFields a)) as Hb by (unfold len in *; cbn [length] in Hl; lia). clear Hl.
  unfold storageFields in *. rewrite !len_app in Hb.
  change (x :: buf) with ([x] ++ buf). replace (0, 1) with (0, len [x]) by done.
  eapply optField_run; [apply putUint_writes|exact Hb|auto with ints|]. intros b1 H1.
  eapply optField_run; [apply putBalance_writes|exact H1|auto with ints|]. intros b2 H2.
  eapply optField_run; [apply putUint_writes|exact H2|auto with ints|]. intros b3 H3. rewrite <- (Z.add_0_r (len (if negb _ then _ else _))) in H3.
  eapply optField_run; [apply putHash_writes|exact H3|reflexivity|].
  intros [|] H4; [|unfold len in H4; cbn in H4; lia]. rewrite app_nil_r, <- !app_assoc. cbn [fst app].
  rewrite Z.lor_0_l. by apply (put_spec []).
Qed.

(** * Reading *)
Lemma lookupZ_app {A} (pre : list A) x post pos : len pre = pos -> lookupZ (pre ++ x :: post) pos = Some x.
Proof.
  intros <-. unfold lookupZ, len. rewrite (proj2 (Z.ltb_ge _ _)) by lia. rewrite Nat2Z.id. by apply list_lookup_middle.
Qed.

Lemma index_app pre x post pos : len pre = pos -> index (pre ++ x :: post) pos = Ok (byte.unsigned x).
Proof. intros H. unfold index. by rewrite (lookupZ_app _ _ _ _ H). Qed.

Lemma slice_app pre bs post lo hi : len pre = lo -> lo + len bs = hi -> slice (pre ++ bs ++ post) lo hi = Ok bs.
Proof.
  intros <- <-. unfold slice. rewrite !len_app. pose proof (len_nonneg pre). pose proof (len_nonneg bs). pose proof (len_nonneg post).
  rewrite !(proj2 (Z.leb_le _ _)) by lia. cbn [andb]. unfold len. rewrite Nat2Z.id, drop_app_length.
  replace (Z.to_nat _) with (length bs) by lia. by rewrite take_app_length.
Qed.

Lemma byte_small z : 0 <= z < 256 -> byte.unsigned (byte.of_Z z) = z.
Proof. intros H. rewrite byte.unsigned_of_Z. unfold byte.wrap. apply Z.mod_small. lia. Qed.

(** Eight bytes, or fewer, make an uint64. *)
Lemma shiftIn_combine bs x : x * 2 ^ (8 * len bs) + be_combine bs < 2 ^ 64 -> 0 <= x ->
  foldl shiftIn x bs = x * 2 ^ (8 * len bs) + be_combine bs.
Proof.
  revert x. induction bs as [|b bs IH]; intros x Hx Hx0.
  - change (len []) with 0. change (be_combine []) with 0. cbn. lia.
  - rewrite be_combine_cons in *. change (length bs) with (Nat.pred (length (b :: bs))) in *.
    assert (8 * len (b :: bs) = 8 + 8 * len bs) as Hl by (unfold len; cbn [length]; lia).
    change (Nat.pred (length (b :: bs))) with (length bs) in *. fold (len bs) in *. rewrite Hl, Z.pow_add_r in * by (pose proof (len_nonneg bs); lia).
    pose proof (byte.unsigned_range b). pose proof (be_combine_bound bs). fold (len bs) in *.
    assert (0 < 2 ^ (8 * len bs)) by (apply Z.pow_pos_nonneg; [lia|]; pose proof (len_nonneg bs); lia).
    assert (shiftIn x b = x * 2 ^ 8 + byte.unsigned b) as E.
    { unfold shiftIn. rewrite Z.shiftl_mul_pow2 by lia.
      assert (x * 2 ^ 8 + byte.unsigned b < 2 ^ 64) by nia.
      rewrite (u64_small (x * 2 ^ 8)) by (unfold is_u64; lia). apply u64_small. unfold is_u64. lia. }
    cbn [foldl]. rewrite E, IH by nia. nia.
Qed.

Lemma bytesToUint64_split v : is_u64 v -> bytesToUint64 (be_split (Z.to_nat (byteLen v)) v) = v.
Proof.
  intros Hv. pose proof (byteLen_le v 8 Hv ltac:(lia)). pose proof (byteLen_nonneg v). unfold bytesToUint64.
  rewrite take_ge by (rewrite length_be_split; lia). unfold is_u64 in Hv.
  rewrite shiftIn_combine; rewrite ?be_combine_byteLen; lia.
Qed.

Lemma SetBytes_split (x : u256) : SetBytes (be_split (Z.to_nat (byteLen (to_Z x))) (to_Z x)) = x.
Proof.
  apply to_Z_inj. rewrite to_Z_SetBytes, be_combine_byteLen by apply to_Z_range. apply Z.mod_small, to_Z_range.
Qed.

Lemma bytes_to_N_hashBytes h : (h < 2 ^ 256)%N -> bytes_to_N (hashBytes h) = h.
Proof. intros Hh. unfold bytes_to_N, hashBytes. rewrite be_combine_split_small; [lia|]. split; [lia|]. apply N2Z.inj_lt in Hh. exact Hh. Qed.

Lemma copyHash_hashBytes h0 h : (h < 2 ^ 256)%N -> copyHash h0 (hashBytes h) = h.
Proof.
  intros Hh. unfold copyHash. rewrite length_hashBytes, take_ge by (rewrite length_hashBytes; lia).
  rewrite drop_ge by (rewrite length_hashBytes; lia). rewrite app_nil_r. by apply bytes_to_N_hashBytes.
Qed.

(** The machine widths of an account's fields. *)
Record account_ok a : Prop := {
  ok_Nonce : is_u64 (Nonce a);
  ok_Incarnation : is_u64 (Incarnation a);
  ok_Root : (Root a < 2 ^ 256)%N;
  ok_CodeHash : (CodeHash a < 2 ^ 256)%N
}.

(** What the state table keeps of an account: not the root, and the code hash
    of an account without code in one of its two spellings. *)
Definition stored a : Account :=
  mk_Account true (Nonce a) (Balance a) EmptyRoot
    (if IsEmptyCodeHash emptyCodeHash (CodeHash a) then emptyCodeHash else CodeHash a) (Incarnation a).

Lemma field_app pre body post : len body < 256 ->
  field (pre ++ (byte.of_Z (len body) :: body) ++ post) (len pre) =
  Ok (Some (body, len (pre ++ byte.of_Z (len body) :: body))).
Proof.
  intros Hb. pose proof (len_nonneg body). unfold field. cbn [app]. rewrite index_app, byte_small by done. cbn [mbind outcome_bind].
  rewrite len_app. assert (len (byte.of_Z (len body) :: body ++ post) = 1 + len body + len post) as ->.
  { unfold len. cbn [length]. rewrite length_app. lia. }
  pose proof (len_nonneg post). rewrite (proj2 (Z.ltb_ge _ _)) by lia.
  rewrite (cons_middle _ pre), (app_assoc pre), slice_app by (rewrite ?len_snoc; lia).
  cbn. do 3 f_equal. rewrite len_app. unfold len. cbn [length]. lia.
Qed.

(** A field and its length byte, or nothing. *)
Definition optBytes (present : bool) (body : list Byte.byte) : list Byte.byte :=
  if present then byte.of_Z (len body) :: body else [].

Lemma ifField_run {R} enc pre present body post fs flag fail (k : option (list Byte.byte) -> Z -> outcome R) :
  enc = pre ++ optBytes present body ++ post -> (0 <? Z.land fs flag) = present -> len body < 256 ->
  ifField enc fs flag (len pre) fail k = k (if present then Some body else None) (len (pre ++ optBytes present body)).
Proof.
  intros -> Hp Hb. unfold ifField. rewrite Hp. destruct present; cbn [optBytes]; [|by rewrite app_nil_r].
  by rewrite field_app.
Qed.

Lemma counted_optBytes (b : bool) v : (if b then counted v else []) = optBytes b (be_split (Z.to_nat (byteLen v)) v).
Proof.
  destruct b; [|done]. unfold counted, optBytes, len. by rewrite length_be_split, Z2Nat.id by apply byteLen_nonneg.
Qed.

Lemma len_be_split n v : len (be_split n v) = Z.of_nat n.
Proof. unfold len. by rewrite length_be_split. Qed.

Lemma fieldSet_bits a :
  byte.unsigned (byte.of_Z (fieldSet a)) = fieldSet a /\
  (0 <? Z.land (fieldSet a) 1) = (0 <? Nonce a) /\ (0 <? Z.land (fieldSet a) 2) = negb (IsZero (Balance a)) /\
  (0 <? Z.land (fieldSet a) 4) = (0 <? Incarnation a) /\
  (0 <? Z.land (fieldSet a) 8) = negb (IsEmptyCodeHash emptyCodeHash (CodeHash a)).
Proof.
  unfold fieldSet. by destruct (0 <? Nonce a), (negb (IsZero (Balance a))), (0 <? Incarnation a),
    (negb (IsEmptyCodeHash emptyCodeHash (CodeHash a))).
Qed.

Lemma byteLen_u64 v : is_u64 v -> 0 <= byteLen v <= 8.
Proof. intros Hv. split; [apply byteLen_nonneg|by apply byteLen_le]. Qed.

Lemma decodeCodeHash_app pre h a : (h < 2 ^ 256)%N ->
  decodeCodeHash (pre ++ countedHash h) (len pre) a = Ok (None, set_CodeHash h a).
Proof.
  intros Hh. unfold decodeCodeHash, countedHash. rewrite index_app by done. change (byte.unsigned (byte.of_Z 32)) with 32.
  cbn [mbind outcome_bind negb]. change (negb (32 =? 32)) with false. cbv iota.
  fold (countedHash h). rewrite len_app, len_countedHash, (proj2 (Z.ltb_ge _ _)) by lia. unfold countedHash.
  rewrite (cons_middle _ pre), (app_assoc pre), <- (app_nil_r (hashBytes h)).
  rewrite slice_app by (rewrite ?len_snoc; unfold len; rewrite ?length_hashBytes; lia). cbn.
  by rewrite bytes_to_N_hashBytes.
Qed.

Lemma Nonce_default v (b : bool) : b = (0 <? v) -> 0 <= v -> (if b then v else 0) = v.
Proof. intros ->. destruct (Z.ltb_spec 0 v); lia. Qed.

Lemma DecodeForStorage_spec a a0 : account_ok a -> DecodeForStorage emptyCodeHash (storageBytes a) a0 = Ok (None, stored a).
Proof.
  intros [HN HI _ HC]. pose proof (byteLen_u64 _ HN). pose proof (byteLen_u64 _ HI). pose proof (byteLen_256 (Balance a)).
  destruct (fieldSet_bits a) as (Hfs & F1 & F2 & F4 & F8).
  unfold DecodeForStorage, storageBytes, storageFields. rewrite !counted_optBytes.
  set (f1 := optBytes _ (be_split _ (Nonce a))). set (f2 := optBytes _ (be_split _ (to_Z (Balance a)))).
  set (f3 := optBytes _ (be_split _ (Incarnation a))). set (f4 := if negb _ then countedHash _ else []).
  set (enc := _ :: _). assert (len enc =? 0 = false) as -> by (apply Z.eqb_neq; unfold len, enc; cbn [length]; lia).
  assert (index enc 0 = Ok (fieldSet a)) as -> by (rewrite <- Hfs; by apply (index_app [])). cbn [mbind outcome_bind].
  change (byte.of_Z (fieldSet a) :: f1 ++ f2 ++ f3 ++ f4) with ([byte.of_Z (fieldSet a)] ++ f1 ++ f2 ++ f3 ++ f4) in enc.
  change 1 with (len [byte.of_Z (fieldSet a)]) at 2.
  rewrite (ifField_run enc _ _ _ _ _ _ _ _ eq_refl F1) by (rewrite len_be_split; lia). fold f1.
  rewrite (ifField_run enc _ _ _ (f3 ++ f4) _ _ _ _ (app_assoc _ _ _) F2) by (rewrite len_be_split; lia). fold f2.
  assert (enc = (([byte.of_Z (fieldSet a)] ++ f1) ++ f2) ++ f3 ++ f4) as He by (unfold enc; by rewrite !app_assoc).
  rewrite (ifField_run enc _ _ _ _ _ _ _ _ He F4) by (rewrite len_be_split; lia). fold f3. rewrite F8.
  rewrite He, (app_assoc _ f3). unfold f4, stored, set_Nonce, set_Balance, set_Incarnation, account_Reset.
  assert (IsZero (Balance a) = true -> Balance a = Clear) as HB by apply IsZero_true.
  destruct (Z.ltb_spec 0 (Nonce a)), (Z.ltb_spec 0 (Incarnation a)), (IsZero (Balance a)),
    (IsEmptyCodeHash emptyCodeHash (CodeHash a)); cbn [negb]; rewrite ?decodeCodeHash_app by done;
    unfold set_CodeHash; cbn [Initialised Nonce Balance Root CodeHash Incarnation];
    rewrite ?bytesToUint64_split, ?SetBytes_split, ?HB by done; unfold is_u64 in *; repeat f_equal; lia.
Qed.

Lemma DecodeIncarnation_spec a : account_ok a ->
  DecodeIncarnationFromStorage (storageBytes a) = Ok (Incarnation a, None).
Proof.
  intros [HN HI _ _]. pose proof (byteLen_u64 _ HN). pose proof (byteLen_u64 _ HI). pose proof (byteLen_256 (Balance a)).
  destruct (fieldSet_bits a) as (Hfs & F1 & F2 & F4 & _).
  unfold DecodeIncarnationFromStorage, storageBytes, storageFields. rewrite !counted_optBytes.
  set (f1 := optBytes _ (be_split _ (Nonce a))). set (f2 := optBytes _ (be_split _ (to_Z (Balance a)))).
  set (f3 := optBytes _ (be_split _ (Incarnation a))). set (f4 := if negb _ then countedHash _ else []).
  set (enc := _ :: _). assert (len enc =? 0 = false) as -> by (apply Z.eqb_neq; unfold len, enc; cbn [length]; lia).
  assert (index enc 0 = Ok (fieldSet a)) as -> by (rewrite <- Hfs; by apply (index_app [])). cbn [mbind outcome_bind].
  change (byte.of_Z (fieldSet a) :: f1 ++ f2 ++ f3 ++ f4) with ([byte.of_Z (fieldSet a)] ++ f1 ++ f2 ++ f3 ++ f4) in enc.
  change 1 with (len [byte.of_Z (fieldSet a)]) at 2.
  rewrite (ifField_run enc _ _ _ _ _ _ _ _ eq_refl F1) by (rewrite len_be_split; lia). fold f1.
  rewrite (ifField_run enc _ _ _ (f3 ++ f4) _ _ _ _ (app_assoc _ _ _) F2) by (rewrite len_be_split; lia). fold f2.
  assert (enc = (([byte.of_Z (fieldSet a)] ++ f1) ++ f2) ++ f3 ++ f4) as He by (unfold enc; by rewrite !app_assoc).
  rewrite (ifField_run enc _ _ _ _ _ _ _ _ He F4) by (rewrite len_be_split; lia).
  unfold is_u64 in *. destruct (Z.ltb_spec 0 (Incarnation a)); [by rewrite bytesToUint64_split|]. do 2 f_equal. lia.
Qed.

(** ** The history *)
Definition v3Bytes a : list Byte.byte :=
  (if negb (Nonce a =? 0) then counted (Nonce a) else [Byte.x00]) ++
  (if negb (IsZero (Balance a)) then counted (to_Z (Balance a)) else [Byte.x00]) ++
  (if negb (IsEmptyCodeHash emptyCodeHash (CodeHash a)) then countedHash (CodeHash a) else [Byte.x00]) ++
  (if negb (Incarnation a =? 0) then counted (Incarnation a) else [Byte.x00]).

Lemma ltb_eqb v : 0 <= v -> (0 <? v) = negb (v =? 0).
Proof. intros Hv. destruct (Z.ltb_spec 0 v), (Z.eqb_spec v 0); cbn; lia. Qed.

Lemma serialisedLength_spec a : account_ok a -> serialisedLength emptyCodeHash a = len (v3Bytes a).
Proof.
  intros [HN HI _ _]. unfold is_u64 in *. unfold serialisedLength, v3Bytes. rewrite !len_app, ByteLen_spec, !ltb_eqb by lia.
  destruct (negb (Nonce a =? 0)), (negb (IsZero (Balance a))), (negb (Incarnation a =? 0)), (negb (IsEmptyCodeHash _ _));
    rewrite ?len_counted, ?len_countedHash; change (len [Byte.x00]) with 1; lia.
Qed.

Lemma putAlways_writes present m bs : writes m bs -> writes (putAlways present m) (if present then bs else [Byte.x00]).
Proof.
  intros Hm. destruct present; [done|]. intros pre mid post Hl. destruct mid as [|x [|]]; [done| |done].
  cbn [putAlways app]. by erewrite M_bind_Ok by by apply put_spec.
Qed.

Lemma SerialiseV3_spec a : account_ok a -> SerialiseV3 emptyCodeHash a = Ok (v3Bytes a).
Proof.
  intros Ha. unfold SerialiseV3. rewrite (serialisedLength_spec a Ha).
  set (value := replicate _ _). assert (len value = len (v3Bytes a)) as Hv.
  { unfold value, len. rewrite length_replicate. lia. }
  clearbody value. unfold v3Bytes in *. rewrite !len_app in Hv.
  match goal with |- (_ ← ?m value; _) = Ok ?b => enough (exists pos, m value = Ok (pos, b)) as (pos & ->) by done end.
  eexists. eapply (writes_run _ _ _ []); [apply putAlways_writes, putUint_writes|exact Hv|auto with ints|]. intros b1 H1.
  eapply writes_run; [apply putAlways_writes, putBalance_writes|exact H1|auto with ints|]. intros b2 H2.
  eapply writes_run; [apply putAlways_writes, putHash_writes|exact H2|auto with ints|]. intros b3 H3.
  rewrite <- (app_nil_r b3) at 1. erewrite putAlways_writes; [|apply putUint_writes|unfold len in H3; lia].
  by rewrite app_nil_r, <- !app_assoc.
Qed.

(** What the decoder reads back of a field. *)
Definition v3Field (present : bool) (body : list Byte.byte) : list Byte.byte :=
  if present then byte.of_Z (len body) :: body else [Byte.x00].

Lemma fieldV3_app {R} enc pre present body post (k : option (list Byte.byte) * Z -> outcome R) :
  enc = pre ++ v3Field present body ++ post -> (present = true -> 0 < len body < 256) ->
  (r ← fieldV3 enc (len pre); k r) = k (if present then Some body else None, len (pre ++ v3Field present body)).
Proof.
  intros -> Hb. unfold fieldV3, v3Field. destruct present.
  - specialize (Hb eq_refl). cbn [app]. rewrite index_app, byte_small by lia. cbn [mbind outcome_bind].
    rewrite (proj2 (Z.ltb_lt 0 _)) by lia. rewrite (cons_middle _ pre), (app_assoc pre), slice_app by (rewrite ?len_snoc; lia).
    cbn [mbind outcome_bind]. do 2 f_equal. rewrite len_app. unfold len. cbn [length]. lia.
  - cbn [app]. rewrite index_app by done. cbn [mbind outcome_bind]. change (0 <? byte.unsigned Byte.x00) with false.
    by rewrite len_snoc.
Qed.

Lemma counted_v3Field (b : bool) v : (if b then counted v else [Byte.x00]) = v3Field b (be_split (Z.to_nat (byteLen v)) v).
Proof.
  destruct b; [|done]. unfold counted, v3Field, len. by rewrite length_be_split, Z2Nat.id by apply byteLen_nonneg.
Qed.

Lemma countedHash_v3Field (b : bool) h : (if b then countedHash h else [Byte.x00]) = v3Field b (hashBytes h).
Proof. destruct b; [|done]. unfold countedHash, v3Field, len. by rewrite length_hashBytes. Qed.

Lemma counted_len v : 0 <= v < 2 ^ 256 -> negb (v =? 0) = true -> 0 < len (be_split (Z.to_nat (byteLen v)) v) < 256.
Proof.
  intros Hv Hz. apply negb_true_iff, Z.eqb_neq in Hz. pose proof (byteLen_pos v). pose proof (byteLen_le v 32).
  rewrite len_be_split. lia.
Qed.

Lemma DeserialiseV3_spec a a0 : account_ok a -> DeserialiseV3 emptyCodeHash a0 (v3Bytes a) = Ok (None, stored a).
Proof.
  intros [HN HI _ HC]. pose proof (to_Z_range (Balance a)) as HB.
  unfold is_u64 in *. unfold DeserialiseV3, v3Bytes. rewrite !counted_v3Field, countedHash_v3Field.
  set (f1 := v3Field _ (be_split _ (Nonce a))). set (f2 := v3Field _ (be_split _ (to_Z (Balance a)))).
  set (f3 := v3Field _ (hashBytes _)). set (f4 := v3Field _ (be_split _ (Incarnation a))). set (enc := f1 ++ _).
  assert (enc = f1 ++ f2 ++ f3 ++ f4) as E1 by done. assert (enc = (f1 ++ f2) ++ f3 ++ f4) as E2 by apply app_assoc.
  assert (enc = ((f1 ++ f2) ++ f3) ++ f4 ++ []) as E3 by (rewrite app_nil_r, E2; apply app_assoc).
  rewrite (fieldV3_app enc [] _ _ _ _ E1) by (apply counted_len; lia). cbn [app]. fold f1.
  rewrite (fieldV3_app enc f1 _ _ _ _ E1) by (rewrite IsZero_spec; by apply counted_len). fold f2.
  rewrite (fieldV3_app enc _ _ _ _ _ E2) by (unfold len; rewrite length_hashBytes; lia). fold f3.
  assert (0 < len f4) by (unfold f4, v3Field, len; case_match; cbn [length]; lia).
  rewrite E3 at 1. rewrite (len_app _ (f4 ++ [])), app_nil_r, (proj2 (Z.leb_gt _ _)) by lia.
  rewrite (fieldV3_app enc _ _ _ _ _ E3) by (apply counted_len; lia).
  assert (IsZero (Balance a) = true -> Balance a = Clear) as HZ by apply IsZero_true.
  unfold stored, set_Nonce, set_Balance, set_CodeHash, set_Incarnation, account_Reset.
  destruct (Z.eqb_spec (Nonce a) 0), (Z.eqb_spec (Incarnation a) 0), (IsZero (Balance a)),
    (IsEmptyCodeHash emptyCodeHash (CodeHash a)); cbn [negb Initialised Nonce Balance Root CodeHash Incarnation];
    rewrite ?bytesToUint64_split, ?SetBytes_split, ?copyHash_hashBytes, ?HZ by (done || unfold is_u64; lia); repeat f_equal; lia.
Qed.

(** ** Hashing *)
Definition rlpNumber (v : Z) : list Byte.byte :=
  if (v <? 128) && negb (v =? 0) then [byte.of_Z v]
  else byte.of_Z (128 + IntLenExcludingHead v) :: be_split (Z.to_nat (IntLenExcludingHead v)) v.

Definition rlpHash (h : hash) : list Byte.byte := byte.of_Z 160 :: hashBytes h.

Definition rlpFields a : list Byte.byte :=
  rlpNumber (Nonce a) ++ rlpNumber (to_Z (Balance a)) ++ rlpHash (Root a) ++ rlpHash (CodeHash a).

Definition rlpBytes a : list Byte.byte := [byte.of_Z 248; byte.of_Z (len (rlpFields a))] ++ rlpFields a.

Lemma IntLen_range v n : 0 <= v < 2 ^ (8 * n) -> 0 <= n -> 0 <= IntLenExcludingHead v <= n.
Proof.
  intros Hv Hn. unfold IntLenExcludingHead. pose proof (byteLen_le v n Hv Hn). pose proof (byteLen_nonneg v). case_match; lia.
Qed.

Lemma len_rlpNumber v : 0 <= v -> len (rlpNumber v) = 1 + IntLenExcludingHead v.
Proof.
  intros Hv. unfold rlpNumber, IntLenExcludingHead. pose proof (byteLen_nonneg v). destruct (Z.ltb_spec v 128), (Z.eqb_spec v 0); cbn [andb negb];
    unfold len; cbn [length]; rewrite ?length_be_split; lia.
Qed.

Lemma len_rlpHash h : len (rlpHash h) = 33.
Proof. unfold len, rlpHash. cbn [length]. by rewrite length_hashBytes. Qed.

Lemma balanceBytes_spec a : balanceBytes a = IntLenExcludingHead (to_Z (Balance a)).
Proof.
  unfold balanceBytes, IntLenExcludingHead. rewrite LtUint64_spec, ByteLen_spec by done. by destruct (_ <? 128).
Qed.

Lemma len_rlpFields a : account_ok a -> 
  len (rlpFields a) = balanceBytes a + IntLenExcludingHead (Nonce a) + 2 + 66 /\ 68 <= len (rlpFields a) <= 108.
Proof.
  intros [HN _ _ _]. pose proof (to_Z_range (Balance a)) as HB. unfold is_u64 in HN.
  pose proof (IntLen_range (Nonce a) 8 HN ltac:(lia)). pose proof (IntLen_range (to_Z (Balance a)) 32 HB ltac:(lia)).
  unfold rlpFields. rewrite !len_app, !len_rlpNumber, !len_rlpHash, balanceBytes_spec by lia. lia.
Qed.

Lemma byteLen_1 v : 1 <= v < 256 -> byteLen v = 1.
Proof. intros Hv. pose proof (byteLen_pos v). pose proof (byteLen_le v 1). lia. Qed.

Lemma EncodingLengthForHashing_spec a : account_ok a -> EncodingLengthForHashing a = len (rlpBytes a).
Proof.
  intros Ha. destruct (len_rlpFields a Ha) as [Hl Hr]. unfold EncodingLengthForHashing, rlpBytes.
  rewrite <- Hl, (proj2 (Z.ltb_ge _ _)), byteLen_1, len_app by lia. done.
Qed.

Lemma putNonceRLP_writes v : 0 <= v -> writes (putNonceRLP v) (rlpNumber v).
Proof.
  intros Hv pre mid post Hm. pose proof (len_rlpNumber v Hv) as Hn. unfold len in Hn at 1. rewrite <- Hm in Hn.
  unfold putNonceRLP. rewrite (len_rlpNumber v Hv). unfold rlpNumber in *. destruct mid as [|x mid]; [case_match; done|].
  destruct ((v <? 128) && negb (v =? 0)) eqn:E.
  - destruct mid; [|done]. cbn [app]. by erewrite M_bind_Ok by by apply put_spec.
  - injection Hm as Hm. rewrite length_be_split in Hm. rewrite M_bind_assoc. cbn [app].
    erewrite M_bind_Ok by by apply put_spec. rewrite (cons_middle _ pre), (app_assoc pre).
    erewrite M_bind_Ok by (apply putBytes_spec; [by rewrite len_snoc|done]). by rewrite <- app_assoc.
Qed.

Lemma putBalanceRLP_writes a : writes (putBalanceRLP a) (rlpNumber (to_Z (Balance a))).
Proof.
  intros pre mid post Hm. pose proof (to_Z_range (Balance a)) as HB. unfold putBalanceRLP, rlpNumber in *. rewrite balanceBytes_spec.
  pose proof (IntLen_range (to_Z (Balance a)) 32 HB ltac:(lia)).
  rewrite LtUint64_spec, IsZero_spec, Uint64_spec by done.
  destruct mid as [|x mid]; [case_match; done|]. destruct ((to_Z (Balance a) <? 128) && negb (to_Z (Balance a) =? 0)) eqn:E.
  - destruct mid; [|done]. cbn [app]. erewrite M_bind_Ok by by apply put_spec. rewrite u64_small; [done|].
    apply andb_prop in E as [E _]. apply Z.ltb_lt in E. unfold is_u64. lia.
  - injection Hm as Hm. rewrite length_be_split in Hm. cbn [app]. erewrite M_bind_Ok by by apply put_spec.
    rewrite (cons_middle _ pre), (app_assoc pre), <- len_snoc with (x := byte.of_Z (128 + IntLenExcludingHead (to_Z (Balance a)))).
    erewrite M_bind_Ok by (apply writeSlice_spec; unfold len; lia).
    rewrite len_snoc, <- app_assoc. cbn [app]. unfold mret, M_ret. do 2 f_equal. unfold len. cbn [length]. rewrite length_be_split. lia.
Qed.

Lemma putHashRLP_writes h : writes (putHashRLP h) (rlpHash h).
Proof.
  intros pre mid post Hm. unfold putHashRLP. destruct mid as [|x mid]; [done|]. injection Hm as Hm.
  cbn [app]. erewrite M_bind_Ok by by apply put_spec.
  rewrite (cons_middle _ pre), (app_assoc pre), <- len_snoc with (x := byte.of_Z (128 + 32)).
  erewrite M_bind_Ok by by apply copyAt_spec. rewrite len_rlpHash, len_snoc, <- app_assoc. unfold mret, M_ret.
  do 2 f_equal. lia.
Qed.

Lemma putStructHead_spec L x y post : 56 <= L < 256 ->
  putStructHead L (x :: y :: post) = Ok (2, [byte.of_Z 248; byte.of_Z L] ++ post).
Proof.
  intros HL. unfold putStructHead. rewrite (proj2 (Z.ltb_ge _ _)), byteLen_1 by lia.
  erewrite M_bind_Ok by by apply (put_spec []). cbn [app].
  erewrite M_bind_Ok by (apply (putBytes_spec 1 L [byte.of_Z 248] [y]); done). done.
Qed.

Lemma EncodeForHashing_spec a buf : account_ok a -> len buf = EncodingLengthForHashing a ->
  EncodeForHashing a buf = Ok (tt, rlpBytes a).
Proof.
  intros Ha. rewrite (EncodingLengthForHashing_spec a Ha). destruct (len_rlpFields a Ha) as [Hl Hr]. unfold rlpBytes. rewrite len_app.
  pose proof (len_nonneg (rlpFields a)). change (len [byte.of_Z 248; byte.of_Z (len (rlpFields a))]) with 2.
  destruct buf as [|x [|y buf]]; [unfold len; cbn [length]; lia..|]. intros Hb.
  assert (len buf = len (rlpFields a)) as Hb' by (unfold len in *; cbn [length] in Hb; lia). clear Hb.
  unfold EncodeForHashing. rewrite <- Hl. erewrite M_bind_Ok by (apply putStructHead_spec; lia).
  set (head := [_; _]). change 2 with (len head). unfold rlpFields in *. rewrite !len_app in Hb'.
  pose proof (to_Z_range (Balance a)). pose proof (ok_Nonce a Ha) as HN. unfold is_u64 in HN.
  eapply writes_run; [apply putNonceRLP_writes; lia|exact Hb'|auto with ints|]. intros b1 H1.
  eapply writes_run; [apply putBalanceRLP_writes|exact H1|auto with ints|]. intros b2 H2.
  eapply writes_run; [apply putHashRLP_writes|exact H2|auto with ints|]. intros b3 H3. rewrite <- (Z.add_0_r (len (rlpHash (CodeHash a)))) in H3.
  eapply writes_run; [apply putHashRLP_writes|exact H3|reflexivity|].
  intros [|] H4; [|unfold len in H4; cbn in H4; lia]. by rewrite app_nil_r, <- !app_assoc.
Qed.

(** Reading the items back. *)
Lemma decodeLength_short pre n post : 0 <= n < 56 ->
  decodeLengthForHashing (pre ++ byte.of_Z (128 + n) :: post) (len pre) = Ok (n, false, len pre + 1).
Proof.
  intros Hn. unfold decodeLengthForHashing. rewrite index_app, byte_small by lia. cbn [mbind outcome_bind].
  rewrite (proj2 (Z.ltb_ge (128 + n) 128)), (proj2 (Z.ltb_lt (128 + n) 184)) by lia. do 3 f_equal. lia.
Qed.

Lemma numberItem_read {R} enc pre v post ifStruct malformed quoting (k : bool -> list Byte.byte -> Z -> outcome R) :
  enc = pre ++ rlpNumber v ++ post -> len enc < 2 ^ 63 -> 0 <= v < 2 ^ 256 ->
  exists single bs, be_combine bs = v /\ len bs <= byteLen v /\ (single = true -> v < 128) /\
    numberItem enc (len pre) ifStruct malformed quoting k = k single bs (len (pre ++ rlpNumber v)).
Proof.
  intros -> Hl Hv. rewrite len_app in *. pose proof (len_nonneg pre). pose proof (len_nonneg post).
  pose proof (IntLen_range v 32 Hv ltac:(lia)) as Hi. unfold numberItem. rewrite len_app in Hl. pose proof (len_rlpNumber v ltac:(lia)) as Hlen.
  unfold rlpNumber in *. destruct ((v <? 128) && negb (v =? 0)) eqn:E.
  - apply andb_prop in E as [E1%Z.ltb_lt E2%negb_true_iff%Z.eqb_neq]. exists true, [byte.of_Z v].
    assert (be_combine [byte.of_Z v] = v) as Hc by (rewrite be_combine_cons, byte_small by lia; change (v * 1 + 0 = v); lia).
    pose proof (byteLen_pos v). unfold decodeLengthForHashing. cbn [app]. rewrite index_app, byte_small by lia. cbn [mbind outcome_bind].
    rewrite (proj2 (Z.ltb_lt v 128)) by lia. cbn [mbind outcome_bind]. rewrite int64_wrap_small, len_app by lia.
    rewrite (proj2 (Z.ltb_ge _ _)) by (change (len (byte.of_Z v :: post)) with (len ([byte.of_Z v] ++ post)); rewrite len_app; change (len [byte.of_Z v]) with 1; lia).
    rewrite !Z.eqb_refl, lookupZ_app by done. cbn. split_and!; [done|unfold len; cbn; lia|done|done].
  - exists false, (be_split (Z.to_nat (IntLenExcludingHead v)) v).
    assert (len (be_split (Z.to_nat (IntLenExcludingHead v)) v) = IntLenExcludingHead v) as Hb by (rewrite len_be_split; lia).
    rewrite (len_app pre), (len_app _ post), Hlen. cbn [app].
    rewrite decodeLength_short by lia. cbn [mbind outcome_bind].
    rewrite int64_wrap_small, (proj2 (Z.ltb_ge _ _)) by lia.
    rewrite (proj2 (Z.eqb_neq (len pre + 1) (len pre))), andb_false_r by lia.
    rewrite (cons_middle _ pre), (app_assoc pre), slice_app by (rewrite ?len_snoc; lia).
    cbn [mbind outcome_bind]. split_and!; [| |done|f_equal; lia].
    + unfold IntLenExcludingHead in *. destruct (Z.ltb_spec v 128); [|apply be_combine_byteLen; lia].
      destruct (Z.eqb_spec v 0) as [->|]; [done|]. by cbn in E.
    + rewrite Hb. unfold IntLenExcludingHead. pose proof (byteLen_nonneg v). case_match; lia.
Qed.

Lemma numberItem_app {R} enc pre v post ifStruct malformed quoting (k : bool -> list Byte.byte -> Z -> outcome R) r :
  enc = pre ++ rlpNumber v ++ post -> len enc < 2 ^ 63 -> 0 <= v < 2 ^ 256 ->
  (forall single bs, be_combine bs = v -> len bs <= byteLen v -> (single = true -> v < 128) ->
     k single bs (len (pre ++ rlpNumber v)) = r) ->
  numberItem enc (len pre) ifStruct malformed quoting k = r.
Proof.
  intros He Hl Hv Hk. destruct (numberItem_read enc pre v post ifStruct malformed quoting k He Hl Hv) as (s & bs & ? & ? & ? & ->).
  by apply Hk.
Qed.

Lemma hashItem_app {R} enc pre h post ifStruct badLength malformed quoting (k : list Byte.byte -> Z -> outcome R) :
  enc = pre ++ rlpHash h ++ post -> len enc < 2 ^ 63 ->
  hashItem enc (len pre) ifStruct badLength malformed quoting k = k (hashBytes h) (len (pre ++ rlpHash h)).
Proof.
  intros -> Hl. rewrite !len_app, len_rlpHash in *. pose proof (len_nonneg pre). pose proof (len_nonneg post).
  unfold hashItem. rewrite !len_app, len_rlpHash. unfold rlpHash. change 160 with (128 + 32). cbn [app].
  rewrite decodeLength_short by lia. cbn [mbind outcome_bind].
  rewrite int64_wrap_small by lia. change (negb (32 =? 32)) with false. cbv iota. rewrite (proj2 (Z.ltb_ge _ _)) by lia.
  rewrite (cons_middle _ pre), (app_assoc pre), slice_app by (rewrite ?len_snoc; unfold len; rewrite ?length_hashBytes; lia).
  cbn [mbind outcome_bind]. f_equal. lia.
Qed.

(** What the hashed form keeps: all but the incarnation. *)
Definition hashed a a0 : Account :=
  mk_Account true (Nonce a) (Balance a) (Root a) (CodeHash a) (Incarnation a0).

Lemma decodeHead L post : 0 <= L < 256 ->
  decodeLengthForHashing ([byte.of_Z 248; byte.of_Z L] ++ post) 0 = Ok (L, true, 2).
Proof.
  intros HL. unfold decodeLengthForHashing. set (enc := _ ++ post).
  assert (index enc 0 = Ok 248) as -> by done.
  assert (index enc 1 = Ok L) as H1.
  { rewrite <- (byte_small L) by done. by apply (index_app [byte.of_Z 248]). }
  clearbody enc. cbn [mbind outcome_bind]. change (Z.to_nat (248 - 247)) with 1%nat. cbn [lengthBytes].
  change (0 + 1) with 1. change (248 <? 128) with false. change (248 <? 184) with false. change (248 <? 192) with false.
  change (248 <? 248) with false. cbv iota. rewrite H1. cbn [mbind outcome_bind]. change (Z.shiftl 0 8) with 0.
  rewrite !int64_wrap_small by (rewrite ?int64_wrap_small; lia). done.
Qed.

Lemma DecodeForHashing_spec a a0 : account_ok a -> DecodeForHashing emptyCodeHash (rlpBytes a) a0 = Ok (None, hashed a a0).
Proof.
  intros Ha. destruct (len_rlpFields a Ha) as [_ Hr]. destruct Ha as [HN _ HR HC]. pose proof (to_Z_range (Balance a)) as HB.
  unfold DecodeForHashing, is_u64 in *. assert (len (rlpBytes a) = 2 + len (rlpFields a)) as Hlen by (unfold rlpBytes; by rewrite len_app).
  assert (decodeLengthForHashing (rlpBytes a) 0 = Ok (len (rlpFields a), true, 2)) as -> by (apply decodeHead; lia). cbn [mbind outcome_bind]. rewrite int64_wrap_small, Hlen, Z.eqb_refl by lia. cbn [negb].
  rewrite (proj2 (Z.eqb_neq (len (rlpFields a)) 0)) by lia. cbn [andb]. unfold rlpFields in *. rewrite !len_app, !len_rlpHash, !len_rlpNumber in * by lia.
  set (head := [byte.of_Z 248; byte.of_Z (len (rlpFields a))]). set (n := rlpNumber (Nonce a)) in *. set (b := rlpNumber (to_Z (Balance a))) in *.
  assert (rlpBytes a = head ++ n ++ b ++ rlpHash (Root a) ++ rlpHash (CodeHash a)) as E1 by done.
  assert (rlpBytes a = (head ++ n) ++ b ++ rlpHash (Root a) ++ rlpHash (CodeHash a)) as E2 by (rewrite E1; apply app_assoc).
  assert (rlpBytes a = ((head ++ n) ++ b) ++ rlpHash (Root a) ++ rlpHash (CodeHash a)) as E3 by (rewrite E2; apply app_assoc).
  assert (rlpBytes a = (((head ++ n) ++ b) ++ rlpHash (Root a)) ++ rlpHash (CodeHash a) ++ []) as E4 by (rewrite app_nil_r, E3; apply app_assoc).
  assert (2 = len head) as Hp by done. assert (len (rlpBytes a) < 2 ^ 63) as Hmax by lia.
  unfold decodeNonce. rewrite (proj2 (Z.ltb_lt 2 _)), Hp by lia.
  apply (numberItem_app _ _ _ _ _ _ _ _ _ E1); [done|lia|]. intros s1 bs1 Hc1 Hl1 Hs1. fold n.
  assert (2 < len (head ++ n) < len (rlpBytes a) /\ len ((head ++ n) ++ b) < len (rlpBytes a) /\
    len (((head ++ n) ++ b) ++ rlpHash (Root a)) < len (rlpBytes a) /\
    len ((((head ++ n) ++ b) ++ rlpHash (Root a)) ++ rlpHash (CodeHash a)) = len (rlpBytes a)) as (L1 & L2 & L3 & L4).
  { rewrite E1, !len_app, !len_rlpHash, <- Hp. pose proof (len_nonneg b). unfold n. rewrite len_rlpNumber by lia.
    pose proof (IntLen_range (Nonce a) 8). lia. }
  unfold decodeBalance. rewrite (proj2 (Z.ltb_lt _ (len (rlpBytes a)))) by lia.
  apply (numberItem_app _ _ _ _ _ _ _ _ _ E2); [done|done|]. intros s2 bs2 Hc2 Hl2 Hs2. fold b.
  unfold decodeRoot. rewrite (proj2 (Z.ltb_lt _ (len (rlpBytes a)))), (hashItem_app _ _ _ _ _ _ _ _ _ E3) by lia.
  unfold decodeCodeHashRLP. rewrite (proj2 (Z.ltb_lt _ (len (rlpBytes a)))), (hashItem_app _ _ _ _ _ _ _ _ _ E4) by lia.
  unfold decodeStorageSize. rewrite L4, Z.ltb_irrefl, !copyHash_hashBytes by done.
  unfold hashed, set_Nonce, set_Balance, set_Root, set_CodeHash. cbn [Initialised Nonce Balance Root CodeHash Incarnation].
  do 3 f_equal.
  - destruct s1; [done|]. pose proof (byteLen_le (Nonce a) 8). pose proof (shiftIn_combine bs1 0). lia.
  - apply to_Z_inj. destruct s2.
    + rewrite to_Z_SetUint64 by (unfold is_u64; specialize (Hs2 eq_refl); lia). done.
    + rewrite to_Z_SetBytes, Hc2. by apply Z.mod_small.
Qed.

(** ** Conversion of the history, and the pooled buffer *)
Lemma IsEmptyCodeHash_stored a :
  IsEmptyCodeHash emptyCodeHash (CodeHash (stored a)) = IsEmptyCodeHash emptyCodeHash (CodeHash a).
Proof.
  cbn. destruct (IsEmptyCodeHash emptyCodeHash (CodeHash a)) eqn:E; [|done]. unfold IsEmptyCodeHash.
  by rewrite bool_decide_true.
Qed.

Lemma storageBytes_stored a : storageBytes (stored a) = storageBytes a.
Proof.
  unfold storageBytes, storageFields, fieldSet. rewrite IsEmptyCodeHash_stored. cbn.
  by destruct (IsEmptyCodeHash emptyCodeHash (CodeHash a)).
Qed.

Lemma ConvertV3toV2_spec a : account_ok a -> ConvertV3toV2 emptyCodeHash (v3Bytes a) = Ok (inl (storageBytes a)).
Proof.
  intros Ha. unfold ConvertV3toV2. rewrite DeserialiseV3_spec by done. cbn [mbind outcome_bind].
  rewrite EncodeForStorage_spec; [cbn; by rewrite storageBytes_stored|]. unfold len. rewrite length_replicate.
  rewrite EncodingLengthForStorage_spec. pose proof (len_nonneg (storageFields (stored a))). lia.
Qed.

Lemma EncodeRLP_spec pooled a : account_ok a -> len pooled = 128 -> EncodeRLP pooled a = Ok (rlpBytes a).
Proof.
  intros Ha Hp. unfold EncodeRLP. pose proof (EncodingLengthForHashing_spec a Ha) as Hl. destruct (len_rlpFields a Ha) as [_ Hr].
  assert (len (rlpBytes a) = 2 + len (rlpFields a)) as Hb by (unfold rlpBytes; by rewrite len_app).
  rewrite (proj2 (Z.ltb_ge 128 _)) by lia. unfold slice. rewrite !(proj2 (Z.leb_le _ _)) by lia. cbn [andb mbind outcome_bind].
  rewrite EncodeForHashing_spec; [done|done|]. unfold len in *. rewrite length_take, length_drop. lia.
Qed.

(** C29: The three encodings of an account and their decoders.  The encoders
    run without panic in a buffer of the length they announce, whatever it
    contains, and so does EncodeRLP with a recycled buffer of the pool.  From
    the bytes of the state table DecodeForStorage restores the account (all
    but the storage root, an account without code with the hash of no code),
    and DecodeIncarnationFromStorage its incarnation; from the hashed bytes
    DecodeForHashing restores all but the incarnation; from the bytes of the
    history DeserialiseV3 restores what the state table keeps, and
    ConvertV3toV2 makes the bytes of the state table. *)
Theorem account_roundtrips a a0 buf1 buf2 pooled :
  account_ok a -> len buf1 = EncodingLengthForStorage emptyCodeHash a -> len buf2 = EncodingLengthForHashing a ->
  len pooled = 128 ->
  exists table rlp v3,
    EncodeForStorage emptyCodeHash a buf1 = Ok (tt, table) /\
    DecodeForStorage emptyCodeHash table a0 = Ok (None, stored a) /\
    DecodeIncarnationFromStorage table = Ok (Incarnation a, None) /\
    EncodeForHashing a buf2 = Ok (tt, rlp) /\ EncodeRLP pooled a = Ok rlp /\
    DecodeForHashing emptyCodeHash rlp a0 = Ok (None, hashed a a0) /\
    SerialiseV3 emptyCodeHash a = Ok v3 /\ DeserialiseV3 emptyCodeHash a0 v3 = Ok (None, stored a) /\
    ConvertV3toV2 emptyCodeHash v3 = Ok (inl table).
Proof.
  intros Ha H1 H2 Hp. exists (storageBytes a), (rlpBytes a), (v3Bytes a).
  split; [by apply EncodeForStorage_spec|]. split; [by apply DecodeForStorage_spec|]. split; [by apply DecodeIncarnation_spec|].
  split; [by apply EncodeForHashing_spec|]. split; [by apply EncodeRLP_spec|]. split; [by apply DecodeForHashing_spec|].
  split; [by apply SerialiseV3_spec|]. split; [by apply DeserialiseV3_spec|by apply ConvertV3toV2_spec].
Qed.
End account.

(** * A concrete account *)
Module accountdemo.
#[global] Instance bytes256 : Uint256Bytes U256 := {
  ByteLen x := byteLen (to_Z x);
  WriteToSlice x dest := be_split (length dest) (to_Z x);
  ByteLen_spec x := eq_refl;
  WriteToSlice_spec x dest _ := eq_refl
}.

(** Keccak-256 of nothing. *)
Definition noCode : hash := 0xc5d2460186f7233c927e7db2dcc703c0e500b653ca82273b7bfad8045d85a470%N.

Definition rich : Account := mk_Account false 300 (w (2 ^ 70 + 5)) EmptyRoot 0xabcdef%N 2.

Lemma account_roundtrips_witness :
  exists table rlp v3,
    EncodeForStorage noCode rich (replicate 49 Byte.xff) = Ok (tt, table) /\
    DecodeForStorage noCode table (NewAccount noCode) = Ok (None, stored noCode rich) /\
    DecodeIncarnationFromStorage table = Ok (Incarnation rich, None) /\
    EncodeForHashing rich (replicate 81 Byte.xff) = Ok (tt, rlp) /\ EncodeRLP (replicate 128 Byte.xff) rich = Ok rlp /\
    DecodeForHashing noCode rlp (NewAccount noCode) = Ok (None, hashed rich (NewAccount noCode)) /\
    SerialiseV3 noCode rich = Ok v3 /\ DeserialiseV3 noCode (NewAccount noCode) v3 = Ok (None, stored noCode rich) /\
    ConvertV3toV2 noCode v3 = Ok (inl table).
Proof.
  apply (account_roundtrips noCode rich (NewAccount noCode) (replicate 49 Byte.xff) (replicate 81 Byte.xff)
    (replicate 128 Byte.xff)); [|vm_compute; reflexivity..].
  split; [unfold is_u64; cbn; lia..|vm_compute; reflexivity|vm_compute; reflexivity].
Defined.

(** An item that is longer than its list: the code finds the error, and then
    panics while it quotes the item.  A truncated entry of the state table
    panics before any check. *)
Definition panics {A} (o : outcome A) : bool := match o with Panic => true | _ => false end.

Example malformed_panics :
  panics (DecodeForHashing noCode [Byte.xc1; Byte.x83] (NewAccount noCode)) = true /\
  panics (DecodeForHashing noCode [Byte.xc1; Byte.xc5] (NewAccount noCode)) = true /\
  panics (DecodeForStorage noCode [Byte.x01] (NewAccount noCode)) = true /\
  panics (DecodeForStorage noCode [Byte.x01; Byte.x05] (NewAccount noCode)) = false.
Proof. vm_compute. repeat split; reflexivity. Qed.
End accountdemo.
