(* ===== verification/OpCodes.v ===== *)
(** core/vm/opcodes.go and params/protocol_params.go: the opcodes, their names
    and the lookups between the two; and the constants that core/vm charges and
    checks against, which are untyped or uint64 constants and so integers. *)
From S2P Require Import Prelude.
#[local] Open Scope Z_scope.

Module Op.

(** An OpCode is a byte. *)
Abbreviation OpCode := Z (only parsing).

Definition STOP : OpCode := 0x00.
Definition ADD : OpCode := 0x01.
Definition MUL : OpCode := 0x02.
Definition SUB : OpCode := 0x03.
Definition DIV : OpCode := 0x04.
Definition SDIV : OpCode := 0x05.
Definition MOD : OpCode := 0x06.
Definition SMOD : OpCode := 0x07.
Definition ADDMOD : OpCode := 0x08.
Definition MULMOD : OpCode := 0x09.
Definition EXP : OpCode := 0x0a.
Definition SIGNEXTEND : OpCode := 0x0b.
Definition LT : OpCode := 0x10.
Definition GT : OpCode := 0x11.
Definition SLT : OpCode := 0x12.
Definition SGT : OpCode := 0x13.
Definition EQ : OpCode := 0x14.
Definition ISZERO : OpCode := 0x15.
Definition AND : OpCode := 0x16.
Definition OR : OpCode := 0x17.
Definition XOR : OpCode := 0x18.
Definition NOT : OpCode := 0x19.
Definition BYTE : OpCode := 0x1a.
Definition SHL : OpCode := 0x1b.
Definition SHR : OpCode := 0x1c.
Definition SAR : OpCode := 0x1d.
Definition KECCAK256 : OpCode := 0x20.
Definition ADDRESS : OpCode := 0x30.
Definition BALANCE : OpCode := 0x31.
Definition ORIGIN : OpCode := 0x32.
Definition CALLER : OpCode := 0x33.
Definition CALLVALUE : OpCode := 0x34.
Definition CALLDATALOAD : OpCode := 0x35.
Definition CALLDATASIZE : OpCode := 0x36.
Definition CALLDATACOPY : OpCode := 0x37.
Definition CODESIZE : OpCode := 0x38.
Definition CODECOPY : OpCode := 0x39.
Definition GASPRICE : OpCode := 0x3a.
Definition EXTCODESIZE : OpCode := 0x3b.
Definition EXTCODECOPY : OpCode := 0x3c.
Definition RETURNDATASIZE : OpCode := 0x3d.
Definition RETURNDATACOPY : OpCode := 0x3e.
Definition EXTCODEHASH : OpCode := 0x3f.
Definition BLOCKHASH : OpCode := 0x40.
Definition COINBASE : OpCode := 0x41.
Definition TIMESTAMP : OpCode := 0x42.
Definition NUMBER : OpCode := 0x43.
Definition DIFFICULTY : OpCode := 0x44.
Definition GASLIMIT : OpCode := 0x45.
Definition CHAINID : OpCode := 0x46.
Definition SELFBALANCE : OpCode := 0x47.
Definition BASEFEE : OpCode := 0x48.
Definition POP : OpCode := 0x50.
Definition MLOAD : OpCode := 0x51.
Definition MSTORE : OpCode := 0x52.
Definition MSTORE8 : OpCode := 0x53.
Definition SLOAD : OpCode := 0x54.
Definition SSTORE : OpCode := 0x55.
Definition JUMP : OpCode := 0x56.
Definition JUMPI : OpCode := 0x57.
Definition PC : OpCode := 0x58.
Definition MSIZE : OpCode := 0x59.
Definition GAS : OpCode := 0x5a.
Definition JUMPDEST : OpCode := 0x5b.
Definition PUSH0 : OpCode := 0x5f.
Definition PUSH1 : OpCode := 0x60.
Definition PUSH2 : OpCode := 0x61.
Definition PUSH3 : OpCode := 0x62.
Definition PUSH4 : OpCode := 0x63.
Definition PUSH5 : OpCode := 0x64.
Definition PUSH6 : OpCode := 0x65.
Definition PUSH7 : OpCode := 0x66.
Definition PUSH8 : OpCode := 0x67.
Definition PUSH9 : OpCode := 0x68.
Definition PUSH10 : OpCode := 0x69.
Definition PUSH11 : OpCode := 0x6a.
Definition PUSH12 : OpCode := 0x6b.
Definition PUSH13 : OpCode := 0x6c.
Definition PUSH14 : OpCode := 0x6d.
Definition PUSH15 : OpCode := 0x6e.
Definition PUSH16 : OpCode := 0x6f.
Definition PUSH17 : OpCode := 0x70.
Definition PUSH18 : OpCode := 0x71.
Definition PUSH19 : OpCode := 0x72.
Definition PUSH20 : OpCode := 0x73.
Definition PUSH21 : OpCode := 0x74.
Definition PUSH22 : OpCode := 0x75.
Definition PUSH23 : OpCode := 0x76.
Definition PUSH24 : OpCode := 0x77.
Definition PUSH25 : OpCode := 0x78.
Definition PUSH26 : OpCode := 0x79.
Definition PUSH27 : OpCode := 0x7a.
Definition PUSH28 : OpCode := 0x7b.
Definition PUSH29 : OpCode := 0x7c.
Definition PUSH30 : OpCode := 0x7d.
Definition PUSH31 : OpCode := 0x7e.
Definition PUSH32 : OpCode := 0x7f.
Definition DUP1 : OpCode := 0x80.
Definition DUP2 : OpCode := 0x81.
Definition DUP3 : OpCode := 0x82.
Definition DUP4 : OpCode := 0x83.
Definition DUP5 : OpCode := 0x84.
Definition DUP6 : OpCode := 0x85.
Definition DUP7 : OpCode := 0x86.
Definition DUP8 : OpCode := 0x87.
Definition DUP9 : OpCode := 0x88.
Definition DUP10 : OpCode := 0x89.
Definition DUP11 : OpCode := 0x8a.
Definition DUP12 : OpCode := 0x8b.
Definition DUP13 : OpCode := 0x8c.
Definition DUP14 : OpCode := 0x8d.
Definition DUP15 : OpCode := 0x8e.
Definition DUP16 : OpCode := 0x8f.
Definition SWAP1 : OpCode := 0x90.
Definition SWAP2 : OpCode := 0x91.
Definition SWAP3 : OpCode := 0x92.
Definition SWAP4 : OpCode := 0x93.
Definition SWAP5 : OpCode := 0x94.
Definition SWAP6 : OpCode := 0x95.
Definition SWAP7 : OpCode := 0x96.
Definition SWAP8 : OpCode := 0x97.
Definition SWAP9 : OpCode := 0x98.
Definition SWAP10 : OpCode := 0x99.
Definition SWAP11 : OpCode := 0x9a.
Definition SWAP12 : OpCode := 0x9b.
Definition SWAP13 : OpCode := 0x9c.
Definition SWAP14 : OpCode := 0x9d.
Definition SWAP15 : OpCode := 0x9e.
Definition SWAP16 : OpCode := 0x9f.
Definition LOG0 : OpCode := 0xa0.
Definition LOG1 : OpCode := 0xa1.
Definition LOG2 : OpCode := 0xa2.
Definition LOG3 : OpCode := 0xa3.
Definition LOG4 : OpCode := 0xa4.
Definition CREATE : OpCode := 0xf0.
Definition CALL : OpCode := 0xf1.
Definition CALLCODE : OpCode := 0xf2.
Definition RETURN : OpCode := 0xf3.
Definition DELEGATECALL : OpCode := 0xf4.
Definition CREATE2 : OpCode := 0xf5.
Definition STATICCALL : OpCode := 0xfa.
Definition REVERT : OpCode := 0xfd.
Definition INVALID : OpCode := 0xfe.
Definition SELFDESTRUCT : OpCode := 0xff.

Definition IsPush (op : OpCode) : bool := (PUSH1 <=? op) && (op <=? PUSH32).

Definition IsStaticJump (op : OpCode) : bool := op =? JUMP.

(** The Go map literals, as association lists in source order. *)
Definition opCodeToString : list (OpCode * string) := [
  (STOP, "STOP"); (ADD, "ADD"); (MUL, "MUL"); (SUB, "SUB"); (DIV, "DIV"); (SDIV, "SDIV"); (MOD, "MOD");
  (SMOD, "SMOD"); (EXP, "EXP"); (NOT, "NOT"); (LT, "LT"); (GT, "GT"); (SLT, "SLT"); (SGT, "SGT");
  (EQ, "EQ"); (ISZERO, "ISZERO"); (SIGNEXTEND, "SIGNEXTEND"); (AND, "AND"); (OR, "OR"); (XOR, "XOR");
  (BYTE, "BYTE"); (SHL, "SHL"); (SHR, "SHR"); (SAR, "SAR"); (ADDMOD, "ADDMOD"); (MULMOD, "MULMOD");
  (KECCAK256, "KECCAK256"); (ADDRESS, "ADDRESS"); (BALANCE, "BALANCE"); (ORIGIN, "ORIGIN");
  (CALLER, "CALLER"); (CALLVALUE, "CALLVALUE"); (CALLDATALOAD, "CALLDATALOAD");
  (CALLDATASIZE, "CALLDATASIZE"); (CALLDATACOPY, "CALLDATACOPY"); (CODESIZE, "CODESIZE");
  (CODECOPY, "CODECOPY"); (GASPRICE, "GASPRICE"); (EXTCODESIZE, "EXTCODESIZE");
  (EXTCODECOPY, "EXTCODECOPY"); (RETURNDATASIZE, "RETURNDATASIZE"); (RETURNDATACOPY, "RETURNDATACOPY");
  (EXTCODEHASH, "EXTCODEHASH"); (BLOCKHASH, "BLOCKHASH"); (COINBASE, "COINBASE"); (TIMESTAMP, "TIMESTAMP");
  (NUMBER, "NUMBER"); (DIFFICULTY, "DIFFICULTY"); (GASLIMIT, "GASLIMIT"); (CHAINID, "CHAINID");
  (SELFBALANCE, "SELFBALANCE"); (BASEFEE, "BASEFEE"); (POP, "POP"); (MLOAD, "MLOAD"); (MSTORE, "MSTORE");
  (MSTORE8, "MSTORE8"); (SLOAD, "SLOAD"); (SSTORE, "SSTORE"); (JUMP, "JUMP"); (JUMPI, "JUMPI"); (PC, "PC");
  (MSIZE, "MSIZE"); (GAS, "GAS"); (JUMPDEST, "JUMPDEST"); (PUSH0, "PUSH0"); (PUSH1, "PUSH1");
  (PUSH2, "PUSH2"); (PUSH3, "PUSH3"); (PUSH4, "PUSH4"); (PUSH5, "PUSH5"); (PUSH6, "PUSH6");
  (PUSH7, "PUSH7"); (PUSH8, "PUSH8"); (PUSH9, "PUSH9"); (PUSH10, "PUSH10"); (PUSH11, "PUSH11");
  (PUSH12, "PUSH12"); (PUSH13, "PUSH13"); (PUSH14, "PUSH14"); (PUSH15, "PUSH15"); (PUSH16, "PUSH16");
  (PUSH17, "PUSH17"); (PUSH18, "PUSH18"); (PUSH19, "PUSH19"); (PUSH20, "PUSH20"); (PUSH21, "PUSH21");
  (PUSH22, "PUSH22"); (PUSH23, "PUSH23"); (PUSH24, "PUSH24"); (PUSH25, "PUSH25"); (PUSH26, "PUSH26");
  (PUSH27, "PUSH27"); (PUSH28, "PUSH28"); (PUSH29, "PUSH29"); (PUSH30, "PUSH30"); (PUSH31, "PUSH31");
  (PUSH32, "PUSH32"); (DUP1, "DUP1"); (DUP2, "DUP2"); (DUP3, "DUP3"); (DUP4, "DUP4"); (DUP5, "DUP5");
  (DUP6, "DUP6"); (DUP7, "DUP7"); (DUP8, "DUP8"); (DUP9, "DUP9"); (DUP10, "DUP10"); (DUP11, "DUP11");
  (DUP12, "DUP12"); (DUP13, "DUP13"); (DUP14, "DUP14"); (DUP15, "DUP15"); (DUP16, "DUP16");
  (SWAP1, "SWAP1"); (SWAP2, "SWAP2"); (SWAP3, "SWAP3"); (SWAP4, "SWAP4"); (SWAP5, "SWAP5");
  (SWAP6, "SWAP6"); (SWAP7, "SWAP7"); (SWAP8, "SWAP8"); (SWAP9, "SWAP9"); (SWAP10, "SWAP10");
  (SWAP11, "SWAP11"); (SWAP12, "SWAP12"); (SWAP13, "SWAP13"); (SWAP14, "SWAP14"); (SWAP15, "SWAP15");
  (SWAP16, "SWAP16"); (LOG0, "LOG0"); (LOG1, "LOG1"); (LOG2, "LOG2"); (LOG3, "LOG3"); (LOG4, "LOG4");
  (CREATE, "CREATE"); (CALL, "CALL"); (RETURN, "RETURN"); (CALLCODE, "CALLCODE");
  (DELEGATECALL, "DELEGATECALL"); (CREATE2, "CREATE2"); (STATICCALL, "STATICCALL"); (REVERT, "REVERT");
  (INVALID, "INVALID"); (SELFDESTRUCT, "SELFDESTRUCT")
]%string.

Definition stringToOp : list (string * OpCode) := [
  ("STOP", STOP); ("ADD", ADD); ("MUL", MUL); ("SUB", SUB); ("DIV", DIV); ("SDIV", SDIV); ("MOD", MOD);
  ("SMOD", SMOD); ("EXP", EXP); ("NOT", NOT); ("LT", LT); ("GT", GT); ("SLT", SLT); ("SGT", SGT);
  ("EQ", EQ); ("ISZERO", ISZERO); ("SIGNEXTEND", SIGNEXTEND); ("AND", AND); ("OR", OR); ("XOR", XOR);
  ("BYTE", BYTE); ("SHL", SHL); ("SHR", SHR); ("SAR", SAR); ("ADDMOD", ADDMOD); ("MULMOD", MULMOD);
  ("KECCAK256", KECCAK256); ("ADDRESS", ADDRESS); ("BALANCE", BALANCE); ("ORIGIN", ORIGIN);
  ("CALLER", CALLER); ("CALLVALUE", CALLVALUE); ("CALLDATALOAD", CALLDATALOAD);
  ("CALLDATASIZE", CALLDATASIZE); ("CALLDATACOPY", CALLDATACOPY); ("CHAINID", CHAINID);
  ("BASEFEE", BASEFEE); ("DELEGATECALL", DELEGATECALL); ("STATICCALL", STATICCALL); ("CODESIZE", CODESIZE);
  ("CODECOPY", CODECOPY); ("GASPRICE", GASPRICE); ("EXTCODESIZE", EXTCODESIZE);
  ("EXTCODECOPY", EXTCODECOPY); ("RETURNDATASIZE", RETURNDATASIZE); ("RETURNDATACOPY", RETURNDATACOPY);
  ("EXTCODEHASH", EXTCODEHASH); ("BLOCKHASH", BLOCKHASH); ("COINBASE", COINBASE); ("TIMESTAMP", TIMESTAMP);
  ("NUMBER", NUMBER); ("DIFFICULTY", DIFFICULTY); ("GASLIMIT", GASLIMIT); ("SELFBALANCE", SELFBALANCE);
  ("POP", POP); ("MLOAD", MLOAD); ("MSTORE", MSTORE); ("MSTORE8", MSTORE8); ("SLOAD", SLOAD);
  ("SSTORE", SSTORE); ("JUMP", JUMP); ("JUMPI", JUMPI); ("PC", PC); ("MSIZE", MSIZE); ("GAS", GAS);
  ("JUMPDEST", JUMPDEST); ("PUSH0", PUSH0); ("PUSH1", PUSH1); ("PUSH2", PUSH2); ("PUSH3", PUSH3);
  ("PUSH4", PUSH4); ("PUSH5", PUSH5); ("PUSH6", PUSH6); ("PUSH7", PUSH7); ("PUSH8", PUSH8);
  ("PUSH9", PUSH9); ("PUSH10", PUSH10); ("PUSH11", PUSH11); ("PUSH12", PUSH12); ("PUSH13", PUSH13);
  ("PUSH14", PUSH14); ("PUSH15", PUSH15); ("PUSH16", PUSH16); ("PUSH17", PUSH17); ("PUSH18", PUSH18);
  ("PUSH19", PUSH19); ("PUSH20", PUSH20); ("PUSH21", PUSH21); ("PUSH22", PUSH22); ("PUSH23", PUSH23);
  ("PUSH24", PUSH24); ("PUSH25", PUSH25); ("PUSH26", PUSH26); ("PUSH27", PUSH27); ("PUSH28", PUSH28);
  ("PUSH29", PUSH29); ("PUSH30", PUSH30); ("PUSH31", PUSH31); ("PUSH32", PUSH32); ("DUP1", DUP1);
  ("DUP2", DUP2); ("DUP3", DUP3); ("DUP4", DUP4); ("DUP5", DUP5); ("DUP6", DUP6); ("DUP7", DUP7);
  ("DUP8", DUP8); ("DUP9", DUP9); ("DUP10", DUP10); ("DUP11", DUP11); ("DUP12", DUP12); ("DUP13", DUP13);
  ("DUP14", DUP14); ("DUP15", DUP15); ("DUP16", DUP16); ("SWAP1", SWAP1); ("SWAP2", SWAP2);
  ("SWAP3", SWAP3); ("SWAP4", SWAP4); ("SWAP5", SWAP5); ("SWAP6", SWAP6); ("SWAP7", SWAP7);
  ("SWAP8", SWAP8); ("SWAP9", SWAP9); ("SWAP10", SWAP10); ("SWAP11", SWAP11); ("SWAP12", SWAP12);
  ("SWAP13", SWAP13); ("SWAP14", SWAP14); ("SWAP15", SWAP15); ("SWAP16", SWAP16); ("LOG0", LOG0);
  ("LOG1", LOG1); ("LOG2", LOG2); ("LOG3", LOG3); ("LOG4", LOG4); ("CREATE", CREATE); ("CREATE2", CREATE2);
  ("CALL", CALL); ("RETURN", RETURN); ("CALLCODE", CALLCODE); ("REVERT", REVERT); ("INVALID", INVALID);
  ("SELFDESTRUCT", SELFDESTRUCT)
]%string.

(** A map read: [None] is a missing key. *)
Fixpoint assoc {K V} (eqb : K -> K -> bool) (l : list (K * V)) (k : K) : option V :=
  match l with
  | [] => None
  | (k', v) :: l => if eqb k k' then Some v else assoc eqb l k
  end.

(** [%x] of a byte. *)
Definition hex_digit (n : Z) : string :=
  default ""%string (["0"; "1"; "2"; "3"; "4"; "5"; "6"; "7"; "8"; "9"; "a"; "b"; "c"; "d"; "e"; "f"]%string
    !! Z.to_nat n).

Definition hex_byte (n : Z) : string :=
  (if (n <? 16)%Z then hex_digit n else hex_digit (n / 16) +:+ hex_digit (n mod 16))%string.

Definition String (op : OpCode) : string :=
  let str := default ""%string (assoc Z.eqb opCodeToString op) in
  if (String.length str =? 0)%nat
  then ("opcode 0x" +:+ hex_byte op +:+ " not defined")%string
  else str.

Definition StringToOp (str : string) : OpCode := default 0 (assoc String.eqb stringToOp str).

Lemma assoc_Some {K V} (eqb : K -> K -> bool) (l : list (K * V)) k v :
  (forall x y, eqb x y = true -> x = y) -> assoc eqb l k = Some v -> (k, v) ∈ l.
Proof.
  intros Heqb. induction l as [|[k' v'] l IH]; simpl; [done|].
  destruct (eqb k k') eqn:E; [intros [= ->]|right; by apply IH].
  apply Heqb in E. subst. by left.
Qed.

(** The opcodes the table names. *)
Definition defined (op : OpCode) : bool := isSome (assoc Z.eqb opCodeToString op).

Definition bytes_all : list Z := Z.of_nat <$> seq 0 256.

Lemma bytes_all_elem op : 0 <= op < 256 -> op ∈ bytes_all.
Proof.
  intros. unfold bytes_all. rewrite list_elem_of_fmap. exists (Z.to_nat op).
  split; [lia|]. apply elem_of_seq. lia.
Qed.

Lemma forall_bytes (P : Z -> bool) op :
  forallb P bytes_all = true -> 0 <= op < 256 -> P op = true.
Proof.
  intros H Hop. rewrite List.forallb_forall in H. apply H, list_elem_of_In.
  by apply bytes_all_elem.
Qed.

(** The finite checks behind the round trips, one boolean each. *)
Definition entry_ok (p : string * OpCode) : bool := (String p.2 =? p.1)%string.

Definition named_ok (op : OpCode) : bool := negb (defined op) || (StringToOp (String op) =? op).

Definition unnamed_ok (op : OpCode) : bool :=
  defined op || negb (isSome (assoc String.eqb stringToOp (String op))).

Lemma entry_ok_all : forallb entry_ok stringToOp = true.
Proof. vm_compute. reflexivity. Qed.

Lemma named_ok_all : forallb named_ok bytes_all = true.
Proof. vm_compute. reflexivity. Qed.

Lemma unnamed_ok_all : forallb unnamed_ok bytes_all = true.
Proof. vm_compute. reflexivity. Qed.

(** Every entry of [stringToOp] is an entry of [opCodeToString], reversed. *)
Lemma stringToOp_sound str op : (str, op) ∈ stringToOp -> String op = str.
Proof.
  intros H%list_elem_of_In. pose proof entry_ok_all as Hall.
  rewrite List.forallb_forall in Hall. apply Hall in H. by apply String.eqb_eq in H.
Qed.

Lemma String_defined op :
  0 <= op < 256 -> defined op = true -> StringToOp (String op) = op.
Proof.
  intros Hop Hd. pose proof (forall_bytes named_ok op named_ok_all Hop) as H.
  unfold named_ok in H. rewrite Hd in H. by apply Z.eqb_eq in H.
Qed.

Lemma String_undefined op :
  0 <= op < 256 -> defined op = false -> assoc String.eqb stringToOp (String op) = None.
Proof.
  intros Hop Hd. pose proof (forall_bytes unnamed_ok op unnamed_ok_all Hop) as H.
  unfold unnamed_ok in H. rewrite Hd in H. apply isSome_false. by apply negb_true_iff in H.
Qed.

(** The names of the opcodes and the opcodes determine each other.
    Every byte that has a name parses back to itself; every string that
    parses to a byte other than the zero value prints as that string; and
    the text printed for a byte without a name parses to no opcode. *)
Theorem StringToOp_String op str :
  (0 <= op < 256 -> defined op = true -> StringToOp (String op) = op) /\
  (StringToOp str <> STOP -> String (StringToOp str) = str) /\
  (0 <= op < 256 -> defined op = false -> assoc String.eqb stringToOp (String op) = None).
Proof.
  split_and!; [apply String_defined| |apply String_undefined].
  unfold StringToOp at 1 2. destruct (assoc String.eqb stringToOp str) as [op'|] eqn:E; [|done].
  intros _. apply stringToOp_sound, (assoc_Some String.eqb); [|exact E].
  intros. by apply String.eqb_eq.
Qed.

Lemma StringToOp_String_witness :
  StringToOp (String SSTORE) = SSTORE /\ String (StringToOp "SWAP7") = "SWAP7"%string.
Proof.
  split.
  - apply (StringToOp_String SSTORE ""); vm_compute; [split; congruence|reflexivity].
  - apply (StringToOp_String 0 "SWAP7"). vm_compute. congruence.
Defined.
End Op.

Module params.
Definition CallValueTransferGas : Z := 9000.
Definition CallNewAccountGas : Z := 25000.
Definition QuadCoeffDiv : Z := 512.
Definition LogDataGas : Z := 8.
Definition CallStipend : Z := 2300.
Definition Keccak256Gas : Z := 30.
Definition Keccak256WordGas : Z := 6.
Definition InitCodeWordGas : Z := 2.
Definition SstoreSetGas : Z := 20000.
Definition SstoreResetGas : Z := 5000.
Definition SstoreClearGas : Z := 5000.
Definition SstoreRefundGas : Z := 15000.
Definition NetSstoreNoopGas : Z := 200.
Definition NetSstoreInitGas : Z := 20000.
Definition NetSstoreCleanGas : Z := 5000.
Definition NetSstoreDirtyGas : Z := 200.
Definition NetSstoreClearRefund : Z := 15000.
Definition NetSstoreResetRefund : Z := 4800.
Definition NetSstoreResetClearRefund : Z := 19800.
Definition SstoreSentryGasEIP2200 : Z := 2300.
Definition SstoreSetGasEIP2200 : Z := 20000.
Definition SstoreResetGasEIP2200 : Z := 5000.
Definition SstoreClearsScheduleRefundEIP2200 : Z := 15000.
Definition ColdAccountAccessCostEIP2929 : Z := 2600.
Definition ColdSloadCostEIP2929 : Z := 2100.
Definition WarmStorageReadCostEIP2929 : Z := 100.
Definition TxAccessListStorageKeyGas : Z := 1900.
Definition SstoreClearsScheduleRefundEIP3529 : Z := SstoreResetGasEIP2200 - ColdSloadCostEIP2929 + TxAccessListStorageKeyGas.
Definition JumpdestGas : Z := 1.
Definition CreateDataGas : Z := 200.
Definition CallCreateDepth : Z := 1024.
Definition ExpGas : Z := 10.
Definition LogGas : Z := 375.
Definition CopyGas : Z := 3.
Definition StackLimit : Z := 1024.
Definition LogTopicGas : Z := 375.
Definition CreateGas : Z := 32000.
Definition Create2Gas : Z := 32000.
Definition SelfdestructRefundGas : Z := 24000.
Definition MemoryGas : Z := 3.
Definition CallGasFrontier : Z := 40.
Definition CallGasEIP150 : Z := 700.
Definition BalanceGasFrontier : Z := 20.
Definition BalanceGasEIP150 : Z := 400.
Definition BalanceGasEIP1884 : Z := 700.
Definition ExtcodeSizeGasFrontier : Z := 20.
Definition ExtcodeSizeGasEIP150 : Z := 700.
Definition SloadGasFrontier : Z := 50.
Definition SloadGasEIP150 : Z := 200.
Definition SloadGasEIP1884 : Z := 800.
Definition SloadGasEIP2200 : Z := 800.
Definition ExtcodeHashGasConstantinople : Z := 400.
Definition ExtcodeHashGasEIP1884 : Z := 700.
Definition SelfdestructGasEIP150 : Z := 5000.
Definition ExpByteFrontier : Z := 10.
Definition ExpByteEIP160 : Z := 50.
Definition ExtcodeCopyBaseFrontier : Z := 20.
Definition ExtcodeCopyBaseEIP150 : Z := 700.
Definition CreateBySelfdestructGas : Z := 25000.
Definition RefundQuotient : Z := 2.
Definition RefundQuotientEIP3529 : Z := 5.
Definition MaxCodeSize : Z := 24576.
Definition MaxInitCodeSize : Z := 2 * MaxCodeSize.
End params.
