(* ===== verification/Machine.v ===== *)
(** The data one EVM frame works on: the errors of core/vm/errors.go, the
    operand stack (stack/stack.go), the memory (memory.go), the helpers of
    common.go, the 63/64 rule (gas.go), the memory price (memoryGasCost of
    gas_table.go) and the memory sizes the instructions ask for
    (memory_table.go).

    A function that can end in a Go run-time panic returns an [option], with
    [None] for the panic. *)
From S2P Require Import Prelude Uint256 OpCodes.
#[local] Open Scope Z_scope.

(** * errors.go *)

(** [ErrOther] stands for the errors the package builds in place. *)
Inductive EvmError :=
| ErrInvalidSubroutineEntry
| ErrOutOfGas
| ErrCodeStoreOutOfGas
| ErrDepth
| ErrInsufficientBalance
| ErrContractAddressCollision
| ErrExecutionReverted
| ErrMaxCodeSizeExceeded
| ErrInvalidJump
| ErrWriteProtection
| ErrReturnDataOutOfBounds
| ErrGasUintOverflow
| ErrInvalidRetsub
| ErrReturnStackExceeded
| ErrInvalidCode
| ErrNonceUintOverflow
| errStopToken
| ErrStackUnderflow (stackLen required : Z)
| ErrStackOverflow (stackLen limit : Z)
| ErrInvalidOpCode (opcode : Z)
| ErrOther (msg : string).

#[export] Instance EvmError_eq_dec : EqDecision EvmError.
Proof. solve_decision. Defined.

(** A Go pair [(value, error)] of which the caller looks at one part only. *)
Abbreviation result A := (A + EvmError)%type.

(** * erigon-lib/common/math, which the sources call but do not contain *)
Class LibMath := {
  SafeAdd : Z -> Z -> Z * bool;
  SafeMul : Z -> Z -> Z * bool
}.

(** What that package documents: the result and whether it overflowed. *)
Class LibMathSpec (L : LibMath) := {
  SafeAdd_spec x y : is_u64 x -> is_u64 y -> SafeAdd x y = (u64 (x + y), 2 ^ 64 <=? x + y);
  SafeMul_spec x y : is_u64 x -> is_u64 y -> SafeMul x y = (u64 (x * y), 2 ^ 64 <=? x * y)
}.

#[export] Instance lib_math : LibMath := {|
  SafeAdd x y := (u64 (x + y), 2 ^ 64 <=? x + y);
  SafeMul x y := (u64 (x * y), 2 ^ 64 <=? x * y)
|}.

#[export] Instance lib_math_spec : LibMathSpec lib_math.
Proof. by split. Qed.

(** The pattern [if z, overflow = SafeAdd(x, y); overflow { return 0, ErrGasUintOverflow }]. *)
Definition checked (r : Z * bool) : result Z :=
  if r.2 then inr ErrGasUintOverflow else inl r.1.

(** * stack/stack.go *)

(** [Data] is represented top first: [st.Data[st.Len()-1-i]] is element [i].
    The pool only recycles stacks that were emptied, so [New] is []. *)
Section stack.
Context {U : Uint256}.

Abbreviation Stack := (list u256).

Definition Push (d : u256) (st : Stack) : Stack := d :: st.

Definition Pop (st : Stack) : option (u256 * Stack) :=
  match st with [] => None | x :: st => Some (x, st) end.

Definition Peek (st : Stack) : option u256 := st !! 0%nat.

(** Back returns the n'th item in stack. *)
Definition Back (n : nat) (st : Stack) : option u256 := st !! n.

(** An assignment through the pointer [Peek] returned. *)
Definition SetTop (v : u256) (st : Stack) : option Stack :=
  match st with [] => None | _ :: st => Some (v :: st) end.

(** Swap exchanges the top with the [n]'th item, counted from 1. *)
Definition Swap (n : nat) (st : Stack) : option Stack :=
  match n with
  | O => None
  | S i => x ← st !! i; y ← st !! 0%nat; Some (<[0%nat := x]> (<[i := y]> st))
  end.

Definition Dup (n : nat) (st : Stack) : option Stack :=
  match n with
  | O => None
  | S i => x ← st !! i; Some (Push x st)
  end.

Definition Len (st : Stack) : Z := Z.of_nat (length st).

End stack.
Abbreviation Stack := (list u256).

(** * memory.go *)
Record Memory := mk_Memory { store : list Byte.byte; lastGasCost : Z }.

Definition NewMemory : Memory := mk_Memory [] 0.

Definition set_store (v : list Byte.byte) (m : Memory) : Memory := mk_Memory v (lastGasCost m).

Definition set_lastGasCost (v : Z) (m : Memory) : Memory := mk_Memory (store m) v.

Definition mem_Len (m : Memory) : Z := Z.of_nat (length (store m)).

(** The Go slice expression [l[lo:hi]].  Go checks [hi] against the capacity
    of [l]; the model refuses everything beyond its length. *)
Definition slice {A} (l : list A) (lo hi : Z) : option (list A) :=
  if (0 <=? lo) && (lo <=? hi) && (hi <=? Z.of_nat (length l))
  then Some (take (Z.to_nat (hi - lo)) (drop (Z.to_nat lo) l)) else None.

(** The Go statement [copy(l[lo:hi], v)]. *)
Definition copy_at {A} (l : list A) (lo hi : Z) (v : list A) : option (list A) :=
  if (0 <=? lo) && (lo <=? hi) && (hi <=? Z.of_nat (length l))
  then let v := take (Z.to_nat (hi - lo)) v in
       Some (take (Z.to_nat lo) l ++ v ++ drop (Z.to_nat lo + length v) l)
  else None.

Definition Set_ (offset size : Z) (value : list Byte.byte) (m : Memory) : option Memory :=
  if 0 <? size then
    if mem_Len m <? u64_add offset size then None
    else s ← copy_at (store m) offset (u64_add offset size) value; Some (set_store s m)
  else Some m.

(** [WriteToSlice] writes the 32 bytes of the value, most significant first. *)
Definition Set32 `{Uint256} (offset : Z) (val : u256) (m : Memory) : option Memory :=
  if mem_Len m <? u64_add offset 32 then None
  else
    s ← copy_at (store m) offset (u64_add offset 32) (replicate 32 Byte.x00);
    s ← copy_at s offset (mem_Len m) (Bytes32 val);
    Some (set_store s m).

Definition Resize (size : Z) (m : Memory) : Memory :=
  if mem_Len m <? size
  then set_store (store m ++ replicate (Z.to_nat (size - mem_Len m)) Byte.x00) m else m.

(** [offset] and [size] are int64; [make] panics on a negative length. *)
Definition GetCopy (offset size : Z) (m : Memory) : option (list Byte.byte) :=
  if size =? 0 then Some []
  else if offset <? mem_Len m then
    if size <? 0 then None
    else src ← slice (store m) offset (mem_Len m);
         Some (take (Z.to_nat size) src ++
               replicate (Z.to_nat size - length src) Byte.x00)
  else Some [].

Definition GetPtr (offset size : Z) (m : Memory) : option (list Byte.byte) :=
  if size =? 0 then Some []
  else if offset <? mem_Len m
  then slice (store m) offset (int64_of_u64 (u64 (offset + size)))
  else Some [].

(** The assignment [m.store[i] = b]. *)
Definition SetByte (i : Z) (b : Byte.byte) (m : Memory) : option Memory :=
  if (0 <=? i) && (i <? mem_Len m)
  then Some (set_store (<[Z.to_nat i := b]> (store m)) m) else None.

(** * common.go *)
Section common.
Context {U : Uint256}.

Definition calcMemSize64WithUint (off : u256) (length64 : Z) : Z * bool :=
  if length64 =? 0 then (0, false)
  else
    let '(offset64, overflow) := Uint64WithOverflow off in
    if (overflow : bool) then (0, true)
    else let val := u64_add offset64 length64 in (val, val <? offset64).

Definition calcMemSize64 (off l : u256) : Z * bool :=
  if negb (IsUint64 l) then (0, true) else calcMemSize64WithUint off (Uint64 l).

(** common.RightPadBytes (common/bytes.go). *)
Definition RightPadBytes (sl : list Byte.byte) (l : Z) : list Byte.byte :=
  if l <=? Z.of_nat (length sl) then sl
  else sl ++ replicate (Z.to_nat l - length sl) Byte.x00.

Definition getData (data : list Byte.byte) (start size : Z) : option (list Byte.byte) :=
  let len := Z.of_nat (length data) in
  let start := if len <? start then len else start in
  let fin := u64_add start size in
  let fin := if len <? fin then len else fin in
  s ← slice data start fin; Some (RightPadBytes s (int64_of_u64 size)).

Definition getDataBig (data : list Byte.byte) (start : u256) (size : Z) : option (list Byte.byte) :=
  let '(start64, overflow) := Uint64WithOverflow start in
  let start64 := if (overflow : bool) then MaxUint64 else start64 in
  getData data start64 size.

Definition ToWordSize (size : Z) : Z :=
  if MaxUint64 - 31 <? size then MaxUint64 / 32 + 1 else (size + 31) / 32.

(** * gas.go *)
Definition GasQuickStep : Z := 2.
Definition GasFastestStep : Z := 3.
Definition GasFastStep : Z := 5.
Definition GasMidStep : Z := 8.
Definition GasSlowStep : Z := 10.
Definition GasExtStep : Z := 20.

Definition callGas (isEip150 : bool) (availableGas base : Z) (callCost : u256) : result Z :=
  let legacy :=
    if negb (IsUint64 callCost) then inr ErrGasUintOverflow else inl (Uint64 callCost) in
  if isEip150 then
    let availableGas := u64_sub availableGas base in
    let gas := u64_sub availableGas (availableGas / 64) in
    if negb (IsUint64 callCost) || (gas <? Uint64 callCost) then inl gas else legacy
  else legacy.

(** memoryGasCost of gas_table.go; the memory is returned because the call
    records the total fee in it. *)
Definition memoryGasCost (mem : Memory) (newMemSize : Z) : result Z * Memory :=
  if newMemSize =? 0 then (inl 0, mem)
  else if 0x1FFFFFFFE0 <? newMemSize then (inr ErrGasUintOverflow, mem)
  else
    let newMemSizeWords := ToWordSize newMemSize in
    let newMemSize := u64_mul newMemSizeWords 32 in
    if mem_Len mem <? newMemSize then
      let square := u64_mul newMemSizeWords newMemSizeWords in
      let linCoef := u64_mul newMemSizeWords params.MemoryGas in
      let quadCoef := square / params.QuadCoeffDiv in
      let newTotalFee := u64_add linCoef quadCoef in
      let fee := u64_sub newTotalFee (lastGasCost mem) in
      (inl fee, set_lastGasCost newTotalFee mem)
    else (inl 0, mem).
End common.

(** * memory_table.go *)

(** The functions a table entry can name as its [memorySize]. *)
Inductive memorySizeFunc :=
| memoryKeccak256 | memoryCallDataCopy | memoryReturnDataCopy | memoryCodeCopy
| memoryExtCodeCopy | memoryMLoad | memoryMStore8 | memoryMStore | memoryCreate
| memoryCreate2 | memoryCall | memoryDelegateCall | memoryStaticCall | memoryReturn
| memoryRevert | memoryLog.

#[export] Instance memorySizeFunc_eq_dec : EqDecision memorySizeFunc.
Proof. solve_decision. Defined.

Section memory_table.
Context {U : Uint256}.
Implicit Types stack : Stack.

(** The body most of the functions share: the region [off, off+len). *)
Definition region (off len : nat) (stack : Stack) : option (Z * bool) :=
  o ← Back off stack; l ← Back len stack; Some (calcMemSize64 o l).

Definition region_fixed (off : nat) (len : Z) (stack : Stack) : option (Z * bool) :=
  o ← Back off stack; Some (calcMemSize64WithUint o len).

(** The body of the call variants: the larger of the output and the input
    region. *)
Definition two_regions (retOff retLen inOff inLen : nat) (stack : Stack) : option (Z * bool) :=
  '(x, overflow) ← region retOff retLen stack;
  if (overflow : bool) then Some (0, true)
  else
    '(y, overflow) ← region inOff inLen stack;
    if (overflow : bool) then Some (0, true)
    else if y <? x then Some (x, false) else Some (y, false).

Definition memorySize (f : memorySizeFunc) (stack : Stack) : option (Z * bool) :=
  match f with
  | memoryKeccak256 => region 0 1 stack
  | memoryCallDataCopy => region 0 2 stack
  | memoryReturnDataCopy => region 0 2 stack
  | memoryCodeCopy => region 0 2 stack
  | memoryExtCodeCopy => region 1 3 stack
  | memoryMLoad => region_fixed 0 32 stack
  | memoryMStore8 => region_fixed 0 1 stack
  | memoryMStore => region_fixed 0 32 stack
  | memoryCreate => region 1 2 stack
  | memoryCreate2 => region 1 2 stack
  | memoryCall => two_regions 5 6 3 4 stack
  | memoryDelegateCall => two_regions 4 5 2 3 stack
  | memoryStaticCall => two_regions 4 5 2 3 stack
  | memoryReturn => region 0 1 stack
  | memoryRevert => region 0 1 stack
  | memoryLog => region 0 1 stack
  end.
End memory_table.
