(* ===== verification/MachineSpec.v ===== *)
(** What the pieces of Machine promise: sizes and gas prices do not overflow,
    memory is charged by the quadratic formula, and what is written to memory
    is what is read back. *)
From S2P Require Import Prelude Uint256 OpCodes Machine.
#[local] Open Scope Z_scope.

(** * Slices *)
Lemma slice_Some {A} (l : list A) lo hi :
  0 <= lo <= hi -> hi <= Z.of_nat (length l) ->
  slice l lo hi = Some (take (Z.to_nat (hi - lo)) (drop (Z.to_nat lo) l)).
Proof.
  intros. unfold slice.
  rewrite (proj2 (Z.leb_le 0 lo)), (proj2 (Z.leb_le lo hi)),
    (proj2 (Z.leb_le hi _)) by lia. done.
Qed.

Lemma length_slice {A} (l r : list A) lo hi :
  slice l lo hi = Some r -> Z.of_nat (length r) = hi - lo.
Proof.
  unfold slice. destruct (0 <=? lo) eqn:E1, (lo <=? hi) eqn:E2,
    (hi <=? Z.of_nat (length l)) eqn:E3; try done. intros [= <-].
  rewrite length_take, length_drop. lia.
Qed.

Lemma copy_at_Some {A} (l : list A) lo hi v :
  0 <= lo <= hi -> hi <= Z.of_nat (length l) ->
  copy_at l lo hi v =
    Some (take (Z.to_nat lo) l ++ take (Z.to_nat (hi - lo)) v ++
          drop (Z.to_nat lo + length (take (Z.to_nat (hi - lo)) v)) l).
Proof.
  intros. unfold copy_at.
  rewrite (proj2 (Z.leb_le 0 lo)), (proj2 (Z.leb_le lo hi)),
    (proj2 (Z.leb_le hi _)) by lia. done.
Qed.

Lemma length_copy_at {A} (l r : list A) lo hi v :
  copy_at l lo hi v = Some r -> length r = length l.
Proof.
  unfold copy_at. destruct (0 <=? lo) eqn:E1, (lo <=? hi) eqn:E2,
    (hi <=? Z.of_nat (length l)) eqn:E3; try done. intros [= <-].
  rewrite !length_app, length_drop, !length_take. lia.
Qed.

(** Overwriting [k] elements and reading them back, or reading elsewhere. *)
Lemma splice_lookup {A} (l v : list A) (i j : nat) :
  (i + length v <= length l)%nat ->
  (take i l ++ v ++ drop (i + length v) l) !! j =
    if decide (i <= j < i + length v)%nat then v !! (j - i)%nat else l !! j.
Proof.
  intros. case_decide.
  - rewrite lookup_app_r by (rewrite length_take; lia). rewrite length_take.
    rewrite lookup_app_l by lia. f_equal. lia.
  - destruct (decide (j < i)%nat).
    + rewrite lookup_app_l by (rewrite length_take; lia). by apply lookup_take_lt.
    + rewrite lookup_app_r by (rewrite length_take; lia). rewrite length_take.
      rewrite lookup_app_r by lia. rewrite lookup_drop. f_equal. lia.
Qed.

Lemma take_drop_splice {A} (l v : list A) (i : nat) :
  (i + length v <= length l)%nat ->
  take (length v) (drop i (take i l ++ v ++ drop (i + length v) l)) = v.
Proof.
  intros. rewrite drop_app_length' by (rewrite length_take; lia).
  by rewrite take_app_length.
Qed.

(** * Sizes *)
Section sizes.
Context {U : Uint256} {US : Uint256Spec U}.

Lemma calcMemSize64WithUint_spec off n :
  is_u64 n ->
  calcMemSize64WithUint off n =
    if n =? 0 then (0, false)
    else if to_Z off + n <? 2 ^ 64 then (to_Z off + n, false)
    else if to_Z off <? 2 ^ 64 then (to_Z off + n - 2 ^ 64, true) else (0, true).
Proof.
  intros [? ?]. unfold calcMemSize64WithUint. destruct (Z.eqb_spec n 0); [done|].
  rewrite Uint64WithOverflow_spec. pose proof (to_Z_range off).
  destruct (Z.leb_spec (2 ^ 64) (to_Z off)).
  { rewrite (proj2 (Z.ltb_ge (to_Z off + n) _)), (proj2 (Z.ltb_ge (to_Z off) _)) by lia. done. }
  rewrite (u64_small (to_Z off)) by (unfold is_u64; lia).
  rewrite (proj2 (Z.ltb_lt (to_Z off) _)) by lia.
  destruct (Z.ltb_spec (to_Z off + n) (2 ^ 64)).
  - rewrite u64_add_small by (unfold is_u64; lia). f_equal. apply Z.ltb_ge. lia.
  - assert (u64_add (to_Z off) n = to_Z off + n - 2 ^ 64) as ->.
    { unfold u64_add, u64. symmetry. apply Z.mod_unique_pos with 1; lia. }
    f_equal. apply Z.ltb_lt. lia.
Qed.

(** The size an instruction asks for, when it does not overflow: 0 for an
    empty region, the end of the region otherwise. *)
Definition region_end (off l : Z) : Z := if l =? 0 then 0 else off + l.

Lemma calcMemSize64_ok off l v :
  calcMemSize64 off l = (v, false) ->
  v = region_end (to_Z off) (to_Z l) /\ is_u64 v /\ to_Z l < 2 ^ 64 /\
  (to_Z l <> 0 -> to_Z off + to_Z l < 2 ^ 64).
Proof.
  unfold calcMemSize64, region_end. destruct (IsUint64 l) eqn:E; [|done]. simpl.
  rewrite (Uint64_IsUint64 l) by done. rewrite IsUint64_spec, Z.ltb_lt in E.
  pose proof (to_Z_range l). pose proof (to_Z_range off).
  rewrite calcMemSize64WithUint_spec by (unfold is_u64; lia).
  destruct (Z.eqb_spec (to_Z l) 0) as [e|?].
  { intros [= <-]. split; [done|]. unfold is_u64. split_and!; lia. }
  destruct (Z.ltb_spec (to_Z off + to_Z l) (2 ^ 64)).
  - intros [= <-]. split; [done|]. unfold is_u64. split_and!; lia.
  - by destruct (to_Z off <? 2 ^ 64).
Qed.

Lemma calcMemSize64WithUint_ok off n v :
  is_u64 n -> 0 < n ->
  calcMemSize64WithUint off n = (v, false) -> v = to_Z off + n /\ is_u64 v.
Proof.
  intros Hn ?. rewrite calcMemSize64WithUint_spec by done. pose proof (to_Z_range off).
  destruct (Z.eqb_spec n 0); [lia|]. destruct (Z.ltb_spec (to_Z off + n) (2 ^ 64)).
  - intros [= <-]. split; [done|]. unfold is_u64. lia.
  - by destruct (to_Z off <? 2 ^ 64).
Qed.

Lemma ToWordSize_spec size : is_u64 size -> ToWordSize size = (size + 31) / 32.
Proof.
  intros [? ?]. unfold ToWordSize, MaxUint64. destruct (Z.ltb_spec (2 ^ 64 - 1 - 31) size); [|done].
  change ((2 ^ 64 - 1) / 32 + 1) with (2 ^ 59).
  apply Z.div_unique with (size + 31 - 2 ^ 64); lia.
Qed.

Lemma ToWordSize_bound size : is_u64 size -> 0 <= ToWordSize size <= 2 ^ 59.
Proof.
  intros Hs. rewrite ToWordSize_spec by done. destruct Hs. split.
  - apply Z.div_pos; lia.
  - change (2 ^ 59) with ((2 ^ 64 + 31) / 32). apply Z.div_le_mono; lia.
Qed.

Lemma ToWordSize_covers size : is_u64 size -> size <= ToWordSize size * 32 < size + 32.
Proof.
  intros Hs. rewrite ToWordSize_spec by done.
  pose proof (Z.div_mod (size + 31) 32 ltac:(lia)).
  pose proof (Z.mod_pos_bound (size + 31) 32 ltac:(lia)). lia.
Qed.
End sizes.

(** * The price of memory *)

(** The yellow paper's cost of [w] words of memory. *)
Definition cmem (w : Z) : Z := 3 * w + w * w / 512.

Lemma cmem_mono w w' : 0 <= w <= w' -> cmem w <= cmem w'.
Proof.
  intros. unfold cmem. assert (w * w / 512 <= w' * w' / 512); [|lia].
  apply Z.div_le_mono; nia.
Qed.

Lemma cmem_bound w : 0 <= w <= 0xFFFFFFFF -> 0 <= cmem w < 2 ^ 56.
Proof.
  intros. split.
  - apply (cmem_mono 0 w). lia.
  - apply Z.le_lt_trans with (cmem 0xFFFFFFFF); [apply cmem_mono; lia|done].
Qed.

(** Memory between instructions: whole words, paid for in full. *)
Definition mem_ok (m : Memory) : Prop :=
  exists w, 0 <= w <= 0xFFFFFFFF /\ mem_Len m = 32 * w /\ lastGasCost m = cmem w.

Lemma mem_ok_New : mem_ok NewMemory.
Proof. exists 0. by split_and!. Qed.

Lemma mem_Len_Resize n m : mem_Len (Resize n m) = Z.max n (mem_Len m).
Proof.
  unfold Resize. destruct (Z.ltb_spec (mem_Len m) n); [|lia].
  unfold mem_Len, set_store. simpl. rewrite length_app, length_replicate. unfold mem_Len in *. lia.
Qed.

Lemma memoryGasCost_spec m w n :
  0 <= w -> mem_Len m = 32 * w -> lastGasCost m = cmem w -> 0 < n <= 0x1FFFFFFFE0 ->
  memoryGasCost m n =
    if w <? ToWordSize n
    then (inl (cmem (ToWordSize n) - cmem w), set_lastGasCost (cmem (ToWordSize n)) m)
    else (inl 0, m).
Proof.
  intros Hw Hlen Hlast Hn. unfold memoryGasCost.
  rewrite (proj2 (Z.eqb_neq n 0)), (proj2 (Z.ltb_ge _ n)) by lia.
  assert (is_u64 n) as Hu by (unfold is_u64; lia).
  assert (0 <= ToWordSize n <= 0xFFFFFFFF) as Hnw.
  { rewrite ToWordSize_spec by done. split; [apply Z.div_pos; lia|].
    change 0xFFFFFFFF with ((0x1FFFFFFFE0 + 31) / 32). apply Z.div_le_mono; lia. }
  generalize dependent (ToWordSize n). intros nw Hnw.
  rewrite (u64_mul_small nw 32) by lia. rewrite Hlen.
  destruct (Z.ltb_spec w nw), (Z.ltb_spec (32 * w) (nw * 32)); try lia; [|done].
  pose proof (cmem_bound nw Hnw). pose proof (cmem_mono w nw ltac:(lia)).
  pose proof (cmem_mono 0 w ltac:(lia)). change (cmem 0) with 0 in *.
  rewrite (u64_mul_small nw nw) by nia.
  rewrite (u64_mul_small nw params.MemoryGas) by (unfold params.MemoryGas; lia).
  assert (u64_add (nw * params.MemoryGas) (nw * nw / params.QuadCoeffDiv) = cmem nw) as ->.
  { unfold u64_add. replace (nw * params.MemoryGas + _) with (cmem nw)
      by (unfold cmem, params.MemoryGas, params.QuadCoeffDiv; lia).
    apply u64_small. unfold is_u64. lia. }
  rewrite Hlast, u64_sub_small by (unfold is_u64; lia). done.
Qed.

Lemma lookup_Resize n m i :
  store (Resize n m) !! i =
    match store m !! i with
    | Some b => Some b
    | None => if Z.of_nat i <? n then Some Byte.x00 else None
    end.
Proof.
  unfold Resize, mem_Len. destruct (store m !! i) as [b|] eqn:Ei.
  - case_match; [|done]. simpl. by apply lookup_app_l_Some.
  - apply lookup_ge_None in Ei. destruct (Z.ltb_spec (Z.of_nat (length (store m))) n); simpl.
    + rewrite lookup_app_r by lia. destruct (Z.ltb_spec (Z.of_nat i) n).
      * apply lookup_replicate_2. lia.
      * apply lookup_ge_None_2. rewrite length_replicate. lia.
    + rewrite (proj2 (Z.ltb_ge (Z.of_nat i) n)) by lia. by apply lookup_ge_None_2.
Qed.

Lemma lastGasCost_Resize n m : lastGasCost (Resize n m) = lastGasCost m.
Proof. unfold Resize. by case_match. Qed.

Lemma memoryGasCost_grow m nw :
  mem_ok m -> 0 <= nw ->
  if nw <=? 0xFFFFFFFF then
    exists fee m', memoryGasCost m (32 * nw) = (inl fee, m') /\
      mem_ok (Resize (32 * nw) m') /\
      fee = cmem (Z.max nw (mem_Len m / 32)) - cmem (mem_Len m / 32) /\
      forall i, store (Resize (32 * nw) m') !! i =
        match store m !! i with
        | Some b => Some b
        | None => if Z.of_nat i <? 32 * nw then Some Byte.x00 else None
        end
  else memoryGasCost m (32 * nw) = (inr ErrGasUintOverflow, m).
Proof.
  intros (w & Hw & Hlen & Hlast) Hnw. destruct (Z.leb_spec nw 0xFFFFFFFF) as [Hle|Hgt].
  2: { unfold memoryGasCost. rewrite (proj2 (Z.eqb_neq _ 0)), (proj2 (Z.ltb_lt _ _)) by lia. done. }
  assert (mem_Len m / 32 = w) as -> by (rewrite Hlen, Z.mul_comm; apply Z.div_mul; lia).
  assert (forall m', store m' = store m -> lastGasCost m' = cmem (Z.max nw w) ->
    mem_ok (Resize (32 * nw) m')) as Hok.
  { intros m' Es El. exists (Z.max nw w). rewrite mem_Len_Resize, lastGasCost_Resize.
    unfold mem_Len in *. rewrite Es. split_and!; [lia..|done]. }
  destruct (Z.eq_dec nw 0) as [->|Hn0].
  { exists 0, m. rewrite Z.max_r in * by lia. split_and!; [done|by apply Hok|lia|].
    intros i. apply lookup_Resize. }
  rewrite (memoryGasCost_spec m w) by (lia || done).
  assert (ToWordSize (32 * nw) = nw) as ->.
  { rewrite ToWordSize_spec by (unfold is_u64; lia). symmetry. apply Z.div_unique with 31; lia. }
  destruct (Z.ltb_spec w nw).
  - eexists _, _. split; [done|]. rewrite Z.max_l in * by lia.
    split_and!; [by apply Hok|done|]. intros i. rewrite lookup_Resize. done.
  - exists 0, m. rewrite Z.max_r in * by lia. split_and!; [done|by apply Hok|lia|].
    intros i. apply lookup_Resize.
Qed.

(** Memory is charged by the quadratic formula and nothing else.  From a
    memory that is paid for in full, growing it to a whole number of words
    costs exactly the difference of the two totals, without overflow; the
    memory is paid for in full again after [Resize], keeps its contents and
    is zero beyond them; a request above the limit is refused and leaves the
    memory alone. *)
Theorem memoryGasCost_Resize m nw :
  mem_ok m -> 0 <= nw ->
  if nw <=? 0xFFFFFFFF then
    exists fee m', memoryGasCost m (32 * nw) = (inl fee, m') /\
      mem_ok (Resize (32 * nw) m') /\
      fee = cmem (Z.max nw (mem_Len m / 32)) - cmem (mem_Len m / 32) /\
      forall i, store (Resize (32 * nw) m') !! i =
        match store m !! i with
        | Some b => Some b
        | None => if Z.of_nat i <? 32 * nw then Some Byte.x00 else None
        end
  else memoryGasCost m (32 * nw) = (inr ErrGasUintOverflow, m).
Proof. apply memoryGasCost_grow. Qed.

Lemma memoryGasCost_Resize_witness :
  (exists m', memoryGasCost NewMemory (32 * 1024) = (inl 5120, m') /\ mem_ok (Resize (32 * 1024) m')) /\
  memoryGasCost NewMemory (32 * 2 ^ 32) = (inr ErrGasUintOverflow, NewMemory).
Proof.
  split.
  - destruct (memoryGasCost_Resize NewMemory 1024 mem_ok_New ltac:(lia)) as (fee & m' & E & Hok & -> & _).
    exists m'. split; [exact E|exact Hok].
  - exact (memoryGasCost_Resize NewMemory (2 ^ 32) mem_ok_New ltac:(lia)).
Defined.

(** * Reading and writing memory *)
Section memory.
Implicit Types (m : Memory) (v : list Byte.byte).

Lemma length_Set_ o n v m m' : Set_ o n v m = Some m' -> mem_Len m' = mem_Len m.
Proof.
  unfold Set_. destruct (0 <? n); [|by intros [= ->]]. case_match; [done|].
  destruct (copy_at _ _ _ _) as [s|] eqn:E; [|done]. intros [= <-].
  apply length_copy_at in E. unfold mem_Len. simpl. congruence.
Qed.

Lemma Set__spec o n v m :
  0 <= o -> 0 <= n < 2 ^ 63 -> (n <> 0 -> o + n <= mem_Len m < 2 ^ 63) ->
  exists m', Set_ o n v m = Some m' /\ lastGasCost m' = lastGasCost m /\
    mem_Len m' = mem_Len m /\
    forall i, store m' !! i =
      if decide (o <= Z.of_nat i < o + Z.min n (Z.of_nat (length v)))
      then v !! (i - Z.to_nat o)%nat else store m !! i.
Proof.
  intros Ho Hn Hlen. unfold Set_. destruct (Z.ltb_spec 0 n) as [Hpos|].
  2: { exists m. split_and!; [done..|]. intros i. rewrite decide_False by lia. done. }
  specialize (Hlen ltac:(lia)). rewrite u64_add_small by (unfold is_u64; lia).
  rewrite (proj2 (Z.ltb_ge (mem_Len m) (o + n))) by lia.
  assert (Z.of_nat (length (store m)) = mem_Len m) as Hml by done.
  rewrite copy_at_Some by lia. eexists. split; [done|]. cbn [lastGasCost set_store store].
  assert (length (take (Z.to_nat (o + n - o)) v) = Z.to_nat (Z.min n (Z.of_nat (length v)))) as Hl
    by (rewrite length_take; lia).
  split_and!; [done| |].
  - unfold mem_Len. cbn [store set_store]. rewrite !length_app, length_drop, Hl, length_take. lia.
  - intros i. rewrite splice_lookup by lia. rewrite Hl.
    destruct (decide (o <= Z.of_nat i < o + Z.min n (Z.of_nat (length v)))).
    + rewrite decide_True by lia. apply lookup_take_lt. lia.
    + by rewrite decide_False by lia.
Qed.

Lemma GetPtr_spec o n m :
  0 <= o -> 0 <= n < 2 ^ 63 -> (n <> 0 -> o + n <= mem_Len m < 2 ^ 63) ->
  GetPtr o n m = Some (take (Z.to_nat n) (drop (Z.to_nat o) (store m))).
Proof.
  intros Ho Hn Hlen. unfold GetPtr. destruct (Z.eqb_spec n 0) as [->|Hn0]; [done|].
  specialize (Hlen Hn0). rewrite (proj2 (Z.ltb_lt o _)) by lia.
  rewrite u64_small by (unfold is_u64; lia).
  unfold int64_of_u64. rewrite (proj2 (Z.ltb_lt (o + n) _)) by lia.
  assert (Z.of_nat (length (store m)) = mem_Len m) by done.
  rewrite slice_Some by lia. do 3 f_equal. lia.
Qed.

Lemma GetCopy_spec o n m :
  0 <= o -> 0 <= n < 2 ^ 63 -> (n <> 0 -> o + n <= mem_Len m < 2 ^ 63) ->
  GetCopy o n m = Some (take (Z.to_nat n) (drop (Z.to_nat o) (store m))).
Proof.
  intros Ho Hn Hlen. unfold GetCopy. destruct (Z.eqb_spec n 0) as [->|Hn0]; [done|].
  specialize (Hlen Hn0). rewrite (proj2 (Z.ltb_lt o _)), (proj2 (Z.ltb_ge n 0)) by lia.
  assert (Z.of_nat (length (store m)) = mem_Len m) as Hl by done.
  rewrite slice_Some by lia. cbn [mbind option_bind].
  assert (take (Z.to_nat (mem_Len m - o)) (drop (Z.to_nat o) (store m)) = drop (Z.to_nat o) (store m))
    as -> by (apply take_ge; rewrite length_drop; lia).
  rewrite length_drop. replace (Z.to_nat n - _)%nat with O by lia. by rewrite app_nil_r.
Qed.

Lemma Set32_spec {U : Uint256} {US : Uint256Spec U} o (val : u256) m :
  0 <= o -> o + 32 <= mem_Len m < 2 ^ 63 ->
  exists m', Set32 o val m = Some m' /\ lastGasCost m' = lastGasCost m /\
    store m' = take (Z.to_nat o) (store m) ++ Bytes32 val ++ drop (Z.to_nat o + 32) (store m).
Proof.
  intros Ho Hlen. unfold Set32. rewrite u64_add_small by (unfold is_u64; lia).
  rewrite (proj2 (Z.ltb_ge (mem_Len m) (o + 32))) by lia.
  assert (Z.of_nat (length (store m)) = mem_Len m) as Hl by done.
  assert (length (Bytes32 val) = 32%nat) as Hb by (rewrite Bytes32_spec; apply length_be_split).
  assert (length (replicate 32 Byte.x00) = 32%nat) as Hz by apply length_replicate.
  revert Hz. generalize (replicate 32 Byte.x00). intros z Hz.
  rewrite copy_at_Some by lia. replace (Z.to_nat (o + 32 - o)) with 32%nat by lia.
  rewrite (take_ge z), Hz by lia. set (s := take _ _ ++ z ++ _).
  assert (length s = length (store m)) as Hls.
  { unfold s. rewrite !length_app, length_drop, length_take. lia. }
  cbn [mbind option_bind]. rewrite copy_at_Some by lia.
  rewrite (take_ge (Bytes32 val)) by lia. rewrite Hb. cbn [mbind option_bind].
  eexists. split; [done|]. split; [done|]. cbn [store set_store].
  unfold s. f_equal; [|f_equal].
  - by rewrite take_app_length' by (rewrite length_take; lia).
  - rewrite app_assoc, drop_app_length'; [done|].
    rewrite length_app, length_take. lia.
Qed.
End memory.

Section roundtrip.
Context {U : Uint256} {US : Uint256Spec U}.

(** Memory returns what was stored in it.  A word stored by [Set32] is
    the word [GetPtr] and [SetBytes] load from the same offset; a byte string
    stored by [Set] is what [GetPtr] and [GetCopy] read back; and neither
    write changes a byte outside its range or the size of the memory. *)
Theorem memory_roundtrip m o (val : u256) v :
  0 <= o -> mem_Len m < 2 ^ 63 ->
  (o + 32 <= mem_Len m ->
   exists m', Set32 o val m = Some m' /\ mem_Len m' = mem_Len m /\
     (SetBytes <$> GetPtr o 32 m') = Some val /\
     forall i, ~ (o <= Z.of_nat i < o + 32) -> store m' !! i = store m !! i) /\
  (o + Z.of_nat (length v) <= mem_Len m ->
   exists m', Set_ o (Z.of_nat (length v)) v m = Some m' /\ mem_Len m' = mem_Len m /\
     GetPtr o (Z.of_nat (length v)) m' = Some v /\
     GetCopy o (Z.of_nat (length v)) m' = Some v /\
     forall i, ~ (o <= Z.of_nat i < o + Z.of_nat (length v)) -> store m' !! i = store m !! i).
Proof.
  intros Ho Hmax. assert (Z.of_nat (length (store m)) = mem_Len m) as Hl by done. split; intros Hlen.
  - destruct (Set32_spec o val m Ho ltac:(lia)) as (m' & E & _ & Es).
    assert (length (Bytes32 val) = 32%nat) as Hb by (rewrite Bytes32_spec; apply length_be_split).
    assert (mem_Len m' = mem_Len m) as Hl'.
    { unfold mem_Len. rewrite Es, !length_app, length_drop, length_take. lia. }
    exists m'. split_and!; [done|done| |].
    + rewrite GetPtr_spec by lia. rewrite Es, <- Hb. change (Z.to_nat 32) with 32%nat. rewrite <- Hb.
      rewrite take_drop_splice by lia. simpl. f_equal. apply to_Z_inj.
      rewrite to_Z_SetBytes, Bytes32_spec, be_combine_split.
      pose proof (to_Z_range val). change (2 ^ (Z.of_nat 32 * 8)) with two256.
      rewrite Z.mod_mod by done. by apply Z.mod_small.
    + intros i Hi. rewrite Es, <- Hb, splice_lookup by lia. rewrite Hb, decide_False by lia. done.
  - destruct (Set__spec o (Z.of_nat (length v)) v m) as (m' & E & _ & Hl' & Hlook); [lia..|].
    assert (take (length v) (drop (Z.to_nat o) (store m')) = v) as Hread.
    { apply list_eq. intros i. destruct (decide (i < length v)%nat).
      - rewrite lookup_take_lt, lookup_drop, Hlook by lia. rewrite decide_True by lia. f_equal. lia.
      - rewrite lookup_take_ge by lia. symmetry. apply lookup_ge_None. lia. }
    exists m'. split_and!; [done|done| | |].
    + rewrite GetPtr_spec by lia. by rewrite Nat2Z.id, Hread.
    + rewrite GetCopy_spec by lia. by rewrite Nat2Z.id, Hread.
    + intros i Hi. rewrite Hlook, decide_False by lia. done.
Qed.

Lemma getData_spec data start size :
  is_u64 start -> 0 <= size < 2 ^ 63 -> Z.of_nat (length data) < 2 ^ 63 ->
  exists r, getData data start size = Some r /\ Z.of_nat (length r) = size /\
    forall i, (i < length r)%nat ->
      r !! i = Some (default Byte.x00 (data !! (Z.to_nat start + i)%nat)).
Proof.
  intros [? ?] Hs Hd. unfold getData. set (len := Z.of_nat (length data)).
  set (st := if len <? start then len else start).
  assert (st = Z.min start len) as Hst by (unfold st; destruct (Z.ltb_spec len start); lia).
  rewrite u64_add_small by (unfold is_u64; lia).
  set (fin := if len <? st + size then len else st + size).
  assert (fin = Z.min (st + size) len) as Hfin by (unfold fin; destruct (Z.ltb_spec len (st + size)); lia).
  clearbody st fin. rewrite slice_Some by lia. cbn [mbind option_bind].
  unfold int64_of_u64. rewrite (proj2 (Z.ltb_lt size _)) by lia.
  eexists. split; [done|]. unfold RightPadBytes. set (r := take _ _).
  assert (Z.of_nat (length r) = fin - st) as Hr.
  { unfold r. rewrite length_take, length_drop. lia. }
  assert (forall i, (i < length r)%nat -> r !! i = Some (default Byte.x00 (data !! (Z.to_nat start + i)%nat)))
    as Hin.
  { intros i Hi. unfold r. rewrite lookup_take_lt, lookup_drop by lia.
    replace (Z.to_nat st + i)%nat with (Z.to_nat start + i)%nat by lia.
    destruct (lookup_lt_is_Some_2 data (Z.to_nat start + i)) as [x ->]; [lia|done]. }
  destruct (Z.leb_spec size (Z.of_nat (length r))).
  - split; [lia|done].
  - split; [rewrite length_app, length_replicate; lia|].
    intros i Hi. rewrite length_app, length_replicate in Hi.
    destruct (decide (i < length r)%nat) as [?|].
    + rewrite lookup_app_l by lia. by apply Hin.
    + rewrite lookup_app_r by lia. rewrite (lookup_ge_None_2 data) by lia.
      apply lookup_replicate_2. lia.
Qed.

(** The gas EIP-150 lets a call take from what remains after [base]. *)
Definition all_but_64th (g : Z) : Z := g - g / 64.

Lemma callGas_eip150 avail base (cost : u256) :
  0 <= base <= avail -> is_u64 avail ->
  callGas true avail base cost = inl (Z.min (to_Z cost) (all_but_64th (avail - base))).
Proof.
  intros ? [? ?]. unfold callGas, all_but_64th.
  rewrite (u64_sub_small avail base) by (unfold is_u64; lia).
  assert (0 <= (avail - base) / 64 <= avail - base) by (split; [apply Z.div_pos|apply Z.div_le_upper_bound]; lia).
  rewrite u64_sub_small by (unfold is_u64; lia). pose proof (to_Z_range cost).
  destruct (IsUint64 cost) eqn:E; simpl.
  - rewrite (Uint64_IsUint64 cost) by done. destruct (Z.ltb_spec (avail - base - (avail - base) / 64) (to_Z cost));
      f_equal; lia.
  - rewrite IsUint64_spec, Z.ltb_ge in E. f_equal. lia.
Qed.

Lemma callGas_range b avail base (cost : u256) g : callGas b avail base cost = inl g -> is_u64 g.
Proof.
  unfold callGas. pose proof (Uint64_is_u64 cost).
  repeat case_match; intros; simplify_eq; try done; apply u64_range.
Qed.
End roundtrip.

Lemma memory_roundtrip_witness :
  exists m', Set32 33 (w 77) (mk_Memory (replicate 96 Byte.x01) 0) = Some m' /\
    (SetBytes <$> GetPtr 33 32 m') = Some (w 77).
Proof.
  destruct (memory_roundtrip (U := U256) (mk_Memory (replicate 96 Byte.x01) 0) 33 (w 77) [])
    as [(m' & E & _ & G & _) _]; [lia|reflexivity|vm_compute; congruence|].
  exists m'. split; [exact E|exact G].
Defined.
