(* ===== verification/Precompiles.v ===== *)
(** Precompiled contracts (core/vm/contracts.go): which native contract is at
    which address under which rules, and how one is run.  The contracts
    themselves are implemented on top of cryptographic libraries; here they
    are names, and what they compute is given by the environment. *)
From S2P Require Import Prelude Machine.
#[local] Open Scope Z_scope.

(** chain.Rules of erigon-lib: which forks are active.  [ChainID] is a
    big.Int. *)
Record Rules := mk_Rules {
  ChainID : Z;
  IsHomestead : bool;
  IsTangerineWhistle : bool;
  IsSpuriousDragon : bool;
  IsByzantium : bool;
  IsConstantinople : bool;
  IsPetersburg : bool;
  IsIstanbul : bool;
  IsBerlin : bool;
  IsLondon : bool;
  IsShanghai : bool;
  IsCancun : bool;
  IsNano : bool;
  IsMoran : bool;
  IsParlia : bool;
  IsAura : bool;
  IsEip1559FeeCollector : bool
}.

(** The native contracts. *)
Inductive Precompile :=
| ecrecover
| sha256hash
| ripemd160hash
| dataCopy
| bigModExp (eip2565 : bool)
| bn256AddByzantium
| bn256ScalarMulByzantium
| bn256PairingByzantium
| bn256AddIstanbul
| bn256ScalarMulIstanbul
| bn256PairingIstanbul
| blake2F
| tmHeaderValidate
| iavlMerkleProofValidate
| tmHeaderValidateNano
| iavlMerkleProofValidateNano
| iavlMerkleProofValidateMoran
| bls12381G1Add
| bls12381G1Mul
| bls12381G1MultiExp
| bls12381G2Add
| bls12381G2Mul
| bls12381G2MultiExp
| bls12381Pairing
| bls12381MapG1
| bls12381MapG2.

#[export] Instance Precompile_eq_dec : EqDecision Precompile.
Proof. solve_decision. Defined.

(** The Go maps, as association lists without duplicate keys. *)
Abbreviation PrecompileMap := (list (address * Precompile)).

Definition PrecompiledContractsHomestead : PrecompileMap := [
  (1%N, ecrecover); (2%N, sha256hash); (3%N, ripemd160hash); (4%N, dataCopy)
].

Definition PrecompiledContractsByzantium : PrecompileMap := [
  (1%N, ecrecover); (2%N, sha256hash); (3%N, ripemd160hash); (4%N, dataCopy);
  (5%N, bigModExp false); (6%N, bn256AddByzantium); (7%N, bn256ScalarMulByzantium);
  (8%N, bn256PairingByzantium)
].

Definition PrecompiledContractsIstanbul : PrecompileMap := [
  (1%N, ecrecover); (2%N, sha256hash); (3%N, ripemd160hash); (4%N, dataCopy);
  (5%N, bigModExp false); (6%N, bn256AddIstanbul); (7%N, bn256ScalarMulIstanbul);
  (8%N, bn256PairingIstanbul); (9%N, blake2F)
].

Definition PrecompiledContractsIstanbulForBSC : PrecompileMap := [
  (1%N, ecrecover); (2%N, sha256hash); (3%N, ripemd160hash); (4%N, dataCopy);
  (5%N, bigModExp false); (6%N, bn256AddIstanbul); (7%N, bn256ScalarMulIstanbul);
  (8%N, bn256PairingIstanbul); (9%N, blake2F); (100%N, tmHeaderValidate);
  (101%N, iavlMerkleProofValidate)
].

Definition PrecompiledContractsNano : PrecompileMap := [
  (1%N, ecrecover); (2%N, sha256hash); (3%N, ripemd160hash); (4%N, dataCopy);
  (5%N, bigModExp false); (6%N, bn256AddIstanbul); (7%N, bn256ScalarMulIstanbul);
  (8%N, bn256PairingIstanbul); (9%N, blake2F); (100%N, tmHeaderValidateNano);
  (101%N, iavlMerkleProofValidateNano)
].

Definition PrecompiledContractsIsMoran : PrecompileMap := [
  (1%N, ecrecover); (2%N, sha256hash); (3%N, ripemd160hash); (4%N, dataCopy);
  (5%N, bigModExp false); (6%N, bn256AddIstanbul); (7%N, bn256ScalarMulIstanbul);
  (8%N, bn256PairingIstanbul); (9%N, blake2F); (100%N, tmHeaderValidate);
  (101%N, iavlMerkleProofValidateMoran)
].

Definition PrecompiledContractsBerlin : PrecompileMap := [
  (1%N, ecrecover); (2%N, sha256hash); (3%N, ripemd160hash); (4%N, dataCopy);
  (5%N, bigModExp true); (6%N, bn256AddIstanbul); (7%N, bn256ScalarMulIstanbul);
  (8%N, bn256PairingIstanbul); (9%N, blake2F)
].

Definition PrecompiledContractsBLS : PrecompileMap := [
  (10%N, bls12381G1Add); (11%N, bls12381G1Mul); (12%N, bls12381G1MultiExp); (13%N, bls12381G2Add);
  (14%N, bls12381G2Mul); (15%N, bls12381G2MultiExp); (16%N, bls12381Pairing);
  (17%N, bls12381MapG1); (18%N, bls12381MapG2)
].

Fixpoint pmap_lookup (addr : address) (m : PrecompileMap) : option Precompile :=
  match m with
  | [] => None
  | (a, p) :: m => if decide (addr = a) then Some p else pmap_lookup addr m
  end.

(** precompile of evm.go. *)
Definition precompile (rules : Rules) (addr : address) : option Precompile :=
  let precompiles :=
    if IsMoran rules then PrecompiledContractsIsMoran
    else if IsNano rules then PrecompiledContractsNano
    else if IsBerlin rules then PrecompiledContractsBerlin
    else if IsIstanbul rules then
      if IsParlia rules then PrecompiledContractsIstanbulForBSC else PrecompiledContractsIstanbul
    else if IsByzantium rules then PrecompiledContractsByzantium
    else PrecompiledContractsHomestead in
  pmap_lookup addr precompiles.

(** The address lists that [init] fills from the maps, in some order. *)
Definition PrecompiledAddressesHomestead : list address := PrecompiledContractsHomestead.*1.
Definition PrecompiledAddressesByzantium : list address := PrecompiledContractsByzantium.*1.
Definition PrecompiledAddressesIstanbul : list address := PrecompiledContractsIstanbul.*1.
Definition PrecompiledAddressesIstanbulForBSC : list address := PrecompiledContractsIstanbulForBSC.*1.
Definition PrecompiledAddressesBerlin : list address := PrecompiledContractsBerlin.*1.
Definition PrecompiledAddressesNano : list address := PrecompiledContractsNano.*1.
Definition PrecompiledAddressesMoran : list address := PrecompiledContractsIsMoran.*1.

Definition ActivePrecompiles (rules : Rules) : list address :=
  if IsMoran rules then PrecompiledAddressesMoran
  else if IsNano rules then PrecompiledAddressesNano
  else if IsBerlin rules then PrecompiledAddressesBerlin
  else if IsIstanbul rules then
    if IsParlia rules then PrecompiledAddressesIstanbulForBSC else PrecompiledAddressesIstanbul
  else if IsByzantium rules then PrecompiledAddressesByzantium
  else PrecompiledAddressesHomestead.

(** The interface PrecompiledContract. *)
Record PrecompiledContract := mk_Precompiled {
  RequiredGas : list Byte.byte -> Z;
  RunContract : list Byte.byte -> list Byte.byte * option EvmError
}.

Definition RunPrecompiledContract (p : PrecompiledContract) (input : list Byte.byte) (suppliedGas : Z)
    : list Byte.byte * Z * option EvmError :=
  let gasCost := RequiredGas p input in
  if suppliedGas <? gasCost then ([], 0, Some ErrOutOfGas)
  else
    let suppliedGas := u64_sub suppliedGas gasCost in
    let '(output, err) := RunContract p input in
    (output, suppliedGas, err).

Lemma pmap_lookup_elem addr m : is_Some (pmap_lookup addr m) <-> addr ∈ m.*1.
Proof.
  induction m as [|[a p] m IH]; simpl.
  - split; [by intros []|by intros ?%not_elem_of_nil].
  - rewrite elem_of_cons. case_decide as E; [subst; split; eauto|]. rewrite IH. naive_solver.
Qed.

(** The addresses [ActivePrecompiles] announces, which the transaction
    puts on the access list, are exactly those at which [precompile] finds a
    native contract when they are called, under every combination of rules;
    and no address is announced twice. *)
Theorem ActivePrecompiles_precompile rules addr :
  (addr ∈ ActivePrecompiles rules <-> is_Some (precompile rules addr)) /\
  NoDup (ActivePrecompiles rules).
Proof.
  unfold ActivePrecompiles, precompile.
  repeat case_match; (split; [symmetry; apply pmap_lookup_elem|]);
    apply (bool_decide_unpack _); vm_compute; exact I.
Qed.
