(* ===== verification/Contract.v ===== *)
(** core/vm/contract.go and core/vm/analysis.go: the contract a frame runs,
    and the JUMPDEST analysis of its code.

    The [jumpdests] map of a contract is shared, through the pointer a child
    takes from its parent, by all frames of one top-level call; it is
    therefore part of the state of the EVM and passed to the operations that
    read or extend it.

    The analysis is right: the bitmap of [codeBitmap] marks exactly the data
    bytes of PUSH instructions, is computed without an access out of range, and
    the caches around it never change an answer. *)
From S2P Require Import Prelude Uint256 OpCodes Machine.
#[local] Open Scope Z_scope.

(** * analysis.go *)

(** One PUSH of [numbits] bytes of data at [pc]: [bits[idx] |= x << shift] and
    the spill into the next word. *)
Definition or_word (bits : list Z) (idx : nat) (x : Z) : outcome (list Z) :=
  b ← or_panic (bits !! idx); Ok (<[idx := Z.lor b x]> bits).

Definition mark_push (bits : list Z) (pc : Z) (op : Z) : outcome (list Z) :=
  let x := Z.shiftl 1 (op - Op.PUSH1) in
  let x := Z.lor x (x - 1) in
  let idx := Z.to_nat (pc / 64) in
  let shift := Z.land pc 63 in
  bits ← or_word bits idx (u64 (Z.shiftl x shift));
  if 64 <? shift + shift then or_word bits (idx + 1) (Z.shiftr x (64 - shift)) else Ok bits.

(** The loop of [codeBitmap]; each round advances [pc], so the length of the
    code is enough fuel. *)
Fixpoint codeBitmap_loop (fuel : nat) (code : list Byte.byte) (pc : Z) (bits : list Z)
    : outcome (list Z) :=
  match code !! Z.to_nat pc with
  | None => Ok bits
  | Some b =>
      match fuel with
      | O => OutOfFuel
      | S fuel =>
          let op := byte.unsigned b in
          let pc := pc + 1 in
          if (Op.PUSH1 <=? op) && (op <=? Op.PUSH32) then
            let numbits := op - Op.PUSH1 + 1 in
            bits ← mark_push bits pc op;
            codeBitmap_loop fuel code (pc + numbits) bits
          else codeBitmap_loop fuel code pc bits
      end
  end.

Definition codeBitmap (code : list Byte.byte) : outcome (list Z) :=
  codeBitmap_loop (length code) code 0
    (replicate ((length code + 32 + 63) / 64)%nat 0).

(** * contract.go *)
Section contract.
Context {U : Uint256}.

(** A ContractRef is an AccountRef or a *Contract.  Of a contract that called
    another only its address, caller and value are ever read, and those do
    not change while it runs. *)
Inductive ContractRef :=
| AccountRef (addr : address)
| ContractPtr (addr CallerAddress : address) (value : option u256).

Definition ref_Address (r : ContractRef) : address :=
  match r with AccountRef a => a | ContractPtr a _ _ => a end.

Record Contract := mk_Contract {
  CallerAddress : address;
  caller : ContractRef;
  self : address;
  analysis : option (list Z);
  skipAnalysis : bool;
  Code : list Byte.byte;
  c_CodeHash : hash;
  CodeAddr : option address;
  Input : list Byte.byte;
  Gas : Z;
  value : option u256
}.

Definition set_Gas (v : Z) (c : Contract) : Contract :=
  mk_Contract (CallerAddress c) (caller c) (self c) (analysis c) (skipAnalysis c) (Code c)
    (c_CodeHash c) (CodeAddr c) (Input c) v (value c).

Definition set_analysis (v : option (list Z)) (c : Contract) : Contract :=
  mk_Contract (CallerAddress c) (caller c) (self c) v (skipAnalysis c) (Code c)
    (c_CodeHash c) (CodeAddr c) (Input c) (Gas c) (value c).

Definition set_Input (v : list Byte.byte) (c : Contract) : Contract :=
  mk_Contract (CallerAddress c) (caller c) (self c) (analysis c) (skipAnalysis c) (Code c)
    (c_CodeHash c) (CodeAddr c) v (Gas c) (value c).

(** The pointer a running contract passes as the caller of the next one. *)
Definition ptr (c : Contract) : ContractRef := ContractPtr (self c) (CallerAddress c) (value c).

Abbreviation Jumpdests := (gmap hash (list Z)).

(** NewContract; the second result is the jumpdests map the contract uses,
    its caller's or a new one. *)
Definition NewContract (caller : ContractRef) (object : address) (value : option u256) (gas : Z)
    (skipAnalysis : bool) (jumpdests : Jumpdests) : Contract * Jumpdests :=
  (mk_Contract (ref_Address caller) caller object None skipAnalysis [] 0%N None [] gas value,
   match caller with ContractPtr _ _ _ => jumpdests | AccountRef _ => ∅ end).

(** AsDelegate; the type assertion on the caller panics when it is not a
    contract. *)
Definition AsDelegate (c : Contract) : outcome Contract :=
  match caller c with
  | ContractPtr _ parentCaller parentValue =>
      Ok (mk_Contract parentCaller (caller c) (self c) (analysis c) (skipAnalysis c) (Code c)
            (c_CodeHash c) (CodeAddr c) (Input c) (Gas c) parentValue)
  | AccountRef _ => Panic
  end.

Definition SetCallCode (addr : address) (h : hash) (code : list Byte.byte) (c : Contract) : Contract :=
  mk_Contract (CallerAddress c) (caller c) (self c) (analysis c) (skipAnalysis c) code
    h (Some addr) (Input c) (Gas c) (value c).

Definition GetOp (n : Z) (c : Contract) : Z :=
  match lookupZ (Code c) n with Some b => byte.unsigned b | None => Op.STOP end.

Definition UseGas (gas : Z) (c : Contract) : bool * Contract :=
  if Gas c <? gas then (false, c) else (true, set_Gas (u64_sub (Gas c) gas) c).

Definition isCodeFromAnalysis (analysis : list Z) (udest : Z) : outcome bool :=
  w ← or_panic (analysis !! Z.to_nat (udest / 64));
  Ok (Z.land w (Z.shiftl 1 (Z.land udest 63)) =? 0).

Definition isCode (c : Contract) (jumpdests : Jumpdests) (udest : Z)
    : outcome (bool * Contract * Jumpdests) :=
  if bool_decide (c_CodeHash c <> 0%N) then
    match jumpdests !! c_CodeHash c with
    | Some a =>
        b ← isCodeFromAnalysis a udest; Ok (b, set_analysis (Some a) c, jumpdests)
    | None =>
        a ← codeBitmap (Code c);
        b ← isCodeFromAnalysis a udest;
        Ok (b, set_analysis (Some a) c, <[c_CodeHash c := a]> jumpdests)
    end
  else
    match analysis c with
    | Some a => b ← isCodeFromAnalysis a udest; Ok (b, c, jumpdests)
    | None =>
        a ← codeBitmap (Code c);
        b ← isCodeFromAnalysis a udest;
        Ok (b, set_analysis (Some a) c, jumpdests)
    end.

(** validJumpdest: whether the destination is valid, whether the code bitmap
    was used, and the caches afterwards. *)
Definition validJumpdest (c : Contract) (jumpdests : Jumpdests) (dest : u256)
    : outcome (bool * bool * Contract * Jumpdests) :=
  let '(udest, overflow) := Uint64WithOverflow dest in
  if overflow || (Z.of_nat (length (Code c)) <=? udest) then Ok (false, false, c, jumpdests)
  else
    op ← or_panic (Code c !! Z.to_nat udest);
    if negb (byte.unsigned op =? Op.JUMPDEST) then Ok (false, false, c, jumpdests)
    else if skipAnalysis c then Ok (true, false, c, jumpdests)
    else
      '(b, c, jumpdests) ← isCode c jumpdests udest;
      Ok (b, true, c, jumpdests).
End contract.
Abbreviation Jumpdests := (gmap hash (list Z)).

(** * What is code *)

(** How many data bytes follow the opcode [b]. *)
Definition push_data (b : Byte.byte) : Z :=
  let op := byte.unsigned b in
  if (Op.PUSH1 <=? op) && (op <=? Op.PUSH32) then op - Op.PUSH1 + 1 else 0.

(** The positions at which an instruction starts, reading from the first. *)
Inductive op_start (code : list Byte.byte) : Z -> Prop :=
| start_first : op_start code 0
| start_next pc b :
    op_start code pc -> code !! Z.to_nat pc = Some b ->
    op_start code (pc + 1 + push_data b).

Lemma push_data_range b : 0 <= push_data b <= 32.
Proof.
  unfold push_data. destruct (Op.PUSH1 <=? byte.unsigned b) eqn:E1; [|simpl; lia].
  destruct (byte.unsigned b <=? Op.PUSH32) eqn:E2; [|simpl; lia]. simpl.
  unfold Op.PUSH1, Op.PUSH32 in *. lia.
Qed.

Lemma op_start_nonneg code pc : op_start code pc -> 0 <= pc.
Proof. induction 1 as [|pc b ? ? ?]; [lia|]. pose proof (push_data_range b). lia. Qed.

(** No instruction starts strictly inside another one. *)
Lemma op_start_gap_bounded code n i pc b :
  i + pc <= Z.of_nat n -> op_start code i -> op_start code pc -> code !! Z.to_nat pc = Some b ->
  i <= pc \/ pc + 1 + push_data b <= i.
Proof.
  revert i pc b. induction n as [|n IH]; intros i pc b Hn Hi Hpc Hb.
  - apply op_start_nonneg in Hpc. apply op_start_nonneg in Hi. left. lia.
  - pose proof (op_start_nonneg _ _ Hpc). destruct Hi as [|i b' Hi Hb']; [left; lia|].
    pose proof (push_data_range b'). pose proof (op_start_nonneg _ _ Hi).
    destruct (IH i pc b ltac:(lia) Hi Hpc Hb); [|right; lia].
    destruct (decide (i = pc)) as [->|]; [right; simplify_eq; lia|].
    destruct (IH pc i b' ltac:(lia) Hpc Hi Hb'); lia.
Qed.

Lemma op_start_gap code pc b i :
  op_start code pc -> code !! Z.to_nat pc = Some b -> op_start code i ->
  i <= pc \/ pc + 1 + push_data b <= i.
Proof.
  intros Hpc Hb Hi. apply (op_start_gap_bounded code (Z.to_nat (i + pc))); [lia|done..].
Qed.

(** * Bits *)
Definition bit (bits : list Z) (i : Z) : bool :=
  match bits !! Z.to_nat (i / 64) with Some w => Z.testbit w (i mod 64) | None => false end.

Lemma land_63 pc : Z.land pc 63 = pc mod 64.
Proof. change 63 with (Z.ones 6). by rewrite Z.land_ones by lia. Qed.

(** The smeared word has exactly its low [n] bits set. *)
Lemma smear n i : 0 <= n -> Z.testbit (Z.lor (Z.shiftl 1 n) (Z.shiftl 1 n - 1)) i = (0 <=? i) && (i <=? n).
Proof.
  intros Hn. rewrite Z.shiftl_1_l, Z.lor_spec, Z.sub_1_r, <- Z.ones_equiv.
  destruct (Z.leb_spec 0 i); simpl; [|by rewrite !Z.testbit_neg_r by lia].
  rewrite Z.pow2_bits_eqb, Z.testbit_ones_nonneg by lia.
  destruct (Z.eqb_spec n i), (Z.ltb_spec i n), (Z.leb_spec i n); done || lia.
Qed.

Lemma testbit_u64 z i : 0 <= i < 64 -> Z.testbit (u64 z) i = Z.testbit z i.
Proof. intros. unfold u64. apply Z.mod_pow2_bits_low. lia. Qed.

Lemma or_word_bit bits idx x bits' i :
  or_word bits idx x = Ok bits' -> 0 <= i ->
  bit bits' i = bit bits i || ((i / 64 =? Z.of_nat idx) && Z.testbit x (i mod 64)).
Proof.
  unfold or_word. destruct (bits !! idx) as [w|] eqn:E; [|done].
  cbn [or_panic mbind outcome_bind]. intros [= <-] Hi. unfold bit.
  assert (0 <= i / 64) by (apply Z.div_pos; lia).
  destruct (Z.eqb_spec (i / 64) (Z.of_nat idx)) as [Heq|Hne].
  - rewrite Heq, Nat2Z.id, list_lookup_insert_eq by (by eapply lookup_lt_Some).
    rewrite E, Z.lor_spec. done.
  - rewrite list_lookup_insert_ne by lia. by rewrite orb_false_r.
Qed.

Lemma or_word_ok bits idx x : (idx < length bits)%nat ->
  exists bits', or_word bits idx x = Ok bits' /\ length bits' = length bits.
Proof.
  intros H. unfold or_word. destruct (lookup_lt_is_Some_2 bits idx H) as [w ->].
  eexists. split; [done|]. apply length_insert.
Qed.

(** One PUSH marks its data bytes and nothing else.  The test
    [shift+shift > 64] lets the second word be written also when nothing
    spills, with zero. *)
Lemma mark_push_spec bits pc op :
  0 <= pc -> Op.PUSH1 <= op <= Op.PUSH32 -> pc + 95 < 64 * Z.of_nat (length bits) + 64 ->
  exists bits', mark_push bits pc op = Ok bits' /\ length bits' = length bits /\
    forall i, 0 <= i ->
      bit bits' i = bit bits i || ((pc <=? i) && (i <? pc + (op - Op.PUSH1 + 1))).
Proof.
  intros Hpc Hop Hlen. unfold mark_push. set (n := op - Op.PUSH1).
  assert (0 <= n <= 31) as Hn by (unfold n, Op.PUSH1, Op.PUSH32 in *; lia).
  set (x := Z.lor _ _). assert (forall i, Z.testbit x i = (0 <=? i) && (i <=? n)) as Hx
    by (intros; apply smear; lia).
  rewrite land_63. clearbody x n. clear Hop.
  pose proof (Z.div_mod pc 64 ltac:(lia)). pose proof (Z.mod_pos_bound pc 64 ltac:(lia)).
  set (q := pc / 64) in *. set (r := pc mod 64) in *.
  destruct (or_word_ok bits (Z.to_nat q) (u64 (Z.shiftl x r))) as (b1 & E1 & L1); [lia|].
  rewrite E1. cbn [mbind outcome_bind].
  assert (forall i, 0 <= i -> bit b1 i = bit bits i ||
            ((i / 64 =? q) && ((pc <=? i) && (i <? pc + (n + 1))))) as H1.
  { intros i Hi. rewrite (or_word_bit _ _ _ _ i E1 Hi). rewrite Z2Nat.id by lia.
    destruct (Z.eqb_spec (i / 64) q) as [Heq|]; [|done]. f_equal. simpl.
    pose proof (Z.mod_pos_bound i 64 ltac:(lia)). pose proof (Z.div_mod i 64 ltac:(lia)).
    rewrite testbit_u64, Z.shiftl_spec, Hx by lia.
    apply eq_true_iff_eq. rewrite !andb_true_iff, !Z.leb_le, Z.ltb_lt. lia. }
  destruct (Z.ltb_spec 64 (r + r)).
  - destruct (or_word_ok b1 (Z.to_nat q + 1) (Z.shiftr x (64 - r))) as (b2 & E2 & L2); [lia|].
    rewrite E2. exists b2. split_and!; [done|lia|]. intros i Hi.
    rewrite (or_word_bit _ _ _ _ i E2 Hi), (H1 i Hi), <- orb_assoc. f_equal.
    pose proof (Z.mod_pos_bound i 64 ltac:(lia)). pose proof (Z.div_mod i 64 ltac:(lia)).
    rewrite Z.shiftr_spec, Hx by lia.
    apply eq_true_iff_eq. rewrite orb_true_iff, !andb_true_iff, !Z.leb_le, !Z.ltb_lt, !Z.eqb_eq. lia.
  - exists b1. split_and!; [done|lia|]. intros i Hi. rewrite (H1 i Hi). f_equal.
    pose proof (Z.mod_pos_bound i 64 ltac:(lia)). pose proof (Z.div_mod i 64 ltac:(lia)).
    apply eq_true_iff_eq. rewrite !andb_true_iff, !Z.leb_le, !Z.ltb_lt, !Z.eqb_eq. lia.
Qed.

(** The bitmap while the loop is at [pc]: decided below, clear above. *)
Definition marked (code : list Byte.byte) (pc : Z) (bits : list Z) : Prop :=
  forall i, 0 <= i ->
    (i < pc -> bit bits i = false <-> op_start code i) /\ (pc <= i -> bit bits i = false).

Lemma marked_step code pc b bits bits' :
  op_start code pc -> code !! Z.to_nat pc = Some b -> marked code pc bits ->
  (forall i, 0 <= i -> bit bits' i = bit bits i || ((pc + 1 <=? i) && (i <? pc + 1 + push_data b))) ->
  marked code (pc + 1 + push_data b) bits'.
Proof.
  intros Hpc Hb Hm Hbits i Hi. rewrite Hbits by done. destruct (Hm i Hi) as [Hlo Hhi].
  pose proof (push_data_range b). split; intros Hlt.
  - destruct (decide (i < pc)) as [Hip|Hip].
    + rewrite (proj2 (Z.leb_gt (pc + 1) i)) by lia. rewrite orb_false_r. by apply Hlo.
    + rewrite Hhi by lia. simpl. destruct (decide (i = pc)) as [->|].
      * rewrite (proj2 (Z.leb_gt (pc + 1) pc)) by lia. done.
      * rewrite (proj2 (Z.leb_le (pc + 1) i)), (proj2 (Z.ltb_lt i _)) by lia.
        split; [done|]. intros Hs. destruct (op_start_gap code pc b i Hpc Hb Hs); lia.
  - rewrite Hhi by lia. simpl. rewrite (proj2 (Z.ltb_ge i _)) by lia. apply andb_false_r.
Qed.

Lemma codeBitmap_loop_spec code fuel pc bits :
  op_start code pc -> marked code pc bits ->
  Z.of_nat (length code) + 95 < 64 * Z.of_nat (length bits) + 64 ->
  Z.of_nat (length code) - pc <= Z.of_nat fuel ->
  exists bits' pc', codeBitmap_loop fuel code pc bits = Ok bits' /\
    length bits' = length bits /\ Z.of_nat (length code) <= pc' /\ marked code pc' bits'.
Proof.
  revert pc bits. induction fuel as [|fuel IH]; intros pc bits Hpc Hm Hlen Hfuel;
    pose proof (op_start_nonneg _ _ Hpc); cbn [codeBitmap_loop].
  - rewrite (lookup_ge_None_2 code) by lia. exists bits, pc. split_and!; [done..|lia|done].
  - destruct (code !! Z.to_nat pc) as [b|] eqn:Hb.
    2: { apply lookup_ge_None in Hb. exists bits, pc. split_and!; [done..|lia|done]. }
    pose proof (lookup_lt_Some _ _ _ Hb). pose proof (start_next _ _ _ Hpc Hb) as Hnext.
    pose proof (push_data_range b). pose proof (marked_step code pc b bits) as Hstep.
    unfold push_data in *. destruct ((Op.PUSH1 <=? byte.unsigned b) && _) eqn:Ep.
    + apply andb_prop in Ep as [?%Z.leb_le ?%Z.leb_le].
      destruct (mark_push_spec bits (pc + 1) (byte.unsigned b)) as (bits' & -> & Hl & Hbits); [lia..|].
      cbn [mbind outcome_bind].
      destruct (IH (pc + 1 + (byte.unsigned b - Op.PUSH1 + 1)) bits') as (b2 & pc2 & -> & ? & ? & ?);
        [done|by apply Hstep|lia|lia|].
      exists b2, pc2. split_and!; [done|lia|done|done].
    + rewrite Z.add_0_r in *. apply IH; [done| |lia|lia]. apply Hstep; [done..|].
      intros i Hi. destruct (Z.leb_spec (pc + 1) i), (Z.ltb_spec i (pc + 1)); try lia;
        by rewrite orb_false_r.
Qed.

Lemma bit_replicate n i : bit (replicate n 0) i = false.
Proof.
  unfold bit. destruct (replicate n 0 !! _) as [w|] eqn:E; [|done].
  apply lookup_replicate in E as [-> _]. apply Z.testbit_0_l.
Qed.

Lemma codeBitmap_spec code :
  exists bits, codeBitmap code = Ok bits /\
    length bits = ((length code + 95) / 64)%nat /\
    forall i, 0 <= i < Z.of_nat (length code) -> bit bits i = false <-> op_start code i.
Proof.
  unfold codeBitmap. replace (length code + 32 + 63)%nat with (length code + 95)%nat by lia.
  set (n := ((length code + 95) / 64)%nat).
  assert (Z.of_nat n = (Z.of_nat (length code) + 95) / 64) as Hn.
  { unfold n. rewrite Nat2Z.inj_div, Nat2Z.inj_add. done. }
  pose proof (Z.div_mod (Z.of_nat (length code) + 95) 64 ltac:(lia)).
  pose proof (Z.mod_pos_bound (Z.of_nat (length code) + 95) 64 ltac:(lia)).
  destruct (codeBitmap_loop_spec code (length code) 0 (replicate n 0)) as (bits & pc & E & Hl & Hpc & Hm).
  - constructor.
  - intros i Hi. split; [lia|]. intros _. apply bit_replicate.
  - rewrite length_replicate. lia.
  - lia.
  - exists bits. rewrite length_replicate in Hl. split_and!; [done|done|].
    intros i Hi. apply (Hm i); lia.
Qed.

Lemma isCodeFromAnalysis_bit bits i :
  0 <= i -> (Z.to_nat (i / 64) < length bits)%nat ->
  isCodeFromAnalysis bits i = Ok (negb (bit bits i)).
Proof.
  intros Hi Hl. unfold isCodeFromAnalysis, bit.
  destruct (lookup_lt_is_Some_2 bits _ Hl) as [w ->]. cbn [or_panic mbind outcome_bind].
  f_equal. rewrite land_63, Z.shiftl_1_l. pose proof (Z.mod_pos_bound i 64 ltac:(lia)).
  apply eq_true_iff_eq. rewrite Z.eqb_eq, negb_true_iff. split.
  - intros E. assert (Z.testbit (Z.land w (2 ^ (i mod 64))) (i mod 64) = false) as H0
      by (rewrite E; apply Z.testbit_0_l).
    rewrite Z.land_spec, Z.pow2_bits_true, andb_true_r in H0 by lia. done.
  - intros E. apply Z.bits_inj'. intros k Hk. rewrite Z.land_spec, Z.testbit_0_l.
    rewrite Z.pow2_bits_eqb by lia. destruct (Z.eqb_spec (i mod 64) k) as [<-|]; [by rewrite E|].
    apply andb_false_r.
Qed.

Lemma isCodeFromAnalysis_spec code bits i :
  codeBitmap code = Ok bits -> 0 <= i < Z.of_nat (length code) ->
  exists b, isCodeFromAnalysis bits i = Ok b /\ (b = true <-> op_start code i).
Proof.
  destruct (codeBitmap_spec code) as (bits' & E & Hl & Hbits).
  rewrite E. intros [= ->] Hi. eexists. split; [apply isCodeFromAnalysis_bit; [lia|]|].
  - rewrite Hl. apply Nat2Z.inj_lt. rewrite Nat2Z.inj_div, Nat2Z.inj_add, Z2Nat.id
      by (apply Z.div_pos; lia).
    change (Z.of_nat 95) with 95. change (Z.of_nat 64) with 64.
    pose proof (Z.div_mod i 64 ltac:(lia)). pose proof (Z.mod_pos_bound i 64 ltac:(lia)).
    pose proof (Z.div_mod (Z.of_nat (length code) + 95) 64 ltac:(lia)).
    pose proof (Z.mod_pos_bound (Z.of_nat (length code) + 95) 64 ltac:(lia)). lia.
  - rewrite negb_true_iff. by apply Hbits.
Qed.

(** [codeBitmap] never indexes its bitmap out of range, ends, and what
    [isCodeFromAnalysis] reads from it is whether an instruction starts at
    the position, for every position of the code. *)
Theorem codeBitmap_correct code :
  exists bits, codeBitmap code = Ok bits /\
    forall i, 0 <= i < Z.of_nat (length code) ->
      exists b, isCodeFromAnalysis bits i = Ok b /\ (b = true <-> op_start code i).
Proof.
  destruct (codeBitmap_spec code) as (bits & E & _). exists bits. split; [done|].
  intros i Hi. by apply isCodeFromAnalysis_spec.
Qed.

(** * The caches *)
Section caches.
Context {U : Uint256} {US : Uint256Spec U}.
Implicit Types (c : Contract) (jd : Jumpdests).

(** Every cached bitmap a contract can consult is the bitmap of its code. *)
Definition cache_ok c jd : Prop :=
  (c_CodeHash c <> 0%N -> forall a, jd !! c_CodeHash c = Some a -> codeBitmap (Code c) = Ok a) /\
  (c_CodeHash c = 0%N -> forall a, analysis c = Some a -> codeBitmap (Code c) = Ok a).

(** [c'] is [c] up to its cached analysis, [jd'] is [jd] up to the entry of [c]. *)
Definition cached c jd c' jd' : Prop :=
  set_analysis None c' = set_analysis None c /\
  (jd' = jd \/ exists a, jd' = <[c_CodeHash c := a]> jd /\ codeBitmap (Code c) = Ok a).

Lemma cached_refl c jd : cached c jd c jd.
Proof. split; auto. Qed.

Lemma isCode_spec c jd i :
  cache_ok c jd -> 0 <= i < Z.of_nat (length (Code c)) ->
  exists b c' jd', isCode c jd i = Ok (b, c', jd') /\ (b = true <-> op_start (Code c) i) /\
    cache_ok c' jd' /\ cached c jd c' jd'.
Proof.
  intros [Hg Hl] Hi. destruct (codeBitmap_spec (Code c)) as (bits & Ebits & _).
  destruct (isCodeFromAnalysis_spec _ _ i Ebits Hi) as (b & Eb & Hb).
  unfold isCode. case_bool_decide as Hh; [destruct (jd !! c_CodeHash c) as [a|] eqn:Ej|].
  - specialize (Hg Hh a eq_refl). assert (a = bits) as -> by congruence. rewrite Eb. cbn [mbind outcome_bind].
    exists b, (set_analysis (Some bits) c), jd. split_and!; [done|done| |by split; [|left]].
    split; simpl; [naive_solver|done].
  - rewrite Ebits. cbn [mbind outcome_bind]. rewrite Eb. cbn [mbind outcome_bind].
    exists b, (set_analysis (Some bits) c), (<[c_CodeHash c := bits]> jd).
    split_and!; [done|done| |split; [done|right; eauto]].
    split; simpl; [|done]. intros _ a. rewrite lookup_insert_eq. naive_solver.
  - destruct (analysis c) as [a|] eqn:Ea.
    + specialize (Hl Hh a eq_refl). assert (a = bits) as -> by congruence. rewrite Eb. cbn [mbind outcome_bind].
      exists b, c, jd. split_and!; [done|done|split; [done|naive_solver]|apply cached_refl].
    + rewrite Ebits. cbn [mbind outcome_bind]. rewrite Eb. cbn [mbind outcome_bind].
      exists b, (set_analysis (Some bits) c), jd. split_and!; [done|done| |by split; [|left]].
      split; simpl; [done|naive_solver].
Qed.

(** The answers of [validJumpdest]. *)
Definition jump_answer c jd (dest : u256) (r : outcome (bool * bool * Contract * Jumpdests)) : Prop :=
  exists b used c' jd', r = Ok (b, used, c', jd') /\
    (b = true <->
       (byte.unsigned <$> Code c !! Z.to_nat (to_Z dest)) = Some Op.JUMPDEST /\
       (skipAnalysis c = false -> op_start (Code c) (to_Z dest))) /\
    cache_ok c' jd' /\ cached c jd c' jd'.

Lemma jump_answer_no c jd dest :
  cache_ok c jd -> (byte.unsigned <$> Code c !! Z.to_nat (to_Z dest)) <> Some Op.JUMPDEST ->
  jump_answer c jd dest (Ok (false, false, c, jd)).
Proof.
  intros. exists false, false, c, jd. split_and!; [done|naive_solver|done|apply cached_refl].
Qed.

Lemma validJumpdest_ok c jd (dest : u256) :
  cache_ok c jd -> Z.of_nat (length (Code c)) < 2 ^ 63 ->
  jump_answer c jd dest (validJumpdest c jd dest).
Proof.
  intros Hok Hlen. unfold validJumpdest. rewrite Uint64WithOverflow_spec. pose proof (to_Z_range dest).
  destruct (Z.leb_spec (2 ^ 64) (to_Z dest)) as [Hbig|Hsmall]; cbn [orb].
  { apply jump_answer_no; [done|]. rewrite (lookup_ge_None_2 (Code c)) by lia. done. }
  rewrite u64_small by (unfold is_u64; lia).
  destruct (Z.leb_spec (Z.of_nat (length (Code c))) (to_Z dest)).
  { apply jump_answer_no; [done|]. rewrite (lookup_ge_None_2 (Code c)) by lia. done. }
  destruct (lookup_lt_is_Some_2 (Code c) (Z.to_nat (to_Z dest))) as [op Hop]; [lia|].
  rewrite Hop. cbn [or_panic mbind outcome_bind].
  destruct (Z.eqb_spec (byte.unsigned op) Op.JUMPDEST) as [Hjd|Hjd]; cbn [negb].
  2: { apply jump_answer_no; [done|]. rewrite Hop. simpl. congruence. }
  destruct (skipAnalysis c) eqn:Hskip.
  { exists true, false, c, jd. rewrite Hop. simpl.
    split_and!; [done|split; [split; [congruence|]|]; congruence|done|apply cached_refl]. }
  destruct (isCode_spec c jd (to_Z dest) Hok ltac:(lia)) as (b & c' & jd' & -> & Hb & Hok' & Hc).
  cbn [mbind outcome_bind]. exists b, true, c', jd'. rewrite Hop. simpl.
  split_and!; [done| |done|done]. rewrite Hb. split; [split; [congruence|done]|].
  intros [_ Hs]. by apply Hs.
Qed.
(** [validJumpdest] accepts exactly the JUMPDEST bytes at which an
    instruction starts (all JUMPDEST bytes when the analysis is switched
    off), whatever the caches hold, as long as what they hold is right; it
    keeps them right, and never indexes out of range. *)
Theorem validJumpdest_correct c jd (dest : u256) :
  cache_ok c jd -> Z.of_nat (length (Code c)) < 2 ^ 63 ->
  jump_answer c jd dest (validJumpdest c jd dest).
Proof. apply validJumpdest_ok. Qed.
End caches.

(** PUSH2 5b 5b, JUMPDEST: the JUMPDEST bytes in the data are not code. *)
Lemma validJumpdest_correct_witness :
  let c := mk_Contract 0%N (AccountRef 1%N) 2%N None false
             [Byte.x61; Byte.x5b; Byte.x5b; Byte.x5b] 7%N None [] 0 None in
  (exists r, validJumpdest c ∅ (w 3) = r /\ jump_answer c ∅ (w 3) r /\
     match r with Ok (b, _, _, _) => b = true | _ => False end) /\
  (exists r, validJumpdest c ∅ (w 2) = r /\ jump_answer c ∅ (w 2) r /\
     match r with Ok (b, _, _, _) => b = false | _ => False end).
Proof.
  intros c. split; eexists; (split; [reflexivity|]); split.
  - apply validJumpdest_correct; [split; intros _ a E; discriminate E|reflexivity].
  - vm_compute. reflexivity.
  - apply validJumpdest_correct; [split; intros _ a E; discriminate E|reflexivity].
  - vm_compute. reflexivity.
Defined.
