(* ===== verification/EvmTypes.v ===== *)
(** The data of package core/vm around a frame: the interface to the state
    (evmtypes.IntraBlockState), block and transaction contexts, chain rules,
    configuration, and the state of a running EVM.

    Debug tracing ([Config.Debug], [Tracer]) is switched off in the model;
    the calls to the tracer return nothing to the code. *)
From S2P Require Import Prelude Uint256 StateTypes Machine Precompiles Contract.
#[local] Open Scope Z_scope.

(** * evmtypes.IntraBlockState *)
Class StateDB {U : Uint256} (S : Type) := {
  db_CreateAccount : address -> bool -> M S unit;
  db_SubBalance : address -> u256 -> M S unit;
  db_AddBalance : address -> u256 -> M S unit;
  db_GetBalance : address -> M S u256;
  db_GetNonce : address -> M S Z;
  db_SetNonce : address -> Z -> M S unit;
  db_GetCodeHash : address -> M S hash;
  db_GetCode : address -> M S (list Byte.byte);
  db_SetCode : address -> list Byte.byte -> M S unit;
  db_GetCodeSize : address -> M S Z;
  db_AddRefund : Z -> M S unit;
  db_SubRefund : Z -> M S unit;
  db_GetRefund : M S Z;
  db_GetCommittedState : address -> hash -> M S u256;
  db_GetState : address -> hash -> M S u256;
  db_SetState : address -> hash -> u256 -> M S unit;
  db_Selfdestruct : address -> M S bool;
  db_HasSelfdestructed : address -> M S bool;
  db_Exist : address -> M S bool;
  db_Empty : address -> M S bool;
  db_PrepareAccessList :
    address -> option address -> list address -> list (address * list hash) -> M S unit;
  db_AddressInAccessList : address -> M S bool;
  db_SlotInAccessList : address -> hash -> M S (bool * bool);
  db_AddAddressToAccessList : address -> M S unit;
  db_AddSlotToAccessList : address -> hash -> M S unit;
  db_RevertToSnapshot : nat -> M S unit;
  db_Snapshot : M S nat;
  db_AddLog : Log -> M S unit
}.

(** * Contexts *)

(** Config of interpreter.go, the fields that change what is executed. *)
Record Config := mk_Config {
  NoRecursion : bool;
  NoBaseFee : bool;
  SkipAnalysis : bool;
  NoReceipts : bool;
  ReadOnly : bool;
  StatelessExec : bool;
  RestoreState : bool;
  ExtraEips : list Z
}.

Section contexts.
Context {U : Uint256} (S : Type).

(** evmtypes.BlockContext.  [Difficulty] is a big.Int. *)
Record BlockContext := mk_BlockContext {
  CanTransfer : address -> u256 -> M S bool;
  Transfer : address -> address -> u256 -> bool -> M S unit;
  GetHash : Z -> hash;
  Coinbase : address;
  GasLimit : Z;
  MaxGasLimit : bool;
  BlockNumber : Z;
  Time : Z;
  Difficulty : Z;
  BaseFee : u256;
  PrevRanDao : option hash
}.

Record TxContext := mk_TxContext {
  Origin : address;
  GasPrice : u256
}.

(** What is fixed while an EVM runs.  [keccak256] is package crypto over
    golang.org/x/crypto/sha3; [CreateAddress] hashes the RLP encoding of an
    address and a nonce; [native] is what the native contracts compute;
    [Cancelled n] is what the
    [n]'th read of the flag returns that another goroutine may set with
    [Cancel]. *)
Record Env := mk_Env {
  context : BlockContext;
  txContext : TxContext;
  chainRules : Rules;
  config : Config;
  keccak256 : list Byte.byte -> hash;
  CreateAddress : address -> Z -> address;
  native : Precompile -> PrecompiledContract;
  Cancelled : nat -> bool
}.
End contexts.
Arguments CanTransfer {U S}.
Arguments Transfer {U S}.
Arguments GetHash {U S}.
Arguments Coinbase {U S}.
Arguments GasLimit {U S}.
Arguments MaxGasLimit {U S}.
Arguments BlockNumber {U S}.
Arguments Time {U S}.
Arguments Difficulty {U S}.
Arguments BaseFee {U S}.
Arguments PrevRanDao {U S}.
Arguments mk_BlockContext {U S}.
Arguments context {U S}.
Arguments txContext {U S}.
Arguments chainRules {U S}.
Arguments config {U S}.
Arguments keccak256 {U S}.
Arguments CreateAddress {U S}.
Arguments native {U S}.
Arguments Cancelled {U S}.
Arguments mk_Env {U S}.

(** * The state of a running EVM *)
Section evm_state.
Context {U : Uint256} {S : Type}.

(** The mutable fields of [EVM], [EVMInterpreter] and [VM]; [jumpdests] is the
    analysis cache of the current top-level call, [checks] counts the reads
    of the abort flag. *)
Record evmstate := mk_evmstate {
  ibs : S;
  callGasTemp : Z;
  depth : Z;
  readOnly : bool;
  returnData : list Byte.byte;
  jumpdests : Jumpdests;
  checks : nat
}.

Definition set_ibs (v : S) (e : evmstate) : evmstate :=
  mk_evmstate v (callGasTemp e) (depth e) (readOnly e) (returnData e) (jumpdests e) (checks e).

Definition set_callGasTemp (v : Z) (e : evmstate) : evmstate :=
  mk_evmstate (ibs e) v (depth e) (readOnly e) (returnData e) (jumpdests e) (checks e).

Definition set_depth (v : Z) (e : evmstate) : evmstate :=
  mk_evmstate (ibs e) (callGasTemp e) v (readOnly e) (returnData e) (jumpdests e) (checks e).

Definition set_readOnly (v : bool) (e : evmstate) : evmstate :=
  mk_evmstate (ibs e) (callGasTemp e) (depth e) v (returnData e) (jumpdests e) (checks e).

Definition set_returnData (v : list Byte.byte) (e : evmstate) : evmstate :=
  mk_evmstate (ibs e) (callGasTemp e) (depth e) (readOnly e) v (jumpdests e) (checks e).

Definition set_jumpdests (v : Jumpdests) (e : evmstate) : evmstate :=
  mk_evmstate (ibs e) (callGasTemp e) (depth e) (readOnly e) (returnData e) v (checks e).

Definition set_checks (v : nat) (e : evmstate) : evmstate :=
  mk_evmstate (ibs e) (callGasTemp e) (depth e) (readOnly e) (returnData e) (jumpdests e) v.

(** A running frame: the ScopeContext, the program counter, and the EVM it
    runs in. *)
Record frame := mk_frame {
  f_evm : evmstate;
  f_pc : Z;
  f_Stack : Stack;
  f_Memory : Memory;
  f_Contract : Contract
}.

Definition set_evm (v : evmstate) (f : frame) : frame :=
  mk_frame v (f_pc f) (f_Stack f) (f_Memory f) (f_Contract f).

Definition set_pc (v : Z) (f : frame) : frame :=
  mk_frame (f_evm f) v (f_Stack f) (f_Memory f) (f_Contract f).

Definition set_Stack (v : Stack) (f : frame) : frame :=
  mk_frame (f_evm f) (f_pc f) v (f_Memory f) (f_Contract f).

Definition set_Memory (v : Memory) (f : frame) : frame :=
  mk_frame (f_evm f) (f_pc f) (f_Stack f) v (f_Contract f).

Definition set_Contract (v : Contract) (f : frame) : frame :=
  mk_frame (f_evm f) (f_pc f) (f_Stack f) (f_Memory f) v.

(** Running on a part of the state. *)
Definition in_ibs {A} (m : M S A) : M evmstate A := fun e =>
  '(a, s) ← m (ibs e); Ok (a, set_ibs s e).

Definition in_evm {A} (m : M evmstate A) : M frame A := fun f =>
  '(a, e) ← m (f_evm f); Ok (a, set_evm e f).

Definition db {A} (m : M S A) : M frame A := in_evm (in_ibs m).

(** The stack of the frame. *)
Definition pop : M frame u256 := fun f =>
  '(x, st) ← or_panic (Pop (f_Stack f)); Ok (x, set_Stack st f).

Definition peek : M frame u256 := fun f =>
  x ← or_panic (Peek (f_Stack f)); Ok (x, f).

Definition back (n : nat) : M frame u256 := fun f =>
  x ← or_panic (Back n (f_Stack f)); Ok (x, f).

Definition set_top (v : u256) : M frame unit := fun f =>
  st ← or_panic (SetTop v (f_Stack f)); Ok (tt, set_Stack st f).

Definition push (v : u256) : M frame unit :=
  modify (fun f => set_Stack (Push v (f_Stack f)) f).

(** An operation on the memory that can panic. *)
Definition on_memory (g : Memory -> option Memory) : M frame unit := fun f =>
  m ← or_panic (g (f_Memory f)); Ok (tt, set_Memory m f).

Definition from_memory {A} (g : Memory -> option A) : M frame A := fun f =>
  x ← or_panic (g (f_Memory f)); Ok (x, f).

(** [contract.UseGas]. *)
Definition useGas (gas : Z) : M frame bool := fun f =>
  let '(ok, c) := UseGas gas (f_Contract f) in Ok (ok, set_Contract c f).

(** An address or a hash as the bytes of a word. *)
Definition addr_of (x : u256) : address := bytes_to_N (Bytes20 x).

Definition hash_of (x : u256) : hash := bytes_to_N (Bytes32 x).

Definition word_of_addr (a : address) : u256 := SetBytes (be_split 20 (Z.of_N a)).

Definition word_of_hash (h : hash) : u256 := SetBytes (be_split 32 (Z.of_N h)).

(** The error monad of the gas functions, over the state monad: an error
    ends the function at once. *)
Definition try_ {F A B : Type} (m : M F (result A)) (k : A -> M F (result B)) : M F (result B) :=
  r ← m; match r with inl a => k a | inr e => mret (inr e) end.

Definition done_ {F A : Type} (a : A) : M F (result A) := mret (inl a).

Definition fail_ {F A : Type} (e : EvmError) : M F (result A) := mret (inr e).
End evm_state.
Arguments evmstate S : clear implicits.
Arguments frame {U} S.

Declare Scope evm_scope.
Notation "'let?' x := m 'in' k" := (try_ m (fun x => k))
  (at level 200, x name, m at level 200, k at level 200, right associativity) : evm_scope.
