(* ===== verification/JumpTable.v ===== *)
(** The instruction tables of core/vm/jump_table.go and eips.go, one per fork,
    and the choice among them in NewEVMInterpreter.

    A Go function stored in a table is represented by its name: a constructor
    of [ExecFn.t], [GasFn.t] or [memorySizeFunc], with the arguments of the
    maker for the closures ([makePush], [makeGasLog], ...).  Instructions and
    GasTable say what the names do. *)
From S2P Require Import Prelude OpCodes Machine Precompiles.
#[local] Open Scope Z_scope.

Module ExecFn.
Inductive t :=
| opAdd | opSub | opMul | opDiv | opSdiv | opMod | opSmod | opExp | opSignExtend | opNot
| opLt | opGt | opSlt | opSgt | opEq | opIszero | opAnd | opOr | opXor | opByte | opAddmod
| opMulmod | opSHL | opSHR | opSAR | opKeccak256 | opAddress | opBalance | opOrigin | opCaller
| opCallValue | opCallDataLoad | opCallDataSize | opCallDataCopy | opReturnDataSize
| opReturnDataCopy | opExtCodeSize | opCodeSize | opCodeCopy | opExtCodeCopy | opExtCodeHash
| opGasprice | opBlockhash | opCoinbase | opTimestamp | opNumber | opDifficulty | opGasLimit
| opPop | opMload | opMstore | opMstore8 | opSload | opSstore | opJump | opJumpi | opJumpdest
| opPc | opMsize | opGas | opCreate | opCreate2 | opCall | opCallCode | opDelegateCall
| opStaticCall | opReturn | opRevert | opUndefined | opStop | opSelfdestruct | opSelfBalance
| opChainID | opBaseFee | opPush0 | opPush1
| makeLog (size : nat)
| makePush (size pushByteSize : Z)
| makeDup (size : nat)
| makeSwap (size : nat).

#[export] Instance t_eq_dec : EqDecision t.
Proof. solve_decision. Defined.
End ExecFn.

Module GasFn.
Inductive t :=
| memoryCopierGas (stackpos : nat) | gasSStore | gasSStoreEIP2200 | makeGasLog (n : Z)
| gasKeccak256 | pureMemoryGascost | gasCreate2 | gasCreateEip3860 | gasCreate2Eip3860
| gasExpFrontier | gasExpEIP160 | gasCall | gasCallCode | gasDelegateCall | gasStaticCall
| gasSelfdestruct | makeGasSStoreFunc (clearingRefund : Z) | gasSLoadEIP2929
| gasExtCodeCopyEIP2929 | gasEip2929AccountCheck
| makeCallVariantGasCallEIP2929 (oldCalculator : t)
| makeSelfdestructGasFn (refundsEnabled : bool).

#[export] Instance t_eq_dec : EqDecision t.
Proof. solve_decision. Defined.
End GasFn.

(** The named instances of the makers, in gas_table.go and operations_acl.go. *)
Definition gasCallDataCopy : GasFn.t := GasFn.memoryCopierGas 2.
Definition gasCodeCopy : GasFn.t := GasFn.memoryCopierGas 2.
Definition gasExtCodeCopy : GasFn.t := GasFn.memoryCopierGas 3.
Definition gasReturnDataCopy : GasFn.t := GasFn.memoryCopierGas 2.
Definition gasReturn : GasFn.t := GasFn.pureMemoryGascost.
Definition gasRevert : GasFn.t := GasFn.pureMemoryGascost.
Definition gasMLoad : GasFn.t := GasFn.pureMemoryGascost.
Definition gasMStore8 : GasFn.t := GasFn.pureMemoryGascost.
Definition gasMStore : GasFn.t := GasFn.pureMemoryGascost.
Definition gasCreate : GasFn.t := GasFn.pureMemoryGascost.
Definition gasCallEIP2929 : GasFn.t := GasFn.makeCallVariantGasCallEIP2929 GasFn.gasCall.
Definition gasDelegateCallEIP2929 : GasFn.t :=
  GasFn.makeCallVariantGasCallEIP2929 GasFn.gasDelegateCall.
Definition gasStaticCallEIP2929 : GasFn.t :=
  GasFn.makeCallVariantGasCallEIP2929 GasFn.gasStaticCall.
Definition gasCallCodeEIP2929 : GasFn.t := GasFn.makeCallVariantGasCallEIP2929 GasFn.gasCallCode.
Definition gasSelfdestructEIP2929 : GasFn.t := GasFn.makeSelfdestructGasFn true.
Definition gasSelfdestructEIP3529 : GasFn.t := GasFn.makeSelfdestructGasFn false.
Definition gasSStoreEIP2929 : GasFn.t :=
  GasFn.makeGasSStoreFunc params.SstoreClearsScheduleRefundEIP2200.
Definition gasSStoreEIP3529 : GasFn.t :=
  GasFn.makeGasSStoreFunc params.SstoreClearsScheduleRefundEIP3529.

Record operation := mk_operation {
  execute : ExecFn.t;
  constantGas : Z;
  dynamicGas : option GasFn.t;
  maxStack : Z;
  numPop : Z;
  numPush : Z;
  isPush : bool;
  isSwap : bool;
  isDup : bool;
  opNum : Z;
  op_memorySize : option memorySizeFunc
}.

(** Composite literals of [operation]; the remaining fields are zero. *)
Definition operation_ (ex : ExecFn.t) (gas : Z) (dyn : option GasFn.t) (pops pushes : Z)
    (mem : option memorySizeFunc) : operation :=
  mk_operation ex gas dyn 0 pops pushes false false false 0 mem.

Definition pushing (n : Z) (o : operation) : operation :=
  mk_operation (execute o) (constantGas o) (dynamicGas o) (maxStack o) (numPop o) (numPush o)
    true (isSwap o) (isDup o) n (op_memorySize o).

Definition swapping (n : Z) (o : operation) : operation :=
  mk_operation (execute o) (constantGas o) (dynamicGas o) (maxStack o) (numPop o) (numPush o)
    (isPush o) true (isDup o) n (op_memorySize o).

Definition duping (n : Z) (o : operation) : operation :=
  mk_operation (execute o) (constantGas o) (dynamicGas o) (maxStack o) (numPop o) (numPush o)
    (isPush o) (isSwap o) true n (op_memorySize o).

Definition set_constantGas (v : Z) (o : operation) : operation :=
  mk_operation (execute o) v (dynamicGas o) (maxStack o) (numPop o) (numPush o)
    (isPush o) (isSwap o) (isDup o) (opNum o) (op_memorySize o).

Definition set_dynamicGas (v : GasFn.t) (o : operation) : operation :=
  mk_operation (execute o) (constantGas o) (Some v) (maxStack o) (numPop o) (numPush o)
    (isPush o) (isSwap o) (isDup o) (opNum o) (op_memorySize o).

Definition set_maxStack (v : Z) (o : operation) : operation :=
  mk_operation (execute o) (constantGas o) (dynamicGas o) v (numPop o) (numPush o)
    (isPush o) (isSwap o) (isDup o) (opNum o) (op_memorySize o).

(** [256]*operation; [None] is a nil entry. *)
Abbreviation JumpTable := (list (option operation)).

(** stack_table.go *)
Definition maxStackOf (pops pushes : Z) : Z := params.StackLimit + pops - pushes.

(** validateAndFillMaxStack on one entry; [None] is its panic. *)
Definition validateEntry (o : option operation) : option (option operation) :=
  o ← o;
  if isSome (op_memorySize o) && negb (isSome (dynamicGas o)) then None
  else Some (Some (set_maxStack (maxStackOf (numPop o) (numPush o)) o)).

Definition validateAndFillMaxStack (jt : JumpTable) : option JumpTable := mapM validateEntry jt.

(** [jt[op] = &operation{...}] and [jt[op].field = ...], which panics on nil. *)
Definition set_op (op : Z) (o : operation) (jt : JumpTable) : JumpTable :=
  <[Z.to_nat op := Some o]> jt.

Definition update_op (op : Z) (f : operation -> operation) (jt : JumpTable) : option JumpTable :=
  o ← jt !! Z.to_nat op; o ← o; Some (set_op op (f o) jt).

Definition frontierEntries1 : list (Z * operation) := [
  (Op.STOP, operation_ ExecFn.opStop 0 None 0 0 None);
  (Op.ADD, operation_ ExecFn.opAdd GasFastestStep None 2 1 None);
  (Op.MUL, operation_ ExecFn.opMul GasFastStep None 2 1 None);
  (Op.SUB, operation_ ExecFn.opSub GasFastestStep None 2 1 None);
  (Op.DIV, operation_ ExecFn.opDiv GasFastStep None 2 1 None);
  (Op.SDIV, operation_ ExecFn.opSdiv GasFastStep None 2 1 None);
  (Op.MOD, operation_ ExecFn.opMod GasFastStep None 2 1 None);
  (Op.SMOD, operation_ ExecFn.opSmod GasFastStep None 2 1 None);
  (Op.ADDMOD, operation_ ExecFn.opAddmod GasMidStep None 3 1 None);
  (Op.MULMOD, operation_ ExecFn.opMulmod GasMidStep None 3 1 None);
  (Op.EXP, operation_ ExecFn.opExp 0 (Some GasFn.gasExpFrontier) 2 1 None);
  (Op.SIGNEXTEND, operation_ ExecFn.opSignExtend GasFastStep None 2 1 None);
  (Op.LT, operation_ ExecFn.opLt GasFastestStep None 2 1 None);
  (Op.GT, operation_ ExecFn.opGt GasFastestStep None 2 1 None);
  (Op.SLT, operation_ ExecFn.opSlt GasFastestStep None 2 1 None);
  (Op.SGT, operation_ ExecFn.opSgt GasFastestStep None 2 1 None);
  (Op.EQ, operation_ ExecFn.opEq GasFastestStep None 2 1 None);
  (Op.ISZERO, operation_ ExecFn.opIszero GasFastestStep None 1 1 None);
  (Op.AND, operation_ ExecFn.opAnd GasFastestStep None 2 1 None);
  (Op.XOR, operation_ ExecFn.opXor GasFastestStep None 2 1 None);
  (Op.OR, operation_ ExecFn.opOr GasFastestStep None 2 1 None);
  (Op.NOT, operation_ ExecFn.opNot GasFastestStep None 1 1 None);
  (Op.BYTE, operation_ ExecFn.opByte GasFastestStep None 2 1 None);
  (Op.KECCAK256, operation_ ExecFn.opKeccak256 params.Keccak256Gas (Some GasFn.gasKeccak256) 2 1 (Some memoryKeccak256))
].

Definition frontierEntries2 : list (Z * operation) := [
  (Op.ADDRESS, operation_ ExecFn.opAddress GasQuickStep None 0 1 None);
  (Op.BALANCE, operation_ ExecFn.opBalance params.BalanceGasFrontier None 1 1 None);
  (Op.ORIGIN, operation_ ExecFn.opOrigin GasQuickStep None 0 1 None);
  (Op.CALLER, operation_ ExecFn.opCaller GasQuickStep None 0 1 None);
  (Op.CALLVALUE, operation_ ExecFn.opCallValue GasQuickStep None 0 1 None);
  (Op.CALLDATALOAD, operation_ ExecFn.opCallDataLoad GasFastestStep None 1 1 None);
  (Op.CALLDATASIZE, operation_ ExecFn.opCallDataSize GasQuickStep None 0 1 None);
  (Op.CALLDATACOPY, operation_ ExecFn.opCallDataCopy GasFastestStep (Some gasCallDataCopy) 3 0 (Some memoryCallDataCopy));
  (Op.CODESIZE, operation_ ExecFn.opCodeSize GasQuickStep None 0 1 None);
  (Op.CODECOPY, operation_ ExecFn.opCodeCopy GasFastestStep (Some gasCodeCopy) 3 0 (Some memoryCodeCopy));
  (Op.GASPRICE, operation_ ExecFn.opGasprice GasQuickStep None 0 1 None);
  (Op.EXTCODESIZE, operation_ ExecFn.opExtCodeSize params.ExtcodeSizeGasFrontier None 1 1 None);
  (Op.EXTCODECOPY, operation_ ExecFn.opExtCodeCopy params.ExtcodeCopyBaseFrontier (Some gasExtCodeCopy) 4 0 (Some memoryExtCodeCopy));
  (Op.BLOCKHASH, operation_ ExecFn.opBlockhash GasExtStep None 1 1 None);
  (Op.COINBASE, operation_ ExecFn.opCoinbase GasQuickStep None 0 1 None);
  (Op.TIMESTAMP, operation_ ExecFn.opTimestamp GasQuickStep None 0 1 None);
  (Op.NUMBER, operation_ ExecFn.opNumber GasQuickStep None 0 1 None);
  (Op.DIFFICULTY, operation_ ExecFn.opDifficulty GasQuickStep None 0 1 None);
  (Op.GASLIMIT, operation_ ExecFn.opGasLimit GasQuickStep None 0 1 None);
  (Op.POP, operation_ ExecFn.opPop GasQuickStep None 1 0 None);
  (Op.MLOAD, operation_ ExecFn.opMload GasFastestStep (Some gasMLoad) 1 1 (Some memoryMLoad));
  (Op.MSTORE, operation_ ExecFn.opMstore GasFastestStep (Some gasMStore) 2 0 (Some memoryMStore))
].

Definition frontierEntries3 : list (Z * operation) := [
  (Op.MSTORE8, operation_ ExecFn.opMstore8 GasFastestStep (Some gasMStore8) 2 0 (Some memoryMStore8));
  (Op.SLOAD, operation_ ExecFn.opSload params.SloadGasFrontier None 1 1 None);
  (Op.SSTORE, operation_ ExecFn.opSstore 0 (Some GasFn.gasSStore) 2 0 None);
  (Op.JUMP, operation_ ExecFn.opJump GasMidStep None 1 0 None);
  (Op.JUMPI, operation_ ExecFn.opJumpi GasSlowStep None 2 0 None);
  (Op.PC, operation_ ExecFn.opPc GasQuickStep None 0 1 None);
  (Op.MSIZE, operation_ ExecFn.opMsize GasQuickStep None 0 1 None);
  (Op.GAS, operation_ ExecFn.opGas GasQuickStep None 0 1 None);
  (Op.JUMPDEST, operation_ ExecFn.opJumpdest params.JumpdestGas None 0 0 None);
  (Op.PUSH1, pushing 1 (operation_ ExecFn.opPush1 GasFastestStep None 0 1 None));
  (Op.PUSH2, pushing 2 (operation_ (ExecFn.makePush 2 2) GasFastestStep None 0 1 None));
  (Op.PUSH3, pushing 3 (operation_ (ExecFn.makePush 3 3) GasFastestStep None 0 1 None));
  (Op.PUSH4, pushing 4 (operation_ (ExecFn.makePush 4 4) GasFastestStep None 0 1 None));
  (Op.PUSH5, pushing 5 (operation_ (ExecFn.makePush 5 5) GasFastestStep None 0 1 None));
  (Op.PUSH6, pushing 6 (operation_ (ExecFn.makePush 6 6) GasFastestStep None 0 1 None));
  (Op.PUSH7, pushing 7 (operation_ (ExecFn.makePush 7 7) GasFastestStep None 0 1 None));
  (Op.PUSH8, pushing 8 (operation_ (ExecFn.makePush 8 8) GasFastestStep None 0 1 None));
  (Op.PUSH9, pushing 9 (operation_ (ExecFn.makePush 9 9) GasFastestStep None 0 1 None));
  (Op.PUSH10, pushing 10 (operation_ (ExecFn.makePush 10 10) GasFastestStep None 0 1 None));
  (Op.PUSH11, pushing 11 (operation_ (ExecFn.makePush 11 11) GasFastestStep None 0 1 None))
].

Definition frontierEntries4 : list (Z * operation) := [
  (Op.PUSH12, pushing 12 (operation_ (ExecFn.makePush 12 12) GasFastestStep None 0 1 None));
  (Op.PUSH13, pushing 13 (operation_ (ExecFn.makePush 13 13) GasFastestStep None 0 1 None));
  (Op.PUSH14, pushing 14 (operation_ (ExecFn.makePush 14 14) GasFastestStep None 0 1 None));
  (Op.PUSH15, pushing 15 (operation_ (ExecFn.makePush 15 15) GasFastestStep None 0 1 None));
  (Op.PUSH16, pushing 16 (operation_ (ExecFn.makePush 16 16) GasFastestStep None 0 1 None));
  (Op.PUSH17, pushing 17 (operation_ (ExecFn.makePush 17 17) GasFastestStep None 0 1 None));
  (Op.PUSH18, pushing 18 (operation_ (ExecFn.makePush 18 18) GasFastestStep None 0 1 None));
  (Op.PUSH19, pushing 19 (operation_ (ExecFn.makePush 19 19) GasFastestStep None 0 1 None));
  (Op.PUSH20, pushing 20 (operation_ (ExecFn.makePush 20 20) GasFastestStep None 0 1 None));
  (Op.PUSH21, pushing 21 (operation_ (ExecFn.makePush 21 21) GasFastestStep None 0 1 None));
  (Op.PUSH22, pushing 22 (operation_ (ExecFn.makePush 22 22) GasFastestStep None 0 1 None));
  (Op.PUSH23, pushing 23 (operation_ (ExecFn.makePush 23 23) GasFastestStep None 0 1 None));
  (Op.PUSH24, pushing 24 (operation_ (ExecFn.makePush 24 24) GasFastestStep None 0 1 None));
  (Op.PUSH25, pushing 25 (operation_ (ExecFn.makePush 25 25) GasFastestStep None 0 1 None));
  (Op.PUSH26, pushing 26 (operation_ (ExecFn.makePush 26 26) GasFastestStep None 0 1 None));
  (Op.PUSH27, pushing 27 (operation_ (ExecFn.makePush 27 27) GasFastestStep None 0 1 None));
  (Op.PUSH28, pushing 28 (operation_ (ExecFn.makePush 28 28) GasFastestStep None 0 1 None));
  (Op.PUSH29, pushing 29 (operation_ (ExecFn.makePush 29 29) GasFastestStep None 0 1 None))
].

Definition frontierEntries5 : list (Z * operation) := [
  (Op.PUSH30, pushing 30 (operation_ (ExecFn.makePush 30 30) GasFastestStep None 0 1 None));
  (Op.PUSH31, pushing 31 (operation_ (ExecFn.makePush 31 31) GasFastestStep None 0 1 None));
  (Op.PUSH32, pushing 32 (operation_ (ExecFn.makePush 32 32) GasFastestStep None 0 1 None));
  (Op.DUP1, duping 1 (operation_ (ExecFn.makeDup 1) GasFastestStep None 1 2 None));
  (Op.DUP2, duping 2 (operation_ (ExecFn.makeDup 2) GasFastestStep None 2 3 None));
  (Op.DUP3, duping 3 (operation_ (ExecFn.makeDup 3) GasFastestStep None 3 4 None));
  (Op.DUP4, duping 4 (operation_ (ExecFn.makeDup 4) GasFastestStep None 4 5 None));
  (Op.DUP5, duping 5 (operation_ (ExecFn.makeDup 5) GasFastestStep None 5 6 None));
  (Op.DUP6, duping 6 (operation_ (ExecFn.makeDup 6) GasFastestStep None 6 7 None));
  (Op.DUP7, duping 7 (operation_ (ExecFn.makeDup 7) GasFastestStep None 7 8 None));
  (Op.DUP8, duping 8 (operation_ (ExecFn.makeDup 8) GasFastestStep None 8 9 None));
  (Op.DUP9, duping 9 (operation_ (ExecFn.makeDup 9) GasFastestStep None 9 10 None));
  (Op.DUP10, duping 10 (operation_ (ExecFn.makeDup 10) GasFastestStep None 10 11 None));
  (Op.DUP11, duping 11 (operation_ (ExecFn.makeDup 11) GasFastestStep None 11 12 None));
  (Op.DUP12, duping 12 (operation_ (ExecFn.makeDup 12) GasFastestStep None 12 13 None));
  (Op.DUP13, duping 13 (operation_ (ExecFn.makeDup 13) GasFastestStep None 13 14 None));
  (Op.DUP14, duping 14 (operation_ (ExecFn.makeDup 14) GasFastestStep None 14 15 None));
  (Op.DUP15, duping 15 (operation_ (ExecFn.makeDup 15) GasFastestStep None 15 16 None))
].

Definition frontierEntries6 : list (Z * operation) := [
  (Op.DUP16, duping 16 (operation_ (ExecFn.makeDup 16) GasFastestStep None 16 17 None));
  (Op.SWAP1, swapping 1 (operation_ (ExecFn.makeSwap 1) GasFastestStep None 2 2 None));
  (Op.SWAP2, swapping 2 (operation_ (ExecFn.makeSwap 2) GasFastestStep None 3 3 None));
  (Op.SWAP3, swapping 3 (operation_ (ExecFn.makeSwap 3) GasFastestStep None 4 4 None));
  (Op.SWAP4, swapping 4 (operation_ (ExecFn.makeSwap 4) GasFastestStep None 5 5 None));
  (Op.SWAP5, swapping 5 (operation_ (ExecFn.makeSwap 5) GasFastestStep None 6 6 None));
  (Op.SWAP6, swapping 6 (operation_ (ExecFn.makeSwap 6) GasFastestStep None 7 7 None));
  (Op.SWAP7, swapping 7 (operation_ (ExecFn.makeSwap 7) GasFastestStep None 8 8 None));
  (Op.SWAP8, swapping 8 (operation_ (ExecFn.makeSwap 8) GasFastestStep None 9 9 None));
  (Op.SWAP9, swapping 9 (operation_ (ExecFn.makeSwap 9) GasFastestStep None 10 10 None));
  (Op.SWAP10, swapping 10 (operation_ (ExecFn.makeSwap 10) GasFastestStep None 11 11 None));
  (Op.SWAP11, swapping 11 (operation_ (ExecFn.makeSwap 11) GasFastestStep None 12 12 None));
  (Op.SWAP12, swapping 12 (operation_ (ExecFn.makeSwap 12) GasFastestStep None 13 13 None));
  (Op.SWAP13, swapping 13 (operation_ (ExecFn.makeSwap 13) GasFastestStep None 14 14 None));
  (Op.SWAP14, swapping 14 (operation_ (ExecFn.makeSwap 14) GasFastestStep None 15 15 None));
  (Op.SWAP15, swapping 15 (operation_ (ExecFn.makeSwap 15) GasFastestStep None 16 16 None));
  (Op.SWAP16, swapping 16 (operation_ (ExecFn.makeSwap 16) GasFastestStep None 17 17 None));
  (Op.LOG0, operation_ (ExecFn.makeLog 0) 0 (Some (GasFn.makeGasLog 0)) 2 0 (Some memoryLog))
].

Definition frontierEntries7 : list (Z * operation) := [
  (Op.LOG1, operation_ (ExecFn.makeLog 1) 0 (Some (GasFn.makeGasLog 1)) 3 0 (Some memoryLog));
  (Op.LOG2, operation_ (ExecFn.makeLog 2) 0 (Some (GasFn.makeGasLog 2)) 4 0 (Some memoryLog));
  (Op.LOG3, operation_ (ExecFn.makeLog 3) 0 (Some (GasFn.makeGasLog 3)) 5 0 (Some memoryLog));
  (Op.LOG4, operation_ (ExecFn.makeLog 4) 0 (Some (GasFn.makeGasLog 4)) 6 0 (Some memoryLog));
  (Op.CREATE, operation_ ExecFn.opCreate params.CreateGas (Some gasCreate) 3 1 (Some memoryCreate));
  (Op.CALL, operation_ ExecFn.opCall params.CallGasFrontier (Some GasFn.gasCall) 7 1 (Some memoryCall));
  (Op.CALLCODE, operation_ ExecFn.opCallCode params.CallGasFrontier (Some GasFn.gasCallCode) 7 1 (Some memoryCall));
  (Op.RETURN, operation_ ExecFn.opReturn 0 (Some gasReturn) 2 0 (Some memoryReturn));
  (Op.SELFDESTRUCT, operation_ ExecFn.opSelfdestruct 0 (Some GasFn.gasSelfdestruct) 1 0 None)
].

(** newFrontierInstructionSet: the literal, every other slot opUndefined. *)
Definition undefinedOp : operation := operation_ ExecFn.opUndefined 0 None 0 0 None.

Definition newFrontierInstructionSet : option JumpTable :=
  let literal := frontierEntries1 ++ frontierEntries2 ++ frontierEntries3 ++ frontierEntries4 ++
    frontierEntries5 ++ frontierEntries6 ++ frontierEntries7 in
  let tbl := foldl (fun jt e => set_op e.1 e.2 jt) (replicate 256 None) literal in
  let tbl := (fun entry => match entry with None => Some undefinedOp | Some o => Some o end) <$> tbl in
  validateAndFillMaxStack tbl.

Definition newHomesteadInstructionSet : option JumpTable :=
  jt ← newFrontierInstructionSet;
  let jt := set_op Op.DELEGATECALL (operation_ ExecFn.opDelegateCall params.CallGasFrontier
    (Some GasFn.gasDelegateCall) 6 1 (Some memoryDelegateCall)) jt in
  validateAndFillMaxStack jt.

Definition newTangerineWhistleInstructionSet : option JumpTable :=
  jt ← newHomesteadInstructionSet;
  jt ← update_op Op.BALANCE (set_constantGas params.BalanceGasEIP150) jt;
  jt ← update_op Op.EXTCODESIZE (set_constantGas params.ExtcodeSizeGasEIP150) jt;
  jt ← update_op Op.SLOAD (set_constantGas params.SloadGasEIP150) jt;
  jt ← update_op Op.EXTCODECOPY (set_constantGas params.ExtcodeCopyBaseEIP150) jt;
  jt ← update_op Op.CALL (set_constantGas params.CallGasEIP150) jt;
  jt ← update_op Op.CALLCODE (set_constantGas params.CallGasEIP150) jt;
  jt ← update_op Op.DELEGATECALL (set_constantGas params.CallGasEIP150) jt;
  validateAndFillMaxStack jt.

Definition newSpuriousDragonInstructionSet : option JumpTable :=
  jt ← newTangerineWhistleInstructionSet;
  jt ← update_op Op.EXP (set_dynamicGas GasFn.gasExpEIP160) jt;
  validateAndFillMaxStack jt.

Definition newByzantiumInstructionSet : option JumpTable :=
  jt ← newSpuriousDragonInstructionSet;
  let jt := set_op Op.STATICCALL (operation_ ExecFn.opStaticCall params.CallGasEIP150
    (Some GasFn.gasStaticCall) 6 1 (Some memoryStaticCall)) jt in
  let jt := set_op Op.RETURNDATASIZE
    (operation_ ExecFn.opReturnDataSize GasQuickStep None 0 1 None) jt in
  let jt := set_op Op.RETURNDATACOPY (operation_ ExecFn.opReturnDataCopy GasFastestStep
    (Some gasReturnDataCopy) 3 0 (Some memoryReturnDataCopy)) jt in
  let jt := set_op Op.REVERT
    (operation_ ExecFn.opRevert 0 (Some gasRevert) 2 0 (Some memoryRevert)) jt in
  validateAndFillMaxStack jt.

Definition newConstantinopleInstructionSet : option JumpTable :=
  jt ← newByzantiumInstructionSet;
  let jt := set_op Op.SHL (operation_ ExecFn.opSHL GasFastestStep None 2 1 None) jt in
  let jt := set_op Op.SHR (operation_ ExecFn.opSHR GasFastestStep None 2 1 None) jt in
  let jt := set_op Op.SAR (operation_ ExecFn.opSAR GasFastestStep None 2 1 None) jt in
  let jt := set_op Op.EXTCODEHASH
    (operation_ ExecFn.opExtCodeHash params.ExtcodeHashGasConstantinople None 1 1 None) jt in
  let jt := set_op Op.CREATE2 (operation_ ExecFn.opCreate2 params.Create2Gas
    (Some GasFn.gasCreate2) 4 1 (Some memoryCreate2)) jt in
  validateAndFillMaxStack jt.

(** * eips.go *)
Definition enable1884 (jt : JumpTable) : option JumpTable :=
  jt ← update_op Op.SLOAD (set_constantGas params.SloadGasEIP1884) jt;
  jt ← update_op Op.BALANCE (set_constantGas params.BalanceGasEIP1884) jt;
  jt ← update_op Op.EXTCODEHASH (set_constantGas params.ExtcodeHashGasEIP1884) jt;
  Some (set_op Op.SELFBALANCE (operation_ ExecFn.opSelfBalance GasFastStep None 0 1 None) jt).

Definition enable1344 (jt : JumpTable) : option JumpTable :=
  Some (set_op Op.CHAINID (operation_ ExecFn.opChainID GasQuickStep None 0 1 None) jt).

Definition enable2200 (jt : JumpTable) : option JumpTable :=
  jt ← update_op Op.SLOAD (set_constantGas params.SloadGasEIP2200) jt;
  update_op Op.SSTORE (set_dynamicGas GasFn.gasSStoreEIP2200) jt.

Definition enable2929 (jt : JumpTable) : option JumpTable :=
  let warm := params.WarmStorageReadCostEIP2929 in
  jt ← update_op Op.SSTORE (set_dynamicGas gasSStoreEIP2929) jt;
  jt ← update_op Op.SLOAD (set_constantGas 0) jt;
  jt ← update_op Op.SLOAD (set_dynamicGas GasFn.gasSLoadEIP2929) jt;
  jt ← update_op Op.EXTCODECOPY (set_constantGas warm) jt;
  jt ← update_op Op.EXTCODECOPY (set_dynamicGas GasFn.gasExtCodeCopyEIP2929) jt;
  jt ← update_op Op.EXTCODESIZE (set_constantGas warm) jt;
  jt ← update_op Op.EXTCODESIZE (set_dynamicGas GasFn.gasEip2929AccountCheck) jt;
  jt ← update_op Op.EXTCODEHASH (set_constantGas warm) jt;
  jt ← update_op Op.EXTCODEHASH (set_dynamicGas GasFn.gasEip2929AccountCheck) jt;
  jt ← update_op Op.BALANCE (set_constantGas warm) jt;
  jt ← update_op Op.BALANCE (set_dynamicGas GasFn.gasEip2929AccountCheck) jt;
  jt ← update_op Op.CALL (set_constantGas warm) jt;
  jt ← update_op Op.CALL (set_dynamicGas gasCallEIP2929) jt;
  jt ← update_op Op.CALLCODE (set_constantGas warm) jt;
  jt ← update_op Op.CALLCODE (set_dynamicGas gasCallCodeEIP2929) jt;
  jt ← update_op Op.STATICCALL (set_constantGas warm) jt;
  jt ← update_op Op.STATICCALL (set_dynamicGas gasStaticCallEIP2929) jt;
  jt ← update_op Op.DELEGATECALL (set_constantGas warm) jt;
  jt ← update_op Op.DELEGATECALL (set_dynamicGas gasDelegateCallEIP2929) jt;
  jt ← update_op Op.SELFDESTRUCT (set_constantGas params.SelfdestructGasEIP150) jt;
  update_op Op.SELFDESTRUCT (set_dynamicGas gasSelfdestructEIP2929) jt.

Definition enable3529 (jt : JumpTable) : option JumpTable :=
  jt ← update_op Op.SSTORE (set_dynamicGas gasSStoreEIP3529) jt;
  update_op Op.SELFDESTRUCT (set_dynamicGas gasSelfdestructEIP3529) jt.

Definition enable3198 (jt : JumpTable) : option JumpTable :=
  Some (set_op Op.BASEFEE (operation_ ExecFn.opBaseFee GasQuickStep None 0 1 None) jt).

Definition enable3855 (jt : JumpTable) : option JumpTable :=
  Some (set_op Op.PUSH0 (operation_ ExecFn.opPush0 GasQuickStep None 0 1 None) jt).

Definition enable3860 (jt : JumpTable) : option JumpTable :=
  jt ← update_op Op.CREATE (set_dynamicGas GasFn.gasCreateEip3860) jt;
  update_op Op.CREATE2 (set_dynamicGas GasFn.gasCreate2Eip3860) jt.

Definition activators : list (Z * (JumpTable -> option JumpTable)) := [
  (3855, enable3855); (3860, enable3860); (3529, enable3529); (3198, enable3198);
  (2929, enable2929); (2200, enable2200); (1884, enable1884); (1344, enable1344)
].

(** EnableEIP: the inner [None] is the error for an undefined EIP. *)
Definition EnableEIP (eipNum : Z) (jt : JumpTable) : option (option JumpTable) :=
  match Op.assoc Z.eqb activators eipNum with
  | None => Some None
  | Some enablerFn =>
      jt ← enablerFn jt; jt ← validateAndFillMaxStack jt; Some (Some jt)
  end.

Definition ValidEip (eipNum : Z) : bool := isSome (Op.assoc Z.eqb activators eipNum).

(** * The later forks *)
Definition newIstanbulInstructionSet : option JumpTable :=
  jt ← newConstantinopleInstructionSet;
  jt ← enable1344 jt; jt ← enable1884 jt; jt ← enable2200 jt;
  validateAndFillMaxStack jt.

Definition newBerlinInstructionSet : option JumpTable :=
  jt ← newIstanbulInstructionSet; jt ← enable2929 jt; validateAndFillMaxStack jt.

Definition newLondonInstructionSet : option JumpTable :=
  jt ← newBerlinInstructionSet; jt ← enable3529 jt; jt ← enable3198 jt;
  validateAndFillMaxStack jt.

Definition newShanghaiInstructionSet : option JumpTable :=
  jt ← newLondonInstructionSet; jt ← enable3855 jt; jt ← enable3860 jt;
  validateAndFillMaxStack jt.

Definition newCancunInstructionSet : option JumpTable :=
  jt ← newShanghaiInstructionSet; validateAndFillMaxStack jt.

(** The switch of NewEVMInterpreter. *)
Definition instructionSet (rules : Rules) : option JumpTable :=
  if IsCancun rules then newCancunInstructionSet
  else if IsShanghai rules then newShanghaiInstructionSet
  else if IsLondon rules then newLondonInstructionSet
  else if IsBerlin rules then newBerlinInstructionSet
  else if IsIstanbul rules then newIstanbulInstructionSet
  else if IsConstantinople rules then newConstantinopleInstructionSet
  else if IsByzantium rules then newByzantiumInstructionSet
  else if IsSpuriousDragon rules then newSpuriousDragonInstructionSet
  else if IsTangerineWhistle rules then newTangerineWhistleInstructionSet
  else if IsHomestead rules then newHomesteadInstructionSet
  else newFrontierInstructionSet.

(** The loop over ExtraEips.  It ranges over the array the slice [cfg.ExtraEips]
    had at the start, while [append(cfg.ExtraEips[:i], cfg.ExtraEips[i+1:]...)]
    shifts the elements of that same array; [len] is the current length of
    the slice. *)
Fixpoint extraEips_loop (todo i : nat) (arr : list Z) (len : nat) (jt : JumpTable)
    : option (JumpTable * list Z) :=
  match todo with
  | O => Some (jt, take len arr)
  | S todo =>
      eip ← arr !! i;
      r ← EnableEIP eip jt;
      match r with
      | Some jt => extraEips_loop todo (S i) arr len jt
      | None =>
          if decide (i + 1 <= len)%nat then
            let tail := take (len - (i + 1)) (drop (i + 1) arr) in
            let arr := take i arr ++ tail ++ drop (len - 1) arr in
            extraEips_loop todo (S i) arr (len - 1) jt
          else None
      end
  end.

(** NewEVMInterpreter: the table, and the list of EIPs it keeps as enabled. *)
Definition NewEVMInterpreter (rules : Rules) (extraEips : list Z) : option (JumpTable * list Z) :=
  jt ← instructionSet rules;
  extraEips_loop (length extraEips) 0 extraEips (length extraEips) jt.
