(* ===== verification/GasTable.v ===== *)
(** The dynamic gas of the instructions: core/vm/gas_table.go and
    core/vm/operations_acl.go.

    A gas function runs in the frame before its instruction: it reads the
    stack, may extend the access list and the refund counter, records the
    memory fee, and returns the gas to charge or an error. *)
From S2P Require Import Prelude Uint256 OpCodes Machine StateTypes Precompiles Contract EvmTypes JumpTable.
#[local] Open Scope Z_scope.
#[local] Open Scope evm_scope.

Section gas_table.
Context {U : Uint256} {L : LibMath} {S : Type} {DB : StateDB S} (env : Env S).

Abbreviation gasFunc := (Z -> M (frame S) (result Z)).
Abbreviation rules := (chainRules env).

Definition contractAddress : M (frame S) address := gets (fun f => self (f_Contract f)).

(** memoryGasCost on the memory of the frame. *)
Definition memGas (newMemSize : Z) : M (frame S) (result Z) := fun f =>
  let '(r, m) := memoryGasCost (f_Memory f) newMemSize in Ok (r, set_Memory m f).

Definition safeAdd (x y : Z) : M (frame S) (result Z) := mret (checked (SafeAdd x y)).

Definition safeMul (x y : Z) : M (frame S) (result Z) := mret (checked (SafeMul x y)).

(** [n, overflow := x.Uint64WithOverflow(); if overflow { return 0, ErrGasUintOverflow }] *)
Definition asUint64 (x : u256) : M (frame S) (result Z) := mret (checked (Uint64WithOverflow x)).

(** * gas_table.go *)
Definition memoryCopierGas (stackpos : nat) : gasFunc := fun memorySize =>
  let? gas := memGas memorySize in
  x ← back stackpos;
  let? words := asUint64 x in
  let? words := safeMul (ToWordSize words) params.CopyGas in
  safeAdd gas words.

Definition gasSStore : gasFunc := fun _ =>
  value ← back 1;
  x ← back 0;
  let key := hash_of x in
  addr ← contractAddress;
  current ← db (db_GetState addr key);
  if IsPetersburg rules || negb (IsConstantinople rules) then
    if IsZero current && negb (IsZero value) then done_ params.SstoreSetGas
    else if negb (IsZero current) && IsZero value then
      _ ← db (db_AddRefund params.SstoreRefundGas); done_ params.SstoreClearGas
    else done_ params.SstoreResetGas
  else if Eq current value then done_ params.NetSstoreNoopGas
  else
    original ← db (db_GetCommittedState addr key);
    if bool_decide (original = current) then
      if IsZero original then done_ params.NetSstoreInitGas
      else
        _ ← (if IsZero value then db (db_AddRefund params.NetSstoreClearRefund) else mret tt);
        done_ params.NetSstoreCleanGas
    else
      _ ← (if negb (IsZero original) then
             if IsZero current then db (db_SubRefund params.NetSstoreClearRefund)
             else if IsZero value then db (db_AddRefund params.NetSstoreClearRefund)
             else mret tt
           else mret tt);
      _ ← (if Eq original value then
             if IsZero original then db (db_AddRefund params.NetSstoreResetClearRefund)
             else db (db_AddRefund params.NetSstoreResetRefund)
           else mret tt);
      done_ params.NetSstoreDirtyGas.

Definition gasSStoreEIP2200 : gasFunc := fun _ =>
  gas ← gets (fun f => Gas (f_Contract f));
  if gas <=? params.SstoreSentryGasEIP2200 then
    fail_ (ErrOther "not enough gas for reentrancy sentry")
  else
    value ← back 1;
    x ← back 0;
    let key := hash_of x in
    addr ← contractAddress;
    current ← db (db_GetState addr key);
    if Eq current value then done_ params.SloadGasEIP2200
    else
      original ← db (db_GetCommittedState addr key);
      if bool_decide (original = current) then
        if IsZero original then done_ params.SstoreSetGasEIP2200
        else
          _ ← (if IsZero value then db (db_AddRefund params.SstoreClearsScheduleRefundEIP2200)
               else mret tt);
          done_ params.SstoreResetGasEIP2200
      else
        _ ← (if negb (IsZero original) then
               if IsZero current then db (db_SubRefund params.SstoreClearsScheduleRefundEIP2200)
               else if IsZero value then db (db_AddRefund params.SstoreClearsScheduleRefundEIP2200)
               else mret tt
             else mret tt);
        _ ← (if Eq original value then
               if IsZero original
               then db (db_AddRefund (params.SstoreSetGasEIP2200 - params.SloadGasEIP2200))
               else db (db_AddRefund (params.SstoreResetGasEIP2200 - params.SloadGasEIP2200))
             else mret tt);
        done_ params.SloadGasEIP2200.

Definition makeGasLog (n : Z) : gasFunc := fun memorySize =>
  x ← back 1;
  let? requestedSize := asUint64 x in
  let? gas := memGas memorySize in
  let? gas := safeAdd gas params.LogGas in
  let? gas := safeAdd gas (u64_mul n params.LogTopicGas) in
  let? memorySizeGas := safeMul requestedSize params.LogDataGas in
  safeAdd gas memorySizeGas.

Definition gasKeccak256 : gasFunc := fun memorySize =>
  let? gas := memGas memorySize in
  x ← back 1;
  let? wordGas := asUint64 x in
  let? wordGas := safeMul (ToWordSize wordGas) params.Keccak256WordGas in
  safeAdd gas wordGas.

Definition pureMemoryGascost : gasFunc := memGas.

Definition gasCreate2 : gasFunc := fun memorySize =>
  let? gas := memGas memorySize in
  x ← back 2;
  let? len := asUint64 x in
  let numWords := ToWordSize len in
  let? wordGas := safeMul numWords params.Keccak256WordGas in
  safeAdd gas wordGas.

(** The length check [overflow || len > params.MaxInitCodeSize]. *)
Definition initCodeLen (x : u256) : M (frame S) (result Z) :=
  let '(len, overflow) := Uint64WithOverflow x in
  if (overflow : bool) || (params.MaxInitCodeSize <? len) then fail_ ErrGasUintOverflow
  else done_ len.

Definition gasCreateEip3860 : gasFunc := fun memorySize =>
  let? gas := memGas memorySize in
  x ← back 2;
  let? len := initCodeLen x in
  let numWords := ToWordSize len in
  let wordGas := u64_mul params.InitCodeWordGas numWords in
  safeAdd gas wordGas.

Definition gasCreate2Eip3860 : gasFunc := fun memorySize =>
  let? gas := memGas memorySize in
  x ← back 2;
  let? len := initCodeLen x in
  let numWords := ToWordSize len in
  let wordGas := u64_mul (params.InitCodeWordGas + params.Keccak256WordGas) numWords in
  safeAdd gas wordGas.

Definition gasExpFrontier : gasFunc := fun _ =>
  x ← back 1;
  let expByteLen := (BitLen x + 7) / 8 in
  let gas := u64_mul expByteLen params.ExpByteFrontier in
  safeAdd gas params.ExpGas.

Definition gasExpEIP160 : gasFunc := fun _ =>
  x ← back 1;
  let expByteLen := (BitLen x + 7) / 8 in
  let gas := u64_mul expByteLen params.ExpByteEIP160 in
  safeAdd gas params.ExpGas.

(** The common end of the call variants: the 63/64 rule on the gas that is
    left after [gas], recorded in callGasTemp and added to the price.  The
    value is recorded also when there is an error, and is then 0. *)
Definition chargeCall (gas : Z) : M (frame S) (result Z) :=
  requested ← back 0;
  available ← gets (fun f => Gas (f_Contract f));
  let r := callGas (IsTangerineWhistle rules) available gas requested in
  let temp := match r with inl g => g | inr _ => 0 end in
  _ ← in_evm (modify (set_callGasTemp temp));
  let? temp := mret r in
  safeAdd gas temp.

Definition gasCall : gasFunc := fun memorySize =>
  v ← back 2;
  let transfersValue := negb (IsZero v) in
  a ← back 1;
  let addr := addr_of a in
  gas ← (if IsSpuriousDragon rules then
           if transfersValue then
             empty ← db (db_Empty addr);
             mret (if (empty : bool) then params.CallNewAccountGas else 0)
           else mret 0
         else
           exist ← db (db_Exist addr);
           mret (if negb exist then params.CallNewAccountGas else 0));
  let gas := if transfersValue then u64_add gas params.CallValueTransferGas else gas in
  let? memoryGas := memGas memorySize in
  let? gas := safeAdd gas memoryGas in
  chargeCall gas.

Definition gasCallCode : gasFunc := fun memorySize =>
  let? memoryGas := memGas memorySize in
  v ← back 2;
  let gas := if negb (IsZero v) then params.CallValueTransferGas else 0 in
  let? gas := safeAdd gas memoryGas in
  chargeCall gas.

Definition gasDelegateCall : gasFunc := fun memorySize =>
  let? gas := memGas memorySize in
  chargeCall gas.

Definition gasStaticCall : gasFunc := fun memorySize =>
  let? gas := memGas memorySize in
  chargeCall gas.

Definition gasSelfdestruct : gasFunc := fun _ =>
  self ← contractAddress;
  gas ← (if IsTangerineWhistle rules then
           let gas := params.SelfdestructGasEIP150 in
           b ← back 0;
           let addr := addr_of b in
           if IsSpuriousDragon rules then
             empty ← db (db_Empty addr);
             if (empty : bool) then
               balance ← db (db_GetBalance self);
               mret (if negb (IsZero balance) then gas + params.CreateBySelfdestructGas else gas)
             else mret gas
           else
             exist ← db (db_Exist addr);
             mret (if negb exist then gas + params.CreateBySelfdestructGas else gas)
         else mret 0);
  gone ← db (db_HasSelfdestructed self);
  _ ← (if negb gone then db (db_AddRefund params.SelfdestructRefundGas) else mret tt);
  done_ gas.

(** * operations_acl.go *)
Definition makeGasSStoreFunc (clearingRefund : Z) : gasFunc := fun _ =>
  gas ← gets (fun f => Gas (f_Contract f));
  if gas <=? params.SstoreSentryGasEIP2200 then
    fail_ (ErrOther "not enough gas for reentrancy sentry")
  else
    y ← back 1;
    x ← peek;
    let slot := hash_of x in
    addr ← contractAddress;
    current ← db (db_GetState addr slot);
    present ← db (db_SlotInAccessList addr slot);
    cost ← (if negb present.2 then
              _ ← db (db_AddSlotToAccessList addr slot);
              if negb present.1 then panic else mret params.ColdSloadCostEIP2929
            else mret 0);
    let value := y in
    if Eq current value then done_ (cost + params.WarmStorageReadCostEIP2929)
    else
      original ← db (db_GetCommittedState addr slot);
      if Eq original current then
        if IsZero original then done_ (cost + params.SstoreSetGasEIP2200)
        else
          _ ← (if IsZero value then db (db_AddRefund clearingRefund) else mret tt);
          done_ (cost + (params.SstoreResetGasEIP2200 - params.ColdSloadCostEIP2929))
      else
        _ ← (if negb (IsZero original) then
               if IsZero current then db (db_SubRefund clearingRefund)
               else if IsZero value then db (db_AddRefund clearingRefund)
               else mret tt
             else mret tt);
        _ ← (if Eq original value then
               if IsZero original
               then db (db_AddRefund (params.SstoreSetGasEIP2200 - params.WarmStorageReadCostEIP2929))
               else db (db_AddRefund ((params.SstoreResetGasEIP2200 - params.ColdSloadCostEIP2929)
                                      - params.WarmStorageReadCostEIP2929))
             else mret tt);
        done_ (cost + params.WarmStorageReadCostEIP2929).

Definition gasSLoadEIP2929 : gasFunc := fun _ =>
  loc ← peek;
  let slot := hash_of loc in
  addr ← contractAddress;
  present ← db (db_SlotInAccessList addr slot);
  if negb present.2 then
    _ ← db (db_AddSlotToAccessList addr slot); done_ params.ColdSloadCostEIP2929
  else done_ params.WarmStorageReadCostEIP2929.

Definition coldCost : Z := params.ColdAccountAccessCostEIP2929 - params.WarmStorageReadCostEIP2929.

Definition gasExtCodeCopyEIP2929 : gasFunc := fun memorySize =>
  let? gas := memoryCopierGas 3 memorySize in
  a ← peek;
  let addr := addr_of a in
  warm ← db (db_AddressInAccessList addr);
  if negb warm then
    _ ← db (db_AddAddressToAccessList addr); safeAdd gas coldCost
  else done_ gas.

Definition gasEip2929AccountCheck : gasFunc := fun _ =>
  a ← peek;
  let addr := addr_of a in
  warm ← db (db_AddressInAccessList addr);
  if negb warm then _ ← db (db_AddAddressToAccessList addr); done_ coldCost else done_ 0.

Definition makeCallVariantGasCallEIP2929 (oldCalculator : gasFunc) : gasFunc := fun memorySize =>
  a ← back 1;
  let addr := addr_of a in
  warmAccess ← db (db_AddressInAccessList addr);
  ok ← (if negb warmAccess then _ ← db (db_AddAddressToAccessList addr); useGas coldCost
        else mret true);
  if negb ok then fail_ ErrOutOfGas
  else
    r ← oldCalculator memorySize;
    match r with
    | inr e => mret (inr e)
    | inl gas =>
        if (warmAccess : bool) then done_ gas
        else
          _ ← modify (fun f => set_Contract
                (set_Gas (u64_add (Gas (f_Contract f)) coldCost) (f_Contract f)) f);
          done_ (u64_add gas coldCost)
    end.

Definition makeSelfdestructGasFn (refundsEnabled : bool) : gasFunc := fun _ =>
  a ← peek;
  let addr := addr_of a in
  self ← contractAddress;
  warm ← db (db_AddressInAccessList addr);
  gas ← (if negb warm then
           _ ← db (db_AddAddressToAccessList addr); mret params.ColdAccountAccessCostEIP2929
         else mret 0);
  empty ← db (db_Empty addr);
  gas ← (if (empty : bool) then
           balance ← db (db_GetBalance self);
           mret (if negb (IsZero balance) then gas + params.CreateBySelfdestructGas else gas)
         else mret gas);
  _ ← (if refundsEnabled then
         gone ← db (db_HasSelfdestructed self);
         if negb gone then db (db_AddRefund params.SelfdestructRefundGas) else mret tt
       else mret tt);
  done_ gas.

(** What the names in the tables stand for. *)
Fixpoint gas_fn (t : GasFn.t) : gasFunc :=
  match t with
  | GasFn.memoryCopierGas n => memoryCopierGas n
  | GasFn.gasSStore => gasSStore
  | GasFn.gasSStoreEIP2200 => gasSStoreEIP2200
  | GasFn.makeGasLog n => makeGasLog n
  | GasFn.gasKeccak256 => gasKeccak256
  | GasFn.pureMemoryGascost => pureMemoryGascost
  | GasFn.gasCreate2 => gasCreate2
  | GasFn.gasCreateEip3860 => gasCreateEip3860
  | GasFn.gasCreate2Eip3860 => gasCreate2Eip3860
  | GasFn.gasExpFrontier => gasExpFrontier
  | GasFn.gasExpEIP160 => gasExpEIP160
  | GasFn.gasCall => gasCall
  | GasFn.gasCallCode => gasCallCode
  | GasFn.gasDelegateCall => gasDelegateCall
  | GasFn.gasStaticCall => gasStaticCall
  | GasFn.gasSelfdestruct => gasSelfdestruct
  | GasFn.makeGasSStoreFunc r => makeGasSStoreFunc r
  | GasFn.gasSLoadEIP2929 => gasSLoadEIP2929
  | GasFn.gasExtCodeCopyEIP2929 => gasExtCodeCopyEIP2929
  | GasFn.gasEip2929AccountCheck => gasEip2929AccountCheck
  | GasFn.makeCallVariantGasCallEIP2929 old => makeCallVariantGasCallEIP2929 (gas_fn old)
  | GasFn.makeSelfdestructGasFn b => makeSelfdestructGasFn b
  end.
End gas_table.
