(* ===== verification/Instructions.v ===== *)
(** The instructions of the EVM: core/vm/instructions.go and the op functions
    of core/vm/eips.go.

    An instruction runs in its frame and returns the bytes and the error of
    the Go function.  The calls back into the EVM (Call, Create, ...) are the
    fields of [EvmOps], which Interpreter ties to the interpreter itself. *)
From S2P Require Import Prelude Uint256 OpCodes Machine StateTypes Precompiles Contract EvmTypes JumpTable.
#[local] Open Scope Z_scope.

(** The methods of VMInterpreter the instructions call. *)
Record EvmOps {U : Uint256} {S : Type} := mk_EvmOps {
  Call : ContractRef -> address -> list Byte.byte -> Z -> u256 -> bool ->
         M (evmstate S) (list Byte.byte * Z * option EvmError);
  CallCode : ContractRef -> address -> list Byte.byte -> Z -> u256 ->
         M (evmstate S) (list Byte.byte * Z * option EvmError);
  DelegateCall : ContractRef -> address -> list Byte.byte -> Z ->
         M (evmstate S) (list Byte.byte * Z * option EvmError);
  StaticCall : ContractRef -> address -> list Byte.byte -> Z ->
         M (evmstate S) (list Byte.byte * Z * option EvmError);
  Create : ContractRef -> list Byte.byte -> Z -> u256 ->
         M (evmstate S) (list Byte.byte * address * Z * option EvmError);
  Create2 : ContractRef -> list Byte.byte -> Z -> u256 -> u256 ->
         M (evmstate S) (list Byte.byte * address * Z * option EvmError)
}.
Arguments EvmOps {U} S.

Section instructions.
Context {U : Uint256} {S : Type} {DB : StateDB S} (env : Env S) (evm : EvmOps S).

Abbreviation executionFunc := (M (frame S) (list Byte.byte * option EvmError)).

(** [return nil, nil] and [return nil, err]. *)
Definition next : executionFunc := mret ([], None).

Definition fails (e : EvmError) : executionFunc := mret ([], Some e).

(** [x, y := Pop(), Peek(); y.op(&x, y)] *)
Definition binop (f : u256 -> u256 -> u256) : executionFunc :=
  x ← pop; y ← peek; _ ← set_top (f x y); next.

Definition bool_word (b : bool) : u256 := if b then SetOne else Clear.

Definition opAdd : executionFunc := binop Add.
Definition opSub : executionFunc := binop Sub.
Definition opMul : executionFunc := binop Mul.
Definition opDiv : executionFunc := binop Div.
Definition opSdiv : executionFunc := binop SDiv.
Definition opMod : executionFunc := binop Mod.
Definition opSmod : executionFunc := binop SMod.

Definition opExp : executionFunc :=
  binop (fun base exponent =>
    if IsZero exponent then SetOne
    else if IsZero base then Clear
    else if LtUint64 exponent 2 then base
    else if LtUint64 base 2 then SetOne
    else if LtUint64 base 3 then
      if LtUint64 exponent 256 then Lsh SetOne (Uint64 exponent) else Clear
    else Exp base exponent).

Definition opSignExtend : executionFunc := binop (fun back num => ExtendSign num back).

Definition opNot : executionFunc := x ← peek; _ ← set_top (Not x); next.

Definition opLt : executionFunc := binop (fun x y => bool_word (Lt x y)).
Definition opGt : executionFunc := binop (fun x y => bool_word (Gt x y)).
Definition opSlt : executionFunc := binop (fun x y => bool_word (Slt x y)).
Definition opSgt : executionFunc := binop (fun x y => bool_word (Sgt x y)).
Definition opEq : executionFunc := binop (fun x y => bool_word (Eq x y)).

Definition opIszero : executionFunc := x ← peek; _ ← set_top (bool_word (IsZero x)); next.

Definition opAnd : executionFunc := binop And.
Definition opOr : executionFunc := binop Or.
Definition opXor : executionFunc := binop Xor.
Definition opByte : executionFunc := binop (fun th val => ByteAt th val).

Definition opAddmod : executionFunc :=
  x ← pop; y ← pop; z ← peek;
  _ ← set_top (if IsZero z then Clear else AddMod x y z); next.

Definition opMulmod : executionFunc :=
  x ← pop; y ← pop; z ← peek;
  _ ← set_top (if IsZero z then Clear else MulMod x y z); next.

Definition opSHL : executionFunc :=
  binop (fun shift value => if LtUint64 shift 256 then Lsh value (Uint64 shift) else Clear).

Definition opSHR : executionFunc :=
  binop (fun shift value => if LtUint64 shift 256 then Rsh value (Uint64 shift) else Clear).

Definition opSAR : executionFunc :=
  binop (fun shift value =>
    if GtUint64 shift 255 then if 0 <=? Sign value then Clear else SetAllOne
    else SRsh value (Uint64 shift)).

(** [scope.Memory.GetPtr(int64(offset.Uint64()), int64(size.Uint64()))] *)
Definition getPtr (offset size : u256) : M (frame S) (list Byte.byte) :=
  from_memory (GetPtr (int64_of_u64 (Uint64 offset)) (int64_of_u64 (Uint64 size))).

Definition getCopy (offset size : u256) : M (frame S) (list Byte.byte) :=
  from_memory (GetCopy (int64_of_u64 (Uint64 offset)) (int64_of_u64 (Uint64 size))).

Definition opKeccak256 : executionFunc :=
  offset ← pop; size ← peek;
  data ← getPtr offset size;
  _ ← set_top (word_of_hash (keccak256 env data)); next.

Definition opAddress : executionFunc :=
  a ← gets (fun f => self (f_Contract f)); _ ← push (word_of_addr a); next.

Definition opBalance : executionFunc :=
  slot ← peek; b ← db (db_GetBalance (addr_of slot)); _ ← set_top b; next.

Definition opOrigin : executionFunc := _ ← push (word_of_addr (Origin (txContext env))); next.

Definition opCaller : executionFunc :=
  a ← gets (fun f => CallerAddress (f_Contract f)); _ ← push (word_of_addr a); next.

Definition opCallValue : executionFunc :=
  v ← gets (fun f => value (f_Contract f)); v ← deref v; _ ← push v; next.

Definition opCallDataLoad : executionFunc :=
  x ← peek;
  let '(offset, overflow) := Uint64WithOverflow x in
  if negb overflow then
    input ← gets (fun f => Input (f_Contract f));
    data ← deref (getData input offset 32);
    _ ← set_top (SetBytes data); next
  else _ ← set_top Clear; next.

Definition opCallDataSize : executionFunc :=
  input ← gets (fun f => Input (f_Contract f));
  _ ← push (SetUint64 (Z.of_nat (length input))); next.

Definition opCallDataCopy : executionFunc :=
  memOffset ← pop; dataOffset ← pop; length ← pop;
  let '(dataOffset64, overflow) := Uint64WithOverflow dataOffset in
  let dataOffset64 := if (overflow : bool) then 0xffffffffffffffff else dataOffset64 in
  let memOffset64 := Uint64 memOffset in
  let length64 := Uint64 length in
  input ← gets (fun f => Input (f_Contract f));
  data ← deref (getData input dataOffset64 length64);
  _ ← on_memory (Set_ memOffset64 length64 data); next.

Definition opReturnDataSize : executionFunc :=
  r ← gets (fun f => returnData (f_evm f));
  _ ← push (SetUint64 (Z.of_nat (length r))); next.

Definition opReturnDataCopy : executionFunc :=
  memOffset ← pop; dataOffset ← pop; length_ ← pop;
  let '(offset64, overflow) := Uint64WithOverflow dataOffset in
  if (overflow : bool) then fails ErrReturnDataOutOfBounds
  else
    let '(fin, overflow) := AddOverflow dataOffset length_ in
    if (overflow : bool) then fails ErrReturnDataOutOfBounds
    else
      let '(end64, overflow) := Uint64WithOverflow fin in
      r ← gets (fun f => returnData (f_evm f));
      if (overflow : bool) || (Z.of_nat (length r) <? end64) then fails ErrReturnDataOutOfBounds
      else
        data ← deref (slice r offset64 end64);
        _ ← on_memory (Set_ (Uint64 memOffset) (Uint64 length_) data); next.

Definition opExtCodeSize : executionFunc :=
  slot ← peek; n ← db (db_GetCodeSize (addr_of slot)); _ ← set_top (SetUint64 (u64 n)); next.

Definition opCodeSize : executionFunc :=
  c ← gets (fun f => Code (f_Contract f));
  _ ← push (SetUint64 (Z.of_nat (length c))); next.

Definition opCodeCopy : executionFunc :=
  memOffset ← pop; codeOffset ← pop; length ← pop;
  let '(uint64CodeOffset, overflow) := Uint64WithOverflow codeOffset in
  let uint64CodeOffset := if (overflow : bool) then 0xffffffffffffffff else uint64CodeOffset in
  c ← gets (fun f => Code (f_Contract f));
  codeCopy ← deref (getData c uint64CodeOffset (Uint64 length));
  _ ← on_memory (Set_ (Uint64 memOffset) (Uint64 length) codeCopy); next.

Definition opExtCodeCopy : executionFunc :=
  a ← pop; memOffset ← pop; codeOffset ← pop; length ← pop;
  let len64 := Uint64 length in
  c ← db (db_GetCode (addr_of a));
  codeCopy ← deref (getDataBig c codeOffset len64);
  _ ← on_memory (Set_ (Uint64 memOffset) len64 codeCopy); next.

Definition opExtCodeHash : executionFunc :=
  slot ← peek;
  let address := addr_of slot in
  empty ← db (db_Empty address);
  if (empty : bool) then _ ← set_top Clear; next
  else h ← db (db_GetCodeHash address); _ ← set_top (word_of_hash h); next.

Definition opGasprice : executionFunc := _ ← push (GasPrice (txContext env)); next.

Definition opBlockhash : executionFunc :=
  num ← peek;
  let '(num64, overflow) := Uint64WithOverflow num in
  if (overflow : bool) then _ ← set_top Clear; next
  else
    let upper := BlockNumber (context env) in
    let lower := if upper <? 257 then 0 else upper - 256 in
    if (lower <=? num64) && (num64 <? upper)
    then _ ← set_top (word_of_hash (GetHash (context env) num64)); next
    else _ ← set_top Clear; next.

Definition opCoinbase : executionFunc := _ ← push (word_of_addr (Coinbase (context env))); next.

Definition opTimestamp : executionFunc := _ ← push (SetUint64 (Time (context env))); next.

Definition opNumber : executionFunc := _ ← push (SetUint64 (BlockNumber (context env))); next.

Definition opDifficulty : executionFunc :=
  match PrevRanDao (context env) with
  | Some r => _ ← push (word_of_hash r); next
  | None =>
      let '(v, overflow) := FromBig (Difficulty (context env)) in
      if (overflow : bool)
      then fails (ErrOther "interpreter.evm.Context.Difficulty higher than 2^256-1")
      else _ ← push v; next
  end.

Definition opGasLimit : executionFunc :=
  if MaxGasLimit (context env) then _ ← push SetAllOne; next
  else _ ← push (SetUint64 (GasLimit (context env))); next.

Definition opPop : executionFunc := _ ← pop; next.

Definition opMload : executionFunc :=
  v ← peek;
  let offset := Uint64 v in
  data ← from_memory (GetPtr (int64_of_u64 offset) 32);
  _ ← set_top (SetBytes data); next.

Definition opMstore : executionFunc :=
  mStart ← pop; val ← pop; _ ← on_memory (Set32 (Uint64 mStart) val); next.

Definition opMstore8 : executionFunc :=
  off ← pop; val ← pop;
  _ ← on_memory (SetByte (Uint64 off) (byte.of_Z (Uint64 val))); next.

Definition opSload : executionFunc :=
  loc ← peek;
  a ← gets (fun f => self (f_Contract f));
  v ← db (db_GetState a (hash_of loc));
  _ ← set_top v; next.

(** The guard of the state-changing instructions. *)
Definition unlessReadOnly (m : executionFunc) : executionFunc :=
  r ← gets (fun f => readOnly (f_evm f));
  if (r : bool) then fails ErrWriteProtection else m.

Definition opSstore : executionFunc := unlessReadOnly (
  loc ← pop; val ← pop;
  a ← gets (fun f => self (f_Contract f));
  _ ← db (db_SetState a (hash_of loc) val); next).

(** [scope.Contract.validJumpdest(&pos)]: only the first result matters; the
    second selects a log message. *)
Definition validJump (pos : u256) : M (frame S) bool := fun f =>
  '(valid, _, c, jd) ← validJumpdest (f_Contract f) (jumpdests (f_evm f)) pos;
  Ok (valid, set_evm (set_jumpdests jd (f_evm f)) (set_Contract c f)).

Definition jumpTo (pos : u256) : executionFunc :=
  valid ← validJump pos;
  if negb valid then fails ErrInvalidJump
  else _ ← modify (set_pc (u64_sub (Uint64 pos) 1)); next.

Definition opJump : executionFunc := pos ← pop; jumpTo pos.

Definition opJumpi : executionFunc :=
  pos ← pop; cond ← pop; if negb (IsZero cond) then jumpTo pos else next.

Definition opJumpdest : executionFunc := next.

Definition opPc : executionFunc := pc ← gets f_pc; _ ← push (SetUint64 pc); next.

Definition opMsize : executionFunc :=
  m ← gets f_Memory; _ ← push (SetUint64 (mem_Len m)); next.

Definition opGas : executionFunc :=
  g ← gets (fun f => Gas (f_Contract f)); _ ← push (SetUint64 g); next.

(** [scope.Contract.Gas += returnGas] and [interpreter.returnData = ret]. *)
Definition refundGas (returnGas : Z) : M (frame S) unit :=
  modify (fun f => set_Contract (set_Gas (u64_add (Gas (f_Contract f)) returnGas) (f_Contract f)) f).

Definition setReturnData (ret : list Byte.byte) : M (frame S) unit :=
  in_evm (modify (set_returnData ret)).

Definition opCreate : executionFunc := unlessReadOnly (
  val ← pop; offset ← pop; size ← peek;
  input ← getCopy offset size;
  gas ← gets (fun f => Gas (f_Contract f));
  let gas := if IsTangerineWhistle (chainRules env) then u64_sub gas (gas / 64) else gas in
  _ ← useGas gas;
  c ← gets f_Contract;
  r ← in_evm (Create evm (ptr c) input gas val);
  let '(res, addr, returnGas, suberr) := r in
  _ ← set_top
        (if IsHomestead (chainRules env) && bool_decide (suberr = Some ErrCodeStoreOutOfGas) then Clear
         else if bool_decide (suberr <> None) && bool_decide (suberr <> Some ErrCodeStoreOutOfGas) then Clear
         else word_of_addr addr);
  _ ← refundGas returnGas;
  if bool_decide (suberr = Some ErrExecutionReverted) then
    _ ← setReturnData res; mret (res, None)
  else _ ← setReturnData []; next).

Definition opCreate2 : executionFunc := unlessReadOnly (
  endowment ← pop; offset ← pop; size ← pop; salt ← pop;
  input ← getCopy offset size;
  gas ← gets (fun f => Gas (f_Contract f));
  let gas := u64_sub gas (gas / 64) in
  _ ← useGas gas;
  c ← gets f_Contract;
  r ← in_evm (Create2 evm (ptr c) input gas endowment salt);
  let '(res, addr, returnGas, suberr) := r in
  _ ← push (if bool_decide (suberr <> None) then Clear else word_of_addr addr);
  _ ← refundGas returnGas;
  if bool_decide (suberr = Some ErrExecutionReverted) then
    _ ← setReturnData res; mret (res, None)
  else _ ← setReturnData []; next).

(** What the four call instructions do with the result. *)
Definition afterCall (retOffset retSize : u256) (r : list Byte.byte * Z * option EvmError) : executionFunc :=
  let '(ret, returnGas, err) := r in
  _ ← push (bool_word (bool_decide (err = None)));
  _ ← (if bool_decide (err = None) || bool_decide (err = Some ErrExecutionReverted)
       then on_memory (Set_ (Uint64 retOffset) (Uint64 retSize) ret) else mret tt);
  _ ← refundGas returnGas;
  _ ← setReturnData ret;
  mret (ret, None).

Definition opCall : executionFunc :=
  _ ← pop;
  gas ← gets (fun f => callGasTemp (f_evm f));
  addr ← pop; val ← pop; inOffset ← pop; inSize ← pop; retOffset ← pop; retSize ← pop;
  let toAddr := addr_of addr in
  args ← getPtr inOffset inSize;
  ro ← gets (fun f => readOnly (f_evm f));
  if negb (IsZero val) && ro then fails ErrWriteProtection
  else
    let gas := if negb (IsZero val) then u64_add gas params.CallStipend else gas in
    c ← gets f_Contract;
    r ← in_evm (Call evm (ptr c) toAddr args gas val false);
    afterCall retOffset retSize r.

Definition opCallCode : executionFunc :=
  _ ← pop;
  gas ← gets (fun f => callGasTemp (f_evm f));
  addr ← pop; val ← pop; inOffset ← pop; inSize ← pop; retOffset ← pop; retSize ← pop;
  let toAddr := addr_of addr in
  args ← getPtr inOffset inSize;
  let gas := if negb (IsZero val) then u64_add gas params.CallStipend else gas in
  c ← gets f_Contract;
  r ← in_evm (CallCode evm (ptr c) toAddr args gas val);
  afterCall retOffset retSize r.

Definition opDelegateCall : executionFunc :=
  _ ← pop;
  gas ← gets (fun f => callGasTemp (f_evm f));
  addr ← pop; inOffset ← pop; inSize ← pop; retOffset ← pop; retSize ← pop;
  let toAddr := addr_of addr in
  args ← getPtr inOffset inSize;
  c ← gets f_Contract;
  r ← in_evm (DelegateCall evm (ptr c) toAddr args gas);
  afterCall retOffset retSize r.

Definition opStaticCall : executionFunc :=
  _ ← pop;
  gas ← gets (fun f => callGasTemp (f_evm f));
  addr ← pop; inOffset ← pop; inSize ← pop; retOffset ← pop; retSize ← pop;
  let toAddr := addr_of addr in
  args ← getPtr inOffset inSize;
  c ← gets f_Contract;
  r ← in_evm (StaticCall evm (ptr c) toAddr args gas);
  afterCall retOffset retSize r.

Definition opReturn : executionFunc :=
  offset ← pop; size ← pop; ret ← getPtr offset size; mret (ret, Some errStopToken).

Definition opRevert : executionFunc :=
  offset ← pop; size ← pop; ret ← getPtr offset size;
  _ ← setReturnData ret; mret (ret, Some ErrExecutionReverted).

Definition opUndefined : executionFunc :=
  pc ← gets f_pc; c ← gets f_Contract;
  b ← deref (lookupZ (Code c) pc);
  fails (ErrInvalidOpCode (byte.unsigned b)).

Definition opStop : executionFunc := fails errStopToken.

Definition opSelfdestruct : executionFunc := unlessReadOnly (
  beneficiary ← pop;
  callerAddr ← gets (fun f => self (f_Contract f));
  let beneficiaryAddr := addr_of beneficiary in
  balance ← db (db_GetBalance callerAddr);
  _ ← db (db_AddBalance beneficiaryAddr balance);
  _ ← db (db_Selfdestruct callerAddr);
  fails errStopToken).

Fixpoint pops (n : nat) : M (frame S) (list u256) :=
  match n with
  | O => mret []
  | Datatypes.S n => x ← pop; xs ← pops n; mret (x :: xs)
  end.

Definition makeLog (size : nat) : executionFunc := unlessReadOnly (
  mStart ← pop; mSize ← pop;
  topics ← pops size;
  d ← getCopy mStart mSize;
  a ← gets (fun f => self (f_Contract f));
  _ ← db (db_AddLog (mk_Log a (hash_of <$> topics) d (BlockNumber (context env)) 0%N 0 0%N 0));
  next).

Definition opPush1 : executionFunc :=
  _ ← modify (fun f => set_pc (u64_add (f_pc f) 1) f);
  pc ← gets f_pc; c ← gets f_Contract;
  if pc <? Z.of_nat (length (Code c)) then
    b ← deref (lookupZ (Code c) pc);
    _ ← push (SetUint64 (byte.unsigned b)); next
  else _ ← push Clear; next.

Definition makePush (size pushByteSize : Z) : executionFunc :=
  c ← gets f_Contract;
  pc ← gets f_pc;
  let codeLen := Z.of_nat (length (Code c)) in
  let startMin := int64_of_u64 (u64_add pc 1) in
  let startMin := if codeLen <=? startMin then codeLen else startMin in
  let endMin := if codeLen <=? startMin + pushByteSize then codeLen else startMin + pushByteSize in
  bytes ← deref (slice (Code c) startMin endMin);
  _ ← push (SetBytes (RightPadBytes bytes pushByteSize));
  _ ← modify (fun f => set_pc (u64_add (f_pc f) size) f); next.

(** A stack operation that can panic. *)
Definition on_stack (g : Stack -> option Stack) : M (frame S) unit := fun f =>
  st ← or_panic (g (f_Stack f)); Ok (tt, set_Stack st f).

Definition makeDup (size : nat) : executionFunc := _ ← on_stack (Dup size); next.

Definition makeSwap (size : nat) : executionFunc :=
  _ ← on_stack (Swap (Datatypes.S size)); next.

(** ** eips.go *)
Definition opSelfBalance : executionFunc :=
  a ← gets (fun f => self (f_Contract f));
  balance ← db (db_GetBalance a); _ ← push balance; next.

Definition opChainID : executionFunc :=
  let '(chainId, _) := FromBig (ChainID (chainRules env)) in _ ← push chainId; next.

Definition opBaseFee : executionFunc := _ ← push (BaseFee (context env)); next.

Definition opPush0 : executionFunc := _ ← push Clear; next.

(** What the names in the tables stand for. *)
Definition exec_fn (t : ExecFn.t) : executionFunc :=
  match t with
  | ExecFn.opAdd => opAdd | ExecFn.opSub => opSub | ExecFn.opMul => opMul
  | ExecFn.opDiv => opDiv | ExecFn.opSdiv => opSdiv | ExecFn.opMod => opMod
  | ExecFn.opSmod => opSmod | ExecFn.opExp => opExp | ExecFn.opSignExtend => opSignExtend
  | ExecFn.opNot => opNot | ExecFn.opLt => opLt | ExecFn.opGt => opGt | ExecFn.opSlt => opSlt
  | ExecFn.opSgt => opSgt | ExecFn.opEq => opEq | ExecFn.opIszero => opIszero
  | ExecFn.opAnd => opAnd | ExecFn.opOr => opOr | ExecFn.opXor => opXor | ExecFn.opByte => opByte
  | ExecFn.opAddmod => opAddmod | ExecFn.opMulmod => opMulmod | ExecFn.opSHL => opSHL
  | ExecFn.opSHR => opSHR | ExecFn.opSAR => opSAR | ExecFn.opKeccak256 => opKeccak256
  | ExecFn.opAddress => opAddress | ExecFn.opBalance => opBalance | ExecFn.opOrigin => opOrigin
  | ExecFn.opCaller => opCaller | ExecFn.opCallValue => opCallValue
  | ExecFn.opCallDataLoad => opCallDataLoad | ExecFn.opCallDataSize => opCallDataSize
  | ExecFn.opCallDataCopy => opCallDataCopy | ExecFn.opReturnDataSize => opReturnDataSize
  | ExecFn.opReturnDataCopy => opReturnDataCopy | ExecFn.opExtCodeSize => opExtCodeSize
  | ExecFn.opCodeSize => opCodeSize | ExecFn.opCodeCopy => opCodeCopy
  | ExecFn.opExtCodeCopy => opExtCodeCopy | ExecFn.opExtCodeHash => opExtCodeHash
  | ExecFn.opGasprice => opGasprice | ExecFn.opBlockhash => opBlockhash
  | ExecFn.opCoinbase => opCoinbase | ExecFn.opTimestamp => opTimestamp
  | ExecFn.opNumber => opNumber | ExecFn.opDifficulty => opDifficulty
  | ExecFn.opGasLimit => opGasLimit | ExecFn.opPop => opPop | ExecFn.opMload => opMload
  | ExecFn.opMstore => opMstore | ExecFn.opMstore8 => opMstore8 | ExecFn.opSload => opSload
  | ExecFn.opSstore => opSstore | ExecFn.opJump => opJump | ExecFn.opJumpi => opJumpi
  | ExecFn.opJumpdest => opJumpdest | ExecFn.opPc => opPc | ExecFn.opMsize => opMsize
  | ExecFn.opGas => opGas | ExecFn.opCreate => opCreate | ExecFn.opCreate2 => opCreate2
  | ExecFn.opCall => opCall | ExecFn.opCallCode => opCallCode
  | ExecFn.opDelegateCall => opDelegateCall | ExecFn.opStaticCall => opStaticCall
  | ExecFn.opReturn => opReturn | ExecFn.opRevert => opRevert | ExecFn.opUndefined => opUndefined
  | ExecFn.opStop => opStop | ExecFn.opSelfdestruct => opSelfdestruct
  | ExecFn.opSelfBalance => opSelfBalance | ExecFn.opChainID => opChainID
  | ExecFn.opBaseFee => opBaseFee | ExecFn.opPush0 => opPush0 | ExecFn.opPush1 => opPush1
  | ExecFn.makeLog n => makeLog n | ExecFn.makePush n m => makePush n m
  | ExecFn.makeDup n => makeDup n | ExecFn.makeSwap n => makeSwap n
  end.
End instructions.
