(* ===== verification/Interpreter.v ===== *)
(** The interpreter loop (core/vm/interpreter.go) and the EVM entry points
    that recurse through it (core/vm/evm.go), with the balance transfers of
    core/evm.go. *)
From S2P Require Import Prelude Uint256 OpCodes Machine StateTypes Precompiles Contract EvmTypes JumpTable GasTable Instructions.
#[local] Open Scope Z_scope.

Section interpreter.
Context {U : Uint256} {L : LibMath} {S : Type} {DB : StateDB S} (env : Env S) (jt : JumpTable).

(** * interpreter.go *)

(** The size of the memory the instruction needs, in whole words. *)
Definition requestedMemory (operation : operation) : M (frame S) (result Z) :=
  match op_memorySize operation with
  | None => done_ 0
  | Some ms =>
      st ← gets f_Stack;
      sz ← deref (memorySize ms st);
      let '(memSize, overflow) := sz in
      if (overflow : bool) then fail_ ErrGasUintOverflow
      else mret (checked (SafeMul (ToWordSize memSize) 32))
  end.

(** The dynamic gas of an instruction, paid before it runs; the result is the
    error [Run] returns, if any. *)
Definition useDynamicGas (operation : operation) : M (frame S) (option EvmError) :=
  match dynamicGas operation with
  | None => mret None
  | Some g =>
      r ← requestedMemory operation;
      match r with
      | inr e => mret (Some e)
      | inl memorySize =>
          r ← gas_fn env g memorySize;
          match r with
          | inr _ => mret (Some ErrOutOfGas)
          | inl dynamicCost =>
              ok ← useGas dynamicCost;
              if negb ok then mret (Some ErrOutOfGas)
              else
                _ ← (if 0 <? memorySize
                     then modify (fun f => set_Memory (Resize memorySize (f_Memory f)) f)
                     else mret tt);
                mret None
          end
      end
  end.

(** One round of the loop of [Run], from fetching the opcode to executing it.
    An early [return nil, err] of the loop body is the result [([], Some err)];
    [None] as the error means that the loop goes on. *)
Definition step (evm : EvmOps S) : M (frame S) (list Byte.byte * option EvmError) :=
  pc ← gets f_pc;
  c ← gets f_Contract;
  st ← gets f_Stack;
  let op := GetOp pc c in
  entry ← deref (lookupZ jt op);
  operation ← deref entry;
  let sLen := Len st in
  if sLen <? numPop operation then
    mret ([], Some (ErrStackUnderflow sLen (numPop operation)))
  else if maxStack operation <? sLen then
    mret ([], Some (ErrStackOverflow sLen (maxStack operation)))
  else
    ok ← useGas (constantGas operation);
    if negb ok then mret ([], Some ErrOutOfGas)
    else
      err ← useDynamicGas operation;
      match err with
      | Some e => mret ([], Some e)
      | None => exec_fn env evm (execute operation)
      end.

(** The read of the abort flag. *)
Definition readCancelled : M (frame S) bool := fun f =>
  let e := f_evm f in
  Ok (Cancelled env (checks e), set_evm (set_checks (Datatypes.S (checks e)) e) f).

(** The loop.  [steps] is the counter, [res] the result of the last
    instruction. *)
Fixpoint loop (evm : EvmOps S) (fuel : nat) (steps : Z) (res : list Byte.byte)
    : M (frame S) (list Byte.byte * option EvmError) :=
  match fuel with
  | O => out_of_fuel
  | Datatypes.S fuel =>
      let steps := steps + 1 in
      stop ← (if steps mod 1000 =? 0 then readCancelled else mret false);
      if (stop : bool) then mret (res, None)
      else
        r ← step evm;
        let '(res, err) := r in
        match err with
        | Some e => mret (res, if bool_decide (e = errStopToken) then None else Some e)
        | None =>
            _ ← modify (fun f => set_pc (u64_add (f_pc f) 1) f);
            loop evm fuel steps res
        end
  end.

(** Every round that does not leave the loop costs gas, so the gas of the
    contract bounds their number. *)
Definition loopFuel (c : Contract) : nat := Datatypes.S (Z.to_nat (Gas c)).

(** Run returns also the contract, of which the caller reads the gas left. *)
Definition Run (evm : EvmOps S) (contract : Contract) (input : list Byte.byte) (readOnly_ : bool)
    : M (evmstate S) (list Byte.byte * option EvmError * Contract) :=
  _ ← modify (fun e => set_depth (depth e + 1) e);
  ro ← gets readOnly;
  let entered := readOnly_ && negb ro in
  _ ← (if entered then modify (set_readOnly true) else mret tt);
  _ ← modify (set_returnData []);
  r ← (if (length (Code contract) =? 0)%nat then mret ([], None, contract)
       else fun e =>
         '(r, f) ← loop evm (loopFuel contract) 0 []
                     (mk_frame e 0 [] NewMemory (set_Input input contract));
         Ok ((r.1, r.2, f_Contract f), f_evm f));
  _ ← (if entered then modify (set_readOnly false) else mret tt);
  _ ← modify (fun e => set_depth (depth e - 1) e);
  mret r.

(** * evm.go *)
Section entry_points.
(** [run] is the interpreter at this depth. *)
Context (run : Contract -> list Byte.byte -> bool ->
               M (evmstate S) (list Byte.byte * option EvmError * Contract)).

Definition isZeroValue (value : option u256) : M (evmstate S) bool :=
  v ← deref value; mret (IsZero v).

Abbreviation callResult := (list Byte.byte * Z * option EvmError)%type.

(** The contract a call runs, by the kind of call. *)
Definition newCallContract (typ : Z) (caller : ContractRef) (addr : address) (codeHash : hash)
    (code : list Byte.byte) (gas : Z) (value : option u256) : M (evmstate S) Contract := fun e =>
  let object := if (typ =? Op.CALLCODE) || (typ =? Op.DELEGATECALL) then ref_Address caller else addr in
  let '(c, jd) := NewContract caller object value gas (SkipAnalysis (config env)) (jumpdests e) in
  c ← (if typ =? Op.DELEGATECALL then AsDelegate c else Ok c);
  Ok (SetCallCode addr codeHash code c, set_jumpdests jd e).

(** The body of the call, once the value has been moved. *)
Definition runCall (typ : Z) (caller : ContractRef) (addr : address) (input : list Byte.byte)
    (gas : Z) (value : option u256) (p : option Precompile) (code : list Byte.byte)
    : M (evmstate S) callResult :=
  match p with
  | Some p => mret (RunPrecompiledContract (native env p) input gas)
  | None =>
      if (length code =? 0)%nat then mret ([], gas, None)
      else
        codeHash ← in_ibs (db_GetCodeHash addr);
        contract ← newCallContract typ caller addr codeHash code gas value;
        r ← run contract input (typ =? Op.STATICCALL);
        let '(ret, err, contract) := r in
        mret (ret, Gas contract, err)
  end.

(** Whether the caller lacks the value it sends. *)
Definition cannotPay (typ : Z) (caller : ContractRef) (value : option u256) (bailout : bool)
    : M (evmstate S) bool :=
  if (typ =? Op.CALL) || (typ =? Op.CALLCODE) then
    v ← deref value;
    if negb (IsZero v) then
      can ← in_ibs (CanTransfer (context env) (ref_Address caller) v);
      mret (negb can && negb bailout)
    else mret false
  else mret false.

(** Moving the value, or touching the account; [true] for the call that has
    nothing to do. *)
Definition moveValue (typ : Z) (caller : ContractRef) (addr : address) (value : option u256)
    (bailout isPrecompile : bool) : M (evmstate S) bool :=
  if typ =? Op.CALL then
    v ← deref value;
    exist ← in_ibs (db_Exist addr);
    if negb exist && negb isPrecompile && IsSpuriousDragon (chainRules env) && IsZero v
    then mret true
    else
      _ ← (if negb exist then in_ibs (db_CreateAccount addr false) else mret tt);
      _ ← in_ibs (Transfer (context env) (ref_Address caller) addr v bailout);
      mret false
  else if typ =? Op.STATICCALL then
    _ ← in_ibs (db_AddBalance addr Clear); mret false
  else mret false.

Definition call (typ : Z) (caller : ContractRef) (addr : address) (input : list Byte.byte)
    (gas : Z) (value : option u256) (bailout : bool) : M (evmstate S) callResult :=
  d ← gets depth;
  if NoRecursion (config env) && (0 <? d) then mret ([], gas, None)
  else if params.CallCreateDepth <? d then mret ([], gas, Some ErrDepth)
  else
    poor ← cannotPay typ caller value bailout;
    if (poor : bool) then mret ([], gas, Some ErrInsufficientBalance)
    else
      let p := precompile (chainRules env) addr in
      code ← (if negb (isSome p) then in_ibs (db_GetCode addr) else mret []);
      snapshot ← in_ibs db_Snapshot;
      noop ← moveValue typ caller addr value bailout (isSome p);
      if (noop : bool) then mret ([], gas, None)
      else
        r ← runCall typ caller addr input gas value p code;
        let '(ret, gas, err) := r in
        if bool_decide (err <> None) || RestoreState (config env) then
          _ ← in_ibs (db_RevertToSnapshot snapshot);
          mret (ret, if bool_decide (err <> Some ErrExecutionReverted) then 0 else gas, err)
        else mret (ret, gas, err).

Definition HasEip3860 : bool :=
  bool_decide (3860 ∈ ExtraEips (config env)) || IsShanghai (chainRules env).

Definition emptyCodeHash : hash := keccak256 env [].

(** The errors of [create] that the returned code itself causes. *)
Definition codeError (ret : list Byte.byte) (err : option EvmError) : option EvmError :=
  let err :=
    if bool_decide (err = None) && IsSpuriousDragon (chainRules env) &&
       (params.MaxCodeSize <? Z.of_nat (length ret)) &&
       (negb (IsAura (chainRules env)) || HasEip3860)
    then Some ErrMaxCodeSizeExceeded else err in
  if bool_decide (err = None) && IsLondon (chainRules env) &&
     match ret with b :: _ => byte.unsigned b =? 0xEF | [] => false end
  then Some ErrInvalidCode else err.

Abbreviation createResult := (list Byte.byte * address * Z * option EvmError)%type.

(** The nonce of the creator; [true] when it is used up. *)
Definition incrementNonceOf (caller : ContractRef) (incrementNonce : bool) : M (evmstate S) bool :=
  if incrementNonce then
    nonce ← in_ibs (db_GetNonce (ref_Address caller));
    if u64_add nonce 1 <? nonce then mret true
    else _ ← in_ibs (db_SetNonce (ref_Address caller) (u64_add nonce 1)); mret false
  else mret false.

(** Whether the address is taken. *)
Definition collision (addr : address) : M (evmstate S) bool :=
  contractHash ← in_ibs (db_GetCodeHash addr);
  nonce ← in_ibs (db_GetNonce addr);
  mret (negb (nonce =? 0) ||
        (bool_decide (contractHash <> 0%N) && bool_decide (contractHash <> emptyCodeHash))).

(** Paying for the code and storing it. *)
Definition storeCode (addr : address) (ret : list Byte.byte) (err : option EvmError)
    (contract : Contract) : M (evmstate S) (option EvmError * Contract) :=
  if bool_decide (err = None) then
    let createDataGas := u64_mul (Z.of_nat (length ret)) params.CreateDataGas in
    let '(ok, contract) := UseGas createDataGas contract in
    if (ok : bool) then
      _ ← in_ibs (db_SetCode addr ret); mret (None, contract)
    else if IsHomestead (chainRules env)
    then mret (Some ErrCodeStoreOutOfGas, contract)
    else mret (None, contract)
  else mret (err, contract).

(** The new account, with its nonce and its endowment. *)
Definition endow (caller : ContractRef) (addr : address) (value : u256) : M (evmstate S) unit :=
  _ ← in_ibs (db_CreateAccount addr true);
  _ ← (if IsSpuriousDragon (chainRules env) then in_ibs (db_SetNonce addr 1) else mret tt);
  in_ibs (Transfer (context env) (ref_Address caller) addr value false).

(** The part of [create] after the snapshot. *)
Definition deploy (snapshot : nat) (caller : ContractRef) (code : list Byte.byte) (codeHash : hash)
    (gas : Z) (value : u256) (addr : address) : M (evmstate S) createResult :=
  _ ← endow caller addr value;
  jd ← gets jumpdests;
  let '(contract, jd) :=
    NewContract caller addr (Some value) gas (SkipAnalysis (config env)) jd in
  _ ← modify (set_jumpdests jd);
  let contract := SetCallCode addr codeHash code contract in
  d ← gets depth;
  if NoRecursion (config env) && (0 <? d) then mret ([], addr, gas, None)
  else
    r ← run contract [] false;
    let '(ret, err, contract) := r in
    stored ← storeCode addr ret (codeError ret err) contract;
    let '(err, contract) := stored in
    if bool_decide (err <> None) &&
       (IsHomestead (chainRules env) || bool_decide (err <> Some ErrCodeStoreOutOfGas))
    then
      _ ← in_ibs (db_RevertToSnapshot snapshot);
      let contract := if bool_decide (err <> Some ErrExecutionReverted)
                      then (UseGas (Gas contract) contract).2 else contract in
      mret (ret, addr, Gas contract, err)
    else mret (ret, addr, Gas contract, err).

Definition create (caller : ContractRef) (code : list Byte.byte) (codeHash : hash) (gas : Z)
    (value : u256) (addr : address) (incrementNonce : bool) : M (evmstate S) createResult :=
  d ← gets depth;
  let fail err left : M (evmstate S) createResult := mret ([], 0%N, left, Some err) in
  if params.CallCreateDepth <? d then fail ErrDepth gas
  else
    can ← in_ibs (CanTransfer (context env) (ref_Address caller) value);
    if negb can then fail ErrInsufficientBalance gas
    else
      full ← incrementNonceOf caller incrementNonce;
      if (full : bool) then fail ErrNonceUintOverflow gas
      else
        _ ← (if IsBerlin (chainRules env) then in_ibs (db_AddAddressToAccessList addr) else mret tt);
        taken ← collision addr;
        if (taken : bool) then fail ErrContractAddressCollision 0
        else
          snapshot ← in_ibs db_Snapshot;
          deploy snapshot caller code codeHash gas value addr.

(** crypto.CreateAddress2: the last 20 bytes of the hash. *)
Definition CreateAddress2 (b : address) (salt : u256) (inithash : hash) : address :=
  (keccak256 env (Byte.xff :: be_split 20 (Z.of_N b) ++ Bytes32 salt ++ be_split 32 (Z.of_N inithash))
     mod 2 ^ 160)%N.

Definition evm_Create (caller : ContractRef) (code : list Byte.byte) (gas : Z) (endowment : u256)
    : M (evmstate S) createResult :=
  nonce ← in_ibs (db_GetNonce (ref_Address caller));
  create caller code 0%N gas endowment (CreateAddress env (ref_Address caller) nonce) true.

Definition evm_Create2 (caller : ContractRef) (code : list Byte.byte) (gas : Z)
    (endowment salt : u256) : M (evmstate S) createResult :=
  let h := keccak256 env code in
  create caller code h gas endowment (CreateAddress2 (ref_Address caller) salt h) true.

Definition SysCreate (caller : ContractRef) (code : list Byte.byte) (gas : Z) (endowment : u256)
    (contractAddr : address) : M (evmstate S) callResult :=
  r ← create caller code 0%N gas endowment contractAddr false;
  let '(ret, _, leftOverGas, err) := r in mret (ret, leftOverGas, err).

Definition evm_ops : EvmOps S := {|
  Call caller addr input gas value bailout := call Op.CALL caller addr input gas (Some value) bailout;
  CallCode caller addr input gas value := call Op.CALLCODE caller addr input gas (Some value) false;
  DelegateCall caller addr input gas := call Op.DELEGATECALL caller addr input gas None false;
  StaticCall caller addr input gas := call Op.STATICCALL caller addr input gas (Some Clear) false;
  Create := evm_Create;
  Create2 := evm_Create2
|}.
End entry_points.

(** The EVM with [n] levels of calls left.  The depth check of [call] and
    [create] stops at depth 1025, so [1026] levels are never used up. *)
Fixpoint EVM (n : nat) : EvmOps S :=
  match n with
  | O => {| Call _ _ _ _ _ _ := out_of_fuel; CallCode _ _ _ _ _ := out_of_fuel;
            DelegateCall _ _ _ _ := out_of_fuel; StaticCall _ _ _ _ := out_of_fuel;
            Create _ _ _ _ := out_of_fuel; Create2 _ _ _ _ _ := out_of_fuel |}
  | Datatypes.S n => evm_ops (Run (EVM n))
  end.

Definition evm : EvmOps S := EVM 1026.
End interpreter.

(** * core/evm.go *)
Section transfer.
Context {U : Uint256} {S : Type} {DB : StateDB S}.

Definition CanTransfer_ (addr : address) (amount : u256) : M S bool :=
  b ← db_GetBalance addr; mret (negb (Lt b amount)).

Definition Transfer_ (sender recipient : address) (amount : u256) (bailout : bool) : M S unit :=
  _ ← (if negb bailout then db_SubBalance sender amount else mret tt);
  db_AddBalance recipient amount.

Definition transferLogSig : hash := 0xe6497e3ee548a3372136af2fcb0696db31fc6cf20260707645068bd3fe97f3c4%N.

Definition feeAddress : address := 0x1010%N.

(** addTransferLog of core/bor_fee_log.go. *)
Definition addTransferLog (eventSig : hash) (sender recipient : address)
    (amount input1 input2 output1 output2 : u256) : M S unit :=
  if IsZero amount then mret tt
  else
    db_AddLog (mk_Log feeAddress [eventSig; feeAddress; sender; recipient]
      (Bytes32 amount ++ Bytes32 input1 ++ Bytes32 input2 ++ Bytes32 output1 ++ Bytes32 output2)
      0 0%N 0 0%N 0).

Definition BorTransfer (sender recipient : address) (amount : u256) (bailout : bool) : M S unit :=
  input1 ← db_GetBalance sender;
  input2 ← db_GetBalance recipient;
  _ ← (if negb bailout then db_SubBalance sender amount else mret tt);
  _ ← db_AddBalance recipient amount;
  output1 ← db_GetBalance sender;
  output2 ← db_GetBalance recipient;
  addTransferLog transferLogSig sender recipient amount input1 input2 output1 output2.
End transfer.
