(* ===== verification/EvmLogic.v ===== *)
(** The program logic of the EVM proofs: what the state database promises to
    the EVM, and triples over frames.

    A triple [wp Pan m s Q] says that [m] run in [s] never runs out of fuel,
    that it can only panic or block if [Pan] holds, and that otherwise its
    result satisfies [Q].  With [Pan := False] it excludes panics; with
    [Pan := True] it says nothing about them. *)
From S2P Require Import Prelude Uint256 StateTypes Machine MachineSpec Precompiles Contract EvmTypes.
#[local] Open Scope Z_scope.

Definition wp (Pan : Prop) {St A : Type} (m : M St A) (s : St) (Q : A -> St -> Prop) : Prop :=
  match m s with
  | Ok (a, s') => Q a s'
  | Panic | Deadlock => Pan
  | OutOfFuel => False
  end.

Section wp_rules.
Context {Pan : Prop} {St A B : Type}.
Implicit Types (m : M St A) (s : St).

Lemma wp_ret (a : A) s (Q : A -> St -> Prop) : Q a s -> wp Pan (mret a) s Q.
Proof. done. Qed.

Lemma wp_bind m (k : A -> M St B) s (Q : B -> St -> Prop) :
  wp Pan m s (fun a s' => wp Pan (k a) s' Q) -> wp Pan (m ≫= k) s Q.
Proof. unfold wp, mbind, M_bind. by destruct (m s) as [[a s']| | |]. Qed.

Lemma wp_mono m s (Q Q' : A -> St -> Prop) :
  wp Pan m s Q -> (forall a s', Q a s' -> Q' a s') -> wp Pan m s Q'.
Proof. unfold wp. destruct (m s) as [[a s']| | |]; auto. Qed.

Lemma wp_gets (f : St -> A) s (Q : A -> St -> Prop) : Q (f s) s -> wp Pan (gets f) s Q.
Proof. done. Qed.

Lemma wp_modify (f : St -> St) s (Q : unit -> St -> Prop) : Q tt (f s) -> wp Pan (modify f) s Q.
Proof. done. Qed.

Lemma wp_deref (o : option A) s (Q : A -> St -> Prop) a :
  o = Some a -> Q a s -> wp Pan (deref o) s Q.
Proof. by intros ->. Qed.

Lemma wp_Ok m s (Q : A -> St -> Prop) r : wp Pan m s Q -> m s = Ok r -> Q r.1 r.2.
Proof. unfold wp. intros H E. rewrite E in H. by destruct r. Qed.
End wp_rules.

(** * What the EVM relies on from the state database

    [I] is an invariant of the database.  [R] relates two states between
    which nothing happened that the world could see: the accounts, their
    balances, nonces, code and storage and the logs are the same (the refund
    counter, the access list, and the accounts merely read or touched may
    differ).  [Rw] relates a state to any later one, up to reverts.  The law of
    [db_Snapshot] is the contract of RevertToSnapshot.  [codeAt] is the code of
    an account, which only a creation changes, and [codeOf] the code behind a
    code hash. *)
Section laws.
Context {U : Uint256} {S : Type} {DB : StateDB S}.

(** [m] keeps the invariant and moves the state along [X]. *)
Definition keeps {A : Type} (Pan : Prop) (I : S -> Prop) (X : S -> S -> Prop) (m : M S A) : Prop :=
  forall s, I s -> wp Pan m s (fun _ s' => I s' /\ X s s').

Record DBLaws (ctx : BlockContext S) (Pan : Prop) (I : S -> Prop) (R Rw : S -> S -> Prop)
    (codeOf : hash -> list Byte.byte) (codeAt : S -> address -> list Byte.byte) : Prop := {
  R_refl s : R s s;
  R_trans s1 s2 s3 : R s1 s2 -> R s2 s3 -> R s1 s3;
  Rw_trans s1 s2 s3 : Rw s1 s2 -> Rw s2 s3 -> Rw s1 s3;
  R_Rw s s' : R s s' -> Rw s s';
  (* reads *)
  law_GetBalance a : keeps Pan I R (db_GetBalance a);
  law_GetNonce a : keeps Pan I R (db_GetNonce a);
  law_GetCodeHash a s : I s -> wp Pan (db_GetCodeHash a) s (fun h s' =>
    I s' /\ R s s' /\ (Pan \/ (h <> 0%N -> codeAt s a <> [] -> codeOf h = codeAt s a)));
  law_GetCode a s : I s -> wp Pan (db_GetCode a) s (fun c s' =>
    I s' /\ R s s' /\ (Pan \/ c = codeAt s a /\ Z.of_nat (length c) < 2 ^ 63));
  R_code s s' a : R s s' -> Pan \/ codeAt s' a = codeAt s a;
  law_GetCodeSize a : keeps Pan I R (db_GetCodeSize a);
  law_GetCommittedState a k : keeps Pan I R (db_GetCommittedState a k);
  law_GetState a k : keeps Pan I R (db_GetState a k);
  law_HasSelfdestructed a : keeps Pan I R (db_HasSelfdestructed a);
  law_Exist a : keeps Pan I R (db_Exist a);
  law_Empty a : keeps Pan I R (db_Empty a);
  law_AddressInAccessList a : keeps Pan I R (db_AddressInAccessList a);
  (* an account whose slot is touched is on the access list already *)
  law_SlotInAccessList a k s : I s -> wp Pan (db_SlotInAccessList a k) s (fun p s' =>
    I s' /\ R s s' /\ (p.2 = false -> p.1 = false -> Pan));
  law_CanTransfer a v : keeps Pan I R (CanTransfer ctx a v);
  (* bookkeeping that is not part of the world *)
  law_GetRefund s : I s -> wp Pan db_GetRefund s (fun n s' => I s' /\ R s s' /\ is_u64 n);
  law_PrepareAccessList a d ps l : keeps Pan I R (db_PrepareAccessList a d ps l);
  law_AddRefund n : keeps Pan I R (db_AddRefund n);
  law_SubRefund n : keeps Pan I R (db_SubRefund n);
  law_AddAddressToAccessList a : keeps Pan I R (db_AddAddressToAccessList a);
  law_AddSlotToAccessList a k : keeps Pan I R (db_AddSlotToAccessList a k);
  law_touch a : keeps Pan I R (db_AddBalance a Clear);
  law_CreateAccount_missing a s s1 : I s -> db_Exist a s = Ok (false, s1) ->
    wp Pan (db_CreateAccount a false) s1 (fun _ s2 => I s2 /\ R s1 s2);
  law_Transfer_zero a b v bail : IsZero v = true -> keeps Pan I R (Transfer ctx a b v bail);
  (* writes *)
  law_CreateAccount a b : keeps Pan I Rw (db_CreateAccount a b);
  law_SubBalance a v : keeps Pan I Rw (db_SubBalance a v);
  law_AddBalance a v : keeps Pan I Rw (db_AddBalance a v);
  law_SetNonce a n : keeps Pan I Rw (db_SetNonce a n);
  law_SetCode a c : keeps Pan I Rw (db_SetCode a c);
  law_SetState a k v : keeps Pan I Rw (db_SetState a k v);
  law_Selfdestruct a : keeps Pan I Rw (db_Selfdestruct a);
  law_AddLog l : keeps Pan I Rw (db_AddLog l);
  law_Transfer a b v bail s : I s -> wp Pan (Transfer ctx a b v bail) s (fun _ s' =>
    I s' /\ Rw s s' /\ (forall c, Pan \/ codeAt s' c = codeAt s c));
  (* snapshots *)
  law_Snapshot s : I s -> wp Pan db_Snapshot s (fun id s1 => I s1 /\ R s s1 /\
    forall s2, I s2 -> Rw s1 s2 -> wp Pan (db_RevertToSnapshot id) s2 (fun _ s3 => I s3 /\ R s s3))
}.

Lemma keeps_weaken {A} Pan I (X Y : S -> S -> Prop) (m : M S A) :
  (forall s s', X s s' -> Y s s') -> keeps Pan I X m -> keeps Pan I Y m.
Proof.
  intros H Hm s Hs. eapply wp_mono; [by apply Hm|]. intros a s' [? ?]. auto.
Qed.
End laws.

(** * Triples over frames *)
Section frames.
Context {U : Uint256} {US : Uint256Spec U} {S : Type} {DB : StateDB S}.
Context {Pan : Prop}.
Implicit Types f : frame S.

Lemma wp_in_ibs {A} (m : M S A) e (Q : A -> evmstate S -> Prop) :
  wp Pan m (ibs e) (fun a s => Q a (set_ibs s e)) -> wp Pan (in_ibs m) e Q.
Proof. unfold wp, in_ibs. by destruct (m (ibs e)) as [[a s]| | |]. Qed.

Lemma wp_in_evm {A} (m : M (evmstate S) A) f (Q : A -> frame S -> Prop) :
  wp Pan m (f_evm f) (fun a e => Q a (set_evm e f)) -> wp Pan (in_evm m) f Q.
Proof. unfold wp, in_evm. by destruct (m (f_evm f)) as [[a s]| | |]. Qed.

Lemma wp_db {A} (m : M S A) f (Q : A -> frame S -> Prop) :
  wp Pan m (ibs (f_evm f)) (fun a s => Q a (set_evm (set_ibs s (f_evm f)) f)) ->
  wp Pan (db m) f Q.
Proof. intros H. by apply wp_in_evm, wp_in_ibs. Qed.

Lemma wp_pop f (Q : u256 -> frame S -> Prop) x st :
  f_Stack f = x :: st -> Q x (set_Stack st f) -> wp Pan pop f Q.
Proof. unfold wp, pop. by intros ->. Qed.

Lemma wp_peek f (Q : u256 -> frame S -> Prop) x st :
  f_Stack f = x :: st -> Q x f -> wp Pan peek f Q.
Proof. unfold wp, peek, Peek. by intros ->. Qed.

Lemma wp_back n f (Q : u256 -> frame S -> Prop) x :
  f_Stack f !! n = Some x -> Q x f -> wp Pan (back n) f Q.
Proof. unfold wp, back, Back. by intros ->. Qed.

Lemma wp_set_top v f (Q : unit -> frame S -> Prop) x st :
  f_Stack f = x :: st -> Q tt (set_Stack (v :: st) f) -> wp Pan (set_top v) f Q.
Proof. unfold wp, set_top. by intros ->. Qed.

Lemma wp_push v f (Q : unit -> frame S -> Prop) :
  Q tt (set_Stack (v :: f_Stack f) f) -> wp Pan (push v) f Q.
Proof. done. Qed.

Lemma wp_on_memory g f (Q : unit -> frame S -> Prop) m :
  g (f_Memory f) = Some m -> Q tt (set_Memory m f) -> wp Pan (on_memory g) f Q.
Proof. unfold wp, on_memory. by intros ->. Qed.

Lemma wp_from_memory {A} g f (Q : A -> frame S -> Prop) x :
  g (f_Memory f) = Some x -> Q x f -> wp Pan (from_memory g) f Q.
Proof. unfold wp, from_memory. by intros ->. Qed.

Lemma wp_useGas n f (Q : bool -> frame S -> Prop) :
  is_u64 (Gas (f_Contract f)) -> is_u64 n ->
  (n <= Gas (f_Contract f) ->
     Q true (set_Contract (set_Gas (Gas (f_Contract f) - n) (f_Contract f)) f)) ->
  (Gas (f_Contract f) < n -> Q false f) -> wp Pan (useGas n) f Q.
Proof.
  intros Hg Hn Hok Hno. unfold wp, useGas, UseGas.
  destruct (Z.ltb_spec (Gas (f_Contract f)) n); simpl.
  - by destruct f; apply Hno.
  - rewrite u64_sub_small by done. auto.
Qed.

Lemma wp_try {F A B} (m : M F (result A)) (k : A -> M F (result B)) s (Q : result B -> F -> Prop) :
  wp Pan m s (fun r s' => match r with inl a => wp Pan (k a) s' Q | inr e => Q (inr e) s' end) ->
  wp Pan (try_ m k) s Q.
Proof.
  intros H. apply wp_bind. eapply wp_mono; [exact H|]. by intros [a|e] s'.
Qed.
End frames.

(** * Symbolic execution *)

(** Applies the law of the database method at the head of the goal. *)
Ltac use_law laws :=
  lazymatch goal with
  | |- wp _ (db_GetBalance _) _ _ => eapply (law_GetBalance _ _ _ _ _ _ _ laws)
  | |- wp _ (db_GetNonce _) _ _ => eapply (law_GetNonce _ _ _ _ _ _ _ laws)
  | |- wp _ (db_GetCodeHash _) _ _ => eapply (law_GetCodeHash _ _ _ _ _ _ _ laws)
  | |- wp _ (db_GetCode _) _ _ => eapply (law_GetCode _ _ _ _ _ _ _ laws)
  | |- wp _ (db_GetCodeSize _) _ _ => eapply (law_GetCodeSize _ _ _ _ _ _ _ laws)
  | |- wp _ (db_GetCommittedState _ _) _ _ => eapply (law_GetCommittedState _ _ _ _ _ _ _ laws)
  | |- wp _ (db_GetState _ _) _ _ => eapply (law_GetState _ _ _ _ _ _ _ laws)
  | |- wp _ (db_HasSelfdestructed _) _ _ => eapply (law_HasSelfdestructed _ _ _ _ _ _ _ laws)
  | |- wp _ (db_Exist _) _ _ => eapply (law_Exist _ _ _ _ _ _ _ laws)
  | |- wp _ (db_Empty _) _ _ => eapply (law_Empty _ _ _ _ _ _ _ laws)
  | |- wp _ (db_AddressInAccessList _) _ _ => eapply (law_AddressInAccessList _ _ _ _ _ _ _ laws)
  | |- wp _ (db_SlotInAccessList _ _) _ _ => eapply (law_SlotInAccessList _ _ _ _ _ _ _ laws)
  | |- wp _ db_GetRefund _ _ => eapply (law_GetRefund _ _ _ _ _ _ _ laws)
  | |- wp _ (db_PrepareAccessList _ _ _ _) _ _ => eapply (law_PrepareAccessList _ _ _ _ _ _ _ laws)
  | |- wp _ (db_SubBalance _ _) _ _ => eapply (law_SubBalance _ _ _ _ _ _ _ laws)
  | |- wp _ (db_AddRefund _) _ _ => eapply (law_AddRefund _ _ _ _ _ _ _ laws)
  | |- wp _ (db_SubRefund _) _ _ => eapply (law_SubRefund _ _ _ _ _ _ _ laws)
  | |- wp _ (db_AddAddressToAccessList _) _ _ => eapply (law_AddAddressToAccessList _ _ _ _ _ _ _ laws)
  | |- wp _ (db_AddSlotToAccessList _ _) _ _ => eapply (law_AddSlotToAccessList _ _ _ _ _ _ _ laws)
  | |- wp _ (db_AddBalance _ Clear) _ _ => eapply (law_touch _ _ _ _ _ _ _ laws)
  | |- wp _ (db_AddBalance _ _) _ _ => eapply (law_AddBalance _ _ _ _ _ _ _ laws)
  | |- wp _ (db_SetNonce _ _) _ _ => eapply (law_SetNonce _ _ _ _ _ _ _ laws)
  | |- wp _ (db_SetCode _ _) _ _ => eapply (law_SetCode _ _ _ _ _ _ _ laws)
  | |- wp _ (db_SetState _ _ _) _ _ => eapply (law_SetState _ _ _ _ _ _ _ laws)
  | |- wp _ (db_Selfdestruct _) _ _ => eapply (law_Selfdestruct _ _ _ _ _ _ _ laws)
  | |- wp _ (db_AddLog _) _ _ => eapply (law_AddLog _ _ _ _ _ _ _ laws)
  | |- wp _ (db_CreateAccount _ _) _ _ => eapply (law_CreateAccount _ _ _ _ _ _ _ laws)
  end.

(** Field accesses and updates of frames in constructor form. *)
Ltac frame_cbn :=
  cbv beta iota zeta delta [f_evm f_pc f_Stack f_Memory f_Contract set_evm set_pc set_Stack set_Memory set_Contract
       ibs callGasTemp depth readOnly returnData jumpdests checks
       set_ibs set_callGasTemp set_depth set_readOnly set_returnData set_jumpdests set_checks
       Gas set_Gas self Code Input value CallerAddress analysis c_CodeHash skipAnalysis caller CodeAddr
       set_analysis store lastGasCost set_store set_lastGasCost fst snd Push].

Ltac frame_cbn_in H :=
  cbv beta iota zeta delta [f_evm f_pc f_Stack f_Memory f_Contract set_evm set_pc set_Stack set_Memory set_Contract
       ibs callGasTemp depth readOnly returnData jumpdests checks
       set_ibs set_callGasTemp set_depth set_readOnly set_returnData set_jumpdests set_checks
       Gas set_Gas self Code Input value CallerAddress analysis c_CodeHash skipAnalysis caller CodeAddr
       set_analysis store lastGasCost set_store set_lastGasCost fst snd Push] in H.

(** A database operation: its law, then the facts it leaves. *)
Ltac db_step laws :=
  apply wp_db; frame_cbn; eapply wp_mono; [use_law laws; eassumption|];
  let a := fresh "a" in let s := fresh "s" in let H := fresh "H" in
  intros a s H; cbv beta in H; frame_cbn;
  repeat match type of H with _ /\ _ => let H' := fresh "H" in destruct H as [H' H] end.

(** One step of symbolic execution on a frame in constructor form. *)
Ltac sym_step laws :=
  lazymatch goal with
  | |- wp _ (mbind _ _) _ _ => apply wp_bind
  | |- wp _ (try_ _ _) _ _ => apply wp_try
  | |- wp _ (mret _) _ _ => apply wp_ret; frame_cbn
  | |- wp _ (done_ _) _ _ => apply wp_ret; frame_cbn
  | |- wp _ (fail_ _) _ _ => apply wp_ret; frame_cbn
  | |- wp _ (gets _) _ _ => apply wp_gets; frame_cbn
  | |- wp _ (modify _) _ _ => apply wp_modify; frame_cbn
  | |- wp _ pop _ _ => eapply wp_pop; [reflexivity|]; frame_cbn
  | |- wp _ peek _ _ => eapply wp_peek; [reflexivity|]; frame_cbn
  | |- wp _ (back _) _ _ => eapply wp_back; [reflexivity|]; frame_cbn
  | |- wp _ (set_top _) _ _ => eapply wp_set_top; [reflexivity|]; frame_cbn
  | |- wp _ (push _) _ _ => apply wp_push; frame_cbn
  | |- wp _ (db _) _ _ => db_step laws
  | |- wp _ (in_evm (modify _)) _ _ => apply wp_in_evm, wp_modify; frame_cbn
  | |- wp _ (if ?b then _ else _) _ _ => let E := fresh "E" in destruct b eqn:E; frame_cbn
  end.

(** Chains of [R] (or any transitive relation) between states. *)
Ltac chain trans refl :=
  solve [ eassumption | apply refl
        | eapply trans; [eassumption|]; chain trans refl ].

(** Names the items of a stack that is known to be deep enough. *)
Ltac stack_items :=
  repeat match goal with
  | H : (Datatypes.S _ <= length ?st)%nat |- _ => is_var st;
      destruct st as [|? st]; [cbn in H; lia|]; cbn [length] in H; apply le_S_n in H
  end.
