(* ===== verification/EvmGas.v ===== *)
(** What the gas functions of GasTable do to a frame: they leave the stack,
    the program counter and the bytes of the memory alone, keep the world as
    it is, return a 64-bit price without wrapping around, never less than the
    least price of the instruction, and for the calls never less than the gas
    they hand on. *)
From S2P Require Import Prelude Uint256 OpCodes Machine MachineSpec StateTypes Precompiles Contract EvmTypes JumpTable GasTable EvmLogic.
#[local] Open Scope Z_scope.

(** * Frames between instructions *)
Section frame_ok.
Context {U : Uint256} {S : Type} (I : S -> Prop) (R : S -> S -> Prop).
Implicit Types f : frame S.

Record frame_ok f : Prop := {
  ok_gas : is_u64 (Gas (f_Contract f));
  ok_temp : is_u64 (callGasTemp (f_evm f));
  ok_mem : mem_ok (f_Memory f);
  ok_I : I (ibs (f_evm f))
}.

(** The contract of a frame, but for its gas and cached analysis. *)
Definition same_contract (c c' : Contract) : Prop :=
  set_Gas 0 (set_analysis None c') = set_Gas 0 (set_analysis None c).

(** Nothing but gas, prices and bookkeeping changed. *)
Record quiet f f' : Prop := {
  q_pc : f_pc f' = f_pc f;
  q_stack : f_Stack f' = f_Stack f;
  q_store : store (f_Memory f') = store (f_Memory f);
  q_contract : same_contract (f_Contract f) (f_Contract f');
  q_analysis : analysis (f_Contract f') = analysis (f_Contract f);
  q_jumpdests : jumpdests (f_evm f') = jumpdests (f_evm f);
  q_depth : depth (f_evm f') = depth (f_evm f);
  q_readOnly : readOnly (f_evm f') = readOnly (f_evm f);
  q_I : I (ibs (f_evm f'));
  q_R : R (ibs (f_evm f)) (ibs (f_evm f'));
  q_temp : is_u64 (callGasTemp (f_evm f'))
}.
End frame_ok.

(** * What a gas function needs and guarantees *)

(** How deep it looks into the stack. *)
Fixpoint gas_depth (g : GasFn.t) : nat :=
  match g with
  | GasFn.memoryCopierGas n => S n
  | GasFn.gasSStore | GasFn.gasSStoreEIP2200 | GasFn.makeGasLog _ | GasFn.gasKeccak256
  | GasFn.gasExpFrontier | GasFn.gasExpEIP160 | GasFn.makeGasSStoreFunc _ => 2
  | GasFn.pureMemoryGascost => 0
  | GasFn.gasCreate2 | GasFn.gasCreateEip3860 | GasFn.gasCreate2Eip3860 => 3
  | GasFn.gasCall | GasFn.gasCallCode => 3
  | GasFn.gasDelegateCall | GasFn.gasStaticCall => 1
  | GasFn.gasSelfdestruct | GasFn.gasSLoadEIP2929 | GasFn.gasEip2929AccountCheck
  | GasFn.makeSelfdestructGasFn _ => 1
  | GasFn.gasExtCodeCopyEIP2929 => 4
  | GasFn.makeCallVariantGasCallEIP2929 g => Nat.max 2 (gas_depth g)
  end.

(** Whether it charges for memory. *)
Fixpoint gas_memory (g : GasFn.t) : bool :=
  match g with
  | GasFn.memoryCopierGas _ | GasFn.makeGasLog _ | GasFn.gasKeccak256
  | GasFn.pureMemoryGascost | GasFn.gasCreate2 | GasFn.gasCreateEip3860 | GasFn.gasCreate2Eip3860
  | GasFn.gasCall | GasFn.gasCallCode | GasFn.gasDelegateCall | GasFn.gasStaticCall
  | GasFn.gasExtCodeCopyEIP2929 => true
  | GasFn.makeCallVariantGasCallEIP2929 g => gas_memory g
  | _ => false
  end.

(** The least it charges. *)
Definition gas_floor (g : GasFn.t) : Z :=
  match g with
  | GasFn.gasSStore => 200
  | GasFn.gasSStoreEIP2200 => 800
  | GasFn.makeGasSStoreFunc _ | GasFn.gasSLoadEIP2929 => 100
  | GasFn.makeGasLog _ => 375
  | GasFn.gasExpFrontier | GasFn.gasExpEIP160 => 10
  | _ => 0
  end.

(** Whether it prices a call, and whether that call can carry value. *)
Fixpoint gas_call (g : GasFn.t) : option bool :=
  match g with
  | GasFn.gasCall | GasFn.gasCallCode => Some true
  | GasFn.gasDelegateCall | GasFn.gasStaticCall => Some false
  | GasFn.makeCallVariantGasCallEIP2929 g => gas_call g
  | _ => None
  end.

(** The names that occur in tables: the wrapper is applied to a plain call
    price, and under EIP-150 rules. *)
Definition gas_wf (eip150 : bool) (g : GasFn.t) : bool :=
  match g with
  | GasFn.makeCallVariantGasCallEIP2929
      (GasFn.gasCall | GasFn.gasCallCode | GasFn.gasDelegateCall | GasFn.gasStaticCall) => eip150
  | GasFn.makeCallVariantGasCallEIP2929 _ => false
  | GasFn.makeGasLog n => (0 <=? n) && (n <=? 4)
  | _ => true
  end.

(** The gas a call instruction gets back at most: what it hands on, with the
    stipend when it carries value. *)
Definition stipend {U : Uint256} (carries : bool) (st : Stack) : Z :=
  match st !! 2%nat with
  | Some v => if carries && negb (IsZero v) then params.CallStipend else 0
  | None => 0
  end.

Lemma stipend_false {U : Uint256} st : stipend false st = 0.
Proof. unfold stipend. by destruct (st !! 2%nat). Qed.

Section gas_specs.
Context {U : Uint256} {US : Uint256Spec U} {L : LibMath} {LS : LibMathSpec L}.
Context {S : Type} {DB : StateDB S} (env : Env S).
Context (Pan : Prop) (I : S -> Prop) (R Rw : S -> S -> Prop).
Context (codeOf : hash -> list Byte.byte) (codeAt : S -> address -> list Byte.byte).
Context (laws : DBLaws (context env) Pan I R Rw codeOf codeAt).
Implicit Types f : frame S.

Abbreviation frame_ok := (frame_ok I).
Abbreviation quiet := (quiet I R).

(** The floor of a call: the value transfer is charged 9000, of which 2300
    come back as the stipend, so 6700 stay charged. *)
Definition call_floor (g : GasFn.t) (f f' : frame S) (d : Z) : Prop :=
  match gas_call g with
  | None => True
  | Some carries => callGasTemp (f_evm f') + stipend carries (f_Stack f) <= d
  end.

Definition gas_post (g : GasFn.t) (ms : Z) f (r : result Z) (f' : frame S) : Prop :=
  quiet f f' /\
  match r with
  | inl d =>
      Gas (f_Contract f') = Gas (f_Contract f) /\ is_u64 d /\ gas_floor g <= d /\
      (if gas_memory g then ms <= 0x1FFFFFFFE0 /\ mem_ok (Resize ms (f_Memory f'))
       else f_Memory f' = f_Memory f) /\
      call_floor g f f' d
  | inr _ => 0 <= Gas (f_Contract f') <= Gas (f_Contract f)
  end.

Lemma quiet_refl f : frame_ok f -> quiet f f.
Proof. intros [? ? ? ?]. split; try done. by apply (R_refl _ _ _ _ _ _ _ laws). Qed.

(** ** The memory fee *)
Definition memGas_post (ms : Z) f (r : result Z) (f' : frame S) : Prop :=
  exists m', f' = set_Memory m' f /\ store m' = store (f_Memory f) /\
    match r with
    | inl fee => 0 <= fee < 2 ^ 56 /\ ms <= 0x1FFFFFFFE0 /\ mem_ok (Resize ms m')
    | inr _ => True
    end.

Lemma memoryGasCost_store m n : store (memoryGasCost m n).2 = store m.
Proof. unfold memoryGasCost. by repeat case_match. Qed.

Lemma wp_memGas nw f :
  frame_ok f -> 0 <= nw -> wp Pan (memGas (32 * nw)) f (memGas_post (32 * nw) f).
Proof.
  intros Hok Hnw. unfold wp, memGas. pose proof (memoryGasCost_grow _ nw (ok_mem _ _ Hok) Hnw) as Hg.
  pose proof (memoryGasCost_store (f_Memory f) (32 * nw)) as Hs.
  destruct (memoryGasCost _ _) as [r m'] eqn:E. cbn in Hs. exists m'. split; [done|]. split; [done|].
  destruct r as [fee|]; [|done]. destruct (Z.leb_spec nw 0xFFFFFFFF) as [Hle|]; [|done].
  destruct Hg as (fee' & m2 & [= <- <-] & Hok' & -> & _).
  split; [|split; [lia|done]].
  destruct (ok_mem _ _ Hok) as (w & Hw & Hlen & _). rewrite Hlen, Z.mul_comm, Z.div_mul by lia.
  pose proof (cmem_bound (Z.max nw w) ltac:(lia)). pose proof (cmem_mono w (Z.max nw w) ltac:(lia)).
  pose proof (cmem_mono 0 w ltac:(lia)). change (cmem 0) with 0 in *. lia.
Qed.

(** ** Arithmetic *)
Lemma wp_safeAdd x y f (Q : result Z -> frame S -> Prop) :
  is_u64 x -> is_u64 y -> (x + y < 2 ^ 64 -> Q (inl (x + y)) f) -> Q (inr ErrGasUintOverflow) f ->
  wp Pan (safeAdd x y) f Q.
Proof.
  intros Hx Hy Hok Herr. apply wp_ret. unfold checked. rewrite SafeAdd_spec by done.
  cbn [fst snd]. destruct (Z.leb_spec (2 ^ 64) (x + y)); [done|].
  rewrite u64_small by (unfold is_u64 in *; lia). auto.
Qed.

Lemma wp_safeMul x y f (Q : result Z -> frame S -> Prop) :
  is_u64 x -> is_u64 y -> (x * y < 2 ^ 64 -> Q (inl (x * y)) f) -> Q (inr ErrGasUintOverflow) f ->
  wp Pan (safeMul x y) f Q.
Proof.
  intros Hx Hy Hok Herr. apply wp_ret. unfold checked. rewrite SafeMul_spec by done.
  cbn [fst snd]. destruct (Z.leb_spec (2 ^ 64) (x * y)); [done|].
  rewrite u64_small by (unfold is_u64 in *; nia). auto.
Qed.

Lemma wp_asUint64 x f (Q : result Z -> frame S -> Prop) :
  (to_Z x < 2 ^ 64 -> Q (inl (to_Z x)) f) -> Q (inr ErrGasUintOverflow) f ->
  wp Pan (asUint64 x) f Q.
Proof.
  intros Hok Herr. apply wp_ret. unfold checked. rewrite Uint64WithOverflow_spec. cbn [fst snd].
  pose proof (to_Z_range x). destruct (Z.leb_spec (2 ^ 64) (to_Z x)); [done|].
  rewrite u64_small by (unfold is_u64; lia). auto.
Qed.

(** ** The gas functions that do not price calls *)

Ltac start f Hok :=
  destruct f as [[s0 ct d ro rd jd ch] pc st [str lgc] [ca cr sl an sk cd hh cad inp g v]];
  pose proof (ok_gas _ _ Hok) as Hgas; pose proof (ok_temp _ _ Hok) as Htemp;
  pose proof (ok_mem _ _ Hok) as Hmem; pose proof (ok_I _ _ Hok) as HI;
  frame_cbn_in Hgas; frame_cbn_in Htemp; frame_cbn_in Hmem; frame_cbn_in HI.

Ltac quietly :=
  constructor; frame_cbn;
  try solve [ reflexivity | eassumption
            | chain (R_trans _ _ _ _ _ _ _ laws) (R_refl _ _ _ _ _ _ _ laws) ].

(** The memory fee inside a gas function. *)
Ltac mem_step :=
  eapply wp_mono; [apply wp_memGas; [constructor; frame_cbn; eassumption|assumption]|];
  let r := fresh "r" in let m' := fresh "m" in let Hs := fresh "Hs" in let Hr := fresh "Hr" in
  intros r ? ([? ?] & -> & Hs & Hr); frame_cbn_in Hs; subst; destruct r; frame_cbn.

Ltac u64 := unfold is_u64, params.CopyGas, params.LogGas, params.LogTopicGas, params.LogDataGas,
  params.Keccak256WordGas, params.InitCodeWordGas, params.ExpGas, params.ExpByteFrontier,
  params.ExpByteEIP160, params.MaxInitCodeSize, params.MaxCodeSize, params.CallNewAccountGas,
  params.CallValueTransferGas, params.CallStipend, params.ColdAccountAccessCostEIP2929,
  params.WarmStorageReadCostEIP2929 in *; lia.

(** Side conditions that a number fits 64 bits. *)
Ltac range :=
  repeat match goal with
  | |- context [ToWordSize ?x] =>
      lazymatch goal with
      | _ : 0 <= ToWordSize x <= _ |- _ => fail
      | _ => assert (0 <= ToWordSize x <= 2 ^ 59) by (apply ToWordSize_bound; u64)
      end
  end; u64.

Ltac gas_step :=
  first
  [ sym_step laws
  | lazymatch goal with
    | |- wp _ (memGas _) _ _ => mem_step
    | |- wp _ (asUint64 ?x) _ _ => pose proof (to_Z_range x); apply wp_asUint64; [intros ?|]
    | |- wp _ (safeAdd _ _) _ _ => apply wp_safeAdd; [range|range|intros ?|]
    | |- wp _ (safeMul _ _) _ _ => apply wp_safeMul; [range|range|intros ?|]
    end ].

Ltac gas_done :=
  unfold gas_post, call_floor; split; [quietly|]; frame_cbn; cbn [gas_floor gas_memory gas_call];
  try done; split_and!; try done; try tauto; try range.

(** Prices that depend on what the database answered. *)
Ltac split_price :=
  repeat match goal with
  | |- gas_post _ _ _ (inl ?x) _ =>
      match x with context [if ?b then _ else _] => destruct b end
  end.

Lemma gasSStore_spec ms f :
  frame_ok f -> (2 <= length (f_Stack f))%nat ->
  wp Pan (gasSStore env ms) f (gas_post GasFn.gasSStore ms f).
Proof.
  intros Hok Hlen. start f Hok. frame_cbn_in Hlen. stack_items.
  unfold gasSStore, contractAddress. repeat gas_step.
  all: gas_done.
Qed.

Lemma gasSStoreEIP2200_spec ms f :
  frame_ok f -> (2 <= length (f_Stack f))%nat ->
  wp Pan (gasSStoreEIP2200 ms) f (gas_post GasFn.gasSStoreEIP2200 ms f).
Proof.
  intros Hok Hlen. start f Hok. frame_cbn_in Hlen. stack_items.
  unfold gasSStoreEIP2200, contractAddress. repeat gas_step.
  all: gas_done.
Qed.

Lemma makeGasSStoreFunc_spec r ms f :
  frame_ok f -> (2 <= length (f_Stack f))%nat ->
  wp Pan (makeGasSStoreFunc r ms) f (gas_post (GasFn.makeGasSStoreFunc r) ms f).
Proof.
  intros Hok Hlen. start f Hok. frame_cbn_in Hlen. stack_items.
  unfold makeGasSStoreFunc, contractAddress. repeat gas_step.
  all: lazymatch goal with
       | |- wp _ panic _ _ => cbv [wp panic]; repeat match goal with
           | H : negb _ = true |- _ => apply negb_true_iff in H end; eauto
       | _ => gas_done
       end.
Qed.

Lemma memoryCopierGas_spec n nw f :
  frame_ok f -> (Datatypes.S n <= length (f_Stack f))%nat -> 0 <= nw ->
  wp Pan (memoryCopierGas n (32 * nw)) f (gas_post (GasFn.memoryCopierGas n) (32 * nw) f).
Proof.
  intros Hok Hlen Hnw. start f Hok. frame_cbn_in Hlen.
  destruct (lookup_lt_is_Some_2 st n Hlen) as [x Hx].
  unfold memoryCopierGas. apply wp_try. mem_step; [|by gas_done].
  apply wp_bind. eapply wp_back; [exact Hx|].
  repeat gas_step. all: gas_done.
Qed.

Lemma gasKeccak256_spec nw f :
  frame_ok f -> (2 <= length (f_Stack f))%nat -> 0 <= nw ->
  wp Pan (gasKeccak256 (32 * nw)) f (gas_post GasFn.gasKeccak256 (32 * nw) f).
Proof.
  intros Hok Hlen Hnw. start f Hok. frame_cbn_in Hlen. stack_items.
  unfold gasKeccak256. repeat gas_step. all: gas_done.
Qed.

Lemma pureMemoryGascost_spec nw f :
  frame_ok f -> 0 <= nw ->
  wp Pan (pureMemoryGascost (32 * nw)) f (gas_post GasFn.pureMemoryGascost (32 * nw) f).
Proof.
  intros Hok Hnw. start f Hok. unfold pureMemoryGascost. repeat gas_step. all: gas_done.
Qed.

Lemma makeGasLog_spec n nw f :
  frame_ok f -> (2 <= length (f_Stack f))%nat -> 0 <= n <= 4 -> 0 <= nw ->
  wp Pan (makeGasLog n (32 * nw)) f (gas_post (GasFn.makeGasLog n) (32 * nw) f).
Proof.
  intros Hok Hlen Hn Hnw. start f Hok. frame_cbn_in Hlen. stack_items. unfold makeGasLog.
  rewrite u64_mul_small by (unfold params.LogTopicGas; lia).
  repeat gas_step. all: gas_done.
Qed.

Lemma gasCreate2_spec nw f :
  frame_ok f -> (3 <= length (f_Stack f))%nat -> 0 <= nw ->
  wp Pan (gasCreate2 (32 * nw)) f (gas_post GasFn.gasCreate2 (32 * nw) f).
Proof.
  intros Hok Hlen Hnw. start f Hok. frame_cbn_in Hlen. stack_items.
  unfold gasCreate2. repeat gas_step. all: gas_done.
Qed.

Lemma wp_initCodeLen x f (Q : result Z -> frame S -> Prop) :
  (0 <= to_Z x <= params.MaxInitCodeSize -> Q (inl (to_Z x)) f) -> Q (inr ErrGasUintOverflow) f ->
  wp Pan (initCodeLen x) f Q.
Proof.
  intros Hok Herr. unfold initCodeLen. rewrite Uint64WithOverflow_spec. pose proof (to_Z_range x).
  destruct (Z.leb_spec (2 ^ 64) (to_Z x)); cbn [orb]; [done|].
  rewrite u64_small by u64. destruct (Z.ltb_spec params.MaxInitCodeSize (to_Z x)); [done|].
  apply wp_ret. apply Hok. lia.
Qed.

Lemma ToWordSize_initCode n : 0 <= n <= params.MaxInitCodeSize -> 0 <= ToWordSize n <= 1536.
Proof.
  intros. rewrite ToWordSize_spec by u64. unfold params.MaxInitCodeSize, params.MaxCodeSize in *.
  split; [apply Z.div_pos; lia|]. change 1536 with ((49152 + 31) / 32). apply Z.div_le_mono; lia.
Qed.

Lemma gasCreateEip3860_spec nw f :
  frame_ok f -> (3 <= length (f_Stack f))%nat -> 0 <= nw ->
  wp Pan (gasCreateEip3860 (32 * nw)) f (gas_post GasFn.gasCreateEip3860 (32 * nw) f).
Proof.
  intros Hok Hlen Hnw. start f Hok. frame_cbn_in Hlen. stack_items.
  unfold gasCreateEip3860. repeat gas_step; [|gas_done]. apply wp_initCodeLen; [intros Hl|gas_done].
  pose proof (ToWordSize_initCode _ Hl).
  rewrite u64_mul_small by (unfold params.InitCodeWordGas; lia). repeat gas_step. all: gas_done.
Qed.

Lemma gasCreate2Eip3860_spec nw f :
  frame_ok f -> (3 <= length (f_Stack f))%nat -> 0 <= nw ->
  wp Pan (gasCreate2Eip3860 (32 * nw)) f (gas_post GasFn.gasCreate2Eip3860 (32 * nw) f).
Proof.
  intros Hok Hlen Hnw. start f Hok. frame_cbn_in Hlen. stack_items.
  unfold gasCreate2Eip3860. repeat gas_step; [|gas_done]. apply wp_initCodeLen; [intros Hl|gas_done].
  pose proof (ToWordSize_initCode _ Hl).
  rewrite u64_mul_small by (unfold params.InitCodeWordGas, params.Keccak256WordGas; lia).
  repeat gas_step. all: gas_done.
Qed.
Lemma BitLen_bytes (x : u256) : 0 <= (BitLen x + 7) / 8 <= 32.
Proof.
  rewrite BitLen_spec. pose proof (to_Z_range x). destruct (Z.eqb_spec (to_Z x) 0); [by vm_compute|].
  pose proof (Z.log2_nonneg (to_Z x)). pose proof (log2_lt256 (to_Z x) ltac:(lia)).
  split; [apply Z.div_pos; lia|]. change 32 with ((256 + 7) / 8). apply Z.div_le_mono; lia.
Qed.

Lemma gasExp_spec t price ms f :
  gas_floor t = 10 -> gas_memory t = false -> gas_call t = None -> 0 <= price <= 50 ->
  frame_ok f -> (2 <= length (f_Stack f))%nat ->
  wp Pan (x ← back 1; safeAdd (u64_mul ((BitLen x + 7) / 8) price) params.ExpGas) f (gas_post t ms f).
Proof.
  intros Hf Hm Hc Hp Hok Hlen. start f Hok. frame_cbn_in Hlen. stack_items.
  repeat sym_step laws. pose proof (BitLen_bytes u0).
  rewrite u64_mul_small by nia. apply wp_safeAdd; [unfold is_u64; nia|range|intros ?|].
  all: unfold gas_post, call_floor; rewrite ?Hf, ?Hm, ?Hc; split; [quietly|]; frame_cbn.
  - split_and!; [done|unfold is_u64, params.ExpGas in *; nia..|unfold params.ExpGas; nia|done|done].
  - u64.
Qed.

Lemma gasSelfdestruct_spec ms f :
  frame_ok f -> (1 <= length (f_Stack f))%nat ->
  wp Pan (gasSelfdestruct env ms) f (gas_post GasFn.gasSelfdestruct ms f).
Proof.
  intros Hok Hlen. start f Hok. frame_cbn_in Hlen. stack_items.
  unfold gasSelfdestruct, contractAddress. repeat gas_step.
  all: split_price; gas_done.
Qed.

Lemma makeSelfdestructGasFn_spec b ms f :
  frame_ok f -> (1 <= length (f_Stack f))%nat ->
  wp Pan (makeSelfdestructGasFn b ms) f (gas_post (GasFn.makeSelfdestructGasFn b) ms f).
Proof.
  intros Hok Hlen. start f Hok. frame_cbn_in Hlen. stack_items.
  unfold makeSelfdestructGasFn, contractAddress. repeat gas_step.
  all: split_price; gas_done.
Qed.

Lemma gasSLoadEIP2929_spec ms f :
  frame_ok f -> (1 <= length (f_Stack f))%nat ->
  wp Pan (gasSLoadEIP2929 ms) f (gas_post GasFn.gasSLoadEIP2929 ms f).
Proof.
  intros Hok Hlen. start f Hok. frame_cbn_in Hlen. stack_items.
  unfold gasSLoadEIP2929, contractAddress. repeat gas_step. all: gas_done.
Qed.

Lemma gasEip2929AccountCheck_spec ms f :
  frame_ok f -> (1 <= length (f_Stack f))%nat ->
  wp Pan (gasEip2929AccountCheck ms) f (gas_post GasFn.gasEip2929AccountCheck ms f).
Proof.
  intros Hok Hlen. start f Hok. frame_cbn_in Hlen. stack_items.
  unfold gasEip2929AccountCheck. repeat gas_step. all: gas_done.
Qed.

Lemma gasExtCodeCopyEIP2929_spec nw f :
  frame_ok f -> (4 <= length (f_Stack f))%nat -> 0 <= nw ->
  wp Pan (gasExtCodeCopyEIP2929 (32 * nw)) f (gas_post GasFn.gasExtCodeCopyEIP2929 (32 * nw) f).
Proof.
  intros Hok Hlen Hnw. start f Hok. frame_cbn_in Hlen. stack_items.
  unfold gasExtCodeCopyEIP2929, memoryCopierGas, coldCost. repeat gas_step. all: gas_done.
Qed.
(** ** The prices of calls *)

Lemma callGas_small base avail (x : u256) t :
  0 <= base < 2 ^ 57 -> is_u64 avail -> callGas true avail base x = inl t ->
  base + t <= avail \/ base + t <= 2 ^ 64 - 2 ^ 56.
Proof.
  intros Hb Ha. destruct (Z.leb_spec base avail) as [Hle|Hgt].
  - rewrite callGas_eip150 by (lia || done). intros [= <-]. left. unfold all_but_64th.
    assert (0 <= (avail - base) / 64) by (apply Z.div_pos; lia). lia.
  - unfold callGas. assert (u64_sub avail base = 2 ^ 64 + avail - base) as ->.
    { unfold u64_sub, u64. symmetry. apply Z.mod_unique with (-1); unfold is_u64 in Ha; lia. }
    set (a := 2 ^ 64 + avail - base). unfold is_u64 in Ha.
    assert (2 ^ 58 - 2 ^ 51 <= a / 64 <= a).
    { split; [|apply Z.div_le_upper_bound; lia].
      change (2 ^ 58 - 2 ^ 51) with ((2 ^ 64 - 2 ^ 57) / 64). apply Z.div_le_mono; lia. }
    rewrite u64_sub_small by (unfold is_u64; lia). intros E. right.
    assert (t <= a - a / 64); [|lia].
    destruct (IsUint64 x) eqn:Ex; simpl in E; [|by injection E as <-].
    destruct (Z.ltb_spec (a - a / 64) (Uint64 x)); injection E as <-; lia.
Qed.

Definition chargeCall_post (base : Z) f (r : result Z) (f' : frame S) : Prop :=
  exists temp, f' = set_evm (set_callGasTemp temp (f_evm f)) f /\ is_u64 temp /\
    match r with
    | inl d => d = base + temp /\ is_u64 d /\
        (IsTangerineWhistle (chainRules env) = true ->
         d <= Gas (f_Contract f) \/ d <= 2 ^ 64 - 2 ^ 56)
    | inr _ => True
    end.

Lemma wp_chargeCall base f x :
  f_Stack f !! 0%nat = Some x -> is_u64 (Gas (f_Contract f)) -> 0 <= base < 2 ^ 57 ->
  wp Pan (chargeCall env base) f (chargeCall_post base f).
Proof.
  intros Hx Hg Hb. unfold chargeCall. apply wp_bind. eapply wp_back; [exact Hx|].
  apply wp_bind, wp_gets, wp_bind, wp_in_evm, wp_modify, wp_try, wp_ret.
  destruct (callGas _ _ _ _) as [t|e] eqn:E.
  - pose proof (callGas_range _ _ _ _ _ E) as Ht. apply wp_safeAdd; [u64|done|intros Hs|].
    + exists t. split_and!; [done..|u64|]. intros Heip. rewrite Heip in E.
      by apply callGas_small in E.
    + exists t. by split_and!.
  - exists 0. split_and!; [done|u64|done].
Qed.

(** The result of a plain call price, with the bound the EIP-2929 wrapper
    needs. *)
Definition call_post (t : GasFn.t) (ms : Z) f (r : result Z) (f' : frame S) : Prop :=
  gas_post t ms f r f' /\ Gas (f_Contract f') = Gas (f_Contract f) /\
  match r with
  | inl d => IsTangerineWhistle (chainRules env) = true ->
             d <= Gas (f_Contract f) \/ d <= 2 ^ 64 - 2 ^ 56
  | inr _ => True
  end.

Ltac call_step :=
  lazymatch goal with
  | |- wp _ (chargeCall _ _) _ _ =>
      eapply wp_mono; [eapply wp_chargeCall; [reflexivity|frame_cbn; assumption|frame_cbn; range]|];
      let r := fresh "r" in let t := fresh "t" in
      intros r ? (t & -> & ? & ?); destruct r; frame_cbn
  | _ => gas_step
  end.

Ltac call_done :=
  unfold call_post, gas_post, call_floor; cbn [gas_floor gas_memory gas_call];
  rewrite ?stipend_false; unfold stipend; frame_cbn; cbn [lookup list_lookup];
  repeat match goal with E : IsZero _ = _ |- _ => rewrite E end; cbn [andb negb];
  split_and!; [quietly|..]; try done; try tauto; try range.

(** The value-dependent constants of [gasCall]. *)
Ltac call_consts :=
  repeat match goal with
  | |- context [u64_add (if ?b then params.CallNewAccountGas else 0) _] => destruct b
  | |- context [safeAdd (if ?b then params.CallNewAccountGas else 0) _] => destruct b
  end;
  try change (u64_add params.CallNewAccountGas params.CallValueTransferGas) with 34000;
  try change (u64_add 0 params.CallValueTransferGas) with 9000.

Lemma gasCall_spec nw f :
  frame_ok f -> (3 <= length (f_Stack f))%nat -> 0 <= nw ->
  wp Pan (gasCall env (32 * nw)) f (call_post GasFn.gasCall (32 * nw) f).
Proof.
  intros Hok Hlen Hnw. start f Hok. frame_cbn_in Hlen. stack_items.
  unfold gasCall. do 4 gas_step.
  destruct (IsZero u1) eqn:Ez; cbn [negb]; repeat (call_consts; call_step).
  all: call_done.
Qed.

Lemma gasCallCode_spec nw f :
  frame_ok f -> (3 <= length (f_Stack f))%nat -> 0 <= nw ->
  wp Pan (gasCallCode env (32 * nw)) f (call_post GasFn.gasCallCode (32 * nw) f).
Proof.
  intros Hok Hlen Hnw. start f Hok. frame_cbn_in Hlen. stack_items.
  unfold gasCallCode. repeat gas_step; [|call_done..].
  destruct (IsZero u1) eqn:Ez; cbn [negb]; repeat call_step.
  all: call_done.
Qed.

Lemma gasDelegateCall_spec nw f :
  frame_ok f -> (1 <= length (f_Stack f))%nat -> 0 <= nw ->
  wp Pan (gasDelegateCall env (32 * nw)) f (call_post GasFn.gasDelegateCall (32 * nw) f).
Proof.
  intros Hok Hlen Hnw. start f Hok. frame_cbn_in Hlen. stack_items.
  unfold gasDelegateCall. repeat call_step. all: call_done.
Qed.
Lemma gasStaticCall_spec nw f :
  frame_ok f -> (1 <= length (f_Stack f))%nat -> 0 <= nw ->
  wp Pan (gasStaticCall env (32 * nw)) f (call_post GasFn.gasStaticCall (32 * nw) f).
Proof.
  intros Hok Hlen Hnw. start f Hok. frame_cbn_in Hlen. stack_items.
  unfold gasStaticCall. repeat call_step. all: call_done.
Qed.

Lemma quiet_trans f1 f2 f3 : quiet f1 f2 -> quiet f2 f3 -> quiet f1 f3.
Proof.
  intros [] []. split; try congruence; try done.
  by eapply (R_trans _ _ _ _ _ _ _ laws).
Qed.

Lemma quiet_set_Gas n f : frame_ok f -> quiet f (set_Contract (set_Gas n (f_Contract f)) f).
Proof. intros [? ? ? ?]. split; try done. apply (R_refl _ _ _ _ _ _ _ laws). Qed.

Lemma quiet_gas f f' n : quiet f f' -> quiet f (set_Contract (set_Gas n (f_Contract f')) f').
Proof. intros []. by split. Qed.

(** The wrapper: the cold surcharge is taken first, given back, and added to
    the price; EIP-150 keeps the sum below 2^64. *)
Lemma makeCallVariant_spec t ms f :
  (forall f, frame_ok f -> (gas_depth t <= length (f_Stack f))%nat ->
     wp Pan (gas_fn env t ms) f (call_post t ms f)) ->
  gas_memory t = true -> IsTangerineWhistle (chainRules env) = true ->
  frame_ok f -> (2 <= length (f_Stack f))%nat -> (gas_depth t <= length (f_Stack f))%nat ->
  wp Pan (makeCallVariantGasCallEIP2929 (gas_fn env t) ms) f
    (gas_post (GasFn.makeCallVariantGasCallEIP2929 t) ms f).
Proof.
  intros Hold Hmemt Heip Hok Hlen Hlen'. unfold makeCallVariantGasCallEIP2929.
  destruct (lookup_lt_is_Some_2 (f_Stack f) 1) as [x Hx]; [lia|].
  apply wp_bind. eapply wp_back; [exact Hx|]. apply wp_bind, wp_db. eapply wp_mono; [use_law laws; apply Hok|].
  intros warm s1 [HI1 HR1]. set (f1 := set_evm _ f).
  assert (frame_ok f1) as Hok1 by (destruct Hok; by split).
  assert (quiet f f1) as Hq1 by (destruct Hok; by split).
  apply wp_bind. destruct warm; cbn [negb].
  - apply wp_ret. cbn [negb]. apply wp_bind. eapply wp_mono; [by apply Hold|].
    intros r f2 [(Hq2 & Hr) _]. destruct r as [d|e]; apply wp_ret.
    + split; [by eapply quiet_trans|].
      cbn [gas_memory gas_floor]. unfold call_floor in *. cbn [gas_call]. rewrite Hmemt in *.
      destruct Hr as (? & ? & ? & ? & ?). split_and!; try done; try tauto.
      unfold is_u64 in *. lia.
    + split; [by eapply quiet_trans|done].
  - apply wp_bind, wp_db. eapply wp_mono; [use_law laws; apply HI1|].
    intros _ s2 [HI2 HR2]. set (f2 := set_evm _ f1).
    assert (frame_ok f2) as Hok2 by (destruct Hok; by split).
    assert (quiet f f2) as Hq2 by (destruct Hok; split; try done; by eapply (R_trans _ _ _ _ _ _ _ laws)).
    pose proof (ok_gas _ _ Hok) as Hg.
    change (Gas (f_Contract f)) with (Gas (f_Contract f2)) in Hg.
    apply wp_useGas; [done|unfold coldCost; u64| |].
    2: { intros _. apply wp_ret. split; [done|]. change (f_Contract f2) with (f_Contract f) in *. u64. }
    intros Hcold. cbn [negb]. set (f3 := set_Contract _ f2).
    assert (0 <= coldCost) by (vm_compute; congruence).
    assert (frame_ok f3) as Hok3.
    { destruct Hok2. split; try done. change (is_u64 (Gas (f_Contract f2) - coldCost)).
      clear - Hg Hcold H. unfold is_u64 in *. lia. }
    apply wp_bind. eapply wp_mono; [by apply Hold|].
    intros r f4 ((Hq4 & Hr) & Hgas4 & Hb). assert (quiet f f4) as Hq.
    { eapply quiet_trans; [|exact Hq4]. by apply quiet_gas. }
    change (Gas (f_Contract f3)) with (Gas (f_Contract f2) - coldCost) in *.
    change (f_Contract f2) with (f_Contract f) in *.
    destruct r as [d|e]; [|apply wp_ret; split; [done|unfold is_u64 in *; lia]].
    destruct Hr as (_ & Hd & Hfl & Hm & Hcf). specialize (Hb Heip).
    apply wp_bind, wp_modify, wp_ret. rewrite Hgas4.
    rewrite (u64_add_small (Gas (f_Contract f) - coldCost)) by (unfold coldCost in *; u64).
    rewrite (u64_add_small d) by (unfold coldCost in *; u64).
    split; [by apply quiet_gas|]. cbn [gas_memory gas_floor]. unfold call_floor in *. cbn [gas_call].
    rewrite Hmemt in *. change (f_Stack f3) with (f_Stack f) in Hcf.
    split_and!; [simpl; lia|unfold coldCost in *; u64|unfold is_u64 in *; lia|apply Hm|apply Hm|].
    destruct (gas_call t); [|done]. simpl. lia.
Qed.

(** Every gas function of the tables meets its specification. *)
Lemma gas_fn_spec t nw f :
  gas_wf (IsTangerineWhistle (chainRules env)) t = true ->
  frame_ok f -> (gas_depth t <= length (f_Stack f))%nat -> 0 <= nw ->
  wp Pan (gas_fn env t (32 * nw)) f (gas_post t (32 * nw) f).
Proof.
  intros Hwf Hok Hlen Hnw.
  assert (forall P Q, wp Pan P f (fun r f' => gas_post t (32 * nw) f r f' /\ Q r f') ->
    wp Pan P f (gas_post t (32 * nw) f)) as Hleft.
  { intros P Q H. eapply wp_mono; [exact H|]. naive_solver. }
  destruct t; cbn [gas_fn gas_depth] in *.
  - by apply memoryCopierGas_spec.
  - by apply gasSStore_spec.
  - by apply gasSStoreEIP2200_spec.
  - cbn in Hwf. apply andb_prop in Hwf as [?%Z.leb_le ?%Z.leb_le]. by apply makeGasLog_spec.
  - by apply gasKeccak256_spec.
  - by apply pureMemoryGascost_spec.
  - by apply gasCreate2_spec.
  - by apply gasCreateEip3860_spec.
  - by apply gasCreate2Eip3860_spec.
  - by apply gasExp_spec.
  - by apply gasExp_spec.
  - eapply Hleft, gasCall_spec; done.
  - eapply Hleft, gasCallCode_spec; done.
  - eapply Hleft, gasDelegateCall_spec; done.
  - eapply Hleft, gasStaticCall_spec; done.
  - by apply gasSelfdestruct_spec.
  - by apply makeGasSStoreFunc_spec.
  - by apply gasSLoadEIP2929_spec.
  - by apply gasExtCodeCopyEIP2929_spec.
  - by apply gasEip2929AccountCheck_spec.
  - apply makeCallVariant_spec; [|destruct t; done|destruct t; done|done|lia|lia].
    intros f' Hok' Hlen''. destruct t; try discriminate Hwf.
    + by apply gasCall_spec.
    + by apply gasCallCode_spec.
    + by apply gasDelegateCall_spec.
    + by apply gasStaticCall_spec.
  - by apply makeSelfdestructGasFn_spec.
Qed.
End gas_specs.
