(* ===== verification/EvmInstr.v ===== *)
(** What every instruction does to its frame: it moves the stack by its arity,
    stays inside the memory it asked for, keeps the world unchanged in
    read-only mode, and ends with no more gas than it had, plus what a call
    handed on. *)
From S2P Require Import Prelude Uint256 OpCodes Machine MachineSpec StateTypes Precompiles Contract EvmTypes JumpTable GasTable Instructions EvmLogic EvmGas.
#[local] Open Scope Z_scope.

Create HintDb instr.

(** * Static facts about the instructions *)

(** Items popped and pushed. *)
Definition arity (t : ExecFn.t) : nat * nat :=
  match t with
  | ExecFn.opAdd | ExecFn.opSub | ExecFn.opMul | ExecFn.opDiv | ExecFn.opSdiv | ExecFn.opMod
  | ExecFn.opSmod | ExecFn.opExp | ExecFn.opSignExtend | ExecFn.opLt | ExecFn.opGt | ExecFn.opSlt
  | ExecFn.opSgt | ExecFn.opEq | ExecFn.opAnd | ExecFn.opOr | ExecFn.opXor | ExecFn.opByte
  | ExecFn.opSHL | ExecFn.opSHR | ExecFn.opSAR | ExecFn.opKeccak256 => (2, 1)
  | ExecFn.opNot | ExecFn.opIszero | ExecFn.opBalance | ExecFn.opCallDataLoad
  | ExecFn.opExtCodeSize | ExecFn.opExtCodeHash | ExecFn.opBlockhash | ExecFn.opMload
  | ExecFn.opSload => (1, 1)
  | ExecFn.opAddmod | ExecFn.opMulmod => (3, 1)
  | ExecFn.opAddress | ExecFn.opOrigin | ExecFn.opCaller | ExecFn.opCallValue
  | ExecFn.opCallDataSize | ExecFn.opReturnDataSize | ExecFn.opCodeSize | ExecFn.opGasprice
  | ExecFn.opCoinbase | ExecFn.opTimestamp | ExecFn.opNumber | ExecFn.opDifficulty
  | ExecFn.opGasLimit | ExecFn.opPc | ExecFn.opMsize | ExecFn.opGas | ExecFn.opSelfBalance
  | ExecFn.opChainID | ExecFn.opBaseFee | ExecFn.opPush0 | ExecFn.opPush1
  | ExecFn.makePush _ _ => (0, 1)
  | ExecFn.opCallDataCopy | ExecFn.opReturnDataCopy | ExecFn.opCodeCopy => (3, 0)
  | ExecFn.opExtCodeCopy => (4, 0)
  | ExecFn.opPop | ExecFn.opJump | ExecFn.opSelfdestruct => (1, 0)
  | ExecFn.opMstore | ExecFn.opMstore8 | ExecFn.opSstore | ExecFn.opJumpi | ExecFn.opReturn
  | ExecFn.opRevert => (2, 0)
  | ExecFn.opJumpdest | ExecFn.opStop | ExecFn.opUndefined => (0, 0)
  | ExecFn.opCreate => (3, 1)
  | ExecFn.opCreate2 => (4, 1)
  | ExecFn.opCall | ExecFn.opCallCode => (7, 1)
  | ExecFn.opDelegateCall | ExecFn.opStaticCall => (6, 1)
  | ExecFn.makeLog n => (n + 2, 0)
  | ExecFn.makeDup n => (n, n + 1)
  | ExecFn.makeSwap n => (n + 1, n + 1)
  end%nat.

(** The memory it works on. *)
Definition exec_memory (t : ExecFn.t) : option memorySizeFunc :=
  match t with
  | ExecFn.opKeccak256 => Some memoryKeccak256
  | ExecFn.opCallDataCopy => Some memoryCallDataCopy
  | ExecFn.opReturnDataCopy => Some memoryReturnDataCopy
  | ExecFn.opCodeCopy => Some memoryCodeCopy
  | ExecFn.opExtCodeCopy => Some memoryExtCodeCopy
  | ExecFn.opMload => Some memoryMLoad
  | ExecFn.opMstore => Some memoryMStore
  | ExecFn.opMstore8 => Some memoryMStore8
  | ExecFn.opCreate => Some memoryCreate
  | ExecFn.opCreate2 => Some memoryCreate2
  | ExecFn.opCall | ExecFn.opCallCode => Some memoryCall
  | ExecFn.opDelegateCall => Some memoryDelegateCall
  | ExecFn.opStaticCall => Some memoryStaticCall
  | ExecFn.opReturn => Some memoryReturn
  | ExecFn.opRevert => Some memoryRevert
  | ExecFn.makeLog _ => Some memoryLog
  | _ => None
  end.

(** The instructions that always leave the loop. *)
Definition halts (t : ExecFn.t) : bool :=
  match t with
  | ExecFn.opStop | ExecFn.opReturn | ExecFn.opRevert | ExecFn.opUndefined
  | ExecFn.opSelfdestruct => true
  | _ => false
  end.

(** The call instructions, and whether they can carry value. *)
Definition exec_call (t : ExecFn.t) : option bool :=
  match t with
  | ExecFn.opCall | ExecFn.opCallCode => Some true
  | ExecFn.opDelegateCall | ExecFn.opStaticCall => Some false
  | _ => None
  end.

(** The immediate operands of the push instructions. *)
Definition exec_wf (t : ExecFn.t) : bool :=
  match t with
  | ExecFn.makePush n m => (n =? m) && (1 <=? n) && (n <=? 32)
  | ExecFn.makeDup n => (1 <=? n)%nat
  | ExecFn.makeSwap n => (1 <=? n)%nat
  | _ => true
  end.

(** * Memory that is large enough *)
Section regions.
Context {U : Uint256} {US : Uint256Spec U}.
Implicit Types (m : Memory) (off l : u256).

Definition fits off l m : Prop := to_Z l = 0 \/ to_Z off + to_Z l <= mem_Len m.

Lemma mem_ok_small m : mem_ok m -> mem_Len m <= 2 ^ 37.
Proof. intros (w & ? & -> & _). lia. Qed.

Lemma mem_ok_same m m' :
  mem_Len m' = mem_Len m -> lastGasCost m' = lastGasCost m -> mem_ok m -> mem_ok m'.
Proof. intros El Eg (w & ? & ? & ?). exists w. rewrite El, Eg. auto. Qed.

Lemma calc_fits off l sz m :
  calcMemSize64 off l = (sz, false) -> sz <= mem_Len m -> fits off l m.
Proof.
  intros (-> & _ & _ & _)%calcMemSize64_ok. unfold region_end, fits.
  destruct (Z.eqb_spec (to_Z l) 0); auto.
Qed.

Lemma u64_fits off l m :
  mem_ok m -> fits off l m -> to_Z l <> 0 ->
  Uint64 off = to_Z off /\ Uint64 l = to_Z l /\
  int64_of_u64 (to_Z off) = to_Z off /\ int64_of_u64 (to_Z l) = to_Z l /\
  0 <= to_Z off /\ 0 < to_Z l /\ to_Z off + to_Z l <= mem_Len m <= 2 ^ 37.
Proof.
  intros Hok%mem_ok_small [?|Hf] Hl; [done|]. pose proof (to_Z_range off). pose proof (to_Z_range l).
  rewrite !Uint64_spec, !u64_small by (unfold is_u64; lia). unfold int64_of_u64.
  rewrite !(proj2 (Z.ltb_lt _ (2 ^ 63))) by lia. split_and!; lia.
Qed.

Lemma Uint64_zero l : to_Z l = 0 -> Uint64 l = 0.
Proof. intros E. by rewrite Uint64_spec, E. Qed.

Lemma getPtr_fits off l m :
  mem_ok m -> fits off l m ->
  exists bs, GetPtr (int64_of_u64 (Uint64 off)) (int64_of_u64 (Uint64 l)) m = Some bs /\
    Z.of_nat (length bs) <= 2 ^ 37.
Proof.
  intros Hok Hf. destruct (Z.eq_dec (to_Z l) 0) as [Hl|Hl].
  - rewrite (Uint64_zero l Hl). exists []. split; [done|simpl; lia].
  - destruct (u64_fits off l m Hok Hf Hl) as (-> & -> & -> & -> & ? & ? & ?).
    rewrite GetPtr_spec by lia. eexists. split; [done|]. rewrite length_take. lia.
Qed.

Lemma getCopy_fits off l m :
  mem_ok m -> fits off l m ->
  exists bs, GetCopy (int64_of_u64 (Uint64 off)) (int64_of_u64 (Uint64 l)) m = Some bs /\
    Z.of_nat (length bs) <= 2 ^ 37.
Proof.
  intros Hok Hf. destruct (Z.eq_dec (to_Z l) 0) as [Hl|Hl].
  - rewrite (Uint64_zero l Hl). exists []. split; [done|simpl; lia].
  - destruct (u64_fits off l m Hok Hf Hl) as (-> & -> & -> & -> & ? & ? & ?).
    rewrite GetCopy_spec by lia. eexists. split; [done|]. rewrite length_take. lia.
Qed.

Lemma Set_fits off l v m :
  mem_ok m -> fits off l m ->
  exists m', Set_ (Uint64 off) (Uint64 l) v m = Some m' /\ mem_ok m' /\ mem_Len m' = mem_Len m.
Proof.
  intros Hok Hf. destruct (Z.eq_dec (to_Z l) 0) as [Hl|Hl].
  - rewrite (Uint64_zero l Hl). exists m. split_and!; done.
  - destruct (u64_fits off l m Hok Hf Hl) as (-> & -> & _ & _ & ? & ? & ?).
    destruct (Set__spec (to_Z off) (to_Z l) v m) as (m' & E & Eg & El & _); [lia..|].
    exists m'. split_and!; [done| |done]. by eapply mem_ok_same.
Qed.


Lemma region_fits i j (st : Stack) sz m x y :
  region i j st = Some (sz, false) -> sz <= mem_Len m ->
  st !! i = Some x -> st !! j = Some y -> fits x y m.
Proof.
  unfold region, Back. intros E Hsz Hx Hy. rewrite Hx, Hy in E. cbn in E. injection E as E.
  by eapply calc_fits.
Qed.

Lemma two_regions_fits ri rl ii il (st : Stack) sz m x y z w :
  two_regions ri rl ii il st = Some (sz, false) -> sz <= mem_Len m ->
  st !! ri = Some x -> st !! rl = Some y -> st !! ii = Some z -> st !! il = Some w ->
  fits x y m /\ fits z w m.
Proof.
  unfold two_regions, region, Back. intros E Hsz Hx Hy Hz Hw. rewrite Hx, Hy, Hz, Hw in E. cbn in E.
  destruct (calcMemSize64 x y) as [a []] eqn:Ea; [done|]. cbn in E.
  destruct (calcMemSize64 z w) as [b []] eqn:Eb; [done|].
  split; eapply calc_fits; try done; destruct (Z.ltb_spec b a); injection E as <-; lia.
Qed.

Lemma region_fixed_fits i n (st : Stack) sz m x :
  0 < n <= 32 -> region_fixed i n st = Some (sz, false) -> sz <= mem_Len m -> mem_ok m ->
  st !! i = Some x ->
  Uint64 x = to_Z x /\ int64_of_u64 (to_Z x) = to_Z x /\ 0 <= to_Z x /\
  to_Z x + n <= mem_Len m <= 2 ^ 37.
Proof.
  unfold region_fixed, Back. intros Hn E Hsz Hok%mem_ok_small Hx. rewrite Hx in E. cbn in E.
  injection E as E. apply calcMemSize64WithUint_ok in E as [-> _]; [|unfold is_u64; lia|lia].
  pose proof (to_Z_range x). rewrite Uint64_spec, u64_small by (unfold is_u64; lia).
  unfold int64_of_u64. rewrite (proj2 (Z.ltb_lt _ (2 ^ 63))) by lia. split_and!; lia.
Qed.
End regions.

(** * Specifications *)
Section instr.
Context {U : Uint256} {US : Uint256Spec U}.
Context {S : Type} {DB : StateDB S} (env : Env S) (evm : EvmOps S).
Context (Pan : Prop) (I : S -> Prop) (R Rw : S -> S -> Prop).
Context (codeOf : hash -> list Byte.byte) (codeAt : S -> address -> list Byte.byte).
Context (laws : DBLaws (context env) Pan I R Rw codeOf codeAt).
Implicit Types (f : frame S) (e : evmstate S).

(** The shared cache holds the bitmaps of the codes behind its hashes. *)
Definition jumps_ok (jd : Jumpdests) : Prop :=
  forall h a, h <> 0%N -> jd !! h = Some a -> codeBitmap (codeOf h) = Ok a.

(** What holds of a running contract: slices have an int length, the hash is
    the hash of the code, a private analysis is its bitmap, there is a value. *)
Definition contract_ok (c : Contract) : Prop :=
  Z.of_nat (length (Code c)) < 2 ^ 63 /\
  Z.of_nat (length (Input c)) < 2 ^ 63 /\
  (c_CodeHash c <> 0%N -> codeOf (c_CodeHash c) = Code c) /\
  (c_CodeHash c = 0%N -> forall a, analysis c = Some a -> codeBitmap (Code c) = Ok a) /\
  is_Some (value c).

Definition frame_safe f : Prop :=
  contract_ok (f_Contract f) /\ jumps_ok (jumpdests (f_evm f)).

Definition input_ok (input : list Byte.byte) : Prop := Pan \/ Z.of_nat (length input) < 2 ^ 63.

Abbreviation frame_ok := (frame_ok I).

(** What may happen to the world: in read-only mode nothing. *)
Definition world (ro : bool) : S -> S -> Prop := if ro then R else Rw.

Lemma world_R ro s s' : R s s' -> world ro s s'.
Proof. destruct ro; [done|]. apply (R_Rw _ _ _ _ _ _ _ laws). Qed.

Lemma world_trans ro s1 s2 s3 : world ro s1 s2 -> world ro s2 s3 -> world ro s1 s3.
Proof. destruct ro; [apply (R_trans _ _ _ _ _ _ _ laws)|apply (Rw_trans _ _ _ _ _ _ _ laws)]. Qed.

Lemma world_refl ro s : world ro s s.
Proof. apply world_R, (R_refl _ _ _ _ _ _ _ laws). Qed.

(** What happens to the EVM around a frame. *)
Record evm_rel (e e' : evmstate S) : Prop := {
  er_depth : depth e' = depth e;
  er_readOnly : readOnly e' = readOnly e;
  er_I : I (ibs e');
  er_world : world (readOnly e) (ibs e) (ibs e');
  er_temp : is_u64 (callGasTemp e');
  er_jumps : Pan \/ jumps_ok (jumpdests e) -> Pan \/ jumps_ok (jumpdests e')
}.

Lemma evm_rel_trans e1 e2 e3 : evm_rel e1 e2 -> evm_rel e2 e3 -> evm_rel e1 e3.
Proof.
  intros [] [E1 E2]. split; try congruence; try done; [|tauto]. rewrite <- er_readOnly0.
  eapply world_trans; [rewrite er_readOnly0|]; done.
Qed.

(** The nested EVM, at depth [D] or more: it gives back at most the gas it
    got, keeps the world in read-only mode, and a failed call keeps it in any
    mode.  [quiet_ok] is what read-only mode asks of the arguments. *)
Definition call_spec (D : Z) (quiet_ok : Prop)
    (m : Z -> M (evmstate S) (list Byte.byte * Z * option EvmError)) : Prop :=
  forall gas e, D <= depth e -> I (ibs e) -> is_u64 (callGasTemp e) -> is_u64 gas ->
    Pan \/ jumps_ok (jumpdests e) -> (readOnly e = true -> quiet_ok) ->
    wp Pan (m gas) e (fun r e' => evm_rel e e' /\ 0 <= r.1.2 <= gas /\
      (r.2 <> None -> R (ibs e) (ibs e'))).

Definition create_spec (D : Z)
    (m : Z -> M (evmstate S) (list Byte.byte * address * Z * option EvmError)) : Prop :=
  forall gas e, D <= depth e -> I (ibs e) -> is_u64 (callGasTemp e) -> is_u64 gas ->
    Pan \/ jumps_ok (jumpdests e) -> readOnly e = false ->
    wp Pan (m gas) e (fun r e' => evm_rel e e' /\ 0 <= r.1.2 <= gas).

Record ops_ok (D : Z) (ops : EvmOps S) : Prop := {
  ops_Call caller a input v bail : input_ok input ->
    call_spec D (IsZero v = true) (fun gas => Call ops caller a input gas v bail);
  ops_CallCode caller a input v : input_ok input ->
    call_spec D True (fun gas => CallCode ops caller a input gas v);
  ops_DelegateCall c a input : input_ok input -> Pan \/ is_Some (value c) ->
    call_spec D True (fun gas => DelegateCall ops (ptr c) a input gas);
  ops_StaticCall caller a input : input_ok input ->
    call_spec D True (fun gas => StaticCall ops caller a input gas);
  ops_Create caller code v : input_ok code ->
    create_spec D (fun gas => Create ops caller code gas v);
  ops_Create2 caller code v salt : input_ok code ->
    create_spec D (fun gas => Create2 ops caller code gas v salt)
}.

(** The most gas an instruction can end with beyond what it had. *)
Definition refundable (t : ExecFn.t) f : Z :=
  match exec_call t with
  | Some carries => callGasTemp (f_evm f) + stipend carries (f_Stack f)
  | None => 0
  end.

(** The memory the instruction asked for is there. *)
Definition mem_ready (t : ExecFn.t) f : Prop :=
  match exec_memory t with
  | None => True
  | Some m => exists sz, memorySize m (f_Stack f) = Some (sz, false) /\ sz <= mem_Len (f_Memory f)
  end.

Record op_pre (D : Z) (t : ExecFn.t) f : Prop := {
  pre_ok : frame_ok f;
  pre_depth : D <= depth (f_evm f);
  pre_stack : ((arity t).1 <= length (f_Stack f))%nat;
  pre_mem : mem_ready t f;
  pre_gas : Gas (f_Contract f) + refundable t f < 2 ^ 64;
  pre_safe : Pan \/ frame_safe f;
  pre_pc : t = ExecFn.opStop \/ is_Some (lookupZ (Code (f_Contract f)) (f_pc f))
}.

Record op_post (t : ExecFn.t) f (r : list Byte.byte * option EvmError) f' : Prop := {
  post_evm : evm_rel (f_evm f) (f_evm f');
  post_stack : r.2 = None ->
    (length (f_Stack f') + (arity t).1 = length (f_Stack f) + (arity t).2)%nat;
  post_mem : mem_ok (f_Memory f');
  post_contract : same_contract (f_Contract f) (f_Contract f');
  post_gas : 0 <= Gas (f_Contract f') <= Gas (f_Contract f) + refundable t f;
  post_safe : Pan \/ frame_safe f -> Pan \/ frame_safe f';
  post_halts : halts t = true -> r.2 <> None
}.

Lemma wp_deref_or {St A} (o : option A) (s : St) (Q : A -> St -> Prop) :
  Pan \/ is_Some o -> (forall a, o = Some a -> Q a s) -> wp Pan (deref o) s Q.
Proof. intros H HQ. destruct o as [a|]; [by apply HQ|]. destruct H as [?|[]]; done. Qed.

(** ** Jumps *)
Lemma validJumpdest_frame (c : Contract) jd (dest : u256) :
  match validJumpdest c jd dest with
  | Ok (_, _, c', _) => set_analysis None c' = set_analysis None c
  | OutOfFuel => False
  | _ => True
  end.
Proof.
  unfold validJumpdest, isCode, isCodeFromAnalysis, mbind, outcome_bind, or_panic.
  destruct (codeBitmap_spec (Code c)) as (bits & Eb & _). rewrite Eb.
  repeat (case_match; simplify_eq; try done).
Qed.

Lemma frame_safe_cache c jd : contract_ok c -> jumps_ok jd -> cache_ok c jd.
Proof.
  intros (_ & _ & Hh & Ha & _) Hjd. split; [|done]. intros H0 a Hin. rewrite <- Hh by done. by eapply Hjd.
Qed.

Lemma frame_safe_cached c jd c' jd' :
  contract_ok c -> jumps_ok jd -> cache_ok c' jd' -> cached c jd c' jd' ->
  contract_ok c' /\ jumps_ok jd'.
Proof.
  intros (Hc & Hi & Hh & Ha & Hv) Hjd [_ Ha'] [Hsame Hjd'].
  destruct c as [ca cr sl an sk cd hh cad inp g v], c' as [].
  cbv [set_analysis] in Hsame. frame_cbn_in Hsame. injection Hsame as -> -> -> -> -> -> -> -> -> ->.
  unfold contract_ok. cbn in *. split; [done|].
  destruct Hjd' as [->|(a & -> & Hbits)]; [done|]. intros h b Hne.
  destruct (decide (h = hh)) as [->|]; [|rewrite lookup_insert_ne by done; by apply Hjd].
  rewrite lookup_insert_eq. intros [= <-]. by rewrite Hh.
Qed.

Lemma wp_validJump (pos : u256) f (Q : bool -> frame S -> Prop) :
  Pan \/ frame_safe f ->
  (forall b c' jd', set_analysis None c' = set_analysis None (f_Contract f) ->
     Pan \/ contract_ok c' /\ jumps_ok jd' ->
     Q b (set_evm (set_jumpdests jd' (f_evm f)) (set_Contract c' f))) ->
  wp Pan (validJump pos) f Q.
Proof.
  intros [HP|[Hc Hj]] HQ; unfold wp, validJump.
  - pose proof (validJumpdest_frame (f_Contract f) (jumpdests (f_evm f)) pos) as Hf.
    destruct (validJumpdest _ _ _) as [[[[b u] c'] jd']| | |]; cbn; auto.
  - destruct (validJumpdest_ok (f_Contract f) (jumpdests (f_evm f)) pos)
      as (b & u & c' & jd' & -> & _ & Hok & Hcached); [by apply frame_safe_cache|apply Hc|].
    cbn. apply HQ; [apply Hcached|]. right. by eapply frame_safe_cached.
Qed.

(** ** Symbolic execution of instructions *)
Ltac istart f Hpre :=
  let Hok := fresh "Hok" in
  destruct Hpre as [Hok HD Hlen Hready Hgas Hsafe Hpc];
  destruct Hok as [Hg Htemp Hmem HI];
  destruct f as [[s0 ct d ro rd jd ch] pc st [str lgc] [ca cr sl an sk cd hh cad inp g v]];
  unfold refundable in Hgas; cbn [exec_call] in Hgas; cbn [arity fst snd] in Hlen;
  unfold mem_ready in Hready; cbn [exec_memory] in Hready;
  frame_cbn_in HD; frame_cbn_in Hlen; frame_cbn_in Hgas; frame_cbn_in Hg; frame_cbn_in Htemp;
  frame_cbn_in Hmem; frame_cbn_in HI; frame_cbn_in Hready; unfold frame_safe, contract_ok in Hsafe;
  frame_cbn_in Hsafe; frame_cbn_in Hpc; stack_items.

(** Chains of steps of the world. *)
Ltac rw_chain :=
  lazymatch goal with
  | |- Rw ?a ?a => apply (R_Rw _ _ _ _ _ _ _ laws), (R_refl _ _ _ _ _ _ _ laws)
  | |- Rw ?a _ =>
      first [ assumption | apply (R_Rw _ _ _ _ _ _ _ laws); assumption
            | match goal with
              | H : R a ?b |- _ => eapply (Rw_trans _ _ _ _ _ _ _ laws);
                  [apply (R_Rw _ _ _ _ _ _ _ laws), H|]; clear H; rw_chain
              | H : Rw a ?b |- _ => eapply (Rw_trans _ _ _ _ _ _ _ laws); [exact H|]; clear H; rw_chain
              end ]
  end.

Ltac world_chain :=
  first [ assumption | apply world_refl
        | apply world_R; chain (R_trans _ _ _ _ _ _ _ laws) (R_refl _ _ _ _ _ _ _ laws)
        | match goal with E : ?ro = false |- world ?ro _ _ => rewrite E; cbn [world]; rw_chain end
        | cbn [world]; rw_chain ].

Ltac erel := constructor; frame_cbn; try solve [reflexivity | assumption | world_chain | auto].

Ltac ipost :=
  constructor; unfold refundable; cbn [exec_call]; frame_cbn;
  [ try solve [erel]
  | try solve [intros; cbn [arity length fst snd]; first [discriminate | lia]]
  | try assumption
  | try reflexivity
  | try solve [unfold is_u64 in *; lia]
  | try solve [unfold frame_safe, contract_ok; frame_cbn; auto]
  | try solve [cbn [halts]; intros; discriminate] ].

Ltac istep := first
  [ sym_step laws
  | lazymatch goal with
    | |- wp _ next _ _ => apply wp_ret; frame_cbn
    | |- wp _ (fails _) _ _ => apply wp_ret; frame_cbn
    | |- wp _ (let '(_, _) := ?x in _) _ _ => let E := fresh "E" in destruct x eqn:E
    | |- wp _ (refundGas _) _ _ => apply wp_modify; frame_cbn
    | |- wp _ (setReturnData _) _ _ => apply wp_in_evm, wp_modify; frame_cbn
    end ].

Lemma binop_spec D t fn f :
  arity t = (2, 1)%nat -> halts t = false -> exec_call t = None ->
  op_pre D t f -> wp Pan (binop fn) f (op_post t f).
Proof.
  intros Ha Hh Hc Hpre. destruct Hpre as [[Hg Htemp Hmem HI] HD Hlen _ Hgas _ _].
  destruct f as [[s0 ct d ro rd jd ch] pc st m c]. rewrite Ha in Hlen. frame_cbn_in Hlen. stack_items.
  unfold binop. repeat istep.
  constructor; unfold refundable; rewrite ?Ha, ?Hh, ?Hc; cbn in *; try done; try solve [erel]; unfold is_u64 in *; lia.
Qed.

Lemma push_spec D t v f :
  arity t = (0, 1)%nat -> halts t = false -> exec_call t = None ->
  op_pre D t f -> wp Pan (_ ← push v; next) f (op_post t f).
Proof.
  intros Ha Hh Hc Hpre. destruct Hpre as [[Hg Htemp Hmem HI] HD Hlen _ Hgas _ _].
  destruct f as [[s0 ct d ro rd jd ch] pc st m c].
  repeat istep. constructor; unfold refundable; rewrite ?Ha, ?Hh, ?Hc; cbn in *; try done; try solve [erel]; unfold is_u64 in *; lia.
Qed.

Lemma simple_spec D t f :
  In t [ExecFn.opNot; ExecFn.opIszero; ExecFn.opAddmod; ExecFn.opMulmod; ExecFn.opBalance;
        ExecFn.opExtCodeSize; ExecFn.opExtCodeHash; ExecFn.opPop; ExecFn.opSload; ExecFn.opSstore;
        ExecFn.opJumpdest; ExecFn.opStop; ExecFn.opSelfdestruct; ExecFn.opSelfBalance;
        ExecFn.opBlockhash] ->
  op_pre D t f -> wp Pan (exec_fn env evm t) f (op_post t f).
Proof.
  intros Hin Hpre. cbn [In] in Hin.
  repeat destruct Hin as [<-|Hin]; [..|done]; cbn [exec_fn]; istart f Hpre;
    unfold opNot, opIszero, opAddmod, opMulmod, opBalance, opExtCodeSize, opExtCodeHash, opPop,
      opSload, opSstore, opJumpdest, opStop, opSelfdestruct, opSelfBalance, opBlockhash, unlessReadOnly;
    repeat istep; ipost.
Qed.

Lemma context_spec D t f :
  In t [ExecFn.opAddress; ExecFn.opOrigin; ExecFn.opCaller; ExecFn.opCallDataSize;
        ExecFn.opReturnDataSize; ExecFn.opCodeSize; ExecFn.opGasprice; ExecFn.opCoinbase;
        ExecFn.opTimestamp; ExecFn.opNumber; ExecFn.opDifficulty; ExecFn.opGasLimit; ExecFn.opPc;
        ExecFn.opMsize; ExecFn.opGas; ExecFn.opChainID; ExecFn.opBaseFee; ExecFn.opPush0] ->
  op_pre D t f -> wp Pan (exec_fn env evm t) f (op_post t f).
Proof.
  intros Hin Hpre. cbn [In] in Hin.
  repeat destruct Hin as [<-|Hin]; [..|done]; cbn [exec_fn]; istart f Hpre;
    unfold opAddress, opOrigin, opCaller, opCallDataSize, opReturnDataSize, opCodeSize, opGasprice,
      opCoinbase, opTimestamp, opNumber, opDifficulty, opGasLimit, opPc, opMsize, opGas, opChainID,
      opBaseFee, opPush0;
    repeat (case_match || istep); ipost.
Qed.

Lemma opCallValue_spec D f :
  op_pre D ExecFn.opCallValue f -> wp Pan opCallValue f (op_post ExecFn.opCallValue f).
Proof.
  intros Hpre. istart f Hpre. unfold opCallValue. repeat istep.
  apply wp_deref_or; [destruct Hsafe; tauto|]. intros a Ha. repeat istep. ipost.
Qed.

Lemma getData_safe data start size :
  Pan \/ Z.of_nat (length data) < 2 ^ 63 -> is_u64 start -> 0 <= size < 2 ^ 63 ->
  Pan \/ is_Some (getData data start size).
Proof.
  intros [?|Hd] Hs Hsz; [by left|right]. destruct (getData_spec data start size Hs Hsz Hd) as (r & -> & _).
  eauto.
Qed.

Lemma opCallDataLoad_spec D f :
  op_pre D ExecFn.opCallDataLoad f -> wp Pan opCallDataLoad f (op_post ExecFn.opCallDataLoad f).
Proof.
  intros Hpre. istart f Hpre. unfold opCallDataLoad. repeat istep; [|ipost].
  apply wp_deref_or; [|intros a Ha; repeat istep; ipost].
  rewrite Uint64WithOverflow_spec in *. simplify_eq.
  apply getData_safe; [destruct Hsafe; tauto|apply u64_range|lia].
Qed.

Lemma lookupZ_nonneg {A} (l : list A) i : is_Some (lookupZ l i) -> 0 <= i < Z.of_nat (length l).
Proof.
  intros [x Hx]. apply lookupZ_Some in Hx as [? Hx]. apply lookup_lt_Some in Hx. lia.
Qed.

Lemma opPush1_spec D f :
  op_pre D ExecFn.opPush1 f -> wp Pan opPush1 f (op_post ExecFn.opPush1 f).
Proof.
  intros Hpre. istart f Hpre. unfold opPush1. repeat istep; [|ipost].
  apply Z.ltb_lt in E. apply wp_deref_or; [right|intros a Ha; repeat istep; ipost].
  apply lookupZ_lt. pose proof (u64_range (pc + 1)). unfold u64_add, is_u64 in *. lia.
Qed.

Lemma makePush_spec D n f :
  1 <= n <= 32 -> op_pre D (ExecFn.makePush n n) f ->
  wp Pan (makePush n n) f (op_post (ExecFn.makePush n n) f).
Proof.
  intros Hn Hpre. istart f Hpre. unfold makePush. repeat istep.
  apply wp_deref_or; [|intros a Ha; repeat istep; ipost].
  destruct Hsafe as [?|(Hc & _)]; [by left|right]. destruct Hpc as [?|Hpc%lookupZ_nonneg]; [done|].
  rewrite u64_add_small by (unfold is_u64; lia). unfold int64_of_u64.
  rewrite (proj2 (Z.ltb_lt (pc + 1) _)) by lia.
  rewrite slice_Some; [eauto|..]; repeat case_match;
    repeat match goal with
    | H : (_ <=? _) = true |- _ => apply Z.leb_le in H
    | H : (_ <=? _) = false |- _ => apply Z.leb_gt in H end; lia.
Qed.

Lemma opUndefined_spec D f :
  op_pre D ExecFn.opUndefined f -> wp Pan opUndefined f (op_post ExecFn.opUndefined f).
Proof.
  intros Hpre. istart f Hpre. unfold opUndefined. repeat istep.
  destruct Hpc as [?|Hpc]; [done|]. apply wp_deref_or; [by right|intros a Ha; repeat istep; ipost].
Qed.

Lemma jumpTo_spec D t (pos : u256) st f :
  arity t = (length st, 0)%nat -> halts t = false -> exec_call t = None ->
  op_pre D t (set_Stack (st ++ f_Stack f) f) ->
  wp Pan (jumpTo pos) f (op_post t (set_Stack (st ++ f_Stack f) f)).
Proof.
  intros Ha Hh Hc Hpre. destruct Hpre as [[Hg Htemp Hmem HI] HD Hlen _ Hgas Hsafe _].
  unfold jumpTo. apply wp_bind, wp_validJump; [exact Hsafe|]. intros b c' jd' Hc' Hsafe'.
  destruct f as [[s0 ct d ro rd jd ch] pc st0 m [ca cr sl an sk cd hh cad inp g v]], c'.
  cbv [set_analysis] in Hc'. frame_cbn_in Hc'. injection Hc' as -> -> -> -> -> -> -> -> -> ->.
  frame_cbn_in HI; frame_cbn_in Htemp; cbn in Hg, Hmem.
  destruct b; cbn [negb]; repeat istep;
    (constructor; unfold refundable; rewrite ?Ha, ?Hh, ?Hc; frame_cbn; cbn [fst snd];
      [erel; tauto|try done|done|done|unfold is_u64 in *; lia|intros _; exact Hsafe'|done]).
  intros _. rewrite length_app. lia.
Qed.

Lemma opJump_spec D f :
  op_pre D ExecFn.opJump f -> wp Pan opJump f (op_post ExecFn.opJump f).
Proof.
  intros Hpre. pose proof (pre_stack _ _ _ Hpre) as Hlen. destruct f as [e pc st m c].
  cbn in Hlen. destruct st as [|x st]; [cbn in Hlen; lia|]. unfold opJump.
  apply wp_bind. eapply wp_pop; [done|].
  by apply (jumpTo_spec D ExecFn.opJump x [x] (mk_frame e pc st m c)).
Qed.

Lemma opJumpi_spec D f :
  op_pre D ExecFn.opJumpi f -> wp Pan opJumpi f (op_post ExecFn.opJumpi f).
Proof.
  intros Hpre. pose proof (pre_stack _ _ _ Hpre) as Hlen. destruct f as [e pc st m c].
  cbn in Hlen. do 2 (destruct st as [|? st]; [cbn in Hlen; lia|]). unfold opJumpi.
  apply wp_bind. eapply wp_pop; [done|]. apply wp_bind. eapply wp_pop; [done|].
  destruct (negb (IsZero u0)).
  - by apply (jumpTo_spec D ExecFn.opJumpi u [u; u0] (mk_frame e pc st m c)).
  - destruct Hpre as [[Hg Htemp Hmem HI] _ _ _ _ _ _]. apply wp_ret.
    constructor; cbn in *; try done; [constructor; cbn; try done; apply world_refl|lia|].
    unfold refundable, is_u64 in *. cbn. lia.
Qed.

Lemma wp_on_stack g f (Q : unit -> frame S -> Prop) st :
  g (f_Stack f) = Some st -> Q tt (set_Stack st f) -> wp Pan (on_stack g) f Q.
Proof. unfold wp, on_stack. by intros ->. Qed.

Lemma makeDup_spec D n f :
  (1 <= n)%nat -> op_pre D (ExecFn.makeDup n) f ->
  wp Pan (makeDup n) f (op_post (ExecFn.makeDup n) f).
Proof.
  intros Hn Hpre. istart f Hpre. unfold makeDup. apply wp_bind.
  destruct n as [|n]; [lia|]. destruct (lookup_lt_is_Some_2 st n) as [x Hx]; [lia|].
  eapply wp_on_stack; [cbn; by rewrite Hx|]. repeat istep. ipost.
Qed.

Lemma makeSwap_spec D n f :
  (1 <= n)%nat -> op_pre D (ExecFn.makeSwap n) f ->
  wp Pan (makeSwap n) f (op_post (ExecFn.makeSwap n) f).
Proof.
  intros Hn Hpre. istart f Hpre. unfold makeSwap. apply wp_bind.
  destruct (lookup_lt_is_Some_2 st n) as [x Hx]; [lia|].
  destruct (lookup_lt_is_Some_2 st 0) as [y Hy]; [lia|].
  eapply wp_on_stack; [cbn [f_Stack Swap]; rewrite Hx, Hy; reflexivity|]. repeat istep. ipost.
  cbn [arity fst snd]. intros _. rewrite !length_insert. lia.
Qed.

(** ** Instructions on memory *)
Ltac ptr_step Hmem Hfit :=
  let bs := fresh "bs" in let Ebs := fresh "Ebs" in let Hbs := fresh "Hbs" in
  unfold getPtr, getCopy;
  first [ destruct (getPtr_fits _ _ _ Hmem Hfit) as (bs & Ebs & Hbs); eapply wp_from_memory; [exact Ebs|]
        | destruct (getCopy_fits _ _ _ Hmem Hfit) as (bs & Ebs & Hbs); eapply wp_from_memory; [exact Ebs|] ];
  frame_cbn.

Ltac set_step Hmem Hfit :=
  lazymatch goal with
  | |- wp _ (on_memory (Set_ _ _ ?v)) _ _ =>
      let m' := fresh "m" in let Em := fresh "Em" in let Hok' := fresh "Hok" in
      destruct (Set_fits _ _ v _ Hmem Hfit) as (m' & Em & Hok' & _);
      eapply wp_on_memory; [exact Em|]; frame_cbn
  end.

Ltac ready1 Hready Hfit :=
  destruct Hready as (sz & Hsz & Hle);
  pose proof (region_fits _ _ _ _ _ _ _ Hsz Hle eq_refl eq_refl) as Hfit.

Lemma opKeccak256_spec D f :
  op_pre D ExecFn.opKeccak256 f -> wp Pan (opKeccak256 env) f (op_post ExecFn.opKeccak256 f).
Proof.
  intros Hpre. istart f Hpre. ready1 Hready Hfit. unfold opKeccak256. repeat istep.
  ptr_step Hmem Hfit. repeat istep. ipost.
Qed.

Lemma opReturn_spec D f :
  op_pre D ExecFn.opReturn f -> wp Pan opReturn f (op_post ExecFn.opReturn f).
Proof.
  intros Hpre. istart f Hpre. ready1 Hready Hfit. unfold opReturn. repeat istep.
  ptr_step Hmem Hfit. repeat istep. ipost.
Qed.

Lemma opRevert_spec D f :
  op_pre D ExecFn.opRevert f -> wp Pan opRevert f (op_post ExecFn.opRevert f).
Proof.
  intros Hpre. istart f Hpre. ready1 Hready Hfit. unfold opRevert. repeat istep.
  ptr_step Hmem Hfit. repeat istep. ipost.
Qed.

(** The size of a copy into memory fits an int. *)
Lemma fits_size off l m : mem_ok m -> fits off l m -> 0 <= Uint64 l < 2 ^ 63.
Proof.
  intros Hok Hf. destruct (Z.eq_dec (to_Z l) 0) as [Hl|Hl].
  - rewrite (Uint64_zero l Hl). lia.
  - destruct (u64_fits off l m Hok Hf Hl) as (_ & -> & ?). lia.
Qed.

Lemma opCallDataCopy_spec D f :
  op_pre D ExecFn.opCallDataCopy f -> wp Pan opCallDataCopy f (op_post ExecFn.opCallDataCopy f).
Proof.
  intros Hpre. istart f Hpre. ready1 Hready Hfit. unfold opCallDataCopy. repeat istep.
  pose proof (fits_size _ _ _ Hmem Hfit). rewrite Uint64WithOverflow_spec in *. simplify_eq.
  apply wp_deref_or; [apply getData_safe; [destruct Hsafe; tauto| |done]|].
  - destruct (2 ^ 64 <=? to_Z u0); [done|apply u64_range].
  - intros data _. repeat istep. set_step Hmem Hfit. repeat istep. ipost.
Qed.

Lemma opCodeCopy_spec D f :
  op_pre D ExecFn.opCodeCopy f -> wp Pan opCodeCopy f (op_post ExecFn.opCodeCopy f).
Proof.
  intros Hpre. istart f Hpre. ready1 Hready Hfit. unfold opCodeCopy. repeat istep.
  pose proof (fits_size _ _ _ Hmem Hfit). rewrite Uint64WithOverflow_spec in *. simplify_eq.
  apply wp_deref_or; [apply getData_safe; [destruct Hsafe; tauto| |done]|].
  - destruct (2 ^ 64 <=? to_Z u0); [done|apply u64_range].
  - intros data _. repeat istep. set_step Hmem Hfit. repeat istep. ipost.
Qed.

Lemma opExtCodeCopy_spec D f :
  op_pre D ExecFn.opExtCodeCopy f -> wp Pan opExtCodeCopy f (op_post ExecFn.opExtCodeCopy f).
Proof.
  intros Hpre. istart f Hpre. ready1 Hready Hfit. unfold opExtCodeCopy. repeat istep.
  pose proof (fits_size _ _ _ Hmem Hfit). unfold getDataBig. rewrite Uint64WithOverflow_spec.
  apply wp_deref_or; [apply getData_safe; [tauto| |done]|].
  - destruct (2 ^ 64 <=? to_Z u1); [done|apply u64_range].
  - intros data _. repeat istep. set_step Hmem Hfit. repeat istep. ipost.
Qed.

Lemma opReturnDataCopy_spec D f :
  op_pre D ExecFn.opReturnDataCopy f ->
  wp Pan opReturnDataCopy f (op_post ExecFn.opReturnDataCopy f).
Proof.
  intros Hpre. istart f Hpre. ready1 Hready Hfit. unfold opReturnDataCopy.
  repeat istep; try ipost.
  apply orb_false_iff in E4 as [-> E4%Z.ltb_ge]. pose proof (to_Z_range u0). pose proof (to_Z_range u1).
  rewrite AddOverflow_spec in *. rewrite !Uint64WithOverflow_spec in *. simplify_eq.
  rewrite to_Z_Add in *.
  repeat match goal with H : (_ <=? _) = false |- _ => apply Z.leb_gt in H end.
  rewrite (Z.mod_small (to_Z u0 + to_Z u1)) in * by lia.
  rewrite !u64_small in * by (unfold is_u64; lia).
  rewrite slice_Some by lia. apply (wp_deref (Some _) _ _ _ eq_refl).
  repeat istep. set_step Hmem Hfit. repeat istep. ipost.
Qed.

Lemma opMload_spec D f :
  op_pre D ExecFn.opMload f -> wp Pan opMload f (op_post ExecFn.opMload f).
Proof.
  intros Hpre. istart f Hpre. destruct Hready as (sz & Hsz & Hle). unfold opMload. repeat istep.
  destruct (region_fixed_fits 0 32 _ _ _ _ ltac:(lia) Hsz Hle Hmem eq_refl) as (-> & -> & ? & ?).
  eapply wp_from_memory; [apply GetPtr_spec; frame_cbn; lia|]. repeat istep. ipost.
Qed.

Lemma opMstore_spec D f :
  op_pre D ExecFn.opMstore f -> wp Pan opMstore f (op_post ExecFn.opMstore f).
Proof.
  intros Hpre. istart f Hpre. destruct Hready as (sz & Hsz & Hle). unfold opMstore. repeat istep.
  destruct (region_fixed_fits 0 32 _ _ _ _ ltac:(lia) Hsz Hle Hmem eq_refl) as (-> & _ & ? & ?).
  destruct (Set32_spec (to_Z u) u0 (mk_Memory str lgc)) as (m' & Em & Eg & Es); [lia..|].
  eapply wp_on_memory; [exact Em|]. frame_cbn. repeat istep. ipost.
  eapply mem_ok_same; [|exact Eg|exact Hmem]. unfold mem_Len in *. rewrite Es.
  rewrite !length_app, length_take, length_drop, Bytes32_spec, length_be_split. cbn [store] in *. lia.
Qed.

Lemma opMstore8_spec D f :
  op_pre D ExecFn.opMstore8 f -> wp Pan opMstore8 f (op_post ExecFn.opMstore8 f).
Proof.
  intros Hpre. istart f Hpre. destruct Hready as (sz & Hsz & Hle). unfold opMstore8. repeat istep.
  destruct (region_fixed_fits 0 1 _ _ _ _ ltac:(lia) Hsz Hle Hmem eq_refl) as (-> & _ & ? & ?).
  eapply wp_on_memory.
  { unfold SetByte. frame_cbn. rewrite (proj2 (Z.leb_le 0 (to_Z u))), (proj2 (Z.ltb_lt (to_Z u) _)) by lia.
    reflexivity. }
  frame_cbn. repeat istep. ipost. apply (mem_ok_same (mk_Memory str lgc)); [|done|done].
  unfold mem_Len. cbn [store]. by rewrite length_insert.
Qed.

Lemma wp_pops n f (Q : list u256 -> frame S -> Prop) :
  (n <= length (f_Stack f))%nat ->
  Q (take n (f_Stack f)) (set_Stack (drop n (f_Stack f)) f) -> wp Pan (pops n) f Q.
Proof.
  revert f Q. induction n as [|n IH]; intros f Q Hlen HQ; cbn [pops].
  - apply wp_ret. by destruct f.
  - destruct f as [e pc [|x st] m c]; [cbn in Hlen; lia|]. cbn in Hlen, HQ.
    apply wp_bind. eapply wp_pop; [done|]. apply wp_bind. apply IH; cbn; [lia|done].
Qed.

Lemma makeLog_spec D n f :
  op_pre D (ExecFn.makeLog n) f -> wp Pan (makeLog env n) f (op_post (ExecFn.makeLog n) f).
Proof.
  intros Hpre. assert (2 <= length (f_Stack f))%nat as Hlen2.
  { pose proof (pre_stack _ _ _ Hpre) as H. cbn in H. lia. }
  istart f Hpre. frame_cbn_in Hlen2. stack_items. ready1 Hready Hfit. cbn [length] in Hlen.
  unfold makeLog, unlessReadOnly. repeat istep; [ipost|].
  apply wp_pops; [cbn; lia|]. frame_cbn. repeat istep. ptr_step Hmem Hfit. repeat istep. ipost.
  cbn [arity fst snd length]. intros _. rewrite length_drop. lia.
Qed.

(** ** Instructions that call back into the EVM *)
Context (D : Z) (Hops : ops_ok D evm).

Lemma call_gas (g g' extra : Z) : 0 <= g' -> g + extra < 2 ^ 64 -> 0 <= g -> g' <= extra ->
  u64_add g g' = g + g' /\ is_u64 (g + g').
Proof. intros. unfold u64_add. rewrite u64_small; unfold is_u64; lia. Qed.

Lemma evm_rel_returnData e e' : evm_rel e e' -> forall rd, evm_rel e (set_returnData rd e').
Proof. intros [] rd. by split. Qed.

Lemma safe_evm_rel f e' c' pc st m :
  evm_rel (f_evm f) e' -> Pan \/ frame_safe f -> contract_ok (f_Contract f) = contract_ok c' ->
  Pan \/ frame_safe (mk_frame e' pc st m c').
Proof.
  intros Hrel Hs Hc. destruct Hs as [?|[Hc0 Hj]]; [by left|].
  destruct (er_jumps _ _ Hrel) as [?|Hj']; [by right|by left|]. right. split; [|done]. cbn. by rewrite <- Hc.
Qed.

Lemma afterCall_spec t retOffset retSize r f f0 :
  fits retOffset retSize (f_Memory f) -> mem_ok (f_Memory f) ->
  evm_rel (f_evm f0) (f_evm f) -> f_Contract f = f_Contract f0 ->
  (length (f_Stack f) + (arity t).1 = length (f_Stack f0))%nat -> (arity t).2 = 1%nat ->
  halts t = false -> is_u64 (Gas (f_Contract f0)) ->
  Gas (f_Contract f0) + refundable t f0 < 2 ^ 64 -> 0 <= r.1.2 <= refundable t f0 ->
  wp Pan (afterCall retOffset retSize r) f (op_post t f0).
Proof.
  intros Hfit Hmem Hrel Hc Hst Hpush Hh Hg Hmax Hr. destruct r as [[ret returnGas] err]. cbn in Hr.
  unfold afterCall. apply wp_bind, wp_push, wp_bind.
  assert (forall m', mem_ok m' -> wp Pan (_ ← refundGas returnGas; _ ← setReturnData ret; mret (ret, None))
    (set_Memory m' (set_Stack (bool_word (bool_decide (err = None)) :: f_Stack f) f)) (op_post t f0)) as Hend.
  { intros m' Hok'. apply wp_bind, wp_modify, wp_bind, wp_in_evm, wp_modify, wp_ret.
    unfold is_u64 in *.
    constructor; cbn [f_evm f_Stack f_Memory f_Contract set_evm set_Contract set_Memory set_Stack].
    - by apply evm_rel_returnData.
    - intros _. cbn [length]. lia.
    - done.
    - by rewrite Hc.
    - rewrite Hc. destruct (call_gas (Gas (f_Contract f0)) returnGas (refundable t f0)) as [-> ?]; [lia..|].
      cbn. lia.
    - intros Hs. apply (safe_evm_rel f0); [by apply evm_rel_returnData|done|]. cbn. by rewrite Hc.
    - congruence. }
  destruct (bool_decide (err = None) || _).
  - destruct (Set_fits retOffset retSize ret _ Hmem Hfit) as (m' & Em & Hok' & _).
    eapply wp_on_memory; [exact Em|]. by apply Hend.
  - apply wp_ret. specialize (Hend (f_Memory f) Hmem). by destruct f.
Qed.

Ltac ready2 Hready Hret Hin :=
  destruct Hready as (sz & Hsz & Hle);
  destruct (two_regions_fits _ _ _ _ _ _ _ _ _ _ _ Hsz Hle eq_refl eq_refl eq_refl eq_refl) as [Hret Hin].

(** The gas a call hands on, with the stipend. *)
Lemma call_stipend (v : u256) ct g :
  is_u64 ct -> 0 <= g -> g + (ct + (if negb (IsZero v) then params.CallStipend else 0)) < 2 ^ 64 ->
  (if negb (IsZero v) then u64_add ct params.CallStipend else ct) =
    ct + (if negb (IsZero v) then params.CallStipend else 0) /\
  is_u64 (ct + (if negb (IsZero v) then params.CallStipend else 0)).
Proof.
  unfold is_u64, u64_add, params.CallStipend. intros ? ? ?.
  destruct (negb (IsZero v)); [rewrite u64_small by (unfold is_u64; lia)|]; lia.
Qed.

Lemma stipend_range b st : 0 <= stipend b st <= 2300.
Proof. unfold stipend, params.CallStipend. repeat case_match; lia. Qed.

Lemma opCall_spec f :
  op_pre D ExecFn.opCall f -> wp Pan (opCall evm) f (op_post ExecFn.opCall f).
Proof.
  intros Hpre. istart f Hpre. ready2 Hready Hret Hin.
  pose proof (stipend_range true (u :: u0 :: u1 :: u2 :: u3 :: u4 :: u5 :: st)).
  unfold opCall. repeat istep. ptr_step Hmem Hin. repeat istep; [ipost|].
  cbn in Hgas. destruct (call_stipend u1 ct g) as [-> Hct]; [done|unfold is_u64 in *; lia|done|].
  apply wp_in_evm. frame_cbn. eapply wp_mono.
  { apply (ops_Call _ _ Hops); [right; lia|done..|tauto|].
    cbn [readOnly]. intros ->. apply andb_false_iff in E as [E|E]; [|done]. by apply negb_false_iff in E. }
  intros r e' (Hrel & Hr & _). eapply afterCall_spec; frame_cbn; try done. cbn. lia.
Qed.

Lemma opCallCode_spec f :
  op_pre D ExecFn.opCallCode f -> wp Pan (opCallCode evm) f (op_post ExecFn.opCallCode f).
Proof.
  intros Hpre. istart f Hpre. ready2 Hready Hret Hin.
  unfold opCallCode. repeat istep. ptr_step Hmem Hin. repeat istep.
  cbn in Hgas. destruct (call_stipend u1 ct g) as [-> Hct]; [done|unfold is_u64 in *; lia|done|].
  apply wp_in_evm. frame_cbn. eapply wp_mono.
  { apply (ops_CallCode _ _ Hops); [right; lia|done..|tauto|done]. }
  intros r e' (Hrel & Hr & _). eapply afterCall_spec; frame_cbn; try done. cbn. lia.
Qed.

Lemma opDelegateCall_spec f :
  op_pre D ExecFn.opDelegateCall f ->
  wp Pan (opDelegateCall evm) f (op_post ExecFn.opDelegateCall f).
Proof.
  intros Hpre. istart f Hpre. ready2 Hready Hret Hin. rewrite stipend_false in Hgas.
  unfold opDelegateCall. repeat istep. ptr_step Hmem Hin. repeat istep.
  apply wp_in_evm. frame_cbn. eapply wp_mono.
  { apply (ops_DelegateCall _ _ Hops); [right; lia|cbn; tauto|done..|tauto|done]. }
  intros r e' (Hrel & Hr & _). eapply afterCall_spec; frame_cbn; try done; [cbn; lia|].
  unfold refundable. cbn [exec_call]. rewrite stipend_false, Z.add_0_r. exact Hr.
Qed.

Lemma opStaticCall_spec f :
  op_pre D ExecFn.opStaticCall f ->
  wp Pan (opStaticCall evm) f (op_post ExecFn.opStaticCall f).
Proof.
  intros Hpre. istart f Hpre. ready2 Hready Hret Hin. rewrite stipend_false in Hgas.
  unfold opStaticCall. repeat istep. ptr_step Hmem Hin. repeat istep.
  apply wp_in_evm. frame_cbn. eapply wp_mono.
  { apply (ops_StaticCall _ _ Hops); [right; lia|done..|tauto|done]. }
  intros r e' (Hrel & Hr & _). eapply afterCall_spec; frame_cbn; try done; [cbn; lia|].
  unfold refundable. cbn [exec_call]. rewrite stipend_false, Z.add_0_r. exact Hr.
Qed.

(** What the two creation instructions do with the result. *)
Lemma afterCreate_spec t res returnGas suberr f f0 :
  mem_ok (f_Memory f) -> evm_rel (f_evm f0) (f_evm f) ->
  f_Contract f = set_Gas (Gas (f_Contract f)) (f_Contract f0) ->
  (length (f_Stack f) + (arity t).1 = length (f_Stack f0) + (arity t).2)%nat ->
  halts t = false -> refundable t f0 = 0 -> is_u64 (Gas (f_Contract f0)) ->
  0 <= Gas (f_Contract f) -> 0 <= returnGas -> Gas (f_Contract f) + returnGas <= Gas (f_Contract f0) ->
  wp Pan (_ ← refundGas returnGas;
          if bool_decide (suberr = Some ErrExecutionReverted) then
            _ ← setReturnData res; mret (res, None)
          else _ ← setReturnData []; next) f (op_post t f0).
Proof.
  intros Hmem Hrel Hc Hst Hh Hr Hg Hg0 Hret Hsum. unfold is_u64 in Hg.
  assert (forall rd res, op_post t f0 (res, None)
    (set_evm (set_returnData rd (f_evm f))
      (set_Contract (set_Gas (u64_add (Gas (f_Contract f)) returnGas) (f_Contract f)) f))) as Hend.
  { intros rd res'. rewrite u64_add_small by (unfold is_u64; lia). constructor; cbn.
    - by apply evm_rel_returnData.
    - done.
    - done.
    - by rewrite Hc.
    - lia.
    - intros Hs. apply (safe_evm_rel f0); [by apply evm_rel_returnData|done|]. cbn. by rewrite Hc.
    - congruence. }
  apply wp_bind, wp_modify.
  destruct (bool_decide _); apply wp_bind, wp_in_evm, wp_modify, wp_ret; apply Hend.
Qed.

Lemma create_gas g (b : bool) :
  is_u64 g -> let g' := if b then u64_sub g (g / 64) else g in is_u64 g' /\ 0 <= g' <= g.
Proof.
  unfold is_u64, u64_sub. intros Hg. assert (0 <= g / 64 <= g) by (Z.div_mod_to_equations; lia).
  destruct b; cbn; [rewrite u64_small by (unfold is_u64; lia)|]; lia.
Qed.

Lemma opCreate_spec f :
  op_pre D ExecFn.opCreate f -> wp Pan (opCreate env evm) f (op_post ExecFn.opCreate f).
Proof.
  intros Hpre. istart f Hpre. ready1 Hready Hfit. unfold opCreate, unlessReadOnly.
  repeat istep; [ipost|]. ptr_step Hmem Hfit. apply wp_bind, wp_gets. frame_cbn.
  destruct (create_gas g (IsTangerineWhistle (chainRules env)) Hg) as [Hg1 Hg2].
  set (g' := if IsTangerineWhistle _ then u64_sub g (g / 64) else g) in *. apply wp_bind, wp_useGas; [done|done| |cbn; lia].
  frame_cbn. intros _. repeat istep. apply wp_in_evm. frame_cbn. eapply wp_mono.
  { apply (ops_Create _ _ Hops); [right; lia|done..|tauto|done]. }
  intros [[[res addr] returnGas] suberr] e' (Hrel & Hr). cbn in Hr. frame_cbn. apply wp_bind.
  eapply wp_set_top; [done|]. frame_cbn. apply afterCreate_spec; frame_cbn; try done; cbn; lia.
Qed.

Lemma opCreate2_spec f :
  op_pre D ExecFn.opCreate2 f -> wp Pan (opCreate2 evm) f (op_post ExecFn.opCreate2 f).
Proof.
  intros Hpre. istart f Hpre. ready1 Hready Hfit. unfold opCreate2, unlessReadOnly.
  repeat istep; [ipost|]. ptr_step Hmem Hfit. apply wp_bind, wp_gets. frame_cbn.
  destruct (create_gas g true Hg) as [Hg1 Hg2]. cbn zeta iota in Hg1, Hg2.
  set (g' := u64_sub g (g / 64)) in *. apply wp_bind, wp_useGas; [done|done| |cbn; lia].
  frame_cbn. intros _. repeat istep. apply wp_in_evm. frame_cbn. eapply wp_mono.
  { apply (ops_Create2 _ _ Hops); [right; lia|done..|tauto|done]. }
  intros [[[res addr] returnGas] suberr] e' (Hrel & Hr). cbn in Hr. frame_cbn. apply wp_bind, wp_push.
  frame_cbn. apply afterCreate_spec; frame_cbn; try done; cbn; lia.
Qed.

#[local] Hint Resolve opKeccak256_spec opCallValue_spec opCallDataLoad_spec opCallDataCopy_spec
  opReturnDataCopy_spec opCodeCopy_spec opExtCodeCopy_spec opMload_spec opMstore_spec opMstore8_spec
  opJump_spec opJumpi_spec opCreate_spec opCreate2_spec opCall_spec opCallCode_spec
  opDelegateCall_spec opStaticCall_spec opReturn_spec opRevert_spec opUndefined_spec opPush1_spec
  makeLog_spec : instr.

(** Every instruction meets its specification. *)
Lemma exec_fn_spec t f :
  exec_wf t = true -> op_pre D t f -> wp Pan (exec_fn env evm t) f (op_post t f).
Proof.
  intros Hwf Hpre.
  destruct t; try (eapply simple_spec; [cbn; tauto|done]); try (eapply context_spec; [cbn; tauto|done]);
    cbn [exec_fn]; try (by eapply binop_spec); eauto with instr; cbn in Hwf.
  - apply andb_prop in Hwf as [[->%Z.eqb_eq ?%Z.leb_le]%andb_prop ?%Z.leb_le].
    by eapply makePush_spec.
  - eapply makeDup_spec; [by apply Nat.leb_le|done].
  - eapply makeSwap_spec; [by apply Nat.leb_le|done].
Qed.
End instr.
