(* ===== verification/EvmStep.v ===== *)
(** The instruction tables and the interpreter loop.  Stack bounds, memory sizes
    and prices of every entry of every fork's table are those of the function it
    executes; a round keeps the frame well formed, costs gas when the loop goes
    on, and so the loop ends. *)
From S2P Require Import Prelude Uint256 OpCodes Machine MachineSpec StateTypes Precompiles Contract EvmTypes JumpTable GasTable Instructions Interpreter EvmLogic.
From S2P Require Import EvmGas EvmInstr.
#[local] Open Scope Z_scope.

(** * A decidable check of one entry *)

Definition memorySizeFunc_eqb (a b : memorySizeFunc) : bool := bool_decide (a = b).

Definition option_eqb {A} (eqb : A -> A -> bool) (a b : option A) : bool :=
  match a, b with
  | None, None => true
  | Some a, Some b => eqb a b
  | _, _ => false
  end.

(** The stack bounds are those of the instruction, and leave room for what it
    pushes under the limit. *)
Definition stack_fits (o : operation) : bool :=
  (numPop o =? Z.of_nat (arity (execute o)).1) &&
  (maxStack o =? params.StackLimit + Z.of_nat (arity (execute o)).1 - Z.of_nat (arity (execute o)).2).

(** The memory that is allocated is the memory the instruction uses. *)
Definition memory_fits (o : operation) : bool :=
  option_eqb memorySizeFunc_eqb (op_memorySize o) (exec_memory (execute o)) &&
  match op_memorySize o, dynamicGas o with
  | Some _, Some g => gas_memory g
  | Some _, None => false
  | None, _ => true
  end.

(** The price function looks only at what is on the stack, and prices a call
    exactly for the call instructions. *)
Definition price_fits (eip150 : bool) (o : operation) : bool :=
  match dynamicGas o with
  | Some g => (Z.of_nat (gas_depth g) <=? numPop o) && gas_wf eip150 g &&
              option_eqb Bool.eqb (gas_call g) (exec_call (execute o))
  | None => match exec_call (execute o) with None => true | Some _ => false end
  end.

(** An instruction after which the loop goes on costs something; a call does
    so apart from the gas it hands on. *)
Definition costs_gas (o : operation) : bool :=
  let floor := match dynamicGas o with
               | Some g => match gas_call g with Some _ => 0 | None => gas_floor g end
               | None => 0 end in
  (0 <=? constantGas o) && (constantGas o <? 2 ^ 32) &&
  (halts (execute o) || (1 <=? constantGas o + floor)).

Definition entry_ok (eip150 : bool) (o : operation) : bool :=
  exec_wf (execute o) && stack_fits o && memory_fits o && price_fits eip150 o && costs_gas o.

(** All 256 entries are there and fit, and STOP stops. *)
Definition table_ok (eip150 : bool) (jt : JumpTable) : bool :=
  (Z.of_nat (length jt) =? 256) &&
  forallb (fun e => match e with Some o => entry_ok eip150 o | None => false end) jt &&
  match lookupZ jt Op.STOP with
  | Some (Some o) => match execute o with ExecFn.opStop => true | _ => false end
  | _ => false
  end.

(** The forks from Berlin on price calls under EIP-150. *)
Definition eip150_of (rules : Rules) : bool :=
  IsTangerineWhistle rules || IsBerlin rules || IsLondon rules || IsShanghai rules || IsCancun rules.

Definition table_checks (eip150 : bool) (o : option JumpTable) : bool :=
  match o with Some jt => table_ok eip150 jt | None => false end.

Lemma table_checks_spec eip150 o :
  table_checks eip150 o = true -> exists jt, o = Some jt /\ table_ok eip150 jt = true.
Proof. destruct o as [jt|]; [|done]. by exists jt. Qed.

(** The tables before Berlin under both settings, from Berlin on under EIP-150. *)
Lemma early_tables_ok :
  forallb (fun o => table_checks false o && table_checks true o)
    [newFrontierInstructionSet; newHomesteadInstructionSet; newTangerineWhistleInstructionSet;
     newSpuriousDragonInstructionSet; newByzantiumInstructionSet; newConstantinopleInstructionSet;
     newIstanbulInstructionSet] = true.
Proof. vm_compute. reflexivity. Qed.

Lemma late_tables_ok :
  forallb (table_checks true)
    [newBerlinInstructionSet; newLondonInstructionSet; newShanghaiInstructionSet;
     newCancunInstructionSet] = true.
Proof. vm_compute. reflexivity. Qed.

Lemma instructionSet_checks rules : table_checks (eip150_of rules) (instructionSet rules) = true.
Proof.
  pose proof early_tables_ok as He. pose proof late_tables_ok as Hl.
  cbn [forallb] in He, Hl. repeat rewrite andb_true_iff in He. repeat rewrite andb_true_iff in Hl.
  unfold instructionSet, eip150_of.
  destruct (IsCancun rules); [rewrite !orb_true_r; tauto|].
  destruct (IsShanghai rules); [rewrite !orb_true_r; tauto|].
  destruct (IsLondon rules); [rewrite !orb_true_r; tauto|].
  destruct (IsBerlin rules); [rewrite !orb_true_r; tauto|]. rewrite !orb_false_r.
  repeat case_match; try tauto; destruct (IsTangerineWhistle rules); tauto.
Qed.

Lemma table_ok_entry eip150 jt op :
  table_ok eip150 jt = true -> 0 <= op < 256 ->
  exists o, lookupZ jt op = Some (Some o) /\ entry_ok eip150 o = true.
Proof.
  unfold table_ok. intros [[Hlen%Z.eqb_eq Hall]%andb_prop _]%andb_prop Hop.
  destruct (lookupZ_lt jt op) as [e He]; [lia|]. rewrite forallb_forall in Hall.
  assert (In e jt) as Hin.
  { apply lookupZ_Some in He as [_ He]. apply list_elem_of_In. by eapply list_elem_of_lookup_2. }
  specialize (Hall e Hin). destruct e as [o|]; [|done]. eauto.
Qed.

Lemma table_ok_stop eip150 jt :
  table_ok eip150 jt = true -> exists o, lookupZ jt Op.STOP = Some (Some o) /\ execute o = ExecFn.opStop.
Proof.
  unfold table_ok. intros [_ H]%andb_prop. destruct (lookupZ jt Op.STOP) as [[o|]|]; try done.
  exists o. by destruct (execute o).
Qed.

Lemma option_eqb_eq {A} (eqb : A -> A -> bool) a b :
  (forall x y, eqb x y = true -> x = y) -> option_eqb eqb a b = true -> a = b.
Proof. intros H. destruct a, b; cbn; try done. intros E. f_equal. auto. Qed.

(** The check, as propositions. *)
Record entry_spec (eip150 : bool) (o : operation) : Prop := {
  es_wf : exec_wf (execute o) = true;
  es_pop : numPop o = Z.of_nat (arity (execute o)).1;
  es_max : maxStack o =
    params.StackLimit + Z.of_nat (arity (execute o)).1 - Z.of_nat (arity (execute o)).2;
  es_memory : op_memorySize o = exec_memory (execute o);
  es_memory_gas : op_memorySize o <> None -> exists g, dynamicGas o = Some g /\ gas_memory g = true;
  es_no_gas : dynamicGas o = None -> exec_call (execute o) = None;
  es_gas g : dynamicGas o = Some g -> (gas_depth g <= (arity (execute o)).1)%nat /\
    gas_wf eip150 g = true /\ gas_call g = exec_call (execute o);
  es_constant : 0 <= constantGas o < 2 ^ 32;
  es_costs : halts (execute o) = false ->
    match dynamicGas o with
    | Some g => 1 <= constantGas o + (if gas_call g then 0 else gas_floor g)
    | None => 1 <= constantGas o
    end
}.

Lemma entry_ok_spec eip150 o : entry_ok eip150 o = true -> entry_spec eip150 o.
Proof.
  unfold entry_ok, stack_fits, memory_fits, price_fits, costs_gas.
  repeat rewrite andb_true_iff.
  intros ((((Hwf & Hpop%Z.eqb_eq & Hmax%Z.eqb_eq) & Hmem & Hmg) & Hprice) & (H0%Z.leb_le & H1%Z.ltb_lt) & Hc).
  assert (op_memorySize o = exec_memory (execute o)) as Hm.
  { eapply option_eqb_eq; [|exact Hmem]. intros x y ?%bool_decide_eq_true_1. done. }
  split; try done.
  - destruct (op_memorySize o); [|done]. intros _. destruct (dynamicGas o) as [g|]; eauto. done.
  - intros E. rewrite E in Hprice. by destruct (exec_call _).
  - intros g E. rewrite E in Hprice. repeat rewrite andb_true_iff in Hprice.
    destruct Hprice as [[Hd%Z.leb_le Hw] He]. split_and!; [lia|done|].
    eapply option_eqb_eq; [|exact He]. intros x y. apply eqb_prop.
  - intros Hh. rewrite Hh in Hc. cbn in Hc. apply Z.leb_le in Hc.
    destruct (dynamicGas o) as [g|]; [|lia]. by destruct (gas_call g).
Qed.

(** * The memory an instruction asks for *)
Section memory_request.
Context {U : Uint256} {US : Uint256Spec U} {L : LibMath} {LS : LibMathSpec L}.

Lemma region_Some i j (st : Stack) :
  (i < length st)%nat -> (j < length st)%nat -> is_Some (region i j st).
Proof.
  intros [x Hx]%lookup_lt_is_Some_2 [y Hy]%lookup_lt_is_Some_2. unfold region, Back. rewrite Hx, Hy. cbn. eauto.
Qed.

Lemma region_fixed_Some i n (st : Stack) : (i < length st)%nat -> is_Some (region_fixed i n st).
Proof. intros [x Hx]%lookup_lt_is_Some_2. unfold region_fixed, Back. rewrite Hx. cbn. eauto. Qed.

Lemma two_regions_Some a b c d (st : Stack) :
  (a < length st)%nat -> (b < length st)%nat -> (c < length st)%nat -> (d < length st)%nat ->
  is_Some (two_regions a b c d st).
Proof.
  intros Ha Hb Hc Hd. unfold two_regions.
  destruct (region_Some a b st Ha Hb) as [[x ?] ->], (region_Some c d st Hc Hd) as [[y ?] ->].
  cbn. repeat case_match; eauto.
Qed.

Create HintDb regions.
#[local] Hint Resolve region_Some region_fixed_Some two_regions_Some : regions.

(** The request is computed from items that are on the stack. *)
Lemma memorySize_Some t m (st : Stack) :
  exec_memory t = Some m -> ((arity t).1 <= length st)%nat -> is_Some (memorySize m st).
Proof.
  intros Hm Hlen. destruct t; cbn in Hm, Hlen; try discriminate Hm; injection Hm as <-; cbn [memorySize];
    (apply region_Some || apply region_fixed_Some || apply two_regions_Some); lia.
Qed.

Lemma region_u64 i j (st : Stack) sz : region i j st = Some (sz, false) -> is_u64 sz.
Proof.
  unfold region, Back. destruct (st !! i), (st !! j); try done. cbn. intros [= E].
  by apply calcMemSize64_ok in E as (_ & ? & _).
Qed.

Lemma memorySize_u64 m (st : Stack) sz : memorySize m st = Some (sz, false) -> is_u64 sz.
Proof.
  assert (forall i n, 0 < n <= 32 -> region_fixed i n st = Some (sz, false) -> is_u64 sz) as Hfix.
  { intros i n Hn. unfold region_fixed, Back. destruct (st !! i); [|done]. cbn. intros [= E].
    apply calcMemSize64WithUint_ok in E as [_ ?]; [done|unfold is_u64; lia|lia]. }
  assert (forall a b c d, two_regions a b c d st = Some (sz, false) -> is_u64 sz) as Htwo.
  { intros a b c d. unfold two_regions.
    destruct (region a b st) as [[x []]|] eqn:Ex; try done. cbn.
    destruct (region c d st) as [[y []]|] eqn:Ey; try done. cbn.
    destruct (y <? x); intros [= <-]; by eapply region_u64. }
  destruct m; cbn [memorySize]; first [apply region_u64|apply Htwo|apply Hfix; lia].
Qed.

(** Rounded up to words. *)
Lemma words_requested sz :
  is_u64 sz ->
  match checked (SafeMul (ToWordSize sz) 32) with
  | inl n => exists nw, 0 <= nw /\ n = 32 * nw /\ sz <= n
  | inr _ => True
  end.
Proof.
  intros Hsz. pose proof (ToWordSize_bound sz Hsz). pose proof (ToWordSize_covers sz Hsz).
  unfold checked. rewrite SafeMul_spec by (unfold is_u64; lia). cbn [fst snd].
  destruct (Z.leb_spec (2 ^ 64) (ToWordSize sz * 32)); [done|].
  rewrite u64_small by (unfold is_u64; lia). exists (ToWordSize sz). lia.
Qed.
End memory_request.

(** * A round of the loop *)
Section step.
Context {U : Uint256} {US : Uint256Spec U} {L : LibMath} {LS : LibMathSpec L}.
Context {S : Type} {DB : StateDB S} (env : Env S) (jt : JumpTable).
Context (Pan : Prop) (I : S -> Prop) (R Rw : S -> S -> Prop).
Context (codeOf : hash -> list Byte.byte) (codeAt : S -> address -> list Byte.byte).
Context (laws : DBLaws (context env) Pan I R Rw codeOf codeAt).
Context (Htable : table_ok (IsTangerineWhistle (chainRules env)) jt = true).
Implicit Types (f : frame S) (e : evmstate S).

Abbreviation frame_ok := (frame_ok I).
Abbreviation quiet := (quiet I R).
Abbreviation evm_rel := (evm_rel Pan I R Rw codeOf).
Abbreviation frame_safe := (frame_safe codeOf).
Abbreviation op_pre := (op_pre Pan I codeOf).
Abbreviation op_post := (op_post Pan I R Rw codeOf).
Abbreviation ops_ok := (ops_ok Pan I R Rw codeOf).

Lemma quiet_evm_rel f f' : quiet f f' -> evm_rel (f_evm f) (f_evm f').
Proof.
  intros []. split; try done.
  - by eapply world_R.
  - by rewrite q_jumpdests.
Qed.

Lemma same_contract_ok c c' :
  same_contract c c' -> analysis c' = analysis c -> contract_ok codeOf c -> contract_ok codeOf c'.
Proof.
  destruct c, c'. unfold same_contract, contract_ok. cbn. intros [=] ->. by simplify_eq.
Qed.

Lemma quiet_safe f f' : quiet f f' -> Pan \/ frame_safe f -> Pan \/ frame_safe f'.
Proof.
  intros [] [?|[Hc Hj]]; [by left|right]. split; [by eapply same_contract_ok|by rewrite q_jumpdests].
Qed.

(** Paying the dynamic part: the frame is as before but for gas and
    bookkeeping, and on success the memory is there. *)
Record paid (o : operation) f f' : Prop := {
  paid_quiet : exists f1 m, quiet f f1 /\ f' = set_Memory m f1;
  paid_ok : frame_ok f';
  paid_ready : mem_ready (execute o) f';
  paid_gas : exists d, Gas (f_Contract f') = Gas (f_Contract f) - d /\ 0 <= d /\
    refundable (execute o) f' <= d /\ (forall g, dynamicGas o = Some g -> gas_floor g <= d)
}.

Definition dynamic_post (o : operation) f (err : option EvmError) f' : Prop :=
  match err with
  | None => paid o f f'
  | Some _ => quiet f f' /\ 0 <= Gas (f_Contract f') <= Gas (f_Contract f)
  end.

Definition request_post (o : operation) f (r : result Z) f' : Prop :=
  f' = f /\
  match r with
  | inl n => exists nw, 0 <= nw /\ n = 32 * nw /\
      match op_memorySize o with
      | Some ms => exists sz, memorySize ms (f_Stack f) = Some (sz, false) /\ sz <= n
      | None => nw = 0
      end
  | inr _ => True
  end.

Lemma requestedMemory_spec o f b :
  entry_spec b o -> ((arity (execute o)).1 <= length (f_Stack f))%nat ->
  wp Pan (requestedMemory o) f (request_post o f).
Proof.
  intros He Hlen. unfold requestedMemory, request_post. pose proof (es_memory _ _ He) as Hm.
  destruct (op_memorySize o) as [ms|] eqn:E.
  - destruct (memorySize_Some (execute o) ms (f_Stack f)) as [[sz overflow] Hsz]; [done..|].
    apply wp_bind, wp_gets, wp_bind. eapply wp_deref; [exact Hsz|].
    destruct overflow; apply wp_ret; (split; [done|]); [done|].
    pose proof (words_requested sz (memorySize_u64 _ _ _ Hsz)) as Hw.
    destruct (checked _) as [n|]; [|done]. destruct Hw as (nw & ? & ? & ?). eauto 10.
  - apply wp_ret. split; [done|]. exists 0. split_and!; lia.
Qed.

Lemma Resize_nonpos n m : n <= 0 -> Resize n m = m.
Proof. intros. unfold Resize, mem_Len. destruct (Z.ltb_spec (Z.of_nat (length (store m))) n); [lia|done]. Qed.

Lemma resize_if n f (Q : unit -> frame S -> Prop) :
  Q tt (set_Memory (Resize n (f_Memory f)) f) ->
  wp Pan (if 0 <? n then modify (fun f => set_Memory (Resize n (f_Memory f)) f) else mret tt) f Q.
Proof.
  intros HQ. destruct (Z.ltb_spec 0 n); [by apply wp_modify|apply wp_ret].
  rewrite Resize_nonpos in HQ by lia. by destruct f.
Qed.

(** After the price [d] has been computed in [f1]. *)
Lemma paid_intro o g nw d f f1 b :
  entry_spec b o -> frame_ok f -> dynamicGas o = Some g ->
  request_post o f (inl (32 * nw)) f -> gas_post I R g (32 * nw) f (inl d) f1 ->
  d <= Gas (f_Contract f1) ->
  paid o f (set_Memory (Resize (32 * nw) (f_Memory f1))
    (set_Contract (set_Gas (Gas (f_Contract f1) - d) (f_Contract f1)) f1)).
Proof.
  intros He Hok Hg (_ & nw' & Hnw & Enw & Hreq) (Hq & Hgas & Hd & Hfl & Hmem & Hcall) Hle.
  assert (nw' = nw) as -> by lia. destruct (es_gas _ _ He g Hg) as (_ & _ & Hgc).
  assert (mem_ok (Resize (32 * nw) (f_Memory f1))) as Hmok.
  { destruct (gas_memory g) eqn:Egm; [apply Hmem|]. destruct (op_memorySize o) eqn:Em.
    - destruct (es_memory_gas _ _ He) as (g' & Hg' & ?); congruence.
    - subst nw. rewrite Resize_nonpos, Hmem by lia. apply Hok. }
  unfold is_u64 in Hd. split.
  - eexists _, _. split; [by apply quiet_gas|done].
  - destruct Hok, Hq. split; cbn; [unfold is_u64 in *; lia|done..].
  - unfold mem_ready. rewrite <- (es_memory _ _ He). destruct (op_memorySize o) as [ms|]; [|done].
    destruct Hreq as (sz & Hsz & Hszle). exists sz. cbn. rewrite (q_stack _ _ _ _ Hq).
    split; [done|]. rewrite mem_Len_Resize. lia.
  - exists d. cbn. split_and!; [lia|lia| |intros g' Hg'; by simplify_eq].
    unfold refundable, call_floor in *. rewrite <- Hgc. cbn. rewrite (q_stack _ _ _ _ Hq).
    destruct (gas_call g); lia.
Qed.

Lemma paid_free o f b :
  entry_spec b o -> frame_ok f -> dynamicGas o = None -> paid o f f.
Proof.
  intros He Hok Hg. split; [|done| |].
  - exists f, (f_Memory f). split; [by eapply quiet_refl|by destruct f].
  - unfold mem_ready. rewrite <- (es_memory _ _ He). destruct (op_memorySize o) eqn:Em; [|done].
    destruct (es_memory_gas _ _ He) as (g & ? & _); congruence.
  - exists 0. unfold refundable. rewrite (es_no_gas _ _ He Hg). split_and!; [lia..|congruence].
Qed.

Lemma useDynamicGas_spec o f :
  entry_spec (IsTangerineWhistle (chainRules env)) o -> frame_ok f ->
  ((arity (execute o)).1 <= length (f_Stack f))%nat ->
  wp Pan (useDynamicGas env o) f (dynamic_post o f).
Proof.
  intros He Hok Hlen. unfold useDynamicGas. destruct (dynamicGas o) as [g|] eqn:Hg.
  2:{ apply wp_ret. by eapply paid_free. }
  apply wp_bind. eapply wp_mono; [by eapply requestedMemory_spec|].
  intros r f' [-> Hr]. pose proof (quiet_refl _ _ _ _ _ _ _ laws f Hok) as Hq0.
  assert (0 <= Gas (f_Contract f)) as Hg0 by apply Hok.
  destruct r as [n|]; [|apply wp_ret; split; [done|lia]].
  destruct (es_gas _ _ He g Hg) as (Hd & Hwf & _).
  pose proof Hr as (nw & Hnw & -> & _). apply wp_bind. eapply wp_mono; [eapply gas_fn_spec; (done || lia)|].
  intros r f1 Hpost. pose proof Hpost as [Hq1 Hr1]. destruct r as [d|]; [|apply wp_ret; by split].
  destruct Hr1 as (Hgas1 & Hd1 & _). apply wp_bind, wp_useGas; [rewrite Hgas1; apply Hok|done|..].
  - intros Hle. apply wp_bind, resize_if, wp_ret.
    exact (paid_intro o g nw d f f1 _ He Hok Hg (conj eq_refl Hr) Hpost Hle).
  - intros _. apply wp_ret. split; [done|lia].
Qed.

(** What holds between two rounds, and what a round does. *)
Record loop_ok (D : Z) f : Prop := {
  lo_ok : frame_ok f;
  lo_depth : D <= depth (f_evm f);
  lo_stack : Len (f_Stack f) <= params.StackLimit;
  lo_safe : Pan \/ frame_safe f
}.

Record step_post (D : Z) f (r : list Byte.byte * option EvmError) f' : Prop := {
  sp_evm : evm_rel (f_evm f) (f_evm f');
  sp_contract : same_contract (f_Contract f) (f_Contract f');
  sp_gas : 0 <= Gas (f_Contract f') <= Gas (f_Contract f);
  sp_next : r.2 = None -> loop_ok D f' /\ Gas (f_Contract f') < Gas (f_Contract f)
}.

Lemma step_failed D f f' b (err : EvmError) :
  quiet f f' -> 0 <= Gas (f_Contract f') <= Gas (f_Contract f) -> step_post D f (b, Some err) f'.
Proof.
  intros Hq Hg. split; [by apply quiet_evm_rel|apply Hq|done|done].
Qed.

Lemma set_Gas_ok n f : frame_ok f -> is_u64 n -> frame_ok (set_Contract (set_Gas n (f_Contract f)) f).
Proof. intros [] ?. by split. Qed.

(** Once the constant and the dynamic part are paid, the instruction runs in
    the frame it expects. *)
Lemma paid_pre D o f f' :
  loop_ok D f -> paid o f f' -> ((arity (execute o)).1 <= length (f_Stack f))%nat ->
  execute o = ExecFn.opStop \/ is_Some (lookupZ (Code (f_Contract f)) (f_pc f)) ->
  op_pre D (execute o) f'.
Proof.
  intros [Hok HD _ Hsafe] [(f1 & m & Hq & ->) Hok' Hready (d & Hgas & Hd & Href & _)] Hlen Hpc.
  pose proof Hq as [Epc Est _ Ec _ _ Edep _ _ _ _]. split; try done.
  - cbn. by rewrite Edep.
  - cbn. by rewrite Est.
  - pose proof (ok_gas _ _ Hok) as Hg. unfold is_u64 in Hg. lia.
  - eapply (quiet_safe f) in Hsafe; [|done]. exact Hsafe.
  - cbn. rewrite Epc. destruct (f_Contract f), (f_Contract f1). unfold same_contract in Ec. cbn in *.
    by simplify_eq.
Qed.

Lemma same_contract_trans c1 c2 c3 : same_contract c1 c2 -> same_contract c2 c3 -> same_contract c1 c3.
Proof. unfold same_contract. congruence. Qed.

Lemma executed_post D o f f1 f2 r f' b :
  entry_spec b o -> loop_ok D f -> f1 = set_Contract (set_Gas (Gas (f_Contract f) - constantGas o) (f_Contract f)) f ->
  paid o f1 f2 -> op_post (execute o) f2 r f' ->
  numPop o <= Len (f_Stack f) <= maxStack o ->
  step_post D f r f'.
Proof.
  intros He [Hok HD _ Hsafe] -> [(f1' & m & Hq & ->) Hok' _ (d & Hgas & Hd & Href & Hfl)]
    [Pevm Pst Pmem Pc Pgas Psafe Phalt] Hst.
  assert (quiet f f1') as Hqf.
  { eapply quiet_trans; [done| |exact Hq]. by eapply quiet_set_Gas. }
  assert (evm_rel (f_evm f) (f_evm f')) as Hrel.
  { eapply evm_rel_trans; [done| |exact Pevm]. by apply (quiet_evm_rel f f1'). }
  pose proof (es_constant _ _ He). cbn in Hgas, Pgas. pose proof (ok_gas _ _ Hok) as Hg. unfold is_u64 in Hg.
  split; [done| |lia|].
  - eapply same_contract_trans; [|exact Pc]. apply Hqf.
  - intros Hr. assert (halts (execute o) = false) as Hh.
    { destruct (halts (execute o)); [|done]. by destruct Phalt. }
    pose proof (es_costs _ _ He Hh) as Hcost. split; [split|].
    + destruct Hrel. split; try done. unfold is_u64. lia.
    + rewrite (er_depth _ _ _ _ _ _ _ Hrel). done.
    + specialize (Pst Hr). cbn in Pst. rewrite (q_stack _ _ _ _ Hqf) in Pst.
      rewrite (es_pop _ _ He), (es_max _ _ He) in Hst. unfold Len in *. lia.
    + apply Psafe. by apply (quiet_safe f f1').
    + destruct (dynamicGas o) as [g|] eqn:Eg.
      * specialize (Hfl g eq_refl). destruct (es_gas _ _ He g Eg) as (_ & _ & Hcall).
        unfold refundable in *. rewrite <- Hcall in *. destruct (gas_call g); lia.
      * unfold refundable in *. rewrite (es_no_gas _ _ He Eg) in *. lia.
Qed.

Lemma fetched D f :
  loop_ok D f -> exists o : operation, lookupZ jt (GetOp (f_pc f) (f_Contract f)) = Some (Some o) /\
    entry_spec (IsTangerineWhistle (chainRules env)) o /\
    (execute o = ExecFn.opStop \/ is_Some (lookupZ (Code (f_Contract f)) (f_pc f))).
Proof.
  intros _. unfold GetOp. destruct (lookupZ (Code (f_Contract f)) (f_pc f)) as [b|] eqn:E.
  - pose proof (byte.unsigned_range b).
    destruct (table_ok_entry _ _ (byte.unsigned b) Htable) as (o & Ho & He); [lia|].
    exists o. split_and!; [done|by apply entry_ok_spec|by right; eauto].
  - destruct (table_ok_entry _ _ Op.STOP Htable) as (o & Ho & He); [vm_compute; split; congruence|].
    destruct (table_ok_stop _ _ Htable) as (o' & Ho' & Hs). simplify_eq.
    exists o. split_and!; [done|by apply entry_ok_spec|by left].
Qed.

(** One round. *)
Lemma step_spec D evm f :
  ops_ok D evm -> loop_ok D f -> wp Pan (step env jt evm) f (step_post D f).
Proof.
  intros Hops Hlo. pose proof (lo_ok _ _ Hlo) as Hok. destruct (fetched D f Hlo) as (o & Ho & He & Hpc).
  pose proof (quiet_refl _ _ _ _ _ _ _ laws f Hok) as Hq0. pose proof (ok_gas _ _ Hok) as Hg.
  pose proof (es_constant _ _ He) as Hc. unfold step.
  apply wp_bind, wp_gets, wp_bind, wp_gets, wp_bind, wp_gets, wp_bind.
  eapply wp_deref; [exact Ho|]. apply wp_bind. eapply wp_deref; [done|].
  destruct (Z.ltb_spec (Len (f_Stack f)) (numPop o)) as [|Hpop].
  { apply wp_ret, step_failed; [done|unfold is_u64 in *; lia]. }
  destruct (Z.ltb_spec (maxStack o) (Len (f_Stack f))) as [|Hmax].
  { apply wp_ret, step_failed; [done|unfold is_u64 in *; lia]. }
  apply wp_bind, wp_useGas; [done|unfold is_u64; lia| |].
  2:{ intros _. apply wp_ret, step_failed; [done|unfold is_u64 in *; lia]. }
  intros Hle. cbn [negb]. set (f1 := set_Contract _ f).
  assert (frame_ok f1) as Hok1 by (apply set_Gas_ok; [done|unfold is_u64 in *; lia]).
  assert (loop_ok D f1) as Hlo1.
  { destruct Hlo. split; try done. }
  assert ((arity (execute o)).1 <= length (f_Stack f1))%nat as Hlen.
  { rewrite (es_pop _ _ He) in Hpop. unfold Len in Hpop. cbn. lia. }
  apply wp_bind. eapply wp_mono; [by apply useDynamicGas_spec|]. intros [e|] f2 Hpost.
  - destruct Hpost as [Hq Hg2]. apply wp_ret, step_failed; [|cbn in Hg2; lia].
    eapply quiet_trans; [done| |exact Hq]. by eapply quiet_set_Gas.
  - eapply wp_mono.
    + eapply exec_fn_spec; [done|done|apply (es_wf _ _ He)|]. by eapply paid_pre.
    + intros r f3 Hp. by eapply executed_post.
Qed.

(** * The loop *)
Lemma step_post_pc D f r f' : step_post D f r f' -> r.2 = None ->
  loop_ok D (set_pc (u64_add (f_pc f') 1) f').
Proof. intros [_ _ _ Hn] Hr. destruct (Hn Hr) as [[[] ? ? ?] _]. by split; [split|..]. Qed.

Record loop_post f (f' : frame S) : Prop := {
  lp_evm : evm_rel (f_evm f) (f_evm f');
  lp_contract : same_contract (f_Contract f) (f_Contract f');
  lp_gas : 0 <= Gas (f_Contract f') <= Gas (f_Contract f)
}.

Lemma loop_post_trans f1 f2 f3 : loop_post f1 f2 -> loop_post f2 f3 -> loop_post f1 f3.
Proof.
  intros [] []. split; [by eapply evm_rel_trans|by eapply same_contract_trans|lia].
Qed.

Lemma loop_post_refl D f : loop_ok D f -> loop_post f f.
Proof.
  intros [Hok _ _ _]. split; [|done|].
  - eapply quiet_evm_rel, quiet_refl; done.
  - pose proof (ok_gas _ _ Hok) as [? ?]. lia.
Qed.

(** Reading the abort flag does not change the frame. *)
Lemma cancel_step D f (b : bool) (Q : bool -> frame S -> Prop) :
  loop_ok D f ->
  (forall stop f', loop_ok D f' -> loop_post f f' -> Gas (f_Contract f') = Gas (f_Contract f) -> Q stop f') ->
  wp Pan (if b then readCancelled env else mret false) f Q.
Proof.
  intros Hlo HQ. pose proof (loop_post_refl D f Hlo) as Hrefl. destruct b.
  - unfold wp, readCancelled. apply HQ; [|destruct Hrefl as [[] ? ?]; by split; [split|..]|done].
    destruct Hlo as [[] ? ? ?]. by split; [split|..].
  - apply wp_ret. by apply HQ.
Qed.

(** The loop ends: every round that does not leave it uses up gas. *)
Lemma loop_spec D evm fuel steps res f :
  ops_ok D evm -> loop_ok D f -> Gas (f_Contract f) < Z.of_nat fuel ->
  wp Pan (loop env jt evm fuel steps res) f (fun _ f' => loop_post f f').
Proof.
  intros Hops. revert steps res f. induction fuel as [|fuel IH]; intros steps res f Hlo Hfuel.
  { pose proof (ok_gas _ _ (lo_ok _ _ Hlo)) as [? ?]. lia. }
  cbn [loop]. apply wp_bind. eapply cancel_step; [exact Hlo|]. intros stop f1 Hlo1 Hp1 Hg1.
  destruct stop; [by apply wp_ret|]. apply wp_bind. eapply wp_mono; [by apply step_spec|].
  intros [res' err] f2 Hstep. pose proof Hstep as [Hrel Hc Hg Hnext].
  assert (loop_post f f2) as Hp2 by (eapply loop_post_trans; [exact Hp1|by split]).
  destruct err as [err|]; [by apply wp_ret|]. destruct (Hnext eq_refl) as [_ Hlt].
  apply wp_bind, wp_modify. eapply wp_mono.
  - apply IH; [by eapply step_post_pc|]. cbn. lia.
  - intros ? f3 Hp3. eapply loop_post_trans; [exact Hp2|]. destruct Hp3. by split.
Qed.

(** * Run *)

(** What a run does to the EVM; [ro] is the read-only flag it is called with. *)
Definition run_ok (D : Z)
    (run : Contract -> list Byte.byte -> bool -> M (evmstate S) (list Byte.byte * option EvmError * Contract))
    : Prop :=
  forall c input ro e, D <= depth e -> I (ibs e) -> is_u64 (callGasTemp e) -> is_u64 (Gas c) ->
    Pan \/ contract_ok codeOf (set_Input input c) -> Pan \/ jumps_ok codeOf (jumpdests e) ->
    wp Pan (run c input ro) e (fun r e' => evm_rel e e' /\
      world R Rw (ro || readOnly e) (ibs e) (ibs e') /\ 0 <= Gas r.2 <= Gas c).

(** The code of [Run] between raising and lowering the depth and the flag. *)
Lemma run_body D evm c input e :
  ops_ok D evm -> D <= depth e -> I (ibs e) -> is_u64 (callGasTemp e) -> is_u64 (Gas c) ->
  Pan \/ contract_ok codeOf (set_Input input c) -> Pan \/ jumps_ok codeOf (jumpdests e) ->
  wp Pan (if (length (Code c) =? 0)%nat then mret ([], None, c)
       else fun e =>
         '(r, f) ← loop env jt evm (loopFuel c) 0 [] (mk_frame e 0 [] NewMemory (set_Input input c));
         Ok ((r.1, r.2, f_Contract f), f_evm f)) e
    (fun r e' => evm_rel e e' /\ 0 <= Gas r.2 <= Gas c).
Proof.
  intros Hops HD HI Ht Hg Hc Hj. set (f0 := mk_frame e 0 [] NewMemory (set_Input input c)).
  assert (loop_ok D f0) as Hlo.
  { split; [split; try done; apply mem_ok_New|done|by vm_compute|].
    destruct Hc as [?|Hc]; [by left|]. destruct Hj as [?|Hj]; [by left|by right]. }
  destruct (length (Code c) =? 0)%nat.
  - apply wp_ret. destruct (loop_post_refl D f0 Hlo). done.
  - pose proof (loop_spec D evm (loopFuel c) 0 [] f0 Hops Hlo) as Hloop. unfold is_u64 in Hg.
    unfold wp in *. change (Gas (f_Contract f0)) with (Gas c) in Hloop.
    specialize (Hloop ltac:(unfold loopFuel; lia)).
    destruct (loop _ _ _ _ _ _ _) as [[r f]| | |]; cbn; try done.
    destruct Hloop as [Hrel _ Hgas]. done.
Qed.

Lemma Run_spec D evm : ops_ok (D + 1) evm -> run_ok D (Run env jt evm).
Proof.
  intros Hops c input ro e HD HI Ht Hg Hc Hj. unfold Run.
  apply wp_bind, wp_modify, wp_bind, wp_gets. cbn [readOnly set_depth]. apply wp_bind.
  set (e1 := set_readOnly (ro || readOnly e) (set_depth (depth e + 1) e)).
  assert (wp Pan (if ro && negb (readOnly e) then modify (set_readOnly true) else mret tt)
            (set_depth (depth e + 1) e) (fun _ e' => e' = e1)) as Henter.
  { subst e1. destruct e as [? ? ? [] ? ? ?], ro; done. }
  eapply wp_mono; [exact Henter|]. intros _ _ ->. apply wp_bind, wp_modify, wp_bind.
  eapply wp_mono; [apply (run_body (D + 1)); cbn; (done || lia)|].
  intros [[ret err] c'] e2 [Hrel Hgas]. cbn [snd fst] in Hgas. destruct Hrel as [Hd Hro HI2 Hw Ht2 Hj2].
  cbn in Hd, Hro, Hw, Hj2. apply wp_bind.
  assert (wp Pan (if ro && negb (readOnly e) then modify (set_readOnly false) else mret tt) e2
            (fun _ e' => e' = set_readOnly (readOnly e) e2)) as Hleave.
  { destruct e2 as [? ? ? ro2 ? ? ?]. cbn in Hro. subst ro2. destruct ro, (readOnly e); done. }
  eapply wp_mono; [exact Hleave|]. intros _ _ ->. apply wp_bind, wp_modify, wp_ret.
  split_and!; [|done|cbn; lia..]. split; cbn; try done; [lia|].
  destruct ro, (readOnly e); try done. by apply (R_Rw _ _ _ _ _ _ _ laws).
Qed.
End step.
