(* ===== verification/EvmTheorems.v ===== *)
(** The entry points of the EVM: every call and creation returns, with no more
    gas than it got; a failed call, and a static call, leaves the world as it
    was; no round of the interpreter leaves the stack limits.  The last sections
    state this for whoever runs a transaction, without the program logic. *)
From S2P Require Import Prelude Uint256 OpCodes Machine MachineSpec StateTypes Precompiles Contract EvmTypes JumpTable GasTable Instructions Interpreter EvmLogic.
From S2P Require Import EvmGas EvmInstr EvmStep.
#[local] Open Scope Z_scope.

(** The outermost level of the EVM. *)
Section levels.
Context {U : Uint256} {L : LibMath} {S : Type} {DB : StateDB S} (env : Env S) (jt : JumpTable).

Lemma evm_Call caller addr input gas v bail :
  Call (evm env jt) caller addr input gas v bail =
  call env (Run env jt (EVM env jt 1025)) Op.CALL caller addr input gas (Some v) bail.
Proof. reflexivity. Qed.

Lemma evm_StaticCall caller addr input gas :
  StaticCall (evm env jt) caller addr input gas =
  call env (Run env jt (EVM env jt 1025)) Op.STATICCALL caller addr input gas (Some Clear) false.
Proof. reflexivity. Qed.
End levels.

Section run.
Context {U : Uint256} {US : Uint256Spec U} {L : LibMath} {LS : LibMathSpec L}.
Context {S : Type} {DB : StateDB S} (env : Env S) (jt : JumpTable).
Context (Pan : Prop) (I : S -> Prop) (R Rw : S -> S -> Prop).
Context (codeOf : hash -> list Byte.byte) (codeAt : S -> address -> list Byte.byte).
Context (laws : DBLaws (context env) Pan I R Rw codeOf codeAt).
(** The price of a native contract is a uint64; the hash of a code identifies it. *)
Context (native_gas : forall p input, is_u64 (RequiredGas (native env p) input)).
Context (keccak_code : Pan \/ forall code, codeOf (keccak256 env code) = code).
Implicit Types (e : evmstate S) (c : Contract).

Abbreviation evm_rel := (evm_rel Pan I R Rw codeOf).
Abbreviation ops_ok := (ops_ok Pan I R Rw codeOf).
Abbreviation run_ok := (run_ok Pan I R Rw codeOf).
Abbreviation world := (world R Rw).
Abbreviation jumps_safe jd := (Pan \/ jumps_ok codeOf jd).
Abbreviation same_code s s' := (forall a, Pan \/ codeAt s' a = codeAt s a).

(** Only the state database moved, along [X]. *)
Record moved (X : S -> S -> Prop) e e' : Prop := {
  mv_eq : e' = set_ibs (ibs e') e;
  mv_I : I (ibs e');
  mv_X : X (ibs e) (ibs e')
}.

Lemma moved_rel e e' :
  is_u64 (callGasTemp e) -> moved (world (readOnly e)) e e' -> evm_rel e e'.
Proof. intros Ht [-> HI HX]. split; try done. Qed.

Lemma moved_mono (X Y : S -> S -> Prop) e e' :
  (forall s s', X s s' -> Y s s') -> moved X e e' -> moved Y e e'.
Proof. intros H []. split; auto. Qed.

Lemma moved_trans (X : S -> S -> Prop) e1 e2 e3 :
  (forall s1 s2 s3, X s1 s2 -> X s2 s3 -> X s1 s3) -> moved X e1 e2 -> moved X e2 e3 -> moved X e1 e3.
Proof.
  intros H [E2 ? HX] [E3 ? HX']. rewrite E2 in E3. split; [exact E3|done|by eapply H].
Qed.

Lemma moved_refl e : I (ibs e) -> moved R e e.
Proof. intros. split; [by destruct e|done|apply (R_refl _ _ _ _ _ _ _ laws)]. Qed.

Lemma R_world ro s s' : R s s' -> world ro s s'.
Proof. eapply world_R, laws. Qed.

Lemma moved_R ro e e' : moved R e e' -> moved (world ro) e e'.
Proof. apply moved_mono, R_world. Qed.

(** A database operation in the EVM. *)
Lemma wp_keeps {A} (X : S -> S -> Prop) (m : M S A) e (Q : A -> evmstate S -> Prop) :
  keeps Pan I X m -> I (ibs e) -> (forall a e', moved X e e' -> Q a e') -> wp Pan (in_ibs m) e Q.
Proof.
  intros Hm HI HQ. apply wp_in_ibs. eapply wp_mono; [by apply Hm|]. intros a s' [? ?].
  apply HQ. by split.
Qed.

Lemma evm_rel_refl e : I (ibs e) -> is_u64 (callGasTemp e) -> evm_rel e e.
Proof. intros. apply moved_rel; [done|]. by apply moved_R, moved_refl. Qed.

Lemma R_same_code s s' : R s s' -> same_code s s'.
Proof. intros HR a. by apply (R_code _ _ _ _ _ _ _ laws). Qed.

Lemma same_code_trans s1 s2 s3 : same_code s1 s2 -> same_code s2 s3 -> same_code s1 s3.
Proof. intros H1 H2 a. destruct (H1 a), (H2 a); auto. right. congruence. Qed.

(** * The pieces of call *)
Lemma cannotPay_spec typ caller v bail e :
  I (ibs e) -> is_Some v \/ typ = Op.DELEGATECALL ->
  wp Pan (cannotPay env typ caller v bail) e (fun _ e' => moved R e e').
Proof.
  intros HI Hv. unfold cannotPay. destruct (_ || _) eqn:Et; [|by apply wp_ret, moved_refl].
  destruct v as [v|].
  - apply wp_bind. eapply wp_deref; [done|]. destruct (negb (IsZero v)); [|by apply wp_ret, moved_refl].
    apply wp_bind. eapply wp_keeps; [apply (law_CanTransfer _ _ _ _ _ _ _ laws)|done|].
    intros a e' He. by apply wp_ret.
  - destruct Hv as [[? ?]| ->]; done.
Qed.

(** What moving the value does: in read-only mode nothing but a touch. *)
Record prepared (typ : Z) e (noop : bool) e' : Prop := {
  pr_moved : moved (world (readOnly e)) e e';
  pr_static : typ = Op.STATICCALL -> moved R e e';
  pr_code : same_code (ibs e) (ibs e')
}.

Lemma prepared_R typ e noop e' : moved R e e' -> prepared typ e noop e'.
Proof.
  intros Hm. split; [by apply moved_R|done|]. apply R_same_code, Hm.
Qed.

(** Transfer, after steps that did not change the world. *)
Lemma transfer_spec caller addr v bail e0 e :
  moved R e0 e -> (readOnly e0 = true -> IsZero v = true) ->
  wp Pan (_ ← in_ibs (Transfer (context env) (ref_Address caller) addr v bail); mret false) e
    (prepared Op.CALL e0).
Proof.
  intros Hm Hz. pose proof (mv_I _ _ _ Hm) as HI. apply wp_bind.
  destruct (readOnly e0) eqn:Ero.
  - eapply wp_keeps; [by apply (law_Transfer_zero _ _ _ _ _ _ _ laws), Hz|done|].
    intros _ e' He. apply wp_ret, prepared_R. eapply moved_trans; [apply (R_trans _ _ _ _ _ _ _ laws)|done..].
  - apply wp_in_ibs. eapply wp_mono; [by apply (law_Transfer _ _ _ _ _ _ _ laws)|].
    intros _ s' (HI' & HRw & Hcode). apply wp_ret. split; [|done|].
    + rewrite Ero. eapply moved_trans; [apply (Rw_trans _ _ _ _ _ _ _ laws)| |by split].
      by apply (moved_R false).
    + eapply same_code_trans; [by apply R_same_code, Hm|done].
Qed.

Lemma moveValue_spec typ caller addr v bail pre e :
  I (ibs e) -> (typ = Op.CALL -> exists v', v = Some v' /\ (readOnly e = true -> IsZero v' = true)) ->
  wp Pan (moveValue env typ caller addr v bail pre) e (prepared typ e).
Proof.
  intros HI Hv. unfold moveValue. destruct (Z.eqb_spec typ Op.CALL) as [->|Hc].
  - destruct (Hv eq_refl) as (v' & -> & Hz). apply wp_bind. eapply wp_deref; [done|].
    apply wp_bind, wp_in_ibs. pose proof (law_Exist _ _ _ _ _ _ _ laws addr (ibs e) HI) as Hex.
    unfold wp in Hex |- *. destruct (db_Exist addr (ibs e)) as [[ex s1]| | |] eqn:Eex; try done.
    destruct Hex as [HI1 HR1]. assert (moved R e (set_ibs s1 e)) as Hm1 by by split.
    destruct ex; cbn [negb andb].
    + by apply (transfer_spec caller addr v' bail e).
    + destruct (_ && _); [by apply prepared_R|].
      apply (wp_bind (in_ibs (db_CreateAccount addr false))), wp_in_ibs.
      eapply wp_mono; [exact (law_CreateAccount_missing _ _ _ _ _ _ _ laws addr (ibs e) s1 HI Eex)|].
      intros _ s2 [HI2 HR2]. apply (transfer_spec caller addr v' bail e); [|done].
      split; [done|done|]. by eapply (R_trans _ _ _ _ _ _ _ laws).
  - destruct (typ =? Op.STATICCALL).
    + apply wp_bind. eapply wp_keeps; [apply (law_touch _ _ _ _ _ _ _ laws)|done|].
      intros _ e' He. by apply wp_ret, prepared_R.
    + by apply wp_ret, prepared_R, moved_refl.
Qed.

(** The value of a call: given, or for a delegate call that of the caller. *)
Definition value_ok (typ : Z) (caller : ContractRef) (v : option u256) : Prop :=
  if typ =? Op.DELEGATECALL
  then exists a ca pv, caller = ContractPtr a ca pv /\ (Pan \/ is_Some pv)
  else is_Some v.

Abbreviation input_ok := (input_ok Pan).

(** The code that is run: it has an int length and its hash is known. *)
Definition code_ok (code : list Byte.byte) (h : hash) : Prop :=
  Pan \/ (Z.of_nat (length code) < 2 ^ 63 /\ (h <> 0%N -> codeOf h = code)).

Lemma NewContract_jumps caller object v gas skip e :
  jumps_safe (jumpdests e) ->
  jumps_safe (NewContract caller object v gas skip (jumpdests e)).2.
Proof. intros Hj. destruct caller; cbn; [right; intros h a _; by rewrite lookup_empty|done]. Qed.

Lemma fresh_contract_ok c code h input v :
  Code c = code -> c_CodeHash c = h -> analysis c = None -> value c = v ->
  code_ok code h -> input_ok input -> Pan \/ is_Some v ->
  Pan \/ contract_ok codeOf (set_Input input c).
Proof.
  intros Hcode Hh Ha Hv Hc Hi Hs. destruct c. cbn in *. subst.
  destruct Hc as [?|[]]; [by left|]. destruct Hi; [by left|]. destruct Hs; [by left|].
  right. unfold contract_ok. cbn. split_and!; done.
Qed.

Lemma newCallContract_spec typ caller addr h code gas v input e :
  value_ok typ caller v -> code_ok code h -> input_ok input -> jumps_safe (jumpdests e) ->
  wp Pan (newCallContract env typ caller addr h code gas v) e (fun c e' =>
    Gas c = gas /\ (Pan \/ contract_ok codeOf (set_Input input c)) /\
    exists jd, e' = set_jumpdests jd e /\ jumps_safe jd).
Proof.
  intros Hv Hc Hi Hj. unfold wp, newCallContract, value_ok in *.
  pose proof (fun o => NewContract_jumps caller o v gas (SkipAnalysis (config env)) e Hj) as Hjd.
  destruct (typ =? Op.DELEGATECALL).
  - destruct Hv as (a & ca & pv & -> & Hpv). rewrite orb_true_r. cbn.
    split_and!; [done| |eauto]. by eapply fresh_contract_ok.
  - rewrite orb_false_r. specialize (Hjd (if typ =? Op.CALLCODE then ref_Address caller else addr)).
    cbn in *. split_and!; [done| |eauto]. eapply fresh_contract_ok; try done. by right.
Qed.

Lemma RunPrecompiledContract_gas p input gas :
  is_u64 gas -> 0 <= (RunPrecompiledContract (native env p) input gas).1.2 <= gas.
Proof.
  unfold is_u64. intros Hg. pose proof (native_gas p input) as [? ?]. unfold RunPrecompiledContract.
  destruct (Z.ltb_spec gas (RequiredGas (native env p) input)); cbn; [lia|].
  destruct (RunContract _ _). cbn. rewrite u64_sub_small by (unfold is_u64; lia). lia.
Qed.

Lemma evm_rel_jumpdests e e' jd :
  evm_rel (set_jumpdests jd e) e' -> jumps_safe jd -> evm_rel e e'.
Proof. intros [] Hj. split; try done. auto. Qed.

Section entry.
Context (D : Z) (run : Contract -> list Byte.byte -> bool ->
                       M (evmstate S) (list Byte.byte * option EvmError * Contract)).
Context (Hrun : D <= 1024 -> run_ok D run).

Lemma runCall_spec typ caller addr input gas v p code e :
  run_ok D run -> D <= depth e -> I (ibs e) -> is_u64 (callGasTemp e) -> is_u64 gas ->
  value_ok typ caller v -> input_ok input -> jumps_safe (jumpdests e) ->
  (Pan \/ code = [] \/ (code = codeAt (ibs e) addr /\ Z.of_nat (length code) < 2 ^ 63)) ->
  wp Pan (runCall env run typ caller addr input gas v p code) e (fun r e' =>
    evm_rel e e' /\ 0 <= r.1.2 <= gas /\ (typ = Op.STATICCALL -> R (ibs e) (ibs e'))).
Proof.
  intros Hr HD HI Ht Hg Hv Hi Hj Hcode. unfold runCall.
  assert (R (ibs e) (ibs e)) as HRR by apply (R_refl _ _ _ _ _ _ _ laws).
  destruct p as [p|].
  { apply wp_ret. split_and!; [by apply evm_rel_refl|by apply RunPrecompiledContract_gas..|done]. }
  destruct (length code =? 0)%nat eqn:El.
  { apply wp_ret. unfold is_u64 in Hg. split_and!; [by apply evm_rel_refl|cbn; lia..|done]. }
  apply wp_bind, wp_in_ibs. eapply wp_mono; [by apply (law_GetCodeHash _ _ _ _ _ _ _ laws)|].
  intros h s1 (HI1 & HR1 & Hh). apply wp_bind. eapply wp_mono.
  { apply (newCallContract_spec typ caller addr h code gas v input); try done.
    destruct Hcode as [?|[->|[-> ?]]]; [by left|done|]. destruct Hh as [?|Hh]; [by left|right].
    split; [done|]. intros H0. apply Hh; [done|]. intros E0. by rewrite E0 in El. }
  intros c e1 (Hgc & Hcok & jd & -> & Hjd). apply wp_bind. eapply wp_mono.
  { by apply Hr; rewrite ?Hgc. }
  intros [[ret err] c'] e2 (Hrel & Hw & Hgas). apply wp_ret. cbn in Hgas. rewrite Hgc in Hgas.
  split_and!; [|cbn; lia..|].
  - eapply evm_rel_trans; [done| |]; [|eapply evm_rel_jumpdests; [exact Hrel|done]].
    apply moved_rel; [done|]. apply moved_R. by split.
  - intros ->. cbn in Hw. eapply (R_trans _ _ _ _ _ _ _ laws); done.
Qed.

(** What a call does. *)
Record call_done (typ gas : Z) e (r : list Byte.byte * Z * option EvmError) e' : Prop := {
  cd_rel : evm_rel e e';
  cd_gas : 0 <= r.1.2 <= gas;
  cd_failed : r.2 <> None -> R (ibs e) (ibs e');
  cd_static : typ = Op.STATICCALL -> R (ibs e) (ibs e')
}.

Lemma call_done_R typ gas e ret g err e' :
  is_u64 (callGasTemp e) -> moved R e e' -> 0 <= g <= gas -> call_done typ gas e (ret, g, err) e'.
Proof.
  intros Ht Hm Hg. split; [|done|intros _; apply Hm..]. apply moved_rel; [done|]. by apply moved_R.
Qed.

(** The end of a call: reverting, or not. *)
Lemma call_end typ gas e s0 e1 e2 e3 snap ret g err :
  is_u64 (callGasTemp e) -> R (ibs e) s0 -> moved R e e1 ->
  (forall s2, I s2 -> Rw (ibs e1) s2 ->
     wp Pan (db_RevertToSnapshot snap) s2 (fun _ s3 => I s3 /\ R s0 s3)) ->
  evm_rel e1 e2 -> evm_rel e2 e3 -> 0 <= g <= gas ->
  (typ = Op.STATICCALL -> R (ibs e1) (ibs e3)) ->
  wp Pan (if bool_decide (err <> None) || RestoreState (config env) then
            _ ← in_ibs (db_RevertToSnapshot snap);
            mret (ret, if bool_decide (err <> Some ErrExecutionReverted) then 0 else g, err)
          else mret (ret, g, err)) e3 (call_done typ gas e).
Proof.
  intros Ht HR0 Hm Hrev H12 H23 Hg Hst. assert (evm_rel e1 e3) as H13 by (by eapply evm_rel_trans).
  assert (evm_rel e e1) as H01 by (apply moved_rel; [done|by apply moved_R]).
  destruct (bool_decide (err <> None) || _) eqn:Eb.
  - apply wp_bind, wp_in_ibs. eapply wp_mono.
    { apply Hrev; [apply H13|]. destruct H13. destruct (readOnly e1); [|done].
      by apply (R_Rw _ _ _ _ _ _ _ laws). }
    intros _ s4 [HI4 HR4]. apply wp_ret.
    assert (R (ibs e) s4) as HR by (by eapply (R_trans _ _ _ _ _ _ _ laws)).
    split; [|cbn; case_match; lia|done|done]. destruct (evm_rel_trans _ _ _ _ _ _ _ laws _ _ _ H01 H13).
    split; try done. cbn. by apply R_world.
  - apply wp_ret. apply orb_false_iff in Eb as [Eb%bool_decide_eq_false_1 _]. split; try done.
    + by eapply evm_rel_trans.
    + intros ->. eapply (R_trans _ _ _ _ _ _ _ laws); [apply Hm|by apply Hst].
Qed.

(** The code of the callee, read before the snapshot. *)
Lemma getCode_spec (p : option Precompile) addr e e1 :
  moved R e e1 ->
  wp Pan (if negb (isSome p) then in_ibs (db_GetCode addr) else mret []) e1 (fun code e2 =>
    moved R e e2 /\
    (Pan \/ code = [] \/ (code = codeAt (ibs e1) addr /\ Z.of_nat (length code) < 2 ^ 63)) /\
    R (ibs e1) (ibs e2)).
Proof.
  intros Hm1. destruct (negb (isSome p)).
  - apply wp_in_ibs. eapply wp_mono; [apply (law_GetCode _ _ _ _ _ _ _ laws), Hm1|].
    intros code s2 (HI2 & HR2 & Hc2). split_and!; [|destruct Hc2; auto|done].
    eapply moved_trans; [apply (R_trans _ _ _ _ _ _ _ laws)|exact Hm1|by split].
  - apply wp_ret. split_and!; [done|auto|apply (R_refl _ _ _ _ _ _ _ laws)].
Qed.

Lemma call_spec_gen typ caller addr input v bail gas e :
  D <= depth e -> I (ibs e) -> is_u64 (callGasTemp e) -> is_u64 gas -> jumps_safe (jumpdests e) ->
  input_ok input -> value_ok typ caller v ->
  (typ = Op.CALL -> exists v', v = Some v' /\ (readOnly e = true -> IsZero v' = true)) ->
  wp Pan (call env run typ caller addr input gas v bail) e (call_done typ gas e).
Proof.
  intros HD HI Ht Hg Hj Hi Hv Hq. unfold call. apply wp_bind, wp_gets. unfold is_u64 in Hg.
  assert (0 <= gas <= gas) by lia.
  pose proof (moved_refl e HI) as Hm0. destruct (_ && _); [by apply wp_ret, call_done_R|].
  destruct (Z.ltb_spec params.CallCreateDepth (depth e)) as [|Hdepth]; [by apply wp_ret, call_done_R|].
  assert (run_ok D run) as Hr by (apply Hrun; unfold params.CallCreateDepth in Hdepth; lia). clear Hrun.
  apply wp_bind. eapply wp_mono.
  { apply cannotPay_spec; [done|]. unfold value_ok in Hv.
    destruct (Z.eqb_spec typ Op.DELEGATECALL); auto. }
  intros poor e1 Hm1. pose proof (mv_I _ _ _ Hm1) as HI1.
  destruct poor; [by apply wp_ret, call_done_R|]. apply wp_bind.
  set (p := precompile (chainRules env) addr).
  eapply wp_mono; [by apply getCode_spec|]. intros code e2 (Hm2 & Hc & HR12). apply wp_bind, wp_in_ibs.
  eapply wp_mono; [apply (law_Snapshot _ _ _ _ _ _ _ laws), Hm2|].
  intros snap s3 (HI3 & HR3 & Hrev). set (e3 := set_ibs s3 e2).
  assert (moved R e e3) as Hm3.
  { eapply moved_trans; [apply (R_trans _ _ _ _ _ _ _ laws)|exact Hm2|by split]. }
  assert (readOnly e3 = readOnly e /\ depth e3 = depth e /\ callGasTemp e3 = callGasTemp e /\
          jumpdests e3 = jumpdests e) as (Ero & Ed & Et & Ej).
  { rewrite (mv_eq _ _ _ Hm3). done. }
  apply wp_bind. eapply wp_mono; [apply moveValue_spec; [done|by rewrite Ero]|].
  intros noop e4 [Hm4 Hs4 Hc4].
  assert (evm_rel e3 e4) as H34 by (apply moved_rel; [by rewrite Et|done]).
  assert (moved R e3 e4 -> R (ibs e) (ibs e4)) as Hstat.
  { intros Hm. eapply (R_trans _ _ _ _ _ _ _ laws); [apply Hm3|apply Hm]. }
  assert (evm_rel e e3) as H03 by (apply moved_rel; [done|by apply moved_R]).
  destruct noop.
  { apply wp_ret. split; [by eapply evm_rel_trans|cbn; lia|done|intros ->; by apply Hstat, Hs4]. }
  apply wp_bind. eapply wp_mono.
  { apply runCall_spec; try done.
    - rewrite (er_depth _ _ _ _ _ _ _ H34). lia.
    - apply H34.
    - apply H34.
    - apply (er_jumps _ _ _ _ _ _ _ H34). by rewrite Ej.
    - destruct Hc as [?|[?|[-> ?]]]; [by left|by right; left|].
      assert (same_code (ibs e1) (ibs e4)) as Hsame.
      { eapply same_code_trans; [|exact Hc4]. eapply same_code_trans; [by apply R_same_code|].
        by apply R_same_code. }
      destruct (Hsame addr) as [?|Hsame']; [by left|]. right; right. by rewrite Hsame'. }
  intros [[ret g] err] e5 (H45 & Hg5 & Hs5). eapply (call_end _ _ _ (ibs e2)); try done; [apply Hm2|].
  intros ->. eapply (R_trans _ _ _ _ _ _ _ laws); [by apply Hs4|by apply Hs5].
Qed.

(** * The pieces of create *)
Lemma wp_if_keeps (b : bool) (X : S -> S -> Prop) (m : M S unit) e (Q : unit -> evmstate S -> Prop) :
  (forall s, X s s) -> keeps Pan I X m -> I (ibs e) -> (forall e', moved X e e' -> Q tt e') ->
  wp Pan (if b then in_ibs m else mret tt) e Q.
Proof.
  intros Hrefl Hm HI HQ. destruct b.
  - eapply wp_keeps; [done..|]. intros []. apply HQ.
  - apply wp_ret, HQ. by split; [destruct e| |].
Qed.

Lemma Rw_refl s : Rw s s.
Proof. apply (R_Rw _ _ _ _ _ _ _ laws), (R_refl _ _ _ _ _ _ _ laws). Qed.

Lemma moved_Rw e e' : moved R e e' -> moved Rw e e'.
Proof. apply moved_mono, (R_Rw _ _ _ _ _ _ _ laws). Qed.

Lemma Rw_moved_trans e1 e2 e3 : moved Rw e1 e2 -> moved Rw e2 e3 -> moved Rw e1 e3.
Proof. apply moved_trans, (Rw_trans _ _ _ _ _ _ _ laws). Qed.

Lemma incrementNonceOf_spec caller b e :
  I (ibs e) -> wp Pan (incrementNonceOf caller b) e (fun _ e' => moved Rw e e').
Proof.
  intros HI. unfold incrementNonceOf. destruct b; [|by apply wp_ret, moved_Rw, moved_refl].
  apply wp_bind. eapply wp_keeps; [apply (law_GetNonce _ _ _ _ _ _ _ laws)|done|].
  intros nonce e1 Hm1. destruct (_ <? _); [by apply wp_ret, moved_Rw|].
  apply wp_bind. eapply wp_keeps; [apply (law_SetNonce _ _ _ _ _ _ _ laws)|apply Hm1|].
  intros _ e2 Hm2. apply wp_ret. eapply Rw_moved_trans; [by apply moved_Rw|done].
Qed.

Lemma collision_spec addr e :
  I (ibs e) -> wp Pan (collision env addr) e (fun _ e' => moved Rw e e').
Proof.
  intros HI. unfold collision. apply wp_bind, wp_in_ibs.
  eapply wp_mono; [by apply (law_GetCodeHash _ _ _ _ _ _ _ laws)|]. intros h s1 (HI1 & HR1 & _).
  apply wp_bind. eapply wp_keeps; [apply (law_GetNonce _ _ _ _ _ _ _ laws)|done|].
  intros nonce e2 Hm2. apply wp_ret. eapply Rw_moved_trans; [|by apply moved_Rw].
  apply moved_Rw. by split.
Qed.

Lemma UseGas_spec n c ok c' :
  is_u64 n -> is_u64 (Gas c) -> UseGas n c = (ok, c') -> 0 <= Gas c' <= Gas c.
Proof.
  unfold UseGas. intros Hn Hg. destruct (Z.ltb_spec (Gas c) n); intros [= <- <-].
  - unfold is_u64 in Hg. lia.
  - cbn. rewrite u64_sub_small by done. unfold is_u64 in *. lia.
Qed.

Lemma storeCode_spec addr ret err c e :
  I (ibs e) -> is_u64 (Gas c) ->
  wp Pan (storeCode env addr ret err c) e (fun r e' => moved Rw e e' /\ 0 <= Gas r.2 <= Gas c).
Proof.
  intros HI Hg. unfold storeCode. pose proof (moved_Rw _ _ (moved_refl e HI)) as Hm.
  assert (0 <= Gas c <= Gas c) by (unfold is_u64 in Hg; lia).
  destruct (bool_decide (err = None)); [|by apply wp_ret].
  destruct (UseGas _ c) as [ok c'] eqn:E.
  apply UseGas_spec in E; [|apply u64_range|done].
  destruct ok; [|destruct (IsHomestead _); by apply wp_ret].
  apply wp_bind. eapply wp_keeps; [apply (law_SetCode _ _ _ _ _ _ _ laws)|done|].
  intros _ e' He. by apply wp_ret.
Qed.

(** What a creation does. *)
Definition create_done (gas : Z) e (r : list Byte.byte * address * Z * option EvmError) e' : Prop :=
  evm_rel e e' /\ 0 <= r.1.2 <= gas.

Lemma moved_done gas e e' ret a g err :
  readOnly e = false -> is_u64 (callGasTemp e) -> moved Rw e e' -> 0 <= g <= gas ->
  create_done gas e (ret, a, g, err) e'.
Proof. intros Hro Ht Hm Hg. split; [|done]. apply moved_rel; [done|]. by rewrite Hro. Qed.

(** The account of the new contract, with its endowment. *)
Lemma endow_spec caller addr v e (Q : unit -> evmstate S -> Prop) :
  I (ibs e) -> (forall e', moved Rw e e' -> Q tt e') ->
  wp Pan (endow env caller addr v) e Q.
Proof.
  intros HI HQ. apply wp_bind. eapply wp_keeps; [apply (law_CreateAccount _ _ _ _ _ _ _ laws)|done|].
  intros _ e1 Hm1. apply wp_bind.
  eapply wp_if_keeps; [apply Rw_refl|apply (law_SetNonce _ _ _ _ _ _ _ laws)|apply Hm1|].
  intros e2 Hm2. apply wp_in_ibs. eapply wp_mono; [apply (law_Transfer _ _ _ _ _ _ _ laws), Hm2|].
  intros [] s3 (HI3 & HR3 & _). apply HQ. eapply Rw_moved_trans; [exact Hm1|].
  eapply Rw_moved_trans; [exact Hm2|by split].
Qed.

(** The end of a creation. *)
Lemma create_end gas e s0 e1 e2 snap ret addr err c :
  readOnly e = false -> Rw (ibs e) s0 -> evm_rel e e1 -> evm_rel e1 e2 -> 0 <= Gas c <= gas -> gas < 2 ^ 64 ->
  (forall s2, I s2 -> Rw (ibs e1) s2 ->
     wp Pan (db_RevertToSnapshot snap) s2 (fun _ s3 => I s3 /\ R s0 s3)) ->
  wp Pan (if bool_decide (err <> None) &&
             (IsHomestead (chainRules env) || bool_decide (err <> Some ErrCodeStoreOutOfGas))
          then
            _ ← in_ibs (db_RevertToSnapshot snap);
            let contract := if bool_decide (err <> Some ErrExecutionReverted)
                            then (UseGas (Gas c) c).2 else c in
            mret (ret, addr, Gas contract, err)
          else mret (ret, addr, Gas c, err)) e2 (create_done gas e).
Proof.
  intros Hro HR0 H01 H12 Hg Hmax Hrev.
  assert (evm_rel e e2) as H02 by (by eapply evm_rel_trans).
  destruct (_ && _); [|by apply wp_ret]. apply wp_bind, wp_in_ibs.
  assert (readOnly e1 = false) as Hro1 by (rewrite (er_readOnly _ _ _ _ _ _ _ H01); done).
  eapply wp_mono.
  { apply Hrev; [apply H12|]. pose proof (er_world _ _ _ _ _ _ _ H12) as Hw. by rewrite Hro1 in Hw. }
  intros _ s3 [HI3 HR3]. apply wp_ret. split.
  - destruct H02. split; try done. rewrite Hro. cbn.
    eapply (Rw_trans _ _ _ _ _ _ _ laws); [done|]. by apply (R_Rw _ _ _ _ _ _ _ laws).
  - cbn. destruct (bool_decide (err <> Some ErrExecutionReverted)); [|lia].
    destruct (UseGas (Gas c) c) as [ok c'] eqn:E.
    apply UseGas_spec in E; [cbn; lia|unfold is_u64; lia..].
Qed.

Lemma deploy_spec snap caller code h gas v addr e0 s0 e :
  run_ok D run -> D <= depth e -> readOnly e0 = false -> Rw (ibs e0) s0 -> evm_rel e0 e -> is_u64 gas ->
  jumps_safe (jumpdests e) -> code_ok code h ->
  (forall s2, I s2 -> Rw (ibs e) s2 ->
     wp Pan (db_RevertToSnapshot snap) s2 (fun _ s3 => I s3 /\ R s0 s3)) ->
  wp Pan (deploy env run snap caller code h gas v addr) e (create_done gas e0).
Proof.
  intros Hr HD Hro HR0 H0 Hg Hj Hc Hrev. pose proof Hg as [Hg0 Hgmax].
  assert (readOnly e = false) as Hroe by (by rewrite (er_readOnly _ _ _ _ _ _ _ H0)).
  unfold deploy. apply wp_bind, endow_spec; [apply H0|]. intros e1 Hm1.
  apply wp_bind, wp_gets.
  pose proof (NewContract_jumps caller addr (Some v) gas (SkipAnalysis (config env)) e1) as Hjd.
  destruct (NewContract _ _ _ _ _ _) as [c jd] eqn:Ec. cbn [snd] in Hjd.
  assert (jumpdests e1 = jumpdests e /\ depth e1 = depth e /\ readOnly e1 = readOnly e /\
    callGasTemp e1 = callGasTemp e) as (Ej & Ed & Er & Et) by (rewrite (mv_eq _ _ _ Hm1); done).
  rewrite Ej in Hjd. specialize (Hjd Hj). apply wp_bind, wp_modify, wp_bind, wp_gets.
  assert (evm_rel e (set_jumpdests jd e1)) as H1.
  { destruct Hm1 as [_ HI1 HX1]. split; cbn; try done; [by rewrite Hroe|]. rewrite Et. apply H0. }
  injection Ec as <- <-.
  destruct (_ && _); [apply wp_ret; split; [by eapply evm_rel_trans|cbn; lia]|].
  apply wp_bind. eapply wp_mono.
  { apply Hr; [cbn; lia|apply H1|apply H1|done| |done].
    eapply fresh_contract_ok; try done; [by right|by right]. }
  intros [[ret err] c'] e2 (Hrel & _ & Hgas). cbn in Hgas. apply wp_bind.
  eapply wp_mono; [apply storeCode_spec; [apply Hrel|unfold is_u64; lia]|].
  intros [err' c''] e3 [Hm3 Hg3]. cbn in Hg3. eapply create_end; try done; [|lia].
  eapply evm_rel_trans; [done|exact H1|]. eapply evm_rel_trans; [done|exact Hrel|].
  apply moved_rel; [apply Hrel|]. by rewrite (er_readOnly _ _ _ _ _ _ _ Hrel); cbn; rewrite Er, Hroe.
Qed.

Lemma create_spec_gen caller code h gas v addr b e :
  D <= depth e -> I (ibs e) -> is_u64 (callGasTemp e) -> is_u64 gas -> jumps_safe (jumpdests e) ->
  readOnly e = false -> code_ok code h ->
  wp Pan (create env run caller code h gas v addr b) e (create_done gas e).
Proof.
  intros HD HI Ht Hg Hj Hro Hc. unfold create. apply wp_bind, wp_gets. pose proof Hg as [? ?].
  assert (0 <= gas <= gas) by lia. pose proof (moved_Rw _ _ (moved_refl e HI)) as Hm0.
  destruct (Z.ltb_spec params.CallCreateDepth (depth e)) as [|Hdepth]; [by apply wp_ret, moved_done|].
  assert (run_ok D run) as Hr by (apply Hrun; unfold params.CallCreateDepth in Hdepth; lia). clear Hrun.
  apply wp_bind. eapply wp_keeps; [apply (law_CanTransfer _ _ _ _ _ _ _ laws)|done|].
  intros can e1 Hm1%moved_Rw. destruct (negb can); [by apply wp_ret, moved_done|].
  apply wp_bind. eapply wp_mono; [apply incrementNonceOf_spec, Hm1|]. intros full e2 Hm2.
  pose proof (Rw_moved_trans _ _ _ Hm1 Hm2) as Hm02. destruct full; [by apply wp_ret, moved_done|].
  apply wp_bind. eapply wp_if_keeps;
    [apply (R_refl _ _ _ _ _ _ _ laws)|apply (law_AddAddressToAccessList _ _ _ _ _ _ _ laws)|apply Hm2|].
  intros e3 Hm3%moved_Rw. pose proof (Rw_moved_trans _ _ _ Hm02 Hm3) as Hm03. apply wp_bind.
  eapply wp_mono; [apply collision_spec, Hm3|]. intros taken e4 Hm4.
  pose proof (Rw_moved_trans _ _ _ Hm03 Hm4) as Hm04.
  destruct taken; [apply wp_ret, moved_done; (done || lia)|]. apply wp_bind, wp_in_ibs.
  eapply wp_mono; [apply (law_Snapshot _ _ _ _ _ _ _ laws), Hm4|]. intros snap s5 (HI5 & HR5 & Hrev).
  assert (moved Rw e (set_ibs s5 e4)) as Hm5.
  { eapply Rw_moved_trans; [exact Hm04|]. apply moved_Rw. by split. }
  assert (jumpdests e4 = jumpdests e /\ depth e4 = depth e) as (Ej & Ed).
  { rewrite (mv_eq _ _ _ Hm04). done. }
  apply (deploy_spec _ _ _ _ _ _ _ _ (ibs e4)); try done; cbn; [lia|apply Hm04| |by rewrite Ej]. apply moved_rel; [done|by rewrite Hro].
Qed.

(** * The operations the instructions call *)
Lemma evm_ops_spec : ops_ok D (evm_ops env run).
Proof.
  split; intros; intros gas e HD HI Ht Hg Hj Hq; cbn [Call CallCode DelegateCall StaticCall evm_ops].
  - eapply wp_mono; [apply call_spec_gen; [assumption..|by eexists|intros _; by eexists]|]. by intros ? ? [].
  - eapply wp_mono; [apply call_spec_gen; [assumption..|by eexists|discriminate]|]. by intros ? ? [].
  - eapply wp_mono; [apply call_spec_gen; [assumption..| |discriminate]|by intros ? ? []].
    cbn. unfold ptr. eauto 10.
  - eapply wp_mono; [apply call_spec_gen; [assumption..|by eexists|discriminate]|]. by intros ? ? [].
  - cbn [Create evm_ops]. unfold evm_Create. apply wp_bind.
    eapply wp_keeps; [apply (law_GetNonce _ _ _ _ _ _ _ laws)|done|]. intros nonce e1 Hm1.
    assert (evm_rel e e1) as H1 by (apply moved_rel; [done|by apply moved_R]).
    assert (jumpdests e1 = jumpdests e /\ depth e1 = depth e /\ readOnly e1 = readOnly e) as (Ej & Ed & Er).
    { rewrite (mv_eq _ _ _ Hm1). done. }
    eapply wp_mono; [apply create_spec_gen; rewrite ?Ej, ?Er; try done; try apply H1; [lia|]|].
    { destruct H as [?|?]; [by left|by right]. }
    intros r e2 [H2 Hgas]. split; [by eapply evm_rel_trans|done].
  - cbn [Create2 evm_ops]. unfold evm_Create2.
    eapply wp_mono; [apply create_spec_gen; try done|by intros ? ? []].
    destruct H as [?|?]; [by left|]. destruct keccak_code as [?|Hk]; [by left|right]. split; [done|].
    intros _. apply Hk.
Qed.
End entry.

Context (Htable : table_ok (IsTangerineWhistle (chainRules env)) jt = true).

(** [n + 1] levels are enough from depth [1025 - n] on. *)
Lemma EVM_spec n : ops_ok (1025 - Z.of_nat n) (EVM env jt (Datatypes.S n)).
Proof.
  induction n as [|n IH]; cbn [EVM].
  - apply evm_ops_spec. lia.
  - apply evm_ops_spec. intros _. eapply Run_spec; [done|done|].
    replace (1025 - Z.of_nat (Datatypes.S n) + 1) with (1025 - Z.of_nat n) by lia. exact IH.
Qed.

(** From the outermost level no depth is too large. *)
Lemma evm_spec : ops_ok 0 (evm env jt).
Proof. exact (EVM_spec 1025). Qed.

Lemma outer_run : 0 <= 1024 -> run_ok 0 (Run env jt (EVM env jt 1025)).
Proof. intros _. eapply Run_spec; [done|done|]. exact (EVM_spec 1024). Qed.

(** Any kind of call from the outermost level. *)
Lemma evm_call_spec typ caller addr input v bail gas e :
  0 <= depth e -> I (ibs e) -> is_u64 (callGasTemp e) -> is_u64 gas -> jumps_safe (jumpdests e) ->
  input_ok input -> value_ok typ caller v ->
  (typ = Op.CALL -> exists v', v = Some v' /\ (readOnly e = true -> IsZero v' = true)) ->
  wp Pan (call env (Run env jt (EVM env jt 1025)) typ caller addr input gas v bail) e
    (call_done typ gas e).
Proof. apply call_spec_gen, outer_run. Qed.
End run.

(** The interpreter that [NewEVM] makes for these rules, without extra EIPs. *)
Definition evm_of {U : Uint256} {L : LibMath} {S : Type} {DB : StateDB S} (env : Env S) : option (EvmOps S) :=
  '(jt, _) ← NewEVMInterpreter (chainRules env) []; Some (evm env jt).

(** The rules of a chain: a fork that prices calls under EIP-150 follows it. *)
Definition rules_ok (rules : Rules) : Prop := eip150_of rules = IsTangerineWhistle rules.

Section theorems.
Context {U : Uint256} {US : Uint256Spec U} {L : LibMath} {LS : LibMathSpec L}.
Context {S : Type} {DB : StateDB S} (env : Env S).
Context (Pan : Prop) (I : S -> Prop) (R Rw : S -> S -> Prop).
Context (codeOf : hash -> list Byte.byte) (codeAt : S -> address -> list Byte.byte).

(** The assumptions on the database, the chain and the native contracts. *)
Record evm_env : Prop := {
  ee_laws : DBLaws (context env) Pan I R Rw codeOf codeAt;
  ee_rules : rules_ok (chainRules env);
  ee_native p input : is_u64 (RequiredGas (native env p) input);
  ee_keccak : Pan \/ forall code, codeOf (keccak256 env code) = code
}.

(** An EVM that is not running anything. *)
Record idle (e : evmstate S) : Prop := {
  idle_depth : 0 <= depth e;
  idle_I : I (ibs e);
  idle_temp : is_u64 (callGasTemp e);
  idle_jumps : Pan \/ jumps_ok codeOf (jumpdests e)
}.

(** The EVM is ready for the next call, in the same mode. *)
Definition ready (e e' : evmstate S) : Prop :=
  idle e' /\ depth e' = depth e /\ readOnly e' = readOnly e.

Lemma evm_rel_ready e e' : idle e -> evm_rel Pan I R Rw codeOf e e' -> ready e e'.
Proof.
  intros [] []. split; [|done]. split; try done; [lia|auto].
Qed.

Lemma evm_of_table : rules_ok (chainRules env) ->
  exists jt, evm_of env = Some (evm env jt) /\
    table_ok (IsTangerineWhistle (chainRules env)) jt = true.
Proof.
  intros Hr. pose proof (instructionSet_checks (chainRules env)) as Ht.
  apply table_checks_spec in Ht as (jt & E & Ht). rewrite Hr in Ht.
  exists jt. unfold evm_of, NewEVMInterpreter. rewrite E. done.
Qed.

Context (Henv : evm_env).

(** The interface the EVM promises to its callers. *)
Lemma evm_of_ops ops : evm_of env = Some ops -> ops_ok Pan I R Rw codeOf 0 ops.
Proof.
  intros E. destruct Henv, (evm_of_table ee_rules0) as (jt & E' & Ht). rewrite E in E'.
  injection E' as ->. by eapply evm_spec.
Qed.

(** A message call, at any gas and any code. *)
Lemma evm_Call_spec (caller : ContractRef) addr input gas v bail (e : evmstate S) :
  idle e -> is_u64 gas -> Pan \/ Z.of_nat (length input) < 2 ^ 63 ->
  (readOnly e = true -> IsZero v = true) ->
  exists evm, evm_of env = Some evm /\
    wp Pan (Call evm caller addr input gas v bail) e (fun r e' =>
      ready e e' /\ 0 <= r.1.2 <= gas /\ (r.2 <> None -> R (ibs e) (ibs e'))).
Proof.
  intros Hidle Hg Hi Hq. destruct Henv, (evm_of_table ee_rules0) as (jt & E & Ht). pose proof Hidle as [].
  exists (evm env jt). split; [done|]. rewrite evm_Call. eapply wp_mono.
  - eapply evm_call_spec; try done; [by eexists|eauto].
  - intros r e' []. split_and!; [by apply evm_rel_ready|lia..|done].
Qed.



(** A contract creation comes to an end and gives back at most the gas
    it got; the EVM is then ready for the next call. *)
Theorem evm_Create_returns (caller : ContractRef) code gas v (e : evmstate S) :
  idle e -> is_u64 gas -> Pan \/ Z.of_nat (length code) < 2 ^ 63 -> readOnly e = false ->
  exists evm, evm_of env = Some evm /\
    wp Pan (Create evm caller code gas v) e (fun r e' => ready e e' /\ 0 <= r.1.2 <= gas).
Proof.
  intros Hidle Hg Hi Hro. destruct Henv, (evm_of_table ee_rules0) as (jt & E & Ht). pose proof Hidle as [].
  exists (evm env jt). split; [done|].
  destruct (evm_spec env jt Pan I R Rw codeOf codeAt) as [_ _ _ _ Hcreate _]; try done.
  eapply wp_mono; [by apply Hcreate|]. intros r e' []. split; [by apply evm_rel_ready|done].
Qed.

(** C8: one round of the interpreter, from any frame in which the stack is
    within its limit, the memory is paid for and the code is the one the
    caches describe.  It never indexes the stack, the memory, the code or
    the analysis out of range and never overflows the gas counter; when the
    loop goes on the frame is of the same kind, and it has less gas. *)
Theorem step_safe jt (f : frame S) :
  table_ok (IsTangerineWhistle (chainRules env)) jt = true ->
  loop_ok Pan I codeOf 0 f ->
  wp Pan (step env jt (evm env jt)) f (step_post Pan I R Rw codeOf 0 f).
Proof. intros Ht Hf. destruct Henv. eapply step_spec; try done. by eapply evm_spec. Qed.
End theorems.

(** The instruction table of every fork exists (building it does not
    panic), has all 256 entries, and each entry has the stack bounds, the
    memory size function and a price function that fit the instruction it
    executes; every instruction that does not end the run costs gas. *)
Theorem instructionSet_ok rules :
  exists jt, instructionSet rules = Some jt /\ table_ok (eip150_of rules) jt = true.
Proof. apply table_checks_spec, instructionSet_checks. Qed.
