(* ===== verification/IbsDB.v ===== *)
(** The EVM over the real state: IntraBlockState implements the interface of
    EvmTypes, and since none of its operations loops, a message call over it
    always comes to an end. *)
From S2P Require Import Prelude Uint256 AccessList StateTypes IntraBlockState Machine Precompiles Contract EvmTypes JumpTable Instructions Interpreter EvmLogic EvmInstr EvmTheorems.
#[local] Open Scope Z_scope.

Create HintDb ends.

(** * Code that always comes to an end, if only by a panic, and keeps [I] *)
Definition ends {St A : Type} (I : St -> Prop) (m : M St A) : Prop := forall s, I s ->
  match m s with
  | Ok (_, s') => I s'
  | Panic | Deadlock => True
  | OutOfFuel => False
  end.

Section ends_rules.
Context {St A B : Type} (I : St -> Prop).

Lemma ends_ret (a : A) : ends I (mret a : M St A).
Proof. by intros s. Qed.

Lemma ends_bind (m : M St A) (k : A -> M St B) : ends I m -> (forall a, ends I (k a)) -> ends I (m ≫= k).
Proof.
  intros Hm Hk s Hs. unfold mbind, M_bind. specialize (Hm s Hs).
  destruct (m s) as [[a s']| | |]; try done. by apply Hk.
Qed.

Lemma ends_gets (f : St -> A) : ends I (gets f).
Proof. by intros s. Qed.

Lemma ends_gets_bind (f : St -> A) (k : A -> M St B) (P : A -> Prop) :
  (forall s, I s -> P (f s)) -> (forall a, P a -> ends I (k a)) -> ends I (gets f ≫= k).
Proof. intros Hf Hk s Hs. unfold mbind, M_bind, gets. apply Hk; auto. Qed.

Lemma ends_modify (f : St -> St) : (forall s, I s -> I (f s)) -> ends I (modify f).
Proof. intros Hf s. apply Hf. Qed.

Lemma ends_panic : ends I (panic : M St A).
Proof. by intros s. Qed.

Lemma ends_deadlock : ends I (deadlock : M St A).
Proof. by intros s. Qed.

Lemma ends_deref (o : option A) : ends I (deref o : M St A).
Proof. by destruct o; intros s Hs. Qed.
End ends_rules.

Lemma ends_mfor_Forall {St A} (I : St -> Prop) (f : A -> M St unit) xs :
  Forall (fun x => ends I (f x)) xs -> ends I (mfor f xs).
Proof. induction 1; cbn; [apply ends_ret|apply ends_bind; auto]. Qed.

Lemma ends_mfor {St A} (I : St -> Prop) (f : A -> M St unit) xs :
  (forall x, ends I (f x)) -> ends I (mfor f xs).
Proof. intros Hf. by apply ends_mfor_Forall, Forall_true. Qed.

#[export] Hint Resolve ends_ret ends_gets ends_panic ends_deadlock ends_deref : ends.

(** Walks through a body by its control structure. *)
Ltac ends_step :=
  lazymatch goal with
  | |- ends _ (mbind _ _) => apply ends_bind; [|intros ?]
  | |- ends _ (mfor _ _) => apply ends_mfor; intros ?
  | |- ends _ (modify _) => apply ends_modify; solve [auto with ends | intros ? ?; repeat case_match; auto with ends]
  | |- ends _ (match ?x with _ => _ end) => destruct x
  | |- ends _ (let '(_, _) := ?x in _) => destruct x
  | |- forall _, _ => intros ?
  end.

Ltac ends_tac := repeat ends_step; auto with ends.

Section ibs_ends.
Context {U : Uint256} {US : Uint256Spec U} {L : LibMath} {LS : LibMathSpec L}.
Context (keccak256 : list Byte.byte -> hash) (reader : StateReader).

(** The refund counter is a uint64, and so are the values it can be reset to. *)
Definition entry_u64 (e : journalEntry) : Prop :=
  match e with refundChange prev => is_u64 prev | _ => True end.

Definition refund_ok (s : IntraBlockState) : Prop :=
  is_u64 (refund s) /\ Forall entry_u64 (entries (journal s)).

Abbreviation iends := (ends refund_ok).
Abbreviation aends := (ends (fun _ : accessList => True)).

Lemma refund_ok_same s s' : refund s' = refund s -> entries (journal s') = entries (journal s) ->
  refund_ok s -> refund_ok s'.
Proof. unfold refund_ok. by intros -> ->. Qed.
#[local] Hint Extern 2 (refund_ok _) => eapply refund_ok_same; [| |eassumption]; reflexivity : ends.

Lemma ends_on_acl {A} (m : M accessList A) : aends m -> iends (on_acl m).
Proof.
  intros Hm s Hs. unfold on_acl. specialize (Hm (acl s) I). destruct (m (acl s)) as [[? ?]| | |]; done.
Qed.

Lemma AddAddress_ends a : aends (AddAddress a).
Proof. unfold AddAddress. ends_tac. Qed.

Lemma AddSlot_ends a k : aends (AddSlot a k).
Proof. unfold AddSlot. ends_tac. Qed.

Lemma Contains_ends a k : aends (Contains a k).
Proof. unfold Contains. ends_tac. Qed.

Lemma DeleteSlot_ends a k : aends (DeleteSlot a k).
Proof. unfold DeleteSlot. ends_tac. Qed.

Lemma DeleteAddress_ends a : aends (DeleteAddress a).
Proof. unfold DeleteAddress. ends_tac. Qed.
#[local] Hint Resolve ends_on_acl AddAddress_ends AddSlot_ends Contains_ends DeleteSlot_ends
  DeleteAddress_ends : ends.

Lemma lock_journal_ends : iends lock_journal.
Proof. intros s Hs. unfold lock_journal, mbind, M_bind, gets. by destruct (locked (journal s)). Qed.

Lemma unlock_journal_ends : iends unlock_journal.
Proof. unfold unlock_journal. ends_tac. Qed.
#[local] Hint Resolve lock_journal_ends unlock_journal_ends : ends.

Lemma journal_append_ends e : entry_u64 e -> iends (journal_append e).
Proof.
  intros He. unfold journal_append. apply ends_bind; [auto with ends|]. intros _.
  apply ends_bind; [|auto with ends]. apply ends_modify. intros s [Hr Hj]. split; [done|]. cbn.
  apply Forall_app_2; [done|]. by constructor.
Qed.
#[local] Hint Extern 1 (ends _ (journal_append _)) => apply journal_append_ends; exact I : ends.

Lemma journal_dirty_ends a : iends (journal_dirty a).
Proof. unfold journal_dirty. ends_tac. Qed.

Lemma theObject_ends a : iends (theObject a).
Proof. unfold theObject. ends_tac. Qed.

Lemma modifyObject_ends a f : iends (modifyObject a f).
Proof. unfold modifyObject. ends_tac. Qed.

Lemma setErrorUnsafe_ends err : iends (setErrorUnsafe err).
Proof. unfold setErrorUnsafe. ends_tac. Qed.
#[local] Hint Resolve journal_dirty_ends theObject_ends modifyObject_ends setErrorUnsafe_ends : ends.

Lemma setStateObject_ends a o : iends (setStateObject a o).
Proof. unfold setStateObject. ends_tac. Qed.
#[local] Hint Resolve setStateObject_ends : ends.

Lemma createObject_ends a p : iends (createObject keccak256 a p).
Proof. unfold createObject. ends_tac. Qed.
#[local] Hint Resolve createObject_ends : ends.

Lemma getStateObject_ends a : iends (getStateObject keccak256 reader a).
Proof. unfold getStateObject. ends_tac. Qed.
#[local] Hint Resolve getStateObject_ends : ends.

Lemma GetOrNewStateObject_ends a : iends (GetOrNewStateObject keccak256 reader a).
Proof. unfold GetOrNewStateObject. ends_tac. Qed.

Lemma so_GetCommittedState_ends a k : iends (so_GetCommittedState reader a k).
Proof. unfold so_GetCommittedState. ends_tac. Qed.
#[local] Hint Resolve GetOrNewStateObject_ends so_GetCommittedState_ends : ends.

Lemma so_GetState_ends a k : iends (so_GetState reader a k).
Proof. unfold so_GetState. ends_tac. Qed.

Lemma so_Code_ends a : iends (so_Code keccak256 reader a).
Proof. unfold so_Code. ends_tac. Qed.

Lemma so_SetBalance_ends a v : iends (so_SetBalance a v).
Proof. unfold so_SetBalance, so_setBalance. ends_tac. Qed.
#[local] Hint Resolve so_GetState_ends so_Code_ends so_SetBalance_ends : ends.

Lemma revertEntry_ends ch : entry_u64 ch -> iends (revertEntry keccak256 reader ch).
Proof.
  intros Hch. unfold revertEntry, so_setBalance, so_setNonce, so_setCode, so_setState.
  destruct ch; try ends_tac. apply ends_modify. by intros s [].
Qed.

Lemma AddAddressToAccessList_ends a : iends (AddAddressToAccessList a).
Proof. unfold AddAddressToAccessList. ends_tac. Qed.

Lemma AddSlotToAccessList_ends a k : iends (AddSlotToAccessList a k).
Proof. unfold AddSlotToAccessList. ends_tac. Qed.
#[local] Hint Resolve revertEntry_ends AddAddressToAccessList_ends AddSlotToAccessList_ends : ends.

Lemma journal_revert_ends n : iends (journal_revert keccak256 reader n).
Proof.
  unfold journal_revert. apply ends_bind; [auto with ends|]. intros _.
  apply (ends_gets_bind _ _ _ (Forall entry_u64)); [by intros s []|]. intros es Hes.
  apply ends_bind; [|intros _; apply ends_bind; [|auto with ends]].
  - apply ends_mfor_Forall, Forall_rev, Forall_drop. revert Hes. apply Forall_impl.
    intros ch Hch. unfold undirty. ends_tac.
  - destruct (n <=? length es)%nat; [|apply ends_panic]. apply ends_modify. intros s [Hr Hj].
    split; [done|]. by apply Forall_take.
Qed.
#[local] Hint Resolve journal_revert_ends : ends.

Lemma RevertToSnapshot_ends id : iends (RevertToSnapshot keccak256 reader id).
Proof. unfold RevertToSnapshot. ends_tac. Qed.
#[local] Hint Resolve RevertToSnapshot_ends : ends.

Lemma AddRefund_ends n : iends (AddRefund n).
Proof.
  unfold AddRefund. apply (ends_gets_bind _ _ _ is_u64); [by intros s []|]. intros r Hr.
  apply ends_bind; [by apply journal_append_ends|]. intros _. apply ends_modify.
  intros s []. split; [apply u64_range|done].
Qed.

Lemma SubRefund_ends n : iends (SubRefund n).
Proof.
  unfold SubRefund. apply (ends_gets_bind _ _ _ is_u64); [by intros s []|]. intros r Hr.
  apply ends_bind; [by apply journal_append_ends|]. intros _. apply ends_bind; [auto with ends|]. intros r'.
  apply ends_bind; [ends_tac|]. intros _. apply ends_modify. intros s []. split; [apply u64_range|done].
Qed.
#[local] Hint Resolve AddRefund_ends SubRefund_ends : ends.

(** * The interface *)
#[export] Instance IbsDB : StateDB IntraBlockState := {|
  db_CreateAccount := CreateAccount keccak256 reader;
  db_SubBalance := SubBalance keccak256 reader;
  db_AddBalance := AddBalance keccak256 reader;
  db_GetBalance := GetBalance keccak256 reader;
  db_GetNonce := GetNonce keccak256 reader;
  db_SetNonce := SetNonce keccak256 reader;
  db_GetCodeHash := GetCodeHash keccak256 reader;
  db_GetCode a := c ← GetCode keccak256 reader a; mret (default [] c);
  db_SetCode a c := SetCode keccak256 reader a (match c with [] => None | _ => Some c end);
  db_GetCodeSize := GetCodeSize keccak256 reader;
  db_AddRefund := AddRefund;
  db_SubRefund := SubRefund;
  db_GetRefund := gets GetRefund;
  db_GetCommittedState := GetCommittedState keccak256 reader;
  db_GetState := GetState keccak256 reader;
  db_SetState := SetState keccak256 reader;
  db_Selfdestruct := Selfdestruct keccak256 reader;
  db_HasSelfdestructed := HasSelfdestructed keccak256 reader;
  db_Exist := Exist keccak256 reader;
  db_Empty := Empty keccak256 reader;
  db_PrepareAccessList := PrepareAccessList;
  db_AddressInAccessList a := gets (AddressInAccessList a);
  db_SlotInAccessList := SlotInAccessList;
  db_AddAddressToAccessList := AddAddressToAccessList;
  db_AddSlotToAccessList := AddSlotToAccessList;
  db_RevertToSnapshot := RevertToSnapshot keccak256 reader;
  db_Snapshot := Snapshot;
  db_AddLog := AddLog
|}.

Lemma ends_wp {A} (m : M IntraBlockState A) s (Q : A -> IntraBlockState -> Prop) :
  iends m -> refund_ok s -> (forall a s', refund_ok s' -> Q a s') -> wp True m s Q.
Proof. intros Hm Hs HQ. unfold wp. specialize (Hm s Hs). destruct (m s) as [[? ?]| | |]; auto. Qed.

Lemma ends_keeps {A} (m : M IntraBlockState A) : iends m -> keeps True refund_ok (fun _ _ => True) m.
Proof. intros Hm s Hs. by apply ends_wp. Qed.

(** The context's transfer functions: of core/evm.go, or of a Bor chain. *)
Definition ctx_ok (ctx : BlockContext IntraBlockState) : Prop :=
  CanTransfer ctx = CanTransfer_ /\ (Transfer ctx = Transfer_ \/ Transfer ctx = BorTransfer).

Lemma SubBalance_ends a v : iends (SubBalance keccak256 reader a v).
Proof. unfold SubBalance, so_SubBalance. ends_tac. Qed.

Lemma AddBalance_ends a v : iends (AddBalance keccak256 reader a v).
Proof. unfold AddBalance, so_AddBalance, so_touch, addIncrease. ends_tac. Qed.

Lemma GetBalance_ends a : iends (GetBalance keccak256 reader a).
Proof. unfold GetBalance. ends_tac. Qed.

Lemma AddLog_ends l : iends (AddLog l).
Proof. unfold AddLog. ends_tac. Qed.
#[local] Hint Resolve SubBalance_ends AddBalance_ends GetBalance_ends AddLog_ends : ends.

Lemma Transfer_ends ctx a b v bail : ctx_ok ctx -> iends (Transfer ctx a b v bail).
Proof.
  intros [_ [-> | ->]]; unfold Transfer_, BorTransfer, addTransferLog; cbn; ends_tac.
Qed.

Lemma ibs_Snapshot_law s : refund_ok s ->
  wp True Snapshot s (fun id s1 => refund_ok s1 /\ True /\ forall s2, refund_ok s2 -> True ->
    wp True (RevertToSnapshot keccak256 reader id) s2 (fun _ s3 => refund_ok s3 /\ True)).
Proof.
  intros Hs. apply ends_wp; [unfold Snapshot; ends_tac|done|]. intros id s1 Hs1. split_and!; try done.
  intros s2 Hs2 _. apply ends_wp; auto with ends.
Qed.

Lemma Exist_ok a s b s1 : refund_ok s -> Exist keccak256 reader a s = Ok (b, s1) -> refund_ok s1.
Proof.
  intros Hs E. assert (iends (Exist keccak256 reader a)) as H by (unfold Exist; ends_tac).
  specialize (H s Hs). by rewrite E in H.
Qed.

Lemma ibs_laws ctx codeOf codeAt : ctx_ok ctx ->
  DBLaws ctx True refund_ok (fun _ _ => True) (fun _ _ => True) codeOf codeAt.
Proof.
  intros Hctx. pose proof Hctx as [Hcan _].
  assert (forall a b v bail, iends (Transfer ctx a b v bail)) as Htrans by eauto using Transfer_ends.
  split; try done; intros; try (apply ends_keeps); try (apply ends_wp; [|done|by auto]); cbn;
    auto with ends;
    unfold GetNonce, GetCodeHash, GetCode, GetCodeSize, GetCommittedState, GetState, HasSelfdestructed,
      Exist, Empty, SlotInAccessList, CreateAccount, SetNonce, so_SetNonce, so_setNonce, PrepareAccessList,
      SetCode, so_SetCode, so_setCode, SetState, so_SetState, so_setState, Selfdestruct;
    rewrite ?Hcan; unfold CanTransfer_; try solve [ends_tac; apply GetBalance_ends].
  - destruct H. by split_and!.
  - by apply (Exist_ok a s false).
  - by apply ibs_Snapshot_law.
Qed.

(** The EVM over IntraBlockState. *)
Lemma ibs_env (env : Env IntraBlockState) :
  ctx_ok (context env) -> rules_ok (chainRules env) ->
  (forall p input, is_u64 (RequiredGas (native env p) input)) ->
  evm_env env True refund_ok (fun _ _ => True) (fun _ _ => True) (fun _ => []) (fun _ _ => []).
Proof. intros Hc Hr Hn. split; [by apply ibs_laws|done|done|by left]. Qed.

(** Over the real IntraBlockState, with any database behind it and any
    contracts in it, a message call comes to an end (in a result or in a
    panic), and the gas it leaves is at most the gas it got. *)
Theorem evm_over_IntraBlockState (env : Env IntraBlockState) caller addr input gas v bail
    (e : evmstate IntraBlockState) :
  ctx_ok (context env) -> rules_ok (chainRules env) ->
  (forall p input, is_u64 (RequiredGas (native env p) input)) ->
  0 <= depth e -> is_u64 (callGasTemp e) -> refund_ok (ibs e) -> is_u64 gas -> readOnly e = false ->
  exists evm, evm_of env = Some evm /\
    match Call evm caller addr input gas v bail e with
    | Ok (_, leftOverGas, _, _) => 0 <= leftOverGas <= gas
    | Panic | Deadlock => True
    | OutOfFuel => False
    end.
Proof.
  intros Hc Hr Hn Hd Ht Hs Hg Hro.
  destruct (evm_Call_spec _ _ _ _ _ _ _ (ibs_env env Hc Hr Hn) caller addr input gas v bail e)
    as (evm & Hevm & Hwp); [by split; auto|done|by left|congruence|].
  exists evm. split; [done|]. unfold wp in Hwp.
  destruct (Call evm caller addr input gas v bail e) as [[[[ret left_] err] e']| | |]; try done. apply Hwp.
Qed.
End ibs_ends.
