(* ===== verification/EvmExamples.v ===== *)
(** Concrete runs of the EVM.

    A small state database keeps a copy of the world per snapshot.  It satisfies
    the laws the EVM relies on, so it shows that they can hold together; every
    address counts as being on its access list.  The witnesses of the EVM
    theorems run on it and on IntraBlockState; so does the loop over ExtraEips. *)
From S2P Require Import Prelude Uint256 OpCodes AccessList StateTypes IntraBlockState Machine MachineSpec Precompiles Contract EvmTypes JumpTable Instructions.
From S2P Require Import Interpreter EvmLogic EvmGas EvmInstr EvmStep EvmTheorems IbsDB.
#[local] Open Scope Z_scope.

Section refdb.
Context {U : Uint256} {US : Uint256Spec U}.

Record acct := mk_acct {
  bal : u256;
  nonce_ : Z;
  code_ : list Byte.byte;
  slots_ : gmap hash u256
}.

Definition noAcct : acct := mk_acct Clear 0 [] ∅.

Record world_t := mk_world {
  accts : gmap address acct;
  logs_ : list Log
}.

Record refdb := mk_refdb {
  cur : world_t;
  saved : list world_t;
  slotList : gset (address * hash)
}.

Definition acct_of (s : refdb) (a : address) : acct := default noAcct (accts (cur s) !! a).

Definition put (a : address) (x : acct) (s : refdb) : refdb :=
  mk_refdb (mk_world (<[a := x]> (accts (cur s))) (logs_ (cur s))) (saved s) (slotList s).

Definition on_acct (a : address) (f : acct -> acct) : M refdb unit :=
  modify (fun s => put a (f (acct_of s a)) s).

(** A collision-free hash for the model: the code itself, as a number. *)
Definition ref_keccak (code : list Byte.byte) : hash := N.pos (encode (byte.unsigned <$> code)).

Definition ref_code (h : hash) : list Byte.byte :=
  match h with
  | N0 => []
  | N.pos p => byte.of_Z <$> default [] (decode (A := list Z) p)
  end.

Lemma ref_code_keccak code : ref_code (ref_keccak code) = code.
Proof.
  unfold ref_code, ref_keccak. rewrite decode_encode. cbn. rewrite <- list_fmap_compose.
  etransitivity; [|apply list_fmap_id]. apply list_fmap_ext. intros i b _. apply byte.of_Z_unsigned.
Qed.

(** Code that does not fit a slice is not stored. *)
Definition slice_code (c : list Byte.byte) : list Byte.byte :=
  if Z.of_nat (length c) <? 2 ^ 63 then c else [].

#[export] Instance RefDB : StateDB refdb := {|
  db_CreateAccount a _ := on_acct a (fun x => mk_acct (bal x) 0 [] ∅);
  db_SubBalance a v := on_acct a (fun x => mk_acct (Sub (bal x) v) (nonce_ x) (code_ x) (slots_ x));
  db_AddBalance a v := on_acct a (fun x => mk_acct (Add (bal x) v) (nonce_ x) (code_ x) (slots_ x));
  db_GetBalance a := gets (fun s => bal (acct_of s a));
  db_GetNonce a := gets (fun s => nonce_ (acct_of s a));
  db_SetNonce a n := on_acct a (fun x => mk_acct (bal x) n (code_ x) (slots_ x));
  db_GetCodeHash a := gets (fun s =>
    match accts (cur s) !! a with Some x => ref_keccak (code_ x) | None => 0%N end);
  db_GetCode a := gets (fun s => code_ (acct_of s a));
  db_SetCode a c := on_acct a (fun x => mk_acct (bal x) (nonce_ x) (slice_code c) (slots_ x));
  db_GetCodeSize a := gets (fun s => Z.of_nat (length (code_ (acct_of s a))));
  db_AddRefund _ := mret tt;
  db_SubRefund _ := mret tt;
  db_GetRefund := mret 0;
  db_GetCommittedState a k := gets (fun s => default Clear (slots_ (acct_of s a) !! k));
  db_GetState a k := gets (fun s => default Clear (slots_ (acct_of s a) !! k));
  db_SetState a k v := on_acct a (fun x =>
    mk_acct (bal x) (nonce_ x) (code_ x) (<[k := v]> (slots_ x)));
  db_Selfdestruct a := fun s => Ok (true, put a noAcct s);
  db_HasSelfdestructed a := mret false;
  db_Exist a := gets (fun s => bool_decide (is_Some (accts (cur s) !! a)));
  db_Empty a := gets (fun s => IsZero (bal (acct_of s a)) && (nonce_ (acct_of s a) =? 0) &&
                               (length (code_ (acct_of s a)) =? 0)%nat);
  db_PrepareAccessList _ _ _ _ := mret tt;
  db_AddressInAccessList _ := mret true;
  db_SlotInAccessList a k := gets (fun s => (true, bool_decide ((a, k) ∈ slotList s)));
  db_AddAddressToAccessList _ := mret tt;
  db_AddSlotToAccessList a k := modify (fun s => mk_refdb (cur s) (saved s) ({[(a, k)]} ∪ slotList s));
  db_RevertToSnapshot id := fun s =>
    w ← or_panic (saved s !! id); Ok (tt, mk_refdb w (take id (saved s)) (slotList s));
  db_Snapshot := fun s =>
    Ok (length (saved s), mk_refdb (cur s) (saved s ++ [cur s]) (slotList s));
  db_AddLog l := modify (fun s =>
    mk_refdb (mk_world (accts (cur s)) (logs_ (cur s) ++ [l])) (saved s) (slotList s))
|}.

(** * The laws *)
Definition codes_ok (w : world_t) : Prop :=
  map_Forall (fun _ x => Z.of_nat (length (code_ x)) < 2 ^ 63) (accts w).

Definition ref_I (s : refdb) : Prop := codes_ok (cur s) /\ Forall codes_ok (saved s).

Definition ref_R (s s' : refdb) : Prop :=
  (forall a, acct_of s' a = acct_of s a) /\ logs_ (cur s') = logs_ (cur s) /\
  saved s `prefix_of` saved s'.

Definition ref_Rw (s s' : refdb) : Prop := saved s `prefix_of` saved s'.

Definition ref_codeAt (s : refdb) (a : address) : list Byte.byte := code_ (acct_of s a).

Lemma acct_of_put a x s b : acct_of (put a x s) b = if decide (b = a) then x else acct_of s b.
Proof.
  unfold acct_of, put. cbn. destruct (decide (b = a)) as [->|]; simplify_map_eq; done.
Qed.

Lemma code_of_ok s a : ref_I s -> Z.of_nat (length (code_ (acct_of s a))) < 2 ^ 63.
Proof.
  intros [Hc _]. unfold acct_of. destruct (accts (cur s) !! a) eqn:E; [|done]. by apply (Hc a).
Qed.

Lemma put_I a x s : ref_I s -> Z.of_nat (length (code_ x)) < 2 ^ 63 -> ref_I (put a x s).
Proof. intros [Hc Hs] Hx. split; [|done]. by apply map_Forall_insert_2. Qed.

Lemma ref_R_refl s : ref_R s s.
Proof. by split_and!. Qed.

Lemma ref_R_trans s1 s2 s3 : ref_R s1 s2 -> ref_R s2 s3 -> ref_R s1 s3.
Proof.
  intros (H1 & H2 & H3) (H4 & H5 & H6). split_and!; [|congruence|by etrans].
  intros a. by rewrite H4, H1.
Qed.

Lemma ref_Rw_trans s1 s2 s3 : ref_Rw s1 s2 -> ref_Rw s2 s3 -> ref_Rw s1 s3.
Proof. unfold ref_Rw. apply transitivity. Qed.

Lemma keeps_gets {A} (f : refdb -> A) : keeps False ref_I ref_R (gets f).
Proof. intros s Hs. split; [done|apply ref_R_refl]. Qed.

Lemma keeps_ret {A} (a : A) : keeps False ref_I ref_R (mret a).
Proof. intros s Hs. split; [done|apply ref_R_refl]. Qed.

Lemma keeps_on_acct a f :
  (forall x, Z.of_nat (length (code_ x)) < 2 ^ 63 -> Z.of_nat (length (code_ (f x))) < 2 ^ 63) ->
  keeps False ref_I ref_Rw (on_acct a f).
Proof.
  intros Hf s Hs. split; [|by unfold ref_Rw]. apply put_I; [done|]. by apply Hf, code_of_ok.
Qed.

Lemma keeps_on_acct_id a f :
  (forall x, f x = x) -> keeps False ref_I ref_R (on_acct a f).
Proof.
  intros Hf s Hs. split.
  - apply put_I; [done|]. rewrite Hf. by apply code_of_ok.
  - split_and!; [|done|done]. intros b. rewrite acct_of_put, Hf. by destruct (decide _) as [->|].
Qed.

Context (ctx : BlockContext refdb).
Hypothesis ctx_CanTransfer : CanTransfer ctx = CanTransfer_.
Hypothesis ctx_Transfer : Transfer ctx = Transfer_.

Lemma keeps_bind {A B} X (m : M refdb A) (k : A -> M refdb B) :
  (forall s1 s2 s3, X s1 s2 -> X s2 s3 -> X s1 s3) ->
  keeps False ref_I X m -> (forall a, keeps False ref_I X (k a)) -> keeps False ref_I X (m ≫= k).
Proof.
  intros Ht Hm Hk s Hs. apply wp_bind. eapply wp_mono; [by apply Hm|]. intros a s1 [Hs1 H1].
  eapply wp_mono; [by apply Hk|]. intros b s2 [Hs2 H2]. eauto.
Qed.

Lemma keeps_Transfer a b v bail : keeps False ref_I ref_Rw (Transfer_ a b v bail).
Proof.
  unfold Transfer_. apply keeps_bind; [apply ref_Rw_trans| |intros _; by apply keeps_on_acct].
  destruct bail; cbn [negb]; [|by apply keeps_on_acct].
  eapply keeps_weaken; [|apply keeps_ret]. by intros ? ? (_ & _ & ?).
Qed.

Lemma Transfer_zero a b v bail : IsZero v = true -> keeps False ref_I ref_R (Transfer_ a b v bail).
Proof.
  intros ->%IsZero_true. unfold Transfer_. apply keeps_bind; [apply ref_R_trans| |intros _].
  - destruct bail; cbn [negb]; [apply keeps_ret|]. apply keeps_on_acct_id. intros []. cbn.
    by rewrite Sub_Clear_r.
  - apply keeps_on_acct_id. intros []. cbn. by rewrite Add_Clear_r.
Qed.

(** A transfer does not touch code. *)
Lemma Transfer_code a b v bail s c :
  wp False (Transfer_ a b v bail) s (fun _ s' => ref_codeAt s' c = ref_codeAt s c).
Proof.
  unfold wp, Transfer_, mbind, M_bind. destruct bail; cbn; unfold ref_codeAt; rewrite !acct_of_put;
    repeat case_decide; subst; rewrite ?acct_of_put; repeat case_decide; done.
Qed.

Lemma ref_Snapshot_law s :
  ref_I s -> wp False db_Snapshot s (fun id s1 => ref_I s1 /\ ref_R s s1 /\
    forall s2, ref_I s2 -> ref_Rw s1 s2 ->
      wp False (db_RevertToSnapshot id) s2 (fun _ s3 => ref_I s3 /\ ref_R s s3)).
Proof.
  intros [Hc Hs]. cbn. split_and!.
  - split; [done|]. apply Forall_app_2; [done|]. by constructor.
  - split_and!; [done|done|]. cbn. by apply prefix_app_r.
  - intros s2 [_ Hs2] [tl E]. cbn in E. unfold wp. rewrite E.
    rewrite lookup_app_l by (rewrite length_app; cbn; lia).
    rewrite lookup_app_r, Nat.sub_diag by lia. cbn.
    rewrite <- app_assoc, take_app_length. split; [by split|]. by split_and!.
Qed.

Lemma ref_laws : DBLaws ctx False ref_I ref_R ref_Rw ref_code ref_codeAt.
Proof using All.
  pose proof ref_Rw_trans.
  split; try (intros; apply keeps_gets); try (intros; apply keeps_ret);
    try (intros; by apply keeps_on_acct); try done.
  - apply ref_R_trans.
  - by intros ? ? (_ & _ & ?).
  - intros a s HI. cbn. split_and!; [done|apply ref_R_refl|right]. intros _. unfold ref_codeAt, acct_of.
    destruct (accts (cur s) !! a) as [x|]; [|done]. intros _. apply ref_code_keccak.
  - intros a s HI. cbn. split_and!; [done|apply ref_R_refl|right]. split; [done|by apply code_of_ok].
  - intros s s' a (Ha & _). right. unfold ref_codeAt. by rewrite Ha.
  - intros a v. rewrite ctx_CanTransfer. intros s HI. split; [done|apply ref_R_refl].
  - intros a. apply keeps_on_acct_id. intros []. cbn. by rewrite Add_Clear_r.
  - intros a s s1 HI [= Hex <-]. apply bool_decide_eq_false_1 in Hex.
    assert (acct_of s a = noAcct) as Ha.
    { unfold acct_of. destruct (accts (cur s) !! a); [|done]. destruct Hex. eauto. }
    cbn. rewrite Ha. split; [by apply put_I|]. split_and!; [|done|done]. intros b.
    rewrite acct_of_put. destruct (decide (b = a)) as [->|]; [by rewrite Ha|done].
  - intros a b v bail Hz. rewrite ctx_Transfer. by apply Transfer_zero.
  - intros a c. apply keeps_on_acct. intros x _. cbn. unfold slice_code.
    destruct (Z.ltb_spec (Z.of_nat (length c)) (2 ^ 63)); done.
  - intros a s HI. split; [by apply put_I|by unfold ref_Rw].
  - intros l s HI. split; [done|by unfold ref_Rw].
  - intros a b v bail s HI. rewrite ctx_Transfer. pose proof (keeps_Transfer a b v bail s HI) as Hk.
    unfold wp in *. destruct (Transfer_ a b v bail s) as [[? s']| | |] eqn:E; try done.
    destruct Hk. split_and!; [done..|]. intros c. right. pose proof (Transfer_code a b v bail s c) as Hc.
    unfold wp in Hc. by rewrite E in Hc.
  - apply ref_Snapshot_law.
Qed.
End refdb.

Module evmdemo.

(** The rules of a London chain. *)
Definition london : Rules :=
  mk_Rules 1 true true true true true true true true true false false false false false false false.

Definition noConfig : Config := mk_Config false false false false false false false [].

Definition freePrecompile : PrecompiledContract := mk_Precompiled (fun _ => 0) (fun input => (input, None)).

Definition ctx {S} {DB : StateDB S} : BlockContext S :=
  mk_BlockContext CanTransfer_ Transfer_ (fun _ => 0%N) 0%N 30000000 false 12965000 1628166822 0 (w 7) None.

Definition demo_env {S} {DB : StateDB S} (keccak : list Byte.byte -> hash) : Env S :=
  mk_Env ctx (mk_TxContext 1%N (w 10)) london noConfig keccak (fun a n => (a + Z.to_N n)%N)
    (fun _ => freePrecompile) (fun _ => false).

(** Account 119 has code that counts in storage slot 0 and returns the byte 2a:
    PUSH1 0 SLOAD PUSH1 1 ADD PUSH1 0 SSTORE PUSH1 2a PUSH1 0 MSTORE8 PUSH1 1
    PUSH1 0 RETURN.  Account 136 jumps to itself for ever. *)
Definition counter_code : list Byte.byte := [
  Byte.x60; Byte.x00; Byte.x54; Byte.x60; Byte.x01; Byte.x01; Byte.x60; Byte.x00; Byte.x55;
  Byte.x60; Byte.x2a; Byte.x60; Byte.x00; Byte.x53; Byte.x60; Byte.x01; Byte.x60; Byte.x00; Byte.xf3].

Definition spin_code : list Byte.byte := [Byte.x5b; Byte.x60; Byte.x00; Byte.x56].

Definition db0 : refdb :=
  mk_refdb (mk_world {[ 1%N := mk_acct (w 1000) 0 [] ∅; 119%N := mk_acct (w 0) 1 counter_code ∅;
                        136%N := mk_acct (w 0) 1 spin_code ∅ ]} []) [] ∅.

Definition e0 : evmstate refdb := mk_evmstate db0 0 0 false [] ∅ 0.

Abbreviation denv := (demo_env (S := refdb) ref_keccak).

Lemma denv_ok : evm_env denv False ref_I ref_R ref_Rw ref_code ref_codeAt.
Proof.
  split; [by apply ref_laws|reflexivity|done|right; apply ref_code_keccak].
Qed.

Lemma db0_I : ref_I db0.
Proof.
  split; [|constructor]. intros a x Hx. cbn in Hx.
  repeat (apply lookup_insert_Some in Hx as [[_ <-]|[_ Hx]]; [cbn; lia|]). 
  apply lookup_singleton_Some in Hx as [_ <-]. cbn. lia.
Qed.

Lemma e0_idle : idle False ref_I ref_code e0.
Proof. split; [done|apply db0_I|done|right]. intros h a _. cbn [jumpdests e0]. by rewrite lookup_empty. Qed.



Lemma evm_Create_returns_witness :
  exists evm, evm_of denv = Some evm /\
    wp False (Create evm (AccountRef 1%N) counter_code 200000 (w 5)) e0 (fun r e' =>
      ready False ref_I ref_code e0 e' /\ 0 <= r.1.2 <= 200000).
Proof.
  apply (evm_Create_returns denv False ref_I ref_R ref_Rw ref_code ref_codeAt denv_ok);
    [apply e0_idle|done|right; cbn; lia|done].
Defined.

(** The first round of account 136's code. *)
Definition table : JumpTable := default [] newLondonInstructionSet.

Definition spin : Contract :=
  mk_Contract 1%N (AccountRef 1%N) 136%N None false spin_code 0%N (Some 136%N) [] 50000 (Some (w 0)).

Definition f0 : frame refdb := mk_frame e0 0 [] NewMemory spin.

Lemma table_checked : table_ok true table = true.
Proof. vm_compute. reflexivity. Qed.

Lemma f0_ok : loop_ok False ref_I ref_code 0 f0.
Proof.
  split; [split; [done|done|apply mem_ok_New|apply db0_I]|done|done|right]. split.
  - unfold contract_ok. cbn. split_and!; [lia|lia|done|done|by eexists].
  - intros h a _. cbn [jumpdests e0 f_evm f0]. by rewrite lookup_empty.
Qed.

Lemma step_safe_witness :
  wp False (step denv table (evm denv table)) f0
    (step_post False ref_I ref_R ref_Rw ref_code 0 f0).
Proof.
  apply (step_safe denv False ref_I ref_R ref_Rw ref_code ref_codeAt denv_ok table f0);
    [exact table_checked|apply f0_ok].
Defined.

(** * The real state *)
Definition ikeccak (bs : list Byte.byte) : hash := N.of_nat (Datatypes.S (length bs)).

Definition ireader : StateReader :=
  mk_StateReader
    (fun a => (if bool_decide (a = 119%N) then Some (mk_Account true 1 (w 10) EmptyRoot 20%N 1) else None, None))
    (fun _ _ _ => (None, None))
    (fun a _ _ => (if bool_decide (a = 119%N) then Some counter_code else None, None))
    (fun _ _ _ => (19, None))
    (fun _ => (0, None)).

#[local] Instance idb : StateDB IntraBlockState := IbsDB ikeccak ireader.

Definition ienv : Env IntraBlockState := demo_env ikeccak.

Definition ie0 : evmstate IntraBlockState := mk_evmstate New 0 0 false [] ∅ 0.

Lemma evm_over_IntraBlockState_witness :
  exists evm, evm_of ienv = Some evm /\
    match Call evm (AccountRef 1%N) 119%N [] 100000 (w 0) false ie0 with
    | Ok (_, leftOverGas, _, _) => 0 <= leftOverGas <= 100000
    | Panic | Deadlock => True
    | OutOfFuel => False
    end.
Proof.
  apply (evm_over_IntraBlockState ikeccak ireader ienv);
    [split; [done|by left]|done|done|done|done|by split|done|done].
Defined.

(** The counter contract runs on both databases. *)
Definition summary {St} (r : outcome (list Byte.byte * Z * option EvmError * St)) : list Z * Z * bool :=
  match r with
  | Ok (ret, gas, err, _) => (byte.unsigned <$> ret, gas, isSome err)
  | _ => ([], -1, true)
  end.

Definition demo_call {S} {DB : StateDB S} (env : Env S) (e : evmstate S) (a : address) (gas : Z)
    : list Z * Z * bool :=
  match evm_of env with
  | Some evm => summary (Call evm (AccountRef 1%N) a [] gas (w 0) false e)
  | None => ([], -2, true)
  end.

Example counter_runs : demo_call denv e0 119%N 100000 = ([42], 77870, false).
Proof. vm_compute. reflexivity. Qed.

Example counter_runs_ibs : demo_call ienv ie0 119%N 100000 = ([42], 77870, false).
Proof. vm_compute. reflexivity. Qed.

(** An endless loop runs out of gas. *)
Example spin_stops : demo_call denv e0 136%N 5000 = ([], 0, true).
Proof. vm_compute. reflexivity. Qed.

(** * ExtraEips *)

(** Whether PUSH0 (EIP-3855) is an instruction of the interpreter, and the
    EIPs its configuration lists. *)
Definition push0_enabled (jt : JumpTable) : bool :=
  match lookupZ jt Op.PUSH0 with
  | Some (Some o) => match execute o with ExecFn.opPush0 => true | _ => false end
  | _ => false
  end.

Definition eips_result (extraEips : list Z) : option (bool * list Z) :=
  '(jt, eips) ← NewEVMInterpreter london extraEips; Some (push0_enabled jt, eips).

(** An unknown EIP in ExtraEips makes the loop of NewEVMInterpreter skip
    the EIP that follows it.  EIP-3855 alone is activated; after the unknown
    EIP 9999 it is not, although it stays listed; and with an unknown EIP on
    both sides the loop panics. *)
Theorem extraEips_skipped :
  eips_result [3855] = Some (true, [3855]) /\
  eips_result [9999; 3855; 1344] = Some (false, [3855; 1344]) /\
  eips_result [9999; 3855; 9998] = None.
Proof. vm_compute. split_and!; reflexivity. Qed.
End evmdemo.
