(* ===== verification/Transaction.v ===== *)
(** Transactions as core/types has them and the messages they become
    (core/types/transaction.go, legacy_tx.go, access_list_tx.go,
    dynamic_fee_tx.go, deposit_tx.go), with the fees they offer.

    Recovering the sender from a signature is package secp256k1's; here it is
    the argument [sender] of [AsMessage].  Chain ids, signature values and the
    source hash of a deposit do not take part in execution; [TxCodec] adds them
    for the encodings. *)
From S2P Require Import Prelude Uint256 StateTypes Precompiles.
#[local] Open Scope Z_scope.

(** The errors of package core a transaction can be refused with. *)
Inductive TxError :=
| ErrTipAboveFeeCap
| ErrFeeCapTooLow
| ErrNonceTooLow
| ErrNonceTooHigh
| ErrNonceMax
| ErrGasLimitReached
| ErrMaxInitCodeSizeExceeded
| ErrInsufficientFunds
| ErrTxGasUintOverflow
| ErrIntrinsicGas
| ErrSenderNoEOA
| ErrBlacklistAccount
(* of package types *)
| ErrNoLondon
| ErrNoBerlin
| ErrGasPriceTooHigh
| ErrSender.

#[export] Instance TxError_eq_dec : EqDecision TxError.
Proof. solve_decision. Defined.

(** DepositsNonce of transaction.go. *)
Definition DepositsNonce : Z := 0xfffffffffffffffd.

(** types.AccessList of erigon-lib: addresses with their storage keys. *)
Abbreviation AccessTuples := (list (address * list hash)).

(** * The message *)
Module Msg.
Section msg.
Context {U : Uint256}.

(** Message of transaction.go. *)
Record Message := mk_Message {
  To : option address;
  From : address;
  Nonce : Z;
  Mint : u256;
  Value : u256;
  Gas : Z;
  GasPrice : u256;
  FeeCap : u256;
  Tip : u256;
  Data : list Byte.byte;
  AccessList : AccessTuples;
  CheckNonce : bool;
  IsFree : bool;
  IsSystemTx : bool
}.

Definition SetCheckNonce (checkNonce : bool) (m : Message) : Message :=
  mk_Message (To m) (From m) (Nonce m) (Mint m) (Value m) (Gas m) (GasPrice m) (FeeCap m) (Tip m)
    (Data m) (AccessList m) checkNonce (IsFree m) (IsSystemTx m).

Definition SetIsFree (isFree : bool) (m : Message) : Message :=
  mk_Message (To m) (From m) (Nonce m) (Mint m) (Value m) (Gas m) (GasPrice m) (FeeCap m) (Tip m)
    (Data m) (AccessList m) (CheckNonce m) isFree (IsSystemTx m).

Definition set_gasPrice (gasPrice : u256) (m : Message) : Message :=
  mk_Message (To m) (From m) (Nonce m) (Mint m) (Value m) (Gas m) gasPrice (FeeCap m) (Tip m)
    (Data m) (AccessList m) (CheckNonce m) (IsFree m) (IsSystemTx m).

Definition set_from (from : address) (m : Message) : Message :=
  mk_Message (To m) from (Nonce m) (Mint m) (Value m) (Gas m) (GasPrice m) (FeeCap m) (Tip m)
    (Data m) (AccessList m) (CheckNonce m) (IsFree m) (IsSystemTx m).

(** ChangeGas. *)
Definition ChangeGas (globalGasCap desiredGas : Z) (m : Message) : Message :=
  let gas := if globalGasCap =? 0 then MaxUint64 / 2 else globalGasCap in
  let gas := if 0 <? desiredGas then desiredGas else gas in
  let gas := if negb (globalGasCap =? 0) && (globalGasCap <? gas) then globalGasCap else gas in
  mk_Message (To m) (From m) (Nonce m) (Mint m) (Value m) gas (GasPrice m) (FeeCap m) (Tip m)
    (Data m) (AccessList m) (CheckNonce m) (IsFree m) (IsSystemTx m).
End msg.
End Msg.
Abbreviation Message := Msg.Message.

(** * Transactions *)
Module Tx.
Section tx.
Context {U : Uint256}.

Record CommonTx := mk_CommonTx {
  Nonce : Z;
  Gas : Z;
  To : option address;
  Value : u256;
  Data : list Byte.byte
}.

Record DepositTransaction := mk_Deposit {
  d_Nonce : Z;
  d_From : address;
  d_To : option address;
  d_Mint : u256;
  d_Value : u256;
  d_GasLimit : Z;
  d_IsSystemTx : bool;
  d_Data : list Byte.byte
}.

(** The interface Transaction, by its implementations. *)
Inductive Transaction :=
| LegacyTx (tx : CommonTx) (GasPrice : u256)
| AccessListTx (tx : CommonTx) (GasPrice : u256) (AccessList : AccessTuples)
| DynamicFeeTransaction (tx : CommonTx) (Tip FeeCap : u256) (AccessList : AccessTuples)
| DepositTx (tx : DepositTransaction).

Definition GetTip (tx : Transaction) : u256 :=
  match tx with
  | LegacyTx _ p | AccessListTx _ p _ => p
  | DynamicFeeTransaction _ tip _ _ => tip
  | DepositTx _ => SetUint64 0
  end.

Definition GetFeeCap (tx : Transaction) : u256 :=
  match tx with
  | LegacyTx _ p | AccessListTx _ p _ => p
  | DynamicFeeTransaction _ _ feeCap _ => feeCap
  | DepositTx _ => SetUint64 0
  end.

(** A nil base fee is [None]. *)
Definition GetEffectiveGasTip (tx : Transaction) (baseFee : option u256) : u256 :=
  match tx, baseFee with
  | DepositTx _, _ => SetUint64 0
  | _, None => GetTip tx
  | _, Some baseFee =>
      let gasFeeCap := GetFeeCap tx in
      if Lt gasFeeCap baseFee then SetUint64 0
      else
        let effectiveFee := Sub gasFeeCap baseFee in
        if Lt (GetTip tx) effectiveFee then GetTip tx else effectiveFee
  end.

(** The fields of the message that all signed transactions fill alike. *)
Definition commonMessage (tx : CommonTx) (gasPrice feeCap tip : u256) (accessList : AccessTuples)
    : Message :=
  Msg.mk_Message (To tx) 0%N (Nonce tx) Clear (Value tx) (Gas tx) gasPrice feeCap tip (Data tx)
    accessList true false false.

Definition withSender (sender : option address) (msg : Message) : Message + TxError :=
  match sender with
  | Some from => inl (Msg.set_from from msg)
  | None => inr ErrSender
  end.

(** The gas price of a dynamic fee transaction. *)
Definition dynamicPrice (Tip FeeCap : u256) (baseFee : option Z) (msg : Message) : Message + TxError :=
  let '(price, overflow) :=
    match baseFee with
    | Some baseFee => FromBig baseFee
    | None => (Msg.GasPrice msg, false)
    end in
  if (overflow : bool) then inr ErrGasPriceTooHigh
  else
    let price := Add price Tip in
    let price := if Gt price FeeCap then FeeCap else price in
    inl (Msg.set_gasPrice price msg).

(** AsMessage of each type of transaction. *)
Definition Legacy_AsMessage (tx : CommonTx) (GasPrice : u256) (sender : option address) : Message + TxError :=
  withSender sender (commonMessage tx GasPrice GasPrice GasPrice []).

Definition AccessList_AsMessage (tx : CommonTx) (GasPrice : u256) (AccessList : AccessTuples) (sender : option address)
    (rules : Rules) : Message + TxError :=
  let msg := commonMessage tx GasPrice GasPrice GasPrice AccessList in
  if negb (IsBerlin rules) then inr ErrNoBerlin else withSender sender msg.

Definition DynamicFee_AsMessage (tx : CommonTx) (Tip FeeCap : u256) (AccessList : AccessTuples) (sender : option address)
    (baseFee : option Z) (rules : Rules) : Message + TxError :=
  let msg := commonMessage tx FeeCap FeeCap Tip AccessList in
  if negb (IsLondon rules) then inr ErrNoLondon
  else
    match dynamicPrice Tip FeeCap baseFee msg with
    | inl msg => withSender sender msg
    | inr e => inr e
    end.

Definition Deposit_AsMessage (tx : DepositTransaction) : Message :=
  Msg.mk_Message (d_To tx) (d_From tx) (d_Nonce tx) (d_Mint tx) (d_Value tx) (d_GasLimit tx)
    Clear Clear Clear (d_Data tx) [] true false (d_IsSystemTx tx).

Definition AsMessage (tx : Transaction) (sender : option address) (baseFee : option Z) (rules : Rules)
    : Message + TxError :=
  match tx with
  | LegacyTx tx GasPrice => Legacy_AsMessage tx GasPrice sender
  | AccessListTx tx GasPrice AccessList => AccessList_AsMessage tx GasPrice AccessList sender rules
  | DynamicFeeTransaction tx Tip FeeCap AccessList => DynamicFee_AsMessage tx Tip FeeCap AccessList sender baseFee rules
  | DepositTx tx => inl (Deposit_AsMessage tx)
  end.
End tx.
End Tx.
Abbreviation Transaction := Tx.Transaction.

(** * Fees *)
Section fees.
Context {U : Uint256}.

(** CheckEip1559TxGasFeeCap of state_transition.go. *)
Definition CheckEip1559TxGasFeeCap (gasFeeCap tip : u256) (baseFee : option u256) (isFree : bool)
    : option TxError :=
  if Lt gasFeeCap tip then Some ErrTipAboveFeeCap
  else
    match baseFee with
    | Some baseFee => if Lt gasFeeCap baseFee && negb isFree then Some ErrFeeCapTooLow else None
    | None => None
    end.

(** Min256 of common/math. *)
Definition Min256 (x y : u256) : u256 := if Gt x y then y else x.

(** The tip per unit of gas that innerTransitionDb gives to the block
    producer. *)
Definition effectiveTip (rules : Rules) (gasPrice gasFeeCap tip baseFee : u256) : u256 :=
  if IsLondon rules then
    if Gt gasFeeCap baseFee then Min256 tip (Sub gasFeeCap baseFee) else Clear
  else gasPrice.
End fees.
