(* ===== verification/StateTransition.v ===== *)
(** Applying a message to the state: core/gaspool.go and
    core/state_transition.go.

    [evm] is the interface vm.VMInterface, implemented by the EVM of
    Interpreter.  The intrinsic gas is computed by package txpool of
    erigon-lib and is the parameter [CalcIntrinsicGas]. *)
From S2P Require Import Prelude Uint256 StateTypes OpCodes Machine Precompiles Contract EvmTypes Instructions Interpreter Transaction.
#[local] Open Scope Z_scope.

(** * gaspool.go *)

(** A gas pool is a uint64.  [AddGas] panics on overflow. *)
Definition AddGas (amount gp : Z) : option Z :=
  if u64_sub MaxUint64 amount <? gp then None else Some (u64_add gp amount).

Definition SubGas (amount gp : Z) : Z + TxError :=
  if gp <? amount then inr ErrGasLimitReached else inl (u64_sub gp amount).

(** * state_transition.go *)

(** ExecutionResult: the error is the EVM's, or tells of a failed deposit. *)
Inductive ExecError :=
| vmError (e : EvmError)
| failedDeposit (e : TxError).

Record ExecutionResult := mk_Result {
  UsedGas : Z;
  Err : option ExecError;
  ReturnData : list Byte.byte
}.

Definition Failed (result : ExecutionResult) : bool := isSome (Err result).

Definition Return (result : ExecutionResult) : list Byte.byte :=
  match Err result with Some _ => [] | None => ReturnData result end.

Definition Revert (result : ExecutionResult) : list Byte.byte :=
  match Err result with Some (vmError ErrExecutionReverted) => ReturnData result | _ => [] end.

(** What the transition reads of the chain configuration of erigon-lib. *)
Record ChainConfig := mk_ChainConfig {
  isParlia : bool;
  isBor : bool;
  Eip1559FeeCollector : option address
}.

(** types.NanoBlackList. *)
Definition NanoBlackList : list address := [
  0x489A8756C18C0b8B24EC2a2b9FF3D4d447F79BEc%N;
  0xFd6042Df3D74ce9959922FeC559d7995F3933c55%N;
  0xdb789Eb5BDb4E559beD199B8b82dED94e1d056C9%N
].

Definition transferFeeLogSig : hash := 0x4dfe1bbbcf077ddc3e01291eea2d5c70c2b422b415d95645b9adcfd678cb1d63%N.

Section transition.
Context {U : Uint256} {S : Type} {DB : StateDB S}.
Context (CalcIntrinsicGas : Z -> Z -> AccessTuples -> bool -> bool -> bool -> bool -> Z * bool).
Context (env : Env S) (chain : ChainConfig) (evm : EvmOps S) (msg : Message).

Definition IntrinsicGas (data : list Byte.byte) (accessList : AccessTuples)
    (isContractCreation isHomestead isEIP2028 isEIP3860 : bool) : Z + TxError :=
  let dataLen := Z.of_nat (length data) in
  let dataNonZeroLen := Z.of_nat (length (filter (fun byt => byte.unsigned byt <> 0) data)) in
  let '(gas, success) :=
    CalcIntrinsicGas dataLen dataNonZeroLen accessList isContractCreation isHomestead isEIP2028 isEIP3860 in
  if negb success then inr ErrTxGasUintOverflow else inl gas.

(** The mutable fields of StateTransition.  The message's fields are copied
    into the others by NewStateTransition and never change. *)
Record StateTransition := mk_ST {
  gp : Z;
  gas : Z;
  initialGas : Z;
  st_evm : evmstate S
}.

Definition set_gp (v : Z) (st : StateTransition) : StateTransition :=
  mk_ST v (gas st) (initialGas st) (st_evm st).

Definition set_gas (v : Z) (st : StateTransition) : StateTransition :=
  mk_ST (gp st) v (initialGas st) (st_evm st).

Definition set_initialGas (v : Z) (st : StateTransition) : StateTransition :=
  mk_ST (gp st) (gas st) v (st_evm st).

Definition set_st_evm (v : evmstate S) (st : StateTransition) : StateTransition :=
  mk_ST (gp st) (gas st) (initialGas st) v.

Definition NewStateTransition (e : evmstate S) (gp : Z) : StateTransition := mk_ST gp 0 0 e.

Definition in_st {A} (m : M (evmstate S) A) : M StateTransition A := fun st =>
  '(a, e) ← m (st_evm st); Ok (a, set_st_evm e st).

Definition st_db {A} (m : M S A) : M StateTransition A := in_st (in_ibs m).

(** [if err := m; err != nil { return nil, err }] *)
Definition unless_err {A} (m : M StateTransition (option TxError))
    (k : M StateTransition (A + TxError)) : M StateTransition (A + TxError) :=
  err ← m; match err with Some e => mret (inr e) | None => k end.

(** What the sender must have to buy the gas: nothing more than a uint256. *)
Definition balanceCheck : option u256 :=
  let '(need, overflow) := MulOverflow (SetUint64 (Msg.Gas msg)) (Msg.FeeCap msg) in
  if (overflow : bool) then None
  else
    let '(need, overflow) := AddOverflow need (Msg.Value msg) in
    if (overflow : bool) then None else Some need.

(** [st.gp.SubGas]. *)
Definition subPool (amount : Z) : M StateTransition (option TxError) :=
  gp0 ← gets gp;
  match SubGas amount gp0 with
  | inl gp1 => _ ← modify (set_gp gp1); mret None
  | inr e => mret (Some e)
  end.

Definition buyGas (gasBailout : bool) : M StateTransition (option TxError) :=
  let '(mgval, overflow) := MulOverflow (SetUint64 (Msg.Gas msg)) (Msg.GasPrice msg) in
  if (overflow : bool) then mret (Some ErrInsufficientFunds)
  else
    match balanceCheck with
    | None => mret (Some ErrInsufficientFunds)
    | Some want =>
        have ← st_db (db_GetBalance (Msg.From msg));
        let subBalance := negb (Lt have want) in
        if negb subBalance && negb gasBailout then mret (Some ErrInsufficientFunds)
        else
          err ← subPool (Msg.Gas msg);
          if isSome err && negb gasBailout then mret err
          else
            _ ← modify (fun st => set_gas (u64_add (gas st) (Msg.Gas msg)) st);
            _ ← modify (set_initialGas (Msg.Gas msg));
            _ ← (if subBalance then st_db (db_SubBalance (Msg.From msg) mgval) else mret tt);
            mret None
    end.

(** The checks of the sender: its nonce, and that it is not a contract
    (EIP-3607). *)
Definition checkSender : M StateTransition (option TxError) :=
  stNonce ← st_db (db_GetNonce (Msg.From msg));
  if stNonce <? Msg.Nonce msg then mret (Some ErrNonceTooHigh)
  else if Msg.Nonce msg <? stNonce then mret (Some ErrNonceTooLow)
  else if u64_add stNonce 1 <? stNonce then mret (Some ErrNonceMax)
  else
    codeHash ← st_db (db_GetCodeHash (Msg.From msg));
    if bool_decide (codeHash <> emptyCodeHash env) && bool_decide (codeHash <> 0%N)
    then mret (Some ErrSenderNoEOA) else mret None.

(** The check of the fee cap against the base fee. *)
Definition checkFeeCap : option TxError :=
  if IsLondon (chainRules env) &&
     (negb (NoBaseFee (config env)) || negb (IsZero (Msg.FeeCap msg)) || negb (IsZero (Msg.Tip msg)))
  then CheckEip1559TxGasFeeCap (Msg.FeeCap msg) (Msg.Tip msg) (Some (BaseFee (context env))) (Msg.IsFree msg)
  else None.

Definition preCheck (gasBailout : bool) : M StateTransition (option TxError) :=
  if Msg.Nonce msg =? DepositsNonce then
    _ ← modify (set_initialGas (Msg.Gas msg));
    _ ← modify (fun st => set_gas (u64_add (gas st) (Msg.Gas msg)) st);
    mret None
  else
    err ← (if Msg.CheckNonce msg then checkSender else mret None);
    match err with
    | Some e => mret (Some e)
    | None =>
        match checkFeeCap with
        | Some e => mret (Some e)
        | None => buyGas gasBailout
        end
    end.

Definition gasUsed (st : StateTransition) : Z := u64_sub (initialGas st) (gas st).

(** [st.gp.AddGas]. *)
Definition addPool (amount : Z) : M StateTransition unit :=
  gp0 ← gets gp;
  gp1 ← deref (AddGas amount gp0);
  modify (set_gp gp1).

Definition refundGas (refundQuotient : Z) : M StateTransition unit :=
  used ← gets gasUsed;
  let refund := used / refundQuotient in
  counter ← st_db db_GetRefund;
  let refund := if counter <? refund then counter else refund in
  _ ← modify (fun st => set_gas (u64_add (gas st) refund) st);
  left_ ← gets gas;
  let remaining := Mul (SetUint64 left_) (Msg.GasPrice msg) in
  _ ← st_db (db_AddBalance (Msg.From msg) remaining);
  addPool left_.

(** [types.NanoBlackList] stops a message from or to one of its accounts. *)
Definition blacklisted : bool :=
  IsNano (chainRules env) &&
  existsb (fun a => bool_decide (a = Msg.From msg) || bool_decide (Msg.To msg = Some a)) NanoBlackList.

(** Running the message: a creation or a call. *)
Definition runMessage (bailout : bool) : M StateTransition (list Byte.byte * option EvmError) :=
  let sender := AccountRef (Msg.From msg) in
  g ← gets gas;
  match Msg.To msg with
  | None =>
      r ← in_st (Create evm sender (Msg.Data msg) g (Msg.Value msg));
      let '(ret, _, leftOver, vmerr) := r in
      _ ← modify (set_gas leftOver);
      mret (ret, vmerr)
  | Some to =>
      n ← st_db (db_GetNonce (Msg.From msg));
      _ ← st_db (db_SetNonce (Msg.From msg) (u64_add n 1));
      r ← in_st (Call evm sender to (Msg.Data msg) g (Msg.Value msg) bailout);
      let '(ret, leftOver, vmerr) := r in
      _ ← modify (set_gas leftOver);
      mret (ret, vmerr)
  end.

(** Paying the block producer and the fee collector; the amount paid to the
    producer. *)
Definition payFees : M StateTransition u256 :=
  let rules := chainRules env in
  let tip := effectiveTip rules (Msg.GasPrice msg) (Msg.FeeCap msg) (Msg.Tip msg) (BaseFee (context env)) in
  used ← gets gasUsed;
  let amount := Mul (SetUint64 used) tip in
  _ ← st_db (db_AddBalance (if isParlia chain then SystemAddress else Coinbase (context env)) amount);
  _ ← (if negb (Msg.IsFree msg) && IsLondon rules && IsEip1559FeeCollector rules then
         burntContractAddress ← deref (Eip1559FeeCollector chain);
         st_db (db_AddBalance burntContractAddress (Mul (SetUint64 used) (BaseFee (context env))))
       else mret tt);
  mret amount.

(** Setting up the access list. *)
Definition prepareAccessList : M StateTransition unit :=
  if IsBerlin (chainRules env) then
    _ ← st_db (db_PrepareAccessList (Msg.From msg) (Msg.To msg) (ActivePrecompiles (chainRules env))
                 (Msg.AccessList msg));
    if IsShanghai (chainRules env) then st_db (db_AddAddressToAccessList (Coinbase (context env)))
    else mret tt
  else mret tt.

(** The part of innerTransitionDb after the checks. *)
Definition execute (refunds bailout : bool) (input1 input2 : u256) : M StateTransition ExecutionResult :=
  _ ← prepareAccessList;
  r ← runMessage bailout;
  let '(ret, vmerr) := r in
  _ ← (if refunds : bool then
         refundGas (if IsLondon (chainRules env) then params.RefundQuotientEIP3529 else params.RefundQuotient)
       else mret tt);
  amount ← payFees;
  _ ← (if isBor chain then
         st_db (addTransferLog transferFeeLogSig (Msg.From msg) (Coinbase (context env)) amount
                  input1 input2 (Sub input1 amount) (Add input2 amount))
       else mret tt);
  used ← gets gasUsed;
  mret (mk_Result used (vmError <$> vmerr) ret).

(** Clauses 4 and 5, and the bailout of a value transfer that is not
    covered. *)
Definition payIntrinsicGas : M StateTransition (option TxError) :=
  let rules := chainRules env in
  match IntrinsicGas (Msg.Data msg) (Msg.AccessList msg) (bool_decide (Msg.To msg = None))
          (IsHomestead rules) (IsIstanbul rules) (HasEip3860 env) with
  | inr e => mret (Some e)
  | inl need =>
      g ← gets gas;
      if g <? need then mret (Some ErrIntrinsicGas)
      else _ ← modify (set_gas (u64_sub g need)); mret None
  end.

Definition valueBailout (gasBailout : bool) : M StateTransition bool :=
  if gasBailout && negb (IsZero (Msg.Value msg)) then
    ok ← st_db (CanTransfer (context env) (Msg.From msg) (Msg.Value msg)); mret (negb ok)
  else mret false.

(** innerTransitionDb from the checks of the accounts on. *)
Definition runChecked (refunds gasBailout : bool) (input1 input2 : u256)
    : M StateTransition (ExecutionResult + TxError) :=
  if blacklisted then mret (inr ErrBlacklistAccount)
  else
    unless_err payIntrinsicGas (
      bailout ← valueBailout gasBailout;
      if HasEip3860 env && bool_decide (Msg.To msg = None) &&
         (params.MaxInitCodeSize <? Z.of_nat (length (Msg.Data msg)))
      then mret (inr ErrMaxInitCodeSizeExceeded)
      else r ← execute refunds bailout input1 input2; mret (inl r)).

Definition innerTransitionDb (refunds gasBailout : bool) : M StateTransition (ExecutionResult + TxError) :=
  input1 ← (if isBor chain then st_db (db_GetBalance (Msg.From msg)) else mret Clear);
  input2 ← (if isBor chain then st_db (db_GetBalance (Coinbase (context env))) else mret Clear);
  let gasBailout := isParlia chain || gasBailout in
  unless_err (preCheck gasBailout) (runChecked refunds gasBailout input1 input2).

Definition TransitionDb (refunds gasBailout : bool) : M StateTransition (ExecutionResult + TxError) :=
  _ ← st_db (db_AddBalance (Msg.From msg) (Msg.Mint msg));
  snap ← st_db db_Snapshot;
  r ← innerTransitionDb refunds gasBailout;
  match r with
  | inl result => mret (inl result)
  | inr err =>
      if bool_decide (err <> ErrGasLimitReached) && (Msg.Nonce msg =? DepositsNonce) then
        _ ← st_db (db_RevertToSnapshot snap);
        n ← st_db (db_GetNonce (Msg.From msg));
        _ ← st_db (db_SetNonce (Msg.From msg) (u64_add n 1));
        let used := if Msg.IsSystemTx msg then 0 else Msg.Gas msg in
        mret (inl (mk_Result used (Some (failedDeposit err)) []))
      else mret (inr err)
  end.
End transition.
Arguments StateTransition : clear implicits.
Arguments mk_ST {S}.
Arguments gp {S}.
Arguments gas {S}.
Arguments initialGas {S}.
Arguments st_evm {S}.
Arguments NewStateTransition {S}.
Arguments gasUsed {S}.

(** ApplyMessage runs the transition from a fresh StateTransition and
    returns with the EVM state and the gas pool. *)
Definition ApplyMessage {U : Uint256} {S : Type} {DB : StateDB S}
    (CalcIntrinsicGas : Z -> Z -> AccessTuples -> bool -> bool -> bool -> bool -> Z * bool)
    (env : Env S) (chain : ChainConfig) (evm : EvmOps S) (msg : Message) (refunds gasBailout : bool)
    (e : evmstate S) (pool : Z) : outcome ((ExecutionResult + TxError) * StateTransition S) :=
  TransitionDb CalcIntrinsicGas env chain evm msg refunds gasBailout (NewStateTransition e pool).
