(* ===== verification/TransitionSpec.v ===== *)
(** What a state transition does to the gas pool, the gas and the world:
    the checks before execution, the gas accounting of ordinary messages and
    of deposits, and the inclusion of failed deposits. *)
From S2P Require Import Prelude Uint256 StateTypes OpCodes Machine Precompiles Contract EvmTypes Instructions Interpreter EvmLogic EvmInstr EvmTheorems Transaction StateTransition.
#[local] Open Scope Z_scope.

(** * The gas pool *)
Lemma AddGas_spec amount gp : is_u64 amount -> is_u64 gp ->
  AddGas amount gp = if gp + amount <? 2 ^ 64 then Some (gp + amount) else None.
Proof.
  unfold is_u64, AddGas, MaxUint64. intros Ha Hg. rewrite u64_sub_small by (unfold is_u64; lia).
  destruct (Z.ltb_spec (2 ^ 64 - 1 - amount) gp), (Z.ltb_spec (gp + amount) (2 ^ 64)); try lia; [done|].
  by rewrite u64_add_small by (unfold is_u64; lia).
Qed.

Lemma SubGas_spec amount gp : is_u64 amount -> is_u64 gp ->
  SubGas amount gp = if amount <=? gp then inl (gp - amount) else inr ErrGasLimitReached.
Proof.
  unfold is_u64, SubGas. intros Ha Hg.
  destruct (Z.ltb_spec gp amount), (Z.leb_spec amount gp); try lia; [done|].
  by rewrite u64_sub_small by (unfold is_u64; lia).
Qed.

Section spec.
Context {U : Uint256} {US : Uint256Spec U} {S : Type} {DB : StateDB S}.
Context (CalcIntrinsicGas : Z -> Z -> AccessTuples -> bool -> bool -> bool -> bool -> Z * bool).
Context (env : Env S) (chain : ChainConfig) (evm : EvmOps S) (msg : Message).
Context (Pan : Prop) (I : S -> Prop) (R Rw : S -> S -> Prop).
Context (codeOf : hash -> list Byte.byte) (codeAt : S -> address -> list Byte.byte).
Context (laws : DBLaws (context env) Pan I R Rw codeOf codeAt).
Context (Hevm : ops_ok Pan I R Rw codeOf 0 evm).

(** What the transition is given: the fields of the message are of their Go
    types, and the price of erigon-lib is a uint64. *)
Record msg_ok : Prop := {
  mo_gas : is_u64 (Msg.Gas msg);
  mo_data : Pan \/ Z.of_nat (length (Msg.Data msg)) < 2 ^ 63;
  mo_intrinsic n k l c h i e : is_u64 (CalcIntrinsicGas n k l c h i e).1
}.
Context (Hmsg : msg_ok).

Implicit Types (st : StateTransition S).

(** Between the calls into the EVM. *)
Definition good st : Prop := idle Pan I codeOf (st_evm st) /\ readOnly (st_evm st) = false.

Abbreviation world st := (ibs (st_evm st)).

(** Only the database moved, along [X]. *)
Record kept (X : S -> S -> Prop) st st' : Prop := {
  kept_gp : gp st' = gp st;
  kept_gas : gas st' = gas st;
  kept_initialGas : initialGas st' = initialGas st;
  kept_good : good st';
  kept_world : X (world st) (world st')
}.

Lemma kept_refl st : good st -> kept R st st.
Proof. intros. split; try done. apply (R_refl _ _ _ _ _ _ _ laws). Qed.

Lemma kept_trans X st1 st2 st3 : (forall s1 s2 s3, X s1 s2 -> X s2 s3 -> X s1 s3) ->
  kept X st1 st2 -> kept X st2 st3 -> kept X st1 st3.
Proof. intros Ht [] []. split; try congruence; eauto. Qed.

Lemma kept_R_trans st1 st2 st3 : kept R st1 st2 -> kept R st2 st3 -> kept R st1 st3.
Proof. apply kept_trans, (R_trans _ _ _ _ _ _ _ laws). Qed.

Lemma kept_Rw_trans st1 st2 st3 : kept Rw st1 st2 -> kept Rw st2 st3 -> kept Rw st1 st3.
Proof. apply kept_trans, (Rw_trans _ _ _ _ _ _ _ laws). Qed.

Lemma kept_Rw st st' : kept R st st' -> kept Rw st st'.
Proof. intros []. split; try done. by apply (R_Rw _ _ _ _ _ _ _ laws). Qed.

(** * Rules for the transition's monad *)
Lemma wp_in_st {A} (m : M (evmstate S) A) st (Q : A -> StateTransition S -> Prop) :
  wp Pan m (st_evm st) (fun a e => Q a (set_st_evm e st)) -> wp Pan (in_st m) st Q.
Proof. unfold wp, in_st. by destruct (m (st_evm st)) as [[a e]| | |]. Qed.

Lemma wp_st_db {A} (m : M S A) st (Q : A -> StateTransition S -> Prop) :
  wp Pan m (world st) (fun a s => Q a (set_st_evm (set_ibs s (st_evm st)) st)) ->
  wp Pan (st_db m) st Q.
Proof. intros H. by apply wp_in_st, wp_in_ibs. Qed.

Lemma kept_set_ibs X st s : good st -> I s -> X (world st) s ->
  kept X st (set_st_evm (set_ibs s (st_evm st)) st).
Proof. by intros [[] Hro] HI HX. Qed.

Lemma wp_st_keeps {A} X (m : M S A) st (Q : A -> StateTransition S -> Prop) :
  good st -> keeps Pan I X m -> (forall a st', kept X st st' -> Q a st') -> wp Pan (st_db m) st Q.
Proof.
  intros Hg Hm HQ. apply wp_st_db. eapply wp_mono; [apply Hm, Hg|]. intros a s [HI HX].
  by apply HQ, kept_set_ibs.
Qed.

Lemma wp_unless {A} m (k : M (StateTransition S) (A + TxError)) st (Q : A + TxError -> StateTransition S -> Prop) :
  wp Pan m st (fun err st' => match err with Some e => Q (inr e) st' | None => wp Pan k st' Q end) ->
  wp Pan (unless_err m k) st Q.
Proof. intros H. apply wp_bind. eapply wp_mono; [exact H|]. by intros [e|] st'. Qed.

(** * Buying gas *)

(** The sender can pay for all of the gas at the fee cap, and for the value. *)
Definition can_pay (s : S) : Prop :=
  exists s1 have s2, R s s1 /\ db_GetBalance (Msg.From msg) s1 = Ok (have, s2) /\
    Msg.Gas msg * to_Z (Msg.FeeCap msg) + to_Z (Msg.Value msg) <= to_Z have.

(** The gas has been bought. *)
Record bought st st' : Prop := {
  b_pool : Msg.Gas msg <= gp st;
  b_gp : gp st' = gp st - Msg.Gas msg;
  b_gas : gas st' = u64_add (gas st) (Msg.Gas msg);
  b_initialGas : initialGas st' = Msg.Gas msg;
  b_good : good st';
  b_world : Rw (world st) (world st')
}.

Lemma balanceCheck_spec want : balanceCheck msg = Some want ->
  to_Z want = Msg.Gas msg * to_Z (Msg.FeeCap msg) + to_Z (Msg.Value msg) /\
  Msg.Gas msg * to_Z (Msg.FeeCap msg) < two256.
Proof using US Hmsg.
  destruct Hmsg as [Hg _ _]. unfold balanceCheck. rewrite MulOverflow_spec, to_Z_SetUint64 by done.
  destruct (Z.leb_spec two256 (Msg.Gas msg * to_Z (Msg.FeeCap msg))) as [|H1]; [done|].
  assert (to_Z (Mul (SetUint64 (Msg.Gas msg)) (Msg.FeeCap msg)) = Msg.Gas msg * to_Z (Msg.FeeCap msg)) as Hm.
  { pose proof (to_Z_range (Msg.FeeCap msg)). rewrite to_Z_Mul, to_Z_SetUint64 by done. apply Z.mod_small.
    unfold is_u64 in Hg. split; [|done]. apply Z.mul_nonneg_nonneg; lia. }
  rewrite AddOverflow_spec, Hm.
  destruct (Z.leb_spec two256 (Msg.Gas msg * to_Z (Msg.FeeCap msg) + to_Z (Msg.Value msg))); [done|].
  intros [= <-]. split; [|done]. rewrite to_Z_Add, Hm. pose proof (to_Z_range (Msg.Value msg)).
  pose proof (to_Z_range (Mul (SetUint64 (Msg.Gas msg)) (Msg.FeeCap msg))). apply Z.mod_small. lia.
Qed.

Lemma subPool_spec st : is_u64 (gp st) ->
  wp Pan (subPool (Msg.Gas msg)) st (fun err st' =>
    if Msg.Gas msg <=? gp st then err = None /\ st' = set_gp (gp st - Msg.Gas msg) st
    else err = Some ErrGasLimitReached /\ st' = st).
Proof using Hmsg.
  intros Hp. unfold subPool. apply wp_bind, wp_gets. rewrite SubGas_spec by (done || apply Hmsg).
  by destruct (Msg.Gas msg <=? gp st).
Qed.

Lemma wp_run {A} X (m : M S A) st (Q : A -> StateTransition S -> Prop) : good st ->
  keeps Pan I X m ->
  (forall a s', m (world st) = Ok (a, s') -> kept X st (set_st_evm (set_ibs s' (st_evm st)) st) ->
     Q a (set_st_evm (set_ibs s' (st_evm st)) st)) ->
  wp Pan (st_db m) st Q.
Proof.
  intros Hg Hm HQ. apply wp_st_db. specialize (Hm _ (idle_I _ _ _ _ (proj1 Hg))). unfold wp in *.
  destruct (m (world st)) as [[a s]| | |]; try done. destruct Hm. by apply HQ, kept_set_ibs.
Qed.

Lemma buyGas_spec st : good st -> is_u64 (gp st) ->
  wp Pan (buyGas msg false) st (fun err st' =>
    match err with
    | Some _ => kept R st st'
    | None => bought st st' /\ can_pay (world st) /\ is_Some (balanceCheck msg)
    end).
Proof using US laws Hmsg.
  intros Hg Hp. unfold buyGas. rewrite MulOverflow_spec.
  case_match; [apply wp_ret; by apply kept_refl|].
  destruct (balanceCheck msg) as [want|] eqn:Ew; [|apply wp_ret; by apply kept_refl].
  apply balanceCheck_spec in Ew as [Ew _]. apply wp_bind.
  apply (wp_run R); [done|apply (law_GetBalance _ _ _ _ _ _ _ laws)|]. intros have s1 Eh Hk. cbn.
  rewrite negb_involutive, andb_true_r. destruct (Lt have want) eqn:El; [by apply wp_ret|].
  rewrite Lt_spec, Z.ltb_ge in El. apply wp_bind. eapply wp_mono; [by apply subPool_spec|].
  cbn. destruct (Z.leb_spec (Msg.Gas msg) (gp st)) as [Hle|]; intros err st2 [-> ->]; [|by apply wp_ret].
  cbn. do 2 apply wp_bind, wp_modify. apply wp_bind.
  eapply wp_st_keeps; [split; apply Hk|apply (law_SubBalance _ _ _ _ _ _ _ laws)|]. intros _ st3 [] .
  apply wp_ret. split_and!; [|exists (world st), have, s1; split_and!|by eexists].
  - split; try done. eapply (Rw_trans _ _ _ _ _ _ _ laws); [|done].
    apply (R_Rw _ _ _ _ _ _ _ laws), Hk.
  - apply (R_refl _ _ _ _ _ _ _ laws).
  - done.
  - by rewrite <- Ew.
Qed.

(** * The checks *)

(** The sender has the nonce of the message, and no code. *)
Definition sender_ok (s : S) : Prop :=
  exists s1 s2 h s3, R s s1 /\ db_GetNonce (Msg.From msg) s1 = Ok (Msg.Nonce msg, s2) /\
    db_GetCodeHash (Msg.From msg) s2 = Ok (h, s3) /\ (h = emptyCodeHash env \/ h = 0%N).

Lemma keeps_GetCodeHash a : keeps Pan I R (db_GetCodeHash a).
Proof using laws.
  intros s Hs. eapply wp_mono; [by apply (law_GetCodeHash _ _ _ _ _ _ _ laws)|]. by intros ? ? (? & ? & _).
Qed.

Lemma checkSender_spec st : good st ->
  wp Pan (checkSender env msg) st (fun err st' => kept R st st' /\ (err = None -> sender_ok (world st))).
Proof using laws.
  intros Hg. unfold checkSender. apply wp_bind.
  apply (wp_run R); [done|apply (law_GetNonce _ _ _ _ _ _ _ laws)|]. intros n s1 En Hk1.
  destruct (Z.ltb_spec n (Msg.Nonce msg)); [by apply wp_ret|].
  destruct (Z.ltb_spec (Msg.Nonce msg) n); [by apply wp_ret|]. assert (n = Msg.Nonce msg) as -> by lia.
  case_match; [by apply wp_ret|]. apply wp_bind.
  apply (wp_run R); [apply Hk1|apply keeps_GetCodeHash|]. intros h s2 Eh Hk2.
  assert (kept R st (set_st_evm (set_ibs s2 (st_evm st)) st)) as Hk.
  { eapply kept_R_trans; [exact Hk1|exact Hk2]. }
  case_match eqn:E; (apply wp_ret; split; [exact Hk|]); [done|]. intros _.
  exists (world st), s1, h, s2. split_and!; [apply (R_refl _ _ _ _ _ _ _ laws)|done|done|].
  apply andb_false_iff in E as [E|E]; apply bool_decide_eq_false_1, dec_stable in E; auto.
Qed.

(** The fee cap covers the tip and, unless the message is free, the base
    fee; an eth_call without fees may skip this. *)
Definition fees_ok : Prop :=
  IsLondon (chainRules env) = true ->
  NoBaseFee (config env) = false \/ to_Z (Msg.FeeCap msg) <> 0 \/ to_Z (Msg.Tip msg) <> 0 ->
  to_Z (Msg.Tip msg) <= to_Z (Msg.FeeCap msg) /\
  (Msg.IsFree msg = false -> to_Z (BaseFee (context env)) <= to_Z (Msg.FeeCap msg)).

Lemma CheckEip1559_spec cap tip baseFee isFree :
  CheckEip1559TxGasFeeCap cap tip (Some baseFee) isFree = None <->
  to_Z tip <= to_Z cap /\ (isFree = false -> to_Z baseFee <= to_Z cap).
Proof using US.
  unfold CheckEip1559TxGasFeeCap. rewrite !Lt_spec.
  destruct (Z.ltb_spec (to_Z cap) (to_Z tip)); [split; [done|lia]|].
  destruct (Z.ltb_spec (to_Z cap) (to_Z baseFee)), isFree; cbn; split; try done; intros; try lia.
Qed.

Lemma checkFeeCap_spec : checkFeeCap env msg = None -> fees_ok.
Proof using US.
  unfold checkFeeCap, fees_ok. rewrite !IsZero_spec. intros H Hl Hz. rewrite Hl in H. cbn in H.
  rewrite <- CheckEip1559_spec. revert H.
  destruct (NoBaseFee (config env)), (Z.eqb_spec (to_Z (Msg.FeeCap msg)) 0), (Z.eqb_spec (to_Z (Msg.Tip msg)) 0);
    cbn; try done. destruct Hz as [?|[?|?]]; done.
Qed.

(** A message that passes the checks. *)
Record admitted st st' : Prop := {
  ad_bought : bought st st';
  ad_sender : Msg.CheckNonce msg = true -> sender_ok (world st);
  ad_fees : fees_ok;
  ad_funds : exists s, R (world st) s /\ can_pay s;
  ad_check : is_Some (balanceCheck msg)
}.

Lemma preCheck_ordinary st : good st -> is_u64 (gp st) -> Msg.Nonce msg <> DepositsNonce ->
  wp Pan (preCheck env msg false) st (fun err st' =>
    match err with Some _ => kept R st st' | None => admitted st st' end).
Proof using US laws Hmsg.
  intros Hg Hp Hn. unfold preCheck. destruct (Z.eqb_spec (Msg.Nonce msg) DepositsNonce); [done|].
  apply wp_bind. eapply (wp_mono _ _ (fun err st' => kept R st st' /\
    (err = None -> Msg.CheckNonce msg = true -> sender_ok (world st)))).
  { destruct (Msg.CheckNonce msg).
    - eapply wp_mono; [by apply checkSender_spec|]. intros ? ? [? ?]. by split; auto.
    - apply wp_ret. split; [by apply kept_refl|done]. }
  intros [e|] st1 [Hk Hs]; [by apply wp_ret|]. destruct (checkFeeCap env msg) eqn:Ef; [by apply wp_ret|].
  apply checkFeeCap_spec in Ef. eapply wp_mono.
  - apply buyGas_spec; [apply Hk|by rewrite (kept_gp _ _ _ Hk)].
  - intros [e|] st2; [by apply kept_R_trans|]. intros ([] & Hpay & Hbc). destruct Hk.
    split; auto; [|by exists (world st1)]. split; try congruence.
    eapply (Rw_trans _ _ _ _ _ _ _ laws); [by apply (R_Rw _ _ _ _ _ _ _ laws)|done].
Qed.

(** A deposit gets its gas for nothing. *)
Lemma preCheck_deposit b st : Msg.Nonce msg = DepositsNonce ->
  wp Pan (preCheck env msg b) st (fun err st' => err = None /\
    st' = mk_ST (gp st) (u64_add (gas st) (Msg.Gas msg)) (Msg.Gas msg) (st_evm st)).
Proof. intros Hn. unfold preCheck. by rewrite Hn. Qed.

(** * Execution *)

(** A configuration that announces a fee collector has one. *)
Context (Hchain : IsEip1559FeeCollector (chainRules env) = true -> Pan \/ is_Some (Eip1559FeeCollector chain)).

(** The message runs on what is left of the gas it started with; whatever is
    left fits into the pool. *)
Record running st : Prop := {
  run_initial : initialGas st = Msg.Gas msg;
  run_gas : 0 <= gas st <= Msg.Gas msg;
  run_gp : 0 <= gp st;
  run_fits : gp st + Msg.Gas msg < 2 ^ 64;
  run_good : good st
}.

Definition quotient : Z :=
  if IsLondon (chainRules env) then params.RefundQuotientEIP3529 else params.RefundQuotient.

(** The least that is paid of [used] gas, whatever is refunded. *)
Definition least (used : Z) : Z := used - used / quotient.

Lemma quotient_bounds : 2 <= quotient <= 5.
Proof. unfold quotient. by destruct (IsLondon _). Qed.

Lemma least_mono x y : 0 <= x <= y -> least x <= least y.
Proof.
  intros Hxy. unfold least. pose proof quotient_bounds.
  assert (y / quotient <= x / quotient + (y - x)) as Hle; [|lia].
  transitivity ((x + (y - x) * quotient) / quotient).
  - apply Z.div_le_mono; [lia|]. nia.
  - rewrite Z.div_add by lia. lia.
Qed.

Lemma least_nonneg x : 0 <= x -> 0 <= least x.
Proof. intros Hx. pose proof (least_mono 0 x) as H. unfold least in H at 1. rewrite Z.div_0_l in H; [lia|]. pose proof quotient_bounds. lia. Qed.

Lemma gasUsed_running st : running st -> gasUsed st = Msg.Gas msg - gas st.
Proof using Hmsg.
  intros []. unfold gasUsed. rewrite run_initial0. destruct Hmsg as [Hg _ _]. unfold is_u64 in *.
  apply u64_sub_small; unfold is_u64; lia.
Qed.

Lemma running_kept X st st' : running st -> kept X st st' -> running st'.
Proof. intros [] []. split; congruence. Qed.

Lemma payIntrinsicGas_spec st : running st ->
  wp Pan (payIntrinsicGas CalcIntrinsicGas env msg) st (fun err st' =>
    match err with
    | Some e => st' = st /\ e <> ErrGasLimitReached
    | None => exists need, IntrinsicGas CalcIntrinsicGas (Msg.Data msg) (Msg.AccessList msg)
          (bool_decide (Msg.To msg = None)) (IsHomestead (chainRules env)) (IsIstanbul (chainRules env))
          (HasEip3860 env) = inl need /\ 0 <= need <= gas st /\ st' = set_gas (gas st - need) st
    end).
Proof using Hmsg.
  intros []. destruct Hmsg as [Hg _ Hn]. unfold payIntrinsicGas. destruct (IntrinsicGas _ _ _ _ _ _ _) as [need|e] eqn:E.
  2: { apply wp_ret. split; [done|]. unfold IntrinsicGas in E. repeat case_match; by simplify_eq. }
  assert (is_u64 need) as Hu.
  { unfold IntrinsicGas in E. case_match eqn:Ec. case_match; [done|]. injection E as <-.
    match type of Ec with ?x = _ => replace z with x.1 by (by rewrite Ec) end. apply Hn. }
  apply wp_bind, wp_gets. destruct (Z.ltb_spec (gas st) need); [by apply wp_ret|].
  apply wp_bind, wp_modify, wp_ret. unfold is_u64 in *.
  rewrite u64_sub_small by (unfold is_u64; lia). exists need. split_and!; [done|lia|lia|done].
Qed.

Lemma valueBailout_spec b st : good st -> wp Pan (valueBailout env msg b) st (fun _ st' => kept R st st').
Proof using laws.
  intros Hg. unfold valueBailout. case_match; [|by apply wp_ret, kept_refl]. apply wp_bind.
  eapply wp_st_keeps; [done|apply (law_CanTransfer _ _ _ _ _ _ _ laws)|]. intros ok st' Hk. by apply wp_ret.
Qed.

Lemma prepareAccessList_spec st : good st -> wp Pan (prepareAccessList env msg) st (fun _ st' => kept R st st').
Proof using laws.
  intros Hg. unfold prepareAccessList. case_match; [|by apply wp_ret, kept_refl]. apply wp_bind.
  eapply wp_st_keeps; [done|apply (law_PrepareAccessList _ _ _ _ _ _ _ laws)|]. intros _ st1 Hk1.
  case_match; [|by apply wp_ret].
  eapply wp_st_keeps; [apply Hk1|apply (law_AddAddressToAccessList _ _ _ _ _ _ _ laws)|].
  intros _ st2. by apply kept_R_trans.
Qed.

(** After a run of the EVM. *)
Record ran st st' : Prop := {
  ran_gp : gp st' = gp st;
  ran_initial : initialGas st' = initialGas st;
  ran_gas : 0 <= gas st' <= gas st;
  ran_good : good st';
  ran_world : Rw (world st) (world st')
}.

Lemma ran_evm st e' g : good st -> evm_rel Pan I R Rw codeOf (st_evm st) e' -> 0 <= g <= gas st ->
  ran st (set_gas g (set_st_evm e' st)).
Proof.
  intros [Hi Hro] Hrel Hg. pose proof Hrel as []. split; try done.
  - split; [by eapply evm_rel_ready|]. cbn. congruence.
  - cbn. rewrite Hro in er_world. apply er_world.
Qed.

Lemma ran_kept X st st1 st2 : (forall s s', X s s' -> Rw s s') ->
  kept X st st1 -> ran st1 st2 -> ran st st2.
Proof.
  intros HX [] []. split; try congruence.
  eapply (Rw_trans _ _ _ _ _ _ _ laws); [by apply HX|done].
Qed.

Lemma runMessage_spec b st : running st -> wp Pan (runMessage evm msg b) st (fun _ st' => ran st st').
Proof using All.
  intros Hrun. pose proof Hrun as []. destruct Hmsg as [Hmg Hd _].
  assert (is_u64 (gas st)) as Hu by (unfold is_u64 in *; lia).
  unfold runMessage. apply wp_bind, wp_gets. destruct (Msg.To msg) as [to|].
  - apply wp_bind. eapply wp_st_keeps; [done|apply (law_GetNonce _ _ _ _ _ _ _ laws)|]. intros n st1 Hk1.
    apply wp_bind. eapply wp_st_keeps; [apply Hk1|apply (law_SetNonce _ _ _ _ _ _ _ laws)|]. intros _ st2 Hk2.
    assert (kept Rw st st2) as Hk by (eapply kept_Rw_trans; [by apply kept_Rw|done]).
    pose proof Hk as []. destruct kept_good0 as [[] Hro].
    apply wp_bind, wp_in_st. eapply wp_mono; [by apply (ops_Call _ _ _ _ _ _ _ Hevm); try done; congruence|].
    intros [[ret left_] err] e' (Hrel & Hl & _). apply wp_bind, wp_modify, wp_ret.
    eapply (ran_kept Rw); [done|done|]. apply ran_evm; [apply Hk|done|]. cbn in Hl. congruence.
  - destruct run_good0 as [[] Hro]. apply wp_bind, wp_in_st.
    eapply wp_mono; [by apply (ops_Create _ _ _ _ _ _ _ Hevm)|].
    intros [[[ret a] left_] err] e' (Hrel & Hl). apply wp_bind, wp_modify, wp_ret.
    by apply ran_evm.
Qed.

(** The gas left goes back to the pool, with at most a [quotient]'th of what
    was used. *)
Record refunded st st' : Prop := {
  rf_gp : gp st' = gp st + gas st';
  rf_initial : initialGas st' = initialGas st;
  rf_gas : gas st <= gas st' <= Msg.Gas msg;
  rf_least : least (Msg.Gas msg - gas st) <= Msg.Gas msg - gas st';
  rf_good : good st';
  rf_world : Rw (world st) (world st')
}.

Lemma refund_bounds st counter : running st -> is_u64 counter ->
  let used := Msg.Gas msg - gas st in
  let refund := if counter <? used / quotient then counter else used / quotient in
  gas st <= gas st + refund <= Msg.Gas msg /\ least used <= Msg.Gas msg - (gas st + refund).
Proof.
  intros [] Hc. cbn. pose proof quotient_bounds. unfold is_u64, least in *.
  assert (0 <= (Msg.Gas msg - gas st) / quotient <= Msg.Gas msg - gas st).
  { split; [apply Z.div_pos; lia|]. apply Z.div_le_upper_bound; nia. }
  case_match eqn:E; [apply Z.ltb_lt in E|]; lia.
Qed.

Lemma refundGas_spec st : running st -> wp Pan (refundGas msg quotient) st (fun _ st' => refunded st st').
Proof using All.
  intros Hrun. pose proof Hrun as []. pose proof (mo_gas Hmsg) as Hmg.
  unfold refundGas. apply wp_bind, wp_gets. rewrite (gasUsed_running st Hrun).
  apply wp_bind, wp_st_db. eapply wp_mono; [apply (law_GetRefund _ _ _ _ _ _ _ laws), run_good0|].
  intros counter s1 (HI & HR & Hc). pose proof (refund_bounds st counter Hrun Hc) as [Hb Hl]. cbn in Hb, Hl.
  set (refund := if counter <? _ then _ else _) in *.
  apply wp_bind, wp_modify. cbn. unfold is_u64 in Hmg.
  rewrite u64_add_small by (unfold is_u64; lia). apply wp_bind, wp_gets. cbn. apply wp_bind.
  eapply wp_st_keeps; [|apply (law_AddBalance _ _ _ _ _ _ _ laws)|].
  { destruct run_good0 as [[] Hro]. by split. }
  intros _ st3 []. unfold addPool. apply wp_bind, wp_gets. cbn in *. rewrite kept_gp0.
  rewrite AddGas_spec by (unfold is_u64; lia). destruct (Z.ltb_spec (gp st + (gas st + refund)) (2 ^ 64)); [|lia].
  apply wp_bind, wp_ret, wp_modify. split; cbn; try congruence; try lia; [done|].
  eapply (Rw_trans _ _ _ _ _ _ _ laws); [by apply (R_Rw _ _ _ _ _ _ _ laws)|done].
Qed.

Lemma payFees_spec st : good st -> wp Pan (payFees env chain msg) st (fun _ st' => kept Rw st st').
Proof using laws Hchain.
  intros Hg. unfold payFees. apply wp_bind, wp_gets, wp_bind.
  eapply wp_st_keeps; [done|apply (law_AddBalance _ _ _ _ _ _ _ laws)|]. intros _ st1 Hk1. apply wp_bind.
  eapply (wp_mono _ _ (fun _ st' => kept Rw st st')); [|intros ? ? ?; by apply wp_ret].
  destruct (negb _ && _ && _) eqn:E; [|by apply wp_ret]. apply andb_true_iff in E as [_ E].
  destruct (Eip1559FeeCollector chain) as [a|]; [|by destruct (Hchain E) as [|[]]].
  apply wp_bind, wp_ret. eapply wp_st_keeps; [apply Hk1|apply (law_AddBalance _ _ _ _ _ _ _ laws)|].
  intros _ st2. by apply kept_Rw_trans.
Qed.

Lemma borLog_spec (amount input1 input2 : u256) st : good st ->
  wp Pan (if isBor chain then
            st_db (addTransferLog transferFeeLogSig (Msg.From msg) (Coinbase (context env)) amount
                     input1 input2 (Sub input1 amount) (Add input2 amount))
          else mret tt) st (fun _ st' => kept Rw st st').
Proof using laws.
  intros Hg. destruct (isBor chain); [|by apply wp_ret, kept_Rw, kept_refl].
  unfold addTransferLog. destruct (IsZero amount).
  - by apply wp_st_db, wp_ret, kept_Rw, kept_set_ibs; [|apply Hg|apply (R_refl _ _ _ _ _ _ _ laws)].
  - eapply wp_st_keeps; [done|apply (law_AddLog _ _ _ _ _ _ _ laws)|]. auto.
Qed.

(** The outcome of an execution: what is used, and what the pool gets. *)
Record executed (refunds : bool) st (r : ExecutionResult) st' : Prop := {
  ex_used : least (Msg.Gas msg - gas st) <= UsedGas r <= Msg.Gas msg;
  ex_gp : gp st' = if refunds then gp st + (Msg.Gas msg - UsedGas r) else gp st;
  ex_err : forall e, Err r <> Some (failedDeposit e);
  ex_good : good st';
  ex_world : Rw (world st) (world st')
}.

(** The refund, when it is asked for. *)
Lemma maybe_refund_spec (refunds : bool) st : running st ->
  wp Pan (if refunds then refundGas msg quotient else mret tt) st (fun _ st' =>
    initialGas st' = initialGas st /\ 0 <= gas st' <= Msg.Gas msg /\
    gp st' = (if refunds then gp st + gas st' else gp st) /\
    least (Msg.Gas msg - gas st) <= Msg.Gas msg - gas st' /\
    good st' /\ Rw (world st) (world st')).
Proof using All.
  intros Hrun. pose proof Hrun as []. pose proof quotient_bounds. destruct refunds.
  - eapply wp_mono; [by apply refundGas_spec|]. intros _ st' []. split_and!; try done; lia.
  - apply wp_ret. split_and!; try done; try lia.
    + unfold least. assert (0 <= (Msg.Gas msg - gas st) / quotient) by (apply Z.div_pos; lia). lia.
    + apply (R_Rw _ _ _ _ _ _ _ laws), (R_refl _ _ _ _ _ _ _ laws).
Qed.

Lemma execute_spec refunds b i1 i2 st : running st ->
  wp Pan (execute env chain evm msg refunds b i1 i2) st (executed refunds st).
Proof using All.
  intros Hrun. unfold execute. fold quotient. apply wp_bind.
  eapply wp_mono; [apply prepareAccessList_spec, Hrun|]. intros [] st1 Hk1.
  pose proof (running_kept _ _ _ Hrun Hk1) as Hrun1. apply wp_bind.
  eapply wp_mono; [by apply runMessage_spec|]. intros [ret vmerr] st2 Hr2.
  pose proof (ran_kept R _ _ _ (R_Rw _ _ _ _ _ _ _ laws) Hk1 Hr2) as [].
  destruct Hrun as [Hin Hgas Hgp Hfit Hgood].
  assert (running st2) as Hrun2 by (split; try congruence; lia).
  apply wp_bind. eapply wp_mono; [by apply maybe_refund_spec|].
  intros [] st3 (Hi3 & Hg3 & Hp3 & Hl3 & Hgood3 & Hw3). apply wp_bind.
  eapply wp_mono; [by apply payFees_spec|]. intros amount st4 Hk4. apply wp_bind.
  eapply wp_mono; [apply borLog_spec, Hk4|]. intros [] st5 Hk5.
  pose proof (kept_Rw_trans _ _ _ Hk4 Hk5) as []. apply wp_bind, wp_gets, wp_ret.
  assert (gasUsed st5 = Msg.Gas msg - gas st3) as Hused.
  { unfold gasUsed. rewrite kept_initialGas0, kept_gas0, Hi3, (run_initial _ Hrun2).
    pose proof (mo_gas Hmsg) as Hu. unfold is_u64 in Hu. apply u64_sub_small; unfold is_u64; lia. }
  assert (least (Msg.Gas msg - gas st) <= least (Msg.Gas msg - gas st2)) by (apply least_mono; lia).
  split; cbn; rewrite ?Hused; [lia| |by destruct vmerr|done|].
  - rewrite kept_gp0, Hp3, ran_gp0. destruct refunds; lia.
  - do 2 (eapply (Rw_trans _ _ _ _ _ _ _ laws); [|done]). done.
Qed.

(** * The whole transition *)

(** The intrinsic gas of the message. *)
Definition intrinsic (need : Z) : Prop :=
  IntrinsicGas CalcIntrinsicGas (Msg.Data msg) (Msg.AccessList msg) (bool_decide (Msg.To msg = None))
    (IsHomestead (chainRules env)) (IsIstanbul (chainRules env)) (HasEip3860 env) = inl need.

(** A result: the gas paid is within its bounds, the rest is in the pool. *)
Record finished (refunds : bool) (pool : Z) (r : ExecutionResult) st : Prop := {
  fin_used : exists need, intrinsic need /\ 0 <= need <= Msg.Gas msg /\ least need <= UsedGas r <= Msg.Gas msg;
  fin_gp : gp st = if refunds then pool + (Msg.Gas msg - UsedGas r) else pool;
  fin_err : forall e, Err r <> Some (failedDeposit e);
  fin_allowed : blacklisted env msg = false
}.

Lemma runChecked_spec refunds b i1 i2 st : running st -> gas st = Msg.Gas msg ->
  wp Pan (runChecked CalcIntrinsicGas env chain evm msg refunds b i1 i2) st (fun r st' =>
    good st' /\ Rw (world st) (world st') /\
    match r with
    | inl res => finished refunds (gp st) res st'
    | inr e => gp st' = gp st /\ e <> ErrGasLimitReached
    end).
Proof using All.
  intros Hrun Hgas. pose proof (run_good _ Hrun) as Hg. unfold runChecked.
  assert (Rw (world st) (world st)) as Hrefl.
  { apply (R_Rw _ _ _ _ _ _ _ laws), (R_refl _ _ _ _ _ _ _ laws). }
  destruct (blacklisted env msg) eqn:Eb; [by apply wp_ret|].
  apply wp_unless. eapply wp_mono; [by apply payIntrinsicGas_spec|].
  intros [e|] st1; [by intros [-> ?]|]. intros (need & Hneed & Hb & ->).
  apply wp_bind. eapply wp_mono; [by apply valueBailout_spec|]. intros bail st2 Hk.
  pose proof (kept_Rw _ _ Hk) as []. case_match; [by apply wp_ret|]. apply wp_bind.
  assert (running st2) as Hrun2.
  { eapply running_kept; [|exact Hk]. destruct Hrun. split; cbn; try done. lia. }
  eapply wp_mono; [by apply execute_spec|]. intros r st3 []. apply wp_ret.
  split_and!; [done|by eapply (Rw_trans _ _ _ _ _ _ _ laws)|].
  cbn in kept_gas0, kept_gp0. rewrite kept_gas0, kept_gp0, Hgas in *. split; [|done|done|done].
  exists need. split_and!; [done|lia|lia| |lia].
  replace (Msg.Gas msg - (Msg.Gas msg - need)) with need in ex_used0 by lia. lia.
Qed.

(** The balances a Bor chain reads first. *)
Lemma borInput_spec a st : good st ->
  wp Pan (if isBor chain then st_db (db_GetBalance a) else mret Clear) st (fun _ st' => kept R st st').
Proof using laws.
  intros Hg. destruct (isBor chain); [|by apply wp_ret, kept_refl].
  eapply wp_st_keeps; [done|apply (law_GetBalance _ _ _ _ _ _ _ laws)|]. auto.
Qed.

Lemma running_bought st st' : is_u64 (gp st) -> gas st = 0 -> bought st st' ->
  running st' /\ gas st' = Msg.Gas msg.
Proof using Hmsg.
  intros Hp Hz []. pose proof (mo_gas Hmsg) as Hg. unfold is_u64 in *.
  rewrite Hz, u64_add_small in b_gas0 by (unfold is_u64; lia).
  split; [split|]; try done; try lia.
Qed.

(** A message that is refused or included: the pool pays for the gas used,
    and a refused message takes at most its gas limit from it. *)
Definition accounted (pool : Z) (r : ExecutionResult + TxError) st' : Prop :=
  good st' /\
  match r with
  | inl res => finished true (pool - Msg.Gas msg) res st' /\ Msg.Gas msg <= pool
  | inr _ => gp st' = pool \/ (gp st' = pool - Msg.Gas msg /\ Msg.Gas msg <= pool)
  end.

Lemma inner_ordinary st : good st -> is_u64 (gp st) -> gas st = 0 ->
  isParlia chain = false -> Msg.Nonce msg <> DepositsNonce ->
  wp Pan (innerTransitionDb CalcIntrinsicGas env chain evm msg true false) st (accounted (gp st)).
Proof using All.
  intros Hg Hp Hz Hpar Hn. unfold innerTransitionDb. rewrite Hpar. cbn [orb].
  apply wp_bind. eapply wp_mono; [by apply borInput_spec|]. intros i1 st1 Hk1.
  apply wp_bind. eapply wp_mono; [apply borInput_spec, Hk1|]. intros i2 st2 Hk2'.
  pose proof (kept_R_trans _ _ _ Hk1 Hk2') as Hk2. pose proof Hk2 as [Egp Egas _ Hg2 _].
  rewrite <- Egp in *. rewrite <- Egas in Hz.
  apply wp_unless. eapply wp_mono; [by apply preCheck_ordinary|]. intros [e|] st3.
  - intros []. split; [done|]. left. congruence.
  - intros [Hb _ _ _ _]. pose proof Hb as []. destruct (running_bought _ _ Hp Hz Hb) as [Hrun Hgas].
    eapply wp_mono; [by apply runChecked_spec|]. intros [res|e] st4 (Hg4 & _ & Hf); split; try done.
    + split; [|done]. by rewrite <- b_gp0.
    + right. split; [|done]. destruct Hf. congruence.
Qed.

Lemma minted st : good st -> forall (k : M (StateTransition S) (ExecutionResult + TxError))
    (Q : _ -> _ -> Prop),
  (forall st', kept Rw st st' -> wp Pan k st' Q) ->
  wp Pan (_ ← st_db (db_AddBalance (Msg.From msg) (Msg.Mint msg)); k) st Q.
Proof using laws.
  intros Hg k Q H. apply wp_bind. eapply wp_st_keeps; [done|apply (law_AddBalance _ _ _ _ _ _ _ laws)|].
  intros _ st'. apply H.
Qed.

Lemma keeps_Snapshot : keeps Pan I R db_Snapshot.
Proof using laws.
  intros s Hs. eapply wp_mono; [by apply (law_Snapshot _ _ _ _ _ _ _ laws)|]. by intros ? ? (? & ? & _).
Qed.

Lemma TransitionDb_ordinary st : good st -> is_u64 (gp st) -> gas st = 0 ->
  isParlia chain = false -> Msg.Nonce msg <> DepositsNonce ->
  wp Pan (TransitionDb CalcIntrinsicGas env chain evm msg true false) st (accounted (gp st)).
Proof using All.
  intros Hg Hp Hz Hpar Hn. unfold TransitionDb. apply minted; [done|]. intros st1 Hk1.
  apply wp_bind. eapply wp_st_keeps; [apply Hk1|apply keeps_Snapshot|]. intros snap st2 Hk2.
  pose proof (kept_Rw_trans _ _ _ Hk1 (kept_Rw _ _ Hk2)) as [Egp Egas _ Hg2 _].
  apply wp_bind. rewrite <- Egp in *. rewrite <- Egas in Hz.
  eapply wp_mono; [by apply inner_ordinary|]. intros [res|e] st3 Ha; [by apply wp_ret|].
  destruct (Z.eqb_spec (Msg.Nonce msg) DepositsNonce); [done|]. rewrite andb_false_r. by apply wp_ret.
Qed.

(** * Deposits *)

Lemma inner_deposit refunds b st : good st -> 0 <= gp st -> gp st + Msg.Gas msg < 2 ^ 64 -> gas st = 0 ->
  Msg.Nonce msg = DepositsNonce ->
  wp Pan (innerTransitionDb CalcIntrinsicGas env chain evm msg refunds b) st (fun r st' =>
    good st' /\ Rw (world st) (world st') /\
    match r with
    | inl res => finished refunds (gp st) res st'
    | inr e => gp st' = gp st /\ e <> ErrGasLimitReached
    end).
Proof using All.
  intros Hg Hp Hfit Hz Hn. unfold innerTransitionDb.
  apply wp_bind. eapply wp_mono; [by apply borInput_spec|]. intros i1 st1 Hk1.
  apply wp_bind. eapply wp_mono; [apply borInput_spec, Hk1|]. intros i2 st2 Hk2'.
  pose proof (kept_Rw _ _ (kept_R_trans _ _ _ Hk1 Hk2')) as [Egp Egas _ Hg2 HRw].
  apply wp_unless. eapply wp_mono; [by apply preCheck_deposit|]. intros err st3 [-> ->].
  pose proof (mo_gas Hmsg) as Hmg. unfold is_u64 in Hmg.
  rewrite Egas, Egp, Hz, u64_add_small by (unfold is_u64; lia).
  eapply wp_mono; [apply runChecked_spec; [split; cbn; try done; lia|done]|].
  intros r st4 (Hg4 & Hw4 & Hr). split_and!; [done| |done].
  by eapply (Rw_trans _ _ _ _ _ _ _ laws).
Qed.

(** A failed deposit is included all the same: the world is the one after
    the mint, with the sender's nonce incremented. *)
Record deposit_failed st (r : ExecutionResult) st' : Prop := {
  df_err : exists e, Err r = Some (failedDeposit e);
  df_used : UsedGas r = if Msg.IsSystemTx msg then 0 else Msg.Gas msg;
  df_data : ReturnData r = [];
  df_gp : gp st' = gp st;
  df_world : exists s1 s2 n s3,
    db_AddBalance (Msg.From msg) (Msg.Mint msg) (world st) = Ok (tt, s1) /\ R s1 s2 /\
    db_GetNonce (Msg.From msg) s2 = Ok (n, s3) /\
    db_SetNonce (Msg.From msg) (u64_add n 1) s3 = Ok (tt, world st')
}.

(** The law of snapshots, for the transition. *)
Lemma wp_Snapshot st (Q : nat -> StateTransition S -> Prop) : good st ->
  (forall id st', kept R st st' ->
     (forall s, I s -> Rw (world st') s ->
        wp Pan (db_RevertToSnapshot id) s (fun _ s' => I s' /\ R (world st) s')) -> Q id st') ->
  wp Pan (st_db db_Snapshot) st Q.
Proof using laws.
  intros Hg HQ. apply wp_st_db. eapply wp_mono; [apply (law_Snapshot _ _ _ _ _ _ _ laws), Hg|].
  intros id s (HI & HR & Hrev). apply HQ; [by apply kept_set_ibs|exact Hrev].
Qed.

(** The end of a failed deposit. *)
Lemma deposit_end st1 st id e : good st ->
  wp Pan (db_RevertToSnapshot id) (world st) (fun _ s' => I s' /\ R (world st1) s') ->
  wp Pan (_ ← st_db (db_RevertToSnapshot id);
          n ← st_db (db_GetNonce (Msg.From msg));
          _ ← st_db (db_SetNonce (Msg.From msg) (u64_add n 1));
          mret (inl (mk_Result (if Msg.IsSystemTx msg then 0 else Msg.Gas msg) (Some (failedDeposit e)) [])))
    st (fun r st' => good st' /\ gp st' = gp st /\
      r = (inl (mk_Result (if Msg.IsSystemTx msg then 0 else Msg.Gas msg) (Some (failedDeposit e)) [])
            : ExecutionResult + TxError) /\
      exists s2 n s3, R (world st1) s2 /\ db_GetNonce (Msg.From msg) s2 = Ok (n, s3) /\
        db_SetNonce (Msg.From msg) (u64_add n 1) s3 = Ok (tt, world st')).
Proof using laws.
  intros Hg Hrev. apply wp_bind, wp_st_db. eapply wp_mono; [exact Hrev|]. intros [] s2 [HI2 HR2].
  pose proof (kept_set_ibs (fun _ _ => True) st s2 Hg HI2 Logic.I) as [].
  set (st2 := set_st_evm (set_ibs s2 (st_evm st)) st) in *. apply wp_bind.
  apply (wp_run R); [done|apply (law_GetNonce _ _ _ _ _ _ _ laws)|]. intros n s3 En Hk3. apply wp_bind, wp_st_db.
  assert (wp Pan (db_SetNonce (Msg.From msg) (u64_add n 1)) s3 (fun _ s' => I s' /\ Rw s3 s')) as Hset.
  { apply (law_SetNonce _ _ _ _ _ _ _ laws), Hk3. }
  unfold wp in *. cbn. destruct (db_SetNonce _ _ s3) as [[[] s4]| | |] eqn:Es; try done. destruct Hset as [HI4 HR4].
  split_and!; [|done|done|by exists s2, n, s3].
  destruct kept_good0 as [[] Hro]. by split; [split|].
Qed.

Lemma TransitionDb_deposit refunds b st : good st -> 0 <= gp st -> gp st + Msg.Gas msg < 2 ^ 64 ->
  gas st = 0 -> Msg.Nonce msg = DepositsNonce ->
  wp Pan (TransitionDb CalcIntrinsicGas env chain evm msg refunds b) st (fun r st' =>
    good st' /\ exists res, r = inl res /\ (finished refunds (gp st) res st' \/ deposit_failed st res st')).
Proof using All.
  intros Hg Hp Hfit Hz Hn. unfold TransitionDb. apply wp_bind.
  apply (wp_run Rw); [done|apply (law_AddBalance _ _ _ _ _ _ _ laws)|]. intros [] s1 Em Hk1.
  set (st1 := set_st_evm (set_ibs s1 (st_evm st)) st) in *.
  apply wp_bind. apply wp_Snapshot; [apply Hk1|]. intros id st2 Hk2 Hrev.
  pose proof Hk1 as [E1 E2 _ _ _]. pose proof Hk2 as [E3 E4 _ Hg2 _].
  apply wp_bind. eapply wp_mono; [apply inner_deposit; try done; congruence|].
  intros [res|e] st3 (Hg3 & Hw3 & Hr).
  - apply wp_ret. split; [done|]. exists res. split; [done|]. left. by rewrite <- E1, <- E3.
  - destruct Hr as [Egp He]. rewrite bool_decide_eq_true_2 by done. rewrite Hn. cbn [andb Z.eqb].
    rewrite Z.eqb_refl. eapply wp_mono; [apply (deposit_end st1); [done|apply Hrev; [apply Hg3|done]]|].
    intros r st4 (Hg4 & Egp4 & -> & s2 & n & s3 & H1 & H2 & H3). split; [done|].
    eexists. split; [done|]. right. split; [by eexists|done|done|congruence|].
    exists s1, s2, n, s3. done.
Qed.
End spec.
