(* ===== verification/TransitionTheorems.v ===== *)
(** The guarantees of a state transition over the EVM of Interpreter, stated
    without the program logic, and runs of it on the reference database. *)
From S2P Require Import Prelude Uint256 StateTypes OpCodes Machine Precompiles Contract EvmTypes Instructions Interpreter EvmLogic EvmInstr EvmTheorems EvmExamples Transaction StateTransition TransitionSpec.
#[local] Open Scope Z_scope.

Section theorems.
Context {U : Uint256} {US : Uint256Spec U} {L : LibMath} {LS : LibMathSpec L}.
Context {S : Type} {DB : StateDB S} (env : Env S).
Context (Pan : Prop) (I : S -> Prop) (R Rw : S -> S -> Prop).
Context (codeOf : hash -> list Byte.byte) (codeAt : S -> address -> list Byte.byte).
Context (CalcIntrinsicGas : Z -> Z -> AccessTuples -> bool -> bool -> bool -> bool -> Z * bool).

(** What a transition is started with. *)
Record setting (chain : ChainConfig) (msg : Message) (evm : EvmOps S) (e : evmstate S) : Prop := {
  set_env : evm_env env Pan I R Rw codeOf codeAt;
  set_evm_of : evm_of env = Some evm;
  set_msg : msg_ok CalcIntrinsicGas msg Pan;
  set_chain : IsEip1559FeeCollector (chainRules env) = true -> Pan \/ is_Some (Eip1559FeeCollector chain);
  set_idle : idle Pan I codeOf e;
  set_readOnly : readOnly e = false
}.

(** C3: the gas of an ordinary message.  Applying it always comes to an end,
    panics only if the database does, and never runs out of the pool: an
    included message uses at most its gas limit and at least its intrinsic
    gas less the largest refund (a half, or a fifth after London), and the
    pool of the block pays for exactly what was used; a refused message has
    taken at most its gas limit from the pool. *)
Theorem ApplyMessage_gas chain msg evm e pool :
  setting chain msg evm e -> is_u64 pool -> isParlia chain = false -> Msg.Nonce msg <> DepositsNonce ->
  match ApplyMessage CalcIntrinsicGas env chain evm msg true false e pool with
  | Ok (inl res, st) =>
      (exists need, intrinsic CalcIntrinsicGas env msg need /\
         need - need / (if IsLondon (chainRules env) then 5 else 2) <= UsedGas res) /\
      UsedGas res <= Msg.Gas msg <= pool /\ gp st = pool - UsedGas res
  | Ok (inr _, st) => pool - Msg.Gas msg <= gp st <= pool
  | Panic | Deadlock => Pan
  | OutOfFuel => False
  end.
Proof.
  intros [] Hp Hpar Hn. pose proof (evm_of_ops _ _ _ _ _ _ _ set_env0 _ set_evm_of0) as Hops.
  pose proof (mo_gas _ _ _ set_msg0) as Hg. unfold is_u64 in Hg.
  assert (wp Pan (TransitionDb CalcIntrinsicGas env chain evm msg true false) (NewStateTransition e pool)
    (accounted CalcIntrinsicGas env msg Pan I codeOf pool)) as H.
  { eapply (TransitionDb_ordinary _ _ _ _ _ _ _ R Rw _ codeAt); try done. apply set_env0. }
  unfold ApplyMessage. unfold wp in H. destruct (TransitionDb _ _ _ _ _ _ _ _) as [[[res|err] st]| | |]; try done.
  - destruct H as (_ & [(need & Hi & Hle & Hb) Hgp _ _] & Hpool). split_and!; try lia.
    exists need. split; [done|]. unfold least, quotient, params.RefundQuotient, params.RefundQuotientEIP3529 in Hb. destruct (IsLondon _); lia.
  - destruct H as [_ [->|[-> ?]]]; lia.
Qed.

(** C33: a deposit (a message with the reserved nonce) is always included.
    If the checks after the mint refuse it, the world is put back to what it
    was after the mint, with the sender's nonce incremented, and all of its
    gas counts as used (none, for a system transaction).  Otherwise the pool,
    from which nothing was taken, is given the gas the deposit did not use:
    it grows. *)
Theorem ApplyMessage_deposit chain msg evm e pool refunds bailout :
  setting chain msg evm e -> 0 <= pool -> pool + Msg.Gas msg < 2 ^ 64 -> Msg.Nonce msg = DepositsNonce ->
  match ApplyMessage CalcIntrinsicGas env chain evm msg refunds bailout e pool with
  | Ok (inl res, st) =>
      match Err res with
      | Some (failedDeposit _) =>
          UsedGas res = (if Msg.IsSystemTx msg then 0 else Msg.Gas msg) /\ gp st = pool /\
          exists s1 s2 n s3, db_AddBalance (Msg.From msg) (Msg.Mint msg) (ibs e) = Ok (tt, s1) /\
            R s1 s2 /\ db_GetNonce (Msg.From msg) s2 = Ok (n, s3) /\
            db_SetNonce (Msg.From msg) (u64_add n 1) s3 = Ok (tt, ibs (st_evm st))
      | _ =>
          UsedGas res <= Msg.Gas msg /\
          gp st = if refunds then pool + (Msg.Gas msg - UsedGas res) else pool
      end
  | Ok (inr _, _) => False
  | Panic | Deadlock => Pan
  | OutOfFuel => False
  end.
Proof.
  intros [] Hp Hfit Hn. pose proof (evm_of_ops _ _ _ _ _ _ _ set_env0 _ set_evm_of0) as Hops.
  assert (wp Pan (TransitionDb CalcIntrinsicGas env chain evm msg refunds bailout) (NewStateTransition e pool)
    (fun r st' => good Pan I codeOf st' /\ exists res, r = inl res /\
       (finished CalcIntrinsicGas env msg refunds pool res st' \/
        deposit_failed msg R (NewStateTransition e pool) res st'))) as H.
  { eapply (TransitionDb_deposit _ _ _ _ _ _ _ R Rw _ codeAt); try done. apply set_env0. }
  unfold ApplyMessage. unfold wp in H. destruct (TransitionDb _ _ _ _ _ _ _ _) as [[r st]| | |]; try done.
  destruct H as (_ & res & -> & [[(need & _ & _ & Hb) Hgp Herr _]|[[err Herr] Hu _ Hgp Hw]]).
  - destruct (Err res) as [[err|err]|] eqn:E; [split; [lia|done]|by destruct (Herr err)|split; [lia|done]].
  - rewrite Herr. split_and!; done.
Qed.

(** The checks before execution, for an ordinary message.  A message that
    is refused has changed neither the world nor the gas pool.  One that is
    admitted comes from an account with its nonce and without code, has a fee
    cap above its tip and above the base fee, and its sender has the whole
    gas limit at the fee cap plus the value; exactly its gas limit has been
    taken from the pool. *)
Theorem preCheck_admits msg (st : StateTransition S) :
  evm_env env Pan I R Rw codeOf codeAt -> msg_ok CalcIntrinsicGas msg Pan ->
  good Pan I codeOf st -> is_u64 (gp st) -> Msg.Nonce msg <> DepositsNonce ->
  wp Pan (preCheck env msg false) st (fun err st' =>
    match err with
    | Some _ => R (ibs (st_evm st)) (ibs (st_evm st')) /\ gp st' = gp st /\ gas st' = gas st
    | None =>
        (Msg.CheckNonce msg = true -> sender_ok env msg R (ibs (st_evm st))) /\
        fees_ok env msg /\ (exists s, R (ibs (st_evm st)) s /\ can_pay msg R s) /\
        Msg.Gas msg <= gp st /\ gp st' = gp st - Msg.Gas msg /\ gas st' = u64_add (gas st) (Msg.Gas msg)
    end).
Proof.
  intros Henv Hmsg Hg Hp Hn. eapply wp_mono.
  - by eapply (preCheck_ordinary CalcIntrinsicGas env msg Pan I R Rw codeOf codeAt); [apply Henv|..].
  - intros [err|] st'; [by intros []|]. intros [[] ? ? ? ?]. by split_and!.
Qed.
End theorems.

(** * Fees *)
Section fees.
Context {U : Uint256} {US : Uint256Spec U}.

(** An amount of gas at a price, without overflow. *)
Lemma Mul_price used price : is_u64 used -> used * to_Z price < two256 ->
  to_Z (Mul (SetUint64 used) price) = used * to_Z price.
Proof.
  intros Hu Hlt. rewrite to_Z_Mul, to_Z_SetUint64 by done. pose proof (to_Z_range price).
  unfold is_u64 in Hu. apply Z.mod_small. split; [|done]. apply Z.mul_nonneg_nonneg; lia.
Qed.

Lemma effectiveTip_London rules price cap tip base : IsLondon rules = true -> to_Z base <= to_Z cap ->
  to_Z (effectiveTip rules price cap tip base) = Z.min (to_Z tip) (to_Z cap - to_Z base).
Proof.
  intros Hl Hle. unfold effectiveTip, Min256. rewrite Hl, !Gt_spec.
  pose proof (to_Z_range tip). pose proof (to_Z_range cap). pose proof (to_Z_range base).
  assert (to_Z (Sub cap base) = to_Z cap - to_Z base) as Hs by (rewrite to_Z_Sub; apply Z.mod_small; lia).
  destruct (Z.ltb_spec (to_Z base) (to_Z cap)); rewrite ?Hs.
  - destruct (Z.ltb_spec (to_Z cap - to_Z base) (to_Z tip)); rewrite ?Hs; lia.
  - rewrite to_Z_Clear. lia.
Qed.

(** The gas price of the message a signed transaction becomes. *)
Lemma AsMessage_price tx from base rules msg :
  Tx.AsMessage tx (Some from) (Some (to_Z base)) rules = inl msg ->
  (forall d, tx <> Tx.DepositTx d) ->
  to_Z (Msg.Tip msg) <= to_Z (Msg.FeeCap msg) -> to_Z base <= to_Z (Msg.FeeCap msg) ->
  to_Z (Msg.FeeCap msg) < 2 ^ 255 ->
  to_Z (Msg.GasPrice msg) = Z.min (to_Z (Msg.FeeCap msg)) (to_Z base + to_Z (Msg.Tip msg)).
Proof.
  intros Hmsg Hd Ht Hb Hc. pose proof (to_Z_range base) as Hbr.
  destruct tx as [tx p|tx p al|tx tip cap al|d]; [..|by destruct (Hd d)]; cbn in Hmsg;
    unfold Tx.Legacy_AsMessage, Tx.AccessList_AsMessage, Tx.DynamicFee_AsMessage in Hmsg.
  - injection Hmsg as <-. cbn. lia.
  - case_match; [done|]. injection Hmsg as <-. cbn. lia.
  - case_match; [done|]. unfold Tx.dynamicPrice in Hmsg.
    pose proof (FromBig_overflow (to_Z base)) as Ho. pose proof (to_Z_FromBig (to_Z base)) as Hf.
    destruct (FromBig (to_Z base)) as [b o]. cbn in Ho, Hf. rewrite Ho in Hmsg by lia.
    destruct (Z.leb_spec two256 (to_Z base)); [lia|]. injection Hmsg as <-. cbn in *.
    rewrite Z.mod_small in Hf by lia. pose proof (to_Z_range tip).
    assert (to_Z (Add b tip) = to_Z base + to_Z tip) as Ha.
    { rewrite to_Z_Add, Hf by lia. apply Z.mod_small. unfold two256 in *. lia. }
    rewrite Gt_spec, Ha. destruct (Z.ltb_spec (to_Z cap) (to_Z base + to_Z tip)); lia.
Qed.

(** A gas limit of two or more that can be paid bounds the fee cap. *)
Lemma feeCap_bound msg want : 2 <= Msg.Gas msg < 2 ^ 64 -> balanceCheck msg = Some want ->
  Msg.Gas msg * to_Z (Msg.FeeCap msg) < two256 /\ to_Z (Msg.FeeCap msg) < 2 ^ 255.
Proof.
  intros Hg. unfold balanceCheck. rewrite MulOverflow_spec, to_Z_SetUint64 by (unfold is_u64; lia).
  destruct (Z.leb_spec two256 (Msg.Gas msg * to_Z (Msg.FeeCap msg))); [done|]. intros _.
  split; [done|]. pose proof (to_Z_range (Msg.FeeCap msg)). unfold two256 in *. nia.
Qed.

End fees.

(** * Runs *)
Module txdemo.
Import evmdemo.

(** The price of data before and after London, without access lists. *)
Definition calc (dataLen nonZero : Z) (l : AccessTuples) (creation homestead eip2028 eip3860 : bool) : Z * bool :=
  (u64 (21000 + (if creation then 32000 else 0) + 16 * nonZero + 4 * (dataLen - nonZero)), true).

Definition noChain : ChainConfig := mk_ChainConfig false false None.

Definition evm0 : EvmOps refdb := default (evm denv []) (evm_of denv).

(** Account 1 calls the counter contract with 30000 gas at 10 wei. *)
Definition db1 : refdb :=
  mk_refdb (mk_world {[ 1%N := mk_acct (w 1000000) 0 [] ∅; 119%N := mk_acct (w 0) 1 counter_code ∅ ]} []) [] ∅.

Definition e1 : evmstate refdb := mk_evmstate db1 0 0 false [] ∅ 0.

Definition legacy (nonce gas price : Z) (to : address) : Transaction :=
  Tx.LegacyTx (Tx.mk_CommonTx nonce gas (Some to) (w 0) []) (w price).

Definition deposit (gas : Z) : Transaction :=
  Tx.DepositTx (Tx.mk_Deposit DepositsNonce 1%N (Some 119%N) (w 500) (w 3) gas false []).

Definition message (tx : Transaction) : Message :=
  match Tx.AsMessage tx (Some 1%N) (Some 7) london with
  | inl m => m
  | inr _ => Msg.mk_Message None 0%N 0 Clear Clear 0 Clear Clear Clear [] [] false false false
  end.

Lemma calc_u64 n k l c h i e : is_u64 (calc n k l c h i e).1.
Proof. apply u64_range. Qed.

Lemma e1_setting msg : is_u64 (Msg.Gas msg) -> Z.of_nat (length (Msg.Data msg)) < 2 ^ 63 ->
  setting denv False ref_I ref_R ref_Rw ref_code ref_codeAt calc noChain msg evm0 e1.
Proof.
  intros Hg Hd. split; [| | |discriminate| |reflexivity].
  - apply denv_ok.
  - unfold evm0. destruct (evm_of_table denv (ee_rules _ _ _ _ _ _ _ denv_ok)) as (jt & -> & _). reflexivity.
  - split; [done|by right|apply calc_u64].
  - split; [done| |done|].
    + split; [|constructor]. intros a x Hx. cbn in Hx.
      apply lookup_insert_Some in Hx as [[_ <-]|[_ Hx]]; [cbn; lia|].
      apply lookup_singleton_Some in Hx as [_ <-]. cbn. lia.
    + right. intros h a _. cbn [jumpdests e1]. by rewrite lookup_empty.
Qed.

Lemma ApplyMessage_gas_witness :
  match ApplyMessage calc denv noChain evm0 (message (legacy 0 60000 10 119%N)) true false e1 100000 with
  | Ok (inl res, st) =>
      (exists need, intrinsic calc denv (message (legacy 0 60000 10 119%N)) need /\
         need - need / (if IsLondon (chainRules denv) then 5 else 2) <= UsedGas res) /\
      UsedGas res <= Msg.Gas (message (legacy 0 60000 10 119%N)) <= 100000 /\ gp st = 100000 - UsedGas res
  | Ok (inr _, st) => 100000 - Msg.Gas (message (legacy 0 60000 10 119%N)) <= gp st <= 100000
  | Panic | Deadlock => False
  | OutOfFuel => False
  end.
Proof.
  apply (ApplyMessage_gas denv False ref_I ref_R ref_Rw ref_code ref_codeAt calc);
    [apply e1_setting; done|done|done|discriminate].
Defined.

Lemma ApplyMessage_deposit_witness :
  match ApplyMessage calc denv noChain evm0 (message (deposit 20000)) true false e1 100000 with
  | Ok (inl res, st) =>
      match Err res with
      | Some (failedDeposit _) =>
          UsedGas res = 20000 /\ gp st = 100000 /\
          exists s1 s2 n s3, db_AddBalance 1%N (w 500) (ibs e1) = Ok (tt, s1) /\
            ref_R s1 s2 /\ db_GetNonce 1%N s2 = Ok (n, s3) /\
            db_SetNonce 1%N (u64_add n 1) s3 = Ok (tt, ibs (st_evm st))
      | _ => UsedGas res <= 20000 /\ gp st = 100000 + (20000 - UsedGas res)
      end
  | Ok (inr _, _) => False
  | Panic | Deadlock => False
  | OutOfFuel => False
  end.
Proof.
  apply (ApplyMessage_deposit denv False ref_I ref_R ref_Rw ref_code ref_codeAt calc noChain
           (message (deposit 20000)) evm0 e1 100000 true false);
    [apply e1_setting; done|done|done|reflexivity].
Defined.

Lemma preCheck_admits_witness :
  let msg := message (legacy 0 60000 10 119%N) in
  let st := NewStateTransition e1 100000 in
  wp False (preCheck denv msg false) st (fun err st' =>
    match err with
    | Some _ => ref_R (ibs (st_evm st)) (ibs (st_evm st')) /\ gp st' = gp st /\ gas st' = gas st
    | None =>
        (Msg.CheckNonce msg = true -> sender_ok denv msg ref_R (ibs (st_evm st))) /\
        fees_ok denv msg /\ (exists s, ref_R (ibs (st_evm st)) s /\ can_pay msg ref_R s) /\
        Msg.Gas msg <= gp st /\ gp st' = gp st - Msg.Gas msg /\ gas st' = u64_add (gas st) (Msg.Gas msg)
    end).
Proof.
  destruct (e1_setting (message (legacy 0 60000 10 119%N))) as [H1 _ H2 _ H3 H4]; [done|done|].
  apply (preCheck_admits denv False ref_I ref_R ref_Rw ref_code ref_codeAt calc); try done.
Defined.

(** A dynamic fee transaction with a cap of 20, a tip of 2 and a base fee of 7. *)
Definition dynamic : Transaction :=
  Tx.DynamicFeeTransaction (Tx.mk_CommonTx 0 60000 (Some 119%N) (w 0) []) (w 2) (w 20) [].


(** Applying a transaction of account 1: the gas used, whether it failed, the
    pool, and the balances of the sender and of the producer afterwards. *)
Definition observe {S} {DB : StateDB S} (env : Env S) (tx : Transaction) (e : evmstate S) (pool : Z)
    : option (Z * bool * Z * Z * Z) :=
  match evm_of env with
  | None => None
  | Some evm =>
      match ApplyMessage calc env noChain evm (message tx) true false e pool with
      | Ok (inl res, st) =>
          match db_GetBalance 1%N (ibs (st_evm st)), db_GetBalance (Coinbase (context env)) (ibs (st_evm st)) with
          | Ok (b, _), Ok (c, _) => Some (UsedGas res, Failed res, gp st, to_Z b, to_Z c)
          | _, _ => None
          end
      | _ => None
      end
  end.

(** The counter costs 43130 gas; the sender pays 10 wei for each, 3 of them to
    the producer. *)
Example counter_tx : observe denv (legacy 0 60000 10 119%N) e1 100000 =
  Some (43130, false, 56870, 1000000 - 431300, 129390).
Proof. vm_compute. reflexivity. Qed.

(** A deposit that cannot pay its intrinsic gas keeps its mint of 500. *)
Example deposit_tx : observe denv (deposit 20000) e1 100000 = Some (20000, true, 100000, 1000500, 0).
Proof. vm_compute. reflexivity. Qed.
End txdemo.
