(* ===== verification/Bloom.v ===== *)
(** Log blooms and receipts: core/types/bloom9.go and the parts of
    core/types/receipt.go execution fills in. *)
From S2P Require Import Prelude Uint256 StateTypes.
#[local] Open Scope Z_scope.

Definition BloomByteLength : Z := 256.

(** [Bloom] is an array of 256 bytes. *)
Abbreviation Bloom := (list Z).

Definition emptyBloom : Bloom := replicate 256 0.

(** Receipt of receipt.go, without the data derived later. *)
Record Receipt := mk_Receipt {
  rc_Status : Z;
  rc_CumulativeGasUsed : Z;
  rc_GasUsed : Z;
  rc_ContractAddress : address;
  rc_Logs : list Log;
  rc_Bloom : Bloom;
  rc_BlockNumber : Z;
  rc_TransactionIndex : Z
}.

Section bloom.
Context (keccak256 : list Byte.byte -> hash).

(** binary.BigEndian.Uint16 of the bytes at [i]. *)
Definition Uint16 (buf : list Byte.byte) (i : nat) : Z := be_combine (take 2 (drop i buf)).

(** The byte and the bit a pair of bytes of the hash stands for. *)
Definition bloomIndex (hashbuf : list Byte.byte) (i : nat) : Z :=
  BloomByteLength - Z.shiftr (Z.land (Uint16 hashbuf i) 0x7ff) 3 - 1.

Definition bloomBit (hashbuf : list Byte.byte) (i : nat) : Z :=
  Z.shiftl 1 (Z.land (byte.unsigned (nth (i + 1) hashbuf Byte.x00)) 0x7).

(** The three pairs (index, value) for the data; [hashbuf] is what the hash
    state returns for a buffer of six bytes. *)
Definition bloomValues (data : list Byte.byte) : list (Z * Z) :=
  let hashbuf := take 6 (be_split 32 (Z.of_N (keccak256 data))) in
  [(bloomIndex hashbuf 0, bloomBit hashbuf 0);
   (bloomIndex hashbuf 2, bloomBit hashbuf 2);
   (bloomIndex hashbuf 4, bloomBit hashbuf 4)].

(** [b[i] |= v]; an index out of range panics. *)
Definition setBits (b : Bloom) (iv : Z * Z) : option Bloom :=
  x ← lookupZ b iv.1; Some (<[Z.to_nat iv.1 := Z.lor x iv.2]> b).

Fixpoint setAll (b : Bloom) (ivs : list (Z * Z)) : option Bloom :=
  match ivs with
  | [] => Some b
  | iv :: ivs => b ← setBits b iv; setAll b ivs
  end.

Definition add (b : Bloom) (d : list Byte.byte) : option Bloom := setAll b (bloomValues d).

Definition hasBits (b : Bloom) (iv : Z * Z) : option bool :=
  x ← lookupZ b iv.1; Some (Z.land iv.2 x =? iv.2).

(** [Test]; the conjunction stops at the first false. *)
Fixpoint hasAll (b : Bloom) (ivs : list (Z * Z)) : option bool :=
  match ivs with
  | [] => Some true
  | iv :: ivs => ok ← hasBits b iv; if (ok : bool) then hasAll b ivs else Some false
  end.

Definition Test (b : Bloom) (topic : list Byte.byte) : option bool := hasAll b (bloomValues topic).

Fixpoint addEach (b : Bloom) (ds : list (list Byte.byte)) : option Bloom :=
  match ds with
  | [] => Some b
  | d :: ds => b ← add b d; addEach b ds
  end.

(** The address and the topics of a log. *)
Definition logData (log : Log) : list (list Byte.byte) :=
  be_split 20 (Z.of_N (log_Address log)) :: ((fun b => be_split 32 (Z.of_N b)) <$> log_Topics log).

Fixpoint addLogs (b : Bloom) (logs : list Log) : option Bloom :=
  match logs with
  | [] => Some b
  | log :: logs => b ← addEach b (logData log); addLogs b logs
  end.

Definition LogsBloom (logs : list Log) : option Bloom := addLogs emptyBloom logs.

Fixpoint addReceipts (b : Bloom) (receipts : list Receipt) : option Bloom :=
  match receipts with
  | [] => Some b
  | receipt :: receipts => b ← addLogs b (rc_Logs receipt); addReceipts b receipts
  end.

Definition CreateBloom (receipts : list Receipt) : option Bloom := addReceipts emptyBloom receipts.

(** * Correctness *)

(** [b'] has all the bits of [b]. *)
Definition includes (b' b : Bloom) : Prop :=
  length b' = length b /\
  forall i x, lookupZ b i = Some x -> exists x', lookupZ b' i = Some x' /\ forall n, 0 <= n ->
    Z.testbit x n = true -> Z.testbit x' n = true.

#[local] Instance includes_refl : Reflexive includes.
Proof. intros b. split; [done|]. eauto. Qed.

#[local] Instance includes_trans : Transitive includes.
Proof.
  intros b3 b2 b1 [L1 H1] [L2 H2]. split; [congruence|]. intros i x Hx.
  apply H2 in Hx as (x2 & Hx2 & ?). apply H1 in Hx2 as (x3 & ? & ?). exists x3. auto.
Qed.

Definition in_range (b : Bloom) (iv : Z * Z) : Prop := 0 <= iv.1 < Z.of_nat (length b).

Lemma setBits_spec b iv : in_range b iv -> exists b', setBits b iv = Some b' /\ includes b' b /\
  exists x, lookupZ b' iv.1 = Some (Z.lor x iv.2).
Proof.
  intros Hr. destruct iv as [i v]. unfold in_range in Hr. cbn in *. unfold setBits. cbn [fst snd].
  destruct (lookupZ_lt b i Hr) as [x Hx]. rewrite Hx. cbn [mbind option_bind]. eexists. split; [reflexivity|].
  pose proof Hx as [Hi Hxn]%lookupZ_Some. split.
  - split; [apply length_insert|]. intros j y [Hj Hy]%lookupZ_Some.
    destruct (decide (j = i)) as [->|Hne].
    + rewrite Hxn in Hy. injection Hy as ->. exists (Z.lor y v). split.
      * apply lookupZ_Some. split; [done|]. apply list_lookup_insert_eq. lia.
      * intros n Hn Ht. by rewrite Z.lor_spec, Ht.
    + exists y. split; [|done]. apply lookupZ_Some. split; [done|].
      rewrite list_lookup_insert_ne; [done|]. lia.
  - exists x. apply lookupZ_Some. split; [done|]. apply list_lookup_insert_eq. lia.
Qed.

Lemma hasBits_included b' b iv : includes b' b -> 0 <= iv.2 ->
  hasBits b iv = Some true -> hasBits b' iv = Some true.
Proof.
  intros [_ Hinc] Hv. unfold hasBits. destruct (lookupZ b iv.1) as [x|] eqn:E; [|done]. cbn.
  intros [= Hx%Z.eqb_eq]. destruct (Hinc _ _ E) as (x' & -> & Hb). cbn. f_equal. apply Z.eqb_eq.
  apply Z.bits_inj'. intros n Hn. rewrite Z.land_spec. destruct (Z.testbit iv.2 n) eqn:Ev; [|done].
  apply Hb; [done|]. assert (Z.testbit (Z.land iv.2 x) n = true) as Ht by (by rewrite Hx).
  rewrite Z.land_spec in Ht. by apply andb_true_iff in Ht as [_ ?].
Qed.

Lemma hasAll_Forall b ivs : Forall (fun iv => hasBits b iv = Some true) ivs <-> hasAll b ivs = Some true.
Proof.
  induction ivs as [|iv ivs IH]; cbn; [split; [done|by constructor]|]. rewrite Forall_cons_iff, IH.
  destruct (hasBits b iv) as [[]|]; cbn; split; try done; by intros [].
Qed.

Lemma setAll_spec ivs b : Forall (in_range b) ivs -> Forall (fun iv => 0 <= iv.2) ivs ->
  exists b', setAll b ivs = Some b' /\ includes b' b /\ hasAll b' ivs = Some true.
Proof.
  revert b. induction ivs as [|iv ivs IH]; intros b Hr Hv; cbn [setAll].
  { exists b. done. }
  apply Forall_cons_iff in Hr as [Hr Hrs]. apply Forall_cons_iff in Hv as [Hv Hvs].
  destruct (setBits_spec b iv Hr) as (b1 & -> & Hinc & x & Hx). cbn.
  assert (Forall (in_range b1) ivs) as Hr1.
  { revert Hrs. apply List.Forall_impl. intros iv'. unfold in_range. by rewrite (proj1 Hinc). }
  destruct (IH b1 Hr1 Hvs) as (b2 & E & Hinc2 & Hall). exists b2. split_and!; [done|by etrans|].
  apply (hasAll_Forall b2 (iv :: ivs)). constructor; [|by apply hasAll_Forall].
  apply (hasBits_included _ _ _ Hinc2 Hv). unfold hasBits. rewrite Hx. cbn. f_equal. apply Z.eqb_eq.
  apply Z.bits_inj'. intros n Hn. rewrite Z.land_spec, Z.lor_spec. by destruct (Z.testbit iv.2 n), (Z.testbit x n).
Qed.

Lemma bloomIndex_range buf i : 0 <= bloomIndex buf i < 256.
Proof.
  unfold bloomIndex, BloomByteLength. rewrite Z.shiftr_div_pow2 by lia.
  change 0x7ff with (Z.ones 11). rewrite Z.land_ones by lia.
  pose proof (Z.mod_pos_bound (Uint16 buf i) (2 ^ 11)).
  assert (0 <= Uint16 buf i mod 2 ^ 11 / 2 ^ 3 < 256); [|lia].
  split; [apply Z.div_pos; lia|apply Z.div_lt_upper_bound; lia].
Qed.

Lemma bloomBit_nonneg buf i : 0 <= bloomBit buf i.
Proof. unfold bloomBit. by apply Z.shiftl_nonneg. Qed.

Lemma bloomValues_ok d b : length b = 256%nat ->
  Forall (in_range b) (bloomValues d) /\ Forall (fun iv => 0 <= iv.2) (bloomValues d).
Proof.
  intros Hb. unfold bloomValues, in_range. rewrite Hb.
  split; repeat constructor; cbn; try apply bloomIndex_range; apply bloomBit_nonneg.
Qed.

(** Adding succeeds, keeps what is there, and makes the test succeed. *)
Lemma add_spec b d : length b = 256%nat ->
  exists b', add b d = Some b' /\ includes b' b /\ Test b' d = Some true.
Proof. intros Hb. destruct (bloomValues_ok d b Hb). by apply setAll_spec. Qed.

Lemma Test_included b' b d : length b = 256%nat -> includes b' b -> Test b d = Some true -> Test b' d = Some true.
Proof.
  intros Hb Hinc. unfold Test. rewrite <- !hasAll_Forall.
  destruct (bloomValues_ok d b Hb) as [_ Hv]. revert Hv. generalize (bloomValues d).
  induction l; intros Hv Hl; inversion Hv; inversion Hl; constructor; auto. by eapply hasBits_included.
Qed.

(** [b'] extends [b] by [ds]. *)
Definition extends (b' b : Bloom) (ds : list (list Byte.byte)) : Prop :=
  length b' = 256%nat /\ includes b' b /\ Forall (fun d => Test b' d = Some true) ds.

Lemma extends_nil b : length b = 256%nat -> extends b b [].
Proof. intros Hb. split_and!; [done|done|]. apply List.Forall_nil. Qed.

Lemma extends_app b3 b2 b1 ds1 ds2 : extends b2 b1 ds1 -> extends b3 b2 ds2 -> extends b3 b1 (ds1 ++ ds2).
Proof.
  intros (L2 & I2 & F2) (L3 & I3 & F3). split_and!; [done|by etrans|]. apply Forall_app. split; [|done].
  revert F2. apply List.Forall_impl. intros d. by apply Test_included.
Qed.

Lemma addEach_spec ds b : length b = 256%nat -> exists b', addEach b ds = Some b' /\ extends b' b ds.
Proof.
  revert b. induction ds as [|d ds IH]; intros b Hb; cbn [addEach].
  { exists b. split; [done|by apply extends_nil]. }
  destruct (add_spec b d Hb) as (b1 & -> & Hinc & Ht). cbn.
  assert (length b1 = 256%nat) as Hb1 by (by rewrite (proj1 Hinc)).
  destruct (IH b1 Hb1) as (b2 & E & Hext). exists b2. split; [done|].
  apply (extends_app _ b1 _ [d]); [|done]. split_and!; [done|done|by constructor].
Qed.

Lemma addLogs_spec logs b : length b = 256%nat ->
  exists b', addLogs b logs = Some b' /\ extends b' b (logs ≫= logData).
Proof.
  revert b. induction logs as [|log logs IH]; intros b Hb; cbn [addLogs].
  { exists b. split; [done|by apply extends_nil]. }
  destruct (addEach_spec (logData log) b Hb) as (b1 & -> & Hext). cbn.
  destruct (IH b1 (proj1 Hext)) as (b2 & E & Hext2). exists b2. split; [done|].
  exact (extends_app _ _ _ _ _ Hext Hext2).
Qed.

Lemma addReceipts_spec rs b : length b = 256%nat ->
  exists b', addReceipts b rs = Some b' /\ extends b' b (rs ≫= fun r => rc_Logs r ≫= logData).
Proof.
  revert b. induction rs as [|r rs IH]; intros b Hb; cbn [addReceipts].
  { exists b. split; [done|by apply extends_nil]. }
  destruct (addLogs_spec (rc_Logs r) b Hb) as (b1 & -> & Hext). cbn.
  destruct (IH b1 (proj1 Hext)) as (b2 & E & Hext2). exists b2. split; [done|].
  exact (extends_app _ _ _ _ _ Hext Hext2).
Qed.

(** The bloom of a block has no false negatives.  Whatever the hash,
    [CreateBloom] does not index out of range, and its result passes [Test]
    for the address and for every topic of every log of every receipt. *)
Theorem CreateBloom_complete receipts :
  exists bloom, CreateBloom receipts = Some bloom /\
    forall r log d, r ∈ receipts -> log ∈ rc_Logs r -> d ∈ logData log -> Test bloom d = Some true.
Proof.
  destruct (addReceipts_spec receipts emptyBloom eq_refl) as (b & E & _ & _ & Hall).
  exists b. split; [done|]. intros r log d Hr Hlog Hd. rewrite Forall_forall in Hall. apply Hall.
  apply list_elem_of_In, list_elem_of_bind. exists r. split; [|done]. apply list_elem_of_bind. by exists log.
Qed.
End bloom.
