(* ===== verification/BlockExec.v ===== *)
(** Executing the transactions of a block over IntraBlockState:
    core/state_processor.go, core/skip_analysis.go, and the loop and the final
    checks of ExecuteBlockEphemerally in core/blockchain.go.

    Parameters are what other packages compute: [Sender] recovers the signer
    of a transaction, [txHash] is its hash, [DeriveSha] the root of a trie
    over receipts or transactions, [rlpHash] the hash of an RLP encoding, and
    [Engine] the interface of the consensus engines. *)
From S2P Require Import Prelude Uint256 StateTypes IntraBlockState StateFinalize OpCodes Machine Precompiles Contract EvmTypes Instructions Interpreter EvmTheorems IbsDB Transaction StateTransition Bloom.
#[local] Open Scope Z_scope.

(** * skip_analysis.go *)
Definition analysisBlocks (ChainName : string) : option (list Z) :=
  if bool_decide (ChainName = "mainnet"%string) then
    Some [5800596; 6426298; 6426432; 11079912; 13119520; 15081051]
  else if bool_decide (ChainName = "bsc"%string) then Some [19278044]
  else if bool_decide (ChainName = "bor-mainnet"%string) then Some [29447463]
  else None.

Definition SkipAnalysisFor (ChainName : string) (blockNumber : Z) : bool :=
  match analysisBlocks ChainName with
  | None => false
  | Some blockNums =>
      let p := sort_Search (length blockNums)
                 (fun i => match blockNums !! i with Some n => blockNumber <=? n | None => false end) in
      match blockNums !! p with
      | None => false
      | Some n => negb (blockNumber =? n)
      end
  end.

(** * DAO fork: params/dao.go and consensus/misc/dao.go *)
Definition DAORefundContract : address := 0xbf4ed7b27f1d666546e30d74d50d173d20bca754%N.

Definition DAODrainList : list address := [
  0xd4fe7bc31cedb7bfb8a345f31e668033056b2728%N;
  0xb3fb0e5aba0e20e5c49d252dfd30e102b171a425%N;
  0x2c19c7f9ae8b751e37aeb2d93a699722395ae18f%N;
  0xecd135fa4f61a655311e86238c92adcd779555d2%N;
  0x1975bd06d486162d5dc297798dfc41edd5d160a7%N;
  0xa3acf3a1e16b1d7c315e23510fdd7847b48234f6%N;
  0x319f70bab6845585f412ec7724b744fec6095c85%N;
  0x06706dd3f2c9abf0a21ddcc6941d9b86f0596936%N;
  0x5c8536898fbb74fc7445814902fd08422eac56d0%N;
  0x6966ab0d485353095148a2155858910e0965b6f9%N;
  0x779543a0491a837ca36ce8c635d6154e3c4911a6%N;
  0x2a5ed960395e2a49b1c758cef4aa15213cfd874c%N;
  0x5c6e67ccd5849c0d29219c4f95f1a7a93b3f5dc5%N;
  0x9c50426be05db97f5d64fc54bf89eff947f0a321%N;
  0x200450f06520bdd6c527622a273333384d870efb%N;
  0xbe8539bfe837b67d1282b2b1d61c3f723966f049%N;
  0x6b0c4d41ba9ab8d8cfb5d379c69a612f2ced8ecb%N;
  0xf1385fb24aad0cd7432824085e42aff90886fef5%N;
  0xd1ac8b1ef1b69ff51d1d401a476e7e612414f091%N;
  0x8163e7fb499e90f8544ea62bbf80d21cd26d9efd%N;
  0x51e0ddd9998364a2eb38588679f0d2c42653e4a6%N;
  0x627a0a960c079c21c34f7612d5d230e01b4ad4c7%N;
  0xf0b1aa0eb660754448a7937c022e30aa692fe0c5%N;
  0x24c4d950dfd4dd1902bbed3508144a54542bba94%N;
  0x9f27daea7aca0aa0446220b98d028715e3bc803d%N;
  0xa5dc5acd6a7968a4554d89d65e59b7fd3bff0f90%N;
  0xd9aef3a1e38a39c16b31d1ace71bca8ef58d315b%N;
  0x63ed5a272de2f6d968408b4acb9024f4cc208ebf%N;
  0x6f6704e5a10332af6672e50b3d9754dc460dfa4d%N;
  0x77ca7b50b6cd7e2f3fa008e24ab793fd56cb15f6%N;
  0x492ea3bb0f3315521c31f273e565b868fc090f17%N;
  0x0ff30d6de14a8224aa97b78aea5388d1c51c1f00%N;
  0x9ea779f907f0b315b364b0cfc39a0fde5b02a416%N;
  0xceaeb481747ca6c540a000c1f3641f8cef161fa7%N;
  0xcc34673c6c40e791051898567a1222daf90be287%N;
  0x579a80d909f346fbfb1189493f521d7f48d52238%N;
  0xe308bd1ac5fda103967359b2712dd89deffb7973%N;
  0x4cb31628079fb14e4bc3cd5e30c2f7489b00960c%N;
  0xac1ecab32727358dba8962a0f3b261731aad9723%N;
  0x4fd6ace747f06ece9c49699c7cabc62d02211f75%N;
  0x440c59b325d2997a134c2c7c60a8c61611212bad%N;
  0x4486a3d68fac6967006d7a517b889fd3f98c102b%N;
  0x9c15b54878ba618f494b38f0ae7443db6af648ba%N;
  0x27b137a85656544b1ccb5a0f2e561a5703c6a68f%N;
  0x21c7fdb9ed8d291d79ffd82eb2c4356ec0d81241%N;
  0x23b75c2f6791eef49c69684db4c6c1f93bf49a50%N;
  0x1ca6abd14d30affe533b24d7a21bff4c2d5e1f3b%N;
  0xb9637156d330c0d605a791f1c31ba5890582fe1c%N;
  0x6131c42fa982e56929107413a9d526fd99405560%N;
  0x1591fc0f688c81fbeb17f5426a162a7024d430c2%N;
  0x542a9515200d14b68e934e9830d91645a980dd7a%N;
  0xc4bbd073882dd2add2424cf47d35213405b01324%N;
  0x782495b7b3355efb2833d56ecb34dc22ad7dfcc4%N;
  0x58b95c9a9d5d26825e70a82b6adb139d3fd829eb%N;
  0x3ba4d81db016dc2890c81f3acec2454bff5aada5%N;
  0xb52042c8ca3f8aa246fa79c3feaa3d959347c0ab%N;
  0xe4ae1efdfc53b73893af49113d8694a057b9c0d1%N;
  0x3c02a7bc0391e86d91b7d144e61c2c01a25a79c5%N;
  0x0737a6b837f97f46ebade41b9bc3e1c509c85c53%N;
  0x97f43a37f595ab5dd318fb46e7a155eae057317a%N;
  0x52c5317c848ba20c7504cb2c8052abd1fde29d03%N;
  0x4863226780fe7c0356454236d3b1c8792785748d%N;
  0x5d2b2e6fcbe3b11d26b525e085ff818dae332479%N;
  0x5f9f3392e9f62f63b8eac0beb55541fc8627f42c%N;
  0x057b56736d32b86616a10f619859c6cd6f59092a%N;
  0x9aa008f65de0b923a2a4f02012ad034a5e2e2192%N;
  0x304a554a310c7e546dfe434669c62820b7d83490%N;
  0x914d1b8b43e92723e64fd0a06f5bdb8dd9b10c79%N;
  0x4deb0033bb26bc534b197e61d19e0733e5679784%N;
  0x07f5c1e1bc2c93e0402f23341973a0e043f7bf8a%N;
  0x35a051a0010aba705c9008d7a7eff6fb88f6ea7b%N;
  0x4fa802324e929786dbda3b8820dc7834e9134a2a%N;
  0x9da397b9e80755301a3b32173283a91c0ef6c87e%N;
  0x8d9edb3054ce5c5774a420ac37ebae0ac02343c6%N;
  0x0101f3be8ebb4bbd39a2e3b9a3639d4259832fd9%N;
  0x5dc28b15dffed94048d73806ce4b7a4612a1d48f%N;
  0xbcf899e6c7d9d5a215ab1e3444c86806fa854c76%N;
  0x12e626b0eebfe86a56d633b9864e389b45dcb260%N;
  0xa2f1ccba9395d7fcb155bba8bc92db9bafaeade7%N;
  0xec8e57756626fdc07c63ad2eafbd28d08e7b0ca5%N;
  0xd164b088bd9108b60d0ca3751da4bceb207b0782%N;
  0x6231b6d0d5e77fe001c2a460bd9584fee60d409b%N;
  0x1cba23d343a983e9b5cfd19496b9a9701ada385f%N;
  0xa82f360a8d3455c5c41366975bde739c37bfeb8a%N;
  0x9fcd2deaff372a39cc679d5c5e4de7bafb0b1339%N;
  0x005f5cee7a43331d5a3d3eec71305925a62f34b6%N;
  0x0e0da70933f4c7849fc0d203f5d1d43b9ae4532d%N;
  0xd131637d5275fd1a68a3200f4ad25c71a2a9522e%N;
  0xbc07118b9ac290e4622f5e77a0853539789effbe%N;
  0x47e7aa56d6bdf3f36be34619660de61275420af8%N;
  0xacd87e28b0c9d1254e868b81cba4cc20d9a32225%N;
  0xadf80daec7ba8dcf15392f1ac611fff65d94f880%N;
  0x5524c55fb03cf21f549444ccbecb664d0acad706%N;
  0x40b803a9abce16f50f36a77ba41180eb90023925%N;
  0xfe24cdd8648121a43a7c86d289be4dd2951ed49f%N;
  0x17802f43a0137c506ba92291391a8a8f207f487d%N;
  0x253488078a4edf4d6f42f113d1e62836a942cf1a%N;
  0x86af3e9626fce1957c82e88cbf04ddf3a2ed7915%N;
  0xb136707642a4ea12fb4bae820f03d2562ebff487%N;
  0xdbe9b615a3ae8709af8b93336ce9b477e4ac0940%N;
  0xf14c14075d6c4ed84b86798af0956deef67365b5%N;
  0xca544e5c4687d109611d0f8f928b53a25af72448%N;
  0xaeeb8ff27288bdabc0fa5ebb731b6f409507516c%N;
  0xcbb9d3703e651b0d496cdefb8b92c25aeb2171f7%N;
  0x6d87578288b6cb5549d5076a207456a1f6a63dc0%N;
  0xb2c6f0dfbb716ac562e2d85d6cb2f8d5ee87603e%N;
  0xaccc230e8a6e5be9160b8cdf2864dd2a001c28b6%N;
  0x2b3455ec7fedf16e646268bf88846bd7a2319bb2%N;
  0x4613f3bca5c44ea06337a9e439fbc6d42e501d0a%N;
  0xd343b217de44030afaa275f54d31a9317c7f441e%N;
  0x84ef4b2357079cd7a7c69fd7a37cd0609a679106%N;
  0xda2fef9e4a3230988ff17df2165440f37e8b1708%N;
  0xf4c64518ea10f995918a454158c6b61407ea345c%N;
  0x7602b46df5390e432ef1c307d4f2c9ff6d65cc97%N;
  0xbb9bc244d798123fde783fcc1c72d3bb8c189413%N;
  0x807640a13483f8ac783c557fcdf27be11ea4ac7a%N
].

(** The errors that end a transaction or a block. *)
Inductive BlockError :=
| refused (e : TxError)
| finalizing (e : error)
| committing (e : error)
| engineError (e : error)
| wrongReceipts
| wrongGasUsed
| wrongBloom.

(** What is read of the header of the block. *)
Record BlockHeader := mk_BlockHeader {
  h_Number : Z;
  h_BaseFee : option Z;
  h_GasLimit : Z;
  h_GasUsed : Z;
  h_ReceiptHash : hash;
  h_Bloom : Bloom;
  h_Hash : hash;
  h_Difficulty : Z
}.

Section engine.
Context {U : Uint256}.

(** The methods of consensus.Engine that execution calls; the system calls
    they are given run inside them. *)
Record Engine := mk_Engine {
  Initialize : M IntraBlockState unit;
  Finalize : list Receipt -> M IntraBlockState (option error);
  IsServiceTransaction : address -> M IntraBlockState bool
}.
(** What the loop collects. *)
Record collected := mk_collected {
  rejectedTxs : list (Z * BlockError);
  includedTxs : list Transaction;
  receipts : list Receipt
}.
End engine.

Section exec.
Context {U : Uint256} {L : LibMath}.

Context (keccak256 : list Byte.byte -> hash) (reader : StateReader).
Context {W : Type} (writer : StateWriter W) (shuffle : list N -> list N).
Context (CalcIntrinsicGas : Z -> Z -> AccessTuples -> bool -> bool -> bool -> bool -> Z * bool).
Context (Sender : Transaction -> option address) (txHash : Transaction -> hash).
Context (engine : option Engine).
Context (ChainName : string) (chain : ChainConfig) (header : BlockHeader).

#[local] Instance exec_db : StateDB IntraBlockState := IbsDB keccak256 reader.

Context (env : Env IntraBlockState).

(** The variables of the loop: the state, the writer, the gas pool and
    [usedGas]. *)
Record execState := mk_exec {
  x_ibs : IntraBlockState;
  x_writer : W;
  x_gp : Z;
  x_usedGas : Z
}.

Definition set_x_ibs (v : IntraBlockState) (x : execState) : execState :=
  mk_exec v (x_writer x) (x_gp x) (x_usedGas x).

Definition set_x_usedGas (v : Z) (x : execState) : execState :=
  mk_exec (x_ibs x) (x_writer x) (x_gp x) v.

Definition x_state {A} (m : M IntraBlockState A) : M execState A := fun x =>
  '(a, s) ← m (x_ibs x); Ok (a, set_x_ibs s x).

Definition x_write {A} (m : M (IntraBlockState * W) A) : M execState A := fun x =>
  '(a, sw) ← m (x_ibs x, x_writer x); Ok (a, mk_exec sw.1 sw.2 (x_gp x) (x_usedGas x)).

(** The EVM of a transaction: [NewEVM], then [Reset] with the transaction's
    context. *)
Definition txEnv (msg : Message) : Env IntraBlockState :=
  let c := config env in
  mk_Env (context env) (mk_TxContext (Msg.From msg) (Msg.GasPrice msg)) (chainRules env)
    (mk_Config (NoRecursion c) (NoBaseFee c) (SkipAnalysisFor ChainName (h_Number header)) (NoReceipts c)
       (ReadOnly c) (StatelessExec c) (RestoreState c) (ExtraEips c))
    (EvmTypes.keccak256 env) (CreateAddress env) (native env) (Cancelled env).

Definition newEVM (s : IntraBlockState) : evmstate IntraBlockState := mk_evmstate s 0 0 false [] ∅ 0.

(** [ApplyMessage(evm, msg, gp, true, false)] *)
Definition applyMsg (msg : Message) : M execState (ExecutionResult + TxError) := fun x =>
  evm ← or_panic (evm_of (txEnv msg));
  '(r, st) ← ApplyMessage CalcIntrinsicGas (txEnv msg) chain evm msg true false (newEVM (x_ibs x)) (x_gp x);
  Ok (r, mk_exec (ibs (st_evm st)) (x_writer x) (gp st) (x_usedGas x)).

Definition GetNonce_ (tx : Transaction) : Z :=
  match tx with
  | Tx.LegacyTx tx _ | Tx.AccessListTx tx _ _ | Tx.DynamicFeeTransaction tx _ _ _ => Tx.Nonce tx
  | Tx.DepositTx tx => Tx.d_Nonce tx
  end.

Definition makeReceipt (tx : Transaction) (msg : Message) (result : ExecutionResult) : M execState Receipt :=
  used ← gets x_usedGas;
  s ← gets x_ibs;
  let logs := GetLogs (txHash tx) s in
  let receipt bloom :=
    mk_Receipt (if Failed result then 0 else 1) used (UsedGas result)
      (match Msg.To msg with None => CreateAddress env (Msg.From msg) (GetNonce_ tx) | Some _ => 0%N end)
      logs bloom (h_Number header) (txIndex s) in
  bloom ← deref (CreateBloom keccak256 [receipt emptyBloom]);
  mret (receipt bloom).

(** applyTransaction; the receipt is nil if receipts are switched off. *)
Definition applyTransaction (tx : Transaction) : M execState ((option Receipt * list Byte.byte) + BlockError) :=
  match Tx.AsMessage tx (Sender tx) (h_BaseFee header) (chainRules env) with
  | inr e => mret (inr (refused e))
  | inl msg =>
      let msg := Msg.SetCheckNonce (negb (StatelessExec (config env))) msg in
      msg ← match engine with
            | Some engine =>
                if IsZero (Msg.FeeCap msg) then
                  b ← x_state (IsServiceTransaction engine (Msg.From msg)); mret (Msg.SetIsFree b msg)
                else mret msg
            | None => mret msg
            end;
      r ← applyMsg msg;
      match r with
      | inr e => mret (inr (refused e))
      | inl result =>
          err ← x_write (FinalizeTx keccak256 reader writer shuffle (IsSpuriousDragon (chainRules env))
                           (IsAura (chainRules env)));
          match err with
          | Some e => mret (inr (finalizing e))
          | None =>
              _ ← modify (fun x => set_x_usedGas (u64_add (x_usedGas x) (UsedGas result)) x);
              receipt ← (if NoReceipts (config env) then mret None
                         else r ← makeReceipt tx msg result; mret (Some r));
              mret (inl (receipt, ReturnData result))
          end
      end
  end.

Fixpoint executeTxs (i : Z) (txs : list Transaction) (c : collected) : M execState (collected + BlockError) :=
  match txs with
  | [] => mret (inl c)
  | tx :: txs =>
      _ ← modify (fun x => set_x_ibs (Prepare (txHash tx) (h_Hash header) i (x_ibs x)) x);
      r ← applyTransaction tx;
      match r with
      | inr err =>
          if negb (StatelessExec (config env)) then mret (inr err)
          else executeTxs (i + 1) txs (mk_collected (rejectedTxs c ++ [(i, err)]) (includedTxs c) (receipts c))
      | inl (receipt, _) =>
          executeTxs (i + 1) txs (mk_collected (rejectedTxs c) (includedTxs c ++ [tx])
            (receipts c ++ match receipt with Some r => [r] | None => [] end))
      end
  end.
End exec.
Arguments execState {U} W.

(** * blockchain.go *)
Section ephemeral.
Context {U : Uint256} {L : LibMath}.
Context (keccak256 : list Byte.byte -> hash) (reader : StateReader).
Context {W : Type} (writer : StateWriter W) (shuffle : list N -> list N).
Context (CalcIntrinsicGas : Z -> Z -> AccessTuples -> bool -> bool -> bool -> bool -> Z * bool).
Context (Sender : Transaction -> option address) (txHash : Transaction -> hash).
Context (engine : Engine).
Context (ChainName : string) (chain : ChainConfig) (header : BlockHeader).
Context (env : Env IntraBlockState).

(** ApplyDAOHardFork of consensus/misc/dao.go. *)
Definition ApplyDAOHardFork : M IntraBlockState unit :=
  ok ← Exist keccak256 reader DAORefundContract;
  _ ← (if negb ok then CreateAccount keccak256 reader DAORefundContract false else mret tt);
  mfor (fun addr =>
          b ← GetBalance keccak256 reader addr;
          _ ← AddBalance keccak256 reader DAORefundContract b;
          SetBalance keccak256 reader addr Clear) DAODrainList.

(** NewNoopWriter. *)
Definition noopWriter : StateWriter unit :=
  mk_StateWriter unit (fun _ _ _ w => (None, w)) (fun _ _ _ _ w => (None, w)) (fun _ _ w => (None, w))
    (fun _ _ _ _ _ w => (None, w)) (fun _ w => (None, w)).

(** InitializeBlockExecution; the error of FinalizeTx is dropped. *)
Definition InitializeBlockExecution : M IntraBlockState unit := fun s =>
  '(_, s) ← Initialize engine s;
  '(_, sw) ← FinalizeTx keccak256 reader noopWriter shuffle (IsSpuriousDragon (chainRules env))
               (IsAura (chainRules env)) (s, tt);
  Ok (tt, sw.1).

(** FinalizeBlockExecution, when a block is not being mined. *)
Definition FinalizeBlockExecution (WriteChangeSets : W -> option error * W)
    (rs : list Receipt) : M (IntraBlockState * W) (option BlockError) :=
  err ← on_state (Finalize engine rs);
  match err with
  | Some e => mret (Some (engineError e))
  | None =>
      err ← CommitBlock keccak256 reader writer shuffle (IsSpuriousDragon (chainRules env)) (IsAura (chainRules env));
      match err with
      | Some e => mret (Some (committing e))
      | None => err ← on_writer WriteChangeSets; mret (committing <$> err)
      end
  end.

(** The checks of the result against the header; [None] is a panic. *)
Definition verifyExecution (DeriveSha : list Receipt -> hash) (IsByzantiumBlock : bool) (c : collected)
    (usedGas : Z) : option (Bloom + BlockError) :=
  let stateless := StatelessExec (config env) in
  let noReceipts := NoReceipts (config env) in
  if negb stateless && IsByzantiumBlock && negb noReceipts &&
     bool_decide (DeriveSha (receipts c) <> h_ReceiptHash header) then Some (inr wrongReceipts)
  else if negb stateless && negb (usedGas =? h_GasUsed header) then Some (inr wrongGasUsed)
  else if noReceipts then Some (inl emptyBloom)
  else
    bloom ← CreateBloom keccak256 (receipts c);
    if negb stateless && bool_decide (bloom <> h_Bloom header) then Some (inr wrongBloom) else Some (inl bloom).

Record EphemeralExecResult := mk_EphemeralExecResult {
  er_TxRoot : hash;
  er_ReceiptRoot : hash;
  er_Bloom : Bloom;
  er_LogsHash : hash;
  er_Receipts : list Receipt;
  er_Difficulty : Z;
  er_GasUsed : Z;
  er_Rejected : list (Z * BlockError)
}.

(** [ibs.Logs], which ranges over the map of the logs per transaction. *)
Definition Logs (s : IntraBlockState) : list Log :=
  shuffle (elements (dom (logs s))) ≫= fun h => GetLogs h s.

(** ExecuteBlockEphemerally.  The transactions are executed with a writer
    that does nothing; only the end of the block writes. *)
Definition ExecuteBlockEphemerally (WriteChangeSets : W -> option error * W)
    (DeriveSha : list Receipt -> hash) (DeriveTxSha : list Transaction -> hash) (rlpHash : list Log -> hash)
    (IsByzantiumBlock DAOFork : bool) (txs : list Transaction) (w : W)
    : outcome ((EphemeralExecResult + BlockError) * W) :=
  gp ← or_panic (AddGas (h_GasLimit header) 0);
  '(_, s) ← (if ReadOnly (config env) then mret tt else InitializeBlockExecution) New;
  '(_, s) ← (if DAOFork then ApplyDAOHardFork else mret tt) s;
  '(r, x) ← executeTxs keccak256 reader noopWriter shuffle CalcIntrinsicGas Sender txHash (Some engine)
              ChainName chain header env 0 txs (mk_collected [] [] []) (mk_exec s tt gp 0);
  match r with
  | inr e => Ok (inr e, w)
  | inl c =>
      checked ← or_panic (verifyExecution DeriveSha IsByzantiumBlock c (x_usedGas x));
      match checked with
      | inr e => Ok (inr e, w)
      | inl bloom =>
          '(err, sw) ← (if ReadOnly (config env) then mret None
                        else FinalizeBlockExecution WriteChangeSets (receipts c)) (x_ibs x, w);
          match err with
          | Some e => Ok (inr e, sw.2)
          | None =>
              Ok (inl (mk_EphemeralExecResult (DeriveTxSha (includedTxs c)) (DeriveSha (receipts c)) bloom
                         (rlpHash (Logs sw.1)) (receipts c) (h_Difficulty header)
                         (x_usedGas x) (rejectedTxs c)), sw.2)
          end
      end
  end.
End ephemeral.
