(* ===== verification/BlockSpec.v ===== *)
(** The gas of a block: over the real IntraBlockState, executing the
    transactions of a block never uses more gas than the block has, and the
    receipts add up.  Deposits are excluded: StateTransition gives their gas
    back to a pool it was never taken from.  A block executed over
    IntraBlockState shows both, and the order of a block's logs. *)
From S2P Require Import Prelude Uint256 AccessList StateTypes IntraBlockState StateFinalize OpCodes Machine Precompiles Contract EvmTypes JumpTable Instructions Interpreter EvmLogic.
From S2P Require Import EvmInstr EvmTheorems IbsDB EvmExamples Transaction StateTransition TransitionSpec TransitionTheorems Bloom BlockExec.
#[local] Open Scope Z_scope.

(** * FinalizeTx comes to an end and keeps the refund counter *)
Section finalize_ends.
Context {U : Uint256}.
Context (keccak256 : list Byte.byte -> hash) (reader : StateReader).
Context {W : Type} (writer : StateWriter W) (shuffle : list N -> list N).

Abbreviation wends := (ends (fun sw : IntraBlockState * W => refund_ok sw.1)).

Lemma on_state_ends {A} (m : M IntraBlockState A) : ends refund_ok m -> wends (on_state m).
Proof.
  intros Hm [s w] Hs. cbn in Hs. unfold on_state. specialize (Hm s Hs). cbn.
  by destruct (m s) as [[? ?]| | |].
Qed.

Lemma on_writer_ends {A} (f : W -> A * W) : wends (on_writer f).
Proof. by intros [s w] Hs. Qed.

Lemma or_return_ends m k : wends m -> wends k -> wends (or_return m k).
Proof. intros Hm Hk. apply ends_bind; [done|]. intros [e|]; [apply ends_ret|done]. Qed.

Lemma mfor_err_ends {A} (f : A -> M (IntraBlockState * W) (option error)) xs :
  (forall x, wends (f x)) -> wends (mfor_err f xs).
Proof.
  intros Hf. induction xs; cbn; [apply ends_ret|]. apply ends_bind; [apply Hf|].
  intros [e|]; [apply ends_ret|done].
Qed.
#[local] Hint Resolve on_state_ends on_writer_ends or_return_ends theObject_ends modifyObject_ends
  getStateObject_ends : ends.

Lemma updateAccount_ends b c a d : wends (updateAccount keccak256 writer shuffle b c a d).
Proof.
  unfold updateAccount. apply ends_bind; [auto with ends|]. intros so.
  apply or_return_ends.
  - case_match; [|apply ends_ret]. apply or_return_ends; [auto with ends|].
    apply ends_bind; auto with ends.
  - case_match; [|apply ends_ret]. apply ends_bind; [auto with ends|]. intros _.
    apply or_return_ends; [repeat case_match; auto with ends|].
    apply or_return_ends; [case_match; auto with ends|]. apply or_return_ends; [|auto with ends].
    unfold so_updateTrie. apply ends_bind; [auto with ends|]. intros so'. apply mfor_err_ends. intros key.
    apply ends_bind; auto with ends.
Qed.

Lemma markDirty_ends a : wends (markDirty a).
Proof. unfold markDirty. apply on_state_ends, ends_modify. by intros s []. Qed.

Lemma FinalizeTx_ends b c : wends (FinalizeTx keccak256 reader writer shuffle b c).
Proof.
  unfold FinalizeTx. apply ends_bind.
  { unfold settleIncreases. apply ends_bind; [auto with ends|]. intros s. apply ends_mfor. intros a.
    unfold settleIncrease. apply ends_bind; [auto with ends|]. intros []; [|auto with ends].
    apply ends_bind; auto with ends. }
  intros _. apply ends_bind; [auto with ends|]. intros s. apply or_return_ends.
  - apply mfor_err_ends. intros a. apply ends_bind; [auto with ends|]. intros []; cbn; [|auto with ends].
    apply or_return_ends; [apply updateAccount_ends|]. apply ends_bind; [apply markDirty_ends|auto with ends].
  - apply ends_bind; [|auto with ends]. apply on_state_ends, ends_modify. intros s' _. by split.
Qed.
End finalize_ends.

Section block.
Context {U : Uint256} {US : Uint256Spec U} {L : LibMath} {LS : LibMathSpec L}.
Context (keccak256 : list Byte.byte -> hash) (reader : StateReader).
Context {W : Type} (writer : StateWriter W) (shuffle : list N -> list N).
Context (CalcIntrinsicGas : Z -> Z -> AccessTuples -> bool -> bool -> bool -> bool -> Z * bool).
Context (Sender : Transaction -> option address) (txHash : Transaction -> hash).
Context (engine : option Engine) (ChainName : string) (chain : ChainConfig) (header : BlockHeader).
Context (env : Env IntraBlockState).

#[local] Instance block_db : StateDB IntraBlockState := exec_db keccak256 reader.

Abbreviation apply_tx := (applyTransaction keccak256 reader writer shuffle CalcIntrinsicGas Sender txHash engine
  ChainName chain header env).
Abbreviation execute_txs := (executeTxs keccak256 reader writer shuffle CalcIntrinsicGas Sender txHash engine
  ChainName chain header env).

(** The environment of the block. *)
Record block_env : Prop := {
  be_ctx : ctx_ok keccak256 reader (context env);
  be_rules : rules_ok (chainRules env);
  be_native p input : is_u64 (RequiredGas (native env p) input);
  be_intrinsic n k l c h i e : is_u64 (CalcIntrinsicGas n k l c h i e).1;
  be_parlia : isParlia chain = false;
  be_engine : match engine with
              | Some engine => forall a, ends refund_ok (IsServiceTransaction engine a)
              | None => True
              end
}.
Context (Henv : block_env).

Definition tx_gas (tx : Transaction) : Z :=
  match tx with
  | Tx.LegacyTx tx _ | Tx.AccessListTx tx _ _ | Tx.DynamicFeeTransaction tx _ _ _ => Tx.Gas tx
  | Tx.DepositTx tx => Tx.d_GasLimit tx
  end.

(** A transaction that is not taken for a deposit. *)
Definition ordinary (tx : Transaction) : Prop := is_u64 (tx_gas tx) /\ GetNonce_ tx <> DepositsNonce.

Lemma AsMessage_fields tx from base rules msg : Tx.AsMessage tx from base rules = inl msg ->
  Msg.Nonce msg = GetNonce_ tx /\ Msg.Gas msg = tx_gas tx.
Proof.
  intros H. destruct tx; cbn in *;
    unfold Tx.Legacy_AsMessage, Tx.AccessList_AsMessage, Tx.DynamicFee_AsMessage, Tx.withSender, Tx.dynamicPrice in *; repeat case_match; by simplify_eq/=.
Qed.

(** The pool is in range, and the state is fit for a transaction. *)
Definition ok (x : execState W) : Prop := refund_ok (x_ibs x) /\ is_u64 (x_gp x) /\ 0 <= x_usedGas x.

Lemma newEVM_idle s : refund_ok s -> idle True refund_ok (fun _ => []) (newEVM s).
Proof. intros Hs. split; [done|done|done|by left]. Qed.

Lemma txEnv_ok msg :
  evm_env (txEnv ChainName header env msg) True refund_ok (fun _ _ => True) (fun _ _ => True)
    (fun _ => []) (fun _ _ => []).
Proof using Henv US. destruct Henv. by apply ibs_env. Qed.

(** An ordinary message: the gas it uses moves from the pool. *)
Lemma applyMsg_spec msg x : ok x -> is_u64 (Msg.Gas msg) -> Msg.Nonce msg <> DepositsNonce ->
  wp True (applyMsg keccak256 reader CalcIntrinsicGas ChainName chain header env msg) x (fun r x' =>
    x_usedGas x' = x_usedGas x /\ refund_ok (x_ibs x') /\
    match r with
    | inl res => 0 <= UsedGas res /\ 0 <= x_gp x' /\ x_gp x' = x_gp x - UsedGas res
    | inr _ => 0 <= x_gp x' <= x_gp x
    end).
Proof using All.
  intros (Hs & Hp & _) Hg Hn. unfold wp, applyMsg. pose proof (txEnv_ok msg) as He.
  destruct (evm_of (txEnv ChainName header env msg)) as [evm|] eqn:Ee; [|done].
  pose proof (evm_of_ops _ _ _ _ _ _ _ He _ Ee) as Hops. pose proof (newEVM_idle _ Hs) as Hidle.
  assert (wp True (TransitionDb CalcIntrinsicGas (txEnv ChainName header env msg) chain evm msg true false)
    (NewStateTransition (newEVM (x_ibs x)) (x_gp x))
    (accounted CalcIntrinsicGas (txEnv ChainName header env msg) msg True refund_ok (fun _ => []) (x_gp x))) as H.
  { eapply (TransitionDb_ordinary _ _ _ _ _ _ refund_ok (fun _ _ => True) (fun _ _ => True) _ (fun _ _ => []));
      try done; [apply He| |by left|apply Henv]. split; [done|by left|apply Henv]. }
  unfold wp in H. cbn. unfold ApplyMessage. unfold is_u64 in *.
  destruct (TransitionDb _ _ _ _ _ _ _ _) as [[[res|err] st]| | |]; try done; cbn; destruct H as [[Hi _] H].
  - destruct H as ([(need & _ & Hneed & Hb) Hgp _ _] & Hpool). cbn in Hgp.
    pose proof (least_nonneg (txEnv ChainName header env msg) need).
    split_and!; [done|apply Hi|lia|lia|lia].
  - split_and!; [done|apply Hi|destruct H; lia|destruct H; lia].
Qed.

(** The receipt tells the gas of its transaction and of the block so far. *)
Lemma makeReceipt_spec tx msg res (x : execState W) : wp True (makeReceipt keccak256 txHash header env tx msg res) x
  (fun rc x' => x' = x /\ rc_GasUsed rc = UsedGas res /\ rc_CumulativeGasUsed rc = x_usedGas x).
Proof.
  unfold makeReceipt. apply wp_bind, wp_gets, wp_bind, wp_gets, wp_bind.
  destruct (addReceipts_spec keccak256 [mk_Receipt (if Failed res then 0 else 1) (x_usedGas x) (UsedGas res)
    (match Msg.To msg with None => CreateAddress env (Msg.From msg) (GetNonce_ tx) | Some _ => 0%N end)
    (GetLogs (txHash tx) (x_ibs x)) emptyBloom (h_Number header) (txIndex (x_ibs x))] emptyBloom eq_refl) as (b & E & _).
  eapply wp_deref; [exact E|]. by apply wp_ret.
Qed.

(** What one transaction does to the gas counters. *)
Record applied (x : execState W) (r : (option Receipt * list Byte.byte) + BlockError) (x' : execState W) : Prop := {
  ap_refund : refund_ok (x_ibs x');
  ap_gp : 0 <= x_gp x' <= x_gp x;
  ap_used : match r with
            | inl (rc, _) => x_usedGas x' - x_usedGas x = x_gp x - x_gp x' /\
                isSome rc = negb (NoReceipts (config env)) /\
                (forall rec, rc = Some rec -> rc_GasUsed rec = x_usedGas x' - x_usedGas x /\
                   rc_CumulativeGasUsed rec = x_usedGas x')
            | inr _ => x_usedGas x' = x_usedGas x
            end
}.

Lemma FinalizeTx_spec b c x : refund_ok (x_ibs x) ->
  wp True (x_write (FinalizeTx keccak256 reader writer shuffle b c)) x (fun _ x' =>
    refund_ok (x_ibs x') /\ x_gp x' = x_gp x /\ x_usedGas x' = x_usedGas x).
Proof.
  intros Hs. pose proof (FinalizeTx_ends keccak256 reader writer shuffle b c (x_ibs x, x_writer x) Hs) as H.
  unfold wp, x_write. by destruct (FinalizeTx _ _ _ _ _ _ _) as [[a [s w]]| | |].
Qed.

(** The end of an included transaction. *)
Lemma included_spec tx msg res x : ok x -> 0 <= UsedGas res -> x_usedGas x + UsedGas res < 2 ^ 64 ->
  wp True (
    _ ← modify (fun x => set_x_usedGas (u64_add (x_usedGas x) (UsedGas res)) x);
    receipt ← (if NoReceipts (config env) then mret None
               else r ← makeReceipt keccak256 txHash header env tx msg res; mret (Some r));
    mret (inl (receipt, ReturnData res) : (option Receipt * list Byte.byte) + BlockError)) x (fun r x' =>
    x_ibs x' = x_ibs x /\ x_gp x' = x_gp x /\ x_usedGas x' = x_usedGas x + UsedGas res /\
    exists rc, r = inl (rc, ReturnData res) /\ isSome rc = negb (NoReceipts (config env)) /\
      forall rec, rc = Some rec -> rc_GasUsed rec = UsedGas res /\ rc_CumulativeGasUsed rec = x_usedGas x').
Proof.
  intros (Hs & Hp & Hu) Hr Hlt. apply wp_bind, wp_modify. rewrite u64_add_small by (unfold is_u64; lia).
  apply wp_bind. destruct (NoReceipts (config env)).
  - do 2 apply wp_ret. split_and!; try done. exists None. done.
  - apply wp_bind. eapply wp_mono; [apply makeReceipt_spec|]. intros rc x' (-> & H1 & H2).
    do 2 apply wp_ret. split_and!; try done. exists (Some rc). split_and!; try done. by intros rec [= <-].
Qed.

Lemma service_spec msg x : ok x ->
  wp True (match engine with
           | Some engine =>
               if IsZero (Msg.FeeCap msg) then
                 b ← x_state (IsServiceTransaction engine (Msg.From msg)); mret (Msg.SetIsFree b msg)
               else mret msg
           | None => mret msg
           end) x (fun msg' x' => ok x' /\ x_gp x' = x_gp x /\ x_usedGas x' = x_usedGas x /\
    Msg.Gas msg' = Msg.Gas msg /\ Msg.Nonce msg' = Msg.Nonce msg).
Proof using Henv.
  intros Hok. pose proof (be_engine Henv) as He. destruct engine as [eng|]; [|by apply wp_ret].
  destruct (IsZero (Msg.FeeCap msg)); [|by apply wp_ret]. destruct Hok as (Hs & Hp & Hu).
  apply wp_bind. specialize (He (Msg.From msg) (x_ibs x) Hs). unfold wp, x_state.
  by destruct (IsServiceTransaction eng (Msg.From msg) (x_ibs x)) as [[b s]| | |].
Qed.

Lemma applyTransaction_spec tx x : ok x -> ordinary tx -> x_usedGas x + x_gp x < 2 ^ 64 ->
  wp True (apply_tx tx) x (applied x).
Proof using All.
  intros Hok [Hg Hn] Hfit. pose proof Hok as (Hs & Hp & Hu). unfold is_u64 in Hp. unfold applyTransaction.
  destruct (Tx.AsMessage _ _ _ _) as [msg|e] eqn:Em; [|apply wp_ret; split; [done|lia|done]].
  apply AsMessage_fields in Em as [En Eg]. apply wp_bind.
  eapply wp_mono; [by apply service_spec|]. intros msg' x1 (Hok1 & E1 & E2 & E3 & E4). cbn in E3, E4.
  apply wp_bind. eapply wp_mono; [apply applyMsg_spec; [done|congruence..]|].
  intros [res|e] x2 (Eu & Hs2 & H2); [|apply wp_ret; split; [done|lia|congruence]].
  destruct H2 as (Hr & Hp2 & Egp). apply wp_bind. eapply wp_mono; [by apply FinalizeTx_spec|].
  intros [e|] x3 (Hs3 & Egp3 & Eu3); [apply wp_ret; split; [done|lia|congruence]|].
  eapply wp_mono; [apply (included_spec tx msg'); [split_and!; [done|unfold is_u64; lia|lia]|lia|lia]|].
  intros r x4 (Es & Egp4 & Eu4 & rc & -> & Hrc & Hrec). split; [by rewrite Es|lia|].
  split_and!; [lia|done|]. intros rec Heq. destruct (Hrec rec Heq). lia.
Qed.

(** * The loop *)

(** The receipts carry the running total of the gas. *)
Fixpoint cumulative (used : Z) (rs : list Receipt) : Prop :=
  match rs with
  | [] => True
  | r :: rs => rc_CumulativeGasUsed r = used + rc_GasUsed r /\ 0 <= rc_GasUsed r /\
               cumulative (rc_CumulativeGasUsed r) rs
  end.

Definition total (rs : list Receipt) : Z := foldr (fun r => Z.add (rc_GasUsed r)) 0 rs.

Lemma cumulative_app used rs r : cumulative used (rs ++ [r]) <->
  cumulative used rs /\ rc_CumulativeGasUsed r = used + total rs + rc_GasUsed r /\ 0 <= rc_GasUsed r.
Proof.
  revert used. induction rs as [|r' rs IH]; intros used; cbn.
  - split; intros; split_and!; try done; lia.
  - rewrite IH. unfold total. split.
    + intros (H1 & H2 & H3 & H4 & H5). split_and!; try done; lia.
    + intros ((H1 & H2 & H3) & H4 & H5). split_and!; try done; lia.
Qed.

Lemma total_app rs r : total (rs ++ [r]) = total rs + rc_GasUsed r.
Proof. unfold total. induction rs; cbn in *; lia. Qed.

(** What the loop has established so far, for a pool of [limit]. *)
Record progress (limit : Z) (c : collected) (x : execState W) : Prop := {
  pr_ok : ok x;
  pr_limit : x_usedGas x + x_gp x <= limit;
  pr_exact : StatelessExec (config env) = false -> x_usedGas x + x_gp x = limit /\ rejectedTxs c = [];
  pr_receipts : NoReceipts (config env) = false ->
    cumulative 0 (receipts c) /\ total (receipts c) = x_usedGas x /\
    length (receipts c) = length (includedTxs c)
}.

Lemma progress_included limit c x tx rc ret x' : limit < 2 ^ 64 ->
  progress limit c x -> applied x (inl (rc, ret)) x' ->
  progress limit (mk_collected (rejectedTxs c) (includedTxs c ++ [tx])
    (receipts c ++ match rc with Some r => [r] | None => [] end)) x'.
Proof.
  intros Hl [(Hs & Hp & Hu) Hlim Hex Hrc] [Hs' Hgp (Hused & Hsome & Hrec)]. unfold is_u64 in *. split; cbn.
  - split_and!; [done|unfold is_u64; lia|lia].
  - lia.
  - intros H. destruct (Hex H). split; [lia|done].
  - intros Hno. destruct (Hrc Hno) as (Hc & Ht & Hlen). rewrite Hno in Hsome.
    destruct rc as [r|]; [|done]. destruct (Hrec r eq_refl).
    rewrite cumulative_app, total_app, !length_app. cbn. split_and!; try done; lia.
Qed.

Lemma progress_rejected limit c x i err x' : StatelessExec (config env) = true ->
  progress limit c x -> applied x (inr err) x' ->
  progress limit (mk_collected (rejectedTxs c ++ [(i, err)]) (includedTxs c) (receipts c)) x'.
Proof.
  intros Hst [(Hs & Hp & Hu) Hlim Hex Hrc] [Hs' Hgp Hused]. unfold is_u64 in *. split; cbn.
  - split_and!; [done|unfold is_u64; lia|lia].
  - lia.
  - by rewrite Hst.
  - intros Hno. destruct (Hrc Hno) as (? & ? & ?). unfold total in *. split_and!; [done|lia|done].
Qed.

Lemma executeTxs_spec limit txs : limit < 2 ^ 64 -> Forall ordinary txs -> forall i c x,
  progress limit c x ->
  wp True (execute_txs i txs c) x (fun r x' =>
    match r with inl c' => progress limit c' x' | inr _ => True end).
Proof using All.
  intros Hl. induction txs as [|tx txs IH]; intros Hall i c x Hpr; cbn [executeTxs]; [by apply wp_ret|].
  apply Forall_cons_iff in Hall as [Htx Hall]. pose proof Hpr as [(Hs & Hp & Hu) Hlim Hex Hrc].
  apply wp_bind, wp_modify. cbn. set (x1 := set_x_ibs _ x).
  assert (progress limit c x1) as Hpr1.
  { by split. }
  apply wp_bind. eapply wp_mono; [apply applyTransaction_spec; [apply Hpr1|done|cbn; lia]|].
  intros [[rc ret]|err] x2 Hap.
  - apply IH; [done|]. by eapply progress_included.
  - destruct (StatelessExec (config env)) eqn:Est; cbn; [|done].
    apply IH; [done|]. by eapply progress_rejected.
Qed.

End block.

Module blockdemo.
Import evmdemo txdemo.

(** Account 1 is rich, account 119 holds the counter. *)
Definition breader : StateReader :=
  mk_StateReader
    (fun a => (if bool_decide (a = 119%N) then Some (mk_Account true 1 (w 10) EmptyRoot 20%N 1)
               else if bool_decide (a = 1%N) then Some (mk_Account true 0 (w 10000000) EmptyRoot (ikeccak []) 0)
               else None, None))
    (fun _ _ _ => (None, None))
    (fun a _ _ => (if bool_decide (a = 119%N) then Some counter_code else None, None))
    (fun _ _ _ => (19, None))
    (fun _ => (0, None)).

#[local] Instance bdb : StateDB IntraBlockState := IbsDB ikeccak breader.

Definition benv : Env IntraBlockState := demo_env ikeccak.

Definition bheader : BlockHeader := mk_BlockHeader 12965000 (Some 7) 110000 86260 0%N emptyBloom 5%N 0.

(** Two calls of the counter: the second changes a slot that is not zero. *)
Definition btxs : list Transaction := [legacy 0 60000 10 119%N; legacy 1 60000 10 119%N].

Abbreviation run txs := (executeTxs ikeccak breader noopWriter id calc (fun _ => Some 1%N)
  (fun tx => Z.to_N (GetNonce_ tx)) None ""%string noChain bheader benv 0 txs (mk_collected [] [] [])
  (mk_exec New tt 110000 0)).

Lemma benv_ok : block_env ikeccak breader calc None noChain benv.
Proof.
  split; [split; [done|by left]|reflexivity|done|apply calc_u64|done|done].
Qed.


(** The gas of each receipt, the running totals, and what is left. *)
Definition gas_summary (r : outcome ((collected + BlockError) * execState unit)) : option (list (Z * Z * Z) * Z * Z) :=
  match r with
  | Ok (inl c, x) =>
      Some ((fun r => (rc_Status r, rc_GasUsed r, rc_CumulativeGasUsed r)) <$> receipts c, x_usedGas x, x_gp x)
  | _ => None
  end.

Example block_runs : gas_summary (run btxs) = Some ([(1, 43130, 43130); (1, 26030, 69160)], 69160, 40840).
Proof. vm_compute. reflexivity. Qed.

(** A deposit of account 1 that calls the empty account 200. *)
Definition deposit200 (gas : Z) : Transaction :=
  Tx.DepositTx (Tx.mk_Deposit DepositsNonce 1%N (Some 200%N) (w 0) (w 0) gas false []).


(** * The logs of a block *)

Definition log_of (a : address) : Log := mk_Log a [] [] 0 0%N 0 0%N 0.

Definition logged : IntraBlockState := set_logs {[ 1%N := [log_of 7%N]; 2%N := [log_of 8%N] ]} New.

(** The logs of a block are collected by ranging over a map whose keys are
    the transactions, in an order that Go leaves open.  Two transactions with
    a log each give the logs in either order, so the LogsHash of the result
    of ExecuteBlockEphemerally is not determined by the block. *)
Example Logs_unordered :
  Logs id logged = [log_of 8%N; log_of 7%N] /\ Logs reverse logged = [log_of 7%N; log_of 8%N].
Proof. vm_compute. split; reflexivity. Qed.
End blockdemo.
