(* ===== verification/HeaderChecks.v ===== *)
(** The checks of a header against its parent: consensus/misc/eip1559.go,
    gaslimit.go, dao.go, forks.go, and VerifyHeaderBasics of
    consensus/ethash/consensus.go.

    The chain configuration is erigon-lib's; the record [ChainForks] has what
    the checks ask of it. *)
From S2P Require Import Prelude StateTypes.
#[local] Open Scope Z_scope.

Module params1559.
Definition GasLimitBoundDivisor : Z := 1024.
Definition MinGasLimit : Z := 5000.
Definition MaxGasLimit : Z := 0x7fffffffffffffff.
Definition MaximumExtraDataSize : Z := 32.
Definition BaseFeeChangeDenominator : Z := 8.
Definition BaseFeeChangeDenominatorPostDelhi : Z := 16.
Definition ElasticityMultiplier : Z := 2.
Definition InitialBaseFee : Z := 1000000000.
Definition DAOForkExtraRange : Z := 10.
End params1559.
Import params1559.

(** types.Header, the fields the checks read; a big.Int is an integer. *)
Module Header.
Record t := mk {
  Number : Z;
  Time : Z;
  GasLimit : Z;
  GasUsed : Z;
  BaseFee : option Z;
  Difficulty : Z;
  UncleHash : hash;
  Extra : list Byte.byte;
  WithdrawalsHash : option hash;
  Hash : hash
}.
End Header.

Record ChainForks := mk_ChainForks {
  cf_IsLondon : Z -> bool;
  (* [config.Bor != nil && config.Bor.IsDelhi(number)] *)
  cf_IsDelhi : Z -> bool;
  cf_DAOForkBlock : option Z;
  cf_DAOForkSupport : bool;
  cf_DAOForkBlockExtra : list Byte.byte;
  cf_TangerineWhistleBlock : option Z;
  cf_TangerineWhistleHash : hash
}.

Inductive HeaderError :=
| errGasLimit
| errGasLimitBelow5000
| errMissingBaseFee
| errBaseFee
| errExtraTooLong
| ErrFutureBlock
| errOlderBlockTime
| errGasLimitTooHigh
| errGasUsed
| errBaseFeeBeforeFork
| ErrInvalidNumber
| ErrUnexpectedWithdrawals
| ErrBadProDAOExtra
| ErrBadNoDAOExtra
| errForkHash.

(** * gaslimit.go *)

(** [diff := int64(p) - int64(h); if diff < 0 { diff *= -1 }; uint64(diff)] *)
Definition gasLimitDiff (parentGasLimit headerGasLimit : Z) : Z :=
  let diff := int64_wrap (int64_of_u64 parentGasLimit - int64_of_u64 headerGasLimit) in
  let diff := if diff <? 0 then int64_wrap (diff * -1) else diff in
  u64 diff.

Definition VerifyGaslimit (parentGasLimit headerGasLimit : Z) : option HeaderError :=
  let limit := parentGasLimit / GasLimitBoundDivisor in
  if limit <=? gasLimitDiff parentGasLimit headerGasLimit then Some errGasLimit
  else if headerGasLimit <? MinGasLimit then Some errGasLimitBelow5000
  else None.

Section checks.
Context (forks : ChainForks).

(** * eip1559.go *)
Definition getBaseFeeChangeDenominator (number : Z) : Z :=
  if cf_IsDelhi forks number then BaseFeeChangeDenominatorPostDelhi else BaseFeeChangeDenominator.

(** big.Int division panics on zero. *)
Definition bigDiv (x y : Z) : option Z := if y =? 0 then None else Some (x / y).

(** [None] is a panic: a missing base fee, or a division by a zero target. *)
Definition CalcBaseFee (parent : Header.t) : option Z :=
  if negb (cf_IsLondon forks (u64 (Header.Number parent))) then Some InitialBaseFee
  else
    let parentGasTarget := Header.GasLimit parent / ElasticityMultiplier in
    let denominator := getBaseFeeChangeDenominator (u64 (Header.Number parent)) in
    if Header.GasUsed parent =? parentGasTarget then Header.BaseFee parent
    else if parentGasTarget <? Header.GasUsed parent then
      baseFee ← Header.BaseFee parent;
      y ← bigDiv (baseFee * u64_sub (Header.GasUsed parent) parentGasTarget) parentGasTarget;
      x ← bigDiv y denominator;
      Some (baseFee + Z.max x 1)
    else
      baseFee ← Header.BaseFee parent;
      y ← bigDiv (baseFee * u64_sub parentGasTarget (Header.GasUsed parent)) parentGasTarget;
      x ← bigDiv y denominator;
      Some (Z.max (baseFee - x) 0).

Definition VerifyEip1559Header (parent header : Header.t) : option (option HeaderError) :=
  let parentGasLimit :=
    if negb (cf_IsLondon forks (u64 (Header.Number parent)))
    then u64_mul (Header.GasLimit parent) ElasticityMultiplier else Header.GasLimit parent in
  match VerifyGaslimit parentGasLimit (Header.GasLimit header) with
  | Some e => Some (Some e)
  | None =>
      match Header.BaseFee header with
      | None => Some (Some errMissingBaseFee)
      | Some baseFee =>
          expectedBaseFee ← CalcBaseFee parent;
          Some (if baseFee =? expectedBaseFee then None else Some errBaseFee)
      end
  end.

(** * dao.go and forks.go *)
Definition VerifyDAOHeaderExtraData (header : Header.t) : option HeaderError :=
  match cf_DAOForkBlock forks with
  | None => None
  | Some block =>
      if (Header.Number header <? block) || (block + DAOForkExtraRange <=? Header.Number header) then None
      else
        let marked := bool_decide (byte.unsigned <$> Header.Extra header = byte.unsigned <$> cf_DAOForkBlockExtra forks) in
        if cf_DAOForkSupport forks then if negb marked then Some ErrBadProDAOExtra else None
        else if marked then Some ErrBadNoDAOExtra else None
  end.

Definition VerifyForkHashes (header : Header.t) (uncle : bool) : option HeaderError :=
  if uncle then None
  else if bool_decide (cf_TangerineWhistleBlock forks = Some (Header.Number header)) then
    if bool_decide (cf_TangerineWhistleHash forks <> 0%N) &&
       bool_decide (cf_TangerineWhistleHash forks <> Header.Hash header) then Some errForkHash else None
  else None.

(** * VerifyHeaderBasics *)

(** [latest] is the present time plus the allowance for future blocks. *)
Definition VerifyHeaderBasics (latest : Z) (header parent : Header.t) (uncle : bool)
    : option (option HeaderError) :=
  if MaximumExtraDataSize <? Z.of_nat (length (Header.Extra header)) then Some (Some errExtraTooLong)
  else if negb uncle && (latest <? Header.Time header) then Some (Some ErrFutureBlock)
  else if Header.Time header <=? Header.Time parent then Some (Some errOlderBlockTime)
  else if MaxGasLimit <? Header.GasLimit header then Some (Some errGasLimitTooHigh)
  else if Header.GasLimit header <? Header.GasUsed header then Some (Some errGasUsed)
  else
    err ← (if negb (cf_IsLondon forks (u64 (Header.Number header))) then
             match Header.BaseFee header with
             | Some _ => Some (Some errBaseFeeBeforeFork)
             | None =>
                 let limit := Header.GasLimit parent / GasLimitBoundDivisor in
                 if (limit <=? gasLimitDiff (Header.GasLimit parent) (Header.GasLimit header)) ||
                    (Header.GasLimit header <? MinGasLimit) then Some (Some errGasLimit) else Some None
             end
           else VerifyEip1559Header parent header);
    match err with
    | Some e => Some (Some e)
    | None =>
        if negb (Header.Number header - Header.Number parent =? 1) then Some (Some ErrInvalidNumber)
        else
          match Header.WithdrawalsHash header with
          | Some _ => Some (Some ErrUnexpectedWithdrawals)
          | None =>
              match VerifyDAOHeaderExtraData header with
              | Some e => Some (Some e)
              | None => Some (VerifyForkHashes header uncle)
              end
          end
    end.
End checks.

(** * Gas limits *)
Lemma gasLimitDiff_spec p h : 0 <= p < 2 ^ 63 -> 0 <= h < 2 ^ 63 -> gasLimitDiff p h = Z.abs (p - h).
Proof.
  intros Hp Hh. unfold gasLimitDiff, int64_wrap, int64_of_u64, u64.
  destruct (Z.ltb_spec p (2 ^ 63)); [|lia]. destruct (Z.ltb_spec h (2 ^ 63)); [|lia].
  destruct (Z.le_gt_cases 0 (p - h)).
  - rewrite (Z.mod_small (p - h)) by lia. destruct (Z.ltb_spec (p - h) (2 ^ 63)); [|lia].
    destruct (Z.ltb_spec (p - h) 0); [lia|]. rewrite Z.mod_small by lia. lia.
  - replace ((p - h) mod 2 ^ 64) with (p - h + 2 ^ 64).
    2: { symmetry. rewrite <- (Z.mod_add _ 1) by lia. rewrite Z.mul_1_l. apply Z.mod_small. lia. }
    destruct (Z.ltb_spec (p - h + 2 ^ 64) (2 ^ 63)); [lia|].
    replace (p - h + 2 ^ 64 - 2 ^ 64) with (p - h) by lia.
    destruct (Z.ltb_spec (p - h) 0); [|lia]. replace ((p - h) * -1) with (h - p) by lia.
    rewrite (Z.mod_small (h - p)) by lia. destruct (Z.ltb_spec (h - p) (2 ^ 63)); [|lia].
    rewrite Z.mod_small by lia. lia.
Qed.

Lemma VerifyGaslimit_spec p h : 0 <= p < 2 ^ 63 -> 0 <= h < 2 ^ 63 ->
  VerifyGaslimit p h = None <-> Z.abs (p - h) < p / 1024 /\ 5000 <= h.
Proof.
  intros Hp Hh. unfold VerifyGaslimit, GasLimitBoundDivisor, MinGasLimit. rewrite gasLimitDiff_spec by done.
  destruct (Z.leb_spec (p / 1024) (Z.abs (p - h))), (Z.ltb_spec h 5000); split; try done; lia.
Qed.

(** * Base fees *)

(** The change of the base fee, rounded down twice. *)
Lemma fee_delta_bounds b d t n : 0 <= b -> 0 < t -> 0 < n -> 0 <= d <= t ->
  0 <= b * d / t / n <= b / n.
Proof.
  intros Hb Ht Hn Hd. split.
  - apply Z.div_pos; [|lia]. apply Z.div_pos; nia.
  - apply Z.div_le_mono; [lia|]. apply Z.div_le_upper_bound; nia.
Qed.

(** The change one unit of gas above the double of the target can make. *)
Lemma fee_delta_above b d t n : 0 <= b -> 0 < t -> 0 < n -> 0 <= d <= t + 1 ->
  0 <= b * d / t / n <= (b + b / t) / n.
Proof.
  intros Hb Ht Hn Hd. split.
  - apply Z.div_pos; [|lia]. apply Z.div_pos; nia.
  - apply Z.div_le_mono; [lia|]. rewrite <- Z.div_add_l by lia. apply Z.div_le_mono; nia.
Qed.

(** What is asked of a parent: a header that has been accepted itself. *)
Record parent_ok (forks : ChainForks) (parent : Header.t) : Prop := {
  po_limit : 5000 <= Header.GasLimit parent < 2 ^ 62;
  po_used : 0 <= Header.GasUsed parent <= Header.GasLimit parent;
  po_fee : cf_IsLondon forks (u64 (Header.Number parent)) = true ->
           exists b, Header.BaseFee parent = Some b /\ 0 <= b
}.

(** The base fee a child must have, within a denominator of its parent's. *)
Definition base_fee_moves (forks : ChainForks) (parent : Header.t) (f : Z) : Prop :=
  let n := getBaseFeeChangeDenominator forks (u64 (Header.Number parent)) in
  let t := Header.GasLimit parent / 2 in
  forall b, Header.BaseFee parent = Some b ->
    0 <= f /\
    (Header.GasUsed parent = t -> f = b) /\
    (t < Header.GasUsed parent -> b + 1 <= f <= b + Z.max 1 ((b + b / t) / n)) /\
    (Header.GasUsed parent < t -> b - b / n <= f <= b).

Lemma denominator_pos forks n : 0 < getBaseFeeChangeDenominator forks n.
Proof. unfold getBaseFeeChangeDenominator. by destruct (cf_IsDelhi forks n). Qed.

Lemma CalcBaseFee_London forks parent : parent_ok forks parent ->
  cf_IsLondon forks (u64 (Header.Number parent)) = true ->
  exists f, CalcBaseFee forks parent = Some f /\ base_fee_moves forks parent f.
Proof.
  intros [Hl Hu Hf] Hlon. destruct (Hf Hlon) as (b & Eb & Hb). unfold CalcBaseFee, base_fee_moves. rewrite Hlon.
  cbn [negb]. unfold ElasticityMultiplier. rewrite Eb. set (n := getBaseFeeChangeDenominator _ _).
  assert (0 < n) as Hn by apply denominator_pos. set (t := Header.GasLimit parent / 2).
  set (u := Header.GasUsed parent) in *.
  assert (2500 <= t /\ 2 * t <= Header.GasLimit parent <= 2 * t + 1 /\ t < 2 ^ 62) as (Ht & Ht2 & Ht3).
  { unfold t. pose proof (Z.div_mod (Header.GasLimit parent) 2) as E.
    pose proof (Z.mod_pos_bound (Header.GasLimit parent) 2). lia. }
  assert (forall z, bigDiv z n = Some (z / n) /\ bigDiv z t = Some (z / t)) as Hdiv.
  { intros z. unfold bigDiv. destruct (Z.eqb_spec n 0), (Z.eqb_spec t 0); lia || done. }
  destruct (Z.eqb_spec u t) as [Hut|Hut].
  { exists b. split; [done|]. intros b' [= <-]. split_and!; [done|done|lia|lia]. }
  destruct (Z.ltb_spec t u); rewrite u64_sub_small by (unfold is_u64; lia); cbn;
    rewrite (proj2 (Hdiv _)); cbn; rewrite (proj1 (Hdiv _)); cbn; eexists; (split; [done|]); intros b' [= <-].
  - pose proof (fee_delta_above b (u - t) t n Hb ltac:(lia) Hn ltac:(lia)). split_and!; intros; lia.
  - pose proof (fee_delta_bounds b (t - u) t n Hb ltac:(lia) Hn ltac:(lia)) as Hd.
    assert (b / n <= b) by (apply Z.div_le_upper_bound; nia). split_and!; intros; lia.
Qed.

(** The gas limit of a child, and its base fee. *)
Definition child_ok (forks : ChainForks) (parent header : Header.t) : Prop :=
  let london := cf_IsLondon forks (u64 (Header.Number parent)) in
  let p := if london then Header.GasLimit parent else 2 * Header.GasLimit parent in
  Z.abs (p - Header.GasLimit header) < p / 1024 /\ 5000 <= Header.GasLimit header /\
  exists f, Header.BaseFee header = Some f /\
    if london then CalcBaseFee forks parent = Some f /\ base_fee_moves forks parent f else f = 1000000000.

Lemma VerifyEip1559Header_spec forks parent header : parent_ok forks parent ->
  0 <= Header.GasLimit header < 2 ^ 63 ->
  exists r, VerifyEip1559Header forks parent header = Some r /\ (r = None <-> child_ok forks parent header).
Proof.
  intros Hpar Hh. pose proof Hpar as [Hl Hu _]. unfold VerifyEip1559Header, child_ok, ElasticityMultiplier.
  assert (exists f, CalcBaseFee forks parent = Some f /\
    (if cf_IsLondon forks (u64 (Header.Number parent)) then base_fee_moves forks parent f else f = 1000000000)) as Hc.
  { destruct (cf_IsLondon forks (u64 (Header.Number parent))) eqn:El; [by apply CalcBaseFee_London|].
    unfold CalcBaseFee. rewrite El. eauto. }
  destruct Hc as (f & Ef & Hf).
  destruct (cf_IsLondon forks (u64 (Header.Number parent))); cbn [negb];
    rewrite ?u64_mul_small by lia; rewrite ?(Z.mul_comm (Header.GasLimit parent) 2);
    match goal with |- context [VerifyGaslimit ?p ?h] =>
      pose proof (VerifyGaslimit_spec p h ltac:(lia) Hh) as Hg; destruct (VerifyGaslimit p h) end.
  1, 3: eexists; split; [done|]; split; [done|]; intros (H1 & H2 & _); by destruct (proj2 Hg (conj H1 H2)).
  all: destruct (proj1 Hg eq_refl) as [H1 H2]; destruct (Header.BaseFee header) as [b|];
    [|eexists; split; [done|]; split; [done|]; by intros (_ & _ & ? & ? & _)].
  all: rewrite Ef; cbn; eexists; split; [done|]; destruct (Z.eqb_spec b f) as [->|]; split; try done.
  - intros _. split_and!; [done|done|]. eauto.
  - intros (_ & _ & f' & [= <-] & E & _). by simplify_eq.
  - intros _. split_and!; [done|done|]. eauto.
  - intros (_ & _ & f' & [= <-] & ->). by subst.
Qed.

(** Beyond the range of int64 the difference wraps: a parent limit of 2^64 - 2
    (a limit of 2^63 - 1 doubled at the London fork) admits 5000. *)
Example VerifyGaslimit_wraps : VerifyGaslimit (u64_mul MaxGasLimit ElasticityMultiplier) 5000 = None.
Proof. reflexivity. Qed.


(** A parent at 30 million gas with 7 gwei, full; and its child. *)
Definition demo_forks : ChainForks := mk_ChainForks (fun _ => true) (fun _ => false) None false [] None 0%N.

Definition demo_parent : Header.t := Header.mk 100 1000 30000000 30000000 (Some 7000000000) 0 0%N [] None 0%N.

Definition demo_child : Header.t := Header.mk 101 1012 30029295 0 (Some 7875000000) 0 0%N [] None 0%N.


Example demo_child_accepted : VerifyHeaderBasics demo_forks 2000 demo_child demo_parent false = Some None.
Proof. reflexivity. Qed.
