(* ===== verification/Difficulty.v ===== *)
(** The difficulty of a proof-of-work block: the reference algorithms of
    consensus/ethash/consensus.go, over big integers, and the optimised ones
    of consensus/ethash/difficulty.go, over 256-bit words. *)
From S2P Require Import Prelude Uint256 StateTypes HeaderChecks.
#[local] Open Scope Z_scope.

Definition DifficultyBoundDivisor : Z := 2048.
Definition MinimumDifficulty : Z := 131072.
Definition DurationLimit : Z := 13.
Definition expDiffPeriod : Z := 100000.
Definition difficultyBoundDivisor : Z := 11.

(** types.EmptyUncleHash. *)
Definition EmptyUncleHash : hash := 0x1dcc4de8dec75d7aab85b567b6ccd41ad312451b948a7413f0a142fd40d49347%N.

(** * consensus.go: the reference *)

(** The exponential factor, added when [periodCount] is above one. *)
Definition bomb (periodCount : Z) : Z := if 1 <? periodCount then 2 ^ (periodCount - 2) else 0.

Definition makeDifficultyCalculator (bombDelay time parentTime parentDifficulty parentNumber : Z)
    (parentUncleHash : hash) : Z :=
  let bombDelayFromParent := u64_sub bombDelay 1 in
  let x := (time - parentTime) / 9 in
  let x := if bool_decide (parentUncleHash = EmptyUncleHash) then 1 - x else 2 - x in
  let x := if x <? -99 then -99 else x in
  let x := parentDifficulty + parentDifficulty / DifficultyBoundDivisor * x in
  let x := if x <? MinimumDifficulty then MinimumDifficulty else x in
  let fakeBlockNumber := if bombDelayFromParent <=? parentNumber then u64_sub parentNumber bombDelayFromParent else 0 in
  x + bomb (fakeBlockNumber / expDiffPeriod).

Definition calcDifficultyHomestead (time parentTime parentDifficulty parentNumber : Z) : Z :=
  let x := 1 - (time - parentTime) / 10 in
  let x := if x <? -99 then -99 else x in
  let x := parentDifficulty + parentDifficulty / DifficultyBoundDivisor * x in
  let x := if x <? MinimumDifficulty then MinimumDifficulty else x in
  x + bomb (u64_add parentNumber 1 / expDiffPeriod).

Definition calcDifficultyFrontier (time parentTime parentDifficulty parentNumber : Z) : Z :=
  let adjust := parentDifficulty / DifficultyBoundDivisor in
  let diff := if time - parentTime <? DurationLimit then parentDifficulty + adjust else parentDifficulty - adjust in
  let diff := if diff <? MinimumDifficulty then MinimumDifficulty else diff in
  let periodCount := u64_add parentNumber 1 / expDiffPeriod in
  if 1 <? periodCount then Z.max (diff + 2 ^ (periodCount - 2)) MinimumDifficulty else diff.

(** The forks CalcDifficulty asks the configuration about. *)
Record DifficultyForks := mk_DifficultyForks {
  IsGrayGlacier : Z -> bool;
  IsArrowGlacier : Z -> bool;
  IsLondonBlock : Z -> bool;
  IsMuirGlacier : Z -> bool;
  IsConstantinopleBlock : Z -> bool;
  IsByzantiumBlock : Z -> bool;
  IsHomesteadBlock : Z -> bool
}.

Definition CalcDifficulty (config : DifficultyForks) (time parentTime parentDifficulty parentNumber : Z)
    (parentUncleHash : hash) : Z :=
  let next := u64_add parentNumber 1 in
  let dynamic bombDelay :=
    makeDifficultyCalculator bombDelay time parentTime parentDifficulty parentNumber parentUncleHash in
  if IsGrayGlacier config next then dynamic 11400000
  else if IsArrowGlacier config next then dynamic 10700000
  else if IsLondonBlock config next then dynamic 9700000
  else if IsMuirGlacier config next then dynamic 9000000
  else if IsConstantinopleBlock config next then dynamic 5000000
  else if IsByzantiumBlock config next then dynamic 3000000
  else if IsHomesteadBlock config next then calcDifficultyHomestead time parentTime parentDifficulty parentNumber
  else calcDifficultyFrontier time parentTime parentDifficulty parentNumber.

(** * difficulty.go: on 256-bit words *)
Section u256.
Context {U : Uint256}.

(** [if d.LtUint64(minimumDifficulty) { d.SetUint64(minimumDifficulty) }] *)
Definition atLeastMinimum (d : u256) : u256 :=
  if LtUint64 d MinimumDifficulty then SetUint64 MinimumDifficulty else d.

(** The end of the Frontier and Homestead calculations. *)
Definition addBomb (parent : Header.t) (pDiff : u256) : u256 :=
  let periodCount := u64_add (u64 (Header.Number parent)) 1 / expDiffPeriod in
  if 1 <? periodCount then Add pDiff (Lsh SetOne (u64_sub periodCount 2)) else pDiff.

Definition CalcDifficultyFrontierU256 (time : Z) (parent : Header.t) : Z :=
  let pDiff := (FromBig (Header.Difficulty parent)).1 in
  let adjust := Rsh pDiff difficultyBoundDivisor in
  let pDiff := if u64_sub time (Header.Time parent) <? DurationLimit then Add pDiff adjust else Sub pDiff adjust in
  to_Z (addBomb parent (atLeastMinimum pDiff)).

Definition CalcDifficultyHomesteadU256 (time : Z) (parent : Header.t) : Z :=
  let pDiff := (FromBig (Header.Difficulty parent)).1 in
  let adjust := Rsh pDiff difficultyBoundDivisor in
  let x := u64_sub time (Header.Time parent) / 10 in
  let '(x, neg) := if x =? 0 then (1, false) else if 100 <=? x then (99, true) else (u64_sub x 1, true) in
  let adjust := Mul adjust (SetUint64 x) in
  let pDiff := if (neg : bool) then Sub pDiff adjust else Add pDiff adjust in
  to_Z (addBomb parent (atLeastMinimum pDiff)).

Definition MakeDifficultyCalculatorU256 (bombDelay time : Z) (parent : Header.t) : Z :=
  let bombDelayFromParent := u64_sub bombDelay 1 in
  let x := u64_sub time (Header.Time parent) / 9 in
  let c := if bool_decide (Header.UncleHash parent <> EmptyUncleHash) then 2 else 1 in
  let xNeg := c <=? x in
  let x := if xNeg then u64_sub x c else u64_sub c x in
  let x := if 99 <? x then 99 else x in
  let pDiff := (FromBig (Header.Difficulty parent)).1 in
  let z := Mul (Rsh pDiff difficultyBoundDivisor) (SetUint64 x) in
  let y := if xNeg then Sub pDiff z else Add pDiff z in
  let y := atLeastMinimum y in
  let pNum := u64 (Header.Number parent) in
  let y :=
    if bombDelayFromParent <=? pNum then
      let fakeBlockNumber := u64_sub pNum bombDelayFromParent in
      if 2 * expDiffPeriod <=? fakeBlockNumber
      then Add (Lsh SetOne (u64_sub (fakeBlockNumber / expDiffPeriod) 2)) y else y
    else y in
  to_Z y.
End u256.

(** * Equivalence *)
Section equivalence.
Context {U : Uint256} {US : Uint256Spec U}.

(** A parent and a time for which nothing overflows: the child is newer, the
    difficulty is below 2^254 and the bomb has not gone off that far. *)
Record difficulty_ok (time : Z) (parent : Header.t) : Prop := {
  do_time : 0 <= Header.Time parent <= time /\ time < 2 ^ 64;
  do_diff : 0 <= Header.Difficulty parent < 2 ^ 254;
  do_number : 0 <= Header.Number parent < 25000000
}.

Lemma FromBig_small z : 0 <= z < 2 ^ 254 -> to_Z (FromBig z).1 = z.
Proof. intros Hz. rewrite to_Z_FromBig by lia. apply Z.mod_small. unfold two256. lia. Qed.

Lemma Rsh_bound (d : u256) : to_Z (Rsh d difficultyBoundDivisor) = to_Z d / 2048.
Proof. rewrite to_Z_Rsh; [done|]. unfold difficultyBoundDivisor. lia. Qed.

Lemma atLeastMinimum_spec (d : u256) :
  to_Z (atLeastMinimum d) = if to_Z d <? MinimumDifficulty then MinimumDifficulty else to_Z d.
Proof.
  unfold atLeastMinimum. rewrite LtUint64_spec by done. case_match; [|done]. by rewrite to_Z_SetUint64.
Qed.

(** A step of [x] fractions up or down. *)
Lemma adjust_up (d : u256) x : to_Z d < 2 ^ 254 -> 0 <= x <= 2 ->
  to_Z (Add d (Mul (Rsh d difficultyBoundDivisor) (SetUint64 x))) = to_Z d + to_Z d / 2048 * x.
Proof.
  intros Hd Hx. pose proof (to_Z_range d). rewrite to_Z_Add, to_Z_Mul, Rsh_bound, to_Z_SetUint64 by (unfold is_u64; lia).
  assert (0 <= to_Z d / 2048 <= to_Z d) by (split; [apply Z.div_pos; lia|apply Z.div_le_upper_bound; lia]).
  unfold two256. rewrite (Z.mod_small (to_Z d / 2048 * x)) by nia. apply Z.mod_small. nia.
Qed.

Lemma adjust_down (d : u256) x : to_Z d < 2 ^ 254 -> 0 <= x <= 99 ->
  to_Z (Sub d (Mul (Rsh d difficultyBoundDivisor) (SetUint64 x))) = to_Z d + to_Z d / 2048 * - x.
Proof.
  intros Hd Hx. pose proof (to_Z_range d). rewrite to_Z_Sub, to_Z_Mul, Rsh_bound, to_Z_SetUint64 by (unfold is_u64; lia).
  assert (0 <= to_Z d / 2048 * 2048 <= to_Z d).
  { pose proof (Z.mul_div_le (to_Z d) 2048). pose proof (Z.div_pos (to_Z d) 2048). lia. }
  unfold two256. rewrite (Z.mod_small (to_Z d / 2048 * x)) by nia. rewrite Z.mod_small by nia. lia.
Qed.

(** The bomb, while it is small. *)
Lemma Lsh_bomb k : 2 <= k <= 250 -> to_Z (Lsh SetOne (u64_sub k 2)) = 2 ^ (k - 2).
Proof.
  intros Hk. rewrite u64_sub_small by (unfold is_u64; lia). rewrite to_Z_Lsh by lia.
  rewrite to_Z_SetOne, Z.mul_1_l. apply Z.mod_small. split; [apply Z.pow_nonneg; lia|].
  unfold two256. apply Z.pow_lt_mono_r; lia.
Qed.

Lemma Add_bomb (d : u256) k : to_Z d < 2 ^ 255 -> 2 <= k <= 250 ->
  to_Z (Add d (Lsh SetOne (u64_sub k 2))) = to_Z d + 2 ^ (k - 2).
Proof.
  intros Hd Hk. rewrite to_Z_Add, Lsh_bomb by done. pose proof (to_Z_range d). apply Z.mod_small.
  assert (0 < 2 ^ (k - 2) <= 2 ^ 250) by (split; [apply Z.pow_pos_nonneg; lia|apply Z.pow_le_mono_r; lia]).
  unfold two256. lia.
Qed.

Lemma addBomb_spec parent (d : u256) : 0 <= Header.Number parent < 25000000 -> to_Z d < 2 ^ 255 ->
  to_Z (addBomb parent d) = to_Z d + bomb (u64_add (u64 (Header.Number parent)) 1 / expDiffPeriod).
Proof.
  intros Hn Hd. unfold addBomb, bomb, expDiffPeriod.
  rewrite u64_small, u64_add_small by (unfold is_u64; lia).
  assert ((Header.Number parent + 1) / 100000 <= 250) by (apply Z.div_le_upper_bound; lia).
  destruct (Z.ltb_spec 1 ((Header.Number parent + 1) / 100000)); [|lia].
  rewrite Add_bomb by lia. lia.
Qed.

(** The difficulty before the bomb is in range. *)
Lemma minimum_range z : z < 2 ^ 255 -> (if z <? MinimumDifficulty then MinimumDifficulty else z) < 2 ^ 255.
Proof. unfold MinimumDifficulty. case_match; lia. Qed.

Lemma adjusted_range d x : 0 <= d < 2 ^ 254 -> -99 <= x <= 2 -> d + d / 2048 * x < 2 ^ 255.
Proof.
  intros Hd Hx. pose proof (Z.mul_div_le d 2048). pose proof (Z.div_pos d 2048). nia.
Qed.

Lemma Frontier_equiv time parent : difficulty_ok time parent ->
  CalcDifficultyFrontierU256 time parent =
    calcDifficultyFrontier time (Header.Time parent) (Header.Difficulty parent) (u64 (Header.Number parent)).
Proof.
  intros [Ht Hd Hn]. unfold CalcDifficultyFrontierU256, calcDifficultyFrontier, DifficultyBoundDivisor.
  rewrite u64_sub_small by (unfold is_u64; lia).
  set (p := (FromBig (Header.Difficulty parent)).1).
  assert (to_Z p = Header.Difficulty parent) as Ep by (by apply FromBig_small).
  assert (forall y, to_Z y = (if time - Header.Time parent <? DurationLimit
      then Header.Difficulty parent + Header.Difficulty parent / 2048
      else Header.Difficulty parent - Header.Difficulty parent / 2048) ->
    to_Z (addBomb parent (atLeastMinimum y)) = calcDifficultyFrontier time (Header.Time parent)
      (Header.Difficulty parent) (u64 (Header.Number parent))) as Hfin.
  { intros y Ey. assert (0 <= Header.Difficulty parent / 2048 <= Header.Difficulty parent).
    { split; [apply Z.div_pos; lia|apply Z.div_le_upper_bound; lia]. }
    rewrite addBomb_spec, atLeastMinimum_spec, Ey; [|done|].
    - unfold calcDifficultyFrontier, bomb, DifficultyBoundDivisor, MinimumDifficulty.
      set (k := u64_add _ 1 / expDiffPeriod). destruct (Z.ltb_spec 1 k); [|lia].
      assert (0 < 2 ^ (k - 2)) by (apply Z.pow_pos_nonneg; lia). repeat case_match; lia.
    - rewrite atLeastMinimum_spec, Ey. apply minimum_range. case_match; lia. }
  pose proof (adjust_up p 1 ltac:(lia) ltac:(lia)) as Hup. pose proof (adjust_down p 1 ltac:(lia) ltac:(lia)) as Hdn.
  assert (Mul (Rsh p difficultyBoundDivisor) (SetUint64 1) = Rsh p difficultyBoundDivisor) as E1.
  { apply to_Z_inj. rewrite to_Z_Mul, to_Z_SetUint64, Z.mul_1_r by done. apply Z.mod_small, to_Z_range. }
  rewrite E1 in Hup, Hdn. apply Hfin. case_match; rewrite ?Hup, ?Hdn, Ep; lia.
Qed.

(** The common part of the other two: a step of [x], the minimum, the bomb. *)
Lemma adjusted_spec (p : u256) (neg : bool) x : to_Z p < 2 ^ 254 ->
  0 <= x -> x <= (if neg then 99 else 2) ->
  let y := atLeastMinimum (if neg then Sub p (Mul (Rsh p difficultyBoundDivisor) (SetUint64 x))
                           else Add p (Mul (Rsh p difficultyBoundDivisor) (SetUint64 x))) in
  let z := to_Z p + to_Z p / 2048 * (if neg then - x else x) in
  to_Z y = (if z <? MinimumDifficulty then MinimumDifficulty else z) /\ to_Z y < 2 ^ 255.
Proof.
  intros Hp Hx Hle. cbn zeta. pose proof (to_Z_range p).
  assert (to_Z p + to_Z p / 2048 * (if neg then - x else x) < 2 ^ 255).
  { apply adjusted_range; [lia|]. destruct neg; lia. }
  rewrite atLeastMinimum_spec. destruct neg; rewrite ?adjust_up, ?adjust_down by lia;
    (split; [done|by apply minimum_range]).
Qed.

Lemma Homestead_equiv time parent : difficulty_ok time parent ->
  CalcDifficultyHomesteadU256 time parent =
    calcDifficultyHomestead time (Header.Time parent) (Header.Difficulty parent) (u64 (Header.Number parent)).
Proof.
  intros [Ht Hd Hn]. unfold CalcDifficultyHomesteadU256, calcDifficultyHomestead, DifficultyBoundDivisor.
  rewrite (u64_sub_small time) by (unfold is_u64; lia).
  set (p := (FromBig (Header.Difficulty parent)).1).
  assert (to_Z p = Header.Difficulty parent) as Ep by (by apply FromBig_small). rewrite <- Ep.
  set (q := (time - Header.Time parent) / 10).
  assert (0 <= q <= time) by (unfold q; split; [apply Z.div_pos; lia|apply Z.div_le_upper_bound; lia]).
  destruct (Z.eqb_spec q 0) as [Eq|]; [|destruct (Z.leb_spec 100 q)].
  - destruct (adjusted_spec p false 1 ltac:(lia) ltac:(lia) ltac:(cbn; lia)) as [E B]. cbn zeta in E, B.
    rewrite addBomb_spec, E by done. rewrite Eq. done.
  - destruct (adjusted_spec p true 99 ltac:(lia) ltac:(lia) ltac:(cbn; lia)) as [E B]. cbn zeta in E, B.
    rewrite addBomb_spec, E by done. destruct (Z.ltb_spec (1 - q) (-99)); [done|].
    by replace (1 - q) with (-99) by lia.
  - rewrite (u64_sub_small q) by (unfold is_u64; lia).
    destruct (adjusted_spec p true (q - 1) ltac:(lia) ltac:(lia) ltac:(cbn; lia)) as [E B]. cbn zeta in E, B.
    rewrite addBomb_spec, E by done. destruct (Z.ltb_spec (1 - q) (-99)); [lia|].
    by replace (- (q - 1)) with (1 - q) by lia.
Qed.

(** The bomb with a delay. *)
Lemma delayed_bomb_spec (y : u256) delay n : to_Z y < 2 ^ 255 -> 0 <= n < 25000000 -> is_u64 delay ->
  to_Z (if delay <=? n then
          if 2 * expDiffPeriod <=? u64_sub n delay
          then Add (Lsh SetOne (u64_sub (u64_sub n delay / expDiffPeriod) 2)) y else y
        else y) =
  to_Z y + bomb ((if delay <=? n then u64_sub n delay else 0) / expDiffPeriod).
Proof.
  intros Hy Hn Hd. unfold bomb, expDiffPeriod, is_u64 in *. destruct (Z.leb_spec delay n); [|change (0 / 100000) with 0; cbn [Z.ltb Z.compare]; lia].
  rewrite u64_sub_small by (unfold is_u64; lia). set (f := n - delay).
  assert (f / 100000 <= 250) by (apply Z.div_le_upper_bound; unfold f; lia).
  pose proof (Z.div_mod f 100000). pose proof (Z.mod_pos_bound f 100000).
  destruct (Z.leb_spec (2 * 100000) f), (Z.ltb_spec 1 (f / 100000)); try lia.
  replace (Add (Lsh SetOne (u64_sub (f / 100000) 2)) y) with (Add y (Lsh SetOne (u64_sub (f / 100000) 2))).
  - apply Add_bomb; lia.
  - apply to_Z_inj. by rewrite !to_Z_Add, Z.add_comm.
Qed.

Lemma Dynamic_equiv bombDelay time parent : difficulty_ok time parent ->
  MakeDifficultyCalculatorU256 bombDelay time parent =
    makeDifficultyCalculator bombDelay time (Header.Time parent) (Header.Difficulty parent)
      (u64 (Header.Number parent)) (Header.UncleHash parent).
Proof.
  intros [Ht Hd Hn]. unfold MakeDifficultyCalculatorU256, makeDifficultyCalculator, DifficultyBoundDivisor.
  rewrite (u64_sub_small time) by (unfold is_u64; lia).
  set (p := (FromBig (Header.Difficulty parent)).1).
  assert (to_Z p = Header.Difficulty parent) as Ep by (by apply FromBig_small). rewrite <- Ep.
  set (q := (time - Header.Time parent) / 9).
  assert (0 <= q <= time) by (unfold q; split; [apply Z.div_pos; lia|apply Z.div_le_upper_bound; lia]).
  rewrite (u64_small (Header.Number parent)) by (unfold is_u64; lia).
  set (c := if bool_decide (Header.UncleHash parent <> EmptyUncleHash) then 2 else 1).
  assert ((if bool_decide (Header.UncleHash parent = EmptyUncleHash) then 1 - q else 2 - q) = c - q) as ->.
  { unfold c. destruct (decide (Header.UncleHash parent = EmptyUncleHash)).
    - by rewrite bool_decide_eq_true_2, bool_decide_eq_false_2 by tauto.
    - by rewrite bool_decide_eq_false_2, bool_decide_eq_true_2. }
  assert (1 <= c <= 2) by (unfold c; case_match; lia).
  pose proof (u64_range (bombDelay - 1)) as Hdelay. fold (u64_sub bombDelay 1) in Hdelay.
  destruct (Z.leb_spec c q) as [Hle|Hgt].
  - rewrite (u64_sub_small q c) by (unfold is_u64; lia). set (x := if 99 <? q - c then 99 else q - c).
    assert (0 <= x <= 99) by (unfold x; case_match eqn:E; [|apply Z.ltb_ge in E]; lia).
    destruct (adjusted_spec p true x ltac:(lia) ltac:(lia) ltac:(cbn; lia)) as [E B]. cbn zeta in E, B.
    rewrite delayed_bomb_spec, E by done. repeat f_equal.
    all: replace (if c - q <? -99 then -99 else c - q) with (- x); [done|].
    all: unfold x; destruct (Z.ltb_spec 99 (q - c)), (Z.ltb_spec (c - q) (-99)); lia.
  - rewrite (u64_sub_small c q) by (unfold is_u64; lia).
    destruct (Z.ltb_spec 99 (c - q)); [lia|]. destruct (Z.ltb_spec (c - q) (-99)); [lia|].
    destruct (adjusted_spec p false (c - q) ltac:(lia) ltac:(lia) ltac:(cbn; lia)) as [E B]. cbn zeta in E, B.
    by rewrite delayed_bomb_spec, E by done.
Qed.

Lemma bomb_nonneg k : 0 <= bomb k.
Proof. unfold bomb. case_match; [|done]. by apply Z.pow_nonneg. Qed.

Lemma CalcDifficulty_minimum config time parentTime diff number uncles :
  MinimumDifficulty <= CalcDifficulty config time parentTime diff number uncles.
Proof.
  assert (forall z k, MinimumDifficulty <= (if z <? MinimumDifficulty then MinimumDifficulty else z) + bomb k) as H.
  { intros z k. pose proof (bomb_nonneg k). destruct (Z.ltb_spec z MinimumDifficulty); lia. }
  unfold CalcDifficulty. repeat (case_match; [apply H|]).
  unfold calcDifficultyFrontier. cbn zeta. set (k := _ / expDiffPeriod). destruct (1 <? k); [lia|].
  match goal with |- _ <= (if ?z <? _ then _ else _) => destruct (Z.ltb_spec z MinimumDifficulty); lia end.
Qed.

(** C37: the 256-bit difficulty calculations agree with the reference ones on
    every parent for which nothing overflows, for the Frontier and Homestead
    rules and for the later rules with any delay of the bomb; and the
    difficulty CalcDifficulty asks for is never below the minimum. *)
Theorem difficulty_equivalent bombDelay config time parent : difficulty_ok time parent ->
  CalcDifficultyFrontierU256 time parent =
    calcDifficultyFrontier time (Header.Time parent) (Header.Difficulty parent) (u64 (Header.Number parent)) /\
  CalcDifficultyHomesteadU256 time parent =
    calcDifficultyHomestead time (Header.Time parent) (Header.Difficulty parent) (u64 (Header.Number parent)) /\
  MakeDifficultyCalculatorU256 bombDelay time parent =
    makeDifficultyCalculator bombDelay time (Header.Time parent) (Header.Difficulty parent)
      (u64 (Header.Number parent)) (Header.UncleHash parent) /\
  MinimumDifficulty <= CalcDifficulty config time (Header.Time parent) (Header.Difficulty parent)
    (u64 (Header.Number parent)) (Header.UncleHash parent).
Proof.
  intros Hok. split_and!; [by apply Frontier_equiv|by apply Homestead_equiv|by apply Dynamic_equiv|].
  apply CalcDifficulty_minimum.
Qed.
End equivalence.

(** A block of mainnet's Byzantium era. *)
Definition demo_pow_parent : Header.t :=
  Header.mk 4400000 1508000000 6700000 0 None 3000000000000000 EmptyUncleHash [] None 0%N.

Definition demo_pow_forks : DifficultyForks :=
  mk_DifficultyForks (fun _ => false) (fun _ => false) (fun _ => false) (fun _ => false) (fun _ => false)
    (fun n => 4370000 <=? n) (fun _ => true).

Lemma difficulty_equivalent_witness :
  CalcDifficultyFrontierU256 1508000021 demo_pow_parent = 3002933202761104 /\
  CalcDifficultyHomesteadU256 1508000021 demo_pow_parent =
    calcDifficultyHomestead 1508000021 1508000000 3000000000000000 4400000 /\
  MakeDifficultyCalculatorU256 3000000 1508000021 demo_pow_parent =
    makeDifficultyCalculator 3000000 1508000021 1508000000 3000000000000000 4400000 EmptyUncleHash /\
  MinimumDifficulty <= CalcDifficulty demo_pow_forks 1508000021 1508000000 3000000000000000 4400000 EmptyUncleHash.
Proof.
  destruct (difficulty_equivalent 3000000 demo_pow_forks 1508000021 demo_pow_parent) as (H1 & H2 & H3 & H4);
    [split; cbn; lia|].
  split_and!; [|exact H2|exact H3|exact H4]. rewrite H1. vm_compute. reflexivity.
Defined.
