(* ===== verification/PrecompileRun.v ===== *)
(** The prices of the native contracts (core/vm/contracts.go,
    contracts_lightclient.go), and the contracts that are not calls of a
    cryptographic library: dataCopy and bigModExp. *)
From S2P Require Import Prelude Uint256 Machine MachineSpec Precompiles.
#[local] Open Scope Z_scope.

Module pparams.
Definition EcrecoverGas : Z := 3000.
Definition Sha256BaseGas : Z := 60.
Definition Sha256PerWordGas : Z := 12.
Definition Ripemd160BaseGas : Z := 600.
Definition Ripemd160PerWordGas : Z := 120.
Definition IdentityBaseGas : Z := 15.
Definition IdentityPerWordGas : Z := 3.
Definition Bn256AddGasByzantium : Z := 500.
Definition Bn256AddGasIstanbul : Z := 150.
Definition Bn256ScalarMulGasByzantium : Z := 40000.
Definition Bn256ScalarMulGasIstanbul : Z := 6000.
Definition Bn256PairingBaseGasByzantium : Z := 100000.
Definition Bn256PairingBaseGasIstanbul : Z := 45000.
Definition Bn256PairingPerPointGasByzantium : Z := 80000.
Definition Bn256PairingPerPointGasIstanbul : Z := 34000.
Definition Bls12381G1AddGas : Z := 600.
Definition Bls12381G1MulGas : Z := 12000.
Definition Bls12381G2AddGas : Z := 4500.
Definition Bls12381G2MulGas : Z := 55000.
Definition Bls12381PairingBaseGas : Z := 115000.
Definition Bls12381PairingPerPairGas : Z := 23000.
Definition Bls12381MapG1Gas : Z := 5500.
Definition Bls12381MapG2Gas : Z := 110000.
Definition TendermintHeaderValidateGas : Z := 3000.
Definition IAVLMerkleProofValidateGas : Z := 3000.
Definition Bls12381MultiExpDiscountTable : list Z := [
  1200; 888; 764; 641; 594; 547; 500; 453; 438; 423; 408; 394; 379; 364; 349; 334; 330; 326; 322; 318;
  314; 310; 306; 302; 298; 294; 289; 285; 281; 277; 273; 269; 268; 266; 265; 263; 262; 260; 259; 257;
  256; 254; 253; 251; 250; 248; 247; 245; 244; 242; 241; 239; 238; 236; 235; 233; 232; 231; 229; 228;
  226; 225; 223; 222; 221; 220; 219; 219; 218; 217; 216; 216; 215; 214; 213; 213; 212; 211; 211; 210;
  209; 208; 208; 207; 206; 205; 205; 204; 203; 202; 202; 201; 200; 199; 199; 198; 197; 196; 196; 195;
  194; 193; 193; 192; 191; 191; 190; 189; 188; 188; 187; 186; 185; 185; 184; 183; 182; 182; 181; 180;
  179; 179; 178; 177; 176; 176; 175; 174].
End pparams.
Import pparams.

(** * Prices *)

(** [uint64(len(input)+31)/32*perWord + base] *)
Definition perWord (word base : Z) (input : list Byte.byte) : Z :=
  u64_add (u64_mul (u64 (Z.of_nat (length input) + 31) / 32) word) base.

(** [base + uint64(len(input)/size)*each] *)
Definition perItem (base size each : Z) (input : list Byte.byte) : Z :=
  u64_add base (u64_mul (Z.of_nat (length input) / size) each).

(** [None] is an index out of range. *)
Definition multiExpGas (size mul : Z) (input : list Byte.byte) : option Z :=
  let k := Z.of_nat (length input) / size in
  if k =? 0 then Some 0
  else
    let dLen := Z.of_nat (length Bls12381MultiExpDiscountTable) in
    discount ← lookupZ Bls12381MultiExpDiscountTable (if k <? dLen then k - 1 else dLen - 1);
    Some (u64_mul (u64_mul k mul) discount / 1000).

Definition modexpMultComplexity (x : Z) : Z :=
  if x <=? 64 then x * x
  else if x <=? 1024 then x * x / 4 + (96 * x - 3072)
  else x * x / 16 + (480 * x - 199680).

(** A number of the head of the input, and what follows the head. *)
Definition headNumber (input : list Byte.byte) (off : Z) : option Z := be_combine <$> getData input off 32.

Definition afterHead (input : list Byte.byte) : list Byte.byte := drop 96 input.

(** The head of the exponent. *)
Definition modexpHead (input : list Byte.byte) (baseLen expLen : Z) : option Z :=
  if Z.of_nat (length input) <=? baseLen then Some 0
  else be_combine <$> getData input (u64 baseLen) (if 32 <? expLen then 32 else u64 expLen).

Definition modexpGas (eip2565 : bool) (input : list Byte.byte) : option Z :=
  baseLen ← headNumber input 0;
  expLen ← headNumber input 32;
  modLen ← headNumber input 64;
  expHead ← modexpHead (afterHead input) baseLen expLen;
  let bitlen := bitLen expHead in
  let msb := if 0 <? bitlen then bitlen - 1 else 0 in
  let adjExpLen := (if 32 <? expLen then 8 * (expLen - 32) else 0) + msb in
  let gas := Z.max modLen baseLen in
  if eip2565 then
    let gas := (gas + 7) / 8 in
    let gas := gas * gas * Z.max adjExpLen 1 / 3 in
    if 64 <? bitLen gas then Some MaxUint64
    else if u64 gas <? 200 then Some 200 else Some (u64 gas)
  else
    let gas := modexpMultComplexity gas * Z.max adjExpLen 1 / 20 in
    if 64 <? bitLen gas then Some MaxUint64 else Some (u64 gas).

Definition blake2FInputLength : Z := 213.

(** RequiredGas of each contract. *)
Definition sha256hash_RequiredGas (input : list Byte.byte) : Z := perWord Sha256PerWordGas Sha256BaseGas input.

Definition ripemd160hash_RequiredGas (input : list Byte.byte) : Z := perWord Ripemd160PerWordGas Ripemd160BaseGas input.

Definition dataCopy_RequiredGas (input : list Byte.byte) : Z := perWord IdentityPerWordGas IdentityBaseGas input.

Definition bn256PairingByzantium_RequiredGas (input : list Byte.byte) : Z := perItem Bn256PairingBaseGasByzantium 192 Bn256PairingPerPointGasByzantium input.

Definition bn256PairingIstanbul_RequiredGas (input : list Byte.byte) : Z := perItem Bn256PairingBaseGasIstanbul 192 Bn256PairingPerPointGasIstanbul input.

Definition bls12381Pairing_RequiredGas (input : list Byte.byte) : Z := perItem Bls12381PairingBaseGas 384 Bls12381PairingPerPairGas input.

Definition bls12381G1MultiExp_RequiredGas (input : list Byte.byte) : option Z := multiExpGas 160 Bls12381G1MulGas input.

Definition bls12381G2MultiExp_RequiredGas (input : list Byte.byte) : option Z := multiExpGas 288 Bls12381G2MulGas input.

Definition blake2F_RequiredGas (input : list Byte.byte) : Z :=
  if Z.of_nat (length input) =? blake2FInputLength then be_combine (take 4 input) else 0.

(** The method of the interface. *)
Definition requiredGas (p : Precompile) (input : list Byte.byte) : option Z :=
  match p with
  | ecrecover => Some EcrecoverGas
  | sha256hash => Some (sha256hash_RequiredGas input)
  | ripemd160hash => Some (ripemd160hash_RequiredGas input)
  | dataCopy => Some (dataCopy_RequiredGas input)
  | bigModExp eip2565 => modexpGas eip2565 input
  | bn256AddByzantium => Some Bn256AddGasByzantium
  | bn256ScalarMulByzantium => Some Bn256ScalarMulGasByzantium
  | bn256PairingByzantium => Some (bn256PairingByzantium_RequiredGas input)
  | bn256AddIstanbul => Some Bn256AddGasIstanbul
  | bn256ScalarMulIstanbul => Some Bn256ScalarMulGasIstanbul
  | bn256PairingIstanbul => Some (bn256PairingIstanbul_RequiredGas input)
  | blake2F => Some (blake2F_RequiredGas input)
  | tmHeaderValidate | tmHeaderValidateNano => Some TendermintHeaderValidateGas
  | iavlMerkleProofValidate | iavlMerkleProofValidateNano | iavlMerkleProofValidateMoran =>
      Some IAVLMerkleProofValidateGas
  | bls12381G1Add => Some Bls12381G1AddGas
  | bls12381G1Mul => Some Bls12381G1MulGas
  | bls12381G1MultiExp => bls12381G1MultiExp_RequiredGas input
  | bls12381G2Add => Some Bls12381G2AddGas
  | bls12381G2Mul => Some Bls12381G2MulGas
  | bls12381G2MultiExp => bls12381G2MultiExp_RequiredGas input
  | bls12381Pairing => Some (bls12381Pairing_RequiredGas input)
  | bls12381MapG1 => Some Bls12381MapG1Gas
  | bls12381MapG2 => Some Bls12381MapG2Gas
  end.

(** * Running dataCopy and bigModExp *)
Definition dataCopy_Run (input : list Byte.byte) : list Byte.byte := input.

(** common.LeftPadBytes. *)
Definition LeftPadBytes (sl : list Byte.byte) (l : Z) : list Byte.byte :=
  if l <=? Z.of_nat (length sl) then sl else replicate (Z.to_nat l - length sl) Byte.x00 ++ sl.

(** Bytes of a big.Int: big-endian, without leading zeros. *)
Definition bigBytes (z : Z) : list Byte.byte := be_split (Z.to_nat (byteLen z)) z.

(** Exp of a big.Int with a modulus, by repeated squaring. *)
Definition bigExp (base exp m : Z) : Z :=
  match exp with
  | Z0 => 1 mod m
  | Z.pos p => pow_mod_pos m base p
  | Z.neg _ => 0
  end.

Definition bigModExp_Run (input : list Byte.byte) : option (list Byte.byte) :=
  baseLen ← headNumber input 0;
  expLen ← headNumber input 32;
  modLen ← headNumber input 64;
  let baseLen := u64 baseLen in
  let expLen := u64 expLen in
  let modLen := u64 modLen in
  let input := afterHead input in
  if (baseLen =? 0) && (modLen =? 0) then Some []
  else
    base ← be_combine <$> getData input 0 baseLen;
    exp ← be_combine <$> getData input baseLen expLen;
    m ← be_combine <$> getData input (u64_add baseLen expLen) modLen;
    let v := if bitLen m =? 0 then []
             else if base =? 1 then bigBytes (base mod m)
             else bigBytes (bigExp base exp m) in
    Some (LeftPadBytes v (int64_of_u64 modLen)).

(** * The reference: EIP-198 and EIP-2565 *)

(** The number in [len] bytes at [off], past its end zeros. *)
Definition operand (data : list Byte.byte) (off len : Z) : Z :=
  be_combine ((fun i => default Byte.x00 (data !! (Z.to_nat off + i)%nat)) <$> seq 0 (Z.to_nat len)).

Section eip.
Context (input : list Byte.byte).

Definition length_of_BASE : Z := operand input 0 32.
Definition length_of_EXPONENT : Z := operand input 32 32.
Definition length_of_MODULUS : Z := operand input 64 32.

Definition BASE : Z := operand input 96 length_of_BASE.
Definition EXPONENT : Z := operand input (96 + length_of_BASE) length_of_EXPONENT.
Definition MODULUS : Z := operand input (96 + length_of_BASE + length_of_EXPONENT) length_of_MODULUS.

(** The position of the highest bit of the exponent, of which a long exponent
    shows only its first 32 bytes. *)
Definition iteration_count : Z :=
  if length_of_EXPONENT <=? 32 then Z.log2 EXPONENT
  else 8 * (length_of_EXPONENT - 32) + Z.log2 (operand input (96 + length_of_BASE) 32).

Definition mult_complexity (x : Z) : Z :=
  if x <=? 64 then x ^ 2 else if x <=? 1024 then x ^ 2 / 4 + 96 * x - 3072 else x ^ 2 / 16 + 480 * x - 199680.

Definition modexp_price (eip2565 : bool) : Z :=
  let x := Z.max length_of_MODULUS length_of_BASE in
  Z.min MaxUint64
    (if eip2565 then Z.max 200 (((x + 7) / 8) ^ 2 * Z.max iteration_count 1 / 3)
     else mult_complexity x * Z.max iteration_count 1 / 20).

Definition modexp_result : Z := if MODULUS =? 0 then 0 else BASE ^ EXPONENT mod MODULUS.
End eip.

(** * Equivalence *)
Lemma getData_operand data off len : is_u64 off -> 0 <= len < 2 ^ 63 -> Z.of_nat (length data) < 2 ^ 63 ->
  be_combine <$> getData data off len = Some (operand data off len).
Proof.
  intros Ho Hl Hd. destruct (getData_spec data off len Ho Hl Hd) as (r & -> & Hr & Hi). cbn. f_equal.
  unfold operand. f_equal. apply list_eq. intros i. rewrite list_lookup_fmap.
  destruct (decide (i < length r)%nat).
  - rewrite Hi, lookup_seq_lt by lia. done.
  - rewrite !lookup_ge_None_2; [done|rewrite length_seq; lia|lia].
Qed.

Lemma operand_drop data n off len : 0 <= off -> operand (drop n data) off len = operand data (Z.of_nat n + off) len.
Proof.
  intros Ho. unfold operand. f_equal. apply list_fmap_ext. intros i x _. rewrite lookup_drop.
  do 2 f_equal. lia.
Qed.

Lemma operand_bound data off len : 0 <= operand data off len < 2 ^ (8 * Z.max 0 len).
Proof.
  unfold operand. pose proof (be_combine_bound ((fun i => default Byte.x00 (data !! (Z.to_nat off + i)%nat)) <$> seq 0 (Z.to_nat len))) as H.
  rewrite length_fmap, length_seq in H. replace (Z.of_nat (Z.to_nat len)) with (Z.max 0 len) in H by lia. done.
Qed.

Lemma operand_beyond data off len : Z.of_nat (length data) <= off -> operand data off len = 0.
Proof.
  intros Ho. unfold operand.
  replace ((fun i => default Byte.x00 (data !! (Z.to_nat off + i)%nat)) <$> seq 0 (Z.to_nat len))
    with (replicate (Z.to_nat len) Byte.x00 ++ []); [by rewrite be_combine_zeros|].
  rewrite app_nil_r. apply list_eq. intros i. rewrite list_lookup_fmap. destruct (decide (i < Z.to_nat len)%nat).
  - rewrite lookup_replicate_2, lookup_seq_lt by lia. cbn. by rewrite lookup_ge_None_2 by lia.
  - rewrite !lookup_ge_None_2; [done|rewrite length_seq; lia|rewrite length_replicate; lia].
Qed.

Lemma bitLen_log2 z : 0 <= z -> (if 0 <? bitLen z then bitLen z - 1 else 0) = Z.log2 z.
Proof.
  intros Hz. unfold bitLen. destruct (Z.eqb_spec z 0) as [->|]; [done|].
  pose proof (Z.log2_nonneg z). destruct (Z.ltb_spec 0 (Z.log2 z + 1)); lia.
Qed.

Lemma bitLen_64 z : 0 <= z -> (64 <? bitLen z) = (2 ^ 64 <=? z).
Proof.
  intros Hz. unfold bitLen. destruct (Z.eqb_spec z 0) as [->|]; [done|].
  pose proof (Z.log2_lt_pow2 z 64 ltac:(lia)).
  destruct (Z.ltb_spec 64 (Z.log2 z + 1)), (Z.leb_spec (2 ^ 64) z); lia.
Qed.

Section modexp.
Context (input : list Byte.byte) (Hlen : Z.of_nat (length input) < 2 ^ 63).

Abbreviation B := (length_of_BASE input).
Abbreviation E := (length_of_EXPONENT input).
Abbreviation M := (length_of_MODULUS input).

Lemma headNumbers : headNumber input 0 = Some B /\ headNumber input 32 = Some E /\ headNumber input 64 = Some M.
Proof using Hlen. unfold headNumber. split_and!; by apply getData_operand. Qed.

Lemma lengths_nonneg : 0 <= B /\ 0 <= E /\ 0 <= M.
Proof. split_and!; apply operand_bound. Qed.

Lemma length_afterHead : Z.of_nat (length (afterHead input)) <= Z.of_nat (length input).
Proof. unfold afterHead. rewrite length_drop. lia. Qed.

Lemma modexpHead_spec : exists h, modexpHead (afterHead input) B E = Some h /\ 0 <= h /\
  (if 32 <? E then 8 * (E - 32) else 0) + Z.log2 h = iteration_count input.
Proof using Hlen.
  pose proof lengths_nonneg as (HB & HE & _). pose proof length_afterHead.
  assert (modexpHead (afterHead input) B E =
    Some (operand input (96 + B) (if 32 <? E then 32 else E))) as Heq.
  { unfold modexpHead. destruct (Z.leb_spec (Z.of_nat (length (afterHead input))) B) as [Hle|Hlt].
    - f_equal. rewrite operand_beyond; [done|]. unfold afterHead in Hle. rewrite length_drop in Hle. lia.
    - rewrite (u64_small B) by (unfold is_u64; lia). unfold afterHead.
      assert (is_u64 B) by (unfold is_u64; lia).
      destruct (Z.ltb_spec 32 E); [|rewrite (u64_small E) by (unfold is_u64; lia)];
        rewrite getData_operand by (done || lia || (unfold afterHead in *; lia));
        by rewrite operand_drop by lia. }
  eexists. split; [exact Heq|]. split; [apply operand_bound|]. unfold iteration_count, EXPONENT.
  destruct (Z.ltb_spec 32 E), (Z.leb_spec E 32); lia.
Qed.

Lemma mult_complexity_spec x : modexpMultComplexity x = mult_complexity x.
Proof. unfold modexpMultComplexity, mult_complexity. rewrite !Z.pow_2_r. repeat case_match; lia. Qed.

Lemma mult_complexity_nonneg x : 0 <= x -> 0 <= mult_complexity x.
Proof.
  intros Hx. unfold mult_complexity. pose proof (Z.pow_nonneg x 2 Hx).
  destruct (Z.leb_spec x 64); [done|].
  assert (0 <= x ^ 2 / 4) by (apply Z.div_pos; lia).
  assert (0 <= x ^ 2 / 16) by (apply Z.div_pos; lia). destruct (Z.leb_spec x 1024); lia.
Qed.

(** Saturation at 64 bits. *)
Lemma saturate g : 0 <= g -> (if 64 <? bitLen g then Some MaxUint64 else Some (u64 g)) = Some (Z.min MaxUint64 g).
Proof.
  intros Hg. rewrite bitLen_64 by done. unfold MaxUint64.
  destruct (Z.leb_spec (2 ^ 64) g); f_equal; [lia|]. rewrite u64_small by (unfold is_u64; lia). lia.
Qed.

Lemma modexpGas_spec eip2565 : modexpGas eip2565 input = Some (modexp_price input eip2565).
Proof using Hlen.
  destruct headNumbers as (H1 & H2 & H3). pose proof lengths_nonneg as (HB & HE & HM).
  destruct modexpHead_spec as (h & Hh & Hh0 & Hit). unfold modexpGas. rewrite H1, H2, H3. cbn. rewrite Hh. cbn.
  rewrite bitLen_log2, Hit by done. unfold modexp_price. set (x := Z.max M B). set (n := Z.max (iteration_count input) 1).
  assert (1 <= n) by lia. destruct eip2565.
  - rewrite Z.pow_2_r. set (g := _ * _ * n / 3).
    assert (0 <= g) as Hg by (unfold g; apply Z.div_pos; [|lia]; apply Z.mul_nonneg_nonneg; [nia|lia]).
    rewrite bitLen_64 by done. unfold MaxUint64. destruct (Z.leb_spec (2 ^ 64) g); [f_equal; lia|].
    rewrite u64_small by (unfold is_u64; lia). destruct (Z.ltb_spec g 200); f_equal; lia.
  - rewrite mult_complexity_spec. apply saturate, Z.div_pos; [|lia]. apply Z.mul_nonneg_nonneg; [|lia].
    apply mult_complexity_nonneg. lia.
Qed.

Lemma modexp_price_u64 eip2565 : is_u64 (modexp_price input eip2565).
Proof.
  pose proof lengths_nonneg as (HB & HE & HM). unfold modexp_price, is_u64, MaxUint64.
  set (n := Z.max (iteration_count input) 1). assert (1 <= n) by lia. destruct eip2565; [lia|].
  pose proof (mult_complexity_nonneg (Z.max M B) ltac:(lia)) as Hm.
  pose proof (Z.div_pos (mult_complexity (Z.max M B) * n) 20 ltac:(nia) ltac:(lia)). lia.
Qed.

(** ** The result *)
Lemma bigExp_spec b e m : 0 < m -> 0 <= e -> bigExp b e m = b ^ e mod m.
Proof. intros Hm He. unfold bigExp. destruct e; [done|apply pow_mod_pos_spec|lia]. Qed.

Lemma bigBytes_combine z : 0 <= z -> be_combine (bigBytes z) = z.
Proof. apply be_combine_byteLen. Qed.

Lemma length_bigBytes z n : 0 <= z < 2 ^ (8 * n) -> 0 <= n -> Z.of_nat (length (bigBytes z)) <= n.
Proof.
  intros Hz Hn. unfold bigBytes. rewrite length_be_split. pose proof (byteLen_le z n Hz Hn).
  pose proof (byteLen_nonneg z). lia.
Qed.

Lemma LeftPad_bytes z n : 0 <= z < 2 ^ (8 * n) -> 0 <= n ->
  LeftPadBytes (bigBytes z) n = be_split (Z.to_nat n) z.
Proof.
  intros Hz Hn. pose proof (length_bigBytes z n Hz Hn) as Hl. unfold LeftPadBytes.
  assert (length (replicate (Z.to_nat n - length (bigBytes z)) Byte.x00 ++ bigBytes z) = Z.to_nat n) as Hlen'.
  { rewrite length_app, length_replicate. lia. }
  assert (replicate (Z.to_nat n - length (bigBytes z)) Byte.x00 ++ bigBytes z = be_split (Z.to_nat n) z) as <-.
  { apply be_combine_inj; [by rewrite length_be_split|]. rewrite be_combine_zeros, bigBytes_combine by lia.
    rewrite be_combine_split. symmetry. apply Z.mod_small. by rewrite Z2Nat.id, Z.mul_comm by done. }
  destruct (Z.leb_spec n (Z.of_nat (length (bigBytes z)))); [|done].
  replace (Z.to_nat n - length (bigBytes z))%nat with 0%nat by lia. done.
Qed.

Lemma modulus_bound : 0 <= MODULUS input < 2 ^ (8 * M).
Proof. pose proof lengths_nonneg. pose proof (operand_bound input (96 + B + E) M) as H'. by rewrite Z.max_r in H' by lia. Qed.

Lemma modexp_result_bound : 0 <= modexp_result input < 2 ^ (8 * M).
Proof.
  pose proof modulus_bound. unfold modexp_result. destruct (Z.eqb_spec (MODULUS input) 0) as [E0|].
  - split; [lia|]. apply Z.pow_pos_nonneg; [lia|]. pose proof lengths_nonneg. lia.
  - pose proof (Z.mod_pos_bound (BASE input ^ EXPONENT input) (MODULUS input)). lia.
Qed.

(** The number [v] of Run, whatever way it is computed. *)
Lemma v_spec b e m : 0 <= e -> 0 <= m ->
  (if bitLen m =? 0 then []
   else if b =? 1 then bigBytes (b mod m) else bigBytes (bigExp b e m)) =
  bigBytes (if m =? 0 then 0 else b ^ e mod m).
Proof.
  intros He Hm. unfold bitLen at 1. destruct (Z.eqb_spec m 0) as [->|]; [done|].
  destruct (Z.eqb_spec (Z.log2 m + 1) 0); [pose proof (Z.log2_nonneg m); lia|].
  destruct (Z.eqb_spec b 1) as [->|]; [by rewrite Z.pow_1_l|]. by rewrite bigExp_spec by lia.
Qed.

Lemma bigModExp_Run_spec : B < 2 ^ 62 -> E < 2 ^ 62 -> M < 2 ^ 62 ->
  bigModExp_Run input = Some (be_split (Z.to_nat M) (modexp_result input)).
Proof using Hlen.
  intros HB' HE' HM'. destruct headNumbers as (H1 & H2 & H3). pose proof lengths_nonneg as (HB & HE & HM).
  pose proof length_afterHead as Hah. unfold bigModExp_Run. rewrite H1, H2, H3. cbn [mbind option_bind].
  assert (u64_add B E = B + E) as Hadd by (unfold u64_add; apply u64_small; unfold is_u64; lia).
  rewrite !u64_small by (unfold is_u64; lia).
  destruct (Z.eqb_spec B 0) as [EB|], (Z.eqb_spec M 0) as [EM|]; [by rewrite EM|..]; cbn [andb].
  all: rewrite !getData_operand by (unfold is_u64 in *; rewrite ?Hadd; lia); cbn [mbind option_bind].
  all: unfold afterHead; rewrite Hadd, !operand_drop by lia; rewrite v_spec by apply operand_bound.
  all: unfold int64_of_u64; rewrite (proj2 (Z.ltb_lt _ (2 ^ 63))) by lia; f_equal; rewrite <- LeftPad_bytes by (apply modexp_result_bound || lia).
  all: f_equal; unfold modexp_result, MODULUS, BASE, EXPONENT.
  all: by rewrite Z.add_0_r, !Z.add_assoc.
Qed.
End modexp.

(** The modular exponentiation contract against EIP-198 and EIP-2565. The
    price the code computes from the padded head of the exponent is the one
    the EIPs define from the whole exponent, saturated at 64 bits, for every
    input, whatever the lengths in its head say. When those lengths are below
    2^62, Run returns exactly as many bytes as the modulus has, and they are
    the big-endian power of the base modulo the modulus, and zero for a zero
    modulus; the shortcut for base one and the early return for empty operands
    included. *)
Theorem bigModExp_correct eip2565 (input : list Byte.byte) : Z.of_nat (length input) < 2 ^ 63 ->
  requiredGas (bigModExp eip2565) input = Some (modexp_price input eip2565) /\
  is_u64 (modexp_price input eip2565) /\
  (length_of_BASE input < 2 ^ 62 -> length_of_EXPONENT input < 2 ^ 62 -> length_of_MODULUS input < 2 ^ 62 ->
   bigModExp_Run input = Some (be_split (Z.to_nat (length_of_MODULUS input)) (modexp_result input))).
Proof.
  intros Hlen. split; [by apply modexpGas_spec|]. split; [by apply modexp_price_u64|]. by apply bigModExp_Run_spec.
Qed.

(** The example of EIP-198: 3 ^ (2^256 - 2^32 - 978) mod (2^256 - 2^32 - 977),
    which Fermat's theorem makes one. *)
Definition fermat : list Byte.byte :=
  let p := 2 ^ 256 - 2 ^ 32 - 977 in
  be_split 32 1 ++ be_split 32 32 ++ be_split 32 32 ++ be_split 1 3 ++ be_split 32 (p - 1) ++ be_split 32 p.

Lemma bigModExp_correct_witness :
  requiredGas (bigModExp false) fermat = Some 13056 /\ requiredGas (bigModExp true) fermat = Some 1360 /\
  bigModExp_Run fermat = Some (be_split 32 1).
Proof.
  pose proof (bigModExp_correct false fermat ltac:(vm_compute; reflexivity)) as (H1 & _ & H3).
  pose proof (bigModExp_correct true fermat ltac:(vm_compute; reflexivity)) as (H2 & _ & _).
  split; [rewrite H1; vm_compute; reflexivity|]. split; [rewrite H2; vm_compute; reflexivity|].
  vm_compute. reflexivity.
Defined.
