(* ===== verification/Rlp.v ===== *)
(** RLP encoding: the primitives of rlp/encode.go, the buffer of list headers
    behind [rlp.Encode], and the splitting functions of rlp/raw.go.

    The functions that fill a caller's scratch buffer and write parts of it to
    an io.Writer are state passing over the buffer and the bytes written so
    far; the writer is a bytes.Buffer, which never fails. *)
From S2P Require Import Prelude Uint256 StateTypes Accounts.
#[local] Open Scope Z_scope.

(** The errors of package rlp and of package io.  [decodeError] is the struct
    of that name, by the error that it replaces; [Wrapf] is
    [fmt.Errorf("...: %w", err)], which [==] tells from [err] and [errors.Is]
    does not. *)
Inductive RlpError :=
| EOL
| ErrExpectedString
| ErrExpectedList
| ErrCanonInt
| ErrCanonSize
| ErrElemTooLarge
| ErrValueTooLarge
| ErrMoreThanOneValue
| ErrWrongTxTypePrefix
| ErrUnknownTxTypePrefix
| errNotInList
| errNotAtEOL
| errUintOverflow
| io_EOF
| io_ErrUnexpectedEOF
| invalidBoolean (num : Z)
| negativeBigInt
| wrongSize (n : Z)
| unsupported
| tooFewElements
| inputTooLong
| inputTooShort
| wrongEmptyKind
| decodeError (cause : RlpError)
| Wrapf (err : RlpError).

#[export] Instance RlpError_eq_dec : EqDecision RlpError.
Proof. solve_decision. Defined.

Fixpoint errors_Is (err target : RlpError) : bool :=
  bool_decide (err = target) || match err with Wrapf err => errors_Is err target | _ => false end.

(** wrapStreamError of decode.go. *)
Definition wrapStreamError (err : RlpError) : RlpError :=
  match err with
  | ErrCanonInt | ErrCanonSize | ErrExpectedList | ErrExpectedString | errUintOverflow | errNotAtEOL => decodeError err
  | _ => err
  end.

Inductive Kind := Byte | String | List.

#[export] Instance Kind_eq_dec : EqDecision Kind.
Proof. solve_decision. Defined.

(** * Sizes *)
Definition intsize (i : Z) : Z := byteLen i.

Definition headsize (size : Z) : Z := if size <? 56 then 1 else 1 + intsize size.

Definition ListSize (contentSize : Z) : Z := u64_add (headsize contentSize) contentSize.

Definition IntSize (x : Z) : Z := if x <? 0x80 then 1 else 1 + intsize x.

Definition BigIntLenExcludingHead (i : Z) : Z :=
  let bitLen := bitLen (Z.abs i) in if bitLen <? 8 then 0 else (bitLen + 7) / 8.

(** * Headers *)

(** [b[pos] = byte(i >> 8*(n-1)); ...; b[pos+n-1] = byte(i)]. *)
Fixpoint putShifted (pos : Z) (n : nat) (i : Z) : M buffer unit :=
  match n with
  | O => mret tt
  | S n => _ ← put pos (Z.shiftr i (8 * Z.of_nat n)); putShifted (pos + 1) n i
  end.

Definition putintSize (i : Z) : Z :=
  if i <? 2 ^ 8 then 1 else if i <? 2 ^ 16 then 2 else if i <? 2 ^ 24 then 3 else if i <? 2 ^ 32 then 4
  else if i <? 2 ^ 40 then 5 else if i <? 2 ^ 48 then 6 else if i <? 2 ^ 56 then 7 else 8.

Definition putint (pos i : Z) : M buffer Z :=
  let size := putintSize i in
  _ ← putShifted pos (Z.to_nat size) i;
  mret size.

(** puthead on [buf[pos:]]. *)
Definition puthead (pos smalltag largetag size : Z) : M buffer Z :=
  if size <? 56 then _ ← put pos (smalltag + size); mret 1
  else
    sizesize ← putint (pos + 1) size;
    _ ← put pos (largetag + sizesize);
    mret (sizesize + 1).

(** [binary.BigEndian.PutUint64(buffer[pos:], v)]. *)
Definition PutUint64 (pos v : Z) : M buffer unit := fun buf =>
  if pos + 8 <=? len buf then copyAt pos (be_split 8 v) buf else Panic.

(** * Writing through a scratch buffer *)
Record writer := mk_writer { w_out : list Byte.byte; w_buf : list Byte.byte }.

Definition onBuf {A} (m : M buffer A) : M writer A := fun w =>
  r ← m (w_buf w); Ok (r.1, mk_writer (w_out w) r.2).

Definition Write (bs : list Byte.byte) : M writer unit := fun w => Ok (tt, mk_writer (w_out w ++ bs) (w_buf w)).

(** [w.Write(buffer[lo:hi])]. *)
Definition WriteBuf (lo hi : Z) : M writer unit := fun w => bs ← slice (w_buf w) lo hi; Write bs w.

Definition EncodeInt (i : Z) : M writer unit :=
  if (0 <? i) && (i <? 0x80) then _ ← onBuf (put 0 i); WriteBuf 0 1
  else
    _ ← onBuf (PutUint64 1 i);
    let size := intsize i in
    _ ← onBuf (put (8 - size) (0x80 + size));
    WriteBuf (8 - size) 9.

(** A nil pointer is [None]; [FillBytes] writes the absolute value and panics
    when it does not fit. *)
Definition EncodeBigInt (i : option Z) : M writer unit :=
  let bitLen := match i with None => 0 | Some i => bitLen (Z.abs i) end in
  let i := match i with None => 0 | Some i => Z.abs i end in
  if bitLen <? 8 then
    _ ← onBuf (put 0 (if 0 <? bitLen then i else 0x80)); WriteBuf 0 1
  else
    let size := (bitLen + 7) / 8 in
    _ ← onBuf (put 0 (0x80 + size));
    _ ← onBuf (fun buf => _ ← slice buf 1 (1 + size); copyAt 1 (be_split (Z.to_nat size) i) buf);
    WriteBuf 0 (1 + size).

Definition EncodeStringSizePrefix (size : Z) : M writer unit :=
  if 56 <=? size then
    let beSize := byteLen size in
    _ ← onBuf (PutUint64 1 size);
    _ ← onBuf (put (8 - beSize) (beSize + 183));
    WriteBuf (8 - beSize) 9
  else _ ← onBuf (put 0 (size + 128)); WriteBuf 0 1.

Definition EncodeString (s : list Byte.byte) : M writer unit :=
  match s with
  | [] => _ ← onBuf (put 0 128); WriteBuf 0 1
  | [b] => _ ← (if 128 <=? byte.unsigned b then _ ← onBuf (put 0 129); WriteBuf 0 1 else mret tt); Write s
  | _ => _ ← EncodeStringSizePrefix (len s); Write s
  end.

(** What is written, from a writer over a scratch buffer of [n] bytes. *)
Definition written (n : nat) (m : M writer unit) : outcome (list Byte.byte) :=
  r ← m (mk_writer [] (replicate n Byte.x00)); Ok (w_out r.2).

(** * The buffer of [rlp.Encode] *)
Module encbuf.
Record listhead := mk_listhead { offset : Z; lh_size : Z }.

Record encbuf := mk_encbuf {
  str : list Byte.byte;
  lheads : list listhead;
  lhsize : Z;
  sizebuf : list Byte.byte
}.

Definition new : encbuf := mk_encbuf [] [] 0 (replicate 9 Byte.x00).

Definition reset (w : encbuf) : encbuf := mk_encbuf [] [] 0 (sizebuf w).

Definition append (b : list Byte.byte) : M encbuf unit :=
  modify (fun w => mk_encbuf (str w ++ b) (lheads w) (lhsize w) (sizebuf w)).

Definition onSizebuf {A} (m : M buffer A) : M encbuf A := fun w =>
  r ← m (sizebuf w); Ok (r.1, mk_encbuf (str w) (lheads w) (lhsize w) r.2).

(** [w.str = append(w.str, w.sizebuf[:n]...)]. *)
Definition appendSizebuf (n : Z) : M encbuf unit := fun w =>
  bs ← slice (sizebuf w) 0 n; append bs w.

Definition encodeStringHeader (size : Z) : M encbuf unit :=
  if size <? 56 then append [byte.of_Z (0x80 + size)]
  else
    sizesize ← onSizebuf (putint 1 size);
    _ ← onSizebuf (put 0 (0xB7 + sizesize));
    appendSizebuf (sizesize + 1).

Definition encodeString (b : list Byte.byte) : M encbuf unit :=
  match b with
  | [x] => if byte.unsigned x <=? 0x7F then append [x] else _ ← encodeStringHeader (len b); append b
  | _ => _ ← encodeStringHeader (len b); append b
  end.

Definition encodeUint (i : Z) : M encbuf unit :=
  if i =? 0 then append [Byte.x80]
  else if i <? 128 then append [byte.of_Z i]
  else
    s ← onSizebuf (putint 1 i);
    _ ← onSizebuf (put 0 (0x80 + s));
    appendSizebuf (s + 1).

Definition list : M encbuf Z := fun w =>
  let w := mk_encbuf (str w) (lheads w ++ [mk_listhead (len (str w)) (lhsize w)]) (lhsize w) (sizebuf w) in
  Ok (len (lheads w) - 1, w).

Definition size (w : encbuf) : Z := len (str w) + lhsize w.

Definition listEnd (index : Z) : M encbuf unit := fun w =>
  lh ← or_panic (lookupZ (lheads w) index);
  let lhs := size w - offset lh - lh_size lh in
  let lhsize' := if lhs <? 56 then lhsize w + 1 else lhsize w + (1 + intsize lhs) in
  Ok (tt, mk_encbuf (str w) (<[Z.to_nat index := mk_listhead (offset lh) lhs]> (lheads w)) lhsize' (sizebuf w)).

(** The loop of toBytes, from [strpos] and [pos]. *)
Fixpoint toBytes_loop (w : encbuf) (heads : Datatypes.list listhead) (strpos pos : Z) : M buffer unit :=
  match heads with
  | [] => fun out => bs ← slice (str w) strpos (len (str w)); copyAt pos bs out
  | head :: heads => fun out =>
      bs ← slice (str w) strpos (offset head);
      let n := Z.min (len out - pos) (len bs) in
      ( _ ← copyAt pos bs;
        enc ← puthead (pos + n) 0xC0 0xF7 (u64 (lh_size head));
        toBytes_loop w heads (strpos + n) (pos + n + enc) ) out
  end.

Definition toBytes (w : encbuf) : outcome (Datatypes.list Byte.byte) :=
  if 0 <=? size w then
    r ← toBytes_loop w (lheads w) 0 0 (replicate (Z.to_nat (size w)) Byte.x00); Ok r.2
  else Panic.

(** toWriter to a bytes.Buffer: the bytes written and the encbuf, whose
    auxiliary buffer holds the headers on their way out. *)
Fixpoint toWriter_loop (heads : Datatypes.list listhead) (strpos : Z) (out : Datatypes.list Byte.byte) :
    M encbuf (Datatypes.list Byte.byte) :=
  match heads with
  | [] => fun w =>
      if strpos <? len (str w) then bs ← slice (str w) strpos (len (str w)); Ok (out ++ bs, w) else Ok (out, w)
  | head :: heads => fun w =>
      bs ← (if 0 <? offset head - strpos then slice (str w) strpos (offset head) else Ok []);
      ( n ← onSizebuf (puthead 0 0xC0 0xF7 (u64 (lh_size head)));
        enc ← (fun w => bs ← slice (sizebuf w) 0 n; Ok (bs, w));
        toWriter_loop heads (strpos + len bs) (out ++ bs ++ enc) ) w
  end.

Definition toWriter (w : encbuf) : outcome (Datatypes.list Byte.byte) :=
  r ← toWriter_loop (lheads w) 0 [] w; Ok r.1.
End encbuf.

(** * Splitting encoded values (raw.go) *)
Definition readSize (b : list Byte.byte) (slen : Z) : outcome (RlpError + Z) :=
  if len b <? slen then Ok (inl io_ErrUnexpectedEOF)
  else
    let s := be_combine (take (Z.to_nat slen) b) in
    if s <? 56 then Ok (inl ErrCanonSize)
    else b0 ← index b 0; Ok (if b0 =? 0 then inl ErrCanonSize else inr s).

(** A tag followed by a size of [slen] bytes. *)
Definition readSizedKind (buf : list Byte.byte) (k : Kind) (slen : Z) : outcome (RlpError + Kind * Z * Z) :=
  rest ← slice buf 1 (len buf);
  r ← readSize rest slen;
  Ok (match r with inl err => inl err | inr contentsize => inr (k, slen + 1, contentsize) end).

(** Kind, size of the tag and size of the content. *)
Definition readKind (buf : list Byte.byte) : outcome (RlpError + Kind * Z * Z) :=
  if len buf =? 0 then Ok (inl io_ErrUnexpectedEOF)
  else
    b ← index buf 0;
    r ← (if b <? 0x80 then Ok (inr (Byte, 0, 1))
         else if b <? 0xB8 then
           let contentsize := b - 0x80 in
           short ← (if (contentsize =? 1) && (1 <? len buf) then b1 ← index buf 1; Ok (b1 <? 128) else Ok false);
           Ok (if short : bool then inl ErrCanonSize else inr (String, 1, contentsize))
         else if b <? 0xC0 then readSizedKind buf String (b - 0xB7)
         else if b <? 0xF8 then Ok (inr (List, 1, b - 0xC0))
         else readSizedKind buf List (b - 0xF7));
    Ok (match r with
        | inl err => inl err
        | inr (k, tagsize, contentsize) =>
            if u64_sub (len buf) tagsize <? contentsize then inl ErrValueTooLarge
            else inr (k, tagsize, contentsize)
        end).

Definition Split (b : list Byte.byte) : outcome (RlpError + Kind * list Byte.byte * list Byte.byte) :=
  r ← readKind b;
  match r with
  | inl err => Ok (inl err)
  | inr (k, ts, cs) =>
      content ← slice b ts (u64_add ts cs);
      rest ← slice b (u64_add ts cs) (len b);
      Ok (inr (k, content, rest))
  end.

Definition SplitString (b : list Byte.byte) : outcome (RlpError + list Byte.byte * list Byte.byte) :=
  r ← Split b;
  Ok (match r with
      | inl err => inl err
      | inr (k, content, rest) => if bool_decide (k = List) then inl ErrExpectedString else inr (content, rest)
      end).

Definition SplitList (b : list Byte.byte) : outcome (RlpError + list Byte.byte * list Byte.byte) :=
  r ← Split b;
  Ok (match r with
      | inl err => inl err
      | inr (k, content, rest) => if bool_decide (k = List) then inr (content, rest) else inl ErrExpectedList
      end).

Definition SplitUint64 (b : list Byte.byte) : outcome (RlpError + Z * list Byte.byte) :=
  r ← SplitString b;
  match r with
  | inl err => Ok (inl err)
  | inr (content, rest) =>
      if len content =? 0 then Ok (inr (0, rest))
      else if len content =? 1 then
        c ← index content 0; Ok (if c =? 0 then inl ErrCanonInt else inr (c, rest))
      else if 8 <? len content then Ok (inl errUintOverflow)
      else
        r ← readSize content (len content);
        Ok (match r with inl _ => inl ErrCanonInt | inr x => inr (x, rest) end)
  end.

(** Each turn of the loop shortens [b], so [length b] turns are enough. *)
Fixpoint CountValues_loop (fuel : nat) (b : list Byte.byte) (i : Z) : outcome (RlpError + Z) :=
  if len b =? 0 then Ok (inr i)
  else
    match fuel with
    | O => OutOfFuel
    | S fuel =>
        r ← readKind b;
        match r with
        | inl err => Ok (inl err)
        | inr (_, tagsize, size) => b ← slice b (u64_add tagsize size) (len b); CountValues_loop fuel b (i + 1)
        end
    end.

Definition CountValues (b : list Byte.byte) : outcome (RlpError + Z) := CountValues_loop (length b) b 0.

Definition AppendUint64 (b : list Byte.byte) (i : Z) : list Byte.byte :=
  if i =? 0 then b ++ [byte.of_Z 0x80]
  else if i <? 128 then b ++ [byte.of_Z i]
  else
    let n := putintSize i in
    b ++ byte.of_Z (0x80 + n) :: map (fun k => byte.of_Z (Z.shiftr i (8 * Z.of_nat k))) (rev (seq 0 (Z.to_nat n))).
