(* ===== verification/RlpStream.v ===== *)
(** The decoder of rlp/decode.go: [Stream] as a state machine.

    The input is a bytes.Reader, so the reader is the list of the bytes not
    read yet.  The auxiliary buffer [uintbuf] is written before each use and
    left out.  A method that returns [(v, err)] is a [D A]: it has a value or
    an error, and a new state either way; [let!] is the early return on an
    error. *)
From S2P Require Import Prelude Uint256 StateTypes Accounts Rlp.
#[local] Open Scope Z_scope.

Record listpos := mk_listpos { pos : Z; lsize : Z }.

(** [kind] is [None] where the code has -1; the innermost list is the head of
    [stack]. *)
Record Stream := mk_Stream {
  r : list Byte.byte;
  remaining : Z;
  limited : bool;
  kind : option Kind;
  size : Z;
  byteval : Z;
  kinderr : option RlpError;
  stack : list listpos
}.

Abbreviation D A := (M Stream (RlpError + A)) (only parsing).

Definition D_bind {A B} (m : D A) (k : A -> D B) : D B :=
  r ← m; match r with inl err => mret (inl err) | inr a => k a end.

Definition ok {A} (a : A) : D A := mret (inr a).

Definition fail {A} (err : RlpError) : D A := mret (inl err).

Declare Scope rlp_scope.
Notation "'let!' x ':=' m 'in' k" := (D_bind m (fun x => k))
  (at level 200, x binder, m at level 100, k at level 200, right associativity) : rlp_scope.
Open Scope rlp_scope.

(** [return fmt.Errorf("...: %w", err)]. *)
Definition wrapf {A} (m : D A) : D A :=
  r ← m; mret (match r with inl err => inl (Wrapf err) | inr a => inr a end).

(** ** Updates of single fields *)
Definition set_kind (k : option Kind) : M Stream unit := modify (fun s =>
  mk_Stream (r s) (remaining s) (limited s) k (size s) (byteval s) (kinderr s) (stack s)).

Definition set_byteval (b : Z) : M Stream unit := modify (fun s =>
  mk_Stream (r s) (remaining s) (limited s) (kind s) (size s) b (kinderr s) (stack s)).

Definition set_kinderr (err : option RlpError) : M Stream unit := modify (fun s =>
  mk_Stream (r s) (remaining s) (limited s) (kind s) (size s) (byteval s) err (stack s)).

Definition set_kindinfo (k : option Kind) (sz : Z) (err : option RlpError) : M Stream unit := modify (fun s =>
  mk_Stream (r s) (remaining s) (limited s) k sz (byteval s) err (stack s)).

Definition set_stack (st : list listpos) : M Stream unit := modify (fun s =>
  mk_Stream (r s) (remaining s) (limited s) (kind s) (size s) (byteval s) (kinderr s) st).

Definition set_remaining (n : Z) : M Stream unit := modify (fun s =>
  mk_Stream (r s) n (limited s) (kind s) (size s) (byteval s) (kinderr s) (stack s)).

Definition set_r (bs : list Byte.byte) : M Stream unit := modify (fun s =>
  mk_Stream bs (remaining s) (limited s) (kind s) (size s) (byteval s) (kinderr s) (stack s)).

(** [make([]byte, size)]: the runtime refuses what exceeds its address space. *)
Definition maxAlloc : Z := 2 ^ 48.

Definition make (n : Z) : M Stream unit := if n <=? maxAlloc then mret tt else panic.

(** ** Reading *)
Definition willRead (n : Z) : D unit :=
  _ ← set_kind None;
  st ← gets stack;
  let! _ := match st with
            | [] => ok tt
            | tos :: st =>
                if u64_sub (lsize tos) (pos tos) <? n then fail ErrElemTooLarge
                else _ ← set_stack (mk_listpos (u64_add (pos tos) n) (lsize tos) :: st); ok tt
            end in
  lim ← gets limited;
  if lim : bool then
    rem ← gets remaining;
    if rem <? n then fail ErrValueTooLarge
    else _ ← set_remaining (u64_sub rem n); ok tt
  else ok tt.

Definition readByte : D Z :=
  let! _ := willRead 1 in
  bs ← gets r;
  match bs with
  | [] => fail io_ErrUnexpectedEOF
  | b :: bs => _ ← set_r bs; ok (byte.unsigned b)
  end.

(** readFull into a buffer of [n] bytes: its new contents. *)
Definition readFull (n : Z) : D (list Byte.byte) :=
  let! _ := willRead n in
  bs ← gets r;
  _ ← set_r (drop (Z.to_nat n) bs);
  if len bs <? n then fail io_ErrUnexpectedEOF else ok (take (Z.to_nat n) bs).

Definition readUint (size : Z) : D Z :=
  if size =? 0 then _ ← set_kind None; ok 0
  else if size =? 1 then readByte
  else
    let! buffer := readFull size in
    b0 ← deref (head buffer);
    if byte.unsigned b0 =? 0 then fail ErrCanonSize else ok (be_combine buffer).

(** A tag followed by a size of [n] bytes.  Kind and size come with the error,
    as they do in the code. *)
Definition readSizedTag (k : Kind) (n : Z) : M Stream (Kind * Z * option RlpError) :=
  r ← readUint n;
  mret (match r with
        | inl err => (k, 0, Some err)
        | inr size => (k, size, if size <? 56 then Some ErrCanonSize else None)
        end).

Definition readKind : M Stream (Kind * Z * option RlpError) :=
  rb ← readByte;
  match rb with
  | inl err =>
      st ← gets stack;
      mret (Byte, 0, Some (match st, err with
                           | [], (io_ErrUnexpectedEOF | ErrValueTooLarge) => io_EOF
                           | _, _ => err
                           end))
  | inr b =>
      _ ← set_byteval 0;
      if b <? 0x80 then _ ← set_byteval b; mret (Byte, 0, None)
      else if b <? 0xB8 then mret (String, b - 0x80, None)
      else if b <? 0xC0 then readSizedTag String (b - 0xB7)
      else if b <? 0xF8 then mret (List, b - 0xC0, None)
      else readSizedTag List (b - 0xF7)
  end.

(** Kind: kind and size of the value ahead. *)
Definition Kind_ : D (Kind * Z) :=
  s ← gets id;
  match kind s with
  | Some k => mret (match kinderr s with Some err => inl err | None => inr (k, size s) end)
  | None =>
      _ ← set_kinderr None;
      if match stack s with tos :: _ => pos tos =? lsize tos | [] => false end then fail EOL
      else
        '(k, sz, err) ← readKind;
        s' ← gets id;
        let err := match err, stack s' with
                   | Some _, _ => err
                   | None, [] => if limited s' && (remaining s' <? sz) then Some ErrValueTooLarge else None
                   | None, tos :: _ => if u64_sub (lsize tos) (pos tos) <? sz then Some ErrElemTooLarge else None
                   end in
        _ ← set_kindinfo (Some k) sz err;
        mret (match err with Some err => inl err | None => inr (k, sz) end)
  end.

(** ** Values *)
Definition rearm : M Stream unit := set_kind None.

Definition Bytes : D (list Byte.byte) :=
  let! ks := Kind_ in
  match ks with
  | (Byte, _) => _ ← rearm; b ← gets byteval; ok [byte.of_Z b]
  | (String, size) =>
      _ ← make size;
      let! b := readFull size in
      if (size =? 1) && match b with x :: _ => byte.unsigned x <? 128 | [] => false end then fail ErrCanonSize
      else ok b
  | (List, _) => fail ErrExpectedString
  end.

Definition Raw : D (list Byte.byte) :=
  let! ks := Kind_ in
  match ks with
  | (Byte, _) => _ ← rearm; b ← gets byteval; ok [byte.of_Z b]
  | (k, size) =>
      let start := headsize size in
      _ ← make (u64_add start size);
      let! b := readFull size in
      let tags := if bool_decide (k = String) then (0x80, 0xB7) else (0xC0, 0xF7) in
      fun s => buf ← puthead 0 tags.1 tags.2 size (replicate (Z.to_nat start) Byte.x00 ++ b); Ok (inr buf.2, s)
  end.

Definition uint (maxbits : Z) : D Z :=
  let! ks := Kind_ in
  match ks with
  | (Byte, _) =>
      b ← gets byteval;
      if b =? 0 then fail ErrCanonInt else _ ← rearm; ok b
  | (String, size) =>
      if maxbits / 8 <? size then fail errUintOverflow
      else
        v ← readUint size;
        match v with
        | inl ErrCanonSize => fail ErrCanonInt
        | inl err => fail err
        | inr v => if (0 <? size) && (v <? 128) then fail ErrCanonSize else ok v
        end
  | (List, _) => fail ErrExpectedString
  end.

Definition Uint : D Z := uint 64.

Definition bigIntBytes : D (list Byte.byte) :=
  let! ks := Kind_ in
  let! buffer := match ks with
                 | (List, _) => fail ErrExpectedString
                 | (Byte, _) => b ← gets byteval; _ ← rearm; ok [byte.of_Z b]
                 | (String, size) =>
                     if size =? 0 then _ ← rearm; ok []
                     else if size <=? 32 then
                       let! buffer := readFull size in
                       if (size =? 1) && match buffer with x :: _ => byte.unsigned x <? 128 | [] => false end
                       then fail ErrCanonSize else ok buffer
                     else _ ← make size; readFull size
                 end in
  if match buffer with x :: _ => byte.unsigned x =? 0 | [] => false end then fail ErrCanonInt
  else ok buffer.

Definition Uint256Bytes : D (list Byte.byte) :=
  let! b := bigIntBytes in
  if 32 <? len b then fail errUintOverflow else ok b.

Definition Bool : D bool :=
  let! num := uint 8 in
  if num =? 0 then ok false else if num =? 1 then ok true else fail (invalidBoolean num).

(** ** Lists *)
Definition NewList (size : Z) : M Stream unit := modify (fun s =>
  mk_Stream (r s) (remaining s) (limited s) None 0 (byteval s) (kinderr s) (mk_listpos 0 size :: stack s)).

Definition List_ : D Z :=
  let! ks := Kind_ in
  match ks with
  | (List, size) => _ ← NewList size; ok size
  | _ => fail ErrExpectedList
  end.

Definition ListEnd : D unit :=
  st ← gets stack;
  match st with
  | [] => fail errNotInList
  | tos :: st =>
      if negb (pos tos =? lsize tos) then fail errNotAtEOL
      else
        let st := match st with
                  | up :: st => mk_listpos (u64_add (pos up) (lsize tos)) (lsize up) :: st
                  | [] => []
                  end in
        _ ← modify (fun s => mk_Stream (r s) (remaining s) (limited s) None 0 (byteval s) (kinderr s) st);
        ok tt
  end.

(** Decoders loop over a list until Stream reports its end; twice the input left
    bounds their turns. *)
Definition loopFuel : M Stream nat := gets (fun s => S (S (2 * length (r s)))).

(** ** Streams
    [sized] tells a bytes.Reader or a strings.Reader from other readers. *)
Definition Reset (sized : bool) (bs : list Byte.byte) (inputLimit : Z) (s : Stream) : Stream :=
  let '(rem, lim) :=
    if 0 <? inputLimit then (inputLimit, true)
    else if sized then (len bs, true) else (remaining s, false) in
  mk_Stream bs rem lim None 0 0 None [].

Definition zeroStream : Stream := mk_Stream [] 0 false (Some Byte) 0 0 None [].

Definition NewStream (sized : bool) (bs : list Byte.byte) (inputLimit : Z) : Stream := Reset sized bs inputLimit zeroStream.

Definition NewListStream (sized : bool) (bs : list Byte.byte) (n : Z) : Stream :=
  let s := Reset sized bs n zeroStream in
  mk_Stream (r s) (remaining s) (limited s) (Some List) n (byteval s) (kinderr s) (stack s).

(** DecodeBytes over any decoder; [pooled] is the stream the pool hands out. *)
Definition DecodeBytes {A} (pooled : Stream) (dec : D A) (b : list Byte.byte) : outcome (RlpError + A) :=
  '(res, s) ← dec (Reset true b (len b) pooled);
  Ok (match res with
      | inl err => inl err
      | inr v => if 0 <? len (r s) then inl ErrMoreThanOneValue else inr v
      end).
