(* ===== verification/RlpSpec.v ===== *)
(** What the encoders of [Rlp] write.  First the helpers over a buffer of known
    size: the reference encoding of strings, numbers and lists, and the rule for
    writers that run one after the other.  Then the buffer behind [rlp.Encode],
    which keeps string data and list headers apart: it stands for a sequence of
    tokens, [adds m ts] says that [m] appends the tokens [ts], and both toBytes
    and toWriter put data and headers together again. *)
From S2P Require Import Prelude Uint256 StateTypes Accounts AccountSpec Rlp.
#[local] Open Scope Z_scope.

(** * The encoding *)
Definition rlpHead (tag n : Z) : list Byte.byte :=
  if n <? 56 then [byte.of_Z (tag + n)]
  else byte.of_Z (tag + 55 + byteLen n) :: be_split (Z.to_nat (byteLen n)) n.

(** A byte below 128 stands for itself. *)
Definition single (bs : list Byte.byte) : bool :=
  match bs with [b] => byte.unsigned b <? 128 | _ => false end.

Definition rlpStr (bs : list Byte.byte) : list Byte.byte :=
  if single bs then bs else rlpHead 0x80 (len bs) ++ bs.

Definition rlpLst (content : list Byte.byte) : list Byte.byte := rlpHead 0xC0 (len content) ++ content.

#[export] Hint Resolve len_nonneg : ints.

Lemma len_cons {A} (x : A) l : len (x :: l) = 1 + len l.
Proof. unfold len. cbn [length]. lia. Qed.

Lemma len_rlpHead tag n : 0 <= n -> len (rlpHead tag n) = headsize n.
Proof.
  intros Hn. unfold rlpHead, headsize, intsize. case_match; [done|].
  rewrite len_cons, len_be_split, Z2Nat.id by auto with ints. done.
Qed.

Lemma len_rlpStr bs : len (rlpStr bs) = if single bs then 1 else headsize (len bs) + len bs.
Proof.
  unfold rlpStr. destruct (single bs) eqn:E; [by destruct bs as [|? []]|].
  by rewrite len_app, len_rlpHead by auto with ints.
Qed.

Lemma len_rlpLst c : len (rlpLst c) = headsize (len c) + len c.
Proof. unfold rlpLst. by rewrite len_app, len_rlpHead by auto with ints. Qed.

Lemma len_le_rlpStr d : len d <= len (rlpStr d).
Proof.
  unfold rlpStr. case_match; [lia|]. rewrite len_app. pose proof (len_nonneg (rlpHead 128 (len d))). lia.
Qed.

(** That no length in sight is negative. *)
Ltac len_facts :=
  repeat match goal with
  | H : context [len ?l] |- _ => lazymatch goal with _ : 0 <= len l |- _ => fail | _ => pose proof (len_nonneg l) end
  | |- context [len ?l] => lazymatch goal with _ : 0 <= len l |- _ => fail | _ => pose proof (len_nonneg l) end
  end.

Lemma headsize_pos n : 0 <= n -> 1 <= headsize n.
Proof. intros. unfold headsize. pose proof (byteLen_nonneg n). unfold intsize. case_match; lia. Qed.

Lemma take_len {A} (b : list A) n : 0 <= n <= len b -> exists x b', b = x ++ b' /\ len x = n.
Proof.
  intros Hn. exists (take (Z.to_nat n) b), (drop (Z.to_nat n) b). rewrite take_drop. split; [done|].
  unfold len in *. rewrite length_take. lia.
Qed.

Lemma len_lt_rlpLst c : len c < len (rlpLst c).
Proof. rewrite len_rlpLst. pose proof (headsize_pos (len c) (len_nonneg c)). lia. Qed.

Lemma rlpLst_nonempty c : rlpLst c <> [].
Proof. unfold rlpLst, rlpHead. by case_match. Qed.

(** A complete value: a string or a list. *)
Definition item (bs : list Byte.byte) : Prop := exists x, bs = rlpStr x \/ bs = rlpLst x.

Lemma item_nonempty bs : item bs -> bs <> [].
Proof.
  intros (x & [->| ->]); unfold rlpStr, rlpLst, rlpHead; repeat case_match; try done.
  intros ->. done.
Qed.

Lemma concat_length {A} (f : A -> list Byte.byte) xs : (forall x, In x xs -> f x <> []) -> (length xs <= length (concat (map f xs)))%nat.
Proof.
  induction xs as [|x xs IH]; intros Hf; [done|]. cbn [map concat]. rewrite length_app. cbn [length].
  specialize (IH (fun y Hy => Hf y (in_cons x y xs Hy))). specialize (Hf x (in_eq x xs)). destruct (f x); [done|]. cbn [length]. lia.
Qed.

Lemma len_concat_In {A} (f : A -> list Byte.byte) x xs : In x xs -> len (f x) <= len (concat (map f xs)).
Proof.
  induction xs as [|y xs IH]; [done|]. cbn [map concat]. rewrite len_app. intros [->|Hx]; [|specialize (IH Hx)]; len_facts; lia.
Qed.

Lemma be_split_app n m v : be_split (n + m) v = be_split n (Z.shiftr v (8 * Z.of_nat m)) ++ be_split m v.
Proof.
  revert v. induction m as [|m IH]; intros v.
  - by rewrite Nat.add_0_r, Z.shiftr_0_r, app_nil_r.
  - rewrite Nat.add_succ_r, !be_split_S, IH, Z.shiftr_shiftr, <- app_assoc by lia.
    replace (8 + 8 * Z.of_nat m) with (8 * Z.of_nat (S m)) by lia. done.
Qed.

Lemma byteLen_gt v n : 2 ^ (8 * n) <= v -> 0 <= n -> n < byteLen v.
Proof.
  intros Hv Hn. destruct (Z.lt_ge_cases n (byteLen v)) as [|Hge]; [done|]. exfalso.
  assert (0 < 2 ^ (8 * n)) by (apply Z.pow_pos_nonneg; lia).
  pose proof (byteLen_bound v ltac:(lia)). pose proof (Z.pow_le_mono_r 2 (8 * byteLen v) (8 * n)). lia.
Qed.

Lemma byteLen_unique v n : 0 < n -> 2 ^ (8 * (n - 1)) <= v < 2 ^ (8 * n) -> byteLen v = n.
Proof.
  intros Hn [H1 H2]. pose proof (byteLen_gt v (n - 1) H1).
  assert (0 < 2 ^ (8 * (n - 1))) by (apply Z.pow_pos_nonneg; lia).
  pose proof (byteLen_le v n). lia.
Qed.

Lemma byteLen_byte v : 0 < v < 256 -> byteLen v = 1.
Proof. intros. apply byteLen_unique; cbn; lia. Qed.

Lemma putintSize_spec i : 0 < i < 2 ^ 64 -> putintSize i = byteLen i.
Proof.
  intros Hi. unfold putintSize. symmetry.
  repeat case_match; rewrite ?Z.ltb_lt, ?Z.ltb_ge in *; apply byteLen_unique; cbn; lia.
Qed.

Lemma putShifted_spec n i pre mid post : length mid = n ->
  putShifted (len pre) n i (pre ++ mid ++ post) = Ok (tt, pre ++ be_split n i ++ post).
Proof.
  revert pre mid. induction n as [|n IH]; intros pre mid Hm; [by destruct mid|].
  destruct mid as [|x mid]; [done|]. injection Hm as Hm. cbn [putShifted app].
  erewrite M_bind_Ok by by apply put_spec.
  rewrite (cons_middle _ pre), (app_assoc pre), <- len_snoc with (x := byte.of_Z (Z.shiftr i (8 * Z.of_nat n))).
  rewrite IH by done. rewrite <- app_assoc. change (S n) with (1 + n)%nat. rewrite be_split_app. done.
Qed.

Lemma putint_spec i pre mid post : 0 < i < 2 ^ 64 -> len mid = byteLen i ->
  putint (len pre) i (pre ++ mid ++ post) = Ok (byteLen i, pre ++ be_split (Z.to_nat (byteLen i)) i ++ post).
Proof.
  intros Hi Hm. unfold putint. rewrite putintSize_spec by done.
  erewrite M_bind_Ok by (apply putShifted_spec; unfold len in Hm; lia). done.
Qed.

Lemma puthead_spec tag n pre mid post : 0 <= n < 2 ^ 64 -> len mid = headsize n ->
  puthead (len pre) tag (tag + 55) n (pre ++ mid ++ post) = Ok (headsize n, pre ++ rlpHead tag n ++ post).
Proof.
  intros Hn. unfold puthead, headsize, rlpHead, intsize. destruct (Z.ltb_spec n 56); intros Hm.
  - destruct mid as [|x [|]]; unfold len in Hm; cbn [length] in Hm; try lia. cbn [app].
    by erewrite M_bind_Ok by by apply put_spec.
  - pose proof (byteLen_nonneg n). destruct mid as [|x mid]; [change (len []) with 0 in Hm; lia|]. rewrite len_cons in Hm. cbn [app].
    rewrite (cons_middle _ pre), (app_assoc pre), <- len_snoc with (x := x).
    erewrite M_bind_Ok by (apply putint_spec; lia). rewrite <- app_assoc. cbn [app].
    erewrite M_bind_Ok by by apply put_spec. unfold mret, M_ret. do 2 f_equal. lia.
Qed.

(** * Writers *)

(** [m] writes [bs], whatever the scratch buffer of 33 bytes contains. *)
Definition emits (m : M writer unit) (bs : list Byte.byte) : Prop :=
  forall out buf, 33 <= len buf ->
    exists buf', len buf' = len buf /\ m (mk_writer out buf) = Ok (tt, mk_writer (out ++ bs) buf').

Lemma emits_bind m bs k cs : emits m bs -> emits k cs -> emits (_ ← m; k) (bs ++ cs).
Proof.
  intros Hm Hk out buf Hb. destruct (Hm out buf Hb) as (b1 & L1 & E1).
  destruct (Hk (out ++ bs) b1 ltac:(lia)) as (b2 & L2 & E2). exists b2. split; [lia|].
  by rewrite (M_bind_Ok _ _ _ _ _ E1), E2, app_assoc.
Qed.

Lemma emits_bind2 (m n k : M writer unit) bs cs : emits (_ ← m; n) bs -> emits k cs -> emits (_ ← m; _ ← n; k) (bs ++ cs).
Proof.
  intros Hm Hk out buf Hb. destruct (emits_bind _ _ _ _ Hm Hk out buf Hb) as (buf' & L & E). exists buf'. split; [done|].
  by rewrite <- M_bind_assoc.
Qed.

Lemma emits_ret : emits (mret tt) [].
Proof. intros out buf Hb. exists buf. by rewrite app_nil_r. Qed.

Lemma emits_Write bs : emits (Write bs) bs.
Proof. intros out buf Hb. by exists buf. Qed.

Lemma emits_mfor {A} (f : A -> M writer unit) g xs :
  (forall x, In x xs -> emits (f x) (g x)) -> emits (mfor f xs) (concat (map g xs)).
Proof.
  induction xs as [|x xs IH]; intros Hf; cbn; [apply emits_ret|].
  apply emits_bind; [apply Hf; by left|apply IH; intros; apply Hf; by right].
Qed.

Lemma emits_if (b : bool) m1 m2 bs1 bs2 :
  emits m1 bs1 -> emits m2 bs2 -> emits (if b then m1 else m2) (if b then bs1 else bs2).
Proof. by destruct b. Qed.

Lemma emits_written n m bs : (33 <= n)%nat -> emits m bs -> written n m = Ok bs.
Proof.
  intros Hn Hm. unfold written. destruct (Hm [] (replicate n Byte.x00)) as (? & _ & ->); [|done].
  unfold len. rewrite length_replicate. lia.
Qed.

Lemma emits_byte b : emits (_ ← onBuf (put 0 b); WriteBuf 0 1) [byte.of_Z b].
Proof.
  intros out [|x buf] Hb; [done|]. exists (byte.of_Z b :: buf). split; [done|].
  assert (put 0 b (x :: buf) = Ok (tt, byte.of_Z b :: buf)) as E by by apply (put_spec []).
  erewrite M_bind_Ok; [|unfold onBuf; cbn [w_buf]; rewrite E; done].
  unfold WriteBuf. cbn [w_buf fst snd].
  assert (slice (byte.of_Z b :: buf) 0 1 = Ok [byte.of_Z b]) as ->; [|done].
  by apply (slice_app [] [byte.of_Z b] buf).
Qed.

(** The number at the end of the first nine bytes of the scratch buffer, with
    a tag before it. *)
Lemma emits_tagged v tag : is_u64 v ->
  emits (_ ← onBuf (PutUint64 1 v); _ ← onBuf (put (8 - byteLen v) tag); WriteBuf (8 - byteLen v) 9)
    (byte.of_Z tag :: be_split (Z.to_nat (byteLen v)) v).
Proof.
  intros Hv out buf Hb. pose proof (byteLen_u64 v Hv) as Hn. set (n := byteLen v) in *.
  destruct buf as [|x0 buf]; [done|]. rewrite len_cons in Hb.
  destruct (take_mid buf 8 (length buf - 8)) as (mid & post & -> & Hmid & Hpost); [unfold len in Hb; lia|].
  set (hi := be_split (8 - Z.to_nat n) (Z.shiftr v (8 * n))).
  assert (be_split 8 v = hi ++ be_split (Z.to_nat n) v) as H8.
  { unfold hi. replace n with (Z.of_nat (Z.to_nat n)) at 2 by lia. rewrite <- be_split_app. f_equal. lia. }
  destruct (exists_last (l := x0 :: hi)) as (p & y & Hp); [done|].
  assert (len p = 8 - n) as Hlp.
  { assert (len (x0 :: hi) = len (p ++ [y])) as E by by rewrite Hp.
    rewrite len_cons, len_snoc in E. unfold hi in E. rewrite len_be_split in E. lia. }
  exists (p ++ byte.of_Z tag :: be_split (Z.to_nat n) v ++ post). split.
  { rewrite len_cons, !len_app, !len_cons, len_app, len_be_split. unfold len in *. lia. }
  assert (PutUint64 1 v (x0 :: mid ++ post) = Ok (tt, p ++ y :: be_split (Z.to_nat n) v ++ post)) as E.
  { unfold PutUint64. rewrite (proj2 (Z.leb_le _ _)); [|rewrite len_cons, len_app; unfold len; lia].
    change (x0 :: mid ++ post) with ([x0] ++ mid ++ post). rewrite copyAt_spec by by rewrite ?length_be_split.
    rewrite H8, <- app_assoc. change ([x0] ++ hi ++ be_split (Z.to_nat n) v ++ post) with ((x0 :: hi) ++ be_split (Z.to_nat n) v ++ post).
    rewrite Hp, <- app_assoc. done. }
  erewrite M_bind_Ok; [|unfold onBuf; cbn [w_buf]; rewrite E; done]. cbn [fst snd w_out].
  erewrite M_bind_Ok; [|unfold onBuf; cbn [w_buf]; rewrite put_spec by done; done]. cbn [fst snd w_out].
  unfold WriteBuf. cbn [w_buf].
  rewrite (slice_app p (byte.of_Z tag :: be_split (Z.to_nat n) v) post); [done|lia|rewrite len_cons, len_be_split; lia].
Qed.

Lemma emits_EncodeInt i : is_u64 i -> emits (EncodeInt i) (rlpNumber i).
Proof.
  intros Hi. unfold EncodeInt, rlpNumber, IntLenExcludingHead, intsize.
  replace ((0 <? i) && (i <? 128)) with ((i <? 128) && negb (i =? 0));
    [|unfold is_u64 in Hi; destruct (Z.ltb_spec 0 i), (Z.ltb_spec i 128), (Z.eqb_spec i 0); cbn; lia].
  destruct (Z.ltb_spec i 128); cbn [andb].
  - destruct (Z.eqb_spec i 0) as [->|]; cbn [negb]; [|apply emits_byte]. by apply (emits_tagged 0 128).
  - by apply emits_tagged.
Qed.

Lemma emits_StringSizePrefix n : 0 <= n < 2 ^ 64 -> emits (EncodeStringSizePrefix n) (rlpHead 0x80 n).
Proof.
  intros Hn. unfold EncodeStringSizePrefix, rlpHead. destruct (Z.ltb_spec n 56).
  - rewrite (proj2 (Z.leb_gt _ _)) by lia. rewrite Z.add_comm. apply emits_byte.
  - rewrite (proj2 (Z.leb_le _ _)) by lia. replace (128 + 55 + byteLen n) with (byteLen n + 183) by lia.
    by apply emits_tagged.
Qed.

Lemma emits_EncodeString s : len s < 2 ^ 64 -> emits (EncodeString s) (rlpStr s).
Proof.
  intros Hs. destruct s as [|b [|c s]].
  - apply emits_byte.
  - unfold EncodeString, rlpStr, single.
    destruct (Z.ltb_spec (byte.unsigned b) 128).
    + rewrite (proj2 (Z.leb_gt _ _)) by lia. apply (emits_bind _ []); [apply emits_ret|apply emits_Write].
    + rewrite (proj2 (Z.leb_le _ _)) by lia. apply emits_bind; [apply emits_byte|apply emits_Write].
  - unfold rlpStr. cbn [single]. apply emits_bind; [apply emits_StringSizePrefix; pose proof (len_nonneg (b :: c :: s)); lia|apply emits_Write].
Qed.

Lemma bitLen_lt_8 v : 0 <= v -> (bitLen v <? 8) = (v <? 128).
Proof.
  intros Hv. unfold bitLen. destruct (Z.eqb_spec v 0) as [->|]; [done|].
  destruct (Z.ltb_spec v 128) as [Hlt|Hge].
  - apply Z.ltb_lt. apply Z.log2_lt_pow2 with (b := 7) in Hlt; lia.
  - apply Z.ltb_ge. apply (Z.log2_le_pow2 v 7) in Hge; lia.
Qed.

Lemma BigIntLenExcludingHead_spec i : 0 <= i -> BigIntLenExcludingHead i = IntLenExcludingHead i.
Proof. intros Hi. unfold BigIntLenExcludingHead, IntLenExcludingHead. by rewrite Z.abs_eq, bitLen_lt_8. Qed.

Lemma bitLen_pos v : 0 < v -> 0 < bitLen v.
Proof. intros. unfold bitLen. case_match; [lia|]. pose proof (Z.log2_nonneg v). lia. Qed.

Lemma emits_EncodeBigInt i : 0 <= i < 2 ^ 256 -> emits (EncodeBigInt (Some i)) (rlpNumber i).
Proof.
  intros Hi. unfold EncodeBigInt, rlpNumber, IntLenExcludingHead. rewrite Z.abs_eq, bitLen_lt_8 by lia.
  destruct (Z.ltb_spec i 128); cbn [andb].
  - destruct (Z.eqb_spec i 0) as [->|]; cbn [negb]; [apply (emits_byte 128)|].
    pose proof (bitLen_pos i). rewrite (proj2 (Z.ltb_lt _ _)) by lia. apply emits_byte.
  - fold (byteLen i). intros out buf Hb. pose proof (byteLen_le i 32 ltac:(lia) ltac:(lia)).
    pose proof (byteLen_nonneg i). destruct buf as [|x0 buf]; [done|]. rewrite len_cons in Hb.
    destruct (take_mid buf (Z.to_nat (byteLen i)) (length buf - Z.to_nat (byteLen i))) as (mid & post & -> & Hmid & Hpost); [unfold len in Hb; lia|].
    set (tag := byte.of_Z (128 + byteLen i)). set (body := be_split _ i).
    assert (length body = Z.to_nat (byteLen i)) as Hl by apply length_be_split.
    exists (tag :: body ++ post). split; [rewrite !len_cons, !len_app; unfold len; lia|].
    assert (put 0 (128 + byteLen i) (x0 :: mid ++ post) = Ok (tt, tag :: mid ++ post)) as Et by by apply (put_spec []).
    erewrite M_bind_Ok; [|unfold onBuf; cbn [w_buf]; rewrite Et; done]. cbn [fst snd w_out app].
    assert (slice (tag :: mid ++ post) 1 (1 + byteLen i) = Ok mid) as Es by (apply (slice_app [tag]); unfold len; [done|lia]).
    assert (copyAt 1 body (tag :: mid ++ post) = Ok (tt, tag :: body ++ post)) as Ec by (apply (copyAt_spec body [tag]); [done|lia]).
    erewrite M_bind_Ok; [|unfold onBuf; cbn [w_buf]; fold tag; rewrite Es; cbn [mbind outcome_bind]; by rewrite Ec].
    cbn [fst snd w_out]. unfold WriteBuf. cbn [w_buf].
    assert (slice (tag :: body ++ post) 0 (1 + byteLen i) = Ok (tag :: body)) as ->; [|done].
    apply (slice_app [] (tag :: body) post); [done|rewrite len_cons; unfold len; lia].
Qed.

Import encbuf.

Inductive tok := Chunk (bs : Datatypes.list Byte.byte) | Head (n : Z).

Abbreviation toks := (Datatypes.list tok) (only parsing).

Fixpoint strOf (ts : toks) : Datatypes.list Byte.byte :=
  match ts with [] => [] | Chunk bs :: ts => bs ++ strOf ts | Head _ :: ts => strOf ts end.

Fixpoint headsOf (off : Z) (ts : toks) : Datatypes.list listhead :=
  match ts with [] => [] | Chunk bs :: ts => headsOf (off + len bs) ts | Head n :: ts => mk_listhead off n :: headsOf off ts end.

Fixpoint headSizes (ts : toks) : Z :=
  match ts with [] => 0 | Chunk _ :: ts => headSizes ts | Head n :: ts => headsize n + headSizes ts end.

(** The encoding that the tokens stand for. *)
Fixpoint bytesOf (ts : toks) : Datatypes.list Byte.byte :=
  match ts with [] => [] | Chunk bs :: ts => bs ++ bytesOf ts | Head n :: ts => rlpHead 0xC0 n ++ bytesOf ts end.

Definition heads_ok (ts : toks) : Prop := Forall (fun t => match t with Head n => 0 <= n < 2 ^ 64 | Chunk _ => True end) ts.

Lemma strOf_app ts us : strOf (ts ++ us) = strOf ts ++ strOf us.
Proof. induction ts as [|[bs|n] ts IH]; cbn [strOf app]; rewrite ?IH, ?app_assoc; done. Qed.

Lemma headsOf_app off ts us : headsOf off (ts ++ us) = headsOf off ts ++ headsOf (off + len (strOf ts)) us.
Proof.
  revert off. induction ts as [|[bs|n] ts IH]; intros off; cbn [strOf headsOf app].
  - change (len []) with 0. by rewrite Z.add_0_r.
  - by rewrite IH, len_app, Z.add_assoc.
  - by rewrite IH.
Qed.

Lemma headSizes_app ts us : headSizes (ts ++ us) = headSizes ts + headSizes us.
Proof. induction ts as [|[bs|n] ts IH]; cbn [headSizes app]; rewrite ?IH; lia. Qed.

Lemma bytesOf_app ts us : bytesOf (ts ++ us) = bytesOf ts ++ bytesOf us.
Proof. induction ts as [|[bs|n] ts IH]; cbn [bytesOf app]; rewrite ?IH, ?app_assoc; done. Qed.

Lemma len_bytesOf ts : heads_ok ts -> len (bytesOf ts) = len (strOf ts) + headSizes ts.
Proof.
  induction ts as [|[bs|n] ts IH]; intros Hok; cbn [bytesOf strOf headSizes]; [done|..]; apply Forall_cons_iff in Hok as [Hn Hok];
    rewrite !len_app, IH by done; [lia|]. rewrite len_rlpHead by lia. lia.
Qed.

(** * What a buffer stands for *)
Record repr (w : encbuf) (ts : toks) (h : Z) : Prop := mk_repr {
  r_str : str w = strOf ts;
  r_heads : lheads w = headsOf 0 ts;
  r_lhsize : lhsize w = h;
  r_sizebuf : len (sizebuf w) = 9
}.

Definition adds {E} (m : M encbuf (option E)) (ts : toks) : Prop := forall w us h, repr w us h ->
  exists w', m w = Ok (None, w') /\ repr w' (us ++ ts) (h + headSizes ts).

Lemma repr_reset w : len (sizebuf w) = 9 -> repr (reset w) [] 0.
Proof. by split. Qed.

Lemma append_repr bs w us h : repr w us h -> exists w', append bs w = Ok (tt, w') /\ repr w' (us ++ [Chunk bs]) h.
Proof.
  intros [Hs Hh Hl Hb]. eexists. split; [done|]. split; cbn; rewrite ?strOf_app, ?headsOf_app; cbn [strOf headsOf]; rewrite ?app_nil_r; congruence.
Qed.

(** A number of up to 8 bytes and its tag in front, by way of sizebuf. *)
Lemma appendTagged_repr v tag w us h : 0 < v < 2 ^ 64 -> repr w us h ->
  exists w', (s ← onSizebuf (putint 1 v); _ ← onSizebuf (put 0 (tag + s)); appendSizebuf (s + 1)) w = Ok (tt, w') /\
    repr w' (us ++ [Chunk (byte.of_Z (tag + byteLen v) :: be_split (Z.to_nat (byteLen v)) v)]) h.
Proof.
  intros Hv [Hs Hh Hl Hb]. pose proof (byteLen_le v 8 ltac:(lia) ltac:(lia)) as Hn. pose proof (byteLen_nonneg v).
  destruct (sizebuf w) as [|x buf] eqn:E; [done|]. rewrite len_cons in Hb.
  destruct (take_len buf (byteLen v)) as (mid & post & -> & Hm); [lia|].
  assert (putint 1 v (x :: mid ++ post) = Ok (byteLen v, x :: be_split (Z.to_nat (byteLen v)) v ++ post)) as E1 by by apply (putint_spec v [x]).
  erewrite M_bind_Ok; [|unfold onSizebuf; rewrite E, E1; done]. cbn [fst snd].
  assert (put 0 (tag + byteLen v) (x :: be_split (Z.to_nat (byteLen v)) v ++ post) =
          Ok (tt, byte.of_Z (tag + byteLen v) :: be_split (Z.to_nat (byteLen v)) v ++ post)) as E2 by by apply (put_spec []).
  erewrite M_bind_Ok; [|unfold onSizebuf; cbn [sizebuf]; rewrite E2; done]. cbn [fst snd].
  set (bs := byte.of_Z (tag + byteLen v) :: be_split (Z.to_nat (byteLen v)) v).
  assert (slice (byte.of_Z (tag + byteLen v) :: be_split (Z.to_nat (byteLen v)) v ++ post) 0 (byteLen v + 1) = Ok bs) as E3.
  { apply (slice_app [] bs post); [done|]. unfold bs. rewrite len_cons, len_be_split. lia. }
  unfold appendSizebuf. cbn [sizebuf]. rewrite E3. cbn [mbind outcome_bind]. apply append_repr. split; cbn; try done.
  rewrite len_app in Hb. rewrite len_cons, len_app, len_be_split. lia.
Qed.

(** * The operations *)
Lemma encodeUint_repr i w us h : is_u64 i -> repr w us h -> exists w', encodeUint i w = Ok (tt, w') /\ repr w' (us ++ [Chunk (rlpNumber i)]) h.
Proof.
  intros Hi Hr. unfold encodeUint, rlpNumber, IntLenExcludingHead, is_u64 in *.
  destruct (Z.eqb_spec i 0) as [->|]; [by apply append_repr|]. destruct (Z.ltb_spec i 128); cbn [andb negb]; [by apply append_repr|].
  apply appendTagged_repr; [lia|done].
Qed.

Lemma encodeStringHeader_repr n w us h : 0 <= n < 2 ^ 64 -> repr w us h ->
  exists w', encodeStringHeader n w = Ok (tt, w') /\ repr w' (us ++ [Chunk (rlpHead 0x80 n)]) h.
Proof.
  intros Hn Hr. unfold encodeStringHeader, rlpHead. destruct (Z.ltb_spec n 56); [by apply append_repr|].
  change (128 + 55) with 183. apply appendTagged_repr; [lia|done].
Qed.

Lemma repr_chunks w us bs cs h : repr w ((us ++ [Chunk bs]) ++ [Chunk cs]) h -> repr w (us ++ [Chunk (bs ++ cs)]) h.
Proof.
  intros [Hs Hh Hl Hb]. split; [..|done|done]; rewrite ?Hs, ?Hh, ?strOf_app, ?headsOf_app; cbn [strOf headsOf]; by rewrite ?app_nil_r, <- ?app_assoc.
Qed.

Lemma headedString_repr b w us h : len b < 2 ^ 64 -> repr w us h ->
  exists w', (_ ← encodeStringHeader (len b); append b) w = Ok (tt, w') /\ repr w' (us ++ [Chunk (rlpHead 0x80 (len b) ++ b)]) h.
Proof.
  intros Hb Hr. destruct (encodeStringHeader_repr (len b) w us h) as (w1 & E1 & H1); [len_facts; lia|done|].
  destruct (append_repr b _ _ _ H1) as (w2 & E2 & H2). exists w2. rewrite (M_bind_Ok _ _ _ _ _ E1). split; [done|]. by apply repr_chunks.
Qed.

Lemma encodeString_repr b w us h : len b < 2 ^ 64 -> repr w us h ->
  exists w', encodeString b w = Ok (tt, w') /\ repr w' (us ++ [Chunk (rlpStr b)]) h.
Proof.
  intros Hb Hr. unfold rlpStr. destruct b as [|x [|y b]]; cbn [single encodeString]; try by apply headedString_repr.
  destruct (Z.leb_spec (byte.unsigned x) 127), (Z.ltb_spec (byte.unsigned x) 128); try lia; [by apply append_repr|by apply headedString_repr].
Qed.

(** ** Appending tokens *)
Section adds.
Context {E : Type}.
Implicit Types (m : M encbuf (option E)).

Lemma adds_unit (u : M encbuf unit) bs :
  (forall w us h, repr w us h -> exists w', u w = Ok (tt, w') /\ repr w' (us ++ [Chunk bs]) h) -> adds (_ ← u; mret (None : option E)) [Chunk bs].
Proof.
  intros Hu w us h Hr. destruct (Hu w us h Hr) as (w' & Eu & H'). exists w'. rewrite (M_bind_Ok _ _ _ _ _ Eu). split; [done|].
  cbn [headSizes]. by rewrite Z.add_0_r.
Qed.

Lemma adds_ret : adds (mret None : M encbuf (option E)) [].
Proof. intros w us h Hr. exists w. split; [done|]. rewrite app_nil_r. cbn. by rewrite Z.add_0_r. Qed.

Lemma adds_seq m k ts us : adds m ts -> adds k us ->
  adds (err ← m; match err with Some err => mret (Some err) | None => k end) (ts ++ us).
Proof.
  intros Hm Hk w vs h Hr. destruct (Hm w vs h Hr) as (w1 & E1 & H1). destruct (Hk w1 _ _ H1) as (w2 & E2 & H2). exists w2.
  rewrite (M_bind_Ok _ _ _ _ _ E1). split; [done|]. by rewrite app_assoc, headSizes_app, Z.add_assoc.
Qed.

Definition listToks (ts : toks) : toks := Head (len (bytesOf ts)) :: ts.

Lemma bytesOf_listToks ts : bytesOf (listToks ts) = rlpLst (bytesOf ts).
Proof. done. Qed.

Lemma list_repr w us h : repr w us h -> exists w', list w = Ok (len (headsOf 0 us), w') /\ repr w' (us ++ [Head h]) h.
Proof.
  intros [Hs Hh Hl Hb]. eexists. split; [unfold list; cbn [lheads]; rewrite len_app, Hh; change (len [_]) with 1; by replace (_ + 1 - 1) with (len (headsOf 0 us)) by lia|].
  split; cbn; rewrite ?strOf_app, ?headsOf_app; cbn [strOf headsOf]; rewrite ?app_nil_r, ?Hs, ?Hh, ?Hl; done.
Qed.

Lemma listEnd_repr w us h ts : heads_ok ts -> repr w (us ++ Head h :: ts) (h + headSizes ts) ->
  exists w', listEnd (len (headsOf 0 us)) w = Ok (tt, w') /\ repr w' (us ++ listToks ts) (h + headSizes (listToks ts)).
Proof.
  intros Hok [Hs Hh Hl Hb]. rewrite strOf_app in Hs. rewrite headsOf_app in Hh. cbn [strOf headsOf] in Hs, Hh.
  assert (lookupZ (lheads w) (len (headsOf 0 us)) = Some (mk_listhead (0 + len (strOf us)) h)) as El.
  { unfold lookupZ. rewrite (proj2 (Z.ltb_ge _ _)) by (len_facts; lia). unfold len at 1. rewrite Nat2Z.id, Hh. by apply list_lookup_middle. }
  unfold listEnd. rewrite El. cbn [or_panic mbind outcome_bind offset lh_size].
  assert (size w - (0 + len (strOf us)) - h = len (bytesOf ts)) as -> by (unfold size; rewrite Hs, Hl, len_app, len_bytesOf by done; lia).
  eexists. split; [done|]. split; cbn [str lheads lhsize sizebuf].
  - by rewrite Hs, strOf_app.
  - rewrite Hh, headsOf_app. unfold len at 1. rewrite Nat2Z.id. cbn [headsOf listToks]. by rewrite insert_app_r_alt, Nat.sub_diag by done.
  - rewrite Hl. cbn [listToks headSizes]. unfold headsize. case_match; lia.
  - done.
Qed.

Lemma heads_ok_listToks ts : heads_ok ts -> len (bytesOf ts) < 2 ^ 64 -> heads_ok (listToks ts).
Proof. intros Hok Hl. constructor; [|done]. len_facts. lia. Qed.
End adds.

(** * Putting the encoding together *)

(** The header of a list in the auxiliary buffer. *)
Lemma encodeHead_spec n w : 0 <= n < 2 ^ 64 -> len (sizebuf w) = 9 -> exists buf, len buf = 9 /\
  (k ← onSizebuf (puthead 0 0xC0 0xF7 (u64 n)); (fun w => bs ← slice (sizebuf w) 0 k; Ok (bs, w)) : M encbuf (Datatypes.list Byte.byte)) w =
  Ok (rlpHead 0xC0 n, mk_encbuf (str w) (lheads w) (lhsize w) buf).
Proof.
  intros Hn Hb. rewrite u64_small by done. pose proof (headsize_pos n ltac:(lia)).
  assert (headsize n <= 9) as Hh. { unfold headsize, intsize. pose proof (byteLen_le n 8). repeat case_match; lia. }
  destruct (take_len (sizebuf w) (headsize n)) as (mid & post & Ew & Hm); [lia|]. exists (rlpHead 192 n ++ post).
  assert (puthead 0 192 247 n (sizebuf w) = Ok (headsize n, rlpHead 192 n ++ post)) as E1 by (rewrite Ew; by apply (puthead_spec 192 n [])).
  split; [rewrite Ew in Hb; rewrite len_app, len_rlpHead in * by lia; lia|].
  erewrite M_bind_Ok; [|unfold onSizebuf; rewrite E1; done]. cbn [fst snd sizebuf].
  assert (slice (rlpHead 192 n ++ post) 0 (headsize n) = Ok (rlpHead 192 n)) as ->; [|done].
  apply (slice_app [] _ post); [done|]. by rewrite len_rlpHead by lia.
Qed.

Lemma toWriter_loop_spec ts p pre out w : heads_ok ts -> str w = pre ++ p ++ strOf ts -> len (sizebuf w) = 9 ->
  exists w', toWriter_loop (headsOf (len pre + len p) ts) (len pre) out w = Ok (out ++ p ++ bytesOf ts, w').
Proof.
  revert p pre out w. induction ts as [|[bs|n] ts IH]; intros p pre out w Hok Hs Hb; cbn [headsOf toWriter_loop bytesOf strOf] in *;
    try apply Forall_cons_iff in Hok as [Hn Hok].
  - exists w. rewrite app_nil_r in *. rewrite Hs, len_app. destruct (Z.ltb_spec (len pre) (len pre + len p)) as [|Hl].
    + assert (slice (pre ++ p) (len pre) (len pre + len p) = Ok p) as -> by (rewrite <- (app_nil_r p) at 1; by apply slice_app). done.
    + destruct p; [by rewrite app_nil_r|]. rewrite len_cons in Hl. len_facts. lia.
  - rewrite <- Z.add_assoc, <- len_app, (app_assoc p). apply IH; [done| |done]. by rewrite Hs, <- !app_assoc.
  - cbn [offset lh_size]. replace (len pre + len p - len pre) with (len p) by lia.
    assert ((if 0 <? len p then slice (str w) (len pre) (len pre + len p) else Ok []) = Ok p) as ->.
    { destruct (Z.ltb_spec 0 (len p)) as [|Hl]; [rewrite Hs; by apply slice_app|]. destruct p; [done|]. rewrite len_cons in Hl. len_facts. lia. }
    cbn [mbind outcome_bind]. destruct (encodeHead_spec n w Hn Hb) as (buf & Hl & E1). rewrite <- M_bind_assoc, (M_bind_Ok _ _ _ _ _ E1), <- len_app.
    destruct (IH [] (pre ++ p) (out ++ p ++ rlpHead 192 n) (mk_encbuf (str w) (lheads w) (lhsize w) buf)) as (w' & E3); try done.
    { by rewrite <- app_assoc. }
    exists w'. change (len []) with 0 in E3. rewrite Z.add_0_r in E3. rewrite E3. by rewrite <- !app_assoc.
Qed.

Lemma toWriter_spec w ts h : heads_ok ts -> repr w ts h -> toWriter w = Ok (bytesOf ts).
Proof.
  intros Hok [Hs Hh _ Hb]. unfold toWriter. rewrite Hh. destruct (toWriter_loop_spec ts [] [] [] w Hok Hs Hb) as (w' & E).
  cbn [app] in E. change (len [] + len []) with 0 in E. change (len []) with 0 in E. by rewrite E.
Qed.

(** The output of toBytes: [d] is written, [rest] is to be. *)
Lemma toBytes_loop_spec ts p pre d rest w : heads_ok ts -> str w = pre ++ p ++ strOf ts -> len rest = len (p ++ bytesOf ts) ->
  toBytes_loop w (headsOf (len pre + len p) ts) (len pre) (len d) (d ++ rest) = Ok (tt, d ++ p ++ bytesOf ts).
Proof.
  revert p pre d rest. induction ts as [|[bs|n] ts IH]; intros p pre d rest Hok Hs Hr; cbn [headsOf toBytes_loop bytesOf strOf] in *;
    try apply Forall_cons_iff in Hok as [Hn Hok].
  - rewrite app_nil_r in *. rewrite Hs, len_app.
    assert (slice (pre ++ p) (len pre) (len pre + len p) = Ok p) as -> by (rewrite <- (app_nil_r p) at 1; by apply slice_app).
    cbn [mbind outcome_bind]. rewrite <- (app_nil_r rest).
    rewrite (copyAt_spec p d rest []); [by rewrite app_nil_r|done|]. unfold len in Hr. lia.
  - rewrite <- Z.add_assoc, <- len_app, (app_assoc p). apply IH; [done| |by rewrite <- app_assoc]. by rewrite Hs, <- !app_assoc.
  - cbn [offset lh_size]. rewrite Hs. assert (slice (pre ++ p ++ strOf ts) (len pre) (len pre + len p) = Ok p) as -> by by apply slice_app.
    cbn [mbind outcome_bind]. rewrite len_app in Hr. pose proof (len_nonneg (rlpHead 192 n ++ bytesOf ts)). pose proof (len_nonneg p).
    rewrite (len_app d), Z.min_r by lia. destruct (take_len rest (len p)) as (m1 & r1 & -> & Hm1); [lia|].
    assert (copyAt (len d) p (d ++ m1 ++ r1) = Ok (tt, d ++ p ++ r1)) as E1 by (apply copyAt_spec; [done|unfold len in Hm1; lia]).
    rewrite (M_bind_Ok _ _ _ _ _ E1), u64_small by done. rewrite !len_app, len_rlpHead in Hr by lia.
    pose proof (headsize_pos n ltac:(lia)). pose proof (len_nonneg (bytesOf ts)).
    destruct (take_len r1 (headsize n)) as (m2 & r2 & -> & Hm2); [lia|].
    assert (puthead (len d + len p) 192 247 n (d ++ p ++ m2 ++ r2) = Ok (headsize n, d ++ p ++ rlpHead 192 n ++ r2)) as E2.
    { rewrite <- len_app, !(app_assoc d). by apply (puthead_spec 192 n (d ++ p)). }
    rewrite (M_bind_Ok _ _ _ _ _ E2). rewrite len_app in Hr.
    specialize (IH [] (pre ++ p) (d ++ p ++ rlpHead 192 n) r2 Hok). change (len []) with 0 in IH. rewrite Z.add_0_r in IH.
    rewrite !len_app, len_rlpHead, Z.add_assoc, <- !app_assoc in IH by lia. cbn [app] in IH. rewrite IH; [done|done|]. change (len []) with 0. lia.
Qed.

Lemma toBytes_spec w ts : heads_ok ts -> repr w ts (headSizes ts) -> toBytes w = Ok (bytesOf ts).
Proof.
  intros Hok [Hs Hh Hl _]. unfold toBytes, size. rewrite Hh, Hs, Hl, <- len_bytesOf by done.
  rewrite (proj2 (Z.leb_le _ _)) by auto with ints.
  pose proof (toBytes_loop_spec ts [] [] [] (replicate (Z.to_nat (len (bytesOf ts))) Byte.x00) w Hok Hs) as E.
  cbn [app] in E. change (len [] + len []) with 0 in E. change (len []) with 0 in E. rewrite E; [done|].
  unfold len. rewrite length_replicate. lia.
Qed.
