(* ===== verification/StreamSpec.v ===== *)
(** The stream decoder of [RlpStream] against the reference encoding of
    [RlpSpec].

    A limited stream is seen as the bytes left in the innermost list, the
    bytes left in the list around it, and so on out to the rest of the input
    ([view]).  Over that view every method has two rules: [runs], what it does
    with a value that is encoded ahead, and [safe], that it never panics, keeps
    the stream well formed and uses up input.  The rules compose along [let!],
    so the decoders of the client files are handled by applying them. *)
From S2P Require Import Prelude Uint256 StateTypes Accounts AccountSpec Rlp RlpStream RlpSpec.
#[local] Open Scope Z_scope.

#[local] Arguments Z.ltb : simpl never.
#[local] Arguments Z.eqb : simpl never.
#[local] Arguments u64_sub : simpl never.
#[local] Arguments u64_add : simpl never.
#[local] Arguments len : simpl never.

(** One step of a computation whose result is known by computing. *)
Ltac mstep :=
  erewrite M_bind_Ok by reflexivity;
  cbn [RlpStream.r remaining limited kind size byteval kinderr stack fst snd].

(** * Views *)

(** The open lists against the bytes left in them; [pending] is the size of
    the list inside, which ListEnd will add. *)
Fixpoint frames_ok (st : list listpos) (pending : Z) (fs : list (list Byte.byte)) : Prop :=
  match st, fs with
  | [], [_] => True
  | lp :: st, b :: fs =>
      0 <= pos lp /\ 0 <= pending /\ lsize lp < 2 ^ 64 /\ pos lp + pending + len b = lsize lp /\
      frames_ok st (lsize lp) fs
  | _, _ => False
  end.

Record view (s : Stream) (fs : list (list Byte.byte)) : Prop := {
  v_r : r s = concat fs;
  v_remaining : remaining s = len (r s);
  v_limited : limited s = true;
  v_frames : frames_ok (stack s) 0 fs;
  v_len : len (r s) < 2 ^ 47
}.

(** No value ahead has been looked at. *)
Definition armed (s : Stream) : Prop := kind s = None.

(** What Kind has found ahead and not yet been read. *)
Record peeked (s : Stream) (k : Kind) (sz : Z) (b : list Byte.byte) : Prop := {
  p_kind : kind s = Some k;
  p_size : size s = sz;
  p_err : kinderr s = None;
  p_fits : 0 <= sz <= len b
}.

(** * Reading bytes *)

Lemma frames_ok_take st x b fs :
  frames_ok st 0 ((x ++ b) :: fs) ->
  frames_ok (match st with [] => [] | lp :: st => mk_listpos (u64_add (pos lp) (len x)) (lsize lp) :: st end) 0 (b :: fs).
Proof.
  destruct st as [|lp st]; cbn; [done|]. intros (F1 & _ & F2 & F3 & F4). rewrite len_app in F3.
  pose proof (len_nonneg x). pose proof (len_nonneg b). rewrite u64_add_small by (unfold is_u64; lia). cbn.
  repeat split; try done; lia.
Qed.

Lemma willRead_view s x b fs : view s ((x ++ b) :: fs) ->
  willRead (len x) s = Ok (inr tt, mk_Stream (r s) (len (b ++ concat fs)) true None (size s) (byteval s) (kinderr s)
    (match stack s with [] => [] | lp :: st => mk_listpos (u64_add (pos lp) (len x)) (lsize lp) :: st end)).
Proof.
  intros [Hr Hrem Hlim Hfr Hlen]. rewrite Hr in Hrem, Hlen. cbn [concat] in Hrem, Hlen. rewrite <- app_assoc, len_app in Hrem, Hlen.
  pose proof (len_nonneg x). pose proof (len_nonneg b). pose proof (len_nonneg (b ++ concat fs)).
  assert ((remaining s <? len x) = false) as E1 by (apply Z.ltb_ge; lia).
  assert (u64_sub (remaining s) (len x) = len (b ++ concat fs)) as E2 by (rewrite u64_sub_small; unfold is_u64; lia).
  unfold willRead, D_bind, fail, ok. destruct s as [r rem lim k sz bv ke st]. cbn [RlpStream.limited RlpStream.remaining] in *. subst lim.
  destruct st as [|lp st].
  - do 5 mstep. rewrite E1. mstep. by rewrite E2.
  - cbn [RlpStream.stack frames_ok] in Hfr. destruct Hfr as (F1 & _ & F2 & F3 & F4). rewrite len_app in F3.
    assert ((u64_sub (lsize lp) (pos lp) <? len x) = false) as E3.
    { apply Z.ltb_ge. rewrite u64_sub_small; unfold is_u64; lia. }
    do 2 mstep. rewrite E3. do 3 mstep. rewrite E1. mstep. by rewrite E2.
Qed.

(** What ails a read that wants more than there is. *)
Lemma willRead_short s b fs n : view s (b :: fs) -> len b < n ->
  exists e s', willRead n s = Ok (inl e, s') /\ e = (match stack s with [] => ErrValueTooLarge | _ => ErrElemTooLarge end) /\
    s' = mk_Stream (r s) (remaining s) (limited s) None (size s) (byteval s) (kinderr s) (stack s).
Proof.
  intros [Hr Hrem Hlim Hfr Hlen] Hn. rewrite Hr in Hrem, Hlen. cbn [concat] in Hrem, Hlen. rewrite len_app in Hrem, Hlen.
  unfold willRead, D_bind, fail, ok. destruct s as [r rem lim k sz bv ke st]. cbn [RlpStream.limited RlpStream.remaining RlpStream.stack RlpStream.r RlpStream.size RlpStream.byteval RlpStream.kinderr] in *. subst lim.
  destruct st as [|lp st].
  - destruct fs as [|]; [|done]. change (len (concat [])) with 0 in Hrem.
    do 5 mstep. rewrite (proj2 (Z.ltb_lt _ _)) by lia. eauto.
  - cbn [frames_ok] in Hfr. destruct Hfr as (F1 & _ & F2 & F3 & F4). pose proof (len_nonneg b).
    do 2 mstep. rewrite (proj2 (Z.ltb_lt _ _)) by (rewrite u64_sub_small; unfold is_u64; lia). mstep. eauto.
Qed.

(** The fields a read leaves alone. *)
Definition same_cache (s s' : Stream) : Prop :=
  size s' = size s /\ byteval s' = byteval s /\ kinderr s' = kinderr s /\ length (stack s') = length (stack s).

Lemma view_after s x b fs st rem ke sz bv k : view s ((x ++ b) :: fs) ->
  rem = len (b ++ concat fs) ->
  st = (match stack s with [] => [] | lp :: st => mk_listpos (u64_add (pos lp) (len x)) (lsize lp) :: st end) ->
  view (mk_Stream (b ++ concat fs) rem true k sz bv ke st) (b :: fs).
Proof.
  intros [Hr Hrem Hlim Hfr Hlen] -> ->. split; cbn [RlpStream.r RlpStream.stack remaining]; try done.
  - by apply frames_ok_take.
  - rewrite Hr in Hlen. cbn [concat] in Hlen. rewrite <- app_assoc, len_app in Hlen. pose proof (len_nonneg x). lia.
Qed.

Lemma readFull_view s x b fs : view s ((x ++ b) :: fs) ->
  exists s', readFull (len x) s = Ok (inr x, s') /\ view s' (b :: fs) /\ armed s' /\ same_cache s s'.
Proof.
  intros Hv. unfold readFull, D_bind. pose proof (v_r _ _ Hv) as Hr. cbn [concat] in Hr. rewrite <- app_assoc in Hr.
  erewrite M_bind_Ok by by apply willRead_view. cbv iota beta.
  erewrite M_bind_Ok by done. cbv beta. erewrite M_bind_Ok by done. cbn [RlpStream.r].
  rewrite Hr, len_app, (proj2 (Z.ltb_ge _ _)) by (pose proof (len_nonneg (b ++ concat fs)); lia).
  assert (Z.to_nat (len x) = length x) as -> by (unfold len; lia). rewrite take_app_length, drop_app_length.
  eexists. split; [done|]. cbn. split; [by eapply view_after|]. repeat split; try done. cbn. by destruct (stack s).
Qed.

Lemma readFull_short s b fs n : view s (b :: fs) -> len b < n ->
  exists e s', readFull n s = Ok (inl e, s') /\ (e = ErrValueTooLarge \/ e = ErrElemTooLarge) /\ view s' (b :: fs) /\ armed s' /\
    same_cache s s'.
Proof.
  intros Hv Hn. destruct (willRead_short s b fs n Hv Hn) as (e & s' & E & He & Hs).
  exists e, s'. unfold readFull, D_bind. erewrite M_bind_Ok by done. split; [done|].
  split; [by destruct (stack s); [left|right]|]. subst s'. destruct Hv. split; [by split|]. by repeat split.
Qed.

Lemma readByte_view s x b fs : view s ((x :: b) :: fs) ->
  exists s', readByte s = Ok (inr (byte.unsigned x), s') /\ view s' (b :: fs) /\ armed s' /\ same_cache s s'.
Proof.
  intros Hv. unfold readByte, D_bind. pose proof (v_r _ _ Hv) as Hr. cbn [concat app] in Hr.
  pose proof (willRead_view s [x] b fs Hv) as E. change (len [x]) with 1 in E. erewrite M_bind_Ok by done. cbv iota beta.
  erewrite M_bind_Ok by done. cbn [RlpStream.r]. rewrite Hr. erewrite M_bind_Ok by done.
  eexists. split; [done|]. cbn. split; [by apply (view_after s [x])|]. repeat split; try done. cbn. by destruct (stack s).
Qed.

Lemma readByte_short s fs : view s ([] :: fs) ->
  exists e s', readByte s = Ok (inl e, s') /\ e = (match stack s with [] => ErrValueTooLarge | _ => ErrElemTooLarge end) /\
    view s' ([] :: fs) /\ armed s' /\ same_cache s s'.
Proof.
  intros Hv. destruct (willRead_short s [] fs 1 Hv) as (e & s' & E & He & Hs); [done|].
  exists e, s'. unfold readByte, D_bind. erewrite M_bind_Ok by done. split; [done|]. split; [done|].
  subst s'. destruct Hv. split; [by split|]. by repeat split.
Qed.

(** * Headers *)

(** The size of a long value, in [n] bytes, and what follows it. *)
Definition parseSized (n : Z) (b : list Byte.byte) : option (Z * list Byte.byte) :=
  if len b <? n then None
  else
    let v := take (Z.to_nat n) b in
    if match v with x :: _ => (1 <? n) && (byte.unsigned x =? 0) | [] => false end then None
    else if be_combine v <? 56 then None else Some (be_combine v, drop (Z.to_nat n) b).

Definition parseLong (k : Kind) (n : Z) (b : list Byte.byte) : option (Kind * Z * Z * list Byte.byte) :=
  '(sz, b) ← parseSized n b; Some (k, sz, 0, b).

(** Kind, size and single byte of the value at the front, and what follows its
    header. *)
Definition parseTag (b : list Byte.byte) : option (Kind * Z * Z * list Byte.byte) :=
  match b with
  | [] => None
  | x :: b =>
      let x := byte.unsigned x in
      if x <? 0x80 then Some (Byte, 0, x, b)
      else if x <? 0xB8 then Some (String, x - 0x80, 0, b)
      else if x <? 0xC0 then parseLong String (x - 0xB7) b
      else if x <? 0xF8 then Some (List, x - 0xC0, 0, b)
      else parseLong List (x - 0xF7) b
  end.

Definition parseHead (b : list Byte.byte) : option (Kind * Z * Z * list Byte.byte) :=
  '(k, sz, bv, b) ← parseTag b; if len b <? sz then None else Some (k, sz, bv, b).

Lemma parseSized_app n v b : len v = n ->
  parseSized n (v ++ b) =
    if match v with x :: _ => (1 <? n) && (byte.unsigned x =? 0) | [] => false end then None
    else if be_combine v <? 56 then None else Some (be_combine v, b).
Proof.
  intros <-. unfold parseSized. rewrite len_app, (proj2 (Z.ltb_ge _ _)) by (pose proof (len_nonneg b); lia).
  assert (Z.to_nat (len v) = length v) as -> by (unfold len; lia). by rewrite take_app_length, drop_app_length.
Qed.

Lemma be_combine_single x : be_combine [x] = byte.unsigned x.
Proof. rewrite be_combine_cons. change (be_combine []) with 0. cbn. lia. Qed.

(** Sizes are written in as few bytes as they need, and only those are read. *)
Lemma leading_byteLen x v : byte.unsigned x <> 0 -> byteLen (be_combine (x :: v)) = len (x :: v).
Proof.
  intros Hx. apply byteLen_unique; [rewrite len_cons; pose proof (len_nonneg v); lia|].
  pose proof (be_combine_bound (x :: v)) as Hb. split; [|apply Hb].
  rewrite be_combine_cons. pose proof (byte.unsigned_range x). pose proof (be_combine_bound v).
  rewrite len_cons. replace (1 + len v - 1) with (len v) by lia. fold (len v) in *.
  assert (0 < 2 ^ (8 * len v)) by (apply Z.pow_pos_nonneg; pose proof (len_nonneg v); lia). nia.
Qed.

Lemma parseSized_inv n b sz b' : parseSized n b = Some (sz, b') -> 1 <= n <= 8 ->
  b = be_split (Z.to_nat n) sz ++ b' /\ byteLen sz = n /\ 56 <= sz < 2 ^ 64.
Proof.
  intros H Hn. destruct (Z.lt_ge_cases (len b) n) as [Hs|Hl].
  { unfold parseSized in H. by rewrite (proj2 (Z.ltb_lt _ _)) in H by lia. }
  destruct (take_len b n) as (v & b1 & -> & Hv); [lia|]. rewrite parseSized_app in H by done.
  destruct v as [|x v]; [change (len []) with 0 in Hv; lia|].
  destruct ((1 <? n) && (byte.unsigned x =? 0)) eqn:Ez; [done|]. destruct (Z.ltb_spec (be_combine (x :: v)) 56); [done|].
  injection H as <- <-. assert (Z.to_nat n = length (x :: v)) as -> by (unfold len in Hv; lia). rewrite be_split_combine.
  split; [done|]. pose proof (be_combine_bound (x :: v)) as Hb. fold (len (x :: v)) in Hb. rewrite Hv in Hb.
  pose proof (Z.pow_le_mono_r 2 (8 * n) 64). split; [|lia].
  rewrite <- Hv. apply leading_byteLen. intros E0. rewrite E0 in Ez. cbn in Ez. rewrite andb_true_r in Ez. apply Z.ltb_ge in Ez.
  assert (v = []) as -> by (destruct v; [done|]; rewrite !len_cons in Hv; pose proof (len_nonneg v); lia).
  rewrite be_combine_single in *. lia.
Qed.

Lemma parseSized_run sz b : 56 <= sz < 2 ^ 64 ->
  parseSized (byteLen sz) (be_split (Z.to_nat (byteLen sz)) sz ++ b) = Some (sz, b).
Proof.
  intros Hs. pose proof (byteLen_nonneg sz). rewrite parseSized_app by (rewrite len_be_split; lia).
  rewrite be_combine_byteLen, (proj2 (Z.ltb_ge sz 56)) by lia.
  destruct (be_split _ sz) as [|x v] eqn:E; [done|]. destruct (Z.eqb_spec (byte.unsigned x) 0) as [Hx|]; [|by rewrite andb_false_r].
  destruct (Z.ltb_spec 1 (byteLen sz)) as [Hl|]; [exfalso|done].
  assert (be_combine (x :: v) = sz) as Hc by (rewrite <- E; apply be_combine_byteLen; lia).
  rewrite be_combine_cons, Hx in Hc. pose proof (be_combine_bound v) as Hb.
  assert (len v = byteLen sz - 1) as Hv.
  { assert (len (x :: v) = byteLen sz) as El by (rewrite <- E, len_be_split; lia). rewrite len_cons in El. lia. }
  fold (len v) in Hb. rewrite Hv in Hb. pose proof (byteLen_le sz (byteLen sz - 1)). lia.
Qed.

(** Tags of long values. *)
Lemma rlpHead_tag tag n b : 56 <= n < 2 ^ 64 -> tag = 0x80 \/ tag = 0xC0 ->
  exists x, rlpHead tag n ++ b = x :: be_split (Z.to_nat (byteLen n)) n ++ b /\ byte.unsigned x = tag + 55 + byteLen n /\ 1 <= byteLen n <= 8.
Proof.
  intros Hn Ht. pose proof (byteLen_le n 8 ltac:(lia) ltac:(lia)). pose proof (byteLen_pos n ltac:(lia)).
  unfold rlpHead. rewrite (proj2 (Z.ltb_ge _ _)) by lia. eexists. split; [done|]. split; [|lia]. apply byte_small. lia.
Qed.

Lemma parseTag_head tag n b : 0 <= n < 2 ^ 64 -> tag = 0x80 \/ tag = 0xC0 ->
  parseTag (rlpHead tag n ++ b) = Some (if tag =? 0x80 then String else List, n, 0, b).
Proof.
  intros Hn Ht. destruct (Z.lt_ge_cases n 56) as [Hs|Hl].
  - unfold rlpHead. rewrite (proj2 (Z.ltb_lt _ _)) by lia. cbn [app parseTag].
    rewrite byte_small by lia. destruct Ht as [-> | ->]; cbn [Z.eqb]; 
    repeat (rewrite (proj2 (Z.ltb_ge _ _)) by lia); rewrite (proj2 (Z.ltb_lt _ _)) by lia; do 4 f_equal; lia.
  - destruct (rlpHead_tag tag n b) as (x & -> & Hx & Hb); [lia|done|]. cbn [parseTag]. rewrite Hx.
    destruct Ht as [-> | ->]; cbn [Z.eqb].
    + rewrite !(proj2 (Z.ltb_ge _ _)) by lia. rewrite (proj2 (Z.ltb_lt _ _)) by lia.
      replace (128 + 55 + byteLen n - 183) with (byteLen n) by lia. unfold parseLong. by rewrite parseSized_run by lia.
    + rewrite !(proj2 (Z.ltb_ge _ _)) by lia.
      replace (192 + 55 + byteLen n - 247) with (byteLen n) by lia. unfold parseLong. by rewrite parseSized_run by lia.
Qed.

(** What a tag that is accepted looks like. *)
Definition tagOf (k : Kind) (sz bv : Z) : list Byte.byte :=
  match k with Byte => [byte.of_Z bv] | String => rlpHead 0x80 sz | List => rlpHead 0xC0 sz end.

Lemma parseTag_inv b k sz bv b' : parseTag b = Some (k, sz, bv, b') ->
  b = tagOf k sz bv ++ b' /\ 0 <= sz < 2 ^ 64 /\ 0 <= bv < 128 /\ (k = Byte -> sz = 0).
Proof.
  destruct b as [|x b]; [done|]. cbn [parseTag]. pose proof (byte.unsigned_range x). change (2 ^ 8) with 256 in *.
  assert (x = byte.of_Z (byte.unsigned x)) as Ex by by rewrite byte.of_Z_unsigned.
  assert (forall k tag n, tag = 0x80 \/ tag = 0xC0 -> byte.unsigned x = tag + 55 + n -> 1 <= n <= 8 ->
    parseLong k n b = Some (k, sz, bv, b') ->
    x :: b = rlpHead tag sz ++ b' /\ 0 <= sz < 2 ^ 64 /\ 0 <= bv < 128) as Hsized.
  { intros k0 tag n Ht Hx Hn E. unfold parseLong in E. destruct (parseSized n b) as [[sz0 b0]|] eqn:P; [|done]. cbn in E. injection E as -> <- ->.
    destruct (parseSized_inv _ _ _ _ P Hn) as (-> & Hb & Hs). unfold rlpHead. rewrite (proj2 (Z.ltb_ge _ _)), Hb by lia.
    split_and!; try lia. rewrite Ex, Hx. done. }
  destruct (Z.ltb_spec (byte.unsigned x) 128).
  { intros [= <- <- <- <-]. cbn. rewrite <- Ex. split_and!; try done; lia. }
  destruct (Z.ltb_spec (byte.unsigned x) 184).
  { intros [= <- <- <- <-]. cbn. unfold rlpHead. rewrite (proj2 (Z.ltb_lt _ _)) by lia.
    replace (128 + (byte.unsigned x - 128)) with (byte.unsigned x) by lia. rewrite <- Ex. split_and!; try done; lia. }
  destruct (Z.ltb_spec (byte.unsigned x) 192); [|destruct (Z.ltb_spec (byte.unsigned x) 248)].
  - intros E. assert (k = String) as -> by (unfold parseLong in E; destruct (parseSized _ b) as [[]|]; cbn in E; congruence).
    destruct (Hsized String 128 (byte.unsigned x - 183)) as (? & [] & []); try lia; [done|]. by split_and!.
  - intros [= <- <- <- <-]. cbn. unfold rlpHead. rewrite (proj2 (Z.ltb_lt _ _)) by lia.
    replace (192 + (byte.unsigned x - 192)) with (byte.unsigned x) by lia. rewrite <- Ex. split_and!; try done; lia.
  - intros E. assert (k = List) as -> by (unfold parseLong in E; destruct (parseSized _ b) as [[]|]; cbn in E; congruence).
    destruct (Hsized List 192 (byte.unsigned x - 247)) as (? & [] & []); try lia; [done|]. by split_and!.
Qed.

Lemma parseTag_nonneg b k sz bv b' : parseTag b = Some (k, sz, bv, b') -> 0 <= sz.
Proof. intros H. apply parseTag_inv in H. lia. Qed.

(** What a failed look ahead leaves. *)
Definition failed (s : Stream) (e : RlpError) : Prop := kind s <> None /\ kinderr s = Some e.

Lemma readUint_view s b fs n : view s (b :: fs) -> 1 <= n <= 8 ->
  exists res s' b', readUint n s = Ok (res, s') /\ view s' (b' :: fs) /\ armed s' /\ same_cache s s' /\ len b' <= len b /\
    match res with
    | inr v => exists x, b = x ++ b' /\ len x = n /\ v = be_combine x /\
        match x with y :: _ => (1 <? n) && (byte.unsigned y =? 0) = false | [] => False end
    | inl e => errors_Is e EOL = false /\ (len b < n \/ exists x b'', b = x ++ b'' /\ len x = n /\ e = ErrCanonSize /\
        match x with y :: _ => (1 <? n) && (byte.unsigned y =? 0) = true | [] => False end)
    end.
Proof.
  intros Hv Hn. unfold readUint. rewrite (proj2 (Z.eqb_neq n 0)) by lia.
  destruct (Z.eqb_spec n 1) as [->|Hn1].
  - destruct b as [|x b].
    + destruct (readByte_short s fs Hv) as (e & s' & E & He & V & A & C). exists (inl e), s', []. split_and!; try done.
      * subst e. by destruct (stack s).
      * by left.
    + destruct (readByte_view s x b fs Hv) as (s' & E & V & A & C). exists (inr (byte.unsigned x)), s', b.
      rewrite len_cons. split_and!; try done; [lia|]. exists [x]. by rewrite be_combine_single.
  - destruct (Z.lt_ge_cases (len b) n) as [Hs|Hl].
    + destruct (readFull_short s b fs n Hv Hs) as (e & s' & E & He & V & A & C). unfold D_bind.
      exists (inl e), s', b. erewrite M_bind_Ok by done. split_and!; try done; [by destruct He as [->| ->]|by left].
    + destruct (take_len b n) as (x & b' & -> & Hx); [lia|]. destruct (readFull_view s x b' fs Hv) as (s' & E & V & A & C).
      rewrite Hx in E. unfold D_bind. destruct x as [|y x]; [change (len []) with 0 in Hx; lia|].
      assert ((1 <? n) = true) as H1 by (apply Z.ltb_lt; lia).
      exists (if byte.unsigned y =? 0 then inl ErrCanonSize else inr (be_combine (y :: x))), s', b'.
      erewrite M_bind_Ok by done. cbv iota beta. erewrite M_bind_Ok by reflexivity.
      rewrite len_app. pose proof (len_nonneg (y :: x)).
      split_and!; try done; [by destruct (_ =? 0)|lia|].
      destruct (byte.unsigned y =? 0) eqn:Ey.
      * split; [done|]. right. exists (y :: x), b'. by rewrite H1.
      * exists (y :: x). by rewrite H1.
Qed.

Lemma readSizedTag_view s b fs k n : view s (b :: fs) -> 1 <= n <= 8 ->
  exists sz err s' b', readSizedTag k n s = Ok ((k, sz, err), s') /\ view s' (b' :: fs) /\ same_cache s s' /\ len b' <= len b /\
    parseSized n b = match err with None => Some (sz, b') | Some _ => None end /\
    match err with Some e => errors_Is e EOL = false | None => True end.
Proof.
  intros Hv Hn. destruct (readUint_view s b fs n Hv Hn) as (res & s' & b' & E & V & A & C & L & R).
  unfold readSizedTag. destruct res as [e|v].
  - exists 0, (Some e), s', b'. erewrite M_bind_Ok by done. split_and!; try done; [|by destruct R].
    destruct R as (_ & [Hs|(x & b'' & -> & Hx & -> & Hz)]).
    + unfold parseSized. by rewrite (proj2 (Z.ltb_lt _ _)) by lia.
    + rewrite parseSized_app by done. destruct x; [done|]. by rewrite Hz.
  - destruct R as (x & -> & Hx & -> & Hz). exists (be_combine x), (if be_combine x <? 56 then Some ErrCanonSize else None), s', b'.
    erewrite M_bind_Ok by done. split_and!; try done; [|by destruct (_ <? 56)].
    rewrite parseSized_app by done. destruct x; [done|]. rewrite Hz. by destruct (_ <? 56).
Qed.

Lemma streamView_ext s s' fs :
  r s' = r s -> remaining s' = remaining s -> limited s' = limited s -> stack s' = stack s -> view s fs -> view s' fs.
Proof. intros E1 E2 E3 E4 []. split; by rewrite ?E1, ?E2, ?E3, ?E4. Qed.

Lemma view_stack s b fs : view s (b :: fs) -> (stack s = [] <-> fs = []).
Proof.
  intros [_ _ _ F _]. destruct (stack s) as [|lp st], fs; cbn [frames_ok] in F; try done.
  exfalso. destruct F as (_ & _ & _ & _ & F). by destruct st.
Qed.

(** The test for the end of the innermost list. *)
Lemma view_EOL s b fs : view s (b :: fs) ->
  match stack s with tos :: _ => pos tos =? lsize tos | [] => false end = match b, fs with [], _ :: _ => true | _, _ => false end.
Proof.
  intros [_ _ _ F _]. destruct (stack s) as [|lp st], fs as [|c fs]; cbn [frames_ok] in F; try done; [by destruct b| |].
  - exfalso. destruct F as (_ & _ & _ & _ & F). by destruct st.
  - destruct F as (? & _ & _ & F & _). destruct b; [apply Z.eqb_eq|apply Z.eqb_neq]; rewrite ?len_cons in F.
    + change (len []) with 0 in F. lia.
    + pose proof (len_nonneg b0). lia.
Qed.

Definition tooLarge (fs : list (list Byte.byte)) : RlpError :=
  match fs with [] => ErrValueTooLarge | _ => ErrElemTooLarge end.

(** The test that a value fits where it is. *)
Lemma view_fits s b fs sz : view s (b :: fs) ->
  match stack s with
  | [] => if limited s && (remaining s <? sz) then Some ErrValueTooLarge else None
  | tos :: _ => if u64_sub (lsize tos) (pos tos) <? sz then Some ErrElemTooLarge else None
  end = if len b <? sz then Some (tooLarge fs) else None.
Proof.
  intros Hv. pose proof (view_stack _ _ _ Hv) as Hs. destruct Hv as [Hr Hrem Hlim F Hlen].
  destruct (stack s) as [|lp st] eqn:Es.
  - destruct fs as [|]; [|done]. rewrite Hlim, Hrem, Hr. cbn. by rewrite app_nil_r.
  - destruct fs as [|c fs]; [by destruct Hs as [_ Hs]; discriminate Hs|]. cbn [frames_ok] in F. destruct F as (? & _ & ? & F & _).
    pose proof (len_nonneg b). by replace (u64_sub (lsize lp) (pos lp)) with (len b) by (rewrite u64_sub_small; unfold is_u64; lia).
Qed.

Lemma readKind_view s x b fs : view s ((x :: b) :: fs) ->
  exists k sz err s' b', readKind s = Ok ((k, sz, err), s') /\ view s' (b' :: fs) /\ len b' <= len b /\
    match err with Some e => errors_Is e EOL = false | None => True end /\
    parseTag (x :: b) = match err with None => Some (k, sz, byteval s', b') | Some _ => None end.
Proof.
  intros Hv. destruct (readByte_view s x b fs Hv) as (s1 & E1 & V1 & A1 & C1). unfold readKind.
  erewrite M_bind_Ok by done. cbv iota beta. mstep. cbn [parseTag].
  set (s2 := mk_Stream _ _ _ _ _ 0 _ _).
  assert (view s2 (b :: fs)) as V2 by by apply (streamView_ext s1).
  assert (forall k n, 1 <= n <= 8 -> exists sz err s' b', readSizedTag k n s2 = Ok ((k, sz, err), s') /\ view s' (b' :: fs) /\
    len b' <= len b /\
    match err with Some e => errors_Is e EOL = false | None => True end /\
    parseLong k n b = match err with None => Some (k, sz, byteval s', b') | Some _ => None end) as Hsz.
  { intros k n Hn. destruct (readSizedTag_view s2 b fs k n V2 Hn) as (sz & err & s' & b' & E & V & (_ & C & _) & L & P & N).
    exists sz, err, s', b'. split_and!; try done. unfold parseLong. rewrite P, C. by destruct err. }
  destruct (Z.ltb_spec (byte.unsigned x) 128).
  { mstep. do 5 eexists. split; [done|]. split_and!; try done; by apply (streamView_ext s2). }
  destruct (Z.ltb_spec (byte.unsigned x) 184); [do 5 eexists; split; [done|]; by split_and!|].
  pose proof (byte.unsigned_range x). change (2 ^ 8) with 256 in *.
  destruct (Z.ltb_spec (byte.unsigned x) 192); [|destruct (Z.ltb_spec (byte.unsigned x) 248)].
  - eexists String. apply (Hsz String). lia.
  - do 5 eexists; split; [done|]; by split_and!.
  - eexists List. apply (Hsz List). lia.
Qed.

(** Kind at a fresh value: the end of a list, the end of the input, a value
    ahead, or an error that sticks. *)
Lemma Kind_view s b fs : view s (b :: fs) -> armed s ->
  exists res s', Kind_ s = Ok (res, s') /\
    match b, fs with
    | [], _ :: _ => res = inl EOL /\ view s' (b :: fs) /\ armed s'
    | [], [] => res = inl io_EOF /\ view s' (b :: fs) /\ failed s' io_EOF
    | _, _ =>
        match parseHead b with
        | Some (k, sz, bv, b') => res = inr (k, sz) /\ view s' (b' :: fs) /\ peeked s' k sz b' /\ byteval s' = bv
        | None => exists e b', res = inl e /\ errors_Is e EOL = false /\ view s' (b' :: fs) /\ len b' < len b /\ failed s' e
        end
    end.
Proof.
  intros Hv Ha. unfold Kind_. mstep. unfold id. rewrite Ha. mstep. set (s1 := mk_Stream _ _ _ _ _ _ None _).
  assert (view s1 (b :: fs)) as V1 by by apply (streamView_ext s).
  rewrite (view_EOL _ _ _ Hv). destruct b as [|x b].
  - destruct fs as [|c fs].
    + destruct (readByte_short s1 [] V1) as (e & s2 & E2 & He & V2 & A2 & C2).
      assert (stack s1 = []) as Hs by by apply (view_stack _ _ _ V1). rewrite Hs in He.
      pose proof (proj2 (view_stack _ _ _ V2) eq_refl) as Hs2.
      erewrite M_bind_Ok; [|unfold readKind; erewrite M_bind_Ok by done; cbv iota beta; mstep; rewrite Hs2, He; done].
      cbv iota beta. mstep. mstep. do 2 eexists. split; [done|]. split_and!; try done. by apply (streamView_ext s2).
    + do 2 eexists. split; [done|]. by split_and!.
  - destruct (readKind_view s1 x b fs V1) as (k & sz & err & s2 & b' & E & V & L & N & P).
    erewrite M_bind_Ok by done. cbv iota beta. mstep. unfold id. mstep. rewrite (view_fits _ _ _ sz V).
    unfold parseHead. rewrite P, len_cons. do 2 eexists. split; [done|].
    destruct err as [e|]; cbn [mbind option_bind].
    + exists e, b'. split_and!; try done; [by apply (streamView_ext s2)|lia].
    + destruct (Z.ltb_spec (len b') sz).
      * exists (tooLarge fs), b'. split_and!; try done; [by destruct fs|by apply (streamView_ext s2)|lia].
      * split_and!; try done; [by apply (streamView_ext s2)|]. split; try done. split; [|done]. by eapply parseTag_nonneg.
Qed.

(** * What methods do with well-formed input *)

(** At a fresh value, with the bytes [fs] left. *)
Definition at_ (fs : list (list Byte.byte)) (s : Stream) : Prop := view s fs /\ armed s.

(** With a value of kind [k] and size [sz] ahead, whose header is read. *)
Definition ahead (k : Kind) (sz bv : Z) (b : list Byte.byte) (fs : list (list Byte.byte)) (s : Stream) : Prop :=
  view s (b :: fs) /\ peeked s k sz b /\ byteval s = bv.

(** From a state in [P], [m] ends in a state of [Q] with the result [res]. *)
Definition runs {A} (P : Stream -> Prop) (m : D A) (res : RlpError + A) (Q : Stream -> Prop) : Prop :=
  forall s, P s -> exists s', m s = Ok (res, s') /\ Q s'.

Section runs.
Context {A B : Type}.
Implicit Types (P Q R : Stream -> Prop) (m : D A) (k : A -> D B).

Lemma runs_bind P Q R m k a res : runs P m (inr a) Q -> runs Q (k a) res R -> runs P (let! x := m in k x) res R.
Proof.
  intros Hm Hk s Hs. destruct (Hm s Hs) as (s1 & E1 & H1). destruct (Hk s1 H1) as (s2 & E2 & H2).
  exists s2. unfold D_bind. by rewrite (M_bind_Ok _ _ _ _ _ E1).
Qed.

Lemma runs_bind_err P Q m k e : runs P m (inl e) Q -> runs P (let! x := m in k x) (inl e) Q.
Proof.
  intros Hm s Hs. destruct (Hm s Hs) as (s1 & E1 & H1). exists s1. unfold D_bind. by rewrite (M_bind_Ok _ _ _ _ _ E1).
Qed.

(** For code that looks at the error itself. *)
Lemma runs_mbind P Q R m (k : RlpError + A -> D B) x res :
  runs P m x Q -> runs Q (k x) res R -> runs P (x ← m; k x) res R.
Proof.
  intros Hm Hk s Hs. destruct (Hm s Hs) as (s1 & E1 & H1). destruct (Hk s1 H1) as (s2 & E2 & H2).
  exists s2. by rewrite (M_bind_Ok _ _ _ _ _ E1).
Qed.

Lemma runs_ok P (a : A) : runs P (ok a) (inr a) P.
Proof. intros s Hs. by exists s. Qed.

Lemma runs_wrapf P m a Q : runs P m (inr a) Q -> runs P (wrapf m) (inr a) Q.
Proof. intros Hm s Hs. destruct (Hm s Hs) as (s' & E & H'). exists s'. unfold wrapf. by rewrite (M_bind_Ok _ _ _ _ _ E). Qed.

Lemma runs_weaken P P' m res Q Q' :
  runs P m res Q -> (forall s, P' s -> P s) -> (forall s, Q s -> Q' s) -> runs P' m res Q'.
Proof. intros Hm HP HQ s Hs. destruct (Hm s (HP s Hs)) as (s' & E & H'). eauto. Qed.
End runs.

Lemma Kind_ahead s k sz bv b fs : ahead k sz bv b fs s -> Kind_ s = Ok (inr (k, sz), s).
Proof. intros (_ & [H1 H2 H3 _] & _). unfold Kind_. mstep. unfold id. by rewrite H1, H2, H3. Qed.

Lemma runs_Kind_again k sz bv b fs : runs (ahead k sz bv b fs) Kind_ (inr (k, sz)) (ahead k sz bv b fs).
Proof. intros s Hs. exists s. by rewrite (Kind_ahead _ _ _ _ _ _ Hs). Qed.

(** A method that starts with Kind may as well start after it. *)
Lemma runs_via_Kind {A} (m : D A) k P kd sz bv b fs res R :
  m = D_bind Kind_ k -> runs P Kind_ (inr (kd, sz)) (ahead kd sz bv b fs) ->
  runs (ahead kd sz bv b fs) m res R -> runs P m res R.
Proof.
  intros -> HK Hm s Hs. destruct (HK s Hs) as (s1 & E1 & H1). destruct (Hm s1 H1) as (s2 & E2 & H2). exists s2.
  split; [|done]. unfold D_bind in *. rewrite (M_bind_Ok _ _ _ _ _ E1).
  by rewrite (M_bind_Ok _ _ _ _ _ (Kind_ahead _ _ _ _ _ _ H1)) in E2.
Qed.

Lemma parseHead_head tag n b : 0 <= n <= len b -> n < 2 ^ 64 -> tag = 0x80 \/ tag = 0xC0 ->
  parseHead (rlpHead tag n ++ b) = Some (if tag =? 0x80 then String else List, n, 0, b).
Proof. intros Hn Hl Ht. unfold parseHead. rewrite parseTag_head by (done || lia). cbn. by rewrite (proj2 (Z.ltb_ge _ _)) by lia. Qed.

Lemma runs_Kind_parse b fs k sz bv b' : parseHead b = Some (k, sz, bv, b') ->
  runs (at_ (b :: fs)) Kind_ (inr (k, sz)) (ahead k sz bv b' fs).
Proof.
  intros Hp s [Hv Ha]. destruct (Kind_view s b fs Hv Ha) as (res & s' & E & H). rewrite E. exists s'.
  destruct b as [|x b]; [done|]. rewrite Hp in H. destruct H as (-> & H2 & H3 & H4). done.
Qed.

Lemma view_bound s b fs : view s (b :: fs) -> len b < 2 ^ 47.
Proof. intros [Hr _ _ _ Hl]. rewrite Hr in Hl. cbn [concat] in Hl. rewrite len_app in Hl. pose proof (len_nonneg (concat fs)). lia. Qed.

Lemma runs_Kind_String n b fs : 0 <= n <= len b ->
  runs (at_ ((rlpHead 0x80 n ++ b) :: fs)) Kind_ (inr (String, n)) (ahead String n 0 b fs).
Proof.
  intros Hn s Hs. pose proof (view_bound _ _ _ (proj1 Hs)) as Hb. rewrite len_app in Hb. pose proof (len_nonneg (rlpHead 0x80 n)).
  revert s Hs. apply runs_Kind_parse, (parseHead_head 128); [done|lia|by left].
Qed.

Lemma runs_Kind_List n b fs : 0 <= n <= len b ->
  runs (at_ ((rlpHead 0xC0 n ++ b) :: fs)) Kind_ (inr (List, n)) (ahead List n 0 b fs).
Proof.
  intros Hn s Hs. pose proof (view_bound _ _ _ (proj1 Hs)) as Hb. rewrite len_app in Hb. pose proof (len_nonneg (rlpHead 0xC0 n)).
  revert s Hs. apply runs_Kind_parse, (parseHead_head 192); [done|lia|by right].
Qed.

Lemma runs_Kind_Byte x b fs : byte.unsigned x < 128 ->
  runs (at_ ((x :: b) :: fs)) Kind_ (inr (Byte, 0)) (ahead Byte 0 (byte.unsigned x) b fs).
Proof.
  intros Hx. apply runs_Kind_parse. unfold parseHead. cbn [parseTag]. rewrite (proj2 (Z.ltb_lt _ _)) by done. cbn.
  by rewrite (proj2 (Z.ltb_ge _ _)) by auto with ints.
Qed.

(** The end of a list, for every method. *)
Lemma runs_EOL {A} (m : D A) k b fs : m = D_bind Kind_ k -> runs (at_ ([] :: b :: fs)) m (inl EOL) (at_ ([] :: b :: fs)).
Proof.
  intros ->. apply runs_bind_err. intros s [Hv Ha]. destruct (Kind_view s _ _ Hv Ha) as (res & s' & E & -> & H). by exists s'.
Qed.

Lemma runs_readFull k sz bv x b fs : runs (ahead k sz bv (x ++ b) fs) (readFull (len x)) (inr x) (at_ (b :: fs)).
Proof. intros s (Hv & _). destruct (readFull_view s x b fs Hv) as (s' & E & V & A & _). by exists s'. Qed.

Lemma make_fits n s b fs : view s (b :: fs) -> n <= len b + 9 -> make n s = Ok (tt, s).
Proof. intros Hv Hn. pose proof (view_bound _ _ _ Hv). unfold make, maxAlloc. by rewrite (proj2 (Z.leb_le _ _)) by lia. Qed.

(** Leaving a value whose bytes are all in its header. *)
Lemma at_rearm s k sz bv b fs : ahead k sz bv b fs s ->
  at_ (b :: fs) (mk_Stream (r s) (remaining s) (limited s) None (size s) (byteval s) (kinderr s) (stack s)).
Proof. intros (Hv & _). split; [by apply (streamView_ext s)|done]. Qed.

Lemma runs_Bytes_ahead_Byte bv b fs : runs (ahead Byte 0 bv b fs) Bytes (inr [byte.of_Z bv]) (at_ (b :: fs)).
Proof.
  intros s Hs. unfold Bytes, D_bind. rewrite (M_bind_Ok _ _ _ _ _ (Kind_ahead _ _ _ _ _ _ Hs)). do 2 mstep.
  eexists. split; [|by eapply at_rearm]. destruct Hs as (_ & _ & <-). done.
Qed.

Lemma runs_Bytes_ahead x bv b fs : single x = false -> runs (ahead String (len x) bv (x ++ b) fs) Bytes (inr x) (at_ (b :: fs)).
Proof.
  intros Hx s Hs. unfold Bytes, D_bind. rewrite (M_bind_Ok _ _ _ _ _ (Kind_ahead _ _ _ _ _ _ Hs)). cbv iota beta.
  erewrite M_bind_Ok by (eapply make_fits; [apply Hs|rewrite len_app; pose proof (len_nonneg b); lia]).
  destruct (runs_readFull _ _ _ _ _ _ s Hs) as (s' & E & H'). exists s'. split; [|done]. erewrite M_bind_Ok by done. cbv iota beta.
  destruct x as [|y [|z x]]; cbn in Hx |- *; [done| |].
  - change (len [y] =? 1) with true. cbn. by rewrite Hx.
  - rewrite (proj2 (Z.eqb_neq _ _)); [done|]. rewrite !len_cons. pose proof (len_nonneg x). lia.
Qed.

Lemma runs_Bytes x b fs : runs (at_ ((rlpStr x ++ b) :: fs)) Bytes (inr x) (at_ (b :: fs)).
Proof.
  unfold rlpStr. destruct (single x) eqn:Hx.
  - destruct x as [|y []]; try done. cbn in Hx. apply Z.ltb_lt in Hx. rewrite <- (byte.of_Z_unsigned y) at 2.
    eapply (runs_via_Kind Bytes); [done|by apply (runs_Kind_Byte y)|apply runs_Bytes_ahead_Byte].
  - rewrite <- app_assoc. eapply (runs_via_Kind Bytes); [done|apply runs_Kind_String; rewrite len_app; pose proof (len_nonneg b); pose proof (len_nonneg x); lia|].
    by apply runs_Bytes_ahead.
Qed.

(** Numbers have no leading zeros. *)
Lemma be_split_leading v y x : 0 <= v -> be_split (Z.to_nat (byteLen v)) v = y :: x -> byte.unsigned y <> 0.
Proof.
  intros Hv E Hy. pose proof (byteLen_nonneg v). pose proof (be_combine_byteLen v Hv) as Hc. rewrite E, be_combine_cons, Hy in Hc.
  assert (len (y :: x) = byteLen v) as El by (rewrite <- E, len_be_split; lia). rewrite len_cons in El.
  pose proof (be_combine_bound x) as Hb. fold (len x) in Hb. pose proof (len_nonneg x).
  pose proof (byteLen_le v (len x)). lia.
Qed.

Lemma rlpNumber_str v : 0 <= v < 2 ^ 256 -> rlpNumber v = rlpStr (be_split (Z.to_nat (byteLen v)) v).
Proof.
  intros Hv. unfold rlpNumber, rlpStr, IntLenExcludingHead.
  destruct (Z.ltb_spec v 128); cbn [andb].
  - destruct (Z.eqb_spec v 0) as [->|]; [done|]. cbn [negb]. rewrite byteLen_byte by lia.
    change (be_split (Z.to_nat 1) v) with [byte.of_Z v]. cbn [single]. rewrite byte_small, (proj2 (Z.ltb_lt _ _)) by lia. done.
  - pose proof (byteLen_le v 32 ltac:(lia) ltac:(lia)). pose proof (byteLen_nonneg v).
    rewrite len_be_split, Z2Nat.id by done.
    assert (single (be_split (Z.to_nat (byteLen v)) v) = false) as ->.
    { destruct (be_split _ v) as [|y [|]] eqn:E; try done. cbn. apply Z.ltb_ge. rewrite <- be_combine_single, <- E, be_combine_byteLen; lia. }
    unfold rlpHead. rewrite (proj2 (Z.ltb_lt _ _)) by lia. done.
Qed.

(** A number of at least 128 ahead, as [uint] reads it. *)
Lemma runs_readUint v bv b fs k sz : 0 < v < 2 ^ 64 ->
  runs (ahead k sz bv (be_split (Z.to_nat (byteLen v)) v ++ b) fs) (readUint (byteLen v)) (inr v) (at_ (b :: fs)).
Proof.
  intros Hv s (V & _). pose proof (byteLen_le v 8 ltac:(lia) ltac:(lia)). pose proof (byteLen_pos v ltac:(lia)).
  set (x := be_split _ v) in *. assert (len x = byteLen v) as Hx by (unfold x; rewrite len_be_split; lia).
  destruct (readUint_view s _ fs (byteLen v) V) as (res & s' & b' & E & V' & A' & _ & _ & R); [lia|].
  assert (exists y x', x = y :: x' /\ byte.unsigned y <> 0) as (y & x' & Ex & Hy).
  { destruct x as [|y x'] eqn:Ex; [change (len []) with 0 in Hx; lia|]. exists y, x'. split; [done|]. by eapply (be_split_leading v); [lia|]. }
  destruct res as [e|n].
  - exfalso. destruct R as (_ & [R|(z & b2 & Ez & Lz & _ & Hz)]).
    + rewrite len_app in R. pose proof (len_nonneg b). lia.
    + apply app_inj_1 in Ez as [<- _]; [|unfold len in *; lia]. rewrite Ex in Hz. destruct (Z.eqb_spec (byte.unsigned y) 0); [done|].
      by rewrite andb_false_r in Hz.
  - destruct R as (z & Ez & Lz & -> & _). apply app_inj_1 in Ez as [<- <-]; [|unfold len in *; lia].
    exists s'. rewrite E. unfold x. rewrite be_combine_byteLen by lia. done.
Qed.

(** A number, before and after Kind has looked at it. *)
Lemma runs_uint_peek maxbits v b fs : 0 <= v < 2 ^ 64 -> byteLen v <= maxbits / 8 ->
  exists kd sz bv b', sz <= 8 /\ runs (at_ ((rlpNumber v ++ b) :: fs)) Kind_ (inr (kd, sz)) (ahead kd sz bv b' fs) /\
    runs (ahead kd sz bv b' fs) (uint maxbits) (inr v) (at_ (b :: fs)).
Proof.
  intros Hv Hm. pose proof (byteLen_nonneg v). pose proof (byteLen_le v 8 Hv ltac:(lia)).
  unfold rlpNumber, IntLenExcludingHead. destruct (Z.ltb_spec v 128) as [Hs|Hl]; cbn [andb].
  - destruct (Z.eqb_spec v 0) as [->|Hnz]; cbn [negb app].
    + exists String, 0, 0, b. split; [lia|]. split; [apply (runs_Kind_String 0); pose proof (len_nonneg b); lia|].
      intros s Hs0. unfold uint, D_bind. rewrite (M_bind_Ok _ _ _ _ _ (Kind_ahead _ _ _ _ _ _ Hs0)). cbv iota beta.
      rewrite (proj2 (Z.ltb_ge _ _)) by (change (byteLen 0) with 0 in Hm; lia). unfold readUint. change (0 =? 0) with true. cbv iota.
      mstep. eexists. split; [done|]. by eapply at_rearm.
    + pose proof (byte_small v ltac:(lia)) as Hb. exists Byte, 0, v, b. split; [lia|].
      split; [rewrite <- Hb at 2; apply (runs_Kind_Byte (byte.of_Z v)); lia|].
      intros s Hs0. unfold uint, D_bind. rewrite (M_bind_Ok _ _ _ _ _ (Kind_ahead _ _ _ _ _ _ Hs0)). cbv iota beta.
      mstep. assert (byteval s = v) as Hbv by apply Hs0. rewrite Hbv, (proj2 (Z.eqb_neq _ _)) by done. mstep. eexists. split; [done|].
      by eapply at_rearm.
  - cbn [app]. change (byte.of_Z (128 + byteLen v) :: be_split (Z.to_nat (byteLen v)) v ++ b) with ([byte.of_Z (128 + byteLen v)] ++ be_split (Z.to_nat (byteLen v)) v ++ b).
    assert ([byte.of_Z (128 + byteLen v)] = rlpHead 0x80 (byteLen v)) as -> by (unfold rlpHead; by rewrite (proj2 (Z.ltb_lt _ _)) by lia).
    exists String, (byteLen v), 0, (be_split (Z.to_nat (byteLen v)) v ++ b). split; [lia|].
    split; [apply runs_Kind_String; rewrite len_app, len_be_split; pose proof (len_nonneg b); lia|].
    intros s Hs0. unfold uint, D_bind. rewrite (M_bind_Ok _ _ _ _ _ (Kind_ahead _ _ _ _ _ _ Hs0)). cbv iota beta.
    rewrite (proj2 (Z.ltb_ge _ _)) by lia. destruct (runs_readUint v 0 b fs String (byteLen v) ltac:(lia) s Hs0) as (s' & E & H').
    exists s'. erewrite M_bind_Ok by done. cbv iota beta. rewrite (proj2 (Z.ltb_ge v 128)), andb_false_r by lia. done.
Qed.

Lemma runs_uint maxbits v b fs : 0 <= v < 2 ^ 64 -> byteLen v <= maxbits / 8 ->
  runs (at_ ((rlpNumber v ++ b) :: fs)) (uint maxbits) (inr v) (at_ (b :: fs)).
Proof.
  intros Hv Hm. destruct (runs_uint_peek maxbits v b fs Hv Hm) as (kd & sz & bv & b' & _ & HK & HU). by eapply (runs_via_Kind (uint maxbits)).
Qed.

Lemma runs_Uint v b fs : is_u64 v -> runs (at_ ((rlpNumber v ++ b) :: fs)) Uint (inr v) (at_ (b :: fs)).
Proof. intros Hv. apply runs_uint; [done|]. by apply byteLen_u64. Qed.

Definition rlpBool (x : bool) : list Byte.byte := rlpNumber (if x then 1 else 0).

Lemma runs_Bool x b fs : runs (at_ ((rlpBool x ++ b) :: fs)) Bool (inr x) (at_ (b :: fs)).
Proof.
  unfold Bool. eapply runs_bind; [apply runs_uint; by destruct x|]. destruct x; apply runs_ok.
Qed.

Lemma runs_bigIntBytes x b fs : match x with y :: _ => byte.unsigned y <> 0 | [] => True end ->
  runs (at_ ((rlpStr x ++ b) :: fs)) bigIntBytes (inr x) (at_ (b :: fs)).
Proof.
  intros Hx. assert (match x with y :: _ => byte.unsigned y =? 0 | [] => false end = false) as Hz
    by (destruct x; [done|by apply Z.eqb_neq]).
  unfold rlpStr. destruct (single x) eqn:H1.
  - destruct x as [|y []]; try done. cbn in H1. apply Z.ltb_lt in H1.
    eapply (runs_via_Kind bigIntBytes); [done|by apply runs_Kind_Byte|].
    intros s Hs. unfold bigIntBytes, D_bind. rewrite (M_bind_Ok _ _ _ _ _ (Kind_ahead _ _ _ _ _ _ Hs)). cbv iota beta.
    eexists. split; [|by eapply at_rearm]. erewrite M_bind_Ok; [|do 2 mstep; done]. cbv iota beta.
    destruct Hs as (_ & _ & ->). by rewrite byte.of_Z_unsigned, Hz.
  - rewrite <- app_assoc. pose proof (len_nonneg x) as Hn. pose proof (len_nonneg b) as Hb.
    eapply (runs_via_Kind bigIntBytes); [done|apply runs_Kind_String; rewrite len_app; lia|].
    intros s Hs. unfold bigIntBytes. unfold D_bind at 1. rewrite (M_bind_Ok _ _ _ _ _ (Kind_ahead _ _ _ _ _ _ Hs)). cbv iota beta.
    cut (exists s', (if len x =? 0 then _ ← rearm; ok []
       else if len x <=? 32 then let! buffer := readFull (len x) in
         if (len x =? 1) && match buffer with z :: _ => byte.unsigned z <? 128 | [] => false end then fail ErrCanonSize else ok buffer
       else _ ← make (len x); readFull (len x)) s = Ok (inr x, s') /\ at_ (b :: fs) s').
    { intros (s' & E & H'). exists s'. unfold D_bind at 1. rewrite (M_bind_Ok _ _ _ _ _ E). cbv iota beta. by rewrite Hz. }
    destruct (Z.eqb_spec (len x) 0) as [Hx0|].
    { destruct x; [|rewrite len_cons in Hx0; pose proof (len_nonneg x); lia]. eexists. mstep. split; [done|]. by eapply at_rearm. }
    destruct (runs_readFull _ _ _ _ _ _ s Hs) as (s' & E & H'). exists s'. split; [|done].
    destruct (Z.leb_spec (len x) 32).
    + unfold D_bind. rewrite (M_bind_Ok _ _ _ _ _ E). cbv iota beta.
      destruct x as [|y [|z x]]; [done| |].
      * cbn in H1. by rewrite H1, andb_false_r.
      * rewrite (proj2 (Z.eqb_neq (len (y :: z :: x)) 1)); [done|]. rewrite !len_cons. pose proof (len_nonneg x). lia.
    + erewrite M_bind_Ok by (eapply make_fits; [apply Hs|rewrite len_app; lia]). done.
Qed.

(** The bytes of a number, as Uint256Bytes hands them to SetBytes. *)
Definition numBytes (v : Z) : list Byte.byte := be_split (Z.to_nat (byteLen v)) v.

Lemma runs_Uint256Bytes v b fs : 0 <= v < 2 ^ 256 ->
  runs (at_ ((rlpNumber v ++ b) :: fs)) RlpStream.Uint256Bytes (inr (numBytes v)) (at_ (b :: fs)).
Proof.
  intros Hv. rewrite rlpNumber_str by done. fold (numBytes v). unfold RlpStream.Uint256Bytes. eapply runs_bind.
  - apply runs_bigIntBytes. destruct (numBytes v) eqn:E; [done|]. eapply (be_split_leading v); [lia|done].
  - pose proof (byteLen_le v 32 ltac:(lia) ltac:(lia)). pose proof (byteLen_nonneg v). unfold numBytes at 1.
    rewrite len_be_split, (proj2 (Z.ltb_ge _ _)) by lia. apply runs_ok.
Qed.

(** ** Lists *)
Lemma at_NewList k bv c b fs s : ahead k (len c) bv (c ++ b) fs s ->
  exists s', NewList (len c) s = Ok (tt, s') /\ at_ (c :: b :: fs) s'.
Proof.
  intros (Hv & _). eexists. split; [done|]. split; [|done]. pose proof (view_bound _ _ _ Hv) as Hl. rewrite len_app in Hl.
  pose proof (len_nonneg b). pose proof (len_nonneg c). pose proof Hv as [Hr Hrem Hlim F Hlen]. split; cbn [RlpStream.r remaining limited stack]; try done.
  - rewrite Hr. cbn [concat]. by rewrite app_assoc.
  - cbn. split_and!; try done; try lia.
    destruct (stack s) as [|lp st]; cbn [frames_ok] in F |- *; [by destruct fs|].
    destruct F as (F1 & _ & F2 & F3 & F4). rewrite len_app in F3. split_and!; try done; lia.
Qed.

Lemma runs_List_ahead bv c b fs : runs (ahead List (len c) bv (c ++ b) fs) List_ (inr (len c)) (at_ (c :: b :: fs)).
Proof.
  intros s Hs. unfold List_, D_bind. rewrite (M_bind_Ok _ _ _ _ _ (Kind_ahead _ _ _ _ _ _ Hs)). cbv iota beta.
  destruct (at_NewList _ _ _ _ _ _ Hs) as (s' & E & H'). exists s'. by rewrite (M_bind_Ok _ _ _ _ _ E).
Qed.

Lemma runs_List c b fs : runs (at_ ((rlpLst c ++ b) :: fs)) List_ (inr (len c)) (at_ (c :: b :: fs)).
Proof.
  unfold rlpLst. rewrite <- app_assoc. pose proof (len_nonneg b). pose proof (len_nonneg c).
  eapply (runs_via_Kind List_); [done|apply runs_Kind_List; rewrite len_app; lia|apply runs_List_ahead].
Qed.

Lemma runs_ListEnd b fs : runs (at_ ([] :: b :: fs)) ListEnd (inr tt) (at_ (b :: fs)).
Proof.
  intros s [Hv _]. unfold ListEnd. mstep. pose proof (view_EOL _ _ _ Hv) as He. destruct Hv as [Hr Hrem Hlim F Hlen].
  destruct (stack s) as [|lp st]; [done|]. rewrite He. cbn [negb]. mstep. eexists. split; [done|]. split; [|done].
  split; cbn [RlpStream.r remaining limited stack]; try done.
  cbn [frames_ok] in F. destruct F as (F1 & _ & F2 & F3 & F4). destruct st as [|up st]; [done|].
  cbn [frames_ok] in F4 |- *. destruct F4 as (G1 & G2 & G3 & G4 & G5). pose proof (len_nonneg b).
  rewrite u64_add_small by (unfold is_u64; lia). cbn. split_and!; try done; lia.
Qed.

Lemma runs_Raw_ahead k bv x b fs : k <> Byte -> 
  runs (ahead k (len x) bv (x ++ b) fs) Raw (inr (rlpHead (if bool_decide (k = String) then 0x80 else 0xC0) (len x) ++ x)) (at_ (b :: fs)).
Proof.
  intros Hk s Hs. unfold Raw. unfold D_bind at 1. rewrite (M_bind_Ok _ _ _ _ _ (Kind_ahead _ _ _ _ _ _ Hs)). cbv iota beta.
  pose proof (len_nonneg x). pose proof (len_nonneg b). pose proof (view_bound _ _ _ (proj1 Hs)) as Hl. rewrite len_app in Hl.
  assert (1 <= headsize (len x) <= 9) as Hh.
  { unfold headsize, intsize. pose proof (byteLen_le (len x) 8). pose proof (byteLen_nonneg (len x)). case_match; lia. }
  destruct (runs_readFull _ _ _ _ _ _ s Hs) as (s' & E & H'). exists s'. split; [|done].
  set (zs := replicate (Z.to_nat (headsize (len x))) Byte.x00).
  assert (forall tag, puthead 0 tag (tag + 55) (len x) (zs ++ x) = Ok (headsize (len x), rlpHead tag (len x) ++ x)) as Hp.
  { intros tag. apply (puthead_spec tag (len x) [] zs x); [lia|].
    unfold zs, len at 1. rewrite length_replicate. lia. }
  assert (make (u64_add (headsize (len x)) (len x)) s = Ok (tt, s)) as Em.
  { eapply make_fits; [apply Hs|]. rewrite u64_add_small, len_app by (unfold is_u64; lia). lia. }
  destruct k; [done| |]; erewrite M_bind_Ok by done; unfold D_bind; erewrite M_bind_Ok by done; cbv iota beta.
  - rewrite bool_decide_true by done. cbn [fst snd]. specialize (Hp 128). change (128 + 55) with 183 in Hp. fold zs. by rewrite Hp.
  - rewrite bool_decide_false by done. cbn [fst snd]. specialize (Hp 192). change (192 + 55) with 247 in Hp. fold zs. by rewrite Hp.
Qed.

Lemma runs_Raw_Lst c b fs : runs (at_ ((rlpLst c ++ b) :: fs)) Raw (inr (rlpLst c)) (at_ (b :: fs)).
Proof.
  unfold rlpLst. rewrite <- app_assoc. pose proof (len_nonneg b). pose proof (len_nonneg c).
  eapply (runs_via_Kind Raw); [done|apply runs_Kind_List; rewrite len_app; lia|by apply (runs_Raw_ahead List)].
Qed.

Lemma runs_Raw_Str x b fs : runs (at_ ((rlpStr x ++ b) :: fs)) Raw (inr (rlpStr x)) (at_ (b :: fs)).
Proof.
  unfold rlpStr. destruct (single x) eqn:Hx.
  - destruct x as [|y []]; try done. cbn in Hx. apply Z.ltb_lt in Hx.
    eapply (runs_via_Kind Raw); [done|by apply (runs_Kind_Byte y)|].
    intros s Hs. unfold Raw, D_bind. rewrite (M_bind_Ok _ _ _ _ _ (Kind_ahead _ _ _ _ _ _ Hs)). do 2 mstep.
    eexists. split; [|by eapply at_rearm]. destruct Hs as (_ & _ & ->). by rewrite byte.of_Z_unsigned.
  - rewrite <- app_assoc. pose proof (len_nonneg b). pose proof (len_nonneg x).
    eapply (runs_via_Kind Raw); [done|apply runs_Kind_String; rewrite len_app; lia|by apply (runs_Raw_ahead String)].
Qed.

(** ** Loops *)
Lemma runs_fuel {A} fs (k : nat -> D A) res Q :
  (forall n, (2 * length (concat fs) < n)%nat -> runs (at_ fs) (k n) res Q) -> runs (at_ fs) (fuel ← loopFuel; k fuel) res Q.
Proof.
  intros Hk s Hs. erewrite M_bind_Ok by reflexivity. pose proof (v_r _ _ (proj1 Hs)) as Hr. rewrite Hr. apply Hk; [lia|done].
Qed.
