(* ===== verification/StreamSafe.v ===== *)
(** The stream decoder on arbitrary input: every method returns, keeps the
    stream well formed and uses up input when it succeeds ([safe]), and what it
    accepts is the canonical encoding of what it returns (the [_inv] lemmas). *)
From S2P Require Import Prelude Uint256 StateTypes Accounts AccountSpec Rlp RlpStream RlpSpec StreamSpec.
#[local] Open Scope Z_scope.
#[local] Arguments Z.ltb : simpl never.
#[local] Arguments Z.eqb : simpl never.
#[local] Arguments len : simpl never.

(** * Well-formed streams *)
Definition inv (s : Stream) : Prop :=
  exists b fs, view s (b :: fs) /\
    match kind s, kinderr s with
    | Some k, None => peeked s k (size s) b /\ 0 <= byteval s < 128
    | _, _ => True
    end.

(** Input left, with a value that has been looked at counting for one more. *)
Definition measure (s : Stream) : Z :=
  2 * len (r s) + match kind s, kinderr s with Some _, None => 1 | _, _ => 0 end.

Lemma at_inv fs s : at_ fs s -> fs <> [] -> inv s.
Proof. intros [Hv Ha] Hf. destruct fs as [|b fs]; [done|]. exists b, fs. by rewrite Ha. Qed.

Lemma at_nonempty fs s : at_ fs s -> fs <> [].
Proof. intros [[_ _ _ F _] _] ->. by destruct (stack s). Qed.

Lemma ahead_inv k sz bv b fs s : ahead k sz bv b fs s -> 0 <= bv < 128 -> inv s.
Proof. intros (Hv & Hp & <-) Hb. exists b, fs. split; [done|]. pose proof Hp as [H1 H2 H3 _]. rewrite H1, H3, H2. done. Qed.

Lemma failed_inv s b fs e : view s (b :: fs) -> failed s e -> inv s.
Proof. intros Hv [H1 H2]. exists b, fs. split; [done|]. rewrite H2. by destruct (kind s). Qed.

Lemma measure_at fs s : at_ fs s -> measure s = 2 * len (concat fs).
Proof. intros [[Hr _ _ _ _] Ha]. unfold measure. rewrite Ha, Hr. lia. Qed.

Lemma measure_ahead k sz bv b fs s : ahead k sz bv b fs s -> measure s = 2 * len (b ++ concat fs) + 1.
Proof. intros ([Hr _ _ _ _] & [H1 _ H3 _] & _). unfold measure. by rewrite H1, H3, Hr. Qed.

Lemma measure_nonneg s : 0 <= measure s.
Proof. unfold measure. pose proof (len_nonneg (r s)). repeat case_match; lia. Qed.

(** What Kind gives on any well-formed stream. *)
Lemma Kind_inv s : inv s -> exists res s', Kind_ s = Ok (res, s') /\ measure s' <= measure s /\
  match res with
  | inl _ => inv s'
  | inr (k, sz) => exists bv b fs, ahead k sz bv b fs s' /\ 0 <= bv < 128
  end.
Proof.
  intros (b & fs & Hv & Hc). destruct (kind s) as [k|] eqn:Hk.
  - destruct (kinderr s) as [e|] eqn:He.
    + exists (inl e), s. split; [unfold Kind_; mstep; unfold id; by rewrite Hk, He|]. split; [lia|]. apply (failed_inv s b fs e); [done|]. split; [by rewrite Hk|done].
    + destruct Hc as [Hp Hb]. assert (ahead k (size s) (byteval s) b fs s) as Ha by by split_and!.
      exists (inr (k, size s)), s. split; [by eapply Kind_ahead|]. split; [lia|]. by exists (byteval s), b, fs.
  - assert (at_ (b :: fs) s) as Hat by done. destruct (Kind_view s b fs Hv Hk) as (res & s' & E & H). exists res, s'. split; [done|].
    rewrite (measure_at _ _ Hat). destruct b as [|x b].
    + destruct fs as [|c fs]; destruct H as (-> & V & H).
      * split; [|by apply (failed_inv s' [] [] io_EOF)]. destruct H as [_ H], V as [Hr _ _ _ _]. unfold measure. rewrite H, Hr. by destruct (kind s').
      * assert (at_ ([] :: c :: fs) s') as Hat' by done. rewrite (measure_at _ _ Hat'). split; [lia|]. by apply at_inv in Hat'.
    + destruct (parseHead (x :: b)) as [[[[k sz] bv] b']|] eqn:P.
      * destruct H as (-> & V & Hp & Hb). assert (ahead k sz bv b' fs s') as Ha by by split_and!. rewrite (measure_ahead _ _ _ _ _ _ Ha).
        unfold parseHead in P. destruct (parseTag (x :: b)) as [[[[k0 sz0] bv0] b0]|] eqn:Pt; [|done]. cbn in P.
        destruct (len b0 <? sz0); [done|]. injection P as -> -> -> ->. pose proof Pt as Pt'. apply parseTag_inv in Pt as (Eb & _ & Hbv & _).
        split; [|by exists bv, b', fs]. cbn [concat]. rewrite Eb, !len_app.
        assert (1 <= len (tagOf k sz bv)); [|lia]. destruct k; cbn [tagOf]; [done| |]; apply parseTag_nonneg in Pt';
          rewrite len_rlpHead by done; by apply headsize_pos.
      * destruct H as (e & b' & -> & _ & V & L & F). split; [|by apply (failed_inv s' b' fs e)].
        destruct V as [Hr _ _ _ _]. unfold measure. destruct F as [_ F]. rewrite F, Hr. cbn [concat]. rewrite !len_app.
        destruct (kind s'); lia.
Qed.

(** * Safety *)
Definition safe {A} (d : Z) (m : D A) : Prop := forall s, inv s ->
  exists res s', m s = Ok (res, s') /\ inv s' /\ measure s' <= measure s /\
    match res with inr _ => measure s' + d <= measure s | inl _ => True end.

Lemma safe_bind {A B} d e f (m : D A) (k : A -> D B) :
  safe d m -> (forall a, safe e (k a)) -> 0 <= f <= d + e -> safe f (let! x := m in k x).
Proof.
  intros Hm Hk Hf s Hs. destruct (Hm s Hs) as (res & s1 & E1 & I1 & M1 & D1). unfold D_bind. destruct res as [err|a].
  - exists (inl err), s1. by rewrite (M_bind_Ok _ _ _ _ _ E1).
  - destruct (Hk a s1 I1) as (res & s2 & E2 & I2 & M2 & D2). exists res, s2. rewrite (M_bind_Ok _ _ _ _ _ E1).
    split_and!; try done; [lia|]. destruct res; [done|lia].
Qed.

Lemma safe_weaken {A} d e (m : D A) : safe d m -> e <= d -> safe e m.
Proof.
  intros Hm He s Hs. destruct (Hm s Hs) as (res & s' & E & I & M & H). exists res, s'. split_and!; try done. destruct res; [done|lia].
Qed.

Lemma safe_ok {A} (a : A) : safe 0 (ok a).
Proof. intros s Hs. exists (inr a), s. split_and!; try done. lia. Qed.

Lemma safe_fail {A} d e : safe d (fail e : D A).
Proof. intros s Hs. exists (inl e), s. by split_and!. Qed.

Lemma safe_wrapf {A} d (m : D A) : safe d m -> safe d (wrapf m).
Proof.
  intros Hm s Hs. destruct (Hm s Hs) as (res & s' & E & H). exists (match res with inl e => inl (Wrapf e) | inr a => inr a end), s'.
  unfold wrapf. rewrite (M_bind_Ok _ _ _ _ _ E). split; [done|]. by destruct res.
Qed.

(** Looking at the outcome before going on. *)
Lemma safe_mbind {A B} d e (m : D A) (k : RlpError + A -> D B) :
  safe d m -> (forall err, safe e (k (inl err))) -> (forall a, safe (e - d) (k (inr a))) -> safe e (x ← m; k x).
Proof.
  intros Hm Hl Hr s Hs. destruct (Hm s Hs) as (res & s1 & E1 & I1 & M1 & D1). rewrite (M_bind_Ok _ _ _ _ _ E1).
  destruct res as [err|a].
  - destruct (Hl err s1 I1) as (res & s2 & E2 & I2 & M2 & D2). exists res, s2. split_and!; try done; [lia|]. destruct res; [done|lia].
  - destruct (Hr a s1 I1) as (res & s2 & E2 & I2 & M2 & D2). exists res, s2. split_and!; try done; [lia|]. destruct res; [done|lia].
Qed.

Lemma safe_Kind : safe 0 Kind_.
Proof.
  intros s Hs. destruct (Kind_inv s Hs) as (res & s' & E & M & H). exists res, s'. split_and!; try done.
  - destruct res as [e|[k sz]]; [done|]. destruct H as (bv & b & fs & Ha & Hb). by eapply ahead_inv.
  - destruct res; [done|lia].
Qed.

(** A method that looks ahead and then reads the value. *)
Definition safe_from {A} (d : Z) (m : D A) (k : Kind) (sz : Z) : Prop := forall s bv b fs,
  ahead k sz bv b fs s -> 0 <= bv < 128 ->
  exists res s', m s = Ok (res, s') /\ inv s' /\ measure s' <= measure s /\
    match res with inr _ => measure s' + d <= measure s | inl _ => True end.

Lemma safe_Kind_bind {A} d (k : Kind * Z -> D A) : (forall kd sz, safe_from d (k (kd, sz)) kd sz) -> safe d (let! ks := Kind_ in k ks).
Proof.
  intros Hk s Hs. destruct (Kind_inv s Hs) as (res & s1 & E1 & M1 & H). unfold D_bind. rewrite (M_bind_Ok _ _ _ _ _ E1).
  destruct res as [e|[kd sz]].
  - by exists (inl e), s1.
  - destruct H as (bv & b & fs & Ha & Hb). destruct (Hk kd sz s1 bv b fs Ha Hb) as (res & s2 & E2 & I2 & M2 & D2). exists res, s2.
    split_and!; try done; [lia|]. destruct res; [done|lia].
Qed.

Lemma safe_from_fail {A} d k sz e : safe_from d (fail e : D A) k sz.
Proof. intros s bv b fs Ha Hb. exists (inl e), s. split_and!; try done. by eapply ahead_inv. Qed.

Lemma safe_from_safe {A} d (m : D A) k sz : safe d m -> safe_from d m k sz.
Proof. intros Hm s bv b fs Ha Hb. apply Hm. by eapply ahead_inv. Qed.

(** Ending at a fresh value whose input was ahead. *)
Lemma settle {A} (res : RlpError + A) k sz bv b c fs s s' : ahead k sz bv (c ++ b) fs s -> at_ (b :: fs) s' ->
  inv s' /\ measure s' <= measure s /\ match res with inr _ => measure s' + 1 <= measure s | inl _ => True end.
Proof.
  intros Ha Hat. rewrite (measure_at _ _ Hat), (measure_ahead _ _ _ _ _ _ Ha). cbn [concat]. rewrite !len_app. pose proof (len_nonneg c).
  split_and!; [by eapply at_inv|lia|destruct res; lia].
Qed.

Lemma readFull_ahead k sz bv b fs s : ahead k sz bv b fs s -> exists x b' s', b = x ++ b' /\ len x = sz /\
  readFull sz s = Ok (inr x, s') /\ at_ (b' :: fs) s'.
Proof.
  intros Ha. pose proof Ha as (Hv & [_ _ _ Hf] & _). destruct (take_len b sz Hf) as (x & b' & -> & Hx).
  destruct (readFull_view s x b' fs Hv) as (s' & E & V & A & _). exists x, b', s'. by rewrite <- Hx.
Qed.

Lemma settle_at {A} (res : RlpError + A) k sz bv b fs s s' : ahead k sz bv b fs s -> at_ (b :: fs) s' ->
  inv s' /\ measure s' <= measure s /\ match res with inr _ => measure s' + 1 <= measure s | inl _ => True end.
Proof. intros Ha. by apply (settle res k sz bv b []). Qed.

Lemma safe_Bytes : safe 1 Bytes.
Proof.
  apply safe_Kind_bind. intros k sz s bv b fs Ha Hb. destruct k.
  - do 2 eexists. split; [do 2 mstep; done|]. eapply settle_at; [done|by eapply at_rearm].
  - erewrite M_bind_Ok by (eapply make_fits; [apply Ha|]; destruct Ha as (_ & [_ _ _ Hf] & _); lia).
    destruct (readFull_ahead _ _ _ _ _ _ Ha) as (x & b' & s' & -> & Hx & E & H'). unfold D_bind. rewrite (M_bind_Ok _ _ _ _ _ E). cbv iota beta.
    case_match; (do 2 eexists; split; [done|]; by eapply settle).
  - by apply safe_from_fail with (k := List) (sz := sz) (bv := bv) (b := b) (fs := fs).
Qed.

Lemma safe_readUint k sz n : n = sz -> sz <= 8 -> safe_from 1 (readUint n) k sz.
Proof.
  intros -> Hn s bv b fs Ha Hb. pose proof Ha as (Hv & [_ _ _ Hf] & _). destruct (Z.eq_dec sz 0) as [->|Hz].
  - do 2 eexists. split; [unfold readUint; change (0 =? 0) with true; cbv iota; mstep; done|]. eapply settle_at; [done|by eapply at_rearm].
  - destruct (readUint_view s b fs sz Hv) as (res & s' & b' & E & V & A & _ & L & _); [lia|]. exists res, s'. split; [done|].
    assert (at_ (b' :: fs) s') as Hat by done. rewrite (measure_at _ _ Hat), (measure_ahead _ _ _ _ _ _ Ha). cbn [concat]. rewrite !len_app.
    split_and!; [by eapply at_inv|lia|destruct res; lia].
Qed.

Lemma safe_uint maxbits : maxbits <= 64 -> safe 1 (uint maxbits).
Proof.
  intros Hm. apply safe_Kind_bind. intros k sz s bv b fs Ha Hb. pose proof (ahead_inv _ _ _ _ _ _ Ha Hb) as Hi. destruct k.
  - mstep. case_match; [exists (inl ErrCanonInt), s; by split_and!|].
    do 2 eexists. split; [mstep; done|]. eapply settle_at; [done|by eapply at_rearm].
  - destruct (Z.ltb_spec (maxbits / 8) sz); [exists (inl errUintOverflow), s; by split_and!|].
    assert (sz <= 8) as H8 by (etrans; [exact H|]; apply Z.div_le_upper_bound; lia).
    destruct (safe_readUint String sz sz eq_refl H8 s bv b fs Ha Hb) as (res & s' & E & I & M & H'). erewrite M_bind_Ok by done.
    destruct res as [e|v].
    + exists (inl (match e with ErrCanonSize => ErrCanonInt | e => e end)), s'. split; [by destruct e|done].
    + case_match; (do 2 eexists; split; [done|]; by split_and!).
  - exists (inl ErrExpectedString), s. by split_and!.
Qed.

Lemma safe_Uint : safe 1 Uint.
Proof. by apply safe_uint. Qed.

Lemma safe_Bool : safe 1 Bool.
Proof.
  apply (safe_bind 1 0); [by apply safe_uint| |lia]. intros a. repeat case_match; apply safe_ok || apply safe_fail.
Qed.

Lemma safe_bigIntBytes : safe 1 bigIntBytes.
Proof.
  apply safe_Kind_bind. intros k sz.
  enough (safe_from 1 (match (k, sz) with
    | (List, _) => fail ErrExpectedString
    | (Byte, _) => b ← gets byteval; _ ← rearm; ok [byte.of_Z b]
    | (String, size) =>
        if size =? 0 then _ ← rearm; ok []
        else if size <=? 32 then
          let! buffer := readFull size in
          if (size =? 1) && match buffer with x :: _ => byte.unsigned x <? 128 | [] => false end then fail ErrCanonSize else ok buffer
        else _ ← make size; readFull size
    end) k sz) as Hs.
  { intros s bv b fs Ha Hb. destruct (Hs s bv b fs Ha Hb) as (res & s' & E & I & M & H'). unfold D_bind at 1. erewrite M_bind_Ok by exact E.
    destruct res as [e|x]; [by exists (inl e), s'|]. destruct x as [|y x]; [|destruct (byte.unsigned y =? 0)]; (do 2 eexists; split; [done|]; by split_and!). }
  intros s bv b fs Ha Hb. pose proof (ahead_inv _ _ _ _ _ _ Ha Hb) as Hi. destruct k.
  - do 2 eexists. split; [do 2 mstep; done|]. eapply settle_at; [done|by eapply at_rearm].
  - destruct (sz =? 0). { do 2 eexists. split; [mstep; done|]. eapply settle_at; [done|by eapply at_rearm]. }
    destruct (readFull_ahead _ _ _ _ _ _ Ha) as (x & b' & s' & -> & Hx & E & H'). destruct (sz <=? 32).
    + unfold D_bind. rewrite (M_bind_Ok _ _ _ _ _ E). cbv iota beta. case_match; (do 2 eexists; split; [done|]; by eapply settle).
    + erewrite M_bind_Ok by (eapply make_fits; [apply Ha|]; destruct Ha as (_ & [_ _ _ Hf] & _); lia).
      do 2 eexists. split; [done|]. by eapply settle.
  - exists (inl ErrExpectedString), s. by split_and!.
Qed.

Lemma safe_Uint256Bytes : safe 1 RlpStream.Uint256Bytes.
Proof. apply (safe_bind 1 0); [apply safe_bigIntBytes| |lia]. intros a. case_match; apply safe_ok || apply safe_fail. Qed.

Lemma safe_Raw : safe 1 Raw.
Proof.
  apply safe_Kind_bind. intros k sz s bv b fs Ha Hb. destruct (decide (k = Byte)) as [->|Hk].
  { do 2 eexists. split; [do 2 mstep; done|]. eapply settle_at; [done|by eapply at_rearm]. }
  pose proof Ha as (Hv & [_ _ _ Hf] & _). destruct (take_len b sz Hf) as (x & b' & -> & <-).
  destruct (runs_Raw_ahead k bv x b' fs Hk s Ha) as (s' & E & H').
  unfold Raw in E. unfold D_bind at 1 in E. rewrite (M_bind_Ok _ _ _ _ _ (Kind_ahead _ _ _ _ _ _ Ha)) in E. cbv iota beta in E.
  do 2 eexists. split; [exact E|]. by eapply settle.
Qed.

(** ** Lists *)
Lemma NewList_ahead k sz bv b fs s : ahead k sz bv b fs s ->
  exists c b' s', b = c ++ b' /\ len c = sz /\ NewList sz s = Ok (tt, s') /\ at_ (c :: b' :: fs) s'.
Proof.
  intros Ha. pose proof Ha as (_ & [_ _ _ Hf] & _). destruct (take_len b sz Hf) as (c & b' & -> & <-).
  destruct (at_NewList _ _ _ _ _ _ Ha) as (s' & E & H'). by exists c, b', s'.
Qed.

Lemma safe_NewList {A} d k sz (m : D A) : 0 <= d -> safe d m -> safe_from (d + 1) (_ ← NewList sz; m) k sz.
Proof.
  intros Hd Hm s bv b fs Ha Hb. destruct (NewList_ahead _ _ _ _ _ _ Ha) as (c & b' & s' & -> & Hc & E & H').
  rewrite (M_bind_Ok _ _ _ _ _ E). destruct (Hm s') as (res & s2 & E2 & I2 & M2 & D2); [by eapply at_inv|].
  exists res, s2. assert (measure s' + 1 <= measure s) as HM.
  { rewrite (measure_at _ _ H'), (measure_ahead _ _ _ _ _ _ Ha). cbn [concat]. rewrite <- app_assoc. lia. }
  split_and!; try done; [lia|]. destruct res; [done|lia].
Qed.

Lemma safe_List : safe 1 List_.
Proof.
  apply safe_Kind_bind. intros k sz. destruct k; try apply safe_from_fail.
  apply (safe_NewList 0); [done|apply safe_ok].
Qed.

Lemma safe_ListEnd : safe 0 ListEnd.
Proof.
  intros s (b & fs & Hv & Hc). unfold ListEnd. mstep. pose proof (view_EOL _ _ _ Hv) as He.
  assert (inv s) as Hi by by exists b, fs. destruct (stack s) as [|lp st] eqn:Hs; [exists (inl errNotInList), s; by split_and!|].
  rewrite He. destruct b as [|x b]; cbn [negb]; [|exists (inl errNotAtEOL), s; by split_and!].
  destruct fs as [|b fs]; cbn [negb]; [exists (inl errNotAtEOL), s; by split_and!|].
  assert (at_ ([] :: b :: fs) (mk_Stream (r s) (remaining s) (limited s) None (size s) (byteval s) (kinderr s) (stack s))) as Hat
    by (split; [by apply (streamView_ext s)|done]).
  destruct (runs_ListEnd b fs _ Hat) as (s' & E & H'). unfold ListEnd in E.
  erewrite M_bind_Ok in E by reflexivity. cbn [stack] in E. rewrite Hs, He in E. cbn [negb] in E.
  exists (inr tt), s'. split; [exact E|]. assert (measure s' <= measure s); [|split_and!; [by eapply at_inv|done|lia]].
  rewrite (measure_at _ _ H'). destruct Hv as [Hr _ _ _ _]. unfold measure. rewrite Hr. cbn [concat app]. repeat case_match; lia.
Qed.

(** * Only canonical encodings are accepted *)
Lemma D_bind_inv {A B} (m : D A) (k : A -> D B) s b s' : (let! x := m in k x) s = Ok (inr b, s') ->
  exists a s1, m s = Ok (inr a, s1) /\ k a s1 = Ok (inr b, s').
Proof.
  intros H. unfold D_bind in H. apply M_bind_inv in H as ([e|a] & s1 & E1 & E2); [done|]. by exists a, s1.
Qed.

Lemma wrapf_inv {A} (m : D A) s a s' : wrapf m s = Ok (inr a, s') -> m s = Ok (inr a, s').
Proof. intros H. unfold wrapf in H. apply M_bind_inv in H as ([e|x] & s1 & E1 & E2); [done|]. by injection E2 as -> ->. Qed.

Lemma Kind_at_inv s b fs k sz s' : at_ (b :: fs) s -> Kind_ s = Ok (inr (k, sz), s') ->
  exists bv b', b = tagOf k sz bv ++ b' /\ ahead k sz bv b' fs s' /\ 0 <= bv < 128 /\ (k = Byte -> sz = 0).
Proof.
  intros [Hv Ha] E. destruct (Kind_view s b fs Hv Ha) as (res & s1 & E1 & H). rewrite E1 in E. injection E as -> ->.
  destruct b as [|x b]; [by destruct fs; destruct H|]. destruct (parseHead (x :: b)) as [[[[k0 sz0] bv] b']|] eqn:P; [|by destruct H as (? & ? & ? & _)].
  destruct H as ([= <- <-] & V & Hp & Hb). exists bv, b'. unfold parseHead in P.
  destruct (parseTag (x :: b)) as [[[[k1 sz1] bv1] b1]|] eqn:Pt; [|done]. cbn in P. destruct (len b1 <? sz1); [done|].
  injection P as -> -> -> ->. apply parseTag_inv in Pt as (-> & _ & [? ?] & ?). by split_and!.
Qed.

(** [m] accepts only [enc x] for [x], and only good [x]. *)
Definition accepts {A} (m : D A) (enc : A -> list Byte.byte) (good : A -> Prop) : Prop := forall s b fs x s',
  at_ (b :: fs) s -> m s = Ok (inr x, s') -> exists b', b = enc x ++ b' /\ good x /\ at_ (b' :: fs) s'.

Definition accepts_ahead {A} (m : D A) (enc : A -> list Byte.byte) (good : A -> Prop) : Prop := forall s k sz bv b fs x s',
  ahead k sz bv b fs s -> 0 <= bv < 128 -> (k = Byte -> sz = 0) -> m s = Ok (inr x, s') ->
  exists b', tagOf k sz bv ++ b = enc x ++ b' /\ good x /\ at_ (b' :: fs) s'.

Lemma accepts_via_Kind {A} (m : D A) k enc good : m = D_bind Kind_ k -> accepts_ahead m enc good -> accepts m enc good.
Proof.
  intros -> H s b fs x s' Hat E. pose proof E as E0. apply D_bind_inv in E as ([kd sz] & s1 & E1 & E2).
  destruct (Kind_at_inv _ _ _ _ _ _ Hat E1) as (bv & b' & -> & Ha & Hb & Hk). apply (H s1 kd sz bv b' fs x s' Ha Hb Hk).
  unfold D_bind. by rewrite (M_bind_Ok _ _ _ _ _ (Kind_ahead _ _ _ _ _ _ Ha)).
Qed.

Lemma accepts_ahead_Bytes : accepts_ahead Bytes rlpStr (fun _ => True).
Proof.
  intros s k sz bv b fs x s' Ha Hb Hk E. pose proof (Kind_ahead _ _ _ _ _ _ Ha) as EK. destruct k.
  - rewrite (Hk eq_refl) in *. destruct (runs_Bytes_ahead_Byte _ _ _ s Ha) as (s1 & E1 & H1). rewrite E1 in E. injection E as <- <-.
    exists b. split; [|done]. unfold rlpStr. cbn [single tagOf]. by rewrite byte_small, (proj2 (Z.ltb_lt _ _)) by lia.
  - unfold Bytes, D_bind in E. rewrite (M_bind_Ok _ _ _ _ _ EK) in E. cbv iota beta in E.
    erewrite M_bind_Ok in E by (eapply make_fits; [apply Ha|]; destruct Ha as (_ & [_ _ _ Hf] & _); lia).
    destruct (readFull_ahead _ _ _ _ _ _ Ha) as (y & b' & s1 & -> & <- & E1 & H1). rewrite (M_bind_Ok _ _ _ _ _ E1) in E. cbv iota beta in E.
    destruct ((len y =? 1) && _) eqn:Es; [done|]. injection E as <- <-. exists b'. split; [|done].
    unfold rlpStr. assert (single y = false) as ->; [|cbn; by rewrite app_assoc]. by destruct y as [|z []].
  - unfold Bytes, D_bind in E. by rewrite (M_bind_Ok _ _ _ _ _ EK) in E.
Qed.

Lemma accepts_Bytes : accepts Bytes rlpStr (fun _ => True).
Proof. by eapply accepts_via_Kind, accepts_ahead_Bytes. Qed.

Lemma rlpNumber_combine y x : byte.unsigned y <> 0 -> len (y :: x) <= 32 ->
  rlpNumber (be_combine (y :: x)) = rlpStr (y :: x) /\ numBytes (be_combine (y :: x)) = y :: x.
Proof.
  intros Hy Hl. pose proof (be_combine_bound (y :: x)) as Hb. fold (len (y :: x)) in Hb.
  assert (numBytes (be_combine (y :: x)) = y :: x) as Hn.
  { unfold numBytes. rewrite leading_byteLen by done. unfold len. rewrite Nat2Z.id. apply be_split_combine. }
  split; [|done]. rewrite rlpNumber_str; [by fold (numBytes (be_combine (y :: x))); rewrite Hn|].
  split; [lia|]. eapply Z.lt_le_trans; [apply Hb|]. apply Z.pow_le_mono_r; lia.
Qed.

Lemma accepts_uint maxbits : maxbits <= 64 -> accepts (uint maxbits) rlpNumber is_u64.
Proof.
  intros Hm. eapply accepts_via_Kind; [done|]. intros s k sz bv b fs x s' Ha Hb Hk E. pose proof (Kind_ahead _ _ _ _ _ _ Ha) as EK.
  unfold uint, D_bind in E. rewrite (M_bind_Ok _ _ _ _ _ EK) in E. cbv iota beta in E. destruct k; [| |done].
  - erewrite M_bind_Ok in E by reflexivity. cbn [byteval] in E. assert (byteval s = bv) as Hbv by apply Ha. rewrite Hbv in E.
    destruct (Z.eqb_spec bv 0) as [|Hz]; [done|]. erewrite M_bind_Ok in E by reflexivity. injection E as <- <-.
    exists b. split; [|split; [unfold is_u64; lia|by eapply at_rearm]]. unfold rlpNumber. cbn [tagOf].
    rewrite (proj2 (Z.ltb_lt _ _)), (proj2 (Z.eqb_neq _ _)) by lia. done.
  - destruct (Z.ltb_spec (maxbits / 8) sz) as [|Hsz]; [done|].
    assert (sz <= 8) as H8 by (etrans; [exact Hsz|]; apply Z.div_le_upper_bound; lia).
    apply M_bind_inv in E as (res & s1 & E1 & E2). destruct res as [e|v]; [by destruct e|].
    destruct ((0 <? sz) && (v <? 128)) eqn:Ec; [done|]. injection E2 as <- <-.
    pose proof Ha as (Hv & [_ _ _ Hf] & _). destruct (Z.eq_dec sz 0) as [->|Hz].
    + unfold readUint in E1. change (0 =? 0) with true in E1. cbv iota in E1. erewrite M_bind_Ok in E1 by reflexivity. injection E1 as <- <-.
      exists b. split; [done|]. split; [done|]. by eapply at_rearm.
    + destruct (readUint_view s b fs sz Hv) as (res & s2 & b' & E & V & A & _ & _ & R); [lia|]. rewrite E1 in E. injection E as <- <-.
      destruct R as (y & -> & <- & -> & Hy). exists b'. split; [|split; [|done]];
        [|pose proof (be_combine_bound y) as Hbd; fold (len y) in Hbd; pose proof (Z.pow_le_mono_r 2 (8 * len y) 64); unfold is_u64; lia].
      destruct y as [|z y]; [done|].
      rewrite (proj2 (Z.ltb_lt _ _)) in Ec by lia. cbn [andb] in Ec. apply Z.ltb_ge in Ec.
      assert (byte.unsigned z <> 0) as Hz0.
      { intros Hz0. rewrite Hz0, andb_true_r in Hy. apply Z.ltb_ge in Hy. rewrite len_cons in Hy.
        assert (y = []) as -> by (destruct y; [done|]; rewrite len_cons in Hy; pose proof (len_nonneg y); lia).
        rewrite be_combine_single in Ec. lia. }
      destruct (rlpNumber_combine z y Hz0 ltac:(lia)) as [-> _]. cbn [tagOf]. rewrite app_assoc. f_equal. unfold rlpStr.
      assert (single (z :: y) = false) as ->; [|done]. destruct y; [|done]. cbn. rewrite be_combine_single in Ec. by apply Z.ltb_ge.
Qed.

Lemma accepts_Uint : accepts Uint rlpNumber is_u64.
Proof. by apply accepts_uint. Qed.

Lemma accepts_Bool : accepts Bool rlpBool (fun _ => True).
Proof.
  intros s b fs x s' Hat E. apply D_bind_inv in E as (n & s1 & E1 & E2). destruct (accepts_uint 8 ltac:(lia) _ _ _ _ _ Hat E1) as (b' & -> & _ & H1).
  exists b'. destruct (Z.eqb_spec n 0) as [->|]; [by injection E2 as <- <-|]. destruct (Z.eqb_spec n 1) as [->|]; [by injection E2 as <- <-|done].
Qed.

Lemma accepts_Uint256Bytes :
  accepts RlpStream.Uint256Bytes (fun x => rlpNumber (be_combine x)) (fun x => numBytes (be_combine x) = x /\ be_combine x < 2 ^ 256).
Proof.
  intros s b fs x s' Hat E. apply D_bind_inv in E as (y & s1 & E1 & E2). destruct (Z.ltb_spec 32 (len y)) as [|Hl]; [done|]. injection E2 as -> ->.
  assert (exists b', b = rlpStr x ++ b' /\ at_ (b' :: fs) s' /\ match x with y :: _ => byte.unsigned y <> 0 | [] => True end) as (b' & -> & H' & Hz).
  { apply D_bind_inv in E1 as ([k sz] & s2 & E1 & E2). destruct (Kind_at_inv _ _ _ _ _ _ Hat E1) as (bv & b2 & -> & Ha & Hb & Hk).
    apply D_bind_inv in E2 as (z & s3 & E2 & E3).
    destruct (match z with y :: _ => byte.unsigned y =? 0 | [] => false end) eqn:Ez; [done|]. injection E3 as -> ->.
    assert (match x with y :: _ => byte.unsigned y <> 0 | [] => True end) by (destruct x; [done|by apply Z.eqb_neq]).
    destruct k; [| |done].
    - do 2 erewrite M_bind_Ok in E2 by reflexivity. cbn [byteval] in E2. injection E2 as <- <-. exists b2. split_and!; try done; [|by eapply at_rearm].
      assert (byteval s2 = bv) as -> by apply Ha. unfold rlpStr. cbn [single tagOf]. by rewrite byte_small, (proj2 (Z.ltb_lt _ _)) by lia.
    - destruct (Z.eqb_spec sz 0) as [->|].
      { erewrite M_bind_Ok in E2 by reflexivity. injection E2 as <- <-. exists b2. split_and!; try done. by eapply at_rearm. }
      destruct (readFull_ahead _ _ _ _ _ _ Ha) as (y & b3 & s4 & -> & <- & E4 & H4). destruct (Z.leb_spec (len y) 32).
      + unfold D_bind in E2. rewrite (M_bind_Ok _ _ _ _ _ E4) in E2. cbv iota beta in E2. destruct ((len y =? 1) && _) eqn:Es; [done|].
        injection E2 as <- <-. exists b3. split_and!; try done. unfold rlpStr.
        assert (single y = false) as ->; [by destruct y as [|w []]|cbn; by rewrite app_assoc].
      + erewrite M_bind_Ok in E2 by (eapply make_fits; [apply Ha|]; rewrite len_app; pose proof (len_nonneg b3); lia).
        rewrite E4 in E2. injection E2 as <- <-. lia. }
  exists b'. destruct x as [|y x]; [by split_and!|]. destruct (rlpNumber_combine y x Hz ltac:(lia)) as [-> ->]. split_and!; try done.
  pose proof (be_combine_bound (y :: x)) as Hb. fold (len (y :: x)) in Hb. eapply Z.lt_le_trans; [apply Hb|]. apply Z.pow_le_mono_r; lia.
Qed.

Lemma List_inv s b fs n s' : at_ (b :: fs) s -> List_ s = Ok (inr n, s') ->
  exists c b', b = rlpLst c ++ b' /\ n = len c /\ at_ (c :: b' :: fs) s'.
Proof.
  intros Hat E. apply D_bind_inv in E as ([k sz] & s1 & E1 & E2). destruct (Kind_at_inv _ _ _ _ _ _ Hat E1) as (bv & b2 & -> & Ha & _ & _).
  destruct k; try done. destruct (NewList_ahead _ _ _ _ _ _ Ha) as (c & b' & s2 & -> & <- & E3 & H3).
  rewrite (M_bind_Ok _ _ _ _ _ E3) in E2. injection E2 as <- <-. exists c, b'. split_and!; try done. unfold rlpLst. by rewrite <- app_assoc.
Qed.

Lemma ListEnd_inv s b fs u s' : at_ (b :: fs) s -> ListEnd s = Ok (inr u, s') ->
  b = [] /\ exists b' fs', fs = b' :: fs' /\ at_ (b' :: fs') s'.
Proof.
  intros Hat E. pose proof E as E0. unfold ListEnd in E. erewrite M_bind_Ok in E by reflexivity.
  pose proof (view_EOL _ _ _ (proj1 Hat)) as He. destruct (stack s) as [|lp st]; [done|]. rewrite He in E.
  destruct b; [|done]. destruct fs as [|b' fs']; [done|]. split; [done|]. exists b', fs'. split; [done|].
  destruct (runs_ListEnd b' fs' s Hat) as (s1 & E1 & H1). rewrite E1 in E0. by injection E0 as _ <-.
Qed.

(** EOL comes from the end of the list and nothing else. *)
Definition eol_only {A} (m : D A) : Prop := forall s b fs e s', at_ (b :: fs) s -> m s = Ok (inl e, s') -> errors_Is e EOL = true ->
  b = [] /\ fs <> [] /\ e = EOL /\ at_ (b :: fs) s'.

Lemma eol_only_bind {A} (k : Kind * Z -> D A) :
  (forall kd sz bv b fs s e s', ahead kd sz bv b fs s -> k (kd, sz) s = Ok (inl e, s') -> errors_Is e EOL = false) ->
  eol_only (let! ks := Kind_ in k ks).
Proof.
  intros Hk s b fs e s' Hat E He. unfold D_bind in E. destruct (Kind_view s b fs (proj1 Hat) (proj2 Hat)) as (res & s1 & E1 & H).
  rewrite (M_bind_Ok _ _ _ _ _ E1) in E. destruct b as [|x b].
  - destruct fs as [|c fs]; destruct H as (-> & V & H); injection E as <- <-; [done|]. by split_and!.
  - exfalso. destruct (parseHead (x :: b)) as [[[[kd sz] bv] b']|].
    + destruct H as (-> & V & Hp & Hb). assert (ahead kd sz bv b' fs s1) as Ha by by split_and!. pose proof (Hk _ _ _ _ _ _ _ _ Ha E). congruence.
    + destruct H as (e' & b' & -> & Hne & _). injection E as <- <-. congruence.
Qed.

Lemma eol_only_Bytes : eol_only Bytes.
Proof.
  apply eol_only_bind. intros k sz bv b fs s e s' Ha E. destruct k.
  - by do 2 erewrite M_bind_Ok in E by reflexivity.
  - erewrite M_bind_Ok in E by (eapply make_fits; [apply Ha|]; destruct Ha as (_ & [_ _ _ Hf] & _); lia).
    destruct (readFull_ahead _ _ _ _ _ _ Ha) as (y & b' & s1 & -> & <- & E1 & _). unfold D_bind in E. rewrite (M_bind_Ok _ _ _ _ _ E1) in E.
    cbv iota beta in E. destruct ((len y =? 1) && _); [by injection E as <- _|done].
  - by injection E as <- _.
Qed.

Lemma eol_only_List : eol_only List_.
Proof.
  apply eol_only_bind. intros k sz bv b fs s e s' Ha E. destruct k; [by injection E as <- _|by injection E as <- _|].
  by erewrite M_bind_Ok in E by reflexivity.
Qed.

(** ** Loops *)

(** Safety with [n] turns for a stream whose measure is smaller. *)
Definition safe_upto {A} (n : nat) (d : Z) (m : D A) : Prop := forall s, inv s -> measure s < Z.of_nat n ->
  exists res s', m s = Ok (res, s') /\ inv s' /\ measure s' <= measure s /\
    match res with inr _ => measure s' + d <= measure s | inl _ => True end.

Lemma safe_fuel {A} d (k : nat -> D A) : (forall n, safe_upto n d (k n)) -> safe d (fuel ← loopFuel; k fuel).
Proof.
  intros Hk s Hs. erewrite M_bind_Ok by reflexivity. apply Hk; [done|]. unfold measure, len. repeat case_match; lia.
Qed.

(** One turn: the element uses up input, so a turn fewer is enough for the rest. *)
Lemma safe_upto_turn {A B} n (m : D A) (k : RlpError + A -> D B) :
  safe 1 m -> (forall e, safe 0 (k (inl e))) -> (forall a, safe_upto n 0 (k (inr a))) -> safe_upto (S n) 0 (x ← m; k x).
Proof.
  intros Hm Hl Hr s Hs Hn. destruct (Hm s Hs) as (res & s1 & E1 & I1 & M1 & D1). rewrite (M_bind_Ok _ _ _ _ _ E1). destruct res as [e|a].
  - destruct (Hl e s1 I1) as (res & s2 & E2 & I2 & M2 & D2). exists res, s2. split_and!; try done; [lia|]. destruct res; [done|lia].
  - destruct (Hr a s1 I1 ltac:(lia)) as (res & s2 & E2 & I2 & M2 & D2). exists res, s2. split_and!; try done; [lia|]. destruct res; [done|lia].
Qed.

Lemma safe_upto_bind {A B} n (m : D A) (k : A -> D B) :
  safe_upto n 0 m -> (forall a, safe_upto n 0 (k a)) -> safe_upto n 0 (let! x := m in k x).
Proof.
  intros Hm Hk s Hs Hn. destruct (Hm s Hs Hn) as (res & s1 & E1 & I1 & M1 & D1). unfold D_bind. rewrite (M_bind_Ok _ _ _ _ _ E1). destruct res as [e|a].
  - by exists (inl e), s1.
  - destruct (Hk a s1 I1 ltac:(lia)) as (res & s2 & E2 & I2 & M2 & D2). exists res, s2. split_and!; try done; [lia|]. destruct res; [done|lia].
Qed.

Lemma safe_upto_safe {A} n d (m : D A) : safe d m -> safe_upto n d m.
Proof. intros Hm s Hs _. by apply Hm. Qed.

Lemma safe_seq {A B} (m : D A) (k : A -> D B) : safe 0 m -> (forall a, safe 0 (k a)) -> safe 0 (let! x := m in k x).
Proof. intros Hm Hk. by apply (safe_bind 0 0). Qed.

Lemma safe_seq1 {A B} (m : D A) (k : A -> D B) : safe 1 m -> (forall a, safe 0 (k a)) -> safe 1 (let! x := m in k x).
Proof. intros Hm Hk. by apply (safe_bind 1 0). Qed.

Lemma safe_0 {A} (m : D A) : safe 1 m -> safe 0 m.
Proof. intros Hm. by eapply safe_weaken. Qed.

Create HintDb stream.
#[export] Hint Resolve safe_Kind safe_Bytes safe_Uint safe_Bool safe_bigIntBytes safe_Uint256Bytes safe_Raw safe_List safe_ListEnd
  safe_ok safe_fail safe_wrapf : stream.
#[export] Hint Extern 5 (safe 0 _) => apply safe_0 : stream.

(** Sequences of safe steps. *)
Ltac safe_steps :=
  repeat first
    [ solve [auto with stream]
    | apply safe_seq1; [solve [auto with stream]|intros ?]
    | apply safe_seq; [solve [auto with stream]|intros ?]
    | match goal with |- safe _ (if ?c then _ else _) => destruct c end ].

(** The next field of a decoder that has succeeded. *)
Ltac field_inv Hs E :=
  let x := fresh "x" in let s := fresh "s" in let E1 := fresh "E1" in let H1 := fresh "H1" in let b := fresh "b" in
  let G := fresh "G" in let E0 := fresh "E0" in
  apply D_bind_inv in E as (x & s & E1 & E); try apply wrapf_inv in E1;
  first
    [ apply (accepts_Uint _ _ _ _ _ Hs) in E1 as (b & -> & G & H1)
    | apply (accepts_Uint256Bytes _ _ _ _ _ Hs) in E1 as (b & -> & [_ G] & H1)
    | apply (accepts_Bytes _ _ _ _ _ Hs) in E1 as (b & -> & _ & H1)
    | apply (accepts_Bool _ _ _ _ _ Hs) in E1 as (b & -> & _ & H1)
    | apply (List_inv _ _ _ _ _ Hs) in E1 as (G & b & -> & _ & H1)
    | apply (ListEnd_inv _ _ _ _ _ Hs) in E1 as [E0 (b & G & E1 & H1)];
      (match type of E0 with ?v = [] => tryif is_var v then subst v else clear E0 end);
      first [injection E1 as <- <-|subst] ];
  clear Hs; rename H1 into Hs.

(** * Decoding a whole input *)
Lemma at_Reset b n s : len b < 2 ^ 47 -> n = len b \/ n = 0 -> at_ [b] (Reset true b n s).
Proof.
  intros Hb Hn. unfold Reset.
  assert ((if 0 <? n then (n, true) else (len b, true)) = (len b, true)) as ->.
  { destruct Hn as [->| ->]; [|done]. by destruct (0 <? len b). }
  cbn. split; [|done]. split; cbn; try done; by rewrite app_nil_r.
Qed.

Section whole.
Context {A : Type}.
Implicit Types (dec : D A) (pooled : Stream).

Lemma DecodeBytes_runs dec b v pooled : len b < 2 ^ 47 -> runs (at_ [b]) dec (inr v) (at_ [[]]) -> DecodeBytes pooled dec b = Ok (inr v).
Proof.
  intros Hb Hr. unfold DecodeBytes. destruct (Hr _ (at_Reset b (len b) pooled Hb (or_introl eq_refl))) as (s' & E & H').
  rewrite E. cbn [mbind outcome_bind]. pose proof (v_r _ _ (proj1 H')) as ->. done.
Qed.

Lemma DecodeBytes_safe dec b d pooled : len b < 2 ^ 47 -> safe d dec -> exists res, DecodeBytes pooled dec b = Ok res.
Proof.
  intros Hb Hs. unfold DecodeBytes. destruct (Hs (Reset true b (len b) pooled)) as (res & s' & E & _).
  { eapply at_inv; [by apply at_Reset; [|left]|done]. }
  rewrite E. cbn [mbind outcome_bind]. eauto.
Qed.

Lemma DecodeBytes_inv dec b v pooled : len b < 2 ^ 47 -> DecodeBytes pooled dec b = Ok (inr v) ->
  exists s s', at_ [b] s /\ dec s = Ok (inr v, s') /\ r s' = [].
Proof.
  intros Hb E. unfold DecodeBytes in E. pose proof (at_Reset b (len b) pooled Hb (or_introl eq_refl)) as Hat.
  destruct (dec (Reset true b (len b) pooled)) as [[res s']| | |] eqn:Ed; try done. cbn in E. destruct res as [e|x]; [done|].
  destruct (Z.ltb_spec 0 (len (r s'))) as [|Hl]; [done|]. injection E as <-. exists (Reset true b (len b) pooled), s'. split_and!; try done.
  destruct (r s'); [done|]. rewrite len_cons in Hl. len_facts. lia.
Qed.
End whole.
