(* ===== verification/RlpReflect.v ===== *)
(** The part of package rlp that is driven by reflection: the writers that
    makeWriter (rlp/encode.go) builds for a type, the decoders that makeDecoder
    (rlp/decode.go) builds for it, and Encode, EncodeToBytes and Decode.

    [ty] is a Go type as the package sees it, [value] a Go value.  Of the types
    that makeWriter knows, those with EncodeRLP or DecodeRLP methods of their
    own, interfaces, uint256.Int, and big.Int other than behind a pointer are
    left out.  A value of another type than the writer's is a panic of
    package reflect.  Decoding is into a zero value of the type. *)
From S2P Require Import Prelude Uint256 StateTypes Accounts Rlp RlpStream.
#[local] Open Scope Z_scope.

(** A field of a struct has its type and whether it is tagged optional;
    [tail] and the nil kind of a pointer are the other tags. *)
Inductive ty :=
| TRaw
| TBigInt
| TUint (bits : Z)
| TBool
| TString
| TBytes
| TByteArray (n : nat)
| TSlice (tail : bool) (elem : ty)
| TArray (n : nat) (elem : ty)
| TStruct (fields : list (ty * bool))
| TPtr (nilKind : option Kind) (elem : ty).

(** [None] is nil. *)
Inductive value :=
| VBigInt (i : option Z)
| VUint (i : Z)
| VBool (b : bool)
| VString (s : list Byte.byte)
| VBytes (b : option (list Byte.byte))
| VByteArray (b : list Byte.byte)
| VSlice (l : option (list value))
| VArray (l : list value)
| VStruct (l : list value)
| VPtr (v : option value).

(** reflect.Zero. *)
Fixpoint zero (t : ty) : value :=
  match t with
  | TRaw | TBytes => VBytes None
  | TBigInt => VBigInt None
  | TUint _ => VUint 0
  | TBool => VBool false
  | TString => VString []
  | TByteArray n => VByteArray (replicate n Byte.x00)
  | TSlice _ _ => VSlice None
  | TArray n elem => VArray (replicate n (zero elem))
  | TStruct fields => VStruct (map (fun f => zero f.1) fields)
  | TPtr _ _ => VPtr None
  end.

(** reflect.Value.IsZero. *)
Fixpoint IsZero (v : value) : bool :=
  match v with
  | VBigInt i => match i with None => true | _ => false end
  | VUint i => i =? 0
  | VBool b => negb b
  | VString s => len s =? 0
  | VBytes b => match b with None => true | _ => false end
  | VByteArray b => forallb (fun x => byte.unsigned x =? 0) b
  | VSlice l => match l with None => true | _ => false end
  | VArray l | VStruct l => forallb IsZero l
  | VPtr v => match v with None => true | _ => false end
  end.

Definition defaultNilKind (t : ty) : Kind :=
  match t with TUint _ | TString | TBool | TRaw | TBytes | TByteArray _ => String | _ => List end.

(** * Writers *)
Abbreviation W := (M encbuf.encbuf (option RlpError)) (only parsing).

Definition done (m : M encbuf.encbuf unit) : W := _ ← m; mret None.

(** [for ... { if err := writer(val, w); err != nil { return err } }]. *)
Fixpoint writeEach {A} (writer : A -> W) (xs : list A) : W :=
  match xs with
  | [] => mret None
  | x :: xs => err ← writer x; match err with Some err => mret (Some err) | None => writeEach writer xs end
  end.

(** The words of a big.Int, least significant first. *)
Definition Bits (i : Z) : list Z :=
  map (fun k => Z.shiftr i (64 * Z.of_nat k) mod 2 ^ 64) (seq 0 (Z.to_nat ((bitLen i + 63) / 64))).

(** [for j := 0; j < wordBytes && index > 0; j++ { index--; buf[index] = byte(d); d >>= 8 }]. *)
Fixpoint fillWord (j : nat) (d : Z) (index : nat) (buf : list Byte.byte) : nat * list Byte.byte :=
  match j, index with
  | S j, S index => fillWord j (Z.shiftr d 8) index (<[index := byte.of_Z d]> buf)
  | _, _ => (index, buf)
  end.

Fixpoint fillWords (ds : list Z) (index : nat) (buf : list Byte.byte) : list Byte.byte :=
  match ds with
  | [] => buf
  | d :: ds => let '(index, buf) := fillWord 8 d index buf in fillWords ds index buf
  end.

Definition writeBigInt (i : Z) : W :=
  if i <? 0 then mret (Some negativeBigInt)
  else
    let bitlen := bitLen i in
    if bitlen <=? 64 then done (encbuf.encodeUint (u64 i))
    else
      let length := Z.to_nat (Z.shiftr (Z.land (bitlen + 7) (-8)) 3) in
      _ ← encbuf.encodeStringHeader (Z.of_nat length);
      done (encbuf.append (fillWords (Bits i) length (replicate length Byte.x00))).

Definition writeBool (b : bool) : W := done (encbuf.append [if b then Byte.x01 else Byte.x80]).

Definition writeString (s : list Byte.byte) : W :=
  match s with
  | [x] => if byte.unsigned x <=? 0x7f then done (encbuf.append [x]) else _ ← encbuf.encodeStringHeader (len s); done (encbuf.append s)
  | _ => _ ← encbuf.encodeStringHeader (len s); done (encbuf.append s)
  end.

(** makeByteArrayWriter. *)
Definition writeByteArray (b : list Byte.byte) : W :=
  match b with
  | [] => done (encbuf.append [Byte.x80])
  | [x] => done (encbuf.append (if byte.unsigned x <=? 0x7f then [x] else [Byte.x81; x]))
  | _ => _ ← encbuf.encodeStringHeader (len b); done (encbuf.append b)
  end.

(** [for ; lastField >= firstOptionalField; lastField-- { if !IsZero { break } }],
    as the number of fields written. *)
Fixpoint written_fields (first : nat) (fields : list value) (n : nat) : nat :=
  match n with
  | O => O
  | S last => if (first <=? last)%nat && match fields !! last with Some v => IsZero v | None => false end then written_fields first fields last else n
  end.

Definition firstOptionalField (fields : list (ty * bool)) : nat :=
  match list_find (fun f => f.2 = true) fields with Some (i, _) => i | None => length fields end.

(** The writer of a slice ends the list on every path, that of a struct only
    when all went well. *)
Definition writeSlice (tail : bool) (elems : W) : W :=
  if tail then elems
  else
    lh ← encbuf.list;
    err ← elems;
    _ ← encbuf.listEnd lh;
    mret err.

Definition writeStruct (fields : W) : W :=
  lh ← encbuf.list;
  err ← fields;
  match err with
  | Some err => mret (Some err)
  | None => done (encbuf.listEnd lh)
  end.

(** The first [n] fields, with the writers of their types. *)
Fixpoint writeFields (writers : list (value -> W)) (l : list value) (n : nat) {struct n} : W :=
  match n, writers, l with
  | O, _, _ => mret None
  | S n, writer :: writers, v :: l =>
      err ← writer v; match err with Some err => mret (Some err) | None => writeFields writers l n end
  | _, _, _ => panic
  end.

Fixpoint write (t : ty) (v : value) {struct t} : W :=
  match t, v with
  | TRaw, VBytes b => done (encbuf.append (match b with Some b => b | None => [] end))
  | TBigInt, VBigInt None => done (encbuf.append [Byte.x80])
  | TBigInt, VBigInt (Some i) => writeBigInt i
  | TUint _, VUint i => done (encbuf.encodeUint i)
  | TBool, VBool b => writeBool b
  | TString, VString s => writeString s
  | TBytes, VBytes b => done (encbuf.encodeString (match b with Some b => b | None => [] end))
  | TByteArray _, VByteArray b => writeByteArray b
  | TSlice tail elem, VSlice l => writeSlice tail (writeEach (write elem) (match l with Some l => l | None => [] end))
  | TArray _ elem, VArray l => writeSlice false (writeEach (write elem) l)
  | TStruct fields, VStruct l =>
      let n := written_fields (firstOptionalField fields) l (length fields) in
      writeStruct (writeFields (map (fun f => write f.1) fields) l n)
  | TPtr nilKind elem, VPtr None =>
      match match nilKind with Some k => k | None => defaultNilKind elem end with
      | String => done (encbuf.append [Byte.x80])
      | _ => lh ← encbuf.list; done (encbuf.listEnd lh)
      end
  | TPtr _ elem, VPtr (Some v) => write elem v
  | _, _ => panic
  end.

(** Encode to a bytes.Buffer and EncodeToBytes, from the encbuf of the pool. *)
Definition Encode (pooled : encbuf.encbuf) (t : ty) (v : value) : outcome (RlpError + list Byte.byte) :=
  '(err, w) ← write t v (encbuf.reset pooled);
  match err with Some err => Ok (inl err) | None => bs ← encbuf.toWriter w; Ok (inr bs) end.

Definition EncodeToBytes (pooled : encbuf.encbuf) (t : ty) (v : value) : outcome (RlpError + list Byte.byte) :=
  '(err, w) ← write t v (encbuf.reset pooled);
  match err with Some err => Ok (inl err) | None => bs ← encbuf.toBytes w; Ok (inr bs) end.

(** * Decoders *)

(** [if err != nil { return wrapStreamError(err, typ) }]. *)
Definition wrapped {A} (m : D A) : D A :=
  r ← m; mret (match r with inl err => inl (wrapStreamError err) | inr a => inr a end).

(** decodeSliceElems; the error context is not kept. *)
Fixpoint decodeSliceElems {A} (elem : D A) (fuel : nat) (xs : list A) : D (list A) :=
  match fuel with
  | O => out_of_fuel
  | S fuel =>
      x ← elem;
      match x with
      | inr x => decodeSliceElems elem fuel (xs ++ [x])
      | inl err => if bool_decide (err = EOL) then ok xs else fail err
      end
  end.

Definition decodeListSlice {A} (elem : D A) : D (list A) :=
  let! size := wrapped List_ in
  if size =? 0 then let! _ := ListEnd in ok []
  else
    fuel ← loopFuel;
    let! xs := decodeSliceElems elem fuel [] in
    let! _ := ListEnd in
    ok xs.

(** The loop of decodeListArray over the remaining [n] elements. *)
Fixpoint decodeArrayElems {A} (elem : D A) (n : nat) : D (list A) :=
  match n with
  | O => ok []
  | S n =>
      x ← elem;
      match x with
      | inr x => let! xs := decodeArrayElems elem n in ok (x :: xs)
      | inl err => fail (if bool_decide (err = EOL) then decodeError tooFewElements else err)
      end
  end.

Definition decodeListArray {A} (elem : D A) (n : nat) : D (list A) :=
  let! _ := wrapped List_ in
  let! xs := decodeArrayElems elem n in
  let! _ := wrapped ListEnd in
  ok xs.

(** A byte of value 0 makes Uint return an error, which is dropped, and leaves
    the byte to be read again. *)
Definition decodeByteArray (n : nat) : D (list Byte.byte) :=
  let! ks := Kind_ in
  let vlen := Z.of_nat n in
  match ks with
  | (Byte, _) =>
      if vlen =? 0 then fail (decodeError inputTooLong)
      else if 1 <? vlen then fail (decodeError inputTooShort)
      else bv ← Uint; ok [byte.of_Z (match bv with inr bv => bv | inl _ => 0 end)]
  | (String, size) =>
      if vlen <? size then fail (decodeError inputTooLong)
      else if size <? vlen then fail (decodeError inputTooShort)
      else
        let! slice := readFull vlen in
        if (size =? 1) && match slice with x :: _ => byte.unsigned x <? 128 | [] => false end
        then fail (wrapStreamError ErrCanonSize) else ok slice
  | (List, _) => fail (wrapStreamError ErrExpectedString)
  end.

(** makeNilPtrDecoder. *)
Definition decodeNilPtr {A} (nilKind : Kind) (elem : D A) : D (option A) :=
  let! ks := wrapped Kind_ in
  if negb (bool_decide (ks.1 = Byte)) && (ks.2 =? 0) then
    if negb (bool_decide (ks.1 = nilKind)) then fail (decodeError wrongEmptyKind) else _ ← rearm; ok None
  else let! v := elem in ok (Some v).

(** The loop of makeStructDecoder over the fields, each with its decoder, its
    zero value and whether it is optional. *)
Fixpoint decodeFields (fields : list (D value * value * bool)) : D (list value) :=
  match fields with
  | [] => ok []
  | (decoder, _, optional) :: rest =>
      x ← decoder;
      match x with
      | inr v => let! l := decodeFields rest in ok (v :: l)
      | inl err =>
          if bool_decide (err = EOL) then
            if optional : bool then ok (map (fun f => f.1.2) fields) else fail (decodeError tooFewElements)
          else fail err
      end
  end.

Fixpoint makeDecoder (t : ty) : D value :=
  match t with
  | TRaw => let! b := Raw in ok (VBytes (Some b))
  | TBigInt => let! b := wrapped bigIntBytes in ok (VBigInt (Some (be_combine b)))
  | TUint bits => let! i := wrapped (uint bits) in ok (VUint i)
  | TBool => let! b := wrapped Bool in ok (VBool b)
  | TString => let! s := wrapped Bytes in ok (VString s)
  | TBytes => let! b := wrapped Bytes in ok (VBytes (Some b))
  | TByteArray n => let! b := decodeByteArray n in ok (VByteArray b)
  | TSlice true elem => fuel ← loopFuel; let! l := decodeSliceElems (makeDecoder elem) fuel [] in ok (VSlice (Some l))
  | TSlice false elem => let! l := decodeListSlice (makeDecoder elem) in ok (VSlice (Some l))
  | TArray n elem => let! l := decodeListArray (makeDecoder elem) n in ok (VArray l)
  | TStruct fields =>
      let! _ := wrapped List_ in
      let! l := decodeFields (map (fun f => (makeDecoder f.1, zero f.1, f.2)) fields) in
      let! _ := wrapped ListEnd in
      ok (VStruct l)
  | TPtr None elem => let! v := makeDecoder elem in ok (VPtr (Some v))
  | TPtr (Some nilKind) elem => let! v := decodeNilPtr nilKind (makeDecoder elem) in ok (VPtr v)
  end.
