(* ===== verification/RlpReflectSpec.v ===== *)
(** Encoding and decoding by reflection ([RlpReflect]): the reference encoding
    of a value of a type, that Encode and EncodeToBytes produce it, that the
    decoder of the type reads it back, and on which types the decoder
    terminates. *)
From S2P Require Import Prelude Uint256 StateTypes Accounts AccountSpec Rlp RlpStream RlpSpec StreamSpec StreamSafe RlpReflect.
#[local] Open Scope Z_scope.

(** Induction over types, with the fields of structs. *)
Lemma ty_induction (P : ty -> Prop) :
  P TRaw -> P TBigInt -> (forall bits, P (TUint bits)) -> P TBool -> P TString -> P TBytes -> (forall n, P (TByteArray n)) ->
  (forall tail elem, P elem -> P (TSlice tail elem)) -> (forall n elem, P elem -> P (TArray n elem)) ->
  (forall fields, Forall (fun f => P f.1) fields -> P (TStruct fields)) -> (forall k elem, P elem -> P (TPtr k elem)) -> forall t, P t.
Proof.
  intros H1 H2 H3 H4 H5 H6 H7 Hs Ha Hf Hp. fix IH 1. intros [| |bits| | | |n|tail elem|n elem|fields|k elem];
    [exact H1|exact H2|apply H3|exact H4|exact H5|exact H6|apply H7|apply Hs, IH|apply Ha, IH| |apply Hp, IH].
  apply Hf. induction fields as [|[t o] fields IHf]; constructor; [apply IH|exact IHf].
Qed.

Abbreviation bytes := (list Byte.byte) (only parsing).

Definition orNil {A} (l : option (list A)) : list A := match l with Some l => l | None => [] end.

Definition nilKindOf (k : option Kind) (elem : ty) : Kind := match k with Some k => k | None => defaultNilKind elem end.

Definition fieldsWritten (fields : list (ty * bool)) (l : list value) : nat :=
  written_fields (firstOptionalField fields) l (length fields).

(** * The reference encoding *)
Fixpoint rlp (t : ty) (v : value) : bytes :=
  match t, v with
  | TRaw, VBytes b => orNil b
  | TBigInt, VBigInt i => rlpStr (numBytes (match i with Some i => i | None => 0 end))
  | TUint _, VUint i => rlpNumber i
  | TBool, VBool b => rlpBool b
  | TString, VString s => rlpStr s
  | TBytes, VBytes b => rlpStr (orNil b)
  | TByteArray _, VByteArray b => rlpStr b
  | TSlice tail elem, VSlice l => if tail then concat (map (rlp elem) (orNil l)) else rlpLst (concat (map (rlp elem) (orNil l)))
  | TArray _ elem, VArray l => rlpLst (concat (map (rlp elem) l))
  | TStruct fields, VStruct l =>
      rlpLst (concat (take (fieldsWritten fields l) (zip_with (fun enc v => enc v) (map (fun f => rlp f.1) fields) l)))
  | TPtr k elem, VPtr None => match nilKindOf k elem with String => [Byte.x80] | _ => rlpLst [] end
  | TPtr _ elem, VPtr (Some v) => rlp elem v
  | _, _ => []
  end.

(** All values satisfy their predicates. *)
Fixpoint all2 {A} (ps : list (A -> Prop)) (l : list A) : Prop :=
  match ps, l with p :: ps, x :: l => p x /\ all2 ps l | [], [] => True | _, _ => False end.

(** A value of the type, with numbers that can be encoded. *)
Fixpoint fits (t : ty) (v : value) : Prop :=
  match t, v with
  | TRaw, VBytes _ | TBool, VBool _ | TString, VString _ | TBytes, VBytes _ => True
  | TBigInt, VBigInt i => match i with Some i => 0 <= i | None => True end
  | TUint _, VUint i => is_u64 i
  | TByteArray n, VByteArray b => length b = n
  | TSlice _ elem, VSlice l => Forall (fits elem) (orNil l)
  | TArray n elem, VArray l => length l = n /\ Forall (fits elem) l
  | TStruct fields, VStruct l => all2 (map (fun f => fits f.1) fields) l
  | TPtr _ elem, VPtr v => match v with Some v => fits elem v | None => True end
  | _, _ => False
  end.

(** * Writers *)
Definition writes (m : M encbuf.encbuf (option RlpError)) (bs : bytes) : Prop :=
  exists ts, adds m ts /\ bytesOf ts = bs /\ heads_ok ts.

Lemma writes_chunk (u : M encbuf.encbuf unit) bs :
  (forall w us h, repr w us h -> exists w', u w = Ok (tt, w') /\ repr w' (us ++ [Chunk bs]) h) -> writes (RlpReflect.done u) bs.
Proof.
  intros Hu. exists [Chunk bs]. split; [by apply adds_unit|]. split; [apply app_nil_r|by constructor].
Qed.

Lemma writes_append bs : writes (RlpReflect.done (encbuf.append bs)) bs.
Proof. apply writes_chunk. intros w us h. apply append_repr. Qed.

Lemma writes_encodeString b : len b < 2 ^ 64 -> writes (RlpReflect.done (encbuf.encodeString b)) (rlpStr b).
Proof. intros Hb. apply writes_chunk. intros w us h. by apply encodeString_repr. Qed.

Lemma writes_headed b : len b < 2 ^ 64 -> writes (_ ← encbuf.encodeStringHeader (len b); RlpReflect.done (encbuf.append b)) (rlpHead 0x80 (len b) ++ b).
Proof.
  intros Hb. exists [Chunk (rlpHead 0x80 (len b) ++ b)]. split; [|split; [apply app_nil_r|by constructor]].
  intros w us h Hr. destruct (headedString_repr b w us h Hb Hr) as (w' & E & H'). exists w'. cbn [headSizes]. rewrite Z.add_0_r. split; [|done].
  unfold RlpReflect.done. by rewrite <- M_bind_assoc, (M_bind_Ok _ _ _ _ _ E).
Qed.

Lemma writes_string s : len s < 2 ^ 64 -> writes (writeString s) (rlpStr s).
Proof.
  intros Hs. unfold writeString, rlpStr. destruct s as [|x [|y s]]; cbn [single]; try by apply writes_headed.
  destruct (Z.leb_spec (byte.unsigned x) 127), (Z.ltb_spec (byte.unsigned x) 128); try lia; [apply writes_append|by apply writes_headed].
Qed.

Lemma writes_byteArray b : len b < 2 ^ 64 -> writes (writeByteArray b) (rlpStr b).
Proof.
  intros Hs. unfold writeByteArray, rlpStr. destruct b as [|x [|y s]]; cbn [single]; [apply writes_append| |by apply writes_headed].
  destruct (Z.leb_spec (byte.unsigned x) 127), (Z.ltb_spec (byte.unsigned x) 128); try lia; apply writes_append.
Qed.

Lemma writes_list (m : M encbuf.encbuf (option RlpError)) bs : writes m bs -> len bs < 2 ^ 64 -> writes (writeSlice false m) (rlpLst bs) /\ writes (writeStruct m) (rlpLst bs).
Proof.
  intros (ts & Hm & <- & Hok) Hl.
  assert (forall w us h, repr w us h -> exists w1 w2 w3, encbuf.list w = Ok (len (headsOf 0 us), w1) /\ m w1 = Ok (None, w2) /\
    encbuf.listEnd (len (headsOf 0 us)) w2 = Ok (tt, w3) /\ repr w3 (us ++ listToks ts) (h + headSizes (listToks ts))) as Hlist.
  { intros w us h Hr. destruct (list_repr w us h Hr) as (w1 & E1 & H1). destruct (Hm _ _ _ H1) as (w2 & E2 & H2).
    rewrite <- app_assoc in H2. cbn [app] in H2. destruct (listEnd_repr _ _ _ _ Hok H2) as (w3 & E3 & H3). by exists w1, w2, w3. }
  split; exists (listToks ts); (split; [|split; [done|by apply heads_ok_listToks]]); intros w us h Hr;
    destruct (Hlist w us h Hr) as (w1 & w2 & w3 & E1 & E2 & E3 & H3); exists w3; (split; [|done]); unfold writeSlice, writeStruct, RlpReflect.done;
    by rewrite (M_bind_Ok _ _ _ _ _ E1), (M_bind_Ok _ _ _ _ _ E2), (M_bind_Ok _ _ _ _ _ E3).
Qed.

Lemma writes_each {A} (wr : A -> M encbuf.encbuf (option RlpError)) enc l : (forall x, In x l -> writes (wr x) (enc x)) ->
  writes (writeEach wr l) (concat (map enc l)).
Proof.
  induction l as [|x l IH]; intros Hl; cbn [writeEach map concat]; [exists []; split; [apply adds_ret|by split; [|constructor]]|].
  destruct (Hl x (in_eq _ _)) as (ts & H1 & <- & Hok1). destruct IH as (us & H2 & <- & Hok2); [intros; apply Hl; by right|].
  exists (ts ++ us). split; [by apply adds_seq|]. split; [apply bytesOf_app|by apply Forall_app].
Qed.

Lemma writes_fields wrs encs l n : (n <= length wrs)%nat -> length encs = length wrs -> length l = length wrs ->
  (forall i wr enc v, wrs !! i = Some wr -> encs !! i = Some enc -> l !! i = Some v -> (i < n)%nat -> writes (wr v) (enc v)) ->
  writes (writeFields wrs l n) (concat (take n (zip_with (fun enc v => enc v) encs l))).
Proof.
  revert wrs encs l. induction n as [|n IH]; intros wrs encs l Hn He Hl Hw.
  - exists []. split; [apply adds_ret|by split; [|constructor]].
  - destruct wrs as [|wr wrs], encs as [|enc encs], l as [|v l]; cbn [length] in *; try lia. cbn [writeFields zip_with take concat].
    destruct (Hw 0%nat wr enc v) as (ts & H1 & <- & Hok1); try done; [lia|].
    destruct (IH wrs encs l) as (us & H2 & <- & Hok2); try lia; [intros i wr' enc' v' ? ? ? ?; apply (Hw (S i)); try done; lia|].
    exists (ts ++ us). split; [by apply adds_seq|]. split; [apply bytesOf_app|by apply Forall_app].
Qed.

(** The words of a big number fill the buffer from its end. *)
Lemma of_Z_low x y : (forall b, 0 <= b < 8 -> Z.testbit x b = Z.testbit y b) -> byte.of_Z x = byte.of_Z y.
Proof.
  intros Hb. apply byte.unsigned_inj. rewrite !byte.unsigned_of_Z. unfold byte.wrap. apply Z.bits_inj'. intros b Hb0.
  destruct (Z.lt_ge_cases b 8); [rewrite !Z.mod_pow2_bits_low by lia; apply Hb; lia|by rewrite !Z.mod_pow2_bits_high by lia].
Qed.

Lemma fillWord_spec j d i k index : (forall b, 0 <= b < 8 * Z.of_nat j -> Z.testbit d b = Z.testbit i (8 * Z.of_nat k + b)) ->
  fillWord j d index (replicate index Byte.x00 ++ be_split k i) =
  ((index - Nat.min j index)%nat, replicate (index - Nat.min j index) Byte.x00 ++ be_split (k + Nat.min j index) i).
Proof.
  revert d k index. induction j as [|j IH]; intros d k index Hd.
  { cbn [fillWord Nat.min]. by rewrite Nat.sub_0_r, Nat.add_0_r. }
  destruct index as [|index]; cbn [fillWord Nat.min]; [by rewrite Nat.add_0_r|].
  assert (<[index := byte.of_Z d]> (replicate (S index) Byte.x00 ++ be_split k i) = replicate index Byte.x00 ++ be_split (S k) i) as ->.
  { rewrite replicate_S_end, <- app_assoc, insert_app_r_alt, length_replicate, Nat.sub_diag by (rewrite length_replicate; lia). cbn [app].
    change (S k) with (1 + k)%nat. rewrite be_split_app. change (be_split 1 ?x) with [byte.of_Z x]. cbn [app].
    change (<[0%nat := byte.of_Z d]> (Byte.x00 :: be_split k i)) with (byte.of_Z d :: be_split k i). do 2 f_equal. apply of_Z_low. intros b Hb.
    rewrite Hd, Z.shiftr_spec by lia. f_equal. lia. }
  rewrite IH; [by rewrite Nat.add_succ_r|]. intros b Hb. rewrite Z.shiftr_spec, Hd by lia. f_equal. lia.
Qed.

Lemma fillWords_spec i L n w : 0 <= i ->
  fillWords (map (fun k => Z.shiftr i (64 * Z.of_nat k) mod 2 ^ 64) (seq w n)) (L - Nat.min (8 * w) L)
    (replicate (L - Nat.min (8 * w) L) Byte.x00 ++ be_split (Nat.min (8 * w) L) i) =
  replicate (L - Nat.min (8 * (w + n)) L) Byte.x00 ++ be_split (Nat.min (8 * (w + n)) L) i.
Proof.
  intros Hi. revert w. induction n as [|n IH]; intros w; cbn [seq map fillWords]; [by rewrite Nat.add_0_r|].
  destruct (Nat.le_gt_cases L (8 * w)) as [Hl|Hl].
  - specialize (IH (S w)). rewrite !Nat.min_r in * by lia. rewrite Nat.sub_diag in *. cbn [replicate app fillWord] in *. exact IH.
  - rewrite (Nat.min_l (8 * w)) by lia. rewrite (fillWord_spec 8 _ i (8 * w)).
    + specialize (IH (S w)). replace (S w + n)%nat with (w + S n)%nat in IH by lia. rewrite <- IH.
      replace (L - 8 * w - Nat.min 8 (L - 8 * w))%nat with (L - Nat.min (8 * S w) L)%nat by lia.
      by replace (8 * w + Nat.min 8 (L - 8 * w))%nat with (Nat.min (8 * S w) L) by lia.
    + intros b Hb. rewrite Z.mod_pow2_bits_low, Z.shiftr_spec by lia. f_equal. lia.
Qed.

Lemma Bits_numBytes i : 0 <= i -> fillWords (Bits i) (Z.to_nat (byteLen i)) (replicate (Z.to_nat (byteLen i)) Byte.x00) = numBytes i.
Proof.
  intros Hi. pose proof (fillWords_spec i (Z.to_nat (byteLen i)) (Z.to_nat ((bitLen i + 63) / 64)) 0 Hi) as E.
  rewrite Nat.mul_0_r, Nat.min_0_l, Nat.sub_0_r in E. cbn [be_split] in E. unfold Bits.
  change (be_split 0 i) with (@nil Byte.byte) in E. rewrite app_nil_r in E. rewrite E.
  rewrite Nat.add_0_l, Nat.min_r, Nat.sub_diag; [done|]. unfold byteLen. pose proof (bitLen_nonneg i).
  assert ((bitLen i + 7) / 8 <= 8 * ((bitLen i + 63) / 64)); [|pose proof (Z.div_pos (bitLen i + 7) 8); lia].
  apply Zlt_succ_le, Z.div_lt_upper_bound; [lia|]. pose proof (Z.mul_succ_div_gt (bitLen i + 63) 64). lia.
Qed.

Lemma writes_bigInt i : 0 <= i -> len (numBytes i) < 2 ^ 64 -> writes (writeBigInt i) (rlpStr (numBytes i)).
Proof.
  intros Hi Hl. unfold writeBigInt. rewrite (proj2 (Z.ltb_ge _ _)) by done. destruct (Z.leb_spec (bitLen i) 64) as [Hb|Hb].
  - assert (0 <= i < 2 ^ 64) as Hu. { split; [done|]. unfold bitLen in Hb. destruct (Z.eqb_spec i 0) as [->|]; [done|]. apply Z.log2_lt_pow2; lia. }
    rewrite u64_small by done. unfold numBytes. rewrite <- rlpNumber_str by lia. apply writes_chunk. intros w us h. by apply encodeUint_repr.
  - replace (Z.shiftr (Z.land (bitLen i + 7) (-8)) 3) with (byteLen i).
    2: { rewrite Z.shiftr_land. change (Z.shiftr (-8) 3) with (-1). rewrite Z.land_m1_r, Z.shiftr_div_pow2 by lia. done. }
    rewrite Bits_numBytes by done. pose proof (byteLen_nonneg i).
    assert (len (numBytes i) = byteLen i) as Hlen by (unfold numBytes; rewrite len_be_split; lia).
    rewrite Z2Nat.id, <- Hlen by done. assert (1 < byteLen i) as H1.
    { unfold byteLen. apply Z.lt_le_trans with ((65 + 7) / 8); [done|]. apply Z.div_le_mono; lia. }
    assert (rlpStr (numBytes i) = rlpHead 128 (len (numBytes i)) ++ numBytes i) as ->; [|by apply writes_headed].
    unfold rlpStr. destruct (numBytes i) as [|x []]; try done. change (len [x]) with 1 in Hlen. lia.
Qed.

Lemma all2_length {A} (ps : list (A -> Prop)) l : all2 ps l -> length l = length ps.
Proof. revert l. induction ps as [|p ps IH]; intros [|x l]; cbn; try done. intros [_ Hl]. by rewrite (IH l). Qed.

Lemma all2_lookup {A} (ps : list (A -> Prop)) l i p x : all2 ps l -> ps !! i = Some p -> l !! i = Some x -> p x.
Proof.
  revert l i. induction ps as [|q ps IH]; intros [|y l] [|i]; cbn; try done; intros [Hq Hl].
  - by intros [= ->] [= ->].
  - by apply IH.
Qed.

Lemma lookup_map {A B} (f : A -> B) l i x : l !! i = Some x -> map f l !! i = Some (f x).
Proof. intros E. change (map f l) with (f <$> l). by rewrite list_lookup_fmap, E. Qed.

Lemma written_fields_le first l n : (written_fields first l n <= n)%nat.
Proof. induction n as [|n IH]; [done|]. cbn [written_fields]. case_match; lia. Qed.

Lemma len_take_concat (ls : list bytes) n i x : ls !! i = Some x -> (i < n)%nat -> len x <= len (concat (take n ls)).
Proof.
  revert n i. induction ls as [|y ls IH]; intros [|n] [|i] E Hi; try done; try lia; cbn [take concat]; rewrite len_app.
  - injection E as ->. len_facts. lia.
  - specialize (IH n i E ltac:(lia)). len_facts. lia.
Qed.

Lemma writes_elems elem l : (forall v, fits elem v -> len (rlp elem v) < 2 ^ 64 -> writes (write elem v) (rlp elem v)) ->
  Forall (fits elem) l -> len (concat (map (rlp elem) l)) < 2 ^ 64 -> writes (writeEach (write elem) l) (concat (map (rlp elem) l)).
Proof.
  intros IH Hf Hl. apply writes_each. intros x Hx. pose proof (len_concat_In (rlp elem) x l Hx). apply IH; [|lia].
  rewrite Stdlib.Lists.List.Forall_forall in Hf. by apply Hf.
Qed.

(** Every value that fits is written as its encoding. *)
Lemma write_spec t v : fits t v -> len (rlp t v) < 2 ^ 64 -> writes (write t v) (rlp t v).
Proof.
  revert v. induction t as [| |bits| | | |n|tail elem IH|n elem IH|fields IH|k elem IH] using ty_induction; intros v Hf Hl;
    destruct v as [i|i|b|s|b|b|l|l|l|p]; try done; cbn [write rlp fits] in *.
  - apply writes_append.
  - destruct i as [i|]; [|apply writes_append]. pose proof (len_le_rlpStr (numBytes i)). apply writes_bigInt; [done|lia].
  - apply writes_chunk. intros w us h. by apply encodeUint_repr.
  - destruct b; apply writes_append.
  - pose proof (len_le_rlpStr s). apply writes_string. lia.
  - pose proof (len_le_rlpStr (orNil b)). apply writes_encodeString. unfold orNil in *. lia.
  - pose proof (len_le_rlpStr b). apply writes_byteArray. lia.
  - fold (orNil l). destruct tail; [by apply writes_elems|]. pose proof (len_lt_rlpLst (concat (map (rlp elem) (orNil l)))).
    apply writes_list; [apply writes_elems; [done|done|lia]|lia].
  - destruct Hf as [_ Hf]. pose proof (len_lt_rlpLst (concat (map (rlp elem) l))). apply writes_list; [apply writes_elems; [done|done|lia]|lia].
  - fold (fieldsWritten fields l). set (n := fieldsWritten fields l) in *. set (encs := map (fun f => rlp f.1) fields) in *.
    pose proof (len_lt_rlpLst (concat (take n (zip_with (fun enc v => enc v) encs l)))) as Hlst. apply writes_list; [|lia].
    pose proof (all2_length _ _ Hf) as Hlen. rewrite length_map in Hlen.
    apply writes_fields; rewrite ?length_map; [apply written_fields_le|unfold encs; by rewrite length_map|done|].
    intros i wr enc v Hwr Henc Hv Hi. destruct (lookup_lt_is_Some_2 fields i) as [f Ef]; [apply lookup_lt_Some in Hv; lia|].
    unfold encs in Henc. rewrite (lookup_map _ _ _ _ Ef) in Hwr. rewrite (lookup_map _ _ _ _ Ef) in Henc. injection Hwr as <-. injection Henc as <-.
    rewrite Forall_lookup in IH. apply (IH i f Ef).
    + eapply (all2_lookup _ _ i); [exact Hf| |exact Hv]. by apply (lookup_map (fun f => fits f.1)).
    + eapply Z.le_lt_trans; [|exact Hl]. eapply Z.le_trans; [|apply Z.lt_le_incl, Hlst]. eapply (len_take_concat _ n i); [|done].
      rewrite lookup_zip_with. unfold encs. by rewrite (lookup_map _ _ _ _ Ef), Hv.
  - destruct p as [v|]; [by apply IH|]. unfold nilKindOf. destruct (match k with Some k => k | None => defaultNilKind elem end).
    all: try apply writes_append.
    all: exact (proj2 (writes_list (mret None) [] (ex_intro _ [] (conj adds_ret (conj eq_refl (Forall_nil_2 _)))) eq_refl)).
Qed.

Lemma Encode_spec pooled t v : len (encbuf.sizebuf pooled) = 9 -> fits t v -> len (rlp t v) < 2 ^ 64 ->
  Encode pooled t v = Ok (inr (rlp t v)) /\ EncodeToBytes pooled t v = Ok (inr (rlp t v)).
Proof.
  intros Hp Hf Hl. destruct (write_spec t v Hf Hl) as (ts & Ha & <- & Hok). destruct (Ha _ _ _ (repr_reset pooled Hp)) as (w & E & Hr).
  unfold Encode, EncodeToBytes. rewrite E. cbn [mbind outcome_bind]. by rewrite (toWriter_spec _ _ _ Hok Hr), (toBytes_spec _ _ Hok Hr).
Qed.

(** * Decoders *)

(** Types whose decoder tells the end of the enclosing list: all but tails. *)
Fixpoint endable (t : ty) : bool :=
  match t with TSlice true _ => false | TPtr None elem => endable elem | _ => true end.

(** Values that are read back: no nil where the decoder makes a value, zero
    values in the optional fields that are not written, and no array of one
    zero byte. *)
Fixpoint typed (t : ty) (v : value) : Prop :=
  match t, v with
  | TRaw, VBytes (Some b) => exists x, b = rlpStr x \/ b = rlpLst x
  | TBigInt, VBigInt (Some i) => 0 <= i
  | TUint bits, VUint i => In bits [8; 16; 32; 64] /\ 0 <= i < 2 ^ bits
  | TBool, VBool _ | TString, VString _ | TBytes, VBytes (Some _) => True
  | TByteArray n, VByteArray b => length b = n /\ b <> [Byte.x00]
  | TSlice false elem, VSlice (Some l) => endable elem = true /\ Forall (typed elem) l
  | TArray n elem, VArray l => length l = n /\ Forall (typed elem) l
  | TStruct fields, VStruct l =>
      let n := fieldsWritten fields l in
      all2 (take n (map (fun f => typed f.1) fields)) (take n l) /\ drop n l = map (fun f => zero f.1) (drop n fields) /\
      Forall (fun f => f.2 = true /\ endable f.1 = true) (drop n fields)
  | TPtr None elem, VPtr (Some v) => typed elem v
  | TPtr (Some k) elem, VPtr (Some v) => typed elem v /\ rlp elem v <> [Byte.x80] /\ rlp elem v <> [Byte.xc0]
  | TPtr (Some k) elem, VPtr None => k <> Byte
  | _, _ => False
  end.

(** ** The first step of a decoder is Kind *)
Definition peeks {A} (m : D A) : Prop := exists k : RlpError + (Kind * Z) -> D A, forall s, m s = (x ← Kind_; k x) s.

Lemma peeks_Kind {A} (k : Kind * Z -> D A) : peeks (let! ks := Kind_ in k ks).
Proof. by eexists. Qed.

Lemma peeks_Kind_ : peeks Kind_.
Proof. exists mret. intros s. unfold mbind, M_bind. by destruct (Kind_ s) as [[]| | |]. Qed.

Lemma peeks_bind {A B} (m : D A) (f : RlpError + A -> D B) : peeks m -> peeks (x ← m; f x).
Proof.
  intros [k Hk]. exists (fun x => y ← k x; f y). intros s. rewrite <- M_bind_assoc. unfold mbind at 1 2, M_bind. by rewrite Hk.
Qed.

Lemma peeks_D {A B} (m : D A) (f : A -> D B) : peeks m -> peeks (let! x := m in f x).
Proof. apply peeks_bind. Qed.

Lemma peeks_wrapped {A} (m : D A) : peeks m -> peeks (wrapped m).
Proof. apply peeks_bind. Qed.

Lemma peeks_uint bits : peeks (uint bits).
Proof. apply peeks_Kind. Qed.

#[local] Hint Resolve peeks_Kind_ peeks_Kind peeks_D peeks_wrapped peeks_uint : peeks.

Lemma peeks_makeDecoder t : endable t = true -> peeks (makeDecoder t).
Proof.
  induction t as [| |bits| | | |n|tail elem IH|n elem IH|fields IH|k elem IH] using ty_induction; intros He; cbn [makeDecoder endable] in *;
    try (unfold Raw, bigIntBytes, Bool, Bytes, decodeByteArray, decodeListArray, List_; by auto 10 with peeks).
  - destruct tail; [done|]. unfold decodeListSlice, List_. auto 10 with peeks.
  - destruct k as [k|]; [unfold decodeNilPtr|]; auto 10 with peeks.
Qed.

(** A decoder that starts with Kind does not care whether Kind was called. *)
Lemma runs_peeked {A} (m : D A) kd sz bv b fs c cs res Q : peeks m -> runs (at_ (c :: cs)) Kind_ (inr (kd, sz)) (ahead kd sz bv b fs) ->
  runs (at_ (c :: cs)) m res Q -> forall s, at_ (c :: cs) s -> exists s1, Kind_ s = Ok (inr (kd, sz), s1) /\ exists s2, m s1 = Ok (res, s2) /\ Q s2.
Proof.
  intros [k Hk] HK Hm s Hs. destruct (HK s Hs) as (s1 & E1 & H1). exists s1. split; [done|]. destruct (Hm s Hs) as (s2 & E2 & H2). exists s2.
  split; [|done]. rewrite Hk in *. rewrite (M_bind_Ok _ _ _ _ _ E1) in E2. by rewrite (M_bind_Ok _ _ _ _ _ (Kind_ahead _ _ _ _ _ _ H1)).
Qed.

Lemma typed_item t v : typed t v -> item (rlp t v).
Proof.
  revert v. induction t as [| |bits| | | |n|tail elem IH|n elem IH|fields IH|k elem IH] using ty_induction; intros v Ht;
    destruct v as [i|i|b|s|b|b|l|l|l|p]; try done; try (destruct tail; done); try (destruct k; done); cbn [typed rlp] in *;
    try (eexists; by left); try (eexists; by right).
  - by destruct b.
  - destruct Ht as [Hb Hi]. exists (numBytes i). left. apply rlpNumber_str. cbn in Hb. split; [lia|]. destruct Hb as [<-|[<-|[<-|[<-|[]]]]]; lia.
  - exists (numBytes (if b then 1 else 0)). left. apply rlpNumber_str. by destruct b.
  - destruct tail; [done|]. eexists. by right.
  - destruct p as [v|].
    + destruct k as [k|]; [destruct Ht as [Ht _]|]; by apply IH.
    + destruct k as [[]|]; try done; [exists []; by left|exists []; by right].
Qed.

Lemma typed_endable t v : typed t v -> endable t = true.
Proof.
  revert v. induction t as [| |bits| | | |n|tail elem IH|n elem IH|fields IH|k elem IH] using ty_induction; intros v Ht; try done.
  - by destruct tail, v.
  - destruct k as [k|]; [done|]. destruct v as [| | | | | | | | |[v|]]; try done. by apply (IH v).
Qed.

(** What Kind says of an item. *)
Lemma runs_Kind_item bs b fs : item bs -> bs <> [Byte.x80] -> bs <> [Byte.xc0] -> exists kd sz bv b',
  runs (at_ ((bs ++ b) :: fs)) Kind_ (inr (kd, sz)) (ahead kd sz bv b' fs) /\ (kd = Byte \/ sz <> 0).
Proof.
  intros (x & [->| ->]) H1 H2.
  - unfold rlpStr in *. destruct (single x) eqn:Hx.
    + destruct x as [|y []]; try done. cbn in Hx. apply Z.ltb_lt in Hx. exists Byte, 0, (byte.unsigned y), b. split; [by apply runs_Kind_Byte|by left].
    + exists String, (len x), 0, (x ++ b). rewrite <- app_assoc. split; [apply runs_Kind_String; rewrite len_app; len_facts; lia|].
      right. intros Hl. destruct x; [by apply H1|]. rewrite len_cons in Hl. len_facts. lia.
  - unfold rlpLst in *. exists List, (len x), 0, (x ++ b). rewrite <- app_assoc. split; [apply runs_Kind_List; rewrite len_app; len_facts; lia|].
    right. intros Hl. destruct x; [by apply H2|]. rewrite len_cons in Hl. len_facts. lia.
Qed.

(** ** Reading back *)
Lemma runs_wrapped {A} P (m : D A) a Q : runs P m (inr a) Q -> runs P (wrapped m) (inr a) Q.
Proof. intros Hm s Hs. destruct (Hm s Hs) as (s' & E & H'). exists s'. unfold wrapped. by rewrite (M_bind_Ok _ _ _ _ _ E). Qed.

Lemma runs_wrapped_EOL {A} P (m : D A) Q : runs P m (inl EOL) Q -> runs P (wrapped m) (inl EOL) Q.
Proof. intros Hm s Hs. destruct (Hm s Hs) as (s' & E & H'). exists s'. unfold wrapped. by rewrite (M_bind_Ok _ _ _ _ _ E). Qed.

(** At the end of a list. *)
Lemma runs_end t b fs : endable t = true -> runs (at_ ([] :: b :: fs)) (makeDecoder t) (inl EOL) (at_ ([] :: b :: fs)).
Proof.
  assert (forall (A : Type) (k : Kind * Z -> D A), runs (at_ ([] :: b :: fs)) (let! ks := Kind_ in k ks) (inl EOL) (at_ ([] :: b :: fs))) as HK.
  { intros A k. by eapply runs_EOL. }
  induction t as [| |bits| | | |n|tail elem IH|n elem IH|fields IH|k elem IH] using ty_induction; intros He; cbn [makeDecoder endable] in *.
  - apply runs_bind_err. apply HK.
  - apply runs_bind_err, runs_wrapped_EOL. apply HK.
  - apply runs_bind_err, runs_wrapped_EOL. apply HK.
  - apply runs_bind_err, runs_wrapped_EOL, runs_bind_err. apply HK.
  - apply runs_bind_err, runs_wrapped_EOL. apply HK.
  - apply runs_bind_err, runs_wrapped_EOL. apply HK.
  - apply runs_bind_err. apply HK.
  - destruct tail; [done|]. apply runs_bind_err, runs_bind_err, runs_wrapped_EOL. apply HK.
  - apply runs_bind_err, runs_bind_err, runs_wrapped_EOL. apply HK.
  - apply runs_bind_err, runs_wrapped_EOL. apply HK.
  - destruct k as [k|]; [|by apply runs_bind_err, IH]. apply runs_bind_err, runs_bind_err, runs_wrapped_EOL.
    intros s [Hv Ha]. destruct (Kind_view s _ _ Hv Ha) as (res & s' & E & -> & H). by exists s'.
Qed.

Section elems.
Context {A : Type} (elem : D A) (enc : A -> bytes).
Implicit Types (xs : list A).
Hypothesis reads : forall b fs, runs (at_ ([] :: b :: fs)) elem (inl EOL) (at_ ([] :: b :: fs)).

Lemma runs_decodeSliceElems xs fuel acc b fs : (length xs < fuel)%nat ->
  (forall x c fs, In x xs -> runs (at_ ((enc x ++ c) :: fs)) elem (inr x) (at_ (c :: fs))) ->
  runs (at_ (concat (map enc xs) :: b :: fs)) (decodeSliceElems elem fuel acc) (inr (acc ++ xs)) (at_ ([] :: b :: fs)).
Proof.
  revert xs acc. induction fuel as [|fuel IH]; intros [|x xs] acc Hf He; cbn in Hf; try lia; cbn [decodeSliceElems map concat].
  - eapply runs_mbind; [apply reads|]. rewrite app_nil_r. apply runs_ok.
  - eapply runs_mbind; [apply He, in_eq|]. cbv iota. replace (acc ++ x :: xs) with ((acc ++ [x]) ++ xs) by by rewrite <- app_assoc.
    apply IH; [lia|]. intros y c fs' Hy. by apply He, in_cons.
Qed.

Lemma runs_decodeListSlice xs b fs : (forall x, In x xs -> enc x <> []) ->
  (forall x c fs, In x xs -> runs (at_ ((enc x ++ c) :: fs)) elem (inr x) (at_ (c :: fs))) ->
  runs (at_ ((rlpLst (concat (map enc xs)) ++ b) :: fs)) (decodeListSlice elem) (inr xs) (at_ (b :: fs)).
Proof.
  intros Hne He. pose proof (concat_length enc xs Hne) as Hlen.
  eapply runs_bind; [apply runs_wrapped, runs_List|]. cbv beta. destruct (Z.eqb_spec (len (concat (map enc xs))) 0) as [Hz|Hz].
  - assert (xs = []) as ->. { destruct xs; [done|]. unfold len in Hz. cbn [length] in Hlen. lia. }
    eapply runs_bind; [apply runs_ListEnd|]. apply runs_ok.
  - apply runs_fuel. intros n Hn. cbn [concat] in Hn. rewrite length_app in Hn.
    eapply runs_bind; [apply (runs_decodeSliceElems xs _ []); [lia|done]|]. eapply runs_bind; [apply runs_ListEnd|]. apply runs_ok.
Qed.

Lemma runs_decodeArrayElems xs b fs : (forall x c fs, In x xs -> runs (at_ ((enc x ++ c) :: fs)) elem (inr x) (at_ (c :: fs))) ->
  runs (at_ ((concat (map enc xs) ++ b) :: fs)) (decodeArrayElems elem (length xs)) (inr xs) (at_ (b :: fs)).
Proof.
  induction xs as [|x xs IH]; intros He; cbn [length decodeArrayElems map concat]; [apply runs_ok|]. rewrite <- app_assoc.
  eapply runs_mbind; [apply He, in_eq|]. cbv iota. eapply runs_bind; [apply IH; intros; by apply He, in_cons|]. apply runs_ok.
Qed.
End elems.

Lemma runs_ByteArray b c fs : b <> [Byte.x00] -> runs (at_ ((rlpStr b ++ c) :: fs)) (decodeByteArray (length b)) (inr b) (at_ (c :: fs)).
Proof.
  intros Hb. unfold decodeByteArray, rlpStr. destruct (single b) eqn:Hs.
  - destruct b as [|x []]; try done. cbn in Hs. apply Z.ltb_lt in Hs. eapply runs_bind; [by apply (runs_Kind_Byte x)|]. cbv beta iota.
    change (Z.of_nat (length [x]) =? 0) with false. change (1 <? Z.of_nat (length [x])) with false. cbv iota.
    intros s Ha. assert (byte.unsigned x <> 0) as Hx.
    { intros H0. apply Hb. f_equal. apply byte.unsigned_inj. by rewrite H0. }
    assert (Uint s = Ok (inr (byte.unsigned x), mk_Stream (r s) (remaining s) (limited s) None (size s) (byteval s) (kinderr s) (stack s))) as E.
    { unfold Uint, uint, D_bind. rewrite (M_bind_Ok _ _ _ _ _ (Kind_ahead _ _ _ _ _ _ Ha)). cbv iota beta. mstep.
      assert (byteval s = byte.unsigned x) as Hbv by apply Ha. rewrite <- Hbv in Hx |- *. by rewrite (proj2 (Z.eqb_neq _ _)) by done. }
    rewrite (M_bind_Ok _ _ _ _ _ E). eexists. split; [by rewrite byte.of_Z_unsigned|]. by eapply at_rearm.
  - rewrite <- app_assoc. eapply runs_bind; [apply runs_Kind_String; rewrite len_app; len_facts; lia|]. cbv beta iota.
    fold (len b). rewrite Z.ltb_irrefl. eapply runs_bind; [apply runs_readFull|]. cbv beta.
    assert ((len b =? 1) && match b with x :: _ => byte.unsigned x <? 128 | [] => false end = false) as ->; [|apply runs_ok].
    destruct b as [|x [|y b]]; [done|by cbn in Hs |]. rewrite !len_cons. len_facts. by rewrite (proj2 (Z.eqb_neq _ _)) by lia.
Qed.

(** Fields up to [length l], then the zero values of optional ones. *)
Lemma runs_decodeFields fields l b fs :
  Forall2 (fun f v => forall c fs, runs (at_ ((rlp f.1 v ++ c) :: fs)) (makeDecoder f.1) (inr v) (at_ (c :: fs))) (take (length l) fields) l ->
  Forall (fun f => f.2 = true /\ endable f.1 = true) (drop (length l) fields) ->
  runs (at_ (concat (zip_with (fun enc v => enc v) (map (fun f => rlp f.1) fields) l) :: b :: fs))
    (decodeFields (map (fun f => (makeDecoder f.1, zero f.1, f.2)) fields)) (inr (l ++ map (fun f => zero f.1) (drop (length l) fields)))
    (at_ ([] :: b :: fs)).
Proof.
  revert l. induction fields as [|f fields IH]; intros [|v l] Hf Hd; cbn [take drop length map zip_with concat decodeFields] in *;
    try by inversion Hf.
  - apply runs_ok.
  - apply Forall_cons_iff in Hd as [[Ho He] Hd]. eapply runs_mbind; [by apply runs_end|]. cbv iota. rewrite bool_decide_true by done.
    rewrite Ho. cbn [app map fst snd]. rewrite map_map. apply runs_ok.
  - inversion Hf as [|? ? ? ? Hv Hf']. eapply runs_mbind; [apply Hv|]. cbv iota.
    eapply runs_bind; [by apply IH|]. apply runs_ok.
Qed.

Lemma all2_Forall2 {A B} (P : A -> B -> Prop) (fs : list A) (l : list B) n : all2 (take n (map P fs)) (take n l) -> Forall2 P (take n fs) (take n l).
Proof.
  revert l n. induction fs as [|f fs IH]; intros l n; (destruct n as [|n]; [by constructor|]); destruct l as [|x l]; cbn; try done.
  intros [Hx Hl]. constructor; [done|by apply IH].
Qed.

Lemma take_zip {A B C} (f : A -> B -> C) n l k : take n (zip_with f l k) = zip_with f l (take n k).
Proof. revert l k. induction n as [|n IH]; intros [|x l] [|y k]; cbn; try done. by rewrite IH. Qed.

Lemma Forall_Forall2_impl {A B} (P : A -> Prop) (Q R : A -> B -> Prop) l k :
  Forall P l -> Forall2 Q l k -> (forall x y, P x -> Q x y -> R x y) -> Forall2 R l k.
Proof. intros Hl Hk Hr. induction Hk as [|x y l k Hq Hk IH]; constructor; inversion Hl; auto. Qed.

Lemma Forall_In {A} (P : A -> Prop) l x : Forall P l -> In x l -> P x.
Proof. rewrite Stdlib.Lists.List.Forall_forall. auto. Qed.

Lemma runs_NilPtr {A} k (elem : D A) v bs b fs : peeks elem -> item bs -> bs <> [Byte.x80] -> bs <> [Byte.xc0] ->
  runs (at_ ((bs ++ b) :: fs)) elem (inr v) (at_ (b :: fs)) -> runs (at_ ((bs ++ b) :: fs)) (decodeNilPtr k elem) (inr (Some v)) (at_ (b :: fs)).
Proof.
  intros Hp Hi H1 H2 He s Hs. destruct (runs_Kind_item bs b fs Hi H1 H2) as (kd & sz & bv & b' & HK & Hz).
  destruct (runs_peeked _ _ _ _ _ _ _ _ _ _ Hp HK He s Hs) as (s1 & E1 & s2 & E2 & H3). exists s2. split; [|done]. unfold decodeNilPtr.
  assert (wrapped Kind_ s = Ok (inr (kd, sz), s1)) as Ew by (unfold wrapped; by rewrite (M_bind_Ok _ _ _ _ _ E1)).
  unfold D_bind. rewrite (M_bind_Ok _ _ _ _ _ Ew). cbn [fst snd].
  assert (negb (bool_decide (kd = Byte)) && (sz =? 0) = false) as ->.
  { destruct Hz as [->|Hz]; [by rewrite bool_decide_true|]. rewrite (proj2 (Z.eqb_neq _ _)) by done. apply andb_false_r. }
  by rewrite (M_bind_Ok _ _ _ _ _ E2).
Qed.

Lemma runs_NilPtr_nil {A} k (elem : D A) b fs : k <> Byte ->
  runs (at_ ((match k with String => [Byte.x80] | _ => rlpLst [] end ++ b) :: fs)) (decodeNilPtr k elem) (inr None) (at_ (b :: fs)).
Proof.
  intros Hk. unfold decodeNilPtr. eapply (runs_bind _ (ahead k 0 0 b fs) _ _ _ (k, 0)).
  - apply runs_wrapped. destruct k; [done|apply (runs_Kind_String 0); len_facts; lia|apply (runs_Kind_List 0); len_facts; lia].
  - cbn [fst snd]. rewrite (bool_decide_false (k = Byte)), (bool_decide_true (k = k)) by done. cbn [negb andb Z.eqb].
    intros s Hs. mstep. eexists. split; [done|]. by eapply at_rearm.
Qed.

(** The decoder of a type reads back the encoding of its values. *)
Lemma runs_makeDecoder t v b fs : typed t v -> runs (at_ ((rlp t v ++ b) :: fs)) (makeDecoder t) (inr v) (at_ (b :: fs)).
Proof.
  revert v b fs. induction t as [| |bits| | | |n|tail elem IH|n elem IH|fields IH|k elem IH] using ty_induction; intros v b fs Ht;
    destruct v as [i|i|x|s|x|x|l|l|l|p]; try done; try (destruct tail; done); try (destruct k; done); cbn [typed rlp makeDecoder] in *.
  - destruct x as [x|]; [|done]. cbn [orNil]. eapply runs_bind; [|apply runs_ok]. destruct Ht as (y & [->| ->]); [apply runs_Raw_Str|apply runs_Raw_Lst].
  - destruct i as [i|]; [|done]. eapply runs_bind; [apply runs_wrapped, runs_bigIntBytes|].
    + destruct (numBytes i) eqn:E; [done|]. by eapply (be_split_leading i).
    + cbv beta. unfold numBytes. rewrite be_combine_byteLen by done. apply runs_ok.
  - destruct Ht as [Hb Hi]. eapply runs_bind; [|apply runs_ok]. cbn in Hb.
    apply runs_wrapped, runs_uint; destruct Hb as [<-|[<-|[<-|[<-|[]]]]]; try lia; (apply byteLen_le; [exact Hi|done]).
  - eapply runs_bind; [apply runs_wrapped, runs_Bool|apply runs_ok].
  - eapply runs_bind; [apply runs_wrapped, runs_Bytes|apply runs_ok].
  - destruct x as [x|]; [|done]. eapply runs_bind; [apply runs_wrapped, runs_Bytes|apply runs_ok].
  - destruct Ht as [<- Hx]. eapply runs_bind; [by apply runs_ByteArray|apply runs_ok].
  - destruct tail; [done|]. destruct l as [l|]; [|done]. destruct Ht as [He Hl]. cbn [orNil]. eapply runs_bind; [|apply runs_ok].
    apply runs_decodeListSlice; [intros; by apply runs_end|..].
    + intros x Hx. by apply item_nonempty, typed_item, (Forall_In _ l).
    + intros x c fs' Hx. by apply IH, (Forall_In _ l).
  - destruct Ht as [<- Hl]. eapply runs_bind; [|apply runs_ok]. eapply runs_bind; [apply runs_wrapped, runs_List|].
    rewrite <- (app_nil_r (concat _)). eapply runs_bind; [apply runs_decodeArrayElems; intros x c fs' Hx; by apply IH, (Forall_In _ l)|].
    eapply runs_bind; [apply runs_wrapped, runs_ListEnd|]. apply runs_ok.
  - destruct Ht as (H1 & H2 & H3). set (n := fieldsWritten fields l) in *. eapply runs_bind; [apply runs_wrapped, runs_List|].
    assert (length (take n l) = n) as Hn.
    { rewrite (all2_length _ _ H1), length_take, length_map. pose proof (written_fields_le (firstOptionalField fields) l (length fields)) as Hle.
      fold (fieldsWritten fields l) in Hle. lia. }
    eapply runs_bind; [|eapply runs_bind; [apply runs_wrapped, runs_ListEnd|apply runs_ok]].
    pose proof (runs_decodeFields fields (take n l) b fs) as Hr. rewrite Hn, <- H2, take_drop in Hr.
    rewrite <- take_zip in Hr. apply Hr; [|done].
    apply (all2_Forall2 (fun f v => typed f.1 v)) in H1. apply (Forall_take _ n) in IH. eapply Forall_Forall2_impl; [exact IH|exact H1|]. auto.
  - destruct k as [k|], p as [v|]; try done.
    + destruct Ht as (Ht & Hx & Hy). eapply runs_bind; [|apply runs_ok]. apply runs_NilPtr; try done; [|by apply typed_item|by apply IH].
      by apply peeks_makeDecoder, (typed_endable _ v).
    + eapply runs_bind; [|apply runs_ok]. by apply runs_NilPtr_nil.
    + eapply runs_bind; [by apply IH|]. apply runs_ok.
Qed.
