(* ===== verification/RlpTheorems.v ===== *)
(** Theorems about package rlp as a whole: Encode and Decode by reflection are
    inverse to each other, decoding terminates on every input for the types
    that allow it, and the one type that does not. *)
From S2P Require Import Prelude Uint256 StateTypes Accounts AccountSpec Rlp RlpStream RlpSpec StreamSpec StreamSafe RlpReflect RlpReflectSpec.
#[local] Open Scope Z_scope.

(** * Values that are read back can be written *)
Lemma fits_zero t : fits t (zero t).
Proof.
  induction t as [| |bits| | | |n|tail elem IH|n elem IH|fields IH|k elem IH] using ty_induction; cbn [fits zero orNil]; try done.
  - by rewrite length_replicate.
  - split; [by rewrite length_replicate|]. by apply Forall_replicate.
  - induction IH as [|f fields Hf IH IHf]; cbn; [done|]. by split.
Qed.

Lemma all2_split {A B} (P : A -> B -> Prop) (z : A -> B) fs l n :
  Forall2 P (take n fs) (take n l) -> drop n l = map z (drop n fs) -> (forall a, P a (z a)) -> all2 (map P fs) l.
Proof.
  intros H1 H2 Hz. rewrite <- (take_drop n fs), <- (take_drop n l), H2, map_app. generalize dependent (take n fs). intros f1 H1.
  induction H1 as [|x y f1 l1 Hx H1 IH]; cbn [map app all2]; [|by split].
  clear H2. induction (drop n fs) as [|a f2 IH]; cbn; [done|]. by split.
Qed.

Lemma typed_fits t v : typed t v -> fits t v.
Proof.
  revert v. induction t as [| |bits| | | |n|tail elem IH|n elem IH|fields IH|k elem IH] using ty_induction; intros v Ht;
    destruct v as [i|i|x|s|x|x|l|l|l|p]; try done; try (destruct tail; done); try (destruct k; done); cbn [typed fits] in *.
  - by destruct i.
  - destruct Ht as [Hb Hi]. unfold is_u64. cbn in Hb. destruct Hb as [<-|[<-|[<-|[<-|[]]]]]; lia.
  - by destruct Ht.
  - destruct tail; [done|]. destruct l as [l|]; [|done]. destruct Ht as [_ Hl]. cbn [orNil]. eapply Forall_impl; [exact IH|exact Hl].
  - destruct Ht as [Hn Hl]. split; [done|]. eapply Forall_impl; [exact IH|exact Hl].
  - destruct Ht as (H1 & H2 & _). apply (all2_Forall2 (fun f v => typed f.1 v)) in H1.
    apply (all2_split (fun f v => fits f.1 v) (fun f => zero f.1) fields l (fieldsWritten fields l)); [|done|intros; apply fits_zero].
    eapply Forall_Forall2_impl; [apply Forall_take, IH|exact H1|]. auto.
  - destruct k as [k|], p as [v|]; try done; [destruct Ht as [Ht _]|]; by apply IH.
Qed.

(** C9: a value of a type is encoded to the reference encoding by Encode and
    EncodeToBytes, whatever buffer the pool hands out, and the decoder of the
    type reads it back, whatever the stream was used for before. *)
Theorem rlp_roundtrip t v buf pooled : typed t v -> len (rlp t v) < 2 ^ 47 -> len (encbuf.sizebuf buf) = 9 ->
  Encode buf t v = Ok (inr (rlp t v)) /\ EncodeToBytes buf t v = Ok (inr (rlp t v)) /\
  DecodeBytes pooled (makeDecoder t) (rlp t v) = Ok (inr v).
Proof.
  intros Ht Hl Hb. destruct (Encode_spec buf t v Hb (typed_fits t v Ht)) as [-> ->]; [lia|]. split_and!; [done..|].
  apply DecodeBytes_runs; [done|]. rewrite <- (app_nil_r (rlp t v)). by apply runs_makeDecoder.
Qed.

(** * Termination *)

(** Types whose decoder uses up some input whenever it succeeds. *)
Fixpoint advances (t : ty) : bool :=
  match t with
  | TByteArray 1 | TSlice true _ => false
  | TPtr None elem | TPtr (Some _) elem => advances elem
  | _ => true
  end.

(** Types whose decoder terminates: the elements of slices advance. *)
Fixpoint terminates (t : ty) : bool :=
  match t with
  | TSlice _ elem => advances elem && terminates elem
  | TArray _ elem | TPtr _ elem => terminates elem
  | TStruct fields => forallb (fun f => terminates f.1) fields
  | TUint bits => bits <=? 64
  | _ => true
  end.

Lemma safe_wrapped {A} d (m : D A) : safe d m -> safe d (wrapped m).
Proof.
  intros Hm s Hs. destruct (Hm s Hs) as (res & s' & E & H). exists (match res with inl e => inl (wrapStreamError e) | inr a => inr a end), s'.
  unfold wrapped. rewrite (M_bind_Ok _ _ _ _ _ E). split; [done|]. by destruct res.
Qed.

#[local] Hint Resolve safe_wrapped safe_uint : stream.

Lemma safe_decodeSliceElems {A} (elem : D A) : safe 1 elem -> forall n acc, safe_upto n 0 (decodeSliceElems elem n acc).
Proof.
  intros He n. induction n as [|n IH]; intros acc.
  - intros s _ Hn. pose proof (measure_nonneg s). lia.
  - apply safe_upto_turn; [done| |intros x; apply IH]. intros e. case_match; auto with stream.
Qed.

Lemma safe_decodeArrayElems {A} (elem : D A) n : safe 0 elem -> safe 0 (decodeArrayElems elem n).
Proof.
  intros He. induction n as [|n IH]; cbn [decodeArrayElems]; [auto with stream|].
  apply (safe_mbind 0); [done|intros; auto with stream|]. intros x. safe_steps.
Qed.

Lemma safe_decodeFields fields : Forall (fun f : D value * value * bool => safe 0 f.1.1) fields -> safe 0 (decodeFields fields).
Proof.
  induction 1 as [|[[dec z] o] fields Hf Hfs IH]; cbn [decodeFields]; [auto with stream|].
  apply (safe_mbind 0); [done| |intros x; safe_steps]. intros e. repeat case_match; auto with stream.
Qed.

Lemma safe_decodeByteArray n : safe (if (n =? 1)%nat then 0 else 1) (decodeByteArray n).
Proof.
  set (d := if (n =? 1)%nat then 0 else 1). assert (0 <= d <= 1 /\ (n = 1%nat -> d = 0)) as [Hd Hd1].
  { subst d. destruct (Nat.eqb_spec n 1); split; [lia|done|lia|done]. }
  clearbody d.
  apply safe_Kind_bind. intros k sz s bv b fs Ha Hb. pose proof (ahead_inv _ _ _ _ _ _ Ha Hb) as Hi. destruct k.
  - destruct (Z.eqb_spec (Z.of_nat n) 0); [exists (inl (decodeError inputTooLong)), s; by split_and!|].
    destruct (Z.ltb_spec 1 (Z.of_nat n)); [exists (inl (decodeError inputTooShort)), s; by split_and!|].
    assert (n = 1%nat) as -> by lia. rewrite Hd1 by done.
    assert (safe 0 (bv ← Uint; ok [byte.of_Z (match bv with inr bv => bv | inl _ => 0 end)])) as Hu.
    { apply (safe_mbind 0); [auto with stream|intros; auto with stream..]. }
    by apply Hu.
  - destruct (Z.of_nat n <? sz) eqn:E1; [exists (inl (decodeError inputTooLong)), s; by split_and!|].
    destruct (sz <? Z.of_nat n) eqn:E2; [exists (inl (decodeError inputTooShort)), s; by split_and!|].
    assert (sz = Z.of_nat n) as -> by (apply Z.ltb_ge in E1, E2; lia).
    destruct (readFull_ahead _ _ _ _ _ _ Ha) as (x & b' & s' & -> & Hx & E & H'). unfold D_bind. rewrite (M_bind_Ok _ _ _ _ _ E). cbv iota beta.
    pose proof (settle (inr x) _ _ _ _ _ _ _ _ Ha H') as (I & M & S). case_match; (do 2 eexists; split; [done|]; split_and!; done || lia).
  - exists (inl (wrapStreamError ErrExpectedString)), s. by split_and!.
Qed.

Lemma safe_decodeNilPtr {A} k (elem : D A) d : 0 <= d <= 1 -> safe d elem -> safe d (decodeNilPtr k elem).
Proof.
  intros Hd He. set (body := fun ks : Kind * Z => if negb (bool_decide (ks.1 = Byte)) && (ks.2 =? 0) then
    if negb (bool_decide (ks.1 = k)) then fail (decodeError wrongEmptyKind) else _ ← rearm; ok None else let! v := elem in ok (Some v)).
  assert (safe d (let! ks := Kind_ in body ks)) as Hk.
  { apply safe_Kind_bind. intros kd sz. unfold body. case_match; [|apply safe_from_safe, (safe_bind d 0); [done|auto with stream|lia]].
    case_match; [apply safe_from_fail|]. intros s0 bv b fs Ha Hb. do 2 eexists. split; [mstep; done|].
    pose proof (settle_at (inr (None : option A)) _ _ _ _ _ _ _ Ha (at_rearm _ _ _ _ _ _ Ha)) as (I & M & S). split_and!; [done|done|cbn in *; lia]. }
  intros s Hs. destruct (Hk s Hs) as (res & s' & E & HI). destruct (safe_Kind s Hs) as (r1 & s1 & E1 & I1 & M1 & S1).
  unfold decodeNilPtr. fold body. unfold D_bind in *. rewrite (M_bind_Ok _ _ _ _ _ E1) in E.
  assert (wrapped Kind_ s = Ok (match r1 with inl e => inl (wrapStreamError e) | inr a => inr a end, s1)) as Ew
    by (unfold wrapped; by rewrite (M_bind_Ok _ _ _ _ _ E1)).
  rewrite (M_bind_Ok _ _ _ _ _ Ew). destruct r1 as [e|ks]; [by exists (inl (wrapStreamError e)), s1|by exists res, s'].
Qed.

(** The decoder of a type that terminates returns on every input. *)
Lemma safe_makeDecoder t : terminates t = true -> safe (if advances t then 1 else 0) (makeDecoder t).
Proof.
  induction t as [| |bits| | | |n|tail elem IH|n elem IH|fields IH|k elem IH] using ty_induction; intros Ht; cbn [terminates makeDecoder] in *.
  - cbn [advances]. safe_steps.
  - cbn [advances]. safe_steps.
  - cbn [advances]. apply Z.leb_le in Ht. apply safe_seq1; [by apply safe_wrapped, safe_uint|]. intros. auto with stream.
  - cbn [advances]. safe_steps.
  - cbn [advances]. safe_steps.
  - cbn [advances]. safe_steps.
  - replace (if advances (TByteArray n) then 1 else 0) with (if (n =? 1)%nat then 0 else 1) by (by destruct n as [|[|n]]).
    pose proof (safe_decodeByteArray n) as Hb. eapply (safe_bind _ 0); [exact Hb|intros; auto with stream|]. case_match; lia.
  - apply andb_prop in Ht as [Ha Ht]. specialize (IH Ht). rewrite Ha in IH. destruct tail; cbn [advances].
    + apply safe_fuel. intros n. apply safe_upto_bind; [by apply safe_decodeSliceElems|]. intros l. apply safe_upto_safe. auto with stream.
    + apply safe_seq1; [|intros; auto with stream]. unfold decodeListSlice. apply safe_seq1; [auto with stream|]. intros sz.
      case_match; [safe_steps|]. apply safe_fuel. intros n. apply safe_upto_bind; [by apply safe_decodeSliceElems|].
      intros l. apply safe_upto_safe. safe_steps.
  - specialize (IH Ht). cbn [advances]. apply safe_seq1; [|intros; auto with stream]. unfold decodeListArray. apply safe_seq1; [auto with stream|].
    intros sz. apply safe_seq; [|intros; safe_steps]. apply safe_decodeArrayElems. destruct (advances elem); [by apply safe_0|done].
  - cbn [advances]. apply safe_seq1; [auto with stream|]. intros sz. apply safe_seq; [|intros; safe_steps]. apply safe_decodeFields.
    rewrite Forall_map. cbn [fst]. rewrite forallb_forall in Ht. apply Stdlib.Lists.List.Forall_forall. intros f Hf.
    rewrite Stdlib.Lists.List.Forall_forall in IH. specialize (IH f Hf (Ht f Hf)). destruct (advances f.1); [by apply safe_0|done].
  - specialize (IH Ht). assert (advances (TPtr k elem) = advances elem) as -> by by destruct k.
    assert (0 <= (if advances elem then 1 else 0) <= 1) by (case_match; lia).
    destruct k as [k|]; (eapply (safe_bind _ 0); [|intros; auto with stream|]); [by apply safe_decodeNilPtr|lia|exact IH|lia].
Qed.

(** Decoding by reflection returns on every input, with a value or with an
    error, for every type in which no slice has elements that can be decoded
    without using up input. *)
Theorem rlp_decode_total t data pooled : terminates t = true -> len data < 2 ^ 47 ->
  exists res, DecodeBytes pooled (makeDecoder t) data = Ok res.
Proof. intros Ht Hl. by eapply DecodeBytes_safe, safe_makeDecoder. Qed.

(** A zero byte ahead is not taken by the decoder of [1]byte. *)
Lemma decodeByteArray_stuck b fs s : ahead Byte 0 0 b fs s -> decodeByteArray 1 s = Ok (inr [Byte.x00], s).
Proof.
  intros Ha. unfold decodeByteArray, D_bind. rewrite (M_bind_Ok _ _ _ _ _ (Kind_ahead _ _ _ _ _ _ Ha)). cbv iota beta zeta.
  change (Z.of_nat 1 =? 0) with false. change (1 <? Z.of_nat 1) with false. cbv iota.
  assert (Uint s = Ok (inl ErrCanonInt, s)) as E; [|by rewrite (M_bind_Ok _ _ _ _ _ E)].
  unfold Uint, uint, D_bind. rewrite (M_bind_Ok _ _ _ _ _ (Kind_ahead _ _ _ _ _ _ Ha)). cbv iota beta. mstep.
  by assert (byteval s = 0) as -> by apply Ha.
Qed.

(** A slice of [1]byte whose input holds a zero byte is never decoded: the
    byte is read again and again, however many turns the loop is given. *)
Theorem byte_array_slice_diverges fuel xs b fs s : at_ ((Byte.x00 :: b) :: fs) s ->
  decodeSliceElems (makeDecoder (TByteArray 1)) fuel xs s = OutOfFuel.
Proof.
  destruct fuel as [|fuel]; [done|]. intros Hs. destruct (runs_Kind_Byte Byte.x00 b fs eq_refl s Hs) as (s1 & E1 & H1).
  assert (makeDecoder (TByteArray 1) s = Ok (inr (VByteArray [Byte.x00]), s1)) as E.
  { cbn [makeDecoder]. pose proof (decodeByteArray_stuck _ _ _ H1) as E. unfold decodeByteArray in *. unfold D_bind in *.
    rewrite (M_bind_Ok _ _ _ _ _ (Kind_ahead _ _ _ _ _ _ H1)) in E. rewrite M_bind_assoc, (M_bind_Ok _ _ _ _ _ E1).
    rewrite (M_bind_Ok _ _ _ _ _ E). done. }
  cbn [decodeSliceElems]. rewrite (M_bind_Ok _ _ _ _ _ E). cbv iota. clear E E1 Hs. generalize (xs ++ [VByteArray [Byte.x00]]). clear xs.
  induction fuel as [|fuel IH]; intros xs; [done|]. cbn [decodeSliceElems].
  assert (makeDecoder (TByteArray 1) s1 = Ok (inr (VByteArray [Byte.x00]), s1)) as E.
  { cbn [makeDecoder]. unfold D_bind. by rewrite (M_bind_Ok _ _ _ _ _ (decodeByteArray_stuck _ _ _ H1)). }
  rewrite (M_bind_Ok _ _ _ _ _ E). apply IH.
Qed.

(** * Examples *)

(** [struct { A uint64; B []byte; C [][2]byte; D *big.Int; E *T `rlp:"nil"`; F []uint32 `rlp:"optional"` }]. *)
Definition demoType : ty :=
  TStruct [(TUint 64, false); (TBytes, false); (TSlice false (TByteArray 2), false); (TBigInt, false);
           (TPtr (Some List) (TStruct [(TBool, false)]), false); (TSlice false (TUint 32), true)].

Definition demoValue : value :=
  VStruct [VUint 1024; VBytes (Some [Byte.x61; Byte.x62]); VSlice (Some [VByteArray [Byte.x00; Byte.x01]; VByteArray [Byte.xff; Byte.x02]]);
           VBigInt (Some (2 ^ 100)); VPtr None; VSlice None].

Lemma rlp_roundtrip_witness :
  Encode encbuf.new demoType demoValue = Ok (inr (rlp demoType demoValue)) /\
  EncodeToBytes encbuf.new demoType demoValue = Ok (inr (rlp demoType demoValue)) /\
  DecodeBytes zeroStream (makeDecoder demoType) (rlp demoType demoValue) = Ok (inr demoValue).
Proof.
  apply (rlp_roundtrip demoType demoValue encbuf.new zeroStream); [|by vm_compute|done]. cbn. unfold fieldsWritten. cbn.
  split_and!; try done; try tauto; repeat constructor; done.
Defined.

Lemma rlp_decode_total_witness : exists res, DecodeBytes zeroStream (makeDecoder demoType) [Byte.xc1; Byte.xff] = Ok res.
Proof. by apply (rlp_decode_total demoType [Byte.xc1; Byte.xff] zeroStream). Defined.

Lemma byte_array_slice_diverges_witness :
  decodeSliceElems (makeDecoder (TByteArray 1)) 1000 [] (NewStream true [Byte.x00] 1) = OutOfFuel /\
  DecodeBytes zeroStream (makeDecoder (TSlice false (TByteArray 1))) [Byte.xc1; Byte.x00] = OutOfFuel.
Proof.
  split; [|by vm_compute]. apply (byte_array_slice_diverges 1000 [] [] [] (NewStream true [Byte.x00] 1)). apply at_Reset; [done|by left].
Defined.
