(* ===== verification/TxCodec.v ===== *)
(** The encodings of transactions: EncodingSize, EncodeRLP, MarshalBinary and
    DecodeRLP of the four types (core/types/legacy_tx.go, access_list_tx.go,
    dynamic_fee_tx.go, deposit_tx.go) and the dispatch on the type
    (core/types/transaction.go).

    A transaction on the wire is one of [Transaction] with what execution does
    not need: the chain id, the signature, and the source hash of a deposit.
    The pointers of a transaction other than To are never nil, as in every
    transaction that was decoded. *)
From S2P Require Import Prelude Uint256 StateTypes Accounts Transaction Rlp RlpStream.
#[local] Open Scope Z_scope.

(** The methods of uint256.Int that deal with encodings. *)
Class Uint256Codec (U : Uint256) := {
  u256_EncodeRLP : u256 -> list Byte.byte;
  u256_Bytes : u256 -> list Byte.byte
}.

(** EncoderBuffer of go-ethereum's package rlp, with which deposits are
    encoded. *)
Class EncoderBuffer := {
  encoderBuffer : Type;
  NewEncoderBuffer : encoderBuffer;
  WriteUint64 : Z -> encoderBuffer -> encoderBuffer;
  WriteBool : bool -> encoderBuffer -> encoderBuffer;
  WriteBytes : list Byte.byte -> encoderBuffer -> encoderBuffer;
  eb_List : encoderBuffer -> Z * encoderBuffer;
  eb_ListEnd : Z -> encoderBuffer -> encoderBuffer;
  ToBytes : encoderBuffer -> list Byte.byte
}.

Definition addrBytes (a : address) : list Byte.byte := be_split 20 (Z.of_N a).

(** Hash.SetBytes on a new hash: crops from the left. *)
Definition hashSetBytes (b : list Byte.byte) : hash := bytes_to_N (drop (length b - 32) b).

Definition LegacyTxType : Z := 0.
Definition AccessListTxType : Z := 1.
Definition DynamicFeeTxType : Z := 2.
Definition DepositTxType : Z := 0x7e.

(** EncodeStructSizePrefix of access_list_tx.go. *)
Definition EncodeStructSizePrefix (size : Z) : M writer unit :=
  if 56 <=? size then
    let beSize := byteLen size in
    _ ← onBuf (PutUint64 1 size);
    _ ← onBuf (put (8 - beSize) (beSize + 247));
    WriteBuf (8 - beSize) 9
  else _ ← onBuf (put 0 (size + 192)); WriteBuf 0 1.

(** The size of the encoding of a byte slice. *)
Definition dataSize (data : list Byte.byte) : Z :=
  1 + match data with
      | [] => 0
      | [b] => if 128 <=? byte.unsigned b then 1 else 0
      | _ => (if 56 <=? len data then byteLen (len data) else 0) + len data
      end.

(** A list header is one byte, and the bytes of the size when it is 56 or more. *)
Definition prefixed (size : Z) : Z := 1 + (if 56 <=? size then byteLen size else 0) + size.

(** ** Access lists *)
Definition tupleSize (keys : list hash) : Z :=
  let tupleLen := 21 in
  let tupleLen := tupleLen + 1 in
  let storageLen := 33 * len keys in
  let tupleLen := if 56 <=? storageLen then tupleLen + byteLen storageLen else tupleLen in
  tupleLen + storageLen.

Fixpoint accessListSize (al : AccessTuples) : Z :=
  match al with
  | [] => 0
  | (_, keys) :: al => prefixed (tupleSize keys) + accessListSize al
  end.

Definition encodeTuple (tuple : address * list hash) : M writer unit :=
  let '(a, keys) := tuple in
  _ ← EncodeStructSizePrefix (tupleSize keys);
  _ ← onBuf (put 0 (128 + 20)); _ ← WriteBuf 0 1;
  _ ← Write (addrBytes a);
  _ ← EncodeStructSizePrefix (33 * len keys);
  _ ← onBuf (put 0 (128 + 32));
  mfor (fun key => _ ← WriteBuf 0 1; Write (hashBytes key)) keys.

Definition encodeAccessList (al : AccessTuples) : M writer unit := mfor encodeTuple al.

Fixpoint decodeKeys (fuel : nat) (keys : list hash) : D (list hash) :=
  match fuel with
  | O => out_of_fuel
  | S fuel =>
      b ← Bytes;
      match b with
      | inr b => if negb (len b =? 32) then fail (wrongSize (len b)) else decodeKeys fuel (keys ++ [bytes_to_N b])
      | inl err => if errors_Is err EOL then ok keys else fail (Wrapf err)
      end
  end.

Definition decodeTuple : D (address * list hash) :=
  let! b := wrapf Bytes in
  if negb (len b =? 20) then fail (wrongSize (len b))
  else
    let! _ := wrapf List_ in
    fuel ← loopFuel;
    let! keys := decodeKeys fuel [] in
    let! _ := wrapf ListEnd in
    let! _ := wrapf ListEnd in
    ok (bytes_to_N b, keys).

Fixpoint decodeTuples (fuel : nat) (al : AccessTuples) : D AccessTuples :=
  match fuel with
  | O => out_of_fuel
  | S fuel =>
      opened ← List_;
      match opened with
      | inr _ => let! tuple := decodeTuple in decodeTuples fuel (al ++ [tuple])
      | inl err => if errors_Is err EOL then ok al else fail (Wrapf err)
      end
  end.

Definition decodeAccessList : D AccessTuples :=
  let! _ := wrapf List_ in
  fuel ← loopFuel;
  let! al := decodeTuples fuel [] in
  let! _ := wrapf ListEnd in
  ok al.

Section codec.
Context {U : Uint256} {UC : Uint256Codec U} {EB : EncoderBuffer}.

Record Signature := mk_Signature { sig_V : u256; sig_R : u256; sig_S : u256 }.

Inductive WireTx :=
| WLegacy (tx : Tx.CommonTx) (GasPrice : u256) (sig : Signature)
| WAccessList (ChainID : u256) (tx : Tx.CommonTx) (GasPrice : u256) (AccessList : AccessTuples) (sig : Signature)
| WDynamicFee (ChainID : u256) (tx : Tx.CommonTx) (Tip FeeCap : u256) (AccessList : AccessTuples) (sig : Signature)
| WDeposit (SourceHash : hash) (tx : Tx.DepositTransaction).

(** The transaction that is executed. *)
Definition execution (tx : WireTx) : Transaction :=
  match tx with
  | WLegacy tx GasPrice _ => Tx.LegacyTx tx GasPrice
  | WAccessList _ tx GasPrice al _ => Tx.AccessListTx tx GasPrice al
  | WDynamicFee _ tx Tip FeeCap al _ => Tx.DynamicFeeTransaction tx Tip FeeCap al
  | WDeposit _ tx => Tx.DepositTx tx
  end.

Definition Uint256LenExcludingHead (i : u256) : Z :=
  let bitLen := BitLen i in if bitLen <? 8 then 0 else (bitLen + 7) / 8.

(** [b[0] = ...; w.Write(b[:1]); w.Write(tx.To.Bytes())]. *)
Definition encodeTo (to : option address) : M writer unit :=
  _ ← onBuf (put 0 (match to with None => 128 | Some _ => 128 + 20 end)); _ ← WriteBuf 0 1;
  match to with None => mret tt | Some a => Write (addrBytes a) end.

Definition decodeTo (b : list Byte.byte) : option address := if 0 <? len b then Some (bytes_to_N b) else None.

Definition sigSize (sig : Signature) : Z :=
  1 + Uint256LenExcludingHead (sig_V sig) + 1 + Uint256LenExcludingHead (sig_R sig) + 1 + Uint256LenExcludingHead (sig_S sig).

Definition encodeSig (sig : Signature) : M writer unit :=
  _ ← Write (u256_EncodeRLP (sig_V sig)); _ ← Write (u256_EncodeRLP (sig_R sig)); Write (u256_EncodeRLP (sig_S sig)).

(** ** Legacy transactions *)
Definition Legacy_payloadSize (tx : Tx.CommonTx) (GasPrice : u256) (sig : Signature) : Z :=
  1 + IntLenExcludingHead (Tx.Nonce tx) +
  1 + Uint256LenExcludingHead GasPrice +
  1 + IntLenExcludingHead (Tx.Gas tx) +
  1 + (match Tx.To tx with Some _ => 20 | None => 0 end) +
  1 + Uint256LenExcludingHead (Tx.Value tx) +
  dataSize (Tx.Data tx) +
  sigSize sig.

(** [if tx.Nonce > 0 && tx.Nonce < 128 {...} else {...}] with [nonceLen]. *)
Definition encodeNonce (nonce nonceLen : Z) : M writer unit :=
  if (0 <? nonce) && (nonce <? 128) then _ ← onBuf (put 0 nonce); WriteBuf 0 1
  else
    _ ← onBuf (PutUint64 1 nonce);
    _ ← onBuf (put (8 - nonceLen) (128 + nonceLen));
    WriteBuf (8 - nonceLen) 9.

Definition Legacy_encodePayload (tx : Tx.CommonTx) (GasPrice : u256) (sig : Signature) (payloadSize nonceLen : Z) : M writer unit :=
  _ ← EncodeStructSizePrefix payloadSize;
  _ ← encodeNonce (Tx.Nonce tx) nonceLen;
  _ ← Write (u256_EncodeRLP GasPrice);
  _ ← EncodeInt (Tx.Gas tx);
  _ ← encodeTo (Tx.To tx);
  _ ← Write (u256_EncodeRLP (Tx.Value tx));
  _ ← EncodeString (Tx.Data tx);
  encodeSig sig.

(** EncodeRLP, which is MarshalBinary too. *)
Definition Legacy_EncodeRLP (tx : Tx.CommonTx) (GasPrice : u256) (sig : Signature) : M writer unit :=
  Legacy_encodePayload tx GasPrice sig (Legacy_payloadSize tx GasPrice sig) (IntLenExcludingHead (Tx.Nonce tx)).

Definition Legacy_DecodeRLP (encodingSize : Z) : D WireTx :=
  _ ← NewList encodingSize;
  let! nonce := wrapf Uint in
  let! gasPrice := wrapf Uint256Bytes in
  let! gas := wrapf Uint in
  let! b := wrapf Bytes in
  if (0 <? len b) && negb (len b =? 20) then fail (wrongSize (len b))
  else
    let! value := wrapf Uint256Bytes in
    let! data := wrapf Bytes in
    let! v := wrapf Uint256Bytes in
    let! r := wrapf Uint256Bytes in
    let! s := wrapf Uint256Bytes in
    let! _ := wrapf ListEnd in
    ok (WLegacy (Tx.mk_CommonTx nonce gas (decodeTo b) (SetBytes value) data) (SetBytes gasPrice)
      (mk_Signature (SetBytes v) (SetBytes r) (SetBytes s))).

(** ** Transactions with an access list *)
Definition AccessList_payloadSize (ChainID : u256) (tx : Tx.CommonTx) (GasPrice : u256) (al : AccessTuples) (sig : Signature) : Z :=
  1 + Uint256LenExcludingHead ChainID +
  1 + IntLenExcludingHead (Tx.Nonce tx) +
  1 + Uint256LenExcludingHead GasPrice +
  1 + IntLenExcludingHead (Tx.Gas tx) +
  1 + (match Tx.To tx with Some _ => 20 | None => 0 end) +
  1 + Uint256LenExcludingHead (Tx.Value tx) +
  dataSize (Tx.Data tx) +
  prefixed (accessListSize al) +
  sigSize sig.

Definition AccessList_encodePayload (ChainID : u256) (tx : Tx.CommonTx) (GasPrice : u256) (al : AccessTuples) (sig : Signature)
    (payloadSize accessListLen : Z) : M writer unit :=
  _ ← EncodeStructSizePrefix payloadSize;
  _ ← Write (u256_EncodeRLP ChainID);
  _ ← EncodeInt (Tx.Nonce tx);
  _ ← Write (u256_EncodeRLP GasPrice);
  _ ← EncodeInt (Tx.Gas tx);
  _ ← encodeTo (Tx.To tx);
  _ ← Write (u256_EncodeRLP (Tx.Value tx));
  _ ← EncodeString (Tx.Data tx);
  _ ← EncodeStructSizePrefix accessListLen;
  _ ← encodeAccessList al;
  encodeSig sig.

Definition AccessList_DecodeRLP : D WireTx :=
  let! _ := List_ in
  let! chainID := wrapf Uint256Bytes in
  let! nonce := wrapf Uint in
  let! gasPrice := wrapf Uint256Bytes in
  let! gas := wrapf Uint in
  let! b := wrapf Bytes in
  if (0 <? len b) && negb (len b =? 20) then fail (wrongSize (len b))
  else
    let! value := wrapf Uint256Bytes in
    let! data := wrapf Bytes in
    let! al := wrapf decodeAccessList in
    let! v := wrapf Uint256Bytes in
    let! r := wrapf Uint256Bytes in
    let! s := wrapf Uint256Bytes in
    let! _ := wrapf ListEnd in
    ok (WAccessList (SetBytes chainID) (Tx.mk_CommonTx nonce gas (decodeTo b) (SetBytes value) data) (SetBytes gasPrice) al
      (mk_Signature (SetBytes v) (SetBytes r) (SetBytes s))).

(** ** Transactions with a fee cap *)
Definition DynamicFee_payloadSize (ChainID : u256) (tx : Tx.CommonTx) (Tip FeeCap : u256) (al : AccessTuples) (sig : Signature) : Z :=
  1 + Uint256LenExcludingHead ChainID +
  1 + IntLenExcludingHead (Tx.Nonce tx) +
  1 + Uint256LenExcludingHead Tip +
  1 + Uint256LenExcludingHead FeeCap +
  1 + IntLenExcludingHead (Tx.Gas tx) +
  1 + (match Tx.To tx with Some _ => 20 | None => 0 end) +
  1 + Uint256LenExcludingHead (Tx.Value tx) +
  dataSize (Tx.Data tx) +
  prefixed (accessListSize al) +
  sigSize sig.

Definition DynamicFee_encodePayload (ChainID : u256) (tx : Tx.CommonTx) (Tip FeeCap : u256) (al : AccessTuples) (sig : Signature)
    (payloadSize accessListLen : Z) : M writer unit :=
  _ ← EncodeStructSizePrefix payloadSize;
  _ ← Write (u256_EncodeRLP ChainID);
  _ ← EncodeInt (Tx.Nonce tx);
  _ ← Write (u256_EncodeRLP Tip);
  _ ← Write (u256_EncodeRLP FeeCap);
  _ ← EncodeInt (Tx.Gas tx);
  _ ← encodeTo (Tx.To tx);
  _ ← Write (u256_EncodeRLP (Tx.Value tx));
  _ ← EncodeString (Tx.Data tx);
  _ ← EncodeStructSizePrefix accessListLen;
  _ ← encodeAccessList al;
  encodeSig sig.

Definition DynamicFee_DecodeRLP : D WireTx :=
  let! _ := List_ in
  let! chainID := Uint256Bytes in
  let! nonce := Uint in
  let! tip := Uint256Bytes in
  let! feeCap := Uint256Bytes in
  let! gas := Uint in
  let! b := Bytes in
  if (0 <? len b) && negb (len b =? 20) then fail (wrongSize (len b))
  else
    let! value := Uint256Bytes in
    let! data := Bytes in
    let! al := decodeAccessList in
    let! v := Uint256Bytes in
    let! r := Uint256Bytes in
    let! s := Uint256Bytes in
    let! _ := ListEnd in
    ok (WDynamicFee (SetBytes chainID) (Tx.mk_CommonTx nonce gas (decodeTo b) (SetBytes value) data) (SetBytes tip) (SetBytes feeCap) al
      (mk_Signature (SetBytes v) (SetBytes r) (SetBytes s))).

(** The size of payload, its header and the type byte. *)
Definition envelopeSize (payloadSize : Z) : Z :=
  (if 56 <=? payloadSize then payloadSize + byteLen payloadSize else payloadSize) + 2.

(** [b[0] = txType; w.Write(b[:1])]. *)
Definition encodeType (txType : Z) : M writer unit := _ ← onBuf (put 0 txType); WriteBuf 0 1.

(** ** Deposits *)

(** [tx.To.Bytes()] of a nil pointer panics. *)
Definition Deposit_EncodeRLP (SourceHash : hash) (tx : Tx.DepositTransaction) : M writer unit :=
  let buf := WriteUint64 DepositTxType NewEncoderBuffer in
  let '(idx1, buf) := eb_List buf in
  let buf := WriteBytes (hashBytes SourceHash) buf in
  let buf := WriteBytes (addrBytes (Tx.d_From tx)) buf in
  to ← deref (Tx.d_To tx);
  let buf := WriteBytes (addrBytes to) buf in
  let buf := WriteBytes (u256_Bytes (Tx.d_Mint tx)) buf in
  let buf := WriteBytes (u256_Bytes (Tx.d_Value tx)) buf in
  let buf := WriteUint64 (Tx.d_GasLimit tx) buf in
  let buf := WriteBool (Tx.d_IsSystemTx tx) buf in
  let buf := WriteBytes (Tx.d_Data tx) buf in
  let buf := eb_ListEnd idx1 buf in
  Write (ToBytes buf).

Definition Deposit_DecodeRLP : D WireTx :=
  let! _ := wrapf List_ in
  let! sourceHash := wrapf Bytes in
  let! from := wrapf Bytes in
  if negb (len from =? 20) then fail (wrongSize (len from))
  else
    let! to := wrapf Bytes in
    if negb (len to =? 20) then fail (wrongSize (len to))
    else
      let! mint := wrapf Uint256Bytes in
      let! value := wrapf Uint256Bytes in
      let! gasLimit := wrapf Uint in
      let! isSystemTx := wrapf Bool in
      let! data := wrapf Bytes in
      let! _ := wrapf ListEnd in
      ok (WDeposit (hashSetBytes sourceHash)
        (Tx.mk_Deposit DepositsNonce (bytes_to_N from) (Some (bytes_to_N to)) (SetBytes mint) (SetBytes value) gasLimit isSystemTx data)).

(** ** The interface *)
Definition EncodeTxRLP (tx : WireTx) : M writer unit :=
  match tx with
  | WLegacy tx p sig => Legacy_EncodeRLP tx p sig
  | WAccessList c tx p al sig =>
      let payloadSize := AccessList_payloadSize c tx p al sig in
      _ ← EncodeStringSizePrefix (envelopeSize payloadSize);
      _ ← encodeType AccessListTxType;
      AccessList_encodePayload c tx p al sig payloadSize (accessListSize al)
  | WDynamicFee c tx tip cap al sig =>
      let payloadSize := DynamicFee_payloadSize c tx tip cap al sig in
      _ ← EncodeStringSizePrefix (envelopeSize payloadSize);
      _ ← encodeType DynamicFeeTxType;
      DynamicFee_encodePayload c tx tip cap al sig payloadSize (accessListSize al)
  | WDeposit h tx => Deposit_EncodeRLP h tx
  end.

Definition MarshalBinary (tx : WireTx) : M writer unit :=
  match tx with
  | WLegacy tx p sig => Legacy_EncodeRLP tx p sig
  | WAccessList c tx p al sig =>
      _ ← encodeType AccessListTxType;
      AccessList_encodePayload c tx p al sig (AccessList_payloadSize c tx p al sig) (accessListSize al)
  | WDynamicFee c tx tip cap al sig =>
      _ ← encodeType DynamicFeeTxType;
      DynamicFee_encodePayload c tx tip cap al sig (DynamicFee_payloadSize c tx tip cap al sig) (accessListSize al)
  | WDeposit h tx => Deposit_EncodeRLP h tx
  end.

Definition EncodingSize (tx : WireTx) : outcome Z :=
  match tx with
  | WLegacy tx p sig => Ok (Legacy_payloadSize tx p sig)
  | WAccessList c tx p al sig => Ok (envelopeSize (AccessList_payloadSize c tx p al sig))
  | WDynamicFee c tx tip cap al sig => Ok (envelopeSize (DynamicFee_payloadSize c tx tip cap al sig))
  | WDeposit h tx => bs ← written 33 (Deposit_EncodeRLP h tx); Ok (len bs)
  end.

(** The part of DecodeTransaction after the type byte. *)
Definition decodeTyped (b : list Byte.byte) : D WireTx :=
  match b with
  | [b] =>
      let b := byte.unsigned b in
      if b =? AccessListTxType then AccessList_DecodeRLP
      else if b =? DynamicFeeTxType then DynamicFee_DecodeRLP
      else if b =? DepositTxType then Deposit_DecodeRLP
      else fail (Wrapf ErrUnknownTxTypePrefix)
  | _ => fail (Wrapf ErrWrongTxTypePrefix)
  end.

Definition DecodeTransaction : D WireTx :=
  let! ks := Kind_ in
  match ks with
  | (List, size) => Legacy_DecodeRLP size
  | (String, size) =>
      _ ← NewList size;
      let! b := Bytes in
      let! tx := decodeTyped b in
      let! _ := ListEnd in
      ok tx
  | (Byte, _) =>
      let! b := Bytes in
      decodeTyped b
  end.

Definition UnmarshalTransactionFromBinary (data : list Byte.byte) : outcome (RlpError + WireTx) :=
  r ← DecodeTransaction (NewStream true data (len data)); Ok r.1.

(** [nil] transactions are [None] and stay nil slices. *)
Fixpoint MarshalTransactionsBinary (txs : list (option WireTx)) : outcome (list (option (list Byte.byte))) :=
  match txs with
  | [] => Ok []
  | None :: txs => rest ← MarshalTransactionsBinary txs; Ok (None :: rest)
  | Some tx :: txs =>
      bs ← written 33 (MarshalBinary tx);
      rest ← MarshalTransactionsBinary txs;
      Ok (Some bs :: rest)
  end.

Fixpoint DecodeTransactions (txs : list (list Byte.byte)) : outcome (RlpError + list WireTx) :=
  match txs with
  | [] => Ok (inr [])
  | data :: txs =>
      r ← UnmarshalTransactionFromBinary data;
      match r with
      | inl err => Ok (inl err)
      | inr tx =>
          rest ← DecodeTransactions txs;
          Ok (match rest with inl err => inl err | inr l => inr (tx :: l) end)
      end
  end.

Definition TypedTransactionMarshalledAsRlpString (data : list Byte.byte) : bool :=
  match data with b :: _ => (0x80 <=? byte.unsigned b) && (byte.unsigned b <? 0xc0) | [] => false end.
End codec.
