(* ===== verification/TxCodecSpec.v ===== *)
(** The transaction encodings of [TxCodec]: the bytes every encoder writes,
    what the decoder does with them, and what it accepts. *)
From S2P Require Import Prelude Uint256 StateTypes Accounts AccountSpec Transaction Rlp RlpStream RlpSpec StreamSpec StreamSafe TxCodec.
#[local] Open Scope Z_scope.

(** * What the code relies on *)
Class Uint256CodecSpec (U : Uint256) (UC : Uint256Codec U) := {
  u256_EncodeRLP_spec x : u256_EncodeRLP x = rlpNumber (to_Z x);
  u256_Bytes_spec x : u256_Bytes x = numBytes (to_Z x)
}.

(** An encoder buffer is a stack of lists under construction, innermost first,
    each with the index that List returned for it. *)
Class EncoderBufferSpec (EB : EncoderBuffer) := {
  eb_content : encoderBuffer -> list (Z * list Byte.byte);
  eb_new_spec : exists i, eb_content NewEncoderBuffer = [(i, [])];
  WriteUint64_spec v e i c st : is_u64 v -> eb_content e = (i, c) :: st -> eb_content (WriteUint64 v e) = (i, c ++ rlpNumber v) :: st;
  WriteBool_spec v e i c st : eb_content e = (i, c) :: st -> eb_content (WriteBool v e) = (i, c ++ rlpBool v) :: st;
  WriteBytes_spec v e i c st : eb_content e = (i, c) :: st -> eb_content (WriteBytes v e) = (i, c ++ rlpStr v) :: st;
  eb_List_spec e : eb_content (eb_List e).2 = ((eb_List e).1, []) :: eb_content e;
  eb_ListEnd_spec e i c j d st : eb_content e = (i, c) :: (j, d) :: st -> eb_content (eb_ListEnd i e) = (j, d ++ rlpLst c) :: st;
  ToBytes_spec e i c : eb_content e = [(i, c)] -> ToBytes e = c
}.

(** * Sizes *)
Lemma prefixed_spec n : prefixed n = headsize n + n.
Proof.
  unfold prefixed, headsize, intsize. destruct (Z.ltb_spec n 56), (Z.leb_spec 56 n); lia.
Qed.

Lemma dataSize_spec d : dataSize d = len (rlpStr d).
Proof.
  rewrite len_rlpStr. destruct d as [|b [|c d]]; [done| |].
  - cbn [single]. unfold dataSize. destruct (Z.ltb_spec (byte.unsigned b) 128), (Z.leb_spec 128 (byte.unsigned b)); reflexivity || lia.
  - cbn [single]. unfold dataSize. fold (prefixed (len (b :: c :: d))). rewrite <- prefixed_spec. unfold prefixed. lia.
Qed.

(** * The bytes on the wire *)
Definition rlpTo (to : option address) : list Byte.byte :=
  rlpStr (match to with None => [] | Some a => addrBytes a end).

Definition rlpKeys (keys : list hash) : list Byte.byte := concat (map (fun h => rlpStr (hashBytes h)) keys).

Definition rlpTuple (t : address * list hash) : list Byte.byte :=
  rlpLst (rlpStr (addrBytes t.1) ++ rlpLst (rlpKeys t.2)).

Definition rlpAccessList (al : AccessTuples) : list Byte.byte := concat (map rlpTuple al).

Lemma emits_StructSizePrefix n : 0 <= n < 2 ^ 64 -> emits (EncodeStructSizePrefix n) (rlpHead 0xC0 n).
Proof.
  intros Hn. unfold EncodeStructSizePrefix, rlpHead. destruct (Z.ltb_spec n 56).
  - rewrite (proj2 (Z.leb_gt _ _)) by lia. rewrite Z.add_comm. apply emits_byte.
  - rewrite (proj2 (Z.leb_le _ _)) by lia. replace (192 + 55 + byteLen n) with (byteLen n + 247) by lia.
    by apply emits_tagged.
Qed.

Lemma rlpStr_short bs : 1 < len bs < 56 -> rlpStr bs = byte.of_Z (128 + len bs) :: bs.
Proof.
  intros Hl. unfold rlpStr, rlpHead. rewrite (proj2 (Z.ltb_lt _ _)) by lia.
  destruct bs as [|b [|c bs]]; try done. rewrite len_cons in Hl. change (len []) with 0 in Hl. lia.
Qed.

Lemma len_addrBytes a : len (addrBytes a) = 20.
Proof. unfold addrBytes. by rewrite len_be_split. Qed.

Lemma len_hashBytes h : len (hashBytes h) = 32.
Proof. unfold hashBytes. by rewrite len_be_split. Qed.

Lemma rlpStr_addr a : rlpStr (addrBytes a) = byte.of_Z (128 + 20) :: addrBytes a.
Proof. rewrite rlpStr_short by (rewrite len_addrBytes; lia). by rewrite len_addrBytes. Qed.

Lemma rlpStr_hash h : rlpStr (hashBytes h) = byte.of_Z (128 + 32) :: hashBytes h.
Proof. rewrite rlpStr_short by (rewrite len_hashBytes; lia). by rewrite len_hashBytes. Qed.

Lemma emits_encodeTo to : emits (encodeTo to) (rlpTo to).
Proof.
  unfold encodeTo, rlpTo. destruct to as [a|].
  - rewrite rlpStr_addr. apply (emits_bind2 _ _ _ [_]); [apply emits_byte|apply emits_Write].
  - apply (emits_bind2 _ _ _ [_] []); [apply emits_byte|apply emits_ret].
Qed.

(** Fields of one size: their tag stays in the scratch buffer. *)
Lemma same_tag_loop {A} (g : A -> list Byte.byte) xs out x buf :
  mfor (fun y => _ ← WriteBuf 0 1; Write (g y)) xs (mk_writer out (x :: buf)) =
  Ok (tt, mk_writer (out ++ concat (map (fun y => x :: g y) xs)) (x :: buf)).
Proof.
  revert out. induction xs as [|y xs IH]; intros out; cbn [mfor map concat]; [by rewrite app_nil_r|].
  rewrite M_bind_assoc. assert (slice (x :: buf) 0 1 = Ok [x]) as Es by by apply (slice_app [] [x] buf).
  erewrite M_bind_Ok; [|unfold WriteBuf; cbn [w_buf]; rewrite Es; done].
  erewrite M_bind_Ok by done. cbn [w_out w_buf]. rewrite IH, <- !app_assoc. done.
Qed.

Lemma emits_same_tag {A} tag (g : A -> list Byte.byte) xs :
  emits (_ ← onBuf (put 0 tag); mfor (fun y => _ ← WriteBuf 0 1; Write (g y)) xs) (concat (map (fun y => byte.of_Z tag :: g y) xs)).
Proof.
  intros out [|x buf] Hb; [done|]. set (t := byte.of_Z tag). exists (t :: buf). split; [done|].
  assert (put 0 tag (x :: buf) = Ok (tt, t :: buf)) as Et by by apply (put_spec []).
  erewrite M_bind_Ok; [|unfold onBuf; cbn [w_buf]; rewrite Et; done]. cbn [fst snd w_out]. by rewrite same_tag_loop.
Qed.

Lemma emits_keys keys :
  emits (_ ← onBuf (put 0 (128 + 32)); mfor (fun key => _ ← WriteBuf 0 1; Write (hashBytes key)) keys) (rlpKeys keys).
Proof. unfold rlpKeys. rewrite (map_ext _ _ rlpStr_hash). apply emits_same_tag. Qed.

Lemma len_rlpKeys keys : len (rlpKeys keys) = 33 * len keys.
Proof.
  unfold rlpKeys. induction keys as [|h keys IH]; [done|]. cbn [map concat]. rewrite len_app, IH, rlpStr_hash, !len_cons, len_hashBytes. lia.
Qed.

Lemma tupleSize_spec a keys : tupleSize keys = len (rlpStr (addrBytes a) ++ rlpLst (rlpKeys keys)).
Proof.
  rewrite len_app, rlpStr_addr, len_cons, len_addrBytes, len_rlpLst, len_rlpKeys, <- prefixed_spec. unfold tupleSize, prefixed.
  case_match; lia.
Qed.

Lemma tupleSize_nonneg keys : 22 <= tupleSize keys.
Proof. unfold tupleSize. pose proof (len_nonneg keys). pose proof (byteLen_nonneg (33 * len keys)). case_match; lia. Qed.

Lemma len_rlpTuple a keys : len (rlpTuple (a, keys)) = prefixed (tupleSize keys).
Proof. unfold rlpTuple. cbn [fst snd]. by rewrite len_rlpLst, <- tupleSize_spec, prefixed_spec. Qed.

Lemma accessListSize_spec al : accessListSize al = len (rlpAccessList al).
Proof.
  unfold rlpAccessList. induction al as [|[a keys] al IH]; [done|]. cbn [accessListSize map concat]. by rewrite len_app, len_rlpTuple, IH.
Qed.

Lemma emits_encodeTuple t : len (rlpTuple t) < 2 ^ 64 -> emits (encodeTuple t) (rlpTuple t).
Proof.
  destruct t as [a keys]. intros Hl. rewrite len_rlpTuple, prefixed_spec in Hl.
  pose proof (tupleSize_nonneg keys) as Hn. pose proof (headsize_pos (tupleSize keys) ltac:(lia)) as Hh.
  pose proof (tupleSize_spec a keys) as Ht. pose proof (len_nonneg keys).
  unfold rlpTuple, rlpLst at 1. cbn [fst snd encodeTuple]. rewrite <- Ht. apply emits_bind; [apply emits_StructSizePrefix; lia|].
  rewrite rlpStr_addr. apply (emits_bind2 _ _ _ [_]); [apply emits_byte|]. apply emits_bind; [apply emits_Write|].
  unfold rlpLst. rewrite len_rlpKeys. apply emits_bind; [|apply emits_keys]. apply emits_StructSizePrefix.
  split; [lia|]. rewrite len_app, len_rlpLst, len_rlpKeys in Ht. pose proof (len_nonneg (rlpStr (addrBytes a))).
  pose proof (headsize_pos (33 * len keys)). lia.
Qed.

Lemma emits_encodeAccessList al : len (rlpAccessList al) < 2 ^ 64 -> emits (encodeAccessList al) (rlpAccessList al).
Proof.
  intros Hl. apply emits_mfor. intros t Ht. apply emits_encodeTuple. eapply Z.le_lt_trans; [|exact Hl]. clear Hl. unfold rlpAccessList.
  induction al as [|u al IH]; [done|]. cbn [map concat]. rewrite len_app. pose proof (len_nonneg (rlpTuple u)).
  pose proof (len_nonneg (concat (map rlpTuple al))). destruct Ht as [->|Ht]; [lia|]. specialize (IH Ht). lia.
Qed.

Section spec.
Context {U : Uint256} {US : Uint256Spec U} {UC : Uint256Codec U} {UCS : Uint256CodecSpec U UC}.
Context {EB : EncoderBuffer} {EBS : EncoderBufferSpec EB}.

Definition rlpSig (sig : Signature) : list Byte.byte :=
  rlpNumber (to_Z (sig_V sig)) ++ rlpNumber (to_Z (sig_R sig)) ++ rlpNumber (to_Z (sig_S sig)).

Definition legacyFields (tx : Tx.CommonTx) (p : u256) (sig : Signature) : list Byte.byte :=
  rlpNumber (Tx.Nonce tx) ++ rlpNumber (to_Z p) ++ rlpNumber (Tx.Gas tx) ++ rlpTo (Tx.To tx) ++
  rlpNumber (to_Z (Tx.Value tx)) ++ rlpStr (Tx.Data tx) ++ rlpSig sig.

Definition accessListFields (c : u256) (tx : Tx.CommonTx) (p : u256) (al : AccessTuples) (sig : Signature) : list Byte.byte :=
  rlpNumber (to_Z c) ++ rlpNumber (Tx.Nonce tx) ++ rlpNumber (to_Z p) ++ rlpNumber (Tx.Gas tx) ++ rlpTo (Tx.To tx) ++
  rlpNumber (to_Z (Tx.Value tx)) ++ rlpStr (Tx.Data tx) ++ rlpLst (rlpAccessList al) ++ rlpSig sig.

Definition dynamicFeeFields (c : u256) (tx : Tx.CommonTx) (tip cap : u256) (al : AccessTuples) (sig : Signature) : list Byte.byte :=
  rlpNumber (to_Z c) ++ rlpNumber (Tx.Nonce tx) ++ rlpNumber (to_Z tip) ++ rlpNumber (to_Z cap) ++ rlpNumber (Tx.Gas tx) ++
  rlpTo (Tx.To tx) ++ rlpNumber (to_Z (Tx.Value tx)) ++ rlpStr (Tx.Data tx) ++ rlpLst (rlpAccessList al) ++ rlpSig sig.

(** The fields of a deposit, whatever bytes stand for its source hash. *)
Definition depositFields (source : list Byte.byte) (tx : Tx.DepositTransaction) : list Byte.byte :=
  rlpStr source ++ rlpStr (addrBytes (Tx.d_From tx)) ++ rlpTo (Tx.d_To tx) ++ rlpNumber (to_Z (Tx.d_Mint tx)) ++
  rlpNumber (to_Z (Tx.d_Value tx)) ++ rlpNumber (Tx.d_GasLimit tx) ++ rlpBool (Tx.d_IsSystemTx tx) ++ rlpStr (Tx.d_Data tx).

(** The type of a transaction and its fields. *)
Definition txType (tx : WireTx) : Z :=
  match tx with
  | WLegacy _ _ _ => LegacyTxType
  | WAccessList _ _ _ _ _ => AccessListTxType
  | WDynamicFee _ _ _ _ _ _ => DynamicFeeTxType
  | WDeposit _ _ => DepositTxType
  end.

Definition fieldsOf (tx : WireTx) : list Byte.byte :=
  match tx with
  | WLegacy tx p sig => legacyFields tx p sig
  | WAccessList c tx p al sig => accessListFields c tx p al sig
  | WDynamicFee c tx tip cap al sig => dynamicFeeFields c tx tip cap al sig
  | WDeposit h tx => depositFields (hashBytes h) tx
  end.

Definition typed (tx : WireTx) : Prop := match tx with WLegacy _ _ _ => False | _ => True end.

(** The canonical form: a legacy transaction is a list, the others have their
    type before it. *)
Definition typedBytes (tx : WireTx) : list Byte.byte :=
  match tx with
  | WLegacy _ _ _ => rlpLst (fieldsOf tx)
  | _ => byte.of_Z (txType tx) :: rlpLst (fieldsOf tx)
  end.

(** With the envelope that EncodeRLP puts around the two middle types. *)
Definition rlpTx (tx : WireTx) : list Byte.byte :=
  match tx with
  | WLegacy _ _ _ | WDeposit _ _ => typedBytes tx
  | _ => rlpStr (typedBytes tx)
  end.

(** The machine widths of the fields. *)
Definition common_ok (tx : Tx.CommonTx) : Prop :=
  is_u64 (Tx.Nonce tx) /\ is_u64 (Tx.Gas tx) /\ match Tx.To tx with Some a => (a < 2 ^ 160)%N | None => True end.

Definition tuple_ok (t : address * list hash) : Prop := (t.1 < 2 ^ 160)%N /\ Forall (fun h => (h < 2 ^ 256)%N) t.2.

Definition tx_ok (tx : WireTx) : Prop :=
  len (typedBytes tx) < 2 ^ 46 /\
  match tx with
  | WLegacy tx _ _ => common_ok tx
  | WAccessList _ tx _ al _ | WDynamicFee _ tx _ _ al _ => common_ok tx /\ Forall tuple_ok al
  | WDeposit h tx =>
      (h < 2 ^ 256)%N /\ Tx.d_Nonce tx = DepositsNonce /\ (Tx.d_From tx < 2 ^ 160)%N /\
      (exists a, Tx.d_To tx = Some a /\ (a < 2 ^ 160)%N) /\ is_u64 (Tx.d_GasLimit tx)
  end.

Lemma Uint256Len_spec x : Uint256LenExcludingHead x = IntLenExcludingHead (to_Z x).
Proof.
  unfold Uint256LenExcludingHead. rewrite BitLen_spec. fold (bitLen (to_Z x)).
  rewrite <- BigIntLenExcludingHead_spec by apply to_Z_range. unfold BigIntLenExcludingHead. by rewrite Z.abs_eq by apply to_Z_range.
Qed.

Lemma len_rlpNumber_u256 x : len (rlpNumber (to_Z x)) = 1 + Uint256LenExcludingHead x.
Proof. rewrite Uint256Len_spec. apply len_rlpNumber, to_Z_range. Qed.

Lemma len_rlpTo to : len (rlpTo to) = 1 + match to with Some _ => 20 | None => 0 end.
Proof. unfold rlpTo. destruct to as [a|]; [by rewrite rlpStr_addr, len_cons, len_addrBytes|done]. Qed.

Lemma sigSize_spec sig : sigSize sig = len (rlpSig sig).
Proof. unfold sigSize, rlpSig. rewrite !len_app, !len_rlpNumber_u256. lia. Qed.

Lemma Legacy_payloadSize_spec tx p sig : common_ok tx -> Legacy_payloadSize tx p sig = len (legacyFields tx p sig).
Proof.
  intros (H1 & H2 & _). unfold Legacy_payloadSize, legacyFields. rewrite !len_app, !len_rlpNumber_u256, len_rlpTo, !len_rlpNumber, <- dataSize_spec, <- sigSize_spec by (apply H1 || apply H2). lia.
Qed.

Lemma AccessList_payloadSize_spec c tx p al sig : common_ok tx ->
  AccessList_payloadSize c tx p al sig = len (accessListFields c tx p al sig).
Proof.
  intros (H1 & H2 & _). unfold AccessList_payloadSize, accessListFields.
  rewrite !len_app, !len_rlpNumber_u256, len_rlpTo, !len_rlpNumber, len_rlpLst, <- dataSize_spec, <- sigSize_spec, prefixed_spec, accessListSize_spec by (apply H1 || apply H2). lia.
Qed.

Lemma DynamicFee_payloadSize_spec c tx tip cap al sig : common_ok tx ->
  DynamicFee_payloadSize c tx tip cap al sig = len (dynamicFeeFields c tx tip cap al sig).
Proof.
  intros (H1 & H2 & _). unfold DynamicFee_payloadSize, dynamicFeeFields.
  rewrite !len_app, !len_rlpNumber_u256, len_rlpTo, !len_rlpNumber, len_rlpLst, <- dataSize_spec, <- sigSize_spec, prefixed_spec, accessListSize_spec by (apply H1 || apply H2). lia.
Qed.

Lemma emits_u256 x : emits (Write (u256_EncodeRLP x)) (rlpNumber (to_Z x)).
Proof. rewrite u256_EncodeRLP_spec. apply emits_Write. Qed.

Lemma emits_encodeSig sig : emits (encodeSig sig) (rlpSig sig).
Proof. repeat (apply emits_bind; [apply emits_u256|]). apply emits_u256. Qed.

Lemma emits_encodeNonce n : is_u64 n -> emits (encodeNonce n (IntLenExcludingHead n)) (rlpNumber n).
Proof.
  intros Hn. unfold encodeNonce, rlpNumber, IntLenExcludingHead.
  replace ((0 <? n) && (n <? 128)) with ((n <? 128) && negb (n =? 0));
    [|unfold is_u64 in Hn; destruct (Z.ltb_spec 0 n), (Z.ltb_spec n 128), (Z.eqb_spec n 0); cbn; lia].
  destruct (Z.ltb_spec n 128); cbn [andb].
  - destruct (Z.eqb_spec n 0) as [->|]; cbn [negb]; [|apply emits_byte]. by apply (emits_tagged 0 128).
  - by apply emits_tagged.
Qed.

Create HintDb emits.
#[local] Hint Resolve emits_u256 emits_encodeSig emits_encodeNonce emits_EncodeInt emits_EncodeString emits_encodeTo
  emits_encodeAccessList emits_StructSizePrefix emits_StringSizePrefix emits_byte : emits.

Ltac emit := repeat (apply emits_bind; [by auto with emits|]); by auto with emits.

(** The lengths the encoders need, from the length of the whole. *)
Lemma len_rlpLst_bound c n : len (rlpLst c) < n -> 0 <= len c < n.
Proof. rewrite len_rlpLst. intros H. pose proof (headsize_pos (len c) (len_nonneg c)). len_facts. lia. Qed.

Lemma emits_Legacy tx p sig : common_ok tx -> len (rlpLst (legacyFields tx p sig)) < 2 ^ 64 ->
  emits (Legacy_EncodeRLP tx p sig) (rlpLst (legacyFields tx p sig)).
Proof.
  intros Hok Hl%len_rlpLst_bound. unfold Legacy_EncodeRLP. rewrite Legacy_payloadSize_spec by done. set (n := len (legacyFields tx p sig)) in *.
  assert (len (Tx.Data tx) < 2 ^ 64).
  { unfold n, legacyFields in Hl. rewrite !len_app in Hl. pose proof (len_le_rlpStr (Tx.Data tx)). len_facts. lia. }
  destruct Hok as (H1 & H2 & _). unfold rlpLst. fold n. unfold legacyFields, Legacy_encodePayload. emit.
Qed.

Lemma emits_AccessList c tx p al sig : common_ok tx -> len (rlpLst (accessListFields c tx p al sig)) < 2 ^ 64 ->
  emits (AccessList_encodePayload c tx p al sig (AccessList_payloadSize c tx p al sig) (accessListSize al)) (rlpLst (accessListFields c tx p al sig)).
Proof.
  intros Hok Hl%len_rlpLst_bound. rewrite AccessList_payloadSize_spec by done. set (n := len (accessListFields c tx p al sig)) in *.
  assert (len (Tx.Data tx) < 2 ^ 64 /\ len (rlpLst (rlpAccessList al)) < 2 ^ 64) as [Hd Ha%len_rlpLst_bound].
  { unfold n, accessListFields in Hl. rewrite !len_app in Hl. pose proof (len_le_rlpStr (Tx.Data tx)). len_facts. lia. }
  destruct Hok as (H1 & H2 & _). unfold rlpLst at 1. fold n. unfold accessListFields, AccessList_encodePayload, rlpLst.
  rewrite accessListSize_spec, <- app_assoc. assert (len (rlpAccessList al) < 2 ^ 64) by apply Ha. emit.
Qed.

Lemma emits_DynamicFee c tx tip cap al sig : common_ok tx -> len (rlpLst (dynamicFeeFields c tx tip cap al sig)) < 2 ^ 64 ->
  emits (DynamicFee_encodePayload c tx tip cap al sig (DynamicFee_payloadSize c tx tip cap al sig) (accessListSize al))
    (rlpLst (dynamicFeeFields c tx tip cap al sig)).
Proof.
  intros Hok Hl%len_rlpLst_bound. rewrite DynamicFee_payloadSize_spec by done. set (n := len (dynamicFeeFields c tx tip cap al sig)) in *.
  assert (len (Tx.Data tx) < 2 ^ 64 /\ len (rlpLst (rlpAccessList al)) < 2 ^ 64) as [Hd Ha%len_rlpLst_bound].
  { unfold n, dynamicFeeFields in Hl. rewrite !len_app in Hl. pose proof (len_le_rlpStr (Tx.Data tx)). len_facts. lia. }
  destruct Hok as (H1 & H2 & _). unfold rlpLst at 1. fold n. unfold dynamicFeeFields, DynamicFee_encodePayload, rlpLst.
  rewrite accessListSize_spec, <- app_assoc. assert (len (rlpAccessList al) < 2 ^ 64) by apply Ha. emit.
Qed.

Lemma emits_Deposit h tx a : Tx.d_To tx = Some a -> is_u64 (Tx.d_GasLimit tx) ->
  emits (Deposit_EncodeRLP h tx) (byte.of_Z DepositTxType :: rlpLst (depositFields (hashBytes h) tx)).
Proof.
  intros Ha Hg. unfold Deposit_EncodeRLP. destruct eb_new_spec as [i0 E0].
  apply (WriteUint64_spec DepositTxType) in E0; [|done]. set (e0 := WriteUint64 _ _) in *.
  pose proof (eb_List_spec e0) as E1. destruct (eb_List e0) as [i1 e1]. cbn [fst snd] in E1. rewrite E0 in E1. rewrite Ha.
  apply (WriteBytes_spec (hashBytes h)) in E1. apply (WriteBytes_spec (addrBytes (Tx.d_From tx))) in E1.
  apply (WriteBytes_spec (addrBytes a)) in E1. apply (WriteBytes_spec (u256_Bytes (Tx.d_Mint tx))) in E1.
  apply (WriteBytes_spec (u256_Bytes (Tx.d_Value tx))) in E1. apply (WriteUint64_spec (Tx.d_GasLimit tx)) in E1; [|done].
  apply (WriteBool_spec (Tx.d_IsSystemTx tx)) in E1. apply (WriteBytes_spec (Tx.d_Data tx)) in E1. apply eb_ListEnd_spec in E1.
  intros out buf Hb. exists buf. split; [done|]. erewrite M_bind_Ok by reflexivity. unfold Write. cbn [w_out w_buf].
  rewrite (ToBytes_spec _ _ _ E1), !u256_Bytes_spec. unfold depositFields, rlpTo. rewrite Ha, <- !app_assoc. unfold numBytes.
  rewrite <- !rlpNumber_str by apply to_Z_range. done.
Qed.

Lemma envelopeSize_spec t fields : envelopeSize (len fields) = len (t :: rlpLst fields).
Proof. rewrite len_cons, len_rlpLst, <- prefixed_spec. unfold envelopeSize, prefixed. case_match; lia. Qed.

Lemma typed_not_single t c : single (t :: rlpLst c) = false.
Proof. unfold rlpLst, rlpHead. by destruct (_ <? 56). Qed.

Lemma rlpStr_typed t c : rlpStr (t :: rlpLst c) = rlpHead 0x80 (len (t :: rlpLst c)) ++ [t] ++ rlpLst c.
Proof. unfold rlpStr. by rewrite typed_not_single. Qed.

Lemma len_typed_bound t c n : len (t :: rlpLst c) < n -> len (rlpLst c) < n /\ 0 <= len (t :: rlpLst c) < n.
Proof. rewrite len_cons. len_facts. lia. Qed.

Lemma EncodeTxRLP_emits tx : tx_ok tx -> emits (EncodeTxRLP tx) (rlpTx tx).
Proof.
  intros [Hl Hok]. destruct tx as [tx p sig|c tx p al sig|c tx tip cap al sig|h tx]; cbn [rlpTx EncodeTxRLP typedBytes fieldsOf txType] in *.
  - apply emits_Legacy; [done|lia].
  - apply len_typed_bound in Hl as [Hl Hn]. rewrite rlpStr_typed, AccessList_payloadSize_spec, (envelopeSize_spec (byte.of_Z AccessListTxType)) by apply Hok.
    apply emits_bind; [apply emits_StringSizePrefix; lia|]. apply emits_bind; [apply emits_byte|].
    rewrite <- AccessList_payloadSize_spec by apply Hok. apply emits_AccessList; [apply Hok|lia].
  - apply len_typed_bound in Hl as [Hl Hn]. rewrite rlpStr_typed, DynamicFee_payloadSize_spec, (envelopeSize_spec (byte.of_Z DynamicFeeTxType)) by apply Hok.
    apply emits_bind; [apply emits_StringSizePrefix; lia|]. apply emits_bind; [apply emits_byte|].
    rewrite <- DynamicFee_payloadSize_spec by apply Hok. apply emits_DynamicFee; [apply Hok|lia].
  - destruct Hok as (_ & _ & _ & (a & Ha & _) & Hg). by apply (emits_Deposit h tx a).
Qed.

Lemma MarshalBinary_emits tx : tx_ok tx -> emits (MarshalBinary tx) (typedBytes tx).
Proof.
  intros [Hl Hok]. destruct tx as [tx p sig|c tx p al sig|c tx tip cap al sig|h tx]; cbn [MarshalBinary typedBytes fieldsOf txType] in *.
  - apply emits_Legacy; [done|lia].
  - apply len_typed_bound in Hl as [Hl Hn]. apply (emits_bind _ [_]); [apply emits_byte|]. apply emits_AccessList; [apply Hok|lia].
  - apply len_typed_bound in Hl as [Hl Hn]. apply (emits_bind _ [_]); [apply emits_byte|]. apply emits_DynamicFee; [apply Hok|lia].
  - destruct Hok as (_ & _ & _ & (a & Ha & _) & Hg). by apply (emits_Deposit h tx a).
Qed.

(** * Decoding *)
Lemma bytes_to_N_split n a : (a < 2 ^ (8 * N.of_nat n))%N -> bytes_to_N (be_split n (Z.of_N a)) = a.
Proof.
  intros Ha. unfold bytes_to_N. rewrite be_combine_split_small; [lia|]. split; [lia|]. apply N2Z.inj_lt in Ha. rewrite N2Z.inj_pow in Ha.
  replace (Z.of_N (8 * N.of_nat n)) with (8 * Z.of_nat n) in Ha by lia. exact Ha.
Qed.

Lemma bytes_to_N_addrBytes a : (a < 2 ^ 160)%N -> bytes_to_N (addrBytes a) = a.
Proof. apply (bytes_to_N_split 20). Qed.

Lemma SetBytes_numBytes x : SetBytes (numBytes (to_Z x)) = x.
Proof. apply SetBytes_split. Qed.

Lemma length_rlpKeys keys : length (rlpKeys keys) = (33 * length keys)%nat.
Proof. pose proof (len_rlpKeys keys). unfold len in *. lia. Qed.

Lemma runs_decodeKeys keys fuel acc b fs : (length keys < fuel)%nat -> Forall (fun h => (h < 2 ^ 256)%N) keys ->
  runs (at_ (rlpKeys keys :: b :: fs)) (decodeKeys fuel acc) (inr (acc ++ keys)) (at_ ([] :: b :: fs)).
Proof.
  revert fuel acc. induction keys as [|h keys IH]; intros [|fuel] acc Hf Hk; cbn [length] in Hf; try lia; cbn [decodeKeys].
  - rewrite app_nil_r. eapply runs_mbind; [by eapply (runs_EOL Bytes)|]. apply runs_ok.
  - apply Forall_cons_iff in Hk as [Hh Hk]. change (rlpKeys (h :: keys)) with (rlpStr (hashBytes h) ++ rlpKeys keys). eapply runs_mbind; [apply runs_Bytes|].
    cbv iota. rewrite len_hashBytes. change (32 =? 32) with true. cbn [negb]. rewrite bytes_to_N_hashBytes by done.
    replace (acc ++ h :: keys) with ((acc ++ [h]) ++ keys) by by rewrite <- app_assoc. apply IH; [lia|done].
Qed.

Lemma runs_decodeTuple t b fs : tuple_ok t ->
  runs (at_ ((rlpStr (addrBytes t.1) ++ rlpLst (rlpKeys t.2)) :: b :: fs)) decodeTuple (inr t) (at_ (b :: fs)).
Proof.
  intros [Ha Hk]. destruct t as [a keys]. cbn [fst snd] in *. unfold decodeTuple.
  eapply runs_bind; [apply runs_wrapf, runs_Bytes|]. rewrite len_addrBytes. change (20 =? 20) with true. cbn [negb].
  eapply runs_bind; [apply runs_wrapf; rewrite <- (app_nil_r (rlpLst _)); apply runs_List|]. apply runs_fuel. intros n Hn.
  eapply runs_bind. { apply runs_decodeKeys; [|done]. cbn [concat] in Hn. rewrite length_app, length_rlpKeys in Hn. lia. }
  eapply runs_bind; [apply runs_wrapf, runs_ListEnd|]. eapply runs_bind; [apply runs_wrapf, runs_ListEnd|].
  rewrite bytes_to_N_addrBytes by done. apply runs_ok.
Qed.

Lemma length_rlpAccessList al : (length al <= length (rlpAccessList al))%nat.
Proof.
  unfold rlpAccessList. induction al as [|[a keys] al IH]; [done|]. cbn [map concat length]. rewrite length_app.
  pose proof (len_rlpTuple a keys) as Hl. rewrite prefixed_spec in Hl. pose proof (tupleSize_nonneg keys).
  pose proof (headsize_pos (tupleSize keys)). unfold len in Hl. lia.
Qed.

Lemma runs_decodeTuples al fuel acc b fs : (length al < fuel)%nat -> Forall tuple_ok al ->
  runs (at_ (rlpAccessList al :: b :: fs)) (decodeTuples fuel acc) (inr (acc ++ al)) (at_ ([] :: b :: fs)).
Proof.
  revert fuel acc. induction al as [|t al IH]; intros [|fuel] acc Hf Hk; cbn [length] in Hf; try lia; cbn [decodeTuples].
  - rewrite app_nil_r. eapply runs_mbind; [by eapply (runs_EOL List_)|]. apply runs_ok.
  - apply Forall_cons_iff in Hk as [Hh Hk]. change (rlpAccessList (t :: al)) with (rlpTuple t ++ rlpAccessList al). eapply runs_mbind; [apply runs_List|].
    eapply runs_bind; [by apply runs_decodeTuple|].
    replace (acc ++ t :: al) with ((acc ++ [t]) ++ al) by by rewrite <- app_assoc. apply IH; [lia|done].
Qed.

Lemma runs_decodeAccessList al b fs : Forall tuple_ok al ->
  runs (at_ ((rlpLst (rlpAccessList al) ++ b) :: fs)) decodeAccessList (inr al) (at_ (b :: fs)).
Proof.
  intros Hal. unfold decodeAccessList. eapply runs_bind; [apply runs_wrapf, runs_List|]. apply runs_fuel. intros n Hn.
  eapply runs_bind.
  { apply (runs_decodeTuples al n []); [|done]. cbn [concat] in Hn. rewrite length_app in Hn. pose proof (length_rlpAccessList al). lia. }
  eapply runs_bind; [apply runs_wrapf, runs_ListEnd|]. apply runs_ok.
Qed.

Definition toBytes (to : option address) : list Byte.byte := match to with None => [] | Some a => addrBytes a end.

Lemma toBytes_ok to : match to with Some a => (a < 2 ^ 160)%N | None => True end ->
  (0 <? len (toBytes to)) && negb (len (toBytes to) =? 20) = false /\ decodeTo (toBytes to) = to.
Proof.
  destruct to as [a|]; intros Ha; [|done]. unfold decodeTo, toBytes. rewrite len_addrBytes. change (20 =? 20) with true. change (0 <? 20) with true.
  by rewrite bytes_to_N_addrBytes.
Qed.

(** One field. *)
Ltac rfield :=
  eapply runs_bind;
  [try apply runs_wrapf; first
     [ apply runs_Uint; assumption | apply runs_Uint256Bytes; apply to_Z_range | apply runs_Bytes | apply runs_Bool
     | apply runs_decodeAccessList; assumption | apply runs_ListEnd ]
  | cbv beta].

Lemma runs_Legacy tx p sig bv b fs : common_ok tx ->
  runs (ahead List (len (legacyFields tx p sig)) bv (legacyFields tx p sig ++ b) fs) (Legacy_DecodeRLP (len (legacyFields tx p sig)))
    (inr (WLegacy tx p sig)) (at_ (b :: fs)).
Proof.
  intros (Hn & Hg & Ht) s Hs. destruct (at_NewList _ _ _ _ _ _ Hs) as (s1 & E1 & H1). unfold Legacy_DecodeRLP.
  rewrite (M_bind_Ok _ _ _ _ _ E1). clear E1. revert s1 H1. unfold legacyFields, rlpSig, rlpTo. fold (toBytes (Tx.To tx)).
  rewrite <- (app_nil_r (rlpNumber (to_Z (sig_S sig)))). destruct (toBytes_ok _ Ht) as [Hc Hd].
  do 4 rfield. rewrite Hc. do 6 rfield. rewrite Hd, !SetBytes_numBytes. destruct tx, sig. apply runs_ok.
Qed.

Lemma runs_AccessListTx c tx p al sig b fs : common_ok tx -> Forall tuple_ok al ->
  runs (at_ ((rlpLst (accessListFields c tx p al sig) ++ b) :: fs)) AccessList_DecodeRLP (inr (WAccessList c tx p al sig)) (at_ (b :: fs)).
Proof.
  intros (Hn & Hg & Ht) Hal. unfold AccessList_DecodeRLP. eapply runs_bind; [apply runs_List|].
  unfold accessListFields, rlpSig, rlpTo. fold (toBytes (Tx.To tx)).
  rewrite <- (app_nil_r (rlpNumber (to_Z (sig_S sig)))). destruct (toBytes_ok _ Ht) as [Hc Hd].
  do 5 rfield. rewrite Hc. do 7 rfield. rewrite Hd, !SetBytes_numBytes. destruct tx, sig. apply runs_ok.
Qed.

Lemma runs_DynamicFeeTx c tx tip cap al sig b fs : common_ok tx -> Forall tuple_ok al ->
  runs (at_ ((rlpLst (dynamicFeeFields c tx tip cap al sig) ++ b) :: fs)) DynamicFee_DecodeRLP (inr (WDynamicFee c tx tip cap al sig)) (at_ (b :: fs)).
Proof.
  intros (Hn & Hg & Ht) Hal. unfold DynamicFee_DecodeRLP. eapply runs_bind; [apply runs_List|].
  unfold dynamicFeeFields, rlpSig, rlpTo. fold (toBytes (Tx.To tx)).
  rewrite <- (app_nil_r (rlpNumber (to_Z (sig_S sig)))). destruct (toBytes_ok _ Ht) as [Hc Hd].
  do 6 rfield. rewrite Hc. do 7 rfield. rewrite Hd, !SetBytes_numBytes. destruct tx, sig. apply runs_ok.
Qed.

(** Any bytes pass for a source hash; [hashSetBytes] keeps the last 32. *)
Lemma runs_DepositTx source tx a b fs : Tx.d_Nonce tx = DepositsNonce -> (Tx.d_From tx < 2 ^ 160)%N -> Tx.d_To tx = Some a -> (a < 2 ^ 160)%N ->
  is_u64 (Tx.d_GasLimit tx) ->
  runs (at_ ((rlpLst (depositFields source tx) ++ b) :: fs)) Deposit_DecodeRLP (inr (WDeposit (hashSetBytes source) tx)) (at_ (b :: fs)).
Proof.
  intros Hn Hf Ht Ha Hg. unfold Deposit_DecodeRLP. eapply runs_bind; [apply runs_wrapf, runs_List|].
  unfold depositFields, rlpTo. rewrite Ht, <- (app_nil_r (rlpStr (Tx.d_Data tx))).
  do 2 rfield. rewrite len_addrBytes. change (negb (20 =? 20)) with false. cbv iota.
  rfield. rewrite len_addrBytes. change (negb (20 =? 20)) with false. cbv iota. do 6 rfield.
  rewrite !SetBytes_numBytes, !bytes_to_N_addrBytes by done. destruct tx. cbn in *. subst. apply runs_ok.
Qed.

Lemma hashSetBytes_hashBytes h : (h < 2 ^ 256)%N -> hashSetBytes (hashBytes h) = h.
Proof. intros Hh. unfold hashSetBytes. rewrite length_hashBytes. cbn [Nat.sub drop]. by apply bytes_to_N_hashBytes. Qed.

(** The type byte and what it selects. *)
Lemma runs_decodeTyped tx b fs : tx_ok tx -> typed tx ->
  runs (at_ ((rlpLst (fieldsOf tx) ++ b) :: fs)) (decodeTyped [byte.of_Z (txType tx)]) (inr tx) (at_ (b :: fs)).
Proof.
  intros [_ Hok] Ht. destruct tx as [tx p sig|ch tx p al sig|ch tx tip cap al sig|h tx]; [done|..]; unfold decodeTyped; cbn [txType fieldsOf];
    rewrite byte_small by done.
  - apply runs_AccessListTx; apply Hok.
  - apply runs_DynamicFeeTx; apply Hok.
  - destruct Hok as (Hh & Hn & Hf & (a & Ha & Hb) & Hg). rewrite <- (hashSetBytes_hashBytes h) at 2 by done.
    by apply (runs_DepositTx (hashBytes h) tx a).
Qed.

(** DecodeTransaction reads back what EncodeRLP writes, what MarshalBinary
    writes, and an enveloped deposit. *)
Lemma runs_DecodeTransaction_binary tx b fs : tx_ok tx ->
  runs (at_ ((typedBytes tx ++ b) :: fs)) DecodeTransaction (inr tx) (at_ (b :: fs)).
Proof.
  intros Hok. assert (typed tx \/ exists t p sig, tx = WLegacy t p sig) as [Ht|(t & p & sig & ->)] by (destruct tx; cbn; eauto 6).
  - assert (typedBytes tx = byte.of_Z (txType tx) :: rlpLst (fieldsOf tx)) as -> by by destruct tx.
    assert (0 <= txType tx < 128) as Hb by by destruct tx.
    cbn [app]. unfold DecodeTransaction. eapply runs_bind; [apply runs_Kind_Byte; rewrite byte_small; lia|]. cbv iota.
    eapply runs_bind; [apply runs_Bytes_ahead_Byte|]. rewrite byte.of_Z_unsigned. by apply runs_decodeTyped.
  - cbn [typedBytes fieldsOf]. unfold rlpLst. rewrite <- app_assoc. unfold DecodeTransaction.
    eapply runs_bind; [apply runs_Kind_List; rewrite len_app; len_facts; lia|]. apply runs_Legacy, Hok.
Qed.

Lemma runs_DecodeTransaction_envelope tx b fs : tx_ok tx -> typed tx ->
  runs (at_ ((rlpStr (typedBytes tx) ++ b) :: fs)) DecodeTransaction (inr tx) (at_ (b :: fs)).
Proof.
  intros Hok Ht. assert (typedBytes tx = byte.of_Z (txType tx) :: rlpLst (fieldsOf tx)) as -> by by destruct tx.
  assert (0 <= txType tx < 128) as Hb by by destruct tx.
  rewrite rlpStr_typed, <- app_assoc. change ([byte.of_Z (txType tx)] ++ rlpLst (fieldsOf tx)) with (byte.of_Z (txType tx) :: rlpLst (fieldsOf tx)).
  set (c := byte.of_Z (txType tx) :: rlpLst (fieldsOf tx)). unfold DecodeTransaction.
  eapply runs_bind; [apply runs_Kind_String; rewrite len_app; len_facts; lia|]. cbv iota.
  intros s Hs. destruct (at_NewList _ _ _ _ _ _ Hs) as (s1 & E1 & H1). rewrite (M_bind_Ok _ _ _ _ _ E1). clear E1. revert s1 H1.
  assert (c = rlpStr [byte.of_Z (txType tx)] ++ rlpLst (fieldsOf tx) ++ []) as ->.
  { unfold rlpStr. cbn [single]. rewrite byte_small, (proj2 (Z.ltb_lt _ _)) by lia. by rewrite app_nil_r. }
  eapply runs_bind; [apply runs_Bytes|]. eapply runs_bind; [by apply runs_decodeTyped|].
  eapply runs_bind; [apply runs_ListEnd|]. apply runs_ok.
Qed.

Lemma runs_DecodeTransaction tx b fs : tx_ok tx ->
  runs (at_ ((rlpTx tx ++ b) :: fs)) DecodeTransaction (inr tx) (at_ (b :: fs)).
Proof.
  intros Hok. destruct tx; cbn [rlpTx]; by (apply runs_DecodeTransaction_binary || apply runs_DecodeTransaction_envelope).
Qed.

(** * Safety *)
Lemma safe_decodeKeys n acc : safe_upto n 0 (decodeKeys n acc).
Proof.
  revert acc. induction n as [|n IH]; intros acc.
  - intros s _ Hn. pose proof (measure_nonneg s). lia.
  - apply safe_upto_turn; [apply safe_Bytes| |].
    + intros e. case_match; auto with stream.
    + intros b. cbv iota. case_match; [apply safe_upto_safe; auto with stream|apply IH].
Qed.

Lemma safe_decodeTuple : safe 0 decodeTuple.
Proof.
  unfold decodeTuple. safe_steps. apply safe_fuel. intros n. apply safe_upto_bind; [apply safe_decodeKeys|].
  intros keys. apply safe_upto_safe. safe_steps.
Qed.

Lemma safe_decodeTuples n acc : safe_upto n 0 (decodeTuples n acc).
Proof.
  revert acc. induction n as [|n IH]; intros acc.
  - intros s _ Hn. pose proof (measure_nonneg s). lia.
  - apply safe_upto_turn; [apply safe_List| |].
    + intros e. case_match; auto with stream.
    + intros b. apply safe_upto_bind; [apply safe_upto_safe, safe_decodeTuple|]. intros t. apply IH.
Qed.

Lemma safe_decodeAccessList : safe 0 decodeAccessList.
Proof.
  unfold decodeAccessList. safe_steps. apply safe_fuel. intros n. apply safe_upto_bind; [apply safe_decodeTuples|].
  intros al. apply safe_upto_safe. safe_steps.
Qed.

#[local] Hint Resolve safe_decodeAccessList : stream.

Lemma safe_AccessList_DecodeRLP : safe 0 AccessList_DecodeRLP.
Proof. unfold AccessList_DecodeRLP. safe_steps. Qed.

Lemma safe_DynamicFee_DecodeRLP : safe 0 DynamicFee_DecodeRLP.
Proof. unfold DynamicFee_DecodeRLP. safe_steps. Qed.

Lemma safe_Deposit_DecodeRLP : safe 0 Deposit_DecodeRLP.
Proof. unfold Deposit_DecodeRLP. safe_steps. Qed.

Lemma safe_decodeTyped b : safe 0 (decodeTyped b).
Proof.
  unfold decodeTyped. destruct b as [|b []]; [apply safe_fail| |apply safe_fail].
  repeat case_match; [apply safe_AccessList_DecodeRLP|apply safe_DynamicFee_DecodeRLP|apply safe_Deposit_DecodeRLP|apply safe_fail].
Qed.

#[local] Hint Resolve safe_decodeTyped : stream.

(** DecodeTransaction returns on every input, and uses some of it up. *)
Lemma safe_DecodeTransaction : safe 1 DecodeTransaction.
Proof.
  apply safe_Kind_bind. intros k sz. destruct k.
  - apply safe_from_safe. safe_steps.
  - apply (safe_NewList 0); [done|]. safe_steps.
  - apply (safe_NewList 0); [done|]. safe_steps.
Qed.

(** * Only canonical encodings are accepted *)

Lemma addrBytes_bytes b : len b = 20 -> addrBytes (bytes_to_N b) = b /\ (bytes_to_N b < 2 ^ 160)%N.
Proof.
  intros Hl. unfold addrBytes, bytes_to_N. pose proof (be_combine_bound b) as Hb. fold (len b) in Hb. rewrite Hl in Hb.
  rewrite Z2N.id by lia. split; [|lia]. replace 20%nat with (length b) by (unfold len in Hl; lia). apply be_split_combine.
Qed.

Lemma hashBytes_bytes b : len b = 32 -> hashBytes (bytes_to_N b) = b /\ (bytes_to_N b < 2 ^ 256)%N.
Proof.
  intros Hl. unfold hashBytes, bytes_to_N. pose proof (be_combine_bound b) as Hb. fold (len b) in Hb. rewrite Hl in Hb.
  rewrite Z2N.id by lia. split; [|lia]. replace 32%nat with (length b) by (unfold len in Hl; lia). apply be_split_combine.
Qed.

Lemma to_Z_number x : be_combine x < 2 ^ 256 -> to_Z (SetBytes x) = be_combine x.
Proof. intros Hx. rewrite to_Z_SetBytes. apply Z.mod_small. split; [|exact Hx]. apply be_combine_bound. Qed.

Lemma decodeKeys_inv n acc s b fs keys s' : at_ (b :: fs) s -> decodeKeys n acc s = Ok (inr keys, s') ->
  exists l, keys = acc ++ l /\ b = rlpKeys l /\ Forall (fun h => (h < 2 ^ 256)%N) l /\ at_ ([] :: fs) s'.
Proof.
  revert acc s b. induction n as [|n IH]; intros acc s b Hs E; [done|]. cbn [decodeKeys] in E.
  apply M_bind_inv in E as ([e|x] & s1 & E1 & E).
  - destruct (errors_Is e EOL) eqn:He; [|done]. injection E as <- <-. destruct (eol_only_Bytes _ _ _ _ _ Hs E1 He) as (-> & _ & _ & H1).
    exists []. by rewrite app_nil_r.
  - destruct (accepts_Bytes _ _ _ _ _ Hs E1) as (b1 & -> & _ & H1). destruct (Z.eqb_spec (len x) 32) as [Hx|]; [|done]. cbn [negb] in E.
    destruct (IH _ _ _ H1 E) as (l & -> & -> & Hl & H2). destruct (hashBytes_bytes x Hx) as [Hb Hlt]. exists (bytes_to_N x :: l).
    rewrite <- app_assoc. split_and!; try done; [|by apply Forall_cons_iff]. unfold rlpKeys. cbn [map concat]. by rewrite Hb.
Qed.

Lemma decodeTuple_inv s b fs t s' : at_ (b :: fs) s -> decodeTuple s = Ok (inr t, s') ->
  b = rlpStr (addrBytes t.1) ++ rlpLst (rlpKeys t.2) /\ tuple_ok t /\ exists b' fs', fs = b' :: fs' /\ at_ (b' :: fs') s'.
Proof.
  intros Hs E. unfold decodeTuple in E. field_inv Hs E. destruct (Z.eqb_spec (len x) 20) as [Hx|]; [|done]. cbn [negb] in E.
  field_inv Hs E. apply M_bind_inv in E as (n & s2 & E1 & E). injection E1 as <- <-.
  apply D_bind_inv in E as (keys & s2 & E1 & E). destruct (decodeKeys_inv _ _ _ _ _ _ _ Hs E1) as (l & -> & -> & Hl & H1). clear Hs. rename H1 into Hs.
  field_inv Hs E. field_inv Hs E. injection E as <- <-. destruct (addrBytes_bytes x Hx) as [Ha Hlt]. cbn [fst snd]. rewrite Ha, app_nil_r.
  split_and!; [done|done|]. eauto.
Qed.

Lemma decodeTuples_inv n acc s b fs al s' : at_ (b :: fs) s -> decodeTuples n acc s = Ok (inr al, s') ->
  exists l, al = acc ++ l /\ b = rlpAccessList l /\ Forall tuple_ok l /\ at_ ([] :: fs) s'.
Proof.
  revert acc s b. induction n as [|n IH]; intros acc s b Hs E; [done|]. cbn [decodeTuples] in E.
  apply M_bind_inv in E as ([e|x] & s1 & E1 & E).
  - destruct (errors_Is e EOL) eqn:He; [|done]. injection E as <- <-. destruct (eol_only_List _ _ _ _ _ Hs E1 He) as (-> & _ & _ & H1).
    exists []. by rewrite app_nil_r.
  - destruct (List_inv _ _ _ _ _ Hs E1) as (c & b1 & -> & _ & H1). apply D_bind_inv in E as (t & s2 & E2 & E).
    destruct (decodeTuple_inv _ _ _ _ _ H1 E2) as (-> & Ht & b2 & fs2 & Ef & H2). injection Ef as <- <-.
    destruct (IH _ _ _ H2 E) as (l & -> & -> & Hl & H3). exists (t :: l). rewrite <- app_assoc. split_and!; try done. by apply Forall_cons_iff.
Qed.

Lemma decodeAccessList_inv s b fs al s' : at_ (b :: fs) s -> decodeAccessList s = Ok (inr al, s') ->
  exists b', b = rlpLst (rlpAccessList al) ++ b' /\ Forall tuple_ok al /\ at_ (b' :: fs) s'.
Proof.
  intros Hs E. unfold decodeAccessList in E. field_inv Hs E. apply M_bind_inv in E as (n & s2 & E1 & E). injection E1 as <- <-.
  apply D_bind_inv in E as (l & s2 & E1 & E). destruct (decodeTuples_inv _ _ _ _ _ _ _ Hs E1) as (l' & -> & -> & Hl & H1). clear Hs. rename H1 into Hs.
  field_inv Hs E. injection E as <- <-. cbn [app]. eauto.
Qed.

(** The bytes read for To. *)
Lemma rlpTo_bytes b : (0 <? len b) && negb (len b =? 20) = false ->
  rlpStr b = rlpTo (decodeTo b) /\ match decodeTo b with Some a => (a < 2 ^ 160)%N | None => True end.
Proof.
  intros Hb. unfold decodeTo, rlpTo. destruct (Z.ltb_spec 0 (len b)) as [Hl|Hl]; cbn [andb] in Hb.
  - destruct (Z.eqb_spec (len b) 20) as [H20|]; [|done]. destruct (addrBytes_bytes b H20) as [-> Hlt]. done.
  - destruct b as [|x b]; [done|]. rewrite len_cons in Hl. len_facts. lia.
Qed.

Lemma Legacy_inv sz bv b fs s tx s' : ahead List sz bv b fs s -> Legacy_DecodeRLP sz s = Ok (inr tx, s') ->
  exists t p sig b', tx = WLegacy t p sig /\ b = legacyFields t p sig ++ b' /\ sz = len (legacyFields t p sig) /\ common_ok t /\ at_ (b' :: fs) s'.
Proof.
  intros Ha E. unfold Legacy_DecodeRLP in E. destruct (NewList_ahead _ _ _ _ _ _ Ha) as (c & b' & s1 & -> & Hc & E1 & Hs).
  rewrite (M_bind_Ok _ _ _ _ _ E1) in E. clear E1.
  do 4 field_inv Hs E. destruct ((0 <? len x2) && negb (len x2 =? 20)) eqn:Ht; [done|]. apply rlpTo_bytes in Ht as [Ht Hto].
  do 6 field_inv Hs E. injection E as <- <-. do 4 eexists. split; [done|]. unfold legacyFields, rlpSig. cbn [Tx.Nonce Tx.Gas Tx.To Tx.Value Tx.Data sig_V sig_R sig_S].
  rewrite !to_Z_number, <- Ht by done. rewrite app_nil_r in Hc |- *. by split_and!.
Qed.

Lemma AccessList_inv b fs s tx s' : at_ (b :: fs) s -> AccessList_DecodeRLP s = Ok (inr tx, s') ->
  exists c t p al sig b', tx = WAccessList c t p al sig /\ b = rlpLst (accessListFields c t p al sig) ++ b' /\ common_ok t /\ Forall tuple_ok al /\
    at_ (b' :: fs) s'.
Proof.
  intros Hs E. unfold AccessList_DecodeRLP in E. field_inv Hs E.
  do 5 field_inv Hs E. destruct ((0 <? len _) && negb (_ =? 20)) eqn:Ht; [done|]. apply rlpTo_bytes in Ht as [Ht Hto].
  do 2 field_inv Hs E. apply D_bind_inv in E as (al & ? & E1 & E). apply wrapf_inv in E1.
  destruct (decodeAccessList_inv _ _ _ _ _ Hs E1) as (? & -> & Hal & H1). clear Hs. rename H1 into Hs.
  do 4 field_inv Hs E. injection E as <- <-. do 6 eexists. split; [done|]. unfold accessListFields, rlpSig.
  cbn [Tx.Nonce Tx.Gas Tx.To Tx.Value Tx.Data sig_V sig_R sig_S]. rewrite !to_Z_number, <- Ht, app_nil_r by done. by split_and!.
Qed.

Lemma DynamicFee_inv b fs s tx s' : at_ (b :: fs) s -> DynamicFee_DecodeRLP s = Ok (inr tx, s') ->
  exists c t tip cap al sig b', tx = WDynamicFee c t tip cap al sig /\ b = rlpLst (dynamicFeeFields c t tip cap al sig) ++ b' /\ common_ok t /\
    Forall tuple_ok al /\ at_ (b' :: fs) s'.
Proof.
  intros Hs E. unfold DynamicFee_DecodeRLP in E. field_inv Hs E.
  do 6 field_inv Hs E. destruct ((0 <? len _) && negb (_ =? 20)) eqn:Ht; [done|]. apply rlpTo_bytes in Ht as [Ht Hto].
  do 2 field_inv Hs E. apply D_bind_inv in E as (al & ? & E1 & E).
  destruct (decodeAccessList_inv _ _ _ _ _ Hs E1) as (? & -> & Hal & H1). clear Hs. rename H1 into Hs.
  do 4 field_inv Hs E. injection E as <- <-. do 7 eexists. split; [done|]. unfold dynamicFeeFields, rlpSig.
  cbn [Tx.Nonce Tx.Gas Tx.To Tx.Value Tx.Data sig_V sig_R sig_S]. rewrite !to_Z_number, <- Ht, app_nil_r by done. by split_and!.
Qed.

Lemma Deposit_inv b fs s tx s' : at_ (b :: fs) s -> Deposit_DecodeRLP s = Ok (inr tx, s') ->
  exists source t b', tx = WDeposit (hashSetBytes source) t /\ b = rlpLst (depositFields source t) ++ b' /\ at_ (b' :: fs) s'.
Proof.
  intros Hs E. unfold Deposit_DecodeRLP in E. field_inv Hs E. do 2 field_inv Hs E.
  destruct (Z.eqb_spec (len x1) 20) as [Hf|]; [|done]. cbn [negb] in E. field_inv Hs E.
  destruct (Z.eqb_spec (len x2) 20) as [Ht|]; [|done]. cbn [negb] in E. do 6 field_inv Hs E. injection E as <- <-.
  do 3 eexists. split; [done|]. unfold depositFields, rlpTo. cbn [Tx.d_From Tx.d_To Tx.d_Mint Tx.d_Value Tx.d_GasLimit Tx.d_IsSystemTx Tx.d_Data].
  rewrite !to_Z_number by done. destruct (addrBytes_bytes x1 Hf) as [-> _], (addrBytes_bytes x2 Ht) as [-> _]. by rewrite app_nil_r.
Qed.

(** What stands for a transaction: its canonical bytes, but for the source
    hash of a deposit. *)
Definition wireForm (tx : WireTx) (body : list Byte.byte) : Prop :=
  match tx with
  | WDeposit h t => exists source, h = hashSetBytes source /\ body = byte.of_Z DepositTxType :: rlpLst (depositFields source t)
  | _ => body = typedBytes tx
  end.

Definition fields_ok (tx : WireTx) : Prop :=
  match tx with
  | WLegacy t _ _ => common_ok t
  | WAccessList _ t _ al _ | WDynamicFee _ t _ _ al _ => common_ok t /\ Forall tuple_ok al
  | WDeposit _ _ => True
  end.

Lemma decodeTyped_inv x b fs s tx s' : at_ (b :: fs) s -> decodeTyped x s = Ok (inr tx, s') ->
  exists t body b', x = [t] /\ byte.unsigned t < 128 /\ t :: b = body ++ b' /\ single body = false /\ typed tx /\ fields_ok tx /\ wireForm tx body /\
    at_ (b' :: fs) s'.
Proof.
  intros Hs E. unfold decodeTyped in E. destruct x as [|t []]; try done. exists t.
  assert (t = byte.of_Z (byte.unsigned t)) as Et by by rewrite byte.of_Z_unsigned.
  destruct (Z.eqb_spec (byte.unsigned t) AccessListTxType) as [Ha|].
  { destruct (AccessList_inv _ _ _ _ _ Hs E) as (c & tx' & p & al & sig & b' & -> & -> & H1 & H2 & H3).
    exists (typedBytes (WAccessList c tx' p al sig)), b'. rewrite Et, Ha. split_and!; try done. apply typed_not_single. }
  destruct (Z.eqb_spec (byte.unsigned t) DynamicFeeTxType) as [Ha|].
  { destruct (DynamicFee_inv _ _ _ _ _ Hs E) as (c & tx' & tip & cap & al & sig & b' & -> & -> & H1 & H2 & H3).
    exists (typedBytes (WDynamicFee c tx' tip cap al sig)), b'. rewrite Et, Ha. split_and!; try done. apply typed_not_single. }
  destruct (Z.eqb_spec (byte.unsigned t) DepositTxType) as [Ha|]; [|done].
  destruct (Deposit_inv _ _ _ _ _ Hs E) as (source & tx' & b' & -> & -> & H1).
  exists (byte.of_Z DepositTxType :: rlpLst (depositFields source tx')), b'. rewrite Et, Ha. split_and!; try done; [apply typed_not_single|].
  by exists source.
Qed.

Lemma DecodeTransaction_inv b fs s tx s' : at_ (b :: fs) s -> DecodeTransaction s = Ok (inr tx, s') ->
  exists body b', wireForm tx body /\ (b = body ++ b' \/ typed tx /\ b = rlpStr body ++ b') /\ fields_ok tx /\ at_ (b' :: fs) s'.
Proof.
  intros Hs E. apply D_bind_inv in E as ([k sz] & s1 & E1 & E). destruct (Kind_at_inv _ _ _ _ _ _ Hs E1) as (bv & b1 & -> & Ha & Hb & Hk).
  destruct k.
  - rewrite (Hk eq_refl) in *. apply D_bind_inv in E as (x & s2 & E2 & E). destruct (runs_Bytes_ahead_Byte _ _ _ _ Ha) as (s3 & E3 & H3).
    rewrite E2 in E3. injection E3 as -> ->. destruct (decodeTyped_inv _ _ _ _ _ _ H3 E) as (t & body & b' & [= <-] & _ & Hb' & _ & Ht & Hf & Hw & H4).
    exists body, b'. split_and!; try done. by left.
  - destruct (NewList_ahead _ _ _ _ _ _ Ha) as (c & b' & s2 & -> & <- & E2 & H2). rewrite (M_bind_Ok _ _ _ _ _ E2) in E. clear E2.
    field_inv H2 E. apply D_bind_inv in E as (tx' & s3 & E3 & E).
    destruct (decodeTyped_inv _ _ _ _ _ _ H2 E3) as (t & body & b2 & -> & Ht0 & Hb2 & Hsg & Ht & Hf & Hw & H4).
    field_inv H4 E. injection E as <- <-. exists body, b'. split_and!; try done. right. split; [done|].
    assert (rlpStr [t] ++ b = body) as ->; [|unfold rlpStr, tagOf; rewrite Hsg; by rewrite app_assoc].
    unfold rlpStr. cbn [single]. rewrite (proj2 (Z.ltb_lt _ _)) by done. cbn [app]. by rewrite Hb2, app_nil_r.
  - destruct (Legacy_inv _ _ _ _ _ _ _ Ha E) as (t & p & sig & b' & -> & -> & -> & Hc & H1).
    exists (typedBytes (WLegacy t p sig)), b'. split_and!; try done. left. cbn [tagOf typedBytes fieldsOf]. unfold rlpLst. by rewrite <- app_assoc.
Qed.
End spec.
