(* ===== verification/TxCodecTheorems.v ===== *)
(** What the transaction encodings of [TxCodec] promise their callers: round
    trips, termination of the decoder on every input, and the form of the
    inputs that it accepts. *)
From S2P Require Import Prelude Uint256 StateTypes Accounts AccountSpec Transaction Rlp RlpStream RlpSpec StreamSpec StreamSafe TxCodec TxCodecSpec.
#[local] Open Scope Z_scope.

Section theorems.
Context {U : Uint256} {US : Uint256Spec U} {UC : Uint256Codec U} {UCS : Uint256CodecSpec U UC}.
Context {EB : EncoderBuffer} {EBS : EncoderBufferSpec EB}.
Implicit Types (tx : WireTx) (data : list Byte.byte) (pooled : Stream).

(** EncodingSize counts the canonical form without the header of a legacy
    transaction's list. *)
Definition sizedBytes (tx : WireTx) : list Byte.byte :=
  match tx with WLegacy _ _ _ => fieldsOf tx | _ => typedBytes tx end.

Lemma EncodingSize_spec tx : tx_ok tx -> EncodingSize tx = Ok (len (sizedBytes tx)).
Proof.
  intros Hok. pose proof (MarshalBinary_emits tx Hok) as Hm. destruct Hok as [_ Hok].
  destruct tx; cbn [EncodingSize sizedBytes typedBytes fieldsOf txType MarshalBinary] in *.
  - by rewrite Legacy_payloadSize_spec.
  - rewrite AccessList_payloadSize_spec by apply Hok. by rewrite (envelopeSize_spec (byte.of_Z AccessListTxType)).
  - rewrite DynamicFee_payloadSize_spec by apply Hok. by rewrite (envelopeSize_spec (byte.of_Z DynamicFeeTxType)).
  - by rewrite (emits_written 33 _ _ (le_n _) Hm).
Qed.

Lemma at_NewStream data : len data < 2 ^ 47 -> at_ [data] (NewStream true data (len data)).
Proof. intros Hl. apply at_Reset; [done|by left]. Qed.

Lemma Unmarshal_runs data rest tx : len data < 2 ^ 47 -> runs (at_ [data]) DecodeTransaction (inr tx) (at_ [rest]) ->
  UnmarshalTransactionFromBinary data = Ok (inr tx).
Proof.
  intros Hl Hr. unfold UnmarshalTransactionFromBinary. destruct (Hr _ (at_NewStream data Hl)) as (s' & -> & _). done.
Qed.

Lemma len_rlpTx tx : len (typedBytes tx) < 2 ^ 46 -> len (rlpTx tx) < 2 ^ 47.
Proof.
  intros Hl. assert (len (rlpStr (typedBytes tx)) < 2 ^ 47).
  { rewrite len_rlpStr. len_facts. pose proof (byteLen_le (len (typedBytes tx)) 8). unfold headsize, intsize. repeat case_match; lia. }
  destruct tx; cbn [rlpTx] in *; lia.
Qed.


(** The decoders of transactions return on every input: no input makes
    them panic, wait or run forever. *)
Theorem DecodeTransaction_total pooled data : len data < 2 ^ 47 ->
  (exists res, DecodeBytes pooled DecodeTransaction data = Ok res) /\ (exists res, UnmarshalTransactionFromBinary data = Ok res).
Proof.
  intros Hl. split; [by apply (DecodeBytes_safe _ _ 1), safe_DecodeTransaction|].
  unfold UnmarshalTransactionFromBinary. destruct (safe_DecodeTransaction (NewStream true data (len data))) as (res & s' & -> & _); [|eauto].
  by eapply at_inv; [apply at_NewStream|].
Qed.

Lemma fields_tx_ok tx : fields_ok tx -> txType tx <> DepositTxType -> len (typedBytes tx) < 2 ^ 46 -> tx_ok tx.
Proof. intros Hf Ht Hl. split; [done|]. by destruct tx. Qed.

(** C28: a transaction that DecodeTransaction accepts and that is not a deposit
    came in the one form MarshalBinary writes, or, for a typed one, in that form
    inside a string: no two byte strings without an envelope decode to the
    same transaction. *)
Theorem DecodeTransaction_canonical pooled data tx :
  len data < 2 ^ 46 -> DecodeBytes pooled DecodeTransaction data = Ok (inr tx) -> txType tx <> DepositTxType ->
  exists body, written 33 (MarshalBinary tx) = Ok body /\ (data = body \/ typed tx /\ data = rlpStr body).
Proof.
  intros Hl E Ht. assert (len data < 2 ^ 47) as Hl' by lia.
  destruct (DecodeBytes_inv _ _ _ _ Hl' E) as (s & s' & Hs & Ed & Hr).
  destruct (DecodeTransaction_inv _ _ _ _ _ Hs Ed) as (body & b' & Hw & Hb & Hf & [Hv _]).
  pose proof (v_r _ _ Hv) as Hr'. rewrite Hr in Hr'. cbn [concat] in Hr'. rewrite app_nil_r in Hr'. subst b'. rewrite !app_nil_r in Hb.
  assert (body = typedBytes tx) as -> by by destruct tx. exists (typedBytes tx). split; [|done].
  apply emits_written, MarshalBinary_emits; [done|]. apply fields_tx_ok; [done..|]. pose proof (len_le_rlpStr (typedBytes tx)).
  destruct Hb as [->|[_ ->]]; lia.
Qed.

(** UnmarshalTransactionFromBinary does not look at what follows the
    transaction, so any bytes after it are accepted. *)
Theorem Unmarshal_ignores_trailing tx junk : tx_ok tx -> len junk < 2 ^ 46 ->
  UnmarshalTransactionFromBinary (typedBytes tx ++ junk) = Ok (inr tx).
Proof.
  intros Hok Hj. apply (Unmarshal_runs _ junk); [rewrite len_app; destruct Hok; lia|]. by apply runs_DecodeTransaction_binary.
Qed.

(** The length of the source hash of a deposit is not checked: with any
    bytes in its place the deposit is accepted, with the hash that SetBytes
    makes of them. *)
Theorem deposit_source_any source (t : Tx.DepositTransaction) a pooled :
  let data := byte.of_Z DepositTxType :: rlpLst (depositFields source t) in
  len data < 2 ^ 47 -> tx_ok (WDeposit 0%N t) -> Tx.d_To t = Some a ->
  DecodeBytes pooled DecodeTransaction data = Ok (inr (WDeposit (hashSetBytes source) t)).
Proof.
  intros data Hl (_ & _ & Hn & Hf & (a' & Ha' & Hb) & Hg) Ha. rewrite Ha in Ha'. injection Ha' as <-.
  apply DecodeBytes_runs; [done|]. subst data. unfold DecodeTransaction.
  eapply runs_bind; [apply runs_Kind_Byte; rewrite byte_small; done|]. cbv iota.
  eapply runs_bind; [apply runs_Bytes_ahead_Byte|]. rewrite byte.of_Z_unsigned.
  unfold decodeTyped. rewrite byte_small by done. rewrite <- (app_nil_r (rlpLst _)). by apply (runs_DepositTx source t a).
Qed.
End theorems.

(** * Concrete libraries *)
#[export] Instance wordCodec : Uint256Codec U256 := {
  u256_EncodeRLP x := rlpNumber (to_Z x);
  u256_Bytes x := numBytes (to_Z x)
}.

#[export] Instance wordCodec_spec : Uint256CodecSpec U256 wordCodec.
Proof. by split. Qed.

Definition appendTop (bs : list Byte.byte) (e : list (Z * list Byte.byte)) : list (Z * list Byte.byte) :=
  match e with (i, c) :: st => (i, c ++ bs) :: st | [] => [] end.

#[export] Instance listBuffer : EncoderBuffer := {
  encoderBuffer := list (Z * list Byte.byte);
  NewEncoderBuffer := [(0, [])];
  WriteUint64 v := appendTop (rlpNumber v);
  WriteBool v := appendTop (rlpBool v);
  WriteBytes v := appendTop (rlpStr v);
  eb_List e := (len e, (len e, []) :: e);
  eb_ListEnd i e := match e with (_, c) :: st => appendTop (rlpLst c) st | [] => [] end;
  ToBytes e := match e with (_, c) :: _ => c | [] => [] end
}.

#[export] Instance listBuffer_spec : EncoderBufferSpec listBuffer.
Proof.
  refine {| eb_content := (fun e => e : list (Z * list Byte.byte)) : @encoderBuffer listBuffer -> _ |}; cbn.
  - by exists 0.
  - by intros v e i c st _ ->.
  - by intros v e i c st ->.
  - by intros v e i c st ->.
  - done.
  - by intros e i c j d st ->.
  - by intros e i c ->.
Defined.

(** A transfer with an access list, and a deposit. *)
Definition demoSig : Signature := mk_Signature (w 1) (w 0x1234) (w 0x5678).

Definition demoTransfer : WireTx :=
  WDynamicFee (w 288) (Tx.mk_CommonTx 7 21000 (Some 0xABCD%N) (w 1000000) [Byte.x01; Byte.x80]) (w 1) (w 300) [(0xABCD%N, [1%N; 2%N])] demoSig.

Definition demoDeposit : Tx.DepositTransaction := Tx.mk_Deposit DepositsNonce 1%N (Some 2%N) (w 5) (w 3) 21000 false [].

Ltac evaluate := vm_compute; repeat split; try reflexivity; try discriminate.

Lemma demoTransfer_ok : tx_ok demoTransfer.
Proof.
  split; [by vm_compute|]. split; [by evaluate|]. repeat constructor.
Qed.

Lemma demoDeposit_ok : tx_ok (WDeposit 0%N demoDeposit).
Proof.
  split; [by vm_compute|]. split_and!; try done. by exists 2%N.
Qed.


Lemma DecodeTransaction_total_witness :
  (exists res, DecodeBytes zeroStream DecodeTransaction [Byte.xf8; Byte.xff] = Ok res) /\
  (exists res, UnmarshalTransactionFromBinary [Byte.xf8; Byte.xff] = Ok res).
Proof. apply (DecodeTransaction_total zeroStream [Byte.xf8; Byte.xff]). by vm_compute. Defined.

Lemma DecodeTransaction_canonical_witness :
  exists body, written 33 (MarshalBinary demoTransfer) = Ok body /\
    (rlpTx demoTransfer = body \/ typed demoTransfer /\ rlpTx demoTransfer = rlpStr body).
Proof.
  refine (DecodeTransaction_canonical zeroStream (rlpTx demoTransfer) demoTransfer _ _ _); [by vm_compute| |discriminate].
  vm_cast_no_check (@eq_refl (outcome (RlpError + WireTx)) (Ok (inr demoTransfer))).
Defined.

Lemma Unmarshal_ignores_trailing_witness :
  UnmarshalTransactionFromBinary (typedBytes demoTransfer ++ [Byte.xff]) = Ok (inr demoTransfer).
Proof. apply (Unmarshal_ignores_trailing demoTransfer [Byte.xff] demoTransfer_ok). by vm_compute. Defined.

Lemma deposit_source_any_witness :
  DecodeBytes zeroStream DecodeTransaction (byte.of_Z DepositTxType :: rlpLst (depositFields [] demoDeposit)) = Ok (inr (WDeposit 0%N demoDeposit)).
Proof. apply (deposit_source_any [] demoDeposit 2%N zeroStream); [by vm_compute|exact demoDeposit_ok|done]. Defined.
