(* ===== verification/BlockCodec.v ===== *)
(** The encodings of headers, withdrawals, bodies and blocks
    (core/types/block.go, core/types/withdrawal.go): the sizes computed in
    advance, EncodeRLP, DecodeRLP, and the SSZ encodings of headers and
    withdrawals.

    The key-value pairs of a Verkle header are a type of another package; the
    bytes [rlp.Encode] gives for them are the argument [encodeKeyVals]. *)
From S2P Require Import Prelude Uint256 StateTypes Accounts Transaction Rlp RlpStream TxCodec.
#[local] Open Scope Z_scope.

(** [rlp.Encode(w, i)] for an unsigned number, through a fresh encbuf. *)
Definition EncodeUint (i : Z) : M writer unit := fun w =>
  r ← encbuf.encodeUint i encbuf.new;
  bs ← encbuf.toWriter r.2;
  Write bs w.

(** [s.Decode(&i)] for an unsigned number of [bits] bits. *)
Definition decodeUint (bits : Z) : D Z :=
  r ← uint bits; mret (match r with inl err => inl (wrapStreamError err) | inr v => inr v end).

(** [for x, err = elem(s); err == nil; ...] up to the end of the list. *)
Fixpoint decodeLoop {A} (elem : D A) (fuel : nat) (xs : list A) : D (list A) :=
  match fuel with
  | O => out_of_fuel
  | S fuel =>
      x ← elem;
      match x with
      | inr x => decodeLoop elem fuel (xs ++ [x])
      | inl err => if errors_Is err EOL then ok xs else fail err
      end
  end.

(** [s.List()], the elements, [s.ListEnd()]. *)
Definition decodeList {A} (elem : D A) : D (list A) :=
  let! _ := List_ in
  fuel ← loopFuel;
  let! xs := decodeLoop elem fuel [] in
  let! _ := ListEnd in
  ok xs.

(** The size of a list of elements of the given sizes. *)
Fixpoint sizes (l : list Z) : Z := match l with [] => 0 | n :: l => prefixed n + sizes l end.

(** ** Withdrawals *)
Record Withdrawal := mk_Withdrawal { wd_Index : Z; wd_Validator : Z; wd_Address : address; wd_Amount : Z }.

Definition Withdrawal_EncodingSize (o : Withdrawal) : Z :=
  21 + 1 + IntLenExcludingHead (wd_Index o) + 1 + IntLenExcludingHead (wd_Validator o) + 1 + IntLenExcludingHead (wd_Amount o).

Definition Withdrawal_EncodeRLP (o : Withdrawal) : M writer unit :=
  _ ← EncodeStructSizePrefix (Withdrawal_EncodingSize o);
  _ ← EncodeInt (wd_Index o);
  _ ← EncodeInt (wd_Validator o);
  _ ← onBuf (put 0 (128 + 20)); _ ← WriteBuf 0 1;
  _ ← Write (addrBytes (wd_Address o));
  EncodeInt (wd_Amount o).

Definition Withdrawal_DecodeRLP : D Withdrawal :=
  let! _ := List_ in
  let! index := wrapf Uint in
  let! validator := wrapf Uint in
  let! b := wrapf Bytes in
  if negb (len b =? 20) then fail (wrongSize (len b))
  else
    let! amount := wrapf Uint in
    let! _ := ListEnd in
    ok (mk_Withdrawal index validator (bytes_to_N b) amount).

(** Little-endian numbers of cl/cltypes/ssz_utils. *)
Definition Uint64SSZ (x : Z) : list Byte.byte := rev (be_split 8 x).

Definition OffsetSSZ (x : Z) : list Byte.byte := rev (be_split 4 x).

Definition UnmarshalUint64SSZ (x : list Byte.byte) : outcome Z :=
  if len x <? 8 then Panic else Ok (be_combine (rev (take 8 x))).

Definition Withdrawal_EncodingSizeSSZ : Z := 24 + 20.

(** The four writes fill a buffer of 44 bytes. *)
Definition Withdrawal_EncodeSSZ (o : Withdrawal) : outcome (list Byte.byte) :=
  r ← (_ ← copyAt 0 (Uint64SSZ (wd_Index o));
       _ ← copyAt 8 (Uint64SSZ (wd_Validator o));
       _ ← copyAt 16 (addrBytes (wd_Address o));
       copyAt 36 (Uint64SSZ (wd_Amount o)) : M buffer unit)
      (replicate (Z.to_nat Withdrawal_EncodingSizeSSZ) Byte.x00);
  Ok r.2.

(** [None] is ErrLowBufferSize. *)
Definition Withdrawal_DecodeSSZ (buf : list Byte.byte) : outcome (option Withdrawal) :=
  if len buf <? Withdrawal_EncodingSizeSSZ then Ok None
  else
    index ← UnmarshalUint64SSZ buf;
    validator ← UnmarshalUint64SSZ (drop 8 buf);
    amount ← UnmarshalUint64SSZ (drop 36 buf);
    Ok (Some (mk_Withdrawal index validator (bytes_to_N (take 20 (drop 16 buf))) amount)).

(** ** Headers *)
Section header.
Context {K : Type} (encodeKeyVals : K -> list Byte.byte).

Record Header := mk_Header {
  ParentHash : hash;
  UncleHash : hash;
  Coinbase : address;
  HRoot : hash;
  TxHash : hash;
  ReceiptHash : hash;
  HBloom : list Byte.byte;
  HDifficulty : option Z;
  Number : option Z;
  GasLimit : Z;
  GasUsed : Z;
  Time : Z;
  Extra : list Byte.byte;
  MixDigest : hash;
  HNonce : list Byte.byte;
  AuRaStep : Z;
  AuRaSeal : list Byte.byte;
  BaseFee : option Z;
  WithdrawalsHash : option hash;
  Verkle : bool;
  VerkleProof : list Byte.byte;
  VerkleKeyVals : K;
  BlockHashCL : hash;
  TxHashSSZ : hash
}.

Definition bigSize (i : option Z) : Z := 1 + match i with None => 0 | Some i => BigIntLenExcludingHead i end.

Definition Header_EncodingSize (h : Header) : Z :=
  33 + 33 + 21 + 33 + 33 + 33 + 259 +
  bigSize (HDifficulty h) + bigSize (Number h) +
  (1 + IntLenExcludingHead (GasLimit h)) + (1 + IntLenExcludingHead (GasUsed h)) + (1 + IntLenExcludingHead (Time h)) +
  dataSize (Extra h) +
  (if negb (len (AuRaSeal h) =? 0) then
     1 + IntLenExcludingHead (AuRaStep h) + 1 + len (AuRaSeal h) + (if 56 <=? len (AuRaSeal h) then byteLen (len (AuRaSeal h)) else 0)
   else 33 + 9) +
  match BaseFee h with None => 0 | Some _ => bigSize (BaseFee h) end +
  match WithdrawalsHash h with None => 0 | Some _ => 33 end +
  (if Verkle h then dataSize (VerkleProof h) + 1 + len (encodeKeyVals (VerkleKeyVals h)) else 0).

(** [b[0] = tag; w.Write(b[:1]); w.Write(x)], and again for further fields of
    the same size. *)
Definition encodeFixed (tag : Z) (xs : list (list Byte.byte)) : M writer unit :=
  _ ← onBuf (put 0 tag);
  mfor (fun x => _ ← WriteBuf 0 1; Write x) xs.

Definition encodeBloom (bloom : list Byte.byte) : M writer unit :=
  _ ← onBuf (put 0 (183 + 2)); _ ← onBuf (put 1 1); _ ← onBuf (put 2 0); _ ← WriteBuf 0 3;
  Write bloom.

Definition Header_EncodeRLP (h : Header) : M writer unit :=
  _ ← EncodeStructSizePrefix (Header_EncodingSize h);
  _ ← encodeFixed (128 + 32) [hashBytes (ParentHash h); hashBytes (UncleHash h)];
  _ ← encodeFixed (128 + 20) [addrBytes (Coinbase h)];
  _ ← encodeFixed (128 + 32) [hashBytes (HRoot h); hashBytes (TxHash h); hashBytes (ReceiptHash h)];
  _ ← encodeBloom (HBloom h);
  _ ← EncodeBigInt (HDifficulty h);
  _ ← EncodeBigInt (Number h);
  _ ← EncodeInt (GasLimit h);
  _ ← EncodeInt (GasUsed h);
  _ ← EncodeInt (Time h);
  _ ← EncodeString (Extra h);
  _ ← (if 0 <? len (AuRaSeal h) then _ ← EncodeInt (AuRaStep h); EncodeString (AuRaSeal h)
       else _ ← encodeFixed (128 + 32) [hashBytes (MixDigest h)]; encodeFixed (128 + 8) [HNonce h]);
  _ ← match BaseFee h with Some _ => EncodeBigInt (BaseFee h) | None => mret tt end;
  _ ← match WithdrawalsHash h with Some x => encodeFixed (128 + 32) [hashBytes x] | None => mret tt end;
  if Verkle h then _ ← EncodeString (VerkleProof h); Write (encodeKeyVals (VerkleKeyVals h)) else mret tt.

(** [if b, err = s.Bytes(); ...; if len(b) != n ...]. *)
Definition fixedBytes (n : Z) : D (list Byte.byte) :=
  let! b := wrapf Bytes in
  if negb (len b =? n) then fail (wrongSize (len b)) else ok b.

(** What identifies the seal: the step and the seal of AuRa, or the digest and
    the nonce. *)
Definition decodeSeal (h : Header) : D (hash * list Byte.byte * Z * list Byte.byte) :=
  let! ks := wrapf Kind_ in
  if negb (ks.2 =? 32) then
    let! step := wrapf Uint in
    let! seal := wrapf Bytes in
    ok (MixDigest h, HNonce h, step, seal)
  else
    let! digest := wrapf Bytes in
    let! nonce := fixedBytes 8 in
    ok (copyHash (MixDigest h) digest, nonce, AuRaStep h, AuRaSeal h).

(** An optional last field: at the end of the list the header is closed. *)
Definition orClose {A} (m : D (list Byte.byte)) (absent : A) (present : list Byte.byte -> D A) : D A :=
  b ← m;
  match b with
  | inl err => if errors_Is err EOL then let! _ := wrapf ListEnd in ok absent else fail (Wrapf err)
  | inr b => present b
  end.

(** DecodeRLP into [h].  The Verkle pairs are decoded into a slice, not into a
    pointer to one, which [rlp.DecodeBytes] refuses with an error that is
    dropped, so they stay as they are. *)
Definition Header_DecodeRLP (h : Header) : D Header :=
  let! _ := List_ in
  let! parentHash := fixedBytes 32 in
  let! uncleHash := fixedBytes 32 in
  let! coinbase := fixedBytes 20 in
  let! root := fixedBytes 32 in
  let! txHash := fixedBytes 32 in
  let! receiptHash := fixedBytes 32 in
  let! bloom := fixedBytes 256 in
  let! difficulty := wrapf Uint256Bytes in
  let! number := wrapf Uint256Bytes in
  let! gasLimit := wrapf Uint in
  let! gasUsed := wrapf Uint in
  let! time := wrapf Uint in
  let! extra := wrapf Bytes in
  let! seal := decodeSeal h in
  let '(mixDigest, nonce, step, auraSeal) := seal in
  let header baseFee withdrawalsHash verkleProof :=
    mk_Header (bytes_to_N parentHash) (bytes_to_N uncleHash) (bytes_to_N coinbase) (bytes_to_N root) (bytes_to_N txHash)
      (bytes_to_N receiptHash) bloom (Some (be_combine difficulty)) (Some (be_combine number)) gasLimit gasUsed time extra mixDigest nonce
      step auraSeal baseFee withdrawalsHash (Verkle h) verkleProof (VerkleKeyVals h) (BlockHashCL h) (TxHashSSZ h) in
  orClose Uint256Bytes (header None (WithdrawalsHash h) (VerkleProof h)) (fun b =>
  let baseFee := Some (be_combine b) in
  orClose Bytes (header baseFee None (VerkleProof h)) (fun b =>
  if negb (len b =? 32) then fail (wrongSize (len b))
  else
    let withdrawalsHash := Some (bytes_to_N b) in
    let! verkleProof := if Verkle h then let! proof := wrapf Bytes in let! _ := Raw in ok proof else ok (VerkleProof h) in
    let! _ := wrapf ListEnd in
    ok (header baseFee withdrawalsHash verkleProof))).

Inductive SanityError := tooLargeNumber | tooLargeDifficulty | tooLargeExtra | tooLargeBaseFee.

Definition SanityCheck (h : Header) : option SanityError :=
  if match Number h with Some n => negb ((0 <=? n) && (n <? 2 ^ 64)) | None => false end then Some tooLargeNumber
  else if match HDifficulty h with Some d => 192 <? bitLen (Z.abs d) | None => false end then Some tooLargeDifficulty
  else if 100 * 1024 <? len (Extra h) then Some tooLargeExtra
  else if match BaseFee h with Some f => 256 <? bitLen (Z.abs f) | None => false end then Some tooLargeBaseFee
  else None.

(** CopyHeader, as a value: nil difficulty and number become zero. *)
Definition CopyHeader (h : Header) : Header :=
  mk_Header (ParentHash h) (UncleHash h) (Coinbase h) (HRoot h) (TxHash h) (ReceiptHash h) (HBloom h)
    (Some (match HDifficulty h with Some d => d | None => 0 end)) (Some (match Number h with Some n => n | None => 0 end))
    (GasLimit h) (GasUsed h) (Time h) (Extra h) (MixDigest h) (HNonce h) (AuRaStep h) (AuRaSeal h) (BaseFee h) (WithdrawalsHash h)
    (Verkle h) (VerkleProof h) (VerkleKeyVals h) (BlockHashCL h) (TxHashSSZ h).

(** *** SSZ *)
Definition reverseBytes (bs : list Byte.byte) : list Byte.byte := rev bs.

(** [copy(dst[:], src)] into a zeroed array of [n] bytes. *)
Definition padRight (n : nat) (bs : list Byte.byte) : list Byte.byte := take n bs ++ replicate (n - length bs) Byte.x00.

(** The number and the base fee must not be nil. *)
Definition EncodeHeaderMetadataForSSZ (dst : list Byte.byte) (extraDataOffset : Z) (h : Header) : outcome (list Byte.byte) :=
  number ← or_panic (Number h);
  baseFee ← or_panic (BaseFee h);
  let baseFeeBytes := reverseBytes (be_split (Z.to_nat (byteLen (Z.abs baseFee))) (Z.abs baseFee)) in
  Ok (dst ++ hashBytes (ParentHash h) ++ addrBytes (Coinbase h) ++ hashBytes (HRoot h) ++ hashBytes (ReceiptHash h) ++ HBloom h ++
      hashBytes (MixDigest h) ++ Uint64SSZ (u64 (Z.abs number)) ++ Uint64SSZ (GasLimit h) ++ Uint64SSZ (GasUsed h) ++ Uint64SSZ (Time h) ++
      OffsetSSZ extraDataOffset ++ padRight 32 baseFeeBytes ++ hashBytes (BlockHashCL h)).

Definition Header_EncodeSSZ (dst : list Byte.byte) (h : Header) : outcome (list Byte.byte) :=
  let offset := match WithdrawalsHash h with Some _ => 536 + 32 | None => 536 end in
  buf ← EncodeHeaderMetadataForSSZ dst offset h;
  let buf := buf ++ hashBytes (TxHashSSZ h) in
  let buf := match WithdrawalsHash h with Some x => buf ++ hashBytes x | None => buf end in
  Ok (buf ++ Extra h).

Definition Header_EncodingSizeSSZ (capella : bool) (h : Header) : Z :=
  536 + (if match WithdrawalsHash h with Some _ => true | None => capella end then 32 else 0) + len (Extra h).

(** [buf[pos : pos+n]], all of which is copied. *)
Definition sszField (buf : list Byte.byte) (pos n : Z) : outcome (list Byte.byte) := slice buf pos (pos + n).

(** DecodeSSZ into [h]; [None] is ErrLowBufferSize, [capella] tells whether the
    version is Capella or later. *)
Definition Header_DecodeSSZ (EmptyUncleHash : hash) (capella : bool) (buf : list Byte.byte) (h : Header) : outcome (option Header) :=
  if len buf <? Header_EncodingSizeSSZ capella h then Ok None
  else
    parentHash ← sszField buf 0 32;
    coinbase ← sszField buf 32 20;
    root ← sszField buf 52 32;
    receiptHash ← sszField buf 84 32;
    bloom ← sszField buf 116 256;
    mixDigest ← sszField buf 372 32;
    number ← UnmarshalUint64SSZ (drop 404 buf);
    gasLimit ← UnmarshalUint64SSZ (drop 412 buf);
    gasUsed ← UnmarshalUint64SSZ (drop 420 buf);
    time ← UnmarshalUint64SSZ (drop 428 buf);
    baseFee ← sszField buf 440 32;
    blockHash ← sszField buf 472 32;
    txHashSSZ ← sszField buf 504 32;
    withdrawals ← (if capella then x ← sszField buf 536 32; Ok (Some (bytes_to_N x)) else Ok None);
    let pos := if capella then 568%nat else 536%nat in
    Ok (Some (mk_Header (bytes_to_N parentHash) EmptyUncleHash (bytes_to_N coinbase) (bytes_to_N root) (TxHash h) (bytes_to_N receiptHash) bloom
      (Some 0) (Some number) gasLimit gasUsed time (drop pos buf) (bytes_to_N mixDigest) (HNonce h) (AuRaStep h) (AuRaSeal h)
      (Some (be_combine (reverseBytes baseFee))) withdrawals (Verkle h) (VerkleProof h) (VerkleKeyVals h) (bytes_to_N blockHash)
      (bytes_to_N txHashSSZ))).
End header.
Arguments Header : clear implicits.

(** ** Bodies and blocks *)
Section body.
Context {U : Uint256} {UC : Uint256Codec U} {EB : EncoderBuffer} {K : Type} (encodeKeyVals : K -> list Byte.byte) (nilKeyVals : K).

Definition zeroHeader : Header K :=
  mk_Header 0%N 0%N 0%N 0%N 0%N 0%N (replicate 256 Byte.x00) None None 0 0 0 [] 0%N (replicate 8 Byte.x00) 0 [] None None false [] nilKeyVals 0%N 0%N.

(** A nil slice of withdrawals is [None]. *)
Record Body := mk_Body { Transactions : list WireTx; Uncles : list (Header K); Withdrawals : option (list Withdrawal) }.

Record RawBody := mk_RawBody { rb_Transactions : list (list Byte.byte); rb_Uncles : list (Header K); rb_Withdrawals : option (list Withdrawal) }.

Record BodyForStorage := mk_BodyForStorage {
  BaseTxId : Z; TxAmount : Z; bfs_Uncles : list (Header K); bfs_Withdrawals : option (list Withdrawal)
}.

Record Block := mk_Block {
  header : Header K; uncles : list (Header K); transactions : list WireTx; withdrawals : option (list Withdrawal); cachedSize : option Z
}.

Definition unclesLen (us : list (Header K)) : Z := sizes (map (Header_EncodingSize encodeKeyVals) us).

Definition withdrawalsLen (ws : option (list Withdrawal)) : Z :=
  match ws with Some ws => sizes (map Withdrawal_EncodingSize ws) | None => 0 end.

Definition withdrawalsSize (ws : option (list Withdrawal)) : Z :=
  match ws with Some _ => prefixed (withdrawalsLen ws) | None => 0 end.

Definition encodeUncles (us : list (Header K)) : M writer unit :=
  _ ← EncodeStructSizePrefix (unclesLen us);
  mfor (Header_EncodeRLP encodeKeyVals) us.

Definition encodeWithdrawals (ws : option (list Withdrawal)) : M writer unit :=
  match ws with
  | Some l => _ ← EncodeStructSizePrefix (withdrawalsLen ws); mfor Withdrawal_EncodeRLP l
  | None => mret tt
  end.

Definition decodeUncles : D (list (Header K)) := decodeList (Header_DecodeRLP zeroHeader).

(** The withdrawals, and the end of the list around them. *)
Definition decodeWithdrawals : D (option (list Withdrawal)) :=
  opened ← List_;
  match opened with
  | inl err => if errors_Is err EOL then let! _ := ListEnd in ok None else fail (Wrapf err)
  | inr _ =>
      fuel ← loopFuel;
      let! ws := decodeLoop Withdrawal_DecodeRLP fuel [] in
      let! _ := ListEnd in
      let! _ := ListEnd in
      ok (Some ws)
  end.

(** *** RawBody *)
Definition RawBody_txsLen (txs : list (list Byte.byte)) : Z := foldr (fun tx n => len tx + n) 0 txs.

Definition RawBody_payloadSize (rb : RawBody) : Z :=
  prefixed (RawBody_txsLen (rb_Transactions rb)) + prefixed (unclesLen (rb_Uncles rb)) + withdrawalsSize (rb_Withdrawals rb).

Definition RawBody_EncodeRLP (rb : RawBody) : M writer unit :=
  _ ← EncodeStructSizePrefix (RawBody_payloadSize rb);
  _ ← EncodeStructSizePrefix (RawBody_txsLen (rb_Transactions rb));
  _ ← mfor Write (rb_Transactions rb);
  _ ← encodeUncles (rb_Uncles rb);
  encodeWithdrawals (rb_Withdrawals rb).

Definition RawBody_DecodeRLP : D RawBody :=
  let! _ := List_ in
  let! txs := decodeList Raw in
  let! us := decodeUncles in
  let! ws := decodeWithdrawals in
  ok (mk_RawBody txs us ws).

(** *** BodyForStorage *)
Definition BodyForStorage_payloadSize (bfs : BodyForStorage) : Z :=
  (1 + IntLenExcludingHead (BaseTxId bfs)) + (1 + IntLenExcludingHead (TxAmount bfs)) + prefixed (unclesLen (bfs_Uncles bfs)) +
  withdrawalsSize (bfs_Withdrawals bfs).

Definition BodyForStorage_EncodeRLP (bfs : BodyForStorage) : M writer unit :=
  _ ← EncodeStructSizePrefix (BodyForStorage_payloadSize bfs);
  _ ← EncodeUint (BaseTxId bfs);
  _ ← EncodeUint (TxAmount bfs);
  _ ← encodeUncles (bfs_Uncles bfs);
  encodeWithdrawals (bfs_Withdrawals bfs).

Definition BodyForStorage_DecodeRLP : D BodyForStorage :=
  let! _ := List_ in
  let! baseTxId := decodeUint 64 in
  let! txAmount := decodeUint 32 in
  let! us := decodeUncles in
  let! ws := decodeWithdrawals in
  ok (mk_BodyForStorage baseTxId txAmount us ws).

(** *** Body *)

(** The type switch has no case for deposits. *)
Definition Body_txLen (tx : WireTx) : Z :=
  match tx with
  | WLegacy tx p sig => Legacy_payloadSize tx p sig
  | WAccessList c tx p al sig => envelopeSize (AccessList_payloadSize c tx p al sig)
  | WDynamicFee c tx tip cap al sig => envelopeSize (DynamicFee_payloadSize c tx tip cap al sig)
  | WDeposit _ _ => 0
  end.

Definition Body_txsLen (txs : list WireTx) : Z := sizes (map Body_txLen txs).

Definition Body_payloadSize (bb : Body) : Z :=
  prefixed (Body_txsLen (Transactions bb)) + prefixed (unclesLen (Uncles bb)) + withdrawalsSize (Withdrawals bb).

Definition Body_encodeTx (tx : WireTx) : M writer unit :=
  match tx with WDeposit _ _ => mret tt | _ => EncodeTxRLP tx end.

Definition Body_EncodeRLP (bb : Body) : M writer unit :=
  _ ← EncodeStructSizePrefix (Body_payloadSize bb);
  _ ← EncodeStructSizePrefix (Body_txsLen (Transactions bb));
  _ ← mfor Body_encodeTx (Transactions bb);
  _ ← encodeUncles (Uncles bb);
  encodeWithdrawals (Withdrawals bb).

Definition decodeTxs : D (list WireTx) := decodeList DecodeTransaction.

Definition Body_DecodeRLP : D Body :=
  let! _ := List_ in
  let! txs := decodeTxs in
  let! us := decodeUncles in
  let! ws := decodeWithdrawals in
  ok (mk_Body txs us ws).

(** *** Block *)
Fixpoint Block_txsLen (txs : list WireTx) : outcome Z :=
  match txs with
  | [] => Ok 0
  | tx :: txs => txLen ← EncodingSize tx; rest ← Block_txsLen txs; Ok (prefixed txLen + rest)
  end.

Definition Block_payloadSize (bb : Block) : outcome (Z * Z) :=
  txsLen ← Block_txsLen (transactions bb);
  Ok (prefixed (Header_EncodingSize encodeKeyVals (header bb)) + prefixed txsLen + prefixed (unclesLen (uncles bb)) +
      withdrawalsSize (withdrawals bb), txsLen).

Definition Block_EncodeRLP (bb : Block) : M writer unit := fun w =>
  '(payloadSize, txsLen) ← Block_payloadSize bb;
  ( _ ← EncodeStructSizePrefix payloadSize;
    _ ← Header_EncodeRLP encodeKeyVals (header bb);
    _ ← EncodeStructSizePrefix txsLen;
    _ ← mfor EncodeTxRLP (transactions bb);
    _ ← encodeUncles (uncles bb);
    encodeWithdrawals (withdrawals bb) ) w.

Definition Block_DecodeRLP : D Block :=
  let! size := List_ in
  let! h := Header_DecodeRLP zeroHeader in
  let! txs := decodeTxs in
  let! us := decodeUncles in
  let! ws := decodeWithdrawals in
  ok (mk_Block h us txs ws (Some (ListSize size))).
End body.
Arguments Body {_} _.
Arguments RawBody : clear implicits.
Arguments BodyForStorage : clear implicits.
Arguments Block {_} _.
