(* ===== verification/BlockCodecSpec.v ===== *)
(** Headers, withdrawals, bodies and blocks of [BlockCodec]: the bytes every
    encoder writes, that the sizes computed in advance are theirs, and what the
    decoders do with them and with arbitrary input.  Headers and withdrawals come
    first, then RawBody, BodyForStorage, Body and Block. *)
From S2P Require Import Prelude Uint256 StateTypes Accounts AccountSpec Transaction Rlp RlpStream RlpSpec StreamSpec StreamSafe TxCodec TxCodecSpec TxCodecTheorems BlockCodec.
#[local] Open Scope Z_scope.

(** * Pieces *)
Lemma prefixed_len c : prefixed (len c) = len (rlpLst c).
Proof. by rewrite prefixed_spec, len_rlpLst. Qed.

Lemma sizes_spec {A} (size : A -> Z) (enc : A -> list Byte.byte) xs :
  (forall x, In x xs -> prefixed (size x) = len (enc x)) -> sizes (map size xs) = len (concat (map enc xs)).
Proof.
  induction xs as [|x xs IH]; intros Hs; [done|]. cbn [sizes map concat]. rewrite len_app, <- Hs, IH by auto using in_eq, in_cons. done.
Qed.

Lemma emits_encodeFixed1 n bs : len bs = n -> 1 < n < 56 -> emits (encodeFixed (128 + n) [bs]) (rlpStr bs).
Proof.
  intros Hl Hn. rewrite rlpStr_short, Hl by lia. rewrite <- (app_nil_r (byte.of_Z _ :: bs)).
  exact (emits_same_tag (128 + n) (fun x => x) [bs]).
Qed.

Lemma emits_encodeHashes hs : emits (encodeFixed (128 + 32) (map hashBytes hs)) (concat (map (fun h => rlpStr (hashBytes h)) hs)).
Proof.
  rewrite (map_ext _ _ rlpStr_hash). pose proof (emits_same_tag (128 + 32) (fun x => x) (map hashBytes hs)) as He.
  by rewrite map_map in He.
Qed.

Lemma rlpStr_bloom bloom : len bloom = 256 -> rlpStr bloom = [Byte.xb9; Byte.x01; Byte.x00] ++ bloom.
Proof.
  intros Hl. unfold rlpStr. destruct (single bloom) eqn:Hs; [destruct bloom as [|x []]; try done; discriminate Hl|]. by rewrite Hl.
Qed.

Lemma emits_encodeBloom bloom : len bloom = 256 -> emits (encodeBloom bloom) (rlpStr bloom).
Proof.
  intros Hl. rewrite rlpStr_bloom by done. intros out buf Hb.
  destruct buf as [|a [|b [|c buf]]]; try done. exists (Byte.xb9 :: Byte.x01 :: Byte.x00 :: buf). split; [done|]. unfold encodeBloom. change (183 + 2) with 185.
  assert (put 0 185 (a :: b :: c :: buf) = Ok (tt, Byte.xb9 :: b :: c :: buf)) as E1 by by apply (put_spec []).
  erewrite M_bind_Ok; [|unfold onBuf; cbn [w_buf]; rewrite E1; done].
  assert (put 1 1 (Byte.xb9 :: b :: c :: buf) = Ok (tt, Byte.xb9 :: Byte.x01 :: c :: buf)) as E2 by by apply (put_spec [_]).
  erewrite M_bind_Ok; [|unfold onBuf; cbn [w_buf snd]; rewrite E2; done].
  assert (put 2 0 (Byte.xb9 :: Byte.x01 :: c :: buf) = Ok (tt, Byte.xb9 :: Byte.x01 :: Byte.x00 :: buf)) as E3 by by apply (put_spec [_; _]).
  erewrite M_bind_Ok; [|unfold onBuf; cbn [w_buf snd]; rewrite E3; done].
  assert (slice (Byte.xb9 :: Byte.x01 :: Byte.x00 :: buf) 0 3 = Ok [Byte.xb9; Byte.x01; Byte.x00]) as E4 by by apply (slice_app [] [_; _; _] buf).
  erewrite M_bind_Ok; [|unfold WriteBuf; cbn [w_buf snd]; rewrite E4; done]. unfold Write. cbn [w_out w_buf fst snd]. by rewrite <- app_assoc.
Qed.

Lemma runs_fixedBytes n x b fs : len x = n -> runs (at_ ((rlpStr x ++ b) :: fs)) (fixedBytes n) (inr x) (at_ (b :: fs)).
Proof.
  intros Hl. eapply runs_bind; [apply runs_wrapf, runs_Bytes|]. cbv beta. rewrite Hl, Z.eqb_refl. apply runs_ok.
Qed.

(** The loops read one element after another, up to the end of the list. *)
Lemma runs_decodeLoop {A} (elem : D A) (enc : A -> list Byte.byte) xs fuel acc b fs :
  (length xs < fuel)%nat -> (forall x c, In x xs -> runs (at_ ((enc x ++ c) :: b :: fs)) elem (inr x) (at_ (c :: b :: fs))) ->
  runs (at_ ([] :: b :: fs)) elem (inl EOL) (at_ ([] :: b :: fs)) ->
  runs (at_ (concat (map enc xs) :: b :: fs)) (decodeLoop elem fuel acc) (inr (acc ++ xs)) (at_ ([] :: b :: fs)).
Proof.
  intros Hf He Hend. revert xs acc Hf He. induction fuel as [|fuel IH]; intros [|x xs] acc Hf He; cbn in Hf; try lia; cbn [decodeLoop map concat].
  - eapply runs_mbind; [exact Hend|]. rewrite app_nil_r. apply runs_ok.
  - eapply runs_mbind; [apply He, in_eq|]. cbv iota.
    replace (acc ++ x :: xs) with ((acc ++ [x]) ++ xs) by by rewrite <- app_assoc.
    apply IH; [lia|]. intros y c Hy. by apply He, in_cons.
Qed.

Lemma safe_decodeLoop {A} (elem : D A) : safe 1 elem -> forall n acc, safe_upto n 0 (decodeLoop elem n acc).
Proof.
  intros He n. induction n as [|n IH]; intros acc.
  - intros s _ Hn. pose proof (measure_nonneg s). lia.
  - apply safe_upto_turn; [done| |intros x; apply IH]. intros e. case_match; auto with stream.
Qed.

(** * Withdrawals *)
Definition withdrawal_ok (o : Withdrawal) : Prop :=
  is_u64 (wd_Index o) /\ is_u64 (wd_Validator o) /\ (wd_Address o < 2 ^ 160)%N /\ is_u64 (wd_Amount o).

Definition withdrawalFields (o : Withdrawal) : list Byte.byte :=
  rlpNumber (wd_Index o) ++ rlpNumber (wd_Validator o) ++ rlpStr (addrBytes (wd_Address o)) ++ rlpNumber (wd_Amount o).

Definition rlpWithdrawal (o : Withdrawal) : list Byte.byte := rlpLst (withdrawalFields o).

Lemma Withdrawal_EncodingSize_spec o : withdrawal_ok o -> Withdrawal_EncodingSize o = len (withdrawalFields o).
Proof.
  intros (Hi & Hv & _ & Ha). unfold withdrawalFields, is_u64 in *. rewrite !len_app, !len_rlpNumber, rlpStr_addr, len_cons, len_addrBytes by lia.
  unfold Withdrawal_EncodingSize. lia.
Qed.

Lemma len_u64Number v : is_u64 v -> len (rlpNumber v) <= 9.
Proof.
  intros Hv. rewrite len_rlpNumber by apply Hv. pose proof (byteLen_u64 v Hv). unfold IntLenExcludingHead. case_match; lia.
Qed.

Lemma len_withdrawalFields o : withdrawal_ok o -> len (withdrawalFields o) <= 48.
Proof.
  intros (Hi & Hv & _ & Ha). unfold withdrawalFields. rewrite !len_app, rlpStr_addr, len_cons, len_addrBytes.
  pose proof (len_u64Number _ Hi). pose proof (len_u64Number _ Hv). pose proof (len_u64Number _ Ha). lia.
Qed.

Lemma emits_Withdrawal o : withdrawal_ok o -> emits (Withdrawal_EncodeRLP o) (rlpWithdrawal o).
Proof.
  intros Hok. pose proof (len_withdrawalFields o Hok). unfold Withdrawal_EncodeRLP, rlpWithdrawal, rlpLst.
  rewrite Withdrawal_EncodingSize_spec by done. apply emits_bind; [apply emits_StructSizePrefix; len_facts; lia|].
  destruct Hok as (Hi & Hv & _ & Ha). unfold withdrawalFields. apply emits_bind; [by apply emits_EncodeInt|].
  apply emits_bind; [by apply emits_EncodeInt|]. rewrite rlpStr_addr. apply (emits_bind2 _ _ _ [_]); [apply emits_byte|].
  apply emits_bind; [apply emits_Write|]. by apply emits_EncodeInt.
Qed.

Lemma runs_Withdrawal o b fs : withdrawal_ok o -> runs (at_ ((rlpWithdrawal o ++ b) :: fs)) Withdrawal_DecodeRLP (inr o) (at_ (b :: fs)).
Proof.
  intros (Hi & Hv & Hb & Ha). unfold Withdrawal_DecodeRLP. eapply runs_bind; [apply runs_List|]. unfold withdrawalFields.
  rewrite <- (app_nil_r (rlpNumber (wd_Amount o))).
  do 2 (eapply runs_bind; [by apply runs_wrapf, runs_Uint|]; cbv beta). eapply runs_bind; [apply runs_wrapf, runs_Bytes|]. cbv beta.
  rewrite len_addrBytes. change (negb (20 =? 20)) with false. cbv iota. eapply runs_bind; [by apply runs_wrapf, runs_Uint|]. cbv beta.
  eapply runs_bind; [apply runs_ListEnd|]. rewrite bytes_to_N_addrBytes by done. destruct o. apply runs_ok.
Qed.

Lemma safe_Withdrawal : safe 1 Withdrawal_DecodeRLP.
Proof. unfold Withdrawal_DecodeRLP. safe_steps. Qed.

(** * Headers *)
Section header.
Context {K : Type} (encodeKeyVals : K -> list Byte.byte).
Implicit Types (h t : Header K).

Definition optNumber (i : option Z) : list Byte.byte := rlpNumber (match i with Some i => i | None => 0 end).

Definition word_ok (i : option Z) : Prop := match i with Some i => 0 <= i < 2 ^ 256 | None => False end.

Definition sealFields h : list Byte.byte :=
  match AuRaSeal h with
  | [] => rlpStr (hashBytes (MixDigest h)) ++ rlpStr (HNonce h)
  | seal => rlpNumber (AuRaStep h) ++ rlpStr seal
  end.

Definition tailFields h : list Byte.byte :=
  match BaseFee h with Some f => rlpNumber f | None => [] end ++
  match WithdrawalsHash h with Some x => rlpStr (hashBytes x) | None => [] end.

Definition headerFields h : list Byte.byte :=
  rlpStr (hashBytes (ParentHash h)) ++ rlpStr (hashBytes (UncleHash h)) ++ rlpStr (addrBytes (Coinbase h)) ++
  rlpStr (hashBytes (HRoot h)) ++ rlpStr (hashBytes (TxHash h)) ++ rlpStr (hashBytes (ReceiptHash h)) ++
  rlpStr (HBloom h) ++ optNumber (HDifficulty h) ++ optNumber (Number h) ++
  rlpNumber (GasLimit h) ++ rlpNumber (GasUsed h) ++ rlpNumber (Time h) ++ rlpStr (Extra h) ++ sealFields h ++ tailFields h.

Definition rlpHeader h : list Byte.byte := rlpLst (headerFields h).

(** The widths of the fields that are written; Verkle headers are left out. *)
Definition header_wide h : Prop :=
  len (HBloom h) = 256 /\ word_ok (HDifficulty h) /\ word_ok (Number h) /\
  is_u64 (GasLimit h) /\ is_u64 (GasUsed h) /\ is_u64 (Time h) /\
  (match AuRaSeal h with [] => len (HNonce h) = 8 | seal => is_u64 (AuRaStep h) /\ single seal = false end) /\
  (match BaseFee h with Some f => 0 <= f < 2 ^ 256 | None => True end) /\ Verkle h = false.

Lemma len_hashStr x : len (rlpStr (hashBytes x)) = 33.
Proof. by rewrite rlpStr_hash, len_cons, len_hashBytes. Qed.

Lemma bigSize_spec i : word_ok i -> bigSize i = len (optNumber i).
Proof.
  destruct i as [i|]; [|done]. unfold word_ok, optNumber, bigSize. intros Hi. by rewrite len_rlpNumber, BigIntLenExcludingHead_spec by lia.
Qed.

Lemma sealFields_size h : match AuRaSeal h with [] => len (HNonce h) = 8 | seal => is_u64 (AuRaStep h) /\ single seal = false end ->
  len (sealFields h) = if negb (len (AuRaSeal h) =? 0) then
     1 + IntLenExcludingHead (AuRaStep h) + 1 + len (AuRaSeal h) + (if 56 <=? len (AuRaSeal h) then byteLen (len (AuRaSeal h)) else 0)
   else 33 + 9.
Proof.
  unfold sealFields. destruct (AuRaSeal h) as [|x seal] eqn:E.
  - intros Hn. change (negb (len [] =? 0)) with false. cbv iota. rewrite len_app, len_hashStr, (rlpStr_short (HNonce h)), len_cons by lia. lia.
  - intros [Hs Hx]. rewrite (proj2 (Z.eqb_neq _ _)) by (rewrite len_cons; len_facts; lia). cbn [negb].
    rewrite len_app, len_rlpNumber, len_rlpStr, Hx by apply Hs. pose proof (prefixed_spec (len (x :: seal))) as Hp. unfold prefixed in Hp. lia.
Qed.

Lemma Header_EncodingSize_spec h : header_wide h -> Header_EncodingSize encodeKeyVals h = len (headerFields h).
Proof.
  intros (Hb & Hd & Hn & Hg & Hu & Ht & Hs & Hf & Hv). unfold Header_EncodingSize. rewrite Hv.
  rewrite <- sealFields_size, !bigSize_spec, dataSize_spec by done. unfold headerFields, tailFields, is_u64 in *.
  rewrite (rlpStr_bloom _ Hb), !len_app, !len_hashStr, rlpStr_addr, len_cons, len_addrBytes, Hb.
  rewrite !len_rlpNumber by lia. change (len [Byte.xb9; Byte.x01; Byte.x00]) with 3.
  assert (match BaseFee h with None => 0 | Some _ => bigSize (BaseFee h) end = len (match BaseFee h with Some f => rlpNumber f | None => [] end)) as ->.
  { destruct (BaseFee h) as [f|]; [|done]. by rewrite bigSize_spec. }
  assert (match WithdrawalsHash h with None => 0 | Some _ => 33 end = len (match WithdrawalsHash h with Some x => rlpStr (hashBytes x) | None => [] end)) as ->.
  { destruct (WithdrawalsHash h); [|done]. by rewrite len_hashStr. }
  lia.
Qed.
(** The part of the header that is a big number in the buffer. *)
Lemma emits_word i : word_ok i -> emits (EncodeBigInt i) (optNumber i).
Proof. destruct i as [i|]; [|done]. apply emits_EncodeBigInt. Qed.

Lemma emits_seal h : match AuRaSeal h with [] => len (HNonce h) = 8 | seal => is_u64 (AuRaStep h) /\ single seal = false end ->
  len (AuRaSeal h) < 2 ^ 64 ->
  emits (if 0 <? len (AuRaSeal h) then _ ← EncodeInt (AuRaStep h); EncodeString (AuRaSeal h)
         else _ ← encodeFixed (128 + 32) [hashBytes (MixDigest h)]; encodeFixed (128 + 8) [HNonce h]) (sealFields h).
Proof.
  unfold sealFields. destruct (AuRaSeal h) as [|x seal] eqn:E.
  - intros Hn _. apply emits_bind; [apply emits_encodeFixed1; [apply len_hashBytes|done]|by apply emits_encodeFixed1].
  - intros [Hs _] Hl. rewrite (proj2 (Z.ltb_lt _ _)) by (rewrite len_cons; len_facts; lia).
    apply emits_bind; [by apply emits_EncodeInt|by apply emits_EncodeString].
Qed.

Lemma emits_tail h : Verkle h = false -> match BaseFee h with Some f => 0 <= f < 2 ^ 256 | None => True end ->
  emits (_ ← match BaseFee h with Some _ => EncodeBigInt (BaseFee h) | None => mret tt end;
         _ ← match WithdrawalsHash h with Some x => encodeFixed (128 + 32) [hashBytes x] | None => mret tt end;
         if Verkle h then _ ← EncodeString (VerkleProof h); Write (encodeKeyVals (VerkleKeyVals h)) else mret tt) (tailFields h).
Proof.
  intros -> Hf. unfold tailFields. apply emits_bind; [destruct (BaseFee h); [by apply emits_EncodeBigInt|apply emits_ret]|].
  rewrite <- (app_nil_r (match WithdrawalsHash h with Some x => _ | None => _ end)). apply emits_bind; [|apply emits_ret].
  destruct (WithdrawalsHash h); [|apply emits_ret]. by apply emits_encodeFixed1; [apply len_hashBytes|].
Qed.

Lemma len_Extra_le h : len (Extra h) <= len (headerFields h) /\ len (AuRaSeal h) <= len (headerFields h).
Proof.
  unfold headerFields. rewrite !len_app. pose proof (len_le_rlpStr (Extra h)). split; [len_facts; lia|].
  enough (len (AuRaSeal h) <= len (sealFields h)) by (len_facts; lia). unfold sealFields. destruct (AuRaSeal h) as [|x seal]; [len_facts; by change (len []) with 0|].
  rewrite len_app. pose proof (len_le_rlpStr (x :: seal)). len_facts. lia.
Qed.

Lemma emits_Header h : header_wide h -> len (headerFields h) < 2 ^ 64 -> emits (Header_EncodeRLP encodeKeyVals h) (rlpHeader h).
Proof.
  intros Hw Hl. unfold Header_EncodeRLP, rlpHeader, rlpLst. rewrite Header_EncodingSize_spec by done.
  apply emits_bind; [apply emits_StructSizePrefix; len_facts; lia|]. destruct (len_Extra_le h) as [He Hs].
  destruct Hw as (Hb & Hd & Hn & Hg & Hu & Ht & Hseal & Hf & Hv). unfold headerFields.
  rewrite app_assoc. apply emits_bind; [rewrite <- (app_nil_r (rlpStr (hashBytes (UncleHash h)))); apply (emits_encodeHashes [ParentHash h; UncleHash h])|].
  apply emits_bind; [by apply emits_encodeFixed1; [apply len_addrBytes|]|].
  rewrite (app_assoc (rlpStr (hashBytes (TxHash h)))), app_assoc.
  apply emits_bind; [rewrite <- (app_nil_r (rlpStr (hashBytes (ReceiptHash h)))); apply (emits_encodeHashes [HRoot h; TxHash h; ReceiptHash h])|].
  apply emits_bind; [by apply emits_encodeBloom|]. do 2 (apply emits_bind; [by apply emits_word|]).
  do 3 (apply emits_bind; [by apply emits_EncodeInt|]). apply emits_bind; [apply emits_EncodeString; lia|].
  apply emits_bind; [apply emits_seal; [done|lia]|]. by apply emits_tail.
Qed.
(** ** Decoding *)
Lemma runs_orClose_absent {A} m (absent : A) present b fs : runs (at_ ([] :: b :: fs)) m (inl EOL) (at_ ([] :: b :: fs)) ->
  runs (at_ ([] :: b :: fs)) (orClose m absent present) (inr absent) (at_ (b :: fs)).
Proof.
  intros Hm. eapply runs_mbind; [exact Hm|]. cbv iota. eapply runs_bind; [apply runs_wrapf, runs_ListEnd|]. apply runs_ok.
Qed.

Lemma runs_orClose_present {A} m (absent : A) present P Q x res R : runs P m (inr x) Q -> runs Q (present x) res R ->
  runs P (orClose m absent present) res R.
Proof. intros Hm Hp. by eapply runs_mbind. Qed.

(** The fields of [h] that have no place in the encoding are those of the
    header [t] that is decoded into. *)
Definition agrees t h : Prop :=
  (match AuRaSeal h with [] => AuRaStep h = AuRaStep t /\ AuRaSeal t = [] | _ => MixDigest h = MixDigest t /\ HNonce h = HNonce t end) /\
  (BaseFee h = None -> WithdrawalsHash h = WithdrawalsHash t) /\ Verkle t = false /\ VerkleProof h = VerkleProof t /\
  VerkleKeyVals h = VerkleKeyVals t /\ BlockHashCL h = BlockHashCL t /\ TxHashSSZ h = TxHashSSZ t.

Definition hashes_ok h : Prop :=
  (Forall (fun x => x < 2 ^ 256) [ParentHash h; UncleHash h; HRoot h; TxHash h; ReceiptHash h; MixDigest h])%N /\
  (Coinbase h < 2 ^ 160)%N /\ (match WithdrawalsHash h with Some x => x < 2 ^ 256 | None => True end)%N.

Definition header_ok t h : Prop :=
  header_wide h /\ hashes_ok h /\ agrees t h /\ (BaseFee h = None -> WithdrawalsHash h = None).

Lemma runs_seal t h b fs :
  match AuRaSeal h with [] => len (HNonce h) = 8 | seal => is_u64 (AuRaStep h) /\ single seal = false end -> (MixDigest h < 2 ^ 256)%N ->
  match AuRaSeal h with [] => AuRaStep h = AuRaStep t /\ AuRaSeal t = [] | _ => MixDigest h = MixDigest t /\ HNonce h = HNonce t end ->
  runs (at_ ((sealFields h ++ b) :: fs)) (decodeSeal t) (inr (MixDigest h, HNonce h, AuRaStep h, AuRaSeal h)) (at_ (b :: fs)).
Proof.
  unfold sealFields, decodeSeal. destruct (AuRaSeal h) as [|x seal] eqn:E; intros Hs Hm Ha; rewrite <- app_assoc.
  - destruct Ha as [-> Ha]. rewrite <- Ha. unfold rlpStr at 1. pose proof (len_hashBytes (MixDigest h)) as Hl.
    assert (single (hashBytes (MixDigest h)) = false) as Hx by (destruct (hashBytes (MixDigest h)) as [|x []]; done). rewrite Hx, <- app_assoc.
    eapply runs_bind; [apply runs_wrapf, runs_Kind_String; rewrite len_app; len_facts; lia|]. cbn [snd]. rewrite Hl. cbn [negb Z.eqb Pos.eqb].
    rewrite <- Hl at 1. eapply runs_bind; [by apply runs_wrapf, runs_Bytes_ahead|]. eapply runs_bind; [by apply runs_fixedBytes|].
    rewrite copyHash_hashBytes by done. apply runs_ok.
  - destruct Hs as [Hs Hx], Ha as [-> ->]. destruct (runs_uint_peek 64 (AuRaStep h) (rlpStr (x :: seal) ++ b) fs Hs) as (kd & sz & bv & b' & Hz & HK & HU);
      [by apply byteLen_u64|].
    eapply runs_bind; [apply runs_wrapf, HK|]. cbn [snd]. rewrite (proj2 (Z.eqb_neq _ _)) by lia. cbn [negb].
    eapply runs_bind; [apply runs_wrapf, HU|]. eapply runs_bind; [apply runs_wrapf, runs_Bytes|]. apply runs_ok.
Qed.

Lemma be_combine_numBytes v : 0 <= v < 2 ^ 256 -> be_combine (numBytes v) = v.
Proof. intros Hv. unfold numBytes. apply be_combine_byteLen. lia. Qed.
Lemma runs_tail t h (header : option Z -> option hash -> list Byte.byte -> Header K) b fs :
  match BaseFee h with Some f => 0 <= f < 2 ^ 256 | None => True end ->
  match WithdrawalsHash h with Some x => (x < 2 ^ 256)%N | None => True end ->
  Verkle t = false -> (BaseFee h = None -> WithdrawalsHash h = None) -> (BaseFee h = None -> WithdrawalsHash h = WithdrawalsHash t) ->
  runs (at_ (tailFields h :: b :: fs))
    (orClose RlpStream.Uint256Bytes (header None (WithdrawalsHash t) (VerkleProof t)) (fun x =>
     orClose Bytes (header (Some (be_combine x)) None (VerkleProof t)) (fun y =>
     if negb (len y =? 32) then fail (wrongSize (len y))
     else
       let! verkleProof := if Verkle t then let! proof := wrapf Bytes in let! _ := Raw in ok proof else ok (VerkleProof t) in
       let! _ := wrapf ListEnd in
       ok (header (Some (be_combine x)) (Some (bytes_to_N y)) verkleProof))))
    (inr (header (BaseFee h) (WithdrawalsHash h) (VerkleProof t))) (at_ (b :: fs)).
Proof.
  intros Hf Hx -> Hn Ht. unfold tailFields. destruct (BaseFee h) as [f|].
  - eapply runs_orClose_present; [by apply runs_Uint256Bytes|]. rewrite be_combine_numBytes by done. destruct (WithdrawalsHash h) as [x|].
    + rewrite <- (app_nil_r (rlpStr (hashBytes x))). eapply runs_orClose_present; [apply runs_Bytes|]. rewrite len_hashBytes. cbn [negb Z.eqb Pos.eqb].
      eapply runs_bind; [apply runs_ok|]. eapply runs_bind; [apply runs_wrapf, runs_ListEnd|]. rewrite bytes_to_N_hashBytes by done. apply runs_ok.
    + apply runs_orClose_absent. by eapply (runs_EOL Bytes).
  - rewrite <- (Ht eq_refl), (Hn eq_refl). apply runs_orClose_absent. apply runs_bind_err. by eapply (runs_EOL bigIntBytes).
Qed.

Lemma runs_Header t h b fs : header_ok t h -> runs (at_ ((rlpHeader h ++ b) :: fs)) (Header_DecodeRLP t) (inr h) (at_ (b :: fs)).
Proof.
  intros (Hw & [Hh Hw2] & Ha & Hnone). unfold Header_DecodeRLP, rlpHeader. eapply runs_bind; [apply runs_List|]. unfold headerFields.
  destruct Hw as (Hb & Hd & Hn & Hg & Hu & Ht & Hseal & Hf & Hv), Ha as (Ha1 & Ha2 & Ha3 & Ha4 & Ha5 & Ha6 & Ha7), Hw2 as [Hc Hwh].
  repeat apply Forall_cons_iff in Hh as [? Hh].
  do 2 (eapply runs_bind; [apply runs_fixedBytes, len_hashBytes|]; cbv beta). eapply runs_bind; [apply runs_fixedBytes, len_addrBytes|]; cbv beta.
  do 3 (eapply runs_bind; [apply runs_fixedBytes, len_hashBytes|]; cbv beta). eapply runs_bind; [by apply runs_fixedBytes|]; cbv beta.
  destruct (HDifficulty h) as [d|] eqn:Ed; [|done]. destruct (Number h) as [n|] eqn:En; [|done].
  do 2 (eapply runs_bind; [by apply runs_wrapf, runs_Uint256Bytes|]; cbv beta).
  do 3 (eapply runs_bind; [by apply runs_wrapf, runs_Uint|]; cbv beta). eapply runs_bind; [apply runs_wrapf, runs_Bytes|]; cbv beta.
  eapply runs_bind; [by apply runs_seal|]. cbv beta iota zeta.
  rewrite !bytes_to_N_hashBytes, bytes_to_N_addrBytes, !be_combine_numBytes by done.
  set (header := fun bf wh vp => mk_Header (ParentHash h) (UncleHash h) (Coinbase h) (HRoot h) (TxHash h) (ReceiptHash h) (HBloom h) (Some d) (Some n)
    (GasLimit h) (GasUsed h) (Time h) (Extra h) (MixDigest h) (HNonce h) (AuRaStep h) (AuRaSeal h) bf wh (Verkle t) vp (VerkleKeyVals t)
    (BlockHashCL t) (TxHashSSZ t)).
  assert (inr h = inr (header (BaseFee h) (WithdrawalsHash h) (VerkleProof t)) :> RlpError + Header K) as Eh.
  { f_equal. unfold header. rewrite <- Ha4, <- Ha5, <- Ha6, <- Ha7, Ha3, <- Hv, <- Ed, <- En. by destruct h. }
  rewrite Eh. by apply (runs_tail t h header).
Qed.
(** ** Safety *)
Lemma safe_fixedBytes n : safe 1 (fixedBytes n).
Proof. unfold fixedBytes. safe_steps. Qed.

Lemma safe_orClose {A} m (absent : A) present : safe 1 m -> (forall x, safe 0 (present x)) -> safe 0 (orClose m absent present).
Proof.
  intros Hm Hp. apply (safe_mbind 0); [by apply safe_0| |done]. intros e. case_match; safe_steps.
Qed.

#[local] Hint Resolve safe_fixedBytes : stream.

Lemma safe_decodeSeal t : safe 0 (decodeSeal t).
Proof. unfold decodeSeal. safe_steps. Qed.

#[local] Hint Resolve safe_decodeSeal : stream.

Lemma safe_Header t : safe 1 (Header_DecodeRLP t).
Proof.
  unfold Header_DecodeRLP. safe_steps. match goal with p : hash * _ * _ * _ |- _ => destruct p as [[[mix nonce] step] seal] end. cbv zeta.
  apply safe_orClose; [apply safe_Uint256Bytes|]. intros x. apply safe_orClose; [apply safe_Bytes|]. intros y.
  case_match; [auto with stream|]. apply safe_seq; [destruct (Verkle t); safe_steps|]. intros z. safe_steps.
Qed.
End header.

(** A list of elements: what is written for it, and the loop that reads it. *)
Definition rlpListOf {A} (enc : A -> list Byte.byte) (xs : list A) : list Byte.byte := rlpLst (concat (map enc xs)).

Lemma emits_listOf {A} (f : A -> M writer unit) enc (xs : list A) n : n = len (concat (map enc xs)) -> n < 2 ^ 64 ->
  (forall x, In x xs -> len (enc x) < 2 ^ 64 -> emits (f x) (enc x)) ->
  emits (_ ← EncodeStructSizePrefix n; mfor f xs) (rlpListOf enc xs).
Proof.
  intros -> Hn Hf. apply emits_bind; [apply emits_StructSizePrefix; len_facts; lia|]. apply emits_mfor. intros x Hx.
  apply Hf; [done|]. pose proof (len_concat_In enc x xs Hx). lia.
Qed.

Lemma runs_listOf {A} (elem : D A) enc (xs : list A) b fs :
  (forall x c fs', In x xs -> runs (at_ ((enc x ++ c) :: fs')) elem (inr x) (at_ (c :: fs'))) -> (forall x, In x xs -> enc x <> []) ->
  (forall c fs', runs (at_ ([] :: c :: fs')) elem (inl EOL) (at_ ([] :: c :: fs'))) ->
  runs (at_ ((rlpListOf enc xs ++ b) :: fs)) (decodeList elem) (inr xs) (at_ (b :: fs)).
Proof.
  intros He Hne Hend. eapply runs_bind; [apply runs_List|]. apply runs_fuel. intros n Hn. cbn [concat] in Hn. rewrite length_app in Hn.
  pose proof (concat_length enc xs Hne) as Hl. eapply runs_bind; [apply (runs_decodeLoop elem enc xs n []); [lia| |]; eauto|].
  eapply runs_bind; [apply runs_ListEnd|]. apply runs_ok.
Qed.

Lemma safe_listOf {A} (elem : D A) : safe 1 elem ->
  safe 1 (decodeList elem).
Proof.
  intros He. apply safe_seq1; [auto with stream|]. intros _. apply safe_fuel. intros n. apply safe_upto_bind; [by apply safe_decodeLoop|].
  intros xs. apply safe_upto_safe. safe_steps.
Qed.

(** [rlp.Encode] of a number. *)
Lemma emits_EncodeUint i : is_u64 i -> emits (EncodeUint i) (rlpNumber i).
Proof.
  intros Hi out buf Hb. exists buf. split; [done|]. unfold EncodeUint.
  destruct (encodeUint_repr i encbuf.new [] 0 Hi) as (w & E & Hr); [by split|]. rewrite E. cbn [mbind outcome_bind fst snd].
  assert (heads_ok [Chunk (rlpNumber i)]) as Hok by by constructor. rewrite (toWriter_spec _ _ _ Hok Hr). cbn [bytesOf app mbind outcome_bind]. by rewrite app_nil_r.
Qed.

Lemma runs_decodeUint bits v b fs : 0 <= v < 2 ^ 64 -> byteLen v <= bits / 8 ->
  runs (at_ ((rlpNumber v ++ b) :: fs)) (decodeUint bits) (inr v) (at_ (b :: fs)).
Proof. intros Hv Hb. unfold decodeUint. eapply runs_mbind; [by apply runs_uint|]. apply runs_ok. Qed.

Lemma safe_decodeUint bits : bits <= 64 -> safe 1 (decodeUint bits).
Proof.
  intros Hb s Hs. destruct (safe_uint bits Hb s Hs) as (res & s' & E & H). unfold decodeUint.
  exists (match res with inl e => inl (wrapStreamError e) | inr a => inr a end), s'. rewrite (M_bind_Ok _ _ _ _ _ E). split; [done|]. by destruct res.
Qed.

Section body.
Context {U : Uint256} {US : Uint256Spec U} {UC : Uint256Codec U} {UCS : Uint256CodecSpec U UC}.
Context {EB : EncoderBuffer} {EBS : EncoderBufferSpec EB}.
Context {K : Type} (encodeKeyVals : K -> list Byte.byte) (nilKeyVals : K).
Implicit Types (us : list (Header K)) (ws : option (list Withdrawal)).

(** * Uncles and withdrawals *)

(** Headers as a decoder of fresh ones gives them back. *)
Abbreviation uncle_ok := (header_ok (zeroHeader nilKeyVals)) (only parsing).

Definition withdrawals_ok ws : Prop := match ws with Some l => Forall withdrawal_ok l | None => True end.

Definition rlpUncles us : list Byte.byte := rlpListOf rlpHeader us.

Definition rlpWithdrawals ws : list Byte.byte := match ws with Some l => rlpListOf rlpWithdrawal l | None => [] end.

Lemma unclesLen_spec us : Forall header_wide us -> unclesLen encodeKeyVals us = len (concat (map rlpHeader us)).
Proof.
  intros Hus. apply sizes_spec. intros h Hh. unfold rlpHeader. rewrite <- prefixed_len. f_equal. apply Header_EncodingSize_spec.
  rewrite Stdlib.Lists.List.Forall_forall in Hus. by apply Hus.
Qed.

Lemma withdrawalsLen_spec l : Forall withdrawal_ok l -> withdrawalsLen (Some l) = len (concat (map rlpWithdrawal l)).
Proof.
  intros Hl. apply sizes_spec. intros o Ho. unfold rlpWithdrawal. rewrite <- prefixed_len. f_equal. apply Withdrawal_EncodingSize_spec.
  rewrite Stdlib.Lists.List.Forall_forall in Hl. by apply Hl.
Qed.

Lemma withdrawalsSize_spec ws : withdrawals_ok ws -> withdrawalsSize ws = len (rlpWithdrawals ws).
Proof.
  destruct ws as [l|]; [|done]. intros Hl. unfold withdrawalsSize. rewrite withdrawalsLen_spec by done. apply prefixed_len.
Qed.

Lemma emits_encodeUncles us : Forall header_wide us -> len (rlpUncles us) < 2 ^ 64 -> emits (encodeUncles encodeKeyVals us) (rlpUncles us).
Proof.
  intros Hus Hl. pose proof (len_lt_rlpLst (concat (map rlpHeader us))). unfold rlpUncles, rlpListOf in Hl. unfold encodeUncles.
  rewrite unclesLen_spec by done. apply emits_listOf; [done|lia|]. intros h Hh Hlen. apply emits_Header.
  - rewrite Stdlib.Lists.List.Forall_forall in Hus. by apply Hus.
  - pose proof (len_lt_rlpLst (headerFields h)). unfold rlpHeader in Hlen. lia.
Qed.

Lemma emits_encodeWithdrawals ws : withdrawals_ok ws -> len (rlpWithdrawals ws) < 2 ^ 64 -> emits (encodeWithdrawals ws) (rlpWithdrawals ws).
Proof.
  destruct ws as [l|]; [|intros; apply emits_ret]. intros Hws Hl. cbn in Hws, Hl.
  pose proof (len_lt_rlpLst (concat (map rlpWithdrawal l))). unfold rlpListOf in Hl. unfold encodeWithdrawals.
  rewrite withdrawalsLen_spec by done. apply emits_listOf; [done|lia|]. intros o Ho _. apply emits_Withdrawal.
  rewrite Stdlib.Lists.List.Forall_forall in Hws. by apply Hws.
Qed.

Lemma runs_decodeUncles us b fs : Forall uncle_ok us -> runs (at_ ((rlpUncles us ++ b) :: fs)) (decodeUncles nilKeyVals) (inr us) (at_ (b :: fs)).
Proof.
  intros Hus. apply runs_listOf.
  - intros h c fs' Hh. apply runs_Header. rewrite Stdlib.Lists.List.Forall_forall in Hus. by apply Hus.
  - intros h _. apply rlpLst_nonempty.
  - intros c fs'. apply runs_bind_err. by eapply (runs_EOL List_).
Qed.

(** The withdrawals and the end of the list they are the last element of. *)
Lemma runs_decodeWithdrawals ws b fs : withdrawals_ok ws ->
  runs (at_ (rlpWithdrawals ws :: b :: fs)) decodeWithdrawals (inr ws) (at_ (b :: fs)).
Proof.
  intros Hws. unfold decodeWithdrawals. destruct ws as [l|].
  - cbn [rlpWithdrawals]. rewrite <- (app_nil_r (rlpListOf rlpWithdrawal l)). eapply runs_mbind; [apply runs_List|]. cbv iota. apply runs_fuel. intros n Hn.
    cbn [concat] in Hn. rewrite length_app in Hn. pose proof (concat_length rlpWithdrawal l (fun o _ => rlpLst_nonempty (withdrawalFields o))).
    eapply runs_bind; [apply (runs_decodeLoop _ rlpWithdrawal l n []); [lia|..]|].
    + intros o c Ho. apply runs_Withdrawal. cbn in Hws. rewrite Stdlib.Lists.List.Forall_forall in Hws. by apply Hws.
    + apply runs_bind_err. by eapply (runs_EOL List_).
    + do 2 (eapply runs_bind; [apply runs_ListEnd|]). apply runs_ok.
  - eapply runs_mbind; [by eapply (runs_EOL List_)|]. cbv iota. cbn [errors_Is]. rewrite bool_decide_true by done. cbn [orb].
    eapply runs_bind; [apply runs_ListEnd|]. apply runs_ok.
Qed.

Lemma safe_decodeUncles : safe 1 (decodeUncles nilKeyVals).
Proof. apply safe_listOf, safe_Header. Qed.

Lemma safe_decodeWithdrawals : safe 0 decodeWithdrawals.
Proof.
  apply (safe_mbind 0); [auto with stream|intros e; case_match; safe_steps|]. intros _. apply safe_fuel. intros n.
  apply safe_upto_bind; [apply safe_decodeLoop, safe_Withdrawal|]. intros ws. apply safe_upto_safe. safe_steps.
Qed.

#[local] Hint Resolve safe_decodeUncles safe_decodeWithdrawals safe_DecodeTransaction safe_decodeUint : stream.

Lemma uncles_wide us : Forall uncle_ok us -> Forall header_wide us.
Proof. apply Forall_impl. by intros h [Hw _]. Qed.

(** What ends every body. *)
Definition rlpTail us ws : list Byte.byte := rlpUncles us ++ rlpWithdrawals ws.

Lemma emits_tailOf us ws : Forall header_wide us -> withdrawals_ok ws -> len (rlpTail us ws) < 2 ^ 64 ->
  emits (_ ← encodeUncles encodeKeyVals us; encodeWithdrawals ws) (rlpTail us ws).
Proof.
  intros Hus Hws Hl. unfold rlpTail in *. rewrite len_app in Hl. len_facts.
  apply emits_bind; [apply emits_encodeUncles|apply emits_encodeWithdrawals]; (done || lia).
Qed.

Lemma tail_size us ws : Forall header_wide us -> withdrawals_ok ws ->
  prefixed (unclesLen encodeKeyVals us) + withdrawalsSize ws = len (rlpTail us ws).
Proof.
  intros Hus Hws. unfold rlpTail. by rewrite len_app, unclesLen_spec, prefixed_len, withdrawalsSize_spec.
Qed.

(** [let! us := decodeUncles in let! ws := decodeWithdrawals in ok (k us ws)]. *)
Lemma runs_tailOf {A} (k : list (Header K) -> option (list Withdrawal) -> A) us ws b fs : Forall uncle_ok us -> withdrawals_ok ws ->
  runs (at_ (rlpTail us ws :: b :: fs)) (let! us := decodeUncles nilKeyVals in let! ws := decodeWithdrawals in ok (k us ws)) (inr (k us ws)) (at_ (b :: fs)).
Proof.
  intros Hus Hws. eapply runs_bind; [by apply runs_decodeUncles|]. eapply runs_bind; [by apply runs_decodeWithdrawals|]. apply runs_ok.
Qed.

(** * RawBody *)
Definition rlpRawBody (rb : RawBody K) : list Byte.byte :=
  rlpLst (rlpListOf (fun tx => tx) (rb_Transactions rb) ++ rlpTail (rb_Uncles rb) (rb_Withdrawals rb)).

Definition rawBody_ok (rb : RawBody K) : Prop :=
  Forall item (rb_Transactions rb) /\ Forall uncle_ok (rb_Uncles rb) /\ withdrawals_ok (rb_Withdrawals rb) /\ len (rlpRawBody rb) < 2 ^ 46.

Lemma RawBody_txsLen_spec txs : RawBody_txsLen txs = len (concat (map (fun tx => tx) txs)).
Proof. induction txs as [|tx txs IH]; [done|]. cbn [map concat]. rewrite len_app, <- IH. done. Qed.

Lemma emits_RawBody rb : rawBody_ok rb -> emits (RawBody_EncodeRLP encodeKeyVals rb) (rlpRawBody rb).
Proof.
  intros (_ & Hus & Hws & Hl). apply uncles_wide in Hus. unfold rlpRawBody in *. set (txs := rlpListOf _ _) in *. set (tl := rlpTail _ _) in *.
  pose proof (len_lt_rlpLst (txs ++ tl)) as H1. rewrite len_app in H1.
  unfold RawBody_EncodeRLP, RawBody_payloadSize. rewrite <- Z.add_assoc, tail_size, RawBody_txsLen_spec, prefixed_len by done.
  fold (rlpListOf (fun tx => tx) (rb_Transactions rb)). fold txs. fold tl. rewrite <- len_app. unfold rlpLst at 1. len_facts.
  apply emits_bind; [apply emits_StructSizePrefix; rewrite len_app; lia|]. rewrite len_app in *.
  apply emits_bind2; [|apply emits_tailOf; (done || (fold tl; lia))]. unfold txs in *.
  pose proof (len_lt_rlpLst (concat (map (fun tx => tx) (rb_Transactions rb)))). unfold rlpListOf in *.
  apply emits_listOf; [done|lia|]. intros tx _ _. apply emits_Write.
Qed.

Lemma runs_Raw_item bs b fs : item bs -> runs (at_ ((bs ++ b) :: fs)) Raw (inr bs) (at_ (b :: fs)).
Proof. intros (x & [->| ->]); [apply runs_Raw_Str|apply runs_Raw_Lst]. Qed.

Lemma runs_RawBody rb b fs : rawBody_ok rb -> runs (at_ ((rlpRawBody rb ++ b) :: fs)) (RawBody_DecodeRLP nilKeyVals) (inr rb) (at_ (b :: fs)).
Proof.
  intros (Htx & Hus & Hws & _). unfold RawBody_DecodeRLP, rlpRawBody. eapply runs_bind; [apply runs_List|].
  eapply runs_bind; [apply runs_listOf|].
  - intros tx c fs' Hin. apply runs_Raw_item. rewrite Stdlib.Lists.List.Forall_forall in Htx. by apply Htx.
  - intros tx Hin. apply item_nonempty. rewrite Stdlib.Lists.List.Forall_forall in Htx. by apply Htx.
  - intros c fs'. by eapply (runs_EOL Raw).
  - destruct rb. by apply (runs_tailOf (mk_RawBody _)).
Qed.

Lemma safe_RawBody : safe 1 (RawBody_DecodeRLP nilKeyVals).
Proof.
  unfold RawBody_DecodeRLP. apply safe_seq1; [auto with stream|]. intros _. apply safe_seq; [apply safe_0, safe_listOf, safe_Raw|]. intros txs. safe_steps.
Qed.

(** * BodyForStorage *)
Definition rlpBodyForStorage (bfs : BodyForStorage K) : list Byte.byte :=
  rlpLst (rlpNumber (BaseTxId bfs) ++ rlpNumber (TxAmount bfs) ++ rlpTail (bfs_Uncles bfs) (bfs_Withdrawals bfs)).

Definition bodyForStorage_ok (bfs : BodyForStorage K) : Prop :=
  is_u64 (BaseTxId bfs) /\ 0 <= TxAmount bfs < 2 ^ 32 /\ Forall uncle_ok (bfs_Uncles bfs) /\ withdrawals_ok (bfs_Withdrawals bfs) /\
  len (rlpBodyForStorage bfs) < 2 ^ 46.

Lemma emits_BodyForStorage bfs : bodyForStorage_ok bfs -> emits (BodyForStorage_EncodeRLP encodeKeyVals bfs) (rlpBodyForStorage bfs).
Proof.
  intros (Hb & Ha & Hus & Hws & Hl). apply uncles_wide in Hus. assert (is_u64 (TxAmount bfs)) as Ha' by (unfold is_u64; lia).
  unfold BodyForStorage_EncodeRLP, BodyForStorage_payloadSize, rlpBodyForStorage in *.
  rewrite <- Z.add_assoc, tail_size, <- !len_rlpNumber, <- Z.add_assoc, <- !len_app by (done || apply Hb || lia).
  pose proof (len_lt_rlpLst (rlpNumber (BaseTxId bfs) ++ rlpNumber (TxAmount bfs) ++ rlpTail (bfs_Uncles bfs) (bfs_Withdrawals bfs))) as H1.
  unfold rlpLst at 1. apply emits_bind; [apply emits_StructSizePrefix; len_facts; lia|]. rewrite !len_app in H1. len_facts.
  apply emits_bind; [by apply emits_EncodeUint|]. apply emits_bind; [by apply emits_EncodeUint|]. apply emits_tailOf; (done || lia).
Qed.

Lemma runs_BodyForStorage bfs b fs : bodyForStorage_ok bfs ->
  runs (at_ ((rlpBodyForStorage bfs ++ b) :: fs)) (BodyForStorage_DecodeRLP nilKeyVals) (inr bfs) (at_ (b :: fs)).
Proof.
  intros (Hb & Ha & Hus & Hws & _). unfold BodyForStorage_DecodeRLP, rlpBodyForStorage. eapply runs_bind; [apply runs_List|].
  eapply runs_bind; [apply runs_decodeUint; [done|by apply byteLen_u64]|].
  eapply runs_bind; [apply runs_decodeUint; [lia|by apply byteLen_le]|]. destruct bfs. by apply (runs_tailOf (mk_BodyForStorage _ _)).
Qed.

Lemma safe_BodyForStorage : safe 1 (BodyForStorage_DecodeRLP nilKeyVals).
Proof.
  unfold BodyForStorage_DecodeRLP. apply safe_seq1; [auto with stream|]. intros _. do 2 (apply safe_seq; [by apply safe_0, safe_decodeUint|]; intros ?). safe_steps.
Qed.

(** * Body *)

(** A transaction that is not a deposit. *)
Definition payload_ok (tx : WireTx) : Prop := tx_ok tx /\ txType tx <> DepositTxType.

Lemma payload_size tx : payload_ok tx -> EncodingSize tx = Ok (Body_txLen tx) /\ prefixed (Body_txLen tx) = len (rlpTx tx).
Proof.
  intros [Hok Ht]. rewrite (EncodingSize_spec tx Hok).
  assert (Body_txLen tx = len (sizedBytes tx)) as ->.
  { pose proof (EncodingSize_spec tx Hok) as He. destruct tx; [..|by destruct Ht]; cbn [EncodingSize Body_txLen] in *; congruence. }
  split; [done|]. rewrite prefixed_spec. destruct tx; [..|by destruct Ht]; cbn [rlpTx sizedBytes typedBytes]; by rewrite ?len_rlpLst, ?len_rlpStr, ?typed_not_single.
Qed.

Lemma emits_payload txs n : Forall payload_ok txs -> n = len (concat (map rlpTx txs)) -> n < 2 ^ 64 ->
  emits (_ ← EncodeStructSizePrefix n; mfor Body_encodeTx txs) (rlpListOf rlpTx txs) /\
  emits (_ ← EncodeStructSizePrefix n; mfor EncodeTxRLP txs) (rlpListOf rlpTx txs).
Proof.
  intros Htx Hn Hl. rewrite Stdlib.Lists.List.Forall_forall in Htx.
  split; (apply emits_listOf; [done|done|]); intros tx Hin _; destruct (Htx tx Hin) as [Hok Ht]; [|by apply EncodeTxRLP_emits].
  replace (Body_encodeTx tx) with (EncodeTxRLP tx) by by destruct tx. by apply EncodeTxRLP_emits.
Qed.

Lemma Body_txsLen_spec txs : Forall payload_ok txs -> Body_txsLen txs = len (concat (map rlpTx txs)).
Proof.
  intros Htx. apply sizes_spec. intros tx Hin. rewrite Stdlib.Lists.List.Forall_forall in Htx. apply payload_size, Htx, Hin.
Qed.

Lemma Block_txsLen_spec txs : Forall payload_ok txs -> Block_txsLen txs = Ok (len (concat (map rlpTx txs))).
Proof.
  induction 1 as [|tx txs Htx _ IH]; [done|]. destruct (payload_size tx Htx) as [E Hp]. cbn [Block_txsLen map concat].
  rewrite E. cbn [mbind outcome_bind]. rewrite IH. cbn [mbind outcome_bind]. by rewrite Hp, len_app.
Qed.

Lemma runs_decodeTxs txs b fs : Forall tx_ok txs -> runs (at_ ((rlpListOf rlpTx txs ++ b) :: fs)) decodeTxs (inr txs) (at_ (b :: fs)).
Proof.
  intros Htx. rewrite Stdlib.Lists.List.Forall_forall in Htx. apply runs_listOf.
  - intros tx c fs' Hin. by apply runs_DecodeTransaction, Htx.
  - intros tx _. destruct tx; cbn [rlpTx typedBytes]; try done; try apply rlpLst_nonempty;
      (unfold rlpStr; rewrite typed_not_single; unfold rlpHead; by case_match).
  - intros c fs'. apply runs_bind_err. intros s [Hv Ha]. destruct (Kind_view s _ _ Hv Ha) as (res & s' & E & -> & H). by exists s'.
Qed.

Lemma safe_decodeTxs : safe 1 decodeTxs.
Proof. apply safe_listOf, safe_DecodeTransaction. Qed.

#[local] Hint Resolve safe_decodeTxs : stream.

Definition rlpBody (bb : Body K) : list Byte.byte := rlpLst (rlpListOf rlpTx (Transactions bb) ++ rlpTail (Uncles bb) (Withdrawals bb)).

Definition body_ok (bb : Body K) : Prop :=
  Forall payload_ok (Transactions bb) /\ Forall uncle_ok (Uncles bb) /\ withdrawals_ok (Withdrawals bb) /\ len (rlpBody bb) < 2 ^ 46.

Lemma emits_Body bb : body_ok bb -> emits (Body_EncodeRLP encodeKeyVals bb) (rlpBody bb).
Proof.
  intros (Htx & Hus & Hws & Hl). apply uncles_wide in Hus. unfold rlpBody, Body_EncodeRLP, Body_payloadSize in *.
  rewrite <- Z.add_assoc, tail_size, Body_txsLen_spec, prefixed_len by done. fold (rlpListOf rlpTx (Transactions bb)). rewrite <- len_app.
  pose proof (len_lt_rlpLst (rlpListOf rlpTx (Transactions bb) ++ rlpTail (Uncles bb) (Withdrawals bb))) as H1. unfold rlpLst at 1.
  apply emits_bind; [apply emits_StructSizePrefix; len_facts; lia|]. rewrite len_app in H1. len_facts.
  apply emits_bind2; [|apply emits_tailOf; (done || lia)]. pose proof (len_lt_rlpLst (concat (map rlpTx (Transactions bb)))) as Htl.
  fold (rlpListOf rlpTx (Transactions bb)) in Htl. apply emits_payload; [done|done|lia].
Qed.

Lemma payload_tx txs : Forall payload_ok txs -> Forall tx_ok txs.
Proof. apply Forall_impl. by intros tx [? _]. Qed.

Lemma runs_Body bb b fs : body_ok bb -> runs (at_ ((rlpBody bb ++ b) :: fs)) (Body_DecodeRLP nilKeyVals) (inr bb) (at_ (b :: fs)).
Proof.
  intros (Htx & Hus & Hws & _). unfold Body_DecodeRLP, rlpBody. eapply runs_bind; [apply runs_List|].
  eapply runs_bind; [by apply runs_decodeTxs, payload_tx|]. destruct bb. by apply (runs_tailOf (mk_Body _)).
Qed.

Lemma safe_Body : safe 1 (Body_DecodeRLP nilKeyVals).
Proof. unfold Body_DecodeRLP. safe_steps. Qed.

(** * Block *)
Definition blockFields (bb : Block K) : list Byte.byte :=
  rlpHeader (header bb) ++ rlpListOf rlpTx (transactions bb) ++ rlpTail (uncles bb) (withdrawals bb).

Definition rlpBlock (bb : Block K) : list Byte.byte := rlpLst (blockFields bb).

Definition block_ok (bb : Block K) : Prop :=
  uncle_ok (header bb) /\ Forall payload_ok (transactions bb) /\ Forall uncle_ok (uncles bb) /\ withdrawals_ok (withdrawals bb) /\
  len (rlpBlock bb) < 2 ^ 46.

Lemma Block_payloadSize_spec bb : block_ok bb ->
  Block_payloadSize encodeKeyVals bb = Ok (len (blockFields bb), len (concat (map rlpTx (transactions bb)))).
Proof.
  intros ([Hw _] & Htx & Hus & Hws & _). unfold Block_payloadSize. rewrite Block_txsLen_spec by done. cbn [mbind outcome_bind].
  rewrite <- Z.add_assoc, tail_size, Header_EncodingSize_spec, !prefixed_len by (done || by apply uncles_wide).
  unfold blockFields. rewrite !len_app. do 2 f_equal. unfold rlpHeader, rlpListOf. lia.
Qed.

Lemma emits_Block bb : block_ok bb -> emits (Block_EncodeRLP encodeKeyVals bb) (rlpBlock bb).
Proof.
  intros Hok out buf Hb. unfold Block_EncodeRLP. rewrite Block_payloadSize_spec by done. cbn [mbind outcome_bind]. revert out buf Hb.
  destruct Hok as ([Hw _] & Htx & Hus & Hws & Hl). apply uncles_wide in Hus. fold (emits (_ ← EncodeStructSizePrefix (len (blockFields bb));
    _ ← Header_EncodeRLP encodeKeyVals (header bb); _ ← EncodeStructSizePrefix (len (concat (map rlpTx (transactions bb))));
    _ ← mfor EncodeTxRLP (transactions bb); _ ← encodeUncles encodeKeyVals (uncles bb); encodeWithdrawals (withdrawals bb)) (rlpBlock bb)).
  pose proof (len_lt_rlpLst (blockFields bb)) as H1. unfold rlpBlock in *. unfold rlpLst at 1.
  apply emits_bind; [apply emits_StructSizePrefix; len_facts; lia|]. unfold blockFields in *. rewrite !len_app in H1. len_facts.
  pose proof (len_lt_rlpLst (headerFields (header bb))) as Hhl. fold (rlpHeader (header bb)) in Hhl.
  apply emits_bind; [apply emits_Header; [done|lia]|]. apply emits_bind2; [|apply emits_tailOf; (done || lia)].
  pose proof (len_lt_rlpLst (concat (map rlpTx (transactions bb)))) as Htl. fold (rlpListOf rlpTx (transactions bb)) in Htl.
  apply emits_payload; [done|done|lia].
Qed.

(** The size of the encoding is kept in the block. *)
Lemma runs_Block bb b fs : block_ok bb -> runs (at_ ((rlpBlock bb ++ b) :: fs)) (Block_DecodeRLP nilKeyVals)
  (inr (mk_Block (header bb) (uncles bb) (transactions bb) (withdrawals bb) (Some (len (rlpBlock bb))))) (at_ (b :: fs)).
Proof.
  intros (Hh & Htx & Hus & Hws & Hl). unfold Block_DecodeRLP, rlpBlock in *. eapply runs_bind; [apply runs_List|]. unfold blockFields at 1.
  eapply runs_bind; [by apply runs_Header|]. eapply runs_bind; [by apply runs_decodeTxs, payload_tx|].
  assert (ListSize (len (blockFields bb)) = len (rlpLst (blockFields bb))) as ->.
  { unfold ListSize, u64_add. rewrite len_rlpLst in *. apply u64_small. len_facts. pose proof (headsize_pos (len (blockFields bb))). unfold is_u64. lia. }
  by apply (runs_tailOf (fun us ws => mk_Block _ us _ ws _)).
Qed.

Lemma safe_Block : safe 1 (Block_DecodeRLP nilKeyVals).
Proof. unfold Block_DecodeRLP. pose proof (safe_Header (zeroHeader nilKeyVals)). safe_steps. Qed.
End body.
