(* ===== verification/BlockCodecTheorems.v ===== *)
(** What the encodings of headers, bodies and blocks promise: round trips in RLP
    and in SSZ, decoders that return on every input, and the inputs on which they
    do not do what they mean to. *)
From S2P Require Import Prelude Uint256 StateTypes Accounts AccountSpec Transaction Rlp RlpStream RlpSpec StreamSpec StreamSafe TxCodec TxCodecSpec TxCodecTheorems BlockCodec BlockCodecSpec.
#[local] Open Scope Z_scope.

Lemma length_Uint64SSZ x : length (Uint64SSZ x) = 8%nat.
Proof. unfold Uint64SSZ. by rewrite length_rev, length_be_split. Qed.

Lemma Unmarshal_Uint64SSZ x rest : is_u64 x -> UnmarshalUint64SSZ (Uint64SSZ x ++ rest) = Ok x.
Proof.
  intros Hx. unfold UnmarshalUint64SSZ. rewrite (proj2 (Z.ltb_ge _ _)) by (unfold len; rewrite length_app, length_Uint64SSZ; lia).
  rewrite take_app_length' by by rewrite length_Uint64SSZ. unfold Uint64SSZ. by rewrite rev_involutive, be_combine_split_small.
Qed.

(** Dropping what comes before a field. *)
Lemma drop_app_len {A} (pre rest : list A) n : length pre = n -> drop n (pre ++ rest) = rest.
Proof. intros <-. apply drop_app_length. Qed.

(** * Withdrawals *)
Definition sszWithdrawal (o : Withdrawal) : list Byte.byte :=
  Uint64SSZ (wd_Index o) ++ Uint64SSZ (wd_Validator o) ++ addrBytes (wd_Address o) ++ Uint64SSZ (wd_Amount o).

Lemma length_addrBytes a : length (addrBytes a) = 20%nat.
Proof. unfold addrBytes. apply length_be_split. Qed.

Lemma Withdrawal_EncodeSSZ_spec o : Withdrawal_EncodeSSZ o = Ok (sszWithdrawal o).
Proof.
  unfold Withdrawal_EncodeSSZ, sszWithdrawal. change (Z.to_nat Withdrawal_EncodingSizeSSZ) with (8 + (8 + (20 + 8)))%nat. rewrite !replicate_add.
  set (z8 := replicate 8 Byte.x00). set (z20 := replicate 20 Byte.x00).
  pose proof (length_Uint64SSZ (wd_Index o)) as L1. pose proof (length_Uint64SSZ (wd_Validator o)) as L2.
  pose proof (length_addrBytes (wd_Address o)) as L3. pose proof (length_Uint64SSZ (wd_Amount o)) as L4.
  set (a := Uint64SSZ (wd_Index o)) in *. set (b := Uint64SSZ (wd_Validator o)) in *. set (c := addrBytes _) in *. set (d := Uint64SSZ (wd_Amount o)) in *.
  assert (copyAt 0 a (z8 ++ z8 ++ z20 ++ z8) = Ok (tt, a ++ z8 ++ z20 ++ z8)) as E1 by by apply (copyAt_spec a [] z8).
  rewrite (M_bind_Ok _ _ _ _ _ E1).
  assert (copyAt 8 b (a ++ z8 ++ z20 ++ z8) = Ok (tt, a ++ b ++ z20 ++ z8)) as E2 by (apply (copyAt_spec b a z8); unfold len; lia || done).
  rewrite (M_bind_Ok _ _ _ _ _ E2).
  assert (copyAt 16 c (a ++ b ++ z20 ++ z8) = Ok (tt, a ++ b ++ c ++ z8)) as E3.
  { rewrite !(app_assoc a). apply (copyAt_spec c (a ++ b) z20); [unfold len; rewrite length_app; lia|done]. }
  rewrite (M_bind_Ok _ _ _ _ _ E3).
  assert (copyAt 36 d (a ++ b ++ c ++ z8) = Ok (tt, a ++ b ++ c ++ d)) as E4; [|by rewrite E4].
  rewrite !(app_assoc a), !(app_assoc (a ++ b)), <- (app_nil_r z8), <- (app_nil_r d).
  apply (copyAt_spec d ((a ++ b) ++ c) z8 []); [unfold len; rewrite !length_app; lia|done].
Qed.

Lemma Withdrawal_DecodeSSZ_spec o rest : withdrawal_ok o -> Withdrawal_DecodeSSZ (sszWithdrawal o ++ rest) = Ok (Some o).
Proof.
  intros (Hi & Hv & Ha & Hm). unfold Withdrawal_DecodeSSZ, sszWithdrawal. rewrite <- !app_assoc.
  rewrite (proj2 (Z.ltb_ge _ _)) by (unfold len; rewrite !length_app, !length_Uint64SSZ, length_addrBytes; unfold Withdrawal_EncodingSizeSSZ; lia).
  rewrite Unmarshal_Uint64SSZ by done. cbn [mbind outcome_bind].
  rewrite (drop_app_len (Uint64SSZ (wd_Index o)) _ 8) by apply length_Uint64SSZ. rewrite Unmarshal_Uint64SSZ by done. cbn [mbind outcome_bind].
  rewrite !(app_assoc (Uint64SSZ (wd_Index o))), !(app_assoc (Uint64SSZ (wd_Index o) ++ _)).
  rewrite (drop_app_len _ _ 36) by (rewrite !length_app, !length_Uint64SSZ, length_addrBytes; done). rewrite Unmarshal_Uint64SSZ by done. cbn [mbind outcome_bind].
  rewrite <- (app_assoc (Uint64SSZ _ ++ Uint64SSZ _)), (drop_app_len _ _ 16) by (rewrite !length_app, !length_Uint64SSZ; done).
  rewrite take_app_length' by (by rewrite length_addrBytes). rewrite bytes_to_N_addrBytes by done. by destruct o.
Qed.

(** * Headers *)

(** A buffer made of fields of known lengths. *)
Section fields.
Context (fs : list (list Byte.byte)) (ls : list Z).
Hypothesis lengths : Forall2 (fun f l => len f = l) fs ls.

Definition offset (i : nat) : Z := foldr Z.add 0 (take i ls).

Lemma offset_len i : offset i = len (concat (take i fs)).
Proof.
  unfold offset. clear -lengths. revert i. induction lengths as [|f l fs' ls' Hf Hfs IH]; intros [|i]; try done.
  cbn [take foldr concat]. by rewrite len_app, <- IH, Hf.
Qed.

Lemma concat_at i x : fs !! i = Some x -> concat fs = concat (take i fs) ++ x ++ concat (drop (S i) fs).
Proof. intros E. rewrite <- (take_drop_middle _ _ _ E) at 1. rewrite concat_app. done. Qed.

Lemma len_at i x l : fs !! i = Some x -> ls !! i = Some l -> len x = l.
Proof. intros Ex El. by eapply (Forall2_lookup_lr _ _ _ i) in lengths; [|exact Ex|exact El]. Qed.

Lemma sszField_at i x l : fs !! i = Some x -> ls !! i = Some l -> sszField (concat fs) (offset i) l = Ok x.
Proof.
  intros Ex El. unfold sszField. rewrite (concat_at i x Ex), offset_len. apply slice_app; [done|]. by rewrite (len_at i x l Ex El).
Qed.

Lemma drop_at i x : fs !! i = Some x -> drop (Z.to_nat (offset i)) (concat fs) = x ++ concat (drop (S i) fs).
Proof. intros Ex. rewrite (concat_at i x Ex), offset_len at 1. unfold len. rewrite Nat2Z.id. apply drop_app_length. Qed.

Lemma uint64_at i v : fs !! i = Some (Uint64SSZ v) -> is_u64 v -> UnmarshalUint64SSZ (drop (Z.to_nat (offset i)) (concat fs)) = Ok v.
Proof. intros Ex Hv. rewrite (drop_at i _ Ex). by apply Unmarshal_Uint64SSZ. Qed.
End fields.

Lemma be_split_0 n : be_split n 0 = replicate n Byte.x00.
Proof.
  induction n as [|n IH]; [done|]. rewrite be_split_S. change (Z.shiftr 0 8) with 0. rewrite IH. change (byte.of_Z 0) with Byte.x00.
  symmetry. apply replicate_S_end.
Qed.

Lemma rev_replicate {A} n (x : A) : rev (replicate n x) = replicate n x.
Proof. induction n as [|n IH]; [done|]. cbn [replicate rev]. rewrite IH. symmetry. apply replicate_S_end. Qed.

(** A big number, reversed and padded, is its little-endian form. *)
Lemma padRight_le v : 0 <= v < 2 ^ 256 -> padRight 32 (reverseBytes (be_split (Z.to_nat (byteLen v)) v)) = rev (be_split 32 v).
Proof.
  intros Hv. pose proof (byteLen_nonneg v). pose proof (byteLen_le v 32 Hv ltac:(lia)). set (k := Z.to_nat (byteLen v)).
  assert (k <= 32)%nat by lia. unfold padRight, reverseBytes. rewrite length_rev, length_be_split, take_ge by (rewrite length_rev, length_be_split; lia).
  replace 32%nat with ((32 - k) + k)%nat at 2 by lia. rewrite be_split_app, rev_app_distr. f_equal.
  assert (Z.shiftr v (8 * Z.of_nat k) = 0) as ->.
  { rewrite Z.shiftr_div_pow2 by lia. apply Z.div_small. split; [lia|]. unfold k. rewrite Z2Nat.id by done. apply byteLen_bound. lia. }
  rewrite be_split_0. symmetry. apply rev_replicate.
Qed.

Section header.
Context {K : Type}.
Implicit Types (h t : Header K).

Definition sszFields h (number baseFee : Z) : list (list Byte.byte) :=
  [hashBytes (ParentHash h); addrBytes (Coinbase h); hashBytes (HRoot h); hashBytes (ReceiptHash h); HBloom h; hashBytes (MixDigest h);
   Uint64SSZ number; Uint64SSZ (GasLimit h); Uint64SSZ (GasUsed h); Uint64SSZ (Time h);
   OffsetSSZ (match WithdrawalsHash h with Some _ => 568 | None => 536 end); rev (be_split 32 baseFee); hashBytes (BlockHashCL h); hashBytes (TxHashSSZ h)] ++
  match WithdrawalsHash h with Some x => [hashBytes x] | None => [] end ++ [Extra h].

Definition sszLengths h : list Z :=
  [32; 20; 32; 32; 256; 32; 8; 8; 8; 8; 4; 32; 32; 32] ++ match WithdrawalsHash h with Some x => [32] | None => [] end ++ [len (Extra h)].

(** Headers that SSZ can represent: what is not written is what the decoder
    leaves in [t] or sets. *)
Definition ssz_ok (EmptyUncleHash : hash) t h (number baseFee : Z) : Prop :=
  hashes_ok h /\ len (HBloom h) = 256 /\ Number h = Some number /\ is_u64 number /\ BaseFee h = Some baseFee /\ 0 <= baseFee < 2 ^ 256 /\
  is_u64 (GasLimit h) /\ is_u64 (GasUsed h) /\ is_u64 (Time h) /\ (BlockHashCL h < 2 ^ 256)%N /\ (TxHashSSZ h < 2 ^ 256)%N /\
  UncleHash h = EmptyUncleHash /\ HDifficulty h = Some 0 /\ TxHash h = TxHash t /\ HNonce h = HNonce t /\ AuRaStep h = AuRaStep t /\
  AuRaSeal h = AuRaSeal t /\ Verkle h = Verkle t /\ VerkleProof h = VerkleProof t /\ VerkleKeyVals h = VerkleKeyVals t /\
  WithdrawalsHash t = None /\ len (Extra t) <= len (Extra h).

Lemma Header_EncodeSSZ_spec dst h number baseFee : Number h = Some number -> is_u64 number -> BaseFee h = Some baseFee -> 0 <= baseFee < 2 ^ 256 ->
  Header_EncodeSSZ dst h = Ok (dst ++ concat (sszFields h number baseFee)).
Proof.
  intros Hn Hu Hf Hb. unfold Header_EncodeSSZ, EncodeHeaderMetadataForSSZ. rewrite Hn, Hf. cbn [or_panic mbind outcome_bind].
  unfold is_u64 in Hu. rewrite !Z.abs_eq, u64_small, padRight_le by (done || lia). f_equal. unfold sszFields.
  destruct (WithdrawalsHash h); cbn [app concat]; by rewrite ?app_nil_r, <- !app_assoc.
Qed.

Lemma sszLengths_ok h number baseFee : len (HBloom h) = 256 -> Forall2 (fun f l => len f = l) (sszFields h number baseFee) (sszLengths h).
Proof.
  intros Hb. unfold sszFields, sszLengths.
  assert (forall x, len (Uint64SSZ x) = 8) as H8 by (intros x; unfold len; by rewrite length_Uint64SSZ).
  assert (forall n x, len (rev (be_split n x)) = Z.of_nat n) as Hr by (intros n x; unfold len; by rewrite length_rev, length_be_split).
  cbn [app]. constructor; [apply len_hashBytes|]. constructor; [apply len_addrBytes|]. do 2 (constructor; [apply len_hashBytes|]).
  constructor; [exact Hb|]. constructor; [apply len_hashBytes|]. do 4 (constructor; [apply H8|]). do 2 (constructor; [apply Hr|]).
  do 2 (constructor; [apply len_hashBytes|]).
  destruct (WithdrawalsHash h); repeat constructor.
Qed.

Definition isCapella h : bool := match WithdrawalsHash h with Some _ => true | None => false end.

Lemma len_sszFields h number baseFee : len (HBloom h) = 256 ->
  len (concat (sszFields h number baseFee)) = 536 + (if isCapella h then 32 else 0) + len (Extra h).
Proof.
  intros Hb. pose proof (offset_len _ _ (sszLengths_ok h number baseFee Hb) (length (sszLengths h))) as E.
  rewrite (take_ge (sszFields _ _ _)) in E by (unfold sszFields, sszLengths; destruct (WithdrawalsHash h); cbn; lia). rewrite <- E.
  unfold offset, sszLengths, isCapella. rewrite firstn_all. destruct (WithdrawalsHash h); cbn [app foldr]; lia.
Qed.

(** The fixed fields at their positions. *)
Lemma sszHeader_hashes h number baseFee : len (HBloom h) = 256 -> let buf := concat (sszFields h number baseFee) in
  sszField buf 0 32 = Ok (hashBytes (ParentHash h)) /\ sszField buf 32 20 = Ok (addrBytes (Coinbase h)) /\
  sszField buf 52 32 = Ok (hashBytes (HRoot h)) /\ sszField buf 84 32 = Ok (hashBytes (ReceiptHash h)) /\
  sszField buf 116 256 = Ok (HBloom h) /\ sszField buf 372 32 = Ok (hashBytes (MixDigest h)) /\
  sszField buf 440 32 = Ok (rev (be_split 32 baseFee)) /\ sszField buf 472 32 = Ok (hashBytes (BlockHashCL h)) /\
  sszField buf 504 32 = Ok (hashBytes (TxHashSSZ h)).
Proof.
  intros Hb. pose proof (sszField_at _ _ (sszLengths_ok h number baseFee Hb)) as HF. cbv zeta. split_and!.
  - exact (HF 0%nat _ 32 eq_refl eq_refl).
  - exact (HF 1%nat _ 20 eq_refl eq_refl).
  - exact (HF 2%nat _ 32 eq_refl eq_refl).
  - exact (HF 3%nat _ 32 eq_refl eq_refl).
  - exact (HF 4%nat _ 256 eq_refl eq_refl).
  - exact (HF 5%nat _ 32 eq_refl eq_refl).
  - exact (HF 11%nat _ 32 eq_refl eq_refl).
  - exact (HF 12%nat _ 32 eq_refl eq_refl).
  - exact (HF 13%nat _ 32 eq_refl eq_refl).
Qed.

Lemma sszHeader_numbers h number baseFee : len (HBloom h) = 256 -> is_u64 number -> is_u64 (GasLimit h) -> is_u64 (GasUsed h) -> is_u64 (Time h) ->
  let buf := concat (sszFields h number baseFee) in
  UnmarshalUint64SSZ (drop 404 buf) = Ok number /\ UnmarshalUint64SSZ (drop 412 buf) = Ok (GasLimit h) /\
  UnmarshalUint64SSZ (drop 420 buf) = Ok (GasUsed h) /\ UnmarshalUint64SSZ (drop 428 buf) = Ok (Time h).
Proof.
  intros Hb Hn Hg Hu Ht. pose proof (uint64_at _ _ (sszLengths_ok h number baseFee Hb)) as HU. cbv zeta. split_and!.
  - exact (HU 6%nat number eq_refl Hn).
  - exact (HU 7%nat _ eq_refl Hg).
  - exact (HU 8%nat _ eq_refl Hu).
  - exact (HU 9%nat _ eq_refl Ht).
Qed.

Lemma sszHeader_tail h number baseFee : len (HBloom h) = 256 -> let buf := concat (sszFields h number baseFee) in
  (if isCapella h then x ← sszField buf 536 32; Ok (Some (bytes_to_N x)) else Ok None) =
    Ok (match WithdrawalsHash h with Some x => Some (bytes_to_N (hashBytes x)) | None => None end) /\
  drop (if isCapella h then 568 else 536) buf = Extra h.
Proof.
  intros Hb. pose proof (sszField_at _ _ (sszLengths_ok h number baseFee Hb)) as HF. pose proof (drop_at _ _ (sszLengths_ok h number baseFee Hb)) as HD.
  cbv zeta. unfold isCapella, sszFields, sszLengths in *. destruct (WithdrawalsHash h) as [x|]; cbn [app] in *.
  - pose proof (HF 14%nat _ 32 eq_refl eq_refl : sszField _ 536 32 = _) as E. rewrite E. split; [done|]. etrans; [exact (HD 15%nat _ eq_refl)|apply app_nil_r].
  - split; [done|]. etrans; [exact (HD 14%nat _ eq_refl)|apply app_nil_r].
Qed.
Lemma Header_DecodeSSZ_spec EmptyUncleHash t h number baseFee : ssz_ok EmptyUncleHash t h number baseFee ->
  Header_DecodeSSZ EmptyUncleHash (isCapella h) (concat (sszFields h number baseFee)) t = Ok (Some h).
Proof.
  intros ([Hh1 [Hh2 Hh3]] & Hb & Hn & Hu & Hf & Hbf & Hg1 & Hg2 & Hg3 & Hc1 & Hc2 & H1 & H2 & H3 & H4 & H5 & H6 & H7 & H8 & H9 & Hw & He).
  repeat apply Forall_cons_iff in Hh1 as [? Hh1]. pose proof (len_sszFields h number baseFee Hb) as Hlen.
  destruct (sszHeader_hashes h number baseFee Hb) as (F0 & F1 & F2 & F3 & F4 & F5 & F11 & F12 & F13).
  destruct (sszHeader_numbers h number baseFee Hb Hu Hg1 Hg2 Hg3) as (N6 & N7 & N8 & N9).
  destruct (sszHeader_tail h number baseFee Hb) as [T1 T2]. set (buf := concat _) in *.
  unfold Header_DecodeSSZ. rewrite (proj2 (Z.ltb_ge _ _)) by (rewrite Hlen; unfold Header_EncodingSizeSSZ; rewrite Hw; lia).
  rewrite F0, F1, F2, F3, F4, F5, F11, F12, F13, N6, N7, N8, N9. cbn [mbind outcome_bind].
  cbn [mbind] in T1. rewrite T1. cbn [outcome_bind]. rewrite T2. unfold reverseBytes. rewrite rev_involutive, be_combine_split_small by done.
  rewrite !bytes_to_N_hashBytes, bytes_to_N_addrBytes, <- H3, <- H4, <- H5, <- H6, <- H7, <- H8, <- H9 by done. do 2 f_equal.
  destruct h as [? ? ? ? ? ? ? ? ? ? ? ? ? ? ? ? ? ? wh ? ? ? ? ?]. cbn in *. subst. f_equal. destruct wh; [|done]. by rewrite bytes_to_N_hashBytes.
Qed.
End header.

Section theorems.
Context {U : Uint256} {US : Uint256Spec U} {UC : Uint256Codec U} {UCS : Uint256CodecSpec U UC}.
Context {EB : EncoderBuffer} {EBS : EncoderBufferSpec EB}.
Context {K : Type} (encodeKeyVals : K -> list Byte.byte) (nilKeyVals : K) (pooled : Stream).

(** Encoding and decoding of one kind of value. *)
Lemma codec_roundtrip {A} (enc : M writer unit) (dec : D A) bs v : emits enc bs -> len bs < 2 ^ 46 ->
  (forall b fs, runs (at_ ((bs ++ b) :: fs)) dec (inr v) (at_ (b :: fs))) -> written 33 enc = Ok bs /\ DecodeBytes pooled dec bs = Ok (inr v).
Proof.
  intros He Hl Hd. split; [by apply emits_written|]. apply DecodeBytes_runs; [lia|]. rewrite <- (app_nil_r bs). apply Hd.
Qed.

(** A header whose fields have their widths is read back from what
    EncodeRLP writes, into any header that agrees with it on the fields that
    are not written, and EncodingSize is the size of the list. *)
Theorem header_roundtrip (t h : Header K) : header_ok t h -> len (rlpHeader h) < 2 ^ 46 ->
  written 33 (Header_EncodeRLP encodeKeyVals h) = Ok (rlpHeader h) /\
  DecodeBytes pooled (Header_DecodeRLP t) (rlpHeader h) = Ok (inr h) /\
  rlpHeader h = rlpLst (headerFields h) /\ Header_EncodingSize encodeKeyVals h = len (headerFields h).
Proof.
  intros Hok Hl. pose proof (len_lt_rlpLst (headerFields h)) as Hlst. unfold rlpHeader in Hl. destruct Hok as [Hw Hr].
  destruct (codec_roundtrip (Header_EncodeRLP encodeKeyVals h) (Header_DecodeRLP t) (rlpHeader h) h) as [H1 H2];
    [apply emits_Header; [done|lia]|done|intros; by apply runs_Header|]. split_and!; try done. by apply Header_EncodingSize_spec.
Qed.

(** C22: a block without deposits is read back from what EncodeRLP writes, with
    the size of its encoding, and so is its body. *)
Theorem block_roundtrip (b : Block K) (bb : Body K) : block_ok nilKeyVals b -> body_ok nilKeyVals bb ->
  written 33 (Block_EncodeRLP encodeKeyVals b) = Ok (rlpBlock b) /\
  DecodeBytes pooled (Block_DecodeRLP nilKeyVals) (rlpBlock b) =
    Ok (inr (mk_Block (header b) (uncles b) (transactions b) (withdrawals b) (Some (len (rlpBlock b))))) /\
  written 33 (Body_EncodeRLP encodeKeyVals bb) = Ok (rlpBody bb) /\
  DecodeBytes pooled (Body_DecodeRLP nilKeyVals) (rlpBody bb) = Ok (inr bb).
Proof.
  intros Hb Hbb. assert (len (rlpBlock b) < 2 ^ 46) by apply Hb. assert (len (rlpBody bb) < 2 ^ 46) by apply Hbb.
  split; [by eapply emits_written, emits_Block|]. split; [|apply codec_roundtrip; [by eapply emits_Body|done|intros; by apply runs_Body]].
  eapply (codec_roundtrip (Block_EncodeRLP encodeKeyVals b)); [by eapply emits_Block|done|intros; by apply runs_Block].
Qed.

Lemma item_rlpTx (tx : WireTx) : payload_ok tx -> item (rlpTx tx).
Proof. intros [_ Ht]. destruct tx; [..|by destruct Ht]; eexists; [by right|by left|by left]. Qed.

(** The two forms in which bodies are kept in the database come back from
    what is written for them, and a body that was encoded as Body is read as
    RawBody with the encodings of its transactions. *)
Theorem stored_body_roundtrip (rb : RawBody K) (bfs : BodyForStorage K) (bb : Body K) :
  rawBody_ok nilKeyVals rb -> bodyForStorage_ok nilKeyVals bfs -> body_ok nilKeyVals bb ->
  (written 33 (RawBody_EncodeRLP encodeKeyVals rb) = Ok (rlpRawBody rb) /\
   DecodeBytes pooled (RawBody_DecodeRLP nilKeyVals) (rlpRawBody rb) = Ok (inr rb)) /\
  (written 33 (BodyForStorage_EncodeRLP encodeKeyVals bfs) = Ok (rlpBodyForStorage bfs) /\
   DecodeBytes pooled (BodyForStorage_DecodeRLP nilKeyVals) (rlpBodyForStorage bfs) = Ok (inr bfs)) /\
  DecodeBytes pooled (RawBody_DecodeRLP nilKeyVals) (rlpBody bb) =
    Ok (inr (mk_RawBody (map rlpTx (Transactions bb)) (Uncles bb) (Withdrawals bb))).
Proof.
  intros Hrb Hbfs (Htx & Hus & Hws & Hl). split; [|split].
  - apply codec_roundtrip; [by eapply emits_RawBody|apply Hrb|intros; by apply runs_RawBody].
  - apply codec_roundtrip; [by eapply emits_BodyForStorage|apply Hbfs|intros; by apply runs_BodyForStorage].
  - set (raw := mk_RawBody _ _ _). assert (rlpBody bb = rlpRawBody raw) as E.
    { unfold rlpBody, rlpRawBody, raw, rlpListOf. cbn [rb_Transactions rb_Uncles rb_Withdrawals]. by rewrite map_id. }
    rewrite E in *. apply DecodeBytes_runs; [lia|]. rewrite <- (app_nil_r (rlpRawBody raw)). apply runs_RawBody. split_and!; try done.
    apply Forall_map. eapply Forall_impl; [apply item_rlpTx|exact Htx].
Qed.

(** C35: the decoders of headers, withdrawals, bodies and blocks return on every
    input: none makes them panic or run forever. *)
Theorem block_decoders_total data (t : Header K) : len data < 2 ^ 47 ->
  (exists res, DecodeBytes pooled (Header_DecodeRLP t) data = Ok res) /\
  (exists res, DecodeBytes pooled Withdrawal_DecodeRLP data = Ok res) /\
  (exists res, DecodeBytes pooled (RawBody_DecodeRLP nilKeyVals) data = Ok res) /\
  (exists res, DecodeBytes pooled (BodyForStorage_DecodeRLP nilKeyVals) data = Ok res) /\
  (exists res, DecodeBytes pooled (Body_DecodeRLP nilKeyVals) data = Ok res) /\
  (exists res, DecodeBytes pooled (Block_DecodeRLP nilKeyVals) data = Ok res).
Proof.
  intros Hl. split_and!; (eapply DecodeBytes_safe; [done|]).
  - apply safe_Header.
  - apply safe_Withdrawal.
  - apply safe_RawBody.
  - apply safe_BodyForStorage.
  - apply safe_Body.
  - apply safe_Block.
Qed.

(** Withdrawals and headers come back from their SSZ encodings, and input
    that is too short is the error ErrLowBufferSize, not a panic. *)
Theorem ssz_roundtrip (o : Withdrawal) (EmptyUncleHash : hash) (t h : Header K) number baseFee short rest :
  withdrawal_ok o -> ssz_ok EmptyUncleHash t h number baseFee -> len short < 44 ->
  Withdrawal_EncodeSSZ o = Ok (sszWithdrawal o) /\ Withdrawal_DecodeSSZ (sszWithdrawal o ++ rest) = Ok (Some o) /\
  Withdrawal_DecodeSSZ short = Ok None /\
  Header_EncodeSSZ [] h = Ok (concat (sszFields h number baseFee)) /\
  Header_DecodeSSZ EmptyUncleHash (isCapella h) (concat (sszFields h number baseFee)) t = Ok (Some h) /\
  Header_DecodeSSZ EmptyUncleHash (isCapella h) short t = Ok None.
Proof.
  intros Ho Hh Hs. pose proof Hh as (_ & _ & Hn & Hu & Hf & Hb & _). split_and!.
  - apply Withdrawal_EncodeSSZ_spec.
  - by apply Withdrawal_DecodeSSZ_spec.
  - unfold Withdrawal_DecodeSSZ. by rewrite (proj2 (Z.ltb_lt _ _)) by exact Hs.
  - by apply (Header_EncodeSSZ_spec [] h).
  - by apply Header_DecodeSSZ_spec.
  - unfold Header_DecodeSSZ. rewrite (proj2 (Z.ltb_lt _ _)); [done|]. unfold Header_EncodingSizeSSZ. len_facts. case_match; lia.
Qed.
End theorems.

(** * Examples *)
Definition noKeyVals (_ : unit) : list Byte.byte := [].

(** A header after the Shanghai upgrade. *)
Definition demoHeader : Header unit :=
  mk_Header 1%N 2%N 3%N 4%N 5%N 6%N (replicate 256 Byte.x00) (Some 0) (Some 17034870) 30000000 21000 1681338455 [Byte.x62; Byte.x6f] 7%N
    (replicate 8 Byte.x00) 0 [] (Some 1000000000) (Some 8%N) false [] tt 0%N 0%N.

Definition demoWithdrawal : Withdrawal := mk_Withdrawal 1 300 0xABCD%N 32000000000.

Definition demoBlock : Block unit := mk_Block demoHeader [demoHeader] [demoTransfer] (Some [demoWithdrawal]) None.

Definition demoBody : Body unit := mk_Body [demoTransfer] [demoHeader] (Some [demoWithdrawal]).

Definition demoRawBody : RawBody unit := mk_RawBody [rlpTx demoTransfer] [demoHeader] None.

Definition demoStored : BodyForStorage unit := mk_BodyForStorage 12345 3 [] (Some []).

Lemma demoHeader_ok : header_ok (zeroHeader tt) demoHeader.
Proof.
  split; [|split; [|split]].
  - unfold header_wide, is_u64. cbn. split_and!; try done; lia.
  - unfold hashes_ok. cbn. split_and!; try done. repeat constructor.
  - by unfold agrees.
  - done.
Qed.

Lemma demoPayload_ok : payload_ok demoTransfer.
Proof. split; [exact demoTransfer_ok|discriminate]. Qed.

Lemma demoWithdrawal_ok : withdrawal_ok demoWithdrawal.
Proof. unfold withdrawal_ok, is_u64. cbn. split_and!; done || lia. Qed.

#[local] Hint Resolve demoHeader_ok demoPayload_ok demoWithdrawal_ok : core.

Lemma demoBlock_ok : block_ok tt demoBlock.
Proof. split; [auto|]. do 3 (split; [by apply Forall_singleton; auto|]). by vm_compute. Qed.

Lemma demoBody_ok : body_ok tt demoBody.
Proof. do 3 (split; [by apply Forall_singleton; auto|]). by vm_compute. Qed.

Lemma demoRawBody_ok : rawBody_ok tt demoRawBody.
Proof. split; [apply Forall_singleton, item_rlpTx; auto|]. split; [by apply Forall_singleton; auto|]. split; [done|by vm_compute]. Qed.

Lemma demoStored_ok : bodyForStorage_ok tt demoStored.
Proof. do 2 (split; [by vm_compute|]). split; [by constructor|]. split; [by constructor|by vm_compute]. Qed.

Lemma header_roundtrip_witness :
  written 33 (Header_EncodeRLP noKeyVals demoHeader) = Ok (rlpHeader demoHeader) /\
  DecodeBytes zeroStream (Header_DecodeRLP (zeroHeader tt)) (rlpHeader demoHeader) = Ok (inr demoHeader) /\
  rlpHeader demoHeader = rlpLst (headerFields demoHeader) /\ Header_EncodingSize noKeyVals demoHeader = len (headerFields demoHeader).
Proof. apply (header_roundtrip noKeyVals zeroStream (zeroHeader tt) demoHeader); [exact demoHeader_ok|by vm_compute]. Defined.

Lemma block_roundtrip_witness :
  written 33 (Block_EncodeRLP noKeyVals demoBlock) = Ok (rlpBlock demoBlock) /\
  DecodeBytes zeroStream (Block_DecodeRLP tt) (rlpBlock demoBlock) =
    Ok (inr (mk_Block demoHeader [demoHeader] [demoTransfer] (Some [demoWithdrawal]) (Some (len (rlpBlock demoBlock))))) /\
  written 33 (Body_EncodeRLP noKeyVals demoBody) = Ok (rlpBody demoBody) /\
  DecodeBytes zeroStream (Body_DecodeRLP tt) (rlpBody demoBody) = Ok (inr demoBody).
Proof. exact (block_roundtrip noKeyVals tt zeroStream demoBlock demoBody demoBlock_ok demoBody_ok). Defined.

Lemma stored_body_roundtrip_witness :
  (written 33 (RawBody_EncodeRLP noKeyVals demoRawBody) = Ok (rlpRawBody demoRawBody) /\
   DecodeBytes zeroStream (RawBody_DecodeRLP tt) (rlpRawBody demoRawBody) = Ok (inr demoRawBody)) /\
  (written 33 (BodyForStorage_EncodeRLP noKeyVals demoStored) = Ok (rlpBodyForStorage demoStored) /\
   DecodeBytes zeroStream (BodyForStorage_DecodeRLP tt) (rlpBodyForStorage demoStored) = Ok (inr demoStored)) /\
  DecodeBytes zeroStream (RawBody_DecodeRLP tt) (rlpBody demoBody) =
    Ok (inr (mk_RawBody (map rlpTx (Transactions demoBody)) (Uncles demoBody) (Withdrawals demoBody))).
Proof. exact (stored_body_roundtrip noKeyVals tt zeroStream demoRawBody demoStored demoBody demoRawBody_ok demoStored_ok demoBody_ok). Defined.

Lemma block_decoders_total_witness :
  (exists res, DecodeBytes zeroStream (Header_DecodeRLP (zeroHeader tt)) [Byte.xf9] = Ok res) /\
  (exists res, DecodeBytes zeroStream Withdrawal_DecodeRLP [Byte.xf9] = Ok res) /\
  (exists res, DecodeBytes zeroStream (RawBody_DecodeRLP tt) [Byte.xf9] = Ok res) /\
  (exists res, DecodeBytes zeroStream (BodyForStorage_DecodeRLP tt) [Byte.xf9] = Ok res) /\
  (exists res, DecodeBytes zeroStream (Body_DecodeRLP tt) [Byte.xf9] = Ok res) /\
  (exists res, DecodeBytes zeroStream (Block_DecodeRLP tt) [Byte.xf9] = Ok res).
Proof. by apply (block_decoders_total tt zeroStream [Byte.xf9] (zeroHeader tt)). Defined.

Lemma demoHeader_ssz : ssz_ok 2%N (CopyHeader (mk_Header 0%N 0%N 0%N 0%N 5%N 0%N [] None None 0 0 0 [] 0%N (replicate 8 Byte.x00) 0 [] None None false [] tt 0%N 0%N))
  demoHeader 17034870 1000000000.
Proof.
  split; [|unfold is_u64; split_and!; done || (vm_compute; done)]. unfold hashes_ok. cbn. split_and!; try done. repeat constructor.
Qed.

Lemma ssz_roundtrip_witness : let t := CopyHeader (mk_Header 0%N 0%N 0%N 0%N 5%N 0%N [] None None 0 0 0 [] 0%N (replicate 8 Byte.x00) 0 [] None None false [] tt 0%N 0%N) in
  Withdrawal_EncodeSSZ demoWithdrawal = Ok (sszWithdrawal demoWithdrawal) /\
  Withdrawal_DecodeSSZ (sszWithdrawal demoWithdrawal ++ [Byte.xff]) = Ok (Some demoWithdrawal) /\
  Withdrawal_DecodeSSZ [Byte.x01] = Ok None /\
  Header_EncodeSSZ [] demoHeader = Ok (concat (sszFields demoHeader 17034870 1000000000)) /\
  Header_DecodeSSZ 2%N (isCapella demoHeader) (concat (sszFields demoHeader 17034870 1000000000)) t = Ok (Some demoHeader) /\
  Header_DecodeSSZ 2%N (isCapella demoHeader) [Byte.x01] t = Ok None.
Proof.
  cbv zeta. by apply (ssz_roundtrip demoWithdrawal 2%N _ demoHeader 17034870 1000000000 [Byte.x01] [Byte.xff] demoWithdrawal_ok demoHeader_ssz).
Defined.

(** * Where the code does not do what it means to *)
Definition emptyBody : Body unit := mk_Body [] [] None.

Definition depositBody : Body unit := mk_Body [WDeposit 1%N demoDeposit] [] None.

Definition depositBlock : Block unit := mk_Block demoHeader [] [WDeposit 1%N demoDeposit] None None.

(** The loops over transactions and uncles take an end of list that comes
    from inside an element, wrapped in another error, for the end of their own
    list: a body whose transactions are two empty lists and that has no uncles,
    and a body with an empty list for an uncle, are accepted as the empty body,
    which is encoded differently. *)
Example malformed_body_accepted :
  DecodeBytes zeroStream (Body_DecodeRLP tt) [Byte.xc3; Byte.xc2; Byte.xc0; Byte.xc0] = Ok (inr emptyBody) /\
  DecodeBytes zeroStream (Body_DecodeRLP tt) [Byte.xc3; Byte.xc0; Byte.xc1; Byte.xc0] = Ok (inr emptyBody) /\
  written 33 (Body_EncodeRLP noKeyVals emptyBody) = Ok [Byte.xc2; Byte.xc0; Byte.xc0].
Proof. split_and!; [vm_cast_no_check (@eq_refl (outcome (RlpError + Body unit)) (Ok (inr emptyBody)))..|by vm_compute]. Qed.

(** EncodeRLP of a body has no case for deposits: it counts one byte for
    each and writes none, so that a body with a deposit cannot be decoded; and
    a block counts a header for a deposit that it does not write, so that it
    cannot be decoded either. *)
Example deposits_break_encoding :
  written 33 (Body_EncodeRLP noKeyVals depositBody) = Ok [Byte.xc3; Byte.xc1; Byte.xc0] /\
  DecodeBytes zeroStream (Body_DecodeRLP tt) [Byte.xc3; Byte.xc1; Byte.xc0] = Ok (inl ErrValueTooLarge) /\
  (bs ← written 33 (Block_EncodeRLP noKeyVals depositBlock); DecodeBytes zeroStream (Block_DecodeRLP tt) bs) = Ok (inl ErrValueTooLarge).
Proof.
  split; [by vm_compute|]. split; [vm_cast_no_check (@eq_refl (outcome (RlpError + Body unit)) (Ok (inl ErrValueTooLarge)))|].
  vm_cast_no_check (@eq_refl (outcome (RlpError + Block unit)) (Ok (inl ErrValueTooLarge))).
Qed.

(** A seal of one small byte is counted with a header that it does not get. *)
Definition oneByteSeal : Header unit :=
  mk_Header 1%N 2%N 3%N 4%N 5%N 6%N (replicate 256 Byte.x00) (Some 0) (Some 1) 0 0 0 [] 0%N (replicate 8 Byte.x00) 9 [Byte.x01] None None false [] tt 0%N 0%N.

Example one_byte_seal_size :
  Header_EncodingSize noKeyVals oneByteSeal = len (headerFields oneByteSeal) + 1 /\
  (bs ← written 33 (Header_EncodeRLP noKeyVals oneByteSeal); DecodeBytes zeroStream (Header_DecodeRLP (zeroHeader tt)) bs) = Ok (inl ErrValueTooLarge).
Proof. by vm_compute. Qed.
