(* ===== verification/BorValset.v ===== *)
(** The validator set of the Bor consensus engine
    (consensus/bor/valset/validator.go, validator_set.go): proposer selection by
    priority, and updates of the set.

    Numbers of type int64 are integers, wrapped where the code does not guard
    an operation.  Validators are values: of the objects that the code shares,
    [Proposer] points to one whose address, which is all that is used of it,
    never changes, and is kept as that address. *)
From stdpp Require Import sorting.
From S2P Require Import Prelude Uint256 StateTypes Accounts Transaction Rlp TxCodec.
#[local] Open Scope Z_scope.

Definition MaxInt64 : Z := 2 ^ 63 - 1.

Definition MinInt64 : Z := - 2 ^ 63.

Definition MaxTotalVotingPower : Z := MaxInt64 / 8.

Definition PriorityWindowSizeFactor : Z := 2.

(** ** Validators *)
Record Validator := mk_Validator { ID : Z; Address : address; VotingPower : Z; ProposerPriority : Z }.

Definition NewValidator (a : address) (votingPower : Z) : Validator := mk_Validator 0 a votingPower 0.

Definition set_power (p : Z) (v : Validator) : Validator := mk_Validator (ID v) (Address v) p (ProposerPriority v).

Definition set_priority (p : Z) (v : Validator) : Validator := mk_Validator (ID v) (Address v) (VotingPower v) p.

(** Cmp; the outer option is the panic on identical validators. *)
Definition Cmp (v other : option Validator) : outcome (option Validator) :=
  match v, other with
  | None, _ => Ok other
  | _, None => Ok v
  | Some v, Some other =>
      if ProposerPriority other <? ProposerPriority v then Ok (Some v)
      else if ProposerPriority v <? ProposerPriority other then Ok (Some other)
      else if N.eqb (Address v) (Address other) then Panic
      else if N.ltb (Address v) (Address other) then Ok (Some v)
      else Ok (Some other)
  end.

(** SetInt64(power).Bytes(): the absolute value. *)
Definition PowerBytes (v : Validator) : list Byte.byte :=
  let p := Z.abs (VotingPower v) in
  let powerBytes := be_split (Z.to_nat (byteLen p)) p in
  replicate (20 - length powerBytes) Byte.x00 ++ powerBytes.

Definition HeaderBytes (v : Validator) : list Byte.byte := addrBytes (Address v) ++ PowerBytes v.

(** The loop of ParseValidators over the remaining [n] entries. *)
Fixpoint parseEntries (n : nat) (bs : list Byte.byte) : list Validator :=
  match n with
  | O => []
  | S n => NewValidator (bytes_to_N (take 20 bs)) (int64_wrap (be_combine (take 20 (drop 20 bs)))) :: parseEntries n (drop 40 bs)
  end.

Definition ParseValidators (bs : list Byte.byte) : option (list Validator) :=
  if negb (len bs mod 40 =? 0) then None else Some (parseEntries (Z.to_nat (len bs / 40)) bs).

(** ** Clipped arithmetic *)
Definition safeAdd (a b : Z) : Z * bool :=
  if (0 <? b) && (int64_wrap (MaxInt64 - b) <? a) then (-1, true)
  else if (b <? 0) && (a <? int64_wrap (MinInt64 - b)) then (-1, true)
  else (int64_wrap (a + b), false).

Definition safeSub (a b : Z) : Z * bool :=
  if (0 <? b) && (a <? int64_wrap (MinInt64 + b)) then (-1, true)
  else if (b <? 0) && (int64_wrap (MaxInt64 + b) <? a) then (-1, true)
  else (int64_wrap (a - b), false).

Definition safeAddClip (a b : Z) : Z :=
  let '(c, overflow) := safeAdd a b in
  if overflow then (if b <? 0 then MinInt64 else MaxInt64) else c.

Definition safeSubClip (a b : Z) : Z :=
  let '(c, overflow) := safeSub a b in
  if overflow then (if 0 <? b then MinInt64 else MaxInt64) else c.

(** ** The set *)
Record ValidatorSet := mk_ValidatorSet {
  Validators : list Validator;
  Proposer : option address;
  totalVotingPower : Z;
  validatorsMap : gmap address nat
}.

Inductive ValsetError :=
| duplicateEntry | negativePower | powerTooHigh | notFound | totalTooHigh | powerZero | emptySet
| TotalVotingPowerExceeded (sum : Z).

Abbreviation V := (M ValidatorSet) (only parsing).

(** A function that only reads the set. *)
Definition reading {A} (f : ValidatorSet -> outcome A) : V A := fun s => a ← f s; Ok (a, s).

Definition set_Validators (vs : list Validator) : V unit := modify (fun s => mk_ValidatorSet vs (Proposer s) (totalVotingPower s) (validatorsMap s)).

Definition set_Proposer (p : option address) : V unit := modify (fun s => mk_ValidatorSet (Validators s) p (totalVotingPower s) (validatorsMap s)).

Definition set_total (t : Z) : V unit := modify (fun s => mk_ValidatorSet (Validators s) (Proposer s) t (validatorsMap s)).

Definition IsNilOrEmpty (s : ValidatorSet) : bool := match Validators s with [] => true | _ => false end.

Definition validatorIndex (vs : list Validator) : gmap address nat :=
  foldl (fun m iv => <[Address iv.2 := iv.1]> m) ∅ (zip (seq 0 (length vs)) vs).

Definition UpdateValidatorMap : V unit := modify (fun s =>
  mk_ValidatorSet (Validators s) (Proposer s) (totalVotingPower s) (validatorIndex (Validators s))).

Definition Copy (s : ValidatorSet) : ValidatorSet :=
  mk_ValidatorSet (Validators s) (Proposer s) (totalVotingPower s) (validatorIndex (Validators s)).

Definition HasAddress (a : address) (s : ValidatorSet) : bool := match validatorsMap s !! a with Some _ => true | None => false end.

(** The index is -1 where there is no validator; [vals.Validators[idx]] panics
    where the map is out of date. *)
Definition GetByAddress (a : address) (s : ValidatorSet) : outcome (Z * option Validator) :=
  match validatorsMap s !! a with
  | Some idx => v ← or_panic (Validators s !! idx); Ok (Z.of_nat idx, Some v)
  | None => Ok (-1, None)
  end.

Definition GetByIndex (index : Z) (s : ValidatorSet) : option (address * Validator) :=
  if (index <? 0) || (len (Validators s) <=? index) then None
  else match lookupZ (Validators s) index with Some v => Some (Address v, v) | None => None end.

Definition Size (s : ValidatorSet) : Z := len (Validators s).

(** [sum = safeAddClip(sum, val.VotingPower)], up to the limit. *)
Fixpoint sumPowers (vs : list Validator) (sum : Z) : ValsetError + Z :=
  match vs with
  | [] => inr sum
  | v :: vs =>
      let sum := safeAddClip sum (VotingPower v) in
      if MaxTotalVotingPower <? sum then inl (TotalVotingPowerExceeded sum) else sumPowers vs sum
  end.

Definition UpdateTotalVotingPower : V (option ValsetError) :=
  vs ← gets Validators;
  match sumPowers vs 0 with
  | inl err => mret (Some err)
  | inr sum => _ ← set_total sum; mret None
  end.

Definition TotalVotingPower : V Z :=
  t ← gets totalVotingPower;
  _ ← (if t =? 0 then err ← UpdateTotalVotingPower; match err with Some _ => panic | None => mret tt end else mret tt);
  gets totalVotingPower.

(** ** Priorities *)
Fixpoint maxMin (vs : list Validator) (max min : Z) : Z * Z :=
  match vs with
  | [] => (max, min)
  | v :: vs =>
      let p := ProposerPriority v in
      maxMin vs (if max <? p then p else max) (if p <? min then p else min)
  end.

Definition computeMaxMinPriorityDiff (s : ValidatorSet) : outcome Z :=
  if IsNilOrEmpty s then Panic
  else
    let '(max, min) := maxMin (Validators s) MinInt64 MaxInt64 in
    let diff := int64_wrap (max - min) in
    Ok (if diff <? 0 then int64_wrap (-1 * diff) else diff).

(** Division truncates. *)
Definition RescalePriorities (diffMax : Z) : V unit := fun s =>
  if IsNilOrEmpty s then Panic
  else if diffMax <=? 0 then Ok (tt, s)
  else
    diff ← computeMaxMinPriorityDiff s;
    let ratio := int64_wrap (Z.quot (int64_wrap (int64_wrap (diff + diffMax) - 1)) diffMax) in
    if diffMax <? diff then
      if ratio =? 0 then Panic
      else set_Validators (map (fun v => set_priority (int64_wrap (Z.quot (ProposerPriority v) ratio)) v) (Validators s)) s
    else Ok (tt, s).

(** [big.Int.Div] is Euclidean. *)
Definition computeAvgProposerPriority (s : ValidatorSet) : outcome Z :=
  let n := len (Validators s) in
  let avg := foldr (fun v sum => ProposerPriority v + sum) 0 (Validators s) / n in
  if n =? 0 then Panic
  else if (MinInt64 <=? avg) && (avg <=? MaxInt64) then Ok avg else Panic.

Definition shiftByAvgProposerPriority : V unit := fun s =>
  if IsNilOrEmpty s then Panic
  else
    avg ← computeAvgProposerPriority s;
    set_Validators (map (fun v => set_priority (safeSubClip (ProposerPriority v) avg) v) (Validators s)) s.

(** [res = res.Cmp(val)] over the validators. *)
Fixpoint mostPriority (vs : list Validator) (res : option Validator) : outcome (option Validator) :=
  match vs with
  | [] => Ok res
  | v :: vs => res ← Cmp res (Some v); mostPriority vs res
  end.

Definition getValWithMostPriority (s : ValidatorSet) : outcome (option Validator) := mostPriority (Validators s) None.

(** The validator with the most priority is changed in place; addresses are
    unique, so it is the one with its address. *)
Definition updateAt (a : address) (f : Validator -> Validator) (vs : list Validator) : list Validator :=
  map (fun v => if N.eqb (Address v) a then f v else v) vs.

Definition incrementProposerPriority : V Validator :=
  vs ← gets Validators;
  _ ← set_Validators (map (fun v => set_priority (safeAddClip (ProposerPriority v) (VotingPower v)) v) vs);
  most ← reading getValWithMostPriority;
  mostest ← deref most;
  total ← TotalVotingPower;
  let mostest' := set_priority (safeSubClip (ProposerPriority mostest) total) mostest in
  _ ← modify (fun s => mk_ValidatorSet (updateAt (Address mostest) (fun _ => mostest') (Validators s)) (Proposer s) (totalVotingPower s) (validatorsMap s));
  mret mostest'.

(** [for i := 0; i < times; i++]. *)
Fixpoint incrementTimes (times : nat) (proposer : option Validator) : V (option Validator) :=
  match times with
  | O => mret proposer
  | S times => p ← incrementProposerPriority; incrementTimes times (Some p)
  end.

Definition IncrementProposerPriority (times : Z) : V unit :=
  empty ← gets IsNilOrEmpty;
  if empty : bool then panic
  else if times <=? 0 then panic
  else
    total ← TotalVotingPower;
    let diffMax := int64_wrap (PriorityWindowSizeFactor * total) in
    _ ← RescalePriorities diffMax;
    _ ← shiftByAvgProposerPriority;
    proposer ← incrementTimes (Z.to_nat times) None;
    set_Proposer (match proposer with Some p => Some (Address p) | None => None end).

Definition CopyIncrementProposerPriority (times : Z) (s : ValidatorSet) : outcome ValidatorSet :=
  r ← IncrementProposerPriority times (Copy s); Ok r.2.

(** findProposer. *)
Fixpoint findProposer (vs : list Validator) (proposer : option Validator) : outcome (option Validator) :=
  match vs with
  | [] => Ok proposer
  | v :: vs =>
      p ← (match proposer with
           | Some p => if N.eqb (Address v) (Address p) then Ok proposer else Cmp proposer (Some v)
           | None => Cmp proposer (Some v)
           end);
      findProposer vs p
  end.

(** The address of the proposer. *)
Definition GetProposer : V (option address) :=
  vs ← gets Validators;
  match vs with
  | [] => mret None
  | _ =>
      p ← gets Proposer;
      _ ← (match p with
           | None => r ← reading (fun s => findProposer (Validators s) None); set_Proposer (match r with Some v => Some (Address v) | None => None end)
           | Some _ => mret tt
           end);
      gets Proposer
  end.

(** ** Updates *)
Definition byAddress (v w : Validator) : Prop := (Address v <= Address w)%N.

#[export] Instance byAddress_dec : RelDecision byAddress.
Proof. intros v w. unfold byAddress. apply _. Defined.

(** The scan of processChanges: an entry with the address of the one before
    it, the first one against the zero address, is a duplicate. *)
Fixpoint scanChanges (changes : list Validator) (prevAddr : address) (updates removals : list Validator) :
    ValsetError + (list Validator * list Validator) :=
  match changes with
  | [] => inr (updates, removals)
  | v :: changes =>
      if N.eqb (Address v) prevAddr then inl duplicateEntry
      else if VotingPower v <? 0 then inl negativePower
      else if MaxTotalVotingPower <? VotingPower v then inl powerTooHigh
      else if VotingPower v =? 0 then scanChanges changes (Address v) updates (removals ++ [v])
      else scanChanges changes (Address v) (updates ++ [v]) removals
  end.

Definition processChanges (origChanges : list Validator) : ValsetError + (list Validator * list Validator) :=
  scanChanges (merge_sort byAddress origChanges) 0%N [] [].

(** verifyUpdates, from the total so far and the number of new validators. *)
Fixpoint checkUpdates (updates : list Validator) (s : ValidatorSet) (total : Z) (numNew : Z) : outcome (ValsetError + Z * Z) :=
  match updates with
  | [] => Ok (inr (total, numNew))
  | v :: updates =>
      '(_, val) ← GetByAddress (Address v) s;
      let '(total, numNew) := match val with
                              | None => (int64_wrap (total + VotingPower v), numNew + 1)
                              | Some val => (int64_wrap (total + int64_wrap (VotingPower v - VotingPower val)), numNew)
                              end in
      if MaxTotalVotingPower <? total then Ok (inl totalTooHigh) else checkUpdates updates s total numNew
  end.

Definition verifyUpdates (updates : list Validator) : V (ValsetError + Z * Z) :=
  total ← TotalVotingPower;
  reading (fun s => checkUpdates updates s total 0).

Fixpoint computeNewPriorities (updates : list Validator) (s : ValidatorSet) (updatedTotal : Z) : outcome (list Validator) :=
  match updates with
  | [] => Ok []
  | v :: updates =>
      '(_, val) ← GetByAddress (Address v) s;
      rest ← computeNewPriorities updates s updatedTotal;
      Ok (set_priority (match val with
                        | None => int64_wrap (- int64_wrap (updatedTotal + Z.shiftr updatedTotal 3))
                        | Some val => ProposerPriority val
                        end) v :: rest)
  end.

(** The merge of applyUpdates; [fuel] is the number of its turns. *)
Fixpoint mergeUpdates (fuel : nat) (existing updates : list Validator) : list Validator :=
  match fuel, existing, updates with
  | S fuel, e :: existing', u :: updates' =>
      if N.ltb (Address e) (Address u) then e :: mergeUpdates fuel existing' updates
      else if N.eqb (Address e) (Address u) then u :: mergeUpdates fuel existing' updates'
      else u :: mergeUpdates fuel existing updates'
  | _, _, _ => existing ++ updates
  end.

Definition applyUpdates (updates : list Validator) : V unit := fun s =>
  set_Validators (mergeUpdates (length (Validators s) + length updates) (Validators s) updates) s.

Fixpoint findAll (deletes : list Validator) (s : ValidatorSet) : outcome (option ValsetError) :=
  match deletes with
  | [] => Ok None
  | d :: deletes =>
      '(_, val) ← GetByAddress (Address d) s;
      match val with None => Ok (Some notFound) | Some _ => findAll deletes s end
  end.

Definition verifyRemovals (deletes : list Validator) (s : ValidatorSet) : outcome (option ValsetError) :=
  err ← findAll deletes s;
  match err with
  | Some err => Ok (Some err)
  | None => if len (Validators s) <? len deletes then Panic else Ok None
  end.

(** The loop of applyRemovals; [existing[0]] panics when deletes are left and
    [merged] has room for the others only. *)
Fixpoint removeAll (existing deletes : list Validator) : outcome (list Validator) :=
  match deletes with
  | [] => Ok existing
  | d :: deletes' =>
      match existing with
      | [] => Panic
      | e :: existing => 
          if N.eqb (Address e) (Address d) then removeAll existing deletes'
          else rest ← removeAll existing deletes; Ok (e :: rest)
      end
  end.

Definition applyRemovals (deletes : list Validator) : V unit := fun s =>
  vs ← removeAll (Validators s) deletes; set_Validators vs s.

Definition updateValidators (updates deletes : list Validator) : V unit :=
  _ ← applyUpdates updates;
  _ ← applyRemovals deletes;
  UpdateValidatorMap.

Definition updateWithChangeSet (changes : list Validator) (allowDeletes : bool) : V (option ValsetError) :=
  match changes with
  | [] => mret None
  | _ =>
      match processChanges changes with
      | inl err => mret (Some err)
      | inr (updates, deletes) =>
          if negb allowDeletes && negb (len deletes =? 0) then mret (Some powerZero)
          else
            err ← reading (verifyRemovals deletes);
            match err with
            | Some err => mret (Some err)
            | None =>
                r ← verifyUpdates updates;
                match r with
                | inl err => mret (Some err)
                | inr (updatedTotal, numNew) =>
                    vs ← gets Validators;
                    if (numNew =? 0) && (len vs =? len deletes) then mret (Some emptySet)
                    else
                      updates ← reading (fun s => computeNewPriorities updates s updatedTotal);
                      _ ← updateValidators updates deletes;
                      err ← UpdateTotalVotingPower;
                      match err with
                      | Some err => mret (Some err)
                      | None =>
                          total ← TotalVotingPower;
                          _ ← RescalePriorities (int64_wrap (PriorityWindowSizeFactor * total));
                          _ ← shiftByAvgProposerPriority;
                          mret None
                      end
                end
            end
      end
  end.

Definition UpdateWithChangeSet (changes : list Validator) : V (option ValsetError) := updateWithChangeSet changes true.

(** [None] stands for the panic on an error. *)
Definition NewValidatorSet (valz : list Validator) : outcome ValidatorSet :=
  '(err, s) ← updateWithChangeSet valz false (mk_ValidatorSet [] None 0 ∅);
  match err with
  | Some _ => Panic
  | None => if 0 <? len valz then r ← IncrementProposerPriority 1 s; Ok r.2 else Ok s
  end.
