(* ===== verification/BorSpec.v ===== *)
(** Proposer selection ([BorValset]) computes with exact integers: the
    priorities stay in a window around zero that grows with the harmonic sum of
    the number of validators, so that the clipped operations never clip; and
    every validator is chosen in proportion to its power. *)
From stdpp Require Import sorting.
From S2P Require Import Prelude Uint256 StateTypes Accounts Transaction BorValset.
#[local] Open Scope Z_scope.

(** * Arithmetic *)
Definition is_i64 (z : Z) : Prop := MinInt64 <= z <= MaxInt64.

Lemma int64_wrap_id z : is_i64 z -> int64_wrap z = z.
Proof.
  unfold is_i64, MinInt64, MaxInt64, int64_wrap, int64_of_u64, u64. intros Hz. destruct (Z.lt_ge_cases z 0).
  - rewrite <- (Z.mod_unique z (2 ^ 64) (-1) (z + 2 ^ 64)) by lia. destruct (Z.ltb_spec (z + 2 ^ 64) (2 ^ 63)); lia.
  - rewrite Z.mod_small by lia. destruct (Z.ltb_spec z (2 ^ 63)); lia.
Qed.

Lemma safeAddClip_exact a b : is_i64 a -> is_i64 b -> is_i64 (a + b) -> safeAddClip a b = a + b.
Proof.
  intros Ha Hb Hab. unfold safeAddClip, safeAdd, is_i64 in *.
  destruct (Z.ltb_spec 0 b); cbn [andb].
  - rewrite int64_wrap_id by (unfold is_i64; lia). destruct (Z.ltb_spec (MaxInt64 - b) a); [lia|].
    destruct (Z.ltb_spec b 0); [lia|]. cbn [andb]. by apply int64_wrap_id.
  - destruct (Z.ltb_spec b 0); cbn [andb]; [|by apply int64_wrap_id].
    rewrite int64_wrap_id by (unfold is_i64, MinInt64, MaxInt64 in *; lia). destruct (Z.ltb_spec a (MinInt64 - b)); [lia|]. by apply int64_wrap_id.
Qed.

Lemma safeSubClip_exact a b : is_i64 a -> is_i64 b -> is_i64 (a - b) -> safeSubClip a b = a - b.
Proof.
  intros Ha Hb Hab. unfold safeSubClip, safeSub, is_i64 in *.
  destruct (Z.ltb_spec 0 b); cbn [andb].
  - rewrite int64_wrap_id by (unfold is_i64, MinInt64, MaxInt64 in *; lia). destruct (Z.ltb_spec a (MinInt64 + b)); [lia|].
    destruct (Z.ltb_spec b 0); [lia|]. cbn [andb]. by apply int64_wrap_id.
  - destruct (Z.ltb_spec b 0); cbn [andb]; [|by apply int64_wrap_id].
    rewrite int64_wrap_id by (unfold is_i64, MinInt64, MaxInt64 in *; lia). destruct (Z.ltb_spec (MaxInt64 + b) a); [lia|]. by apply int64_wrap_id.
Qed.

(** Truncated division brings numbers closer. *)
Lemma quot_diff a b r D : 0 < r -> b <= a -> a - b <= r * D -> 0 <= Z.quot a r - Z.quot b r <= D.
Proof.
  intros Hr Hab Hd. pose proof (Z.quot_rem' a r) as Ea. pose proof (Z.quot_rem' b r) as Eb.
  pose proof (Z.quot_le_mono b a r Hr Hab) as Hm. split; [lia|].
  assert (- Z.rem a r + Z.rem b r < r).
  { destruct (Z.lt_ge_cases a 0) as [Ha|Ha].
    - pose proof (Z.rem_bound_pos_neg a r Hr ltac:(lia)). pose proof (Z.rem_bound_pos_neg b r Hr ltac:(lia)). lia.
    - pose proof (Z.rem_bound_pos_pos a r Hr Ha). destruct (Z.lt_ge_cases b 0) as [Hb|Hb].
      + pose proof (Z.rem_bound_pos_neg b r Hr ltac:(lia)). lia.
      + pose proof (Z.rem_bound_pos_pos b r Hr Hb). lia. }
  nia.
Qed.

(** * Sums over validators *)
Abbreviation prio := ProposerPriority (only parsing).
Abbreviation pw := VotingPower (only parsing).

Fixpoint sumIf (f : address -> bool) (g : Validator -> Z) (vs : list Validator) : Z :=
  match vs with [] => 0 | v :: vs => (if f (Address v) then g v else 0) + sumIf f g vs end.

Definition sumOf : (Validator -> Z) -> list Validator -> Z := sumIf (fun _ => true).

Definition count (f : address -> bool) : list Validator -> Z := sumIf f (fun _ => 1).

Lemma sumIf_add f g h vs : sumIf f (fun v => g v + h v) vs = sumIf f g vs + sumIf f h vs.
Proof. induction vs as [|v vs IH]; [done|]. cbn [sumIf]. rewrite IH. case_match; lia. Qed.

Lemma sumIf_map f g (m : Validator -> Validator) vs : (forall v, Address (m v) = Address v) -> sumIf f g (map m vs) = sumIf f (fun v => g (m v)) vs.
Proof. intros Hm. induction vs as [|v vs IH]; [done|]. cbn [sumIf map]. by rewrite Hm, IH. Qed.

Lemma sumIf_ext f g h vs : (forall v, In v vs -> g v = h v) -> sumIf f g vs = sumIf f h vs.
Proof.
  induction vs as [|v vs IH]; intros Hg; [done|]. cbn [sumIf]. rewrite (Hg v), IH by (intros; auto using in_eq, in_cons). done.
Qed.

Lemma sumIf_le f g h vs : (forall v, In v vs -> g v <= h v) -> sumIf f g vs <= sumIf f h vs.
Proof.
  induction vs as [|v vs IH]; intros Hg; [done|]. cbn [sumIf]. pose proof (Hg v (in_eq _ _)). specialize (IH (fun w Hw => Hg w (in_cons _ _ _ Hw))). case_match; lia.
Qed.

Lemma sumIf_const f c vs : sumIf f (fun _ => c) vs = c * count f vs.
Proof. unfold count. induction vs as [|v vs IH]; cbn [sumIf]; [lia|]. rewrite IH. case_match; lia. Qed.

Lemma count_le f vs : 0 <= count f vs <= len vs.
Proof. unfold count. induction vs as [|v vs IH]; cbn [sumIf]; [done|]. unfold len in *. cbn [length]. case_match; lia. Qed.

(** Over fewer validators the sum of numbers that are not negative is smaller. *)
Lemma sumIf_sub f g vs : (forall v, In v vs -> 0 <= g v) -> sumIf f g vs <= sumOf g vs.
Proof.
  unfold sumOf. induction vs as [|v vs IH]; intros Hg; [done|]. cbn [sumIf]. pose proof (Hg v (in_eq _ _)). specialize (IH (fun w Hw => Hg w (in_cons _ _ _ Hw))). case_match; lia.
Qed.

Lemma sumIf_none g vs : sumIf (fun _ => false) g vs = 0.
Proof. induction vs; [done|]. cbn [sumIf]. lia. Qed.

Lemma same_address vs v m : NoDup (map Address vs) -> In v vs -> In m vs -> Address v = Address m -> v = m.
Proof.
  induction vs as [|w vs IH]; [done|]. cbn [map]. intros Hnd Hv Hin E. inversion_clear Hnd as [|? ? Hw Hl].
  destruct Hv as [->|Hv], Hin as [->|Hin]; [done| | |by apply IH].
  - destruct Hw. rewrite E. apply list_elem_of_In. by apply in_map.
  - destruct Hw. rewrite <- E. apply list_elem_of_In. by apply in_map.
Qed.

(** One validator more. *)
Definition also (a : address) (f : address -> bool) : address -> bool := fun x => f x || N.eqb x a.

Lemma sumIf_also a f g vs m : NoDup (map Address vs) -> In m vs -> Address m = a -> f a = false ->
  sumIf (also a f) g vs = sumIf f g vs + g m.
Proof.
  intros Hnd Hin Ha Hf. induction vs as [|v vs IH]; [done|]. cbn [map] in Hnd. inversion_clear Hnd as [|? ? Hv Hnd']. cbn [sumIf]. unfold also at 1.
  destruct Hin as [->|Hin].
  - rewrite Ha, Hf, N.eqb_refl. cbn [orb]. enough (sumIf (also a f) g vs = sumIf f g vs) by lia. clear -Ha Hv.
    induction vs as [|w vs IH]; [done|]. cbn [sumIf map] in *. rewrite IH by (intros H; apply Hv; by right). unfold also at 1.
    destruct (N.eqb_spec (Address w) a); [|by rewrite orb_false_r]. destruct Hv. apply elem_of_cons. left. congruence.
  - rewrite IH by done. destruct (N.eqb_spec (Address v) a) as [E|]; [|rewrite orb_false_r; lia].
    destruct Hv. rewrite E, <- Ha. apply list_elem_of_In. by apply in_map.
Qed.

(** * One turn of the selection *)
(** The sum of the numbers T/j, rounded up, for the [d] numbers j after [k]. *)
Fixpoint slack (T : Z) (d : nat) (k : Z) : Z :=
  match d with O => 0 | S d => (T + k) / (k + 1) + slack T d (k + 1) end.

(** A bound on the average priority of any [k] of [n] validators. *)
Definition window (T U : Z) (n : nat) (k : Z) : Z := U + slack T (n - Z.to_nat k) k.

Lemma window_step T U n k : 0 <= k < Z.of_nat n -> window T U n k = (T + k) / (k + 1) + window T U n (k + 1).
Proof.
  intros Hk. unfold window. replace (n - Z.to_nat k)%nat with (S (n - Z.to_nat (k + 1))) by lia. cbn [slack]. lia.
Qed.

Lemma slack_nonneg T d k : 0 <= T -> 0 <= k -> 0 <= slack T d k.
Proof.
  intros HT. revert k. induction d as [|d IH]; intros k Hk; cbn [slack]; [done|]. specialize (IH (k + 1) ltac:(lia)).
  pose proof (Z.div_pos (T + k) (k + 1) ltac:(lia) ltac:(lia)). lia.
Qed.

Record set_ok (T : Z) (vs : list Validator) : Prop := {
  ok_nodup : NoDup (map Address vs);
  ok_powers : Forall (fun v => 0 < VotingPower v) vs;
  ok_total : sumOf VotingPower vs = T;
  ok_nonempty : vs <> []
}.

(** Priorities between turns: none under [L], balanced around zero, and no
    group of validators above the window. *)
Record balanced (T L U : Z) (vs : list Validator) : Prop := {
  bal_low : Forall (fun v => L <= ProposerPriority v) vs;
  bal_sum : 0 <= sumOf ProposerPriority vs < len vs;
  bal_top : forall f, 0 < count f vs -> sumIf f ProposerPriority vs <= count f vs * window T U (length vs) (count f vs)
}.

(** The turn, on integers: everyone gains its power, and the chosen one pays
    for all. *)
Definition gain (v : Validator) : Validator := set_priority (ProposerPriority v + VotingPower v) v.

Definition pay (a : address) (T : Z) : list Validator -> list Validator :=
  updateAt a (fun v => set_priority (ProposerPriority v - T) v).

Definition turn (a : address) (T : Z) (vs : list Validator) : list Validator := pay a T (map gain vs).

(** Who has the highest priority, and the lowest address of these. *)
Definition leads (m : Validator) (vs : list Validator) : Prop :=
  In m vs /\ forall v, In v vs ->
    ProposerPriority v < ProposerPriority m \/ (ProposerPriority v = ProposerPriority m /\ (Address m <= Address v)%N).

Lemma sumIf_gain f vs : sumIf f ProposerPriority (map gain vs) = sumIf f ProposerPriority vs + sumIf f VotingPower vs.
Proof. rewrite sumIf_map by done. apply (sumIf_add f ProposerPriority VotingPower). Qed.

Lemma sumIf_pay f a T vs m : NoDup (map Address vs) -> In m vs -> Address m = a ->
  sumIf f ProposerPriority (pay a T vs) = sumIf f ProposerPriority vs - (if f a then T else 0).
Proof.
  intros Hnd Hin Ha. unfold pay, updateAt. rewrite sumIf_map by (intros v; by case_match).
  rewrite (sumIf_ext f _ (fun v => ProposerPriority v + (if N.eqb (Address v) a then - T else 0))) by (intros v _; case_match; cbn; lia).
  rewrite sumIf_add. enough (sumIf f (fun v => if N.eqb (Address v) a then - T else 0) vs = if f a then - T else 0) as -> by (case_match; lia).
  pose proof (sumIf_also a (fun _ => false) (fun _ => if f a then - T else 0) vs m Hnd Hin Ha eq_refl) as E.
  transitivity (sumIf (also a (fun _ => false)) (fun _ => if f a then - T else 0) vs).
  - clear. induction vs as [|v vs IH]; [done|]. cbn [sumIf]. rewrite IH. unfold also at 2. cbn [orb]. destruct (N.eqb_spec (Address v) a) as [->|]; repeat case_match; lia.
  - rewrite E, sumIf_none. lia.
Qed.

Lemma map_Address_turn a T vs : map Address (turn a T vs) = map Address vs.
Proof.
  unfold turn, pay, updateAt. rewrite !map_map. apply map_ext. intros v. by case_match.
Qed.

Lemma sumIf_turn_power f a T vs : sumIf f VotingPower (turn a T vs) = sumIf f VotingPower vs.
Proof.
  unfold turn, pay, updateAt. rewrite !sumIf_map; [|done|intros v; by case_match]. apply sumIf_ext. intros v _. by case_match.
Qed.

Lemma count_turn f a T vs : count f (turn a T vs) = count f vs.
Proof. unfold count, turn, pay, updateAt. rewrite !sumIf_map; [done|done|intros v; by case_match]. Qed.

Lemma length_turn a T vs : length (turn a T vs) = length vs.
Proof. unfold turn, pay, updateAt. by rewrite !length_map. Qed.

Lemma turn_set_ok a T vs : set_ok T vs -> set_ok T (turn a T vs).
Proof.
  intros [Hnd Hpw HT Hne]. split.
  - by rewrite map_Address_turn.
  - unfold turn, pay, updateAt. rewrite map_map. apply Forall_map. eapply Forall_impl; [|exact Hpw]. intros v Hv. cbn. by case_match.
  - unfold sumOf. by rewrite sumIf_turn_power.
  - destruct vs; [done|]. unfold turn, pay, updateAt. done.
Qed.

Lemma ok_T_pos T vs : set_ok T vs -> 0 < T.
Proof.
  intros [_ Hpw <- Hne]. destruct vs as [|v vs]; [done|]. inversion_clear Hpw as [|? ? Hv Hvs]. unfold sumOf. cbn [sumIf].
  enough (0 <= sumIf (fun _ => true) VotingPower vs) by lia. rewrite Forall_forall in Hvs.
  pose proof (sumIf_le (fun _ => true) (fun _ => 0) VotingPower vs ltac:(intros w Hw; specialize (Hvs w Hw); cbn in *; lia)) as Hle.
  rewrite sumIf_const in Hle. lia.
Qed.

Lemma sumIf_lead f m vs : leads m vs -> sumIf f ProposerPriority vs <= ProposerPriority m * count f vs.
Proof. intros [_ Hm]. rewrite <- sumIf_const. apply sumIf_le. intros v Hv. destruct (Hm v Hv); lia. Qed.

Lemma count_all vs : count (fun _ => true) vs = len vs.
Proof. unfold count. induction vs as [|v vs IH]; cbn [sumIf]; [done|]. rewrite IH. unfold len. cbn [length]. lia. Qed.

Lemma sumIf_power_le f T vs : set_ok T vs -> sumIf f VotingPower vs <= T.
Proof.
  intros [_ Hpw <- _]. apply sumIf_sub. rewrite Forall_forall in Hpw. intros v Hv. specialize (Hpw v Hv). cbn in *. lia.
Qed.

Lemma map_Address_gain vs : map Address (map gain vs) = map Address vs.
Proof. by rewrite map_map. Qed.

(** Who leads after the gains has a priority above zero. *)
Lemma lead_pos T L U vs m : set_ok T vs -> balanced T L U vs -> leads m (map gain vs) -> 1 <= ProposerPriority m.
Proof.
  intros Hok [_ Hsum _] Hm. pose proof (ok_T_pos _ _ Hok) as HT. pose proof (sumIf_lead (fun _ => true) _ _ Hm) as Hle.
  rewrite sumIf_gain in Hle. fold (sumOf VotingPower vs) (sumOf ProposerPriority vs) in Hle. rewrite (ok_total _ _ Hok), count_all in Hle.
  assert (0 <= len (map gain vs)) by apply Nat2Z.is_nonneg. nia.
Qed.

#[local] Lemma share_bound k p v pm vm T h c : 0 < k -> p + v <= (pm + vm) * k -> v + vm <= T -> p + pm <= (k + 1) * h -> T <= (k + 1) * c ->
  p + v <= k * (c + h).
Proof.
  intros Hk Hlead HV Htop Hceil. apply (Zmult_le_reg_r _ _ (k + 1)); [lia|].
  pose proof (Z.mul_le_mono_nonneg_l (p + pm + (v + vm)) ((k + 1) * h + T) k ltac:(lia) ltac:(lia)).
  pose proof (Z.mul_le_mono_nonneg_l _ _ k ltac:(lia) Hceil). lia.
Qed.

Section step.
Context (T L U : Z) (vs : list Validator) (m : Validator) (Hok : set_ok T vs) (Hbal : balanced T L U vs) (Hm : leads m (map gain vs)).

#[local] Lemma turn_sums f : sumIf f ProposerPriority (turn (Address m) T vs) =
  sumIf f ProposerPriority vs + sumIf f VotingPower vs - (if f (Address m) then T else 0).
Proof.
  unfold turn. rewrite (sumIf_pay _ _ _ _ m); [|rewrite map_Address_gain; apply Hok|apply Hm|done]. by rewrite sumIf_gain.
Qed.

#[local] Lemma turn_low : L <= 1 - T -> Forall (fun v => L <= ProposerPriority v) (turn (Address m) T vs).
Proof.
  intros HL. unfold turn, pay, updateAt. apply Forall_map. pose proof (lead_pos _ _ _ _ _ Hok Hbal Hm) as Hpos.
  apply Forall_forall. intros v Hv. cbn. destruct (N.eqb_spec (Address v) (Address m)) as [E|]; cbn.
  - rewrite (same_address (map gain vs) v m); [lia|rewrite map_Address_gain; apply Hok|done|apply Hm|done].
  - apply in_map_iff in Hv as (w & <- & Hw). cbn. pose proof (ok_powers _ _ Hok) as Hpw. pose proof (bal_low _ _ _ _ Hbal) as Hlow.
    rewrite Forall_forall in Hpw, Hlow. specialize (Hpw w Hw). specialize (Hlow w Hw). cbn in *. lia.
Qed.

#[local] Lemma turn_top f : 0 < count f vs ->
  sumIf f ProposerPriority (turn (Address m) T vs) <= count f vs * window T U (length vs) (count f vs).
Proof.
  intros Hk. rewrite turn_sums. pose proof (bal_top _ _ _ _ Hbal) as Htop. destruct (f (Address m)) eqn:Hf.
  - specialize (Htop f Hk). pose proof (sumIf_power_le f _ _ Hok). lia.
  - pose proof Hm as [Hin _]. apply in_map_iff in Hin as (w & Ew & Hw).
    assert (Address w = Address m) as Ea by (by rewrite <- Ew).
    set (g := also (Address m) f). assert (count g vs = count f vs + 1) as Hc by exact (sumIf_also (Address m) f (fun _ => 1) vs w (ok_nodup _ _ Hok) Hw Ea Hf).
    pose proof (sumIf_also (Address m) f ProposerPriority vs w (ok_nodup _ _ Hok) Hw Ea Hf) as Hp. fold g in Hp.
    pose proof (sumIf_also (Address m) f VotingPower vs w (ok_nodup _ _ Hok) Hw Ea Hf) as Hv. fold g in Hv.
    pose proof (sumIf_power_le g _ _ Hok) as HV. specialize (Htop g ltac:(lia)). rewrite Hc in Htop.
    pose proof (count_le g vs) as Hn. rewrite Hc in Hn. unfold len in Hn. rewrite window_step by lia.
    pose proof (sumIf_lead f _ _ Hm) as Hlead. rewrite sumIf_gain in Hlead. rewrite <- Ew in Hlead. cbn in Hlead.
    assert (count f (map gain vs) = count f vs) as Ec by (unfold count; by rewrite sumIf_map). rewrite Ec in Hlead.
    assert (T <= (count f vs + 1) * ((T + count f vs) / (count f vs + 1))) as Hceil.
    { pose proof (Z.mul_succ_div_gt (T + count f vs) (count f vs + 1) ltac:(lia)). lia. }
    rewrite Hp in Htop. rewrite Hv in HV. pose proof (share_bound _ _ _ _ _ _ _ _ Hk Hlead HV Htop Hceil). lia.
Qed.

Lemma turn_balanced : L <= 1 - T -> balanced T L U (turn (Address m) T vs).
Proof.
  intros HL. split; [by apply turn_low| |].
  - unfold sumOf, len. rewrite turn_sums, length_turn. cbn. pose proof (bal_sum _ _ _ _ Hbal). pose proof (ok_total _ _ Hok). unfold sumOf, len in *. lia.
  - intros f. rewrite count_turn, length_turn. apply turn_top.
Qed.
End step.

(** * The code takes these turns *)
Lemma mostPriority_leads_from vs r : NoDup (Address r :: map Address vs) -> exists m, mostPriority vs (Some r) = Ok (Some m) /\ leads m (r :: vs).
Proof.
  revert r. induction vs as [|v vs IH]; intros r Hnd.
  - exists r. split; [done|]. split; [by left|]. intros v [<-|[]]. lia.
  - cbn [map] in Hnd. inversion_clear Hnd as [|? ? Hr Hnd']. inversion_clear Hnd' as [|? ? Hv Hnd]. apply not_elem_of_cons in Hr as [Hrv Hr].
    assert (forall w, In w [r; v] -> exists m, mostPriority vs (Some w) = Ok (Some m) /\ leads m (w :: vs)) as Hcase.
    { intros w [<-|[<-|[]]]; apply IH; by constructor. }
    assert (forall w w', [w; w'] = [r; v] \/ [w; w'] = [v; r] -> ProposerPriority w' < ProposerPriority w \/ (ProposerPriority w' = ProposerPriority w /\ (Address w <= Address w')%N) ->
      forall m, leads m (w :: vs) -> leads m (r :: v :: vs)) as Hmore.
    { intros w w' Hw Hle m [Hin Hm]. split; [destruct Hw as [[= <- <-]|[= <- <-]]; destruct Hin as [<-|Hin]; cbn; auto|].
      pose proof (Hm w (in_eq _ _)) as Hmw. intros x Hx. assert (x = w' \/ In x (w :: vs)) as [->|Hx'] by (destruct Hw as [[= <- <-]|[= <- <-]], Hx as [<-|[<-|Hx]]; cbn; auto); [lia|auto]. }
    cbn [mostPriority Cmp]. destruct (Z.ltb_spec (ProposerPriority v) (ProposerPriority r)); [|destruct (Z.ltb_spec (ProposerPriority r) (ProposerPriority v)); [|destruct (N.eqb_spec (Address r) (Address v)); [done|destruct (N.ltb_spec (Address r) (Address v))]]].
    all: cbn [mbind outcome_bind]; match goal with |- context [mostPriority _ (Some ?w)] => destruct (Hcase w ltac:(cbn; auto)) as (m & E & Hm); exists m; split; [exact E|] end.
    all: first [apply (Hmore r v); [by left|lia|done]|apply (Hmore v r); [by right|lia|done]].
Qed.

Lemma mostPriority_leads vs : vs <> [] -> NoDup (map Address vs) -> exists m, mostPriority vs None = Ok (Some m) /\ leads m vs.
Proof. destruct vs as [|v vs]; [done|]. intros _ Hnd. by apply mostPriority_leads_from. Qed.

Definition withVals (vs : list Validator) (s : ValidatorSet) : ValidatorSet := mk_ValidatorSet vs (Proposer s) (totalVotingPower s) (validatorsMap s).

(** The same validators with other priorities. *)
Definition reprioritised : list Validator -> list Validator -> Prop := Forall2 (fun v w => exists p, w = set_priority p v).

Lemma reprioritised_map (g : Validator -> Z) vs : reprioritised vs (map (fun v => set_priority (g v) v) vs).
Proof. induction vs; constructor; eauto. Qed.

Lemma reprioritised_refl vs : reprioritised vs vs.
Proof. induction vs as [|[] vs IH]; constructor; [by eexists|done]. Qed.

Lemma reprioritised_trans vs1 vs2 vs3 : reprioritised vs1 vs2 -> reprioritised vs2 vs3 -> reprioritised vs1 vs3.
Proof.
  intros H12. revert vs3. induction H12 as [|v w vs1 vs2 [p ->] H12 IH]; intros vs3 H23; inversion_clear H23 as [|? x ? l [q ->] Hl]; constructor; [by exists q|by apply IH].
Qed.

Lemma reprioritised_keys vs vs' : reprioritised vs vs' ->
  map Address vs' = map Address vs /\ (forall f, sumIf f VotingPower vs' = sumIf f VotingPower vs) /\ length vs' = length vs /\
  (Forall (fun v => 0 < VotingPower v) vs -> Forall (fun v => 0 < VotingPower v) vs').
Proof.
  induction 1 as [|v w vs vs' [p ->] _ (IHa & IHf & IHl & IHp)]; [done|]. split_and!.
  - cbn. by rewrite IHa.
  - intros f. cbn. by rewrite IHf.
  - cbn. by rewrite IHl.
  - intros Hf. inversion_clear Hf. constructor; auto.
Qed.

Lemma reprioritised_ok T vs vs' : reprioritised vs vs' -> set_ok T vs -> set_ok T vs'.
Proof.
  intros Hr [Hnd Hpw HT Hne]. destruct (reprioritised_keys _ _ Hr) as (Ha & Hf & Hl & Hp). split.
  - by rewrite Ha.
  - auto.
  - unfold sumOf. by rewrite Hf.
  - destruct vs, vs'; done.
Qed.

Lemma turn_reprioritised a T vs : reprioritised vs (turn a T vs).
Proof.
  unfold turn, pay, updateAt. induction vs as [|v vs IH]; [constructor|]. cbn [map]. constructor; [|done]. case_match; by eexists.
Qed.

Lemma priority_le_window T L U vs v : set_ok T vs -> balanced T L U vs -> In v vs -> ProposerPriority v <= window T U (length vs) 1.
Proof.
  intros Hok [_ _ Htop] Hv. set (f := also (Address v) (fun _ => false)).
  assert (forall g, sumIf f g vs = g v) as Hf.
  { intros g. unfold f. rewrite (sumIf_also _ _ g vs v), sumIf_none; [lia|apply Hok|done..]. }
  specialize (Htop f). unfold count in Htop. rewrite !Hf in Htop. specialize (Htop ltac:(lia)). lia.
Qed.

Lemma TotalVotingPower_cached s : totalVotingPower s <> 0 -> TotalVotingPower s = Ok (totalVotingPower s, s).
Proof.
  intros Hs. unfold TotalVotingPower. erewrite M_bind_Ok by reflexivity. rewrite (proj2 (Z.eqb_neq _ _) Hs). reflexivity.
Qed.

Lemma power_le_total T vs v : set_ok T vs -> In v vs -> 0 < VotingPower v <= T.
Proof.
  intros Hok Hv. pose proof (ok_powers _ _ Hok) as Hpw. rewrite Forall_forall in Hpw. specialize (Hpw v Hv).
  pose proof (sumIf_power_le (also (Address v) (fun _ => false)) _ _ Hok) as HT. rewrite (sumIf_also _ _ VotingPower vs v), sumIf_none in HT; [|apply Hok|done..]. cbn in *. lia.
Qed.

(** Enough room that no sum or difference in a turn leaves 64 bits. *)
Definition room (T : Z) (n : nat) : Prop := 5 * T + slack T (n - 1) 1 <= MaxInt64.

(** The ranges that balance the priorities after they were rescaled and
    shifted. *)
Definition span (T L U : Z) : Prop := - 2 * T <= L <= 1 - T /\ U <= 2 * T /\ U - L <= 3 * T.

Section turns.
Context (T L U : Z) (Hspan : span T L U).

Lemma map_gain_exact vs : set_ok T vs -> balanced T L U vs -> room T (length vs) ->
  map (fun v => set_priority (safeAddClip (ProposerPriority v) (VotingPower v)) v) vs = map gain vs.
Proof.
  intros Hok Hbal Hroom. apply map_ext_in. intros v Hv. unfold gain. f_equal. pose proof (priority_le_window _ _ _ _ _ Hok Hbal Hv) as Hw.
  pose proof (bal_low _ _ _ _ Hbal) as Hlow. pose proof (power_le_total _ _ _ Hok Hv). rewrite Forall_forall in Hlow. specialize (Hlow v Hv).
  unfold window in Hw. unfold room in Hroom. change (Z.to_nat 1) with 1%nat in Hw. pose proof (slack_nonneg T (length vs - 1) 1 ltac:(cbn in *; lia) ltac:(lia)).
  destruct Hspan as ([? ?] & ? & ?). apply safeAddClip_exact; unfold is_i64, MinInt64, MaxInt64 in *; cbn in *; lia.
Qed.

Lemma incrementProposerPriority_exact s : set_ok T (Validators s) -> totalVotingPower s = T -> balanced T L U (Validators s) -> room T (length (Validators s)) ->
  exists m, leads m (map gain (Validators s)) /\
    incrementProposerPriority s = Ok (set_priority (ProposerPriority m - T) m, withVals (turn (Address m) T (Validators s)) s).
Proof.
  intros Hok HT Hbal Hroom. destruct (mostPriority_leads (map gain (Validators s))) as (m & Em & Hm).
  { destruct Hok as [_ _ _ Hne]. by destruct (Validators s). }
  { rewrite map_Address_gain. apply Hok. }
  exists m. split; [done|]. pose proof (lead_pos _ _ _ _ _ Hok Hbal Hm) as Hpos. pose proof (ok_T_pos _ _ Hok) as HTp.
  assert (ProposerPriority m <= T + window T U (length (Validators s)) 1) as Hmw.
  { destruct Hm as [Hin _]. apply in_map_iff in Hin as (v & <- & Hv). pose proof (priority_le_window _ _ _ _ _ Hok Hbal Hv).
    pose proof (power_le_total _ _ _ Hok Hv). cbn. lia. }
  unfold incrementProposerPriority. erewrite M_bind_Ok by reflexivity. erewrite M_bind_Ok by reflexivity. rewrite map_gain_exact by done.
  erewrite M_bind_Ok; [|unfold reading, getValWithMostPriority; cbn; rewrite Em; reflexivity]. erewrite M_bind_Ok by reflexivity.
  erewrite M_bind_Ok; [|apply TotalVotingPower_cached; cbn; lia]. cbn [totalVotingPower]. rewrite HT. rewrite safeSubClip_exact.
  - erewrite M_bind_Ok by reflexivity. unfold mret, M_ret, withVals, turn, pay, updateAt. cbn. rewrite HT. do 3 f_equal. apply map_ext_in. intros v Hv.
    destruct (N.eqb_spec (Address v) (Address m)) as [E|]; [|done].
    rewrite (same_address (map gain (Validators s)) v m); [done|rewrite map_Address_gain; apply Hok|done|apply Hm|done].
  - unfold window in Hmw. unfold room in Hroom. change (Z.to_nat 1) with 1%nat in Hmw. destruct Hspan as ([? ?] & ? & ?). unfold is_i64, MinInt64, MaxInt64 in *. lia.
  - unfold room in Hroom. pose proof (slack_nonneg T (length (Validators s) - 1) 1 ltac:(lia) ltac:(lia)). unfold is_i64, MinInt64, MaxInt64 in *. lia.
  - unfold window in Hmw. unfold room in Hroom. change (Z.to_nat 1) with 1%nat in Hmw. destruct Hspan as ([? ?] & ? & ?). unfold is_i64, MinInt64, MaxInt64 in *. lia.
Qed.

(** Several turns, with who was chosen in each. *)
Inductive turns : list Validator -> list address -> list Validator -> Prop :=
| turns_none vs : turns vs [] vs
| turns_more vs m ws vs' : leads m (map gain vs) -> turns (turn (Address m) T vs) ws vs' -> turns vs (Address m :: ws) vs'.

Lemma turns_invariant vs ws vs' : turns vs ws vs' -> set_ok T vs -> balanced T L U vs ->
  set_ok T vs' /\ balanced T L U vs' /\ reprioritised vs vs'.
Proof.
  induction 1 as [vs|vs m ws vs' Hm Hts IH]; intros Hok Hbal; [by auto using reprioritised_refl|].
  destruct IH as (? & ? & ?); [by apply turn_set_ok|apply turn_balanced; [done..|apply Hspan]|]. split_and!; [done..|].
  eapply reprioritised_trans; [apply turn_reprioritised|done].
Qed.

(** How often an address was chosen. *)
Fixpoint chosen (a : address) (ws : list address) : Z :=
  match ws with [] => 0 | w :: ws => (if N.eqb w a then 1 else 0) + chosen a ws end.

Lemma chosen_snoc a w ws : chosen a (ws ++ [w]) = chosen a ws + (if N.eqb w a then 1 else 0).
Proof. induction ws as [|x ws IH]; cbn; [case_match; lia|]. rewrite IH. lia. Qed.

Lemma turns_priority vs ws vs' v : turns vs ws vs' -> set_ok T vs -> In v vs ->
  exists v', In v' vs' /\ Address v' = Address v /\ ProposerPriority v' = ProposerPriority v + len ws * VotingPower v - T * chosen (Address v) ws.
Proof.
  intros Hts. revert v. induction Hts as [vs|vs m ws vs' Hm Hts IH]; intros v Hok Hv; [exists v; split_and!; [done..|unfold len; cbn [length chosen]; lia]|].
  set (v1 := if N.eqb (Address v) (Address m) then set_priority (ProposerPriority (gain v) - T) v else gain v).
  assert (Address v1 = Address v /\ VotingPower v1 = VotingPower v) as [Ea Ep] by (unfold v1; by case_match).
  destruct (IH v1) as (v' & Hv' & Ea' & Ep').
  - by apply turn_set_ok.
  - unfold turn, pay, updateAt. rewrite map_map. apply in_map_iff. exists v. split; [|done]. unfold v1. cbn. by case_match.
  - exists v'. split_and!; [done|by rewrite Ea', Ea|]. rewrite Ep', Ea, Ep. cbn [chosen]. unfold len. cbn [length]. rewrite N.eqb_sym.
    unfold v1. destruct (N.eqb_spec (Address v) (Address m)); cbn; lia.
Qed.

(** The loop of IncrementProposerPriority takes the turns; fewer of them are a
    prefix. *)
Lemma incrementTimes_turns k s : set_ok T (Validators s) -> totalVotingPower s = T -> balanced T L U (Validators s) -> room T (length (Validators s)) ->
  exists ws, length ws = k /\ forall j p, (j <= k)%nat -> exists q vs',
    incrementTimes j p s = Ok (q, withVals vs' s) /\ turns (Validators s) (take j ws) vs' /\
    option_map Address q = match j with O => option_map Address p | S i => ws !! i end.
Proof.
  revert s. induction k as [|k IH]; intros s Hok HT Hbal Hroom.
  - exists []. split; [done|]. intros j p Hj. replace j with O by lia. exists p, (Validators s). split_and!; [|constructor|done]. by destruct s.
  - destruct (incrementProposerPriority_exact s) as (m & Hm & E); [done..|].
    destruct (IH (withVals (turn (Address m) T (Validators s)) s)) as (ws & Hl & Hws); cbn.
    { by apply turn_set_ok. }
    { done. }
    { apply turn_balanced; [done..|apply Hspan]. }
    { by rewrite length_turn. }
    exists (Address m :: ws). split; [cbn; by rewrite Hl|]. intros [|j] p Hj.
    + exists p, (Validators s). split_and!; [by destruct s|constructor|done].
    + destruct (Hws j (Some (set_priority (ProposerPriority m - T) m)) ltac:(lia)) as (q & vs' & Eq & Hts & Hq). exists q, vs'. split_and!.
      * cbn [incrementTimes]. rewrite (M_bind_Ok _ _ _ _ _ E). exact Eq.
      * cbn [take]. by constructor.
      * rewrite Hq. by destruct j.
Qed.
End turns.

(** * Rescaling and shifting *)
Definition spread (D : Z) (vs : list Validator) : Prop := forall v w, In v vs -> In w vs -> ProposerPriority v - ProposerPriority w <= D.

Lemma maxMin_spec vs mx mn :
  let '(x, n) := maxMin vs mx mn in
  (mx <= x /\ (forall v, In v vs -> ProposerPriority v <= x) /\ (x = mx \/ exists v, In v vs /\ ProposerPriority v = x)) /\
  (n <= mn /\ (forall v, In v vs -> n <= ProposerPriority v) /\ (n = mn \/ exists v, In v vs /\ ProposerPriority v = n)).
Proof.
  revert mx mn. induction vs as [|v vs IH]; intros mx mn; cbn [maxMin]; [cbn; intuition lia|].
  specialize (IH (if mx <? ProposerPriority v then ProposerPriority v else mx) (if ProposerPriority v <? mn then ProposerPriority v else mn)).
  destruct (maxMin vs _ _) as [x n]. destruct IH as ((Hx & Hxs & Hxe) & (Hn & Hns & Hne)).
  split; (split; [repeat case_match; lia|split; [intros w [<-|Hw]; auto; repeat case_match; lia|]]).
  - destruct Hxe as [Hxe|(w & Hw & <-)]; [|right; exists w; cbn; auto]. destruct (mx <? ProposerPriority v); [right; exists v; cbn; auto|by left].
  - destruct Hne as [Hne|(w & Hw & <-)]; [|right; exists w; cbn; auto]. destruct (ProposerPriority v <? mn); [right; exists v; cbn; auto|by left].
Qed.

(** The difference between the highest and the lowest priority. *)
Lemma computeMaxMinPriorityDiff_spec s D : Validators s <> [] -> Forall (fun v => is_i64 (ProposerPriority v)) (Validators s) -> spread D (Validators s) -> D <= MaxInt64 ->
  exists d, computeMaxMinPriorityDiff s = Ok d /\ 0 <= d <= D /\ spread d (Validators s).
Proof.
  intros Hne Hi HD HM. unfold computeMaxMinPriorityDiff, IsNilOrEmpty. pose proof (maxMin_spec (Validators s) MinInt64 MaxInt64) as Hs.
  destruct (Validators s) as [|v0 vs0] eqn:Evs; [done|]. rewrite <- Evs in *. assert (In v0 (Validators s)) as H0 by (rewrite Evs; apply in_eq). clear Evs.
  destruct (maxMin _ _ _) as [x n]. destruct Hs as ((_ & Hxs & Hxe) & (_ & Hns & Hne')). rewrite Forall_forall in Hi.
  assert (exists v, In v (Validators s) /\ ProposerPriority v = x) as (v & Hv & <-).
  { destruct Hxe as [->|?]; [|done]. exists v0. split; [done|]. specialize (Hxs v0 H0). destruct (Hi v0 H0). lia. }
  assert (exists w, In w (Validators s) /\ ProposerPriority w = n) as (w & Hw & <-).
  { destruct Hne' as [->|?]; [|done]. exists v0. split; [done|]. specialize (Hns v0 H0). destruct (Hi v0 H0). lia. }
  pose proof (HD v w Hv Hw). pose proof (Hns v Hv). rewrite int64_wrap_id by (unfold is_i64, MinInt64 in *; lia).
  destruct (Z.ltb_spec (ProposerPriority v - ProposerPriority w) 0); [lia|]. eexists. split_and!; [done|lia|lia|].
  intros a b Ha Hb. pose proof (Hxs a Ha). pose proof (Hns b Hb). lia.
Qed.

Lemma RescalePriorities_spec s W : 0 < W -> Validators s <> [] -> Forall (fun v => is_i64 (ProposerPriority v)) (Validators s) -> spread (MaxInt64 - W) (Validators s) ->
  exists vs', RescalePriorities W s = Ok (tt, withVals vs' s) /\ reprioritised (Validators s) vs' /\
    Forall (fun v => is_i64 (ProposerPriority v)) vs' /\ spread W vs'.
Proof.
  intros HW Hne Hi HD. destruct (computeMaxMinPriorityDiff_spec s _ Hne Hi HD ltac:(lia)) as (d & Ed & Hd & Hsp).
  unfold RescalePriorities. assert (IsNilOrEmpty s = false) as -> by (unfold IsNilOrEmpty; by destruct (Validators s)).
  destruct (Z.leb_spec W 0); [lia|]. rewrite Ed. cbn [mbind outcome_bind]. rewrite (int64_wrap_id (d + W)), (int64_wrap_id (d + W - 1)) by (unfold is_i64, MinInt64, MaxInt64 in *; lia).
  destruct (Z.ltb_spec W d) as [Hlt|Hge].
  2:{ exists (Validators s). split_and!; [by destruct s|apply reprioritised_refl|done|]. intros v w Hv Hw. specialize (Hsp v w Hv Hw). lia. }
  rewrite Z.quot_div_nonneg by lia. set (r := (d + W - 1) / W). pose proof (Z.mul_div_le (d + W - 1) W HW) as Hr1. pose proof (Z.mul_succ_div_gt (d + W - 1) W HW) as Hr2. fold r in Hr1, Hr2.
  assert (1 < r) by nia. assert (r <= d + W - 1) by nia. rewrite (int64_wrap_id r) by (unfold is_i64, MinInt64, MaxInt64 in *; lia). destruct (Z.eqb_spec r 0); [lia|].
  assert (forall p, is_i64 p -> is_i64 (Z.quot p r)) as Hq.
  { intros p Hp. unfold is_i64, MinInt64, MaxInt64 in *. pose proof (Z.quot_rem' p r). destruct (Z.le_ge_cases 0 p).
    - rewrite Z.quot_div_nonneg by lia. pose proof (Z.div_le_upper_bound p r p ltac:(lia) ltac:(nia)). pose proof (Z.div_pos p r). lia.
    - rewrite <- (Z.opp_involutive p), Z.quot_opp_l, Z.quot_div_nonneg by lia. pose proof (Z.div_le_upper_bound (- p) r (- p) ltac:(lia) ltac:(nia)). pose proof (Z.div_pos (- p) r). lia. }
  rewrite Forall_forall in Hi. eexists. split_and!; [reflexivity|apply (reprioritised_map (fun v => int64_wrap (Z.quot (ProposerPriority v) r)))| |].
  - apply Forall_map, Forall_forall. intros v Hv. cbn. rewrite int64_wrap_id; auto.
  - intros v' w' Hv Hw. apply in_map_iff in Hv as (v & <- & Hv), Hw as (w & <- & Hw). cbn. rewrite !int64_wrap_id by auto.
    destruct (Z.le_ge_cases (ProposerPriority w) (ProposerPriority v)) as [Hle|Hle].
    + pose proof (quot_diff _ _ r W ltac:(lia) Hle ltac:(pose proof (Hsp v w Hv Hw); nia)). lia.
    + pose proof (Z.quot_le_mono (ProposerPriority v) (ProposerPriority w) r ltac:(lia) ltac:(lia)). lia.
Qed.

(** The average lies between the lowest and the highest. *)
Lemma average_between vs lo hi : vs <> [] -> (forall v, In v vs -> lo <= ProposerPriority v <= hi) -> lo <= sumOf ProposerPriority vs / len vs <= hi.
Proof.
  intros Hne Hv. assert (0 < len vs) by (unfold len; destruct vs; [done|cbn; lia]).
  pose proof (sumIf_le (fun _ => true) (fun _ => lo) ProposerPriority vs ltac:(intros; cbn; apply Hv; done)) as Hlo.
  pose proof (sumIf_le (fun _ => true) ProposerPriority (fun _ => hi) vs ltac:(intros; cbn; apply Hv; done)) as Hhi.
  rewrite sumIf_const, count_all in Hlo, Hhi. fold (sumOf ProposerPriority vs) in Hlo, Hhi. split.
  - apply Z.div_le_lower_bound; lia.
  - apply Z.div_le_upper_bound; lia.
Qed.

Lemma sumOf_foldr vs : foldr (fun v sum => ProposerPriority v + sum) 0 vs = sumOf ProposerPriority vs.
Proof. unfold sumOf. induction vs as [|v vs IH]; [done|]. cbn. by rewrite IH. Qed.

(** The lowest priority. *)
Lemma lowest vs : vs <> [] -> exists v, In v vs /\ forall w, In w vs -> ProposerPriority v <= ProposerPriority w.
Proof.
  induction vs as [|v vs IH]; [done|]. intros _. destruct vs as [|u vs]; [exists v; split; [by left|intros w [<-|[]]; lia]|].
  destruct IH as (m & Hm & Hmin); [done|]. destruct (Z.le_ge_cases (ProposerPriority v) (ProposerPriority m)).
  - exists v. split; [by left|]. intros w [<-|Hw]; [lia|]. specialize (Hmin w Hw). lia.
  - exists m. split; [by right|]. intros w [<-|Hw]; [lia|]. by apply Hmin.
Qed.

Lemma shift_exact s : Validators s <> [] -> Forall (fun v => is_i64 (ProposerPriority v)) (Validators s) -> spread MaxInt64 (Validators s) ->
  let avg := sumOf ProposerPriority (Validators s) / len (Validators s) in
  shiftByAvgProposerPriority s = Ok (tt, withVals (map (fun v => set_priority (ProposerPriority v - avg) v) (Validators s)) s).
Proof.
  intros Hne Hi Hsp avg. rewrite Forall_forall in Hi. pose proof (average_between _ MinInt64 MaxInt64 Hne Hi) as Havg. fold avg in Havg.
  unfold shiftByAvgProposerPriority, computeAvgProposerPriority. assert (IsNilOrEmpty s = false) as -> by (unfold IsNilOrEmpty; by destruct (Validators s)).
  rewrite sumOf_foldr. fold avg. destruct (Z.eqb_spec (len (Validators s)) 0) as [E|_]; [unfold len in E; by destruct (Validators s)|].
  destruct (Z.leb_spec MinInt64 avg); [|lia]. destruct (Z.leb_spec avg MaxInt64); [|lia]. cbn [andb mbind outcome_bind].
  unfold set_Validators, modify, withVals. do 3 f_equal. apply map_ext_in. intros v Hv. f_equal. apply safeSubClip_exact; [by apply Hi|done|].
  pose proof (average_between _ (ProposerPriority v - MaxInt64) (ProposerPriority v + MaxInt64) Hne) as Hb. fold avg in Hb.
  destruct Hb as [? ?]; [intros w Hw; pose proof (Hsp v w Hv Hw); pose proof (Hsp w v Hw Hv); lia|]. unfold is_i64, MinInt64, MaxInt64 in *. lia.
Qed.

Lemma shift_balanced T vs : set_ok T vs -> spread (2 * T) vs ->
  let vs' := map (fun v => set_priority (ProposerPriority v - sumOf ProposerPriority vs / len vs) v) vs in
  exists L U, span T L U /\ balanced T L U vs'.
Proof.
  intros Hok Hsp vs'. set (avg := sumOf ProposerPriority vs / len vs) in vs'. pose proof (ok_nonempty _ _ Hok) as Hne. pose proof (ok_T_pos _ _ Hok) as HT.
  assert (0 < len vs) as Hn by (unfold len; destruct vs; [done|cbn; lia]).
  assert (sumOf ProposerPriority vs' = sumOf ProposerPriority vs - avg * len vs) as Hsum.
  { unfold vs', sumOf. rewrite sumIf_map by done. rewrite (sumIf_ext _ _ (fun v => ProposerPriority v + - avg)) by done.
    rewrite (sumIf_add _ _ (fun _ => - avg)), sumIf_const, count_all. lia. }
  pose proof (Z.mod_pos_bound (sumOf ProposerPriority vs) (len vs) Hn) as Hmod. rewrite Z.mod_eq in Hmod by lia. fold avg in Hmod.
  destruct (lowest vs Hne) as (m & Hm & Hmin). set (a := avg - ProposerPriority m).
  assert (0 <= a <= 2 * T) as Ha.
  { unfold a, avg. pose proof (average_between vs (ProposerPriority m) (ProposerPriority m + 2 * T) Hne ltac:(intros v Hv; specialize (Hmin v Hv); specialize (Hsp v m Hv Hm); lia)). lia. }
  assert (forall v, In v vs' -> - a <= ProposerPriority v <= 2 * T - a) as Hrange.
  { intros v' Hv. apply in_map_iff in Hv as (v & <- & Hv). cbn. fold avg. specialize (Hmin v Hv). specialize (Hsp v m Hv Hm). unfold a. lia. }
  exists (Z.min (- a) (1 - T)), (2 * T - a). split; [unfold span; lia|]. split.
  - apply Forall_forall. intros v Hv. specialize (Hrange v Hv). lia.
  - rewrite Hsum. assert (len vs' = len vs) as -> by (unfold len, vs'; by rewrite length_map). lia.
  - intros f Hf. transitivity (sumIf f (fun _ => 2 * T - a) vs'); [apply sumIf_le; intros v Hv; specialize (Hrange v Hv); lia|]. rewrite sumIf_const.
    unfold window. pose proof (slack_nonneg T (length vs' - Z.to_nat (count f vs')) (count f vs') ltac:(lia) ltac:(lia)). nia.
Qed.

(** * The set between calls *)
Record selectable (T : Z) (s : ValidatorSet) : Prop := {
  sel_ok : set_ok T (Validators s);
  sel_limit : T <= MaxTotalVotingPower;
  sel_cached : totalVotingPower s = 0 \/ totalVotingPower s = T;
  sel_room : room T (length (Validators s));
  sel_i64 : Forall (fun v => is_i64 (ProposerPriority v)) (Validators s);
  sel_spread : spread (MaxInt64 - 2 * T) (Validators s)
}.

Lemma sumPowers_spec vs acc : 0 <= acc -> Forall (fun v => 0 < VotingPower v) vs -> acc + sumOf VotingPower vs <= MaxTotalVotingPower ->
  sumPowers vs acc = inr (acc + sumOf VotingPower vs).
Proof.
  assert (MaxTotalVotingPower <= MaxInt64) as HM by done. unfold sumOf. revert acc. induction vs as [|v vs IH]; intros acc Hacc Hpw Hmax; cbn [sumIf sumPowers] in *; [f_equal; lia|].
  inversion_clear Hpw as [|? ? Hv Hvs]. pose proof (sumIf_le (fun _ => true) (fun _ => 0) VotingPower vs) as Hle. rewrite sumIf_const in Hle.
  rewrite Forall_forall in Hvs. specialize (Hle ltac:(intros w Hw; specialize (Hvs w Hw); cbn in *; lia)). rewrite <- Forall_forall in Hvs.
  rewrite safeAddClip_exact by (unfold is_i64, MinInt64 in *; lia). destruct (Z.ltb_spec MaxTotalVotingPower (acc + VotingPower v)); [lia|].
  rewrite IH by (done || lia). f_equal. lia.
Qed.

Lemma UpdateTotalVotingPower_spec s : Forall (fun v => 0 < VotingPower v) (Validators s) -> sumOf VotingPower (Validators s) <= MaxTotalVotingPower ->
  UpdateTotalVotingPower s = Ok (None, mk_ValidatorSet (Validators s) (Proposer s) (sumOf VotingPower (Validators s)) (validatorsMap s)).
Proof.
  intros Hpw Hmax. unfold UpdateTotalVotingPower. erewrite M_bind_Ok by reflexivity. rewrite sumPowers_spec by (done || lia). reflexivity.
Qed.

Lemma TotalVotingPower_sum s : Forall (fun v => 0 < VotingPower v) (Validators s) -> sumOf VotingPower (Validators s) <= MaxTotalVotingPower ->
  totalVotingPower s = 0 \/ totalVotingPower s = sumOf VotingPower (Validators s) ->
  TotalVotingPower s = Ok (sumOf VotingPower (Validators s), mk_ValidatorSet (Validators s) (Proposer s) (sumOf VotingPower (Validators s)) (validatorsMap s)).
Proof.
  intros Hpw Hmax Hc. destruct (decide (totalVotingPower s = 0)) as [H0|H0].
  - unfold TotalVotingPower. erewrite M_bind_Ok by reflexivity. rewrite H0. cbn [Z.eqb].
    erewrite M_bind_Ok; [|rewrite (M_bind_Ok _ _ _ _ _ (UpdateTotalVotingPower_spec _ Hpw Hmax)); reflexivity]. reflexivity.
  - rewrite TotalVotingPower_cached by done. destruct Hc as [|Hc]; [done|]. rewrite <- Hc. by destruct s.
Qed.

Lemma TotalVotingPower_spec T s : set_ok T (Validators s) -> T <= MaxTotalVotingPower -> totalVotingPower s = 0 \/ totalVotingPower s = T ->
  TotalVotingPower s = Ok (T, mk_ValidatorSet (Validators s) (Proposer s) T (validatorsMap s)).
Proof. intros [_ Hpw <- _]. by apply TotalVotingPower_sum. Qed.

(** IncrementProposerPriority takes turns from balanced priorities; fewer times
    take fewer of the same turns. *)
Lemma IncrementProposerPriority_turns T s k : selectable T s ->
  exists L U vs0 ws, span T L U /\ set_ok T vs0 /\ balanced T L U vs0 /\ reprioritised (Validators s) vs0 /\ length ws = k /\
  forall j, (0 < j <= k)%nat -> exists vs', turns T vs0 (take j ws) vs' /\
    IncrementProposerPriority (Z.of_nat j) s = Ok (tt, mk_ValidatorSet vs' (ws !! pred j) T (validatorsMap s)).
Proof.
  intros [Hok Hmax Hc Hroom Hi Hsp]. pose proof (ok_nonempty _ _ Hok) as Hne. pose proof (ok_T_pos _ _ Hok) as HT.
  set (s1 := mk_ValidatorSet (Validators s) (Proposer s) T (validatorsMap s)).
  destruct (RescalePriorities_spec s1 (2 * T) ltac:(lia) Hne Hi Hsp) as (vs1 & E1 & Hr1 & Hi1 & Hsp1).
  pose proof (reprioritised_ok _ _ _ Hr1 Hok) as Hok1. pose proof (ok_nonempty _ _ Hok1) as Hne1.
  assert (2 * T <= MaxInt64) as H2T by (assert (8 * MaxTotalVotingPower <= MaxInt64) by done; lia).
  pose proof (shift_exact (withVals vs1 s1) Hne1 Hi1 ltac:(intros v w Hv Hw; specialize (Hsp1 v w Hv Hw); lia)) as E2. cbn zeta in E2.
  destruct (shift_balanced T vs1 Hok1 Hsp1) as (L & U & Hspan & Hbal). set (vs0 := map _ vs1) in Hbal.
  assert (reprioritised (Validators s) vs0) as Hr0 by (eapply reprioritised_trans; [exact Hr1|apply (reprioritised_map (fun v => ProposerPriority v - _))]).
  pose proof (reprioritised_ok _ _ _ Hr0 Hok) as Hok0. destruct (reprioritised_keys _ _ Hr0) as (_ & _ & Hl0 & _).
  destruct (incrementTimes_turns T L U Hspan k (withVals vs0 s1)) as (ws & Hl & Hws); [done|done|done|by rewrite <- Hl0 in Hroom|].
  exists L, U, vs0, ws. split_and!; [done..|]. intros j Hj. destruct (Hws j None ltac:(lia)) as (q & vs' & E3 & Hts & Hq). exists vs'. split; [done|].
  unfold IncrementProposerPriority. erewrite M_bind_Ok by reflexivity. assert (IsNilOrEmpty s = false) as -> by (unfold IsNilOrEmpty; by destruct (Validators s)).
  destruct (Z.leb_spec (Z.of_nat j) 0); [lia|]. rewrite (M_bind_Ok _ _ _ _ _ (TotalVotingPower_spec _ _ Hok Hmax Hc)).
  change (PriorityWindowSizeFactor * T) with (2 * T). rewrite int64_wrap_id by (unfold is_i64, MinInt64; lia). fold s1.
  rewrite (M_bind_Ok _ _ _ _ _ E1), (M_bind_Ok _ _ _ _ _ E2). rewrite Nat2Z.id. rewrite (M_bind_Ok _ _ _ _ _ E3).
  unfold set_Proposer, modify. cbn. do 3 f_equal. destruct j as [|j]; [lia|]. cbn [pred]. rewrite <- Hq. by destruct q.
Qed.

(** * How much room there is *)
Fixpoint harmonic (d : nat) (k : Z) : Z :=
  match d with O => 0 | S d => (10 ^ 6 + k) / (k + 1) + harmonic d (k + 1) end.

Lemma slack_harmonic T d k : 0 <= T -> 0 <= k -> 10 ^ 6 * slack T d k <= T * harmonic d k + 10 ^ 6 * Z.of_nat d.
Proof.
  intros HT. revert k. induction d as [|d IH]; intros k Hk; cbn [slack harmonic]; [lia|]. specialize (IH (k + 1) ltac:(lia)).
  enough (10 ^ 6 * ((T + k) / (k + 1)) <= T * ((10 ^ 6 + k) / (k + 1)) + 10 ^ 6) by lia. clear IH.
  pose proof (Z.mul_div_le (T + k) (k + 1) ltac:(lia)) as Hq. pose proof (Z.mul_succ_div_gt (10 ^ 6 + k) (k + 1) ltac:(lia)) as Hc.
  revert Hq Hc. generalize ((T + k) / (k + 1)), ((10 ^ 6 + k) / (k + 1)). intros q c Hq Hc.
  apply (Zmult_le_reg_r _ _ (k + 1)); [lia|]. pose proof (Z.mul_le_mono_nonneg_l (10 ^ 6) ((k + 1) * c) T HT ltac:(lia)). lia.
Qed.

Lemma slack_mono T d d' k : 0 <= T -> 0 <= k -> (d <= d')%nat -> slack T d k <= slack T d' k.
Proof.
  intros HT. revert d' k. induction d as [|d IH]; intros [|d'] k Hk Hd; [done|by apply slack_nonneg|lia|]. cbn [slack]. specialize (IH d' (k + 1) ltac:(lia) ltac:(lia)). lia.
Qed.

Lemma slack_bound T n m : 0 <= T -> (n <= m)%nat -> 10 ^ 6 * slack T (n - 1) 1 <= T * harmonic (m - 1) 1 + 10 ^ 6 * Z.of_nat (m - 1).
Proof.
  intros HT Hn. pose proof (slack_mono T (n - 1) (m - 1) 1 HT ltac:(lia) ltac:(lia)). pose proof (slack_harmonic T (m - 1) 1 HT ltac:(lia)). lia.
Qed.

(** With the limit on the total power there is room for thirty validators, with
    half of it for ten thousand. *)
Lemma room_small T n : 0 <= T <= MaxTotalVotingPower -> (n <= 30)%nat -> room T n.
Proof.
  intros HT Hn. pose proof (slack_bound T n 30 ltac:(lia) Hn) as H. change (harmonic (30 - 1) 1) with (ltac:(let x := eval vm_compute in (harmonic 29 1) in exact x)) in H.
  unfold room. assert (MaxInt64 = 8 * MaxTotalVotingPower + 7) by done. assert (MaxTotalVotingPower = 2 ^ 60 - 1) by done. lia.
Qed.

Lemma slack_large T n : 0 <= T -> Z.of_nat n <= 10000 -> slack T (n - 1) 1 <= 9 * T + 9999.
Proof.
  intros HT Hn. pose proof (slack_bound T n (Z.to_nat 10000) HT ltac:(lia)) as H. assert (harmonic (Z.to_nat 10000 - 1) 1 <= 9 * 10 ^ 6) as Hh by (vm_compute; done).
  replace (Z.of_nat (Z.to_nat 10000 - 1)) with 9999 in H by lia. revert H Hh. generalize (harmonic (Z.to_nat 10000 - 1) 1). intros h H Hh.
  assert (T * h <= T * (9 * 10 ^ 6)) by (apply Z.mul_le_mono_nonneg_l; lia). lia.
Qed.

Lemma room_large T n : 0 <= T <= MaxTotalVotingPower / 2 -> Z.of_nat n <= 10000 -> room T n.
Proof.
  intros HT Hn. pose proof (slack_large T n ltac:(lia) Hn). unfold room. assert (MaxInt64 = 16 * (MaxTotalVotingPower / 2) + 15) by done.
  assert (MaxTotalVotingPower / 2 = 2 ^ 59 - 1) by done. lia.
Qed.
