(* ===== verification/BorUpdateSpec.v ===== *)
(** Updates of the validator set of Bor ([BorValset]): the index by address, the
    split of the changes, the merge of updates into the sorted list and the
    removals. *)
From Stdlib Require Import Sorting.Sorted.
From stdpp Require Import sorting.
From S2P Require Import Prelude Uint256 StateTypes Accounts Transaction BorValset BorSpec.
#[local] Open Scope Z_scope.

(** * Validators by address *)
Definition lookupV (a : address) (vs : list Validator) : option Validator := find (fun v => N.eqb (Address v) a) vs.

Definition before (v w : Validator) : Prop := (Address v < Address w)%N.

Abbreviation ordered := (StronglySorted before).

Lemma lookupV_Some a vs v : lookupV a vs = Some v -> In v vs /\ Address v = a.
Proof. intros H. apply find_some in H as [Hin E]. split; [done|]. by apply N.eqb_eq. Qed.

Lemma lookupV_None a vs : lookupV a vs = None <-> ~ In a (map Address vs).
Proof.
  unfold lookupV. induction vs as [|v vs IH]; cbn; [by intuition|]. destruct (N.eqb_spec (Address v) a) as [E|E]; [split; [done|intros H; destruct H; by left]|].
  rewrite IH. intuition.
Qed.

Lemma ordered_NoDup vs : ordered vs -> NoDup (map Address vs).
Proof.
  induction 1 as [|v vs _ IH Hv]; cbn [map]; constructor; [|done]. intros Hin. apply list_elem_of_In, in_map_iff in Hin as (w & E & Hw).
  rewrite Forall_forall in Hv. specialize (Hv w Hw). unfold before in Hv. lia.
Qed.

Lemma lookupV_In vs v : NoDup (map Address vs) -> In v vs -> lookupV (Address v) vs = Some v.
Proof.
  intros Hnd Hv. destruct (lookupV (Address v) vs) as [w|] eqn:E.
  - apply lookupV_Some in E as [Hw E]. f_equal. by apply (same_address vs).
  - apply lookupV_None in E. destruct E. by apply in_map.
Qed.

Lemma lookupV_iff a vs v : NoDup (map Address vs) -> lookupV a vs = Some v <-> In v vs /\ Address v = a.
Proof. intros Hnd. split; [apply lookupV_Some|]. intros [Hv <-]. by apply lookupV_In. Qed.

Lemma lookupV_before a vs : Forall (fun v => (a < Address v)%N) vs -> lookupV a vs = None.
Proof. intros Hf. apply lookupV_None. rewrite in_map_iff. intros (w & E & Hw). rewrite Forall_forall in Hf. specialize (Hf w Hw). cbn in Hf. lia. Qed.

Lemma lookupV_cons_ne a v vs : Address v <> a -> lookupV a (v :: vs) = lookupV a vs.
Proof. intros H. unfold lookupV. cbn. by rewrite (proj2 (N.eqb_neq _ _) H). Qed.

Lemma lookupV_cons_eq a v vs : Address v = a -> lookupV a (v :: vs) = Some v.
Proof. intros <-. unfold lookupV. cbn. by rewrite N.eqb_refl. Qed.

(** * The index *)
Lemma validatorIndex_from vs k (m : gmap address nat) a : NoDup (map Address vs) ->
  foldl (fun m iv => <[Address iv.2 := iv.1]> m) m (zip (seq k (length vs)) vs) !! a =
  match list_find (fun v => Address v = a) vs with Some (i, _) => Some (k + i)%nat | None => m !! a end.
Proof.
  revert k m. induction vs as [|v vs IH]; intros k m Hnd; [done|]. cbn [map] in Hnd. inversion_clear Hnd as [|? ? Hv Hnd'].
  cbn [length seq zip zip_with foldl]. rewrite IH by done. cbn [list_find snd fst]. destruct (decide (Address v = a)) as [<-|Hne].
  - assert (list_find (fun w => Address w = Address v) vs = None) as ->.
    { apply list_find_None. apply Forall_forall. intros w Hw E. destruct Hv. rewrite <- E. apply list_elem_of_In. by apply in_map. }
    rewrite lookup_insert_eq. f_equal. lia.
  - destruct (list_find _ vs) as [[i w]|]; cbn; [f_equal; lia|]. by rewrite lookup_insert_ne.
Qed.

Lemma lookupV_list_find a vs : lookupV a vs = match list_find (fun v => Address v = a) vs with Some (_, v) => Some v | None => None end.
Proof.
  induction vs as [|v vs IH]; [done|]. cbn [list_find]. destruct (decide (Address v = a)); [by rewrite lookupV_cons_eq|].
  rewrite lookupV_cons_ne by done. rewrite IH. by destruct (list_find _ vs) as [[]|].
Qed.

Definition indexed (s : ValidatorSet) : Prop := validatorsMap s = validatorIndex (Validators s).

Lemma GetByAddress_spec s a : indexed s -> NoDup (map Address (Validators s)) ->
  exists i, GetByAddress a s = Ok (i, lookupV a (Validators s)) /\
    match lookupV a (Validators s) with Some v => lookupZ (Validators s) i = Some v /\ 0 <= i < len (Validators s) | None => i = -1 end.
Proof.
  intros Hi Hnd. unfold GetByAddress. rewrite Hi. unfold validatorIndex. rewrite validatorIndex_from by done. rewrite lookupV_list_find.
  destruct (list_find _ _) as [[i v]|] eqn:E; [|exists (-1); split; [by rewrite lookup_empty|done]].
  apply list_find_Some in E as (Hv & _ & _). exists (Z.of_nat i). cbn [Nat.add]. rewrite Hv. cbn. split; [done|].
  pose proof (lookup_lt_Some _ _ _ Hv). unfold lookupZ, len. destruct (Z.ltb_spec (Z.of_nat i) 0); [lia|]. rewrite Nat2Z.id. split; [done|lia].
Qed.

(** * The split of the changes *)
Definition change_ok (v : Validator) : Prop := 0 <= VotingPower v <= MaxTotalVotingPower.

Definition isUpdate (v : Validator) : bool := negb (VotingPower v =? 0).

Definition isRemoval (v : Validator) : bool := VotingPower v =? 0.

Lemma scanChanges_ok l prev u d : ordered l -> Forall (fun v => (prev < Address v)%N) l -> Forall change_ok l ->
  scanChanges l prev u d = inr (u ++ List.filter isUpdate l, d ++ List.filter isRemoval l).
Proof.
  intros Hl. revert prev u d. induction Hl as [|v l Hl IH Hv]; intros prev u d Hp Hc; cbn [scanChanges List.filter]; [by rewrite !app_nil_r|].
  inversion_clear Hp as [|? ? Hpv Hpl]. inversion_clear Hc as [|? ? [? ?] Hcl]. destruct (N.eqb_spec (Address v) prev); [lia|].
  destruct (Z.ltb_spec (VotingPower v) 0); [lia|]. destruct (Z.ltb_spec MaxTotalVotingPower (VotingPower v)); [lia|]. unfold isUpdate at 1, isRemoval at 1.
  destruct (VotingPower v =? 0); cbn [negb]; rewrite IH by done; by rewrite <- !app_assoc.
Qed.

Lemma scanChanges_inv l prev u d r : StronglySorted byAddress l -> Forall (fun v => (prev <= Address v)%N) l -> scanChanges l prev u d = inr r ->
  ordered l /\ Forall (fun v => (prev < Address v)%N) l /\ Forall change_ok l.
Proof.
  intros Hl. revert prev u d. induction Hl as [|v l Hl IH Hv]; intros prev u d Hp E; [split_and!; constructor|]. inversion_clear Hp as [|? ? Hpv Hpl]. cbn [scanChanges] in E.
  destruct (N.eqb_spec (Address v) prev) as [|Hne]; [done|]. destruct (Z.ltb_spec (VotingPower v) 0); [done|]. destruct (Z.ltb_spec MaxTotalVotingPower (VotingPower v)); [done|].
  assert (exists u d, scanChanges l (Address v) u d = inr r) as (u' & d' & E') by (destruct (VotingPower v =? 0); eauto).
  destruct (IH (Address v) u' d' Hv E') as (Ho & Hlt & Hc). split_and!.
  - by constructor.
  - constructor; [lia|]. eapply Forall_impl; [|exact Hlt]. cbn. lia.
  - constructor; [done|exact Hc].
Qed.

#[local] Instance byAddress_total : Total byAddress.
Proof. intros v w. unfold byAddress. lia. Qed.

#[local] Instance byAddress_trans : Transitive byAddress.
Proof. intros v w x. unfold byAddress. lia. Qed.

Definition sortedChanges (changes : list Validator) : list Validator := merge_sort byAddress changes.

Lemma sortedChanges_In changes v : In v (sortedChanges changes) <-> In v changes.
Proof. split; apply Permutation_in; [apply merge_sort_Permutation|symmetry; apply merge_sort_Permutation]. Qed.

(** Changes are admitted when the addresses are distinct and not zero, and the
    powers within the limit. *)
Record changes_ok (changes : list Validator) : Prop := {
  ch_nodup : NoDup (map Address changes);
  ch_nonzero : Forall (fun v => Address v <> 0%N) changes;
  ch_powers : Forall change_ok changes
}.

Lemma strictly_ordered l : StronglySorted byAddress l -> NoDup (map Address l) -> ordered l.
Proof.
  induction 1 as [|v l Hl IH Hv]; cbn [map]; intros Hnd; [constructor|]. inversion_clear Hnd as [|? ? Hn Hnd']. constructor; [auto|].
  rewrite Forall_forall in Hv |- *. intros w Hw. specialize (Hv w Hw). unfold byAddress, before in *. enough (Address v <> Address w) by lia.
  intros E. destruct Hn. rewrite E. apply list_elem_of_In. by apply in_map.
Qed.

Lemma processChanges_ok changes : changes_ok changes ->
  processChanges changes = inr (List.filter isUpdate (sortedChanges changes), List.filter isRemoval (sortedChanges changes)) /\ ordered (sortedChanges changes).
Proof.
  intros [Hnd Hz Hc]. assert (ordered (sortedChanges changes)) as Ho.
  { apply strictly_ordered; [apply (StronglySorted_merge_sort _)|]. eapply NoDup_Permutation_proper; [|exact Hnd]. apply Permutation_map, merge_sort_Permutation. }
  split; [|done]. unfold processChanges. fold (sortedChanges changes). rewrite scanChanges_ok; [done|done| |].
  - rewrite Forall_forall in Hz |- *. intros v Hv. apply -> sortedChanges_In in Hv. specialize (Hz v Hv). lia.
  - rewrite Forall_forall in Hc |- *. intros v Hv. apply -> sortedChanges_In in Hv. auto.
Qed.

Lemma processChanges_inv changes r : processChanges changes = inr r -> changes_ok changes.
Proof.
  unfold processChanges. fold (sortedChanges changes). intros E. apply scanChanges_inv in E as (Ho & Hz & Hc); [|apply (StronglySorted_merge_sort _)|apply Forall_forall; intros; lia].
  rewrite Forall_forall in Hz, Hc. split.
  - eapply NoDup_Permutation_proper; [|exact (ordered_NoDup _ Ho)]. apply Permutation_map. symmetry. apply merge_sort_Permutation.
  - apply Forall_forall. intros v Hv. apply <- sortedChanges_In in Hv. specialize (Hz v Hv). cbn in Hz. lia.
  - apply Forall_forall. intros v Hv. apply <- sortedChanges_In in Hv. by apply Hc.
Qed.

Lemma ordered_filter f vs : ordered vs -> ordered (List.filter f vs).
Proof.
  induction 1 as [|v vs _ IH Hv]; cbn; [constructor|]. destruct (f v); [|done]. constructor; [done|]. rewrite Forall_forall in Hv |- *.
  intros w Hw. apply filter_In in Hw as [Hw _]. auto.
Qed.

(** * The merge *)
Definition default0 (g : Validator -> Z) (o : option Validator) : Z := match o with Some v => g v | None => 0 end.

(** What the updates add to a sum over the validators. *)
Fixpoint added (g : Validator -> Z) (es us : list Validator) : Z :=
  match us with [] => 0 | u :: us => g u - default0 g (lookupV (Address u) es) + added g es us end.

Lemma added_skip g e es us : Forall (before e) us -> added g (e :: es) us = added g es us.
Proof.
  induction 1 as [|u us Hu _ IH]; [done|]. cbn [added]. rewrite IH, lookupV_cons_ne; [done|]. unfold before in Hu. lia.
Qed.

Lemma ordered_below a v vs : ordered (v :: vs) -> (a < Address v)%N -> Forall (fun w => (a < Address w)%N) (v :: vs).
Proof.
  intros Ho Ha. apply StronglySorted_inv in Ho as [_ Hv]. constructor; [done|]. eapply Forall_impl; [|exact Hv]. unfold before. lia.
Qed.

Lemma sumOf_cons g v vs : sumOf g (v :: vs) = g v + sumOf g vs.
Proof. done. Qed.

Lemma sumOf_app g vs ws : sumOf g (vs ++ ws) = sumOf g vs + sumOf g ws.
Proof. induction vs as [|v vs IH]; [done|]. cbn [app]. rewrite !sumOf_cons, IH. lia. Qed.

Lemma added_nil g us : added g [] us = sumOf g us.
Proof. induction us as [|u us IH]; [done|]. cbn [added]. rewrite IH, sumOf_cons. cbn. lia. Qed.

Definition merged (es us : list Validator) : list Validator := mergeUpdates (length es + length us) es us.

Lemma mergeUpdates_In fuel es us v : In v (mergeUpdates fuel es us) -> In v es \/ In v us.
Proof.
  revert es us. induction fuel as [|fuel IH]; intros es us; cbn [mergeUpdates]; [apply in_app_or|]. destruct es as [|e es], us as [|u us]; try apply in_app_or.
  destruct (N.ltb _ _); [|destruct (N.eqb _ _)]; intros [<-|Hv]; cbn; auto; apply IH in Hv as [Hv|Hv]; cbn in *; auto.
Qed.

Lemma mergeUpdates_ordered fuel es us : (length es + length us <= fuel)%nat -> ordered es -> ordered us -> ordered (mergeUpdates fuel es us).
Proof.
  revert es us. induction fuel as [|fuel IH]; intros es us Hf He Hu; [destruct es, us; cbn in *; try lia; constructor|]. cbn [mergeUpdates].
  destruct es as [|e es]; [done|]. destruct us as [|u us]; [by rewrite app_nil_r|]. cbn [length] in Hf.
  pose proof (StronglySorted_inv He) as [He' Hes]. pose proof (StronglySorted_inv Hu) as [Hu' Hus]. rewrite Forall_forall in Hes, Hus. unfold before in Hes, Hus.
  destruct (N.ltb_spec (Address e) (Address u)); [|destruct (N.eqb_spec (Address e) (Address u))]; (constructor; [apply IH; cbn [length]; (lia || done)|]).
  all: apply Forall_forall; intros v Hv; apply mergeUpdates_In in Hv as [Hv|Hv]; unfold before.
  - by apply Hes.
  - destruct Hv as [<-|Hv]; [done|]. specialize (Hus v Hv). lia.
  - specialize (Hes v Hv). lia.
  - by apply Hus.
  - destruct Hv as [<-|Hv]; [lia|]. specialize (Hes v Hv). lia.
  - by apply Hus.
Qed.

Lemma mergeUpdates_lookup fuel es us a : (length es + length us <= fuel)%nat -> ordered es -> ordered us ->
  lookupV a (mergeUpdates fuel es us) = match lookupV a us with Some u => Some u | None => lookupV a es end.
Proof.
  revert es us. induction fuel as [|fuel IH]; intros es us Hf He Hu; [destruct es, us; cbn in *; try lia; done|]. cbn [mergeUpdates].
  destruct es as [|e es]; [by destruct (lookupV a us) eqn:E|]. destruct us as [|u us]; [by rewrite app_nil_r|]. cbn [length] in Hf.
  pose proof (StronglySorted_inv He) as [He' Hes]. pose proof (StronglySorted_inv Hu) as [Hu' Hus].
  destruct (N.ltb_spec (Address e) (Address u)) as [Hlt|Hge]; [|destruct (N.eqb_spec (Address e) (Address u)) as [Heq|Hne]].
  - destruct (decide (Address e = a)) as [<-|Ha]; [|rewrite !(lookupV_cons_ne a e), IH by (cbn; done || lia); done].
    rewrite (lookupV_before (Address e) (u :: us)) by (by apply ordered_below). by rewrite !lookupV_cons_eq.
  - destruct (decide (Address u = a)) as [<-|Ha]; [by rewrite !lookupV_cons_eq by done|]. rewrite !(lookupV_cons_ne a u), (lookupV_cons_ne a e) by congruence. apply IH; (done || lia).
  - destruct (decide (Address u = a)) as [<-|Ha]; [by rewrite !lookupV_cons_eq by done|]. rewrite !(lookupV_cons_ne a u) by done. apply IH; (done || cbn; lia).
Qed.

Lemma mergeUpdates_sum g fuel es us : (length es + length us <= fuel)%nat -> ordered es -> ordered us ->
  sumOf g (mergeUpdates fuel es us) = sumOf g es + added g es us.
Proof.
  revert es us. induction fuel as [|fuel IH]; intros es us Hf He Hu; [destruct es, us; cbn in *; try lia; done|]. cbn [mergeUpdates].
  destruct es as [|e es]; [by rewrite added_nil|]. destruct us as [|u us]; [rewrite app_nil_r; cbn; lia|]. cbn [length] in Hf.
  pose proof (StronglySorted_inv He) as [He' Hes]. pose proof (StronglySorted_inv Hu) as [Hu' Hus].
  destruct (N.ltb_spec (Address e) (Address u)) as [Hlt|Hge]; [|destruct (N.eqb_spec (Address e) (Address u)) as [Heq|Hne]]; rewrite sumOf_cons, IH by (cbn [length]; done || lia); rewrite (sumOf_cons _ e).
  - rewrite added_skip by (by apply ordered_below). lia.
  - cbn [added]. rewrite lookupV_cons_eq by done. rewrite added_skip; [cbn; lia|]. eapply Forall_impl; [|exact Hus]. unfold before. by rewrite Heq.
  - cbn [added]. rewrite (lookupV_before (Address u) (e :: es)) by (apply ordered_below; [done|lia]). cbn. lia.
Qed.

(** * Removals *)
Lemma removeAll_spec es ds : ordered es -> ordered ds -> Forall (fun d => In (Address d) (map Address es)) ds ->
  exists r, removeAll es ds = Ok r /\ ordered r /\ (forall v, In v r <-> In v es /\ ~ In (Address v) (map Address ds)) /\ len r = len es - len ds.
Proof.
  intros He. revert ds. induction He as [|e es He IH Hes]; intros ds Hd Hin.
  - destruct ds as [|d ds]; [|inversion_clear Hin as [|? ? []]]. exists []. split_and!; [done|constructor|cbn; intuition|done].
  - destruct ds as [|d ds]; [exists (e :: es); split_and!; [done|by constructor|cbn; intuition|unfold len; cbn; lia]|]. inversion_clear Hin as [|? ? Hd0 Hds].
    pose proof (StronglySorted_inv Hd) as [Hd' Hdd]. rewrite Forall_forall in Hes, Hdd, Hds. unfold before in Hes, Hdd. cbn [removeAll].
    destruct (N.eqb_spec (Address e) (Address d)) as [Eq|Hne].
    + destruct (IH ds Hd') as (r & E & Hr & Hrin & Hrl).
      { apply Forall_forall. intros x Hx. specialize (Hds x Hx). cbn in Hds. destruct Hds as [E|?]; [|done]. specialize (Hdd x Hx). lia. }
      exists r. split_and!; [done|done| |unfold len in *; cbn [length]; lia]. intros v. rewrite Hrin. cbn [In map]. split.
      * intros [Hv Hn]. split; [auto|]. specialize (Hes v Hv). intros [E'|?]; [lia|done].
      * intros [[<-|Hv] Hn]; [destruct Hn; left; done|]. split; [done|]. intros ?; apply Hn; by right.
    + assert (Address e < Address d)%N as Hlt.
      { cbn in Hd0. destruct Hd0 as [?|Hd0]; [done|]. apply in_map_iff in Hd0 as (x & Ex & Hx). specialize (Hes x Hx). lia. }
      destruct (IH (d :: ds) Hd) as (r & E & Hr & Hrin & Hrl).
      { apply Forall_forall. intros x Hx. destruct Hx as [<-|Hx].
        - cbn in Hd0. by destruct Hd0.
        - specialize (Hds x Hx). cbn in Hds. destruct Hds as [E|?]; [|done]. specialize (Hdd x Hx). lia. }
      rewrite E. cbn [mbind outcome_bind]. exists (e :: r). split_and!; [done| | |unfold len in *; cbn [length] in *; lia].
      * constructor; [done|]. apply Forall_forall. intros v Hv. apply Hrin in Hv as [Hv _]. by apply Hes.
      * intros v. cbn [In]. rewrite Hrin. split; [|intuition]. intros [<-|[Hv Hn]]; [|auto]. split; [auto|]. rewrite in_map_iff.
        intros (x & Ex & [<-|Hx]); [lia|]. specialize (Hdd x Hx). lia.
Qed.

Lemma removeAll_sum g es ds r : (forall v, In v es -> 0 <= g v) -> removeAll es ds = Ok r -> sumOf g r <= sumOf g es.
Proof.
  revert ds r. induction es as [|e es IH]; intros [|d ds] r Hg E; cbn [removeAll] in E; [by simplify_eq..|].
  pose proof (Hg e (in_eq _ _)). assert (forall v, In v es -> 0 <= g v) as Hg' by (intros; apply Hg; by right). rewrite sumOf_cons. destruct (N.eqb _ _).
  - specialize (IH _ _ Hg' E). lia.
  - destruct (removeAll es (d :: ds)) as [r'| | |] eqn:E'; cbn in E; try done. simplify_eq. specialize (IH _ _ Hg' E'). rewrite sumOf_cons. lia.
Qed.

(** * The checks *)
Lemma added_app g es us ws : added g es (us ++ ws) = added g es us + added g es ws.
Proof. induction us as [|u us IH]; [done|]. cbn [app added]. rewrite IH. lia. Qed.

Lemma added_count es us : 0 <= added (fun _ => 1) es us.
Proof. induction us as [|u us IH]; [done|]. cbn [added]. destruct (lookupV _ _); cbn [default0]; lia. Qed.

(** New validators start behind the others. *)
Definition newPriority (vs : list Validator) (t : Z) (u : Validator) : Validator :=
  set_priority (match lookupV (Address u) vs with None => - (t + Z.shiftr t 3) | Some v => ProposerPriority v end) u.

Section checks.
Context (s : ValidatorSet) (Hidx : indexed s) (Hord : ordered (Validators s)).

#[local] Lemma GetByAddress_run a : exists i, GetByAddress a s = Ok (i, lookupV a (Validators s)).
Proof. destruct (GetByAddress_spec s a Hidx (ordered_NoDup _ Hord)) as (i & E & _). eauto. Qed.

Lemma findAll_spec ds : exists r, findAll ds s = Ok r /\ (r = None <-> Forall (fun d => In (Address d) (map Address (Validators s))) ds).
Proof.
  induction ds as [|d ds (r & E & Hr)]; [by exists None|]. cbn [findAll]. destruct (GetByAddress_run (Address d)) as [i ->]. cbn [mbind outcome_bind].
  destruct (lookupV (Address d) (Validators s)) as [v|] eqn:El.
  - exists r. split; [done|]. rewrite Hr. apply lookupV_Some in El as [Hv Ea]. split; [|by inversion 1]. intros Hf. constructor; [|done]. rewrite <- Ea. by apply in_map.
  - exists (Some notFound). split; [done|]. split; [done|]. apply lookupV_None in El. by inversion 1.
Qed.

Lemma removals_fewer ds : ordered ds -> Forall (fun d => In (Address d) (map Address (Validators s))) ds -> len ds <= len (Validators s).
Proof.
  intros Hd Hf. rewrite Forall_forall in Hf. pose proof (NoDup_incl_length (l := map Address ds) (l' := map Address (Validators s))) as Hlen. rewrite !length_map in Hlen.
  unfold len. enough (length ds <= length (Validators s))%nat by lia. apply Hlen; [apply NoDup_ListNoDup, ordered_NoDup; done|].
  intros a Ha. apply in_map_iff in Ha as (d & <- & Hin). by apply Hf.
Qed.

Lemma verifyRemovals_spec ds : ordered ds ->
  exists r, verifyRemovals ds s = Ok r /\ (r = None <-> Forall (fun d => In (Address d) (map Address (Validators s))) ds).
Proof.
  intros Hd. destruct (findAll_spec ds) as (r & E & Hr). exists r. split; [|done]. unfold verifyRemovals. rewrite E. cbn [mbind outcome_bind]. destruct r as [e|]; [done|].
  destruct (Z.ltb_spec (len (Validators s)) (len ds)); [|done]. pose proof (removals_fewer ds Hd (proj1 Hr eq_refl)). lia.
Qed.

Lemma checkUpdates_spec us total n : Forall (fun u => 0 <= VotingPower u <= MaxTotalVotingPower) us -> Forall (fun v => 0 <= VotingPower v <= MaxTotalVotingPower) (Validators s) ->
  total <= MaxTotalVotingPower -> (forall k, 0 <= total + added VotingPower (Validators s) (take k us)) ->
  exists r, checkUpdates us s total n = Ok r /\
    (forall t m, r = inr (t, m) -> t = total + added VotingPower (Validators s) us /\ m = n + added (fun _ => 1) (Validators s) us /\ 0 <= t <= MaxTotalVotingPower /\
      forall k, total + added VotingPower (Validators s) (take k us) <= MaxTotalVotingPower) /\
    ((forall k, total + added VotingPower (Validators s) (take k us) <= MaxTotalVotingPower) -> exists tm, r = inr tm).
Proof.
  intros Hu Hv. revert total n. induction Hu as [|u us Hu Hus IH]; intros total n Ht Hk; cbn [checkUpdates].
  - eexists. split; [done|]. split; [|eauto]. intros t m [= -> ->]. specialize (Hk 0%nat). cbn in *. split_and!; try lia. intros k. rewrite take_nil. cbn. lia.
  - destruct (GetByAddress_run (Address u)) as [i ->]. cbn [mbind outcome_bind added].
    pose proof (Hk 0%nat) as Hk0. cbn in Hk0. pose proof (Hk 1%nat) as Hk1. cbn in Hk1. rewrite take_0 in Hk1. cbn in Hk1. assert (8 * MaxTotalVotingPower <= MaxInt64) by done.
    assert (0 <= default0 VotingPower (lookupV (Address u) (Validators s)) <= MaxTotalVotingPower) as Hold.
    { destruct (lookupV (Address u) (Validators s)) as [v|] eqn:E; [|done]. apply lookupV_Some in E as [Hin _]. rewrite Forall_forall in Hv. by apply Hv. }
    set (old := lookupV (Address u) (Validators s)) in *. set (total' := total + (VotingPower u - default0 VotingPower old)).
    assert ((match old with None => (int64_wrap (total + VotingPower u), n + 1) | Some val => (int64_wrap (total + int64_wrap (VotingPower u - VotingPower val)), n) end)
      = (total', n + (1 - default0 (fun _ => 1) old))) as ->.
    { unfold total'. destruct old as [v|]; cbn [default0] in *; [rewrite (int64_wrap_id (VotingPower u - _)) by (unfold is_i64, MinInt64, MaxInt64 in *; lia)|];
        rewrite int64_wrap_id by (unfold is_i64, MinInt64, MaxInt64 in *; lia); f_equal; lia. }
    destruct (Z.ltb_spec MaxTotalVotingPower total') as [Hgt|Hle].
    + eexists. split; [done|]. split; [done|]. intros Hmax. specialize (Hmax 1%nat). cbn in Hmax. rewrite take_0 in Hmax. cbn in Hmax. fold old in Hmax. unfold total' in Hgt. lia.
    + destruct (IH total' (n + (1 - default0 (fun _ => 1) old)) Hle) as (r & E & Hr & Hr').
      { intros k. specialize (Hk (S k)). cbn in Hk. fold old in Hk. unfold total'. lia. }
      exists r. split; [done|]. split.
      * intros t m Er. destruct (Hr t m Er) as (? & ? & ? & Hmax). unfold total' in *. split_and!; try lia. intros [|k]; cbn; [lia|]. fold old. specialize (Hmax k). lia.
      * intros Hmax. apply Hr'. intros k. specialize (Hmax (S k)). cbn in Hmax. fold old in Hmax. unfold total'. lia.
Qed.

Lemma computeNewPriorities_spec us t : 0 <= t <= MaxTotalVotingPower -> computeNewPriorities us s t = Ok (map (newPriority (Validators s) t) us).
Proof.
  intros Ht. assert (8 * MaxTotalVotingPower <= MaxInt64) by done. assert (0 <= Z.shiftr t 3 <= t).
  { rewrite Z.shiftr_div_pow2 by lia. change (2 ^ 3) with 8. split; [apply Z.div_pos; lia|apply Z.div_le_upper_bound; lia]. }
  induction us as [|u us IH]; [done|]. cbn [computeNewPriorities map]. destruct (GetByAddress_run (Address u)) as [i ->]. cbn [mbind outcome_bind]. rewrite IH. cbn [mbind outcome_bind].
  do 2 f_equal. unfold newPriority. f_equal. destruct (lookupV (Address u) (Validators s)); [done|]. rewrite (int64_wrap_id (t + _)) by (unfold is_i64, MinInt64, MaxInt64 in *; lia).
  apply int64_wrap_id. unfold is_i64, MinInt64, MaxInt64 in *. lia.
Qed.
End checks.

(** * The update *)
Definition updatesOf (changes : list Validator) : list Validator := List.filter isUpdate (sortedChanges changes).

Definition removalsOf (changes : list Validator) : list Validator := List.filter isRemoval (sortedChanges changes).

Lemma updateValidators_spec s us ds : ordered (Validators s) -> ordered us -> ordered ds ->
  Forall (fun d => In (Address d) (map Address (Validators s))) ds -> (forall u, In u us -> lookupV (Address u) ds = None) ->
  exists r, updateValidators us ds s = Ok (tt, mk_ValidatorSet r (Proposer s) (totalVotingPower s) (validatorIndex r)) /\ ordered r /\
    (forall a, lookupV a r = match lookupV a ds with
                             | Some _ => None
                             | None => match lookupV a us with Some u => Some u | None => lookupV a (Validators s) end
                             end) /\
    len r = len (Validators s) + added (fun _ => 1) (Validators s) us - len ds /\
    (forall g, (forall v, In v (Validators s) \/ In v us -> 0 <= g v) -> sumOf g r <= sumOf g (Validators s) + added g (Validators s) us).
Proof.
  intros Hv Hu Hd Hsub Hdis. set (m := mergeUpdates (length (Validators s) + length us) (Validators s) us).
  pose proof (mergeUpdates_ordered _ _ _ (le_n _) Hv Hu) as Hm. fold m in Hm. pose proof (fun a => mergeUpdates_lookup _ _ _ a (le_n _) Hv Hu) as Hl. fold m in Hl.
  pose proof (fun g => mergeUpdates_sum g _ _ _ (le_n _) Hv Hu) as Hs. fold m in Hs.
  assert (forall g, sumOf (fun _ => 1) g = len g) as Hlen by (intros; apply count_all).
  destruct (removeAll_spec m ds Hm Hd) as (r & E & Hr & Hin & Hrl).
  { eapply Forall_impl; [|exact Hsub]. intros d Hdin. destruct (lookupV (Address d) m) as [v|] eqn:E; [apply lookupV_Some in E as [? <-]; by apply in_map|].
    rewrite Hl in E. destruct (lookupV (Address d) us); [done|]. by apply lookupV_None in E. }
  exists r. split_and!.
  - unfold updateValidators. erewrite M_bind_Ok by reflexivity. fold m. erewrite M_bind_Ok; [|unfold applyRemovals; cbn [Validators]; rewrite E; reflexivity]. done.
  - done.
  - intros a. destruct (lookupV a ds) as [d|] eqn:Ed.
    + apply lookupV_Some in Ed as [Hdin <-]. apply lookupV_None. rewrite in_map_iff. intros (v & Ev & Hvr). apply Hin in Hvr as [_ []]. rewrite Ev. by apply in_map.
    + apply lookupV_None in Ed. rewrite <- Hl. destruct (lookupV a m) as [v|] eqn:Em.
      * apply lookupV_iff; [by apply ordered_NoDup|]. apply lookupV_Some in Em as [? <-]. split; [|done]. apply Hin. done.
      * apply lookupV_None. apply lookupV_None in Em. rewrite in_map_iff in *. intros (v & <- & Hvr). apply Hin in Hvr as [? _]. eauto.
  - rewrite Hrl. rewrite <- (Hlen m), Hs, Hlen. done.
  - intros g Hg. rewrite <- Hs. eapply removeAll_sum; [|exact E]. intros v Hvm. apply mergeUpdates_In in Hvm. auto.
Qed.

(** What follows once the list is changed. *)
Definition finish : M ValidatorSet (option ValsetError) :=
  err ← UpdateTotalVotingPower;
  match err with
  | Some err => mret (Some err)
  | None =>
      total ← TotalVotingPower;
      _ ← RescalePriorities (int64_wrap (PriorityWindowSizeFactor * total));
      _ ← shiftByAvgProposerPriority;
      mret None
  end.

(** The conditions under which changes are taken. *)
Record acceptable (allowDeletes : bool) (s : ValidatorSet) (c : Z) (changes : list Validator) : Prop := {
  acc_changes : changes_ok changes;
  acc_deletes : allowDeletes = true \/ removalsOf changes = [];
  acc_known : Forall (fun d => In (Address d) (map Address (Validators s))) (removalsOf changes);
  acc_total : forall k, c + added VotingPower (Validators s) (take k (updatesOf changes)) <= MaxTotalVotingPower;
  acc_left : 0 < len (Validators s) + added (fun _ => 1) (Validators s) (updatesOf changes) - len (removalsOf changes)
}.

(** The list that the changes leave. *)
Record changed (s : ValidatorSet) (t : Z) (changes r : list Validator) : Prop := {
  cg_ordered : ordered r;
  cg_lookup : forall a, lookupV a r = match lookupV a changes with
                                      | Some u => if VotingPower u =? 0 then None else Some (newPriority (Validators s) t u)
                                      | None => lookupV a (Validators s)
                                      end;
  cg_len : len r = len (Validators s) + added (fun _ => 1) (Validators s) (updatesOf changes) - len (removalsOf changes);
  cg_sum : sumOf VotingPower r <= sumOf VotingPower (Validators s) + added VotingPower (Validators s) (updatesOf changes)
}.

Lemma lookupV_newPriority a vs t us : lookupV a (map (newPriority vs t) us) = option_map (newPriority vs t) (lookupV a us).
Proof. unfold lookupV. induction us as [|u us IH]; [done|]. cbn. by destruct (N.eqb (Address u) a). Qed.

Lemma added_newPriority (g : Validator -> Z) vs t us : (forall u, g (newPriority vs t u) = g u) -> added g vs (map (newPriority vs t) us) = added g vs us.
Proof. intros Hg. induction us as [|u us IH]; [done|]. cbn [map added]. by rewrite IH, Hg. Qed.

Lemma ordered_newPriority vs t us : ordered us -> ordered (map (newPriority vs t) us).
Proof. induction 1 as [|u us _ IH Hu]; constructor; [done|]. by apply Forall_map. Qed.

Lemma lookupV_filter a f vs : NoDup (map Address vs) -> lookupV a (List.filter f vs) = match lookupV a vs with Some v => if f v then Some v else None | None => None end.
Proof.
  induction vs as [|v vs IH]; [done|]. cbn [map]. intros Hnd. inversion_clear Hnd as [|? ? Hn Hnd']. cbn [List.filter]. destruct (decide (Address v = a)) as [<-|Hne].
  - rewrite (lookupV_cons_eq _ v vs) by done. destruct (f v); [by rewrite lookupV_cons_eq|]. rewrite IH by done.
    assert (lookupV (Address v) vs = None) as -> by (apply lookupV_None; intros Hin; apply Hn; by apply list_elem_of_In). done.
  - rewrite (lookupV_cons_ne _ v vs) by done. destruct (f v); [by rewrite lookupV_cons_ne, IH|auto].
Qed.

Lemma lookupV_sorted a changes : NoDup (map Address changes) -> lookupV a (sortedChanges changes) = lookupV a changes.
Proof.
  intros Hnd. assert (NoDup (map Address (sortedChanges changes))) as Hnd'.
  { eapply NoDup_Permutation_proper; [|exact Hnd]. apply Permutation_map, merge_sort_Permutation. }
  destruct (lookupV a changes) as [v|] eqn:E.
  - apply lookupV_iff; [done|]. apply lookupV_Some in E as [? ?]. split; [by apply sortedChanges_In|done].
  - apply lookupV_None. apply lookupV_None in E. rewrite in_map_iff in *. intros (v & <- & Hv). apply -> sortedChanges_In in Hv. eauto.
Qed.

Lemma changed_intro s t changes : ordered (Validators s) -> changes_ok changes -> Forall (fun v => 0 <= VotingPower v) (Validators s) ->
  Forall (fun d => In (Address d) (map Address (Validators s))) (removalsOf changes) ->
  exists r, updateValidators (map (newPriority (Validators s) t) (updatesOf changes)) (removalsOf changes) s =
      Ok (tt, mk_ValidatorSet r (Proposer s) (totalVotingPower s) (validatorIndex r)) /\ changed s t changes r.
Proof.
  intros Hv Hc Hpos Hsub. destruct (processChanges_ok _ Hc) as [_ Ho]. pose proof (ordered_NoDup _ Ho) as Hnd.
  assert (forall a, lookupV a (removalsOf changes) = match lookupV a changes with Some v => if isRemoval v then Some v else None | None => None end) as Hd.
  { intros a. unfold removalsOf. rewrite lookupV_filter by done. by rewrite lookupV_sorted by apply Hc. }
  assert (forall a, lookupV a (updatesOf changes) = match lookupV a changes with Some v => if isUpdate v then Some v else None | None => None end) as Hu.
  { intros a. unfold updatesOf. rewrite lookupV_filter by done. by rewrite lookupV_sorted by apply Hc. }
  destruct (updateValidators_spec s (map (newPriority (Validators s) t) (updatesOf changes)) (removalsOf changes)) as (r & E & Hr & Hl & Hlen & Hsum);
    [done|by apply ordered_newPriority, ordered_filter|by apply ordered_filter|done| |].
  { intros u Hin. apply in_map_iff in Hin as (w & <- & Hw). cbn. rewrite Hd.
    pose proof (lookupV_In (updatesOf changes) w (ordered_NoDup _ (ordered_filter _ _ Ho)) Hw) as E. rewrite Hu in E.
    destruct (lookupV (Address w) changes) as [x|]; [|done]. unfold isUpdate, isRemoval in *. by destruct (VotingPower x =? 0). }
  exists r. split; [done|]. split; [done| | |].
  - intros a. rewrite Hl, lookupV_newPriority, Hd, Hu. destruct (lookupV a changes) as [u|]; [|done]. unfold isUpdate, isRemoval. by destruct (VotingPower u =? 0).
  - by rewrite Hlen, added_newPriority.
  - rewrite <- (added_newPriority VotingPower (Validators s) t) by done. apply Hsum. intros v [Hin|Hin].
    + rewrite Forall_forall in Hpos. by apply Hpos.
    + apply in_map_iff in Hin as (w & <- & Hw). cbn. unfold updatesOf in Hw. apply filter_In in Hw as [Hw _]. apply -> sortedChanges_In in Hw.
      pose proof (ch_powers _ Hc) as Hp. rewrite Forall_forall in Hp. destruct (Hp w Hw). lia.
Qed.

Definition withTotal (c : Z) (s : ValidatorSet) : ValidatorSet := mk_ValidatorSet (Validators s) (Proposer s) c (validatorsMap s).

(** Either the changes are refused, and only the cached total may be new, or
    they are taken. *)
Section update.
Context (allow : bool) (s : ValidatorSet) (c : Z) (changes : list Validator).
Context (Hidx : indexed s) (Hord : ordered (Validators s)) (Hpw : Forall (fun v => 0 <= VotingPower v <= MaxTotalVotingPower) (Validators s)).
Context (Htot : TotalVotingPower s = Ok (c, withTotal c s)) (Hc : c <= MaxTotalVotingPower) (Hne : changes <> []).
Context (Hlow : changes_ok changes -> forall k, 0 <= c + added VotingPower (Validators s) (take k (updatesOf changes))).

#[local] Definition refused : Prop :=
  exists e s', updateWithChangeSet changes allow s = Ok (Some e, s') /\ (s' = s \/ s' = withTotal c s) /\ ~ acceptable allow s c changes.

#[local] Definition taken : Prop := acceptable allow s c changes /\
  exists r, let t := c + added VotingPower (Validators s) (updatesOf changes) in
    0 <= t <= MaxTotalVotingPower /\ changed s t changes r /\
    updateWithChangeSet changes allow s = finish (mk_ValidatorSet r (Proposer s) c (validatorIndex r)).

Lemma update_cases : refused \/ taken.
Proof.
  unfold refused, taken, updateWithChangeSet. destruct changes as [|c0 cs] eqn:Ech; [done|]. rewrite <- Ech in *. clear Ech c0 cs.
  destruct (processChanges changes) as [e|[us ds]] eqn:Ep.
  { left. exists e, s. split_and!; [done|by left|]. intros [Hok _ _ _ _]. destruct (processChanges_ok _ Hok) as [E _]. congruence. }
  pose proof (processChanges_inv _ _ Ep) as Hok. destruct (processChanges_ok _ Hok) as [E Ho]. rewrite E in Ep. injection Ep as <- <-. fold (updatesOf changes) (removalsOf changes).
  destruct (negb allow && negb (len (removalsOf changes) =? 0)) eqn:Eallow.
  { left. eexists _, s. split_and!; [done|by left|]. intros [_ [->|Hd] _ _ _]; [done|]. rewrite Hd in Eallow. by rewrite andb_false_r in Eallow. }
  assert (allow = true \/ removalsOf changes = []) as Hallow by (destruct allow; [by left|right]; by destruct (removalsOf changes)).
  destruct (verifyRemovals_spec s Hidx Hord (removalsOf changes) (ordered_filter _ _ Ho)) as (r1 & E1 & Hr1).
  erewrite M_bind_Ok; [|unfold reading; rewrite E1; reflexivity]. destruct r1 as [e|].
  { left. exists e, s. split_and!; [done|by left|]. intros [_ _ Hk _ _]. by apply Hr1 in Hk. }
  pose proof (proj1 Hr1 eq_refl) as Hknown.
  assert (Forall (fun u => 0 <= VotingPower u <= MaxTotalVotingPower) (updatesOf changes)) as Hup.
  { pose proof (ch_powers _ Hok) as Hp. rewrite Forall_forall in Hp |- *. intros u Hu. apply filter_In in Hu as [Hu _]. apply -> sortedChanges_In in Hu. by apply Hp. }
  destruct (checkUpdates_spec (withTotal c s) Hidx Hord (updatesOf changes) c 0 Hup Hpw Hc (Hlow Hok)) as (r2 & E2 & Hr2 & Hr2').
  erewrite M_bind_Ok; [|unfold verifyUpdates; rewrite (M_bind_Ok _ _ _ _ _ Htot); unfold reading; rewrite E2; reflexivity]. destruct r2 as [e|[t n]].
  { left. exists e, (withTotal c s). split_and!; [done|by right|]. intros [_ _ _ Ht _]. by destruct (Hr2' Ht). }
  destruct (Hr2 t n eq_refl) as (-> & -> & Ht & Hmax). cbn [Validators withTotal] in *. erewrite M_bind_Ok by reflexivity. cbn [Validators withTotal].
  destruct ((0 + added (fun _ => 1) (Validators s) (updatesOf changes) =? 0) && (len (Validators s) =? len (removalsOf changes))) eqn:Eempty.
  { left. eexists _, (withTotal c s). split_and!; [done|by right|]. intros [_ _ _ _ Hl]. lia. }
  erewrite M_bind_Ok; [|unfold reading; rewrite (computeNewPriorities_spec (withTotal c s) Hidx Hord) by done; reflexivity]. cbn [Validators withTotal].
  destruct (changed_intro (withTotal c s) (c + added VotingPower (Validators s) (updatesOf changes)) changes) as (r & Er & Hr);
    [done|done|eapply Forall_impl; [|exact Hpw]; cbn; lia|done|]. cbn [Validators withTotal Proposer totalVotingPower] in *.
  rewrite (M_bind_Ok _ _ _ _ _ Er). right. split.
  - split; [done|done|done| |].
    + done.
    + pose proof (removals_fewer s (removalsOf changes) (ordered_filter _ _ Ho) Hknown). pose proof (added_count (Validators s) (updatesOf changes)). lia.
  - exists r. split; [done|]. split; [|done]. destruct Hr as [H1 H2 H3 H4]. by split.
Qed.
End update.

(** * Settled sets *)
(** Half of the limit on the total power. *)
Definition half : Z := MaxTotalVotingPower / 2.

(** The sets between the operations: validators in the order of their
    addresses, an index and a total that are up to date, and priorities that
    leave room for the next change. *)
Record settled (T : Z) (s : ValidatorSet) : Prop := {
  st_ok : set_ok T (Validators s);
  st_ordered : ordered (Validators s);
  st_indexed : indexed s;
  st_nonzero : Forall (fun v => Address v <> 0%N) (Validators s);
  st_limit : T <= half;
  st_size : len (Validators s) <= 10000;
  st_total : totalVotingPower s = T;
  st_range : Forall (fun v => - 2 * half <= ProposerPriority v <= 12 * half) (Validators s)
}.

#[local] Lemma half_value : MaxInt64 = 16 * half + 15 /\ MaxTotalVotingPower = 2 * half + 1 /\ half = 2 ^ 59 - 1.
Proof. done. Qed.

Lemma range_spread vs T : T <= half -> Forall (fun v => - 2 * half <= ProposerPriority v <= 12 * half) vs ->
  Forall (fun v => is_i64 (ProposerPriority v)) vs /\ spread (MaxInt64 - 2 * T) vs.
Proof.
  intros HT Hr. destruct half_value as (HM & _ & Hh). split.
  - eapply Forall_impl; [|exact Hr]. cbn. unfold is_i64. rewrite HM. unfold MinInt64. lia.
  - rewrite Forall_forall in Hr. intros v w Hv Hw. pose proof (Hr v Hv). pose proof (Hr w Hw). cbn in *. lia.
Qed.

Lemma settled_selectable T s : settled T s -> selectable T s.
Proof.
  intros [Hok Hord Hidx _ HT Hn Htot Hr]. pose proof (ok_T_pos _ _ Hok). destruct (range_spread _ _ HT Hr) as [Hi Hs]. destruct half_value as (_ & HM & Hh). split; try done.
  - lia.
  - by right.
  - apply room_large; [unfold half in HT; lia|done].
Qed.

Lemma validatorIndex_addresses vs vs' : map Address vs = map Address vs' -> validatorIndex vs = validatorIndex vs'.
Proof.
  intros E. unfold validatorIndex. assert (length vs = length vs') as El by (rewrite <- (length_map Address vs), E; apply length_map). rewrite <- El.
  generalize (seq 0 (length vs)) as ks. generalize (@empty (gmap address nat) _) as m. clear El. revert vs' E.
  induction vs as [|v vs IH]; intros [|v' vs'] E m [|k ks]; try done. cbn in E. injection E as Ea E. cbn. rewrite Ea. by apply IH.
Qed.

Lemma reprioritised_ordered vs vs' : reprioritised vs vs' -> ordered vs -> ordered vs'.
Proof.
  induction 1 as [|v w vs vs' [p ->] Hr IH]; intros Ho; [constructor|]. apply StronglySorted_inv in Ho as [Ho Hv]. constructor; [auto|].
  clear -Hr Hv. induction Hr as [|x y l l' [q ->] _ IH]; [constructor|]. inversion_clear Hv. constructor; auto.
Qed.

Lemma reprioritised_nonzero vs vs' : reprioritised vs vs' -> Forall (fun v => Address v <> 0%N) vs -> Forall (fun v => Address v <> 0%N) vs'.
Proof. induction 1 as [|v w vs vs' [p ->] _ IH]; intros Hf; [constructor|]. inversion_clear Hf. constructor; auto. Qed.

Lemma finish_spec s : set_ok (sumOf VotingPower (Validators s)) (Validators s) -> ordered (Validators s) -> indexed s -> Forall (fun v => Address v <> 0%N) (Validators s) -> sumOf VotingPower (Validators s) <= half ->
  len (Validators s) <= 10000 -> Forall (fun v => - 2 * half <= ProposerPriority v <= 12 * half) (Validators s) ->
  exists s', finish s = Ok (None, s') /\ settled (sumOf VotingPower (Validators s)) s' /\ reprioritised (Validators s) (Validators s') /\ Proposer s' = Proposer s.
Proof.
  set (T := sumOf VotingPower (Validators s)). intros Hok Hord Hidx Hnz HT Hn Hr. pose proof (ok_T_pos _ _ Hok) as HTp. destruct half_value as (HM & HM2 & Hh). destruct (range_spread _ _ HT Hr) as [Hi Hs].
  set (s1 := mk_ValidatorSet (Validators s) (Proposer s) T (validatorsMap s)).
  destruct (RescalePriorities_spec s1 (2 * T) ltac:(lia) (ok_nonempty _ _ Hok) Hi Hs) as (vs1 & E1 & Hr1 & Hi1 & Hs1).
  pose proof (reprioritised_ok _ _ _ Hr1 Hok) as Hok1. pose proof (ok_nonempty _ _ Hok1) as Hne1.
  pose proof (shift_exact (withVals vs1 s1) Hne1 Hi1 ltac:(intros v w Hv Hw; specialize (Hs1 v w Hv Hw); lia)) as E2. cbn zeta in E2. cbn [Validators withVals] in E2.
  set (avg := sumOf ProposerPriority vs1 / len vs1) in E2. set (vs0 := map _ vs1) in E2.
  assert (reprioritised (Validators s) vs0) as Hr0 by (eapply reprioritised_trans; [exact Hr1|apply (reprioritised_map (fun v => ProposerPriority v - avg))]).
  destruct (reprioritised_keys _ _ Hr0) as (Ha & _ & Hl & _). exists (withVals vs0 s1). split_and!.
  - unfold finish. rewrite (M_bind_Ok _ _ _ _ _ (UpdateTotalVotingPower_spec s (ok_powers _ _ Hok) ltac:(fold T; lia))). fold T s1.
    rewrite (M_bind_Ok _ _ _ _ _ (TotalVotingPower_cached s1 ltac:(cbn; lia))). cbn [totalVotingPower s1]. change (PriorityWindowSizeFactor * T) with (2 * T).
    rewrite int64_wrap_id by (unfold is_i64, MinInt64; lia). rewrite (M_bind_Ok _ _ _ _ _ E1), (M_bind_Ok _ _ _ _ _ E2). done.
  - split; cbn [Validators withVals totalVotingPower s1].
    + by eapply reprioritised_ok.
    + by eapply reprioritised_ordered.
    + unfold indexed in *. cbn. rewrite Hidx. by apply validatorIndex_addresses.
    + by eapply reprioritised_nonzero.
    + done.
    + unfold len. by rewrite Hl.
    + done.
    + apply Forall_forall. intros v Hv. apply in_map_iff in Hv as (w & <- & Hw). cbn.
      pose proof (average_between vs1 (ProposerPriority w - 2 * T) (ProposerPriority w + 2 * T) Hne1 ltac:(intros x Hx; pose proof (Hs1 w x Hw Hx); pose proof (Hs1 x w Hx Hw); lia)). fold avg in H. lia.
  - done.
  - done.
Qed.
