(* ===== verification/BorSettled.v ===== *)
(** The validator set of Bor between its operations ([settled]): what
    IncrementProposerPriority, UpdateWithChangeSet and NewValidatorSet do to it,
    and how often each validator is the proposer. *)
From stdpp Require Import sorting.
From S2P Require Import Prelude Uint256 StateTypes Accounts Transaction Rlp TxCodec BorValset BorSpec BorUpdateSpec.
#[local] Open Scope Z_scope.

(** * Turns as proposer *)
(** The proposer after a number of increments, and how often an address is the
    proposer in the first [k] of them. *)
Definition proposerAfter (j : nat) (s : ValidatorSet) : option address :=
  match IncrementProposerPriority (Z.of_nat j) s with Ok (_, s') => Proposer s' | _ => None end.

Fixpoint timesProposer (a : address) (k : nat) (s : ValidatorSet) : Z :=
  match k with
  | O => 0
  | S k' => timesProposer a k' s + (if decide (proposerAfter k s = Some a) then 1 else 0)
  end.

(** A bound on how far a validator gets ahead of its share, or behind it. *)
Definition lag (T : Z) (n : nat) : Z := 3 * T + slack T (n - 1) 1.

Lemma turns_winner T vs ws vs' : turns T vs ws vs' -> Forall (fun a => In a (map Address vs)) ws.
Proof.
  induction 1 as [|vs m ws vs' Hm _ IH]; constructor.
  - destruct Hm as [Hin _]. apply in_map_iff in Hin as (v & <- & Hv). exact (in_map Address vs v Hv).
  - by rewrite map_Address_turn in IH.
Qed.

Lemma balanced_range T L U vs v : span T L U -> set_ok T vs -> balanced T L U vs -> In v vs ->
  L <= ProposerPriority v <= U + slack T (length vs - 1) 1.
Proof.
  intros Hspan Hok Hbal Hv. pose proof (priority_le_window _ _ _ _ _ Hok Hbal Hv) as Hw. unfold window in Hw. change (Z.to_nat 1) with 1%nat in Hw.
  pose proof (bal_low _ _ _ _ Hbal) as Hlow. rewrite Forall_forall in Hlow. split; [by apply Hlow|done].
Qed.

Lemma timesProposer_share T s v k : selectable T s -> In v (Validators s) ->
  Z.abs (T * timesProposer (Address v) k s - Z.of_nat k * VotingPower v) <= lag T (length (Validators s)).
Proof.
  intros Hsel Hv. destruct (IncrementProposerPriority_turns T s k Hsel) as (L & U & vs0 & ws & Hspan & Hok & Hbal & Hr & Hl & Hws).
  destruct (reprioritised_keys _ _ Hr) as (_ & _ & Hl0 & _).
  assert (forall j, (j <= k)%nat -> timesProposer (Address v) j s = chosen (Address v) (take j ws)) as Hchosen.
  { induction j as [|j IH]; intros Hj; [done|]. cbn [timesProposer]. rewrite IH by lia. destruct (Hws (S j) ltac:(lia)) as (vs' & _ & E).
    unfold proposerAfter. rewrite E. cbn [Proposer pred]. destruct (lookup_lt_is_Some_2 ws j ltac:(lia)) as [w Hw]. rewrite Hw, (take_S_r _ _ _ Hw), chosen_snoc. f_equal.
    destruct (N.eqb_spec w (Address v)), (decide (Some w = Some (Address v))); congruence. }
  assert (exists w, In w vs0 /\ Address w = Address v /\ VotingPower w = VotingPower v) as (w & Hw & Ea & Ep).
  { clear -Hr Hv. induction Hr as [|x y l l' [p ->] _ IH]; [done|]. destruct Hv as [->|Hv]; [eexists; split_and!; [by left|done..]|].
    destruct (IH Hv) as (w & Hw & ?). exists w. split; [by right|done]. }
  assert (exists vs', turns T vs0 ws vs') as (vs' & Hts).
  { destruct k as [|k]; [destruct ws; [|done]; eexists; constructor|]. destruct (Hws (S k) ltac:(lia)) as (vs' & Hts & _). rewrite <- Hl, firstn_all in Hts. eauto. }
  destruct (turns_priority _ _ _ _ w Hts Hok Hw) as (w' & Hw' & _ & Ew). destruct (turns_invariant _ _ _ Hspan _ _ _ Hts Hok Hbal) as (Hok' & Hbal' & Hr').
  destruct (reprioritised_keys _ _ Hr') as (_ & _ & Hl' & _).
  pose proof (balanced_range _ _ _ _ _ Hspan Hok Hbal Hw) as Hb. pose proof (balanced_range _ _ _ _ _ Hspan Hok' Hbal' Hw') as Hb'.
  rewrite Hchosen by lia. rewrite <- Hl, firstn_all. unfold lag. rewrite Hl', Hl0 in Hb'. rewrite Hl0 in Hb. rewrite Ea, Ep in Ew. unfold len in Ew. destruct Hspan as (? & ? & ?). lia.
Qed.

Lemma turns_selectable T s s' : selectable T s -> reprioritised (Validators s) (Validators s') -> totalVotingPower s' = T ->
  Forall (fun v => - 2 * T <= ProposerPriority v <= 2 * T + slack T (length (Validators s) - 1) 1) (Validators s') ->
  spread (lag T (length (Validators s))) (Validators s') -> selectable T s'.
Proof.
  intros [Hok Hlim Hc Hroom Hi Hsp] Hr HT Hrange Hspread. pose proof (ok_T_pos _ _ Hok). destruct (reprioritised_keys _ _ Hr) as (_ & _ & Hl & _).
  pose proof (slack_nonneg T (length (Validators s) - 1) 1 ltac:(lia) ltac:(lia)). unfold room, lag, spread in *. split.
  - by eapply reprioritised_ok.
  - done.
  - by right.
  - unfold room. by rewrite Hl.
  - eapply Forall_impl; [|exact Hrange]. cbn. unfold is_i64, MinInt64, MaxInt64 in *. lia.
  - intros v w Hv Hw. specialize (Hspread v w Hv Hw). unfold MaxInt64 in *. lia.
Qed.

Lemma IncrementProposerPriority_result T s times : selectable T s -> 0 < times ->
  exists s', IncrementProposerPriority times s = Ok (tt, s') /\ totalVotingPower s' = T /\ validatorsMap s' = validatorsMap s /\ selectable T s' /\
    reprioritised (Validators s) (Validators s') /\
    (exists p, Proposer s' = Some p /\ In p (map Address (Validators s))) /\
    0 <= sumOf ProposerPriority (Validators s') < len (Validators s') /\
    Forall (fun v => - 2 * T <= ProposerPriority v <= 2 * T + slack T (length (Validators s) - 1) 1) (Validators s').
Proof.
  intros Hsel Htimes. destruct (IncrementProposerPriority_turns T s (Z.to_nat times) Hsel) as (L & U & vs0 & ws & Hspan & Hok & Hbal & Hr & Hl & Hws).
  destruct (Hws (Z.to_nat times) ltac:(lia)) as (vs' & Hts & E). rewrite Z2Nat.id in E by lia. rewrite <- Hl, firstn_all in Hts.
  destruct (turns_invariant _ _ _ Hspan _ _ _ Hts Hok Hbal) as (Hok' & Hbal' & Hr'). destruct (reprioritised_keys _ _ Hr) as (Ha & _ & Hl0 & _), (reprioritised_keys _ _ Hr') as (_ & _ & Hl' & _).
  assert (forall v, In v vs' -> L <= ProposerPriority v <= U + slack T (length (Validators s) - 1) 1) as Hrange.
  { intros v Hv. rewrite <- Hl0, <- Hl'. by apply (balanced_range T L U vs'). }
  assert (Forall (fun v => - 2 * T <= ProposerPriority v <= 2 * T + slack T (length (Validators s) - 1) 1) vs') as Hall.
  { apply Forall_forall. intros v Hv. specialize (Hrange v Hv). destruct Hspan as (? & ? & ?). lia. }
  eexists. split; [exact E|]. cbn [Validators Proposer]. split_and!.
  - done.
  - done.
  - eapply turns_selectable; [exact Hsel|by eapply reprioritised_trans|done|exact Hall|].
    intros v w Hv Hw. pose proof (Hrange v Hv). pose proof (Hrange w Hw). destruct Hspan as (? & ? & ?). unfold lag. lia.
  - by eapply reprioritised_trans.
  - destruct (lookup_lt_is_Some_2 ws (pred (Z.to_nat times)) ltac:(lia)) as [p Hp]. exists p. split; [done|].
    pose proof (turns_winner _ _ _ _ Hts) as Hf. rewrite Forall_forall in Hf. rewrite <- Ha. apply Hf. apply list_elem_of_In. by eapply list_elem_of_lookup_2.
  - apply Hbal'.
  - apply Hbal'.
  - exact Hall.
Qed.

(** * Updates *)
Lemma increment_settled T s times : settled T s -> 0 < times ->
  exists s', IncrementProposerPriority times s = Ok (tt, s') /\ settled T s' /\ reprioritised (Validators s) (Validators s') /\
    exists p, Proposer s' = Some p /\ In p (map Address (Validators s)).
Proof.
  intros Hst Htimes. destruct (IncrementProposerPriority_result T s times (settled_selectable _ _ Hst) Htimes) as (s' & E & HT & Hmap & Hsel & Hr & Hp & _ & Hrange).
  exists s'. split_and!; [done| |done|done]. destruct Hst as [Hok Hord Hidx Hnz Hlim Hn _ _]. destruct (reprioritised_keys _ _ Hr) as (Ha & _ & Hl & _). split.
  - apply Hsel.
  - by eapply reprioritised_ordered.
  - unfold indexed in *. rewrite Hmap, Hidx. by apply validatorIndex_addresses.
  - by eapply reprioritised_nonzero.
  - done.
  - unfold len. by rewrite Hl.
  - done.
  - pose proof (ok_T_pos _ _ Hok). pose proof (slack_large T (length (Validators s)) ltac:(lia) Hn). assert (half = 2 ^ 59 - 1) by done.
    eapply Forall_impl; [|exact Hrange]. cbn. lia.
Qed.

(** The powers by address. *)
Definition powerAt (a : address) (vs : list Validator) : option Z := option_map VotingPower (lookupV a vs).

(** The powers that changes ask for. *)
Definition askedPower (a : address) (changes vs : list Validator) : option Z :=
  match powerAt a changes with
  | Some p => if p =? 0 then None else Some p
  | None => powerAt a vs
  end.

Lemma reprioritised_powerAt a vs vs' : reprioritised vs vs' -> powerAt a vs' = powerAt a vs.
Proof. unfold powerAt, lookupV. induction 1 as [|v w vs vs' [p ->] _ IH]; [done|]. cbn. by destruct (N.eqb (Address v) a). Qed.

Lemma changed_powerAt s t changes r a : changed s t changes r -> powerAt a r = askedPower a changes (Validators s).
Proof.
  intros Hr. unfold askedPower, powerAt. rewrite (cg_lookup _ _ _ _ Hr). destruct (lookupV a changes) as [u|]; [|done]. cbn. by destruct (VotingPower u =? 0).
Qed.

(** What a changed list inherits. *)
Lemma changed_settles s t changes r : changed s t changes r -> changes_ok changes -> r <> [] -> sumOf VotingPower r <= half -> len r <= 10000 -> 0 <= t <= half ->
  NoDup (map Address (Validators s)) -> Forall (fun v => Address v <> 0%N) (Validators s) ->
  (forall v, In v (Validators s) -> lookupV (Address v) changes = None -> 0 < VotingPower v) -> Forall (fun v => - 2 * half <= ProposerPriority v <= 12 * half) (Validators s) ->
  exists s', finish (mk_ValidatorSet r (Proposer s) (totalVotingPower s) (validatorIndex r)) = Ok (None, s') /\
    settled (sumOf VotingPower r) s' /\ reprioritised r (Validators s') /\ Proposer s' = Proposer s.
Proof.
  intros Hr Hc Hne HT Hn Ht Hnd Hnz Hpos Hrange. assert (0 <= Z.shiftr t 3 <= t).
  { rewrite Z.shiftr_div_pow2 by lia. change (2 ^ 3) with 8. split; [apply Z.div_pos; lia|apply Z.div_le_upper_bound; lia]. }
  pose proof (ordered_NoDup _ (cg_ordered _ _ _ _ Hr)) as Hndr. pose proof (ch_powers _ Hc) as Hcp. pose proof (ch_nonzero _ Hc) as Hcz. rewrite Forall_forall in Hnz, Hrange, Hcp, Hcz.
  assert (forall v, In v r -> 0 < VotingPower v /\ Address v <> 0%N /\ - 2 * half <= ProposerPriority v <= 12 * half) as Hv.
  { intros v Hin. pose proof (lookupV_In _ _ Hndr Hin) as E. rewrite (cg_lookup _ _ _ _ Hr) in E. destruct (lookupV (Address v) changes) as [u|] eqn:Eu.
    - destruct (Z.eqb_spec (VotingPower u) 0); [done|]. injection E as <-. apply lookupV_Some in Eu as [Hu _]. destruct (Hcp u Hu). split; [cbn; lia|]. split; [exact (Hcz u Hu)|].
      unfold newPriority. cbn. destruct (lookupV (Address u) (Validators s)) as [w|] eqn:Ew; [apply lookupV_Some in Ew as [Hw _]; by apply Hrange|]. lia.
    - apply lookupV_Some in E as [Hs _]. split; [by apply Hpos|]. split; [by apply Hnz|by apply Hrange]. }
  apply (finish_spec (mk_ValidatorSet r (Proposer s) (totalVotingPower s) (validatorIndex r))); cbn [Validators]; try done.
  - split; [done| |done|done]. apply Forall_forall. intros v Hin. by apply Hv.
  - exact (cg_ordered _ _ _ _ Hr).
  - apply Forall_forall. intros v Hin. by apply Hv.
  - apply Forall_forall. intros v Hin. by apply Hv.
Qed.

(** The partial totals of the updates are totals of lists. *)
Lemma added_total_nonneg vs us k : ordered vs -> ordered us -> Forall (fun v => 0 <= VotingPower v) vs -> Forall (fun v => 0 <= VotingPower v) us ->
  0 <= sumOf VotingPower vs + added VotingPower vs (take k us).
Proof.
  intros Hv Hu Hpv Hpu. rewrite <- (mergeUpdates_sum _ (length vs + length (take k us))); [|done|done|by eapply StronglySorted_app_1_l; rewrite take_drop].
  rewrite Forall_forall in Hpv, Hpu. pose proof (sumIf_le (fun _ => true) (fun _ => 0) VotingPower (mergeUpdates (length vs + length (take k us)) vs (take k us))) as Hle.
  rewrite sumIf_const in Hle. unfold sumOf. enough (0 * count (fun _ => true) (mergeUpdates (length vs + length (take k us)) vs (take k us)) <= sumIf (fun _ => true) VotingPower (mergeUpdates (length vs + length (take k us)) vs (take k us))) by lia.
  apply Hle. intros v Hin. apply mergeUpdates_In in Hin as [Hin|Hin]; [by apply Hpv|]. apply Hpu. rewrite <- (take_drop k us). apply in_or_app. by left.
Qed.

(** The size and the total that changes lead to, before removals. *)
Definition modest (s : ValidatorSet) (T : Z) (changes : list Validator) : Prop :=
  T + added VotingPower (Validators s) (updatesOf changes) <= half /\
  len (Validators s) + added (fun _ => 1) (Validators s) (updatesOf changes) - len (removalsOf changes) <= 10000.

Lemma len_pos_nonempty {A} (l : list A) : 0 < len l -> l <> [].
Proof. by destruct l. Qed.

Lemma UpdateWithChangeSet_cases T s changes : settled T s -> changes <> [] -> modest s T changes ->
  (acceptable true s T changes /\ exists s' T', UpdateWithChangeSet changes s = Ok (None, s') /\ settled T' s' /\
     forall a, powerAt a (Validators s') = askedPower a changes (Validators s)) \/
  (~ acceptable true s T changes /\ exists e, UpdateWithChangeSet changes s = Ok (Some e, s)).
Proof.
  intros [Hok Hord Hidx Hnz Hlim Hn HT Hrange] Hne [Hm1 Hm2]. pose proof (ok_powers _ _ Hok) as Hpos. pose proof (ok_T_pos _ _ Hok) as HTp.
  assert (MaxTotalVotingPower = 2 * half + 1) as HM by done. assert (withTotal T s = s) as Es by (destruct s; cbn in *; by subst).
  assert (Forall (fun v => 0 <= VotingPower v <= MaxTotalVotingPower) (Validators s)) as Hpw.
  { apply Forall_forall. intros v Hv. pose proof (power_le_total _ _ _ Hok Hv). assert (half = 2 ^ 59 - 1) by done. lia. }
  destruct (update_cases true s T changes Hidx Hord Hpw) as [(e & s' & E & Hs' & Hacc)|(Hacc & r & Ht & Hr & E)].
  - rewrite Es, <- HT. apply TotalVotingPower_cached. lia.
  - lia.
  - done.
  - intros Hch k. rewrite <- (ok_total _ _ Hok). destruct (processChanges_ok _ Hch) as [_ Ho]. apply added_total_nonneg; [done|by apply ordered_filter|eapply Forall_impl; [|exact Hpos]; cbn; lia|].
    apply Forall_forall. intros u Hu. apply filter_In in Hu as [Hu _]. apply -> sortedChanges_In in Hu. pose proof (ch_powers _ Hch) as Hp. rewrite Forall_forall in Hp. by apply Hp.
  - right. split; [done|]. exists e. unfold UpdateWithChangeSet. rewrite E. do 2 f_equal. destruct Hs' as [-> | ->]; [done|exact Es].
  - left. split; [done|]. cbn zeta in *. pose proof (cg_len _ _ _ _ Hr) as Hlen. pose proof (cg_sum _ _ _ _ Hr) as Hsum. rewrite (ok_total _ _ Hok) in Hsum.
    destruct (changed_settles _ _ _ _ Hr) as (s' & Ef & Hst & Hrp & _); [apply Hacc|apply len_pos_nonempty; rewrite Hlen; apply Hacc|lia|lia|lia|by apply ordered_NoDup|done|rewrite Forall_forall in Hpos; auto|done|].
    rewrite HT in Ef. exists s', (sumOf VotingPower r). split_and!; [by unfold UpdateWithChangeSet; rewrite E|done|].
    intros a. rewrite (reprioritised_powerAt _ _ _ Hrp). by eapply changed_powerAt.
Qed.

Lemma sorted_sum g changes : sumOf g (sortedChanges changes) = sumOf g changes.
Proof.
  assert (forall l l', Permutation l l' -> sumOf g l = sumOf g l') as H; [|apply H, merge_sort_Permutation].
  induction 1; rewrite ?sumOf_cons in *; lia.
Qed.

Lemma all_updates changes : Forall (fun v => 0 < VotingPower v) changes -> updatesOf changes = sortedChanges changes /\ removalsOf changes = [].
Proof.
  intros Hp. unfold updatesOf, removalsOf. assert (forall v, In v (sortedChanges changes) -> 0 < VotingPower v) as Hs.
  { rewrite Forall_forall in Hp. intros v Hv. apply -> sortedChanges_In in Hv. by apply Hp. }
  induction (sortedChanges changes) as [|v l IH]; [done|]. cbn [List.filter]. destruct IH as [-> ->]; [intros w Hw; apply Hs; by right|].
  unfold isUpdate, isRemoval. pose proof (Hs v (in_eq _ _)). by destruct (Z.eqb_spec (VotingPower v) 0); [lia|].
Qed.

Lemma sumOf_take_le g k us : (forall v, In v us -> 0 <= g v) -> sumOf g (take k us) <= sumOf g us.
Proof.
  intros Hg. rewrite <- (take_drop k us) at 2. rewrite sumOf_app. enough (0 <= sumOf g (drop k us)) by lia.
  pose proof (sumIf_le (fun _ => true) (fun _ => 0) g (drop k us)) as Hle. rewrite sumIf_const in Hle. unfold sumOf. apply Z.le_trans with (0 * count (fun _ => true) (drop k us)); [lia|].
  apply Hle. intros v Hv. apply Hg. rewrite <- (take_drop k us). apply in_or_app. by right.
Qed.

Lemma first_update valz : valz <> [] -> NoDup (map Address valz) -> Forall (fun v => Address v <> 0%N) valz -> Forall (fun v => 0 < VotingPower v) valz ->
  sumOf VotingPower valz <= half -> len valz <= 10000 ->
  exists s T, updateWithChangeSet valz false (mk_ValidatorSet [] None 0 ∅) = Ok (None, s) /\ settled T s /\ forall a, powerAt a (Validators s) = powerAt a valz.
Proof.
  intros Hne Hnd Hz Hp Hsum Hlen. set (s0 := mk_ValidatorSet [] None 0 ∅). assert (MaxTotalVotingPower = 2 * half + 1 /\ half = 2 ^ 59 - 1) as [HM Hh] by done.
  destruct (all_updates _ Hp) as [Eu Ed].
  assert (forall v, In v (sortedChanges valz) -> 0 <= VotingPower v) as Hpos.
  { intros v Hv. apply -> sortedChanges_In in Hv. rewrite Forall_forall in Hp. specialize (Hp v Hv). cbn in Hp. lia. }
  assert (changes_ok valz) as Hok.
  { split; [done|done|]. apply Forall_forall. intros v Hv. rewrite Forall_forall in Hp. specialize (Hp v Hv). split; [cbn in *; lia|].
    pose proof (sumIf_sub (also (Address v) (fun _ => false)) VotingPower valz ltac:(intros w Hw; specialize (Hpos w); rewrite sortedChanges_In in Hpos; auto)) as Hle.
    rewrite (sumIf_also _ _ VotingPower valz v), sumIf_none in Hle by done. lia. }
  assert (forall k, sumOf VotingPower (take k (sortedChanges valz)) <= half) as Htake.
  { intros k. pose proof (sumOf_take_le VotingPower k _ Hpos). rewrite sorted_sum in *. lia. }
  assert (sumOf (fun _ => 1) (sortedChanges valz) = len valz) as Hcnt by (rewrite sorted_sum; apply count_all).
  destruct (update_cases false s0 0 valz) as [(e & s' & _ & _ & Hacc)|(Hacc & r & Ht & Hr & E)]; try done; [by constructor|..].
  - intros _ k. cbn [Validators s0]. rewrite added_nil, Eu. pose proof (added_total_nonneg [] (sortedChanges valz) k) as H. rewrite added_nil in H. apply H; [constructor| |done|].
    + by destruct (processChanges_ok _ Hok).
    + apply Forall_forall. exact Hpos.
  - destruct Hacc. split; rewrite ?Eu, ?Ed; cbn [Validators s0]; [done|by right|done| |].
    + intros k. rewrite added_nil. specialize (Htake k). lia.
    + rewrite added_nil, Hcnt. destruct valz; [done|]. unfold len. cbn. lia.
  - cbn zeta in *. rewrite Eu in *. cbn [Validators s0] in *. rewrite added_nil, sorted_sum in *. pose proof (cg_len _ _ _ _ Hr) as Hl. pose proof (cg_sum _ _ _ _ Hr) as Hs.
    rewrite Eu, Ed in Hl. rewrite Eu in Hs. cbn [Validators s0] in Hl, Hs. rewrite added_nil, sorted_sum, Hcnt in Hl. rewrite added_nil, sorted_sum in Hs. change (len (@nil Validator)) with 0 in Hl. change (sumOf VotingPower []) with 0 in Hs.
    destruct (changed_settles _ _ _ _ Hr) as (s' & Ef & Hst & Hrp & _); [done|apply len_pos_nonempty; rewrite Hl; destruct valz; [done|unfold len; cbn; lia]|lia|lia|lia|constructor|done|done|done|].
    cbn [totalVotingPower s0 Proposer] in Ef. exists s', (sumOf VotingPower r). split_and!; [by rewrite E|done|].
    intros a. rewrite (reprioritised_powerAt _ _ _ Hrp). rewrite (changed_powerAt _ _ _ _ a Hr). unfold askedPower. cbn [Validators s0]. unfold powerAt at 2. cbn.
    destruct (powerAt a valz) as [p|] eqn:Ea; [|done]. unfold powerAt in Ea. destruct (lookupV a valz) as [v|] eqn:Ev; [|done]. injection Ea as <-.
    apply lookupV_Some in Ev as [Hv _]. rewrite Forall_forall in Hp. specialize (Hp v Hv). cbn in Hp. destruct (Z.eqb_spec (VotingPower v) 0); [lia|done].
Qed.

(** * Validators in a header *)
Definition wire_ok (v : Validator) : Prop := (Address v < 2 ^ 160)%N /\ 0 <= VotingPower v <= MaxInt64.

Lemma length_PowerBytes v : 0 <= VotingPower v <= MaxInt64 -> length (PowerBytes v) = 20%nat.
Proof.
  intros Hv. unfold PowerBytes. rewrite length_app, length_replicate, length_be_split. pose proof (byteLen_le (Z.abs (VotingPower v)) 8). pose proof (byteLen_nonneg (Z.abs (VotingPower v))).
  unfold MaxInt64 in Hv. lia.
Qed.

Lemma parseEntries_HeaderBytes vs : Forall wire_ok vs ->
  parseEntries (length vs) (concat (map HeaderBytes vs)) = map (fun v => NewValidator (Address v) (VotingPower v)) vs.
Proof.
  induction 1 as [|v vs [Ha Hp] _ IH]; [done|]. cbn [length map concat parseEntries]. set (rest := concat (map HeaderBytes vs)) in *.
  assert (length (addrBytes (Address v)) = 20%nat) as Hla by apply length_be_split. pose proof (length_PowerBytes v Hp) as Hlp.
  assert (take 20 (HeaderBytes v ++ rest) = addrBytes (Address v)) as -> by (unfold HeaderBytes; rewrite <- app_assoc; by rewrite take_app_length').
  assert (take 20 (drop 20 (HeaderBytes v ++ rest)) = PowerBytes v) as -> by (unfold HeaderBytes; rewrite <- app_assoc, drop_app_length' by done; by rewrite take_app_length').
  rewrite drop_app_length' by (unfold HeaderBytes; rewrite length_app; lia).
  rewrite IH. f_equal. f_equal.
  - unfold bytes_to_N, addrBytes. rewrite be_combine_split_small by (split; [lia|apply N2Z.inj_lt in Ha; exact Ha]). apply N2Z.id.
  - unfold PowerBytes. rewrite be_combine_zeros, be_combine_byteLen, Z.abs_eq by lia. apply int64_wrap_id. unfold is_i64, MinInt64. lia.
Qed.
