(* ===== verification/BorSnapshot.v ===== *)
(** Snapshots of the Bor consensus engine (consensus/bor/snapshot.go) and the
    parts of the engine that work on them (consensus/bor/bor.go): the signer of
    a header, the succession of the signers, the difficulty, the delay of a
    producer, the change of validators at the end of a sprint, the search for a
    snapshot and the verification of a seal.

    The configuration methods, the hash of a header, the curve and the caches
    belong to other packages: they are arguments.  A snapshot is written to the
    database as JSON, which keeps the exported fields only. *)
From stdpp Require Import sorting.
From S2P Require Import Prelude Uint256 StateTypes Accounts Transaction Rlp RlpStream RlpReflect TxCodec BlockCodec BorValset.
#[local] Open Scope Z_scope.

Definition extraVanity : Z := 32.

Definition extraSeal : Z := 65.

Definition validatorHeaderBytesLength : Z := 40.

Definition checkpointInterval : Z := 1024.

Inductive BorError :=
| errUnknownBlock | ErrFutureBlock | errMissingVanity | errMissingSignature | errExtraValidators | errInvalidSpanValidators
| errInvalidMixDigest | errInvalidUncleHash | errInvalidDifficulty | invalidGasLimit | errOutOfRangeChain | ErrUnknownAncestor
| UnauthorizedSigner (number : Z) (signer : address) | UnauthorizedProposer (number : Z) (proposer : address)
| BlockTooSoon (number succession : Z) | WrongDifficulty (number expected actual : Z)
| valsetError (err : ValsetError) | recoverError | databaseError | spannerError.

(** chain.BorConfig: numbers of blocks and of seconds by block number. *)
Record BorConfig := mk_BorConfig {
  CalculateSprint : Z -> Z;
  CalculatePeriod : Z -> Z;
  CalculateProducerDelay : Z -> Z;
  CalculateBackupMultiplier : Z -> Z;
  IsJaipur : Z -> bool
}.

Record Snapshot := mk_Snapshot {
  snap_Number : Z;
  snap_Hash : hash;
  snap_Set : ValidatorSet;
  Recents : gmap Z address
}.

Definition set_snapSet (v : ValidatorSet) (s : Snapshot) : Snapshot := mk_Snapshot (snap_Number s) (snap_Hash s) v (Recents s).

Definition set_Recents (r : gmap Z address) (s : Snapshot) : Snapshot := mk_Snapshot (snap_Number s) (snap_Hash s) (snap_Set s) r.

(** A method of the validator set of a snapshot. *)
Definition onSet {A} (m : M ValidatorSet A) : M Snapshot A := fun s =>
  '(a, v) ← m (snap_Set s); Ok (a, set_snapSet v s).

Definition newSnapshot (number : Z) (h : hash) (validators : list Validator) : outcome Snapshot :=
  v ← NewValidatorSet validators; Ok (mk_Snapshot number h v ∅).

Definition snapCopy (s : Snapshot) : Snapshot := mk_Snapshot (snap_Number s) (snap_Hash s) (Copy (snap_Set s)) (Recents s).

(** [json.Unmarshal] of [json.Marshal]: the cached total and the index are not
    exported. *)
Definition jsonCopy (s : Snapshot) : Snapshot :=
  set_snapSet (mk_ValidatorSet (Validators (snap_Set s)) (Proposer (snap_Set s)) 0 ∅) s.

(** loadSnapshot, from the snapshot whose JSON the database has. *)
Definition loadSnapshot (stored : option Snapshot) : outcome (BorError + Snapshot) :=
  match stored with
  | None => Ok (inl databaseError)
  | Some s =>
      '(err, snap) ← onSet UpdateTotalVotingPower (jsonCopy s);
      match err with Some err => Ok (inl (valsetError err)) | None => Ok (inr snap) end
  end.

(** GetProposer().Address; GetProposer is nil without validators. *)
Definition proposerAddress : M Snapshot address :=
  p ← onSet GetProposer; deref p.

(** GetSignerSuccessionNumber. *)
Definition GetSignerSuccessionNumber (signer : address) : M Snapshot (BorError + Z) :=
  validators ← gets (fun s => Validators (snap_Set s));
  proposer ← proposerAddress;
  '(proposerIndex, _) ← onSet (reading (GetByAddress proposer));
  number ← gets snap_Number;
  if proposerIndex =? -1 then mret (inl (UnauthorizedProposer number proposer))
  else
    '(signerIndex, _) ← onSet (reading (GetByAddress signer));
    if signerIndex =? -1 then mret (inl (UnauthorizedSigner number signer))
    else
      let tempIndex := signerIndex in
      let tempIndex := if negb (proposerIndex =? tempIndex) then
                         if tempIndex <? proposerIndex then tempIndex + len validators else tempIndex
                       else tempIndex in
      mret (inr (tempIndex - proposerIndex)).

Definition signers (s : Snapshot) : list address := map Address (Validators (snap_Set s)).

(** Difficulty, a uint64. *)
Definition Difficulty (signer : address) : M Snapshot Z :=
  if N.eqb signer 0 then mret 1
  else
    validators ← gets (fun s => Validators (snap_Set s));
    proposer ← proposerAddress;
    let totalValidators := len validators in
    '(proposerIndex, _) ← onSet (reading (GetByAddress proposer));
    '(signerIndex, _) ← onSet (reading (GetByAddress signer));
    let tempIndex := signerIndex in
    let tempIndex := if tempIndex <? proposerIndex then tempIndex + totalValidators else tempIndex in
    mret (u64 (totalValidators - (tempIndex - proposerIndex))).

(** A remainder of unsigned numbers; division by zero panics. *)
Definition rem64 (a b : Z) : outcome Z := if b =? 0 then Panic else Ok (a mod b).

Definition isSprintStart (number sprint : Z) : outcome bool := r ← rem64 number sprint; Ok (r =? 0).

Definition validateHeaderExtraField (extraBytes : list Byte.byte) : option BorError :=
  if len extraBytes <? extraVanity then Some errMissingVanity
  else if len extraBytes <? extraVanity + extraSeal then Some errMissingSignature
  else None.

Definition CalcProducerDelay (c : BorConfig) (number succession : Z) : outcome Z :=
  r ← rem64 number (CalculateSprint c number);
  let delay := if r =? 0 then CalculateProducerDelay c number else CalculatePeriod c number in
  Ok (if 0 <? succession then u64 (delay + u64 (u64 succession * CalculateBackupMultiplier c number)) else delay).

(** ** The change of validators *)
Definition validatorContains (a : list Validator) (x : Validator) : option Validator :=
  find (fun n => N.eqb (Address n) (Address x)) a.

(** The validators of the set are changed in place: their powers are the new
    ones, or zero, before UpdateWithChangeSet sees the set. *)
Definition withNewPower (newVals : list Validator) (ov : Validator) : Validator :=
  match validatorContains newVals ov with
  | Some f => set_power (VotingPower f) ov
  | None => set_power 0 ov
  end.

(** [for _, nv := range newVals { if !contains(changes, nv) { changes = append(changes, nv) } }]. *)
Fixpoint appendNew (newVals changes : list Validator) : list Validator :=
  match newVals with
  | [] => changes
  | nv :: newVals => appendNew newVals (match validatorContains changes nv with Some _ => changes | None => changes ++ [nv] end)
  end.

(** An error is logged only. *)
Definition getUpdatedValidatorSet (newVals : list Validator) : M ValidatorSet unit :=
  oldVals ← gets Validators;
  let changed := map (withNewPower newVals) oldVals in
  _ ← set_Validators changed;
  _ ← UpdateWithChangeSet (appendNew newVals changed);
  mret tt.

(** ** Headers *)
Section bor.
Context {K C D : Type}.
Context (c : BorConfig) (hashOf : Header K -> hash) (keccak256 : list Byte.byte -> hash) (Ecrecover : hash -> list Byte.byte -> option (list Byte.byte)).
Context (cacheGet : C -> hash -> option address) (cacheAdd : C -> hash -> address -> C).
Context (pooled : encbuf.encbuf).

(** [header.Number.Uint64()]. *)
Definition headerNumber (h : Header K) : outcome Z := n ← or_panic (Number h); Ok (u64 (Z.abs n)).

(** The elements of a [[]interface{}], each with the writer of its type. *)
Definition writeInterfaces (xs : list (ty * value)) : M encbuf.encbuf (option RlpError) :=
  writeSlice false (writeEach (fun x => write x.1 x.2) xs).

Definition sigFields (h : Header K) (unsealed : list Byte.byte) : list (ty * value) :=
  [(TByteArray 32, VByteArray (hashBytes (ParentHash h)));
   (TByteArray 32, VByteArray (hashBytes (UncleHash h)));
   (TByteArray 20, VByteArray (addrBytes (Coinbase h)));
   (TByteArray 32, VByteArray (hashBytes (HRoot h)));
   (TByteArray 32, VByteArray (hashBytes (TxHash h)));
   (TByteArray 32, VByteArray (hashBytes (ReceiptHash h)));
   (TByteArray 256, VByteArray (HBloom h));
   (TBigInt, VBigInt (HDifficulty h));
   (TBigInt, VBigInt (Number h));
   (TUint 64, VUint (GasLimit h));
   (TUint 64, VUint (GasUsed h));
   (TUint 64, VUint (Time h));
   (TBytes, VBytes (Some unsealed));
   (TByteArray 32, VByteArray (hashBytes (MixDigest h)));
   (TByteArray 8, VByteArray (HNonce h))].

(** [rlp.Encode(w, enc)], whose error panics. *)
Definition encodeInterfaces (xs : list (ty * value)) : outcome (list Byte.byte) :=
  '(err, w) ← writeInterfaces xs (encbuf.reset pooled);
  match err with Some _ => Panic | None => encbuf.toWriter w end.

(** What is written for signing. *)
Definition encodeSigHeader (h : Header K) : outcome (list Byte.byte) :=
  unsealed ← slice (Extra h) 0 (len (Extra h) - 65);
  number ← headerNumber h;
  let enc := sigFields h unsealed ++
    (if IsJaipur c number then match BaseFee h with Some b => [(TBigInt, VBigInt (Some b))] | None => [] end else []) in
  encodeInterfaces enc.

Definition SealHash (h : Header K) : outcome hash := bs ← encodeSigHeader h; Ok (keccak256 bs).

(** The low 20 bytes of the hash of the key without its first byte. *)
Definition pubkeyAddress (pubkey : list Byte.byte) : outcome address :=
  match pubkey with [] => Panic | _ :: rest => Ok (keccak256 rest mod 2 ^ 160)%N end.

Definition ecrecover (h : Header K) : M C (BorError + address) := fun sigcache =>
  match cacheGet sigcache (hashOf h) with
  | Some a => Ok (inr a, sigcache)
  | None =>
      if len (Extra h) <? extraSeal then Ok (inl errMissingSignature, sigcache)
      else
        signature ← slice (Extra h) (len (Extra h) - extraSeal) (len (Extra h));
        seal ← SealHash h;
        match Ecrecover seal signature with
        | None => Ok (inl recoverError, sigcache)
        | Some pubkey => signer ← pubkeyAddress pubkey; Ok (inr signer, cacheAdd sigcache (hashOf h) signer)
        end
  end.

(** ** apply *)
Fixpoint contiguous (h : Header K) (headers : list (Header K)) : outcome bool :=
  match headers with
  | [] => Ok true
  | h' :: headers =>
      n' ← headerNumber h'; n ← headerNumber h;
      if negb (n' =? u64 (n + 1)) then Ok false else contiguous h' headers
  end.

(** One turn of the loop, on the new snapshot and the cache. *)
Definition applyHeader (h : Header K) : M (Snapshot * C) (BorError + unit) := fun '(snap, sigcache) =>
  number ← headerNumber h;
  let snap := if CalculateSprint c number <=? number
              then set_Recents (delete (number - CalculateSprint c number) (Recents snap)) snap else snap in
  '(r, sigcache) ← ecrecover h sigcache;
  match r with
  | inl err => Ok (inl err, (snap, sigcache))
  | inr signer =>
      if negb (HasAddress signer (snap_Set snap)) then Ok (inl (UnauthorizedSigner number signer), (snap, sigcache))
      else
        '(r, snap) ← GetSignerSuccessionNumber signer snap;
        match r with
        | inl err => Ok (inl err, (snap, sigcache))
        | inr _ =>
            let snap := set_Recents (<[number := signer]> (Recents snap)) snap in
            sprintEnd ← (if 0 <? number then isSprintStart (u64 (number + 1)) (CalculateSprint c number) else Ok false);
            if sprintEnd : bool then
              match validateHeaderExtraField (Extra h) with
              | Some err => Ok (inl err, (snap, sigcache))
              | None =>
                  validatorBytes ← slice (Extra h) extraVanity (len (Extra h) - extraSeal);
                  let newVals := match ParseValidators validatorBytes with Some vs => vs | None => [] end in
                  '(_, v) ← getUpdatedValidatorSet newVals (Copy (snap_Set snap));
                  '(_, v) ← IncrementProposerPriority 1 v;
                  Ok (inr tt, (set_snapSet v snap, sigcache))
              end
            else Ok (inr tt, (snap, sigcache))
        end
  end.

Fixpoint applyHeaders (headers : list (Header K)) : M (Snapshot * C) (BorError + unit) :=
  match headers with
  | [] => mret (inr tt)
  | h :: headers => r ← applyHeader h; match r with inl err => mret (inl err) | inr _ => applyHeaders headers end
  end.

Definition apply (headers : list (Header K)) (s : Snapshot) : M C (BorError + Snapshot) := fun sigcache =>
  match headers with
  | [] => Ok (inr s, sigcache)
  | h0 :: rest =>
      inOrder ← contiguous h0 rest;
      if negb inOrder then Ok (inl errOutOfRangeChain, sigcache)
      else
        n0 ← headerNumber h0;
        if negb (n0 =? u64 (snap_Number s + 1)) then Ok (inl errOutOfRangeChain, sigcache)
        else
          '(r, (snap, sigcache)) ← applyHeaders headers (snapCopy s, sigcache);
          match r with
          | inl err => Ok (inl err, sigcache)
          | inr _ =>
              Ok (inr (mk_Snapshot (u64 (snap_Number snap + len headers)) (hashOf (List.last headers h0)) (snap_Set snap) (Recents snap)), sigcache)
          end
  end.
End bor.

(** ** The engine *)
(** The caches and the database of the engine. *)
Record Bor (R C D : Type) := mk_Bor { recents : R; signatures : C; DB : D }.
Arguments mk_Bor {R C D}.
Arguments recents {R C D}.
Arguments signatures {R C D}.
Arguments DB {R C D}.

Section engine.
Context {K C R D : Type}.
Context (c : BorConfig) (hashOf : Header K -> hash) (keccak256 : list Byte.byte -> hash) (Ecrecover : hash -> list Byte.byte -> option (list Byte.byte)).
Context (cacheGet : C -> hash -> option address) (cacheAdd : C -> hash -> address -> C) (pooled : encbuf.encbuf).
Context (recentsGet : R -> hash -> option Snapshot) (recentsAdd : R -> hash -> Snapshot -> R).
Context (dbGet : D -> hash -> option Snapshot) (dbPut : D -> hash -> Snapshot -> option D).
Context (GetHeader : hash -> Z -> option (Header K)) (GetHeaderByNumber : Z -> option (Header K)) (GetCurrentValidators : Z -> BorError + list Validator).

(** store; [None] is an error. *)
Definition store (s : Snapshot) : M (Bor R C D) (option BorError) := fun b =>
  match dbPut (DB b) (snap_Hash s) s with
  | Some db => Ok (None, mk_Bor (recents b) (signatures b) db)
  | None => Ok (Some databaseError, b)
  end.

(** What a turn of the search comes to. *)
Inductive search :=
| found (snap : Snapshot)
| failed (err : BorError)
| further (header : Header K) (parents : list (Header K)).

(** The header to move back over: the last of the explicit parents, or one of
    the database. *)
Definition previousHeader (number : Z) (h : hash) (parents : list (Header K)) : outcome search :=
  match parents with
  | [] => match GetHeader h number with None => Ok (failed ErrUnknownAncestor) | Some header => Ok (further header []) end
  | p :: _ =>
      let header := List.last parents p in
      if negb (N.eqb (hashOf header) h) then Ok (failed ErrUnknownAncestor)
      else
        n ← headerNumber header;
        if negb (n =? number) then Ok (failed ErrUnknownAncestor) else Ok (further header (removelast parents))
  end.

Definition searchStep (number : Z) (h : hash) (parents : list (Header K)) : M (Bor R C D) search := fun b =>
  match recentsGet (recents b) h with
  | Some s => Ok (found s, b)
  | None =>
      onDisk ← (if number mod checkpointInterval =? 0 then loadSnapshot (dbGet (DB b) h) else Ok (inl databaseError));
      match onDisk with
      | inr s => Ok (found s, b)
      | inl _ =>
          match (if number =? 0 then GetHeaderByNumber number else None) with
          | Some checkpoint =>
              match GetCurrentValidators (number + 1) with
              | inl err => Ok (failed err, b)
              | inr validators =>
                  snap ← newSnapshot number (hashOf checkpoint) validators;
                  '(err, b) ← store snap b;
                  Ok (match err with Some err => failed err | None => found snap end, b)
              end
          | None => r ← previousHeader number h parents; Ok (r, b)
          end
      end
  end.

(** The loop; the headers passed over, the latest first. *)
Fixpoint searchSnapshot (fuel : nat) (number : Z) (h : hash) (parents headers : list (Header K)) : M (Bor R C D) (BorError + (Snapshot * list (Header K))) :=
  match fuel with
  | O => out_of_fuel
  | S fuel =>
      r ← searchStep number h parents;
      match r with
      | found snap => mret (inr (snap, headers))
      | failed err => mret (inl err)
      | further header parents => searchSnapshot fuel (u64 (number - 1)) (ParentHash header) parents (headers ++ [header])
      end
  end.

Definition snapshot (fuel : nat) (number : Z) (h : hash) (parents : list (Header K)) : M (Bor R C D) (BorError + Snapshot) :=
  r ← searchSnapshot fuel number h parents [];
  match r with
  | inl err => mret (inl err)
  | inr (snap, headers) =>
      r ← (fun b => '(r, sigs) ← apply c hashOf keccak256 Ecrecover cacheGet cacheAdd pooled (rev headers) snap (signatures b);
                    Ok (r, mk_Bor (recents b) sigs (DB b)));
      match r with
      | inl err => mret (inl err)
      | inr snap =>
          _ ← modify (fun b => mk_Bor (recentsAdd (recents b) (snap_Hash snap) snap) (signatures b) (DB b));
          if (snap_Number snap mod checkpointInterval =? 0) && (0 <? len headers) then
            err ← store snap;
            match err with Some err => mret (inl err) | None => mret (inr snap) end
          else mret (inr snap)
      end
  end.

(** The checks of verifySeal on the snapshot. *)
Definition checkSeal (fakeDiff : bool) (header : Header K) (number : Z) (signer : address) (parents : list (Header K)) (snap : Snapshot) : outcome (option BorError) :=
  if negb (HasAddress signer (snap_Set snap)) then Ok (Some (UnauthorizedSigner (number - 1) signer))
  else
    '(r, snap) ← GetSignerSuccessionNumber signer snap;
    match r with
    | inl err => Ok (Some err)
    | inr succession =>
        let parent := match parents with [] => GetHeader (ParentHash header) (number - 1) | p :: _ => Some (List.last parents p) end in
        tooSoon ← (match parent with
                   | None => Ok false
                   | Some parent => delay ← CalcProducerDelay c number succession; Ok (Time header <? u64 (Time parent + delay))
                   end);
        if tooSoon : bool then Ok (Some (BlockTooSoon number succession))
        else if fakeDiff then Ok None
        else
          '(difficulty, _) ← Difficulty signer snap;
          actual ← or_panic (HDifficulty header);
          let actual := u64 (Z.abs actual) in
          Ok (if negb (actual =? difficulty) then Some (WrongDifficulty number difficulty actual) else None)
    end.

Definition verifySeal (fuel : nat) (fakeDiff : bool) (header : Header K) (parents : list (Header K)) : M (Bor R C D) (option BorError) := fun b =>
  number ← headerNumber header;
  if number =? 0 then Ok (Some errUnknownBlock, b)
  else
    '(r, sigs) ← ecrecover c hashOf keccak256 Ecrecover cacheGet cacheAdd pooled header (signatures b);
    let b := mk_Bor (recents b) sigs (DB b) in
    match r with
    | inl err => Ok (Some err, b)
    | inr signer =>
        '(r, b) ← snapshot fuel (number - 1) (ParentHash header) parents b;
        match r with
        | inl err => Ok (Some err, b)
        | inr snap => err ← checkSeal fakeDiff header number signer parents snap; Ok (err, b)
        end
    end.
End engine.
