(* ===== verification/BorSnapshotSpec.v ===== *)
(** Snapshots of Bor ([BorSnapshot]): the succession of the signers, the change
    of validators at the end of a sprint, and the bytes that are signed. *)
From Stdlib Require Import Sorting.Sorted.
From stdpp Require Import sorting.
From S2P Require Import Prelude Uint256 StateTypes Accounts Transaction Rlp RlpStream RlpReflect TxCodec BlockCodec.
From S2P Require Import BorValset BorSnapshot BorSpec BorUpdateSpec BorSettled.
#[local] Open Scope Z_scope.

(** * Succession *)
(** A snapshot to verify signers with: its set is settled, uses at most half of
    the room, and has a proposer. *)
Record good (T : Z) (s : Snapshot) : Prop := {
  good_set : settled T (snap_Set s);
  good_total : 2 * T <= half;
  good_proposer : exists p, Proposer (snap_Set s) = Some p /\ In p (signers s)
}.

(** The place of an address in the order of the validators. *)
Definition place (a : address) (vs : list Validator) : Z :=
  match list_find (fun v => Address v = a) vs with Some (i, _) => Z.of_nat i | None => -1 end.

Lemma GetByAddress_place s a : indexed s -> NoDup (map Address (Validators s)) -> GetByAddress a s = Ok (place a (Validators s), lookupV a (Validators s)).
Proof.
  intros Hi Hnd. unfold GetByAddress, place. rewrite Hi. unfold validatorIndex. rewrite validatorIndex_from by done. rewrite lookupV_list_find.
  destruct (list_find _ _) as [[i v]|] eqn:E; [|by rewrite lookup_empty]. apply list_find_Some in E as (Hv & _ & _). cbn [Nat.add]. by rewrite Hv.
Qed.

Lemma place_In a vs : In a (map Address vs) -> 0 <= place a vs < len vs /\ exists v, vs !! Z.to_nat (place a vs) = Some v /\ Address v = a.
Proof.
  intros Ha. unfold place. destruct (list_find _ vs) as [[i v]|] eqn:E.
  - apply list_find_Some in E as (Hv & Ev & _). pose proof (lookup_lt_Some _ _ _ Hv). unfold len. rewrite Nat2Z.id. split; [lia|eauto].
  - apply list_find_None in E. apply in_map_iff in Ha as (v & Ev & Hv). rewrite Forall_forall in E. by destruct (E v Hv).
Qed.

Lemma place_inj a b vs : In a (map Address vs) -> In b (map Address vs) -> place a vs = place b vs -> a = b.
Proof.
  intros Ha Hb E. destruct (place_In a vs Ha) as (_ & v & Hv & <-), (place_In b vs Hb) as (_ & w & Hw & <-). rewrite E in Hv. congruence.
Qed.

Section succession.
Context (T : Z) (s : Snapshot) (Hs : good T s).

#[local] Lemma snapSet_facts : indexed (snap_Set s) /\ NoDup (map Address (Validators (snap_Set s))) /\ Validators (snap_Set s) <> [].
Proof. destruct Hs as [Hst _ _]. split_and!; [apply Hst|apply ordered_NoDup, Hst|apply (st_ok _ _ Hst)]. Qed.

Lemma HasAddress_signers a : HasAddress a (snap_Set s) = true <-> In a (signers s).
Proof.
  destruct snapSet_facts as (Hi & Hnd & _). unfold HasAddress, signers. rewrite Hi. unfold validatorIndex. rewrite validatorIndex_from by done.
  pose proof (place_In a (Validators (snap_Set s))) as Hp. unfold place in Hp. destruct (list_find _ _) as [[i v]|] eqn:E.
  - split; [|done]. intros _. apply list_find_Some in E as (Hv & <- & _). apply in_map. apply list_elem_of_In. by eapply list_elem_of_lookup_2.
  - rewrite lookup_empty. split; [done|]. intros Ha. apply Hp in Ha as [? _]. lia.
Qed.

Lemma onSet_same {A} (m : M ValidatorSet A) a : m (snap_Set s) = Ok (a, snap_Set s) -> onSet m s = Ok (a, s).
Proof. intros E. unfold onSet. rewrite E. by destruct s. Qed.

Lemma proposerAddress_good p : Proposer (snap_Set s) = Some p -> proposerAddress s = Ok (p, s).
Proof.
  intros Ep. destruct snapSet_facts as (_ & _ & Hne). unfold proposerAddress. rewrite (M_bind_Ok _ _ _ (Some p) s); [done|]. apply onSet_same.
  unfold GetProposer. erewrite M_bind_Ok by reflexivity. destruct (Validators (snap_Set s)) eqn:Ev; [done|].
  erewrite M_bind_Ok by reflexivity. rewrite Ep. erewrite M_bind_Ok by reflexivity. unfold gets. by rewrite Ep.
Qed.

Lemma readPlace a : onSet (reading (GetByAddress a)) s = Ok ((place a (Validators (snap_Set s)), lookupV a (Validators (snap_Set s))), s).
Proof. destruct snapSet_facts as (Hi & Hnd & _). apply onSet_same. unfold reading. by rewrite GetByAddress_place. Qed.

(** How many validators come before a signer, from the proposer on. *)
Definition succession (p a : address) : Z :=
  let i := place a (Validators (snap_Set s)) in
  let j := place p (Validators (snap_Set s)) in
  if i <? j then i + len (Validators (snap_Set s)) - j else i - j.

Lemma GetSignerSuccessionNumber_good p a : Proposer (snap_Set s) = Some p -> In p (signers s) -> In a (signers s) ->
  GetSignerSuccessionNumber a s = Ok (inr (succession p a), s) /\
  (a <> 0%N -> Difficulty a s = Ok (u64 (len (Validators (snap_Set s)) - succession p a), s)).
Proof.
  intros Ep Hp Ha. destruct (place_In _ _ Hp) as [Hpl _], (place_In _ _ Ha) as [Hal _]. split.
  - unfold GetSignerSuccessionNumber. erewrite M_bind_Ok by reflexivity. rewrite (M_bind_Ok _ _ _ _ _ (proposerAddress_good p Ep)), (M_bind_Ok _ _ _ _ _ (readPlace p)).
    erewrite M_bind_Ok by reflexivity. destruct (Z.eqb_spec (place p (Validators (snap_Set s))) (-1)); [lia|]. rewrite (M_bind_Ok _ _ _ _ _ (readPlace a)).
    destruct (Z.eqb_spec (place a (Validators (snap_Set s))) (-1)); [lia|]. unfold mret, M_ret, succession. do 3 f_equal.
    destruct (Z.eqb_spec (place p (Validators (snap_Set s))) (place a (Validators (snap_Set s)))) as [E|]; cbn [negb]; [|by destruct (_ <? _)].
    rewrite E. destruct (Z.ltb_spec (place a (Validators (snap_Set s))) (place a (Validators (snap_Set s)))); lia.
  - intros Hz. unfold Difficulty. rewrite (proj2 (N.eqb_neq a 0) Hz). erewrite M_bind_Ok by reflexivity.
    rewrite (M_bind_Ok _ _ _ _ _ (proposerAddress_good p Ep)), (M_bind_Ok _ _ _ _ _ (readPlace p)), (M_bind_Ok _ _ _ _ _ (readPlace a)).
    unfold mret, M_ret, succession. do 3 f_equal. by destruct (_ <? _).
Qed.

Lemma succession_range p a : In p (signers s) -> In a (signers s) -> 0 <= succession p a < len (Validators (snap_Set s)) /\ (succession p a = 0 <-> a = p).
Proof.
  intros Hp Ha. destruct (place_In _ _ Hp) as [Hpl _], (place_In _ _ Ha) as [Hal _]. unfold succession.
  split; [destruct (Z.ltb_spec (place a (Validators (snap_Set s))) (place p (Validators (snap_Set s)))); lia|]. split.
  - intros E. apply (place_inj _ _ _ Ha Hp). destruct (Z.ltb_spec (place a (Validators (snap_Set s))) (place p (Validators (snap_Set s)))); lia.
  - intros ->. destruct (Z.ltb_spec (place p (Validators (snap_Set s))) (place p (Validators (snap_Set s)))); lia.
Qed.

Lemma succession_inj p a b : In p (signers s) -> In a (signers s) -> In b (signers s) -> succession p a = succession p b -> a = b.
Proof.
  intros Hp Ha Hb E. apply (place_inj _ _ _ Ha Hb). destruct (place_In _ _ Hp) as [Hpl _], (place_In _ _ Ha) as [Hal _], (place_In _ _ Hb) as [Hbl _].
  unfold succession in E. destruct (Z.ltb_spec (place a (Validators (snap_Set s))) (place p (Validators (snap_Set s)))), (Z.ltb_spec (place b (Validators (snap_Set s))) (place p (Validators (snap_Set s)))); lia.
Qed.
End succession.

(** * The change of validators *)
Record newVals_ok (ns : list Validator) : Prop := {
  nv_nonempty : ns <> [];
  nv_nodup : NoDup (map Address ns);
  nv_nonzero : Forall (fun v => Address v <> 0%N) ns;
  nv_powers : Forall (fun v => 0 < VotingPower v) ns;
  nv_size : len ns <= 10000
}.

Definition missing (cs : list Validator) (n : Validator) : bool := match lookupV (Address n) cs with Some _ => false | None => true end.

Lemma lookupV_app a vs ws : lookupV a (vs ++ ws) = match lookupV a vs with Some v => Some v | None => lookupV a ws end.
Proof. unfold lookupV. induction vs as [|v vs IH]; [done|]. cbn. by destruct (N.eqb (Address v) a). Qed.

Lemma appendNew_spec ns cs : NoDup (map Address ns) -> appendNew ns cs = cs ++ List.filter (missing cs) ns.
Proof.
  revert cs. induction ns as [|n ns IH]; intros cs Hnd; cbn [appendNew List.filter]; [by rewrite app_nil_r|]. cbn [map] in Hnd. inversion_clear Hnd as [|? ? Hn Hnd'].
  change (validatorContains cs n) with (lookupV (Address n) cs). unfold missing at 1. destruct (lookupV (Address n) cs) as [v|] eqn:E; [by apply IH|].
  rewrite IH, <- app_assoc by done. cbn [app]. do 2 f_equal. apply filter_ext_in. intros m Hm. unfold missing. rewrite lookupV_app.
  destruct (lookupV (Address m) cs); [done|]. rewrite lookupV_cons_ne; [done|]. intros Em. destruct Hn. rewrite Em. apply list_elem_of_In. by apply in_map.
Qed.

Lemma Address_withNewPower ns v : Address (withNewPower ns v) = Address v.
Proof. unfold withNewPower. by destruct (validatorContains ns v). Qed.

Lemma priority_withNewPower ns v : ProposerPriority (withNewPower ns v) = ProposerPriority v.
Proof. unfold withNewPower. by destruct (validatorContains ns v). Qed.

Lemma power_withNewPower ns v : VotingPower (withNewPower ns v) = default0 VotingPower (lookupV (Address v) ns).
Proof. unfold withNewPower. change (validatorContains ns v) with (lookupV (Address v) ns). by destruct (lookupV (Address v) ns). Qed.

Lemma lookupV_withNewPower a ns vs : lookupV a (map (withNewPower ns) vs) = option_map (withNewPower ns) (lookupV a vs).
Proof. unfold lookupV. induction vs as [|v vs IH]; [done|]. cbn. rewrite Address_withNewPower. by destruct (N.eqb (Address v) a). Qed.

Lemma ordered_withNewPower ns vs : ordered vs -> ordered (map (withNewPower ns) vs).
Proof.
  induction 1 as [|v vs _ IH Hv]; constructor; [done|]. apply Forall_map. eapply Forall_impl; [|exact Hv]. intros w Hw. unfold before in *. by rewrite !Address_withNewPower.
Qed.

Lemma added_sumOf g es us : added g es us = sumOf (fun u => g u - default0 g (lookupV (Address u) es)) us.
Proof. induction us as [|u us IH]; [done|]. cbn [added]. by rewrite IH, sumOf_cons. Qed.

Lemma sumOf_nonneg g vs : (forall v, In v vs -> 0 <= g v) -> 0 <= sumOf g vs.
Proof.
  induction vs as [|v vs IH]; intros Hg; [done|]. rewrite sumOf_cons. pose proof (Hg v (in_eq _ _)). specialize (IH (fun w Hw => Hg w (in_cons _ _ _ Hw))). lia.
Qed.

Lemma sumOf_filter_le g f vs : (forall v, In v vs -> 0 <= g v) -> sumOf g (List.filter f vs) <= sumOf g vs.
Proof.
  induction vs as [|v vs IH]; intros Hg; [done|]. cbn [List.filter]. pose proof (Hg v (in_eq _ _)). specialize (IH (fun w Hw => Hg w (in_cons _ _ _ Hw))).
  destruct (f v); rewrite ?sumOf_cons; lia.
Qed.

(** Validators that are all found among others sum up to less. *)
Lemma sumOf_among g vs ws : NoDup (map Address vs) -> NoDup (map Address ws) -> (forall w, In w ws -> 0 <= g w) ->
  (forall v, In v vs -> exists w, In w ws /\ Address w = Address v /\ g w = g v) -> sumOf g vs <= sumOf g ws.
Proof.
  intros Hv Hw Hg Hin. enough (exists f, (forall a, f a = true -> In a (map Address vs)) /\ sumIf f g ws = sumOf g vs) as (f & _ & <-) by (by apply sumIf_sub).
  induction vs as [|v vs IH]; [exists (fun _ => false); split; [done|apply sumIf_none]|]. cbn [map] in Hv. inversion_clear Hv as [|? ? Hn Hv'].
  destruct IH as (f & Hf & E); [done|intros x Hx; apply Hin; by right|]. destruct (Hin v (in_eq _ _)) as (w & Hww & Ea & Eg). exists (also (Address v) f). split.
  - intros a Ha. unfold also in Ha. apply orb_true_iff in Ha as [Ha|Ha]; [right; by apply Hf|left]. by apply N.eqb_eq in Ha.
  - rewrite (sumIf_also _ _ _ _ w), E, sumOf_cons, Eg; [lia|done|done|done|]. destruct (f (Address v)) eqn:Ef; [|done]. destruct Hn. apply list_elem_of_In. by apply Hf.
Qed.

Lemma NoDup_filter_Address f vs : NoDup (map Address vs) -> NoDup (map Address (List.filter f vs)).
Proof.
  induction vs as [|v vs IH]; [done|]. cbn [map]. intros Hnd. inversion_clear Hnd as [|? ? Hn Hnd']. cbn [List.filter]. destruct (f v); [|by apply IH].
  cbn [map]. constructor; [|by apply IH]. intros Ha. apply list_elem_of_In, in_map_iff in Ha as (m & E & Hm). apply filter_In in Hm as [Hm _].
  destruct Hn. rewrite <- E. apply list_elem_of_In. by apply in_map.
Qed.

Lemma nonempty_In {A} (l : list A) : l <> [] -> exists x, In x l.
Proof. destruct l as [|x l]; [done|]. exists x. apply in_eq. Qed.

Section change.
Context (T : Z) (s : ValidatorSet) (ns : list Validator) (Hs : settled T s) (Hns : newVals_ok ns) (Hsum : T + sumOf VotingPower ns <= half).

#[local] Definition old : list Validator := map (withNewPower ns) (Validators s).

#[local] Definition asked : list Validator := appendNew ns old.

#[local] Lemma power_bounds n : In n ns -> 0 < VotingPower n <= sumOf VotingPower ns.
Proof.
  intros Hn. pose proof (nv_powers _ Hns) as Hp. rewrite Forall_forall in Hp. split; [by apply Hp|].
  pose proof (sumIf_sub (also (Address n) (fun _ => false)) VotingPower ns) as Hle. rewrite (sumIf_also _ _ VotingPower ns n), sumIf_none in Hle; [|apply Hns|done..].
  apply Hle. intros w Hw. specialize (Hp w Hw). cbn in Hp. lia.
Qed.

#[local] Lemma old_power v : In v old -> 0 <= VotingPower v <= sumOf VotingPower ns.
Proof.
  intros Hv. apply in_map_iff in Hv as (w & <- & Hw). rewrite power_withNewPower. destruct (lookupV (Address w) ns) as [n|] eqn:E.
  - apply lookupV_Some in E as [Hn _]. pose proof (power_bounds n Hn). cbn. lia.
  - cbn. split; [done|]. apply sumOf_nonneg. intros v Hv. pose proof (power_bounds v Hv). lia.
Qed.

#[local] Lemma old_ordered : ordered old.
Proof. apply ordered_withNewPower, Hs. Qed.

#[local] Lemma asked_eq : asked = old ++ List.filter (missing old) ns.
Proof. apply appendNew_spec, Hns. Qed.

#[local] Lemma asked_In v : In v asked -> In v old \/ (In v ns /\ lookupV (Address v) old = None).
Proof.
  rewrite asked_eq. intros Hv. apply in_app_or in Hv as [Hv|Hv]; [by left|right]. apply filter_In in Hv as [Hv Hm]. split; [done|]. unfold missing in Hm. by destruct (lookupV (Address v) old).
Qed.

#[local] Lemma asked_lookup a : lookupV a asked = match lookupV a old with Some v => Some v | None => lookupV a ns end.
Proof.
  rewrite asked_eq, lookupV_app. destruct (lookupV a old) as [v|] eqn:E; [done|]. rewrite lookupV_filter by apply Hns.
  destruct (lookupV a ns) as [n|] eqn:En; [|done]. apply lookupV_Some in En as [_ <-]. unfold missing. by rewrite E.
Qed.

#[local] Lemma asked_ok : changes_ok asked.
Proof.
  split.
  - rewrite asked_eq, map_app. apply list.NoDup_app. split_and!.
    + apply ordered_NoDup, old_ordered.
    + intros a Ha Hb. apply list_elem_of_In, in_map_iff in Hb as (n & <- & Hn). apply filter_In in Hn as [_ Hm]. unfold missing in Hm.
      destruct (lookupV (Address n) old) eqn:E; [done|]. apply lookupV_None in E. destruct E. by apply list_elem_of_In.
    + apply NoDup_filter_Address, Hns.
  - apply Forall_forall. intros v Hv. pose proof (st_nonzero _ _ Hs) as Hz. pose proof (nv_nonzero _ Hns) as Hz'. rewrite Forall_forall in Hz, Hz'. apply asked_In in Hv as [Hv|[Hv _]]; [|by apply Hz'].
    apply in_map_iff in Hv as (w & <- & Hw). rewrite Address_withNewPower. by apply Hz.
  - apply Forall_forall. intros v Hv. assert (MaxTotalVotingPower = 2 * half + 1 /\ half = 2 ^ 59 - 1) as [? ?] by done. pose proof (ok_T_pos _ _ (st_ok _ _ Hs)). unfold change_ok.
    apply asked_In in Hv as [Hv|[Hv _]]; [pose proof (old_power v Hv)|pose proof (power_bounds v Hv)]; lia.
Qed.

(** What a change adds to the total that is cached: the powers of the new
    validators, since the old ones have their new powers already. *)
#[local] Definition delta (u : Validator) : Z := VotingPower u - default0 VotingPower (lookupV (Address u) old).

#[local] Lemma delta_asked u : In u asked -> 0 <= delta u /\ (In u old -> delta u = 0).
Proof.
  intros Hu. assert (In u old -> delta u = 0) as H0.
  { intros Ho. unfold delta. rewrite lookupV_In; [cbn; lia|apply ordered_NoDup, old_ordered|done]. }
  split; [|done]. apply asked_In in Hu as [Hu|[Hu E]]; [rewrite H0 by done; lia|]. unfold delta. rewrite E. pose proof (power_bounds u Hu). cbn. lia.
Qed.

#[local] Lemma added_asked k : 0 <= added VotingPower old (take k (updatesOf asked)) <= sumOf VotingPower ns.
Proof.
  rewrite added_sumOf. fold delta. change (fun u => VotingPower u - default0 VotingPower (lookupV (Address u) old)) with delta.
  assert (forall u, In u (updatesOf asked) -> 0 <= delta u) as Hd.
  { intros u Hu. apply filter_In in Hu as [Hu _]. apply -> sortedChanges_In in Hu. by apply delta_asked. }
  split; [apply sumOf_nonneg; intros u Hu; apply Hd; rewrite <- (take_drop k (updatesOf asked)); apply in_or_app; by left|].
  etransitivity; [by apply sumOf_take_le|]. unfold updatesOf. etransitivity; [apply sumOf_filter_le; intros u Hu; apply -> sortedChanges_In in Hu; by apply delta_asked|].
  rewrite sorted_sum, asked_eq, sumOf_app. assert (sumOf delta old = 0) as ->.
  { unfold sumOf. rewrite (sumIf_ext _ delta (fun _ => 0)); [by rewrite sumIf_const|]. intros u Hu. apply delta_asked; [|done]. rewrite asked_eq. apply in_or_app. by left. }
  etransitivity; [|apply (sumOf_filter_le VotingPower (missing old)); intros v Hv; pose proof (power_bounds v Hv); lia].
  unfold sumOf. cbn [Z.add]. apply sumIf_le. intros v Hv. apply filter_In in Hv as [_ Hm]. unfold delta, missing in *. destruct (lookupV (Address v) old); [done|]. cbn. lia.
Qed.

#[local] Lemma asked_power a : askedPower a asked old = powerAt a ns.
Proof.
  unfold askedPower, powerAt. rewrite asked_lookup. rewrite (lookupV_withNewPower a ns (Validators s) : lookupV a old = _). destruct (lookupV a (Validators s)) as [v|] eqn:Ev; cbn [option_map].
  - rewrite power_withNewPower. apply lookupV_Some in Ev as [_ <-]. destruct (lookupV (Address v) ns) as [n|] eqn:En; [|done].
    apply lookupV_Some in En as [Hn _]. pose proof (power_bounds n Hn). cbn. destruct (Z.eqb_spec (VotingPower n) 0); [lia|done].
  - destruct (lookupV a ns) as [n|] eqn:En; [|done]. apply lookupV_Some in En as [Hn _]. pose proof (power_bounds n Hn). cbn. destruct (Z.eqb_spec (VotingPower n) 0); [lia|done].
Qed.

#[local] Lemma removals_known : Forall (fun d => In (Address d) (map Address old)) (removalsOf asked).
Proof.
  apply Forall_forall. intros d Hd. apply filter_In in Hd as [Hd Hz]. apply -> sortedChanges_In in Hd. apply asked_In in Hd as [Hd|[Hd _]]; [by apply in_map|].
  pose proof (power_bounds d Hd). unfold isRemoval in Hz. lia.
Qed.

#[local] Definition sOld : ValidatorSet := withVals old s.

#[local] Lemma changed_facts t r : changed sOld t asked r -> r <> [] /\ sumOf VotingPower r <= sumOf VotingPower ns /\ len r <= len ns.
Proof.
  intros Hr. pose proof (fun a => changed_powerAt _ _ _ _ a Hr) as Hp. cbn [Validators withVals sOld] in Hp. pose proof (ordered_NoDup _ (cg_ordered _ _ _ _ Hr)) as Hnd.
  assert (forall v, In v r -> exists w, In w ns /\ Address w = Address v /\ VotingPower w = VotingPower v) as Hin.
  { intros v Hv. specialize (Hp (Address v)). unfold sOld in Hp. cbn [Validators withVals] in Hp. rewrite asked_power in Hp. unfold powerAt in Hp. rewrite lookupV_In in Hp by done.
    destruct (lookupV (Address v) ns) as [w|] eqn:E; [|done]. apply lookupV_Some in E as [? ?]. exists w. cbn in Hp. split_and!; [done..|congruence]. }
  split_and!.
  - intros ->. destruct (nonempty_In ns (nv_nonempty _ Hns)) as [n Hn].
    specialize (Hp (Address n)). unfold sOld in Hp. cbn [Validators withVals] in Hp. rewrite asked_power in Hp. unfold powerAt in Hp. by rewrite (lookupV_In ns n) in Hp by (done || apply Hns).
  - apply sumOf_among; [done|apply Hns|intros w Hw; pose proof (power_bounds w Hw); lia|done].
  - rewrite <- !count_all. apply (sumOf_among (fun _ => 1)); [done|apply Hns|done|]. intros v Hv. destruct (Hin v Hv) as (w & ? & ? & _). eauto.
Qed.

Lemma getUpdatedValidatorSet_run : exists s' T', getUpdatedValidatorSet ns s = Ok (tt, s') /\ settled T' s' /\ T' <= sumOf VotingPower ns /\
  (forall a, powerAt a (Validators s') = powerAt a ns) /\ Proposer s' = Proposer s.
Proof.
  pose proof Hs as [Hok Hord Hidx Hnz Hlim Hn HT Hrange]. pose proof (ok_T_pos _ _ Hok) as HTp. assert (MaxTotalVotingPower = 2 * half + 1 /\ half = 2 ^ 59 - 1) as [HM Hh] by done.
  assert (indexed sOld) as Hidx'.
  { unfold indexed, sOld in *. cbn. rewrite Hidx. apply validatorIndex_addresses. unfold old. rewrite map_map. apply map_ext. intros v. by rewrite Address_withNewPower. }
  assert (Forall (fun v => 0 <= VotingPower v <= MaxTotalVotingPower) (Validators sOld)) as Hpw.
  { apply Forall_forall. intros v Hv. pose proof (old_power v Hv). lia. }
  assert (forall t, 0 <= t <= half -> forall r, changed sOld t asked r -> 0 < len r /\ exists s', finish (mk_ValidatorSet r (Proposer s) T (validatorIndex r)) = Ok (None, s') /\
    settled (sumOf VotingPower r) s' /\ reprioritised r (Validators s') /\ Proposer s' = Proposer s) as Hfin.
  { intros t Ht r Hr. destruct (changed_facts t r Hr) as (Hne & Hsr & Hlr). split; [destruct r; [done|unfold len; cbn; lia]|]. pose proof (nv_size _ Hns).
    rewrite <- HT. apply (changed_settles sOld t asked r Hr asked_ok Hne); [lia|lia|done|apply ordered_NoDup, old_ordered| | |].
    - apply Forall_forall. intros v Hv. apply in_map_iff in Hv as (w & <- & Hw). rewrite Address_withNewPower. rewrite Forall_forall in Hnz. by apply Hnz.
    - intros v Hv E. rewrite asked_lookup in E. by rewrite (lookupV_In old v (ordered_NoDup _ old_ordered) Hv) in E.
    - apply Forall_forall. intros v Hv. apply in_map_iff in Hv as (w & <- & Hw). rewrite priority_withNewPower. rewrite Forall_forall in Hrange. by apply Hrange. }
  pose proof (added_asked (length (updatesOf asked))) as Hadd. rewrite firstn_all in Hadd.
  destruct (update_cases true sOld T asked Hidx' old_ordered Hpw) as [(e & s' & _ & _ & Hacc) | (_ & r & Ht & Hr & E)].
  - rewrite (TotalVotingPower_cached sOld) by (cbn; lia). unfold withTotal, sOld, withVals. cbn. by rewrite HT.
  - lia.
  - rewrite asked_eq. destruct (Validators s) eqn:Ev; [by destruct (ok_nonempty _ _ Hok)|]. unfold old. by rewrite Ev.
  - intros _ k. pose proof (added_asked k). cbn [Validators sOld withVals]. lia.
  - destruct Hacc. split; [apply asked_ok|by left|apply removals_known| |].
    + intros k. pose proof (added_asked k). cbn [Validators sOld withVals]. lia.
    + destruct (changed_intro sOld 0 asked old_ordered asked_ok) as (r & _ & Hr); [eapply Forall_impl; [|exact Hpw]; cbn; lia|apply removals_known|].
      rewrite <- (cg_len _ _ _ _ Hr). apply (Hfin 0); [lia|done].
  - cbn zeta in Ht, Hr. cbn [Validators sOld withVals] in Ht, Hr. destruct (Hfin (T + added VotingPower old (updatesOf asked)) ltac:(lia) r Hr) as (_ & s' & Ef & Hst & Hrp & Hprop). exists s', (sumOf VotingPower r). split_and!.
    + unfold getUpdatedValidatorSet. erewrite M_bind_Ok by reflexivity. fold old. erewrite M_bind_Ok by reflexivity. change (mk_ValidatorSet old (Proposer s) (totalVotingPower s) (validatorsMap s)) with sOld.
      fold asked. unfold UpdateWithChangeSet. erewrite M_bind_Ok; [reflexivity|]. rewrite E. exact Ef.
    + done.
    + by apply (changed_facts _ _ Hr).
    + intros a. rewrite (reprioritised_powerAt _ _ _ Hrp). rewrite (changed_powerAt _ _ _ _ a Hr). apply asked_power.
    + done.
Qed.
End change.
