(* ===== verification/BorApplySpec.v ===== *)
(** What a signer of Bor signs, and headers applied to a snapshot
    ([BorSnapshot]): the bytes that encodeSigHeader writes, that they determine
    the fields they are made of, the recovery of the signer through the cache;
    which headers [apply] accepts, and what the snapshot is afterwards. *)
From stdpp Require Import sorting.
From S2P Require Import Prelude Uint256 StateTypes Accounts AccountSpec Transaction Rlp RlpStream RlpSpec StreamSpec StreamSafe TxCodec TxCodecSpec.
From S2P Require Import BlockCodec BlockCodecSpec RlpReflect RlpReflectSpec RlpTheorems BorValset BorSnapshot BorSpec BorUpdateSpec BorSettled BorSnapshotSpec.
#[local] Open Scope Z_scope.

(** * Values in a row *)
Definition rlpRow (xs : list (ty * value)) : list Byte.byte := concat (map (fun x => rlp x.1 x.2) xs).

Lemma writeInterfaces_spec pooled xs : len (encbuf.sizebuf pooled) = 9 -> Forall (fun x => fits x.1 x.2) xs -> len (rlpLst (rlpRow xs)) < 2 ^ 64 ->
  exists w, writeInterfaces xs (encbuf.reset pooled) = Ok (None, w) /\ encbuf.toWriter w = Ok (rlpLst (rlpRow xs)).
Proof.
  intros Hp Hf Hl. pose proof (len_lt_rlpLst (rlpRow xs)) as Hlt. rewrite Forall_forall in Hf.
  assert (writes (writeEach (fun x => write x.1 x.2) xs) (rlpRow xs)) as Hw.
  { apply writes_each. intros x Hx. apply write_spec; [by apply Hf|]. pose proof (len_concat_In (fun x => rlp x.1 x.2) x xs Hx). unfold rlpRow in *. lia. }
  destruct (proj1 (writes_list _ _ Hw ltac:(lia))) as (ts & Ha & <- & Hok). destruct (Ha _ _ _ (repr_reset pooled Hp)) as (w & E & Hr).
  exists w. split; [exact E|]. by apply (toWriter_spec _ _ _ Hok Hr).
Qed.

(** A value is determined by its encoding, and what follows is left. *)
Lemma rlp_prefix t v v' b b' : typed t v -> typed t v' -> len (rlp t v ++ b) < 2 ^ 47 -> rlp t v ++ b = rlp t v' ++ b' -> v = v' /\ b = b'.
Proof.
  intros Hv Hv' Hl E. assert (v = v') as <-; [|by apply app_inv_head in E].
  pose proof (at_Reset (rlp t v ++ b) (len (rlp t v ++ b)) (NewStream true [] 0) Hl (or_introl eq_refl)) as Hat.
  destruct (runs_makeDecoder t v b [] Hv _ Hat) as (s1 & E1 & _). rewrite E in Hat at 1. destruct (runs_makeDecoder t v' b' [] Hv' _ Hat) as (s2 & E2 & _).
  rewrite E1 in E2. by injection E2.
Qed.

Lemma rlpRow_prefix xs ys b b' : map fst xs = map fst ys -> Forall (fun x => typed x.1 x.2) xs -> Forall (fun x => typed x.1 x.2) ys ->
  len (rlpRow xs ++ b) < 2 ^ 47 -> rlpRow xs ++ b = rlpRow ys ++ b' -> xs = ys /\ b = b'.
Proof.
  intros Ht Hx. revert ys Ht. induction Hx as [|[t v] xs Hv _ IH]; intros [|[t' v'] ys] Ht Hy Hl E; try done. cbn in Ht. injection Ht as <- Ht. inversion_clear Hy as [|? ? Hv' Hys].
  unfold rlpRow in *. cbn [map concat fst snd] in *. rewrite <- !app_assoc in *. apply rlp_prefix in E as [<- E]; [|done|done|done].
  apply IH in E as [<- <-]; [done..|]. rewrite len_app in Hl. pose proof (len_nonneg (rlp t v)). lia.
Qed.

Lemma rlpLst_injective c d : len (rlpLst c) < 2 ^ 47 -> rlpLst c = rlpLst d -> c = d.
Proof.
  intros Hl E. pose proof (at_Reset (rlpLst c) (len (rlpLst c)) (NewStream true [] 0) Hl (or_introl eq_refl)) as Hat. rewrite <- (app_nil_r (rlpLst c)) in Hat at 1.
  destruct (runs_List c [] [] _ Hat) as (s1 & E1 & _). rewrite app_nil_r, E, <- (app_nil_r (rlpLst d)) in Hat at 1. destruct (runs_List d [] [] _ Hat) as (s2 & E2 & _).
  rewrite E1 in E2. injection E2 as Hlen _. unfold rlpLst in E. unfold len in Hlen. apply app_inj_2 in E as [_ E]; [done|lia].
Qed.

(** * The signed bytes *)
Section seal.
Context {K C : Type} (c : BorConfig).

(** Headers whose fields have the widths of their types, with a seal. *)
Record signable (h : Header K) : Prop := {
  sg_bloom : len (HBloom h) = 256;
  sg_difficulty : word_ok (HDifficulty h);
  sg_number : exists n, Number h = Some n /\ is_u64 n;
  sg_gasLimit : is_u64 (GasLimit h);
  sg_gasUsed : is_u64 (GasUsed h);
  sg_time : is_u64 (Time h);
  sg_extra : 65 <= len (Extra h) < 2 ^ 32;
  sg_nonce : len (HNonce h) = 8;
  sg_fee : match BaseFee h with Some f => 0 <= f < 2 ^ 256 | None => True end
}.

(** The extra data without the seal, and the base fee where it is signed. *)
Definition unsealed (h : Header K) : list Byte.byte := take (Z.to_nat (len (Extra h) - 65)) (Extra h).

Definition blockNumber (h : Header K) : Z := match Number h with Some n => n | None => 0 end.

Definition signedFee (h : Header K) : option Z := if IsJaipur c (blockNumber h) then BaseFee h else None.

Definition sigRow (h : Header K) : list (ty * value) :=
  sigFields h (unsealed h) ++ match signedFee h with Some f => [(TBigInt, VBigInt (Some f))] | None => [] end.

Lemma headerNumber_signable h : signable h -> headerNumber h = Ok (blockNumber h).
Proof.
  intros Hs. destruct (sg_number _ Hs) as (n & E & Hn). unfold headerNumber, blockNumber. rewrite E. cbn. unfold is_u64 in Hn. rewrite Z.abs_eq, u64_small by (unfold is_u64; lia). done.
Qed.

Lemma typed_array n b : length b = n -> n <> 1%nat -> typed (TByteArray n) (VByteArray b).
Proof. intros Hl Hn. split; [done|]. intros ->. by destruct Hn. Qed.

Lemma typed_uint64 i : is_u64 i -> typed (TUint 64) (VUint i).
Proof. intros Hi. split; [do 3 right; by left|exact Hi]. Qed.

Lemma typed_word i : word_ok i -> typed TBigInt (VBigInt i).
Proof. destruct i as [i|]; [|done]. intros Hi. apply Hi. Qed.

Lemma sigRow_typed h : signable h -> Forall (fun x => typed x.1 x.2) (sigRow h).
Proof.
  intros [Hb Hd (n & En & Hn) Hg Hu Ht He Hnc Hf]. unfold len in Hb, Hnc. unfold sigRow. apply Forall_app. split.
  - unfold sigFields. do 2 (constructor; [by apply typed_array; [apply length_hashBytes|]|]). constructor; [by apply typed_array; [apply length_be_split|]|].
    do 3 (constructor; [by apply typed_array; [apply length_hashBytes|]|]). constructor; [apply typed_array; [lia|done]|]. constructor; [by apply typed_word|].
    constructor; [rewrite En; apply Hn|]. do 3 (constructor; [by apply typed_uint64|]). constructor; [done|]. constructor; [by apply typed_array; [apply length_hashBytes|]|].
    constructor; [apply typed_array; [lia|done]|]. constructor.
  - unfold signedFee. destruct (IsJaipur c (blockNumber h)); [|constructor]. destruct (BaseFee h) as [f|]; constructor; [apply Hf|constructor].
Qed.

(** No field is longer than the extra data may be. *)
Lemma len_rlpStr_small b : len b <= 2 ^ 32 -> len (rlpStr b) <= 2 ^ 33.
Proof.
  intros Hb. pose proof (len_nonneg b). rewrite len_rlpStr. destruct (single b); [lia|]. unfold headsize, intsize. destruct (len b <? 56); [lia|].
  pose proof (byteLen_le (len b) 8 ltac:(lia) ltac:(lia)). lia.
Qed.

Lemma len_numBytes_word i : 0 <= i < 2 ^ 256 -> len (numBytes i) <= 32.
Proof.
  intros Hi. unfold len, numBytes. rewrite length_be_split. pose proof (byteLen_le i 32 Hi ltac:(lia)). pose proof (byteLen_nonneg i). lia.
Qed.

Lemma len_rlpRow_le B xs : Forall (fun x => len (rlp x.1 x.2) <= B) xs -> len (rlpRow xs) <= B * len xs.
Proof.
  unfold rlpRow. induction 1 as [|x xs Hx _ IH]; cbn [map concat]; [unfold len; cbn; lia|]. rewrite len_app, len_cons. lia.
Qed.

Lemma sigRow_small h : signable h -> len (rlpLst (rlpRow (sigRow h))) < 2 ^ 47.
Proof.
  intros Hs. enough (len (rlpRow (sigRow h)) <= 2 ^ 33 * 16) as Hr.
  { pose proof (len_nonneg (rlpRow (sigRow h))). rewrite len_rlpLst. unfold headsize, intsize. case_match; [lia|]. pose proof (byteLen_le (len (rlpRow (sigRow h))) 8 ltac:(lia) ltac:(lia)). lia. }
  assert (len (sigRow h) <= 16) as Hl by (unfold sigRow; rewrite len_app; unfold len, sigFields; cbn [length]; destruct (signedFee h); cbn; lia).
  enough (Forall (fun x => len (rlp x.1 x.2) <= 2 ^ 33) (sigRow h)) as Hf by (pose proof (len_rlpRow_le _ _ Hf); lia).
  assert (forall b, len b <= 2 ^ 32 -> len (rlpStr b) <= 2 ^ 33) as Hstr by apply len_rlpStr_small.
  assert (forall i, 0 <= i < 2 ^ 256 -> len (rlpStr (numBytes i)) <= 2 ^ 33) as Hnum by (intros i Hi; apply Hstr; pose proof (len_numBytes_word i Hi); lia).
  assert (forall i, is_u64 i -> len (rlpNumber i) <= 2 ^ 33) as Hint by (intros i Hi; unfold is_u64 in Hi; rewrite rlpNumber_str by lia; apply Hnum; lia).
  destruct Hs as [Hb Hd (n & En & Hn) Hg Hu Ht He Hnc Hf]. unfold sigRow. apply Forall_app. split.
  - unfold sigFields. do 2 (constructor; [by apply Hstr; rewrite len_hashBytes|]). constructor; [by apply Hstr; rewrite len_addrBytes|].
    do 3 (constructor; [by apply Hstr; rewrite len_hashBytes|]). constructor; [apply Hstr; by rewrite Hb|]. constructor; [destruct (HDifficulty h); [by apply Hnum|done]|].
    constructor; [rewrite En; apply Hnum; unfold is_u64 in Hn; lia|]. do 3 (constructor; [by apply Hint|]).
    constructor; [apply Hstr; cbn; unfold unsealed, len in *; rewrite length_take; lia|]. constructor; [by apply Hstr; rewrite len_hashBytes|].
    constructor; [apply Hstr; by rewrite Hnc|]. constructor.
  - unfold signedFee. destruct (IsJaipur c (blockNumber h)); [|constructor]. destruct (BaseFee h) as [f|]; constructor; [by apply Hnum|constructor].
Qed.

Context (hashOf : Header K -> hash) (keccak256 : list Byte.byte -> hash) (Ecrecover : hash -> list Byte.byte -> option (list Byte.byte)).
Context (pooled : encbuf.encbuf) (Hpooled : len (encbuf.sizebuf pooled) = 9).

Lemma slice_unsealed h : signable h -> slice (Extra h) 0 (len (Extra h) - 65) = Ok (unsealed h).
Proof.
  intros Hs. destruct (sg_extra _ Hs) as [He _]. unfold slice, unsealed. destruct (Z.leb_spec 0 0), (Z.leb_spec 0 (len (Extra h) - 65)), (Z.leb_spec (len (Extra h) - 65) (len (Extra h))); try lia.
  cbn [andb]. by rewrite Z.sub_0_r.
Qed.

Lemma sigRow_eq h : sigFields h (unsealed h) ++ (if IsJaipur c (blockNumber h) then match BaseFee h with Some b => [(TBigInt, VBigInt (Some b))] | None => [] end else []) = sigRow h.
Proof. unfold sigRow, signedFee. by destruct (IsJaipur c (blockNumber h)). Qed.

Lemma encodeInterfaces_spec xs : Forall (fun x => fits x.1 x.2) xs -> len (rlpLst (rlpRow xs)) < 2 ^ 64 -> encodeInterfaces pooled xs = Ok (rlpLst (rlpRow xs)).
Proof.
  intros Hf Hl. destruct (writeInterfaces_spec pooled xs Hpooled Hf Hl) as (w & E & Ew). unfold encodeInterfaces. by rewrite E.
Qed.

Lemma encodeSigHeader_row h : signable h -> encodeSigHeader c pooled h = encodeInterfaces pooled (sigRow h).
Proof.
  intros Hs. unfold encodeSigHeader. rewrite slice_unsealed by done. unfold mbind at 1, outcome_bind at 1. rewrite headerNumber_signable by done. unfold mbind, outcome_bind.
  f_equal. apply sigRow_eq.
Qed.

Lemma encodeSigHeader_spec h : signable h -> encodeSigHeader c pooled h = Ok (rlpLst (rlpRow (sigRow h))).
Proof.
  intros Hs. rewrite encodeSigHeader_row by done. apply encodeInterfaces_spec.
  - eapply Forall_impl; [|exact (sigRow_typed h Hs)]. intros x. apply typed_fits.
  - eapply Z.lt_trans; [exact (sigRow_small h Hs)|done].
Qed.

(** The fields that are signed. *)
Definition signedFields (h : Header K) :=
  (ParentHash h, UncleHash h, Coinbase h, HRoot h, TxHash h, ReceiptHash h, HBloom h, HDifficulty h, Number h, GasLimit h, GasUsed h, Time h, unsealed h, MixDigest h, HNonce h,
   signedFee h).

Definition hashes_wide (h : Header K) : Prop :=
  (ParentHash h < 2 ^ 256)%N /\ (UncleHash h < 2 ^ 256)%N /\ (Coinbase h < 2 ^ 160)%N /\ (HRoot h < 2 ^ 256)%N /\ (TxHash h < 2 ^ 256)%N /\ (ReceiptHash h < 2 ^ 256)%N /\ (MixDigest h < 2 ^ 256)%N.

Lemma hashBytes_injective x y : (x < 2 ^ 256)%N -> (y < 2 ^ 256)%N -> hashBytes x = hashBytes y -> x = y.
Proof. intros Hx Hy E. by rewrite <- (bytes_to_N_hashBytes x Hx), E, bytes_to_N_hashBytes. Qed.

Lemma addrBytes_injective x y : (x < 2 ^ 160)%N -> (y < 2 ^ 160)%N -> addrBytes x = addrBytes y -> x = y.
Proof. intros Hx Hy E. by rewrite <- (bytes_to_N_addrBytes x Hx), E, bytes_to_N_addrBytes. Qed.

Lemma array_injective n a b : Some (TByteArray n, VByteArray a) = Some (TByteArray n, VByteArray b) -> a = b.
Proof. by injection 1. Qed.

Lemma sigFields_injective h1 h2 u1 u2 : hashes_wide h1 -> hashes_wide h2 -> sigFields h1 u1 = sigFields h2 u2 ->
  (ParentHash h1, UncleHash h1, Coinbase h1, HRoot h1, TxHash h1, ReceiptHash h1, HBloom h1, HDifficulty h1, Number h1, GasLimit h1, GasUsed h1, Time h1, u1, MixDigest h1, HNonce h1) =
  (ParentHash h2, UncleHash h2, Coinbase h2, HRoot h2, TxHash h2, ReceiptHash h2, HBloom h2, HDifficulty h2, Number h2, GasLimit h2, GasUsed h2, Time h2, u2, MixDigest h2, HNonce h2).
Proof.
  intros (P1 & U1 & C1 & R1 & X1 & Q1 & M1) (P2 & U2 & C2 & R2 & X2 & Q2 & M2) E. assert (forall i, sigFields h1 u1 !! i = sigFields h2 u2 !! i) as Hi by (intros; by rewrite E). clear E.
  rewrite (hashBytes_injective _ _ P1 P2 (array_injective _ _ _ (Hi 0%nat))), (hashBytes_injective _ _ U1 U2 (array_injective _ _ _ (Hi 1%nat))).
  rewrite (addrBytes_injective _ _ C1 C2 (array_injective _ _ _ (Hi 2%nat))), (hashBytes_injective _ _ R1 R2 (array_injective _ _ _ (Hi 3%nat))).
  rewrite (hashBytes_injective _ _ X1 X2 (array_injective _ _ _ (Hi 4%nat))), (hashBytes_injective _ _ Q1 Q2 (array_injective _ _ _ (Hi 5%nat))).
  rewrite (hashBytes_injective _ _ M1 M2 (array_injective _ _ _ (Hi 13%nat))), (array_injective _ _ _ (Hi 6%nat)), (array_injective _ _ _ (Hi 14%nat)).
  assert (forall a b, Some (TBigInt, VBigInt a) = Some (TBigInt, VBigInt b) -> a = b) as Hb by (by injection 1).
  assert (forall a b, Some (TUint 64, VUint a) = Some (TUint 64, VUint b) -> a = b) as Hu by (by injection 1).
  assert (forall a b, Some (TBytes, VBytes (Some a)) = Some (TBytes, VBytes (Some b)) -> a = b) as Hs by (by injection 1).
  by rewrite (Hb _ _ (Hi 7%nat)), (Hb _ _ (Hi 8%nat)), (Hu _ _ (Hi 9%nat)), (Hu _ _ (Hi 10%nat)), (Hu _ _ (Hi 11%nat)), (Hs _ _ (Hi 12%nat)).
Qed.

Definition fee_wide (f : option Z) : Prop := match f with Some f => 0 <= f < 2 ^ 256 | None => True end.

Lemma signedFee_wide h : signable h -> fee_wide (signedFee h).
Proof. intros Hs. unfold signedFee. destruct (IsJaipur c (blockNumber h)); [exact (sg_fee _ Hs)|done]. Qed.

Definition feeRow (f : option Z) : list (ty * value) := match f with Some f => [(TBigInt, VBigInt (Some f))] | None => [] end.

Lemma feeRow_injective f g : fee_wide f -> fee_wide g -> rlpRow (feeRow f) = rlpRow (feeRow g) -> f = g.
Proof.
  assert (forall f, rlpRow (feeRow (Some f)) <> []) as Hne.
  { intros x E. apply app_eq_nil in E as [E _]. revert E. apply item_nonempty. eexists. by left. }
  intros Hf Hg E. destruct f as [f|], g as [g|]; [|by destruct (Hne f)|by destruct (Hne g)|done].
  apply rlp_prefix in E as [E _]; [by injection E as ->|apply Hf|apply Hg|]. rewrite app_nil_r. cbn [rlp fst snd].
  pose proof (len_numBytes_word f Hf). pose proof (len_rlpStr_small (numBytes f) ltac:(lia)). lia.
Qed.

Lemma encodeSigHeader_injective h1 h2 bs : signable h1 -> signable h2 -> hashes_wide h1 -> hashes_wide h2 ->
  encodeSigHeader c pooled h1 = Ok bs -> encodeSigHeader c pooled h2 = Ok bs -> signedFields h1 = signedFields h2.
Proof.
  intros H1 H2 W1 W2 E1 E2. rewrite encodeSigHeader_spec in E1, E2 by done. injection E1 as <-. injection E2 as E. apply eq_sym, rlpLst_injective in E; [|by apply sigRow_small].
  pose proof (sigRow_typed h1 H1) as T1. pose proof (sigRow_typed h2 H2) as T2. pose proof (sigRow_small h1 H1) as L1. pose proof (len_lt_rlpLst (rlpRow (sigRow h1))) as L2.
  unfold sigRow in E, T1, T2. apply Forall_app in T1 as [T1 _], T2 as [T2 _].
  assert (forall xs ys, rlpRow (xs ++ ys) = rlpRow xs ++ rlpRow ys) as Happ by (intros; unfold rlpRow; by rewrite map_app, concat_app).
  rewrite !Happ in E. apply rlpRow_prefix in E as [E1 E2]; [|done|done|done|rewrite <- Happ; unfold sigRow in *; lia].
  apply feeRow_injective in E2 as Efee; [|by apply signedFee_wide..].
  unfold signedFields. rewrite Efee. by rewrite (sigFields_injective h1 h2 (unsealed h1) (unsealed h2) W1 W2 E1).
Qed.

(** * The signer *)
(** The signer of a header, without the cache. *)
Definition signerOf (h : Header K) : BorError + address :=
  match Ecrecover (keccak256 (rlpLst (rlpRow (sigRow h)))) (drop (Z.to_nat (len (Extra h) - 65)) (Extra h)) with
  | None => inl recoverError
  | Some pubkey => inr (keccak256 (tail pubkey) mod 2 ^ 160)%N
  end.

Context (cacheGet : C -> hash -> option address) (cacheAdd : C -> hash -> address -> C).
Context (cacheGet_add : forall sigs h a h' x, cacheGet (cacheAdd sigs h a) h' = Some x -> (h' = h /\ x = a) \/ cacheGet sigs h' = Some x).
Context (Ecrecover_key : forall h sig pubkey, Ecrecover h sig = Some pubkey -> pubkey <> []).

(** The cache has the signers of those of the headers that it knows. *)
Definition cache_sound (hs : list (Header K)) (sigs : C) : Prop :=
  forall h a, In h hs -> cacheGet sigs (hashOf h) = Some a -> signerOf h = inr a.

Lemma ecrecover_spec hs h sigs : (forall h1 h2, In h1 hs -> In h2 hs -> hashOf h1 = hashOf h2 -> h1 = h2) -> cache_sound hs sigs -> In h hs -> signable h ->
  exists sigs', ecrecover c hashOf keccak256 Ecrecover cacheGet cacheAdd pooled h sigs = Ok (signerOf h, sigs') /\ cache_sound hs sigs'.
Proof.
  intros Hinj Hsound Hin Hs. unfold ecrecover. destruct (cacheGet sigs (hashOf h)) as [a|] eqn:Ec; [exists sigs; by rewrite (Hsound h a Hin Ec)|].
  destruct (sg_extra _ Hs) as [He _]. unfold extraSeal. destruct (Z.ltb_spec (len (Extra h)) 65); [lia|].
  assert (slice (Extra h) (len (Extra h) - 65) (len (Extra h)) = Ok (drop (Z.to_nat (len (Extra h) - 65)) (Extra h))) as ->.
  { unfold slice. destruct (Z.leb_spec 0 (len (Extra h) - 65)), (Z.leb_spec (len (Extra h) - 65) (len (Extra h))), (Z.leb_spec (len (Extra h)) (len (Extra h))); try lia. cbn [andb]. f_equal.
    apply firstn_all2. rewrite length_drop. unfold len. lia. }
  cbn [mbind outcome_bind]. unfold SealHash. rewrite encodeSigHeader_spec by done. cbn [mbind outcome_bind]. unfold signerOf.
  destruct (Ecrecover _ _) as [pubkey|] eqn:Ee; [|by exists sigs]. pose proof (Ecrecover_key _ _ _ Ee). destruct pubkey as [|x rest]; [done|]. cbn [pubkeyAddress mbind outcome_bind tail].
  eexists. split; [done|]. intros h' a' Hin' Hget. apply cacheGet_add in Hget as [[Eh ->]|Hget]; [|by apply Hsound]. rewrite <- (Hinj h h' Hin Hin' (eq_sym Eh)).
  unfold signerOf. by rewrite Ee.
Qed.
End seal.

Lemma Copy_indexed s : indexed s -> Copy s = s.
Proof. intros Hi. unfold Copy. rewrite <- Hi. by destruct s. Qed.

Lemma snapCopy_good T s : good T s -> snapCopy s = s.
Proof. intros [Hst _ _]. unfold snapCopy. rewrite Copy_indexed by apply Hst. by destruct s. Qed.

Lemma good_sameSet T s s' : good T s -> snap_Set s' = snap_Set s -> good T s'.
Proof. intros [Hst HT Hp] E. unfold signers in Hp. split; [by rewrite E|done|]. unfold signers. by rewrite E. Qed.

Section apply.
Context {K C : Type} (c : BorConfig) (Hsprint : forall n, 0 < CalculateSprint c n).
Context (hashOf : Header K -> hash) (keccak256 : list Byte.byte -> hash) (Ecrecover : hash -> list Byte.byte -> option (list Byte.byte)).
Context (cacheGet : C -> hash -> option address) (cacheAdd : C -> hash -> address -> C) (pooled : encbuf.encbuf) (Hpooled : len (encbuf.sizebuf pooled) = 9).
Context (cacheGet_add : forall sigs h a h' x, cacheGet (cacheAdd sigs h a) h' = Some x -> (h' = h /\ x = a) \/ cacheGet sigs h' = Some x).
Context (Ecrecover_key : forall h sig pubkey, Ecrecover h sig = Some pubkey -> pubkey <> []).

(** The last block of a sprint names the validators of the next one. *)
Definition sprintEnd (h : Header K) : bool := (0 <? blockNumber h) && (u64 (blockNumber h + 1) mod CalculateSprint c (blockNumber h) =? 0).

Definition producersOf (h : Header K) : list Validator :=
  match ParseValidators (take (Z.to_nat (len (Extra h) - 65 - 32)) (drop 32 (Extra h))) with Some vs => vs | None => [] end.

(** Validators that a new set can be made of. *)
Definition producers_ok (h : Header K) : Prop :=
  sprintEnd h = true -> 97 <= len (Extra h) -> newVals_ok (producersOf h) /\ 2 * sumOf VotingPower (producersOf h) <= half.

(** The header is signed by a validator, and has room for the next ones where
    these are due. *)
Definition authorized (snap : Snapshot) (h : Header K) : Prop :=
  (exists a, signerOf c keccak256 Ecrecover h = inr a /\ In a (signers snap)) /\ (sprintEnd h = true -> 97 <= len (Extra h)).

(** The snapshot after a header. *)
Record succeeds (snap : Snapshot) (h : Header K) (snap' : Snapshot) : Prop := {
  suc_authorized : authorized snap h;
  suc_number : snap_Number snap' = snap_Number snap;
  suc_recents : exists a, signerOf c keccak256 Ecrecover h = inr a /\ Recents snap' !! blockNumber h = Some a;
  suc_set : if sprintEnd h then forall a, powerAt a (Validators (snap_Set snap')) = powerAt a (producersOf h) else snap_Set snap' = snap_Set snap
}.

Lemma sprintEnd_spec h : (if 0 <? blockNumber h then isSprintStart (u64 (blockNumber h + 1)) (CalculateSprint c (blockNumber h)) else Ok false) = Ok (sprintEnd h).
Proof.
  unfold sprintEnd, isSprintStart, rem64. destruct (0 <? blockNumber h); [|done]. cbn [andb]. pose proof (Hsprint (blockNumber h)). destruct (Z.eqb_spec (CalculateSprint c (blockNumber h)) 0); [lia|done].
Qed.

Lemma slice_producers (h : Header K) : 97 <= len (Extra h) -> slice (Extra h) 32 (len (Extra h) - 65) = Ok (take (Z.to_nat (len (Extra h) - 65 - 32)) (drop 32 (Extra h))).
Proof. intros Hl. unfold slice. destruct (Z.leb_spec 0 32), (Z.leb_spec 32 (len (Extra h) - 65)), (Z.leb_spec (len (Extra h) - 65) (len (Extra h))); (lia || done). Qed.

(** The change of validators at the end of a sprint. *)
Lemma sprint_update T v h : settled T v -> 2 * T <= half -> sprintEnd h = true -> 97 <= len (Extra h) -> producers_ok h ->
  exists v1 v2 T', getUpdatedValidatorSet (producersOf h) (Copy v) = Ok (tt, v1) /\ IncrementProposerPriority 1 v1 = Ok (tt, v2) /\ settled T' v2 /\ 2 * T' <= half /\
    (forall a, powerAt a (Validators v2) = powerAt a (producersOf h)) /\ exists p, Proposer v2 = Some p /\ In p (map Address (Validators v2)).
Proof.
  intros Hst HT Hend Hlen Hok. destruct (Hok Hend Hlen) as [Hnv Hsum]. rewrite Copy_indexed by apply Hst.
  destruct (getUpdatedValidatorSet_run T v (producersOf h) Hst Hnv ltac:(lia)) as (v1 & T' & E1 & Hst1 & HT' & Hp1 & _).
  destruct (increment_settled T' v1 1 Hst1 ltac:(lia)) as (v2 & E2 & Hst2 & Hr & p & Ep & Hin). exists v1, v2, T'. split_and!; try done; [lia| |].
  - intros a. rewrite (reprioritised_powerAt _ _ _ Hr). apply Hp1.
  - exists p. split; [done|]. by destruct (reprioritised_keys _ _ Hr) as [-> _].
Qed.

Lemma applyHeader_spec hs T snap h sigs : (forall h1 h2, In h1 hs -> In h2 hs -> hashOf h1 = hashOf h2 -> h1 = h2) ->
  good T snap -> cache_sound c hashOf keccak256 Ecrecover cacheGet hs sigs -> In h hs -> signable h -> producers_ok h ->
  exists r snap' sigs', applyHeader c hashOf keccak256 Ecrecover cacheGet cacheAdd pooled h (snap, sigs) = Ok (r, (snap', sigs')) /\
    cache_sound c hashOf keccak256 Ecrecover cacheGet hs sigs' /\ (r = inr tt <-> authorized snap h) /\
    (r = inr tt -> succeeds snap h snap' /\ exists T', good T' snap').
Proof.
  intros Hinj Hg Hsound Hin Hs Hprod. unfold applyHeader. rewrite headerNumber_signable by done. cbn [mbind outcome_bind].
  set (snap1 := if _ <=? _ then _ else snap).
  assert (snap_Set snap1 = snap_Set snap /\ snap_Number snap1 = snap_Number snap) as [Es En] by (unfold snap1; by case_match).
  pose proof (good_sameSet _ _ _ Hg Es) as Hg1. clearbody snap1.
  destruct (ecrecover_spec c hashOf keccak256 Ecrecover pooled Hpooled cacheGet cacheAdd cacheGet_add Ecrecover_key hs h sigs Hinj Hsound Hin Hs) as (sigs' & -> & Hsound'). cbn [mbind outcome_bind].
  destruct (signerOf c keccak256 Ecrecover h) as [e|a] eqn:Ea.
  { exists (inl e), snap1, sigs'. split_and!; [done|done| |done]. split; [done|]. intros [(a & E & _) _]. congruence. }
  assert (signers snap1 = signers snap) as Esig by (unfold signers; by rewrite Es). pose proof (HasAddress_signers T snap1 Hg1 a) as Ha. rewrite Esig in Ha.
  destruct (HasAddress a (snap_Set snap1)); cbn [negb].
  2:{ eexists _, snap1, sigs'. split_and!; [done|done| |done]. split; [done|]. intros [(b & E & Hb) _]. assert (b = a) as -> by congruence. by apply Ha in Hb. }
  pose proof (proj1 Ha eq_refl) as Hina. destruct (good_proposer _ _ Hg1) as (p & Ep & Hp).
  destruct (GetSignerSuccessionNumber_good T snap1 Hg1 p a Ep Hp ltac:(by rewrite Esig)) as [-> _]. cbn [mbind outcome_bind]. rewrite sprintEnd_spec. cbn [mbind outcome_bind].
  set (snap2 := set_Recents (<[blockNumber h:=a]> (Recents snap1)) snap1). assert (good T snap2) as Hg2 by (by apply (good_sameSet T snap1)).
  assert (exists a0, signerOf c keccak256 Ecrecover h = inr a0 /\ Recents snap2 !! blockNumber h = Some a0) as Hrec by (exists a; split; [done|apply lookup_insert_eq]).
  assert (authorized snap h <-> (sprintEnd h = true -> 97 <= len (Extra h))) as Hauth by (unfold authorized; split; [by intros [_ ?]|intros; split; [by exists a|done]]).
  destruct (sprintEnd h) eqn:Hend.
  2:{ exists (inr tt), snap2, sigs'. split_and!; [done|done|by rewrite Hauth|]. intros _. split; [|eauto]. split; [by apply Hauth|done|done|by rewrite Hend]. }
  unfold validateHeaderExtraField, extraVanity, extraSeal. destruct (Z.ltb_spec (len (Extra h)) 32) as [Hl|Hl].
  { eexists _, snap2, sigs'. split_and!; [done|done| |done]. rewrite Hauth. split; [done|]. intros H. specialize (H eq_refl). lia. }
  destruct (Z.ltb_spec (len (Extra h)) (32 + 65)) as [Hl2|Hl2].
  { eexists _, snap2, sigs'. split_and!; [done|done| |done]. rewrite Hauth. split; [done|]. intros H. specialize (H eq_refl). lia. }
  rewrite slice_producers by lia. cbn [mbind outcome_bind]. fold (producersOf h).
  destruct (sprint_update T (snap_Set snap2) h (good_set _ _ Hg2) (good_total _ _ Hg2) Hend ltac:(lia) Hprod) as (v1 & v2 & T' & E1 & E2 & Hst & HT' & Hpow & Hprop).
  rewrite E1. cbn [mbind outcome_bind]. rewrite E2. cbn [mbind outcome_bind].
  exists (inr tt), (set_snapSet v2 snap2), sigs'. split_and!; [done|done|rewrite Hauth; split; [intros _ _; lia|done]|]. intros _. split.
  - split; [apply Hauth; lia|done|done|by rewrite Hend].
  - exists T'. by split.
Qed.

Inductive applied : Snapshot -> list (Header K) -> Snapshot -> Prop :=
| applied_none snap : applied snap [] snap
| applied_more snap h snap1 hs snap2 : succeeds snap h snap1 -> applied snap1 hs snap2 -> applied snap (h :: hs) snap2.

Lemma applied_number snap hs snap' : applied snap hs snap' -> snap_Number snap' = snap_Number snap.
Proof. induction 1 as [|snap h snap1 hs snap2 Hs _ IH]; [done|]. by rewrite IH, (suc_number _ _ _ Hs). Qed.

Lemma applyHeaders_spec all hs T snap sigs : (forall h1 h2, In h1 all -> In h2 all -> hashOf h1 = hashOf h2 -> h1 = h2) ->
  good T snap -> cache_sound c hashOf keccak256 Ecrecover cacheGet all sigs -> incl hs all -> Forall (fun h => signable h /\ producers_ok h) hs ->
  exists r snap' sigs', applyHeaders c hashOf keccak256 Ecrecover cacheGet cacheAdd pooled hs (snap, sigs) = Ok (r, (snap', sigs')) /\
    cache_sound c hashOf keccak256 Ecrecover cacheGet all sigs' /\
    match r with
    | inr _ => applied snap hs snap' /\ exists T', good T' snap'
    | inl _ => exists done h rest snap1, hs = done ++ h :: rest /\ applied snap done snap1 /\ ~ authorized snap1 h
    end.
Proof.
  intros Hinj Hg Hsound Hincl Hf. revert T snap sigs Hg Hsound. induction Hf as [|h hs [Hs Hp] Hf IH]; intros T snap sigs Hg Hsound; cbn [applyHeaders].
  - eexists (inr tt), snap, sigs. split_and!; [done|done|constructor|eauto].
  - destruct (applyHeader_spec all T snap h sigs Hinj Hg Hsound (Hincl h (in_eq _ _)) Hs Hp) as (r & snap1 & sigs1 & E & Hsound1 & Hauth & Hr). rewrite (M_bind_Ok _ _ _ _ _ E).
    destruct r as [e|[]].
    + exists (inl e), snap1, sigs1. split_and!; [done|done|]. exists [], h, hs, snap. split_and!; [done|constructor|]. intros Ha. by apply Hauth in Ha.
    + destruct (Hr eq_refl) as [Hsuc [T' Hg']]. destruct (IH (fun x Hx => Hincl x (in_cons _ _ _ Hx)) T' snap1 sigs1 Hg' Hsound1) as (r & snap2 & sigs2 & E2 & Hsound2 & Hres).
      exists r, snap2, sigs2. split_and!; [done|done|]. destruct r as [e|u].
      * destruct Hres as (d & h' & rest & s' & -> & Ha & Hn). exists (h :: d), h', rest, s'. split_and!; [done|by econstructor|done].
      * destruct Hres as [Ha Hgood]. split; [by econstructor|done].
Qed.

(** Headers that follow each other. *)
Fixpoint consecutive (n : Z) (hs : list (Header K)) : bool :=
  match hs with [] => true | h :: hs => (blockNumber h =? u64 n) && consecutive (blockNumber h + 1) hs end.

Lemma contiguous_spec h hs : signable h -> Forall signable hs -> contiguous h hs = Ok (consecutive (blockNumber h + 1) hs).
Proof.
  intros Hh Hf. revert h Hh. induction Hf as [|h' hs Hh' _ IH]; intros h Hh; [done|]. cbn [contiguous consecutive]. rewrite !headerNumber_signable by done. cbn [mbind outcome_bind].
  destruct (blockNumber h' =? u64 (blockNumber h + 1)); cbn [negb andb]; [by apply IH|done].
Qed.
End apply.
