(* ===== verification/BorTheorems.v ===== *)
(** The claims on the Bor consensus engine: proposer selection, updates of the
    validator set and snapshots. *)
From stdpp Require Import sorting.
From S2P Require Import Prelude Uint256 StateTypes Accounts AccountSpec Transaction Rlp RlpStream RlpSpec RlpReflect TxCodec BlockCodec.
From S2P Require Import BorValset BorSnapshot BorSpec BorUpdateSpec BorSettled BorSnapshotSpec BorApplySpec.
#[local] Open Scope Z_scope.

(** C12: IncrementProposerPriority neither panics nor clips: on a set of
    validators with distinct addresses, positive powers whose total is within
    the limit, and room for the selection, it returns the same validators with
    priorities in a window around zero, whose sum is again between zero and the
    number of validators; the proposer is one of them; and the result meets the
    same conditions, so that the next call behaves the same. *)
Theorem IncrementProposerPriority_bounds T s times : selectable T s -> 0 < times ->
  exists s', IncrementProposerPriority times s = Ok (tt, s') /\ selectable T s' /\
    reprioritised (Validators s) (Validators s') /\
    (exists p, Proposer s' = Some p /\ In p (map Address (Validators s))) /\
    0 <= sumOf ProposerPriority (Validators s') < len (Validators s') /\
    Forall (fun v => - 2 * T <= ProposerPriority v <= 2 * T + slack T (length (Validators s) - 1) 1) (Validators s').
Proof.
  intros Hsel Htimes. destruct (IncrementProposerPriority_result T s times Hsel Htimes) as (s' & E & _ & _ & Hs'). by exists s'.
Qed.


Lemma timesProposer_pos a k s : 0 < timesProposer a k s -> exists j, (0 < j <= k)%nat /\ proposerAfter j s = Some a.
Proof.
  induction k as [|k IH]; cbn [timesProposer]; [lia|]. case_decide as Hd; [intros _; exists (S k); split; [lia|done]|].
  rewrite Z.add_0_r. intros Hk. destruct (IH Hk) as (j & Hj & E). exists j. split; [lia|done].
Qed.



(** NewValidatorSet makes a set of exactly the given validators, ordered and
    indexed, with a proposer among them, where the addresses are distinct and
    not zero and the powers positive. *)
Theorem NewValidatorSet_settled valz : valz <> [] -> NoDup (map Address valz) -> Forall (fun v => Address v <> 0%N) valz ->
  Forall (fun v => 0 < VotingPower v) valz -> sumOf VotingPower valz <= half -> len valz <= 10000 ->
  exists s T, NewValidatorSet valz = Ok s /\ settled T s /\ (forall a, powerAt a (Validators s) = powerAt a valz) /\
    exists p, Proposer s = Some p /\ In p (map Address valz).
Proof.
  intros Hne Hnd Hz Hp Hsum Hlen. destruct (first_update valz) as (s & T & E & Hst & Hpow); [done..|]. destruct (increment_settled T s 1 Hst ltac:(lia)) as (s' & E' & Hst' & Hr & p & Ep & Hin).
  exists s', T. split_and!.
  - unfold NewValidatorSet. rewrite E. cbn [mbind outcome_bind]. assert (0 <? len valz = true) as -> by (destruct valz; done). by rewrite E'.
  - done.
  - intros a. rewrite (reprioritised_powerAt _ _ _ Hr). apply Hpow.
  - exists p. split; [done|]. specialize (Hpow p). unfold powerAt in Hpow. destruct (lookupV p valz) as [v|] eqn:Ev.
    + apply lookupV_Some in Ev as [Hv <-]. by apply in_map.
    + destruct (lookupV p (Validators s)) eqn:Es; [done|]. by apply lookupV_None in Es.
Qed.

(** The validators that a producer writes into a header, one HeaderBytes
    after the other, are the ones that ParseValidators reads from it. *)
Theorem ParseValidators_HeaderBytes vs : Forall wire_ok vs ->
  ParseValidators (concat (map HeaderBytes vs)) = Some (map (fun v => NewValidator (Address v) (VotingPower v)) vs).
Proof.
  intros Hvs. assert (len (concat (map HeaderBytes vs)) = 40 * len vs) as Hl.
  { clear -Hvs. induction Hvs as [|v vs [_ Hp] _ IH]; [done|]. unfold len in *. cbn [map concat length]. rewrite length_app. unfold HeaderBytes at 1. rewrite length_app, length_PowerBytes by done.
    unfold addrBytes. rewrite length_be_split. lia. }
  unfold ParseValidators. rewrite Hl. rewrite (Z.mul_comm 40), Z_mod_mult, Z_div_mult by lia. cbn [Z.eqb negb]. unfold len at 1. rewrite Nat2Z.id. by rewrite parseEntries_HeaderBytes.
Qed.

(** ** Snapshots *)

(** The signers of a snapshot take their turns in a ring that starts at the
    proposer: GetSignerSuccessionNumber gives each validator another number
    below the number of validators, zero for the proposer alone, and Difficulty
    is the number of validators less that, so that the proposer's block weighs
    most. *)
Theorem succession_ring T s p a : good T s -> Proposer (snap_Set s) = Some p -> In a (signers s) ->
  exists k, GetSignerSuccessionNumber a s = Ok (inr k, s) /\ 0 <= k < len (signers s) /\ (k = 0 <-> a = p) /\
    Difficulty a s = Ok (len (signers s) - k, s) /\
    forall b, In b (signers s) -> GetSignerSuccessionNumber b s = Ok (inr k, s) -> b = a.
Proof.
  intros Hg Ep Ha. destruct (good_proposer _ _ Hg) as (p' & Ep' & Hp). assert (p' = p) as -> by congruence.
  destruct (GetSignerSuccessionNumber_good T s Hg p a Ep Hp Ha) as [E Ed]. destruct (succession_range s p a Hp Ha) as [Hr H0]. exists (succession s p a).
  assert (len (signers s) = len (Validators (snap_Set s))) as El by (unfold len, signers; by rewrite length_map). rewrite El. split_and!; [done|lia|lia|done| |].
  - assert (a <> 0%N) as Hz.
    { apply in_map_iff in Ha as (v & <- & Hv). pose proof (st_nonzero _ _ (good_set _ _ Hg)) as Hnz. rewrite Forall_forall in Hnz. by apply Hnz. }
    rewrite (Ed Hz). rewrite u64_small; [done|]. pose proof (st_size _ _ (good_set _ _ Hg)). unfold is_u64. lia.
  - intros b Hb Eb. destruct (GetSignerSuccessionNumber_good T s Hg p b Ep Hp Hb) as [Eb' _]. rewrite Eb' in Eb. injection Eb as Eb. by apply (succession_inj s p b a Hp Hb Ha).
Qed.

(** The set that getUpdatedValidatorSet makes for the next sprint has
    exactly the new validators with their new powers, although the powers in the
    old set are changed before the update is checked, when the new powers and
    the old total together stay within half of the limit. *)
Theorem getUpdatedValidatorSet_exact T s newVals : settled T s -> newVals_ok newVals -> T + sumOf VotingPower newVals <= half ->
  exists s' T', getUpdatedValidatorSet newVals s = Ok (tt, s') /\ settled T' s' /\ forall a, powerAt a (Validators s') = powerAt a newVals.
Proof.
  intros Hs Hn Hsum. destruct (getUpdatedValidatorSet_run T s newVals Hs Hn Hsum) as (s' & T' & E & Hst & _ & Hp & _). by exists s', T'.
Qed.


(** C6: apply returns for every list of well-formed headers.  It refuses headers
    that do not follow the snapshot and each other, and the first one that is not
    signed by a validator of the set in force at it; otherwise each header was
    so signed, the set changes at the ends of sprints only, to the validators
    that the header names, and the new snapshot is fit for the next headers. *)
Theorem apply_correct {K C} c hashOf keccak256 Ecrecover cacheGet cacheAdd pooled T s (headers : list (Header K)) (sigs : C) :
  (forall n, 0 < CalculateSprint c n) -> len (encbuf.sizebuf pooled) = 9 ->
  (forall sigs h a h' x, cacheGet (cacheAdd sigs h a) h' = Some x -> (h' = h /\ x = a) \/ cacheGet sigs h' = Some x) ->
  (forall h sig pubkey, Ecrecover h sig = Some pubkey -> pubkey <> []) ->
  (forall h1 h2, In h1 headers -> In h2 headers -> hashOf h1 = hashOf h2 -> h1 = h2) -> cache_sound c hashOf keccak256 Ecrecover cacheGet headers sigs ->
  good T s -> headers <> [] -> Forall (fun h => signable h /\ producers_ok c h) headers ->
  exists r sigs', apply c hashOf keccak256 Ecrecover cacheGet cacheAdd pooled headers s sigs = Ok (r, sigs') /\
    cache_sound c hashOf keccak256 Ecrecover cacheGet headers sigs' /\
    match r with
    | inr s' => consecutive (snap_Number s + 1) headers = true /\ (exists T', good T' s') /\ snap_Number s' = u64 (snap_Number s + len headers) /\
        exists s1, applied c keccak256 Ecrecover s headers s1 /\ snap_Set s' = snap_Set s1 /\ Recents s' = Recents s1
    | inl e => (consecutive (snap_Number s + 1) headers = false /\ e = errOutOfRangeChain) \/
        exists before h after s1, headers = before ++ h :: after /\ applied c keccak256 Ecrecover s before s1 /\ ~ authorized c keccak256 Ecrecover s1 h
    end.
Proof.
  intros Hsprint Hpool Hcache Hkey Hinj Hsound Hg Hne Hf. destruct headers as [|h0 rest]; [done|].
  assert (Forall signable (h0 :: rest)) as Hsig by (eapply Forall_impl; [|exact Hf]; by intros h []). inversion_clear Hsig as [|? ? H0 Hrest].
  unfold apply. rewrite contiguous_spec, headerNumber_signable by done. cbn [mbind outcome_bind].
  assert (consecutive (snap_Number s + 1) (h0 :: rest) = (blockNumber h0 =? u64 (snap_Number s + 1)) && consecutive (blockNumber h0 + 1) rest) as Ec by done. set (headers := h0 :: rest) in *. clearbody headers.
  destruct (consecutive (blockNumber h0 + 1) rest) eqn:Er; cbn [negb].
  2:{ eexists _, sigs. split_and!; [done|done|]. left. split; [by rewrite Ec, andb_false_r|done]. }
  destruct (blockNumber h0 =? u64 (snap_Number s + 1)) eqn:E0; cbn [negb].
  2:{ eexists _, sigs. split_and!; [done|done|]. left. by rewrite Ec. }
  rewrite (snapCopy_good T) by done.
  destruct (applyHeaders_spec c Hsprint hashOf keccak256 Ecrecover cacheGet cacheAdd pooled Hpool Hcache Hkey headers headers T s sigs Hinj Hg Hsound (incl_refl _) Hf) as (r & s1 & sigs' & -> & Hsound' & Hr).
  cbn [mbind outcome_bind]. destruct r as [e|u]; eexists _, sigs'; (split; [done|]); (split; [done|]).
  - by right.
  - destruct Hr as [Ha [T' Hg']]. split; [by rewrite Ec|]. split; [exists T'; by apply (good_sameSet T' s1)|]. cbn. split; [by rewrite (applied_number _ _ _ _ _ _ Ha)|]. by exists s1.
Qed.

(** The parent whose time verifySeal looks at. *)
Definition parentOf {K} (GetHeader : hash -> Z -> option (Header K)) (header : Header K) (number : Z) (parents : list (Header K)) : option (Header K) :=
  match parents with [] => GetHeader (ParentHash header) (number - 1) | p :: _ => Some (List.last parents p) end.

Lemma checkSeal_iff {K} c (GetHeader : hash -> Z -> option (Header K)) T snap p header number signer parents d :
  good T snap -> Proposer (snap_Set snap) = Some p -> (forall n, 0 < CalculateSprint c n) -> HDifficulty header = Some d -> is_u64 d ->
  checkSeal c GetHeader false header number signer parents snap = Ok None <->
  In signer (signers snap) /\
  (forall parent delay, parentOf GetHeader header number parents = Some parent -> CalcProducerDelay c number (succession snap p signer) = Ok delay -> u64 (Time parent + delay) <= Time header) /\
  d = len (signers snap) - succession snap p signer.
Proof.
  intros Hg Ep Hsprint Ed Hd. unfold checkSeal. fold (parentOf GetHeader header number parents).
  destruct (HasAddress signer (snap_Set snap)) eqn:Ha; cbn [negb].
  2:{ split; [done|]. intros [Hin _]. apply (HasAddress_signers T snap Hg) in Hin. congruence. }
  apply (HasAddress_signers T snap Hg) in Ha. destruct (good_proposer _ _ Hg) as (p' & Ep' & Hp). assert (p' = p) as -> by congruence.
  destruct (GetSignerSuccessionNumber_good T snap Hg p signer Ep Hp Ha) as [-> Edif]. cbn [mbind outcome_bind].
  assert (signer <> 0%N) as Hz.
  { apply in_map_iff in Ha as (v & <- & Hv). pose proof (st_nonzero _ _ (good_set _ _ Hg)) as Hnz. rewrite Forall_forall in Hnz. by apply Hnz. }
  assert (exists delay, CalcProducerDelay c number (succession snap p signer) = Ok delay) as [delay Edelay].
  { unfold CalcProducerDelay, rem64. pose proof (Hsprint number). destruct (Z.eqb_spec (CalculateSprint c number) 0); [lia|]. cbn. eauto. }
  assert (len (signers snap) = len (Validators (snap_Set snap))) as El by (unfold len, signers; by rewrite length_map). rewrite El.
  destruct (succession_range snap p signer Hp Ha) as [Hr _]. pose proof (st_size _ _ (good_set _ _ Hg)).
  assert (forall early : bool, (if early then Ok (Some (BlockTooSoon number (succession snap p signer))) else
      ('(difficulty, _) ← Difficulty signer snap; actual ← or_panic (HDifficulty header);
       Ok (if negb (u64 (Z.abs actual) =? difficulty) then Some (WrongDifficulty number difficulty (u64 (Z.abs actual))) else None))) = Ok None <->
    early = false /\ d = len (Validators (snap_Set snap)) - succession snap p signer) as Hlast.
  { intros [|]; [by split; [|intros [? _]]|]. rewrite (Edif Hz). cbn [mbind outcome_bind]. rewrite Ed. cbn [or_panic mbind outcome_bind]. unfold is_u64 in Hd.
    rewrite Z.abs_eq, !u64_small by (unfold is_u64; lia). destruct (Z.eqb_spec d (len (Validators (snap_Set snap)) - succession snap p signer)); cbn [negb]; split; intros; intuition congruence. }
  destruct (parentOf GetHeader header number parents) as [parent|].
  - rewrite Edelay. cbn [mbind outcome_bind]. rewrite (Hlast (Time header <? u64 (Time parent + delay))). rewrite Z.ltb_ge. split.
    + intros [Ht ->]. split_and!; [done| |done]. intros ? ? [= <-] [= <-]. done.
    + intros (_ & Ht & ->). split; [by apply Ht|done].
  - cbn [mbind outcome_bind]. rewrite (Hlast false). split; [intros [_ ->]; by split_and!|]. by intros (_ & _ & ->).
Qed.

(** VerifySeal accepts a header on a snapshot exactly if its signer is one of
    the validators, it comes no earlier than the delay for the signer's place in
    the succession allows, and its difficulty is the one of that place. *)
Theorem checkSeal_accepts {K} c (GetHeader : hash -> Z -> option (Header K)) T snap p header number signer parents d :
  good T snap -> Proposer (snap_Set snap) = Some p -> (forall n, 0 < CalculateSprint c n) -> HDifficulty header = Some d -> is_u64 d ->
  checkSeal c GetHeader false header number signer parents snap = Ok None <->
  In signer (signers snap) /\
  (forall parent delay, parentOf GetHeader header number parents = Some parent -> CalcProducerDelay c number (succession snap p signer) = Ok delay -> u64 (Time parent + delay) <= Time header) /\
  d = len (signers snap) - succession snap p signer.
Proof. apply checkSeal_iff. Qed.

(** ** Deviations *)

(** C38: a snapshot that is loaded from the database has no index of its
    validators: as long as no header is applied to it, verifySeal rejects the
    blocks of every signer as unauthorized. *)
Theorem loaded_snapshot_rejects {K} T s : good T s ->
  exists s', loadSnapshot (Some s) = Ok (inr s') /\ signers s' = signers s /\
    (forall C c hashOf keccak256 Ecrecover cacheGet cacheAdd pooled (sigs : C), apply (K := K) c hashOf keccak256 Ecrecover cacheGet cacheAdd pooled [] s' sigs = Ok (inr s', sigs)) /\
    forall c GetHeader fakeDiff (header : Header K) number signer parents,
      checkSeal c GetHeader fakeDiff header number signer parents s' = Ok (Some (UnauthorizedSigner (number - 1) signer)).
Proof.
  intros [Hst _ _]. assert (MaxTotalVotingPower = 2 * half + 1 /\ half = 2 ^ 59 - 1) as [HM Hh] by done. pose proof (st_limit _ _ Hst) as HT. pose proof (ok_total _ _ (st_ok _ _ Hst)) as Hsum.
  unfold loadSnapshot, onSet. rewrite UpdateTotalVotingPower_spec; [|apply (st_ok _ _ Hst)|cbn; lia]. cbn [mbind outcome_bind]. eexists. by split_and!.
Qed.

(** A validator with the zero address is taken for a duplicate entry, even
    where it is the only one. *)
Example zero_address_is_duplicate :
  updateWithChangeSet [NewValidator 0%N 5] false (mk_ValidatorSet [] None 0 ∅) = Ok (Some duplicateEntry, mk_ValidatorSet [] None 0 ∅) /\
  NewValidatorSet [NewValidator 0%N 5] = Panic.
Proof. split; vm_compute; reflexivity. Qed.

(** Two validators, for the examples. *)
Definition demoVals : list Validator := [mk_Validator 0 1%N 1 0; mk_Validator 0 2%N 3 (-1)].

Definition demoSet : ValidatorSet := mk_ValidatorSet demoVals (Some 2%N) 4 (validatorIndex demoVals).

Definition demoSnap : Snapshot := mk_Snapshot 6 77%N demoSet ∅.

(** GetUpdatedValidatorSet changes the powers in the set before they are
    checked.  An increase above the limit, which UpdateWithChangeSet refuses on
    an unchanged set, passes its checks; the error comes when the list is already
    changed, is logged only, and leaves powers above the limit with the old
    total. *)
Example update_check_bypassed :
  let newVals := [NewValidator 1%N MaxTotalVotingPower; NewValidator 2%N MaxTotalVotingPower] in
  UpdateWithChangeSet newVals demoSet = Ok (Some totalTooHigh, demoSet) /\
  exists s', getUpdatedValidatorSet newVals demoSet = Ok (tt, s') /\ totalVotingPower s' = 4 /\ map VotingPower (Validators s') = [MaxTotalVotingPower; MaxTotalVotingPower].
Proof. split; [vm_compute; reflexivity|]. eexists. split; [vm_compute; reflexivity|]. split; vm_compute; reflexivity. Qed.

(** ** Witnesses *)
Lemma demo_ordered : ordered demoVals.
Proof. constructor; [constructor; [constructor|constructor]|constructor; [|constructor]]. unfold before. cbn. lia. Qed.

Lemma demo_settled : settled 4 demoSet.
Proof.
  split; cbn.
  - split; [apply (ordered_NoDup _ demo_ordered)| |done|done]. by repeat constructor.
  - apply demo_ordered.
  - done.
  - by repeat constructor.
  - done.
  - done.
  - done.
  - by repeat constructor.
Qed.

Lemma demo_good : good 4 demoSnap.
Proof. split; [apply demo_settled|done|]. exists 2%N. split; [done|]. right. by left. Qed.

Lemma IncrementProposerPriority_bounds_witness : exists s', IncrementProposerPriority 3 demoSet = Ok (tt, s') /\ Proposer s' = Some 2%N.
Proof.
  destruct (IncrementProposerPriority_bounds 4 demoSet 3) as (s' & E & _); [apply settled_selectable, demo_settled|done|]. exists s'. split; [exact E|].
  vm_compute in E. injection E as <-. reflexivity.
Defined.



Lemma succession_ring_witness : exists k, GetSignerSuccessionNumber 1%N demoSnap = Ok (inr k, demoSnap) /\ k = 1.
Proof.
  destruct (succession_ring 4 demoSnap 2%N 1%N) as (k & E & _); [apply demo_good|done|by left|]. exists k. split; [exact E|]. vm_compute in E. by injection E as <-.
Defined.

Lemma loaded_snapshot_rejects_witness : exists s', loadSnapshot (Some demoSnap) = Ok (inr s') /\ HasAddress 1%N (snap_Set s') = false.
Proof.
  destruct (loaded_snapshot_rejects (K := unit) 4 demoSnap demo_good) as (s' & E & _). exists s'. split; [exact E|]. vm_compute in E. by injection E as <-.
Defined.


Lemma NewValidatorSet_settled_witness : exists s, NewValidatorSet [NewValidator 5%N 2; NewValidator 4%N 3] = Ok s /\ Proposer s = Some 4%N.
Proof.
  destruct (NewValidatorSet_settled [NewValidator 5%N 2; NewValidator 4%N 3]) as (s & T & E & _); [done| |by repeat constructor|by repeat constructor|done|done|].
  - cbn. apply NoDup_ListNoDup. repeat constructor; cbn; intuition congruence.
  - exists s. split; [exact E|]. vm_compute in E. by injection E as <-.
Defined.

Lemma ParseValidators_HeaderBytes_witness : ParseValidators (concat (map HeaderBytes demoVals)) = Some [NewValidator 1%N 1; NewValidator 2%N 3].
Proof. apply (ParseValidators_HeaderBytes demoVals). repeat constructor; vm_compute; discriminate. Defined.

Definition demoNew : list Validator := [NewValidator 2%N 1; NewValidator 7%N 2].

Lemma demo_newVals : newVals_ok demoNew.
Proof. split; [done| |by repeat constructor|by repeat constructor|done]. apply NoDup_ListNoDup. cbn. repeat constructor; cbn; intuition congruence. Qed.

Lemma getUpdatedValidatorSet_exact_witness : exists s', getUpdatedValidatorSet demoNew demoSet = Ok (tt, s') /\ map VotingPower (Validators s') = [1; 2].
Proof.
  destruct (getUpdatedValidatorSet_exact 4 demoSet demoNew demo_settled demo_newVals) as (s' & T' & E & _); [vm_compute; discriminate|]. exists s'. split; [exact E|]. vm_compute in E. by injection E as <-.
Defined.

(** A header, and an engine whose keys are all those of the first validator. *)
Definition demoBorConfig : BorConfig := mk_BorConfig (fun _ => 64) (fun _ => 2) (fun _ => 6) (fun _ => 2) (fun _ => false).

Definition demoBorHeader (seal : Byte.byte) : Header unit :=
  mk_Header 77%N 0%N 0%N 0%N 0%N 0%N (replicate 256 Byte.x00) (Some 1) (Some 7) 0 0 20 (replicate 96 Byte.x00 ++ [seal]) 0%N (replicate 8 Byte.x00) 0 [] None None false [] tt 0%N 0%N.

Lemma demo_signable x : signable (demoBorHeader x).
Proof. split; try done. exists 7. by split. Qed.

Lemma demo_wide x : hashes_wide (demoBorHeader x).
Proof. split_and!; vm_compute; reflexivity. Qed.


Lemma apply_correct_witness : exists r, apply demoBorConfig (fun _ => 78%N) (fun _ => 1%N) (fun _ _ => Some [Byte.x04]) (fun (_ : unit) _ => None) (fun u _ _ => u) encbuf.new [demoBorHeader Byte.x00] demoSnap tt = Ok (inr r, tt).
Proof.
  destruct (apply_correct demoBorConfig (fun _ : Header unit => 78%N) (fun _ => 1%N) (fun _ _ => Some [Byte.x04]) (fun (_ : unit) _ => None) (fun u _ _ => u) encbuf.new 4 demoSnap [demoBorHeader Byte.x00] tt)
    as ([e|r] & [] & E & _ & Hr).
  - done.
  - done.
  - done.
  - by intros ? ? ? [= <-].
  - intros h1 h2 [<-|[]] [<-|[]]. done.
  - done.
  - apply demo_good.
  - done.
  - constructor; [|constructor]. split; [apply demo_signable|]. intros H. vm_compute in H. discriminate.
  - exfalso. destruct Hr as [[H _]|(before & h & after & s1 & Eh & Ha & Hn)]; [vm_compute in H; discriminate|].
    destruct before as [|b l]; [|by destruct l]. inversion Ha; subst s1. injection Eh as <- <-. apply Hn. split; [exists 1%N; split; [vm_compute; reflexivity|by left]|]. intros Hend. vm_compute in Hend. discriminate.
  - by exists r.
Defined.

Lemma checkSeal_accepts_witness : checkSeal demoBorConfig (fun _ _ => None) false (demoBorHeader Byte.x00) 7 1%N [] demoSnap = Ok None.
Proof. apply (checkSeal_accepts demoBorConfig (fun _ _ => None) 4 demoSnap 2%N (demoBorHeader Byte.x00) 7 1%N [] 1); try done; [apply demo_good|]. split; [by left|]. by split. Defined.
