(* ===== verification/TrieKeys.v ===== *)
(** Keys of tries and the values in their leaves: turbo/trie/encoding.go and
    package turbo/rlphacks.

    A key in the HEX encoding, one byte for each nibble and at the end perhaps
    the terminator 16, is a list of numbers; keys in the other encodings are
    bytes.  What rlphacks writes to a buffer and the number of bytes it returns
    are one list of bytes. *)
From S2P Require Import Prelude Uint256 StateTypes Accounts.
#[local] Open Scope Z_scope.

(** * Keys *)
Definition hasTerm (s : list Z) : bool := bool_decide (lookupZ s (len s - 1) = Some 16).

Fixpoint prefixLen (a b : list Z) : Z :=
  match a, b with
  | x :: a, y :: b => if x =? y then 1 + prefixLen a b else 0
  | _, _ => 0
  end.

(** [hex[:len(hex)-1]]. *)
Definition butLast (s : list Z) : list Z := take (length s - 1) s.

Definition keybytesToHex (str : list Byte.byte) : list Z :=
  concat (map (fun b => [byte.unsigned b / 16; byte.unsigned b mod 16]) str) ++ [16].

(** The loop of decodeNibbles, from [bytes[bi]]. *)
Fixpoint putNibbles (bi : Z) (nibbles : list Z) : M buffer unit :=
  match nibbles with
  | [] => mret tt
  | [n] => fun buf => b ← index buf bi; put bi (Z.lor (Z.land b 0x0f) (Z.shiftl n 4)) buf
  | n :: m :: nibbles => _ ← put bi (Z.lor (Z.shiftl n 4) m); putNibbles (bi + 1) nibbles
  end.

(** decodeNibbles into [bytes[bi:]]. *)
Definition decodeNibbles (bi : Z) (nibbles : list Z) : M buffer unit :=
  putNibbles bi (if hasTerm nibbles then butLast nibbles else nibbles).

(** [make([]byte, n)], filled by [m]. *)
Definition filled (n : Z) (m : M buffer unit) : outcome (list Byte.byte) :=
  r ← m (replicate (Z.to_nat n) Byte.x00); Ok r.2.

Definition hexToCompact (hex : list Z) : outcome (list Byte.byte) :=
  let terminator := if hasTerm hex then 1 else 0 in
  let hex := if hasTerm hex then butLast hex else hex in
  filled (len hex / 2 + 1)
    (match hex with
     | n :: rest =>
         if Z.odd (len hex) then
           _ ← put 0 (Z.lor (Z.lor (Z.shiftl terminator 5) (Z.shiftl 1 4)) n); decodeNibbles 1 rest
         else _ ← put 0 (Z.shiftl terminator 5); decodeNibbles 1 hex
     | [] => _ ← put 0 (Z.shiftl terminator 5); decodeNibbles 1 hex
     end).

Definition compactToHex (compact : list Byte.byte) : list Z :=
  match keybytesToHex compact, compact with
  | _, [] | [], _ => []
  | (n :: _) as base, _ => drop (Z.to_nat (2 - Z.land n 1)) (if n <? 2 then butLast base else base)
  end.

Definition hexToKeybytes (hex : list Z) : outcome (list Byte.byte) :=
  let hex := if hasTerm hex then butLast hex else hex in
  if Z.odd (len hex) then Panic else filled (len hex / 2) (decodeNibbles 0 hex).

(** Nibbles packed into bytes, the last byte perhaps with one nibble only. *)
Record Keybytes := mk_Keybytes { Data : list Byte.byte; Odd : bool; Terminating : bool }.

Definition Nibbles (x : Keybytes) : Z := len (Data x) * 2 - (if Odd x then 1 else 0).

(** [(x[i-1] << 4) + (x[i] >> 4)] for the bytes after the first. *)
Fixpoint shiftNibble (bs : list Byte.byte) : list Byte.byte :=
  match bs with
  | b :: (c :: _) as rest => byte.of_Z (byte.unsigned b * 16 + byte.unsigned c / 16) :: shiftNibble rest
  | _ => []
  end.

Definition ToCompact (x : Keybytes) : outcome (list Byte.byte) :=
  let flag := if Terminating x then 0x20 else 0 in
  if Odd x then
    match Data x with
    | [] => Panic
    | b :: _ => Ok (byte.of_Z (flag + 0x10 + byte.unsigned b / 16) :: shiftNibble (Data x))
    end
  else Ok (byte.of_Z flag :: Data x).

Definition ToHex (x : Keybytes) : outcome (list Z) := c ← ToCompact x; Ok (compactToHex c).

(** [c[0]] panics on an empty slice. *)
Definition CompactToKeybytes (c : list Byte.byte) : outcome Keybytes :=
  match c with
  | [] => Panic
  | c0 :: rest =>
      let odd := Z.testbit (byte.unsigned c0) 4 in
      let data := if odd then shiftNibble (c ++ [Byte.x00]) else rest in
      Ok (mk_Keybytes data odd (Z.testbit (byte.unsigned c0) 5))
  end.

(** * rlphacks *)
Definition GenerateStructLen (l : Z) : list Byte.byte :=
  map byte.of_Z
    (if l <? 56 then [192 + l]
     else if l <? 256 then [247 + 1; l]
     else if l <? 65536 then [247 + 2; Z.shiftr l 8; Z.land l 255]
     else [247 + 3; Z.shiftr l 16; Z.land (Z.shiftr l 8) 255; Z.land l 255]).

Definition multiByteHeaderPrefixOfLen (l : Z) : Z := 0xB7 + l.

Definition generateByteArrayLen (l : Z) : list Byte.byte :=
  map byte.of_Z
    (if l <? 56 then [0x80 + l]
     else if l <? 256 then [multiByteHeaderPrefixOfLen 1; l]
     else if l <? 65536 then [multiByteHeaderPrefixOfLen 2; Z.shiftr l 8; Z.land l 255]
     else [multiByteHeaderPrefixOfLen 3; Z.shiftr l 16; Z.land (Z.shiftr l 8) 255; Z.land l 255]).

Definition generateRlpPrefixLen (l : Z) : Z :=
  if l <? 2 then 0 else if l <? 56 then 1 else if l <? 256 then 2 else if l <? 65536 then 3 else 4.

Definition generateRlpPrefixLenDouble (l : Z) (firstByte : Z) : Z :=
  if l <? 2 then (if 0x80 <=? firstByte then 2 else 0)
  else if l <? 55 then 2
  else if l <? 56 then 3
  else if l <? 254 then 4
  else if l <? 256 then 5
  else if l <? 65533 then 6
  else if l <? 65536 then 7
  else 8.

Definition generateByteArrayLenDouble (l : Z) : list Byte.byte :=
  map byte.of_Z
    (if l <? 55 then [0x80 + l + 1; 0x80 + l]
     else if l <? 56 then [multiByteHeaderPrefixOfLen 1; l + 1; 0x80 + l]
     else if l <? 254 then [multiByteHeaderPrefixOfLen 1; l + 2; multiByteHeaderPrefixOfLen 1; l]
     else if l <? 256 then
       [multiByteHeaderPrefixOfLen 2; Z.shiftr (l + 2) 8; Z.land (l + 2) 255; multiByteHeaderPrefixOfLen 1; l]
     else if l <? 65533 then
       [multiByteHeaderPrefixOfLen 2; Z.shiftr (l + 3) 8; Z.land (l + 3) 255;
        multiByteHeaderPrefixOfLen 2; Z.shiftr l 8; Z.land l 255]
     else if l <? 65536 then
       [multiByteHeaderPrefixOfLen 3; Z.shiftr (l + 3) 16; Z.land (Z.shiftr (l + 3) 8) 255; Z.land (l + 3) 255;
        multiByteHeaderPrefixOfLen 2; Z.land (Z.shiftr l 8) 255; Z.land l 255]
     else
       [multiByteHeaderPrefixOfLen 3; Z.shiftr (l + 4) 16; Z.land (Z.shiftr (l + 4) 8) 255; Z.land (l + 4) 255;
        multiByteHeaderPrefixOfLen 3; Z.shiftr l 16; Z.land (Z.shiftr l 8) 255; Z.land l 255]).

Definition encodeBytesAsRlp (source : list Byte.byte) (prefixGen : Z -> list Byte.byte) : list Byte.byte :=
  (match source with
   | [] => []
   | [b] => if 0x80 <=? byte.unsigned b then prefixGen 1 else []
   | _ => prefixGen (len source)
   end) ++ source.

(** The bytes to write, and the size returned, which is computed apart. *)
Definition EncodeByteArrayAsRlp (raw : list Byte.byte) : list Byte.byte * Z :=
  (encodeBytesAsRlp raw generateByteArrayLen, generateRlpPrefixLen (len raw) + len raw).

(** The values of leaves: bytes, or bytes that are an RLP encoding already. *)
Inductive RlpSerializable :=
| RlpSerializableBytes (b : list Byte.byte)
| RlpEncodedBytes (b : list Byte.byte).

Definition RawBytes (v : RlpSerializable) : list Byte.byte :=
  match v with RlpSerializableBytes b | RlpEncodedBytes b => b end.

Definition ToDoubleRLP (v : RlpSerializable) : list Byte.byte :=
  match v with
  | RlpSerializableBytes b => encodeBytesAsRlp b generateByteArrayLenDouble
  | RlpEncodedBytes b => encodeBytesAsRlp b generateByteArrayLen
  end.

Definition DoubleRLPLen (v : RlpSerializable) : Z :=
  match v with
  | RlpSerializableBytes [] => 0
  | RlpSerializableBytes ((b0 :: _) as b) => generateRlpPrefixLenDouble (len b) (byte.unsigned b0) + len b
  | RlpEncodedBytes b => generateRlpPrefixLen (len b) + len b
  end.
