(* ===== verification/HashBuilder.v ===== *)
(** The machine that hashes tries: HashBuilder (turbo/trie/hashbuilder.go), and
    the nodes (turbo/trie/node.go) it makes where they are asked for.

    The two stacks have their top at the end.  An entry of the hash stack takes
    33 bytes: the RLP encoding of a hash, or of a node that is shorter, with what
    was in the working buffer before behind it.  Scratch buffers that are
    written before each use are local values.  A node is pushed first and gets
    its reference after it was hashed; since nothing else has the pointer yet,
    this is an update of the top of the stack.  Tracing is off. *)
From S2P Require Import Prelude Uint256 StateTypes Accounts TxCodec TrieKeys.
#[local] Open Scope Z_scope.

Module trie.
Section node.
Context {U : Uint256}.

(** What is cached of a node: its RLP encoding, or the hash of it. *)
Record nodeRef := mk_nodeRef { ref_data : list Byte.byte; ref_len : Z }.

(** The type of the interface values; [nilNode] is the nil interface.  Code
    occurs on the stack of nodes only. *)
Inductive node :=
| nilNode
| fullNode (ref : nodeRef) (Children : list node)
| duoNode (ref : nodeRef) (mask : Z) (child1 child2 : node)
| shortNode (ref : nodeRef) (Key : list Z) (Val : node)
| hashNode (hash : list Byte.byte)
| valueNode (v : list Byte.byte)
| accountNode (a : Account) (storage : node) (rootCorrect : bool) (code : option (list Byte.byte)) (codeSize : Z)
| codeNode (code : list Byte.byte).

Definition noRef : nodeRef := mk_nodeRef (replicate 32 Byte.x00) 0.

Definition isNil (n : node) : bool := match n with nilNode => true | _ => false end.

Definition reference (n : node) : list Byte.byte :=
  match n with
  | fullNode r _ | duoNode r _ _ _ | shortNode r _ _ => take (Z.to_nat (ref_len r)) (ref_data r)
  | hashNode h => h
  | _ => []
  end.

Definition set_ref (r : nodeRef) (n : node) : node :=
  match n with
  | fullNode _ c => fullNode r c
  | duoNode _ m c1 c2 => duoNode r m c1 c2
  | shortNode _ k v => shortNode r k v
  | _ => n
  end.
End node.
End trie.

Inductive TrieError :=
| negativeLength
| noProof
| notCodeNode
| wrongValType
| stackTooShort
| nodeOnTop
| noRoot
| rootEncoding.

Definition codeSizeUncached : Z := -1.
Definition AccountFieldStorageOnly : Z := 0x04.
Definition AccountFieldCodeOnly : Z := 0x08.
Definition hashStackStride : Z := 33.

(** ** The key of a leaf or an extension *)

(** The length of the compact key, its first byte, and where the pairs of
    nibbles start. *)
Definition compactHead (key : list Z) : Z * Z * Z :=
  let key0 := default 0 (lookupZ key 0) in
  if hasTerm key then
    let compactLen := (len key - 1) / 2 + 1 in
    if Z.even (len key) then (compactLen, 0x30 + key0, 1) else (compactLen, 0x20, 0)
  else
    let compactLen := len key / 2 + 1 in
    if Z.odd (len key) then (compactLen, 0x10 + key0, 1) else (compactLen, 0, 0).

(** [hb.keyPrefix[:kp]]. *)
Definition keyPrefix (compactLen : Z) : list Byte.byte := if 1 <? compactLen then [byte.of_Z (0x80 + compactLen)] else [].

(** [for i := 1; i < compactLen; i++ { ... key[ni]*16 + key[ni+1] ...; ni += 2 }]. *)
Fixpoint pairs (n : nat) (key : list Z) (ni : Z) : outcome (list Byte.byte) :=
  match n with
  | O => Ok []
  | S n =>
      a ← or_panic (lookupZ key ni); b ← or_panic (lookupZ key (ni + 1));
      bs ← pairs n key (ni + 2);
      Ok (byte.of_Z (a * 16 + b) :: bs)
  end.

(** [l[:n]] and [l[n:]]. *)
Definition upTo {A} (l : list A) (n : Z) : outcome (list A) :=
  if (0 <=? n) && (n <=? len l) then Ok (take (Z.to_nat n) l) else Panic.

Definition from {A} (l : list A) (n : Z) : outcome (list A) :=
  if (0 <=? n) && (n <=? len l) then Ok (drop (Z.to_nat n) l) else Panic.

(** math/bits.OnesCount16. *)
Definition OnesCount16 (set : Z) : Z := len (filter (fun d => Z.testbit set d = true) (seqZ 0 16)).

Module hb.
Section HashBuilder.
Context {U : Uint256} {UB : Uint256Bytes U} (keccak256 : list Byte.byte -> hash).

(** What a proof collects: the encodings of nodes, the one next to the root
    first (in the code as hexadecimal strings), and the account. *)
Record AccProofResult := mk_AccProofResult {
  AccountProof : option (list (list Byte.byte)); p_Nonce : Z; p_Balance : u256; p_StorageHash : hash; p_CodeHash : hash
}.

Record HashBuilder := mk_HashBuilder {
  hashStack : list Byte.byte;
  nodeStack : list trie.node;
  acc : Account;
  hashBuf : list Byte.byte;
  valBuf : list Byte.byte;
  topHashesCopy : list Byte.byte;
  accProofResult : option AccProofResult;
  collectNode : bool
}.

Definition EmptyCodeHash : hash := keccak256 [].

Definition set_hashStack (x : list Byte.byte) (s : HashBuilder) : HashBuilder :=
  mk_HashBuilder x (nodeStack s) (acc s) (hashBuf s) (valBuf s) (topHashesCopy s) (accProofResult s) (collectNode s).
Definition set_nodeStack (x : list trie.node) (s : HashBuilder) : HashBuilder :=
  mk_HashBuilder (hashStack s) x (acc s) (hashBuf s) (valBuf s) (topHashesCopy s) (accProofResult s) (collectNode s).
Definition set_acc (x : Account) (s : HashBuilder) : HashBuilder :=
  mk_HashBuilder (hashStack s) (nodeStack s) x (hashBuf s) (valBuf s) (topHashesCopy s) (accProofResult s) (collectNode s).
Definition set_hashBuf (x : list Byte.byte) (s : HashBuilder) : HashBuilder :=
  mk_HashBuilder (hashStack s) (nodeStack s) (acc s) x (valBuf s) (topHashesCopy s) (accProofResult s) (collectNode s).
Definition set_valBuf (x : list Byte.byte) (s : HashBuilder) : HashBuilder :=
  mk_HashBuilder (hashStack s) (nodeStack s) (acc s) (hashBuf s) x (topHashesCopy s) (accProofResult s) (collectNode s).
Definition set_topHashesCopy (x : list Byte.byte) (s : HashBuilder) : HashBuilder :=
  mk_HashBuilder (hashStack s) (nodeStack s) (acc s) (hashBuf s) (valBuf s) x (accProofResult s) (collectNode s).
Definition set_proof (x : option AccProofResult) (c : bool) (s : HashBuilder) : HashBuilder :=
  mk_HashBuilder (hashStack s) (nodeStack s) (acc s) (hashBuf s) (valBuf s) (topHashesCopy s) x c.

(** The zero account, without a balance. *)
Definition NewHashBuilder : HashBuilder :=
  mk_HashBuilder [] [] (mk_Account false 0 Clear 0%N 0%N 0) (replicate 33 Byte.x00) (replicate 128 Byte.x00) [] None false.

Definition Reset (s : HashBuilder) : HashBuilder :=
  mk_HashBuilder [] [] (acc s) (hashBuf s) (valBuf s) [] None false.

(** [r] is the record the caller hands in. *)
Definition SetProofReturn (r : AccProofResult) : M HashBuilder unit := modify (fun s =>
  set_proof (Some (mk_AccProofResult (Some []) (p_Nonce r) (p_Balance r) (p_StorageHash r) (p_CodeHash r))) (collectNode s) s).

Definition collectNextNode : M HashBuilder (option TrieError) :=
  r ← gets accProofResult;
  match r with
  | Some (mk_AccProofResult (Some _) _ _ _ _) => _ ← modify (fun s => set_proof (accProofResult s) true s); mret None
  | _ => mret (Some noProof)
  end.

Definition lift {A} (o : outcome A) : M HashBuilder A := fun s => a ← o; Ok (a, s).

(** [accProofResult.AccountProof = append([]string{nodeBytes}, AccountProof...)]. *)
Definition addProof (nodeBytes : list Byte.byte) (collect : HashBuilder -> bool) : M HashBuilder unit := fun s =>
  match accProofResult s with
  | None => Panic
  | Some r =>
      Ok (tt, set_proof (Some (mk_AccProofResult (Some (nodeBytes :: default [] (AccountProof r))) (p_Nonce r) (p_Balance r) (p_StorageHash r) (p_CodeHash r)))
                (collect s) s)
  end.

Definition proofIfCollecting (nodeBytes : list Byte.byte) : M HashBuilder unit :=
  c ← gets collectNode;
  if (c : bool) then addProof nodeBytes (fun _ => false) else mret tt.

Definition push (entry : list Byte.byte) : M HashBuilder unit := modify (fun s => set_hashStack (hashStack s ++ entry) s).
Definition pushNode (n : trie.node) : M HashBuilder unit := modify (fun s => set_nodeStack (nodeStack s ++ [n]) s).

(** [hb.nodeStack[len(hb.nodeStack)-1-popped]]. *)
Definition nodeAt (popped : Z) : M HashBuilder trie.node := fun s =>
  n ← or_panic (lookupZ (nodeStack s) (len (nodeStack s) - popped - 1)); Ok (n, s).

Definition setTop (f : trie.node -> trie.node) : M HashBuilder unit := fun s =>
  n ← or_panic (lookupZ (nodeStack s) (len (nodeStack s) - 1));
  Ok (tt, set_nodeStack (<[Z.to_nat (len (nodeStack s) - 1) := f n]> (nodeStack s)) s).

(** [hb.hashStack[len(hb.hashStack)-n:]]. *)
Definition topBytes (n : Z) : M HashBuilder (list Byte.byte) := fun s =>
  bs ← from (hashStack s) (len (hashStack s) - n); Ok (bs, s).

(** ** Leaves *)
Definition completeLeafHash (key : list Z) (val : RlpSerializable) : M HashBuilder unit :=
  let '(compactLen, compact0, ni) := compactHead key in
  let kp := len (keyPrefix compactLen) in
  let kl := if 1 <? compactLen then compactLen else 1 in
  let totalLen := kp + kl + DoubleRLPLen val in
  let lenPrefix := GenerateStructLen totalLen in
  ps ← lift (pairs (Z.to_nat (compactLen - 1)) key ni);
  let written := lenPrefix ++ keyPrefix compactLen ++ [byte.of_Z compact0] ++ ps ++ ToDoubleRLP val in
  _ ← proofIfCollecting written;
  if totalLen + len lenPrefix <? 32 then
    s ← gets hashBuf;
    r ← lift (copyAt 0 written s);
    modify (set_hashBuf r.2)
  else modify (set_hashBuf (byte.of_Z (0x80 + 32) :: hashBytes (keccak256 written))).

Definition leafHashWithKeyVal (key : list Z) (val : RlpSerializable) : M HashBuilder (option TrieError) :=
  _ ← completeLeafHash key val;
  b ← gets hashBuf;
  _ ← push b;
  more ← gets (fun s => hashStackStride * len (nodeStack s) <? len (hashStack s));
  _ ← (if (more : bool) then pushNode trie.nilNode else mret tt);
  mret None.

(** [keyHex[len(keyHex)-length:]]. *)
Definition suffix (length : Z) (keyHex : list Z) : outcome (list Z) := from keyHex (len keyHex - length).

Definition leafHash (length : Z) (keyHex : list Z) (val : RlpSerializable) : M HashBuilder (option TrieError) :=
  if length <? 0 then mret (Some negativeLength)
  else key ← lift (suffix length keyHex); leafHashWithKeyVal key val.

(** A reference of 32 bytes is a hash, a longer one is the node itself. *)
Definition leafRef (entry : list Byte.byte) : trie.nodeRef :=
  let b := default 0 (byte.unsigned <$> entry !! O) in
  let l := (b - 0x80) mod 256 in
  if 32 <? l then trie.mk_nodeRef (take 32 entry) ((b - 0xc0 + 1) mod 256) else trie.mk_nodeRef (drop 1 entry) l.

Definition leaf (length : Z) (keyHex : list Z) (val : RlpSerializable) : M HashBuilder (option TrieError) :=
  if length <? 0 then mret (Some negativeLength)
  else
    key ← lift (suffix length keyHex);
    _ ← pushNode (trie.shortNode trie.noRef key (trie.valueNode (RawBytes val)));
    err ← leafHashWithKeyVal key val;
    match err with
    | Some err => mret (Some err)
    | None => entry ← topBytes 33; _ ← setTop (trie.set_ref (leafRef entry)); mret None
    end.

(** ** Accounts *)

(** [hb.hashStack[len(hb.hashStack)-popped*hashStackStride-32 : len(hb.hashStack)-popped*hashStackStride]]. *)
Definition hashAt (popped : Z) : M HashBuilder (list Byte.byte) := fun s =>
  let e := len (hashStack s) - popped * hashStackStride in
  bs ← slice (hashStack s) (e - 32) e; Ok (bs, s).

Definition accountLeafHashWithKey (key : list Z) (popped : Z) : M HashBuilder (option TrieError) :=
  a ← gets acc; buf ← gets valBuf;
  r ← lift (EncodeForHashing a buf);
  _ ← modify (set_valBuf r.2);
  val ← lift (upTo r.2 (EncodingLengthForHashing a));
  _ ← completeLeafHash key (RlpEncodedBytes val);
  _ ← (if 0 <? popped then
         s ← gets id;
         hs ← lift (upTo (hashStack s) (len (hashStack s) - popped * hashStackStride));
         ns ← lift (upTo (nodeStack s) (len (nodeStack s) - popped));
         _ ← modify (set_hashStack hs); modify (set_nodeStack ns)
       else mret tt);
  b ← gets hashBuf;
  _ ← push b; _ ← pushNode trie.nilNode; mret None.

(** The account without its root and code hash. *)
Definition workingAccount (balance : u256) (nonce incarnation : Z) (root codeHash : hash) : Account :=
  mk_Account true nonce balance root codeHash incarnation.

Definition accountLeafHash (length : Z) (keyHex : list Z) (balance : u256) (nonce incarnation fieldSet : Z) : M HashBuilder (option TrieError) :=
  key ← lift (suffix length keyHex);
  r ← (if negb (Z.land fieldSet AccountFieldStorageOnly =? 0) then bs ← hashAt 0; mret (bytes_to_N bs, 1) else mret (EmptyRoot, 0));
  let '(root, popped) := r in
  c ← (if negb (Z.land fieldSet AccountFieldCodeOnly =? 0) then bs ← hashAt popped; mret (bytes_to_N bs, popped + 1) else mret (EmptyCodeHash, popped));
  let '(codeHash, popped) := c in
  _ ← modify (set_acc (workingAccount balance nonce incarnation root codeHash));
  accountLeafHashWithKey key popped.

(** The storage of an account leaf: the node on the stack, or its hash. *)
Definition storageNode (root : hash) : M HashBuilder trie.node :=
  if bool_decide (root = EmptyRoot) then mret trie.nilNode
  else n ← nodeAt 0; mret (if trie.isNil n then trie.hashNode (hashBytes root) else n).

(** The code of an account leaf; on the stack there is code or nil. *)
Definition stackCode (codeHash : hash) (popped : Z) : M HashBuilder (TrieError + option (list Byte.byte)) :=
  if bool_decide (codeHash = EmptyCodeHash) then mret (inr None)
  else
    n ← nodeAt popped;
    match n with
    | trie.nilNode => mret (inr None)
    | trie.codeNode code => mret (inr (Some code))
    | _ => mret (inl notCodeNode)
    end.

(** [if hb.accProofResult != nil { ... }] at the end of accountLeaf. *)
Definition proofOfAccount (a : Account) (storage : trie.node) : M HashBuilder unit := modify (fun s =>
  match accProofResult s with
  | None => s
  | Some r =>
      let h := if trie.isNil storage then p_StorageHash r else hashSetBytes (trie.reference storage) in
      set_proof (Some (mk_AccProofResult (AccountProof r) (Nonce a) (Balance a) h (CodeHash a))) (collectNode s) s
  end).

Definition accountLeaf (length : Z) (keyHex : list Z) (balance : u256) (nonce incarnation fieldSet accountCodeSize : Z) : M HashBuilder (option TrieError) :=
  key ← lift (suffix length keyHex);
  r ← (if negb (Z.land fieldSet 4 =? 0) then
         bs ← hashAt 0; root ← storageNode (bytes_to_N bs); mret (bytes_to_N bs, root, 1)
       else mret (EmptyRoot, trie.nilNode, 0));
  let '(root, storage, popped) := r in
  c ← (if negb (Z.land fieldSet 8 =? 0) then
         bs ← hashAt popped; code ← stackCode (bytes_to_N bs) popped; mret (bytes_to_N bs, code, popped + 1)
       else mret (EmptyCodeHash, inr None, popped));
  let '(codeHash, code, popped) := c in
  let a := workingAccount balance nonce incarnation root codeHash in
  _ ← modify (set_acc a);
  match code with
  | inl err => mret (Some err)
  | inr code =>
      let size := match code with Some c => if bool_decide (codeHash = EmptyCodeHash) then accountCodeSize else len c | None => accountCodeSize end in
      err ← accountLeafHashWithKey key popped;
      match err with
      | Some err => mret (Some err)
      | None =>
          h ← topBytes 32;
          _ ← setTop (fun _ => trie.shortNode (trie.mk_nodeRef h 32) key (trie.accountNode a storage true code size));
          _ ← proofOfAccount a storage; mret None
      end
  end.

(** ** Extensions *)

(** The new top of the hash stack: an entry for the hash of what was written. *)
Definition hashEntry (written : list Byte.byte) : list Byte.byte := byte.of_Z (0x80 + 32) :: hashBytes (keccak256 written).

Definition extensionHash (key : list Z) : M HashBuilder (option TrieError) :=
  branchHash ← topBytes hashStackStride;
  let '(compactLen, compact0, ni) := compactHead key in
  let kl := if 1 <? compactLen then compactLen else 1 in
  let totalLen := len (keyPrefix compactLen) + kl + 33 in
  ps ← lift (pairs (Z.to_nat (compactLen - 1)) key ni);
  let written := GenerateStructLen totalLen ++ keyPrefix compactLen ++ [byte.of_Z compact0] ++ ps ++ branchHash in
  _ ← modify (fun s => set_hashStack (take (Z.to_nat (len (hashStack s) - hashStackStride)) (hashStack s) ++ hashEntry written) s);
  collecting ← gets (fun s => isSome (accProofResult s));
  _ ← (if (collecting : bool) then addProof written collectNode else mret tt);
  n ← nodeAt 0;
  match n with
  | trie.fullNode _ _ => mret (Some nodeOnTop)
  | _ => mret None
  end.

Definition extension (key : list Z) : M HashBuilder (option TrieError) :=
  n ← nodeAt 0;
  let go s :=
    _ ← setTop (fun _ => s);
    err ← extensionHash key;
    match err with
    | Some err => mret (Some err)
    | None => h ← topBytes 32; _ ← setTop (trie.set_ref (trie.mk_nodeRef h 32)); mret None
    end in
  match n with
  | trie.nilNode => h ← topBytes 32; go (trie.shortNode trie.noRef key (trie.hashNode h))
  | trie.fullNode _ _ => go (trie.shortNode trie.noRef key n)
  | _ => mret (Some wrongValType)
  end.

(** ** Branches *)

(** [hashes[hashStackStride*i]]. *)
Definition firstByte (hashes : list Byte.byte) (i : Z) : outcome Z := index hashes (hashStackStride * i).

Fixpoint branchSize (digits : list Z) (set : Z) (hashes : list Byte.byte) (i totalSize : Z) : outcome Z :=
  match digits with
  | [] => Ok totalSize
  | digit :: digits =>
      if Z.testbit set digit then
        b ← firstByte hashes i;
        branchSize digits set hashes (i + 1) (totalSize + (if b =? 0x80 + 32 then 32 else (b - 0xc0) mod 256))
      else branchSize digits set hashes i totalSize
  end.

Fixpoint branchBytes (digits : list Z) (set : Z) (hashes : list Byte.byte) (i : Z) : outcome (list Byte.byte) :=
  match digits with
  | [] => Ok []
  | digit :: digits =>
      if Z.testbit set digit then
        b ← firstByte hashes i;
        let size := if b =? 0x80 + 32 then 32 else b - 0xc0 in
        child ← slice hashes (hashStackStride * i) (hashStackStride * i + size + 1);
        bs ← branchBytes digits set hashes (i + 1);
        Ok (child ++ bs)
      else bs ← branchBytes digits set hashes i; Ok (byte.of_Z 0x80 :: bs)
  end.

Definition branchHash (set : Z) : M HashBuilder (option TrieError) :=
  let digits := OnesCount16 set in
  s ← gets id;
  if len (hashStack s) <? hashStackStride * digits then mret (Some stackTooShort)
  else
    hashes ← topBytes (hashStackStride * digits);
    totalSize ← lift (branchSize (seqZ 0 16) set hashes 0 17);
    children ← lift (branchBytes (seqZ 0 17) set hashes 0);
    let written := GenerateStructLen totalSize ++ children in
    hs ← lift (upTo (hashStack s) (len (hashStack s) - hashStackStride * digits + hashStackStride));
    _ ← modify (set_hashStack (take (length hs - 33) hs ++ hashEntry written));
    _ ← proofIfCollecting written;
    s ← gets id;
    _ ← (if len (hashStack s) <? hashStackStride * len (nodeStack s) then
           ns ← lift (upTo (nodeStack s) (len (nodeStack s) - digits + 1));
           _ ← modify (set_nodeStack ns);
           setTop (fun _ => trie.nilNode)
         else mret tt);
    mret None.

(** The children of the new node: a nil node stands for its hash. *)
Fixpoint branchChildren (digits : list Z) (set : Z) (nodes : list trie.node) (hashes : list Byte.byte) (i : Z) : outcome (list trie.node) :=
  match digits with
  | [] => Ok []
  | digit :: digits =>
      if Z.testbit set digit then
        n ← or_panic (lookupZ nodes i);
        child ← (if trie.isNil n then h ← slice hashes (hashStackStride * i + 1) (hashStackStride * (i + 1)); Ok (trie.hashNode h) else Ok n);
        cs ← branchChildren digits set nodes hashes (i + 1);
        Ok (child :: cs)
      else cs ← branchChildren digits set nodes hashes i; Ok (trie.nilNode :: cs)
  end.

Definition branch (set : Z) : M HashBuilder (option TrieError) :=
  let digits := OnesCount16 set in
  s ← gets id;
  if len (nodeStack s) <? digits then mret (Some stackTooShort)
  else
    nodes ← lift (from (nodeStack s) (len (nodeStack s) - digits));
    hashes ← topBytes (hashStackStride * digits);
    children ← lift (branchChildren (seqZ 0 16) set nodes hashes 0);
    ns ← lift (upTo (nodeStack s) (len (nodeStack s) - digits + 1));
    _ ← modify (set_nodeStack ns);
    _ ← setTop (fun _ => trie.fullNode trie.noRef (children ++ [trie.nilNode]));
    err ← branchHash set;
    match err with
    | Some err => mret (Some err)
    | None => h ← topBytes 32; _ ← setTop (trie.set_ref (trie.mk_nodeRef h 32)); mret None
    end.

(** ** Hashes and roots *)
Definition hash_ (h : list Byte.byte) : M HashBuilder (option TrieError) :=
  _ ← push (byte.of_Z (0x80 + 32) :: h); _ ← pushNode trie.nilNode; mret None.

Definition code (c : list Byte.byte) : M HashBuilder (option TrieError) :=
  _ ← pushNode (trie.codeNode c); _ ← push (hashEntry c); mret None.

Definition emptyRoot : M HashBuilder unit :=
  _ ← pushNode trie.nilNode; push (byte.of_Z (0x80 + 32) :: hashBytes EmptyRoot).

Definition topHash : M HashBuilder (list Byte.byte) := fun s =>
  let pos := len (hashStack s) - hashStackStride in
  b ← index (hashStack s) pos;
  let l := (b - 0x80) mod 256 in
  let l := if 32 <? l then (b - 0xc0) mod 256 else l in
  bs ← slice (hashStack s) pos (pos + 1 + l); Ok (bs, s).

Definition rootHash : M HashBuilder hash :=
  top ← topHash;
  mret (if len top =? 33 then bytes_to_N (drop 1 top) else keccak256 top).

Definition hasRoot (s : HashBuilder) : bool := 0 <? len (nodeStack s).

Definition RootHash : M HashBuilder (TrieError + hash) :=
  has ← gets hasRoot;
  if (has : bool) then h ← rootHash; mret (inr h) else mret (inl noRoot).

Definition root : M HashBuilder trie.node := nodeAt 0.

(** The loop of topHashes; [hasHash] has 16 bits. *)
Fixpoint topHashes_loop (fuel : nat) (hasHash hasState : Z) (hashes : list Byte.byte) (i : Z) : outcome (list Byte.byte) :=
  match fuel with
  | O => Ok []
  | S fuel =>
      if hasHash <=? 0 then Ok []
      else if Z.even hasState then topHashes_loop fuel (Z.shiftr hasHash 1) (Z.shiftr hasState 1) hashes i
      else
        h ← (if Z.odd hasHash then slice hashes (hashStackStride * i + 1) (hashStackStride * (i + 1)) else Ok []);
        hs ← topHashes_loop fuel (Z.shiftr hasHash 1) (Z.shiftr hasState 1) hashes (i + 1);
        Ok (h ++ hs)
  end.

Definition topHashes (hasHash hasState : Z) : M HashBuilder (list Byte.byte) :=
  hashes ← topBytes (hashStackStride * OnesCount16 hasState);
  hs ← lift (topHashes_loop 16 hasHash hasState hashes 0);
  _ ← modify (set_topHashesCopy hs); mret hs.
End HashBuilder.
End hb.
