(* ===== verification/GenStructStep.v ===== *)
(** The generation of the structure of a trie from the sequence of its keys:
    GenStructStep (turbo/trie/gen_struct_step.go), over any machine that takes
    the instructions it emits ([structInfoReceiver]), and HashBuilder as one.

    The bit sets groups, hasTree and hasHash are uint16 values.  The hash
    collector, the functions that tell which nodes to keep and which to prove,
    are callbacks; the collector may use the state the machine is in. *)
From S2P Require Import Prelude Uint256 StateTypes Accounts TrieKeys HashBuilder.
#[local] Open Scope Z_scope.

(** The interface structInfoReceiver; printTopHashes is for tracing only. *)
Class structInfoReceiver {U : Uint256} (S : Type) := {
  e_leaf : Z -> list Z -> RlpSerializable -> M S (option TrieError);
  e_leafHash : Z -> list Z -> RlpSerializable -> M S (option TrieError);
  e_accountLeaf : Z -> list Z -> u256 -> Z -> Z -> Z -> Z -> M S (option TrieError);
  e_accountLeafHash : Z -> list Z -> u256 -> Z -> Z -> Z -> M S (option TrieError);
  e_extension : list Z -> M S (option TrieError);
  e_extensionHash : list Z -> M S (option TrieError);
  e_branch : Z -> M S (option TrieError);
  e_branchHash : Z -> M S (option TrieError);
  e_hash : list Byte.byte -> M S (option TrieError);
  e_topHash : M S (list Byte.byte);
  e_topHashes : Z -> Z -> M S (list Byte.byte);
  e_collectNextNode : M S (option TrieError)
}.

#[export] Instance HashBuilder_receiver {U : Uint256} {UB : Uint256Bytes U} (keccak256 : list Byte.byte -> hash) :
  structInfoReceiver hb.HashBuilder := {
  e_leaf := hb.leaf keccak256;
  e_leafHash := hb.leafHash keccak256;
  e_accountLeaf := hb.accountLeaf keccak256;
  e_accountLeafHash := hb.accountLeafHash keccak256;
  e_extension := hb.extension keccak256;
  e_extensionHash := hb.extensionHash keccak256;
  e_branch := hb.branch keccak256;
  e_branchHash := hb.branchHash keccak256;
  e_hash := hb.hash_;
  e_topHash := hb.topHash;
  e_topHashes := hb.topHashes;
  e_collectNextNode := hb.collectNextNode
}.

Section GenStructStep.
Context {U : Uint256} {S : Type} {R : structInfoReceiver S}.

Inductive GenStructStepData :=
| GenStructStepAccountData (FieldSet : Z) (Balance : u256) (Nonce Incarnation : Z)
| GenStructStepLeafData (Value : RlpSerializable)
| GenStructStepHashData (Hash : hash) (HasTree : bool).

(** HashCollector2: key, the three sets, the hashes and the hash of the root. *)
Definition HashCollector2 : Type := list Z -> Z -> Z -> Z -> list Byte.byte -> list Byte.byte -> M S (option TrieError).

(** ** Sets of digits *)

(** [1 << digit] as a uint16. *)
Definition bit (digit : Z) : Z := if digit <? 16 then Z.shiftl 1 digit else 0.

(** [sets[i] |= 1 << digit] and [sets[i] &^= 1 << digit]. *)
Definition orBit (sets : list Z) (i digit : Z) : outcome (list Z) :=
  x ← or_panic (lookupZ sets i); Ok (<[Z.to_nat i := Z.lor x (bit digit)]> sets).

Definition clearBit (sets : list Z) (i digit : Z) : outcome (list Z) :=
  x ← or_panic (lookupZ sets i); Ok (<[Z.to_nat i := Z.ldiff x (bit digit)]> sets).

(** [for i >= len(sets) { sets = append(sets, 0) }]. *)
Definition extendTo (sets : list Z) (i : Z) : list Z := sets ++ replicate (Z.to_nat (i + 1 - len sets)) 0.

(** What the step keeps from one turn to the next. *)
Record sets := mk_sets { groups : list Z; hasTree : list Z; hasHash : list Z }.

Definition pure {A} (o : outcome A) : M S A := fun s => a ← o; Ok (a, s).

(** [if err := m; err != nil { return nil, nil, nil, err }]. *)
Definition orReturn {A} (m : M S (option TrieError)) (k : M S (TrieError + A)) : M S (TrieError + A) :=
  err ← m; match err with Some err => mret (inl err) | None => k end.

(** ** Parts of a turn *)

(** The leaf or the hash; whether an extension may follow. *)
Definition emitData (retain : list Z -> bool) (wantProof : option (list Z -> bool)) (data : GenStructStepData)
    (curr : list Z) (maxLen remainderLen : Z) (st : sets) : M S (TrieError + bool * sets) :=
  match data with
  | GenStructStepHashData h tree =>
      digit ← pure (or_panic (lookupZ curr (len curr - 1)));
      ht ← pure (if (tree : bool) then orBit (hasTree st) (len curr - 1) digit else Ok (hasTree st));
      hh ← pure (orBit (hasHash st) (len curr - 1) digit);
      orReturn (e_hash (hashBytes h)) (mret (inr (true, mk_sets (groups st) ht hh)))
  | GenStructStepAccountData fieldSet balance nonce incarnation =>
      if retain (take (Z.to_nat maxLen) curr) || match wantProof with Some w => w (butLast curr) | None => false end then
        _ ← e_collectNextNode;
        orReturn (e_accountLeaf remainderLen curr balance nonce incarnation fieldSet codeSizeUncached) (mret (inr (false, st)))
      else orReturn (e_accountLeafHash remainderLen curr balance nonce incarnation fieldSet) (mret (inr (false, st)))
  | GenStructStepLeafData v =>
      orReturn (if retain (take (Z.to_nat maxLen) curr) then e_leaf remainderLen curr v else e_leafHash remainderLen curr v)
        (mret (inr (false, st)))
  end.

(** [for i := from; i < end; i++]: an extension has no hash of its own, but what
    lies below it in the database is kept track of. *)
Fixpoint propagate (n : nat) (h : option HashCollector2) (curr : list Z) (from i : Z) (ht : list Z) : M S (TrieError + list Z) :=
  match n with
  | O => mret (inr ht)
  | Datatypes.S n =>
      d ← pure (or_panic (lookupZ curr i)); x ← pure (or_panic (lookupZ ht i));
      ht ← pure (if Z.land (bit d) x =? 0 then Ok ht else p ← or_panic (lookupZ curr (from - 1)); orBit ht (from - 1) p);
      orReturn (match h with Some h => h (take (Z.to_nat i) curr) 0 0 0 [] [] | None => mret None end)
        (propagate n h curr from (i + 1) ht)
  end.

Definition emitExtension (retain : list Z -> bool) (h : option HashCollector2) (curr : list Z) (maxLen remainderStart remainderLen : Z)
    (st : sets) : M S (TrieError + sets) :=
  let from := if remainderStart =? 0 then 1 else remainderStart in
  p ← pure (or_panic (lookupZ curr (from - 1)));
  hh ← pure (clearBit (hasHash st) (from - 1) p);
  r ← propagate (Z.to_nat (remainderStart + remainderLen - from)) h curr from from (hasTree st);
  match r with
  | inl err => mret (inl err)
  | inr ht =>
      ht ← pure (upTo ht from); hh ← pure (upTo hh from);
      key ← pure (HashBuilder.from curr remainderStart);
      orReturn (if retain (take (Z.to_nat maxLen) curr) then e_extension key else e_extensionHash key)
        (mret (inr (mk_sets (groups st) ht hh)))
  end.

(** The hashes that are worth keeping, which are announced to the collector. *)
Definition announce (h : option HashCollector2) (curr : list Z) (maxLen : Z) (st : sets) : M S (TrieError + list Byte.byte * sets) :=
  match h with
  | None => mret (inr ([], st))
  | Some h =>
      hh ← pure (or_panic (lookupZ (hasHash st) maxLen)); ht ← pure (if hh =? 0 then or_panic (lookupZ (hasTree st) maxLen) else Ok 1);
      if (hh =? 0) && (ht =? 0) then mret (inr ([], st))
      else
        g ← pure (or_panic (lookupZ (groups st) maxLen));
        usefulHashes ← e_topHashes hh g;
        p ← pure (if maxLen =? 0 then Ok 0 else or_panic (lookupZ curr (maxLen - 1)));
        trees ← pure (if maxLen =? 0 then Ok (hasTree st) else orBit (hasTree st) (maxLen - 1) p);
        t ← pure (or_panic (lookupZ trees maxLen));
        orReturn (if 1 <? maxLen then h (take (Z.to_nat maxLen) curr) g t hh usefulHashes [] else mret None)
          (mret (inr (usefulHashes, mk_sets (groups st) trees (hasHash st))))
  end.

(** The branch that closes the group of [curr[:maxLen]]. *)
Definition emitBranch (retain : list Z -> bool) (wantProof : option (list Z -> bool)) (cutoff : bool) (curr succ : list Z) (maxLen : Z)
    (st : sets) : M S (TrieError + sets) :=
  st' ← (if 0 <? maxLen then
           p ← pure (or_panic (lookupZ curr (maxLen - 1)));
           hh ← pure (orBit (hasHash st) (maxLen - 1) p);
           t ← pure (or_panic (lookupZ (hasTree st) maxLen));
           ht ← pure (if t =? 0 then Ok (hasTree st) else orBit (hasTree st) (maxLen - 1) p);
           mret (mk_sets (groups st) ht hh)
         else mret st);
  let doProof :=
    match wantProof with
    | None => false
    | Some w => ((0 <? maxLen) && w (take (Z.to_nat maxLen) curr)) || ((len succ =? 0) && (maxLen =? 0) && cutoff)
    end in
  g ← pure (or_panic (lookupZ (groups st) maxLen));
  if retain (take (Z.to_nat maxLen) curr) || doProof then
    _ ← e_collectNextNode; orReturn (e_branch g) (mret (inr st'))
  else orReturn (e_branchHash g) (mret (inr st')).

(** The root, and the nodes next to it, are announced with their hashes. *)
Definition announceRoot (h : option HashCollector2) (curr : list Z) (maxLen : Z) (usefulHashes : list Byte.byte) (st : sets) : M S (option TrieError) :=
  match h with
  | None => mret None
  | Some h =>
      send ← pure (if maxLen =? 0 then
                     t ← or_panic (lookupZ (hasTree st) maxLen);
                     hh ← (if t =? 0 then or_panic (lookupZ (hasHash st) maxLen) else Ok 1);
                     Ok (negb ((t =? 0) && (hh =? 0)))
                   else if maxLen =? 1 then g ← or_panic (lookupZ (groups st) maxLen); Ok (negb (g =? 0)) else Ok false);
      if (send : bool) then
        g ← pure (or_panic (lookupZ (groups st) maxLen)); t ← pure (or_panic (lookupZ (hasTree st) maxLen));
        hh ← pure (or_panic (lookupZ (hasHash st) maxLen)); top ← e_topHash; rootHash ← pure (HashBuilder.from top 1);
        h (take (Z.to_nat maxLen) curr) g t hh usefulHashes rootHash
      else mret None
  end.

(** [for len(groups) > 0 && groups[len(groups)-1] == 0 { groups = groups[:len(groups)-1] }]. *)
Fixpoint dropZeros (revGroups : list Z) : list Z :=
  match revGroups with
  | 0 :: gs => dropZeros gs
  | gs => gs
  end.

(** ** The step *)

(** What follows the leaf, hash or extension: a return while the group of
    [succ] is open, or else the branch that closes the group, and the next turn
    on the key of the branch. *)
Definition closeGroup (retain : list Z -> bool) (h : option HashCollector2) (wantProof : option (list Z -> bool)) (cutoff : bool)
    (next : list Z -> sets -> M S (TrieError + sets)) (curr succ : list Z) (precExists : bool) (precLen succLen maxLen : Z) (st : sets) :
    M S (TrieError + sets) :=
  if (precLen <=? succLen) && (0 <? len succ) then mret (inr st)
  else
    a ← announce h curr maxLen st;
    match a with
    | inl err => mret (inl err)
    | inr (usefulHashes, st) =>
        b ← (if (0 <? len succ) || precExists then emitBranch retain wantProof cutoff curr succ maxLen st else mret (inr st));
        match b with
        | inl err => mret (inl err)
        | inr st =>
            orReturn (announceRoot h curr maxLen usefulHashes st)
              (gs ← pure (upTo (groups st) maxLen); ht ← pure (upTo (hasTree st) maxLen); hh ← pure (upTo (hasHash st) maxLen);
               if precLen =? 0 then mret (inr (mk_sets gs ht hh))
               else next (take (Z.to_nat precLen) curr) (mk_sets (rev (dropZeros (rev gs))) ht hh))
        end
    end.

(** The leaf, hash or extension for [curr[remainderStart:]]. *)
Definition emitNode (retain : list Z -> bool) (h : option HashCollector2) (data : GenStructStepData) (wantProof : option (list Z -> bool))
    (buildExtensions : bool) (curr : list Z) (maxLen remainderStart remainderLen : Z) (st : sets) : M S (TrieError + sets) :=
  d ← (if buildExtensions then mret (inr (true, st)) else emitData retain wantProof data curr maxLen remainderLen st);
  match d with
  | inl err => mret (inl err)
  | inr (buildExtensions, st) =>
      if buildExtensions && (0 <? remainderLen) then emitExtension retain h curr maxLen remainderStart remainderLen st else mret (inr st)
  end.

(** The loop; [buildExtensions] is false in the first turn only, and each turn
    shortens [curr]. *)
Fixpoint genStructLoop (fuel : nat) (retain : list Z -> bool) (h : option HashCollector2) (data : GenStructStepData)
    (wantProof : option (list Z -> bool)) (cutoff : bool) (buildExtensions : bool) (curr succ : list Z) (st : sets) : M S (TrieError + sets) :=
  match fuel with
  | O => out_of_fuel
  | Datatypes.S fuel =>
      let precExists := 0 <? len (groups st) in
      let precLen := if precExists then len (groups st) - 1 else 0 in
      let succLen := prefixLen succ curr in
      let maxLen := if succLen <? precLen then precLen else succLen in
      extraDigit ← pure (or_panic (lookupZ curr maxLen));
      gs ← pure (orBit (extendTo (groups st) maxLen) maxLen extraDigit);
      let remainderStart := if (0 <? len succ) || precExists then maxLen + 1 else maxLen in
      let remainderLen := len curr - remainderStart in
      let more := Z.to_nat (remainderStart + remainderLen + 1 - len (hasTree st)) in
      let st := mk_sets gs (hasTree st ++ replicate more 0) (hasHash st ++ replicate more 0) in
      x ← emitNode retain h data wantProof buildExtensions curr maxLen remainderStart remainderLen st;
      match x with
      | inl err => mret (inl err)
      | inr st =>
          closeGroup retain h wantProof cutoff (fun curr st => genStructLoop fuel retain h data wantProof cutoff true curr succ st)
            curr succ precExists precLen succLen maxLen st
      end
  end.

Definition GenStructStepEx (retain : list Z -> bool) (curr succ : list Z) (h : option HashCollector2) (data : GenStructStepData) (st : sets)
    (wantProof : option (list Z -> bool)) (cutoff : bool) : M S (TrieError + sets) :=
  genStructLoop (Datatypes.S (length curr)) retain h data wantProof cutoff false curr succ st.

Definition GenStructStep (retain : list Z -> bool) (curr succ : list Z) (h : option HashCollector2) (data : GenStructStepData) (st : sets) : M S (TrieError + sets) :=
  GenStructStepEx retain curr succ h data st None false.
End GenStructStep.
