(* ===== verification/DeriveSha.v ===== *)
(** The roots of the lists in a block: DeriveSha and what it uses of
    core/types/hashing.go.

    A [DerivableList] is its length and its method EncodeIndex.  The methods of
    core/types/transaction.go and core/types/withdrawal.go write to a buffer that
    grows and so never fail. *)
From S2P Require Import Prelude Uint256 StateTypes Accounts Transaction Rlp RlpStream TxCodec BlockCodec TrieKeys HashBuilder GenStructStep.
#[local] Open Scope Z_scope.

(** hexWriter.WriteByte, for the bytes of a slice. *)
Definition hexWrite (bs : list Byte.byte) : list Z := concat (map (fun b => [byte.unsigned b / 16; byte.unsigned b mod 16]) bs).

(** [for size = 1; ; size++ { if i >>= 8; i == 0 { return size } }]; an uint has
    8 bytes. *)
Fixpoint intsize_loop (fuel : nat) (i size : Z) : Z :=
  match fuel with
  | O => size
  | S fuel => let i := Z.shiftr i 8 in if i =? 0 then size else intsize_loop fuel i (size + 1)
  end.

Definition uintSize (i : Z) : Z := intsize_loop 8 i 1.

Definition encodeIndexKey (i : Z) : list Byte.byte :=
  if i =? 0 then [byte.of_Z 0x80]
  else if i <? 128 then [byte.of_Z i]
  else
    let size := uintSize i in
    byte.of_Z (0x80 + size) :: map (fun j => byte.of_Z (Z.shiftr i ((size - j) * 8))) (seqZ 1 size).

Definition adjustIndex (i l : Z) : Z :=
  if (0 <=? i) && (i <? 127) && (i <? l - 1) then i + 1
  else if (i =? 127) || ((i <? 127) && (l - 1 <=? i)) then 0
  else i.

(** The pairs of indices that traverseInLexOrder hands to the traverser. *)
Definition traverseInLexOrder (l : Z) : list (Z * Z) :=
  map (fun i => (adjustIndex i l, adjustIndex (if l <=? i + 1 then -1 else i + 1) l)) (seqZ (-1) (l + 1)).

Definition retainNothing (prefix : list Z) : bool := false.

Section DeriveSha.
Context {U : Uint256} {UB : Accounts.Uint256Bytes U} (keccak256 : list Byte.byte -> hash).
Context (EncodeIndex : Z -> outcome (list Byte.byte)).

#[local] Instance receiver : structInfoReceiver hb.HashBuilder := HashBuilder_receiver keccak256.

(** The traverser: [succ] becomes [curr]; the error of a step is dropped, and its
    sets are nil then. *)
Definition traverser (i next : Z) (succ : list Z) (st : sets) : M hb.HashBuilder (list Z * sets) :=
  let curr := succ in
  let succ := if 0 <=? next then hexWrite (encodeIndexKey next) ++ [16] else [] in
  if 0 <? len curr then
    value ← hb.lift (EncodeIndex i);
    r ← GenStructStep retainNothing curr succ None (GenStructStepLeafData (RlpEncodedBytes value)) st;
    mret (succ, match r with inr st => st | inl _ => mk_sets [] [] [] end)
  else mret (succ, st).

Fixpoint traverseAll (steps : list (Z * Z)) (succ : list Z) (st : sets) : M hb.HashBuilder unit :=
  match steps with
  | [] => mret tt
  | (i, next) :: steps => r ← traverser i next succ st; traverseAll steps r.1 r.2
  end.

Definition DeriveSha (Len : Z) : outcome hash :=
  if Len <? 1 then Ok EmptyRoot
  else
    r ← traverseAll (traverseInLexOrder Len) [] (mk_sets [] [] []) (hb.Reset hb.NewHashBuilder);
    h ← hb.RootHash keccak256 r.2;
    Ok (match h.1 with inr h => h | inl _ => 0%N end).
End DeriveSha.

Definition BinaryTransactions_EncodeIndex (t : list (list Byte.byte)) (i : Z) : outcome (list Byte.byte) := or_panic (lookupZ t i).

Definition Withdrawals_EncodeIndex (s : list Withdrawal) (i : Z) : outcome (list Byte.byte) :=
  o ← or_panic (lookupZ s i); written 33 (Withdrawal_EncodeRLP o).

Section transactions.
Context {U : Uint256} {UC : Uint256Codec U} {EB : EncoderBuffer}.

Definition Transactions_EncodeIndex (s : list WireTx) (i : Z) : outcome (list Byte.byte) :=
  tx ← or_panic (lookupZ s i); written 33 (MarshalBinary tx).
End transactions.
