(* ===== verification/PatriciaSpec.v ===== *)
(** The Merkle Patricia trie as the Yellow Paper (appendix D) defines it: what a
    trie is, its contents, its encoding and hash, and the one trie that a set of
    keys and values has.

    Keys are lists of nibbles, none of which is a prefix of another, so that no
    branch has a value.  A subtree of which only the hash is known is an
    [Opaque] one. *)
From stdpp Require Import sorting.
From S2P Require Import Prelude Uint256 StateTypes Accounts AccountSpec Rlp RlpSpec.
#[local] Open Scope Z_scope.

Inductive entry := Val (v : list Byte.byte) | Hashed (h : hash).

Inductive patricia :=
| Leaf (key : list Z) (v : list Byte.byte)
| Extension (key : list Z) (child : patricia)
| Branch (children : list (Z * patricia))
| Opaque (h : hash).

(** * Contents *)
Definition under (p : list Z) (kvs : list (list Z * entry)) : list (list Z * entry) := map (fun kv => (p ++ kv.1, kv.2)) kvs.

Fixpoint contents (t : patricia) : list (list Z * entry) :=
  match t with
  | Leaf k v => [(k, Val v)]
  | Extension k t => under k (contents t)
  | Branch cs => concat (map (fun c => under [c.1] (contents c.2)) cs)
  | Opaque h => [([], Hashed h)]
  end.

(** * Encoding *)

(** The hex-prefix encoding: a flag for the kind of node, with the first nibble if
    their number is odd, and then pairs of nibbles. *)
Fixpoint packNibbles (k : list Z) : list Byte.byte :=
  match k with
  | a :: b :: k => byte.of_Z (16 * a + b) :: packNibbles k
  | _ => []
  end.

Definition hexPrefix (leaf : bool) (k : list Z) : list Byte.byte :=
  let flag := if leaf then 2 else 0 in
  if Z.odd (len k) then
    match k with
    | a :: k => byte.of_Z (16 * (flag + 1) + a) :: packNibbles k
    | [] => []
    end
  else byte.of_Z (16 * flag) :: packNibbles k.

Section encoding.
Context (keccak256 : list Byte.byte -> hash).

(** A node of less than 32 bytes stands for itself, a longer one is referred to
    by its hash. *)
Definition refOf (e : list Byte.byte) : list Byte.byte := if len e <? 32 then e else rlpStr (hashBytes (keccak256 e)).

Definition childRef (refs : list (Z * list Byte.byte)) (d : Z) : list Byte.byte :=
  default (rlpStr []) (snd <$> find (fun c => c.1 =? d) refs).

(** The second component is the reference in the parent; an opaque node has no
    encoding of its own. *)
Fixpoint encodeRef (t : patricia) : list Byte.byte * list Byte.byte :=
  match t with
  | Leaf k v => let e := rlpLst (rlpStr (hexPrefix true k) ++ rlpStr v) in (e, refOf e)
  | Extension k t => let e := rlpLst (rlpStr (hexPrefix false k) ++ (encodeRef t).2) in (e, refOf e)
  | Branch cs =>
      let refs := map (fun c => (c.1, (encodeRef c.2).2)) cs in
      let e := rlpLst (concat (map (childRef refs) (seqZ 0 16)) ++ rlpStr []) in (e, refOf e)
  | Opaque h => ([], rlpStr (hashBytes h))
  end.

Definition encode (t : patricia) : list Byte.byte := (encodeRef t).1.

Definition rootOf (t : patricia) : hash := match t with Opaque h => h | _ => keccak256 (encode t) end.
End encoding.

(** * The trie of a set of keys *)
Definition strip (n : nat) (kvs : list (list Z * entry)) : list (list Z * entry) := map (fun kv => (drop n kv.1, kv.2)) kvs.

Definition startsWith (d : Z) (kv : list Z * entry) : bool := match kv.1 with x :: _ => x =? d | [] => false end.

Fixpoint common (a b : list Z) : list Z :=
  match a, b with
  | x :: a, y :: b => if x =? y then x :: common a b else []
  | _, _ => []
  end.

Definition commonPrefix (kvs : list (list Z * entry)) : list Z :=
  match kvs with
  | [] => []
  | kv :: kvs => foldr (fun kv p => common p kv.1) kv.1 kvs
  end.

(** The function c of the Yellow Paper, on a set in any order; a turn shortens the
    keys, so that one more than the length of the longest is enough fuel. *)
Fixpoint trieOf (fuel : nat) (kvs : list (list Z * entry)) : patricia :=
  match fuel with
  | O => Branch []
  | S fuel =>
      match kvs with
      | [(k, Val v)] => Leaf k v
      | [([], Hashed h)] => Opaque h
      | [(k, Hashed h)] => Extension k (Opaque h)
      | _ =>
          match commonPrefix kvs with
          | [] =>
              Branch (omap (fun d =>
                match filter (fun kv => startsWith d kv = true) kvs with
                | [] => None
                | sub => Some (d, trieOf fuel (strip 1 sub))
                end) (seqZ 0 16))
          | p => Extension p (trieOf fuel (strip (length p) kvs))
          end
      end
  end.

Definition longest (kvs : list (list Z * entry)) : nat := foldr (fun kv n => Nat.max (length kv.1) n) O kvs.

Definition patriciaOf (kvs : list (list Z * entry)) : patricia := trieOf (S (longest kvs)) kvs.

(** * The trie is determined by its contents *)
Definition nibble (d : Z) : Prop := 0 <= d < 16.

#[export] Instance nibble_dec d : Decision (nibble d).
Proof. unfold nibble. apply _. Defined.

Definition branching (t : patricia) : Prop := match t with Branch _ | Opaque _ => True | _ => False end.

(** No branch with less than two children, and no extension that could be part of
    what is below it. *)
Fixpoint canonical (t : patricia) : Prop :=
  match t with
  | Leaf k _ => Forall nibble k
  | Extension k t => k <> [] /\ Forall nibble k /\ branching t /\ canonical t
  | Branch cs =>
      (2 <= length cs)%nat /\ StronglySorted Z.lt (map fst cs) /\ Forall nibble (map fst cs) /\
      foldr and True (map (fun c => canonical c.2) cs)
  | Opaque _ => True
  end.

Lemma patricia_nested_ind (P : patricia -> Prop) :
  (forall k v, P (Leaf k v)) -> (forall k t, P t -> P (Extension k t)) ->
  (forall cs, Forall (fun c => P c.2) cs -> P (Branch cs)) -> (forall h, P (Opaque h)) -> forall t, P t.
Proof.
  intros HL HE HB HO. fix IH 1. intros [k v|k t|cs|h]; [apply HL|apply HE, IH| |apply HO].
  apply HB. induction cs as [|[d t] cs IHcs]; constructor; [apply IH|exact IHcs].
Qed.

Lemma canonical_children cs : foldr and True (map (fun c => canonical c.2) cs) <-> Forall (fun c : Z * patricia => canonical c.2) cs.
Proof.
  induction cs as [|c cs IH]; cbn; [split; [constructor|done]|]. rewrite IH. split.
  - intros [? ?]. by constructor.
  - intros H. inversion_clear H. done.
Qed.

Lemma under_app p q kvs : under (p ++ q) kvs = under p (under q kvs).
Proof. unfold under. rewrite map_map. apply map_ext. intros [k e]. cbn. by rewrite app_assoc. Qed.

Lemma under_nil kvs : under [] kvs = kvs.
Proof. unfold under. rewrite <- (map_id kvs) at 2. apply map_ext. by intros [k e]. Qed.

Lemma under_concat p xs : under p (xs.1 ++ xs.2) = under p xs.1 ++ under p xs.2.
Proof. apply map_app. Qed.

Lemma strip_under p kvs : strip (length p) (under p kvs) = kvs.
Proof.
  unfold strip, under. rewrite map_map. rewrite <- (map_id kvs) at 2. apply map_ext. intros [k e]. cbn. by rewrite drop_app_length.
Qed.

Lemma contents_nonempty t : canonical t -> contents t <> [].
Proof.
  induction t as [k v|k t IH|cs IH|h] using patricia_nested_ind; cbn; [done| | |done].
  - intros (_ & _ & _ & Hc) E. apply (IH Hc). by destruct (contents t).
  - intros (Hl & _ & _ & Hc) E. destruct cs as [|c cs]; [cbn in Hl; lia|]. cbn in E, Hc. inversion_clear IH as [|? ? IHc _].
    apply app_eq_nil in E as [E _]. apply (IHc (proj1 Hc)). by destruct (contents c.2).
Qed.

(** ** Common prefixes *)
Lemma common_prefix_l a b : common a b `prefix_of` a.
Proof.
  revert b. induction a as [|x a IH]; intros [|y b]; cbn; try apply prefix_nil. case_match; [|apply prefix_nil].
  by apply prefix_cons.
Qed.

Lemma common_prefix_r a b : common a b `prefix_of` b.
Proof.
  revert b. induction a as [|x a IH]; intros [|y b]; cbn; try apply prefix_nil. case_match; [|apply prefix_nil].
  replace y with x by lia. by apply prefix_cons.
Qed.

Lemma common_greatest p a b : p `prefix_of` a -> p `prefix_of` b -> p `prefix_of` common a b.
Proof.
  revert a b. induction p as [|x p IH]; intros a b [a' ->] [b' ->]; [apply prefix_nil|]. cbn. rewrite Z.eqb_refl.
  apply prefix_cons, IH; eexists; done.
Qed.

Lemma commonPrefix_lower kvs kv : In kv kvs -> commonPrefix kvs `prefix_of` kv.1.
Proof.
  destruct kvs as [|kv0 kvs]; [done|]. cbn. intros [-> | Hin].
  - induction kvs as [|x kvs IH]; cbn; [done|]. etrans; [apply common_prefix_l|done].
  - induction kvs as [|x kvs IH]; [done|]. cbn. destruct Hin as [-> | Hin]; [apply common_prefix_r|]. etrans; [apply common_prefix_l|auto].
Qed.

Lemma commonPrefix_greatest p kvs : kvs <> [] -> (forall kv, In kv kvs -> p `prefix_of` kv.1) -> p `prefix_of` commonPrefix kvs.
Proof.
  destruct kvs as [|kv kvs]; [done|]. intros _ H. cbn. induction kvs as [|x kvs IH]; cbn; [apply H; by left|].
  apply common_greatest; [|apply H; right; by left]. apply IH. intros y [-> | Hy]; apply H; [by left|right; by right].
Qed.

Lemma commonPrefix_exact p kvs k1 k2 a b : (forall kv, In kv kvs -> p `prefix_of` kv.1) ->
  In k1 kvs -> In k2 kvs -> p ++ [a] `prefix_of` k1.1 -> p ++ [b] `prefix_of` k2.1 -> a <> b -> commonPrefix kvs = p.
Proof.
  intros Hp H1 H2 P1 P2 Hab. destruct (commonPrefix_greatest p kvs) as [r Er]; [by destruct kvs|done|].
  destruct r as [|x r]; [by rewrite Er, app_nil_r|]. exfalso.
  assert (forall k c, In k kvs -> p ++ [c] `prefix_of` k.1 -> x = c) as Hx.
  { intros k c Hin [z Ez]. destruct (commonPrefix_lower kvs k Hin) as [w Ew]. rewrite Er in Ew. rewrite Ez in Ew.
    rewrite <- !app_assoc in Ew. apply app_inv_head in Ew. by injection Ew as ->. }
  apply Hab. by rewrite <- (Hx k1 a), <- (Hx k2 b).
Qed.

(** ** The children of a branch *)
Lemma find_above {A} (cs : list (Z * A)) lo : Forall (fun d => lo < d) (map fst cs) -> find (fun c => c.1 =? lo) cs = None.
Proof.
  induction cs as [|[d a] cs IH]; intros H; [done|]. inversion_clear H as [|? ? Hd Hcs]. cbn in *. destruct (Z.eqb_spec d lo); [lia|auto].
Qed.

Lemma omap_digits {A} (f : Z -> option (Z * A)) cs lo n : StronglySorted Z.lt (map fst cs) ->
  Forall (fun d => lo <= d < lo + Z.of_nat n) (map fst cs) ->
  (forall d, lo <= d < lo + Z.of_nat n -> f d = find (fun c => c.1 =? d) cs) -> omap f (seqZ lo (Z.of_nat n)) = cs.
Proof.
  revert lo cs. induction n as [|n IH]; intros lo cs Hs Hr Hf.
  { destruct cs as [|c cs]; [done|]. inversion_clear Hr. lia. }
  rewrite seqZ_cons by lia. cbn [omap list_omap]. rewrite Hf by lia. replace (Z.pred (Z.of_nat (S n))) with (Z.of_nat n) by lia.
  destruct cs as [|[d a] cs]; cbn [find].
  - apply (IH _ []); [constructor|constructor|]. intros e He. by rewrite Hf by lia.
  - cbn in Hs, Hr |- *. apply StronglySorted_inv in Hs as [Hs Hd]. inversion_clear Hr as [|? ? Hr1 Hrs].
    destruct (Z.eqb_spec d lo) as [-> | Hne].
    + f_equal. apply IH; [done| |].
      * apply Forall_forall. intros x Hx. rewrite Forall_forall in Hd, Hrs. specialize (Hd x Hx). specialize (Hrs x Hx). lia.
      * intros e He. rewrite Hf by lia. cbn. by destruct (Z.eqb_spec lo e); [lia|].
    + rewrite find_above by (eapply Forall_impl; [|exact Hd]; cbn; lia).
      apply (IH _ ((d, a) :: cs)); [by constructor| |].
      * constructor; cbn; [lia|]. apply Forall_forall. intros x Hx. rewrite Forall_forall in Hd, Hrs. specialize (Hd x Hx). specialize (Hrs x Hx). lia.
      * intros e He. by rewrite Hf by lia.
Qed.

Lemma filter_under d e kvs : filter (fun kv => startsWith d kv = true) (under [e] kvs) = if e =? d then under [e] kvs else [].
Proof.
  destruct (Z.eqb_spec e d) as [-> | Hne].
  - induction kvs as [|kv kvs IH]; [done|]. cbn [under map]. rewrite filter_cons_True by (cbn; apply Z.eqb_refl). by f_equal.
  - induction kvs as [|kv kvs IH]; [done|]. cbn [under map]. rewrite filter_cons_False; [done|]. cbn. by destruct (Z.eqb_spec e d).
Qed.

Lemma filter_branch d cs : StronglySorted Z.lt (map fst cs) ->
  filter (fun kv => startsWith d kv = true) (contents (Branch cs)) =
  match find (fun c => c.1 =? d) cs with Some c => under [c.1] (contents c.2) | None => [] end.
Proof.
  cbn [contents]. induction cs as [|[e t] cs IH]; intros Hs; [done|]. cbn [map] in Hs. apply StronglySorted_inv in Hs as [Hs He].
  cbn [map concat fst snd find]. rewrite list.filter_app, filter_under, IH by done. destruct (Z.eqb_spec e d) as [-> | Hne]; [|done].
  rewrite find_above by exact He. apply app_nil_r.
Qed.

(** ** Uniqueness *)
Lemma longest_In kvs kv : In kv kvs -> (length kv.1 <= longest kvs)%nat.
Proof. induction kvs as [|x kvs IH]; [done|]. unfold longest in *. intros [-> | Hin]; cbn; [lia|]. specialize (IH Hin). lia. Qed.

Lemma longest_bound kvs n : (0 < n)%nat -> (forall kv, In kv kvs -> (length kv.1 < n)%nat) -> (longest kvs < n)%nat.
Proof.
  intros Hn H. induction kvs as [|x kvs IH]; [done|]. assert (length x.1 < n)%nat by (apply H; by left).
  assert (longest kvs < n)%nat by (apply IH; intros; apply H; by right). unfold longest in *. cbn. lia.
Qed.

Lemma longest_strip kvs p n : p <> [] -> (longest kvs < S n)%nat -> kvs <> [] -> (forall kv, In kv kvs -> p `prefix_of` kv.1) ->
  (longest (strip (length p) kvs) < n)%nat.
Proof.
  intros Hp Hl Hk Hpre. assert (forall kv, In kv kvs -> (length (drop (length p) kv.1) < n)%nat) as H.
  { intros kv Hin. destruct (Hpre kv Hin) as [r Er]. pose proof (longest_In _ _ Hin). rewrite Er, drop_app_length. rewrite Er, length_app in H.
    destruct p; [done|]. cbn in H. lia. }
  apply longest_bound.
  - destruct kvs as [|kv kvs]; [done|]. specialize (H kv (or_introl eq_refl)). lia.
  - intros kv' Hin. unfold strip in Hin. apply in_map_iff in Hin as (kv & <- & Hin). by apply H.
Qed.

Lemma trieOf_many fuel kvs : (2 <= length kvs)%nat -> trieOf (S fuel) kvs =
  match commonPrefix kvs with
  | [] => Branch (omap (fun d => match filter (fun kv => startsWith d kv = true) kvs with [] => None | sub => Some (d, trieOf fuel (strip 1 sub)) end) (seqZ 0 16))
  | p => Extension p (trieOf fuel (strip (length p) kvs))
  end.
Proof. destruct kvs as [|[k [v|h]] [|kv' kvs]]; cbn [length]; intros H; try lia; by destruct k. Qed.

Lemma branch_contents_length cs : (2 <= length cs)%nat -> Forall (fun c : Z * patricia => canonical c.2) cs -> (2 <= length (contents (Branch cs)))%nat.
Proof.
  destruct cs as [|c1 [|c2 cs]]; cbn [length]; [lia..|]. intros _ H. inversion_clear H as [|? ? H1 H']. inversion_clear H' as [|? ? H2 _].
  cbn [contents map concat]. rewrite !length_app. unfold under. rewrite !length_map.
  pose proof (contents_nonempty _ H1). pose proof (contents_nonempty _ H2). destruct (contents c1.2), (contents c2.2); cbn [length] in *; [done..|]. lia.
Qed.

Lemma contents_In_child c cs kv : In c cs -> In kv (contents c.2) -> In (c.1 :: kv.1, kv.2) (contents (Branch cs)).
Proof.
  intros Hc Hk. cbn [contents]. apply in_concat. exists (under [c.1] (contents c.2)). split; [by apply (in_map (fun c => under [c.1] (contents c.2)))|].
  unfold under. by apply (in_map (fun kv => ([c.1] ++ kv.1, kv.2)) _ kv).
Qed.

Lemma commonPrefix_branch k cs kvs : (2 <= length cs)%nat -> StronglySorted Z.lt (map fst cs) -> Forall (fun c : Z * patricia => canonical c.2) cs ->
  Permutation kvs (under k (contents (Branch cs))) -> commonPrefix kvs = k.
Proof.
  destruct cs as [|c1 [|c2 cs]]; cbn [length]; [lia..|]. intros _ Hs Hc Hp. inversion_clear Hc as [|? ? H1 H']. inversion_clear H' as [|? ? H2 _].
  cbn [map] in Hs. apply StronglySorted_inv in Hs as [_ Hd]. inversion_clear Hd as [|? ? Hlt _].
  destruct (contents c1.2) as [|x1 r1] eqn:E1; [by apply contents_nonempty in H1|]. destruct (contents c2.2) as [|x2 r2] eqn:E2; [by apply contents_nonempty in H2|].
  assert (forall c x, In c (c1 :: c2 :: cs) -> In x (contents c.2) -> In (k ++ c.1 :: x.1, x.2) kvs) as Hin.
  { intros c x Hc Hx. apply (Permutation_in _ (Permutation_sym Hp)). apply (in_map (fun kv => (k ++ kv.1, kv.2)) _ (c.1 :: x.1, x.2)). by apply contents_In_child. }
  apply (commonPrefix_exact _ _ (k ++ c1.1 :: x1.1, x1.2) (k ++ c2.1 :: x2.1, x2.2) c1.1 c2.1).
  - intros kv Hkv. apply (Permutation_in _ Hp) in Hkv. unfold under in Hkv. apply in_map_iff in Hkv as (y & <- & _). by apply prefix_app_r.
  - apply Hin; [by left|]. rewrite E1. by left.
  - apply Hin; [by right; left|]. rewrite E2. by left.
  - exists x1.1. cbn. by rewrite <- app_assoc.
  - exists x2.1. cbn. by rewrite <- app_assoc.
  - lia.
Qed.

(** A trie without needless nodes is the one that is made of its contents, in any
    order. *)
Lemma trieOf_contents t : canonical t -> forall fuel kvs, Permutation kvs (contents t) -> (longest kvs < fuel)%nat -> trieOf fuel kvs = t.
Proof.
  induction t as [k v|k t IH|cs IH|h] using patricia_nested_ind; intros Hc fuel kvs Hp Hf; (destruct fuel as [|fuel]; [lia|]).
  - apply Permutation_sym, Permutation_length_1_inv in Hp. rewrite Hp. by destruct k.
  - destruct Hc as (Hk & Hn & Hb & Hc). destruct t as [| |cs|h]; [by destruct Hb|by destruct Hb| |].
    + destruct Hc as (Hl & Hs & Hd & Hch). apply canonical_children in Hch.
      pose proof (branch_contents_length _ Hl Hch) as H2. change (Permutation kvs (under k (contents (Branch cs)))) in Hp.
      pose proof (Permutation_length Hp) as El. unfold under in El. rewrite length_map in El. rewrite trieOf_many by lia. rewrite (commonPrefix_branch k cs kvs) by done. destruct k as [|x k]; [done|].
      f_equal. apply IH; [by split_and!; [..|apply canonical_children]| |].
      * unfold strip. rewrite Hp. apply (eq_ind_r (fun l => Permutation l _) (Permutation_refl _) (strip_under (x :: k) _)).
      * apply longest_strip; [done|done|by intros ->; cbn [length] in *; lia|].
        intros kv Hkv. apply (Permutation_in _ Hp) in Hkv. apply in_map_iff in Hkv as (y & <- & _). by apply prefix_app_r.
    + cbn in Hp. rewrite app_nil_r in Hp. apply Permutation_sym, Permutation_length_1_inv in Hp. rewrite Hp. by destruct k.
  - destruct Hc as (Hl & Hs & Hd & Hch). apply canonical_children in Hch. pose proof (branch_contents_length _ Hl Hch) as H2. pose proof (Permutation_length Hp) as El.
    rewrite trieOf_many by lia. rewrite (commonPrefix_branch [] cs kvs); [|done..|by rewrite under_nil].
    f_equal. apply (omap_digits _ cs 0 16); [done|done|]. intros d Hr.
    pose proof (filter_Permutation _ _ _ Hp : Permutation (filter (fun kv => startsWith d kv = true) kvs) _) as Hfp. rewrite filter_branch in Hfp by done.
    destruct (find (fun c => c.1 =? d) cs) as [[e t]|] eqn:Ef.
    2:{ apply Permutation_sym, Permutation_nil in Hfp. by rewrite Hfp. }
    apply find_some in Ef as [Hin He]. cbn in He, Hfp. replace e with d in * by lia. rewrite Forall_forall in IH, Hch. specialize (IH _ Hin). specialize (Hch _ Hin). cbn in IH, Hch.
    destruct (filter (fun kv => startsWith d kv = true) kvs) as [|kv sub] eqn:Efl.
    { apply Permutation_nil in Hfp. pose proof (contents_nonempty _ Hch). by destruct (contents t). }
    do 2 f_equal. apply IH; [done| |].
    + unfold strip. rewrite Hfp. apply (eq_ind_r (fun l => Permutation l _) (Permutation_refl _) (strip_under [d] _)).
    + apply (longest_strip _ [d]); [done| |done|].
      * apply longest_bound; [lia|]. intros x Hx. rewrite <- Efl in Hx. apply list_elem_of_In, list_elem_of_filter in Hx as [_ Hx%list_elem_of_In]. pose proof (longest_In _ _ Hx). lia.
      * intros x Hx. apply (Permutation_in _ Hfp) in Hx. unfold under in Hx. apply in_map_iff in Hx as (y & <- & _). by exists y.1.
  - apply Permutation_sym, Permutation_length_1_inv in Hp. by rewrite Hp.
Qed.

Lemma patriciaOf_contents t kvs : canonical t -> Permutation kvs (contents t) -> patriciaOf kvs = t.
Proof. intros Hc Hp. unfold patriciaOf. apply trieOf_contents; [done|done|lia]. Qed.

(** Two such tries with the same contents are equal. *)
Lemma canonical_unique t1 t2 : canonical t1 -> canonical t2 -> Permutation (contents t1) (contents t2) -> t1 = t2.
Proof. intros H1 H2 Hp. rewrite <- (patriciaOf_contents t1 (contents t2)) by done. by apply patriciaOf_contents. Qed.
