(* ===== verification/GenStructSpec.v ===== *)
(** GenStructStep over any machine that assembles tries: what the instructions
    have to do ([TrieMachine]), and that a step on a key and its successor makes
    the subtrees that no later key belongs to.

    Between two steps the machine has on its stack the complete subtrees to the
    left of the path of the next key, and the sets of groups say which digits
    they hang from. *)
From stdpp Require Import sorting.
From S2P Require Import Prelude Uint256 StateTypes Accounts AccountSpec Rlp RlpSpec TrieKeys HashBuilder GenStructStep PatriciaSpec.
#[local] Open Scope Z_scope.

Definition maskOf (ds : list Z) : Z := foldl (fun m d => Z.lor m (bit d)) 0 ds.

(** The value in a leaf, which is always an RLP encoding. *)
Definition leafValue (v : RlpSerializable) : list Byte.byte :=
  match v with RlpSerializableBytes b => rlpStr b | RlpEncodedBytes b => b end.

(** Keys of accounts and of storage have 64 nibbles. *)
Definition shortKey (k : list Z) : Prop := Forall nibble k /\ len k <= 100.

Class TrieMachine {U : Uint256} (S : Type) {R : structInfoReceiver S} := {
  holds : S -> list patricia -> Prop;
  leafOk : RlpSerializable -> Prop;
  leafHash_holds s st p k v : holds s st -> leafOk v -> shortKey k ->
    exists s', e_leafHash (len k + 1) (p ++ k ++ [16]) v s = Ok (None, s') /\ holds s' (st ++ [Leaf k (leafValue v)]);
  hash_holds s st h : holds s st -> exists s', e_hash (hashBytes h) s = Ok (None, s') /\ holds s' (st ++ [Opaque h]);
  extensionHash_holds s st k t : holds s (st ++ [t]) -> branching t -> k <> [] -> shortKey k ->
    exists s', e_extensionHash k s = Ok (None, s') /\ holds s' (st ++ [Extension k t]);
  branchHash_holds s st cs : holds s (st ++ map snd cs) -> (2 <= length cs)%nat -> StronglySorted Z.lt (map fst cs) -> Forall nibble (map fst cs) ->
    exists s', e_branchHash (maskOf (map fst cs)) s = Ok (None, s') /\ holds s' (st ++ [Branch cs])
}.

(** * Sets of digits *)
Lemma maskOf_snoc ds d : maskOf (ds ++ [d]) = Z.lor (maskOf ds) (bit d).
Proof. unfold maskOf. by rewrite foldl_app. Qed.

Lemma bit_nibble d : nibble d -> bit d = 2 ^ d.
Proof. unfold nibble, bit. intros Hd. rewrite (proj2 (Z.ltb_lt d 16)) by lia. rewrite Z.shiftl_mul_pow2 by lia. lia. Qed.

Lemma maskOf_testbit ds x : Forall nibble ds -> 0 <= x -> Z.testbit (maskOf ds) x = existsb (Z.eqb x) ds.
Proof.
  intros Hd Hx. induction ds as [|d ds IH] using rev_ind; [by rewrite Z.testbit_0_l|].
  apply Forall_app in Hd as [Hd Hn]. inversion_clear Hn as [|? ? Hn' _]. rewrite maskOf_snoc, Z.lor_spec, IH by done.
  rewrite existsb_app. cbn [existsb]. rewrite orb_false_r. f_equal. rewrite bit_nibble by done. unfold nibble in *.
  destruct (Z.eqb_spec x d) as [-> | Hne]; [by apply Z.pow2_bits_true; lia|by apply Z.pow2_bits_false].
Qed.

Lemma maskOf_zero ds : Forall nibble ds -> maskOf ds = 0 -> ds = [].
Proof.
  intros Hd E. destruct ds as [|d ds]; [done|]. inversion Hd as [|? ? Hn ?]; subst. unfold nibble in Hn.
  pose proof (maskOf_testbit (d :: ds) d Hd ltac:(lia)) as Ht. rewrite E, Z.testbit_0_l in Ht. cbn in Ht. by rewrite Z.eqb_refl in Ht.
Qed.

(** * Groups *)
Definition group : Type := list (Z * patricia).

Definition groupsOf (Gs : list group) : list Z := map (fun G : group => maskOf (map fst G)) Gs.

Definition stackOf (Gs : list group) : list patricia := concat (map (map snd) Gs).

(** A group on a path that goes on with the digit [d]. *)
Record groupOk (d : Z) (G : group) : Prop := mk_groupOk {
  group_sorted : StronglySorted Z.lt (map fst G);
  group_nibbles : Forall nibble (map fst G);
  group_below : Forall (fun x => x < d) (map fst G);
  group_canonical : Forall (fun c : Z * patricia => canonical c.2) G
}.

Fixpoint groupsOk (p : list Z) (Gs : list group) {struct Gs} : Prop :=
  match Gs, p with
  | [], _ => True
  | G :: Gs, d :: p => groupOk d G /\ groupsOk p Gs
  | _ :: _, [] => False
  end.

(** The contents of the groups along the path, and those at its end. *)
Fixpoint plug (p : list Z) (Gs : list group) (tail : list (list Z * entry)) {struct Gs} : list (list Z * entry) :=
  match Gs, p with
  | G :: Gs, d :: p => contents (Branch G) ++ under [d] (plug p Gs tail)
  | _, _ => under p tail
  end.

(** The last group is not empty. *)
Definition closed (Gs : list group) : Prop := match list.last Gs with Some [] => False | _ => True end.

Lemma groupOk_nil d : groupOk d [].
Proof. split; constructor. Qed.

Lemma groupsOk_length p Gs : groupsOk p Gs -> (length Gs <= length p)%nat.
Proof. revert p. induction Gs as [|G Gs IH]; intros [|d p]; cbn; [lia..|done|]. intros [_ H]. apply IH in H. lia. Qed.

Lemma groupsOk_app p1 p2 F Gs : length F = length p1 -> groupsOk (p1 ++ p2) (F ++ Gs) <-> groupsOk p1 F /\ groupsOk p2 Gs.
Proof. revert p1. induction F as [|G F IH]; intros [|d p1] Hl; cbn in *; [by destruct p2, Gs; naive_solver|lia..|]. rewrite IH by lia. tauto. Qed.

Lemma plug_app p1 p2 F Gs tail : length F = length p1 -> plug (p1 ++ p2) (F ++ Gs) tail = plug p1 F (plug p2 Gs tail).
Proof.
  revert p1. induction F as [|G F IH]; intros [|d p1] Hl; cbn in Hl; [|lia..|]; cbn [app plug].
  - by rewrite under_nil.
  - do 2 f_equal. apply IH. lia.
Qed.

Lemma plug_empty p n tail : (n <= length p)%nat -> plug p (replicate n []) tail = under p tail.
Proof.
  revert p. induction n as [|n IH]; intros p Hl; [by destruct p|]. destruct p as [|d p]; cbn [length] in Hl; [lia|].
  cbn [replicate plug contents map concat app]. rewrite IH by lia. symmetry. apply (under_app [d]).
Qed.

Lemma plug_pad p Gs n tail : (length Gs + n <= length p)%nat -> plug p (Gs ++ replicate n []) tail = plug p Gs tail.
Proof.
  revert p. induction Gs as [|G Gs IH]; intros p Hl; cbn [app length] in *.
  - rewrite plug_empty by lia. by destruct p.
  - destruct p as [|d p]; [done|]. cbn [plug]. do 2 f_equal. apply IH. cbn in Hl. lia.
Qed.

Lemma groupsOk_pad p Gs n : groupsOk p Gs -> (length Gs + n <= length p)%nat -> groupsOk p (Gs ++ replicate n []).
Proof.
  revert p. induction Gs as [|G Gs IH]; intros p HG Hl; cbn [app length] in *.
  - clear HG. revert p Hl. induction n as [|n IHn]; intros [|d p] Hl; cbn in *; [done..|lia|]. split; [apply groupOk_nil|]. apply IHn. lia.
  - destruct p as [|d p]; [done|]. destruct HG as [H1 H2]. split; [done|]. apply IH; [done|]. cbn in Hl. lia.
Qed.

Lemma groupsOk_prefix p Gs Gs' : groupsOk p (Gs ++ Gs') -> groupsOk p Gs.
Proof. revert p. induction Gs as [|G Gs IH]; intros [|d p]; cbn; [done..|]. intros [? ?]. eauto. Qed.

Lemma groupsOf_pad Gs n : groupsOf (Gs ++ replicate n []) = groupsOf Gs ++ replicate n 0.
Proof. unfold groupsOf. rewrite map_app. f_equal. induction n; cbn; by f_equal. Qed.

Lemma stackOf_app Gs Gs' : stackOf (Gs ++ Gs') = stackOf Gs ++ stackOf Gs'.
Proof. unfold stackOf. by rewrite map_app, concat_app. Qed.

Lemma stackOf_pad Gs n : stackOf (Gs ++ replicate n []) = stackOf Gs.
Proof. rewrite stackOf_app. rewrite <- (app_nil_r (stackOf Gs)) at 2. f_equal. by induction n. Qed.

Lemma contents_snoc G d t : contents (Branch (G ++ [(d, t)])) = contents (Branch G) ++ under [d] (contents t).
Proof. cbn [contents]. rewrite map_app, concat_app. cbn [map concat]. by rewrite app_nil_r. Qed.

Lemma groupsOk_nibbles p Gs : groupsOk p Gs -> Forall (fun G : group => Forall nibble (map fst G)) Gs.
Proof. revert p. induction Gs as [|G Gs IH]; intros [|d p]; cbn; [constructor..|done|]. intros [[_ H _ _] ?]. constructor; eauto. Qed.

(** The trailing groups without digits are dropped. *)
Lemma dropZeros_groups Gs : Forall (fun G : group => Forall nibble (map fst G)) Gs ->
  exists Gs' n, Gs = Gs' ++ replicate n [] /\ closed Gs' /\ rev (dropZeros (rev (groupsOf Gs))) = groupsOf Gs'.
Proof.
  induction Gs as [|G Gs IH] using rev_ind; intros Hn; [by exists [], O|]. apply Forall_app in Hn as [Hn HG]. inversion_clear HG as [|? ? HG' _].
  unfold groupsOf. rewrite map_app, rev_app_distr. cbn [map rev app]. destruct (decide (maskOf (map fst G) = 0)) as [E|E].
  - apply maskOf_zero in E as E'; [|done]. destruct G as [|c G]; [|done]. destruct (IH Hn) as (Gs' & n & -> & Hc & Er).
    exists Gs', (S n). rewrite replicate_S_end, app_assoc. done.
  - exists (Gs ++ [G]), O. rewrite app_nil_r. split; [done|]. split.
    + unfold closed. rewrite last_snoc. by destruct G.
    + destruct (maskOf (map fst G)) eqn:E'; [done|..]; cbn [dropZeros]; rewrite <- E'; cbn [rev]; rewrite rev_involutive; unfold groupsOf; by rewrite map_app.
Qed.

(** * Successors *)
Definition before (p q : list Z) : Prop := exists c a b p' q', p = c ++ a :: p' /\ q = c ++ b :: q' /\ a < b.

Lemma prefixLen_diverge c a b p q : a <> b -> prefixLen (c ++ b :: q) (c ++ a :: p) = len c.
Proof.
  intros Hne. induction c as [|x c IH]; cbn [app prefixLen].
  - by rewrite (proj2 (Z.eqb_neq b a)) by lia.
  - rewrite Z.eqb_refl, IH, len_cons. done.
Qed.

(** * Turns of the loop *)
Lemma lookupZ_ok {A} (l : list A) i : 0 <= i < len l -> exists x, lookupZ l i = Some x.
Proof. intros Hi. destruct (lookupZ_lt l i) as [x Hx]; [exact Hi|eauto]. Qed.

Lemma orBit_ok l i d : 0 <= i < len l -> exists l', orBit l i d = Ok l' /\ length l' = length l.
Proof.
  intros Hi. destruct (lookupZ_ok l i Hi) as [x Hx]. unfold orBit. rewrite Hx. eexists. split; [done|]. apply length_insert.
Qed.

Lemma clearBit_ok l i d : 0 <= i < len l -> exists l', clearBit l i d = Ok l' /\ length l' = length l.
Proof.
  intros Hi. destruct (lookupZ_ok l i Hi) as [x Hx]. unfold clearBit. rewrite Hx. eexists. split; [done|]. apply length_insert.
Qed.

Lemma upTo_ok {A} (l : list A) n : (n <= length l)%nat -> upTo l (Z.of_nat n) = Ok (take n l).
Proof. intros Hn. unfold upTo, len. rewrite (proj2 (Z.leb_le _ _)), (proj2 (Z.leb_le _ _)) by lia. by rewrite Nat2Z.id. Qed.

Lemma from_ok {A} (l : list A) n : (n <= length l)%nat -> HashBuilder.from l (Z.of_nat n) = Ok (drop n l).
Proof. intros Hn. unfold HashBuilder.from, len. rewrite (proj2 (Z.leb_le _ _)), (proj2 (Z.leb_le _ _)) by lia. by rewrite Nat2Z.id. Qed.

Lemma len_pos_cons {A} (x : A) l : (0 <? len (x :: l)) = true.
Proof. apply Z.ltb_lt. unfold len. cbn. lia. Qed.

(** The groups up to the digit that a turn adds to. *)
Lemma split_groups p1 d p2 Gs : groupsOk (p1 ++ d :: p2) Gs -> (length Gs <= S (length p1))%nat ->
  exists F G, length F = length p1 /\ groupsOk p1 F /\ groupOk d G /\ stackOf Gs = stackOf F ++ map snd G /\
    (forall tail, plug (p1 ++ d :: p2) Gs tail = plug p1 F (contents (Branch G) ++ under [d] (under p2 tail))) /\
    (forall t : patricia, orBit (extendTo (groupsOf Gs) (len p1)) (len p1) d = Ok (groupsOf (F ++ [G ++ [(d, t)]]))) /\
    (length Gs = S (length p1) -> Gs = F ++ [G]).
Proof.
  intros HG Hl. set (n := (S (length p1) - length Gs)%nat).
  assert (length Gs + n <= length (p1 ++ d :: p2))%nat as Hn by (rewrite length_app; cbn [length]; lia).
  destruct (exists_last (l := Gs ++ replicate n [])) as (F & G & EFG).
  { intros E. apply (f_equal length) in E. rewrite length_app, length_replicate in E. cbn in E. lia. }
  assert (length F = length p1) as HF.
  { apply (f_equal length) in EFG. rewrite !length_app, length_replicate in EFG. cbn in EFG. lia. }
  pose proof (groupsOk_pad _ _ _ HG Hn) as HG'. rewrite EFG in HG'. apply groupsOk_app in HG' as [HF1 [HG1 _]]; [|done].
  exists F, G. split_and!; [done|done|done| | | |].
  - replace (stackOf Gs) with (stackOf (F ++ [G])) by (rewrite <- EFG; apply stackOf_pad). rewrite stackOf_app. f_equal. unfold stackOf. cbn. apply app_nil_r.
  - intros tail. transitivity (plug (p1 ++ d :: p2) (F ++ [G]) tail); [rewrite <- EFG; symmetry; by apply plug_pad|]. rewrite plug_app by done. by destruct p2.
  - intros t. unfold orBit, extendTo. replace (Z.to_nat (len p1 + 1 - len (groupsOf Gs))) with n by (unfold len, groupsOf; rewrite length_map; lia).
    replace (groupsOf Gs ++ replicate n 0) with (groupsOf (F ++ [G])) by (rewrite <- EFG; apply groupsOf_pad). unfold groupsOf. rewrite !map_app. cbn [map].
    assert (len p1 = Z.of_nat (length (map (fun G : group => maskOf (map fst G)) F))) as -> by (unfold len; rewrite length_map; lia).
    unfold lookupZ. rewrite (proj2 (Z.ltb_ge _ _)) by lia. rewrite Nat2Z.id, list_lookup_middle by done. cbn [or_panic mbind outcome_bind].
    rewrite insert_app_r_alt by lia. rewrite Nat.sub_diag.
    assert (maskOf (map fst (G ++ [(d, t)])) = Z.lor (maskOf (map fst G)) (bit d)) as -> by (rewrite map_app; apply maskOf_snoc). done.
  - intros E. unfold n in EFG. rewrite E, Nat.sub_diag in EFG. cbn in EFG. by rewrite app_nil_r in EFG.
Qed.

Section turns.
Context {U : Uint256} {S : Type} {R : structInfoReceiver S} {TM : TrieMachine S}.
Context (retain : list Z -> bool) (retain_nothing : forall p, retain p = false).
Implicit Types (s : S) (st : sets).

Lemma bind_pure {A B} (a : A) (k : A -> M S B) s : (pure (Ok a) ≫= k) s = k a s.
Proof. done. Qed.

Lemma orReturn_none {A} m (k : M S (TrieError + A)) s s' : m s = Ok (None, s') -> orReturn m k s = k s'.
Proof. intros E. unfold orReturn. by rewrite (M_bind_Ok _ _ _ _ _ E). Qed.

(** Both sets of bits have the same length, which is at least [n]. *)
Definition wide (n : nat) st : Prop := length (hasTree st) = length (hasHash st) /\ (n <= length (hasTree st))%nat.

Lemma propagate_ok n (p : list Z) from i ht s : (1 <= from <= i)%nat -> (i + n <= length p)%nat -> (length p < length ht)%nat ->
  exists ht', propagate n None p (Z.of_nat from) (Z.of_nat i) ht s = Ok (inr ht', s) /\ length ht' = length ht.
Proof.
  revert i ht. induction n as [|n IH]; intros i ht Hf Hi Hl; [by exists ht|]. cbn [propagate].
  destruct (lookupZ_ok p (Z.of_nat i)) as [d Ed]; [unfold len; lia|]. rewrite Ed. cbn [or_panic]. rewrite bind_pure.
  destruct (lookupZ_ok ht (Z.of_nat i)) as [x Ex]; [unfold len; lia|]. rewrite Ex. cbn [or_panic]. rewrite bind_pure.
  assert (exists ht1, (if Z.land (bit d) x =? 0 then Ok ht else p0 ← or_panic (lookupZ p (Z.of_nat from - 1)); orBit ht (Z.of_nat from - 1) p0) = Ok ht1 /\ length ht1 = length ht) as (ht1 & -> & E1).
  { case_match; [by exists ht|]. destruct (lookupZ_ok p (Z.of_nat from - 1)) as [y Ey]; [unfold len; lia|]. rewrite Ey. cbn [or_panic mbind outcome_bind].
    apply orBit_ok. unfold len. lia. }
  rewrite bind_pure. erewrite orReturn_none by done. replace (Z.of_nat i + 1) with (Z.of_nat (Datatypes.S i)) by lia.
  destruct (IH (Datatypes.S i) ht1) as (ht' & -> & E'); [lia..|]. exists ht'. split; [done|lia].
Qed.

Lemma emitExtension_ok (p : list Z) rs maxLen st s stk t : holds s (stk ++ [t]) -> branching t -> shortKey p -> (rs < length p)%nat ->
  wide (Datatypes.S (length p)) st ->
  exists s' st', emitExtension retain None p maxLen (Z.of_nat rs) (len p - Z.of_nat rs) st s = Ok (inr st', s') /\
    groups st' = groups st /\ wide rs st' /\ holds s' (stk ++ [Extension (drop rs p) t]).
Proof.
  intros Hh Hb [Hn Hl] Hr [Hw Hlen]. unfold emitExtension.
  set (from := if Z.of_nat rs =? 0 then 1 else Z.of_nat rs).
  assert (exists f, from = Z.of_nat f /\ (1 <= f <= length p)%nat /\ (rs <= f)%nat) as (f & -> & Hf & Hrf).
  { unfold from. destruct (Z.eqb_spec (Z.of_nat rs) 0); [exists 1%nat|exists rs]; lia. }
  destruct (lookupZ_ok p (Z.of_nat f - 1)) as [y Ey]; [unfold len; lia|]. rewrite Ey. cbn [or_panic]. rewrite bind_pure.
  destruct (clearBit_ok (hasHash st) (Z.of_nat f - 1) y) as (hh & -> & Eh); [unfold len; lia|]. rewrite bind_pure.
  replace (Z.to_nat (Z.of_nat rs + (len p - Z.of_nat rs) - Z.of_nat f)) with (length p - f)%nat by (unfold len; lia).
  destruct (propagate_ok (length p - f) p f f (hasTree st) s) as (ht & Ep & Et); [lia..|]. rewrite (M_bind_Ok _ _ _ _ _ Ep).
  rewrite !upTo_ok by lia. rewrite !bind_pure. rewrite from_ok by lia. rewrite bind_pure, retain_nothing.
  destruct (extensionHash_holds s stk (drop rs p) t) as (s' & Ee & Hh'); [done|done| | |].
  { intros E. apply (f_equal length) in E. rewrite length_drop in E. cbn in E. lia. }
  { split; [by apply Forall_drop|]. unfold len in *. rewrite length_drop. lia. }
  erewrite orReturn_none by exact Ee. do 2 eexists. split; [done|]. split; [done|]. split; [|done].
  split; cbn [hasTree hasHash]; rewrite !length_take; lia.
Qed.

(** What a turn emits for the rest of the key: a node with the contents [tail]
    below it. *)
Definition emission (be : bool) (data : GenStructStepData) (p x : list Z) (stk : list patricia) s (tail : list (list Z * entry)) : Prop :=
  forall rs maxLen st, (rs <= length p)%nat -> wide (Datatypes.S (length (p ++ x))) st ->
  exists t s' st', emitNode retain None data None be (p ++ x) maxLen (Z.of_nat rs) (len (p ++ x) - Z.of_nat rs) st s = Ok (inr st', s') /\
    groups st' = groups st /\ wide rs st' /\ holds s' (stk ++ [t]) /\ canonical t /\ contents t = under (drop rs p) tail.

(** An extension, unless nothing is left of the key. *)
Lemma extension_or_not (p : list Z) rs maxLen st s stk t : holds s (stk ++ [t]) -> branching t -> canonical t -> shortKey p -> (rs <= length p)%nat ->
  wide (Datatypes.S (length p)) st ->
  exists t' s' st', (if 0 <? len p - Z.of_nat rs then emitExtension retain None p maxLen (Z.of_nat rs) (len p - Z.of_nat rs) st else mret (inr st)) s = Ok (inr st', s') /\
    groups st' = groups st /\ wide rs st' /\ holds s' (stk ++ [t']) /\ canonical t' /\ contents t' = under (drop rs p) (contents t).
Proof.
  intros Hh Hb Hc Hp Hr Hw. unfold len. destruct (Z.ltb_spec 0 (Z.of_nat (length p) - Z.of_nat rs)).
  - destruct (emitExtension_ok p rs maxLen st s stk t) as (s' & st' & E & Eg & Hw' & Hh'); [done|done|done|lia|done|].
    exists (Extension (drop rs p) t), s', st'. split; [exact E|]. split_and!; try done. split; [|by split; [apply Forall_drop, Hp|]].
    intros E0. apply (f_equal length) in E0. rewrite length_drop in E0. cbn in E0. lia.
  - exists t, s, st. split; [done|]. split; [done|]. split; [destruct Hw; split; [done|lia]|]. split_and!; try done.
    rewrite drop_ge by lia. by rewrite under_nil.
Qed.

Lemma emission_built data p stk s t : holds s (stk ++ [t]) -> branching t -> canonical t -> shortKey p -> emission true data p [] stk s (contents t).
Proof.
  intros Hh Hb Hc Hp rs maxLen st Hr Hw. rewrite app_nil_r in *. unfold emitNode. cbn [andb].
  destruct (extension_or_not p rs maxLen st s stk t) as (t' & s' & st' & E & H); [done..|]. exists t', s', st'. split; [|done].
  rewrite <- E. erewrite M_bind_Ok by done. done.
Qed.

Lemma emission_hash p stk s h tree : holds s stk -> shortKey p -> p <> [] -> emission false (GenStructStepHashData h tree) p [] stk s [([], Hashed h)].
Proof.
  intros Hh Hp Hne rs maxLen st Hr Hw. rewrite app_nil_r in *. unfold emitNode, emitData.
  assert (0 < length p)%nat by (destruct p; [done|cbn; lia]). destruct Hw as [Hw Hlen].
  destruct (lookupZ_ok p (len p - 1)) as [d Ed]; [unfold len; lia|]. rewrite Ed.
  assert (exists ht, (if (tree : bool) then orBit (hasTree st) (len p - 1) d else Ok (hasTree st)) = Ok ht /\ length ht = length (hasTree st)) as (ht & Et & El).
  { destruct tree; [|by eexists]. apply orBit_ok. unfold len. lia. }
  destruct (orBit_ok (hasHash st) (len p - 1) d) as (hh & Eh & Ehl); [unfold len; lia|].
  destruct (hash_holds s stk h Hh) as (s' & Es & Hh').
  destruct (extension_or_not p rs maxLen (mk_sets (groups st) ht hh) s' stk (Opaque h)) as (t' & s'' & st' & E & H1); [done..| |].
  { split; cbn; lia. }
  exists t', s'', st'. split; [|done]. rewrite <- E. cbn [or_panic]. unfold mbind, M_bind, pure. cbn [mbind outcome_bind]. rewrite Et. cbn [mbind outcome_bind].
  rewrite Eh. cbn [mbind outcome_bind]. unfold orReturn, mbind, M_bind. by rewrite Es.
Qed.

Lemma emission_leaf p stk s v : holds s stk -> leafOk v -> shortKey p -> emission false (GenStructStepLeafData v) p [16] stk s [([], Val (leafValue v))].
Proof.
  intros Hh Hv [Hn Hl] rs maxLen st Hr [Hw Hlen]. unfold emitNode, emitData. rewrite retain_nothing.
  destruct (leafHash_holds s stk (take rs p) (drop rs p) v) as (s' & Es & Hh'); [done|done| |].
  { split; [by apply Forall_drop|]. unfold len in *. rewrite length_drop. lia. }
  rewrite app_assoc, take_drop in Es. exists (Leaf (drop rs p) (leafValue v)), s', st. split_and!; [|done|split; [done|]| |by apply Forall_drop|].
  - unfold orReturn, mbind, M_bind. replace (len (p ++ [16]) - Z.of_nat rs) with (len (drop rs p) + 1).
    + rewrite Es. done.
    + unfold len. rewrite length_app, length_drop. cbn [length]. lia.
  - rewrite length_app in Hlen. lia.
  - exact Hh'.
  - cbn. by rewrite app_nil_r.
Qed.

(** * The step *)

(** What a step leaves for the next key [q], or at the end of the keys: the
    subtrees of all contents so far. *)
Definition progress (q : list Z) (C : list (list Z * entry)) st s : Prop :=
  match q with
  | [] => exists t, holds s [t] /\ canonical t /\ contents t = C
  | _ => exists Gs, groups st = groupsOf Gs /\ groupsOk q Gs /\ closed Gs /\ holds s (stackOf Gs) /\ plug q Gs [] = C
  end.

Lemma emitBranch_ok (curr succ : list Z) cutoff m st s stk cs : holds s (stk ++ map snd cs) -> (2 <= length cs)%nat -> StronglySorted Z.lt (map fst cs) ->
  Forall nibble (map fst cs) -> groups st !! m = Some (maskOf (map fst cs)) -> (m <= length curr)%nat -> wide (Datatypes.S m) st ->
  exists s' st', emitBranch retain None cutoff curr succ (Z.of_nat m) st s = Ok (inr st', s') /\ groups st' = groups st /\ wide m st' /\ holds s' (stk ++ [Branch cs]).
Proof.
  intros Hh H2 Hs Hn Eg Hm [Hw Hl]. unfold emitBranch.
  assert (exists st1, (if 0 <? Z.of_nat m then
             p ← pure (or_panic (lookupZ curr (Z.of_nat m - 1)));
             hh ← pure (orBit (hasHash st) (Z.of_nat m - 1) p);
             t ← pure (or_panic (lookupZ (hasTree st) (Z.of_nat m)));
             ht ← pure (if t =? 0 then Ok (hasTree st) else orBit (hasTree st) (Z.of_nat m - 1) p);
             mret (mk_sets (groups st) ht hh)
           else mret st) s = Ok (st1, s) /\ groups st1 = groups st /\ wide m st1) as (st1 & E1 & Eg1 & Hw1).
  { destruct (Z.ltb_spec 0 (Z.of_nat m)); [|exists st; split; [done|split; [done|split; [done|lia]]]].
    destruct (lookupZ_ok curr (Z.of_nat m - 1)) as [y Ey]; [unfold len; lia|]. rewrite Ey. cbn [or_panic]. rewrite bind_pure.
    destruct (orBit_ok (hasHash st) (Z.of_nat m - 1) y) as (hh & -> & Eh); [unfold len; lia|]. rewrite bind_pure.
    destruct (lookupZ_ok (hasTree st) (Z.of_nat m)) as [x Ex]; [unfold len; lia|]. rewrite Ex. cbn [or_panic]. rewrite bind_pure.
    assert (exists ht, (if x =? 0 then Ok (hasTree st) else orBit (hasTree st) (Z.of_nat m - 1) y) = Ok ht /\ length ht = length (hasTree st)) as (ht & -> & Et).
    { case_match; [by eexists|]. apply orBit_ok. unfold len. lia. }
    rewrite bind_pure. eexists. split; [done|]. split; [done|]. split; cbn; lia. }
  rewrite (M_bind_Ok _ _ _ _ _ E1). unfold lookupZ. rewrite (proj2 (Z.ltb_ge _ _)) by lia. rewrite Nat2Z.id, Eg. cbn [or_panic]. rewrite bind_pure, retain_nothing.
  destruct (branchHash_holds s stk cs) as (s' & Eb & Hh'); [done..|]. cbn [orb]. erewrite orReturn_none by exact Eb. by exists s', st1.
Qed.

(** A branch closes the group after the prefix [p1], and the loop goes on from
    there, or ends at the root. *)
Lemma closeGroup_branch cutoff next (p1 rest : list Z) succ F G succLen st s :
  holds s (stackOf F ++ map snd G) -> (2 <= length G)%nat -> StronglySorted Z.lt (map fst G) -> Forall nibble (map fst G) ->
  groups st = groupsOf (F ++ [G]) -> length F = length p1 -> wide (Datatypes.S (length p1)) st ->
  succ = [] \/ succLen < len p1 ->
  exists s' gs ht hh, length ht = length hh /\ gs = groupsOf F /\ holds s' (stackOf F ++ [Branch G]) /\
    closeGroup retain None None cutoff next (p1 ++ rest) succ true (len p1) succLen (len p1) st s =
    (if len p1 =? 0 then mret (inr (mk_sets gs ht hh)) else next p1 (mk_sets (rev (dropZeros (rev gs))) ht hh)) s'.
Proof.
  intros Hh H2 Hs Hn Eg HF Hw Hsucc. unfold closeGroup.
  assert ((len p1 <=? succLen) && (0 <? len succ) = false) as ->.
  { destruct Hsucc as [-> | Hlt]; [apply andb_false_r|]. rewrite (proj2 (Z.leb_gt _ _)) by lia. done. }
  cbn [announce]. erewrite M_bind_Ok by done. rewrite orb_true_r.
  destruct (emitBranch_ok (p1 ++ rest) succ cutoff (length p1) st s (stackOf F) G) as (s' & st1 & Eb & Eg1 & [Hw1 Hl1] & Hh'); try done.
  { rewrite Eg. unfold groupsOf. rewrite map_app. cbn [map]. apply list_lookup_middle. by rewrite length_map. }
  { rewrite length_app. lia. }
  change (Z.of_nat (length p1)) with (len p1) in Eb. erewrite M_bind_Ok by exact Eb. cbn [announceRoot]. erewrite orReturn_none by done.
  assert (length (groups st1) = Datatypes.S (length p1)) as Elg by (rewrite Eg1, Eg; unfold groupsOf; rewrite length_map, length_app; cbn; lia).
  change (len p1) with (Z.of_nat (length p1)). rewrite !upTo_ok by lia. rewrite !bind_pure, Nat2Z.id, take_app_length.
  exists s', (take (length p1) (groups st1)), (take (length p1) (hasTree st1)), (take (length p1) (hasHash st1)).
  split; [rewrite !length_take; lia|]. split; [|done]. rewrite Eg1, Eg. unfold groupsOf. rewrite map_app, <- HF.
  rewrite take_app_le by (rewrite length_map; lia). apply take_ge. rewrite length_map. lia.
Qed.

Lemma groupOk_snoc d e G t : groupOk d G -> nibble d -> canonical t -> d < e -> groupOk e (G ++ [(d, t)]).
Proof.
  intros [Hs Hn Hb Hc] Hd Ht He. split.
  - rewrite map_app. cbn [map fst]. clear -Hs Hb. induction (map fst G) as [|x l IH]; cbn [app]; [by repeat constructor|].
    apply StronglySorted_inv in Hs as [Hs Hx]. inversion_clear Hb as [|? ? Hxd Hb']. constructor; [auto|]. apply Forall_app. split; [done|by constructor].
  - rewrite map_app. apply Forall_app. split; [done|by constructor].
  - rewrite map_app. apply Forall_app. split; [eapply Forall_impl; [|exact Hb]; cbn; lia|by constructor].
  - apply Forall_app. split; [done|by constructor].
Qed.

Lemma exists_last_or_nil {A} (l : list A) : l = [] \/ exists l' x, l = l' ++ [x].
Proof. destruct l as [|x l] using rev_ind; [by left|]. right. by exists l, x. Qed.

Lemma lookupZ_middle {A} (p1 : list A) d p2 x : lookupZ ((p1 ++ d :: p2) ++ x) (len p1) = Some d.
Proof. unfold lookupZ, len. rewrite (proj2 (Z.ltb_ge _ _)), Nat2Z.id, <- app_assoc by lia. by apply list_lookup_middle. Qed.

(** A turn that adds to the group after [p1]: the new node is in it, and what is
    left of the turn is to close the group or to return. *)
Lemma turn_spec fuel cutoff be data p1 d p2 x succ Gs st s tail precLen (succLen := prefixLen succ ((p1 ++ d :: p2) ++ x)) :
  precLen = (if 0 <? len (groups st) then len (groups st) - 1 else 0) -> (if succLen <? precLen then precLen else succLen) = len p1 ->
  groups st = groupsOf Gs -> groupsOk (p1 ++ d :: p2) Gs -> (length Gs <= Datatypes.S (length p1))%nat -> nibble d -> wide 0 st ->
  (0 <? len succ) || (0 <? len (groups st)) = true ->
  emission be data (p1 ++ d :: p2) x (stackOf Gs) s tail ->
  exists F G s1 st1, length F = length p1 /\ groupsOk p1 F /\ (forall e, d < e -> groupOk e G) /\ (1 <= length G)%nat /\
    (length Gs = Datatypes.S (length p1) -> closed Gs -> (2 <= length G)%nat) /\
    holds s1 (stackOf F ++ map snd G) /\ plug (p1 ++ d :: p2) Gs tail = plug p1 F (contents (Branch G)) /\
    groups st1 = groupsOf (F ++ [G]) /\ wide (Datatypes.S (length p1)) st1 /\
    genStructLoop (Datatypes.S fuel) retain None data None cutoff be ((p1 ++ d :: p2) ++ x) succ st s =
    closeGroup retain None None cutoff (fun curr st => genStructLoop fuel retain None data None cutoff true curr succ st)
      ((p1 ++ d :: p2) ++ x) succ (0 <? len (groups st)) precLen succLen (len p1) st1 s1.
Proof.
  intros Hprec Hmax Eg HG HGl Hd [Hw _] Hor Hem. set (p := p1 ++ d :: p2) in *.
  destruct (split_groups p1 d p2 Gs HG HGl) as (F & G & HF & HF1 & HG1 & Estk & Eplug & Eor & Ecl).
  set (more := Z.to_nat (len p1 + 1 + (len (p ++ x) - (len p1 + 1)) + 1 - len (hasTree st))).
  set (st0 := fun gs => mk_sets gs (hasTree st ++ replicate more 0) (hasHash st ++ replicate more 0)).
  assert (forall gs, wide (Datatypes.S (length (p ++ x))) (st0 gs)) as Hw0.
  { intros gs. split; cbn; rewrite !length_app, !length_replicate; [lia|]. unfold more, len. rewrite length_app. lia. }
  destruct (Hem (Datatypes.S (length p1)) (len p1) (st0 (groupsOf (F ++ [G ++ [(d, Branch [])]])))) as (t & s1 & st1 & Ee & Egs & Hw1 & Hh1 & Hct & Ect); [unfold p; rewrite length_app; cbn; lia|apply Hw0|].
  exists F, (G ++ [(d, t)]), s1, st1. split; [done|]. split; [done|]. split; [intros e He; by apply (groupOk_snoc d)|].
  split; [rewrite length_app; cbn; lia|]. split.
  { intros El Hc. rewrite (Ecl El) in Hc. unfold closed in Hc. rewrite last_snoc in Hc. rewrite length_app. destruct G; [done|]. cbn. lia. }
  split; [rewrite Estk, <- app_assoc in Hh1; rewrite map_app; exact Hh1|].
  split. { rewrite Eplug. f_equal. rewrite contents_snoc. do 2 f_equal. rewrite Ect. unfold p. rewrite drop_app_ge by lia.
    by replace (Datatypes.S (length p1) - length p1)%nat with 1%nat by lia. }
  split. { rewrite Egs. cbn [groups st0]. unfold groupsOf. rewrite !map_app. cbn [map]. by rewrite !map_app. }
  split; [done|]. cbn [genStructLoop]. rewrite <- Hprec. fold succLen. rewrite Hmax. rewrite (lookupZ_middle p1 d p2 x : lookupZ (p ++ x) (len p1) = Some d). cbn [or_panic]. rewrite bind_pure.
  rewrite Eg, (Eor (Branch [])), bind_pure. rewrite <- Eg, Hor. fold more. fold (st0 (groupsOf (F ++ [G ++ [(d, Branch [])]]))).
  replace (len p1 + 1) with (Z.of_nat (Datatypes.S (length p1))) by (unfold len; lia). by erewrite M_bind_Ok by exact Ee.
Qed.

(** The key to go on with, and how it compares to the next one. *)
Definition continues (p q y : list Z) : Prop := (q = [] /\ y = []) \/ before p q.

(** The last group is closed with a branch; the rest of the loop is [IH]. *)
Lemma loop_close fuel cutoff be data p x q y F0 G0 st s tail :
  (forall p1 Gs st s t, (length p1 < length p)%nat -> shortKey p1 -> p1 <> [] -> groups st = groupsOf Gs -> groupsOk p1 Gs -> closed Gs -> wide 0 st ->
     continues p1 q y -> emission true data p1 [] (stackOf Gs) s (contents t) ->
     exists st' s', genStructLoop fuel retain None data None cutoff true p1 (q ++ y) st s = Ok (inr st', s') /\ wide 0 st' /\ progress q (plug p1 Gs (contents t)) st' s') ->
  shortKey p -> groups st = groupsOf (F0 ++ [G0]) -> groupsOk p (F0 ++ [G0]) -> closed (F0 ++ [G0]) -> wide 0 st ->
  (q = [] /\ y = [] \/ exists c a b p' q', p = c ++ a :: p' /\ q = c ++ b :: q' /\ a < b /\ (length c < length F0)%nat) ->
  emission be data p x (stackOf (F0 ++ [G0])) s tail ->
  exists st' s', genStructLoop (Datatypes.S fuel) retain None data None cutoff be (p ++ x) (q ++ y) st s = Ok (inr st', s') /\ wide 0 st' /\
    progress q (plug p (F0 ++ [G0]) tail) st' s'.
Proof.
  intros IH [Hn Hl] Eg HG Hcl Hw Hq Hem. pose proof (groupsOk_length _ _ HG) as HGl. rewrite length_app in HGl. cbn [length] in HGl.
  destruct (lookup_lt_is_Some_2 p (length F0)) as [d Ed]; [lia|]. pose proof (take_drop_middle p (length F0) d Ed) as Ep.
  set (p1 := take (length F0) p) in *. set (p2 := drop (Datatypes.S (length F0)) p) in *. assert (length p1 = length F0) as Hp1 by (unfold p1; rewrite length_take; lia).
  rewrite <- Ep in *. assert (len (groups st) = len p1 + 1) as Elg by (rewrite Eg; unfold len, groupsOf; rewrite length_map, length_app; cbn; lia).
  assert (0 <? len (groups st) = true) as Ex by (apply Z.ltb_lt; rewrite Elg; unfold len; lia).
  assert (exists succLen, prefixLen (q ++ y) ((p1 ++ d :: p2) ++ x) = succLen /\ (q ++ y = [] /\ succLen = 0 \/ succLen < len p1)) as (succLen & Es & Hs).
  { destruct Hq as [[-> ->] | (c & a & b & p' & q' & E1 & -> & Hab & Hc)]; [exists 0; split; [done|by left]|]. exists (len c). split; [|right; unfold len; lia].
    rewrite E1, <- !app_assoc. apply prefixLen_diverge. lia. }
  assert (nibble d) as Hd by (apply Forall_app in Hn as [_ Hn]; by inversion Hn).
  destruct (turn_spec fuel cutoff be data p1 d p2 x (q ++ y) (F0 ++ [G0]) st s tail (len p1)) as (F & G & s1 & st1 & HF & HF1 & HG1 & Hg & Hg2 & Hh1 & Eplug & Eg1 & Hw1 & E); try done.
  { rewrite Ex, Elg. lia. }
  { rewrite Es. destruct Hs as [[_ ->] | Hs]; [destruct (Z.ltb_spec 0 (len p1)); unfold len in *; lia|]. by rewrite (proj2 (Z.ltb_lt _ _)) by lia. }
  { rewrite length_app. cbn. lia. }
  { rewrite Ex. apply orb_true_r. }
  rewrite E, Ex. clear E. pose proof (HG1 (d + 1) ltac:(lia)) as [HGs HGn _ HGc]. assert (2 <= length G)%nat as H2 by (apply Hg2; [rewrite length_app; cbn; lia|done]).
  destruct (closeGroup_branch cutoff (fun curr st => genStructLoop fuel retain None data None cutoff true curr (q ++ y) st) p1 ((d :: p2) ++ x) (q ++ y) F G succLen st1 s1) as (s2 & gs & ht & hh & Ehl & -> & Hh2 & E2); try done.
  { destruct Hs as [[? _] | ?]; [by left|by right]. }
  rewrite <- app_assoc. rewrite <- app_assoc in Es. rewrite Es, E2. clear E2. assert (canonical (Branch G)) as HcB by (split_and!; [done..|by apply canonical_children]). rewrite Eplug.
  destruct (Z.eqb_spec (len p1) 0) as [E0|E0].
  - destruct p1 as [|? ?]; [|unfold len in E0; cbn in E0; lia]. destruct F as [|? ?]; [|done].
    destruct Hq as [[-> ->] | (c & a & b & p' & q' & _ & _ & _ & Hc)]; [|cbn in Hp1; lia]. do 2 eexists. split; [done|]. split; [split; [done|lia]|].
    exists (Branch G). split; [done|]. split; [done|]. cbn [plug]. by rewrite under_nil.
  - destruct (dropZeros_groups F (groupsOk_nibbles _ _ HF1)) as (F' & n & EF & HcF & Er). rewrite Er.
    replace (plug p1 F (contents (Branch G))) with (plug p1 F' (contents (Branch G))).
    2:{ rewrite EF. symmetry. apply plug_pad. rewrite <- HF, EF, length_app, length_replicate. lia. }
    assert (shortKey p1) as Hk1. { split; [by apply Forall_app in Hn as [? _]|]. unfold len in *. rewrite length_app in Hl. lia. }
    apply IH; try done.
    + rewrite length_app. cbn. lia.
    + by intros ->.
    + apply (groupsOk_prefix _ _ (replicate n [])). rewrite EF in HF1. exact HF1.
    + split; [done|lia].
    + destruct Hq as [Hq | (c & a & b & p' & q' & E1 & -> & Hab & Hc)]; [by left|]. right.
      exists c, a, b, (take (length p1 - length c - 1) p'), q'. split; [|done]. apply (f_equal (take (length p1))) in E1. rewrite take_app_length in E1. etrans; [exact E1|].
      rewrite take_app_ge by lia. destruct (length p1 - length c)%nat as [|k] eqn:Ek; [lia|]. cbn [firstn Nat.sub]. by rewrite Nat.sub_0_r.
    + apply emission_built; try done. rewrite EF, stackOf_pad in Hh2. done.
Qed.

(** The group of the next key stays open. *)
Lemma loop_return fuel cutoff be data c a p' x b q' y Gs st s tail : shortKey (c ++ a :: p') -> a < b -> groups st = groupsOf Gs -> groupsOk (c ++ a :: p') Gs ->
  wide 0 st -> (length Gs <= Datatypes.S (length c))%nat -> emission be data (c ++ a :: p') x (stackOf Gs) s tail ->
  exists st' s', genStructLoop (Datatypes.S fuel) retain None data None cutoff be ((c ++ a :: p') ++ x) ((c ++ b :: q') ++ y) st s = Ok (inr st', s') /\ wide 0 st' /\
    progress (c ++ b :: q') (plug (c ++ a :: p') Gs tail) st' s'.
Proof.
  intros [Hn _] Hab Eg HG Hw Hle Hem. assert (nibble a) as Hd by (apply Forall_app in Hn as [_ Hn]; by inversion Hn).
  assert (prefixLen ((c ++ b :: q') ++ y) ((c ++ a :: p') ++ x) = len c) as Es by (rewrite <- !app_assoc; apply prefixLen_diverge; lia).
  set (precLen := if 0 <? len (groups st) then len (groups st) - 1 else 0).
  assert (precLen <= len c) as Hprec.
  { unfold precLen. rewrite Eg. unfold len, groupsOf. rewrite length_map. destruct (Z.ltb_spec 0 (Z.of_nat (length Gs))); lia. }
  assert (0 <? len ((c ++ b :: q') ++ y) = true) as Eq by (apply Z.ltb_lt; unfold len; rewrite !length_app; cbn; lia).
  destruct (turn_spec fuel cutoff be data c a p' x ((c ++ b :: q') ++ y) Gs st s tail precLen) as (F & G & s1 & st1 & HF & HF1 & HG1 & Hg & _ & Hh1 & Eplug & Eg1 & Hw1 & E); try done.
  { rewrite Es. by rewrite (proj2 (Z.ltb_ge _ _)) by lia. }
  { by rewrite Eq. }
  rewrite E, Es. unfold closeGroup. rewrite (proj2 (Z.leb_le _ _)), Eq by lia. cbn [andb]. exists st1, s1. split; [done|]. split; [destruct Hw1; split; [done|lia]|].
  destruct (c ++ b :: q') as [|z zs] eqn:Ez; [by destruct c|]. cbn [progress]. rewrite <- Ez. exists (F ++ [G]). split_and!; [done| | | |].
  - apply groupsOk_app; [done|]. split; [done|]. split; [auto|done].
  - unfold closed. rewrite last_snoc. destruct G; [cbn in Hg; lia|done].
  - rewrite stackOf_app. unfold stackOf at 2. cbn. by rewrite app_nil_r.
  - rewrite Eplug, plug_app by done. f_equal. cbn [plug]. by rewrite app_nil_r.
Qed.

(** The only key of the trie, or the only branch. *)
Lemma loop_alone fuel cutoff be data p x st s tail : p <> [] -> groups st = [] -> wide 0 st -> emission be data p x [] s tail ->
  exists st' s', genStructLoop (Datatypes.S fuel) retain None data None cutoff be (p ++ x) [] st s = Ok (inr st', s') /\ wide 0 st' /\
    progress [] (under p tail) st' s'.
Proof.
  intros Hne Eg [Hw _] Hem. cbn [genStructLoop]. rewrite Eg. destruct p as [|d p]; [done|].
  change (len (@nil Z)) with 0. change (prefixLen [] ((d :: p) ++ x)) with 0. cbn [Z.ltb Z.compare orb].
  change (lookupZ ((d :: p) ++ x) 0) with (Some d). cbn [or_panic]. rewrite bind_pure. change (orBit (extendTo [] 0) 0 d) with (Ok [Z.lor 0 (bit d)]). rewrite bind_pure.
  set (more := Z.to_nat _). set (st0 := mk_sets [Z.lor 0 (bit d)] (hasTree st ++ replicate more 0) (hasHash st ++ replicate more 0)).
  destruct (Hem O 0 st0) as (t & s1 & st1 & Ee & Egs & [Hw1 _] & Hh1 & Hct & Ect); [lia| |].
  { split; cbn; rewrite !length_app, !length_replicate; [lia|]. unfold more, len. rewrite length_app. cbn [length]. lia. }
  change (Z.of_nat 0) with 0 in Ee. erewrite M_bind_Ok by exact Ee. unfold closeGroup. change (len (@nil Z)) with 0. cbn [Z.leb Z.compare andb Z.ltb orb announce].
  erewrite M_bind_Ok by done. cbv beta iota. erewrite M_bind_Ok by done. cbv beta iota.
  cbn [announceRoot]. erewrite orReturn_none by done. change 0 with (Z.of_nat 0). rewrite !upTo_ok by lia. rewrite !bind_pure.
  do 2 eexists. split; [done|]. split; [split; [done|lia]|]. exists t. split; [exact Hh1|]. by rewrite drop_0 in Ect.
Qed.

(** The loop from a key whose node is emitted in the first turn. *)
Lemma genLoop_spec fuel : forall cutoff be data p x q y Gs st s tail, (length p < fuel)%nat -> shortKey p -> p <> [] ->
  groups st = groupsOf Gs -> groupsOk p Gs -> closed Gs -> wide 0 st -> continues p q y -> emission be data p x (stackOf Gs) s tail ->
  exists st' s', genStructLoop fuel retain None data None cutoff be (p ++ x) (q ++ y) st s = Ok (inr st', s') /\ wide 0 st' /\ progress q (plug p Gs tail) st' s'.
Proof.
  induction fuel as [|fuel IH]; intros cutoff be data p x q y Gs st s tail Hf Hp Hne Eg HG Hcl Hw Hq Hem; [lia|].
  assert (forall p1 Gs st s t, (length p1 < length p)%nat -> shortKey p1 -> p1 <> [] -> groups st = groupsOf Gs -> groupsOk p1 Gs -> closed Gs -> wide 0 st ->
     continues p1 q y -> emission true data p1 [] (stackOf Gs) s (contents t) ->
     exists st' s', genStructLoop fuel retain None data None cutoff true p1 (q ++ y) st s = Ok (inr st', s') /\ wide 0 st' /\ progress q (plug p1 Gs (contents t)) st' s') as IH'.
  { intros p1 Gs1 st1 s1 t Hlt Hk1 Hn1 H1 H2 H3 H4 H5 H6. destruct (IH cutoff true data p1 [] q y Gs1 st1 s1 (contents t)) as (st' & s' & E & H'); try done; [lia|].
    rewrite app_nil_r in E. eauto. }
  destruct Hq as [[-> ->] | (c & a & b & p' & q' & Ep & Eq & Hab)].
  - destruct (exists_last_or_nil Gs) as [-> | (F0 & G0 & ->)]; [|eapply loop_close; eauto; by left].
    destruct (loop_alone fuel cutoff be data p x st s tail) as (st' & s' & E & Hw' & Hp'); try done. exists st', s'. split; [done|]. split; [done|]. by destruct p.
  - destruct (decide (length Gs <= Datatypes.S (length c))%nat) as [Hle|Hgt].
    + subst p q. eapply loop_return; eauto.
    + destruct (exists_last_or_nil Gs) as [-> | (F0 & G0 & ->)]; [cbn in Hgt; lia|]. eapply loop_close; eauto. right.
      exists c, a, b, p', q'. split_and!; try done. rewrite length_app in Hgt. cbn in Hgt. lia.
Qed.

Lemma plug_tail p Gs tail : plug p Gs tail = plug p Gs [] ++ under p tail.
Proof.
  revert p. induction Gs as [|G Gs IH]; intros p; [done|]. destruct p as [|d p]; [done|]. cbn [plug]. rewrite IH, <- app_assoc. f_equal.
  unfold under at 1. rewrite map_app. f_equal. symmetry. apply (under_app [d]).
Qed.

(** Before the first key nothing is on the stack. *)
Lemma progress_start q s : q <> [] -> holds s [] -> progress q [] (mk_sets [] [] []) s.
Proof. intros Hq Hh. destruct q as [|d q]; [done|]. by exists []. Qed.

(** A step on a key and its successor, for a leaf or for the hash of a branch. *)
Lemma genStep_spec data e p x q y C st s :
  (exists v, data = GenStructStepLeafData v /\ leafOk v /\ x = [16] /\ e = Val (leafValue v)) \/
  (exists h tree, data = GenStructStepHashData h tree /\ x = [] /\ e = Hashed h) ->
  shortKey p -> p <> [] -> continues p q y -> wide 0 st -> progress p C st s ->
  exists st' s', GenStructStep retain (p ++ x) (q ++ y) None data st s = Ok (inr st', s') /\ wide 0 st' /\ progress q (C ++ [(p, e)]) st' s'.
Proof.
  intros Hdata Hp Hne Hq Hw Hpr. assert (exists Gs, groups st = groupsOf Gs /\ groupsOk p Gs /\ closed Gs /\ holds s (stackOf Gs) /\ plug p Gs [] = C) as (Gs & Eg & HG & Hcl & Hh & <-) by (by destruct p).
  assert (emission false data p x (stackOf Gs) s [([], e)]) as Hem.
  { destruct Hdata as [(v & -> & Hv & -> & ->) | (h & tree & -> & -> & ->)]; [by apply emission_leaf|by apply emission_hash]. }
  destruct (genLoop_spec (Datatypes.S (length (p ++ x))) false false data p x q y Gs st s [([], e)]) as (st' & s' & E & Hw' & Hpr'); try done; [rewrite length_app; lia|].
  exists st', s'. split; [exact E|]. split; [done|]. rewrite plug_tail in Hpr'. unfold under in Hpr'. cbn in Hpr'. by rewrite app_nil_r in Hpr'.
Qed.
End turns.
