(* ===== verification/HashBuilderSpec.v ===== *)
(** HashBuilder as a machine that assembles tries: its hash stack holds the
    references of the tries, and each instruction puts there what the encoding
    of the Yellow Paper asks for. *)
From stdpp Require Import sorting.
From S2P Require Import Prelude Uint256 StateTypes Accounts AccountSpec Rlp RlpSpec TrieKeys HashBuilder GenStructStep PatriciaSpec GenStructSpec.
#[local] Open Scope Z_scope.

(** * Headers *)
Lemma be_split_1 v : be_split 1 v = [byte.of_Z v].
Proof. done. Qed.

Lemma of_Z_land_255 v : byte.of_Z (Z.land v 255) = byte.of_Z v.
Proof.
  apply byte.unsigned_inj. rewrite !byte.unsigned_of_Z. change 255 with (Z.ones 8). rewrite Z.land_ones by lia. unfold byte.wrap. by rewrite Z.mod_mod.
Qed.

(** The headers of rlphacks are those of RLP, up to 16 MiB. *)
Lemma long_head tag l : 56 <= l < 2 ^ 24 ->
  map byte.of_Z (if l <? 256 then [tag + 1; l] else if l <? 65536 then [tag + 2; Z.shiftr l 8; Z.land l 255] else [tag + 3; Z.shiftr l 16; Z.land (Z.shiftr l 8) 255; Z.land l 255]) =
  byte.of_Z (tag + byteLen l) :: be_split (Z.to_nat (byteLen l)) l.
Proof.
  intros Hl. destruct (Z.ltb_spec l 256); [|destruct (Z.ltb_spec l 65536)].
  - rewrite (byteLen_unique l 1) by lia. done.
  - rewrite (byteLen_unique l 2) by lia. change (Z.to_nat 2) with (1 + 1)%nat. rewrite be_split_app, !be_split_1. cbn [map app]. by rewrite of_Z_land_255.
  - rewrite (byteLen_unique l 3) by lia. change (Z.to_nat 3) with (1 + (1 + 1))%nat. rewrite !be_split_app, !be_split_1. cbn [map app]. by rewrite !of_Z_land_255.
Qed.

Lemma GenerateStructLen_head l : 0 <= l < 2 ^ 24 -> GenerateStructLen l = rlpHead 0xC0 l.
Proof.
  intros Hl. unfold GenerateStructLen, rlpHead. destruct (Z.ltb_spec l 56); [done|]. rewrite (long_head 247) by lia. done.
Qed.

Lemma generateByteArrayLen_head l : 0 <= l < 2 ^ 24 -> generateByteArrayLen l = rlpHead 0x80 l.
Proof.
  intros Hl. unfold generateByteArrayLen, rlpHead, multiByteHeaderPrefixOfLen. destruct (Z.ltb_spec l 56); [done|]. rewrite (long_head 183) by lia. done.
Qed.

Lemma encodeBytesAsRlp_str b : b <> [] -> len b < 2 ^ 24 -> encodeBytesAsRlp b generateByteArrayLen = rlpStr b.
Proof.
  intros Hb Hl. unfold encodeBytesAsRlp, rlpStr, single. destruct b as [|x [|y b]]; [done| |].
  - rewrite Z.leb_antisym. destruct (byte.unsigned x <? 128); [done|]. by rewrite generateByteArrayLen_head.
  - f_equal. apply generateByteArrayLen_head. unfold len in *. cbn in *. lia.
Qed.

Lemma headsize_small l : 0 <= l < 2 ^ 24 -> headsize l = if l <? 56 then 1 else if l <? 256 then 2 else if l <? 65536 then 3 else 4.
Proof.
  intros Hl. unfold headsize, intsize. destruct (Z.ltb_spec l 56); [done|]. destruct (Z.ltb_spec l 256); [by rewrite (byteLen_unique l 1) by lia|].
  destruct (Z.ltb_spec l 65536); [by rewrite (byteLen_unique l 2) by lia|by rewrite (byteLen_unique l 3) by lia].
Qed.

(** RlpSerializableBytes encodes twice at once. *)
Lemma generateByteArrayLenDouble_head l : 1 <= l < 2 ^ 24 - 4 -> generateByteArrayLenDouble l = rlpHead 0x80 (headsize l + l) ++ rlpHead 0x80 l.
Proof.
  intros Hl. rewrite <- !generateByteArrayLen_head by (rewrite ?headsize_small by lia; repeat case_match; lia). rewrite headsize_small by lia.
  unfold generateByteArrayLenDouble, generateByteArrayLen. rewrite <- map_app.
  repeat match goal with |- context [?a <? ?b] => destruct (Z.ltb_spec a b); try lia end; cbn [map app]; rewrite ?of_Z_land_255; repeat (f_equal; try lia).
Qed.

Lemma not_single b : 2 <= len b -> single b = false.
Proof. destruct b as [|x [|y b]]; unfold len; cbn; [lia..|done]. Qed.

Lemma rlpStr_head b : single b = false -> rlpStr b = rlpHead 0x80 (len b) ++ b.
Proof. unfold rlpStr. by intros ->. Qed.

(** What is written for the value of a leaf, and its size. *)
Lemma ToDoubleRLP_value v : 2 <= len (leafValue v) -> len (RawBytes v) < 2 ^ 24 - 8 ->
  ToDoubleRLP v = rlpStr (leafValue v) /\ DoubleRLPLen v = len (rlpStr (leafValue v)).
Proof.
  destruct v as [b|b]; cbn [leafValue RawBytes]; intros H2 Hl.
  - assert (single b = false) as Hs by (destruct (single b) eqn:E; [|done]; rewrite len_rlpStr, E in H2; lia).
    rewrite (rlpStr_head (rlpStr b)) by (by apply not_single). rewrite len_app, len_rlpHead by (len_facts; lia). rewrite len_rlpStr, Hs in *.
    assert (1 <= len b) as Hb1. { destruct b; [vm_compute in H2; by destruct H2|unfold len; cbn; lia]. }
    rewrite (rlpStr_head b) by done. split.
    + unfold ToDoubleRLP. rewrite app_assoc, <- generateByteArrayLenDouble_head by lia. unfold encodeBytesAsRlp. destruct b as [|x [|y b]]; [vm_compute in Hb1; by destruct Hb1| |done].
      cbn in Hs. rewrite Z.leb_antisym, Hs. done.
    + rewrite (headsize_small (headsize (len b) + len b)) by (rewrite headsize_small by lia; repeat case_match; lia). rewrite headsize_small by lia.
      unfold DoubleRLPLen. destruct b as [|x b]; [unfold len in Hb1; cbn in Hb1; lia|]. set (l := len (x :: b)) in *. unfold generateRlpPrefixLenDouble.
      assert (l < 2 -> 128 <=? byte.unsigned x = true) as Hx. { intros Hlt. destruct b; [cbn in Hs; rewrite Z.leb_antisym, Hs; done|unfold l, len in Hlt; cbn in Hlt; lia]. }
      repeat match goal with |- context [l <? ?b] => destruct (Z.ltb_spec l b); try lia end; rewrite ?Hx by lia;
        repeat match goal with |- context [?a <? ?b] => destruct (Z.ltb_spec a b); try lia end.
  - destruct b as [|x [|y b]]; [unfold len in H2; cbn in H2; lia..|]. split; [apply encodeBytesAsRlp_str; [done|lia]|].
    unfold DoubleRLPLen. rewrite len_rlpStr. cbn [single]. rewrite headsize_small by (len_facts; lia). unfold generateRlpPrefixLen. rewrite (proj2 (Z.ltb_ge _ 2)) by lia. done.
Qed.

(** * Keys *)
Lemma hasTerm_snoc k : hasTerm (k ++ [16]) = true.
Proof.
  unfold hasTerm. apply bool_decide_true. unfold lookupZ, len. rewrite length_app. cbn [length]. rewrite (proj2 (Z.ltb_ge _ _)) by lia.
  replace (Z.to_nat (Z.of_nat (length k + 1) - 1)) with (length k) by lia. by apply list_lookup_middle.
Qed.

Lemma hasTerm_nibbles k : Forall nibble k -> hasTerm k = false.
Proof.
  intros Hn. unfold hasTerm. apply bool_decide_false. intros E. apply lookupZ_Some in E as [_ E]. apply list_elem_of_lookup_2, list_elem_of_In in E.
  rewrite Forall_forall in Hn. apply Hn in E. unfold nibble in E. lia.
Qed.

Lemma pairs_pack n key pre rest post : key = pre ++ rest ++ post -> length rest = (2 * n)%nat -> pairs n key (len pre) = Ok (packNibbles rest).
Proof.
  revert pre rest. induction n as [|n IH]; intros pre rest Ek Hl; [by destruct rest|]. destruct rest as [|a [|b rest]]; cbn in Hl; [lia..|].
  cbn [pairs packNibbles]. cbn [app] in Ek.
  assert (lookupZ key (len pre) = Some a) as ->. { rewrite Ek, <- (app_nil_r (pre ++ _)). apply lookupZ_middle. }
  cbn [or_panic mbind outcome_bind].
  assert (forall l, pre ++ a :: l = (pre ++ [a]) ++ l) as Ea by (intros; by rewrite <- app_assoc).
  assert (lookupZ key (len pre + 1) = Some b) as ->.
  { rewrite Ek, Ea, <- (app_nil_r (_ ++ b :: _)). replace (len pre + 1) with (len (pre ++ [a])) by (rewrite len_app; done). apply lookupZ_middle. }
  cbn [or_panic mbind outcome_bind]. replace (len pre + 2) with (len (pre ++ [a; b])) by (rewrite len_app; done).
  rewrite (IH (pre ++ [a; b]) rest) by (try lia; by rewrite <- app_assoc). cbn [mbind outcome_bind]. by rewrite Z.mul_comm.
Qed.

Lemma len_packNibbles k : len (packNibbles k) = len k / 2.
Proof.
  enough (forall n k, (length k <= n)%nat -> len (packNibbles k) = len k / 2) as H by (by apply (H (length k))). clear k.
  induction n as [|n IH]; intros k Hl; (destruct k as [|a [|b k]]; [done..|]); cbn in Hl; [lia|]. cbn [packNibbles]. rewrite !len_cons, IH by lia.
  replace (1 + (1 + len k)) with (len k + 1 * 2) by lia. rewrite Z.div_add by lia. lia.
Qed.

(** The nibble that shares a byte with the flag, and the others. *)
Lemma key_cases (k : list Z) :
  (exists a rest n, k = a :: rest /\ length rest = (2 * n)%nat /\ Z.odd (len k) = true /\ len k / 2 = Z.of_nat n) \/
  (exists n, length k = (2 * n)%nat /\ Z.odd (len k) = false /\ len k / 2 = Z.of_nat n).
Proof.
  unfold len. destruct (Nat.Even_or_Odd (length k)) as [[n En]|[n En]].
  - right. exists n. rewrite En. split; [done|]. replace (Z.of_nat (2 * n)) with (0 + 2 * Z.of_nat n) by lia. rewrite Z.odd_add_mul_2. split; [done|].
    rewrite Z.mul_comm, Z.div_add by lia. done.
  - left. destruct k as [|a k]; [cbn in En; lia|]. exists a, k, n. split; [done|]. cbn in En. split; [lia|]. cbn [length]. rewrite Nat2Z.inj_succ.
    replace (Z.succ (Z.of_nat (length k))) with (1 + 2 * Z.of_nat n) by lia. rewrite Z.odd_add_mul_2. split; [done|]. rewrite Z.mul_comm, Z.div_add by lia. done.
Qed.

Lemma compactHead_spec leaf k : Forall nibble k ->
  compactHead (k ++ (if leaf : bool then [16] else [])) =
  (len k / 2 + 1, 16 * (if leaf then 2 else 0) + (if Z.odd (len k) then 16 + default 0 (lookupZ k 0) else 0), if Z.odd (len k) then 1 else 0).
Proof.
  intros Hn. unfold compactHead. destruct leaf.
  - rewrite hasTerm_snoc, len_app. change (len [16]) with 1. rewrite Z.add_simpl_r. rewrite Z.add_1_r, Z.even_succ.
    destruct (key_cases k) as [(a & rest & n & -> & _ & -> & _) | (n & _ & -> & _)]; [|done].
    change (default 0 (lookupZ ((a :: rest) ++ [16]) 0)) with a. change (default 0 (lookupZ (a :: rest) 0)) with a. f_equal. f_equal. lia.
  - rewrite app_nil_r, hasTerm_nibbles by done. by destruct (Z.odd (len k)).
Qed.

Lemma single_small b : byte.unsigned b < 128 -> rlpStr [b] = [b].
Proof. intros Hb. unfold rlpStr, single. by rewrite (proj2 (Z.ltb_lt _ _)). Qed.

(** What is written for the key. *)
Lemma compactKey_spec leaf k : shortKey k ->
  exists ps, let '(compactLen, compact0, ni) := compactHead (k ++ (if leaf : bool then [16] else [])) in
    pairs (Z.to_nat (compactLen - 1)) (k ++ (if leaf then [16] else [])) ni = Ok ps /\
    keyPrefix compactLen ++ [byte.of_Z compact0] ++ ps = rlpStr (hexPrefix leaf k) /\
    len (keyPrefix compactLen) + (if 1 <? compactLen then compactLen else 1) = len (rlpStr (hexPrefix leaf k)) /\
    len (rlpStr (hexPrefix leaf k)) < 56.
Proof.
  intros [Hn Hl]. rewrite compactHead_spec by done. set (post := if leaf then [16] else []).
  set (flag := if leaf then 2 else 0). assert (0 <= flag <= 2) as Hflag by (unfold flag; destruct leaf; lia).
  set (c0 := byte.of_Z (16 * flag + (if Z.odd (len k) then 16 + default 0 (lookupZ k 0) else 0))).
  assert (exists ps, pairs (Z.to_nat (len k / 2 + 1 - 1)) (k ++ post) (if Z.odd (len k) then 1 else 0) = Ok ps /\ hexPrefix leaf k = c0 :: ps /\ len ps = len k / 2 /\
    byte.unsigned c0 < 128) as (ps & Eps & Eh & Elp & Hc0).
  { unfold hexPrefix, c0. fold flag. rewrite Z.add_simpl_r. destruct (key_cases k) as [(a & rest & n & -> & Er & Eo & En) | (n & Er & Eo & En)]; rewrite Eo, En, Nat2Z.id.
    - exists (packNibbles rest). split; [apply (pairs_pack n _ [a] rest post); [done|done]|]. inversion Hn as [|? ? Ha ?]; subst. unfold nibble in Ha.
      cbn [lookupZ default]. change (default 0 (lookupZ (a :: rest) 0)) with a. replace (16 * (flag + 1) + a) with (16 * flag + (16 + a)) by lia. split; [done|].
      split; [rewrite len_packNibbles; unfold len; rewrite Er; rewrite Nat2Z.inj_mul, Z.mul_comm; apply Z.div_mul; lia|]. rewrite byte.unsigned_of_Z. unfold byte.wrap. rewrite Z.mod_small; lia.
    - exists (packNibbles k). split; [apply (pairs_pack n _ [] k post); done|]. rewrite Z.add_0_r. split; [done|]. split; [by rewrite len_packNibbles|].
      rewrite byte.unsigned_of_Z. unfold byte.wrap. rewrite Z.mod_small; lia. }
  exists ps. split; [done|]. rewrite Eh. unfold keyPrefix. assert (0 <= len k / 2 <= 50) as Hk. { pose proof (len_nonneg k). split; [apply Z.div_pos; lia|]. apply Z.div_le_upper_bound; lia. }
  destruct (Z.ltb_spec 1 (len k / 2 + 1)).
  - rewrite rlpStr_head by (apply not_single; rewrite len_cons; lia). rewrite len_app, !len_cons, Elp. unfold rlpHead. rewrite (proj2 (Z.ltb_lt _ _)) by lia.
    replace (128 + (1 + len k / 2)) with (128 + (len k / 2 + 1)) by lia. rewrite ?len_cons. change (len (@nil Byte.byte)) with 0. split; [done|]. lia.
  - destruct ps as [|? ?]; [|rewrite len_cons in Elp; pose proof (len_nonneg ps); lia]. rewrite single_small by done. split; [done|]. unfold len. cbn. lia.
Qed.

(** * The machine *)
Section machine.
Context {U : Uint256} {UB : Uint256Bytes U} (keccak256 : list Byte.byte -> hash).

Definition refFor (t : patricia) : list Byte.byte := (encodeRef keccak256 t).2.

Definition hashedRef (r : list Byte.byte) : Prop := exists h, r = byte.of_Z (0x80 + 32) :: hashBytes h.

Definition embeddedRef (r : list Byte.byte) : Prop := exists c, r = byte.of_Z (0xc0 + len c) :: c /\ 7 <= len c <= 30.

(** Only leaves are short enough to stand for themselves. *)
Definition soundRef (t : patricia) : Prop :=
  hashedRef (refFor t) \/ embeddedRef (refFor t) /\ match t with Leaf _ _ => True | _ => False end.

Definition entryFor (t : patricia) (e : list Byte.byte) : Prop := length e = 33%nat /\ exists rest, e = refFor t ++ rest.

(** Values of less than five bytes would make branches that are shorter than a
    hash, which this machine does not embed. *)
Definition valueOk (v : RlpSerializable) : Prop := 5 <= len (leafValue v) < 2 ^ 23.

Record stackHolds (s : hb.HashBuilder) (st : list patricia) : Prop := mk_stackHolds {
  holds_nodes : hb.nodeStack s = replicate (length st) trie.nilNode;
  holds_hashes : exists es, hb.hashStack s = concat es /\ Forall2 entryFor st es;
  holds_sound : Forall soundRef st;
  holds_buf : length (hb.hashBuf s) = 33%nat;
  holds_noProof : hb.accProofResult s = None;
  holds_noCollect : hb.collectNode s = false
}.

Lemma refOf_hashed e : 32 <= len e -> refOf keccak256 e = byte.of_Z (0x80 + 32) :: hashBytes (keccak256 e).
Proof.
  intros He. unfold refOf. rewrite (proj2 (Z.ltb_ge _ _)) by lia. assert (len (hashBytes (keccak256 e)) = 32) as El by (unfold len; by rewrite length_hashBytes).
  rewrite rlpStr_head by (apply not_single; lia). by rewrite El.
Qed.

Lemma len_hashEntry w : length (hb.hashEntry keccak256 w) = 33%nat.
Proof. unfold hb.hashEntry. cbn. by rewrite length_hashBytes. Qed.

Lemma encodeRef_ref t : match t with Opaque _ => True | _ => refFor t = refOf keccak256 (encode keccak256 t) end.
Proof. by destruct t. Qed.

Lemma short_list_head c : len c < 56 -> rlpLst c = byte.of_Z (0xc0 + len c) :: c.
Proof. intros Hc. unfold rlpLst, rlpHead. by rewrite (proj2 (Z.ltb_lt _ _)). Qed.

Lemma leafValue_raw v : len (RawBytes v) <= len (leafValue v).
Proof. destruct v; cbn; [apply len_le_rlpStr|lia]. Qed.

Lemma completeLeafHash_ok s k v : shortKey k -> valueOk v -> length (hb.hashBuf s) = 33%nat -> hb.collectNode s = false ->
  exists buf, hb.completeLeafHash keccak256 (k ++ [16]) v s = Ok (tt, hb.set_hashBuf buf s) /\ entryFor (Leaf k (leafValue v)) buf /\ soundRef (Leaf k (leafValue v)).
Proof.
  intros Hk [Hv5 Hv] Hb Hc. destruct (compactKey_spec true k Hk) as [ps Hps]. unfold hb.completeLeafHash.
  destruct (compactHead (k ++ [16])) as [[compactLen compact0] ni]. destruct Hps as (Eps & Ekey & Elen & Hlen).
  pose proof (leafValue_raw v). destruct (ToDoubleRLP_value v) as [Ev Evl]; [lia|lia|].
  set (content := rlpStr (hexPrefix true k) ++ rlpStr (leafValue v)).
  assert (len (keyPrefix compactLen) + (if 1 <? compactLen then compactLen else 1) + DoubleRLPLen v = len content) as -> by (unfold content; rewrite len_app, Elen, Evl; done).
  pose proof (headsize_small (len (leafValue v)) ltac:(lia)) as Ehs.
  assert (len content = len (rlpStr (hexPrefix true k)) + (headsize (len (leafValue v)) + len (leafValue v))) as Elc by (unfold content; rewrite len_app, (len_rlpStr (leafValue v)), not_single by lia; done).
  assert (1 <= len (rlpStr (hexPrefix true k))) as Hk1. { rewrite len_rlpStr. len_facts. pose proof (headsize_pos (len (hexPrefix true k)) (len_nonneg _)). destruct (single _); lia. }
  assert (7 <= len content < 2 ^ 24) as Hlc by (rewrite Elc, Ehs; repeat case_match; lia).
  rewrite Eps. unfold hb.lift at 1. cbn [mbind outcome_bind]. erewrite M_bind_Ok by done. rewrite GenerateStructLen_head, Ev by lia.
  assert (rlpHead 192 (len content) ++ keyPrefix compactLen ++ [byte.of_Z compact0] ++ ps ++ rlpStr (leafValue v) = rlpLst content) as ->.
  { unfold rlpLst. f_equal. unfold content. rewrite <- Ekey, <- !app_assoc. done. }
  unfold hb.proofIfCollecting. erewrite M_bind_Ok by (erewrite M_bind_Ok by done; rewrite Hc; done).
  assert (len content + len (rlpHead 192 (len content)) = len (rlpLst content)) as -> by (unfold rlpLst; rewrite len_app; lia).
  assert (refFor (Leaf k (leafValue v)) = refOf keccak256 (rlpLst content)) as Er by done. unfold refOf in Er.
  destruct (Z.ltb_spec (len (rlpLst content)) 32).
  - erewrite M_bind_Ok by done. unfold hb.lift, copyAt. rewrite (proj2 (Z.leb_le 0 (len (hb.hashBuf s)))) by (len_facts; lia). cbn [Z.leb Z.compare andb].
    unfold mbind at 1, M_bind. cbn [mbind outcome_bind]. rewrite Nat.sub_0_r. cbn [Z.to_nat].
    rewrite (take_ge (rlpLst content)) by (unfold len in *; lia). rewrite take_0. cbn [app Nat.add]. eexists. split; [done|]. rewrite len_rlpLst in *. pose proof (headsize_pos (len content) ltac:(lia)).
    cbn [snd]. change (Z.to_nat 0) with O. cbn [Nat.add]. pose proof (len_rlpLst content) as El. split; [split; [rewrite length_app, length_drop; unfold len in *; lia|]|].
    + exists (drop (length (rlpLst content)) (hb.hashBuf s)). by rewrite Er.
    + right. split; [|done]. exists content. rewrite Er. split; [apply short_list_head; lia|lia].
  - eexists. split; [done|]. clear Er.
    assert (refFor (Leaf k (leafValue v)) = byte.of_Z (0x80 + 32) :: hashBytes (keccak256 (rlpLst content))) as Er by (rewrite <- refOf_hashed by done; done). split; [split; [cbn; by rewrite length_hashBytes|]|].
    + exists []. by rewrite Er, app_nil_r.
    + left. by eexists.
Qed.

(** ** The stack *)
Lemma concat_stride st es : Forall2 entryFor st es -> length (concat es) = (33 * length st)%nat.
Proof. induction 1 as [|t e st es [He _] _ IH]; [done|]. cbn [concat length]. rewrite length_app. lia. Qed.

Lemma holds_lengths s st : stackHolds s st -> length (hb.hashStack s) = (33 * length st)%nat /\ length (hb.nodeStack s) = length st.
Proof.
  intros [Hn (es & E & H2) _ _ _ _]. rewrite E, Hn, length_replicate. split; [by apply concat_stride|done].
Qed.

Lemma holds_hash_inv s st1 st2 : stackHolds s (st1 ++ st2) ->
  exists es1 es2, hb.hashStack s = concat es1 ++ concat es2 /\ Forall2 entryFor st1 es1 /\ Forall2 entryFor st2 es2.
Proof.
  intros [_ (es & E & H2) _ _ _ _]. apply Forall2_app_inv_l in H2 as (es1 & es2 & H1 & H2' & ->). exists es1, es2. by rewrite E, concat_app.
Qed.

(** The new top of the stack in place of the tries [st2]. *)
Lemma holds_replace s st1 st2 t e s' : stackHolds s (st1 ++ st2) -> entryFor t e -> soundRef t ->
  hb.hashStack s' = take (33 * length st1) (hb.hashStack s) ++ e -> hb.nodeStack s' = replicate (length st1 + 1) trie.nilNode ->
  length (hb.hashBuf s') = 33%nat -> hb.accProofResult s' = None -> hb.collectNode s' = false -> stackHolds s' (st1 ++ [t]).
Proof.
  intros Hh He Hs Ehs Ens Hb Hp Hc. destruct (holds_hash_inv _ _ _ Hh) as (es1 & es2 & E & H1 & H2). split; try done.
  - rewrite length_app. exact Ens.
  - exists (es1 ++ [e]). split; [|by apply Forall2_app; [|constructor]]. rewrite Ehs, E, concat_app. cbn [concat]. rewrite app_nil_r. f_equal.
    rewrite <- (concat_stride _ _ H1). apply take_app_length.
  - apply Forall_app. split; [|by constructor]. destruct Hh as [_ _ Hso _ _ _]. by apply Forall_app in Hso as [? _].
Qed.

Lemma from_end {A} (l1 l2 : list A) n : n = len l2 -> HashBuilder.from (l1 ++ l2) (len (l1 ++ l2) - n) = Ok l2.
Proof.
  intros ->. rewrite len_app. replace (len l1 + len l2 - len l2) with (Z.of_nat (length l1)) by (unfold len; lia).
  rewrite from_ok by (rewrite length_app; lia). by rewrite drop_app_length.
Qed.

Lemma leafHash_machine s st p k v : stackHolds s st -> valueOk v -> shortKey k ->
  exists s', hb.leafHash keccak256 (len k + 1) (p ++ k ++ [16]) v s = Ok (None, s') /\ stackHolds s' (st ++ [Leaf k (leafValue v)]).
Proof.
  intros Hh Hv Hk. destruct (holds_lengths _ _ Hh) as [Ehl Enl]. unfold hb.leafHash. rewrite (proj2 (Z.ltb_ge _ _)) by (len_facts; lia).
  unfold hb.suffix. rewrite from_end by (rewrite len_app; done). unfold hb.lift at 1. cbn [mbind outcome_bind]. erewrite M_bind_Ok by done.
  destruct (completeLeafHash_ok s k v Hk Hv (holds_buf _ _ Hh) (holds_noCollect _ _ Hh)) as (buf & E & He & Hs).
  unfold hb.leafHashWithKeyVal. erewrite M_bind_Ok by exact E. erewrite M_bind_Ok by done. erewrite M_bind_Ok by done. erewrite M_bind_Ok by done.
  pose proof He as [Hbl _]. cbn [hb.nodeStack hb.hashStack hb.set_hashBuf hb.set_hashStack]. change (hb.hashBuf (hb.set_hashBuf buf s)) with buf.
  assert (hashStackStride * len (hb.nodeStack s) <? len (hb.hashStack s ++ buf) = true) as ->.
  { apply Z.ltb_lt. unfold len, hashStackStride. rewrite length_app. lia. }
  erewrite M_bind_Ok by done. eexists. split; [done|]. apply (holds_replace s st [] _ buf).
  - by rewrite app_nil_r.
  - done.
  - done.
  - by rewrite <- Ehl, firstn_all.
  - cbn. rewrite (holds_nodes _ _ Hh). rewrite replicate_add. done.
  - done.
  - apply (holds_noProof _ _ Hh).
  - apply (holds_noCollect _ _ Hh).
Qed.

Lemma hash_machine s st h : stackHolds s st -> exists s', hb.hash_ (hashBytes h) s = Ok (None, s') /\ stackHolds s' (st ++ [Opaque h]).
Proof.
  intros Hh. destruct (holds_lengths _ _ Hh) as [Ehl Enl]. eexists. split; [done|].
  assert (len (hashBytes h) = 32) as El by (unfold len; by rewrite length_hashBytes).
  assert (refFor (Opaque h) = byte.of_Z (0x80 + 32) :: hashBytes h) as Er by (unfold refFor; cbn [encodeRef snd]; rewrite rlpStr_head by (apply not_single; lia); by rewrite El).
  apply (holds_replace s st [] _ (byte.of_Z (0x80 + 32) :: hashBytes h)).
  - by rewrite app_nil_r.
  - split; [cbn; by rewrite length_hashBytes|]. exists []. by rewrite Er, app_nil_r.
  - left. by exists h.
  - by rewrite <- Ehl, firstn_all.
  - cbn. rewrite (holds_nodes _ _ Hh). by rewrite replicate_add.
  - apply (holds_buf _ _ Hh).
  - apply (holds_noProof _ _ Hh).
  - apply (holds_noCollect _ _ Hh).
Qed.

Lemma hashedRef_length t e : hashedRef (refFor t) -> entryFor t e -> e = refFor t.
Proof.
  intros [h Eh] [He [rest Er]]. rewrite Eh in Er. rewrite Er, length_app in He. cbn in He. rewrite length_hashBytes in He.
  destruct rest; [|cbn in He; lia]. by rewrite Er, app_nil_r, Eh.
Qed.

Lemma hashEntry_sound t e : refFor t = refOf keccak256 e -> 32 <= len e -> entryFor t (hb.hashEntry keccak256 e) /\ soundRef t.
Proof.
  intros Er He. rewrite refOf_hashed in Er by done. split.
  - split; [apply len_hashEntry|]. exists []. by rewrite Er, app_nil_r.
  - left. by eexists.
Qed.

Lemma extensionHash_machine s st k t : stackHolds s (st ++ [t]) -> branching t -> k <> [] -> shortKey k ->
  exists s', hb.extensionHash keccak256 k s = Ok (None, s') /\ stackHolds s' (st ++ [Extension k t]).
Proof.
  intros Hh Hb Hk Hs. destruct (holds_hash_inv _ _ _ Hh) as (es1 & es2 & E & H1 & H2). destruct (holds_lengths _ _ Hh) as [Ehl Enl]. rewrite length_app in Ehl, Enl. cbn [length] in Ehl, Enl.
  apply Forall2_cons_inv_l in H2 as (e & es3 & He & Hnil & ->). apply Forall2_nil_inv_l in Hnil as ->. cbn [concat] in E. rewrite app_nil_r in E.
  assert (hashedRef (refFor t)) as Hht.
  { pose proof (holds_sound _ _ Hh) as Hso. apply Forall_app in Hso as [_ Hso]. inversion_clear Hso as [|? ? [?|[_ Ht]] _]; [done|]. by destruct t. }
  apply hashedRef_length in He as Ee; [|done]. subst e. assert (len (refFor t) = 33) as El by (destruct He as [He _]; unfold len; lia).
  unfold hb.extensionHash. erewrite M_bind_Ok by (unfold hb.topBytes; rewrite E, from_end by done; done).
  destruct (compactKey_spec false k Hs) as [ps Hps]. rewrite app_nil_r in Hps. destruct (compactHead k) as [[compactLen compact0] ni]. destruct Hps as (Eps & Ekey & Elen & Hlen).
  rewrite Eps. unfold hb.lift at 1. cbn [mbind outcome_bind]. erewrite M_bind_Ok by done. rewrite Elen.
  set (content := rlpStr (hexPrefix false k) ++ refFor t). assert (len (rlpStr (hexPrefix false k)) + 33 = len content) as -> by (unfold content; rewrite len_app; lia).
  assert (33 <= len content < 2 ^ 24) as Hlc by (unfold content; rewrite len_app; len_facts; lia). rewrite GenerateStructLen_head by lia.
  assert (rlpHead 192 (len content) ++ keyPrefix compactLen ++ [byte.of_Z compact0] ++ ps ++ refFor t = rlpLst content) as ->.
  { unfold rlpLst. f_equal. unfold content. rewrite <- Ekey, <- !app_assoc. done. }
  erewrite M_bind_Ok by done. erewrite M_bind_Ok by done. cbn [hb.accProofResult hb.set_hashStack]. rewrite (holds_noProof _ _ Hh). cbn [isSome]. erewrite M_bind_Ok by done.
  unfold hb.nodeAt, mbind at 1, M_bind at 1. cbn [hb.nodeStack hb.set_hashStack]. rewrite (holds_nodes _ _ Hh).
  assert (lookupZ (replicate (length (st ++ [t])) trie.nilNode) (len (replicate (length (st ++ [t])) trie.nilNode) - 0 - 1) = Some trie.nilNode) as ->.
  { unfold lookupZ, len. rewrite length_replicate, length_app. cbn [length]. rewrite (proj2 (Z.ltb_ge _ _)) by lia. apply lookup_replicate. split; [done|lia]. }
  cbn [or_panic mbind outcome_bind]. eexists. split; [done|].
  destruct (hashEntry_sound (Extension k t) (rlpLst content)) as [Hen Hso]; [done|rewrite len_rlpLst; pose proof (headsize_pos (len content) ltac:(lia)); lia|].
  apply (holds_replace s st [t] _ (hb.hashEntry keccak256 (rlpLst content))); try done.
  - cbn [hb.hashStack hb.set_hashStack]. f_equal. f_equal. unfold hashStackStride, len. lia.
  - cbn [hb.nodeStack hb.set_hashStack]. rewrite (holds_nodes _ _ Hh), length_app. done.
  - apply (holds_buf _ _ Hh).
  - apply (holds_noProof _ _ Hh).
  - apply (holds_noCollect _ _ Hh).
Qed.

(** ** Branches *)
Lemma soundRef_head t : soundRef t ->
  exists b c, refFor t = b :: c /\ 7 <= len c <= 32 /\ (if byte.unsigned b =? 0x80 + 32 then 32 else byte.unsigned b - 0xc0) = len c.
Proof.
  intros [[h ->] | [(c & -> & Hc) _]]; eexists _, _; (split; [done|]).
  - assert (len (hashBytes h) = 32) as -> by (unfold len; by rewrite length_hashBytes). done.
  - rewrite byte.unsigned_of_Z. unfold byte.wrap. rewrite Z.mod_small by lia. rewrite (proj2 (Z.eqb_neq _ _)) by lia. lia.
Qed.

Lemma childRef_head d r refs : childRef ((d, r) :: refs) d = r.
Proof. unfold childRef. cbn. by rewrite Z.eqb_refl. Qed.

Lemma childRef_skip c refs d : c.1 <> d -> childRef (c :: refs) d = childRef refs d.
Proof. intros Hc. unfold childRef. cbn. by rewrite (proj2 (Z.eqb_neq _ _)). Qed.

Definition refsOf (cs : list (Z * patricia)) : list (Z * list Byte.byte) := map (fun c => (c.1, refFor c.2)) cs.

Definition slots (cs : list (Z * patricia)) (ds : list Z) : list Byte.byte := concat (map (childRef (refsOf cs)) ds).

Lemma childRef_none cs d : existsb (Z.eqb d) (map fst cs) = false -> childRef (refsOf cs) d = rlpStr [].
Proof.
  induction cs as [|[d0 t] cs IH]; [done|]. cbn [map existsb fst]. intros [Hd Hcs]%orb_false_iff. apply Z.eqb_neq in Hd. unfold refsOf. cbn [map]. rewrite childRef_skip by (cbn; congruence). by apply IH.
Qed.

Lemma slots_skip d t cs ds : Forall (fun x => d < x) ds -> slots ((d, t) :: cs) ds = slots cs ds.
Proof. intros Hd. unfold slots. f_equal. apply map_ext_Forall. eapply Forall_impl; [|exact Hd]. intros x Hx. apply childRef_skip. cbn in *. lia. Qed.

(** The children in the slots of the digits [ds], whose entries follow [es0]. *)
Record scan (set : Z) (ds : list Z) (cs : list (Z * patricia)) (es0 es : list (list Byte.byte)) : Prop := mk_scan {
  scan_entries : Forall2 entryFor (map snd cs) es;
  scan_sound : Forall soundRef (map snd cs);
  scan_sorted : StronglySorted Z.lt (map fst cs);
  scan_in : Forall (fun d => In d ds) (map fst cs);
  scan_set : Forall (fun d => Z.testbit set d = existsb (Z.eqb d) (map fst cs)) ds;
  scan_done : Forall (fun e => length e = 33%nat) es0
}.

Lemma existsb_gt d ds : Forall (fun x => d < x) ds -> existsb (Z.eqb d) ds = false.
Proof. induction 1 as [|x ds Hx _ IH]; [done|]. cbn. rewrite IH, (proj2 (Z.eqb_neq _ _)) by lia. done. Qed.

(** The slot of the first digit is taken by the first child or is empty. *)
Lemma scan_cons set d ds cs es0 es : StronglySorted Z.lt (d :: ds) -> scan set (d :: ds) cs es0 es ->
  (Z.testbit set d = false /\ childRef (refsOf cs) d = [byte.of_Z 0x80] /\ scan set ds cs es0 es) \/
  (Z.testbit set d = true /\ exists t cs' e es', cs = (d, t) :: cs' /\ es = e :: es' /\ entryFor t e /\ soundRef t /\ scan set ds cs' (es0 ++ [e]) es').
Proof.
  intros [Hds Hd]%StronglySorted_inv [He Hso Hst Hin Hset H0]. inversion Hset as [|? ? Hb Hset']; subst. rewrite Forall_forall in Hd, Hin.
  destruct (existsb (Z.eqb d) (map fst cs)) eqn:Ex; [right|left].
  - split; [done|]. destruct cs as [|[d1 t] cs]; [done|]. cbn [map fst snd] in *. apply StronglySorted_inv in Hst as [Hst Hlt].
    assert (d1 = d) as ->. { destruct (Hin d1 (or_introl eq_refl)) as [?|Hd1]; [done|]. specialize (Hd _ Hd1). cbn [existsb] in Ex. rewrite existsb_gt in Ex; [|by eapply Forall_impl; [|exact Hlt]; cbn; intros; lia].
      rewrite orb_false_r in Ex. apply Z.eqb_eq in Ex. congruence. }
    apply Forall2_cons_inv_l in He as (e & es' & He & Hes & ->). inversion Hso as [|? ? Ht Hcs]; subst. exists t, cs, e, es'. do 4 (split; [done|]).
    split; try done.
    + apply Forall_forall. intros x Hx. destruct (Hin x (or_intror Hx)) as [<-|?]; [|done]. rewrite Forall_forall in Hlt. specialize (Hlt _ Hx). lia.
    + rewrite Forall_forall in Hset' |- *. intros x Hx. rewrite (Hset' x Hx). cbn [existsb]. specialize (Hd x Hx). rewrite (proj2 (Z.eqb_neq _ _)) by lia. done.
    + apply Forall_app. split; [done|]. constructor; [apply He|done].
  - split; [done|]. split; [by apply childRef_none|]. split; try done. apply Forall_forall. intros x Hx. destruct (Hin x Hx) as [<-|?]; [|done].
    exfalso. assert (existsb (Z.eqb d) (map fst cs) = true) as Hc by (apply existsb_exists; exists d; split; [done|apply Z.eqb_refl]). congruence.
Qed.

Lemma len_concat_stride (es0 : list (list Byte.byte)) : Forall (fun e => length e = 33%nat) es0 -> len (concat es0) = hashStackStride * len es0.
Proof. induction 1 as [|e es0 He _ IH]; [done|]. cbn [concat]. rewrite len_app, len_cons, IH. unfold len at 1. rewrite He. unfold hashStackStride. lia. Qed.

(** The entry of the next child. *)
Lemma entry_read es0 t e es : Forall (fun e => length e = 33%nat) es0 -> entryFor t e -> soundRef t ->
  exists b, hb.firstByte (concat es0 ++ concat (e :: es)) (len es0) = Ok b /\
    let size := if b =? 0x80 + 32 then 32 else b - 0xc0 in
    size = len (refFor t) - 1 /\ 7 <= size <= 32 /\
    slice (concat es0 ++ concat (e :: es)) (hashStackStride * len es0) (hashStackStride * len es0 + size + 1) = Ok (refFor t).
Proof.
  intros H0 [_ [rest ->]] Hs. destruct (soundRef_head t Hs) as (b & c & E & Hc & Eb). exists (byte.unsigned b). cbn [concat]. split.
  - unfold hb.firstByte. rewrite E. cbn [app]. by apply index_app, len_concat_stride.
  - rewrite Eb, E, len_cons. cbn zeta. split; [lia|]. split; [done|]. rewrite <- (app_assoc (b :: c)). apply slice_app; [by apply len_concat_stride|]. rewrite len_cons. lia.
Qed.

Lemma branch_scan set ds : StronglySorted Z.lt ds -> forall cs es0 es, scan set ds cs es0 es ->
  (forall tot, hb.branchSize ds set (concat es0 ++ concat es) (len es0) tot = Ok (tot + len (slots cs ds) - len ds)) /\
  hb.branchBytes ds set (concat es0 ++ concat es) (len es0) = Ok (slots cs ds) /\
  len (filter (fun d => Z.testbit set d = true) ds) = len cs /\
  len ds + 7 * len cs <= len (slots cs ds) <= 33 * len ds.
Proof.
  induction ds as [|d ds IH]; intros Hsd cs es0 es Hsc.
  - assert (cs = []) as -> by (destruct cs as [|c cs]; [done|]; pose proof (scan_in _ _ _ _ _ Hsc) as Hi; inversion_clear Hi; done).
    split; [intros tot; cbn; by rewrite Z.add_0_r, Z.sub_0_r|]. done.
  - pose proof Hsd as [Hsd' Hd]%StronglySorted_inv. destruct (scan_cons _ _ _ _ _ _ Hsd Hsc) as [(Hb & Ec & Hsc') | (Hb & t & cs' & e & es' & -> & -> & He & Hso & Hsc')].
    + destruct (IH Hsd' _ _ _ Hsc') as (Hsz & Hby & Hct & Hlo & Hhi). cbn [hb.branchSize hb.branchBytes]. rewrite Hb, Hby. unfold slots in *. cbn [map concat]. rewrite Ec, len_app.
      change (len [byte.of_Z 128]) with 1. rewrite len_cons. split; [intros tot; rewrite Hsz; f_equal; lia|]. split; [done|]. split; [|lia].
      rewrite filter_cons_False by congruence. done.
    + destruct (IH Hsd' _ _ _ Hsc') as (Hsz & Hby & Hct & Hlo & Hhi). destruct (entry_read es0 t e es' (scan_done _ _ _ _ _ Hsc) He Hso) as (b & Eb & Esz & Hbd & Esl).
      assert (concat (es0 ++ [e]) ++ concat es' = concat es0 ++ concat (e :: es')) as Ecc by (rewrite concat_app; cbn [concat]; by rewrite app_nil_r, <- app_assoc).
      assert (len (es0 ++ [e]) = len es0 + 1) as El by (by rewrite len_app). rewrite Ecc, El in Hsz, Hby.
      assert (slots ((d, t) :: cs') (d :: ds) = refFor t ++ slots cs' ds) as Esl'.
      { rewrite <- (slots_skip d t cs' ds Hd). unfold slots. cbn [map concat]. f_equal. apply childRef_head. }
      cbn [hb.branchSize hb.branchBytes]. rewrite Hb, Eb, Esl'. cbn [mbind outcome_bind]. rewrite Esl. cbn [mbind outcome_bind]. rewrite Hby, len_app, !len_cons.
      assert (forall x, (if b =? 0x80 + 32 then 32 else (b - 0xc0) mod 256) = x <-> (if b =? 0x80 + 32 then 32 else b - 0xc0) = x) as Emod.
      { intros x. destruct (b =? 0x80 + 32); [done|]. by rewrite Z.mod_small by lia. }
      split; [intros tot; rewrite Hsz; f_equal; rewrite (proj2 (Emod _) Esz); lia|]. split; [done|]. split; [|lia]. rewrite filter_cons_True by done. rewrite len_cons. lia.
Qed.

Lemma sorted_seqZ m n : StronglySorted Z.lt (seqZ m n).
Proof.
  unfold seqZ. generalize (Z.to_nat n). intros k. revert m. induction k as [|k IH]; intros m; [constructor|]. cbn [seq fmap list_fmap]. constructor.
  - rewrite <- fmap_S_seq, <- list_fmap_compose. erewrite list_fmap_ext; [apply (IH (m + 1))|]. intros i x _. cbn. lia.
  - apply Forall_forall. intros x Hx. apply list_elem_of_In in Hx. apply list_elem_of_fmap in Hx as (i & -> & Hi). apply elem_of_seq in Hi. lia.
Qed.

Lemma scan_start n cs es : 16 <= n -> Forall2 entryFor (map snd cs) es -> Forall soundRef (map snd cs) -> StronglySorted Z.lt (map fst cs) -> Forall nibble (map fst cs) ->
  scan (maskOf (map fst cs)) (seqZ 0 n) cs [] es.
Proof.
  intros Hn He Hso Hst Hnb. split; try done.
  - eapply Forall_impl; [|exact Hnb]. unfold nibble. intros d Hd. cbn in Hd. apply list_elem_of_In, elem_of_seqZ. lia.
  - apply Forall_forall. intros d Hd. apply list_elem_of_In, elem_of_seqZ in Hd. apply maskOf_testbit; [done|lia].
Qed.

Lemma slots_16 cs : Forall nibble (map fst cs) -> slots cs (seqZ 0 17) = slots cs (seqZ 0 16) ++ rlpStr [].
Proof.
  intros Hn. change (seqZ 0 17) with (seqZ 0 16 ++ [16]). unfold slots. rewrite map_app, concat_app. cbn [map concat]. rewrite app_nil_r. f_equal. apply childRef_none.
  clear - Hn. induction Hn as [|d ds Hd _ IH]; [done|]. cbn [existsb]. unfold nibble in Hd. rewrite IH, (proj2 (Z.eqb_neq _ _)) by lia. done.
Qed.

(** What is written for a branch is its encoding. *)
Lemma branch_written cs es : (2 <= length cs)%nat -> Forall2 entryFor (map snd cs) es -> Forall soundRef (map snd cs) -> StronglySorted Z.lt (map fst cs) -> Forall nibble (map fst cs) ->
  exists totalSize children, OnesCount16 (maskOf (map fst cs)) = len cs /\
    hb.branchSize (seqZ 0 16) (maskOf (map fst cs)) (concat es) 0 17 = Ok totalSize /\ hb.branchBytes (seqZ 0 17) (maskOf (map fst cs)) (concat es) 0 = Ok children /\
    GenerateStructLen totalSize ++ children = encode keccak256 (Branch cs) /\ 32 <= len (encode keccak256 (Branch cs)).
Proof.
  intros Hl He Hso Hst Hnb. destruct (branch_scan _ _ (sorted_seqZ 0 16) _ _ _ (scan_start 16 cs es ltac:(lia) He Hso Hst Hnb)) as (Hsz & _ & Hct & Hlo & Hhi).
  destruct (branch_scan _ _ (sorted_seqZ 0 17) _ _ _ (scan_start 17 cs es ltac:(lia) He Hso Hst Hnb)) as (_ & Hby & _ & _ & _).
  rewrite slots_16 in Hby by done. eexists _, _. split; [exact Hct|]. split; [apply Hsz|]. split; [apply Hby|].
  change (len (seqZ 0 16)) with 16 in *. assert (2 <= len cs) by (unfold len; lia). set (content := slots cs (seqZ 0 16) ++ rlpStr []).
  assert (len content = len (slots cs (seqZ 0 16)) + 1) as Elc by (unfold content; by rewrite len_app). assert (encode keccak256 (Branch cs) = rlpLst content) as -> by done.
  replace (17 + len (slots cs (seqZ 0 16)) - 16) with (len content) by lia. rewrite GenerateStructLen_head by lia. split; [done|].
  rewrite len_rlpLst. pose proof (headsize_pos (len content) ltac:(lia)). lia.
Qed.

Lemma nodes_replace n m (ns : list trie.node) : ns = replicate (n + m) trie.nilNode -> (1 <= m)%nat ->
  <[Z.to_nat (len (take (n + 1) ns) - 1) := trie.nilNode]> (take (n + 1) ns) = replicate (n + 1) trie.nilNode /\
  lookupZ (take (n + 1) ns) (len (take (n + 1) ns) - 1) = Some trie.nilNode.
Proof.
  intros -> Hm. rewrite take_replicate. replace ((n + 1) `min` (n + m))%nat with (n + 1)%nat by lia. unfold len. rewrite length_replicate. split.
  - apply list_insert_id, lookup_replicate. split; [done|lia].
  - unfold lookupZ. rewrite (proj2 (Z.ltb_ge _ _)) by lia. apply lookup_replicate. split; [done|lia].
Qed.

Lemma branchHash_machine s st cs : stackHolds s (st ++ map snd cs) -> (2 <= length cs)%nat -> StronglySorted Z.lt (map fst cs) -> Forall nibble (map fst cs) ->
  exists s', hb.branchHash keccak256 (maskOf (map fst cs)) s = Ok (None, s') /\ stackHolds s' (st ++ [Branch cs]).
Proof.
  intros Hh Hl Hst Hnb. destruct (holds_hash_inv _ _ _ Hh) as (es1 & es2 & E & H1 & H2). destruct (holds_lengths _ _ Hh) as [Ehl Enl]. rewrite length_app, length_map in Ehl, Enl.
  pose proof (holds_sound _ _ Hh) as Hso. apply Forall_app in Hso as [_ Hso].
  destruct (branch_written cs es2 Hl H2 Hso Hst Hnb) as (totalSize & children & Ect & Esz & Eby & Ewr & Hwl).
  assert (len (concat es2) = hashStackStride * len cs) as Ecl by (unfold len at 1; rewrite (concat_stride _ _ H2), length_map; unfold hashStackStride, len; lia).
  unfold hb.branchHash. rewrite Ect. erewrite M_bind_Ok by done. unfold id. rewrite (proj2 (Z.ltb_ge _ _)) by (unfold len, hashStackStride; lia).
  erewrite M_bind_Ok by (unfold hb.topBytes; rewrite E, from_end by done; done).
  unfold hb.lift. erewrite M_bind_Ok by (rewrite Esz; done). erewrite M_bind_Ok by (rewrite Eby; done). rewrite Ewr.
  replace (len (hb.hashStack s) - hashStackStride * len cs + hashStackStride) with (Z.of_nat (33 * length st + 33)) by (unfold len, hashStackStride; lia).
  erewrite M_bind_Ok by (rewrite upTo_ok by lia; done). rewrite length_take_le by lia. rewrite Nat.add_sub, take_take, Nat.min_l by lia.
  set (entry := hb.hashEntry keccak256 (encode keccak256 (Branch cs))). erewrite M_bind_Ok by done.
  unfold hb.proofIfCollecting. erewrite M_bind_Ok by (erewrite M_bind_Ok by done; cbn; rewrite (holds_noCollect _ _ Hh); done).
  erewrite M_bind_Ok by done. cbn [hb.hashStack hb.nodeStack hb.set_hashStack].
  rewrite (proj2 (Z.ltb_lt _ _)) by (unfold len, hashStackStride; rewrite length_app, length_take_le by lia; unfold entry; rewrite len_hashEntry; lia).
  replace (len (hb.nodeStack s) - len cs + 1) with (Z.of_nat (length st + 1)) by (unfold len; lia).
  destruct (nodes_replace (length st) (length cs) (hb.nodeStack s)) as [Ens Elk]; [rewrite (holds_nodes _ _ Hh), length_app, length_map; done|lia|].
  erewrite M_bind_Ok.
  2:{ erewrite M_bind_Ok by (rewrite upTo_ok by lia; done). erewrite M_bind_Ok by done. unfold hb.setTop. cbn [hb.nodeStack hb.set_nodeStack]. rewrite Elk. cbn [or_panic mbind outcome_bind]. rewrite Ens. done. }
  eexists. split; [done|]. destruct (hashEntry_sound (Branch cs) (encode keccak256 (Branch cs)) eq_refl Hwl) as [Hen Hsr].
  apply (holds_replace s st (map snd cs) _ entry); try done.
  - apply (holds_buf _ _ Hh).
  - apply (holds_noProof _ _ Hh).
  - apply (holds_noCollect _ _ Hh).
Qed.

#[export] Instance HashBuilder_machine : @TrieMachine U hb.HashBuilder (HashBuilder_receiver keccak256).
Proof.
  refine {| holds := stackHolds; leafOk := valueOk |}.
  - exact leafHash_machine.
  - exact hash_machine.
  - exact extensionHash_machine.
  - exact branchHash_machine.
Defined.

Lemma holds_start : stackHolds hb.NewHashBuilder [].
Proof. split; try done. by exists []. Qed.

Lemma ref_cases t : match t with Opaque _ => False | _ => True end -> soundRef t ->
  (hashedRef (refFor t) /\ refFor t = byte.of_Z (0x80 + 32) :: hashBytes (keccak256 (encode keccak256 t))) \/
  (embeddedRef (refFor t) /\ refFor t = encode keccak256 t).
Proof.
  intros Ht Hs. pose proof (encodeRef_ref t) as Er. assert (refFor t = refOf keccak256 (encode keccak256 t)) as E by (by destruct t). destruct (Z.ltb_spec (len (encode keccak256 t)) 32) as [Hl|Hl].
  - right. unfold refOf in E. rewrite (proj2 (Z.ltb_lt _ _)) in E by done. split; [|done]. destruct Hs as [[h Eh] | [? _]]; [|done].
    exfalso. rewrite <- E, Eh, len_cons in Hl. unfold len in Hl. rewrite length_hashBytes in Hl. lia.
  - left. rewrite refOf_hashed in E by done. split; [by eexists|done].
Qed.

(** The hash of the only trie on the stack. *)
Lemma RootHash_machine s t : (forall bs, (keccak256 bs < 2 ^ 256)%N) -> stackHolds s [t] -> match t with Opaque _ => False | _ => True end ->
  hb.RootHash keccak256 s = Ok (inr (rootOf keccak256 t), s).
Proof.
  intros Hk Hh Ht. destruct (holds_hashes _ _ Hh) as (es & E & H2). apply Forall2_cons_inv_l in H2 as (e & es3 & [Hel [rest He]] & Hnil & ->). apply Forall2_nil_inv_l in Hnil as ->.
  cbn [concat] in E. rewrite app_nil_r in E. pose proof (holds_sound _ _ Hh) as Hso. inversion_clear Hso as [|? ? Hs _].
  unfold hb.RootHash. erewrite M_bind_Ok by done. unfold hb.hasRoot. rewrite (holds_nodes _ _ Hh). change (0 <? len (replicate (length [t]) trie.nilNode)) with true. cbv iota.
  destruct (soundRef_head t Hs) as (b & c & Er & Hc & Eb).
  assert (hb.topHash s = Ok (refFor t, s)) as Et.
  { unfold hb.topHash. rewrite E. assert (len e - hashStackStride = 0) as -> by (unfold len, hashStackStride; lia). rewrite He, Er at 1. change ((b :: c) ++ rest) with ([] ++ b :: (c ++ rest)).
    rewrite index_app by done. cbn [mbind outcome_bind]. pose proof (byte.unsigned_range b). assert (forall l, l = len c -> slice ([] ++ refFor t ++ rest) 0 (0 + 1 + l) = Ok (refFor t)) as Hsl.
    { intros l ->. apply slice_app; [done|]. rewrite Er, len_cons. lia. }
    revert Eb. destruct (Z.eqb_spec (byte.unsigned b) (0x80 + 32)) as [E0|E0]; intros Eb.
    - rewrite E0, He. change (slice ([] ++ refFor t ++ rest) 0 (0 + 1 + 32) ≫= (fun bs => Ok (bs, s)) = Ok (refFor t, s)). by rewrite Hsl by lia.
    - rewrite (Z.mod_small (byte.unsigned b - 0x80)) by lia. rewrite (proj2 (Z.ltb_lt _ _)) by lia. rewrite Z.mod_small by lia. rewrite He.
      change (refFor t ++ rest) with ([] ++ refFor t ++ rest). by rewrite Hsl by lia. }
  unfold hb.rootHash. erewrite M_bind_Ok by (erewrite M_bind_Ok by exact Et; done). unfold mret, M_ret. do 3 f_equal.
  assert (rootOf keccak256 t = keccak256 (encode keccak256 t)) as -> by (by destruct t). destruct (ref_cases t Ht Hs) as [[_ ->] | [(c' & Ec & Hc') <-]].
  - cbn [len length drop]. unfold len. cbn [length]. rewrite length_hashBytes. change (Z.of_nat 33 =? 33) with true. cbn iota. by apply bytes_to_N_hashBytes.
  - rewrite Ec, len_cons. by rewrite (proj2 (Z.eqb_neq _ _)) by lia.
Qed.
End machine.
