(* ===== verification/DeriveShaSpec.v ===== *)
(** The keys of the trie and DeriveSha against the Yellow Paper.  The COMPACT
    encoding is the hex-prefix encoding, and every conversion of
    turbo/trie/encoding.go is undone by the one the other way.  The keys of
    DeriveSha are the RLP encodings of the indices, it visits them in the order of
    the trie, and the root is the one of that trie. *)
From stdpp Require Import sorting.
From S2P Require Import Prelude Uint256 StateTypes Accounts AccountSpec Rlp RlpSpec TrieKeys HashBuilder GenStructStep DeriveSha PatriciaSpec GenStructSpec HashBuilderSpec.
#[local] Open Scope Z_scope.

(** * Nibbles *)
Definition nibblesOf (bs : list Byte.byte) : list Z := concat (map (fun b => [byte.unsigned b / 16; byte.unsigned b mod 16]) bs).

Lemma nibblesOf_cons b bs : nibblesOf (b :: bs) = byte.unsigned b / 16 :: byte.unsigned b mod 16 :: nibblesOf bs.
Proof. done. Qed.

Lemma nibblesOf_app a b : nibblesOf (a ++ b) = nibblesOf a ++ nibblesOf b.
Proof. unfold nibblesOf. by rewrite map_app, concat_app. Qed.

Lemma nibblesOf_nibbles bs : Forall nibble (nibblesOf bs).
Proof.
  induction bs as [|b bs IH]; [constructor|]. rewrite nibblesOf_cons. pose proof (byte.unsigned_range b) as Hb. unfold nibble. repeat constructor; [..|exact IH].
  - apply Z.div_pos; lia.
  - apply Z.div_lt_upper_bound; lia.
  - apply Z.mod_pos_bound. lia.
  - apply Z.mod_pos_bound. lia.
Qed.

Lemma length_nibblesOf bs : length (nibblesOf bs) = (2 * length bs)%nat.
Proof. induction bs as [|b bs IH]; [done|]. rewrite nibblesOf_cons. cbn [length]. lia. Qed.

Lemma len_nibblesOf bs : len (nibblesOf bs) = 2 * len bs.
Proof. unfold len. rewrite length_nibblesOf. lia. Qed.

Lemma unsigned_small v : 0 <= v < 256 -> byte.unsigned (byte.of_Z v) = v.
Proof. intros Hv. rewrite byte.unsigned_of_Z. unfold byte.wrap. by rewrite Z.mod_small. Qed.

Lemma pack_nibblesOf bs : packNibbles (nibblesOf bs) = bs.
Proof.
  induction bs as [|b bs IH]; [done|]. rewrite nibblesOf_cons. cbn [packNibbles]. rewrite IH. f_equal. rewrite <- Z.div_mod by lia. apply byte.of_Z_unsigned.
Qed.

Lemma div_nibble a b : 0 <= b < 16 -> (16 * a + b) / 16 = a /\ (16 * a + b) mod 16 = b.
Proof.
  intros Hb. rewrite (Z.mul_comm 16 a), Z.add_comm, Z.div_add, Z.mod_add, Z.div_small, Z.mod_small by lia. done.
Qed.

Lemma nibblesOf_pack n : forall k, Forall nibble k -> length k = (2 * n)%nat -> nibblesOf (packNibbles k) = k.
Proof.
  induction n as [|n IH]; intros k Hk Hl; (destruct k as [|a [|b k]]; cbn in Hl; try lia); [done|]. inversion_clear Hk as [|? ? Ha Hk']. inversion_clear Hk' as [|? ? Hb Hk]. unfold nibble in Ha, Hb.
  cbn [packNibbles]. rewrite nibblesOf_cons, IH by (done || lia). rewrite unsigned_small by lia. destruct (div_nibble a b Hb) as [-> ->]. done.
Qed.

Lemma lor_nibble a b : 0 <= b < 16 -> Z.lor (Z.shiftl a 4) b = 16 * a + b.
Proof.
  intros Hb. rewrite Z.shiftl_mul_pow2 by lia. change (2 ^ 4) with 16. rewrite <- Z.lxor_lor, <- Z.add_nocarry_lxor; [lia|..].
  all: apply Z.bits_inj'; intros i Hi; rewrite Z.land_spec, Z.bits_0; destruct (Z.lt_ge_cases i 4) as [H4|H4].
  1,3: change 16 with (2 ^ 4); rewrite Z.mul_pow2_bits_low by lia; done.
  all: rewrite (Z.bits_above_log2 b), andb_false_r; [done|lia|]; (destruct (decide (b = 0)) as [-> | ?]; [cbn; lia|]); enough (Z.log2 b < 4) by lia; apply Z.log2_lt_pow2; change (2 ^ 4) with 16; lia.
Qed.

(** * Writing nibbles *)
Lemma putNibbles_spec n : forall k pre mid, Forall nibble k -> length k = (2 * n)%nat -> length mid = n ->
  putNibbles (len pre) k (pre ++ mid) = Ok (tt, pre ++ packNibbles k).
Proof.
  induction n as [|n IH]; intros k pre mid Hk Hl Hm; (destruct k as [|a [|b k]]; cbn in Hl; try lia); destruct mid as [|x mid]; cbn in Hm; try lia; [done|].
  inversion_clear Hk as [|? ? Ha Hk']. inversion_clear Hk' as [|? ? Hb Hk]. cbn [putNibbles packNibbles]. erewrite M_bind_Ok by (apply put_spec; done). cbv beta iota.
  rewrite (lor_nibble a b) by done. set (c := byte.of_Z (16 * a + b)). replace (pre ++ c :: mid) with ((pre ++ [c]) ++ mid) by (by rewrite <- app_assoc).
  replace (len pre + 1) with (len (pre ++ [c])) by (by rewrite len_app). rewrite IH by (done || lia). by rewrite <- app_assoc.
Qed.

Lemma decodeNibbles_spec n k pre mid : Forall nibble k -> length k = (2 * n)%nat -> length mid = n ->
  decodeNibbles (len pre) k (pre ++ mid) = Ok (tt, pre ++ packNibbles k).
Proof. intros Hk Hl Hm. unfold decodeNibbles. rewrite hasTerm_nibbles by done. by apply (putNibbles_spec n). Qed.

Lemma butLast_snoc k x : butLast (k ++ [x]) = k.
Proof. unfold butLast. rewrite length_app, Nat.add_sub. apply take_app_length. Qed.

Definition terminator (leaf : bool) : list Z := if leaf then [16] else [].

Lemma strip_terminator leaf k : Forall nibble k -> hasTerm (k ++ terminator leaf) = leaf /\ (if hasTerm (k ++ terminator leaf) then butLast (k ++ terminator leaf) else k ++ terminator leaf) = k.
Proof. intros Hk. destruct leaf; cbn [terminator]; [rewrite hasTerm_snoc, butLast_snoc|rewrite app_nil_r, hasTerm_nibbles by done]; done. Qed.

Lemma replicate_half n : replicate (Z.to_nat (Z.of_nat n + 1)) Byte.x00 = [Byte.x00] ++ replicate n Byte.x00.
Proof. replace (Z.to_nat (Z.of_nat n + 1)) with (S n) by lia. done. Qed.

(** hexToCompact makes the hex-prefix encoding. *)
Lemma hexToCompact_spec leaf k : Forall nibble k -> hexToCompact (k ++ terminator leaf) = Ok (hexPrefix leaf k).
Proof.
  intros Hk. unfold hexToCompact. destruct (strip_terminator leaf k Hk) as [Et Es]. rewrite Es, Et. set (t := if leaf then 1 else 0).
  assert (Z.shiftl t 5 = 16 * (if leaf then 2 else 0)) as Ef by (unfold t; by destruct leaf). unfold hexPrefix, filled.
  destruct (key_cases k) as [(a & rest & n & -> & Er & Eo & En) | (n & Er & Eo & En)]; rewrite Eo, En, replicate_half.
  - inversion_clear Hk as [|? ? Ha Hr]. erewrite M_bind_Ok by (apply (put_spec [] Byte.x00); done). cbv beta iota. set (c := byte.of_Z _).
    change ([] ++ c :: replicate n Byte.x00) with ([c] ++ replicate n Byte.x00). change 1 with (len [c]). rewrite (decodeNibbles_spec n) by (done || apply length_replicate).
    cbn [mbind outcome_bind app snd]. do 2 f_equal. unfold c. f_equal. rewrite Ef. unfold nibble in Ha. change (Z.shiftl 1 4) with 16.
    assert (Z.lor (16 * (if leaf then 2 else 0)) 16 = Z.shiftl ((if leaf then 2 else 0) + 1) 4) as -> by (by destruct leaf). by apply lor_nibble.
  - assert (forall b, (_ ← put 0 (Z.shiftl t 5); decodeNibbles 1 k) (b :: replicate n Byte.x00) = Ok (tt, byte.of_Z (16 * (if leaf then 2 else 0)) :: packNibbles k)) as E.
    { intros b. erewrite M_bind_Ok by (apply (put_spec [] b); done). cbv beta iota. rewrite Ef. set (c := byte.of_Z _). change ([] ++ c :: replicate n Byte.x00) with ([c] ++ replicate n Byte.x00).
      change 1 with (len [c]). by rewrite (decodeNibbles_spec n) by (done || apply length_replicate). }
    destruct k as [|a k]; cbn [app]; by rewrite E.
Qed.

Lemma compactToHex_cons c cs : compactToHex (c :: cs) =
  drop (Z.to_nat (2 - Z.land (byte.unsigned c / 16) 1)) (byte.unsigned c / 16 :: byte.unsigned c mod 16 :: nibblesOf cs ++ (if byte.unsigned c / 16 <? 2 then [] else [16])).
Proof.
  unfold compactToHex, keybytesToHex. fold (nibblesOf (c :: cs)). rewrite nibblesOf_cons. cbn [app]. f_equal. case_match; [|done].
  change (?x :: ?y :: nibblesOf cs ++ [16]) with ((x :: y :: nibblesOf cs) ++ [16]). by rewrite butLast_snoc, app_nil_r.
Qed.

Lemma compactToHex_spec leaf k : Forall nibble k -> compactToHex (hexPrefix leaf k) = k ++ terminator leaf.
Proof.
  intros Hk. unfold hexPrefix. set (flag := if leaf then 2 else 0). assert (0 <= flag <= 2 /\ (if flag <? 2 then [] else [16]) = terminator leaf /\ (if flag + 1 <? 2 then [] else [16]) = terminator leaf /\ Z.land flag 1 = 0 /\ Z.land (flag + 1) 1 = 1)
    as (Hf & E1 & E2 & El1 & El2) by (unfold flag; by destruct leaf).
  destruct (key_cases k) as [(a & rest & n & -> & Er & -> & _) | (n & Er & -> & _)]; rewrite compactToHex_cons.
  - inversion_clear Hk as [|? ? Ha Hr]. unfold nibble in Ha. rewrite unsigned_small by lia. destruct (div_nibble (flag + 1) a Ha) as [-> ->]. rewrite El2, E2, (nibblesOf_pack n) by done. done.
  - rewrite unsigned_small by lia. rewrite <- (Z.add_0_r (16 * flag)). destruct (div_nibble flag 0 ltac:(lia)) as [-> ->]. rewrite El1, E1, (nibblesOf_pack n) by done. done.
Qed.

Lemma hexToKeybytes_spec leaf bs : hexToKeybytes (nibblesOf bs ++ terminator leaf) = Ok bs.
Proof.
  unfold hexToKeybytes. destruct (strip_terminator leaf (nibblesOf bs) (nibblesOf_nibbles bs)) as [_ ->]. rewrite len_nibblesOf, Z.odd_mul. cbn [Z.odd andb].
  replace (2 * len bs / 2) with (len bs) by (rewrite Z.mul_comm, Z.div_mul; lia). unfold filled.
  pose proof (decodeNibbles_spec (length bs) (nibblesOf bs) [] (replicate (Z.to_nat (len bs)) Byte.x00)) as E. change (len (@nil Byte.byte)) with 0 in E. cbn [app] in E.
  rewrite E; [cbn [mbind outcome_bind snd]; by rewrite pack_nibblesOf|apply nibblesOf_nibbles|apply length_nibblesOf|rewrite length_replicate; unfold len; lia].
Qed.

(** * Keybytes *)
(** With an odd number of nibbles the last byte has one only. *)
Definition keybytes_ok (x : Keybytes) : Prop := if Odd x then exists d b, Data x = d ++ [b] /\ byte.unsigned b mod 16 = 0 else True.

(** The nibbles of the key. *)
Definition keyNibbles (x : Keybytes) : list Z := if Odd x then butLast (nibblesOf (Data x)) else nibblesOf (Data x).

Lemma shiftNibble_pack d b y h : byte.unsigned b mod 16 = 0 -> nibblesOf (d ++ [b]) = y :: h -> shiftNibble (d ++ [b]) = packNibbles (butLast h).
Proof.
  intros Hb. revert y h. induction d as [|c d IH]; intros y h E; [by injection E as _ <-|].
  destruct (d ++ [b]) as [|c' d'] eqn:Ed; [by destruct d|]. cbn [app] in *. rewrite Ed in *. change (shiftNibble (c :: c' :: d')) with (byte.of_Z (byte.unsigned c * 16 + byte.unsigned c' / 16) :: shiftNibble (c' :: d')).
  rewrite !nibblesOf_cons in E. injection E as _ <-. rewrite (IH (byte.unsigned c' / 16) (byte.unsigned c' mod 16 :: nibblesOf d')) by done.
  unfold butLast. cbn [length]. rewrite !Nat.sub_succ, !Nat.sub_0_r. cbn [firstn packNibbles]. f_equal. apply byte.unsigned_inj. rewrite !byte.unsigned_of_Z. unfold byte.wrap. change (2 ^ 8) with 256.
  rewrite (Z.div_mod (byte.unsigned c) 16) at 1 by lia. replace ((16 * (byte.unsigned c / 16) + byte.unsigned c mod 16) * 16 + byte.unsigned c' / 16) with (16 * (byte.unsigned c mod 16) + byte.unsigned c' / 16 + (byte.unsigned c / 16) * 256) by lia.
  by rewrite Z.mod_add by lia.
Qed.

Lemma keyNibbles_nibbles x : Forall nibble (keyNibbles x).
Proof. unfold keyNibbles, butLast. case_match; [apply Forall_take|]; apply nibblesOf_nibbles. Qed.

Lemma len_keyNibbles x : keybytes_ok x -> len (keyNibbles x) = Nibbles x.
Proof.
  intros Hx. unfold keyNibbles, Nibbles, butLast. destruct x as [data odd term]. unfold keybytes_ok in Hx. cbn [Odd Data Terminating] in *. destruct odd.
  - destruct Hx as (d & b & -> & _). unfold len. rewrite length_take, length_nibblesOf, length_app. cbn. lia.
  - rewrite len_nibblesOf. lia.
Qed.

Lemma ToCompact_spec x : keybytes_ok x -> ToCompact x = Ok (hexPrefix (Terminating x) (keyNibbles x)).
Proof.
  intros Hx. pose proof (len_keyNibbles x Hx) as El. unfold ToCompact, hexPrefix. rewrite El. unfold Nibbles, keyNibbles in *. destruct x as [data odd term]. unfold keybytes_ok in Hx. cbn [Odd Data Terminating] in *. destruct odd.
  - destruct Hx as (d & b & -> & Hb). replace (len (d ++ [b]) * 2 - 1) with (1 + 2 * (len (d ++ [b]) - 1)) by lia. rewrite Z.odd_add_mul_2. cbn [Z.odd].
    destruct (d ++ [b]) as [|c d'] eqn:E; [by destruct d|]. rewrite nibblesOf_cons. unfold butLast at 1. cbn [length]. rewrite !Nat.sub_succ, Nat.sub_0_r. cbn [firstn]. do 2 f_equal.
    + destruct term; f_equal; lia.
    + rewrite <- E. rewrite (shiftNibble_pack d b (byte.unsigned c / 16) (byte.unsigned c mod 16 :: nibblesOf d')) by (try done; rewrite E; done).
      unfold butLast. cbn [length]. by rewrite Nat.sub_succ, Nat.sub_0_r.
  - rewrite Z.sub_0_r, Z.odd_mul, andb_false_r. rewrite pack_nibblesOf. by destruct term.
Qed.

Lemma flag_bits flag (leaf : bool) a (odd : bool) : flag = (if leaf then 2 else 0) -> 0 <= a < 16 ->
  let c := 16 * (flag + (if odd then 1 else 0)) + a in Z.testbit c 4 = odd /\ Z.testbit c 5 = leaf.
Proof.
  intros -> Ha. cbn zeta. set (f := (if leaf then 2 else 0) + (if odd then 1 else 0)). destruct (div_nibble f a Ha) as [E _].
  assert (forall i, 0 <= i -> Z.testbit (16 * f + a) (4 + i) = Z.testbit f i) as Hb.
  { intros i Hi. rewrite <- E at 2. change 16 with (2 ^ 4). rewrite Z.div_pow2_bits by lia. by rewrite (Z.add_comm i). }
  split; [transitivity (Z.testbit f 0); [exact (Hb 0 ltac:(lia))|]|transitivity (Z.testbit f 1); [exact (Hb 1 ltac:(lia))|]]; unfold f; by destruct leaf, odd.
Qed.

Lemma keyNibbles_full x : keybytes_ok x -> Odd x = true -> nibblesOf (Data x) = keyNibbles x ++ [0].
Proof.
  unfold keybytes_ok, keyNibbles. intros Hx Ho. rewrite Ho in *. destruct Hx as (d & b & -> & Hb). rewrite nibblesOf_app, nibblesOf_cons, Hb. change (nibblesOf []) with (@nil Z).
  change (?u ++ [?v; 0]) with (u ++ [v] ++ [0]). by rewrite app_assoc, butLast_snoc.
Qed.

Lemma CompactToKeybytes_spec x : keybytes_ok x -> CompactToKeybytes (hexPrefix (Terminating x) (keyNibbles x)) = Ok x.
Proof.
  intros Hx. pose proof (len_keyNibbles x Hx) as El. pose proof (keyNibbles_nibbles x) as Hn. unfold hexPrefix. rewrite El. set (flag := if Terminating x then 2 else 0).
  assert (0 <= flag <= 2) as Hf by (unfold flag; case_match; lia). unfold Nibbles in *. destruct (Odd x) eqn:Ho.
  - replace (len (Data x) * 2 - 1) with (1 + 2 * (len (Data x) - 1)) by lia. rewrite Z.odd_add_mul_2. cbn [Z.odd]. pose proof (keyNibbles_full x Hx Ho) as Ek.
    destruct (keyNibbles x) as [|a k]; [exfalso; change (len (@nil Z)) with 0 in El; lia|]. inversion_clear Hn as [|? ? Ha Hk]. unfold nibble in Ha.
    unfold CompactToKeybytes. rewrite !unsigned_small by lia. destruct (flag_bits flag (Terminating x) a true eq_refl Ha) as [E4 E5]. rewrite E4, E5.
    assert (exists n, length k = (2 * n)%nat) as [n En]. { exists (length (Data x) - 1)%nat. rewrite len_cons in El. unfold len in El. lia. }
    set (c0 := byte.of_Z (16 * (flag + 1) + a)). rewrite (shiftNibble_pack (c0 :: packNibbles k) Byte.x00 (flag + 1) (a :: k ++ [0; 0])); [|done|].
    + change (a :: k ++ [0; 0]) with (a :: k ++ [0] ++ [0]). rewrite (app_assoc k). change (a :: (k ++ [0]) ++ [0]) with ((a :: k ++ [0]) ++ [0]). rewrite butLast_snoc.
      change (a :: k ++ [0]) with ((a :: k) ++ [0]). rewrite <- Ek, pack_nibblesOf. clear - Ho. destruct x as [data odd term]. cbn in *. by rewrite Ho.
    + rewrite nibblesOf_app. change (nibblesOf (c0 :: packNibbles k)) with (byte.unsigned c0 / 16 :: byte.unsigned c0 mod 16 :: nibblesOf (packNibbles k)). rewrite (nibblesOf_pack n) by done.
      unfold c0. rewrite unsigned_small by lia. destruct (div_nibble (flag + 1) a Ha) as [-> ->]. done.
  - rewrite Z.sub_0_r, Z.odd_mul, andb_false_r. unfold CompactToKeybytes. rewrite unsigned_small by lia.
    destruct (flag_bits flag (Terminating x) 0 false eq_refl ltac:(lia)) as [E4 E5]. rewrite !Z.add_0_r in E4, E5. rewrite E4, E5. unfold keyNibbles. rewrite Ho, pack_nibblesOf. clear - Ho. destruct x as [data odd term]. cbn in *. by rewrite Ho.
Qed.

(** * Keys *)
Definition rlpIndex (i : Z) : list Byte.byte := rlpStr (be_split (Z.to_nat (byteLen i)) i).

Lemma intsize_loop_spec fuel : forall i size, 0 < i < 2 ^ (8 * Z.of_nat fuel) -> intsize_loop fuel i size = size + byteLen i - 1.
Proof.
  induction fuel as [|fuel IH]; intros i size Hi; [cbn in Hi; lia|]. cbn [intsize_loop]. rewrite Z.shiftr_div_pow2 by lia. change (2 ^ 8) with 256.
  destruct (Z.eqb_spec (i / 256) 0) as [E|E].
  - rewrite byteLen_byte; [lia|]. apply Z.div_small_iff in E; lia.
  - assert (0 < i / 256) as Hp by (pose proof (Z.div_pos i 256); lia). rewrite IH.
    + enough (byteLen i = byteLen (i / 256) + 1) by lia. pose proof (byteLen_bound (i / 256) ltac:(lia)) as Hb. pose proof (byteLen_pos _ Hp) as H1.
      assert (2 ^ (8 * (byteLen (i / 256) - 1)) <= i / 256) as Hlo.
      { destruct (Z.le_gt_cases (2 ^ (8 * (byteLen (i / 256) - 1))) (i / 256)) as [|Hlt]; [done|]. pose proof (byteLen_le (i / 256) (byteLen (i / 256) - 1)). lia. }
      apply byteLen_unique; [lia|]. replace (byteLen (i / 256) + 1 - 1) with (byteLen (i / 256)) by lia.
      replace (8 * byteLen (i / 256)) with (8 + 8 * (byteLen (i / 256) - 1)) by lia. replace (8 * (byteLen (i / 256) + 1)) with (8 + 8 * byteLen (i / 256)) by lia.
      rewrite !Z.pow_add_r by lia. change (2 ^ 8) with 256. pose proof (Z.div_mod i 256). pose proof (Z.mod_pos_bound i 256). nia.
    + split; [done|]. apply Z.div_lt_upper_bound; [lia|]. replace (8 * Z.of_nat (S fuel)) with (8 + 8 * Z.of_nat fuel) in Hi by lia. rewrite Z.pow_add_r in Hi by lia. lia.
Qed.

Lemma uintSize_spec i : 0 < i < 2 ^ 64 -> uintSize i = byteLen i.
Proof. intros Hi. unfold uintSize. rewrite intsize_loop_spec by done. lia. Qed.

Lemma seqZ_bytes i n : map (fun j => byte.of_Z (Z.shiftr i ((Z.of_nat n - j) * 8))) (seqZ 1 (Z.of_nat n)) = be_split n i.
Proof.
  induction n as [|n IH]; [done|]. change (S n) with (1 + n)%nat at 3. rewrite be_split_app. rewrite seqZ_cons by lia. cbn [map]. change (be_split 1 ?v) with [byte.of_Z v].
  cbn [app]. f_equal; [do 2 f_equal; lia|]. rewrite <- IH. replace (Z.pred (Z.of_nat (S n))) with (Z.of_nat n) by lia. change (Z.succ 1) with (1 + 1). rewrite <- fmap_add_seqZ.
  change (@fmap list list_fmap Z Z) with (@map Z Z). rewrite map_map. apply map_ext. intros j. do 2 f_equal. lia.
Qed.

Lemma encodeIndexKey_rlp i : 0 <= i < 2 ^ 64 -> encodeIndexKey i = rlpIndex i.
Proof.
  intros Hi. unfold encodeIndexKey, rlpIndex. destruct (Z.eqb_spec i 0) as [-> | H0]; [done|]. destruct (Z.ltb_spec i 128).
  - rewrite byteLen_byte by lia. change (be_split (Z.to_nat 1) i) with [byte.of_Z i]. symmetry. apply single_small. rewrite byte.unsigned_of_Z. unfold byte.wrap. rewrite Z.mod_small; lia.
  - rewrite uintSize_spec by lia. pose proof (byteLen_pos i ltac:(lia)) as H1. pose proof (byteLen_le i 8 ltac:(lia) ltac:(lia)) as H8.
    pose proof (seqZ_bytes i (Z.to_nat (byteLen i))) as Eb. rewrite Z2Nat.id in Eb by lia. rewrite Eb.
    assert (len (be_split (Z.to_nat (byteLen i)) i) = byteLen i) as El by (unfold len; rewrite length_be_split; lia).
    rewrite rlpStr_head; [unfold rlpHead; rewrite El, (proj2 (Z.ltb_lt _ _)) by lia; done|].
    destruct (be_split (Z.to_nat (byteLen i)) i) as [|b [|b' bs]] eqn:E; [done| |done]. change (len [b]) with 1 in El. rewrite <- El in E. change (be_split (Z.to_nat 1) i) with [byte.of_Z i] in E. injection E as <-.
    pose proof (byteLen_bound i ltac:(lia)) as Hb. rewrite <- El in Hb. change (2 ^ (8 * 1)) with 256 in Hb.
    unfold single. apply Z.ltb_ge. rewrite byte.unsigned_of_Z. unfold byte.wrap. rewrite Z.mod_small; lia.
Qed.

Definition indexKey (i : Z) : list Z := nibblesOf (rlpIndex i).

Lemma indexKey_short i : 0 <= i < 2 ^ 64 -> shortKey (indexKey i) /\ indexKey i <> [].
Proof.
  intros Hi. pose proof (byteLen_le i 8 ltac:(lia) ltac:(lia)) as H8. pose proof (byteLen_nonneg i).
  assert (len (be_split (Z.to_nat (byteLen i)) i) = byteLen i) as El by (unfold len; rewrite length_be_split; lia).
  assert (1 <= len (rlpIndex i) <= 9) as Hl. { unfold rlpIndex. rewrite len_rlpStr. destruct (single _) eqn:Es; [|unfold headsize; rewrite El, (proj2 (Z.ltb_lt _ _)) by lia; lia].
    destruct (be_split _ _) as [|b [|? ?]]; try done; change (len [b]) with 1 in *; lia. }
  unfold indexKey. split; [split; [apply nibblesOf_nibbles|rewrite len_nibblesOf; lia]|]. intros E. apply (f_equal len) in E. rewrite len_nibblesOf in E. change (len (@nil Z)) with 0 in E. lia.
Qed.

(** * The order of the keys *)
Definition diverge (a b : list Byte.byte) : Prop := exists c x y r r', a = c ++ x :: r /\ b = c ++ y :: r' /\ byte.unsigned x < byte.unsigned y.

Lemma diverge_before a b : diverge a b -> before (nibblesOf a) (nibblesOf b).
Proof.
  intros (c & x & y & r & r' & -> & -> & Hxy). rewrite !nibblesOf_app. unfold nibblesOf at 2 4. cbn [map concat app]. fold (nibblesOf r) (nibblesOf r').
  destruct (Z.lt_trichotomy (byte.unsigned x / 16) (byte.unsigned y / 16)) as [H | [H|H]].
  - by exists (nibblesOf c), (byte.unsigned x / 16), (byte.unsigned y / 16), (byte.unsigned x mod 16 :: nibblesOf r), (byte.unsigned y mod 16 :: nibblesOf r').
  - exists (nibblesOf c ++ [byte.unsigned x / 16]), (byte.unsigned x mod 16), (byte.unsigned y mod 16), (nibblesOf r), (nibblesOf r'). rewrite <- !app_assoc. cbn [app]. split; [done|].
    split; [by rewrite H|]. pose proof (Z.div_mod (byte.unsigned x) 16). pose proof (Z.div_mod (byte.unsigned y) 16). lia.
  - pose proof (Z.div_le_mono (byte.unsigned x) (byte.unsigned y) 16). lia.
Qed.

Lemma diverge_cons x a b : diverge a b -> diverge (x :: a) (x :: b).
Proof. intros (c & u & v & r & r' & -> & -> & Huv). by exists (x :: c), u, v, r, r'. Qed.

Lemma be_split_diverge n a b : 0 <= a < b -> Z.shiftr a (8 * Z.of_nat n) = Z.shiftr b (8 * Z.of_nat n) -> diverge (be_split n a) (be_split n b).
Proof.
  intros Hab. induction n as [|n IH]; intros E; [rewrite !Z.shiftr_0_r in E; lia|]. change (S n) with (1 + n)%nat. rewrite !be_split_app. change (be_split 1 ?v) with [byte.of_Z v]. cbn [app].
  destruct (decide (Z.shiftr a (8 * Z.of_nat n) = Z.shiftr b (8 * Z.of_nat n))) as [E1|E1]; [rewrite E1; by apply diverge_cons, IH|].
  replace (8 * Z.of_nat (S n)) with (8 * Z.of_nat n + 8) in E by lia. rewrite <- !Z.shiftr_shiftr in E by lia. rewrite !(Z.shiftr_div_pow2 _ 8) in E by lia. change (2 ^ 8) with 256 in E.
  assert (Z.shiftr a (8 * Z.of_nat n) <= Z.shiftr b (8 * Z.of_nat n)) as Hle by (rewrite !Z.shiftr_div_pow2 by lia; apply Z.div_le_mono; [apply Z.pow_pos_nonneg|]; lia).
  exists [], (byte.of_Z (Z.shiftr a (8 * Z.of_nat n))), (byte.of_Z (Z.shiftr b (8 * Z.of_nat n))), (be_split n a), (be_split n b). split; [done|]. split; [done|]. rewrite !byte.unsigned_of_Z. unfold byte.wrap. change (2 ^ 8) with 256.
  pose proof (Z.div_mod (Z.shiftr a (8 * Z.of_nat n)) 256). pose proof (Z.div_mod (Z.shiftr b (8 * Z.of_nat n)) 256). lia.
Qed.

(** The encoding of an index from 128 on. *)
Lemma rlpIndex_large i : 128 <= i < 2 ^ 64 -> rlpIndex i = byte.of_Z (0x80 + byteLen i) :: be_split (Z.to_nat (byteLen i)) i /\ 1 <= byteLen i <= 8.
Proof.
  intros Hi. pose proof (byteLen_pos i ltac:(lia)) as H1. pose proof (byteLen_le i 8 ltac:(lia) ltac:(lia)) as H8. split; [|lia].
  rewrite <- encodeIndexKey_rlp by lia. unfold encodeIndexKey. rewrite (proj2 (Z.eqb_neq _ _)), (proj2 (Z.ltb_ge _ _)), uintSize_spec by lia. f_equal.
  pose proof (seqZ_bytes i (Z.to_nat (byteLen i))) as Eb. rewrite Z2Nat.id in Eb by lia. exact Eb.
Qed.

Lemma rlpIndex_small i : 0 < i < 128 -> rlpIndex i = [byte.of_Z i].
Proof. intros Hi. rewrite <- encodeIndexKey_rlp by lia. unfold encodeIndexKey. by rewrite (proj2 (Z.eqb_neq _ _)), (proj2 (Z.ltb_lt _ _)) by lia. Qed.

Lemma head_diverge x y r r' : byte.unsigned x < byte.unsigned y -> diverge (x :: r) (y :: r').
Proof. by exists [], x, y, r, r'. Qed.

Lemma rlpIndex_next i : 128 <= i -> i + 1 < 2 ^ 64 -> diverge (rlpIndex i) (rlpIndex (i + 1)).
Proof.
  intros H1 H2. destruct (rlpIndex_large i) as [-> Hi]; [lia|]. destruct (rlpIndex_large (i + 1)) as [-> Hj]; [lia|].
  assert (byteLen i <= byteLen (i + 1)) as Hle by (apply byteLen_le; [|lia]; pose proof (byteLen_bound (i + 1) ltac:(lia)); lia).
  destruct (decide (byteLen i = byteLen (i + 1))) as [E|E].
  - rewrite E. apply diverge_cons, be_split_diverge; [lia|]. rewrite Z2Nat.id by lia. pose proof (byteLen_bound (i + 1) ltac:(lia)). rewrite !Z.shiftr_div_pow2 by lia.
    rewrite !Z.div_small by lia. done.
  - apply head_diverge. rewrite !unsigned_small by lia. lia.
Qed.

(** * The order of the traversal *)
Definition lastSmall (l : Z) : Z := Z.min 127 (l - 1).

Lemma adjustIndex_cases i l : 0 <= i < l ->
  adjustIndex i l = if i <? lastSmall l then i + 1 else if i =? lastSmall l then 0 else i.
Proof.
  intros Hi. unfold adjustIndex, lastSmall. destruct (Z.leb_spec 0 i), (Z.ltb_spec i 127), (Z.ltb_spec i (l - 1)), (Z.leb_spec (l - 1) i), (Z.ltb_spec i (Z.min 127 (l - 1))), (Z.eqb_spec i 127), (Z.eqb_spec i (Z.min 127 (l - 1))); cbn [andb orb]; lia.
Qed.

Lemma adjustIndex_none l : 1 <= l -> adjustIndex (-1) l = -1.
Proof. intros Hl. unfold adjustIndex. cbn [Z.leb Z.compare andb]. rewrite (proj2 (Z.leb_gt _ _)) by lia. done. Qed.

Lemma adjustIndex_range i l : 0 <= i < l -> 0 <= adjustIndex i l < l.
Proof. intros Hi. rewrite adjustIndex_cases by done. unfold lastSmall. destruct (Z.ltb_spec i (Z.min 127 (l - 1))); [lia|]. case_match; lia. Qed.

Lemma keys_in_order i l : 0 <= i -> i + 1 < l -> l < 2 ^ 63 -> before (indexKey (adjustIndex i l)) (indexKey (adjustIndex (i + 1) l)).
Proof.
  intros H0 Hl Hb. apply diverge_before. rewrite !adjustIndex_cases by lia. unfold lastSmall. destruct (Z.ltb_spec i (Z.min 127 (l - 1))).
  - rewrite rlpIndex_small by lia. destruct (Z.ltb_spec (i + 1) (Z.min 127 (l - 1))).
    + rewrite rlpIndex_small by lia. apply head_diverge. rewrite !unsigned_small by lia. lia.
    + rewrite (proj2 (Z.eqb_eq _ _)) by lia. change (rlpIndex 0) with [byte.of_Z 128]. apply head_diverge. rewrite !unsigned_small by lia. lia.
  - rewrite (proj2 (Z.ltb_ge (i + 1) _)), (proj2 (Z.eqb_neq (i + 1) _)) by lia. destruct (Z.eqb_spec i (Z.min 127 (l - 1))).
    + replace (i + 1) with 128 by lia. change (rlpIndex 0) with [byte.of_Z 128]. destruct (rlpIndex_large 128) as [-> _]; [lia|]. by apply head_diverge.
    + apply rlpIndex_next; lia.
Qed.

(** Every index is visited once. *)
Lemma adjustIndex_permutes l : 1 <= l -> Permutation (map (fun i => adjustIndex i l) (seqZ 0 l)) (seqZ 0 l).
Proof.
  intros Hl. set (m := lastSmall l). assert (0 <= m < l) as Hm by (unfold m, lastSmall; lia). set (rest := seqZ (m + 1) (l - m - 1)).
  assert (seqZ 0 l = seqZ 0 m ++ [m] ++ rest) as E1.
  { replace l with (m + (1 + (l - m - 1))) at 1 by lia. rewrite !seqZ_app by lia. done. }
  assert (seqZ 0 l = [0] ++ seqZ 1 m ++ rest) as E2.
  { replace l with (1 + (m + (l - m - 1))) at 1 by lia. rewrite !seqZ_app by lia. rewrite Z.add_0_l. unfold rest. by rewrite (Z.add_comm 1 m). }
  rewrite E2 at 2. rewrite E1, !map_app.
  assert (map (fun i => adjustIndex i l) (seqZ 0 m) = seqZ 1 m) as ->.
  { change (seqZ 1 m) with (seqZ (1 + 0) m). rewrite <- fmap_add_seqZ. apply map_ext_in. intros i Hi. apply list_elem_of_In, elem_of_seqZ in Hi. rewrite adjustIndex_cases by lia. fold m. rewrite (proj2 (Z.ltb_lt _ _)) by lia. lia. }
  assert (map (fun i => adjustIndex i l) rest = rest) as ->.
  { rewrite <- (map_id rest) at 2. apply map_ext_in. intros i Hi. apply list_elem_of_In, elem_of_seqZ in Hi. rewrite adjustIndex_cases by lia. fold m.
    by rewrite (proj2 (Z.ltb_ge _ _)), (proj2 (Z.eqb_neq _ _)) by lia. }
  cbn [map]. rewrite adjustIndex_cases by lia. fold m. rewrite Z.ltb_irrefl, Z.eqb_refl. apply Permutation_app_swap_app.
Qed.

(** * The traversal *)
Section derive.
Context {U : Uint256} {UB : Uint256Bytes U} (keccak256 : list Byte.byte -> hash).
Context (EncodeIndex : Z -> outcome (list Byte.byte)) (item : Z -> list Byte.byte) (l : Z).
Hypothesis l_range : 1 <= l < 2 ^ 63.
Hypothesis items : forall i, 0 <= i < l -> EncodeIndex i = Ok (item i) /\ 5 <= len (item i) < 2 ^ 23.

#[local] Instance theReceiver : @structInfoReceiver U hb.HashBuilder := HashBuilder_receiver keccak256.
#[local] Instance theMachine : TrieMachine hb.HashBuilder := HashBuilder_machine keccak256.

Implicit Types (s : @hb.HashBuilder U).

Definition pairOf (i : Z) : list Z * entry := (indexKey i, Val (item i)).

(** The key of the index at position [j] of the traversal. *)
Definition keyAt (j : Z) : list Z := indexKey (adjustIndex j l).

Lemma hexWrite_key i : 0 <= i < 2 ^ 64 -> hexWrite (encodeIndexKey i) = indexKey i.
Proof. intros Hi. by rewrite encodeIndexKey_rlp. Qed.

Definition succOf (next : Z) : list Z := if l <=? next then [] else keyAt next ++ [16].

Lemma succ_key next : 0 <= next <= l ->
  (let n := adjustIndex (if l <=? next then -1 else next) l in if 0 <=? n then hexWrite (encodeIndexKey n) ++ [16] else []) = succOf next.
Proof.
  intros Hn. cbn zeta. unfold succOf, keyAt. destruct (Z.leb_spec l next); [by rewrite adjustIndex_none by lia|].
  pose proof (adjustIndex_range next l ltac:(lia)). by rewrite (proj2 (Z.leb_le _ _)), hexWrite_key by lia.
Qed.

(** The visit of the index at position [j]. *)
Lemma traverser_step j C st s : 0 <= j < l -> wide 0 st -> progress (keyAt j) C st s ->
  exists st' s', traverser keccak256 EncodeIndex (adjustIndex j l) (adjustIndex (if l <=? j + 1 then -1 else j + 1) l) (keyAt j ++ [16]) st s = Ok ((succOf (j + 1), st'), s') /\
    wide 0 st' /\ progress (if l <=? j + 1 then [] else keyAt (j + 1)) (C ++ [pairOf (adjustIndex j l)]) st' s'.
Proof.
  intros Hj Hw Hp. pose proof (adjustIndex_range j l Hj) as Hr. destruct (indexKey_short (adjustIndex j l) ltac:(lia)) as [Hk Hne]. destruct (items _ Hr) as [Ei Hi].
  pose proof (succ_key (j + 1) ltac:(lia)) as Es. cbn zeta in Es. unfold traverser. cbn zeta. rewrite Es. rewrite (proj2 (Z.ltb_lt _ _)) by (rewrite len_app; change (len [16]) with 1; len_facts; lia).
  unfold hb.lift. erewrite M_bind_Ok by (rewrite Ei; done).
  set (q := if l <=? j + 1 then [] else keyAt (j + 1)). set (y := if l <=? j + 1 then [] else [16]).
  assert (succOf (j + 1) = q ++ y) as -> by (unfold succOf, q, y; by destruct (l <=? j + 1)).
  destruct (genStep_spec retainNothing (fun _ => eq_refl) (GenStructStepLeafData (RlpEncodedBytes (item (adjustIndex j l)))) (Val (item (adjustIndex j l))) (keyAt j) [16] q y C st s) as (st' & s' & E & Hw' & Hp'); try done.
  - left. by eexists.
  - unfold q, y. destruct (Z.leb_spec l (j + 1)); [by left|right]. apply keys_in_order; lia.
  - erewrite M_bind_Ok by exact E. by exists st', s'.
Qed.

Lemma traverse_from n : forall j C st s, 0 <= j -> j + Z.of_nat n = l -> (0 < n)%nat -> wide 0 st -> progress (keyAt j) C st s ->
  exists s' t, traverseAll keccak256 EncodeIndex (map (fun i => (adjustIndex i l, adjustIndex (if l <=? i + 1 then -1 else i + 1) l)) (seqZ j (Z.of_nat n))) (keyAt j ++ [16]) st s = Ok (tt, s') /\
    stackHolds keccak256 s' [t] /\ canonical t /\ contents t = C ++ map (fun i => pairOf (adjustIndex i l)) (seqZ j (Z.of_nat n)).
Proof.
  induction n as [|n IH]; intros j C st s Hj El Hn Hw Hp; [lia|]. rewrite seqZ_cons by lia. cbn [map traverseAll].
  destruct (traverser_step j C st s ltac:(lia) Hw Hp) as (st' & s' & E & Hw' & Hp'). erewrite M_bind_Ok by exact E. cbn [fst snd]. replace (Z.pred (Z.of_nat (S n))) with (Z.of_nat n) by lia.
  unfold succOf. destruct (Z.leb_spec l (j + 1)).
  - assert (n = O) as -> by lia. destruct Hp' as (t & Hh & Hc & Et). by exists s', t.
  - rewrite <- Z.add_1_r. destruct (IH (j + 1) _ st' s' ltac:(lia) ltac:(lia) ltac:(lia) Hw' Hp') as (s2 & t & E2 & Hh & Hc & Et). exists s2, t. split; [done|]. split; [done|]. split; [done|].
    by rewrite Et, <- app_assoc.
Qed.

Lemma traverse_all : exists s t, traverseAll keccak256 EncodeIndex (traverseInLexOrder l) [] (mk_sets [] [] []) (hb.Reset hb.NewHashBuilder) = Ok (tt, s) /\
  stackHolds keccak256 s [t] /\ canonical t /\ Permutation (map pairOf (seqZ 0 l)) (contents t).
Proof.
  unfold traverseInLexOrder. rewrite seqZ_cons by lia. cbn [map traverseAll]. rewrite adjustIndex_none by lia. change (-1 + 1) with 0. pose proof (succ_key 0 ltac:(lia)) as Es. cbn zeta in Es.
  unfold traverser at 1. cbn zeta. rewrite Es. change (len (@nil Z)) with 0. cbn [Z.ltb Z.compare]. erewrite M_bind_Ok by done. cbn [fst snd].
  unfold succOf. rewrite (proj2 (Z.leb_gt _ _)) by lia. replace (Z.pred (l + 1)) with (Z.of_nat (Z.to_nat l)) by lia. change (Z.succ (-1)) with 0.
  destruct (indexKey_short (adjustIndex 0 l)) as [_ Hne]; [pose proof (adjustIndex_range 0 l ltac:(lia)); lia|].
  destruct (traverse_from (Z.to_nat l) 0 [] (mk_sets [] [] []) (hb.Reset hb.NewHashBuilder)) as (s & t & E & Hh & Hc & Et); try lia.
  - by split.
  - apply progress_start; [done|]. apply holds_start.
  - exists s, t. split; [done|]. split; [done|]. split; [done|]. rewrite Et. cbn [app]. rewrite Z2Nat.id by lia. rewrite <- (map_map (fun i => adjustIndex i l) pairOf).
    symmetry. apply Permutation_map, adjustIndex_permutes. lia.
Qed.

Lemma DeriveSha_trie : (forall bs, (keccak256 bs < 2 ^ 256)%N) -> DeriveSha keccak256 EncodeIndex l = Ok (rootOf keccak256 (patriciaOf (map pairOf (seqZ 0 l)))).
Proof.
  intros Hk. unfold DeriveSha. rewrite (proj2 (Z.ltb_ge _ _)) by lia. destruct traverse_all as (s & t & E & Hh & Hc & Hp). rewrite E. cbn [mbind outcome_bind snd].
  rewrite (patriciaOf_contents t _ Hc Hp). rewrite (RootHash_machine keccak256 s t Hk Hh); [done|]. destruct t as [| | |h]; try done.
  assert (In ([], Hashed h) (map pairOf (seqZ 0 l))) as Hin by (eapply Permutation_in; [symmetry; exact Hp|by left]). apply in_map_iff in Hin as (i & Ei & _). done.
Qed.
End derive.
