(* ===== verification/TrieTheorems.v ===== *)
(** What the construction of trie roots promises: the root of a list is the one
    of the Yellow Paper, for the transactions and the withdrawals of a block
    too, and the encodings of keys are inverse to each other. *)
From stdpp Require Import sorting.
From S2P Require Import Prelude Uint256 StateTypes Accounts AccountSpec Transaction Rlp RlpStream RlpSpec TxCodec TxCodecSpec BlockCodec BlockCodecSpec TrieKeys HashBuilder GenStructStep DeriveSha PatriciaSpec GenStructSpec HashBuilderSpec DeriveShaSpec TxCodecTheorems.
#[local] Open Scope Z_scope.

(** The entries of a list: each item under the RLP encoding of its index. *)
Definition indexed (items : list (list Byte.byte)) : list (list Z * entry) :=
  imap (fun i v => (nibblesOf (rlpIndex (Z.of_nat i)), Val v)) items.

(** Items that are neither so short that a branch over them would be embedded in
    its parent nor too long for the headers of rlphacks. *)
Definition sized (v : list Byte.byte) : Prop := 5 <= len v < 2 ^ 23.

Lemma indexed_seqZ items : indexed items = map (pairOf (fun i => default [] (lookupZ items i))) (seqZ 0 (len items)).
Proof.
  unfold indexed, seqZ. rewrite map_map. unfold len. rewrite Nat2Z.id. apply list_eq. intros i. rewrite list_lookup_imap, list_lookup_fmap.
  destruct (decide (i < length items)%nat) as [Hi|Hi].
  - destruct (lookup_lt_is_Some_2 _ _ Hi) as [v Ev]. rewrite Ev, lookup_seq_lt by done. cbn [fmap option_fmap option_map]. unfold pairOf, indexKey, lookupZ.
    rewrite (proj2 (Z.ltb_ge _ _)) by lia. rewrite Nat.add_0_l, Z.add_0_r, Nat2Z.id, Ev. done.
  - rewrite !lookup_ge_None_2 by (rewrite ?length_seq; lia). done.
Qed.

Section roots.
Context {U : Uint256} {UB : Accounts.Uint256Bytes U} (keccak256 : list Byte.byte -> hash).

Lemma DeriveSha_items EncodeIndex items : (forall bs, (keccak256 bs < 2 ^ 256)%N) -> items <> [] -> len items < 2 ^ 63 -> Forall sized items ->
  (forall i, 0 <= i < len items -> EncodeIndex i = or_panic (lookupZ items i)) ->
  DeriveSha keccak256 EncodeIndex (len items) = Ok (rootOf keccak256 (patriciaOf (indexed items))).
Proof.
  intros Hk Hne Hl Hs He. rewrite indexed_seqZ. apply DeriveSha_trie; [|..|done].
  - split; [|done]. destruct items; [done|]. rewrite len_cons. len_facts. lia.
  - intros i Hi. destruct (lookupZ_ok items i Hi) as [v Ev]. rewrite He, Ev by done. split; [done|]. cbn [default]. apply lookupZ_Some in Ev as [_ Ev]. exact (Forall_lookup_1 _ _ _ _ Hs Ev).
Qed.

(** C4: The root of a list of byte strings is the root of the trie of the Yellow
    Paper that has each of them under the RLP encoding of its index.  The keys
    are visited once, in the order of the trie; the machine never panics and
    never meets an error. *)
Theorem DeriveSha_correct items :
  (forall bs, (keccak256 bs < 2 ^ 256)%N) -> items <> [] -> len items < 2 ^ 63 -> Forall sized items ->
  DeriveSha keccak256 (BinaryTransactions_EncodeIndex items) (len items) = Ok (rootOf keccak256 (patriciaOf (indexed items))).
Proof. intros Hk Hne Hl Hs. by apply DeriveSha_items. Qed.
End roots.

(** * Transactions and withdrawals *)
Lemma len_rlpNumber_pos v : 1 <= len (rlpNumber v).
Proof. unfold rlpNumber. case_match; rewrite len_cons; len_facts; lia. Qed.

Section lists.
Context {U : Uint256} {US : Uint256Spec U} {UC : Uint256Codec U} {UCS : Uint256CodecSpec U UC} {UB : Accounts.Uint256Bytes U}.
Context {EB : EncoderBuffer} {EBS : EncoderBufferSpec EB} (keccak256 : list Byte.byte -> hash).

Lemma typedBytes_long tx : 5 <= len (typedBytes tx).
Proof.
  assert (4 <= len (fieldsOf tx)) as Hf.
  { destruct tx; cbn [fieldsOf]; unfold legacyFields, accessListFields, dynamicFeeFields, depositFields; rewrite !len_app;
      repeat match goal with |- context [len (rlpNumber ?v)] => lazymatch goal with H : 1 <= len (rlpNumber v) |- _ => fail | _ => pose proof (len_rlpNumber_pos v) end end;
      len_facts; try lia.
    match goal with |- context [hashBytes ?h] => pose proof (len_le_rlpStr (hashBytes h)) as Hh end. unfold len in Hh at 1. rewrite length_hashBytes in Hh. lia. }
  unfold typedBytes. pose proof (len_rlpLst (fieldsOf tx)). pose proof (headsize_pos (len (fieldsOf tx)) ltac:(lia)). case_match; rewrite ?len_cons; lia.
Qed.

Lemma EncodeIndex_map {A} (f : A -> list Byte.byte) (enc : A -> outcome (list Byte.byte)) l i : (forall x, In x l -> enc x = Ok (f x)) ->
  (x ← or_panic (lookupZ l i); enc x) = or_panic (lookupZ (map f l) i).
Proof.
  intros He. unfold lookupZ. case_match; [done|]. rewrite list_lookup_fmap. destruct (l !! Z.to_nat i) as [x|] eqn:Ex; [|done]. cbn. apply He. by apply list_elem_of_lookup_2, list_elem_of_In in Ex.
Qed.

(** C23: The transactions root of a block: the root of the trie of the canonical
    encodings of its transactions. *)
Theorem transactions_root txs :
  (forall bs, (keccak256 bs < 2 ^ 256)%N) -> txs <> [] -> len txs < 2 ^ 63 -> Forall (fun tx => tx_ok tx /\ len (typedBytes tx) < 2 ^ 23) txs ->
  DeriveSha keccak256 (Transactions_EncodeIndex txs) (len txs) = Ok (rootOf keccak256 (patriciaOf (indexed (map typedBytes txs)))).
Proof.
  intros Hk Hne Hl Htx. rewrite Forall_forall in Htx. assert (len txs = len (map typedBytes txs)) as El by (unfold len; by rewrite length_map). rewrite El. apply DeriveSha_items; try done.
  - by destruct txs.
  - by rewrite <- El.
  - apply Forall_forall. intros v Hv. apply in_map_iff in Hv as (tx & <- & Hin). split; [apply typedBytes_long|by apply Htx].
  - intros i _. apply EncodeIndex_map. intros tx Hin. by apply emits_written, MarshalBinary_emits, Htx.
Qed.

(** The withdrawals root. *)
Theorem withdrawals_root ws :
  (forall bs, (keccak256 bs < 2 ^ 256)%N) -> ws <> [] -> len ws < 2 ^ 63 -> Forall withdrawal_ok ws ->
  DeriveSha keccak256 (Withdrawals_EncodeIndex ws) (len ws) = Ok (rootOf keccak256 (patriciaOf (indexed (map rlpWithdrawal ws)))).
Proof.
  intros Hk Hne Hl Hw. rewrite Forall_forall in Hw. assert (len ws = len (map rlpWithdrawal ws)) as El by (unfold len; by rewrite length_map). rewrite El. apply DeriveSha_items; try done.
  - by destruct ws.
  - by rewrite <- El.
  - apply Forall_forall. intros v Hv. apply in_map_iff in Hv as (o & <- & Hin). unfold sized, rlpWithdrawal. rewrite len_rlpLst. pose proof (len_withdrawalFields o (Hw _ Hin)).
    assert (20 <= len (withdrawalFields o)). { unfold withdrawalFields. rewrite !len_app. pose proof (len_le_rlpStr (addrBytes (wd_Address o))). rewrite len_addrBytes in *. len_facts. lia. }
    unfold headsize. rewrite (proj2 (Z.ltb_lt _ _)) by lia. lia.
  - intros i _. apply EncodeIndex_map. intros o Hin. by apply emits_written, emits_Withdrawal, Hw.
Qed.
End lists.

(** * Keys *)
(** Keys survive every change of encoding: from bytes to nibbles and back, from
    nibbles to the hex-prefix encoding of the Yellow Paper and back, and from
    packed nibbles to that encoding and back, which converts them to the same
    nibbles. *)
Theorem trie_keys_roundtrip bs k leaf x : Forall nibble k -> keybytes_ok x ->
  hexToKeybytes (keybytesToHex bs) = Ok bs /\
  hexToCompact (k ++ terminator leaf) = Ok (hexPrefix leaf k) /\ compactToHex (hexPrefix leaf k) = k ++ terminator leaf /\
  ToCompact x = Ok (hexPrefix (Terminating x) (keyNibbles x)) /\ CompactToKeybytes (hexPrefix (Terminating x) (keyNibbles x)) = Ok x /\
  ToHex x = Ok (keyNibbles x ++ terminator (Terminating x)) /\ Nibbles x = len (keyNibbles x).
Proof.
  intros Hk Hx. split; [apply (hexToKeybytes_spec true)|]. split; [by apply hexToCompact_spec|]. split; [by apply compactToHex_spec|]. split; [by apply ToCompact_spec|].
  split; [by apply CompactToKeybytes_spec|]. split; [|by rewrite len_keyNibbles]. unfold ToHex. rewrite ToCompact_spec by done. cbn [mbind outcome_bind]. f_equal. apply compactToHex_spec, keyNibbles_nibbles.
Qed.

Lemma trie_keys_roundtrip_witness :
  hexToKeybytes (keybytesToHex [Byte.x12; Byte.xaf]) = Ok [Byte.x12; Byte.xaf] /\
  hexToCompact ([1; 15; 7] ++ terminator true) = Ok (hexPrefix true [1; 15; 7]) /\ compactToHex (hexPrefix true [1; 15; 7]) = [1; 15; 7] ++ terminator true /\
  let x := mk_Keybytes [Byte.x12; Byte.xa0] true false in
  ToCompact x = Ok (hexPrefix (Terminating x) (keyNibbles x)) /\ CompactToKeybytes (hexPrefix (Terminating x) (keyNibbles x)) = Ok x /\
  ToHex x = Ok (keyNibbles x ++ terminator (Terminating x)) /\ Nibbles x = len (keyNibbles x).
Proof.
  apply (trie_keys_roundtrip [Byte.x12; Byte.xaf] [1; 15; 7] true (mk_Keybytes [Byte.x12; Byte.xa0] true false)).
  - repeat constructor; discriminate.
  - by exists [Byte.x12], Byte.xa0.
Defined.

(** * Concrete lists *)
Module triedemo.
#[local] Existing Instance accountdemo.bytes256.

(** A function in the place of Keccak-256. *)
Definition mix (bs : list Byte.byte) : hash := Z.to_N (foldl (fun h b => (h * 1103515245 + 12345 + byte.unsigned b) mod 2 ^ 256) 7 bs).

Lemma mix_range bs : (mix bs < 2 ^ 256)%N.
Proof.
  unfold mix. set (step := fun h b => _). enough (0 <= foldl step 7 bs < 2 ^ 256) as H by (apply N2Z.inj_lt; rewrite Z2N.id by lia; exact (proj2 H)).
  destruct bs as [|b bs] using rev_ind; [by vm_compute|]. rewrite foldl_app. cbn [foldl]. apply Z.mod_pos_bound. done.
Qed.

Definition words (n : Z) (count : nat) : list (list Byte.byte) := map (fun i => replicate (Z.to_nat n) (byte.of_Z (Z.of_nat i * 7 + 3))) (seq 0 count).

(** Enough items for each shape of key: one byte, the zero, two bytes. *)
Lemma DeriveSha_correct_witness :
  DeriveSha mix (BinaryTransactions_EncodeIndex (words 40 130)) 130 = Ok (rootOf mix (patriciaOf (indexed (words 40 130)))).
Proof.
  apply (DeriveSha_correct mix (words 40 130) mix_range); [discriminate|reflexivity|]. apply Forall_forall. intros v Hv. apply in_map_iff in Hv as (i & <- & _).
  unfold sized, len. rewrite length_replicate. vm_compute. split; [discriminate|reflexivity].
Defined.

Lemma transactions_root_witness :
  DeriveSha mix (Transactions_EncodeIndex [demoTransfer; WDeposit 0%N demoDeposit]) 2 =
  Ok (rootOf mix (patriciaOf (indexed (map typedBytes [demoTransfer; WDeposit 0%N demoDeposit])))).
Proof.
  apply (transactions_root mix [demoTransfer; WDeposit 0%N demoDeposit] mix_range); [discriminate|reflexivity|].
  repeat constructor; try apply demoTransfer_ok; try apply demoDeposit_ok.
Defined.

Definition demoWithdrawals : list Withdrawal := [mk_Withdrawal 3 77 0xABCD%N 32000000000; mk_Withdrawal 4 78 1%N 0].

Lemma withdrawals_root_witness :
  DeriveSha mix (Withdrawals_EncodeIndex demoWithdrawals) 2 = Ok (rootOf mix (patriciaOf (indexed (map rlpWithdrawal demoWithdrawals)))).
Proof.
  apply (withdrawals_root mix demoWithdrawals mix_range); [discriminate|reflexivity|].
  repeat constructor; try discriminate; reflexivity.
Defined.

(** Over shorter items a branch has less than 32 bytes; the machine refers to it
    by its hash all the same, and the root is another one. *)
Example short_items_differ :
  DeriveSha mix (BinaryTransactions_EncodeIndex (words 1 18)) 18 <> Ok (rootOf mix (patriciaOf (indexed (words 1 18)))).
Proof. vm_compute. discriminate. Qed.

(** An empty key in the COMPACT encoding is not an error but a panic, and
    DoubleRLPLen disagrees with what ToDoubleRLP writes for one byte from 0x80. *)
Example key_and_value_limits :
  CompactToKeybytes [] = Panic /\ DoubleRLPLen (RlpEncodedBytes [Byte.x80]) <> len (ToDoubleRLP (RlpEncodedBytes [Byte.x80])).
Proof. split; [done|]. vm_compute. discriminate. Qed.
End triedemo.
