(* ===== verification/StagedSync.v ===== *)
(** Staged sync: package eth/stagedsync/stages, Stage and the states of stage.go,
    and Sync of sync.go.

    A key of the table SyncStageProgress is the string it is made from.  The
    transaction, or the database where there is none, is a type [T] with the two
    operations of package kv that are used on that table.  What a stage does is
    a function of the caller's: it works on [T], and what it tells the Unwinder
    is the list of its calls of UnwindTo.  The stages are shared by the three
    lists of a Sync, whose entries are positions in the list of stages.  Times,
    descriptions and log messages are left out; the prefix of a log message is
    part of an error. *)
From stdpp Require Import strings pretty.
From S2P Require Import Prelude StateTypes Accounts.
#[local] Open Scope Z_scope.

Definition SyncStage : Type := string.

Inductive SyncError (E : Type) :=
| DbError (e : E)
| ShortValue (n : Z)
| StageError (e : E)
| StageNotFound (id : SyncStage)
| ErrStopped
| Wrapped (prefix : string) (e : SyncError E).
Arguments DbError {E}.
Arguments ShortValue {E}.
Arguments StageError {E}.
Arguments StageNotFound {E}.
Arguments ErrStopped {E}.
Arguments Wrapped {E}.

(** kv.Getter and kv.Putter on the table; the value of an absent key is nil. *)
Class StageDB (T E : Type) := {
  GetOne : string -> T -> E + list Byte.byte;
  Put : string -> list Byte.byte -> T -> option E * T
}.

(** * Progress *)
Section progress.
Context {T E : Type} {DB : StageDB T E}.

Definition marshalData (blockNumber : Z) : list Byte.byte := be_split 8 blockNumber.

Definition unmarshalData (data : list Byte.byte) : SyncError E + Z :=
  if len data =? 0 then inr 0
  else if len data <? 8 then inl (ShortValue (len data))
  else inr (be_combine (take 8 data)).

Definition getProgress (key : string) (db : T) : SyncError E + Z :=
  match GetOne key db with
  | inl err => inl (DbError err)
  | inr v => unmarshalData v
  end.

Definition GetStageProgress (stage : SyncStage) : T -> SyncError E + Z := getProgress stage.
Definition GetStagePruneProgress (stage : SyncStage) : T -> SyncError E + Z := getProgress (String.append "prune_" stage).

Definition saveProgress (key : string) (progress : Z) : M T (option (SyncError E)) := fun db =>
  let '(err, db) := Put key (marshalData progress) db in Ok (DbError <$> err, db).

Definition SaveStageProgress (stage : SyncStage) (progress : Z) : M T (option (SyncError E)) := saveProgress stage progress.
Definition SaveStagePruneProgress (stage : SyncStage) (progress : Z) : M T (option (SyncError E)) :=
  saveProgress (String.append "prune_" stage) progress.

(** * Stages *)
Record StageState := mk_StageState { ss_ID : SyncStage; BlockNumber : Z }.
Record UnwindState := mk_UnwindState { us_ID : SyncStage; UnwindPoint : Z; CurrentBlockNumber : Z; BadBlock : hash }.
Record PruneState := mk_PruneState { ps_ID : SyncStage; ForwardProgress : Z; PruneProgress : Z }.

Definition StageState_Update (s : StageState) (newBlockNum : Z) : M T (option (SyncError E)) := SaveStageProgress (ss_ID s) newBlockNum.
Definition StageState_UpdatePrune (s : StageState) (blockNum : Z) : M T (option (SyncError E)) := SaveStagePruneProgress (ss_ID s) blockNum.
Definition UnwindState_Done (u : UnwindState) : M T (option (SyncError E)) := SaveStageProgress (us_ID u) (UnwindPoint u).
Definition PruneState_Done (s : PruneState) : M T (option (SyncError E)) := SaveStagePruneProgress (ps_ID s) (ForwardProgress s).
Definition PruneState_DoneAt (s : PruneState) (blockNum : Z) : M T (option (SyncError E)) := SaveStagePruneProgress (ps_ID s) blockNum.

Definition ExecFunc : Type := bool -> bool -> StageState -> bool -> M T (list (Z * hash) * option (SyncError E)).
Definition UnwindFunc : Type := bool -> UnwindState -> StageState -> M T (option (SyncError E)).
Definition PruneFunc : Type := bool -> PruneState -> M T (option (SyncError E)).

Record Stage := mk_Stage {
  Forward : option ExecFunc;
  Unwind : option UnwindFunc;
  Prune : option PruneFunc;
  ID : SyncStage;
  Disabled : bool
}.

Definition set_Disabled (b : bool) (st : Stage) : Stage := mk_Stage (Forward st) (Unwind st) (Prune st) (ID st) b.

(** * Sync *)
Inductive TimingKind := isForward | isUnwind | isPrune.
Record Timing := mk_Timing { t_kind : TimingKind; t_stage : SyncStage }.

Record Sync := mk_Sync {
  unwindPoint : option Z;
  prevUnwindPoint : option Z;
  badBlock : hash;
  stages : list Stage;
  unwindOrder : list (option nat);
  pruningOrder : list (option nat);
  currentStage : Z;
  timings : list Timing;
  logPrefixes : list string
}.

Definition set_unwind (p pp : option Z) (bad : hash) (s : Sync) : Sync :=
  mk_Sync p pp bad (stages s) (unwindOrder s) (pruningOrder s) (currentStage s) (timings s) (logPrefixes s).
Definition set_stages (l : list Stage) (s : Sync) : Sync :=
  mk_Sync (unwindPoint s) (prevUnwindPoint s) (badBlock s) l (unwindOrder s) (pruningOrder s) (currentStage s) (timings s) (logPrefixes s).
Definition set_currentStage (i : Z) (s : Sync) : Sync :=
  mk_Sync (unwindPoint s) (prevUnwindPoint s) (badBlock s) (stages s) (unwindOrder s) (pruningOrder s) i (timings s) (logPrefixes s).
Definition set_timings (l : list Timing) (s : Sync) : Sync :=
  mk_Sync (unwindPoint s) (prevUnwindPoint s) (badBlock s) (stages s) (unwindOrder s) (pruningOrder s) (currentStage s) l (logPrefixes s).

Definition Len (s : Sync) : Z := len (stages s).

Definition NextStage (s : Sync) : Sync := set_currentStage ((currentStage s + 1) mod 2 ^ 64) s.

(** The loop of IsBefore and IsAfter: the last position of a stage, or -1. *)
Definition lastIndex (id : SyncStage) (l : list Stage) : Z :=
  foldl (fun idx p => if bool_decide (ID p.2 = id) then p.1 else idx) (-1) (zip (seqZ 0 (len l)) l).

Definition IsBefore (s : Sync) (stage1 stage2 : SyncStage) : bool := lastIndex stage1 (stages s) <? lastIndex stage2 (stages s).
Definition IsAfter (s : Sync) (stage1 stage2 : SyncStage) : bool := lastIndex stage2 (stages s) <? lastIndex stage1 (stages s).

Definition UnwindTo (p : Z) (bad : hash) (s : Sync) : Sync := set_unwind (Some p) (prevUnwindPoint s) bad s.

Definition IsDone (s : Sync) : bool := (len (stages s) <=? currentStage s) && negb (isSome (unwindPoint s)).

Definition LogPrefix (s : Sync) : outcome string := or_panic (lookupZ (logPrefixes s) (currentStage s)).

Fixpoint findStage (id : SyncStage) (l : list Stage) (i : nat) : option nat :=
  match l with
  | [] => None
  | st :: l => if bool_decide (ID st = id) then Some i else findStage id l (S i)
  end.

Definition SetCurrentStage (id : SyncStage) (s : Sync) : option (SyncError E) * Sync :=
  match findStage id (stages s) 0 with
  | Some i => (None, set_currentStage (Z.of_nat i) s)
  | None => (Some (StageNotFound id), s)
  end.

(** [for i, stageIndex := range order { ... unwindStages[i] = s; break }]: an entry
    past the end panics when a stage is found for it. *)
Fixpoint orderStages (order : list SyncStage) (i : nat) (l : list Stage) (acc : list (option nat)) : outcome (list (option nat)) :=
  match order with
  | [] => Ok acc
  | id :: order =>
      match findStage id l 0 with
      | None => orderStages order (S i) l acc
      | Some k => if (i <? length acc)%nat then orderStages order (S i) l (<[i := Some k]> acc) else Panic
      end
  end.

(** [fmt.Sprintf("%d/%d %s", i+1, len(stagesList), stagesList[i].ID)]. *)
Definition prefixOf (n i : nat) (st : Stage) : string :=
  String.append (pretty (S i)) (String.append "/" (String.append (pretty n) (String.append " " (ID st)))).

Definition New (stagesList : list Stage) (unwindOrder pruneOrder : list SyncStage) : outcome Sync :=
  unwindStages ← orderStages unwindOrder 0 stagesList (replicate (length stagesList) None);
  pruneStages ← orderStages pruneOrder 0 stagesList (replicate (length stagesList) None);
  Ok (mk_Sync None None 0%N stagesList unwindStages pruneStages 0 [] (imap (prefixOf (length stagesList)) stagesList)).

(** ** The state of a run *)
Definition W : Type := Sync * T.

Definition onSync (f : Sync -> Sync) : M W unit := fun w => Ok (tt, (f w.1, w.2)).

Definition onTx {A} (m : M T A) : M W A := fun w => r ← m w.2; Ok (r.1, (w.1, r.2)).

Definition getSync : M W Sync := fun w => Ok (w.1, w).

Definition noting {A} (o : outcome A) : M W A := fun w => a ← o; Ok (a, w).

(** [if err := m; err != nil { return err }]. *)
Definition orErr (m : M W (option (SyncError E))) (k : M W (option (SyncError E))) : M W (option (SyncError E)) :=
  err ← m;
  match err with
  | Some err => mret (Some err)
  | None => k
  end.

Definition setCurrent (id : SyncStage) : M W (option (SyncError E)) := fun w =>
  let '(err, s) := SetCurrentStage id w.1 in Ok (err, (s, w.2)).

(** [s.SetCurrentStage(s.stages[0].ID)]. *)
Definition backToFirst : M W (option (SyncError E)) :=
  s ← getSync;
  first ← noting (or_panic (stages s !! 0%nat));
  setCurrent (ID first).

Definition stageState (id : SyncStage) : M W (SyncError E + StageState) := fun w =>
  Ok (match GetStageProgress id w.2 with inl err => inl err | inr n => inr (mk_StageState id n) end, w).

Definition pruneStageState (id : SyncStage) (forwardProgress : Z) : M W (SyncError E + PruneState) := fun w =>
  Ok (match GetStagePruneProgress id w.2 with inl err => inl err | inr n => inr (mk_PruneState id forwardProgress n) end, w).

Definition addTiming (k : TimingKind) (id : SyncStage) : M W unit := onSync (fun s => set_timings (timings s ++ [mk_Timing k id]) s).

(** [fmt.Errorf("[%s] %w", s.LogPrefix(), err)]. *)
Definition wrapped (err : SyncError E) : M W (option (SyncError E)) :=
  s ← getSync; p ← noting (LogPrefix s); mret (Some (Wrapped p err)).

Definition runStage (stage : Stage) (forward : ExecFunc) (firstCycle badBlockUnwind quiet : bool) : M W (option (SyncError E)) :=
  st ← stageState (ID stage);
  match st with
  | inl err => mret (Some err)
  | inr st =>
      r ← onTx (forward firstCycle badBlockUnwind st quiet);
      let '(unwinds, err) := r in
      _ ← onSync (fun s => foldl (fun s u => UnwindTo u.1 u.2 s) s unwinds);
      match err with
      | Some err => wrapped err
      | None => s ← getSync; _ ← noting (LogPrefix s); _ ← addTiming isForward (ID stage); mret None
      end
  end.

Definition unwindStage (firstCycle : bool) (stage : Stage) (unwind : UnwindFunc) : M W (option (SyncError E)) :=
  st ← stageState (ID stage);
  match st with
  | inl err => mret (Some err)
  | inr st =>
      s ← getSync;
      p ← noting (or_panic (unwindPoint s));
      let u := mk_UnwindState (ID stage) p (BlockNumber st) (badBlock s) in
      if BlockNumber st <=? UnwindPoint u then mret None
      else orErr (setCurrent (ID stage))
        (err ← onTx (unwind firstCycle u st);
         match err with
         | Some err => wrapped err
         | None => _ ← addTiming isUnwind (ID stage); mret None
         end)
  end.

Definition pruneStage (firstCycle : bool) (stage : Stage) (prune : PruneFunc) : M W (option (SyncError E)) :=
  st ← stageState (ID stage);
  match st with
  | inl err => mret (Some err)
  | inr st =>
      p ← pruneStageState (ID stage) (BlockNumber st);
      match p with
      | inl err => mret (Some err)
      | inr p =>
          orErr (setCurrent (ID stage))
            (err ← onTx (prune firstCycle p);
             match err with
             | Some err => wrapped err
             | None => _ ← addTiming isPrune (ID stage); mret None
             end)
      end
  end.

(** [if s.unwindOrder[j] == nil || s.unwindOrder[j].Disabled || ...Unwind == nil { continue }]. *)
Definition entryStage (entry : option nat) : M W (option Stage) :=
  match entry with
  | None => mret None
  | Some i => s ← getSync; st ← noting (or_panic (stages s !! i)); mret (if Disabled st then None else Some st)
  end.

Fixpoint unwindStages (firstCycle : bool) (order : list (option nat)) : M W (option (SyncError E)) :=
  match order with
  | [] => mret None
  | entry :: order =>
      st ← entryStage entry;
      match st with
      | Some st =>
          match Unwind st with
          | Some unwind => orErr (unwindStage firstCycle st unwind) (unwindStages firstCycle order)
          | None => unwindStages firstCycle order
          end
      | None => unwindStages firstCycle order
      end
  end.

Fixpoint pruneStages (firstCycle : bool) (order : list (option nat)) : M W (option (SyncError E)) :=
  match order with
  | [] => mret None
  | entry :: order =>
      st ← entryStage entry;
      match st with
      | Some st =>
          match Prune st with
          | Some prune => orErr (pruneStage firstCycle st prune) (pruneStages firstCycle order)
          | None => pruneStages firstCycle order
          end
      | None => pruneStages firstCycle order
      end
  end.

Definition RunUnwind : M W (option (SyncError E)) :=
  s ← getSync;
  match unwindPoint s with
  | None => mret None
  | Some _ =>
      orErr (unwindStages false (unwindOrder s))
        (_ ← onSync (fun s => set_unwind None (unwindPoint s) 0%N s);
         backToFirst)
  end.

(** The first part of a turn of Run: whether the unwind had a bad block. *)
Definition unwindPending (firstCycle : bool) : M W (option (SyncError E) * bool) :=
  s ← getSync;
  err ← unwindStages firstCycle (unwindOrder s);
  match err with
  | Some err => mret (Some err, false)
  | None =>
      s ← getSync;
      let badBlockUnwind := negb (badBlock s =? 0)%N in
      _ ← onSync (fun s => set_unwind None (unwindPoint s) 0%N s);
      err ← backToFirst;
      mret (err, badBlockUnwind)
  end.

Section Run.
(** dbg.StopBeforeStage and dbg.StopAfterStage, from the environment. *)
Context (stopBefore stopAfter : string) (quiet : bool).

(** The second part of a turn: the current stage. *)
Definition runCurrent (firstCycle badBlockUnwind : bool) : M W (option (SyncError E)) :=
  s ← getSync;
  stage ← noting (or_panic (lookupZ (stages s) (currentStage s)));
  if bool_decide (ID stage = stopBefore) then mret (Some ErrStopped)
  else
    match (if Disabled stage then None else Forward stage) with
    | None => _ ← onSync NextStage; mret None
    | Some forward =>
        orErr (runStage stage forward firstCycle badBlockUnwind quiet)
          (if bool_decide (ID stage = stopAfter) then mret (Some ErrStopped)
           else _ ← onSync NextStage; mret None)
    end.

(** [for !s.IsDone()]: the loop ends only when the stages stop asking for unwinds,
    so it has fuel. *)
Fixpoint runLoop (fuel : nat) (firstCycle : bool) : M W (option (SyncError E)) :=
  s ← getSync;
  if IsDone s then mret None
  else
    match fuel with
    | O => noting OutOfFuel
    | S fuel =>
        match unwindPoint s with
        | Some _ =>
            r ← unwindPending firstCycle;
            let '(err, badBlockUnwind) := r in
            match err with
            | Some err => mret (Some err)
            | None => orErr (runCurrent false badBlockUnwind) (runLoop fuel false)
            end
        | None => orErr (runCurrent firstCycle false) (runLoop fuel firstCycle)
        end
    end.

Definition Run (fuel : nat) (firstCycle : bool) : M W (option (SyncError E)) :=
  _ ← onSync (fun s => set_timings [] (set_unwind (unwindPoint s) None (badBlock s) s));
  orErr (runLoop fuel firstCycle)
    (orErr backToFirst (_ ← onSync (set_currentStage 0); mret None)).
End Run.

Definition RunPrune (firstCycle : bool) : M W (option (SyncError E)) :=
  _ ← onSync (set_timings []);
  s ← getSync;
  orErr (pruneStages firstCycle (pruningOrder s))
    (orErr backToFirst (_ ← onSync (set_currentStage 0); mret None)).

(** ** Switching stages off and on *)
Definition DisableAllStages (s : Sync) : list SyncStage * Sync :=
  (map ID (filter (fun st => Disabled st = false) (stages s)), set_stages (map (set_Disabled true) (stages s)) s).

Definition switchStages (b : bool) (ids : list SyncStage) (s : Sync) : Sync :=
  set_stages (map (fun st => if bool_decide (ID st ∈ ids) then set_Disabled b st else st) (stages s)) s.

Definition DisableStages (ids : list SyncStage) : Sync -> Sync := switchStages true ids.
Definition EnableStages (ids : list SyncStage) : Sync -> Sync := switchStages false ids.

Definition MockExecFunc (id : SyncStage) (f : ExecFunc) (s : Sync) : Sync :=
  set_stages (map (fun st => if bool_decide (ID st = id) then mk_Stage (Some f) (Unwind st) (Prune st) (ID st) (Disabled st) else st) (stages s)) s.
End progress.

(** * The orders of the default stages *)
Definition DefaultForwardOrder : list SyncStage :=
  ["Snapshots"; "Headers"; "BlockHashes"; "Bodies"; "Senders"; "Execution"; "Translation"; "HashState"; "IntermediateHashes"; "CallTraces";
   "AccountHistoryIndex"; "StorageHistoryIndex"; "LogIndex"; "TxLookup"; "Finish"].

Definition DefaultUnwindOrder : list SyncStage :=
  ["Finish"; "TxLookup"; "LogIndex"; "StorageHistoryIndex"; "AccountHistoryIndex"; "CallTraces"; "HashState"; "IntermediateHashes";
   "Translation"; "Execution"; "Senders"; "Bodies"; "BlockHashes"; "Headers"].

Definition DefaultPruneOrder : list SyncStage :=
  ["Finish"; "Snapshots"; "TxLookup"; "LogIndex"; "StorageHistoryIndex"; "AccountHistoryIndex"; "CallTraces"; "HashState"; "IntermediateHashes";
   "Translation"; "Execution"; "Senders"; "Bodies"; "BlockHashes"; "Headers"].

(** The identifiers of the stages that DefaultStages builds, in their order. *)
Definition DefaultStages_IDs : list SyncStage :=
  ["Snapshots"; "Headers"; "CumulativeIndex"; "BlockHashes"; "Bodies"; "Senders"; "Execution"; "HashState"; "IntermediateHashes"; "CallTraces";
   "AccountHistoryIndex"; "StorageHistoryIndex"; "LogIndex"; "TxLookup"; "Finish"].
