(* ===== verification/StagedSyncTheorems.v ===== *)
(** What staged sync promises: progress is kept, unwinds bring every stage they
    reach down to their point, and a run ends with one pass over the stages. *)
From stdpp Require Import strings pretty gmap.
From S2P Require Import Prelude StateTypes Accounts AccountSpec StagedSync.
#[local] Open Scope Z_scope.

(** The table: what is put is found, and nothing else changes. *)
Class StageDBSpec (T E : Type) (DB : StageDB T E) := {
  GetOne_Put k v (t t' : T) : Put (E := E) k v t = (None, t') -> GetOne (E := E) k t' = inr v;
  GetOne_Put_ne k k' v (t t' : T) : k <> k' -> Put (E := E) k v t = (None, t') -> GetOne (E := E) k' t' = GetOne (E := E) k' t
}.

Section spec.
Context {T E : Type} {DB : StageDB T E}.
Implicit Types (s : @Sync T E) (t : T) (w : @W T E) (st : @Stage T E) (err : SyncError E).

(** * Progress *)
Lemma unmarshal_marshal n : is_u64 n -> unmarshalData (E := E) (marshalData n) = inr n.
Proof.
  intros Hn. unfold unmarshalData, marshalData. assert (len (be_split 8 n) = 8) as -> by (unfold len; by rewrite length_be_split). cbn [Z.eqb Z.ltb Z.compare Pos.eqb Pos.compare].
  change (8 =? 0) with false. change (8 <? 8) with false. cbv iota. rewrite take_ge by (rewrite length_be_split; lia). f_equal. by rewrite be_combine_split_small.
Qed.

Lemma getProgress_save {DBS : StageDBSpec T E DB} k n t t' : is_u64 n -> saveProgress k n t = Ok (None, t') ->
  getProgress k t' = inr n /\ forall k', k' <> k -> getProgress k' t' = getProgress k' t.
Proof.
  intros Hn E1. unfold saveProgress in E1. destruct (Put k (marshalData n) t) as [[e|] t1] eqn:Ep; [done|]. injection E1 as <-. unfold getProgress.
  rewrite (GetOne_Put _ _ _ _ Ep), unmarshal_marshal by done. split; [done|]. intros k' Hk. by rewrite (GetOne_Put_ne k k' _ t t1 (not_eq_sym Hk) Ep).
Qed.

(** * Steps *)
Lemma orErr_Ok (m k : M W (option (SyncError E))) w r w' : orErr m k w = Ok (r, w') ->
  (exists err, m w = Ok (Some err, w') /\ r = Some err) \/ (exists w1, m w = Ok (None, w1) /\ k w1 = Ok (r, w')).
Proof.
  unfold orErr, mbind, M_bind. destruct (m w) as [[[err|] w1]| | |]; try done; cbn; [intros [= <- <-]; left; by exists err|right; by exists w1].
Qed.

Lemma orErr_None (m k : M W (option (SyncError E))) w w' : orErr m k w = Ok (None, w') -> exists w1, m w = Ok (None, w1) /\ k w1 = Ok (None, w').
Proof. intros [(err & _ & ?) | H]%orErr_Ok; [done|exact H]. Qed.

Lemma orErr_run (m k : M W (option (SyncError E))) w w1 : m w = Ok (None, w1) -> orErr m k w = k w1.
Proof. intros H. unfold orErr, mbind, M_bind. by rewrite H. Qed.

Lemma wrapped_inv err w r w' : wrapped err w = Ok (r, w') -> exists p, r = Some (Wrapped p err) /\ LogPrefix w.1 = Ok p /\ w' = w.
Proof. unfold wrapped, mbind, M_bind, getSync, noting. cbn. destruct (LogPrefix w.1) as [p| | |] eqn:Ep; try done. cbn. intros [= <- <-]. by exists p. Qed.

(** What no step changes. *)
Definition same s s' : Prop :=
  stages s' = stages s /\ unwindOrder s' = unwindOrder s /\ pruningOrder s' = pruningOrder s /\ logPrefixes s' = logPrefixes s.

Lemma same_refl s : same s s.
Proof. done. Qed.

Lemma same_trans s1 s2 s3 : same s1 s2 -> same s2 s3 -> same s1 s3.
Proof. unfold same. intros (-> & -> & -> & ->) (-> & -> & -> & ->). done. Qed.

Lemma findStage_spec id (l : list (@Stage T E)) : forall i k, findStage id l i = Some k -> (i <= k < i + length l)%nat /\ exists st, l !! (k - i)%nat = Some st /\ ID st = id.
Proof.
  induction l as [|st l IH]; intros i k; [done|]. cbn [findStage length]. case_bool_decide as Hid.
  - intros [= <-]. rewrite Nat.sub_diag. split; [lia|by exists st].
  - intros Hf. destruct (IH _ _ Hf) as (Hk & st' & Es & ?). split; [lia|]. exists st'. split; [|done]. by replace (k - i)%nat with (S (k - S i)) by lia.
Qed.

Lemma findStage_In (l : list (@Stage T E)) st : forall i, In st l -> exists k, findStage (ID st) l i = Some k.
Proof.
  induction l as [|st0 l IH]; intros i; [done|]. cbn [findStage In]. case_bool_decide; [by exists i|]. intros [-> | Hin]; [done|]. by apply IH.
Qed.

Lemma setCurrent_In w st : In st (stages w.1) -> exists k, setCurrent (ID st) w = Ok (None, (set_currentStage (Z.of_nat k) w.1, w.2)) /\ (k < length (stages w.1))%nat.
Proof.
  intros Hin. destruct (findStage_In _ _ 0 Hin) as [k Hk]. exists k. unfold setCurrent, SetCurrentStage. rewrite Hk. split; [done|]. apply findStage_spec in Hk as [? _]. lia.
Qed.

Lemma backToFirst_Ok w st l : stages w.1 = st :: l -> backToFirst w = Ok (None, (set_currentStage 0 w.1, w.2)).
Proof.
  intros El. unfold backToFirst. erewrite M_bind_Ok by done. erewrite M_bind_Ok by (unfold noting; rewrite El; done).
  unfold setCurrent, SetCurrentStage. rewrite El. cbn [findStage]. by rewrite bool_decide_true.
Qed.

(** Positions in the lists are positions of stages. *)
Record sync_ok s : Prop := mk_sync_ok {
  sync_nonempty : stages s <> [];
  sync_small : len (stages s) < 2 ^ 64 - 1;
  sync_prefixes : length (logPrefixes s) = length (stages s);
  sync_unwind : forall i, Some i ∈ unwindOrder s -> (i < length (stages s))%nat;
  sync_prune : forall i, Some i ∈ pruningOrder s -> (i < length (stages s))%nat
}.

Lemma sync_ok_same s s' : same s s' -> sync_ok s -> sync_ok s'.
Proof. intros (E1 & E2 & E3 & E4) [H1 H2 H3 H4 H5]. split; rewrite ?E1, ?E2, ?E3, ?E4; done. Qed.

(** * Unwinding *)
Section unwinding.
(** A stage that unwinds without an error has told the table so, and leaves the
    progress of the others. *)
Context (ss : list (@Stage T E)).
Hypothesis unwind_done : forall st f fc u ssn t t', In st ss -> Unwind st = Some f -> is_u64 (UnwindPoint u) -> us_ID u = ID st -> f fc u ssn t = Ok (None, t') ->
  GetStageProgress (ID st) t' = inr (UnwindPoint u) /\ forall id, id <> ID st -> GetStageProgress id t' = GetStageProgress id t.

(** The stages that an unwind asks. *)
Definition unwinds (entry : option nat) (id : SyncStage) : Prop :=
  exists i st f, entry = Some i /\ ss !! i = Some st /\ Disabled st = false /\ Unwind st = Some f /\ ID st = id.

Definition lowered (p : Z) (order : list (option nat)) t t' : Prop := forall id n, GetStageProgress id t = inr n ->
  exists n', GetStageProgress id t' = inr n' /\ ((exists entry, entry ∈ order /\ unwinds entry id) /\ n' = Z.min n p \/ ~ (exists entry, entry ∈ order /\ unwinds entry id) /\ n' = n).

(** What a step of an unwind changes of the Sync. *)
Definition unwindFrame s s' : Prop :=
  same s s' /\ unwindPoint s' = unwindPoint s /\ prevUnwindPoint s' = prevUnwindPoint s /\ badBlock s' = badBlock s.

Lemma unwindStage_lowers fc st f s t s' t' p : is_u64 p -> In st ss -> stages s = ss -> Unwind st = Some f -> unwindPoint s = Some p ->
  unwindStage fc st f (s, t) = Ok (None, (s', t')) ->
  unwindFrame s s' /\ exists n, GetStageProgress (ID st) t = inr n /\ GetStageProgress (ID st) t' = inr (Z.min n p) /\ forall id, id <> ID st -> GetStageProgress id t' = GetStageProgress id t.
Proof.
  intros Hu Hin Hss Hf Hp. unfold unwindStage. erewrite M_bind_Ok by done. cbn [fst snd]. destruct (GetStageProgress (ID st) t) as [err|n] eqn:En; [done|].
  erewrite M_bind_Ok by done. cbn [fst]. erewrite M_bind_Ok by (unfold noting; rewrite Hp; done). cbn [BlockNumber UnwindPoint].
  destruct (Z.leb_spec n p) as [Hle|Hgt].
  - intros [= <- <-]. split; [done|]. exists n. rewrite Z.min_l by lia. done.
  - intros (w1 & E1 & E2)%orErr_None. destruct (setCurrent_In (s, t) st) as (k & Ek & _); [by cbn; rewrite Hss|]. rewrite Ek in E1. injection E1 as <-. cbn [fst snd] in E2.
    unfold onTx in E2. unfold mbind at 1, M_bind at 1 in E2. cbn [snd] in E2.
    destruct (f fc _ _ t) as [[[err|] t1]| | |] eqn:Ef; try done; cbn [mbind outcome_bind] in E2.
    + by apply wrapped_inv in E2 as (? & ? & _).
    + injection E2 as <- <-. split; [done|]. exists n. rewrite Z.min_r by lia. split; [done|]. eapply unwind_done in Ef as [? ?]; done.
Qed.

Lemma unwindStages_lowers fc p order : is_u64 p -> forall s t s' t', stages s = ss -> unwindPoint s = Some p -> (forall i, Some i ∈ order -> (i < length ss)%nat) ->
  unwindStages fc order (s, t) = Ok (None, (s', t')) -> unwindFrame s s' /\ lowered p order t t'.
Proof.
  intros Hup. induction order as [|entry order IH]; intros s t s' t' Hss Hp Hi.
  { cbn. intros [= <- <-]. split; [done|]. intros id n Hn. exists n. split; [done|]. right. split; [|done]. by intros (entry & Hin & _); apply not_elem_of_nil in Hin. }
  assert (forall i, Some i ∈ order -> (i < length ss)%nat) as Hi' by (intros i H; apply Hi; by right).
  assert (forall s1 t1, stages s1 = ss -> unwindPoint s1 = Some p -> unwindFrame s s1 -> (forall id n, GetStageProgress id t = inr n -> exists n1, GetStageProgress id t1 = inr n1 /\
      (unwinds entry id /\ n1 = Z.min n p \/ ~ unwinds entry id /\ n1 = n)) -> unwindStages fc order (s1, t1) = Ok (None, (s', t')) -> unwindFrame s s' /\ lowered p (entry :: order) t t') as Hrest.
  { intros s1 t1 Hss1 Hp1 Hfr Hn1 Hu. destruct (IH s1 t1 s' t' Hss1 Hp1 Hi' Hu) as [[Hsa Hfr'] Hl]. destruct Hfr as [Hsa1 Hfr1]. split.
    - split; [by eapply same_trans|]. destruct Hfr1 as (-> & -> & ->) in Hfr'. done.
    - intros id n Hn. destruct (Hn1 id n Hn) as (n1 & E1 & Hc1). destruct (Hl id n1 E1) as (n' & E' & Hc). exists n'. split; [done|]. destruct Hc1 as [[Hu1 ->] | [Hu1 ->]], Hc as [[Hu2 ->] | [Hu2 ->]].
      + left. split; [exists entry; split; [by left|done]|]. lia.
      + left. split; [exists entry; split; [by left|done]|]. lia.
      + left. split; [|done]. destruct Hu2 as (e & ? & ?). exists e. split; [by right|done].
      + right. split; [|done]. intros (e & He & Hue). apply elem_of_cons in He as [-> | He]; [done|]. apply Hu2. by exists e. }
  cbn [unwindStages]. assert (forall id n, ~ unwinds entry id -> GetStageProgress id t = inr n -> exists n1, GetStageProgress id t = inr n1 /\ (unwinds entry id /\ n1 = Z.min n p \/ ~ unwinds entry id /\ n1 = n)) as Hskip
    by (intros id n Hnu Hn; exists n; split; [done|]; by right).
  assert (unwindFrame s s) as Hfr0 by done.
  destruct entry as [i|]; [|intros E1; refine (Hrest s t Hss Hp Hfr0 _ E1); intros id n; apply Hskip; by intros (? & ? & ? & ? & _)].
  destruct (lookup_lt_is_Some_2 ss i) as [st Est]; [apply Hi; by left|]. cbn [entryStage].
  erewrite M_bind_Ok by (erewrite M_bind_Ok by done; cbn [fst]; rewrite Hss, Est; cbn; done).
  destruct (Disabled st) eqn:Ed.
  { intros E1. refine (Hrest s t Hss Hp Hfr0 _ E1). intros id n. apply Hskip. intros (? & ? & ? & [= <-] & ? & ? & _). congruence. }
  destruct (Unwind st) as [f|] eqn:Ef.
  - intros ([s1 t1] & E1 & E2)%orErr_None. pose proof Est as Hin. apply list_elem_of_lookup_2, list_elem_of_In in Hin. destruct (unwindStage_lowers fc st f s t s1 t1 p Hup Hin Hss Ef Hp E1) as [Hfr (n0 & En & En' & Hne)].
    pose proof Hfr as [(Es1 & _) (Ep1 & _)]. refine (Hrest s1 t1 (eq_trans Es1 Hss) (eq_trans Ep1 Hp) Hfr _ E2). intros id n Hn. destruct (decide (id = ID st)) as [-> | Hid].
    + rewrite En in Hn. injection Hn as ->. exists (Z.min n p). split; [done|]. left. split; [|done]. by exists i, st, f.
    + rewrite Hne by done. exists n. split; [done|]. right. split; [|done]. intros (? & ? & ? & [= <-] & ? & _ & _ & ?). congruence.
  - intros E1. refine (Hrest s t Hss Hp Hfr0 _ E1). intros id n. apply Hskip. intros (? & ? & ? & [= <-] & ? & ? & ? & _). congruence.
Qed.
End unwinding.

(** * Frames *)
Lemma unwindFrame_trans s1 s2 s3 : unwindFrame s1 s2 -> unwindFrame s2 s3 -> unwindFrame s1 s3.
Proof. intros [Ha (E1 & E2 & E3)] [Hb (E4 & E5 & E6)]. split; [by eapply same_trans|]. split_and!; congruence. Qed.

Lemma setCurrent_frame id w r w' : setCurrent id w = Ok (r, w') -> unwindFrame w.1 w'.1 /\ w'.2 = w.2 /\ timings w'.1 = timings w.1.
Proof. unfold setCurrent, SetCurrentStage. destruct (findStage id (stages w.1) 0); intros [= <- <-]; by repeat split. Qed.

Lemma unwindStage_frame fc st f w r w' : unwindStage fc st f w = Ok (r, w') -> unwindFrame w.1 w'.1.
Proof.
  unfold unwindStage. erewrite M_bind_Ok by done. destruct (GetStageProgress (ID st) w.2) as [err|n]; [by intros [= <- <-]|]. erewrite M_bind_Ok by done. unfold mbind at 1, M_bind at 1, noting at 1.
  destruct (unwindPoint w.1) as [p|]; [|done]. cbn [or_panic mbind outcome_bind BlockNumber UnwindPoint]. destruct (n <=? p); [by intros [= <- <-]|].
  intros [(err & E1 & ->) | (w1 & E1 & E2)]%orErr_Ok; apply setCurrent_frame in E1 as (Hf & _ & _); [done|].
  unfold onTx, mbind, M_bind in E2. destruct (f fc _ _ w1.2) as [[[err|] t1]| | |]; try done; cbn in E2.
  - apply wrapped_inv in E2 as (q & _ & _ & ->). done.
  - by injection E2 as <- <-.
Qed.

Lemma entryStage_inv entry w r w' : entryStage entry w = Ok (r, w') -> w' = w /\ (forall st, r = Some st -> In st (stages w.1)).
Proof.
  destruct entry as [i|]; cbn; [|by intros [= <- <-]]. unfold noting, mbind, M_bind. cbn. destruct (stages w.1 !! i) as [st|] eqn:Es; [|done]. cbn. intros [= <- <-]. split; [done|].
  intros st' E'. case_match; [done|]. injection E' as ->. by apply list_elem_of_In, list_elem_of_lookup_2 with i.
Qed.

Lemma unwindStages_frame fc order : forall w r w', unwindStages fc order w = Ok (r, w') -> unwindFrame w.1 w'.1.
Proof.
  induction order as [|entry order IH]; intros w r w'; [by intros [= <- <-]|]. cbn [unwindStages]. unfold mbind at 1, M_bind at 1.
  destruct (entryStage entry w) as [[o w1]| | |] eqn:Ee; try done. apply entryStage_inv in Ee as [-> _]. destruct o as [st|]; [|apply IH]. destruct (Unwind st) as [f|]; [|apply IH].
  intros [(err & E1 & ->) | (w2 & E1 & E2)]%orErr_Ok; apply unwindStage_frame in E1; [done|]. eapply unwindFrame_trans; [exact E1|]. by eapply IH.
Qed.

(** * Turns of the loop *)
Lemma unwindPending_inv fc w bb w' : sync_ok w.1 -> unwindPending fc w = Ok ((None, bb), w') ->
  same w.1 w'.1 /\ currentStage w'.1 = 0 /\ unwindPoint w'.1 = None /\ prevUnwindPoint w'.1 = unwindPoint w.1.
Proof.
  intros Hok. unfold unwindPending. erewrite M_bind_Ok by done. unfold mbind at 1, M_bind at 1. destruct (unwindStages fc _ w) as [[[err|] w1]| | |] eqn:Eu; try done.
  apply unwindStages_frame in Eu as [Hs (Ep & _)]. erewrite M_bind_Ok by done. erewrite M_bind_Ok by done. pose proof (sync_ok_same _ _ Hs Hok) as [Hne _ _ _ _]. destruct (stages w1.1) as [|st l] eqn:El; [done|].
  erewrite M_bind_Ok by (apply (backToFirst_Ok _ st l); exact El). intros [= _ <-]. cbn. split; [|done]. exact Hs.
Qed.

Definition runnable st : bool := negb (Disabled st) && isSome (Forward st).

Definition ran (l : list (@Stage T E)) : list Timing := map (fun st => mk_Timing isForward (ID st)) (filter (fun st => runnable st = true) l).

Lemma ran_app l1 l2 : ran (l1 ++ l2) = ran l1 ++ ran l2.
Proof. unfold ran. by rewrite list.filter_app, map_app. Qed.

Lemma UnwindTo_frame us : forall s, let s' := foldl (fun s (u : Z * hash) => UnwindTo u.1 u.2 s) s us in
  same s s' /\ currentStage s' = currentStage s /\ prevUnwindPoint s' = prevUnwindPoint s /\ timings s' = timings s /\
  unwindPoint s' = match list.last us with Some u => Some u.1 | None => unwindPoint s end.
Proof.
  induction us as [|u us IH] using rev_ind; intros s; [done|]. rewrite foldl_app, last_snoc. destruct (IH s) as (Hs & Hc & Hp & Ht & _). cbn zeta in *. cbn [foldl]. done.
Qed.

Lemma runStage_inv st f fc bb quiet w r w' : runStage st f fc bb quiet w = Ok (r, w') ->
  same w.1 w'.1 /\ currentStage w'.1 = currentStage w.1 /\ prevUnwindPoint w'.1 = prevUnwindPoint w.1 /\ (r = None -> timings w'.1 = timings w.1 ++ [mk_Timing isForward (ID st)]).
Proof.
  unfold runStage. erewrite M_bind_Ok by done. destruct (GetStageProgress (ID st) w.2) as [err|n]; [by intros [= <- <-]|]. unfold mbind at 1, M_bind at 1, onTx.
  destruct (f fc bb _ quiet w.2) as [[[us err] t1]| | |]; try done. cbn [mbind outcome_bind fst snd]. erewrite M_bind_Ok by done. cbn [fst snd].
  destruct (UnwindTo_frame us w.1) as (Hs & Hc & Hp & Ht & _). set (s1 := foldl _ w.1 us) in *. destruct err as [err|].
  - intros (q & -> & _ & ->)%wrapped_inv. done.
  - erewrite M_bind_Ok by done. unfold mbind at 1, M_bind at 1, noting. destruct (LogPrefix (s1, t1).1); try done. cbn [mbind outcome_bind]. erewrite M_bind_Ok by done. intros [= <- <-].
    split; [exact Hs|]. split; [exact Hc|]. split; [exact Hp|]. intros _. cbn. by rewrite Ht.
Qed.

Section run.
Context (stopBefore stopAfter : string) (quiet : bool).

Lemma NextStage_current s cur : currentStage s = Z.of_nat cur -> (cur < length (stages s))%nat -> len (stages s) < 2 ^ 64 - 1 -> currentStage (NextStage s) = Z.of_nat (S cur).
Proof. intros Ec Hl Hs. cbn. rewrite Ec, Z.mod_small by (unfold len in Hs; lia). lia. Qed.

Lemma runCurrent_inv fc bb w w' cur : sync_ok w.1 -> currentStage w.1 = Z.of_nat cur -> (cur < length (stages w.1))%nat ->
  runCurrent stopBefore stopAfter quiet fc bb w = Ok (None, w') ->
  exists st, stages w.1 !! cur = Some st /\ same w.1 w'.1 /\ currentStage w'.1 = Z.of_nat (S cur) /\ prevUnwindPoint w'.1 = prevUnwindPoint w.1 /\ timings w'.1 = timings w.1 ++ ran [st].
Proof.
  intros Hok Hc Hl. destruct (lookup_lt_is_Some_2 _ _ Hl) as [st Est]. pose proof (sync_small _ Hok) as Hsm. unfold runCurrent. erewrite M_bind_Ok by done.
  erewrite M_bind_Ok by (unfold noting, lookupZ; rewrite Hc, (proj2 (Z.ltb_ge _ _)), Nat2Z.id, Est by lia; done). case_bool_decide; [done|]. intros Hr. exists st. split; [done|].
  assert (ran [st] = if runnable st then [mk_Timing isForward (ID st)] else []) as ->.
  { unfold ran. destruct (runnable st) eqn:Er; [rewrite filter_cons_True by done|rewrite filter_cons_False by congruence]; done. }
  unfold runnable. destruct (Disabled st) eqn:Ed; cbn [negb andb].
  { injection Hr as <-. split; [done|]. split; [by apply NextStage_current|]. by rewrite app_nil_r. }
  destruct (Forward st) as [f|]; cbn [isSome].
  - apply orErr_None in Hr as (w1 & E1 & E2). apply runStage_inv in E1 as (Hs & Hc1 & Hp & Ht). case_bool_decide; [done|]. injection E2 as <-. split; [exact Hs|].
    split; [apply NextStage_current; [by rewrite Hc1|..]; destruct Hs as (-> & _); done|]. split; [exact Hp|]. exact (Ht eq_refl).
  - injection Hr as <-. split; [done|]. split; [by apply NextStage_current|]. by rewrite app_nil_r.
Qed.

(** What the timings say at the head of the loop: since the last unwind the
    stages from [c] on have run, in their order. *)
Definition passing (cur0 : nat) s : Prop := exists cur, currentStage s = Z.of_nat cur /\
  match unwindPoint s with
  | Some _ => True
  | None => exists c pre, (c <= cur)%nat /\ timings s = pre ++ ran (take (cur - c) (drop c (stages s))) /\
      ((pre = [] /\ c = cur0 /\ prevUnwindPoint s = None) \/ (c = O /\ prevUnwindPoint s <> None))
  end.

Lemma take_S_drop {A} (l : list A) c cur x : (c <= cur)%nat -> l !! cur = Some x -> take (S cur - c) (drop c l) = take (cur - c) (drop c l) ++ [x].
Proof. intros Hc Hx. replace (S cur - c)%nat with (S (cur - c)) by lia. apply take_S_r. rewrite lookup_drop. by replace (c + (cur - c))%nat with cur by lia. Qed.

Lemma runLoop_inv cur0 fuel : forall fc w w', sync_ok w.1 -> passing cur0 w.1 -> runLoop stopBefore stopAfter quiet fuel fc w = Ok (None, w') ->
  same w.1 w'.1 /\ passing cur0 w'.1 /\ IsDone w'.1 = true.
Proof.
  induction fuel as [|fuel IH]; intros fc w w' Hok Hpass; cbn [runLoop]; erewrite M_bind_Ok by done; (destruct (IsDone w.1) eqn:Ed; [by intros [= <-]|]); [done|].
  destruct Hpass as (cur & Ec & Hpass). destruct (unwindPoint w.1) as [p|] eqn:Ep.
  - unfold mbind, M_bind. destruct (unwindPending fc w) as [[[[err|] bb] w1]| | |] eqn:Eu; try done. apply unwindPending_inv in Eu as (Hs1 & Hc1 & Hp1 & Hpp1); [|done].
    intros (w2 & E1 & E2)%orErr_None. pose proof (sync_ok_same _ _ Hs1 Hok) as Hok1. assert (0 < length (stages w1.1))%nat as Hl by (pose proof (sync_nonempty _ Hok1); destruct (stages w1.1); [done|cbn; lia]).
    destruct (runCurrent_inv _ _ _ _ O Hok1 Hc1 Hl E1) as (st & Est & Hs2 & Hc2 & Hpp2 & Ht2). pose proof Hs2 as (Ess & _).
    destruct (IH false w2 w' (sync_ok_same _ _ Hs2 Hok1)) as (Hs3 & Hp3 & Hd3); [|done|split; [eapply same_trans; [exact Hs1|by eapply same_trans]|done]].
    exists 1%nat. split; [exact Hc2|]. case_match; [done|]. exists O, (timings w1.1). split; [lia|]. rewrite Ht2, Ess. split; [by rewrite (take_S_drop _ _ O st) by (done || lia)|]. right. split; [done|]. rewrite Hpp2, Hpp1, Ep. done.
  - intros (w2 & E1 & E2)%orErr_None. unfold IsDone in Ed. rewrite Ep in Ed. cbn [isSome negb] in Ed. rewrite andb_true_r in Ed. apply Z.leb_gt in Ed. unfold len in Ed.
    assert (cur < length (stages w.1))%nat as Hl by lia. destruct (runCurrent_inv _ _ _ _ cur Hok Ec Hl E1) as (st & Est & Hs2 & Hc2 & Hpp2 & Ht2). pose proof Hs2 as (Ess & _).
    destruct (IH fc w2 w' (sync_ok_same _ _ Hs2 Hok)) as (Hs3 & Hp3 & Hd3); [|done|split; [by eapply same_trans|done]].
    exists (S cur). split; [exact Hc2|]. case_match; [done|]. destruct Hpass as (c & pre & Hc & Ht & Hpre). exists c, pre. split; [lia|].
    rewrite Ht2, Ht, Ess, (take_S_drop _ _ cur st), ran_app, <- app_assoc, Hpp2 by done. done.
Qed.

(** ** Termination *)
Section termination.
Context (ss : list (@Stage T E)) (budget : T -> nat).
(** The stages return, and those that ask for an unwind use up a budget. *)
Hypothesis forward_total : forall st f fc bb sst q t, In st ss -> Forward st = Some f ->
  exists us e t', f fc bb sst q t = Ok ((us, e), t') /\ (budget t' + (if bool_decide (us = []) then 0 else 1) <= budget t)%nat.
Hypothesis unwind_total : forall st f fc u sst t, In st ss -> Unwind st = Some f -> exists e t', f fc u sst t = Ok (e, t') /\ (budget t' <= budget t)%nat.

Lemma unwindStage_total fc st f w p : sync_ok w.1 -> stages w.1 = ss -> In st ss -> Unwind st = Some f -> unwindPoint w.1 = Some p ->
  exists r w', unwindStage fc st f w = Ok (r, w') /\ (budget w'.2 <= budget w.2)%nat.
Proof.
  intros Hok Hss Hin Hf Hp. unfold unwindStage. erewrite M_bind_Ok by done. destruct (GetStageProgress (ID st) w.2) as [err|n]; [by eexists _, _|]. erewrite M_bind_Ok by done.
  erewrite M_bind_Ok by (unfold noting; rewrite Hp; done). cbn [BlockNumber UnwindPoint]. destruct (n <=? p); [by eexists _, _|]. destruct (setCurrent_In w st) as (k & Ek & Hk); [by rewrite Hss|].
  erewrite orErr_run by exact Ek. destruct (unwind_total st f fc (mk_UnwindState (ID st) p n (badBlock w.1)) (mk_StageState (ID st) n) w.2 Hin Hf) as (err & t' & E1 & Hb). unfold onTx, mbind, M_bind. cbn [snd]. rewrite E1.
  cbn [mbind outcome_bind fst snd]. destruct err as [err|]; [|by eexists _, _]. unfold wrapped, mbind, M_bind. cbn [getSync]. unfold noting, LogPrefix. cbn [mbind outcome_bind getSync fst].
  destruct (lookup_lt_is_Some_2 (logPrefixes w.1) k) as [q Eq]; [by rewrite (sync_prefixes _ Hok)|]. cbn. unfold lookupZ. rewrite (proj2 (Z.ltb_ge _ _)), Nat2Z.id, Eq by lia. by eexists _, _.
Qed.

Lemma unwindStages_total fc order : forall w p, sync_ok w.1 -> stages w.1 = ss -> unwindPoint w.1 = Some p -> (forall i, Some i ∈ order -> (i < length ss)%nat) ->
  exists r w', unwindStages fc order w = Ok (r, w') /\ (budget w'.2 <= budget w.2)%nat.
Proof.
  induction order as [|entry order IH]; intros w p Hok Hss Hp Hi; [by eexists _, _|]. assert (forall i, Some i ∈ order -> (i < length ss)%nat) as Hi' by (intros i H; apply Hi; by right). cbn [unwindStages].
  assert (exists o, entryStage entry w = Ok (o, w)) as [o Eo].
  { destruct entry as [i|]; [|by eexists]. destruct (lookup_lt_is_Some_2 ss i) as [st Est]; [apply Hi; by left|]. cbn. unfold noting, mbind, M_bind. cbn. rewrite Hss, Est. by eexists. }
  pose proof Eo as Eo'. apply entryStage_inv in Eo' as [_ Hin]. erewrite M_bind_Ok by exact Eo. destruct o as [st|]; [|by apply (IH w p)]. destruct (Unwind st) as [f|] eqn:Ef; [|by apply (IH w p)].
  specialize (Hin st eq_refl). rewrite Hss in Hin. destruct (unwindStage_total fc st f w p Hok Hss Hin Ef Hp) as (r & w1 & E1 & Hb1). pose proof (unwindStage_frame _ _ _ _ _ _ E1) as [Hs (Ep & _)].
  unfold orErr. erewrite M_bind_Ok by exact E1. destruct r as [err|]; [by eexists _, _|]. pose proof Hs as (Es & _).
  destruct (IH w1 p) as (r & w2 & E2 & Hb2); [by eapply sync_ok_same|congruence..|done|]. exists r, w2. split; [done|lia].
Qed.

Lemma unwindPending_total fc w p : sync_ok w.1 -> stages w.1 = ss -> unwindPoint w.1 = Some p -> exists r w', unwindPending fc w = Ok (r, w') /\ (budget w'.2 <= budget w.2)%nat.
Proof.
  intros Hok Hss Hp. unfold unwindPending. erewrite M_bind_Ok by done. destruct (unwindStages_total fc (unwindOrder w.1) w p Hok Hss Hp) as (r & w1 & E1 & Hb); [rewrite <- Hss; apply (sync_unwind _ Hok)|].
  pose proof (unwindStages_frame _ _ _ _ _ E1) as [Hs _]. erewrite M_bind_Ok by exact E1. destruct r as [err|]; [by eexists _, _|]. erewrite M_bind_Ok by done. erewrite M_bind_Ok by done.
  pose proof (sync_ok_same _ _ Hs Hok) as [Hne _ _ _ _]. destruct (stages w1.1) as [|st l] eqn:El; [done|]. erewrite M_bind_Ok by (apply (backToFirst_Ok _ st l); exact El). by eexists _, _.
Qed.

Definition pending s : nat := if unwindPoint s then 1%nat else 0%nat.

Lemma runCurrent_total fc bb w cur : sync_ok w.1 -> stages w.1 = ss -> currentStage w.1 = Z.of_nat cur -> (cur < length ss)%nat -> unwindPoint w.1 = None ->
  exists r w', runCurrent stopBefore stopAfter quiet fc bb w = Ok (r, w') /\ (budget w'.2 + pending w'.1 <= budget w.2)%nat.
Proof.
  intros Hok Hss Hc Hl Hp. destruct (lookup_lt_is_Some_2 _ _ Hl) as [st Est]. unfold runCurrent. erewrite M_bind_Ok by done.
  erewrite M_bind_Ok by (unfold noting, lookupZ; rewrite Hc, Hss, (proj2 (Z.ltb_ge _ _)), Nat2Z.id, Est by lia; done).
  assert (budget w.2 + pending w.1 <= budget w.2)%nat as H0 by (unfold pending; rewrite Hp; lia). case_bool_decide; [by eexists _, _|].
  destruct (Disabled st) eqn:Ed; [by eexists _, _|]. destruct (Forward st) as [f|] eqn:Ef; [|by eexists _, _]. assert (In st ss) as Hin by (by eapply list_elem_of_In, list_elem_of_lookup_2).
  enough (exists r w1, runStage st f fc bb quiet w = Ok (r, w1) /\ (budget w1.2 + pending w1.1 <= budget w.2)%nat) as (r & w1 & E1 & Hb).
  { unfold orErr. erewrite M_bind_Ok by exact E1. destruct r as [err|]; [by eexists _, _|]. case_bool_decide; by eexists _, _. }
  unfold runStage. erewrite M_bind_Ok by done. destruct (GetStageProgress (ID st) w.2) as [err|n]; [by eexists _, _|].
  destruct (forward_total st f fc bb (mk_StageState (ID st) n) quiet w.2 Hin Ef) as (us & err & t' & E1 & Hb). unfold mbind at 1, M_bind at 1, onTx. rewrite E1. cbn [mbind outcome_bind fst snd].
  erewrite M_bind_Ok by done. cbn [fst snd]. destruct (UnwindTo_frame us w.1) as (Hs & Hc1 & _ & _ & Hu). set (s1 := foldl _ w.1 us) in *.
  assert (budget t' + pending s1 <= budget w.2)%nat as Hb1. { unfold pending. rewrite Hu. destruct us as [|u us _] using rev_ind; [rewrite Hp; cbn in *; lia|]. rewrite last_snoc. rewrite bool_decide_false in Hb by (by destruct us). lia. }
  assert (exists q, LogPrefix s1 = Ok q) as [q Eq].
  { unfold LogPrefix, lookupZ. destruct Hs as (_ & _ & _ & ->). rewrite Hc1, Hc, (proj2 (Z.ltb_ge _ _)), Nat2Z.id by lia. destruct (lookup_lt_is_Some_2 (logPrefixes w.1) cur) as [q ->]; [rewrite (sync_prefixes _ Hok), Hss; done|by exists q]. }
  destruct err as [err|].
  - unfold wrapped. erewrite M_bind_Ok by done. cbn [fst]. erewrite M_bind_Ok by (unfold noting; rewrite Eq; done). by eexists _, _.
  - erewrite M_bind_Ok by done. cbn [fst]. erewrite M_bind_Ok by (unfold noting; rewrite Eq; done). erewrite M_bind_Ok by done. by eexists _, _.
Qed.

(** Turns left: a full pass for every unwind that may still come. *)
Lemma runLoop_total fuel : forall fc w cur, sync_ok w.1 -> stages w.1 = ss -> currentStage w.1 = Z.of_nat cur ->
  ((budget w.2 + pending w.1) * S (length ss) + (length ss - cur) <= fuel)%nat -> exists r w', runLoop stopBefore stopAfter quiet fuel fc w = Ok (r, w').
Proof.
  induction fuel as [|fuel IH]; intros fc w cur Hok Hss Hc Hf; cbn [runLoop]; erewrite M_bind_Ok by done; (destruct (IsDone w.1) eqn:Ed; [by eexists _, _|]).
  - exfalso. unfold IsDone in Ed. unfold pending in Hf. destruct (unwindPoint w.1) as [p|]; cbn [isSome negb] in Ed; [lia|]. rewrite andb_true_r in Ed. apply Z.leb_gt in Ed. rewrite Hss in Ed. unfold len in Ed. lia.
  - destruct (unwindPoint w.1) as [p|] eqn:Ep.
    + destruct (unwindPending_total fc w p Hok Hss Ep) as ([[err|] bb] & w1 & E1 & Hb); erewrite M_bind_Ok by exact E1; cbv beta iota; [by eexists _, _|].
      destruct (unwindPending_inv fc w bb w1 Hok E1) as (Hs1 & Hc1 & Hp1 & _). pose proof Hs1 as (Es1 & _). pose proof (sync_ok_same _ _ Hs1 Hok) as Hok1.
      assert (0 < length ss)%nat as Hl by (pose proof (sync_nonempty _ Hok); rewrite <- Hss; destruct (stages w.1); [done|cbn; lia]).
      destruct (runCurrent_total false bb w1 O Hok1 ltac:(congruence) Hc1 Hl Hp1) as (r & w2 & E2 & Hb2). unfold orErr. erewrite M_bind_Ok by exact E2. destruct r as [err|]; [by eexists _, _|].
      destruct (runCurrent_inv _ _ _ _ O Hok1 Hc1 ltac:(rewrite Es1, Hss; done) E2) as (st & _ & Hs2 & Hc2 & _). pose proof Hs2 as (Es2 & _).
      apply (IH false w2 1%nat); [by eapply sync_ok_same|congruence|exact Hc2|]. unfold pending in Hf. rewrite Ep in Hf. nia.
    + unfold IsDone in Ed. rewrite Ep in Ed. cbn [isSome negb] in Ed. rewrite andb_true_r in Ed. apply Z.leb_gt in Ed. rewrite Hss in Ed. unfold len in Ed.
      destruct (runCurrent_total fc false w cur Hok Hss Hc ltac:(lia) Ep) as (r & w2 & E2 & Hb2). unfold orErr. erewrite M_bind_Ok by exact E2. destruct r as [err|]; [by eexists _, _|].
      destruct (runCurrent_inv _ _ _ _ cur Hok Hc ltac:(rewrite Hss; lia) E2) as (st & _ & Hs2 & Hc2 & _). pose proof Hs2 as (Es2 & _).
      apply (IH fc w2 (S cur)); [by eapply sync_ok_same|congruence|exact Hc2|]. unfold pending in Hf at 1. rewrite Ep in Hf. nia.
Qed.
End termination.
End run.
End spec.

Section theorems.
Context {T E : Type} {DB : StageDB T E}.
Context (stopBefore stopAfter : string) (quiet : bool).
Implicit Types (s : @Sync T E) (t : T) (st : @Stage T E) (err : SyncError E).

(** * Progress *)
(** What a stage saves is what it reads next time, forward and prune progress
    apart, and no other stage sees a change. *)
Theorem stage_progress_roundtrip {DBS : StageDBSpec T E DB} id n t t' : is_u64 n ->
  (SaveStageProgress id n t = Ok (None, t') ->
     GetStageProgress id t' = inr n /\ (forall id', id' <> id -> GetStageProgress id' t' = GetStageProgress id' t) /\
     (forall id', String.append "prune_" id' <> id -> GetStagePruneProgress id' t' = GetStagePruneProgress id' t)) /\
  (SaveStagePruneProgress id n t = Ok (None, t') ->
     GetStagePruneProgress id t' = inr n /\ (forall id', id' <> String.append "prune_" id -> GetStageProgress id' t' = GetStageProgress id' t)).
Proof.
  intros Hn. split; intros Es; destruct (getProgress_save _ _ _ _ Hn Es) as [E1 E2]; (split; [exact E1|]).
  - split; [exact E2|]. intros id' Hid. by apply E2.
  - intros id' Hid. by apply E2.
Qed.


(** * Runs *)
(** C13: A run without an error ends with a pass over all stages that are enabled, in
    their order and each once: from the stage the Sync was at when nothing was
    unwound, and from the first stage after the last unwind.  No unwind is left. *)
Theorem Run_last_pass fuel fc s t s' t' cur0 : sync_ok s -> currentStage s = Z.of_nat cur0 ->
  Run stopBefore stopAfter quiet fuel fc (s, t) = Ok (None, (s', t')) ->
  stages s' = stages s /\ currentStage s' = 0 /\ unwindPoint s' = None /\
  ((prevUnwindPoint s' = None /\ timings s' = ran (drop cur0 (stages s))) \/
   (prevUnwindPoint s' <> None /\ exists before, timings s' = before ++ ran (stages s))).
Proof.
  intros Hok Hc. unfold Run. erewrite M_bind_Ok by done. cbn [fst snd]. set (s0 := set_timings _ _). assert (sync_ok s0) as Hok0 by (by apply (sync_ok_same s)).
  assert (passing cur0 s0) as Hp0. { exists cur0. split; [done|]. case_match; [done|]. exists cur0, []. rewrite Nat.sub_diag. split; [done|]. split; [done|]. by left. }
  intros ([s1 t1] & E1 & E2)%orErr_None. destruct (runLoop_inv _ _ _ cur0 fuel fc (s0, t) (s1, t1) Hok0 Hp0 E1) as (Hs & (cur & Ec & Hpass) & Hd). cbn [fst] in *.
  apply orErr_None in E2 as (w2 & E2 & E3). pose proof (sync_ok_same _ _ Hs Hok0) as [Hne _ _ _ _]. destruct (stages s1) as [|st l] eqn:El; [done|].
  rewrite (backToFirst_Ok _ st l) in E2 by exact El. injection E2 as <-. injection E3 as <- <-. cbn. rewrite El. destruct Hs as (Es & _). change (stages s0) with (stages s) in Es. rewrite El in Es.
  unfold IsDone in Hd. apply andb_prop in Hd as [Hd1 Hd2]. destruct (unwindPoint s1); [done|]. apply Z.leb_le in Hd1. rewrite Ec, El in Hd1. unfold len in Hd1. split; [done|]. split; [done|]. split; [done|].
  destruct Hpass as (c & pre & Hcc & Ht & [(-> & -> & Hpp) | [-> Hpp]]).
  - left. split; [done|]. rewrite Ht, take_ge by (rewrite length_drop; lia). by rewrite Es.
  - right. split; [done|]. exists pre. rewrite Ht, drop_0, take_ge by lia. by rewrite Es.
Qed.

(** C15: A run ends, whatever it meets, when the stages return and can ask for an
    unwind only finitely often: a turn for each stage of a pass, and a pass for
    each unwind, are enough. *)
Theorem Run_terminates (budget : T -> nat) fuel fc s t cur : sync_ok s -> currentStage s = Z.of_nat cur ->
  (forall st f fc bb sst q t, In st (stages s) -> Forward st = Some f ->
     exists us e t', f fc bb sst q t = Ok ((us, e), t') /\ (budget t' + (if bool_decide (us = []) then 0 else 1) <= budget t)%nat) ->
  (forall st f fc u sst t, In st (stages s) -> Unwind st = Some f -> exists e t', f fc u sst t = Ok (e, t') /\ (budget t' <= budget t)%nat) ->
  ((budget t + 1) * S (length (stages s)) + length (stages s) <= fuel)%nat ->
  exists r w, Run stopBefore stopAfter quiet fuel fc (s, t) = Ok (r, w).
Proof.
  intros Hok Hc Hf Hu Hfuel. unfold Run. erewrite M_bind_Ok by done. cbn [fst snd]. set (s0 := set_timings _ _). assert (sync_ok s0) as Hok0 by (by apply (sync_ok_same s)).
  destruct (runLoop_total stopBefore stopAfter quiet (stages s) budget Hf Hu fuel fc (s0, t) cur Hok0 eq_refl Hc) as (r & [s1 t1] & E1).
  { cbn [snd fst]. unfold pending. case_match; nia. }
  unfold orErr at 1. erewrite M_bind_Ok by exact E1. destruct r as [err|]; [by eexists _, _|].
  assert (same s0 s1) as Hs. { destruct (runLoop_inv stopBefore stopAfter quiet cur fuel fc (s0, t) (s1, t1) Hok0) as (Hs & _); [|done|done]. exists cur. split; [done|]. case_match; [done|]. exists cur, []. rewrite Nat.sub_diag. split; [done|]. split; [done|]. by left. }
  pose proof (sync_ok_same _ _ Hs Hok0) as [Hne _ _ _ _]. destruct (stages s1) as [|st l] eqn:El; [done|]. erewrite orErr_run by (apply (backToFirst_Ok _ st l); exact El). by eexists _, _.
Qed.

(** The effect of a pass in which no stage fails or asks for an unwind. *)
Fixpoint pass (fc : bool) (l : list (@Stage T E)) t : option T :=
  match l with
  | [] => Some t
  | st :: l =>
      if bool_decide (ID st = stopBefore \/ ID st = stopAfter) then None
      else
        match (if Disabled st then None else Forward st), GetStageProgress (ID st) t with
        | None, _ => pass fc l t
        | Some f, inr n => match f fc false (mk_StageState (ID st) n) quiet t with Ok (([], None), t') => pass fc l t' | _ => None end
        | Some _, inl _ => None
        end
  end.

Lemma runLoop_pass fc t' : forall l fuel s t cur, sync_ok s -> currentStage s = Z.of_nat cur -> unwindPoint s = None -> drop cur (stages s) = l -> pass fc l t = Some t' -> (length l <= fuel)%nat ->
  exists s', runLoop stopBefore stopAfter quiet fuel fc (s, t) = Ok (None, (s', t')) /\ same s s' /\ unwindPoint s' = None /\ prevUnwindPoint s' = prevUnwindPoint s /\ timings s' = timings s ++ ran l.
Proof.
  induction l as [|st l IH]; intros fuel s t cur Hok Hc Hu Hl Hp Hf.
  - exists s. assert (IsDone s = true) as Hd. { unfold IsDone. rewrite Hu. cbn [isSome negb]. rewrite andb_true_r. apply Z.leb_le. apply (f_equal length) in Hl. rewrite length_drop in Hl. cbn in Hl. unfold len. lia. }
    injection Hp as <-. rewrite app_nil_r. split; [|done]. destruct fuel; cbn [runLoop]; erewrite M_bind_Ok by done; cbn [fst]; by rewrite Hd.
  - assert (stages s !! cur = Some st) as Est by (rewrite <- (Nat.add_0_r cur), <- lookup_drop, Hl; done). pose proof (lookup_lt_Some _ _ _ Est) as Hlt.
    assert (drop (S cur) (stages s) = l) as Hl' by (rewrite <- Nat.add_1_r, <- drop_drop, Hl; done).
    destruct fuel as [|fuel]; [cbn in Hf; lia|]. cbn [length] in Hf. cbn [runLoop]. erewrite M_bind_Ok by done. cbn [fst]. unfold IsDone. rewrite Hu. rewrite (proj2 (Z.leb_gt _ _)) by (unfold len; lia). cbn [andb].
    cbn [pass] in Hp. case_bool_decide as Hid; [done|]. apply Decidable.not_or in Hid as [Hid1 Hid2].
    enough (exists s1 t1, runCurrent stopBefore stopAfter quiet fc false (s, t) = Ok (None, (s1, t1)) /\ unwindPoint s1 = None /\ pass fc l t1 = Some t') as (s1 & t1 & E1 & Hu1 & Hp1).
    { erewrite orErr_run by exact E1. destruct (runCurrent_inv _ _ _ _ _ (s, t) _ cur Hok Hc Hlt E1) as (st' & Est' & Hs & Hc1 & Hpp & Ht). cbn [fst] in *. assert (st' = st) as -> by congruence. pose proof Hs as (Es & _).
      destruct (IH fuel s1 t1 (S cur) (sync_ok_same _ _ Hs Hok) Hc1 Hu1 ltac:(by rewrite Es) Hp1 ltac:(lia)) as (s2 & E2 & Hs2 & Hu2 & Hpp2 & Ht2). exists s2. split; [done|]. split; [by eapply same_trans|]. split; [done|].
      split; [congruence|]. rewrite Ht2, Ht, <- app_assoc. by rewrite <- ran_app. }
    unfold runCurrent. erewrite M_bind_Ok by done. cbn [fst]. erewrite M_bind_Ok by (unfold noting, lookupZ; rewrite Hc, (proj2 (Z.ltb_ge _ _)), Nat2Z.id, Est by lia; done). rewrite bool_decide_false by done.
    destruct (Disabled st); [eexists _, _; split; [done|]; by split|]. destruct (Forward st) as [f|]; [|eexists _, _; split; [done|]; by split].
    destruct (GetStageProgress (ID st) t) as [e|n] eqn:En; [done|]. destruct (f fc false _ quiet t) as [[[[|] [|]] t1]| | |] eqn:Ef; try done.
    assert (exists q, LogPrefix s = Ok q) as [q Eq].
    { unfold LogPrefix, lookupZ. rewrite Hc, (proj2 (Z.ltb_ge _ _)), Nat2Z.id by lia. destruct (lookup_lt_is_Some_2 (logPrefixes s) cur) as [q ->]; [by rewrite (sync_prefixes _ Hok)|by exists q]. }
    assert (runStage st f fc false quiet (s, t) = Ok (None, (set_timings (timings s ++ [mk_Timing isForward (ID st)]) s, t1))) as Er.
    { unfold runStage. erewrite M_bind_Ok by done. cbn [snd]. rewrite En. unfold mbind at 1, M_bind at 1, onTx. cbn [snd]. rewrite Ef. cbn [mbind outcome_bind fst snd]. erewrite M_bind_Ok by done. cbn [foldl fst snd].
      erewrite M_bind_Ok by done. erewrite M_bind_Ok by (unfold noting; cbn [fst]; rewrite Eq; done). done. }
    erewrite orErr_run by exact Er. rewrite bool_decide_false by done. eexists _, t1. split; [done|]. split; [done|exact Hp].
Qed.

(** Without failures and unwinds a run executes the pass from the current stage,
    and nothing else. *)
Theorem Run_pass fuel fc s t t' cur : sync_ok s -> currentStage s = Z.of_nat cur -> unwindPoint s = None ->
  pass fc (drop cur (stages s)) t = Some t' -> (length (stages s) <= fuel)%nat ->
  exists s', Run stopBefore stopAfter quiet fuel fc (s, t) = Ok (None, (s', t')) /\ currentStage s' = 0 /\ timings s' = ran (drop cur (stages s)).
Proof.
  intros Hok Hc Hu Hp Hf. unfold Run. erewrite M_bind_Ok by done. cbn [fst snd]. set (s0 := set_timings _ _). assert (sync_ok s0) as Hok0 by (by apply (sync_ok_same s)).
  destruct (runLoop_pass fc t' _ fuel s0 t cur Hok0 Hc Hu eq_refl Hp) as (s1 & E1 & Hs & _ & _ & Ht); [rewrite length_drop; cbn; lia|]. erewrite orErr_run by exact E1.
  pose proof (sync_ok_same _ _ Hs Hok0) as [Hne _ _ _ _]. destruct (stages s1) as [|st l] eqn:El; [done|]. erewrite orErr_run by (apply (backToFirst_Ok _ st l); exact El). eexists. split; [done|]. split; [done|]. exact Ht.
Qed.

(** A stage that fails ends the run with its error behind the prefix of the
    stage, and the Sync stays at that stage: the next run takes it up again. *)
Theorem Run_error fuel fc s t cur st f n e t1 q : sync_ok s -> currentStage s = Z.of_nat cur -> unwindPoint s = None ->
  stages s !! cur = Some st -> Disabled st = false -> Forward st = Some f -> ID st <> stopBefore -> logPrefixes s !! cur = Some q ->
  GetStageProgress (ID st) t = inr n -> f fc false (mk_StageState (ID st) n) quiet t = Ok (([], Some e), t1) ->
  exists s', Run stopBefore stopAfter quiet (S fuel) fc (s, t) = Ok (Some (Wrapped q e), (s', t1)) /\ currentStage s' = Z.of_nat cur /\ unwindPoint s' = None /\ timings s' = [].
Proof.
  intros Hok Hc Hu Est Hd Hf Hid Hq En Ef. unfold Run. erewrite M_bind_Ok by done. cbn [fst snd]. set (s0 := set_timings _ _). pose proof (lookup_lt_Some _ _ _ Est) as Hlt.
  assert (runCurrent stopBefore stopAfter quiet fc false (s0, t) = Ok (Some (Wrapped q e), (s0, t1))) as E1.
  { assert (LogPrefix s0 = Ok q) as Eq by (unfold LogPrefix, lookupZ; change (currentStage s0) with (currentStage s); change (logPrefixes s0) with (logPrefixes s); rewrite Hc, (proj2 (Z.ltb_ge _ _)), Nat2Z.id, Hq by lia; done).
    assert (runStage st f fc false quiet (s0, t) = Ok (Some (Wrapped q e), (s0, t1))) as Er.
    { unfold runStage. erewrite M_bind_Ok by done. cbn [snd]. rewrite En. unfold mbind at 1, M_bind at 1, onTx. cbn [snd]. rewrite Ef. cbn [mbind outcome_bind fst snd]. erewrite M_bind_Ok by done. cbn [foldl fst snd].
      unfold wrapped. erewrite M_bind_Ok by done. erewrite M_bind_Ok by (unfold noting; cbn [fst]; rewrite Eq; done). done. }
    unfold runCurrent. erewrite M_bind_Ok by done. cbn [fst]. change (stages s0) with (stages s). change (currentStage s0) with (currentStage s).
    erewrite M_bind_Ok by (unfold noting, lookupZ; rewrite Hc, (proj2 (Z.ltb_ge _ _)), Nat2Z.id, Est by lia; done). rewrite bool_decide_false, Hd, Hf by done. unfold orErr. erewrite M_bind_Ok by exact Er. done. }
  assert (runLoop stopBefore stopAfter quiet (S fuel) fc (s0, t) = Ok (Some (Wrapped q e), (s0, t1))) as E2.
  { cbn [runLoop]. erewrite M_bind_Ok by done. unfold IsDone. cbn [fst]. change (unwindPoint s0) with (unwindPoint s). rewrite Hu. change (stages s0) with (stages s). change (currentStage s0) with (currentStage s).
    rewrite (proj2 (Z.leb_gt _ _)) by (unfold len; lia). cbn [andb]. unfold orErr. erewrite M_bind_Ok by exact E1. done. }
  exists s0. split; [|done]. unfold orErr at 1. erewrite M_bind_Ok by exact E2. done.
Qed.

(** * Switches *)
(** Enabling what DisableAllStages returns undoes it, for stages that have
    names of their own. *)
Theorem Enable_after_DisableAll s : NoDup (map ID (stages s)) ->
  let '(ids, s1) := DisableAllStages s in EnableStages ids s1 = s /\ Forall (fun st => Disabled st = true) (stages s1).
Proof.
  intros Hnd. unfold DisableAllStages, EnableStages, switchStages. cbn [stages set_stages]. split; [|by apply Forall_forall; intros st Hst; apply in_map_iff in Hst as (? & <- & _)].
  destruct s as [p pp b l uo po c ts lp]. unfold set_stages. cbn [stages unwindPoint prevUnwindPoint badBlock unwindOrder pruningOrder currentStage timings logPrefixes] in *. f_equal.
  rewrite map_map. rewrite <- (map_id l) at 2. apply map_ext_in. intros st Hst. cbn [ID set_Disabled].
  assert (ID st ∈ map ID (filter (fun st => Disabled st = false) l) <-> Disabled st = false) as Hiff.
  { split.
    - intros Hin. apply list_elem_of_In, in_map_iff in Hin as (st' & Eid & Hin). apply list_elem_of_In, list_elem_of_filter in Hin as [Hd Hin]. apply list_elem_of_In in Hin.
      enough (st' = st) as <- by done. clear - Hnd Hin Hst Eid. induction l as [|x l IH]; [done|]. cbn [map] in Hnd. apply list.NoDup_cons in Hnd as [Hx Hnd].
      destruct Hin as [-> | Hin], Hst as [-> | Hst]; [done|..|by apply IH]; exfalso; apply Hx, list_elem_of_In; [rewrite Eid|rewrite <- Eid]; by apply in_map.
    - intros Hd. apply list_elem_of_In, in_map, list_elem_of_In, list_elem_of_filter. split; [done|]. by apply list_elem_of_In. }
  case_bool_decide as Hb; unfold set_Disabled; cbn; destruct st as [f u pr id d]; cbn in *; f_equal; [symmetry; by apply Hiff|]. destruct d; [done|]. exfalso. by apply Hb, Hiff.
Qed.
End theorems.

(** * New *)
Section new.
Context {T E : Type} {DB : StageDB T E}.
Implicit Types (l : list (@Stage T E)).

Lemma orderStages_spec order l : forall before m, (length order <= m)%nat ->
  orderStages order (length before) l (before ++ replicate m None) = Ok (before ++ map (fun id => findStage id l 0) order ++ replicate (m - length order) None).
Proof.
  induction order as [|id order IH]; intros before m Hm; [cbn; by rewrite Nat.sub_0_r|]. cbn [orderStages map length] in *. destruct m as [|m]; [lia|].
  assert (forall o, orderStages order (S (length before)) l (before ++ o :: replicate m None) = Ok (before ++ (o :: map (fun id => findStage id l 0) order) ++ replicate (S m - S (length order)) None)) as Hrest.
  { intros o. specialize (IH (before ++ [o]) m ltac:(lia)). rewrite length_app in IH. cbn [length] in IH. rewrite Nat.add_1_r, <- !app_assoc in IH. exact IH. }
  destruct (findStage id l 0) as [k|]; [|apply (Hrest None)]. rewrite (proj2 (Nat.ltb_lt _ _)) by (rewrite length_app; cbn; lia). rewrite <- (Hrest (Some k)). f_equal.
  replace (length before) with (length before + 0)%nat by lia. by rewrite insert_app_r.
Qed.

(** A new Sync is at its first stage and has nothing to unwind; its orders name
    the first stage with each identifier, and skip the identifiers that no stage
    has. *)
Theorem New_orders l uo po : l <> [] -> len l < 2 ^ 64 - 1 -> (length uo <= length l)%nat -> (length po <= length l)%nat ->
  exists s, New l uo po = Ok s /\ sync_ok s /\ stages s = l /\ currentStage s = 0 /\ unwindPoint s = None /\
    unwindOrder s = map (fun id => findStage id l 0) uo ++ replicate (length l - length uo) None /\
    pruningOrder s = map (fun id => findStage id l 0) po ++ replicate (length l - length po) None.
Proof.
  intros Hne Hl Huo Hpo. unfold New. pose proof (orderStages_spec uo l [] (length l) Huo) as E1. pose proof (orderStages_spec po l [] (length l) Hpo) as E2. cbn [app length] in E1, E2.
  rewrite E1. cbn [mbind outcome_bind]. rewrite E2. cbn [mbind outcome_bind]. eexists. split; [done|]. split; [|done].
  assert (forall ids m i, Some i ∈ map (fun id => findStage id l 0) ids ++ replicate m None -> (i < length l)%nat) as Hin.
  { intros ids m i Hi. apply elem_of_app in Hi as [Hi|Hi]; [|by apply elem_of_replicate in Hi as [? _]]. apply list_elem_of_In, in_map_iff in Hi as (id & Ef & _). apply findStage_spec in Ef as [? _]. lia. }
  split; cbn; [done|done|apply length_imap|apply Hin|apply Hin].
Qed.

Lemma findStage_ids id l l' i : map ID l = map ID l' -> findStage id l i = findStage id l' i.
Proof. revert l' i. induction l as [|st l IH]; intros [|st' l'] i El; try done. cbn in El. injection El as E1 E2. cbn. rewrite E1. case_bool_decide; [done|]. by apply IH. Qed.

(** The default stages in the default unwind order: the stages Snapshots and
    CumulativeIndex, at positions 0 and 2, are never unwound, and no stage is
    built for the name Translation. *)
Theorem default_unwind_order l : map ID l = DefaultStages_IDs ->
  exists s, New l DefaultUnwindOrder DefaultPruneOrder = Ok s /\
    unwindOrder s = map Some [14; 13; 12; 11; 10; 9; 7; 8]%nat ++ [None] ++ map Some [6; 5; 4; 3; 1]%nat ++ [None] /\
    ~ Some 0%nat ∈ unwindOrder s /\ ~ Some 2%nat ∈ unwindOrder s.
Proof.
  intros El. assert (length l = 15%nat) as Hl by (rewrite <- (length_map ID l), El; done).
  destruct (New_orders l DefaultUnwindOrder DefaultPruneOrder) as (s & Es & _ & _ & _ & _ & Eu & _); [by destruct l|unfold len; lia|cbn; lia..|].
  set (l' := map (fun id => mk_Stage (T := T) (E := E) None None None id false) DefaultStages_IDs). assert (map ID l = map ID l') as El' by (rewrite El; done).
  assert (unwindOrder s = map Some [14; 13; 12; 11; 10; 9; 7; 8]%nat ++ [None] ++ map Some [6; 5; 4; 3; 1]%nat ++ [None]) as Eo.
  { rewrite Eu, Hl. rewrite (map_ext _ (fun id => findStage id l' 0)) by (intros id; by apply findStage_ids). vm_compute. reflexivity. }
  exists s. split; [done|]. split; [done|]. rewrite Eo. split; intros Hin; apply list_elem_of_In in Hin; cbn in Hin; intuition discriminate.
Qed.
End new.

(** * A concrete pipeline *)
Module syncdemo.
Definition table : Type := list (string * list Byte.byte).

Fixpoint find (k : string) (t : table) : list Byte.byte :=
  match t with
  | [] => []
  | (k', v) :: t => if bool_decide (k = k') then v else find k t
  end.

#[global] Instance tableDB : StageDB table unit := { GetOne k t := inr (find k t); Put k v t := (None, (k, v) :: t) }.

#[global] Instance tableDB_spec : StageDBSpec table unit tableDB.
Proof.
  split; cbn.
  - intros k v t t' [= <-]. cbn. by rewrite bool_decide_true.
  - intros k k' v t t' Hne [= <-]. cbn. by rewrite bool_decide_false by congruence.
Qed.

Definition unwindDone : @UnwindFunc table unit := fun _ u _ => UnwindState_Done u.

(** Headers goes to block 2000; Senders goes to 1700 and asks once for an unwind
    to 1500. *)
Definition headers : @Stage table unit := mk_Stage
  (Some (fun _ _ s _ => if BlockNumber s =? 0 then err ← StageState_Update s 2000; mret ([], err) else mret ([], None)))
  (Some unwindDone) None "Headers" false.

Definition senders : @Stage table unit := mk_Stage
  (Some (fun _ _ s _ t => if bool_decide (find "unwound" t = []) then
           r ← StageState_Update s 1700 (("unwound", [Byte.x01]) :: t); Ok (([(1500, 0%N)], r.1), r.2)
         else Ok (([], None), t)))
  (Some unwindDone) None "Senders" false.

Definition finish : @Stage table unit := mk_Stage (Some (fun _ _ _ _ => mret ([], None))) None None "Finish" true.

Definition pipeline : @Sync table unit := mk_Sync None None 0%N [headers; senders; finish] [Some 2%nat; Some 1%nat; Some 0%nat] [None; None; None] 0 []
  ["1/3 Headers"; "2/3 Senders"; "3/3 Finish"].

Lemma pipeline_ok : sync_ok pipeline.
Proof.
  split; try done; cbn; intros i Hi; apply list_elem_of_In in Hi; cbn in Hi; [|intuition discriminate]. destruct Hi as [[= <-] | [[= <-] | [[= <-] | []]]]; lia.
Qed.

Lemma New_orders_witness :
  exists s, New [headers; senders; finish] ["Finish"; "Senders"; "Headers"] [] = Ok s /\ sync_ok s /\ stages s = [headers; senders; finish] /\ currentStage s = 0 /\ unwindPoint s = None /\
    unwindOrder s = [Some 2%nat; Some 1%nat; Some 0%nat] /\ pruningOrder s = [None; None; None].
Proof. apply (New_orders [headers; senders; finish] ["Finish"; "Senders"; "Headers"] []); [discriminate|reflexivity|cbn; lia..]. Defined.

Lemma default_unwind_order_witness :
  exists s, New (map (fun id => mk_Stage (T := table) (E := unit) None None None id false) DefaultStages_IDs) DefaultUnwindOrder DefaultPruneOrder = Ok s /\
    unwindOrder s = map Some [14; 13; 12; 11; 10; 9; 7; 8]%nat ++ [None] ++ map Some [6; 5; 4; 3; 1]%nat ++ [None] /\
    ~ Some 0%nat ∈ unwindOrder s /\ ~ Some 2%nat ∈ unwindOrder s.
Proof. apply (default_unwind_order (map (fun id => mk_Stage (T := table) (E := unit) None None None id false) DefaultStages_IDs)). reflexivity. Defined.

Lemma stage_progress_roundtrip_witness :
  GetStageProgress (E := unit) "Headers" [("Headers", marshalData 2000)] = inr 2000 /\
  (forall id', id' <> "Headers" -> GetStageProgress (E := unit) id' [("Headers", marshalData 2000)] = GetStageProgress id' ([] : table)) /\
  (forall id', String.append "prune_" id' <> "Headers" -> GetStagePruneProgress (E := unit) id' [("Headers", marshalData 2000)] = GetStagePruneProgress id' ([] : table)).
Proof. apply (stage_progress_roundtrip (E := unit) "Headers" 2000 ([] : table) [("Headers", marshalData 2000)]); [split; [discriminate|reflexivity]|reflexivity]. Defined.

(** The unwind of both stages, as the run below meets it. *)
Definition before : table := [("Senders", marshalData 1700); ("unwound", [Byte.x01]); ("Headers", marshalData 2000)].
Definition after : table := ("Headers", marshalData 1500) :: ("Senders", marshalData 1500) :: before.

Lemma unwindDone_Done st f fc u ssn (t1 t2 : table) : In st [headers; senders; finish] -> Unwind st = Some f -> is_u64 (UnwindPoint u) -> us_ID u = ID st -> f fc u ssn t1 = Ok (None, t2) ->
  GetStageProgress (ID st) t2 = inr (UnwindPoint u) /\ forall id, id <> ID st -> GetStageProgress id t2 = GetStageProgress id t1.
Proof.
  intros Hin Hf Hu Hid Ef. assert (f = unwindDone) as -> by (destruct Hin as [<- | [<- | [<- | []]]]; cbn in Hf; congruence). rewrite <- Hid. by apply getProgress_save.
Qed.

(** A result without an error whose parts pass a test; the test is evaluated, the
    stages in the result are not. *)
Definition ends (test : @Sync table unit -> table -> bool) (o : outcome (option (SyncError unit) * @W table unit)) : bool :=
  match o with Ok (None, (s, t)) => test s t | _ => false end.

Lemma ends_inv test o : ends test o = true -> exists s t, o = Ok (None, (s, t)) /\ test s t = true.
Proof. destruct o as [[[|] [s t]]| | |]; try done. intros H. by exists s, t. Qed.

Definition standsAt (id : SyncStage) (n : Z) (t : table) : bool := match GetStageProgress (E := unit) id t with inr m => m =? n | inl _ => false end.


(** Headers, Senders, the unwind of both, and the pass again. *)
Lemma Run_last_pass_witness :
  exists s' t', Run "" "" false 20 true (pipeline, []) = Ok (None, (s', t')) /\
    map t_stage (timings s') = ["Headers"; "Senders"; "Senders"; "Headers"; "Headers"; "Senders"]%string /\
    stages s' = stages pipeline /\ currentStage s' = 0 /\ unwindPoint s' = None /\
    ((prevUnwindPoint s' = None /\ timings s' = ran (drop 0 (stages pipeline))) \/ (prevUnwindPoint s' <> None /\ exists pre, timings s' = pre ++ ran (stages pipeline))).
Proof.
  assert (ends (fun s _ => bool_decide (map t_stage (timings s) = ["Headers"; "Senders"; "Senders"; "Headers"; "Headers"; "Senders"]%string)) (Run "" "" false 20 true (pipeline, [])) = true) as He by (vm_compute; reflexivity).
  apply ends_inv in He as (s' & t' & Er & Ht). apply bool_decide_eq_true in Ht. exists s', t'. split; [exact Er|]. split; [exact Ht|].
  exact (Run_last_pass "" "" false 20 true pipeline [] s' t' 0 pipeline_ok eq_refl Er).
Defined.

(** Senders asks once. *)
Definition asks (t : table) : nat := if bool_decide (find "unwound" t = []) then 1%nat else 0%nat.

Lemma asks_save k n t : (asks ((k, marshalData n) :: t) <= asks t)%nat.
Proof. unfold asks. cbn [find]. destruct (bool_decide ("unwound" = k)); [|done]. rewrite bool_decide_false; [lia|]. unfold marshalData. intros H. apply (f_equal length) in H. by rewrite length_be_split in H. Qed.

Lemma Run_terminates_witness : exists r w, Run "" "" false 20 true (pipeline, []) = Ok (r, w).
Proof.
  apply (Run_terminates "" "" false asks 20 true pipeline [] 0 pipeline_ok eq_refl).
  - intros st f fc bb sst q t Hin Hf. destruct Hin as [<- | [<- | [<- | []]]]; injection Hf as <-.
    + destruct (BlockNumber sst =? 0); eexists _, _, _; (split; [reflexivity|]); cbn [bool_decide]; rewrite bool_decide_true, Nat.add_0_r by done; [apply asks_save|done].
    + destruct (decide (find "unwound" t = [])) as [Eu|Eu].
      * rewrite bool_decide_true by done. eexists _, _, _. split; [reflexivity|]. rewrite bool_decide_false by done. etrans; [apply Nat.add_le_mono_r, asks_save|]. unfold asks. by rewrite Eu.
      * rewrite bool_decide_false by done. eexists _, _, _. split; [reflexivity|]. rewrite bool_decide_true by done. lia.
    + eexists _, _, _. split; [reflexivity|]. rewrite bool_decide_true by done. lia.
  - intros st f fc u sst t Hin Hf. assert (f = unwindDone) as -> by (destruct Hin as [<- | [<- | [<- | []]]]; cbn in Hf; congruence). eexists _, _. split; [reflexivity|]. apply asks_save.
  - cbn. lia.
Defined.

(** Once the unwind is over, a run is one pass. *)
Lemma Run_pass_witness :
  pass "" "" false true (stages pipeline) after = Some after /\
  exists s', Run "" "" false 3 true (pipeline, after) = Ok (None, (s', after)) /\ currentStage s' = 0 /\ timings s' = ran (drop 0 (stages pipeline)).
Proof.
  split; [vm_compute; reflexivity|]. apply (Run_pass "" "" false 3 true pipeline after after 0 pipeline_ok eq_refl eq_refl); [vm_compute; reflexivity|cbn; lia].
Defined.

Definition broken : @Stage table unit := mk_Stage (Some (fun _ _ _ _ => mret ([], Some (StageError tt)))) None None "Bodies" false.
Definition brokenPipeline : @Sync table unit := mk_Sync None None 0%N [headers; broken] [None; None] [None; None] 1 [] ["1/2 Headers"; "2/2 Bodies"].

Lemma brokenPipeline_ok : sync_ok brokenPipeline.
Proof. split; try done; cbn; intros i Hi; apply list_elem_of_In in Hi; cbn in Hi; intuition discriminate. Qed.

Lemma Run_error_witness :
  exists s', Run "" "" false 5 true (brokenPipeline, []) = Ok (Some (Wrapped "2/2 Bodies" (StageError tt)), (s', [])) /\ currentStage s' = 1 /\ unwindPoint s' = None /\ timings s' = [].
Proof.
  apply (Run_error "" "" false 4 true brokenPipeline [] 1 broken (fun _ _ _ _ => mret ([], Some (StageError tt))) 0 (StageError tt) [] "2/2 Bodies" brokenPipeline_ok); (reflexivity || discriminate).
Defined.

Lemma Enable_after_DisableAll_witness :
  let '(ids, s1) := DisableAllStages pipeline in EnableStages ids s1 = pipeline /\ Forall (fun st => Disabled st = true) (stages s1).
Proof. apply (Enable_after_DisableAll pipeline). repeat constructor; intros H; apply list_elem_of_In in H; cbn in H; intuition discriminate. Defined.
End syncdemo.
