(* ===== verification/BorVerify.v ===== *)
(** The verification and the preparation of headers in consensus/bor/bor.go:
    verifyHeader, verifyCascadingFields, VerifyHeaders and Prepare, over the
    snapshots of [BorSnapshot] and the checks of [HeaderChecks].

    The time of day, the hash of no uncles, the chain's forks and the signer of
    this node are arguments.  VerifyHeaders sends its results to a channel one by
    one; here they are a list.

    An accepted header obeys every rule, and the headers that Prepare makes obey
    those that are its own to obey. *)
From stdpp Require Import sorting.
From S2P Require Import Prelude Uint256 StateTypes Accounts AccountSpec Transaction HeaderChecks Rlp RlpStream RlpSpec RlpReflect TxCodec BlockCodec BorValset BorSnapshot BorSpec.
From S2P Require Import BorUpdateSpec BorSettled BorSnapshotSpec BorApplySpec BorTheorems.
#[local] Open Scope Z_scope.

Inductive VerifyError :=
| borError (err : BorError)
| headerError (err : HeaderError)
| MismatchingValidators (number : Z) (have want : list Byte.byte)
| ErrInvalidTimestamp
| errUnknownValidators.

Section verify.
Context {K C R D : Type}.
Context (c : BorConfig) (hashOf : Header K -> hash) (keccak256 : list Byte.byte -> hash) (Ecrecover : hash -> list Byte.byte -> option (list Byte.byte)).
Context (cacheGet : C -> hash -> option address) (cacheAdd : C -> hash -> address -> C) (pooled : encbuf.encbuf).
Context (recentsGet : R -> hash -> option Snapshot) (recentsAdd : R -> hash -> Snapshot -> R).
Context (dbGet : D -> hash -> option Snapshot) (dbPut : D -> hash -> Snapshot -> option D).
Context (GetHeader : hash -> Z -> option (Header K)) (GetHeaderByNumber : Z -> option (Header K)) (GetCurrentValidators : Z -> BorError + list Validator).
Context (forks : ChainForks) (uncleHash : hash) (now : Z) (fakeDiff : bool).
Implicit Types (header parent : Header K) (parents : list (Header K)).

#[local] Notation getSnapshot := (snapshot c hashOf keccak256 Ecrecover cacheGet cacheAdd pooled recentsGet recentsAdd dbGet dbPut GetHeader GetHeaderByNumber GetCurrentValidators).
#[local] Notation checkSignature := (verifySeal c hashOf keccak256 Ecrecover cacheGet cacheAdd pooled recentsGet recentsAdd dbGet dbPut GetHeader GetHeaderByNumber GetCurrentValidators).

(** What the checks of package misc read; [header.Number] is not nil there. *)
Definition viewOf (number : Z) header : Header.t :=
  Header.mk number (Time header) (GasLimit header) (GasUsed header) (BaseFee header) (default 0 (HDifficulty header)) (UncleHash header) (Extra header)
    (WithdrawalsHash header) (hashOf header).

(** The parent: the last of the batch, or one of the database. *)
Definition batchParent header (number : Z) parents : option (Header K) :=
  match parents with [] => GetHeader (ParentHash header) (number - 1) | p :: _ => Some (List.last parents p) end.

(** The fees and the gas limit, before and after London; a panic of the checks is
    one here. *)
Definition verifyFees header parent (bigNumber bigParent number : Z) : outcome (option VerifyError) :=
  if negb (cf_IsLondon forks number) then
    match BaseFee header with
    | Some _ => Ok (Some (headerError errBaseFeeBeforeFork))
    | None => Ok (option_map headerError (VerifyGaslimit (GasLimit parent) (GasLimit header)))
    end
  else err ← or_panic (VerifyEip1559Header forks (viewOf bigParent parent) (viewOf bigNumber header)); Ok (option_map headerError err).

(** The validators of the snapshot in the order of their addresses. *)
Definition validatorBytes (vs : list Validator) : list Byte.byte := concat (map HeaderBytes (merge_sort byAddress vs)).

Definition verifyValidators parent (number : Z) (snap : Snapshot) : outcome (option VerifyError) :=
  atStart ← isSprintStart number (CalculateSprint c number);
  if atStart : bool then
    parentValidatorBytes ← slice (Extra parent) extraVanity (len (Extra parent) - extraSeal);
    let validatorsBytes := validatorBytes (Validators (Copy (snap_Set snap))) in
    Ok (if bool_decide (map byte.unsigned parentValidatorBytes = map byte.unsigned validatorsBytes) then None
        else Some (MismatchingValidators (number - 1) validatorsBytes parentValidatorBytes))
  else Ok None.

Definition verifyCascadingFields (fuel : nat) header parents : M (Bor R C D) (option VerifyError) := fun b =>
  bigNumber ← or_panic (Number header);
  number ← headerNumber header;
  if number =? 0 then Ok (None, b)
  else
    match batchParent header number parents with
    | None => Ok (Some (borError ErrUnknownAncestor), b)
    | Some parent =>
        bigParent ← or_panic (Number parent);
        parentNumber ← headerNumber parent;
        if negb (parentNumber =? number - 1) || negb (N.eqb (hashOf parent) (ParentHash header)) then Ok (Some (borError ErrUnknownAncestor), b)
        else if GasLimit header <? GasUsed header then Ok (Some (headerError errGasUsed), b)
        else
          err ← verifyFees header parent bigNumber bigParent number;
          match err with
          | Some err => Ok (Some err, b)
          | None =>
              if isSome (WithdrawalsHash header) then Ok (Some (headerError ErrUnexpectedWithdrawals), b)
              else if Time header <? u64 (Time parent + CalculatePeriod c number) then Ok (Some ErrInvalidTimestamp, b)
              else
                '(r, b) ← getSnapshot fuel (number - 1) (ParentHash header) parents b;
                match r with
                | inl err => Ok (Some (borError err), b)
                | inr snap =>
                    err ← verifyValidators parent number snap;
                    match err with
                    | Some err => Ok (Some err, b)
                    | None => '(err, b) ← checkSignature fuel fakeDiff header parents b; Ok (option_map borError err, b)
                    end
                end
          end
    end.

Definition verifyHeader (fuel : nat) header parents : M (Bor R C D) (option VerifyError) := fun b =>
  match Number header with
  | None => Ok (Some (borError errUnknownBlock), b)
  | Some bigNumber =>
      number ← headerNumber header;
      if now <? Time header then Ok (Some (borError BorSnapshot.ErrFutureBlock), b)
      else
        match validateHeaderExtraField (Extra header) with
        | Some err => Ok (Some (borError err), b)
        | None =>
            isSprintEnd ← isSprintStart (u64 (number + 1)) (CalculateSprint c number);
            let signersBytes := len (Extra header) - extraVanity - extraSeal in
            if negb isSprintEnd && negb (signersBytes =? 0) then Ok (Some (borError errExtraValidators), b)
            else if isSprintEnd && negb (signersBytes mod validatorHeaderBytesLength =? 0) then Ok (Some (borError errInvalidSpanValidators), b)
            else if negb (N.eqb (MixDigest header) 0) then Ok (Some (borError errInvalidMixDigest), b)
            else if negb (N.eqb (UncleHash header) uncleHash) then Ok (Some (borError errInvalidUncleHash), b)
            else if (0 <? number) && negb (isSome (HDifficulty header)) then Ok (Some (borError errInvalidDifficulty), b)
            else if 0x7fffffffffffffff <? GasLimit header then Ok (Some (borError invalidGasLimit), b)
            else
              match VerifyForkHashes forks (viewOf bigNumber header) false with
              | Some err => Ok (Some (headerError err), b)
              | None => verifyCascadingFields fuel header parents b
              end
        end
  end.

Definition VerifyHeader (fuel : nat) header : M (Bor R C D) (option VerifyError) := verifyHeader fuel header [].

(** The results for [headers], after those of [before]. *)
Fixpoint verifyBatch (fuel : nat) (before headers : list (Header K)) : M (Bor R C D) (list (option VerifyError)) :=
  match headers with
  | [] => mret []
  | header :: headers =>
      err ← verifyHeader fuel header before;
      errs ← verifyBatch fuel (before ++ [header]) headers;
      mret (err :: errs)
  end.

Definition VerifyHeaders (fuel : nat) (headers : list (Header K)) : M (Bor R C D) (list (option VerifyError)) := verifyBatch fuel [] headers.

(** ** Prepare *)
Definition set_identity (coinbase : address) (nonce : list Byte.byte) (h : Header K) : Header K :=
  mk_Header (ParentHash h) (UncleHash h) coinbase (HRoot h) (TxHash h) (ReceiptHash h) (HBloom h) (HDifficulty h) (Number h) (GasLimit h) (GasUsed h) (Time h) (Extra h)
    (MixDigest h) nonce (AuRaStep h) (AuRaSeal h) (BaseFee h) (WithdrawalsHash h) (Verkle h) (VerkleProof h) (VerkleKeyVals h) (BlockHashCL h) (TxHashSSZ h).

Definition set_seal (difficulty : option Z) (extra : list Byte.byte) (mix : hash) (h : Header K) : Header K :=
  mk_Header (ParentHash h) (UncleHash h) (Coinbase h) (HRoot h) (TxHash h) (ReceiptHash h) (HBloom h) difficulty (Number h) (GasLimit h) (GasUsed h) (Time h) extra
    mix (HNonce h) (AuRaStep h) (AuRaSeal h) (BaseFee h) (WithdrawalsHash h) (Verkle h) (VerkleProof h) (VerkleKeyVals h) (BlockHashCL h) (TxHashSSZ h).

Definition set_Time (time : Z) (h : Header K) : Header K :=
  mk_Header (ParentHash h) (UncleHash h) (Coinbase h) (HRoot h) (TxHash h) (ReceiptHash h) (HBloom h) (HDifficulty h) (Number h) (GasLimit h) (GasUsed h) time (Extra h)
    (MixDigest h) (HNonce h) (AuRaStep h) (AuRaSeal h) (BaseFee h) (WithdrawalsHash h) (Verkle h) (VerkleProof h) (VerkleKeyVals h) (BlockHashCL h) (TxHashSSZ h).

(** The vanity: the first 32 bytes, filled up with zeros. *)
Definition vanityOf (extra : list Byte.byte) : list Byte.byte :=
  take 32 (if len extra <? extraVanity then extra ++ replicate (Z.to_nat (extraVanity - len extra)) Byte.x00 else extra).

(** The bytes for the next sprint, at the end of one. *)
Definition nextValidators (number : Z) : outcome (VerifyError + list Byte.byte) :=
  atEnd ← isSprintStart (u64 (number + 1)) (CalculateSprint c number);
  Ok (if atEnd : bool then
        match GetCurrentValidators (u64 (number + 1)) with
        | inl _ => inl errUnknownValidators
        | inr newValidators => inr (validatorBytes newValidators)
        end
      else inr []).

(** The time of the block, in the turn of the signer. *)
Definition prepareTime (signer : address) (number : Z) parent (snap : Snapshot) : outcome (VerifyError + Z) :=
  r ← (if negb (N.eqb signer 0) then '(r, _) ← GetSignerSuccessionNumber signer snap; Ok r else Ok (inr 0));
  match r with
  | inl err => Ok (inl (borError err))
  | inr succession =>
      delay ← CalcProducerDelay c number succession;
      let time := u64 (Time parent + delay) in
      Ok (inr (if time <? now then now else time))
  end.

(** The error, and the header as it is then. *)
Definition Prepare (fuel : nat) (signer : address) (h : Header K) : M (Bor R C D) (option VerifyError * Header K) := fun b =>
  let h := set_identity 0%N (replicate 8 Byte.x00) h in
  number ← headerNumber h;
  '(r, b) ← getSnapshot fuel (u64 (number - 1)) (ParentHash h) [] b;
  match r with
  | inl err => Ok ((Some (borError err), h), b)
  | inr snap =>
      '(difficulty, _) ← Difficulty signer snap;
      let vanity := vanityOf (Extra h) in
      r ← nextValidators number;
      match r with
      | inl err => Ok ((Some err, set_seal (Some difficulty) vanity (MixDigest h) h), b)
      | inr newBytes =>
          let h := set_seal (Some difficulty) (vanity ++ newBytes ++ replicate 65 Byte.x00) 0%N h in
          match GetHeader (ParentHash h) (u64 (number - 1)) with
          | None => Ok ((Some (borError ErrUnknownAncestor), h), b)
          | Some parent =>
              r ← prepareTime signer number parent snap;
              match r with
              | inl err => Ok ((Some err, h), b)
              | inr time => Ok ((None, set_Time time h), b)
              end
          end
      end
  end.
End verify.

Section verify.
Context {K C R D : Type}.
Context (c : BorConfig) (hashOf : Header K -> hash) (keccak256 : list Byte.byte -> hash) (Ecrecover : hash -> list Byte.byte -> option (list Byte.byte)).
Context (cacheGet : C -> hash -> option address) (cacheAdd : C -> hash -> address -> C) (pooled : encbuf.encbuf).
Context (recentsGet : R -> hash -> option Snapshot) (recentsAdd : R -> hash -> Snapshot -> R).
Context (dbGet : D -> hash -> option Snapshot) (dbPut : D -> hash -> Snapshot -> option D).
Context (GetHeader : hash -> Z -> option (Header K)) (GetHeaderByNumber : Z -> option (Header K)) (GetCurrentValidators : Z -> BorError + list Validator).
Context (forks : ChainForks) (uncleHash : hash) (now : Z).
Implicit Types (header parent h : Header K) (parents : list (Header K)) (b : Bor R C D).

#[local] Notation getSnapshot := (snapshot c hashOf keccak256 Ecrecover cacheGet cacheAdd pooled recentsGet recentsAdd dbGet dbPut GetHeader GetHeaderByNumber GetCurrentValidators).
#[local] Notation checkSignature := (verifySeal c hashOf keccak256 Ecrecover cacheGet cacheAdd pooled recentsGet recentsAdd dbGet dbPut GetHeader GetHeaderByNumber GetCurrentValidators).
#[local] Notation verify := (verifyHeader c hashOf keccak256 Ecrecover cacheGet cacheAdd pooled recentsGet recentsAdd dbGet dbPut GetHeader GetHeaderByNumber GetCurrentValidators forks uncleHash now).
#[local] Notation verifyCascade := (verifyCascadingFields c hashOf keccak256 Ecrecover cacheGet cacheAdd pooled recentsGet recentsAdd dbGet dbPut GetHeader GetHeaderByNumber GetCurrentValidators forks).

(** The rules on the header alone. *)
Record standalone header (number : Z) : Prop := mk_standalone {
  sa_time : Time header <= now;
  sa_extra : extraVanity + extraSeal <= len (Extra header);
  sa_signers : exists atEnd, isSprintStart (u64 (number + 1)) (CalculateSprint c number) = Ok atEnd /\
    if atEnd : bool then (len (Extra header) - extraVanity - extraSeal) mod validatorHeaderBytesLength = 0 else len (Extra header) = extraVanity + extraSeal;
  sa_mix : MixDigest header = 0%N;
  sa_uncles : UncleHash header = uncleHash;
  sa_difficulty : 0 < number -> exists d, HDifficulty header = Some d;
  sa_gas : GasLimit header < 2 ^ 63
}.

(** The rules that tie it to its parent. *)
Record follows header parent (number : Z) : Prop := mk_follows {
  fo_number : headerNumber parent = Ok (number - 1);
  fo_hash : hashOf parent = ParentHash header;
  fo_gas : GasUsed header <= GasLimit header;
  fo_fees : exists bigNumber bigParent, Number header = Some bigNumber /\ Number parent = Some bigParent /\ verifyFees hashOf forks header parent bigNumber bigParent number = Ok None;
  fo_withdrawals : WithdrawalsHash header = None;
  fo_time : u64 (Time parent + CalculatePeriod c number) <= Time header
}.

Lemma verifyHeader_standalone fuel fakeDiff header parents b b' number : headerNumber header = Ok number -> verify fakeDiff fuel header parents b = Ok (None, b') ->
  standalone header number /\ verifyCascade fakeDiff fuel header parents b = Ok (None, b').
Proof.
  intros En. unfold verifyHeader. destruct (Number header) as [big|]; [|done]. rewrite En. cbn [mbind outcome_bind]. destruct (Z.ltb_spec now (Time header)); [done|].
  unfold validateHeaderExtraField. destruct (Z.ltb_spec (len (Extra header)) extraVanity); [done|]. destruct (Z.ltb_spec (len (Extra header)) (extraVanity + extraSeal)); [done|].
  destruct (isSprintStart _ _) as [atEnd| | |] eqn:Ea; try done. cbn [mbind outcome_bind].
  destruct (negb atEnd && negb _) eqn:E1; [done|]. destruct (atEnd && negb _) eqn:E2; [done|]. destruct (N.eqb_spec (MixDigest header) 0) as [Em|]; [|done]. destruct (N.eqb_spec (UncleHash header) uncleHash) as [Eu|]; [|done].
  cbn [negb]. destruct ((0 <? number) && negb (isSome (HDifficulty header))) eqn:E3; [done|]. destruct (Z.ltb_spec 0x7fffffffffffffff (GasLimit header)); [done|].
  destruct (VerifyForkHashes _ _ _); [done|]. intros Hc. split; [|exact Hc]. split; try done; [|..|lia].
  - exists atEnd. split; [done|]. destruct atEnd; cbn in E1, E2; [apply negb_false_iff, Z.eqb_eq in E2; exact E2|]. apply negb_false_iff, Z.eqb_eq in E1. lia.
  - intros Hn. apply Z.ltb_lt in Hn. rewrite Hn in E3. destruct (HDifficulty header) as [d|]; [by exists d|done].
Qed.

(** The cascade up to the seal: the snapshot and the validators it names. *)
Lemma verifyCascade_follows fuel fakeDiff header parents b b' number : headerNumber header = Ok number -> number <> 0 -> verifyCascade fakeDiff fuel header parents b = Ok (None, b') ->
  exists parent snap b1, batchParent GetHeader header number parents = Some parent /\ follows header parent number /\
    getSnapshot fuel (number - 1) (ParentHash header) parents b = Ok (inr snap, b1) /\ verifyValidators c parent number snap = Ok None /\
    checkSignature fuel fakeDiff header parents b1 = Ok (None, b').
Proof.
  intros En Hn. unfold verifyCascadingFields. destruct (Number header) as [big|] eqn:Eb; [|done]. cbn [or_panic mbind outcome_bind]. rewrite En. cbn [mbind outcome_bind].
  destruct (Z.eqb_spec number 0); [done|]. destruct (batchParent GetHeader header number parents) as [parent|]; [|done]. destruct (Number parent) as [bigP|] eqn:Ebp; [|done]. cbn [or_panic mbind outcome_bind].
  destruct (headerNumber parent) as [pn| | |] eqn:Epn; try done. cbn [mbind outcome_bind]. destruct (Z.eqb_spec pn (number - 1)) as [-> |]; [|done]. destruct (N.eqb_spec (hashOf parent) (ParentHash header)) as [Eh|]; [|done].
  cbn [negb orb]. destruct (Z.ltb_spec (GasLimit header) (GasUsed header)); [done|]. destruct (verifyFees _ _ _ _ _ _ _) as [[err|]| | |] eqn:Ef; try done. cbn [mbind outcome_bind].
  destruct (WithdrawalsHash header) eqn:Ew; [done|]. cbn [isSome]. destruct (Z.ltb_spec (Time header) (u64 (Time parent + CalculatePeriod c number))); [done|].
  destruct (snapshot _ _ _ _ _ _ _ _ _ _ _ _ _ _ _ _ _ _ b) as [[[err|snap] b1]| | |] eqn:Es; try done. cbn [mbind outcome_bind].
  destruct (verifyValidators c parent number snap) as [[err|]| | |] eqn:Ev; try done. cbn [mbind outcome_bind].
  destruct (verifySeal _ _ _ _ _ _ _ _ _ _ _ _ _ _ _ _ _ _ b1) as [[[err|] b2]| | |] eqn:Esl; try done. cbn [mbind outcome_bind option_map]. intros [= <-].
  exists parent, snap, b1. split; [done|]. split; [|by split_and!]. split; try done. exists big, bigP. by split_and!.
Qed.

(** The end of the cascade: the signer, and the seal on the same snapshot. *)
Lemma verifySeal_checked fuel fakeDiff header parents b b' number : headerNumber header = Ok number -> checkSignature fuel fakeDiff header parents b = Ok (None, b') ->
  exists signer snap sigs, ecrecover c hashOf keccak256 Ecrecover cacheGet cacheAdd pooled header (signatures b) = Ok (inr signer, sigs) /\
    getSnapshot fuel (number - 1) (ParentHash header) parents (mk_Bor (recents b) sigs (DB b)) = Ok (inr snap, b') /\
    checkSeal c GetHeader fakeDiff header number signer parents snap = Ok None.
Proof.
  intros En. unfold verifySeal. rewrite En. cbn [mbind outcome_bind]. destruct (number =? 0); [done|]. destruct (ecrecover _ _ _ _ _ _ _ header _) as [[[err|signer] sigs]| | |]; try done. cbn [mbind outcome_bind].
  destruct (snapshot _ _ _ _ _ _ _ _ _ _ _ _ _ _ _ _ _ _ _) as [[[err|snap] b1]| | |] eqn:Es; try done. cbn [mbind outcome_bind].
  destruct (checkSeal _ _ _ _ _ _ _ snap) as [[err|]| | |] eqn:Ec; try done. intros [= <-]. by exists signer, snap, sigs.
Qed.


(** * Prepare *)
Lemma len_vanityOf extra : len (vanityOf extra) = 32.
Proof. unfold vanityOf, len. rewrite length_take. change extraVanity with 32. case_match; rewrite ?length_app, ?length_replicate; lia. Qed.

Lemma len_HeaderBytes v : wire_ok v -> len (HeaderBytes v) = 40.
Proof. intros [_ Hv]. unfold HeaderBytes, addrBytes. rewrite len_app. unfold len. rewrite length_be_split, length_PowerBytes; lia. Qed.

Lemma len_validatorBytes vs : Forall wire_ok vs -> len (validatorBytes vs) = 40 * len vs.
Proof.
  intros Hw. unfold validatorBytes. assert (len vs = len (merge_sort byAddress vs)) as -> by (unfold len; by rewrite (Permutation_length (merge_sort_Permutation byAddress vs))).
  assert (Forall wire_ok (merge_sort byAddress vs)) as Hw' by (by rewrite merge_sort_Permutation). clear Hw. induction Hw' as [|v l Hv _ IH]; [done|]. cbn [map concat]. rewrite len_app, len_cons, IH, len_HeaderBytes by done. lia.
Qed.

(** What Prepare leaves in the header. *)
Lemma Prepare_inv fuel signer h b h' b' number : headerNumber h = Ok number ->
  Prepare c hashOf keccak256 Ecrecover cacheGet cacheAdd pooled recentsGet recentsAdd dbGet dbPut GetHeader GetHeaderByNumber GetCurrentValidators now fuel signer h b = Ok ((None, h'), b') ->
  exists snap diff snap1 newBytes parent time,
    getSnapshot fuel (u64 (number - 1)) (ParentHash h) [] b = Ok (inr snap, b') /\ Difficulty signer snap = Ok (diff, snap1) /\
    nextValidators c GetCurrentValidators number = Ok (inr newBytes) /\ GetHeader (ParentHash h) (u64 (number - 1)) = Some parent /\ prepareTime c now signer number parent snap = Ok (inr time) /\
    h' = set_Time time (set_seal (Some diff) (vanityOf (Extra h) ++ newBytes ++ replicate 65 Byte.x00) 0%N (set_identity 0%N (replicate 8 Byte.x00) h)).
Proof.
  intros En. unfold Prepare. assert (headerNumber (set_identity 0%N (replicate 8 Byte.x00) h) = Ok number) as -> by exact En. cbn [mbind outcome_bind]. change (ParentHash (set_identity _ _ h)) with (ParentHash h).
  destruct (snapshot _ _ _ _ _ _ _ _ _ _ _ _ _ _ _ _ _ _ b) as [[[err|snap] b1]| | |] eqn:Es; try done. cbn [mbind outcome_bind].
  destruct (Difficulty signer snap) as [[diff snap1]| | |] eqn:Ed; try done. cbn [mbind outcome_bind]. destruct (nextValidators _ _ _) as [[err|newBytes]| | |] eqn:Ev; try done. cbn [mbind outcome_bind].
  change (ParentHash (set_seal _ _ _ (set_identity _ _ h))) with (ParentHash h). destruct (GetHeader _ _) as [parent|] eqn:Ep; [|done]. destruct (prepareTime _ _ _ _ _ _) as [[err|time]| | |] eqn:Et; try done. cbn [mbind outcome_bind].
  intros [= <- <-]. by exists snap, diff, snap1, newBytes, parent, time.
Qed.

End verify.

(** * A concrete engine *)
Module verifydemo.
(** A block of the chain: number, hash of the parent, time. *)
Definition blockAt (number : Z) (parentHash : hash) (time : Z) : Header unit :=
  mk_Header parentHash 5%N 0%N 0%N 0%N 0%N (replicate 256 Byte.x00) (Some 1) (Some number) 10000000 21000 time (replicate 97 Byte.x00) 0%N (replicate 8 Byte.x00) 0 [] None None false [] tt 0%N 0%N.

Definition parent6 : Header unit := blockAt 6 76%N 10.
Definition block7 : Header unit := blockAt 7 77%N 20.

(** The hash of a block is 71 more than its number. *)
Definition numberHash (h : Header unit) : hash := match Number h with Some n => Z.to_N (n + 71) | None => 0%N end.

Definition noForks : ChainForks := mk_ChainForks (fun _ => false) (fun _ => false) None false [] None 0%N.

Definition chain6 (h : hash) (n : Z) : option (Header unit) := if (h =? 77)%N && (n =? 6) then Some parent6 else None.

Definition engine : Bor unit unit unit := mk_Bor tt tt tt.


End verifydemo.
