(* ===== verification/Clique.v ===== *)
(** The Clique consensus engine: consensus/clique/snapshot.go, verifier.go and the
    parts of clique.go that do not wait: the voting on signers, the snapshots,
    the verification of headers, Prepare and the difficulty.

    Maps are maps; what Go does in the order of a map's iteration (the search for
    a recent signer, the choice of a proposal) is a search or a choice here.  A
    snapshot is written to the database as JSON with all its fields.  The hash of
    a header, the curve, the caches, the database and the chain are arguments. *)
From stdpp Require Import sorting.
From S2P Require Import Prelude Uint256 StateTypes Accounts Transaction HeaderChecks Rlp RlpStream RlpReflect TxCodec BlockCodec BorValset BorSnapshot BorVerify.
#[local] Open Scope Z_scope.

Module clique.

Definition epochLength : Z := 30000.
Definition ExtraVanity : Z := 32.
Definition ExtraSeal : Z := 65.
Definition FullImmutabilityThreshold : Z := 90000.

Definition NonceAuthVote : list Byte.byte := replicate 8 Byte.xff.
Definition nonceDropVote : list Byte.byte := replicate 8 Byte.x00.

Definition DiffInTurn : Z := 2.
Definition diffNoTurn : Z := 1.

Inductive CliqueError :=
| errUnknownBlock | ErrFutureBlock | errInvalidCheckpointBeneficiary | errInvalidVote | errInvalidCheckpointVote | errMissingVanity | errMissingSignature
| errExtraSigners | errInvalidCheckpointSigners | errMismatchingCheckpointSigners | errInvalidMixDigest | errInvalidUncleHash | errInvalidDifficulty
| errWrongDifficulty | errInvalidTimestamp | errInvalidVotingChain | ErrUnauthorizedSigner | ErrRecentlySigned | ErrUnknownAncestor
| invalidGasLimit | headerError (err : HeaderError) | recoverError | databaseError.

Record CliqueConfig := mk_CliqueConfig { Period : Z; Epoch : Z }.

(** [conf.Epoch == 0] stands for the default. *)
Definition configured (conf : CliqueConfig) : CliqueConfig := if Epoch conf =? 0 then mk_CliqueConfig (Period conf) epochLength else conf.

(** * Snapshots *)
Record Vote := mk_Vote { Signer : address; Block : Z; Address : address; Authorize : bool }.
Record Tally := mk_Tally { t_Authorize : bool; t_Votes : Z }.

Record Snapshot := mk_Snapshot {
  Number : Z;
  Hash : hash;
  Signers : gset address;
  Recents : gmap Z address;
  Votes : list Vote;
  Tallies : gmap address Tally
}.

Definition set_Signers (x : gset address) (s : Snapshot) : Snapshot := mk_Snapshot (Number s) (Hash s) x (Recents s) (Votes s) (Tallies s).
Definition set_Recents (x : gmap Z address) (s : Snapshot) : Snapshot := mk_Snapshot (Number s) (Hash s) (Signers s) x (Votes s) (Tallies s).
Definition set_Votes (x : list Vote) (s : Snapshot) : Snapshot := mk_Snapshot (Number s) (Hash s) (Signers s) (Recents s) x (Tallies s).
Definition set_Tallies (x : gmap address Tally) (s : Snapshot) : Snapshot := mk_Snapshot (Number s) (Hash s) (Signers s) (Recents s) (Votes s) x.

Definition newSnapshot (number : Z) (h : hash) (signers : list address) : Snapshot := mk_Snapshot number h (list_to_set signers) ∅ [] ∅.

Definition validVote (a : address) (authorize : bool) (s : Snapshot) : bool :=
  let signer := bool_decide (a ∈ Signers s) in (signer && negb authorize) || (negb signer && authorize).

Definition cast (a : address) (authorize : bool) (s : Snapshot) : bool * Snapshot :=
  if negb (validVote a authorize s) then (false, s)
  else
    (true, set_Tallies (<[a := match Tallies s !! a with
                               | Some old => mk_Tally (t_Authorize old) (t_Votes old + 1)
                               | None => mk_Tally authorize 1
                               end]> (Tallies s)) s).

Definition uncast (a : address) (authorize : bool) (s : Snapshot) : bool * Snapshot :=
  match Tallies s !! a with
  | None => (false, s)
  | Some tally =>
      if negb (Bool.eqb (t_Authorize tally) authorize) then (false, s)
      else if 1 <? t_Votes tally then (true, set_Tallies (<[a := mk_Tally (t_Authorize tally) (t_Votes tally - 1)]> (Tallies s)) s)
      else (true, set_Tallies (delete a (Tallies s)) s)
  end.

(** [uint64(len(snap.Signers)/2 + 1)]. *)
Definition limitOf (s : Snapshot) : Z := Z.of_nat (base.size (Signers s)) / 2 + 1.

(** [if limit := ...; number >= limit { delete(snap.Recents, number-limit) }]. *)
Definition forgetOldest (number : Z) (s : Snapshot) : Snapshot :=
  if limitOf s <=? number then set_Recents (delete (number - limitOf s) (Recents s)) s else s.

(** Whether a signer is among the recent ones. *)
Definition signedRecently (signer : address) (s : Snapshot) : bool := existsb (fun r => N.eqb r.2 signer) (map_to_list (Recents s)).

(** The first vote of a signer on an address is uncast and removed. *)
Fixpoint withoutFirst (p : Vote -> bool) (votes : list Vote) : list Vote :=
  match votes with
  | [] => []
  | v :: votes => if p v then votes else v :: withoutFirst p votes
  end.

Definition discardVote (signer a : address) (s : Snapshot) : Snapshot :=
  let p v := N.eqb (Signer v) signer && N.eqb (Address v) a in
  match find p (Votes s) with
  | None => s
  | Some v => set_Votes (withoutFirst p (Votes s)) (uncast (Address v) (Authorize v) s).2
  end.

(** The loop over the votes that a signer cast: each is uncast and removed. *)
Definition discardBy (signer : address) (s : Snapshot) : Snapshot :=
  let s' := foldl (fun s v => if N.eqb (Signer v) signer then (uncast (Address v) (Authorize v) s).2 else s) s (Votes s) in
  set_Votes (filter (fun v => Signer v <> signer) (Votes s)) s'.

(** The loop over the votes on an address: each is removed. *)
Definition discardOn (a : address) (s : Snapshot) : Snapshot := set_Votes (filter (fun v => Address v <> a) (Votes s)) s.

(** [if tally := snap.Tally[header.Coinbase]; tally.Votes > len(snap.Signers)/2]. *)
Definition decide_ (number : Z) (a : address) (s : Snapshot) : Snapshot :=
  match Tallies s !! a with
  | None => s
  | Some tally =>
      if Z.of_nat (base.size (Signers s)) / 2 <? t_Votes tally then
        let s := if t_Authorize tally then set_Signers ({[a]} ∪ Signers s) s
                 else discardBy a (forgetOldest number (set_Signers (Signers s ∖ {[a]}) s)) in
        let s := discardOn a s in
        set_Tallies (delete a (Tallies s)) s
      else s
  end.

(** What a nonce asks for. *)
Definition voteOf (nonce : list Byte.byte) : option bool :=
  if bool_decide (map byte.unsigned nonce = map byte.unsigned NonceAuthVote) then Some true
  else if bool_decide (map byte.unsigned nonce = map byte.unsigned nonceDropVote) then Some false
  else None.

(** The vote of a block that [signer] signed. *)
Definition countVote (number : Z) (signer a : address) (authorize : bool) (s : Snapshot) : Snapshot :=
  let s := discardVote signer a s in
  let '(counted, s) := cast a authorize s in
  let s := if counted : bool then set_Votes (Votes s ++ [mk_Vote signer number a authorize]) s else s in
  decide_ number a s.

(** [snap.Votes = nil] and an empty tally, on checkpoint blocks. *)
Definition forgetVotes (s : Snapshot) : Snapshot := set_Tallies ∅ (set_Votes [] s).

(** One block of a signer: what [apply] does after the recovery of the key. *)
Definition applySigned (c : CliqueConfig) (number : Z) (a : address) (nonce : list Byte.byte) (signer : address) (s : Snapshot) : CliqueError + Snapshot :=
  if negb (bool_decide (signer ∈ Signers s)) then inl ErrUnauthorizedSigner
  else if signedRecently signer s then inl ErrRecentlySigned
  else
    let s := set_Recents (<[number := signer]> (Recents s)) s in
    match voteOf nonce with
    | None => inl errInvalidVote
    | Some authorize => inr (countVote number signer a authorize s)
    end.

(** What it does before. *)
Definition startBlock (c : CliqueConfig) (number : Z) (s : Snapshot) : Snapshot :=
  forgetOldest number (if number mod Epoch c =? 0 then forgetVotes s else s).

(** SignersAscending: by the bytes of the addresses. *)
Definition ascending (x y : address) : Prop := (x <= y)%N.

#[export] Instance ascending_dec : RelDecision ascending.
Proof. intros x y. unfold ascending. apply _. Defined.

Definition GetSigners (s : Snapshot) : list address := merge_sort ascending (elements (Signers s)).

(** The loop over the sorted signers; without signers the remainder panics. *)
Fixpoint offsetOf (signer : address) (signers : list address) : Z :=
  match signers with
  | [] => 0
  | x :: signers => if N.eqb x signer then 0 else 1 + offsetOf signer signers
  end.

Definition inturn (number : Z) (signer : address) (s : Snapshot) : outcome bool :=
  r ← rem64 number (len (GetSigners s)); Ok (r =? offsetOf signer (GetSigners s)).

Definition calcDifficulty (s : Snapshot) (signer : address) : outcome Z :=
  b ← inturn (u64 (Number s + 1)) signer s; Ok (if b : bool then DiffInTurn else diffNoTurn).

(** * The engine *)
Record Clique (R C D : Type) := mk_Clique { recents : R; signatures : C; db : D }.
Arguments mk_Clique {R C D}.
Arguments recents {R C D}.
Arguments signatures {R C D}.
Arguments db {R C D}.

Section engine.
Context {K C R D : Type}.
Context (c : CliqueConfig) (hashOf : Header K -> hash) (keccak256 : list Byte.byte -> hash) (Ecrecover : hash -> list Byte.byte -> option (list Byte.byte)).
Context (cacheGet : C -> hash -> option address) (cacheAdd : C -> hash -> address -> C) (pooled : encbuf.encbuf).
Context (recentsGet : R -> hash -> option Snapshot) (recentsAdd : R -> hash -> Snapshot -> R).
Context (dbGet : D -> Z -> hash -> option Snapshot) (dbPut : D -> Snapshot -> option D) (checkpointInterval : Z).
Context (GetHeader : hash -> Z -> option (Header K)) (GetHeaderByNumber : Z -> option (Header K)).
Context (forks : ChainForks) (uncleHash : hash) (now : Z) (fakeDiff : bool).
Implicit Types (header parent : Header K) (parents : list (Header K)).

(** ** Seals *)
Definition encodeSigHeader header : outcome (list Byte.byte) :=
  unsealed ← slice (Extra header) 0 (len (Extra header) - 65);
  encodeInterfaces pooled (sigFields header unsealed ++ match BaseFee header with Some b => [(TBigInt, VBigInt (Some b))] | None => [] end).

Definition SealHash header : outcome hash := bs ← encodeSigHeader header; Ok (keccak256 bs).

Definition ecrecover header : M C (CliqueError + address) := fun sigcache =>
  match cacheGet sigcache (hashOf header) with
  | Some a => Ok (inr a, sigcache)
  | None =>
      if len (Extra header) <? ExtraSeal then Ok (inl errMissingSignature, sigcache)
      else
        signature ← slice (Extra header) (len (Extra header) - ExtraSeal) (len (Extra header));
        seal ← SealHash header;
        match Ecrecover seal signature with
        | None => Ok (inl recoverError, sigcache)
        | Some pubkey => signer ← pubkeyAddress keccak256 pubkey; Ok (inr signer, cacheAdd sigcache (hashOf header) signer)
        end
  end.

(** ** apply *)
Definition applyHeader header : M (Snapshot * C) (CliqueError + unit) := fun '(snap, sigcache) =>
  number ← headerNumber header;
  _ ← rem64 number (Epoch c);
  let snap := startBlock c number snap in
  '(r, sigcache) ← ecrecover header sigcache;
  match r with
  | inl err => Ok (inl err, (snap, sigcache))
  | inr signer =>
      match applySigned c number (Coinbase header) (HNonce header) signer snap with
      | inl err => Ok (inl err, (snap, sigcache))
      | inr snap => Ok (inr tt, (snap, sigcache))
      end
  end.

Fixpoint applyHeaders (headers : list (Header K)) : M (Snapshot * C) (CliqueError + unit) :=
  match headers with
  | [] => mret (inr tt)
  | h :: headers =>
      r ← applyHeader h;
      match r with inl err => mret (inl err) | inr _ => applyHeaders headers end
  end.

Definition apply (headers : list (Header K)) (s : Snapshot) : M C (CliqueError + Snapshot) := fun sigcache =>
  match headers with
  | [] => Ok (inr s, sigcache)
  | h0 :: rest =>
      inOrder ← contiguous h0 rest;
      if negb inOrder then Ok (inl errInvalidVotingChain, sigcache)
      else
        n0 ← headerNumber h0;
        if negb (n0 =? u64 (Number s + 1)) then Ok (inl errInvalidVotingChain, sigcache)
        else
          '(r, (snap, sigcache)) ← applyHeaders headers (s, sigcache);
          match r with
          | inl err => Ok (inl err, sigcache)
          | inr _ =>
              Ok (inr (mk_Snapshot (u64 (Number snap + len headers)) (hashOf (List.last headers h0)) (Signers snap) (Recents snap) (Votes snap) (Tallies snap)), sigcache)
          end
  end.

(** ** The search for a snapshot *)
Definition store (s : Snapshot) : M (Clique R C D) (option CliqueError) := fun e =>
  match dbPut (db e) s with
  | Some d => Ok (None, mk_Clique (recents e) (signatures e) d)
  | None => Ok (Some databaseError, e)
  end.

(** The signers in the extra data of a checkpoint; [make] panics on a negative
    length. *)
Definition checkpointSigners (extra : list Byte.byte) : outcome (list address) :=
  let n := Z.quot (len extra - ExtraVanity - ExtraSeal) 20 in
  if n <? 0 then Panic else Ok (map (fun i => bytes_to_N (take 20 (drop (32 + 20 * i) extra))) (seq 0 (Z.to_nat n))).

Inductive search :=
| found (snap : Snapshot)
| failed (err : CliqueError)
| further (header : Header K) (parents : list (Header K)).

Definition previousHeader (number : Z) (h : hash) parents : outcome search :=
  match parents with
  | [] => match GetHeader h number with None => Ok (failed ErrUnknownAncestor) | Some header => Ok (further header []) end
  | p :: _ =>
      let header := List.last parents p in
      if negb (N.eqb (hashOf header) h) then Ok (failed ErrUnknownAncestor)
      else
        n ← headerNumber header;
        if negb (n =? number) then Ok (failed ErrUnknownAncestor) else Ok (further header (removelast parents))
  end.

(** Whether the block is trusted as a checkpoint. *)
Definition trusted (number : Z) (passed : nat) : outcome bool :=
  if number =? 0 then Ok true
  else
    r ← rem64 number (Epoch c);
    Ok ((r =? 0) && ((FullImmutabilityThreshold <? Z.of_nat passed) || negb (isSome (GetHeaderByNumber (number - 1))))).

Definition searchStep (number : Z) (h : hash) parents (passed : nat) : M (Clique R C D) search := fun e =>
  match recentsGet (recents e) h with
  | Some s => Ok (found s, e)
  | None =>
      r ← rem64 number checkpointInterval;
      match (if r =? 0 then dbGet (db e) number h else None) with
      | Some s => Ok (found s, e)
      | None =>
          t ← trusted number passed;
          match (if t : bool then GetHeaderByNumber number else None) with
          | Some checkpoint =>
              signers ← checkpointSigners (Extra checkpoint);
              let snap := newSnapshot number (hashOf checkpoint) signers in
              '(err, e) ← store snap e;
              Ok (match err with Some err => failed err | None => found snap end, e)
          | None => r ← previousHeader number h parents; Ok (r, e)
          end
      end
  end.

Fixpoint searchSnapshot (fuel : nat) (number : Z) (h : hash) parents (headers : list (Header K)) : M (Clique R C D) (CliqueError + (Snapshot * list (Header K))) :=
  match fuel with
  | O => out_of_fuel
  | S fuel =>
      r ← searchStep number h parents (length headers);
      match r with
      | found snap => mret (inr (snap, headers))
      | failed err => mret (inl err)
      | further header parents => searchSnapshot fuel (u64 (number - 1)) (ParentHash header) parents (headers ++ [header])
      end
  end.

Definition getSnapshot (fuel : nat) (number : Z) (h : hash) parents : M (Clique R C D) (CliqueError + Snapshot) :=
  r ← searchSnapshot fuel number h parents [];
  match r with
  | inl err => mret (inl err)
  | inr (snap, headers) =>
      r ← (fun e => '(r, sigs) ← apply (rev headers) snap (signatures e); Ok (r, mk_Clique (recents e) sigs (db e)));
      match r with
      | inl err => mret (inl err)
      | inr snap =>
          _ ← modify (fun e => mk_Clique (recentsAdd (recents e) (Hash snap) snap) (signatures e) (db e));
          if (Number snap mod checkpointInterval =? 0) && (0 <? len headers) then
            err ← store snap;
            match err with Some err => mret (inl err) | None => mret (inr snap) end
          else mret (inr snap)
      end
  end.

(** ** Verification *)
(** The recent blocks of a signer that this block does not shift out; the
    difference of unsigned numbers wraps. *)
Definition tooRecent (number : Z) (signer : address) (snap : Snapshot) : bool :=
  existsb (fun r => N.eqb r.2 signer && (u64 (number - limitOf snap) <? r.1)) (map_to_list (Recents snap)).

(** The checks of verifySeal after the recovery of the key. *)
Definition checkSeal header (number : Z) (signer : address) (snap : Snapshot) : outcome (option CliqueError) :=
  if negb (bool_decide (signer ∈ Signers snap)) then Ok (Some ErrUnauthorizedSigner)
  else if tooRecent number signer snap then Ok (Some ErrRecentlySigned)
  else if fakeDiff then Ok None
  else
    turn ← inturn number signer snap;
    d ← or_panic (HDifficulty header);
    Ok (if negb (d =? (if turn : bool then DiffInTurn else diffNoTurn)) then Some errWrongDifficulty else None).

Definition verifySeal header (snap : Snapshot) : M (Clique R C D) (option CliqueError) := fun e =>
  number ← headerNumber header;
  if number =? 0 then Ok (Some errUnknownBlock, e)
  else
    '(r, sigs) ← ecrecover header (signatures e);
    let e := mk_Clique (recents e) sigs (db e) in
    match r with
    | inl err => Ok (Some err, e)
    | inr signer => err ← checkSeal header number signer snap; Ok (err, e)
    end.

(** The exported one, on the snapshot at the header itself. *)
Definition VerifySeal (fuel : nat) header : M (Clique R C D) (option CliqueError) := fun e =>
  number ← headerNumber header;
  '(r, e) ← getSnapshot fuel number (hashOf header) [] e;
  match r with
  | inl err => Ok (Some err, e)
  | inr snap => verifySeal header snap e
  end.

Definition viewOf (number : Z) header : Header.t :=
  Header.mk number (Time header) (GasLimit header) (GasUsed header) (BaseFee header) (default 0 (HDifficulty header)) (UncleHash header) (Extra header)
    (WithdrawalsHash header) (hashOf header).

Definition batchParent header (number : Z) parents : option (Header K) :=
  match parents with [] => GetHeader (ParentHash header) (number - 1) | p :: _ => Some (List.last parents p) end.

Definition verifyFees header parent (bigNumber bigParent number : Z) : outcome (option CliqueError) :=
  if negb (cf_IsLondon forks number) then
    match BaseFee header with
    | Some _ => Ok (Some (headerError errBaseFeeBeforeFork))
    | None =>
        let limit := GasLimit parent / 1024 in
        Ok (if (limit <=? gasLimitDiff (GasLimit parent) (GasLimit header)) || (GasLimit header <? 5000) then Some invalidGasLimit else None)
    end
  else err ← or_panic (VerifyEip1559Header forks (viewOf bigParent parent) (viewOf bigNumber header)); Ok (option_map headerError err).

(** The signers at a checkpoint. *)
Definition verifyCheckpoint header (number : Z) (snap : Snapshot) : outcome (option CliqueError) :=
  r ← rem64 number (Epoch c);
  if r =? 0 then
    listed ← slice (Extra header) ExtraVanity (len (Extra header) - ExtraSeal);
    Ok (if bool_decide (map byte.unsigned listed = map byte.unsigned (concat (map addrBytes (GetSigners snap)))) then None else Some errMismatchingCheckpointSigners)
  else Ok None.

Definition verifyCascadingFields (fuel : nat) header parents : M (Clique R C D) (option CliqueError) := fun e =>
  bigNumber ← or_panic (BlockCodec.Number header);
  number ← headerNumber header;
  if number =? 0 then Ok (None, e)
  else
    match batchParent header number parents with
    | None => Ok (Some ErrUnknownAncestor, e)
    | Some parent =>
        bigParent ← or_panic (BlockCodec.Number parent);
        parentNumber ← headerNumber parent;
        if negb (parentNumber =? number - 1) || negb (N.eqb (hashOf parent) (ParentHash header)) then Ok (Some ErrUnknownAncestor, e)
        else if Time header <? u64 (Time parent + Period c) then Ok (Some errInvalidTimestamp, e)
        else
          err ← verifyFees header parent bigNumber bigParent number;
          match err with
          | Some err => Ok (Some err, e)
          | None =>
              '(r, e) ← getSnapshot fuel (number - 1) (ParentHash header) parents e;
              match r with
              | inl err => Ok (Some err, e)
              | inr snap =>
                  err ← verifyCheckpoint header number snap;
                  match err with
                  | Some err => Ok (Some err, e)
                  | None => verifySeal header snap e
                  end
              end
          end
    end.

Definition verifyHeader (fuel : nat) header parents : M (Clique R C D) (option CliqueError) := fun e =>
  match BlockCodec.Number header with
  | None => Ok (Some errUnknownBlock, e)
  | Some bigNumber =>
      number ← headerNumber header;
      if now <? Time header then Ok (Some ErrFutureBlock, e)
      else
        r ← rem64 number (Epoch c);
        let checkpoint := r =? 0 in
        let vote := voteOf (HNonce header) in
        let signersBytes := len (Extra header) - ExtraVanity - ExtraSeal in
        if checkpoint && negb (N.eqb (Coinbase header) 0) then Ok (Some errInvalidCheckpointBeneficiary, e)
        else if negb (isSome vote) then Ok (Some errInvalidVote, e)
        else if checkpoint && negb (bool_decide (vote = Some false)) then Ok (Some errInvalidCheckpointVote, e)
        else if len (Extra header) <? ExtraVanity then Ok (Some errMissingVanity, e)
        else if len (Extra header) <? ExtraVanity + ExtraSeal then Ok (Some errMissingSignature, e)
        else if negb checkpoint && negb (signersBytes =? 0) then Ok (Some errExtraSigners, e)
        else if checkpoint && negb (signersBytes mod 20 =? 0) then Ok (Some errInvalidCheckpointSigners, e)
        else if negb (N.eqb (MixDigest header) 0) then Ok (Some errInvalidMixDigest, e)
        else if negb (N.eqb (UncleHash header) uncleHash) then Ok (Some errInvalidUncleHash, e)
        else if (0 <? number) && negb (bool_decide (HDifficulty header = Some DiffInTurn) || bool_decide (HDifficulty header = Some diffNoTurn)) then Ok (Some errInvalidDifficulty, e)
        else if isSome (WithdrawalsHash header) then Ok (Some (headerError ErrUnexpectedWithdrawals), e)
        else
          match VerifyForkHashes forks (viewOf bigNumber header) false with
          | Some err => Ok (Some (headerError err), e)
          | None => verifyCascadingFields fuel header parents e
          end
  end.

(** The test of Seal whether this node has to wait: here the subtraction is
    guarded. *)
Definition mustWait (number : Z) (signer : address) (snap : Snapshot) : bool :=
  existsb (fun r => N.eqb r.2 signer && ((number <? limitOf snap) || (u64 (number - limitOf snap) <? r.1))) (map_to_list (Recents snap)).

(** ** Prepare *)
(** The votes this node wants to cast, and which of them it draws. *)
Context (proposals : gmap address bool) (choice : list address -> address).

Definition castProposal (number : Z) (snap : Snapshot) (h : Header K) : outcome (Header K) :=
  r ← rem64 number (Epoch c);
  Ok (if r =? 0 then h
      else
        match filter (fun p => validVote p.1 p.2 snap = true) (map_to_list proposals) with
        | [] => h
        | p :: ps =>
            let a := choice (map fst (p :: ps)) in
            set_identity a (if default false (proposals !! a) then NonceAuthVote else nonceDropVote) h
        end).

(** The error, and the header as it is then. *)
Definition Prepare (fuel : nat) (signer : address) (h : Header K) : M (Clique R C D) (option CliqueError * Header K) := fun e =>
  let h := set_identity 0%N (replicate 8 Byte.x00) h in
  number ← headerNumber h;
  '(r, e) ← getSnapshot fuel (u64 (number - 1)) (ParentHash h) [] e;
  match r with
  | inl err => Ok ((Some err, h), e)
  | inr snap =>
      h ← castProposal number snap h;
      difficulty ← calcDifficulty snap signer;
      r ← rem64 number (Epoch c);
      let signers := if r =? 0 then concat (map addrBytes (GetSigners snap)) else [] in
      let h := set_seal (Some difficulty) (vanityOf (Extra h) ++ signers ++ replicate 65 Byte.x00) 0%N h in
      match GetHeader (ParentHash h) (u64 (number - 1)) with
      | None => Ok ((Some ErrUnknownAncestor, h), e)
      | Some parent =>
          let time := u64 (Time parent + Period c) in
          Ok ((None, set_Time (if time <? now then now else time) h), e)
      end
  end.
End engine.
End clique.
