(* ===== verification/CliqueTheorems.v ===== *)
(** What the voting of Clique promises: the tallies are those of the votes, the
    signers change by majorities only, and the recent signers stay in a window
    that always leaves somebody to sign.  The snapshots implement the protocol of
    EIP-225, and turns go round. *)
From stdpp Require Import sorting.
From S2P Require Import Prelude Uint256 StateTypes Accounts AccountSpec Transaction HeaderChecks Rlp RlpStream RlpSpec RlpReflect TxCodec BlockCodec BorValset BorSnapshot BorSpec.
From S2P Require Import BorUpdateSpec BorSettled BorSnapshotSpec BorApplySpec BorVerify Clique.

Import clique.
#[local] Open Scope Z_scope.

(** * Tallies *)
Definition countOn (a : address) (votes : list Vote) : nat := length (filter (fun v => Address v = a) votes).

Definition tallyOf (signers : gset address) (votes : list Vote) (a : address) : option Tally :=
  match countOn a votes with O => None | S n => Some (mk_Tally (bool_decide (a ∉ signers)) (Z.of_nat (S n))) end.

Definition exact (signers : gset address) (votes : list Vote) (tallies : gmap address Tally) : Prop := forall a, tallies !! a = tallyOf signers votes a.

Definition meaningful (signers : gset address) (v : Vote) : Prop := Authorize v = bool_decide (Address v ∉ signers).

Record tallied (s : Snapshot) : Prop := mk_tallied {
  votes_by_signers : Forall (fun v => Signer v ∈ Signers s) (Votes s);
  votes_meaningful : Forall (meaningful (Signers s)) (Votes s);
  votes_once : NoDup (map (fun v => (Signer v, Address v)) (Votes s));
  votes_counted : exact (Signers s) (Votes s) (Tallies s)
}.

Lemma countOn_app a l1 l2 : countOn a (l1 ++ l2) = (countOn a l1 + countOn a l2)%nat.
Proof. unfold countOn. by rewrite list.filter_app, length_app. Qed.

Lemma countOn_cons a v l : countOn a (v :: l) = ((if decide (Address v = a) then 1 else 0) + countOn a l)%nat.
Proof. unfold countOn. destruct (decide (Address v = a)); [rewrite filter_cons_True by done|rewrite filter_cons_False by done]; done. Qed.

Lemma uncast_frame a au s : exists T, (uncast a au s).2 = set_Tallies T s.
Proof. unfold uncast. repeat case_match; cbn; try (by eexists). all: exists (Tallies s); by destruct s. Qed.

(** Uncasting a vote of the list. *)
Lemma uncast_exact S l1 v l2 s : exact S (l1 ++ v :: l2) (Tallies s) -> meaningful S v -> exact S (l1 ++ l2) (Tallies (uncast (Address v) (Authorize v) s).2).
Proof.
  intros He Hm a. unfold uncast. rewrite (He (Address v)). unfold tallyOf. rewrite countOn_app, countOn_cons, decide_True by done.
  replace (countOn (Address v) l1 + (1 + countOn (Address v) l2))%nat with (Datatypes.S (countOn (Address v) (l1 ++ l2))) by (rewrite countOn_app; lia).
  cbn [t_Authorize t_Votes]. rewrite Hm, eqb_reflx. cbn [negb].
  assert (a <> Address v -> Tallies s !! a = match countOn a (l1 ++ l2) with O => None | Datatypes.S n => Some (mk_Tally (bool_decide (a ∉ S)) (Z.of_nat (Datatypes.S n))) end) as Hother.
  { intros Hne. rewrite (He a). unfold tallyOf. rewrite !countOn_app, countOn_cons, decide_False by congruence. done. }
  destruct (Z.ltb_spec 1 (Z.of_nat (Datatypes.S (countOn (Address v) (l1 ++ l2))))); cbn [snd Tallies set_Tallies]; (destruct (decide (a = Address v)) as [-> | Hne]; [|rewrite ?lookup_insert_ne, ?lookup_delete_ne by congruence; by apply Hother]).
  - rewrite lookup_insert_eq. destruct (countOn (Address v) (l1 ++ l2)) as [|n]; [lia|]. do 2 f_equal. lia.
  - rewrite lookup_delete_eq. destruct (countOn (Address v) (l1 ++ l2)) as [|n]; [done|lia].
Qed.

Lemma find_split (p : Vote -> bool) l v : find p l = Some v -> exists l1 l2, l = l1 ++ v :: l2 /\ withoutFirst p l = l1 ++ l2 /\ p v = true /\ Forall (fun x => p x = false) l1.
Proof.
  induction l as [|x l IH]; [done|]. cbn [find withoutFirst]. destruct (p x) eqn:Ep; [intros [= <-]; by exists [], l|]. intros Hf. destruct (IH Hf) as (l1 & l2 & -> & -> & Hv & Hl). exists (x :: l1), l2. by repeat split; [|constructor].
Qed.

Lemma NoDup_drop {A} (l1 l2 : list A) x : NoDup (l1 ++ x :: l2) -> NoDup (l1 ++ l2).
Proof. intros (H1 & Hd & H2)%list.NoDup_app. apply list.NoDup_cons in H2 as [_ H2]. apply list.NoDup_app. split_and!; [done| |done]. intros y Hy Hy'. apply (Hd y Hy). by right. Qed.

(** The votes of [signer] on [a], of which there is at most one. *)
Definition others (signer a : address) (votes : list Vote) : list Vote := filter (fun v => ~ (Signer v = signer /\ Address v = a)) votes.

Lemma others_id signer a l : Forall (fun v => (N.eqb (Signer v) signer && N.eqb (Address v) a) = false) l -> others signer a l = l.
Proof.
  induction 1 as [|v l Hv _ IH]; [done|]. unfold others. rewrite filter_cons_True; [f_equal; exact IH|]. intros [<- <-]. by rewrite !N.eqb_refl in Hv.
Qed.

Lemma discardVote_spec signer a s : tallied s -> exists T, discardVote signer a s = set_Votes (others signer a (Votes s)) (set_Tallies T s) /\ tallied (discardVote signer a s).
Proof.
  intros Ht. pose proof Ht as [Hb Hm Ho He]. unfold discardVote. set (p := fun v : Vote => N.eqb (Signer v) signer && N.eqb (Address v) a). destruct (find p (Votes s)) as [v|] eqn:Ef.
  - destruct (find_split _ _ _ Ef) as (l1 & l2 & El & -> & Hv & Hl1). unfold p in Hv. apply andb_prop in Hv as [Hv1 Hv2]. apply N.eqb_eq in Hv1, Hv2.
    assert (others signer a (Votes s) = l1 ++ l2) as Eo.
    { rewrite El. unfold others. rewrite list.filter_app, filter_cons_False by (intros H; by apply H). fold (others signer a l1) (others signer a l2). rewrite others_id by done. f_equal. apply others_id.
      rewrite El, map_app in Ho. cbn [map] in Ho. apply list.NoDup_app in Ho as (_ & _ & Ho). apply list.NoDup_cons in Ho as [Ho _]. apply Forall_forall. intros x Hx. apply not_true_is_false. intros Hpx.
      apply andb_prop in Hpx as [H1 H2]. apply N.eqb_eq in H1, H2. apply Ho. rewrite Hv1, Hv2, <- H1, <- H2. apply list_elem_of_In, in_map_iff. by exists x. }
    rewrite El in Hb, Hm, Ho, He. destruct (uncast_frame (Address v) (Authorize v) s) as [T ET]. rewrite ET. exists T. rewrite Eo. split; [done|].
    pose proof (uncast_exact (Signers s) l1 v l2 s He (Forall_elt _ _ _ Hm)) as He'. rewrite ET in He'. cbn in He'. apply Forall_app in Hb as [Hb1 Hb2], Hm as [Hm1 Hm2]. inversion_clear Hb2. inversion_clear Hm2.
    split; cbn; try (by apply Forall_app); [|done]. rewrite map_app in *. cbn [map] in Ho. by eapply NoDup_drop.
  - exists (Tallies s). assert (others signer a (Votes s) = Votes s) as -> by (apply others_id, Forall_forall; intros x Hx; by apply (find_none _ _ Ef)). destruct s. done.
Qed.

Lemma others_none signer a l : (signer, a) ∉ map (fun v => (Signer v, Address v)) (others signer a l).
Proof. intros Hin. apply list_elem_of_In, in_map_iff in Hin as (v & [= Hs Ha] & Hv). apply list_elem_of_In, list_elem_of_filter in Hv as [Hn _]. by apply Hn. Qed.

(** ** Casting *)
Lemma exact_add S l v (T : gmap address Tally) : exact S l T -> meaningful S v ->
  exact S (l ++ [v]) (<[Address v := match T !! Address v with Some old => mk_Tally (t_Authorize old) (t_Votes old + 1) | None => mk_Tally (Authorize v) 1 end]> T).
Proof.
  intros He Hm a. unfold tallyOf. rewrite countOn_app, countOn_cons. change (countOn a []) with O. rewrite Nat.add_0_r. destruct (decide (Address v = a)) as [<-|Hne].
  - rewrite lookup_insert_eq, Nat.add_1_r, (He (Address v)). unfold tallyOf. destruct (countOn (Address v) l) as [|n]; cbn [t_Authorize t_Votes]; [by rewrite Hm|]. do 2 f_equal. lia.
  - rewrite lookup_insert_ne by done. rewrite Nat.add_0_r. apply He.
Qed.

(** The vote of a block, counted or not. *)
Definition votesAfter (number : Z) (signer a : address) (authorize : bool) (s : Snapshot) : list Vote :=
  others signer a (Votes s) ++ (if validVote a authorize s then [mk_Vote signer number a authorize] else []).

Lemma validVote_meaningful a authorize s : validVote a authorize s = true <-> authorize = bool_decide (a ∉ Signers s).
Proof. unfold validVote. destruct (decide (a ∈ Signers s)); [rewrite bool_decide_true, bool_decide_false by (done || (intros H; by apply H))|rewrite bool_decide_false, bool_decide_true by done]; by destruct authorize. Qed.

Definition castVote (number : Z) (signer a : address) (authorize : bool) (s : Snapshot) : Snapshot :=
  let '(counted, s1) := cast a authorize (discardVote signer a s) in
  if counted : bool then set_Votes (Votes s1 ++ [mk_Vote signer number a authorize]) s1 else s1.

Lemma castVote_spec number signer a authorize s : tallied s -> signer ∈ Signers s ->
  exists T, castVote number signer a authorize s = set_Votes (votesAfter number signer a authorize s) (set_Tallies T s) /\ tallied (castVote number signer a authorize s).
Proof.
  intros Ht Hs. destruct (discardVote_spec signer a s Ht) as (T & E & Ht'). unfold castVote, cast, votesAfter. rewrite E in *. assert (validVote a authorize (set_Votes (others signer a (Votes s)) (set_Tallies T s)) = validVote a authorize s) as -> by done.
  destruct (validVote a authorize s) eqn:Ev; cbn [negb].
  - eexists. split; [done|]. destruct Ht' as [Hb Hm Ho He]. cbn in *. apply validVote_meaningful in Ev. split; cbn.
    + apply Forall_app. split; [done|]. by constructor.
    + apply Forall_app. split; [done|]. constructor; [exact Ev|constructor].
    + rewrite map_app. cbn [map Signer Address]. apply list.NoDup_app. split_and!; [done| |apply NoDup_singleton]. intros x Hx Hx'. apply list_elem_of_singleton in Hx' as ->. by apply others_none in Hx.
    + exact (exact_add (Signers s) (others signer a (Votes s)) (mk_Vote signer number a authorize) T He Ev).
  - exists T. rewrite app_nil_r. by split.
Qed.

(** ** Decisions *)
Definition toggle (a : address) (S : gset address) : gset address := if bool_decide (a ∈ S) then S ∖ {[a]} else {[a]} ∪ S.

Lemma discardBy_fold S signer : forall todo kept s, exact S (kept ++ todo) (Tallies s) -> Forall (meaningful S) todo ->
  exists T, foldl (fun s v => if N.eqb (Signer v) signer then (uncast (Address v) (Authorize v) s).2 else s) s todo = set_Tallies T s /\
    exact S (kept ++ filter (fun v => Signer v <> signer) todo) T.
Proof.
  induction todo as [|v todo IH]; intros kept s He Hm; [exists (Tallies s); split; [by destruct s|done]|]. inversion_clear Hm as [|? ? Hv Hm']. cbn [foldl]. destruct (N.eqb_spec (Signer v) signer) as [Es|Es].
  - rewrite filter_cons_False by (intros H; by apply H). pose proof (uncast_exact S kept v todo s He Hv) as He'. destruct (uncast_frame (Address v) (Authorize v) s) as [T1 E1]. rewrite E1 in *.
    destruct (IH kept (set_Tallies T1 s) He' Hm') as (T & -> & HT). by exists T.
  - rewrite filter_cons_True by done. destruct (IH (kept ++ [v]) s) as (T & -> & HT); [by rewrite <- app_assoc|done|]. exists T. split; [done|]. by rewrite <- app_assoc in HT.
Qed.

Lemma exact_forget S S' a l T : exact S l T -> (forall x, x <> a -> x ∈ S <-> x ∈ S') -> exact S' (filter (fun v => Address v <> a) l) (delete a T).
Proof.
  intros He HS x. unfold tallyOf. assert (countOn x (filter (fun v => Address v <> a) l) = if decide (x = a) then O else countOn x l) as ->.
  { clear He. induction l as [|v l IH]; [by case_decide|]. rewrite countOn_cons. destruct (decide (Address v = a)) as [Ea|Ea]; [rewrite filter_cons_False by (intros H; by apply H)|rewrite filter_cons_True, countOn_cons by done]; rewrite IH; repeat case_decide; congruence || lia. }
  destruct (decide (x = a)) as [-> | Hne]; [by rewrite lookup_delete_eq|]. rewrite lookup_delete_ne, He by done. unfold tallyOf. destruct (countOn x l); [done|]. do 2 f_equal. apply bool_decide_ext. by rewrite HS.
Qed.

Lemma forgetOldest_frame n s : exists R, forgetOldest n s = set_Recents R s.
Proof. unfold forgetOldest. case_match; [by eexists|]. exists (Recents s). by destruct s. Qed.

Lemma Forall_filter_impl {A} (P Q R : A -> Prop) `{forall x, Decision (R x)} l : Forall P l -> (forall x, In x l -> R x -> P x -> Q x) -> Forall Q (filter R l).
Proof. intros HP HQ. apply Forall_forall. intros x Hx. apply list_elem_of_In, list_elem_of_filter in Hx as [HR Hx]. apply list_elem_of_In in Hx. rewrite Forall_forall in HP. by apply HQ; auto. Qed.

Lemma NoDup_map_filter {A B} (f : A -> B) (R : A -> Prop) `{forall x, Decision (R x)} l : NoDup (map f l) -> NoDup (map f (filter R l)).
Proof.
  induction l as [|x l IH]; [done|]. cbn [map]. intros [Hx Hl]%list.NoDup_cons. destruct (decide (R x)); [rewrite filter_cons_True by done|rewrite filter_cons_False by done; by apply IH]. cbn [map]. apply list.NoDup_cons. split; [|by apply IH].
  intros Hin. apply Hx. apply list_elem_of_In, in_map_iff in Hin as (y & Ey & Hy). apply list_elem_of_In, list_elem_of_filter in Hy as [_ Hy]. rewrite <- Ey. by apply list_elem_of_In, in_map, list_elem_of_In.
Qed.

(** A decision takes effect exactly if more than half of the signers want it. *)
Lemma decide_spec number a s : tallied s ->
  let passed := Z.of_nat (base.size (Signers s)) / 2 <? Z.of_nat (countOn a (Votes s)) in
  tallied (decide_ number a s) /\ Signers (decide_ number a s) = (if passed then toggle a (Signers s) else Signers s) /\
  Recents (decide_ number a s) = (if passed && bool_decide (a ∈ Signers s) then Recents (forgetOldest number (set_Signers (Signers s ∖ {[a]}) s)) else Recents s) /\
  Votes (decide_ number a s) = (if passed then filter (fun v => Address v <> a) (if bool_decide (a ∈ Signers s) then filter (fun v => Signer v <> a) (Votes s) else Votes s) else Votes s) /\
  Number (decide_ number a s) = Number s.
Proof.
  intros Ht. pose proof Ht as [Hb Hm Ho He]. cbn zeta. unfold decide_. rewrite (He a). unfold tallyOf. destruct (countOn a (Votes s)) as [|n] eqn:Ec.
  { rewrite (proj2 (Z.ltb_ge _ _)) by (apply Z.div_pos; lia). by split_and!. }
  cbn [t_Votes t_Authorize]. destruct (Z.ltb_spec (Z.of_nat (base.size (Signers s)) / 2) (Z.of_nat (Datatypes.S n))); [|by split_and!]. cbn [andb]. unfold toggle. destruct (decide (a ∈ Signers s)) as [Ha|Ha].
  - rewrite (bool_decide_false (a ∉ Signers s)) by (intros H'; by apply H'). rewrite (bool_decide_true (a ∈ Signers s)) by done.
    set (S' := Signers s ∖ {[a]}). destruct (forgetOldest_frame number (set_Signers S' s)) as [R ER]. rewrite ER. unfold discardBy, discardOn.
    destruct (discardBy_fold (Signers s) a (Votes s) [] (set_Recents R (set_Signers S' s)) He Hm) as (T & EF & HT). cbn [Votes set_Recents set_Signers]. rewrite EF. cbn. split_and!; [|done..].
    assert (forall x, x <> a -> x ∈ Signers s <-> x ∈ S') as HS by (intros x Hx; unfold S'; set_solver). split; cbn.
    + apply (Forall_filter_impl (fun v => Signer v ∈ S')); [|done]. eapply Forall_filter_impl; [exact Hb|]. intros v _ Hv Hin. by apply HS.
    + apply (Forall_filter_impl (meaningful (Signers s))); [by eapply Forall_filter_impl|]. intros v _ Hv Hmv. unfold meaningful in *. rewrite Hmv. apply bool_decide_ext. by rewrite HS.
    + by apply NoDup_map_filter, NoDup_map_filter.
    + by apply (exact_forget (Signers s)).
  - rewrite (bool_decide_true (a ∉ Signers s)) by done. rewrite (bool_decide_false (a ∈ Signers s)) by done. unfold discardOn. cbn. split_and!; [|done..].
    assert (forall x, x <> a -> x ∈ Signers s <-> x ∈ {[a]} ∪ Signers s) as HS by set_solver. split; cbn.
    + eapply Forall_filter_impl; [exact Hb|]. cbn. set_solver.
    + eapply Forall_filter_impl; [exact Hm|]. intros v _ Hv Hmv. unfold meaningful in *. rewrite Hmv. apply bool_decide_ext. by rewrite HS.
    + by apply NoDup_map_filter.
    + by apply (exact_forget (Signers s)).
Qed.

(** * The protocol *)
(** What EIP-225 keeps: who may sign, which of them wants a change of whom, and
    the signers of the blocks so far, the last one first. *)
Record Voting := mk_Voting { authorised : gset address; standing : gset (address * address); signed : list address }.

Definition half (S : gset address) : nat := Nat.div (base.size S) 2.

Definition mayNotSign (signer : address) (v : Voting) : Prop := signer ∈ take (half (authorised v)) (signed v).

#[export] Instance mayNotSign_dec signer v : Decision (mayNotSign signer v).
Proof. unfold mayNotSign. apply _. Defined.

Definition support (a : address) (B : gset (address * address)) : nat := base.size (filter (fun p : address * address => p.2 = a) B).

(** A vote replaces the one before; it stands if it asks for a change. *)
Definition recordVote (signer a : address) (authorize : bool) (S : gset address) (B : gset (address * address)) : gset (address * address) :=
  B ∖ {[(signer, a)]} ∪ (if Bool.eqb authorize (bool_decide (a ∉ S)) then {[(signer, a)]} else ∅).

(** The change happens once more than half of the signers want it; the votes on
    it are then settled, and those of a signer who leaves are void. *)
Definition settle (a : address) (v : Voting) : Voting :=
  if (half (authorised v) <? support a (standing v))%nat
  then mk_Voting (toggle a (authorised v)) (filter (fun p : address * address => p.2 <> a /\ (a ∈ authorised v -> p.1 <> a)) (standing v)) (signed v)
  else v.

Definition protocolStep (checkpoint : bool) (signer a : address) (vote : option bool) (v : Voting) : CliqueError + Voting :=
  if decide (signer ∉ authorised v) then inl ErrUnauthorizedSigner
  else if decide (mayNotSign signer v) then inl ErrRecentlySigned
  else
    match vote with
    | None => inl errInvalidVote
    | Some authorize =>
        inr (settle a (mk_Voting (authorised v) (recordVote signer a authorize (authorised v) (if checkpoint then ∅ else standing v)) (signer :: signed v)))
    end.

(** ** The snapshots of the protocol *)
Definition ballots (votes : list Vote) : gset (address * address) := list_to_set (map (fun v => (Signer v, Address v)) votes).

(** The recent signers at block [n] are in the log, among the last [w], and all
    of the last [w] are recent. *)
Definition within (n : Z) (w : nat) (recents : gmap Z address) (log : list address) : Prop :=
  forall k a, recents !! k = Some a -> 0 <= k /\ n - Z.of_nat w < k <= n /\ log !! Z.to_nat (n - k) = Some a.

Definition covers (n : Z) (w : nat) (recents : gmap Z address) (log : list address) : Prop :=
  forall i a, (i < w)%nat -> log !! i = Some a -> recents !! (n - Z.of_nat i) = Some a.

Record recorded (n : Z) (s : Snapshot) (log : list address) : Prop := mk_recorded {
  recents_within : within n (half (Signers s) + 1) (Recents s) log;
  recents_cover : covers n (half (Signers s)) (Recents s) log
}.

Record represents (n : Z) (s : Snapshot) (v : Voting) : Prop := mk_represents {
  rep_tallied : tallied s;
  rep_signers : Signers s = authorised v;
  rep_ballots : ballots (Votes s) = standing v;
  rep_recents : recorded n s (signed v)
}.

Lemma elem_of_ballots votes p : p ∈ ballots votes <-> exists v, v ∈ votes /\ p = (Signer v, Address v).
Proof. unfold ballots. rewrite elem_of_list_to_set, list_elem_of_In, in_map_iff. setoid_rewrite list_elem_of_In. naive_solver. Qed.

Lemma ballots_app l1 l2 : ballots (l1 ++ l2) = ballots l1 ∪ ballots l2.
Proof. unfold ballots. rewrite map_app. by apply leibniz_equiv, list_to_set_app. Qed.

Lemma ballots_filter (P : Vote -> Prop) (Q : address * address -> Prop) `{!forall v, Decision (P v), !forall p, Decision (Q p)} votes :
  (forall v, P v <-> Q (Signer v, Address v)) -> ballots (filter P votes) = filter Q (ballots votes).
Proof.
  intros HPQ. apply set_eq. intros p. rewrite elem_of_filter, !elem_of_ballots. setoid_rewrite list_elem_of_filter. split.
  - intros (v & [Hv Hin] & ->). apply HPQ in Hv. split; [done|]. by exists v.
  - intros [Hp (v & Hin & ->)]. apply HPQ in Hp. by exists v.
Qed.

Lemma ballots_others signer a votes : ballots (others signer a votes) = ballots votes ∖ {[(signer, a)]}.
Proof.
  unfold others. rewrite (ballots_filter _ (fun p => p <> (signer, a))) by (intros v; split; [intros H [= ? ?]; by apply H|intros H [? ?]; apply H; congruence]).
  apply set_eq. intros p. rewrite elem_of_filter, elem_of_difference, elem_of_singleton. tauto.
Qed.

Lemma ballots_votesAfter number signer a authorize s :
  ballots (votesAfter number signer a authorize s) = recordVote signer a authorize (Signers s) (ballots (Votes s)).
Proof.
  unfold votesAfter, recordVote. rewrite ballots_app, ballots_others. f_equal. destruct (validVote a authorize s) eqn:Ev.
  - apply validVote_meaningful in Ev. rewrite Ev, eqb_reflx. unfold ballots. cbn. set_solver.
  - destruct (Bool.eqb authorize _) eqn:Eb; [|done]. apply eqb_prop, validVote_meaningful in Eb. congruence.
Qed.

Lemma support_ballots a votes : NoDup (map (fun v => (Signer v, Address v)) votes) -> support a (ballots votes) = countOn a votes.
Proof.
  intros Hnd. unfold support, countOn. rewrite <- (ballots_filter (fun v => Address v = a) (fun p => p.2 = a)) by done. unfold ballots. rewrite size_list_to_set by (by apply NoDup_map_filter). apply length_map.
Qed.

Lemma half_Z S : Z.of_nat (base.size S) / 2 = Z.of_nat (half S).
Proof. unfold half. by rewrite Nat2Z.inj_div. Qed.

Lemma limitOf_half s : limitOf s = Z.of_nat (half (Signers s)) + 1.
Proof. unfold limitOf. by rewrite half_Z. Qed.

Lemma half_toggle a S : (half (toggle a S) <= half S + 1)%nat /\ (half S <= half (toggle a S) + 1)%nat /\ (a ∈ S -> half (toggle a S) <= half S)%nat /\ (a ∉ S -> half S <= half (toggle a S))%nat.
Proof.
  unfold half, toggle. destruct (decide (a ∈ S)) as [Ha|Ha].
  - rewrite bool_decide_true by done. rewrite size_difference by set_solver. rewrite size_singleton. pose proof (Nat.div_mod_eq (base.size S) 2). pose proof (Nat.mod_upper_bound (base.size S) 2). pose proof (Nat.div_mod_eq (base.size S - 1) 2). pose proof (Nat.mod_upper_bound (base.size S - 1) 2). split_and!; [lia..|done].
  - rewrite bool_decide_false by done. rewrite size_union by set_solver. rewrite size_singleton. pose proof (Nat.div_mod_eq (base.size S) 2). pose proof (Nat.mod_upper_bound (base.size S) 2). pose proof (Nat.div_mod_eq (1 + base.size S) 2). pose proof (Nat.mod_upper_bound (1 + base.size S) 2). split_and!; [lia|lia|done|lia].
Qed.

(** ** Recent signers *)
Lemma signedRecently_iff signer s : signedRecently signer s = true <-> exists k, Recents s !! k = Some signer.
Proof.
  unfold signedRecently. rewrite existsb_exists. split.
  - intros ([k a] & Hin & Ha%N.eqb_eq). cbn in Ha. subst. exists k. by apply elem_of_map_to_list, list_elem_of_In.
  - intros [k Hk]. exists (k, signer). split; [by apply list_elem_of_In, elem_of_map_to_list|apply N.eqb_refl].
Qed.

Lemma forgetOldest_lookup n s k : 0 <= k -> Recents (forgetOldest n s) !! k = if decide (k = n - limitOf s) then None else Recents s !! k.
Proof.
  intros Hk. unfold forgetOldest. destruct (Z.leb_spec (limitOf s) n).
  - cbn. case_decide as E; [subst; by rewrite lookup_delete_eq|by rewrite lookup_delete_ne].
  - by rewrite decide_False by lia.
Qed.

Lemma forgetOldest_negative n s k : k < 0 -> Recents s !! k = None -> Recents (forgetOldest n s) !! k = None.
Proof. intros Hk Hn. unfold forgetOldest. destruct (Z.leb_spec (limitOf s) n); [|done]. cbn. rewrite lookup_delete_ne; [done|]. lia. Qed.

(** The oldest one leaves the window. *)
Lemma forgetOldest_within m n w s log : m - limitOf s = n - Z.of_nat w -> within n (w + 1) (Recents s) log -> within n w (Recents (forgetOldest m s)) log.
Proof.
  intros El Hw k a Hk. destruct (Z.neg_nonneg_cases k) as [Hneg|Hpos].
  - rewrite forgetOldest_negative in Hk; [done|done|]. destruct (Recents s !! k) as [x|] eqn:Ex; [|done]. apply Hw in Ex. lia.
  - rewrite forgetOldest_lookup in Hk by done. case_decide as Ed; [done|]. destruct (Hw k a Hk) as (? & ? & ?). split_and!; [done|lia|lia|done].
Qed.

Lemma forgetOldest_covers m n w s log : m - limitOf s = n - Z.of_nat w -> within n (w + 1) (Recents s) log -> covers n w (Recents s) log -> covers n w (Recents (forgetOldest m s)) log.
Proof.
  intros El Hw Hc i a Hi Ha. pose proof (Hc i a Hi Ha) as HR. destruct (Hw _ _ HR) as (Hk & _). rewrite forgetOldest_lookup by done. rewrite decide_False by lia. done.
Qed.

Lemma insert_window n w signer recents log : 0 <= n -> within n w recents log -> covers n w recents log ->
  within (n + 1) (w + 1) (<[n + 1 := signer]> recents) (signer :: log) /\ covers (n + 1) (w + 1) (<[n + 1 := signer]> recents) (signer :: log).
Proof.
  intros Hn Hw Hc. split.
  - intros k a Hk. destruct (decide (k = n + 1)) as [->|Hne]; [rewrite lookup_insert_eq in Hk; injection Hk as <-; rewrite Z.sub_diag; split_and!; [lia..|done]|].
    rewrite lookup_insert_ne in Hk by done. destruct (Hw k a Hk) as (? & ? & Hl). split_and!; [lia..|]. by replace (Z.to_nat (n + 1 - k)) with (S (Z.to_nat (n - k))) by lia.
  - intros [|i] a Hi Ha; cbn in Ha; [injection Ha as ->; by rewrite Z.sub_0_r, lookup_insert_eq|]. rewrite lookup_insert_ne by lia. replace (n + 1 - Z.of_nat (S i)) with (n - Z.of_nat i) by lia. apply Hc; [lia|done].
Qed.

Lemma within_mono n w w' recents log : (w <= w')%nat -> within n w recents log -> within n w' recents log.
Proof. intros Hle Hw k a Hk. destruct (Hw k a Hk) as (? & ? & ?). split_and!; [lia..|done]. Qed.

Lemma covers_mono n w w' recents log : (w' <= w)%nat -> covers n w recents log -> covers n w' recents log.
Proof. intros Hle Hc i a Hi. apply Hc. lia. Qed.

(** Who signed within the window. *)
Lemma window_iff n w recents log signer : within n w recents log -> covers n w recents log -> (exists k, recents !! k = Some signer) <-> signer ∈ take w log.
Proof.
  intros Hw Hc. rewrite list_elem_of_lookup. setoid_rewrite lookup_take_Some. split.
  - intros [k Hk]. destruct (Hw k signer Hk) as (? & ? & Hl). exists (Z.to_nat (n - k)). split; [done|lia].
  - intros (i & Hl & Hi). exists (n - Z.of_nat i). by apply Hc.
Qed.

(** The start of a block. *)
Lemma startBlock_window c n s v : represents n s v ->
  within n (half (authorised v)) (Recents (startBlock c (n + 1) s)) (signed v) /\ covers n (half (authorised v)) (Recents (startBlock c (n + 1) s)) (signed v).
Proof.
  intros [_ Es _ [Hw Hc]]. unfold startBlock. rewrite Es in *. set (s1 := if (n + 1) mod Epoch c =? 0 then forgetVotes s else s). assert (Recents s1 = Recents s /\ Signers s1 = Signers s) as [ER ES] by (unfold s1; by destruct ((n + 1) mod Epoch c =? 0)).
  rewrite <- ER in Hw, Hc. assert (n + 1 - limitOf s1 = n - Z.of_nat (half (authorised v))) as El by (rewrite limitOf_half, ES, Es; lia). split; [by apply forgetOldest_within|by apply forgetOldest_covers].
Qed.

Lemma tallied_frame R s : tallied (set_Recents R s) <-> tallied s.
Proof. split; intros [? ? ? ?]; by split. Qed.

Lemma startBlock_represents c n s v : represents n s v ->
  let checkpoint := (n + 1) mod Epoch c =? 0 in let s' := startBlock c (n + 1) s in
  tallied s' /\ Signers s' = authorised v /\ ballots (Votes s') = (if checkpoint then ∅ else standing v) /\ Number s' = Number s.
Proof.
  intros [Ht Es Eb _]. cbn zeta. unfold startBlock. destruct (forgetOldest_frame (n + 1) (if (n + 1) mod Epoch c =? 0 then forgetVotes s else s)) as [R ->]. rewrite tallied_frame. destruct ((n + 1) mod Epoch c =? 0); split_and!; try done.
  split; [constructor..|]. intros a. cbn. by rewrite lookup_empty.
Qed.

Lemma countVote_castVote number signer a authorize s : countVote number signer a authorize s = decide_ number a (castVote number signer a authorize s).
Proof. unfold countVote, castVote. by destruct (cast _ _ _) as [[] ?]. Qed.

Lemma settle_passed (a : address) (S : gset address) B log : (half S < support a B)%nat ->
  settle a (mk_Voting S B log) = mk_Voting (toggle a S) (filter (fun p : address * address => p.2 <> a /\ (a ∈ S -> p.1 <> a)) B) log.
Proof. intros H. unfold settle. cbn [authorised standing]. by rewrite (proj2 (Nat.ltb_lt _ _)). Qed.

Lemma ballots_settled (a : address) (S : gset address) votes :
  ballots (filter (fun v => Address v <> a) (if bool_decide (a ∈ S) then filter (fun v => Signer v <> a) votes else votes)) =
  filter (fun p : address * address => p.2 <> a /\ (a ∈ S -> p.1 <> a)) (ballots votes).
Proof.
  rewrite (ballots_filter _ (fun p => p.2 <> a)) by done. apply set_eq. intros p. rewrite !elem_of_filter. case_bool_decide as Ha.
  - rewrite (ballots_filter _ (fun p => p.1 <> a)) by done. rewrite elem_of_filter. tauto.
  - tauto.
Qed.

(** A counted vote is a step of the voting, and what it leaves of the window. *)
Lemma countVote_refines n signer a authorize s log : tallied s -> signer ∈ Signers s ->
  within n (half (Signers s) + 1) (Recents s) log -> covers n (half (Signers s) + 1) (Recents s) log ->
  represents n (countVote n signer a authorize s) (settle a (mk_Voting (Signers s) (recordVote signer a authorize (Signers s) (ballots (Votes s))) log)) /\
  Number (countVote n signer a authorize s) = Number s.
Proof.
  intros Ht Hs Hw Hc. rewrite countVote_castVote, <- (ballots_votesAfter n). destruct (castVote_spec n signer a authorize s Ht Hs) as (T & E & Ht1). rewrite E in *. clear E Ht.
  set (s1 := set_Votes _ _) in *. assert (Signers s = Signers s1 /\ votesAfter n signer a authorize s = Votes s1 /\ Recents s = Recents s1 /\ Number s = Number s1) as (E1 & -> & E3 & ->) by done. rewrite E1, E3 in *.
  clearbody s1. destruct (decide_spec n a s1 Ht1) as (Ht' & Es & ER & EV & EN). rewrite half_Z, <- (support_ballots a (Votes s1)) in * by apply Ht1. split; [|done].
  destruct (Z.ltb_spec (Z.of_nat (half (Signers s1))) (Z.of_nat (support a (ballots (Votes s1))))) as [Hp|Hp].
  - rewrite settle_passed by lia. destruct (half_toggle a (Signers s1)) as (H1 & H2 & H3 & H4). split; [done|exact Es|rewrite EV; exact (ballots_settled a (Signers s1) (Votes s1))|]. cbn [signed]. cbn [andb] in ER. split; rewrite ER, Es; case_bool_decide as Ha.
    + assert (toggle a (Signers s1) = Signers s1 ∖ {[a]}) as Etog by (unfold toggle; by rewrite bool_decide_true). apply forgetOldest_within; [rewrite limitOf_half; cbn [Signers set_Signers]; rewrite Etog; lia|]. eapply within_mono; [|exact Hw]. lia.
    + eapply within_mono; [|exact Hw]. specialize (H4 Ha). lia.
    + assert (toggle a (Signers s1) = Signers s1 ∖ {[a]}) as Etog by (unfold toggle; by rewrite bool_decide_true). eapply (covers_mono _ (half (toggle a (Signers s1)) + 1)); [lia|]. apply forgetOldest_covers; [rewrite limitOf_half; cbn [Signers set_Signers]; rewrite Etog; lia|eapply within_mono; [|exact Hw]; lia|].
      eapply covers_mono; [|exact Hc]. specialize (H3 Ha). lia.
    + eapply covers_mono; [|exact Hc]. lia.
  - assert (settle a (mk_Voting (Signers s1) (ballots (Votes s1)) log) = mk_Voting (Signers s1) (ballots (Votes s1)) log) as -> by (unfold settle; cbn [authorised standing]; by rewrite (proj2 (Nat.ltb_ge _ _)) by lia).
    split; [done|done|by rewrite EV|]. cbn [andb] in ER. split; rewrite ER, Es; [done|]. eapply covers_mono; [|exact Hc]. lia.
Qed.

(** ** Blocks *)
Lemma applySigned_refines c n a nonce signer s v : 0 <= n -> represents n s v ->
  match protocolStep ((n + 1) mod Epoch c =? 0) signer a (voteOf nonce) v with
  | inl err => applySigned c (n + 1) a nonce signer (startBlock c (n + 1) s) = inl err
  | inr v' => exists s', applySigned c (n + 1) a nonce signer (startBlock c (n + 1) s) = inr s' /\ represents (n + 1) s' v' /\ Number s' = Number s
  end.
Proof.
  intros Hn Hrep. destruct (startBlock_represents c n s v Hrep) as (Ht & Es & Eb & EN). destruct (startBlock_window c n s v Hrep) as [Hw Hc]. set (s1 := startBlock c (n + 1) s) in *. clearbody s1. clear Hrep.
  unfold protocolStep, applySigned. rewrite Es. destruct (decide (signer ∉ authorised v)) as [Ha|Ha]; [by rewrite bool_decide_false|]. apply dec_stable in Ha. rewrite bool_decide_true by done. cbn [negb].
  assert (signedRecently signer s1 = bool_decide (mayNotSign signer v)) as -> by (apply eq_bool_prop_intro; rewrite bool_decide_spec, Is_true_true, signedRecently_iff; by apply (window_iff n)).
  destruct (decide (mayNotSign signer v)) as [Hm|Hm]; [by rewrite bool_decide_true|]. rewrite bool_decide_false by done. destruct (voteOf nonce) as [authorize|]; [|done].
  destruct (insert_window n (half (authorised v)) signer (Recents s1) (signed v) Hn Hw Hc) as [Hw' Hc']. rewrite <- Es in Hw', Hc', Ha.
  destruct (countVote_refines (n + 1) signer a authorize (set_Recents (<[n + 1 := signer]> (Recents s1)) s1) (signer :: signed v)) as [Hr EN']; [by apply tallied_frame|done..|].
  eexists. split; [done|]. cbn [Signers set_Recents Votes] in Hr. rewrite Eb, Es in Hr. split; [exact Hr|]. rewrite EN'. exact EN.
Qed.

Import clique.
#[local] Open Scope Z_scope.

Section chain.
Context {K C : Type}.
Context (c : CliqueConfig) (hashOf : Header K -> hash) (keccak256 : list Byte.byte -> hash) (Ecrecover : hash -> list Byte.byte -> option (list Byte.byte)).
Context (cacheGet : C -> hash -> option address) (cacheAdd : C -> hash -> address -> C) (pooled : encbuf.encbuf).
#[local] Notation recover := (ecrecover hashOf keccak256 Ecrecover cacheGet cacheAdd pooled).
#[local] Notation applyOne := (applyHeader c hashOf keccak256 Ecrecover cacheGet cacheAdd pooled).
#[local] Notation applyAll := (applyHeaders c hashOf keccak256 Ecrecover cacheGet cacheAdd pooled).
#[local] Notation applyChain := (apply c hashOf keccak256 Ecrecover cacheGet cacheAdd pooled).

(** The keys that the seals of the headers give, one after the other. *)
Fixpoint sealedBy (headers : list (Header K)) (sigs : C) (signers : list address) (sigs' : C) : Prop :=
  match headers, signers with
  | [], [] => sigs' = sigs
  | h :: headers, a :: signers => exists sigs1, recover h sigs = Ok (inr a, sigs1) /\ sealedBy headers sigs1 signers sigs'
  | _, _ => False
  end.

(** Headers that follow block [n]. *)
Fixpoint numbered (n : Z) (headers : list (Header K)) : Prop :=
  match headers with [] => True | h :: headers => headerNumber h = Ok (n + 1) /\ numbered (n + 1) headers end.

Fixpoint protocolRun (n : Z) (blocks : list (Header K * address)) (v : Voting) : CliqueError + Voting :=
  match blocks with
  | [] => inr v
  | (h, signer) :: blocks =>
      match protocolStep ((n + 1) mod Epoch c =? 0) signer (Coinbase h) (voteOf (HNonce h)) v with
      | inl err => inl err
      | inr v => protocolRun (n + 1) blocks v
      end
  end.

Lemma applyHeader_refines n header s v signer sigs sigs' : 0 <= n -> Epoch c <> 0 -> represents n s v -> headerNumber header = Ok (n + 1) -> recover header sigs = Ok (inr signer, sigs') ->
  match protocolStep ((n + 1) mod Epoch c =? 0) signer (Coinbase header) (voteOf (HNonce header)) v with
  | inl err => exists s1, applyOne header (s, sigs) = Ok (inl err, (s1, sigs'))
  | inr v' => exists s', applyOne header (s, sigs) = Ok (inr tt, (s', sigs')) /\ represents (n + 1) s' v' /\ Number s' = Number s
  end.
Proof.
  intros Hn He Hrep Hnum Hrec. pose proof (applySigned_refines c n (Coinbase header) (HNonce header) signer s v Hn Hrep) as Href.
  unfold applyHeader. rewrite Hnum. cbn [mbind outcome_bind]. unfold rem64. rewrite (proj2 (Z.eqb_neq (Epoch c) 0)) by done. cbn [mbind outcome_bind]. rewrite Hrec. cbn [mbind outcome_bind].
  destruct (protocolStep _ _ _ _ _) as [err|v']; [rewrite Href; by eexists|]. destruct Href as (s' & -> & Hr). by exists s'.
Qed.

Lemma applyHeaders_refines : forall headers n s v signers sigs sigs', 0 <= n -> Epoch c <> 0 -> represents n s v -> numbered n headers -> sealedBy headers sigs signers sigs' ->
  match protocolRun n (combine headers signers) v with
  | inl err => exists s1 sigs1, applyAll headers (s, sigs) = Ok (inl err, (s1, sigs1))
  | inr v' => exists s', applyAll headers (s, sigs) = Ok (inr tt, (s', sigs')) /\ represents (n + len headers) s' v' /\ Number s' = Number s
  end.
Proof.
  induction headers as [|h headers IH]; intros n s v [|a signers] sigs sigs' Hn He Hrep Hnum Hsig; try done.
  - cbn in Hsig. subst. exists s. rewrite Z.add_0_r. by split_and!.
  - destruct Hnum as [Hh Hnum]. destruct Hsig as (sigs1 & Hrec & Hsig). cbn [combine protocolRun applyHeaders]. pose proof (applyHeader_refines n h s v a sigs sigs1 Hn He Hrep Hh Hrec) as Href.
    destruct (protocolStep _ _ _ _ _) as [err|v1]; [destruct Href as [s1 E]; exists s1, sigs1; by erewrite M_bind_Ok by exact E|]. destruct Href as (s1 & E & Hr1 & EN1).
    specialize (IH (n + 1) s1 v1 signers sigs1 sigs' ltac:(lia) He Hr1 Hnum Hsig). destruct (protocolRun _ _ v1) as [err|v'].
    + destruct IH as (s2 & sigs2 & E2). exists s2, sigs2. by erewrite M_bind_Ok by exact E.
    + destruct IH as (s' & E2 & Hr2 & EN2). exists s'. split_and!; [by erewrite M_bind_Ok by exact E| |congruence]. by replace (n + len (h :: headers)) with (n + 1 + len headers) by (unfold len; cbn [length]; lia).
Qed.

Lemma numbered_contiguous : forall headers n h, headerNumber h = Ok n -> numbered n headers -> 0 <= n -> n + len headers < 2 ^ 64 -> contiguous h headers = Ok true.
Proof.
  induction headers as [|h' headers IH]; intros n h Hh Hnum Hn Hlen; [done|]. destruct Hnum as [Hh' Hnum]. unfold len in Hlen. cbn [length] in Hlen. cbn [contiguous]. rewrite Hh', Hh. cbn [mbind outcome_bind].
  rewrite u64_small, Z.eqb_refl by (unfold is_u64; lia). cbn [negb]. apply (IH (n + 1)); [done..|lia|unfold len; lia].
Qed.

Lemma apply_refines headers s v signers sigs sigs' :
  0 <= Number s -> Number s + len headers < 2 ^ 64 -> Epoch c <> 0 -> represents (Number s) s v -> numbered (Number s) headers -> sealedBy headers sigs signers sigs' ->
  match protocolRun (Number s) (combine headers signers) v with
  | inl err => exists sigs1, applyChain headers s sigs = Ok (inl err, sigs1)
  | inr v' => exists s', applyChain headers s sigs = Ok (inr s', sigs') /\ Number s' = Number s + len headers /\ represents (Number s') s' v'
  end.
Proof.
  intros Hn Hlen He Hrep Hnum Hsig. destruct headers as [|h0 rest].
  { destruct signers; [|done]. cbn in Hsig |- *. subst. exists s. unfold len. cbn. split_and!; [done|lia|done]. }
  pose proof (applyHeaders_refines (h0 :: rest) (Number s) s v signers sigs sigs' Hn He Hrep Hnum Hsig) as Href. destruct Hnum as [H0 Hrest]. unfold apply.
  rewrite (numbered_contiguous rest (Number s + 1) h0 H0 Hrest) by (unfold len in *; cbn [length] in *; lia). rewrite H0. cbn [mbind outcome_bind negb]. rewrite u64_small, Z.eqb_refl by (unfold is_u64, len in *; cbn [length] in *; lia). cbn [negb].
  destruct (protocolRun _ _ v) as [err|v'].
  - destruct Href as (s1 & sigs1 & ->). cbn [mbind outcome_bind]. by eexists.
  - destruct Href as (s' & -> & Hr & EN). cbn [mbind outcome_bind]. eexists. split; [done|]. cbn [Number]. rewrite EN, u64_small by (unfold is_u64, len in *; lia). split; [done|]. by destruct Hr as [[? ? ? ?] ? ? [? ?]].
Qed.
End chain.

(** C5: The snapshots implement the protocol: over headers that follow the snapshot,
    apply returns what the protocol does with the signers that the seals give;
    it fails with the protocol's error, and otherwise its snapshot represents the
    protocol's state: the authorised signers, changed by majorities only, the
    standing votes with their tallies, and the recent signers. *)
Theorem clique_apply_refines {K C} c hashOf keccak256 Ecrecover cacheGet cacheAdd pooled (headers : list (Header K)) s v signers (sigs sigs' : C) :
  0 <= Number s -> Number s + len headers < 2 ^ 64 -> Epoch c <> 0 -> represents (Number s) s v -> numbered (Number s) headers ->
  sealedBy hashOf keccak256 Ecrecover cacheGet cacheAdd pooled headers sigs signers sigs' ->
  match protocolRun c (Number s) (combine headers signers) v with
  | inl err => exists sigs1, apply c hashOf keccak256 Ecrecover cacheGet cacheAdd pooled headers s sigs = Ok (inl err, sigs1)
  | inr v' => exists s', apply c hashOf keccak256 Ecrecover cacheGet cacheAdd pooled headers s sigs = Ok (inr s', sigs') /\
      Number s' = Number s + len headers /\ represents (Number s') s' v'
  end.
Proof. apply apply_refines. Qed.

(** ** Who can sign *)
Lemma free_signer v : authorised v <> ∅ -> exists a, a ∈ authorised v /\ ~ mayNotSign a v.
Proof.
  intros Hne. destruct (decide (set_Exists (fun a => ~ mayNotSign a v) (authorised v))) as [(a & Ha & Hn)|Hall]; [by exists a|]. exfalso.
  assert (incl (elements (authorised v)) (take (half (authorised v)) (signed v))) as Hincl.
  { intros a Ha. apply list_elem_of_In. destruct (decide (mayNotSign a v)); [done|]. exfalso. apply Hall. exists a. split; [|done]. by apply elem_of_elements, list_elem_of_In. }
  apply NoDup_incl_length in Hincl; [|apply NoDup_ListNoDup, NoDup_elements]. rewrite length_take in Hincl. change (length (elements (authorised v))) with (base.size (authorised v)) in Hincl.
  assert (base.size (authorised v) <> O) by (by intros E%size_empty_inv%leibniz_equiv). assert (half (authorised v) < base.size (authorised v))%nat by (apply Nat.div_lt; lia). lia.
Qed.

Lemma tooRecent_iff number signer s : tooRecent number signer s = true <-> exists k, Recents s !! k = Some signer /\ u64 (number - limitOf s) < k.
Proof.
  unfold tooRecent. rewrite existsb_exists. split.
  - intros ([k a] & Hin & [Ha%N.eqb_eq Hk%Z.ltb_lt]%andb_prop). cbn in *. subst. exists k. split; [|done]. by apply elem_of_map_to_list, list_elem_of_In.
  - intros (k & Hk & Hlt). exists (k, signer). split; [by apply list_elem_of_In, elem_of_map_to_list|]. cbn. by rewrite N.eqb_refl, (proj2 (Z.ltb_lt _ _)).
Qed.

Lemma mustWait_iff number signer s : mustWait number signer s = true <-> exists k, Recents s !! k = Some signer /\ (number < limitOf s \/ u64 (number - limitOf s) < k).
Proof.
  unfold mustWait. rewrite existsb_exists. split.
  - intros ([k a] & Hin & [Ha%N.eqb_eq Hk]%andb_prop). apply orb_prop in Hk. rewrite !Z.ltb_lt in Hk. cbn in *. subst. exists k. split; [|done]. by apply elem_of_map_to_list, list_elem_of_In.
  - intros (k & Hk & Hlt). exists (k, signer). split; [by apply list_elem_of_In, elem_of_map_to_list|]. cbn. rewrite N.eqb_refl. rewrite <- !Z.ltb_lt in Hlt. by apply orb_true_intro.
Qed.

(** The recent entries that the next block still looks at. *)
Lemma mayNotSign_iff n s v signer : represents n s v -> mayNotSign signer v <-> exists k, Recents s !! k = Some signer /\ n + 1 - limitOf s < k.
Proof.
  intros [_ Es _ [Hw Hc]]. unfold mayNotSign. rewrite limitOf_half, Es in *. rewrite list_elem_of_lookup. setoid_rewrite lookup_take_Some. split.
  - intros (i & Hi & Hlt). exists (n - Z.of_nat i). split; [by apply Hc|lia].
  - intros (k & Hk & Hlt). destruct (Hw k signer Hk) as (? & ? & Hl). exists (Z.to_nat (n - k)). split; [done|lia].
Qed.

Lemma waiting_iff s v signer : represents (Number s) s v -> 0 <= Number s -> Number s + 1 < 2 ^ 64 -> Z.of_nat (base.size (Signers s)) < 2 ^ 64 ->
  (mustWait (Number s + 1) signer s = true <-> mayNotSign signer v) /\
  (tooRecent (Number s + 1) signer s = true <-> limitOf s <= Number s + 1 /\ mayNotSign signer v) /\
  (forall log, signed v = signer :: log -> (2 <= base.size (Signers s))%nat -> limitOf s <= Number s -> tooRecent (Number s) signer s = true).
Proof.
  intros Hrep Hn Hlt Hsz. rewrite (mayNotSign_iff _ _ _ signer Hrep), mustWait_iff, tooRecent_iff. pose proof Hrep as [_ Es _ [Hw Hc]]. pose proof (limitOf_half s) as El. assert (half (Signers s) <= base.size (Signers s))%nat as Hh by (apply Nat.Div0.div_le_upper_bound; lia).
  assert (forall m, limitOf s <= m -> m < 2 ^ 64 -> u64 (m - limitOf s) = m - limitOf s) as Hfit by (intros m ? ?; apply u64_small; unfold is_u64; lia). split_and!.
  - split; intros (k & Hk & H); exists k; (split; [done|]); destruct (Hw k signer Hk) as (? & ? & ?); destruct (Z.lt_ge_cases (Number s + 1) (limitOf s)); [lia|rewrite Hfit in H by lia; lia|by left|right; rewrite Hfit by lia; lia].
  - split.
    + intros (k & Hk & H). destruct (Hw k signer Hk) as (? & ? & ?). destruct (Z.lt_ge_cases (Number s + 1) (limitOf s)) as [Hl|Hl]; [|rewrite Hfit in H by lia; split; [lia|]; exists k; split; [done|lia]].
      exfalso. assert (u64 (Number s + 1 - limitOf s) = Number s + 1 - limitOf s + 2 ^ 64) as E by (unfold u64; rewrite <- (Z_mod_plus_full _ 1 (2 ^ 64)), Z.mod_small; lia). lia.
    + intros (Hl & k & Hk & H). exists k. split; [done|]. rewrite Hfit by lia. lia.
  - intros log El' H2 Hl. apply tooRecent_iff. exists (Number s). split; [|rewrite Hfit by lia; lia]. assert (signed v !! 0%nat = Some signer) as H0 by (by rewrite El'). apply Hc in H0; [by rewrite Z.sub_0_r in H0|]. unfold half. pose proof (Nat.Div0.div_le_mono 2 (base.size (Signers s)) 2 H2) as H1. change (2 / 2)%nat with 1%nat in H1. lia.
Qed.

(** C27: The three tests for a signer who has to wait.  Seal's is the protocol's, on
    every block.  verifySeal's is the protocol's from the block on whose number
    is the size of the window; before it the subtraction wraps and nobody is
    refused, although apply refuses the same block.  On the snapshot that already
    holds the block, which VerifySeal takes, it refuses the block's own signer. *)
Theorem clique_waiting s v signer : represents (Number s) s v -> 0 <= Number s -> Number s + 1 < 2 ^ 64 -> Z.of_nat (base.size (Signers s)) < 2 ^ 64 ->
  (mustWait (Number s + 1) signer s = true <-> mayNotSign signer v) /\
  (tooRecent (Number s + 1) signer s = true <-> limitOf s <= Number s + 1 /\ mayNotSign signer v) /\
  (forall log, signed v = signer :: log -> (2 <= base.size (Signers s))%nat -> limitOf s <= Number s -> tooRecent (Number s) signer s = true).
Proof. apply waiting_iff. Qed.

(** C17: While there are signers, one of them need not wait: a block that it signs
    after the snapshot, with a vote or none to count, is applied, and the new
    snapshot again represents a state of the protocol. *)
Theorem clique_never_stalls {K C} c hashOf keccak256 Ecrecover cacheGet cacheAdd pooled s v :
  represents (Number s) s v -> Signers s <> ∅ -> 0 <= Number s -> Number s + 1 < 2 ^ 64 -> Z.of_nat (base.size (Signers s)) < 2 ^ 64 -> Epoch c <> 0 ->
  exists signer, signer ∈ Signers s /\ mustWait (Number s + 1) signer s = false /\ tooRecent (Number s + 1) signer s = false /\
    forall (header : Header K) (sigs sigs' : C), headerNumber header = Ok (Number s + 1) ->
      ecrecover hashOf keccak256 Ecrecover cacheGet cacheAdd pooled header sigs = Ok (inr signer, sigs') -> voteOf (HNonce header) <> None ->
      exists s' v', apply c hashOf keccak256 Ecrecover cacheGet cacheAdd pooled [header] s sigs = Ok (inr s', sigs') /\ Number s' = Number s + 1 /\ represents (Number s') s' v'.
Proof.
  intros Hrep Hne Hn Hlt Hsz He. pose proof (rep_signers _ _ _ Hrep) as Es. destruct (free_signer v) as (signer & Ha & Hfree); [by rewrite <- Es|].
  destruct (waiting_iff s v signer Hrep Hn Hlt Hsz) as (Hm & Ht & _). exists signer. rewrite Es. split_and!; [done|apply not_true_is_false; tauto..|].
  intros header sigs sigs' Hnum Hrec Hvote. pose proof (apply_refines c hashOf keccak256 Ecrecover cacheGet cacheAdd pooled [header] s v [signer] sigs sigs' Hn Hlt He Hrep (conj Hnum I) (ex_intro _ sigs' (conj Hrec eq_refl))) as Href.
  cbn [combine protocolRun] in Href. unfold protocolStep in Href. rewrite decide_False in Href by (intros Hx; by apply Hx). rewrite decide_False in Href by done. destruct (voteOf (HNonce header)) as [au|]; [|done]. destruct Href as (s' & E & EN & Hr). by eexists s', _.
Qed.

(** ** Turns *)
(** How many signers have a smaller address. *)
Definition rank (signer : address) (S : gset address) : nat := base.size (filter (fun a => (a < signer)%N) S).

Lemma no_smaller (signer : address) : forall l, (forall x, In x l -> (signer <= x)%N) -> filter (fun a => (a < signer)%N) l = [].
Proof. induction l as [|x l IH]; intros Hall; [done|]. rewrite filter_cons_False by (specialize (Hall x (or_introl eq_refl)); lia). apply IH. intros y Hy. apply Hall. by right. Qed.

Lemma offsetOf_sorted signer : forall l, StronglySorted ascending l -> NoDup l -> signer ∈ l -> offsetOf signer l = Z.of_nat (length (filter (fun a => (a < signer)%N) l)).
Proof.
  induction l as [|x l IH]; intros Hs Hnd Hin; [by apply not_elem_of_nil in Hin|]. inversion_clear Hs as [|? ? Hl Hall]. apply list.NoDup_cons in Hnd as [Hx Hnd]. cbn [offsetOf]. rewrite Forall_forall in Hall. unfold ascending in Hall. destruct (N.eqb_spec x signer) as [->|Hne].
  - rewrite filter_cons_False by lia. rewrite no_smaller by done. done.
  - assert (signer ∈ l) as Hin' by (apply elem_of_cons in Hin as [->|?]; done). pose proof (Hall signer (proj1 (list_elem_of_In _ _) Hin')). rewrite filter_cons_True by lia. cbn [length]. rewrite IH by done. lia.
Qed.

Lemma GetSigners_perm s : GetSigners s ≡ₚ elements (Signers s).
Proof. apply merge_sort_Permutation. Qed.

Lemma filter_elements_size (P : address -> Prop) `{!forall a, Decision (P a)} (S : gset address) : length (filter P (elements S)) = base.size (filter P S).
Proof.
  change (base.size (filter P S)) with (length (elements (filter P S))). apply Permutation_length, NoDup_Permutation; [apply list.NoDup_filter, NoDup_elements|apply NoDup_elements|].
  intros a. by rewrite list_elem_of_filter, !elem_of_elements, elem_of_filter.
Qed.

Lemma inturn_rank number signer s : signer ∈ Signers s ->
  inturn number signer s = Ok (number mod Z.of_nat (base.size (Signers s)) =? Z.of_nat (rank signer (Signers s))).
Proof.
  intros Hin. unfold inturn. pose proof (GetSigners_perm s) as Hp. assert (len (GetSigners s) = Z.of_nat (base.size (Signers s))) as -> by (unfold len; by rewrite Hp).
  assert (base.size (Signers s) <> O) by (intros E%size_empty_inv; set_solver). unfold rem64. rewrite (proj2 (Z.eqb_neq (Z.of_nat _) 0)) by lia. cbn [mbind outcome_bind]. do 2 f_equal.
  rewrite offsetOf_sorted; [|apply (StronglySorted_merge_sort ascending); repeat intros ?; unfold ascending in *; lia|by rewrite Hp; apply NoDup_elements|by rewrite Hp; apply elem_of_elements].
  f_equal. unfold rank. rewrite <- filter_elements_size. apply Permutation_length. by rewrite Hp.
Qed.

Lemma rank_bound signer S : signer ∈ S -> (rank signer S < base.size S)%nat.
Proof. intros Hin. unfold rank. apply subset_size. split; [set_solver|]. intros Hsub. specialize (Hsub signer Hin). apply elem_of_filter in Hsub as [? _]. lia. Qed.

Lemma rank_mono x y S : x ∈ S -> (x < y)%N -> (rank x S < rank y S)%nat.
Proof.
  intros Hx Hlt. unfold rank. apply subset_size. split; [intros a; rewrite !elem_of_filter; intros [? ?]; split; [lia|done]|]. intros Hsub. assert (x ∈ filter (fun a => (a < y)%N) S) as Hin by (by apply elem_of_filter). specialize (Hsub x Hin). apply elem_of_filter in Hsub as [? _]. lia.
Qed.

(** Turns go round: a signer is in turn exactly at the blocks whose number, by
    the number of signers, leaves its place in the order of addresses; so no two
    are in turn at once and each is in every round. *)
Theorem inturn_round_robin s : forall signer, signer ∈ Signers s ->
  (forall number, inturn number signer s = Ok (number mod Z.of_nat (base.size (Signers s)) =? Z.of_nat (rank signer (Signers s)))) /\
  (forall number other, other ∈ Signers s -> inturn number signer s = Ok true -> inturn number other s = Ok true -> other = signer) /\
  (forall start, exists number, start <= number < start + Z.of_nat (base.size (Signers s)) /\ inturn number signer s = Ok true).
Proof.
  intros signer Hin. pose proof (rank_bound signer (Signers s) Hin) as Hb. split_and!.
  - intros number. by apply inturn_rank.
  - intros number other Ho. rewrite !inturn_rank by done. intros [= H1%Z.eqb_eq] [= H2%Z.eqb_eq]. destruct (N.lt_trichotomy other signer) as [Hlt|[->|Hlt]]; [|done|]; apply (rank_mono _ _ (Signers s)) in Hlt; done || lia.
  - intros start. set (m := Z.of_nat (base.size (Signers s))) in *. set (r := Z.of_nat (rank signer (Signers s))) in *. exists (start + (r - start) mod m). pose proof (Z.mod_pos_bound (r - start) m). split; [lia|].
    rewrite inturn_rank by done. fold m r. f_equal. apply Z.eqb_eq. rewrite Zplus_mod_idemp_r. replace (start + (r - start)) with r by lia. apply Z.mod_small. lia.
Qed.

(** ** Prepare *)
Section prepare.
Context {K C R D : Type}.
Context (c : CliqueConfig) (hashOf : Header K -> hash) (keccak256 : list Byte.byte -> hash) (Ecrecover : hash -> list Byte.byte -> option (list Byte.byte)).
Context (cacheGet : C -> hash -> option address) (cacheAdd : C -> hash -> address -> C) (pooled : encbuf.encbuf).
Context (recentsGet : R -> hash -> option Snapshot) (recentsAdd : R -> hash -> Snapshot -> R).
Context (dbGet : D -> Z -> hash -> option Snapshot) (dbPut : D -> Snapshot -> option D) (checkpointInterval : Z).
Context (GetHeader : hash -> Z -> option (Header K)) (GetHeaderByNumber : Z -> option (Header K)) (now : Z).
Context (proposals : gmap address bool) (choice : list address -> address).
#[local] Notation snapshotAt := (getSnapshot c hashOf keccak256 Ecrecover cacheGet cacheAdd pooled recentsGet recentsAdd dbGet dbPut checkpointInterval GetHeader GetHeaderByNumber).
#[local] Notation prepare := (Prepare c hashOf keccak256 Ecrecover cacheGet cacheAdd pooled recentsGet recentsAdd dbGet dbPut checkpointInterval GetHeader GetHeaderByNumber now proposals choice).

(** The header with a seal in place of the last 65 bytes. *)
Definition sealedWith (seal : list Byte.byte) (h : Header K) : Header K := set_seal (HDifficulty h) (take (length (Extra h) - 65) (Extra h) ++ seal) (MixDigest h) h.

(** The rules of verifyHeader on the vote, the extra data and the difficulty. *)
Record votingRules (number : Z) (h : Header K) : Prop := mk_votingRules {
  vr_vote : voteOf (HNonce h) <> None;
  vr_checkpoint : number mod Epoch c = 0 -> Coinbase h = 0%N /\ voteOf (HNonce h) = Some false /\ (len (Extra h) - ExtraVanity - ExtraSeal) mod 20 = 0;
  vr_extra : ExtraVanity + ExtraSeal <= len (Extra h) /\ (number mod Epoch c <> 0 -> len (Extra h) = ExtraVanity + ExtraSeal);
  vr_mix : MixDigest h = 0%N;
  vr_difficulty : HDifficulty h = Some DiffInTurn \/ HDifficulty h = Some diffNoTurn
}.

Lemma voteOf_auth : voteOf NonceAuthVote = Some true.
Proof. reflexivity. Qed.

Lemma voteOf_drop : voteOf nonceDropVote = Some false.
Proof. reflexivity. Qed.

(** The vote that is cast: none at checkpoints, else a proposal that counts. *)
Lemma castProposal_spec number snap (h : Header K) : Epoch c <> 0 -> Coinbase h = 0%N -> HNonce h = nonceDropVote -> (forall x l, In (choice (x :: l)) (x :: l)) ->
  exists a nonce, castProposal c proposals choice number snap h = Ok (set_identity a nonce h) /\
    ((a = 0%N /\ nonce = nonceDropVote) \/ (number mod Epoch c <> 0 /\ exists authorize, proposals !! a = Some authorize /\ voteOf nonce = Some authorize /\ validVote a authorize snap = true)).
Proof.
  intros He Hc Hn Hch. unfold castProposal, rem64. rewrite (proj2 (Z.eqb_neq (Epoch c) 0)) by done. cbn [mbind outcome_bind].
  assert (h = set_identity 0%N nonceDropVote h) as Eh by (rewrite <- Hc, <- Hn; by destruct h). destruct (Z.eqb_spec (number mod Epoch c) 0) as [E0|E0]; [exists 0%N, nonceDropVote; split; [by rewrite <- Eh|by left]|].
  destruct (filter _ _) as [|p ps] eqn:Ef; [exists 0%N, nonceDropVote; split; [by rewrite <- Eh|by left]|]. eexists _, _. split; [done|]. right. split; [done|].
  specialize (Hch p.1 (map fst ps)). change (p.1 :: map fst ps) with (map fst (p :: ps)) in Hch. set (a := choice _) in *. apply in_map_iff in Hch as ([a' au] & Ea & Hin). cbn in Ea. subst a'.
  rewrite <- Ef in Hin. apply list_elem_of_In, list_elem_of_filter in Hin as [Hv Hin%elem_of_map_to_list]. cbn in Hv. exists au. rewrite Hin. cbn. split_and!; [done| |done]. by destruct au.
Qed.

Lemma len_addresses l : len (concat (map addrBytes l)) = 20 * len l.
Proof. induction l as [|a l IH]; [done|]. cbn [map concat]. rewrite len_app, len_cons, IH. unfold addrBytes, len at 1. rewrite length_be_split. lia. Qed.

Lemma Prepare_inv_clique fuel signer (h : Header K) e h' e' number snap : headerNumber h = Ok number -> Epoch c <> 0 -> (forall x l, In (choice (x :: l)) (x :: l)) ->
  snapshotAt fuel (u64 (number - 1)) (ParentHash h) [] e = Ok (inr snap, e') -> prepare fuel signer h e = Ok ((None, h'), e') ->
  exists a nonce difficulty parent time,
    ((a = 0%N /\ nonce = nonceDropVote) \/ (number mod Epoch c <> 0 /\ exists authorize, proposals !! a = Some authorize /\ voteOf nonce = Some authorize /\ validVote a authorize snap = true)) /\
    calcDifficulty snap signer = Ok difficulty /\ GetHeader (ParentHash h) (u64 (number - 1)) = Some parent /\ u64 (Time parent + Period c) <= time /\
    h' = set_Time time (set_seal (Some difficulty) (vanityOf (Extra h) ++ (if number mod Epoch c =? 0 then concat (map addrBytes (GetSigners snap)) else []) ++ replicate 65 Byte.x00) 0%N (set_identity a nonce h)).
Proof.
  intros En He Hch Hs. unfold Prepare. set (h0 := set_identity 0%N (replicate 8 Byte.x00) h). assert (headerNumber h0 = Ok number) as -> by exact En. cbn [mbind outcome_bind]. change (ParentHash h0) with (ParentHash h). rewrite Hs. cbn [mbind outcome_bind].
  destruct (castProposal_spec number snap h0 He eq_refl eq_refl Hch) as (a & nonce & -> & Hcast). cbn [mbind outcome_bind]. destruct (calcDifficulty snap signer) as [difficulty| | |] eqn:Ed; try done. cbn [mbind outcome_bind].
  unfold rem64. rewrite (proj2 (Z.eqb_neq (Epoch c) 0)) by done. cbn [mbind outcome_bind]. change (ParentHash (set_seal _ _ _ (set_identity _ _ h0))) with (ParentHash h). destruct (GetHeader _ _) as [parent|] eqn:Ep; [|done].
  intros [= <-]. exists a, nonce, difficulty, parent, (if u64 (Time parent + Period c) <? now then now else u64 (Time parent + Period c)). split_and!; try done. destruct (Z.ltb_spec (u64 (Time parent + Period c)) now); lia.
Qed.

Lemma take_sealed (vanity signers seal seal' : list Byte.byte) : length seal = 65%nat -> take (length (vanity ++ signers ++ seal) - 65) (vanity ++ signers ++ seal) ++ seal' = vanity ++ signers ++ seal'.
Proof. intros Hs. rewrite (app_assoc vanity signers seal), take_app_length' by (rewrite !length_app; lia). by rewrite <- app_assoc. Qed.

(** C26: A header that Prepare made for a signer who need not wait, under any seal of
    the right length, obeys the rules of verifyHeader on votes, extra data and
    difficulty, lists the signers at a checkpoint, follows its parent in time, and
    passes the checks of the seal; a vote in it is a proposal that counts. *)
Theorem clique_prepared_accepted fuel signer (h : Header K) e h' e' number snap seal : headerNumber h = Ok number -> 0 < number -> Epoch c <> 0 -> (forall x l, In (choice (x :: l)) (x :: l)) ->
  snapshotAt fuel (number - 1) (ParentHash h) [] e = Ok (inr snap, e') -> Number snap = number - 1 -> signer ∈ Signers snap -> tooRecent number signer snap = false ->
  prepare fuel signer h e = Ok ((None, h'), e') -> length seal = 65%nat ->
  let sealed := sealedWith seal h' in
  votingRules number sealed /\ verifyCheckpoint c sealed number snap = Ok None /\ checkSeal false sealed number signer snap = Ok None /\
  (exists parent, GetHeader (ParentHash sealed) (number - 1) = Some parent /\ u64 (Time parent + Period c) <= Time sealed) /\
  (Coinbase sealed <> 0%N -> exists authorize, voteOf (HNonce sealed) = Some authorize /\ proposals !! Coinbase sealed = Some authorize /\ validVote (Coinbase sealed) authorize snap = true).
Proof.
  intros En Hn He Hch Hs Ens Hin Hrec Hp Hseal sealed. assert (is_u64 number) as Hu by (unfold headerNumber in En; destruct (BlockCodec.Number h); [injection En as <-; apply u64_range|done]).
  assert (u64 (number - 1) = number - 1) as Eu by (apply u64_small; unfold is_u64 in *; lia). rewrite <- Eu in Hs. destruct (Prepare_inv_clique _ _ _ _ _ _ _ _ En He Hch Hs Hp) as (a & nonce & difficulty & parent & time & Hcast & Ed & Epar & Htime & Eh').
  set (signers := if number mod Epoch c =? 0 then concat (map addrBytes (GetSigners snap)) else []) in *.
  assert (Extra sealed = vanityOf (Extra h) ++ signers ++ seal) as Ex by (unfold sealed, sealedWith; rewrite Eh'; cbn [Extra set_seal set_Time]; by apply take_sealed).
  assert (len (vanityOf (Extra h)) = 32) as Elv by apply len_vanityOf. assert (len seal = 65) as Els by (unfold len; lia).
  unfold calcDifficulty in Ed. rewrite Ens in Ed. replace (number - 1 + 1) with number in Ed by lia. rewrite (u64_small number) in Ed by done. rewrite (inturn_rank number signer snap Hin) in Ed. cbn [mbind outcome_bind] in Ed. injection Ed as Ed.
  assert (HDifficulty sealed = Some difficulty /\ MixDigest sealed = 0%N /\ Coinbase sealed = a /\ HNonce sealed = nonce /\ Time sealed = time /\ ParentHash sealed = ParentHash h) as (E1 & E2 & E3 & E4 & E5 & E6) by (unfold sealed, sealedWith; by rewrite Eh').
  assert (len (Extra sealed) = 97 + len signers) as Elx by (rewrite Ex, !len_app; lia). clearbody sealed. clear Eh' Hp.
  split_and!.
  - split; rewrite ?E1, ?E2, ?E3, ?E4, ?Elx; try done.
    + destruct Hcast as [[_ ->]|(_ & au & _ & -> & _)]; [by rewrite voteOf_drop|done].
    + intros H0. destruct Hcast as [[-> ->]|(Hne & _)]; [|done]. split_and!; [done|apply voteOf_drop|]. unfold signers. rewrite H0. cbn. rewrite len_addresses. replace (97 + 20 * len (GetSigners snap) - ExtraVanity - ExtraSeal) with (len (GetSigners snap) * 20) by (unfold ExtraVanity, ExtraSeal; lia). by apply Z.mod_mul.
    + pose proof (Nat2Z.is_nonneg (length signers)) as Hls. fold (len signers) in Hls. change ExtraVanity with 32. change ExtraSeal with 65. split; [lia|]. intros H0. unfold signers. rewrite (proj2 (Z.eqb_neq _ _)) by done. done.
    + rewrite <- Ed. case_match; auto.
  - unfold verifyCheckpoint, rem64. rewrite (proj2 (Z.eqb_neq (Epoch c) 0)) by done. cbn [mbind outcome_bind]. unfold signers in Ex. destruct (number mod Epoch c =? 0); [|done]. rewrite Elx, Ex. rewrite slice_app by (rewrite ?Elv; unfold ExtraVanity, ExtraSeal, signers; lia). cbn [mbind outcome_bind]. by rewrite bool_decide_true.
  - unfold checkSeal. rewrite bool_decide_true, Hrec, (inturn_rank number signer snap Hin) by done. cbn [negb mbind outcome_bind]. rewrite E1. cbn [or_panic mbind outcome_bind]. by rewrite <- Ed, Z.eqb_refl.
  - exists parent. rewrite E6, E5, <- Eu. by split.
  - rewrite E3, E4. intros Ha. destruct Hcast as [[-> _]|(_ & au & ? & ? & ?)]; [done|]. by exists au.
Qed.
End prepare.

(** * A concrete chain *)
Module cliquedemo.
Definition config : CliqueConfig := mk_CliqueConfig 15 30000.

(** A block: number, the parent's hash, the address voted on, the vote, and the
    signer in the last byte of the seal. *)
Definition sealedBlock (number : Z) (parentHash a : N) (nonce : list Byte.byte) (signer : Byte.byte) : Header unit :=
  mk_Header parentHash 5%N a 0%N 0%N 0%N (replicate 256 Byte.x00) (Some 1) (Some number) 10000000 21000 (number * 15) (replicate 96 Byte.x00 ++ [signer]) 0%N nonce 0 [] None None false [] tt 0%N 0%N.

Definition numberHash (h : Header unit) : hash := match BlockCodec.Number h with Some n => Z.to_N (n + 71) | None => 0%N end.

(** The key is the last byte of the seal, and its hash the number it is. *)
Definition lastByte (_ : hash) (sig : list Byte.byte) : option (list Byte.byte) := Some [Byte.x04; List.last sig Byte.x00].

Definition noGet (_ : unit) (_ : hash) : option address := None.
Definition noAdd (u : unit) (_ : hash) (_ : address) : unit := u.

(** Three signers at block 5; two of them vote for a fourth. *)
Definition snap5 : Snapshot := newSnapshot 5 76%N [1; 2; 3]%N.
Lemma signers5 a : In a [1; 2; 3]%N -> a ∈ Signers snap5.
Proof. intros Ha. by apply elem_of_list_to_set, list_elem_of_In. Qed.

Definition voting5 : Voting := mk_Voting (Signers snap5) ∅ [].
Definition headers67 : list (Header unit) := [sealedBlock 6 76%N 9%N NonceAuthVote Byte.x01; sealedBlock 7 77%N 9%N NonceAuthVote Byte.x02].

Lemma start_represents number h signers : represents number (newSnapshot number h signers) (mk_Voting (Signers (newSnapshot number h signers)) ∅ []).
Proof. split; [split; [constructor..|]; intros a; cbn; by rewrite lookup_empty|done|done|]. split; intros k a Hk; cbn in *; [by rewrite lookup_empty in Hk|done]. Qed.

Lemma sealed67 : sealedBy numberHash bytes_to_N lastByte noGet noAdd encbuf.new headers67 tt [1; 2]%N tt.
Proof. exists tt. split; [vm_compute; reflexivity|]. exists tt. split; [vm_compute; reflexivity|]. reflexivity. Qed.

Lemma clique_apply_refines_witness : match protocolRun config 5 (combine headers67 [1; 2]%N) voting5 with
  | inl _ => False
  | inr v' => authorised v' = list_to_set [1; 2; 3; 9]%N /\ standing v' = ∅ /\ signed v' = [2; 1]%N /\
      exists s', apply config numberHash bytes_to_N lastByte noGet noAdd encbuf.new headers67 snap5 tt = Ok (inr s', tt) /\ Number s' = 5 + 2 /\ represents (Number s') s' v'
  end.
Proof.
  pose proof (clique_apply_refines config numberHash bytes_to_N lastByte noGet noAdd encbuf.new headers67 snap5 voting5 [1; 2]%N tt tt ltac:(done) ltac:(done) ltac:(done) (start_represents 5 76%N [1; 2; 3]%N) (conj eq_refl (conj eq_refl I)) sealed67) as H.
  destruct (protocolRun config (Number snap5) _ _) as [err|v'] eqn:E; [vm_compute in E; discriminate|]. change (Number snap5) with 5 in E. rewrite E. vm_compute in E. injection E as <-. split_and!; [vm_compute; reflexivity..|exact H].
Defined.

Lemma clique_waiting_witness :
  (mustWait 6 1%N snap5 = true <-> mayNotSign 1%N voting5) /\ (tooRecent 6 1%N snap5 = true <-> limitOf snap5 <= 6 /\ mayNotSign 1%N voting5).
Proof. destruct (clique_waiting snap5 voting5 1%N (start_represents 5 76%N [1; 2; 3]%N) ltac:(done) ltac:(done) ltac:(vm_compute; reflexivity)) as (H1 & H2 & _). exact (conj H1 H2). Defined.

Lemma clique_never_stalls_witness : exists signer, signer ∈ Signers snap5 /\ mustWait 6 signer snap5 = false.
Proof.
  destruct (clique_never_stalls (K := unit) config numberHash bytes_to_N lastByte noGet noAdd encbuf.new snap5 voting5 (start_represents 5 76%N [1; 2; 3]%N) ltac:(vm_compute; discriminate) ltac:(done) ltac:(done) ltac:(vm_compute; reflexivity) ltac:(done)) as (signer & Hin & Hw & _).
  exact (ex_intro _ signer (conj Hin Hw)).
Defined.

Lemma inturn_round_robin_witness : inturn 7 2%N snap5 = Ok true /\ inturn 8 2%N snap5 = Ok false.
Proof. destruct (inturn_round_robin snap5 2%N (signers5 2%N ltac:(cbn; tauto))) as (H & _). split; [exact (H 7)|exact (H 8)]. Defined.

(** Proposals of this node: to admit 9, to drop 3. *)
Definition proposals : gmap address bool := {[9%N := true; 3%N := false]}.
Definition firstOf (l : list address) : address := match l with [] => 0%N | a :: _ => a end.

Lemma firstOf_in x l : In (firstOf (x :: l)) (x :: l).
Proof. by left. Qed.

Definition chain5 (h : hash) (n : Z) : option (Header unit) := if (h =? 76)%N && (n =? 5) then Some (sealedBlock 5 75%N 0%N nonceDropVote Byte.x03) else None.
Definition engine5 : Clique unit unit unit := mk_Clique tt tt tt.
Definition found5 (_ : unit) (h : hash) : option Snapshot := if (h =? 76)%N then Some snap5 else None.

Lemma clique_prepared_accepted_witness : exists h',
  Prepare config numberHash bytes_to_N lastByte noGet noAdd encbuf.new found5 (fun u _ _ => u) (fun _ _ _ => None) (fun _ _ => None) 1024 chain5 (fun _ => None) 100 proposals firstOf 3 1%N
    (sealedBlock 6 76%N 0%N nonceDropVote Byte.x00) engine5 = Ok ((None, h'), engine5) /\
  checkSeal false (sealedWith (replicate 64 Byte.x00 ++ [Byte.x01]) h') 6 1%N snap5 = Ok None /\ Coinbase h' = 9%N.
Proof.
  eexists. split; [vm_compute; reflexivity|]. split; [|reflexivity].
  exact (proj1 (proj2 (proj2 (clique_prepared_accepted config numberHash bytes_to_N lastByte noGet noAdd encbuf.new found5 (fun u _ _ => u) (fun _ _ _ => None) (fun _ _ => None) 1024 chain5 (fun _ => None) 100 proposals firstOf 3 1%N
    (sealedBlock 6 76%N 0%N nonceDropVote Byte.x00) engine5 _ engine5 6 snap5 (replicate 64 Byte.x00 ++ [Byte.x01]) eq_refl eq_refl ltac:(done) firstOf_in ltac:(vm_compute; reflexivity) eq_refl (signers5 1%N ltac:(cbn; tauto)) ltac:(vm_compute; reflexivity) ltac:(vm_compute; reflexivity) eq_refl)))).
Defined.

(** The last signer may vote itself out: the block is applied, nobody is left,
    and the next Prepare divides by zero. *)
Example clique_last_signer_leaves :
  exists s', apply config numberHash bytes_to_N lastByte noGet noAdd encbuf.new [sealedBlock 6 76%N 1%N nonceDropVote Byte.x01] (newSnapshot 5 76%N [1]%N) tt = Ok (inr s', tt) /\
    Signers s' = ∅ /\ calcDifficulty s' 1%N = Panic.
Proof. eexists. split; [vm_compute; reflexivity|]. split; vm_compute; reflexivity. Qed.
End cliquedemo.
