(* ===== verification/Receipts.v ===== *)
(** Receipts (core/types/receipt.go) and their logs (core/types/log.go): the
    consensus encoding, its decoder, the items under the receipts root, and the
    fields that are derived from the block.

    [*Log] has an EncodeRLP method, which encodes the struct rlpLog into the
    buffer it is called with, so that package rlp writes that struct in its place.
    Logs in a receipt are not nil.

    A receipt is read back, the receipts root is that of the Yellow Paper as long
    as no receipt is that of a deposit, which the root does not cover, and the
    derived fields are those of the block. *)
From S2P Require Import Prelude Uint256 StateTypes Accounts AccountSpec Transaction Rlp RlpStream RlpSpec StreamSpec StreamSafe RlpReflect RlpReflectSpec TxCodec TxCodecSpec.
From S2P Require Import TrieKeys HashBuilder GenStructStep DeriveSha PatriciaSpec GenStructSpec HashBuilderSpec DeriveShaSpec TrieTheorems.
#[local] Open Scope Z_scope.

Definition ReceiptStatusFailed : Z := 0.
Definition ReceiptStatusSuccessful : Z := 1.

Record Receipt := mk_Receipt {
  Type_ : Z;
  PostState : list Byte.byte;
  Status : Z;
  CumulativeGasUsed : Z;
  RBloom : list Byte.byte;
  Logs : list Log;
  RTxHash : hash;
  ContractAddress : address;
  RGasUsed : Z;
  RBlockHash : hash;
  BlockNumber : Z;
  TransactionIndex : Z
}.

Definition set_Type (t : Z) (r : Receipt) : Receipt :=
  mk_Receipt t (PostState r) (Status r) (CumulativeGasUsed r) (RBloom r) (Logs r) (RTxHash r) (ContractAddress r) (RGasUsed r) (RBlockHash r) (BlockNumber r) (TransactionIndex r).
Definition set_Status (s : Z) (r : Receipt) : Receipt :=
  mk_Receipt (Type_ r) (PostState r) s (CumulativeGasUsed r) (RBloom r) (Logs r) (RTxHash r) (ContractAddress r) (RGasUsed r) (RBlockHash r) (BlockNumber r) (TransactionIndex r).
Definition set_PostState (b : list Byte.byte) (r : Receipt) : Receipt :=
  mk_Receipt (Type_ r) b (Status r) (CumulativeGasUsed r) (RBloom r) (Logs r) (RTxHash r) (ContractAddress r) (RGasUsed r) (RBlockHash r) (BlockNumber r) (TransactionIndex r).
Definition set_payload (gas : Z) (bloom : list Byte.byte) (logs : list Log) (r : Receipt) : Receipt :=
  mk_Receipt (Type_ r) (PostState r) (Status r) gas bloom logs (RTxHash r) (ContractAddress r) (RGasUsed r) (RBlockHash r) (BlockNumber r) (TransactionIndex r).

Definition NewReceipt (failed : bool) (cumulativeGasUsed : Z) : Receipt :=
  mk_Receipt LegacyTxType [] (if failed then ReceiptStatusFailed else ReceiptStatusSuccessful) cumulativeGasUsed (replicate 256 Byte.x00) [] 0%N 0%N 0 0%N 0 0.

Definition receiptStatusFailedRLP : list Byte.byte := [].
Definition receiptStatusSuccessfulRLP : list Byte.byte := [Byte.x01].

Definition statusEncoding (r : Receipt) : list Byte.byte :=
  if len (PostState r) =? 0 then
    if Status r =? ReceiptStatusFailed then receiptStatusFailedRLP else receiptStatusSuccessfulRLP
  else PostState r.

(** [None] is the error. *)
Definition setStatus (postStateOrStatus : list Byte.byte) (r : Receipt) : option Receipt :=
  if bool_decide (map byte.unsigned postStateOrStatus = map byte.unsigned receiptStatusSuccessfulRLP) then Some (set_Status ReceiptStatusSuccessful r)
  else if bool_decide (map byte.unsigned postStateOrStatus = map byte.unsigned receiptStatusFailedRLP) then Some (set_Status ReceiptStatusFailed r)
  else if len postStateOrStatus =? 32 then Some (set_PostState postStateOrStatus r)
  else None.

(** * Encoding *)
Definition rlpLogType : ty := TStruct [(TByteArray 20, false); (TSlice false (TByteArray 32), false); (TBytes, false)].

Definition rlpLog (l : Log) : value :=
  VStruct [VByteArray (addrBytes (log_Address l)); VSlice (Some (map (fun t => VByteArray (hashBytes t)) (log_Topics l))); VBytes (Some (log_Data l))].

Definition receiptRLPType : ty := TPtr None (TStruct [(TBytes, false); (TUint 64, false); (TByteArray 256, false); (TSlice false rlpLogType, false)]).

Definition receiptRLP (r : Receipt) : value :=
  VPtr (Some (VStruct [VBytes (Some (statusEncoding r)); VUint (CumulativeGasUsed r); VByteArray (RBloom r); VSlice (Some (map rlpLog (Logs r)))])).

Definition Receipt_EncodeRLP (pooled : encbuf.encbuf) (r : Receipt) : outcome (RlpError + list Byte.byte) :=
  data ← Encode pooled receiptRLPType (receiptRLP r);
  if Type_ r =? LegacyTxType then Ok data
  else
    match data with
    | inl err => Ok (inl err)
    | inr bs => Encode pooled TBytes (VBytes (Some (byte.of_Z (Type_ r) :: bs)))
    end.

(** [if err := rlp.Encode(w, data); err != nil { panic(err) }]. *)
Definition encodeOrPanic (pooled : encbuf.encbuf) (r : Receipt) : outcome (list Byte.byte) :=
  data ← Encode pooled receiptRLPType (receiptRLP r);
  match data with inl _ => Panic | inr bs => Ok bs end.

(** Nothing is written for any other type. *)
Definition Receipts_EncodeIndex (pooled : encbuf.encbuf) (rs : list Receipt) (i : Z) : outcome (list Byte.byte) :=
  r ← or_panic (lookupZ rs i);
  if Type_ r =? LegacyTxType then encodeOrPanic pooled r
  else if Type_ r =? AccessListTxType then bs ← encodeOrPanic pooled r; Ok (byte.of_Z AccessListTxType :: bs)
  else if Type_ r =? DynamicFeeTxType then bs ← encodeOrPanic pooled r; Ok (byte.of_Z DynamicFeeTxType :: bs)
  else Ok [].

(** * Decoding *)
(** [&Log{}] with the fields of consensus. *)
Definition newLog (a : address) (topics : list hash) (data : list Byte.byte) : Log := mk_Log a topics data 0 0%N 0 0%N 0.

(** A log in a list that is open; the loop over the topics is the one over the
    keys of an access tuple. *)
Definition decodeLog : D Log :=
  let! b := wrapf Bytes in
  if negb (len b =? 20) then fail (wrongSize (len b))
  else
    let! _ := wrapf List_ in
    fuel ← loopFuel;
    let! topics := decodeKeys fuel [] in
    let! _ := wrapf ListEnd in
    let! data := wrapf Bytes in
    let! _ := wrapf ListEnd in
    ok (newLog (bytes_to_N b) topics data).

Fixpoint decodeLogs (fuel : nat) (logs : list Log) : D (list Log) :=
  match fuel with
  | O => out_of_fuel
  | S fuel =>
      opened ← List_;
      match opened with
      | inr _ => let! log := decodeLog in decodeLogs fuel (logs ++ [log])
      | inl err => if errors_Is err EOL then ok logs else fail (Wrapf err)
      end
  end.

(** The error of setStatus is dropped. *)
Definition decodePayload (r : Receipt) : D Receipt :=
  let! _ := List_ in
  let! b := wrapf Bytes in
  let r := default r (setStatus b r) in
  let! gas := wrapf Uint in
  let! bloom := wrapf Bytes in
  if negb (len bloom =? 256) then fail (wrongSize (len bloom))
  else
    let! _ := wrapf List_ in
    fuel ← loopFuel;
    let! logs := decodeLogs fuel [] in
    let! _ := wrapf ListEnd in
    let! _ := wrapf ListEnd in
    ok (set_payload gas bloom logs r).

Definition ErrTxTypeNotSupported : RlpError := unsupported.

Definition Receipt_DecodeRLP (r : Receipt) : D Receipt :=
  let! ks := Kind_ in
  match ks with
  | (List, _) => let! r := decodePayload r in ok (set_Type LegacyTxType r)
  | (String, size) =>
      _ ← NewList size;
      let! b := wrapf Bytes in
      match b with
      | [b] =>
          let t := byte.unsigned b in
          if (t =? AccessListTxType) || (t =? DynamicFeeTxType) then
            let! r := decodePayload (set_Type t r) in
            let! _ := ListEnd in
            ok r
          else fail ErrTxTypeNotSupported
      | _ => fail (Wrapf ErrWrongTxTypePrefix)
      end
  | (Byte, _) => fail ErrExpectedList
  end.

(** * Derived fields *)
(** Of a transaction: type, hash, recipient and nonce. *)
Record TxInfo := mk_TxInfo { ti_Type : Z; ti_Hash : hash; ti_To : option address; ti_Nonce : Z }.

Inductive DeriveError := txCountMismatch (txs receipts : Z) | senderCountMismatch (txs senders : Z).

Section derive.
Context (CreateAddress : address -> Z -> address).

Definition deriveLog (number : Z) (h txHash : hash) (i logIndex : Z) (l : Log) : Log :=
  mk_Log (log_Address l) (log_Topics l) (log_Data l) number txHash i h logIndex.

(** The loop over the logs of a receipt, from [logIndex]. *)
Fixpoint deriveLogs (number : Z) (h txHash : hash) (i logIndex : Z) (logs : list Log) : list Log :=
  match logs with
  | [] => []
  | l :: logs => deriveLog number h txHash i logIndex l :: deriveLogs number h txHash i (u64 (logIndex + 1)) logs
  end.

(** A turn of the loop: [previous] is the gas used before. *)
Definition deriveReceipt (h : hash) (number i logIndex : Z) (previous : option Z) (tx : TxInfo) (sender : address) (r : Receipt) : Receipt :=
  mk_Receipt (ti_Type tx) (PostState r) (Status r) (CumulativeGasUsed r) (RBloom r) (deriveLogs number h (ti_Hash tx) i logIndex (Logs r)) (ti_Hash tx)
    (match ti_To tx with None => CreateAddress sender (ti_Nonce tx) | Some _ => ContractAddress r end)
    (match previous with None => CumulativeGasUsed r | Some p => u64 (CumulativeGasUsed r - p) end) h number i.

Fixpoint deriveAll (h : hash) (number i logIndex : Z) (previous : option Z) (txs : list TxInfo) (senders : list address) (rs : list Receipt) : list Receipt :=
  match txs, senders, rs with
  | tx :: txs, sender :: senders, r :: rs =>
      deriveReceipt h number i logIndex previous tx sender r ::
      deriveAll h number (i + 1) (u64 (logIndex + len (Logs r))) (Some (CumulativeGasUsed r)) txs senders rs
  | _, _, _ => []
  end.

Definition DeriveFields (h : hash) (number : Z) (txs : list TxInfo) (senders : list address) (rs : list Receipt) : DeriveError + list Receipt :=
  if negb (len txs =? len rs) then inl (txCountMismatch (len txs) (len rs))
  else if negb (len senders =? len txs) then inl (senderCountMismatch (len txs) (len senders))
  else inr (deriveAll h number 0 0 None txs senders rs).
End derive.

(** * The reference encoding *)
Definition rlpLogBytes (l : Log) : list Byte.byte := rlpLst (rlpStr (addrBytes (log_Address l)) ++ rlpLst (rlpKeys (log_Topics l)) ++ rlpStr (log_Data l)).

Definition receiptFields (r : Receipt) : list Byte.byte :=
  rlpStr (statusEncoding r) ++ rlpNumber (CumulativeGasUsed r) ++ rlpStr (RBloom r) ++ rlpLst (concat (map rlpLogBytes (Logs r))).

(** A receipt as the list of the root has it. *)
Definition typedReceipt (r : Receipt) : list Byte.byte :=
  if Type_ r =? LegacyTxType then rlpLst (receiptFields r) else byte.of_Z (Type_ r) :: rlpLst (receiptFields r).

Definition log_ok (l : Log) : Prop := (log_Address l < 2 ^ 160)%N /\ Forall (fun t => (t < 2 ^ 256)%N) (log_Topics l).

(** The types with receipts, and fields of their widths. *)
Record receipt_ok (r : Receipt) : Prop := mk_receipt_ok {
  rok_type : In (Type_ r) [LegacyTxType; AccessListTxType; DynamicFeeTxType];
  rok_gas : is_u64 (CumulativeGasUsed r);
  rok_bloom : length (RBloom r) = 256%nat;
  rok_logs : Forall log_ok (Logs r);
  rok_status : (PostState r = [] /\ (Status r = ReceiptStatusFailed \/ Status r = ReceiptStatusSuccessful)) \/ (length (PostState r) = 32%nat /\ Status r = 0);
  rok_size : len (typedReceipt r) < 2 ^ 46
}.

Lemma rlp_rlpLog l : rlp rlpLogType (rlpLog l) = rlpLogBytes l.
Proof.
  unfold rlpLogType, rlpLog, rlpLogBytes. cbn [rlp]. change (fieldsWritten _ _) with 3%nat. cbn [take zip_with map fst concat orNil rlp]. rewrite map_map, app_nil_r. done.
Qed.

Lemma rlp_receipt r : rlp receiptRLPType (receiptRLP r) = rlpLst (receiptFields r).
Proof.
  unfold receiptRLPType, receiptRLP, receiptFields. cbn [rlp]. change (fieldsWritten _ _) with 4%nat. cbn [take zip_with map fst concat orNil rlp]. rewrite (map_map rlpLog), app_nil_r, (map_ext _ rlpLogBytes rlp_rlpLog). done.
Qed.

Lemma fits_receipt r : receipt_ok r -> fits receiptRLPType (receiptRLP r).
Proof.
  intros [_ Hg Hb Hl _ _]. cbn. split_and!; try done. apply Forall_forall. intros v Hv. apply in_map_iff in Hv as (l & <- & _). cbn. split_and!; [apply length_be_split|apply Forall_forall; intros t Ht; apply in_map_iff in Ht as (x & <- & _); cbn; apply length_hashBytes|done..].
Qed.

Lemma len_typedReceipt r : len (rlpLst (receiptFields r)) <= len (typedReceipt r).
Proof. unfold typedReceipt. case_match; [lia|]. rewrite len_cons. lia. Qed.

Lemma encode_receipt pooled r : len (encbuf.sizebuf pooled) = 9 -> receipt_ok r -> Encode pooled receiptRLPType (receiptRLP r) = Ok (inr (rlpLst (receiptFields r))).
Proof.
  intros Hp Hr. rewrite <- rlp_receipt. apply Encode_spec; [done|by apply fits_receipt|]. rewrite rlp_receipt. pose proof (len_typedReceipt r). pose proof (rok_size _ Hr). lia.
Qed.

Lemma len_rlpStr_u64 c : len c < 2 ^ 64 -> len (rlpStr c) <= len c + 9.
Proof.
  intros Hc. rewrite len_rlpStr. pose proof (len_nonneg c). destruct (single c) eqn:E; [destruct c as [|? []]; (done || (unfold len in *; cbn in *; lia))|].
  unfold headsize, intsize. destruct (len c <? 56); [lia|]. pose proof (byteLen_u64 (len c) ltac:(unfold is_u64; lia)). lia.
Qed.

(** * Reading back *)
(** What is kept of a log and of a receipt. *)
Definition consensusLog (l : Log) : Log := newLog (log_Address l) (log_Topics l) (log_Data l).
Definition consensusReceipt (r : Receipt) : Receipt :=
  mk_Receipt (Type_ r) (PostState r) (Status r) (CumulativeGasUsed r) (RBloom r) (map consensusLog (Logs r)) 0%N 0%N 0 0%N 0 0.

(** [new(Receipt)]. *)
Definition emptyReceipt : Receipt := mk_Receipt 0 [] 0 0 (replicate 256 Byte.x00) [] 0%N 0%N 0 0%N 0 0.

Lemma runs_decodeLog l b fs : log_ok l ->
  runs (at_ ((rlpStr (addrBytes (log_Address l)) ++ rlpLst (rlpKeys (log_Topics l)) ++ rlpStr (log_Data l)) :: b :: fs)) decodeLog (inr (consensusLog l)) (at_ (b :: fs)).
Proof.
  intros [Ha Ht]. unfold decodeLog. eapply runs_bind; [apply runs_wrapf, runs_Bytes|]. rewrite len_addrBytes. change (20 =? 20) with true. cbn [negb].
  eapply runs_bind; [apply runs_wrapf, runs_List|]. apply runs_fuel. intros n Hn.
  eapply runs_bind. { apply runs_decodeKeys; [|done]. cbn [concat] in Hn. rewrite length_app, length_rlpKeys in Hn. lia. }
  eapply runs_bind; [apply runs_wrapf, runs_ListEnd|]. eapply runs_bind; [apply runs_wrapf; rewrite <- (app_nil_r (rlpStr _)); apply runs_Bytes|]. eapply runs_bind; [apply runs_wrapf, runs_ListEnd|].
  rewrite bytes_to_N_addrBytes by done. apply runs_ok.
Qed.

Lemma length_rlpLogs logs : (length logs <= length (concat (map rlpLogBytes logs)))%nat.
Proof.
  induction logs as [|l logs IH]; [done|]. cbn [map concat length]. rewrite length_app. unfold rlpLogBytes at 1. set (c := rlpStr _ ++ _). pose proof (len_rlpLst c) as Hl. pose proof (headsize_pos (len c) ltac:(len_facts; lia)). len_facts. unfold len in *. lia.
Qed.

Lemma runs_decodeLogs logs fuel acc b fs : (length logs < fuel)%nat -> Forall log_ok logs ->
  runs (at_ (concat (map rlpLogBytes logs) :: b :: fs)) (decodeLogs fuel acc) (inr (acc ++ map consensusLog logs)) (at_ ([] :: b :: fs)).
Proof.
  revert fuel acc. induction logs as [|l logs IH]; intros [|fuel] acc Hf Hk; cbn [length] in Hf; try lia; cbn [decodeLogs].
  - rewrite app_nil_r. eapply runs_mbind; [by eapply (runs_EOL List_)|]. apply runs_ok.
  - apply Forall_cons_iff in Hk as [Hl Hk]. cbn [map concat]. unfold rlpLogBytes at 1. eapply runs_mbind; [apply runs_List|]. eapply runs_bind; [by apply runs_decodeLog|].
    replace (acc ++ consensusLog l :: map consensusLog logs) with ((acc ++ [consensusLog l]) ++ map consensusLog logs) by by rewrite <- app_assoc. apply IH; [lia|done].
Qed.

Lemma setStatus_encoding r t : receipt_ok r ->
  setStatus (statusEncoding r) (set_Type t emptyReceipt) = Some (set_Type t (set_PostState (PostState r) (set_Status (Status r) emptyReceipt))).
Proof.
  intros Hr. unfold statusEncoding, setStatus. destruct (rok_status _ Hr) as [[-> [-> | ->]]|[Hp ->]]; [done..|].
  destruct (PostState r) as [|x l] eqn:E; [done|]. assert (len (x :: l) = 32) as El by (unfold len; lia). rewrite El. change (32 =? 0) with false. cbv iota.
  rewrite !bool_decide_false; [by rewrite El|..]; intros H; apply (f_equal length) in H; rewrite !length_map in H; cbn in H, Hp; lia.
Qed.

Lemma runs_decodePayload P n0 r t b fs : receipt_ok r -> runs P List_ (inr n0) (at_ (receiptFields r :: b :: fs)) ->
  runs P (decodePayload (set_Type t emptyReceipt)) (inr (set_Type t (consensusReceipt r))) (at_ (b :: fs)).
Proof.
  intros Hr HP. unfold decodePayload. eapply runs_bind; [exact HP|]. unfold receiptFields. eapply runs_bind; [apply runs_wrapf, runs_Bytes|]. rewrite setStatus_encoding by done. cbn [default].
  eapply runs_bind; [apply runs_wrapf, runs_Uint, rok_gas, Hr|]. eapply runs_bind; [apply runs_wrapf, runs_Bytes|].
  assert (len (RBloom r) = 256) as -> by (unfold len; rewrite (rok_bloom _ Hr); done). change (256 =? 256) with true. cbn [negb].
  eapply runs_bind; [apply runs_wrapf; rewrite <- (app_nil_r (rlpLst _)); apply runs_List|]. apply runs_fuel. intros n Hn.
  eapply runs_bind. { apply (runs_decodeLogs (Logs r) n []); [|apply rok_logs, Hr]. cbn [concat] in Hn. rewrite length_app in Hn. pose proof (length_rlpLogs (Logs r)). lia. }
  eapply runs_bind; [apply runs_wrapf, runs_ListEnd|]. eapply runs_bind; [apply runs_wrapf, runs_ListEnd|]. apply runs_ok.
Qed.

(** C19: A receipt of a type that has receipts is read back, with the fields of
    consensus, from what EncodeRLP writes. *)
Theorem receipt_roundtrip pooled stream r : len (encbuf.sizebuf pooled) = 9 -> receipt_ok r ->
  let bs := if Type_ r =? LegacyTxType then typedReceipt r else rlpStr (typedReceipt r) in
  Receipt_EncodeRLP pooled r = Ok (inr bs) /\ DecodeBytes stream (Receipt_DecodeRLP emptyReceipt) bs = Ok (inr (consensusReceipt r)).
Proof.
  intros Hp Hr. cbn zeta. unfold Receipt_EncodeRLP, typedReceipt. rewrite encode_receipt by done. cbn [mbind outcome_bind]. pose proof (rok_size _ Hr) as Hs. unfold typedReceipt in Hs. destruct (Z.eqb_spec (Type_ r) LegacyTxType) as [Et|Et].
  - split; [done|]. apply DecodeBytes_runs; [lia|]. rewrite <- (app_nil_r (rlpLst _)). unfold rlpLst. rewrite <- app_assoc. unfold Receipt_DecodeRLP.
    eapply runs_bind; [apply runs_Kind_List; rewrite len_app; len_facts; lia|]. cbv iota. eapply runs_bind; [eapply (runs_decodePayload _ _ r 0); [done|apply runs_List_ahead]|].
    assert (set_Type LegacyTxType (set_Type 0 (consensusReceipt r)) = consensusReceipt r) as -> by (unfold consensusReceipt; rewrite Et; done). apply runs_ok.
  - assert (0 <= Type_ r < 128 /\ (Type_ r =? AccessListTxType) || (Type_ r =? DynamicFeeTxType) = true) as [Hb Ht] by (destruct (rok_type _ Hr) as [E|[E|[E|[]]]]; [by symmetry in E|rewrite <- E; done..]).
    set (c := byte.of_Z (Type_ r) :: rlpLst (receiptFields r)) in *. pose proof (len_le_rlpStr c) as Hle. assert (len (rlpStr c) < 2 ^ 47) as Hlen by (pose proof (len_rlpStr_u64 c ltac:(lia)); lia).
    split; [apply (Encode_spec pooled TBytes (VBytes (Some c)) Hp I); cbn; lia|]. apply DecodeBytes_runs; [done|]. rewrite <- (app_nil_r (rlpStr c)).
    unfold c. rewrite rlpStr_typed, <- app_assoc. change ([byte.of_Z (Type_ r)] ++ rlpLst (receiptFields r)) with c. fold c. unfold Receipt_DecodeRLP. eapply runs_bind; [apply runs_Kind_String; rewrite len_app; len_facts; lia|]. cbv iota.
    intros s Hst. destruct (at_NewList _ _ _ _ _ _ Hst) as (s1 & E1 & H1). rewrite (M_bind_Ok _ _ _ _ _ E1). clear E1. revert s1 H1.
    assert (c = rlpStr [byte.of_Z (Type_ r)] ++ rlpLst (receiptFields r) ++ []) as ->.
    { unfold rlpStr. cbn [single]. rewrite byte_small, (proj2 (Z.ltb_lt _ _)) by lia. by rewrite app_nil_r. }
    eapply runs_bind; [apply runs_wrapf, runs_Bytes|]. cbv beta iota zeta. rewrite byte_small by lia. rewrite Ht. eapply runs_bind; [eapply (runs_decodePayload _ _ r (Type_ r)); [done|apply runs_List]|].
    eapply runs_bind; [apply runs_ListEnd|]. assert (set_Type (Type_ r) (consensusReceipt r) = consensusReceipt r) as -> by done. apply runs_ok.
Qed.

(** * The receipts root *)
Lemma typedReceipt_long r : receipt_ok r -> 5 <= len (typedReceipt r).
Proof.
  intros Hr. pose proof (len_typedReceipt r). enough (256 <= len (rlpLst (receiptFields r))) by lia. rewrite len_rlpLst. unfold receiptFields. rewrite !len_app. pose proof (len_le_rlpStr (RBloom r)) as Hb. unfold len in Hb at 1. rewrite (rok_bloom _ Hr) in Hb.
  match goal with |- context [headsize ?n] => pose proof (headsize_pos n ltac:(len_facts; lia)) end. len_facts. lia.
Qed.

Section root.
Context {U : Uint256} {UB : Accounts.Uint256Bytes U} (keccak256 : list Byte.byte -> hash).

Lemma Receipts_EncodeIndex_typed pooled rs i : len (encbuf.sizebuf pooled) = 9 -> Forall receipt_ok rs ->
  Receipts_EncodeIndex pooled rs i = or_panic (lookupZ (map typedReceipt rs) i).
Proof.
  intros Hp Hr. rewrite Forall_forall in Hr. unfold Receipts_EncodeIndex. apply (EncodeIndex_map typedReceipt). intros r Hin. specialize (Hr r Hin). unfold encodeOrPanic, typedReceipt. rewrite encode_receipt by done. cbn [mbind outcome_bind].
  destruct (rok_type _ Hr) as [E|[E|[E|[]]]]; rewrite <- E; done.
Qed.

(** The receipts root of a block without deposits: the root of the trie of the
    encodings of its receipts. *)
Theorem receipts_root pooled rs : len (encbuf.sizebuf pooled) = 9 -> (forall bs, (keccak256 bs < 2 ^ 256)%N) -> rs <> [] -> len rs < 2 ^ 63 ->
  Forall (fun r => receipt_ok r /\ len (typedReceipt r) < 2 ^ 23) rs ->
  DeriveSha keccak256 (Receipts_EncodeIndex pooled rs) (len rs) = Ok (rootOf keccak256 (patriciaOf (indexed (map typedReceipt rs)))).
Proof.
  intros Hp Hk Hne Hl Hr. rewrite Forall_forall in Hr. assert (len rs = len (map typedReceipt rs)) as El by (unfold len; by rewrite length_map). rewrite El. apply DeriveSha_items; try done.
  - by destruct rs.
  - by rewrite <- El.
  - apply Forall_forall. intros v Hv. apply in_map_iff in Hv as (r & <- & Hin). split; [by apply typedReceipt_long, Hr|by apply Hr].
  - intros i _. apply Receipts_EncodeIndex_typed; [done|]. apply Forall_forall. intros r Hin. by apply Hr.
Qed.

Lemma traverseAll_ext f g steps : (forall i, f i = g i) -> forall succ st s, traverseAll keccak256 f steps succ st s = traverseAll keccak256 g steps succ st s.
Proof.
  intros Hfg. induction steps as [|[i next] steps IH]; intros succ st s; [done|]. cbn [traverseAll]. assert (traverser keccak256 f i next succ st = traverser keccak256 g i next succ st) as -> by (unfold traverser; by rewrite Hfg).
  unfold mbind, M_bind. destruct (traverser keccak256 g i next succ st s) as [[r s1]| | |]; [apply IH|done..].
Qed.

Lemma DeriveSha_ext f g n : (forall i, f i = g i) -> DeriveSha keccak256 f n = DeriveSha keccak256 g n.
Proof. intros Hfg. unfold DeriveSha. by rewrite (traverseAll_ext f g _ Hfg). Qed.

(** C31: The root does not cover the receipts of deposits: whatever their status, gas,
    blooms and logs are, it is the same. *)
Theorem deposit_receipts_uncommitted pooled rs rs' :
  Forall2 (fun r r' => r = r' \/ (Type_ r = DepositTxType /\ Type_ r' = DepositTxType)) rs rs' ->
  DeriveSha keccak256 (Receipts_EncodeIndex pooled rs) (len rs) = DeriveSha keccak256 (Receipts_EncodeIndex pooled rs') (len rs').
Proof.
  intros H2. unfold len. rewrite (Forall2_length H2). apply DeriveSha_ext. intros i. unfold Receipts_EncodeIndex, lookupZ. destruct (i <? 0); [done|].
  destruct (rs !! Z.to_nat i) as [r|] eqn:E1; destruct (rs' !! Z.to_nat i) as [r'|] eqn:E2; cbn [or_panic mbind outcome_bind].
  - destruct (Forall2_lookup_lr _ _ _ _ _ _ H2 E1 E2) as [->|[-> ->]]; done.
  - apply (Forall2_lookup_l _ _ _ _ _ H2) in E1 as (x & Ex & _). congruence.
  - apply (Forall2_lookup_r _ _ _ _ _ H2) in E2 as (x & Ex & _). congruence.
  - done.
Qed.
End root.

(** * Derived fields *)
Lemma deriveAll_length CreateAddress h number : forall txs senders rs i li p, length senders = length txs -> length rs = length txs -> length (deriveAll CreateAddress h number i li p txs senders rs) = length txs.
Proof. induction txs as [|tx txs IH]; intros [|se senders] [|r rs] i li p Hs Hr; try done. cbn in *. f_equal. apply IH; lia. Qed.

Definition gasOf (rs : list Receipt) : Z := foldr Z.add 0 (map RGasUsed rs).

Lemma deriveLogs_indices number h txHash i : forall logs li, 0 <= li -> li + len logs < 2 ^ 64 ->
  map log_Index (deriveLogs number h txHash i li logs) = seqZ li (len logs).
Proof.
  induction logs as [|l logs IH]; intros li Hli Hlen; [done|]. rewrite len_cons in *. len_facts. cbn [deriveLogs map deriveLog log_Index]. rewrite (u64_small (li + 1)) by (unfold is_u64; lia). rewrite IH by lia. rewrite (seqZ_cons li) by lia. f_equal. f_equal; lia.
Qed.

(** The running total of gas never falls. *)
Fixpoint ascendingFrom (p : Z) (rs : list Receipt) : Prop := match rs with [] => True | r :: rs => p <= CumulativeGasUsed r < 2 ^ 64 /\ ascendingFrom (CumulativeGasUsed r) rs end.

Lemma last_cons_default {A} (l : list A) : forall x d, List.last (x :: l) d = List.last l x.
Proof. induction l as [|y l IH]; intros x d; [done|]. change (List.last (x :: y :: l) d) with (List.last (y :: l) d). by rewrite !IH. Qed.

Lemma deriveAll_spec CreateAddress h number : forall txs senders rs i li p, length senders = length txs -> length rs = length txs -> 0 <= li -> li + len (concat (map Logs rs)) < 2 ^ 64 -> 0 <= default 0 p -> ascendingFrom (default 0 p) rs ->
  let rs' := deriveAll CreateAddress h number i li p txs senders rs in
  map log_Index (concat (map Logs rs')) = seqZ li (len (concat (map Logs rs))) /\
  default 0 p + gasOf rs' = List.last (map CumulativeGasUsed rs) (default 0 p) /\ Forall (fun r => 0 <= RGasUsed r) rs' /\ map RTxHash rs' = map ti_Hash txs /\ map TransactionIndex rs' = seqZ i (len txs).
Proof.
  induction txs as [|tx txs IH]; intros [|se senders] [|r rs] i li p Hs Hr Hli Hlen Hp Hasc; try done. { cbn. split_and!; [done|unfold gasOf; cbn; lia|constructor|done|done]. }
  cbn in Hs, Hr. cbn [map concat] in Hlen. rewrite len_app in Hlen. len_facts. destruct Hasc as [Hc Hasc]. cbn [deriveAll]. cbn zeta. rewrite (u64_small (li + len (Logs r))) by (unfold is_u64; lia).
  destruct (IH senders rs (i + 1) (li + len (Logs r)) (Some (CumulativeGasUsed r)) ltac:(lia) ltac:(lia) ltac:(lia) ltac:(lia) ltac:(cbn; lia) Hasc) as (R1 & R2 & R3 & R4 & R5). unfold default, from_option, id in R2.
  set (rest := deriveAll _ _ _ _ _ _ _ _ _) in *. assert (RGasUsed (deriveReceipt CreateAddress h number i li p tx se r) = CumulativeGasUsed r - default 0 p) as Eg by (unfold deriveReceipt; cbn [RGasUsed]; destruct p as [x|]; cbn in *; [apply u64_small; unfold is_u64; lia|lia]).
  split_and!.
  - cbn [map concat]. rewrite map_app, R1. cbn [Logs deriveReceipt]. rewrite deriveLogs_indices by lia. rewrite len_app. by rewrite <- seqZ_app by lia.
  - unfold gasOf in *. cbn [map foldr]. rewrite Eg. rewrite last_cons_default. lia.
  - constructor; [lia|done].
  - cbn [map]. by rewrite R4.
  - cbn [map]. rewrite R5, len_cons. rewrite (seqZ_cons i) by (len_facts; lia). cbn. f_equal. f_equal; lia.
Qed.

(** DeriveFields numbers the logs of a block from zero, gives each transaction the
    difference of the running totals, so that they add up to the total of the
    block, and only refuses lists of different lengths. *)
Theorem DeriveFields_correct CreateAddress h number txs senders rs : len (concat (map Logs rs)) < 2 ^ 64 -> ascendingFrom 0 rs ->
  match DeriveFields CreateAddress h number txs senders rs with
  | inl _ => length txs <> length rs \/ length senders <> length txs
  | inr rs' => map log_Index (concat (map Logs rs')) = seqZ 0 (len (concat (map Logs rs))) /\ gasOf rs' = List.last (map CumulativeGasUsed rs) 0 /\
      Forall (fun r => 0 <= RGasUsed r) rs' /\ map RTxHash rs' = map ti_Hash txs /\ map TransactionIndex rs' = seqZ 0 (len txs)
  end.
Proof.
  intros Hlen Hasc. unfold DeriveFields. destruct (Z.eqb_spec (len txs) (len rs)) as [E1|E1]; cbn [negb]; [|left; unfold len in E1; lia]. destruct (Z.eqb_spec (len senders) (len txs)) as [E2|E2]; cbn [negb]; [|right; unfold len in E2; lia].
  unfold len in E1, E2. destruct (deriveAll_spec CreateAddress h number txs senders rs 0 0 None ltac:(lia) ltac:(lia) ltac:(lia) ltac:(lia) ltac:(cbn; lia) Hasc) as (H1 & H2 & H3 & H4 & H5). by split_and!.
Qed.

(** * Concrete receipts *)
Module receiptdemo.
#[local] Existing Instance accountdemo.bytes256.

Definition transferLog : Log := mk_Log 7%N [1; 2]%N [Byte.x2a] 5 6%N 0 8%N 3.

(** A successful call with a log, and a failed one with a post state as before
    Byzantium. *)
Definition receipt1 : Receipt := mk_Receipt DynamicFeeTxType [] 1 21000 (replicate 256 Byte.x01) [transferLog] 9%N 0%N 21000 8%N 5 0.
Definition receipt2 : Receipt := mk_Receipt LegacyTxType (replicate 32 Byte.x02) 0 50000 (replicate 256 Byte.x00) [] 10%N 0%N 29000 8%N 5 1.
Definition depositReceipt (status gas : Z) : Receipt := mk_Receipt DepositTxType [] status gas (replicate 256 Byte.x00) [] 11%N 0%N 0 8%N 5 0.

Lemma receipt1_ok : receipt_ok receipt1.
Proof. split; [right; right; by left|by split|done|repeat constructor|left; split; [done|by right]|vm_compute; reflexivity]. Qed.

Lemma receipt2_ok : receipt_ok receipt2.
Proof. split; [by left|by split|done|constructor|by right|vm_compute; reflexivity]. Qed.

Lemma receipt_roundtrip_witness :
  Receipt_EncodeRLP encbuf.new receipt1 = Ok (inr (rlpStr (typedReceipt receipt1))) /\
  DecodeBytes (NewStream true [] 0) (Receipt_DecodeRLP emptyReceipt) (rlpStr (typedReceipt receipt1)) = Ok (inr (consensusReceipt receipt1)).
Proof. exact (receipt_roundtrip encbuf.new (NewStream true [] 0) receipt1 eq_refl receipt1_ok). Defined.

Lemma receipts_root_witness :
  DeriveSha triedemo.mix (Receipts_EncodeIndex encbuf.new [receipt1; receipt2]) 2 = Ok (rootOf triedemo.mix (patriciaOf (indexed (map typedReceipt [receipt1; receipt2])))).
Proof.
  apply (receipts_root triedemo.mix encbuf.new [receipt1; receipt2] eq_refl triedemo.mix_range); [discriminate|reflexivity|].
  repeat constructor; try apply receipt1_ok; try apply receipt2_ok; vm_compute; reflexivity.
Defined.

Lemma deposit_receipts_uncommitted_witness :
  DeriveSha triedemo.mix (Receipts_EncodeIndex encbuf.new [depositReceipt 1 21000; receipt2]) 2 = DeriveSha triedemo.mix (Receipts_EncodeIndex encbuf.new [depositReceipt 0 99999; receipt2]) 2.
Proof. apply (deposit_receipts_uncommitted triedemo.mix encbuf.new [depositReceipt 1 21000; receipt2] [depositReceipt 0 99999; receipt2]). constructor; [by right|]. constructor; [by left|constructor]. Defined.

Lemma DeriveFields_correct_witness :
  exists rs', DeriveFields (fun _ _ => 0%N) 8%N 5 [mk_TxInfo 2 9%N (Some 1%N) 0; mk_TxInfo 0 10%N None 1] [1; 1]%N [receipt1; receipt2] = inr rs' /\ gasOf rs' = 50000 /\ map log_Index (concat (map Logs rs')) = [0].
Proof.
  pose proof (DeriveFields_correct (fun _ _ => 0%N) 8%N 5 [mk_TxInfo 2 9%N (Some 1%N) 0; mk_TxInfo 0 10%N None 1] [1; 1]%N [receipt1; receipt2] eq_refl ltac:(repeat split; done)) as (H1 & H2 & _).
  eexists. split; [reflexivity|]. split; [exact H2|exact H1].
Defined.

(** A status that is neither zero, one nor a root is not refused: the receipt
    that is decoded has failed. *)
Example invalid_status_accepted :
  let bs := rlpLst (rlpStr [Byte.x07] ++ rlpNumber 21000 ++ rlpStr (replicate 256 Byte.x00) ++ rlpLst []) in
  exists r, DecodeBytes (NewStream true [] 0) (Receipt_DecodeRLP emptyReceipt) bs = Ok (inr r) /\ Status r = ReceiptStatusFailed /\ setStatus [Byte.x07] emptyReceipt = None.
Proof. eexists. split; [vm_compute; reflexivity|]. split; reflexivity. Qed.
End receiptdemo.
